(* ===== verification/_CoqProject ===== *)
-Q . S2P
Prelude.v
Bytes.v
Codec.v
Hash.v
Transaction.v
Block.v
ScriptValue.v
ScriptAst.v
ScriptCodec.v
U256.v
Jets.v
Typecheck.v
ScriptCost.v
Eval.v
EvalSpec.v
Reward.v
FeeCost.v
Difficulty.v
Smt.v
Utxo.v
TxValidation.v
BlockValidation.v
BlockApply.v
Mempool.v
Miner.v
Covenants.v
CovenantSpec.v
CovenantTemplates.v
Wire.v
FrameBudget.v
Storage.v
ChainManager.v
StoreView.v
ChainModel.v
StorageFacts.v
ChainStore.v
ChainState.v
ChainWitness.v
SnapshotFacts.v
SnapshotReorg.v
ChainOpen.v
ChainBoot.v
BootWitness.v
TipValidation.v
TipSoundness.v
TipCoordinator.v
TipWitness.v
PeerRegistry.v
PeerFacts.v
PeerPolicy.v
PolicyFacts.v
BlockRelay.v
RelayFacts.v
RelaySafety.v
RelayWitness.v
Download.v
DownloadSafety.v
DownloadWitness.v
Reader.v
ReaderSafety.v
ReaderWitness.v
Genesis.v
Wallet.v
WalletFacts.v
WalletWitness.v
Framing.v
FramingFacts.v
FramingSafety.v
Handshake.v
HandshakeFacts.v
HandshakeSafety.v
ConnectionWitness.v
