(* ===== verification/Prelude.v ===== *)
(** * Exfer: a verification library

    Exfer is a proof-of-work UTXO chain whose outputs are locked by public-key
    hashes or by programs of a small combinator language (Exfer script).  This
    library models the node of the Rust implementation, from its encodings and
    consensus rules to its database, its peers and its wallet, and proves it
    correct.  Source paths below are relative to the crate, [src/src/] in the
    repository.

    ** The parts of the program and how they interact

    Transactions, headers and blocks ([types/]) are byte strings with a
    canonical encoding; their identifiers and Merkle roots are domain-separated
    SHA-256 hashes.  A transaction spends outpoints and creates outputs.
    Applying it updates the UTXO set ([chain/state.rs]), which keeps a sparse
    Merkle tree ([chain/smt.rs]) whose root goes into the header, and a script
    index for queries.  Script-locked outputs are spent by evaluating a program
    ([script/eval.rs]) that was decoded ([script/serialize.rs]), checked for
    structure ([script/ast.rs]), typed ([script/typecheck.rs]) and costed
    ([script/cost.rs]), with primitive operations as jets ([script/jets/]);
    [covenants/] builds such programs.  The rules for transactions and blocks
    are in [consensus/validation.rs]; difficulty, proof of work, fees and
    subsidy beside it.

    A node keeps its chain in tables of an embedded database
    ([chain/storage.rs]) and opens it at start-up ([chain/open.rs]).
    [process_block] ([network/sync.rs]) extends the tip, keeps forks, and
    reorganises the chain in one database transaction.  Transactions wait in the
    pool ([mempool/]); the miner ([miner/]) makes templates from it.  Peers
    connect with a handshake and talk in authenticated frames
    ([network/peer.rs]) that carry the messages of [network/protocol.rs]; one
    session per peer answers requests and hands blocks to one task that resolves
    orphans, future blocks and reorganisations, and downloads missing blocks.
    Claims about better tips are validated forward before they are believed
    ([network/tip_validation.rs]).  Registry, address book, rate limits and bans
    protect the node.  The wallet ([wallet/]) signs payments from what a node
    reports.

    ** Files

    Basics:
    - [Prelude]: the [result] type and its [let?]/[let!] notations (Rust's [?]),
      machine-integer operations, loop combinators and their induction lemmas.
    - [Bytes]: bytes, slices, little- and big-endian values.  [Codec]: the class
      a serialiser and a parser discharge (round trip and canonicity).
    - [Hash] ([types/hash.rs]), [Transaction] ([types/transaction.rs]), [Block]
      ([types/block.rs]).

    Scripts:
    - [ScriptValue] ([script/types.rs], [script/value.rs]), [ScriptAst]
      ([script/ast.rs]), [ScriptCodec] ([script/serialize.rs]), [U256] and [Jets]
      ([script/jets/]), [Typecheck], [ScriptCost], [Eval] (the files of these
      names), [EvalSpec]: a big-step semantics for the evaluator.
    - [Covenants] ([covenants/]), [CovenantSpec]: what a covenant promises,
      [CovenantTemplates]: that the templates keep it, as EXFER.md describes them.

    Consensus and state:
    - [Reward], [FeeCost], [Difficulty] ([consensus/], [chain/fork_choice.rs],
      [types/amount.rs]); [Smt], [Utxo] ([chain/smt.rs], [chain/state.rs]).
    - [TxValidation], [BlockValidation] ([consensus/validation.rs]) and
      [BlockApply], the proofs about applying blocks; [Mempool]
      ([mempool/mempool.rs]); [Miner] ([miner/miner.rs]); [Genesis]
      ([genesis.rs]).

    The node:
    - [Storage] ([chain/storage.rs]) and [StorageFacts]; [ChainManager]
      ([process_block] and what it calls, in [network/sync.rs]).  [StoreView] is
      the interface of a UTXO store, [ChainModel] the mathematics of chains,
      [ChainStore] a chain in the tables, [ChainState] the invariant of the node,
      [SnapshotFacts] the persisted UTXO set and [SnapshotReorg] the same after
      reorganisations, [ChainWitness] a small network.
    - [ChainOpen] ([chain/open.rs]), [ChainBoot], [BootWitness]: start-up.
    - [TipValidation] ([network/tip_validation.rs] and its caller),
      [TipSoundness], [TipCoordinator], [TipWitness]: forward validation.
    - [BlockRelay], [RelayFacts], [RelaySafety], [RelayWitness]: blocks from
      peers; [Download], [DownloadSafety], [DownloadWitness]: the download of a
      chain; both in [network/sync.rs].
    - [PeerRegistry], [PeerFacts], [PeerPolicy], [PolicyFacts]: sessions,
      eviction, bans (also their restoration in [main.rs]), limits and addresses;
      [Reader], [ReaderSafety],
      [ReaderWitness]: the session with a peer; all in [network/sync.rs].
    - [Wire] ([network/protocol.rs]), [FrameBudget] ([network/frame_budget.rs]),
      [Framing], [FramingFacts], [FramingSafety], [Handshake], [HandshakeFacts],
      [HandshakeSafety], [ConnectionWitness] ([network/peer.rs]).
    - [Wallet], [WalletFacts], [WalletWitness] ([wallet/]).

    Files in [...Witness] instantiate every parameter and run the theorems on
    concrete blocks, peers and keys.

    ** What the theorems show

    - Encodings: round trip and canonicity of transactions, headers, blocks,
      values, programs and messages.  Identifiers, Merkle roots, program
      commitments, transcripts and the state root determine what they commit to,
      unless two strings that were actually hashed collide; the hypothesis names
      those strings.
    - Scripts: structure validation accepts exactly rooted forward graphs; type
      checking returns, accepts exactly the programs that the typing rules type, and
      reports their types up to resolved wildcards; evaluation refines the big-step semantics; an
      admitted script never hits an internal error; the static cost suffices; the
      covenant templates are exactly their covenants.
    - Consensus: an accepted transaction or block obeys the rules, a rejected block
      with new identifiers leaves no trace, undoing an accepted block restores the state, the ways to
      apply a block agree, and the supply follows the schedule.
    - State: the arena tree refines the uncompressed tree without panicking; the
      UTXO set refines a plain map; the pool stays consistent; the miner's
      templates are accepted when their undo metadata is within the limit.
    - The node: memory and database agree on one valid chain after every block,
      reorganisation and failure of storage but one, and the tip only gets better;
      [process_block] returns, and is atomic but for that failure; a restart restores
      the state, after reorganisations too, and a foreign or damaged database is
      refused.
    - The network: relaying, orphans and downloads keep that invariant whatever
      peers send; a session cannot harm the node, and the session task records no
      strike against a well-behaved peer; verified tips are real, honest peers get verified; registry and
      bans hold.  Handshakes authenticate, honest ends agree, and the frames of a
      session are an ordered channel.
    - The wallet: what it builds is accepted, with its three exceptions named; it
      trusts only the named chain and
      the requested outputs, and its key files can be read again.

    ** Choices, bounds and fuel

    A [w]-bit integer is a [Z] with its wrap-around, check or saturation written
    out.  A panic is [None].  Times are nanoseconds or seconds in [Z].  Fuel is
    enough wherever it appears, and the theorems say that a result is returned:
    [Eval.eval_node] recurses on the code's own depth limit; [Smt] follows
    indices with 258 steps, since depths increase up to 256; [Hash.merkle_root]
    halves a list with its length as fuel; searches for a fork take the smaller
    height plus one; reorganisations and walks take the number of heights; loops
    that remove or evict take the size of what they work on ([Mempool],
    [PeerPolicy], [BlockRelay]); the orphan loop takes one round per orphan; tip
    validation takes the
    lookback of 4,319 headers or the distance from the anchor; stage A takes one
    round per batch up to the checkpoint, stage B and the batches one per height;
    a frame counter takes eight reads and a payload one per chunk of 32 KiB;
    loops that wait take the events before their deadline; the search for a
    nonce takes the nonces tried.  Node indices of the tree are 32 bits wide, so
    its theorems bound the number of operations; a block takes at most seven per
    byte ([BlockApply.block_room]).

    ** Hypotheses

    - The cryptographic crates are parameters ([Sha2], [Argon2], [Ed25519],
      [Signer], [Hmac], [Aes256Gcm], [Montgomery]); a theorem states what it
      needs of them (widths, that signatures verify, that both ends of a key
      exchange agree).  For authentic frames and handshakes the hypothesis is
      about one connection: what came over it and verifies was made by the owner of
      the key ([HandshakeFacts.not_forged]); it does not say that other signatures
      do not exist.
    - [ChainModel.World]: the blocks under discussion have different identifiers
      when they are different, and blocks at different heights do not repeat a
      coinbase transaction.  A peer can send such blocks, and the code mishandles
      them (a fault found in the code); the theorems on the node exclude them.
    - The database may fail at every call.  The read of the fork point's work in
      the middle of a reorganisation is the exception: when it fails the UTXO set and
      the chain part (a fault found in the code).  The theorem on one call
      ([ChainState.process_block_atomic]) says what is left; those on sequences of
      calls exclude it.
    - For start-up, no reorganisation in the history of the database orphans a
      block that spends an output it has created ([ChainBoot.grown_reorg]): the UTXO
      table then keeps extra rows (another fault found in the code).
    - What a task sees from outside (clocks, channels, the order of hash maps,
      messages, failures) is an arbitrary argument.
    - The UTXO set has room for the outputs ([Utxo]), or a theorem on the node says
      [lost] where it has not ([StoreView]); the iteration over it gives
      every entry once ([WalletFacts.lists]).

    ** Not modelled

    Command line, HTTP server and event stream ([main.rs], [rpc.rs],
    [rpc_sse.rs], [events.rs]) are front ends over third-party servers and
    parsers.  Of [network/sync.rs] the supervising loops are left out: dialling,
    the pacing of requests and the scheduling of downloads (their decisions are
    modelled), and the token bucket of floating-point numbers, which only delays.
    The redb and tokio crates are modelled by what the code uses of them.  Log
    lines, error texts that no one reads, terminal prompts, and the developer
    tools in [bin/] are left out. *)

From Stdlib Require Export ZArith Lia.
From Stdlib Require Export Init.Byte.
From Stdlib Require Strings.Byte.
From stdpp Require Export base tactics option list gmap strings pretty numbers sorting.

#[global] Open Scope Z_scope.
#[global] Set Default Goal Selector "1".

(** ** Fallible code: [Result<A, E>] *)

Inductive result (E A : Type) : Type :=
| Ok (a : A)
| Err (e : E).
Arguments Ok {E A} a.
Arguments Err {E A} e.

Declare Scope exfer_scope.
Delimit Scope exfer_scope with exfer.
#[global] Open Scope exfer_scope.

(** Rust's [?] operator. *)
Notation "'let?' x ':=' c 'in' k" :=
  (match c with Ok x => k | Err e => Err e end)
  (at level 10, x pattern, c at level 100, k at level 200,
   format "'[hv' 'let?'  x  ':='  c  'in'  '//' k ']'") : exfer_scope.

(** The same on [Option]. *)
Notation "'let!' x ':=' c 'in' k" :=
  (match c with Some x => k | None => None end)
  (at level 10, x pattern, c at level 100, k at level 200,
   format "'[hv' 'let!'  x  ':='  c  'in'  '//' k ']'") : exfer_scope.

Definition ok_or {E A} (o : option A) (e : E) : result E A :=
  match o with Some a => Ok a | None => Err e end.

Definition map_err {E F A} (f : E -> F) (r : result E A) : result F A :=
  match r with Ok a => Ok a | Err e => Err (f e) end.

Lemma map_err_Ok {E F A} (f : E -> F) (r : result E A) a : map_err f r = Ok a -> r = Ok a.
Proof. by destruct r; intros [= ->]. Qed.

Definition is_ok {E A} (r : result E A) : bool :=
  match r with Ok _ => true | Err _ => false end.

Definition is_err {E A} (r : result E A) : bool := negb (is_ok r).

#[export] Instance result_eq_dec {E A} `{EqDecision E, EqDecision A} : EqDecision (result E A).
Proof. solve_decision. Defined.

(** ** Machine integers: a [w]-bit unsigned integer is a [Z] in [[0, 2^w)] *)

Definition U8_MAX : Z := 255.
Definition U16_MAX : Z := 65535.
Definition U32_MAX : Z := 4294967295.
Definition U64_MAX : Z := 18446744073709551615.
Definition U128_MAX : Z := 340282366920938463463374607431768211455.
Definition U256_MAX : Z := 2 ^ 256 - 1.

Definition in_u8 (z : Z) : Prop := 0 <= z <= U8_MAX.
Definition in_u16 (z : Z) : Prop := 0 <= z <= U16_MAX.
Definition in_u32 (z : Z) : Prop := 0 <= z <= U32_MAX.
Definition in_u64 (z : Z) : Prop := 0 <= z <= U64_MAX.
Definition in_u128 (z : Z) : Prop := 0 <= z <= U128_MAX.

(** Release-profile arithmetic wraps; [checked_*] and [saturating_*] as in
    the standard library. *)
Definition wrap64 (z : Z) : Z := z mod 2 ^ 64.
Definition wrap128 (z : Z) : Z := z mod 2 ^ 128.

Definition checked (max z : Z) : option Z :=
  if (0 <=? z) && (z <=? max) then Some z else None.
Definition checked_add (max a b : Z) : option Z := checked max (a + b).
Definition checked_sub (max a b : Z) : option Z := checked max (a - b).
Definition checked_mul (max a b : Z) : option Z := checked max (a * b).
Definition saturating_sub (a b : Z) : Z := Z.max 0 (a - b).
Definition saturating_add (max a b : Z) : Z := Z.min max (a + b).
Definition saturating_mul (max a b : Z) : Z := Z.min max (a * b).
Definition div_ceil (a b : Z) : Z := (a + b - 1) / b.

Lemma checked_Some max z r :
  checked max z = Some r <-> 0 <= z <= max /\ r = z.
Proof. unfold checked. destruct (0 <=? z) eqn:?, (z <=? max) eqn:?; simpl; naive_solver lia. Qed.

Lemma checked_None max z : checked max z = None <-> z < 0 \/ max < z.
Proof. unfold checked. destruct (0 <=? z) eqn:?, (z <=? max) eqn:?; simpl; naive_solver lia. Qed.

(** ** Loops *)

(** [for i in (0..n).rev() { s = body(i, s) }], and its fallible form. *)
Fixpoint rev_iter {A} (body : nat -> A -> A) (n : nat) (s : A) : A :=
  match n with O => s | S i => rev_iter body i (body i s) end.
Fixpoint rev_for {E A} (body : nat -> A -> result E A) (n : nat) (s : A) : result E A :=
  match n with O => Ok s | S i => let? s := body i s in rev_for body i s end.
(** [for i in i0..i0+n { s = body(i, s) }] *)
Fixpoint fwd_iter {A} (body : nat -> A -> A) (i n : nat) (s : A) : A :=
  match n with O => s | S n => fwd_iter body (S i) n (body i s) end.

(** A loop invariant along [for i in i0..i0+n]. *)
Lemma fwd_iter_inv {S} (I : nat -> S -> Prop) body i n s :
  (forall k s, (k < i + n)%nat -> I k s -> I (k + 1)%nat (body k s)) -> I i s ->
  I (i + n)%nat (fwd_iter body i n s).
Proof.
  revert i s. induction n as [|n IH]; intros i s Hstep Hi; simpl; [by rewrite Nat.add_0_r|].
  replace (i + Datatypes.S n)%nat with (Datatypes.S i + n)%nat by lia. apply IH.
  - intros k s' Hk. apply Hstep. lia.
  - replace (Datatypes.S i) with (i + 1)%nat by lia. apply Hstep; [lia|done].
Qed.

Section RevFill.
Context {A : Type} (f : nat -> list A -> A).

(** [arr[i] = f(i, &arr)] for [i] from [n - 1] down to [0] *)
Definition rev_fill (n : nat) (arr : list A) : list A :=
  rev_iter (fun i arr => <[i := f i arr]> arr) n arr.

Lemma rev_fill_length n arr : length (rev_fill n arr) = length arr.
Proof.
  unfold rev_fill. revert arr. induction n as [|n IH]; intros arr; [done|]. simpl. rewrite IH.
  apply length_insert.
Qed.

Lemma rev_fill_above n arr i : (n <= i)%nat -> rev_fill n arr !! i = arr !! i.
Proof.
  unfold rev_fill. revert arr. induction n as [|n IH]; intros arr Hi; [done|]. simpl.
  rewrite IH by lia. apply list_lookup_insert_ne. lia.
Qed.

(** [f i] reads only the entries above [i]. *)
Hypothesis f_above : forall i arr arr',
  length arr = length arr' -> (forall j, (i < j)%nat -> arr !! j = arr' !! j) -> f i arr = f i arr'.

Lemma rev_fill_spec n arr i :
  (n <= length arr)%nat -> (i < n)%nat -> rev_fill n arr !! i = Some (f i (rev_fill n arr)).
Proof.
  revert arr. induction n as [|n IH]; intros arr Hn Hi; [lia|].
  change (rev_fill (S n) arr) with (rev_fill n (<[n := f n arr]> arr)).
  destruct (decide (i = n)) as [->|].
  - rewrite rev_fill_above by lia. rewrite list_lookup_insert_eq by lia. f_equal. apply f_above.
    + by rewrite rev_fill_length, length_insert.
    + intros j Hj. rewrite rev_fill_above by lia. rewrite list_lookup_insert_ne by lia. done.
  - apply IH; [rewrite length_insert; lia | lia].
Qed.
End RevFill.

(** The same loop when computing an entry can fail. *)
Section RevFillFor.
Context {E A : Type} (f : nat -> list A -> result E A).

Definition rev_fill_for (n : nat) (arr : list A) : result E (list A) :=
  rev_for (fun i arr => let? x := f i arr in Ok (<[i := x]> arr)) n arr.

Lemma rev_fill_for_keep n arr arr' :
  rev_fill_for n arr = Ok arr' ->
  length arr' = length arr /\ forall i, (n <= i)%nat -> arr' !! i = arr !! i.
Proof.
  unfold rev_fill_for. revert arr. induction n as [|n IH]; intros arr Hr; simpl in Hr.
  { by injection Hr as ->. }
  destruct (f n arr) as [x|]; [|discriminate]. apply IH in Hr as [Hl Hk].
  rewrite length_insert in Hl. split; [done|]. intros i Hi. rewrite Hk by lia.
  apply list_lookup_insert_ne. lia.
Qed.

Hypothesis f_above : forall i arr arr',
  length arr = length arr' -> (forall j, (i < j)%nat -> arr !! j = arr' !! j) -> f i arr = f i arr'.

Lemma rev_fill_for_spec n arr arr' :
  rev_fill_for n arr = Ok arr' -> (n <= length arr)%nat ->
  forall i, (i < n)%nat -> exists x, f i arr' = Ok x /\ arr' !! i = Some x.
Proof.
  revert arr. induction n as [|n IH]; intros arr Hr Hn i Hi; [lia|].
  unfold rev_fill_for in Hr. simpl in Hr. destruct (f n arr) as [x|] eqn:Ex; [|discriminate].
  fold (rev_fill_for n (<[n := x]> arr)) in Hr. destruct (decide (i = n)) as [->|].
  - apply rev_fill_for_keep in Hr as [Hl Hk]. exists x. split.
    + rewrite <- Ex. apply f_above; [by rewrite Hl, length_insert|].
      intros j Hj. rewrite Hk by lia. apply list_lookup_insert_ne. lia.
    + rewrite Hk by lia. apply list_lookup_insert_eq. lia.
  - eapply IH; [done|rewrite length_insert; lia|lia].
Qed.

(** Conversely, a complete array of results is what the loop computes. *)
Lemma rev_fill_for_complete n arr arr' :
  length arr = length arr' -> (n <= length arr')%nat ->
  (forall j, (n <= j)%nat -> arr !! j = arr' !! j) ->
  (forall i, (i < n)%nat -> exists x, f i arr' = Ok x /\ arr' !! i = Some x) ->
  rev_fill_for n arr = Ok arr'.
Proof.
  revert arr. induction n as [|n IH]; intros arr Hl Hn Hk Hf; unfold rev_fill_for; simpl.
  { f_equal. apply list_eq. intros j. apply Hk. lia. }
  destruct (Hf n) as (x & Hx & Hax); [lia|].
  rewrite (f_above n arr arr' Hl), Hx by (intros j Hj; apply Hk; lia).
  apply IH; [by rewrite length_insert|lia| |intros i Hi; apply Hf; lia].
  intros j Hj. destruct (decide (j = n)) as [->|].
  - rewrite list_lookup_insert_eq by lia. done.
  - rewrite list_lookup_insert_ne by done. apply Hk. lia.
Qed.

(** A failure is the failure of one entry, the entries above it filled. *)
Lemma rev_fill_for_err n arr e :
  rev_fill_for n arr = Err e ->
  exists i arr', (i < n)%nat /\ f i arr' = Err e /\ length arr' = length arr /\
    (forall j, (n <= j)%nat -> arr' !! j = arr !! j) /\
    (forall j, (i < j < n)%nat -> (n <= length arr)%nat -> exists x arr'', f j arr'' = Ok x /\ arr' !! j = Some x).
Proof.
  revert arr. induction n as [|n IH]; intros arr Hr; [done|].
  unfold rev_fill_for in Hr. simpl in Hr. destruct (f n arr) as [x|e'] eqn:Ex.
  - fold (rev_fill_for n (<[n := x]> arr)) in Hr. apply IH in Hr as (i & arr' & Hi & He & Hl & Hk & Hf).
    rewrite length_insert in *. exists i, arr'. split_and!; [lia|done|done|..].
    + intros j Hj. rewrite Hk by lia. apply list_lookup_insert_ne. lia.
    + intros j Hj Hn. destruct (decide (j = n)) as [->|]; [|apply Hf; lia].
      exists x, arr. split; [done|]. rewrite Hk by lia. apply list_lookup_insert_eq. lia.
  - injection Hr as <-. exists n, arr. split_and!; [lia|done|done|done|]. intros j Hj. lia.
Qed.
End RevFillFor.

(** ** Checks over collections *)

(** [for (idx, x) in xs.iter().enumerate() { check(idx, x)? }], from [i] on *)
Fixpoint for_enum {E A} (check : Z -> A -> result E unit) (i : Z) (xs : list A) : result E unit :=
  match xs with
  | [] => Ok tt
  | x :: xs => let? _ := check i x in for_enum check (i + 1) xs
  end.
(** [for x in xs { check(x)? }] *)
Definition for_each {E A} (check : A -> result E unit) (xs : list A) : result E unit :=
  for_enum (fun _ => check) 0 xs.

Lemma for_enum_Ok {E A} (check : Z -> A -> result E unit) i xs :
  for_enum check i xs = Ok tt <-> forall k x, xs !! k = Some x -> check (i + Z.of_nat k) x = Ok tt.
Proof.
  revert i. induction xs as [|x xs IH]; intros i; cbn [for_enum]; [done|]. split.
  - destruct (check i x) as [[]|] eqn:E1; [|done]. intros Hxs [|k] y; cbn [lookup].
    + intros [= <-]. by rewrite Z.add_0_r.
    + intros Hk. replace (i + Z.of_nat (S k)) with (i + 1 + Z.of_nat k) by lia. by apply IH.
  - intros Hall. pose proof (Hall 0%nat x eq_refl) as H0. rewrite Z.add_0_r in H0. rewrite H0. apply IH.
    intros k y Hk. replace (i + 1 + Z.of_nat k) with (i + Z.of_nat (S k)) by lia. by apply Hall.
Qed.

Lemma for_each_Ok {E A} (check : A -> result E unit) xs :
  for_each check xs = Ok tt <-> Forall (fun x => check x = Ok tt) xs.
Proof.
  unfold for_each. rewrite for_enum_Ok, Forall_lookup. done.
Qed.

(** The error is that of the first element that fails. *)
Lemma for_enum_Err {E A} (check : Z -> A -> result E unit) i xs e :
  for_enum check i xs = Err e <->
  exists k x, xs !! k = Some x /\ check (i + Z.of_nat k) x = Err e /\
    forall j y, (j < k)%nat -> xs !! j = Some y -> check (i + Z.of_nat j) y = Ok tt.
Proof.
  revert i. induction xs as [|x xs IH]; intros i; cbn [for_enum]; [split; [done|by intros (k & x & ? & _)]|].
  destruct (check i x) as [[]|e'] eqn:E1.
  - rewrite IH. split.
    + intros (k & y & Hk & He & Hlt). exists (S k), y. replace (i + Z.of_nat (S k)) with (i + 1 + Z.of_nat k) by lia.
      split_and!; [done|done|]. intros [|j] z Hj; cbn [lookup].
      * intros [= <-]. by rewrite Z.add_0_r.
      * intros Hz. replace (i + Z.of_nat (S j)) with (i + 1 + Z.of_nat j) by lia. apply Hlt; [lia|done].
    + intros ([|k] & y & Hk & He & Hlt); [injection Hk as ->; rewrite Z.add_0_r in He; congruence|].
      exists k, y. replace (i + 1 + Z.of_nat k) with (i + Z.of_nat (S k)) by lia. split_and!; [done|done|].
      intros j z Hj Hz. replace (i + 1 + Z.of_nat j) with (i + Z.of_nat (S j)) by lia. apply Hlt; [lia|done].
  - split.
    + intros [= ->]. exists 0%nat, x. rewrite Z.add_0_r. split_and!; [done|done|lia].
    + intros ([|k] & y & Hk & He & Hlt); [injection Hk as ->; rewrite Z.add_0_r in He; congruence|].
      specialize (Hlt 0%nat x ltac:(lia) eq_refl). rewrite Z.add_0_r in Hlt. congruence.
Qed.

(** [for x in xs { if !seen.insert(x) { return Err(dup(x)) } }] on a hash set *)
Fixpoint insert_all {E A} `{Countable A} (dup : A -> E) (seen : gset A) (xs : list A) : result E (gset A) :=
  match xs with
  | [] => Ok seen
  | x :: xs => if bool_decide (x ∈ seen) then Err (dup x) else insert_all dup ({[x]} ∪ seen) xs
  end.

Lemma insert_all_Ok {E A} `{Countable A} (dup : A -> E) seen xs :
  is_ok (insert_all dup seen xs) = true <-> NoDup xs /\ forall x, x ∈ xs -> x ∉ seen.
Proof.
  revert seen. induction xs as [|x xs IH]; intros seen; cbn [insert_all is_ok].
  { split; [|done]. intros _. split; [constructor|]. intros x Hx. by apply not_elem_of_nil in Hx. }
  destruct (bool_decide (x ∈ seen)) eqn:Ex; [apply bool_decide_eq_true in Ex|apply bool_decide_eq_false in Ex].
  - split; [done|]. intros [_ Hx]. destruct (Hx x); [left|done].
  - rewrite IH, NoDup_cons. setoid_rewrite elem_of_cons. set_solver.
Qed.

Lemma insert_all_Err {E A} `{Countable A} (dup : A -> E) seen xs e :
  insert_all dup seen xs = Err e -> exists x, x ∈ xs /\ e = dup x.
Proof.
  revert seen. induction xs as [|x xs IH]; intros seen; cbn [insert_all]; [done|]. destruct (bool_decide _).
  - intros [= <-]. exists x. split; [left|done].
  - intros (y & Hy & ->)%IH. exists y. split; [by right|done].
Qed.

(** The integers of a list added up. *)
Definition sum_of {A} (f : A -> Z) (xs : list A) : Z := foldr (fun x t => f x + t) 0 xs.

Lemma sum_of_cons {A} (f : A -> Z) x xs : sum_of f (x :: xs) = f x + sum_of f xs.
Proof. done. Qed.
#[global] Arguments sum_of {A} f xs : simpl never.
Lemma sum_of_app {A} (f : A -> Z) xs ys : sum_of f (xs ++ ys) = sum_of f xs + sum_of f ys.
Proof. induction xs as [|x xs IH]; [done|]. cbn [app]. rewrite !sum_of_cons, IH. lia. Qed.
Lemma sum_of_nonneg {A} (f : A -> Z) xs : Forall (fun x => 0 <= f x) xs -> 0 <= sum_of f xs.
Proof. induction 1; [done|]. rewrite sum_of_cons. lia. Qed.
Lemma sum_of_ext {A} (f g : A -> Z) xs : (forall x, x ∈ xs -> f x = g x) -> sum_of f xs = sum_of g xs.
Proof.
  induction xs as [|x xs IH]; intros Hfg; [done|]. rewrite !sum_of_cons, (Hfg x) by left. f_equal. apply IH.
  intros y Hy. apply Hfg. by right.
Qed.
#[export] Instance sum_of_perm {A} (f : A -> Z) : Proper (Permutation ==> (=)) (sum_of f).
Proof. intros xs ys Hp. induction Hp; rewrite ?sum_of_cons; lia. Qed.

(** Invert a chain of [let?]s, guards and checks that ended in [Ok]. *)
Ltac inv_ok H :=
  repeat first
    [ discriminate H
    | match type of H with
      | Ok _ = Ok _ => injection H as H
      | match ?c with Ok _ => _ | Err _ => _ end = Ok _ => let E := fresh "E" in destruct c eqn:E; [|discriminate H]
      | (if ?c then Err _ else _) = Ok _ => let E := fresh "E" in destruct c eqn:E; [discriminate H|]
      | (if ?c then _ else Err _) = Ok _ => let E := fresh "E" in destruct c eqn:E; [|discriminate H]
      end ].

(** Closed goals made of conjunctions, lists and integer comparisons. *)
Ltac crush_closed :=
  lazymatch goal with
  | |- _ /\ _ => split; crush_closed
  | |- Forall _ [] => apply Forall_nil_2
  | |- Forall _ (_ :: _) => apply Forall_cons_2; crush_closed
  | |- Forall ?P ?l => let l' := eval hnf in l in change (Forall P l'); crush_closed
  | |- _ -> False => vm_compute; discriminate
  | |- ~ _ => vm_compute; discriminate
  | |- True => exact I
  | |- _ = _ => vm_compute; reflexivity
  | |- _ <= _ => vm_compute; discriminate
  | |- _ < _ => vm_compute; reflexivity
  | |- _ => progress hnf; crush_closed
  end.
