(* ===== verification/Bytes.v ===== *)
(** * Bytes, byte slices and integer encodings

    [u8] is [Init.Byte.byte]; a [Vec<u8>], a slice or a [[u8; n]] array is a
    [list byte].  Lengths and positions ([usize]) are in [Z].  The section on
    slices writes out [&data[i..j]] and [&data[i..]]; the code guards every
    slice by a length check, which the lemmas discharge by [lia].  The last
    part holds [to_le_bytes]/[from_le_bytes] and their big-endian variants,
    and the two inversion lemmas that every codec of the library uses. *)

From S2P Require Import Prelude.

Abbreviation bytes := (list byte).

Definition byte_Z (b : byte) : Z := Z.of_N (Byte.to_N b).
(** [z as u8] *)
Definition Z_byte (z : Z) : byte :=
  match Byte.of_N (Z.to_N (z mod 256)) with Some b => b | None => x00 end.

#[export] Instance byte_eq_dec : EqDecision byte.
Proof. intros a b. destruct (Byte.byte_eq_dec a b); [left | right]; done. Defined.
#[export] Instance byte_countable : Countable byte.
Proof.
  apply (inj_countable Byte.to_N Byte.of_N). intros b. apply Byte.of_to_N.
Defined.

Lemma byte_Z_range b : 0 <= byte_Z b < 256.
Proof. unfold byte_Z. pose proof (Byte.to_N_bounded b). lia. Qed.

Lemma Z_byte_Z b : Z_byte (byte_Z b) = b.
Proof.
  unfold Z_byte. rewrite Z.mod_small by apply byte_Z_range.
  unfold byte_Z. rewrite N2Z.id, Byte.of_to_N. done.
Qed.

Lemma byte_Z_byte z : byte_Z (Z_byte z) = z mod 256.
Proof.
  unfold Z_byte. pose proof (Z.mod_pos_bound z 256 eq_refl) as Hz.
  destruct (Byte.of_N (Z.to_N (z mod 256))) as [b|] eqn:Hb.
  - apply Byte.to_of_N in Hb. unfold byte_Z. lia.
  - apply Byte.of_N_None_iff in Hb. lia.
Qed.

Lemma byte_Z_byte_small z : 0 <= z < 256 -> byte_Z (Z_byte z) = z.
Proof. intros. rewrite byte_Z_byte. apply Z.mod_small. lia. Qed.

Lemma byte_Z_inj a b : byte_Z a = byte_Z b -> a = b.
Proof. intros H. rewrite <- (Z_byte_Z a), <- (Z_byte_Z b). by f_equal. Qed.

(** A canonical option flag. *)
Lemma flag_cases x : (1 <? byte_Z x) = false -> x = x00 \/ x = x01.
Proof.
  intros Hx. pose proof (byte_Z_range x).
  destruct (decide (byte_Z x = 0)); [left|right]; apply byte_Z_inj;
    [change (byte_Z x00) with 0 | change (byte_Z x01) with 1]; lia.
Qed.

(** ** Lengths and slices *)

Definition len {A} (l : list A) : Z := Z.of_nat (length l).

(** [&data[i..]], [&data[i..j]] and [data[i]] *)
Definition slice_from {A} (data : list A) (i : Z) : list A := drop (Z.to_nat i) data.
Definition slice {A} (data : list A) (i j : Z) : list A :=
  take (Z.to_nat (j - i)) (drop (Z.to_nat i) data).
Definition byte_at (data : bytes) (i : Z) : byte := default x00 (data !! Z.to_nat i).

Lemma len_nonneg {A} (l : list A) : 0 <= len l.
Proof. unfold len. lia. Qed.
Lemma len_app {A} (a b : list A) : len (a ++ b) = len a + len b.
Proof. unfold len. rewrite length_app. lia. Qed.
Lemma len_cons {A} (x : A) l : len (x :: l) = 1 + len l.
Proof. unfold len. simpl. lia. Qed.
Lemma len_nil {A} : len (@nil A) = 0.
Proof. done. Qed.
Lemma len_0 {A} (l : list A) : len l = 0 -> l = [].
Proof. destruct l; [done|]. rewrite len_cons. pose proof (len_nonneg l). lia. Qed.
Lemma to_nat_len {A} (l : list A) : Z.to_nat (len l) = length l.
Proof. unfold len. lia. Qed.
Lemma len_map {A B} (f : A -> B) l : len (map f l) = len l.
Proof. unfold len. by rewrite length_map. Qed.
Lemma len_rev {A} (l : list A) : len (rev l) = len l.
Proof. unfold len. by rewrite length_rev. Qed.

Lemma slice_from_app {A} (a r : list A) n : len a = n -> slice_from (a ++ r) n = r.
Proof. intros <-. unfold slice_from, len. by rewrite Nat2Z.id, drop_app_length. Qed.
Lemma slice_from_cons {A} (x : A) r : slice_from (x :: r) 1 = r.
Proof. done. Qed.
Lemma slice_from_0 {A} (a : list A) : slice_from a 0 = a.
Proof. done. Qed.
Lemma slice_from_add {A} (data : list A) i j :
  0 <= i -> 0 <= j -> slice_from data (i + j) = slice_from (slice_from data i) j.
Proof. intros. unfold slice_from. rewrite drop_drop. f_equal. lia. Qed.
Lemma slice_app {A} (a r : list A) n : len a = n -> slice (a ++ r) 0 n = a.
Proof.
  intros <-. unfold slice, len. rewrite Z.sub_0_r, Nat2Z.id, drop_0. by rewrite take_app_length.
Qed.
Lemma slice_shift {A} (data : list A) i j : slice data i j = slice (slice_from data i) 0 (j - i).
Proof. unfold slice, slice_from. f_equal. f_equal. lia. Qed.
Lemma byte_at_shift data i : byte_at data i = byte_at (slice_from data i) 0.
Proof. unfold byte_at, slice_from. rewrite lookup_drop. f_equal. f_equal. lia. Qed.
Lemma byte_at_0 b r : byte_at (b :: r) 0 = b.
Proof. done. Qed.

(** Splitting a sufficiently long input: the step of every decoder proof. *)
Lemma split_len {A} (data : list A) n :
  0 <= n <= len data -> exists a r, data = a ++ r /\ len a = n.
Proof.
  intros Hn. exists (take (Z.to_nat n) data), (drop (Z.to_nat n) data).
  rewrite take_drop. split; [done|]. unfold len in *. rewrite length_take. lia.
Qed.
Lemma split_cons (data : bytes) : 1 <= len data -> exists b r, data = b :: r.
Proof. destruct data; [done | eauto]. Qed.

(** ** Little-endian and big-endian integers *)

(** [x.to_le_bytes()] for an [n]-byte integer *)
Fixpoint le_bytes (n : nat) (z : Z) : bytes :=
  match n with
  | O => []
  | S n => Z_byte z :: le_bytes n (z / 256)
  end.
(** [uN::from_le_bytes] *)
Fixpoint le_val (l : bytes) : Z :=
  match l with
  | [] => 0
  | b :: l => byte_Z b + 256 * le_val l
  end.
Definition be_bytes (n : nat) (z : Z) : bytes := rev (le_bytes n z).
(** [uN::from_be_bytes], and the value of a big-endian [[u8; 32]] *)
Fixpoint be_val (l : bytes) : Z :=
  match l with
  | [] => 0
  | b :: l => byte_Z b * 256 ^ len l + be_val l
  end.

Lemma pow256_pos n : 0 <= n -> 0 < 256 ^ n.
Proof. intros. apply Z.pow_pos_nonneg; lia. Qed.
Lemma pow256_S n : 0 <= n -> 256 ^ (1 + n) = 256 * 256 ^ n.
Proof. intros. rewrite Z.pow_add_r by lia. done. Qed.
Lemma pow256_len_pos {A} (l : list A) : 0 < 256 ^ len l.
Proof. apply pow256_pos, len_nonneg. Qed.

Lemma len_le_bytes n z : len (le_bytes n z) = Z.of_nat n.
Proof. revert z. induction n; intros z; simpl; [done|]. rewrite len_cons, IHn. lia. Qed.
Lemma len_be_bytes n z : len (be_bytes n z) = Z.of_nat n.
Proof. unfold be_bytes. rewrite len_rev. apply len_le_bytes. Qed.

Lemma le_val_range l : 0 <= le_val l < 256 ^ len l.
Proof.
  induction l as [|b l IH]; [vm_compute; done|].
  rewrite len_cons, pow256_S by apply len_nonneg. simpl. pose proof (byte_Z_range b). lia.
Qed.
Lemma be_val_range l : 0 <= be_val l < 256 ^ len l.
Proof.
  induction l as [|b l IH]; [vm_compute; done|].
  rewrite len_cons, pow256_S by apply len_nonneg. simpl. pose proof (byte_Z_range b).
  pose proof (pow256_len_pos l). nia.
Qed.

(** Encode, then decode. *)
Lemma le_val_bytes n z : 0 <= z < 256 ^ Z.of_nat n -> le_val (le_bytes n z) = z.
Proof.
  revert z. induction n as [|n IH]; intros z Hz; [simpl in *; lia|].
  replace (Z.of_nat (S n)) with (1 + Z.of_nat n) in Hz by lia.
  rewrite pow256_S in Hz by lia.
  cbn [le_bytes le_val]. rewrite byte_Z_byte, IH.
  - pose proof (Z.div_mod z 256). lia.
  - split; [apply Z.div_pos; lia | apply Z.div_lt_upper_bound; lia].
Qed.
(** Decode, then encode. *)
Lemma le_bytes_val l n : len l = Z.of_nat n -> le_bytes n (le_val l) = l.
Proof.
  revert l. induction n as [|n IH]; intros l Hl.
  { apply len_0 in Hl. by subst. }
  destruct l as [|b l]; [done|]. rewrite len_cons in Hl.
  cbn [le_bytes le_val]. pose proof (byte_Z_range b). f_equal.
  - apply byte_Z_inj. rewrite byte_Z_byte, Z.mul_comm, Z.mod_add by lia. apply Z.mod_small. lia.
  - replace (byte_Z b + 256 * le_val l) with (le_val l * 256 + byte_Z b) by lia.
    rewrite Z.div_add_l, (Z.div_small (byte_Z b)), Z.add_0_r by lia. apply IH. lia.
Qed.

Lemma be_val_app a b : be_val (a ++ b) = be_val a * 256 ^ len b + be_val b.
Proof.
  induction a as [|x a IH]; [done|]. cbn [app be_val]. rewrite IH, len_app.
  rewrite Z.pow_add_r by apply len_nonneg. lia.
Qed.
Lemma be_val_rev l : be_val (rev l) = le_val l.
Proof.
  induction l as [|b l IH]; [done|]. simpl. rewrite be_val_app, IH. simpl. rewrite len_cons, len_nil.
  change (256 ^ (1 + 0)) with 256. lia.
Qed.
Lemma be_val_bytes n z : 0 <= z < 256 ^ Z.of_nat n -> be_val (be_bytes n z) = z.
Proof. intros. unfold be_bytes. rewrite be_val_rev. by apply le_val_bytes. Qed.
Lemma be_val_le_val l : be_val l = le_val (rev l).
Proof. by rewrite <- be_val_rev, rev_involutive. Qed.
Lemma be_bytes_val l n : len l = Z.of_nat n -> be_bytes n (be_val l) = l.
Proof.
  intros Hl. unfold be_bytes. rewrite be_val_le_val, le_bytes_val by by rewrite len_rev.
  apply rev_involutive.
Qed.
Lemma be_val_inj a b : len a = len b -> be_val a = be_val b -> a = b.
Proof.
  intros Hl Hv. rewrite <- (be_bytes_val a (length a)), <- (be_bytes_val b (length b)) by done.
  unfold len in Hl. apply Nat2Z.inj in Hl. by rewrite Hl, Hv.
Qed.

(** ** Automation shared by the codecs *)

Create Rewrite HintDb codec.
#[export] Hint Rewrite @len_app @len_cons @len_nil len_le_bytes len_be_bytes @len_map @len_rev : codec.

(** Length goals: normalise [len], then [lia]. *)
Ltac len_lia :=
  autorewrite with codec in *;
  repeat match goal with
  | |- context [len ?l] =>
      lazymatch goal with _ : 0 <= len l |- _ => fail | _ => pose proof (len_nonneg l) end
  | _ : context [len ?l] |- _ =>
      lazymatch goal with _ : 0 <= len l |- _ => fail | _ => pose proof (len_nonneg l) end
  end; simpl Z.of_nat in *; lia.

(** Reading from the middle of an input. *)
Lemma slice_mid {A} (a b r : list A) i j :
  len a = i -> len a + len b = j -> slice (a ++ b ++ r) i j = b.
Proof.
  intros <- <-. rewrite slice_shift, slice_from_app by done. apply slice_app. lia.
Qed.
Lemma slice_skip {A} (a r : list A) i j :
  len a <= i -> slice (a ++ r) i j = slice r (i - len a) (j - len a).
Proof.
  intros Hi. unfold slice. rewrite drop_app_ge by (unfold len in Hi; lia).
  f_equal; [lia|]. f_equal. unfold len. lia.
Qed.
Lemma slice_head {A} (a r : list A) i j : i = 0 -> len a = j -> slice (a ++ r) i j = a.
Proof. intros ->. apply slice_app. Qed.
Lemma slice_all {A} (a : list A) i j : i = 0 -> len a = j -> slice a i j = a.
Proof. intros. rewrite <- (app_nil_r a) at 1. by apply slice_head. Qed.
Lemma slice_tail {A} (a b : list A) i j :
  len a = i -> len a + len b = j -> slice (a ++ b) i j = b.
Proof. intros. rewrite <- (app_nil_r b) at 1. by apply slice_mid. Qed.
Lemma byte_at_mid a x r i : len a = i -> byte_at (a ++ x :: r) i = x.
Proof. intros <-. rewrite byte_at_shift, slice_from_app by done. done. Qed.
Lemma split_at {A} (data : list A) i :
  0 <= i <= len data -> exists a, data = a ++ slice_from data i /\ len a = i.
Proof.
  intros Hi. destruct (split_len data i Hi) as (a & r & -> & Ha). exists a.
  by rewrite slice_from_app.
Qed.

#[global] Arguments le_bytes : simpl never.
#[global] Arguments be_bytes : simpl never.
#[global] Arguments slice {A} : simpl never.
Lemma app_inv_len (a b r s : bytes) : len a = len b -> a ++ r = b ++ s -> a = b /\ r = s.
Proof. intros Hl. apply app_inj_1. unfold len in Hl. lia. Qed.

#[global] Arguments slice_from {A} : simpl never.
#[global] Arguments byte_at : simpl never.
#[global] Arguments len {A} : simpl never.
#[global] Opaque le_bytes.
