(* ===== verification/Codec.v ===== *)
(** * The codec interface

    Every wire format of the repository is a pair of a serializer (possibly
    failing) and a deserializer that returns the value with the number of bytes
    it consumed.  [Codec] states what such a pair promises: the encoding of a
    well-formed value decodes to it whatever follows, and what decodes is
    well-formed and is exactly the encoding of the result (no second encoding
    of a value is accepted).  The lemmas on counted lists lift the promise to
    the [for _ in 0..count] loops of the deserializers. *)

From S2P Require Import Prelude Bytes.

Class Codec {E F A} (wf : A -> Prop) (enc : A -> result F bytes)
    (dec : bytes -> result E (A * Z)) : Prop := {
  codec_encodes x :
    wf x -> exists b, enc x = Ok b /\ forall rest, dec (b ++ rest) = Ok (x, len b);
  codec_decodes data x n :
    dec data = Ok (x, n) ->
    wf x /\ exists b rest, enc x = Ok b /\ data = b ++ rest /\ n = len b
}.

(** [for x in xs { buf.extend_from_slice(&x.serialize()?) }] *)
Fixpoint serialize_all {F A} (enc : A -> result F bytes) (xs : list A) : result F bytes :=
  match xs with
  | [] => Ok []
  | x :: xs =>
      let? b := enc x in
      let? bs := serialize_all enc xs in
      Ok (b ++ bs)
  end.

(** [for _ in 0..n { let (x, c) = dec(&data[pos..])?; xs.push(x); pos += c; }] *)
Fixpoint deserialize_n {E A} (dec : bytes -> result E (A * Z)) (n : nat) (data : bytes) (pos : Z)
  : result E (list A * Z) :=
  match n with
  | O => Ok ([], pos)
  | S n =>
      let? (x, consumed) := dec (slice_from data pos) in
      let? (xs, pos) := deserialize_n dec n data (pos + consumed) in
      Ok (x :: xs, pos)
  end.

(** Inverting a chain of [let?] in a hypothesis, one step. *)
Ltac inv_step :=
  match goal with
  | Hm : context [match ?c with Ok _ => _ | Err _ => _ end] |- _ =>
      let E := fresh "E" in destruct c as [?|?] eqn:E; [|discriminate Hm]
  | Hm : context [let (_, _) := ?p in _] |- _ => destruct p as [??]
  | Hm : context [if ?b then Err _ else _] |- _ =>
      let E := fresh "E" in destruct b eqn:E; [discriminate Hm|]
  | Hm : Ok _ = Ok _ |- _ => injection Hm as Hm; subst
  | Hm : (_, _) = (_, _) |- _ => injection Hm as Hm; subst
  end.
Ltac inv_res := repeat inv_step.

(** Encodings of all elements, read back one after the other; only the first
    promise of the elements is needed. *)
Lemma serialize_all_reads {E F A} (wf : A -> Prop) (enc : A -> result F bytes) (dec : bytes -> result E (A * Z)) xs :
  (forall x, wf x -> exists b, enc x = Ok b /\ forall rest, dec (b ++ rest) = Ok (x, len b)) ->
  Forall wf xs ->
  exists b, serialize_all enc xs = Ok b /\
    forall pre rest, deserialize_n dec (length xs) (pre ++ b ++ rest) (len pre)
                     = Ok (xs, len pre + len b).
Proof.
  intros Henc. induction 1 as [|x xs Hx Hxs IH].
  { exists []. split; [done|]. intros. simpl. by rewrite len_nil, Z.add_0_r. }
  destruct (Henc x Hx) as (b & Eb & Hdec). destruct IH as (bs & Ebs & IH).
  exists (b ++ bs). simpl. rewrite Eb, Ebs. split; [done|]. intros pre rest.
  rewrite slice_from_app by done. rewrite <- app_assoc, Hdec.
  replace (len pre + len b) with (len (pre ++ b)) by apply len_app.
  replace (pre ++ b ++ bs ++ rest) with ((pre ++ b) ++ bs ++ rest) by by rewrite <- !app_assoc.
  rewrite IH. rewrite !len_app. by rewrite Z.add_assoc.
Qed.

Section Lists.
Context {E F A : Type} {wf : A -> Prop} {enc : A -> result F bytes}
        {dec : bytes -> result E (A * Z)} `{!Codec wf enc dec}.

Lemma serialize_all_dec xs :
  Forall wf xs ->
  exists b, serialize_all enc xs = Ok b /\
    forall pre rest, deserialize_n dec (length xs) (pre ++ b ++ rest) (len pre)
                     = Ok (xs, len pre + len b).
Proof. apply serialize_all_reads, codec_encodes. Qed.

Lemma deserialize_n_enc n data pos xs pos' :
  0 <= pos -> deserialize_n dec n data pos = Ok (xs, pos') ->
  Forall wf xs /\ length xs = n /\
  exists b rest, serialize_all enc xs = Ok b /\ slice_from data pos = b ++ rest /\ pos' = pos + len b.
Proof.
  revert pos xs. induction n as [|n IH]; intros pos xs Hpos Hd; simpl in Hd.
  { inv_res. split_and!; [done..|]. exists [], (slice_from data pos'). rewrite len_nil.
    split_and!; auto with lia. }
  inv_res. rename l into xs.
  match goal with Hx : dec _ = _ |- _ => apply codec_decodes in Hx as (Hwf & b & rest & Eb & Hs & ->) end.
  match goal with Hx : deserialize_n _ _ _ _ = _ |- _ =>
    apply IH in Hx as (Hwfs & Hlen & bs & rest' & Ebs & Hs' & ->); [|len_lia] end.
  split_and!; [by constructor | simpl; lia |]. exists (b ++ bs), rest'. simpl. rewrite Eb, Ebs.
  rewrite slice_from_add, Hs, slice_from_app in Hs' by (done || apply len_nonneg).
  rewrite Hs, Hs', len_app, <- app_assoc. split_and!; [done..|lia].
Qed.

End Lists.

(** Two well-formed values with the same encoding are equal. *)
Lemma codec_inj {E F A} {wf : A -> Prop} {enc : A -> result F bytes}
    {dec : bytes -> result E (A * Z)} `{!Codec wf enc dec} x y b :
  wf x -> wf y -> enc x = Ok b -> enc y = Ok b -> x = y.
Proof.
  intros Hx Hy Ex Ey.
  destruct (codec_encodes x Hx) as (bx & Ex' & Hdx). destruct (codec_encodes y Hy) as (b' & Ey' & Hdy).
  rewrite Ex in Ex'. rewrite Ey in Ey'. injection Ex' as <-. injection Ey' as <-.
  specialize (Hdx []). rewrite Hdy in Hdx. congruence.
Qed.
