(* ===== verification/Hash.v ===== *)
(** * Hashes ([src/types/hash.rs])

    The SHA-256 implementation is the [sha2] crate: a parameter ([Sha2]), with
    its output width as the one law the code relies on.  The domain-separated
    hash, its preimage encoding and the Merkle root are modelled as written.
    Collision resistance is never assumed as injectivity of the hash: theorems
    that need it ask for it on the finite list of preimages the computation
    hashes ([merkle_preimages]). *)

From S2P Require Import Prelude Bytes.

(** The [sha2] crate. *)
Class Sha2 := sha2_digest : bytes -> bytes.
(** A digest has 32 bytes. *)
Class Sha2Width `{Sha2} := sha2_width : forall data, len (sha2_digest data) = 32.

(** [Hash256(pub [u8; 32])] *)
Abbreviation Hash256 := bytes.
Definition hash_wf (h : Hash256) : Prop := len h = 32.

Definition Hash256_ZERO : Hash256 := replicate 32 x00.

Section Hashing.
Context `{Sha2}.

Definition Hash256_sha256 (data : bytes) : Hash256 := sha2_digest data.

(** What [domain_hash] feeds the hasher. *)
Definition domain_preimage (separator data : bytes) : bytes :=
  Z_byte (len separator) :: separator ++ data.

Definition domain_hash (separator data : bytes) : Hash256 :=
  sha2_digest (domain_preimage separator data).

(** The body of [merkle_root]'s loop: duplicate the last hash of an odd level,
    then hash the pairs. *)
Definition pad_level (level : list Hash256) : list Hash256 :=
  if Nat.even (length level) then level
  else level ++ [default Hash256_ZERO (last level)].

Fixpoint hash_pairs (domain : bytes) (level : list Hash256) : list Hash256 :=
  match level with
  | a :: b :: rest => domain_hash domain (a ++ b) :: hash_pairs domain rest
  | _ => []
  end.

(** [while level.len() > 1 { ... }]; [fuel] bounds the iterations. *)
Fixpoint merkle_loop (fuel : nat) (domain : bytes) (level : list Hash256) : list Hash256 :=
  match fuel with
  | O => level
  | S fuel =>
      if (1 <? length level)%nat
      then merkle_loop fuel domain (hash_pairs domain (pad_level level))
      else level
  end.

Definition merkle_root (domain : bytes) (hashes : list Hash256) : Hash256 :=
  match hashes with
  | [] => Hash256_ZERO
  | [h] => h
  | _ => default Hash256_ZERO (merkle_loop (length hashes) domain hashes !! 0%nat)
  end.

(** The preimages hashed on one level and over the whole loop. *)
Fixpoint pair_preimages (domain : bytes) (level : list Hash256) : list bytes :=
  match level with
  | a :: b :: rest => domain_preimage domain (a ++ b) :: pair_preimages domain rest
  | _ => []
  end.

Fixpoint merkle_preimages (fuel : nat) (domain : bytes) (level : list Hash256) : list bytes :=
  match fuel with
  | O => []
  | S fuel =>
      if (1 <? length level)%nat
      then pair_preimages domain (pad_level level) ++
           merkle_preimages fuel domain (hash_pairs domain (pad_level level))
      else []
  end.

(** No two of the preimages in [xs] and [ys] collide. *)
Definition collision_free (xs ys : list bytes) : Prop :=
  forall x y, x ∈ xs -> y ∈ ys -> sha2_digest x = sha2_digest y -> x = y.

End Hashing.

(** ** Lemmas *)

Section HashLemmas.
Context `{Sha2}.

Lemma domain_hash_wf `{!Sha2Width} s d : hash_wf (domain_hash s d).
Proof. apply sha2_width. Qed.

Lemma length_pad_level level :
  length (pad_level level) = if Nat.even (length level) then length level else S (length level).
Proof. unfold pad_level. destruct (Nat.even _); rewrite ?length_app; simpl; lia. Qed.

Lemma even_pad_level level : Nat.even (length (pad_level level)) = true.
Proof.
  rewrite length_pad_level. destruct (Nat.even (length level)) eqn:E; [done|].
  by rewrite Nat.even_succ, <- Nat.negb_even, E.
Qed.

(** Induction by pairs, the scheme of [hash_pairs]. *)
Lemma pairs_ind {A} (P : list A -> Prop) :
  P [] -> (forall a, P [a]) -> (forall a b l, P l -> P (a :: b :: l)) -> forall l, P l.
Proof.
  intros H0 H1 H2 l. enough (P l /\ forall a, P (a :: l)) by tauto.
  induction l as [|a l [IH1 IH2]]; [auto|]. split; [apply IH2|]. intros b. by apply H2.
Qed.

Lemma length_hash_pairs domain level : length (hash_pairs domain level) = (length level / 2)%nat.
Proof.
  induction level as [| |a b l IH] using pairs_ind; [done..|]. cbn [hash_pairs length].
  rewrite IH. change (S (S (length l))) with (2 + length l)%nat.
  replace (2 + length l)%nat with (1 * 2 + length l)%nat by lia. by rewrite Nat.div_add_l.
Qed.

Lemma hash_pairs_wf `{!Sha2Width} domain level : Forall hash_wf (hash_pairs domain level).
Proof.
  induction level as [| |a b l IH] using pairs_ind; simpl; constructor; auto using domain_hash_wf.
Qed.

Lemma pad_level_wf level : Forall hash_wf level -> Forall hash_wf (pad_level level).
Proof.
  intros Hwf. unfold pad_level. destruct (Nat.even _); [done|].
  apply Forall_app. split; [done|]. constructor; [|constructor].
  destruct (last level) as [h|] eqn:Hl; [|done]. simpl.
  rewrite Forall_forall in Hwf. apply Hwf. by apply last_Some_elem_of.
Qed.

Lemma length_next_level domain level :
  (2 <= length level)%nat ->
  (1 <= length (hash_pairs domain (pad_level level)) < length level)%nat.
Proof.
  intros Hl. rewrite length_hash_pairs, length_pad_level.
  destruct (Nat.even (length level)) eqn:E.
  - split; [apply Nat.div_le_lower_bound; lia | apply Nat.div_lt; lia].
  - assert (3 <= length level)%nat by (destruct level as [|? [|? [|? ?]]]; simpl in *; try discriminate; lia).
    split; [apply Nat.div_le_lower_bound; lia | apply Nat.Div0.div_lt_upper_bound; lia].
Qed.

(** The loop ends with a single hash: [length level] iterations are enough. *)
Lemma merkle_loop_single fuel domain level :
  (1 <= length level <= fuel)%nat -> length (merkle_loop fuel domain level) = 1%nat.
Proof.
  revert level. induction fuel as [|fuel IH]; intros level Hl; simpl; [lia|].
  destruct (Nat.ltb_spec 1 (length level)) as [Hgt|]; [|lia].
  apply IH. pose proof (length_next_level domain level). lia.
Qed.

Lemma domain_preimage_inj_data s d1 d2 : domain_preimage s d1 = domain_preimage s d2 -> d1 = d2.
Proof. unfold domain_preimage. intros E. injection E as E. by apply app_inv_head in E. Qed.

(** One level is injective where its preimages do not collide. *)
Lemma hash_pairs_inj domain l1 l2 :
  length l1 = length l2 -> Nat.even (length l1) = true ->
  Forall hash_wf l1 -> Forall hash_wf l2 ->
  collision_free (pair_preimages domain l1) (pair_preimages domain l2) ->
  hash_pairs domain l1 = hash_pairs domain l2 -> l1 = l2.
Proof.
  revert l2. induction l1 as [| |a b l IH] using pairs_ind; intros l2 Hlen Hev Hw1 Hw2 Hcf E.
  - by destruct l2.
  - done.
  - destruct l2 as [|a' [|b' l2]]; [done..|]. simpl in E. injection E as Eab El.
    repeat match goal with Hf : Forall _ (_ :: _) |- _ => inversion_clear Hf end.
    apply Hcf in Eab; [|left|left]. apply domain_preimage_inj_data in Eab.
    apply app_inj_1 in Eab as [-> ->]; [|unfold hash_wf, len in *; lia].
    do 2 f_equal. apply IH; simpl in *; auto; [lia|]. intros x y Hx Hy. by apply Hcf; right.
Qed.

Lemma pad_level_inj l1 l2 : length l1 = length l2 -> pad_level l1 = pad_level l2 -> l1 = l2.
Proof.
  intros Hlen. unfold pad_level. rewrite Hlen. destruct (Nat.even _); [done|].
  intros E. by apply app_inj_1 in E as [-> _].
Qed.

Lemma merkle_loop_inj `{!Sha2Width} fuel domain l1 l2 :
  length l1 = length l2 -> Forall hash_wf l1 -> Forall hash_wf l2 ->
  collision_free (merkle_preimages fuel domain l1) (merkle_preimages fuel domain l2) ->
  merkle_loop fuel domain l1 = merkle_loop fuel domain l2 -> l1 = l2.
Proof.
  revert l1 l2. induction fuel as [|fuel IH]; intros l1 l2 Hlen Hw1 Hw2 Hcf E; [done|].
  simpl in *. rewrite <- Hlen in *. destruct (1 <? length l1)%nat; [|done].
  apply pad_level_inj; [done|].
  assert (length (pad_level l1) = length (pad_level l2)) by by rewrite !length_pad_level, Hlen.
  apply (hash_pairs_inj domain); auto using pad_level_wf, even_pad_level.
  - intros x y ??. apply Hcf; apply elem_of_app; auto.
  - apply IH; auto using hash_pairs_wf.
    + rewrite !length_hash_pairs. congruence.
    + intros x y ??. apply Hcf; apply elem_of_app; auto.
Qed.

Lemma merkle_root_loop domain l :
  l <> [] -> merkle_loop (length l) domain l = [merkle_root domain l].
Proof.
  intros Hne. assert (length (merkle_loop (length l) domain l) = 1%nat) as Hs.
  { apply merkle_loop_single. destruct l; simpl in *; [done|lia]. }
  destruct l as [|a [|b l]]; [done|done|]. unfold merkle_root.
  destruct (merkle_loop _ _ _) as [|h [|]]; done.
Qed.

End HashLemmas.

(** ** Properties *)

Section HashProperties.
Context `{Sha2}.

(** domain separation: the bytes hashed under a separator determine both
    the separator and the data, so no separator's encoding is a prefix of
    another's ("EXFER-TX" and "EXFER-TXROOT" never meet). *)
Theorem domain_hash_preimage_injective s1 d1 s2 d2 :
  len s1 <= 255 -> len s2 <= 255 ->
  domain_preimage s1 d1 = domain_preimage s2 d2 -> s1 = s2 /\ d1 = d2.
Proof.
  intros H1 H2 E. unfold domain_preimage in E. injection E as Hb Happ.
  apply (f_equal byte_Z) in Hb. pose proof (len_nonneg s1). pose proof (len_nonneg s2).
  rewrite !byte_Z_byte_small in Hb by lia.
  apply app_inj_1 in Happ; [done|]. unfold len in Hb. lia.
Qed.

(** the Merkle root commits to its leaves: two lists of hashes of the same
    length with the same root are equal, unless two of the preimages hashed
    while computing the roots collide. *)
Theorem merkle_root_binding `{!Sha2Width} domain l1 l2 :
  length l1 = length l2 -> Forall hash_wf l1 -> Forall hash_wf l2 ->
  collision_free (merkle_preimages (length l1) domain l1)
                 (merkle_preimages (length l2) domain l2) ->
  merkle_root domain l1 = merkle_root domain l2 -> l1 = l2.
Proof.
  intros Hlen Hw1 Hw2 Hcf Hr. destruct (decide (l1 = [])) as [->|Hne]; [by destruct l2|].
  assert (l2 <> []) by (destruct l1, l2; simpl in *; congruence).
  apply (merkle_loop_inj (length l1) domain); auto; [by rewrite Hlen in *|].
  rewrite merkle_root_loop by done. rewrite Hlen, merkle_root_loop by done. by rewrite Hr.
Qed.

End HashProperties.

(** ** Witnesses *)

(** A concrete digest function of the right width. *)
Definition toy_digest (data : bytes) : bytes := le_bytes 32 (le_val data).

Lemma toy_digest_width : forall data, len (toy_digest data) = 32.
Proof. intros. apply len_le_bytes. Qed.

Definition collision_freeb `{Sha2} (xs ys : list bytes) : bool :=
  forallb (fun x => forallb (fun y =>
    bool_decide (sha2_digest x = sha2_digest y -> x = y)) ys) xs.

Lemma collision_freeb_ok `{Sha2} xs ys : collision_freeb xs ys = true -> collision_free xs ys.
Proof.
  unfold collision_freeb. rewrite forallb_forall. intros Hf x y Hx Hy.
  apply list_elem_of_In, Hf in Hx. rewrite forallb_forall in Hx. apply list_elem_of_In, Hx in Hy.
  by apply bool_decide_eq_true in Hy.
Qed.

Lemma domain_hash_preimage_injective_witness :
  [x01] = [x01] /\ [x02; x03] = [x02; x03].
Proof.
  apply (domain_hash_preimage_injective [x01] [x02; x03] [x01] [x02; x03]);
    [crush_closed.. | reflexivity].
Defined.

Lemma merkle_root_binding_witness :
  let l := [replicate 32 x01; replicate 32 x02; replicate 32 x03] in l = l.
Proof.
  apply (@merkle_root_binding toy_digest toy_digest_width [x41; x42]);
    [reflexivity | crush_closed.. | apply collision_freeb_ok; vm_compute; reflexivity | reflexivity].
Defined.
