(* ===== verification/Transaction.v ===== *)
(** * Transactions ([src/types/transaction.rs])

    The wire format of inputs, outputs, witnesses and transactions, the
    transaction identifiers and the signing message.  Definitions follow the
    Rust functions of the same name; the diagnostics of [SerError] are built
    with stdpp's [pretty].  The process-wide [genesis::signature_domain()] is an
    argument of [sig_message]. *)

From Stdlib Require Import Strings.String.
From S2P Require Import Prelude Bytes Codec Hash.
#[local] Open Scope Z_scope.
#[local] Open Scope list_scope.

Inductive SerError :=
| UnexpectedEof
| InvalidData (msg : string)
| InvalidLength.

(** ** Domain separators and limits ([src/types/mod.rs]) *)

Definition DS_SIG : bytes := list_byte_of_string "EXFER-SIG".
Definition DS_TX : bytes := list_byte_of_string "EXFER-TX".
Definition DS_TXROOT : bytes := list_byte_of_string "EXFER-TXROOT".
Definition DS_STATE : bytes := list_byte_of_string "EXFER-STATE".
Definition DS_ADDR : bytes := list_byte_of_string "EXFER-ADDR".
Definition DS_WTXID : bytes := list_byte_of_string "EXFER-WTXID".
Definition MAX_DATUM_SIZE : Z := 4096.
Definition MAX_REDEEMER_SIZE : Z := 16384.

(** ** VarBytes *)

Definition serialize_varbytes (data : bytes) : result SerError bytes :=
  if U16_MAX <? len data
  then Err (InvalidData ("varbytes length " +:+ pretty (len data) +:+ " exceeds u16::MAX"))
  else Ok (le_bytes 2 (len data) ++ data).

Definition deserialize_varbytes (data : bytes) : result SerError (bytes * Z) :=
  if len data <? 2 then Err UnexpectedEof
  else
    let n := le_val (slice data 0 2) in
    if len data <? 2 + n then Err UnexpectedEof
    else Ok (slice data 2 (2 + n), 2 + n).

(** ** Inputs *)

Record TxInput := { prev_tx_id : Hash256; output_index : Z }.

Definition TxInput_serialize (i : TxInput) : bytes :=
  prev_tx_id i ++ le_bytes 4 (output_index i).

Definition TxInput_deserialize (data : bytes) : result SerError (TxInput * Z) :=
  if len data <? 36 then Err UnexpectedEof
  else
    let tx_id_bytes := slice data 0 32 in
    let output_index := le_val (slice data 32 36) in
    Ok ({| prev_tx_id := tx_id_bytes; output_index := output_index |}, 36).

(** ** Outputs *)

Record TxOutput := {
  value : Z;
  script : bytes;
  datum : option bytes;
  datum_hash : option Hash256
}.

Section Keys.
Context `{Sha2}.

Definition pubkey_hash_from_key (pubkey : bytes) : Hash256 := domain_hash DS_ADDR pubkey.

Definition new_p2pkh (value : Z) (pubkey : bytes) : TxOutput :=
  {| value := value; script := pubkey_hash_from_key pubkey; datum := None; datum_hash := None |}.

End Keys.

Definition TxOutput_serialize (o : TxOutput) : result SerError bytes :=
  let buf := le_bytes 8 (value o) in
  let? s := serialize_varbytes (script o) in
  let buf := buf ++ s in
  let? buf :=
    match datum o with
    | Some d => let? b := serialize_varbytes d in Ok (buf ++ [x01] ++ b)
    | None => Ok (buf ++ [x00])
    end in
  let buf :=
    match datum_hash o with
    | Some h => buf ++ [x01] ++ h
    | None => buf ++ [x00]
    end in
  Ok buf.

(** The two optional parts of [TxOutput::deserialize], from position [pos]. *)
Definition deserialize_datum (data : bytes) (pos : Z) : result SerError (option bytes * Z) :=
  if len data <=? pos then Err UnexpectedEof
  else
    let has_datum := byte_Z (byte_at data pos) in
    let pos := pos + 1 in
    if 1 <? has_datum then
      Err (InvalidData ("non-canonical has_datum flag: " +:+ pretty has_datum +:+ " (expected 0 or 1)"))
    else if has_datum =? 1 then
      let? (d, consumed) := deserialize_varbytes (slice_from data pos) in
      if MAX_DATUM_SIZE <? len d then
        Err (InvalidData ("datum size " +:+ pretty (len d) +:+ " exceeds maximum " +:+ pretty MAX_DATUM_SIZE))
      else Ok (Some d, pos + consumed)
    else Ok (None, pos).

Definition deserialize_datum_hash (data : bytes) (pos : Z) : result SerError (option Hash256 * Z) :=
  if len data <=? pos then Err UnexpectedEof
  else
    let has_datum_hash := byte_Z (byte_at data pos) in
    let pos := pos + 1 in
    if 1 <? has_datum_hash then
      Err (InvalidData ("non-canonical has_datum_hash flag: " +:+ pretty has_datum_hash
                          +:+ " (expected 0 or 1)"))
    else if has_datum_hash =? 1 then
      if len data <? pos + 32 then Err UnexpectedEof
      else Ok (Some (slice data pos (pos + 32)), pos + 32)
    else Ok (None, pos).

Definition TxOutput_deserialize (data : bytes) : result SerError (TxOutput * Z) :=
  if len data <? 8 then Err UnexpectedEof
  else
    let pos := 0 in
    let value := le_val (slice data pos (pos + 8)) in
    let pos := pos + 8 in
    let? (script_bytes, consumed) := deserialize_varbytes (slice_from data pos) in
    let pos := pos + consumed in
    let? (datum, pos) := deserialize_datum data pos in
    let? (datum_hash, pos) := deserialize_datum_hash data pos in
    Ok ({| value := value; script := script_bytes; datum := datum; datum_hash := datum_hash |}, pos).

(** ** Witnesses *)

Record TxWitness := { witness : bytes; redeemer : option bytes }.

Definition TxWitness_serialize (w : TxWitness) : result SerError bytes :=
  let? buf := serialize_varbytes (witness w) in
  match redeemer w with
  | Some r => let? b := serialize_varbytes r in Ok (buf ++ [x01] ++ b)
  | None => Ok (buf ++ [x00])
  end.

Definition TxWitness_deserialize (data : bytes) : result SerError (TxWitness * Z) :=
  let pos := 0 in
  let? (witness_bytes, consumed) := deserialize_varbytes (slice_from data pos) in
  let pos := pos + consumed in
  if len data <=? pos then Err UnexpectedEof
  else
    let has_redeemer := byte_Z (byte_at data pos) in
    let pos := pos + 1 in
    if 1 <? has_redeemer then
      Err (InvalidData ("non-canonical has_redeemer flag: " +:+ pretty has_redeemer
                          +:+ " (expected 0 or 1)"))
    else if has_redeemer =? 1 then
      let? (r, consumed) := deserialize_varbytes (slice_from data pos) in
      if MAX_REDEEMER_SIZE <? len r then
        Err (InvalidData ("redeemer size " +:+ pretty (len r) +:+ " exceeds maximum "
                            +:+ pretty MAX_REDEEMER_SIZE))
      else Ok ({| witness := witness_bytes; redeemer := Some r |}, pos + consumed)
    else Ok ({| witness := witness_bytes; redeemer := None |}, pos).

(** ** Transactions *)

Record Transaction := {
  inputs : list TxInput;
  outputs : list TxOutput;
  witnesses : list TxWitness
}.

Definition serialize_header (tx : Transaction) : result SerError bytes :=
  if U16_MAX <? len (inputs tx)
  then Err (InvalidData ("input count " +:+ pretty (len (inputs tx)) +:+ " exceeds u16::MAX"))
  else if U16_MAX <? len (outputs tx)
  then Err (InvalidData ("output count " +:+ pretty (len (outputs tx)) +:+ " exceeds u16::MAX"))
  else Ok (le_bytes 2 (len (inputs tx)) ++ le_bytes 2 (len (outputs tx))).

Definition serialize_body (tx : Transaction) : result SerError bytes :=
  let? ins := serialize_all (fun i => Ok (TxInput_serialize i)) (inputs tx) in
  let? outs := serialize_all TxOutput_serialize (outputs tx) in
  Ok (ins ++ outs).

Definition signing_bytes (tx : Transaction) : result SerError bytes :=
  let? buf := serialize_header tx in
  let? body := serialize_body tx in
  Ok (buf ++ body).

Definition Transaction_serialize (tx : Transaction) : result SerError bytes :=
  let? buf := serialize_header tx in
  let? body := serialize_body tx in
  let? wits := serialize_all TxWitness_serialize (witnesses tx) in
  Ok (buf ++ body ++ wits).

Section Identifiers.
Context `{Sha2}.

Definition tx_id (tx : Transaction) : result SerError Hash256 :=
  let? b := signing_bytes tx in Ok (domain_hash DS_TX b).

Definition wtx_id (tx : Transaction) : result SerError Hash256 :=
  let? b := Transaction_serialize tx in Ok (domain_hash DS_WTXID b).

End Identifiers.

Definition sig_message (signature_domain : Hash256) (tx : Transaction) : result SerError bytes :=
  let? signing := signing_bytes tx in
  Ok (DS_SIG ++ signature_domain ++ signing).

Definition Transaction_deserialize (data : bytes) : result SerError (Transaction * Z) :=
  if len data <? 4 then Err UnexpectedEof
  else
    let pos := 0 in
    let input_count := le_val (slice data pos (pos + 2)) in
    let pos := pos + 2 in
    let output_count := le_val (slice data pos (pos + 2)) in
    let pos := pos + 2 in
    let remaining := saturating_sub (len data) pos in
    let min_needed :=
      saturating_add U64_MAX
        (saturating_add U64_MAX (saturating_mul U64_MAX input_count 36)
           (saturating_mul U64_MAX output_count 12))
        (saturating_mul U64_MAX input_count 3) in
    if remaining <? min_needed then Err UnexpectedEof
    else
      let? (inputs, pos) := deserialize_n TxInput_deserialize (Z.to_nat input_count) data pos in
      let? (outputs, pos) := deserialize_n TxOutput_deserialize (Z.to_nat output_count) data pos in
      let? (witnesses, pos) := deserialize_n TxWitness_deserialize (Z.to_nat input_count) data pos in
      Ok ({| inputs := inputs; outputs := outputs; witnesses := witnesses |}, pos).

Definition is_coinbase (tx : Transaction) : bool :=
  match inputs tx with
  | [i] => bool_decide (prev_tx_id i = Hash256_ZERO)
  | _ => false
  end.

Definition serialized_size (tx : Transaction) : result SerError Z :=
  let? b := Transaction_serialize tx in Ok (len b).

(** ** Outpoints *)

Record OutPoint := { op_tx_id : Hash256; op_index : Z }.

#[export] Instance OutPoint_eq_dec : EqDecision OutPoint.
Proof. solve_decision. Defined.
#[export] Instance OutPoint_countable : Countable OutPoint.
Proof.
  apply (inj_countable' (fun o => (op_tx_id o, op_index o))
           (fun p => {| op_tx_id := fst p; op_index := snd p |})). by intros [].
Defined.

Definition OutPoint_serialize (o : OutPoint) : bytes := op_tx_id o ++ le_bytes 4 (op_index o).

Definition input_outpoint (i : TxInput) : OutPoint :=
  {| op_tx_id := prev_tx_id i; op_index := output_index i |}.

#[export] Instance TxInput_eq_dec : EqDecision TxInput.
Proof. solve_decision. Defined.
#[export] Instance TxOutput_eq_dec : EqDecision TxOutput.
Proof. solve_decision. Defined.
#[export] Instance TxWitness_eq_dec : EqDecision TxWitness.
Proof. solve_decision. Defined.
#[export] Instance Transaction_eq_dec : EqDecision Transaction.
Proof. solve_decision. Defined.

(** ** Well-formedness: what the Rust types and the wire limits guarantee *)

Definition TxInput_wf (i : TxInput) : Prop := hash_wf (prev_tx_id i) /\ in_u32 (output_index i).

Definition TxOutput_wf (o : TxOutput) : Prop :=
  in_u64 (value o) /\ len (script o) <= U16_MAX /\
  match datum o with Some d => len d <= MAX_DATUM_SIZE | None => True end /\
  match datum_hash o with Some h => hash_wf h | None => True end.

Definition TxWitness_wf (w : TxWitness) : Prop :=
  len (witness w) <= U16_MAX /\
  match redeemer w with Some r => len r <= MAX_REDEEMER_SIZE | None => True end.

Definition Transaction_wf (tx : Transaction) : Prop :=
  len (inputs tx) <= U16_MAX /\ len (outputs tx) <= U16_MAX /\
  length (witnesses tx) = length (inputs tx) /\
  Forall TxInput_wf (inputs tx) /\ Forall TxOutput_wf (outputs tx) /\
  Forall TxWitness_wf (witnesses tx).

(** ** Codec proofs *)

Lemma len_pow256 n l : len l = n -> 0 <= le_val l < 256 ^ n.
Proof. intros <-. apply le_val_range. Qed.

#[export] Instance varbytes_codec :
  Codec (fun s => len s <= U16_MAX) serialize_varbytes deserialize_varbytes.
Proof.
  split.
  - intros s Hs. exists (le_bytes 2 (len s) ++ s). unfold serialize_varbytes.
    destruct (Z.ltb_spec U16_MAX (len s)); [lia|]. split; [done|]. intros rest.
    unfold deserialize_varbytes. rewrite <- app_assoc, slice_app by apply len_le_bytes.
    rewrite le_val_bytes by (pose proof (len_nonneg s); unfold U16_MAX in *; simpl; lia).
    destruct (Z.ltb_spec (len (le_bytes 2 (len s) ++ s ++ rest)) 2); [len_lia|].
    destruct (Z.ltb_spec (len (le_bytes 2 (len s) ++ s ++ rest)) (2 + len s)); [len_lia|].
    rewrite slice_mid by len_lia. do 2 f_equal. len_lia.
  - intros data s n Hd. unfold deserialize_varbytes in Hd. inv_res.
    rewrite Z.ltb_ge in *.
    destruct (split_len data 2) as (a & r & -> & Ha); [lia|].
    rewrite slice_app in * by done. pose proof (len_pow256 2 a Ha).
    destruct (split_len r (le_val a)) as (s & rest & -> & Hs); [len_lia|].
    rewrite <- Hs, slice_mid by lia. unfold U16_MAX. split; [simpl in *; lia|].
    exists (a ++ s), rest. unfold serialize_varbytes, U16_MAX.
    destruct (Z.ltb_spec 65535 (len s)); [simpl in *; lia|].
    rewrite Hs, le_bytes_val, <- app_assoc by (rewrite Ha; done). split_and!; [done..|len_lia].
Qed.

Lemma varbytes_encodes s :
  len s <= U16_MAX ->
  exists b, serialize_varbytes s = Ok b /\ forall rest, deserialize_varbytes (b ++ rest) = Ok (s, len b).
Proof. apply (@codec_encodes _ _ _ _ _ _ varbytes_codec). Qed.

#[export] Instance TxInput_codec :
  Codec TxInput_wf (fun i => Ok (E := SerError) (TxInput_serialize i)) TxInput_deserialize.
Proof.
  split.
  - intros [h i] [Hh Hi]. simpl in *. eexists. split; [done|]. intros rest.
    unfold TxInput_deserialize, TxInput_serialize, hash_wf, in_u32, U32_MAX in *. simpl.
    destruct (Z.ltb_spec (len ((h ++ le_bytes 4 i) ++ rest)) 36); [len_lia|].
    rewrite <- app_assoc, slice_app, slice_mid, le_val_bytes by (simpl; len_lia).
    do 2 f_equal. len_lia.
  - intros data [h i] n Hd. unfold TxInput_deserialize in Hd. inv_res. rewrite Z.ltb_ge in *.
    destruct (split_len data 32) as (a & r & -> & Ha); [lia|].
    destruct (split_len r 4) as (b & r' & -> & Hb); [len_lia|].
    rewrite slice_app, slice_mid in * by len_lia.
    pose proof (len_pow256 4 b Hb). unfold TxInput_wf, hash_wf, in_u32, U32_MAX. simpl in *.
    split; [lia|]. exists (a ++ b), r'. unfold TxInput_serialize. simpl.
    rewrite le_bytes_val, <- app_assoc by done. split_and!; [done..|len_lia].
Qed.

(** The optional parts, read at a position. *)
Definition flagged (o : option bytes) (b : bytes) : Prop :=
  match o with Some d => b = [x01] ++ d | None => b = [x00] end.

Lemma deserialize_datum_enc pre d b rest :
  match d with Some d => len d <= MAX_DATUM_SIZE | None => True end ->
  match d with Some d => exists e, serialize_varbytes d = Ok e /\ b = [x01] ++ e | None => b = [x00] end ->
  deserialize_datum (pre ++ b ++ rest) (len pre) = Ok (d, len pre + len b).
Proof.
  intros Hd Hb. unfold deserialize_datum. destruct d as [d|].
  - destruct Hb as (e & He & ->). simpl. rewrite byte_at_mid by done.
    destruct (Z.leb_spec (len (pre ++ x01 :: e ++ rest)) (len pre)); [len_lia|].
    destruct (varbytes_encodes d) as (e' & He' & Hdec); [unfold U16_MAX, MAX_DATUM_SIZE in *; lia|].
    rewrite He in He'. injection He' as <-.
    rewrite slice_from_add, slice_from_app, slice_from_cons, Hdec by (done || apply len_nonneg).
    simpl. destruct (Z.ltb_spec MAX_DATUM_SIZE (len d)); [lia|]. do 2 f_equal. len_lia.
  - subst b. simpl. rewrite byte_at_mid by done.
    destruct (Z.leb_spec (len (pre ++ x00 :: rest)) (len pre)); [len_lia|]. done.
Qed.

Lemma deserialize_datum_dec pre r d n :
  deserialize_datum (pre ++ r) (len pre) = Ok (d, n) ->
  match d with Some d => len d <= MAX_DATUM_SIZE | None => True end /\
  exists b rest, r = b ++ rest /\ n = len pre + len b /\
    match d with Some d => exists e, serialize_varbytes d = Ok e /\ b = [x01] ++ e | None => b = [x00] end.
Proof.
  unfold deserialize_datum. intros Hd. inv_step.
  destruct r as [|x r]; [len_lia|]. rewrite byte_at_mid in Hd by done. inv_step.
  destruct (flag_cases x) as [-> | ->]; [done| |].
  - simpl in Hd. inv_res. split; [done|]. exists [x00], r. split_and!; [done| |done]. len_lia.
  - simpl in Hd. inv_res.
    rewrite slice_from_add, slice_from_app, slice_from_cons in * by (done || apply len_nonneg).
    match goal with Hv : deserialize_varbytes _ = _ |- _ =>
      apply codec_decodes in Hv as (_ & e & rest & He & -> & ->) end.
    rewrite Z.ltb_ge in *. split; [done|]. exists ([x01] ++ e), rest.
    split_and!; [done| |eauto]. len_lia.
Qed.

Lemma deserialize_datum_hash_enc pre h b rest :
  match h with Some h => hash_wf h | None => True end -> flagged h b ->
  deserialize_datum_hash (pre ++ b ++ rest) (len pre) = Ok (h, len pre + len b).
Proof.
  intros Hh Hb. unfold deserialize_datum_hash, flagged, hash_wf in *. destruct h as [h|]; subst b; simpl.
  - rewrite byte_at_mid by done.
    destruct (Z.leb_spec (len (pre ++ x01 :: h ++ rest)) (len pre)); [len_lia|]. simpl.
    destruct (Z.ltb_spec (len (pre ++ x01 :: h ++ rest)) (len pre + 1 + 32)); [len_lia|].
    replace (pre ++ x01 :: h ++ rest) with ((pre ++ [x01]) ++ h ++ rest) by by rewrite <- app_assoc.
    rewrite slice_mid by len_lia. do 2 f_equal. len_lia.
  - rewrite byte_at_mid by done.
    destruct (Z.leb_spec (len (pre ++ x00 :: rest)) (len pre)); [len_lia|]. done.
Qed.

Lemma deserialize_datum_hash_dec pre r h n :
  deserialize_datum_hash (pre ++ r) (len pre) = Ok (h, n) ->
  match h with Some h => hash_wf h | None => True end /\
  exists b rest, r = b ++ rest /\ n = len pre + len b /\ flagged h b.
Proof.
  unfold deserialize_datum_hash. intros Hd. inv_step.
  destruct r as [|x r]; [len_lia|]. rewrite byte_at_mid in Hd by done. inv_step.
  destruct (flag_cases x) as [-> | ->]; [done| |].
  - simpl in Hd. inv_res. split; [done|]. exists [x00], r. split_and!; [done| |done]. len_lia.
  - simpl in Hd. inv_step. rewrite Z.ltb_ge in *.
    destruct (split_len r 32) as (h' & rest & -> & Hh); [len_lia|].
    replace (pre ++ x01 :: h' ++ rest) with ((pre ++ [x01]) ++ h' ++ rest) in Hd
      by by rewrite <- app_assoc.
    rewrite slice_mid in Hd by len_lia. inv_res. split; [done|].
    exists ([x01] ++ h'), rest. split_and!; [done| |done]. len_lia.
Qed.

#[export] Instance TxOutput_codec : Codec TxOutput_wf TxOutput_serialize TxOutput_deserialize.
Proof.
  split.
  - intros [v s d h] (Hv & Hs & Hd & Hh). simpl in *.
    destruct (varbytes_encodes s Hs) as (es & Es & Hsdec).
    assert (exists ed, match d with Some d => exists e, serialize_varbytes d = Ok e /\ ed = [x01] ++ e
                       | None => ed = [x00] end) as (ed & Hed).
    { destruct d as [d|]; [|eauto].
      destruct (varbytes_encodes d) as (e & Ee & _); [unfold U16_MAX, MAX_DATUM_SIZE in *; lia|eauto]. }
    assert (exists eh, flagged h eh) as (eh & Heh) by (destruct h; simpl; eauto).
    exists (le_bytes 8 v ++ es ++ ed ++ eh). unfold TxOutput_serialize. simpl. rewrite Es. split.
    { destruct d as [d|], h as [h|]; simpl in *;
        repeat match goal with He : exists _, _ |- _ => destruct He as (? & He & ->); rewrite He end;
        subst; by rewrite <- ?app_assoc. }
    intros rest. unfold TxOutput_deserialize. simpl.
    destruct (Z.ltb_spec (len ((le_bytes 8 v ++ es ++ ed ++ eh) ++ rest)) 8); [len_lia|].
    rewrite <- !app_assoc, slice_app, le_val_bytes
      by (len_lia || (unfold in_u64, U64_MAX in *; simpl; lia)).
    rewrite slice_from_app, Hsdec by len_lia.
    replace (0 + 8 + len es) with (len (le_bytes 8 v ++ es)) by len_lia.
    rewrite app_assoc, (deserialize_datum_enc _ d) by done.
    rewrite <- len_app, app_assoc, (deserialize_datum_hash_enc _ h) by done.
    do 2 f_equal. len_lia.
  - intros data [v s d h] n Hd. unfold TxOutput_deserialize in Hd. simpl in Hd. inv_res.
    rewrite Z.ltb_ge in *. destruct (split_len data 8) as (a & r & -> & Ha); [lia|].
    rewrite slice_app, slice_from_app in * by done.
    match goal with Hv : deserialize_varbytes _ = _ |- _ =>
      apply codec_decodes in Hv as (Hs & es & r1 & Es & -> & ->) end.
    rewrite app_assoc in *. replace (0 + 8 + len es) with (len (a ++ es)) in * by len_lia.
    match goal with Hv : deserialize_datum _ _ = _ |- _ =>
      apply deserialize_datum_dec in Hv as (Hd & ed & r2 & -> & -> & Hed) end.
    rewrite <- len_app in *. rewrite app_assoc in *.
    match goal with Hv : deserialize_datum_hash _ _ = _ |- _ =>
      apply deserialize_datum_hash_dec in Hv as (Hh & eh & r3 & -> & -> & Heh) end.
    pose proof (len_pow256 8 a Ha) as Hva.
    split; [unfold TxOutput_wf, in_u64, U64_MAX; simpl in *; split_and!; try done; lia|].
    exists (a ++ es ++ ed ++ eh), r3. rewrite <- !app_assoc. split_and!; [|done|len_lia].
    unfold TxOutput_serialize. simpl. rewrite Es, le_bytes_val by done.
    destruct d as [d|], h as [h|]; simpl in *;
      repeat match goal with He : exists _, _ |- _ => destruct He as (? & He & ->); rewrite He end;
      subst; by rewrite <- ?app_assoc.
Qed.

#[export] Instance TxWitness_codec : Codec TxWitness_wf TxWitness_serialize TxWitness_deserialize.
Proof.
  split.
  - intros [w r] (Hw & Hr). simpl in *. destruct (varbytes_encodes w Hw) as (ew & Ew & Hwdec).
    unfold TxWitness_serialize, TxWitness_deserialize. simpl. rewrite Ew. destruct r as [r|].
    + destruct (varbytes_encodes r) as (er & Er & Hrdec);
        [unfold U16_MAX, MAX_REDEEMER_SIZE in *; lia|].
      rewrite Er. exists (ew ++ [x01] ++ er). split; [done|]. intros rest.
      rewrite slice_from_0, <- app_assoc, Hwdec, Z.add_0_l. simpl.
      destruct (Z.leb_spec (len (ew ++ x01 :: er ++ rest)) (len ew)); [len_lia|].
      rewrite byte_at_mid by done. simpl.
      rewrite slice_from_add, slice_from_app, slice_from_cons, Hrdec by (done || apply len_nonneg).
      destruct (Z.ltb_spec MAX_REDEEMER_SIZE (len r)); [lia|]. do 2 f_equal. len_lia.
    + exists (ew ++ [x00]). split; [done|]. intros rest. rewrite slice_from_0, <- app_assoc, Hwdec, Z.add_0_l. simpl.
      destruct (Z.leb_spec (len (ew ++ x00 :: rest)) (len ew)); [len_lia|].
      rewrite byte_at_mid by done. simpl. do 2 f_equal. len_lia.
  - intros data [w r] n Hd. unfold TxWitness_deserialize in Hd. rewrite slice_from_0 in Hd. inv_step.
    inv_step. match goal with Hv : deserialize_varbytes _ = _ |- _ =>
      apply codec_decodes in Hv as (Hw & ew & r1 & Ew & -> & ->) end.
    rewrite Z.add_0_l in Hd. inv_step. destruct r1 as [|x r1]; [len_lia|].
    rewrite byte_at_mid in Hd by done. inv_step. destruct (flag_cases x) as [-> | ->]; [done| |].
    + simpl in Hd. inv_res. split; [done|]. exists (ew ++ [x00]), r1.
      unfold TxWitness_serialize. simpl. rewrite Ew, <- app_assoc. split_and!; [done..|len_lia].
    + simpl in Hd. rewrite slice_from_add, slice_from_app, slice_from_cons in Hd
        by (done || apply len_nonneg).
      inv_res. match goal with Hv : deserialize_varbytes _ = _ |- _ =>
        apply codec_decodes in Hv as (_ & er & r2 & Er & -> & ->) end.
      rewrite Z.ltb_ge in *. split; [done|]. exists (ew ++ [x01] ++ er), r2.
      unfold TxWitness_serialize. simpl. rewrite Ew, Er, <- app_assoc. split_and!; [done..|len_lia].
Qed.

(** *** Whole transactions *)

Lemma serialize_header_ok tx :
  len (inputs tx) <= U16_MAX -> len (outputs tx) <= U16_MAX ->
  serialize_header tx = Ok (le_bytes 2 (len (inputs tx)) ++ le_bytes 2 (len (outputs tx))).
Proof.
  intros. unfold serialize_header.
  destruct (Z.ltb_spec U16_MAX (len (inputs tx))); [lia|].
  destruct (Z.ltb_spec U16_MAX (len (outputs tx))); [lia|]. done.
Qed.

(** Smallest encodings, from which the deserializer's early bound follows. *)
Lemma serialize_all_lower {F A} (enc : A -> result F bytes) k xs b :
  (forall x e, x ∈ xs -> enc x = Ok e -> k <= len e) ->
  serialize_all enc xs = Ok b -> k * len xs <= len b.
Proof.
  revert b. induction xs as [|x xs IH]; intros b Hk Hb; simpl in Hb.
  { inv_res. unfold len. simpl. lia. }
  inv_res. rewrite len_cons, len_app, Z.mul_add_distr_l, Z.mul_1_r.
  apply Z.add_le_mono; [eapply Hk; [left | done] | apply IH; [|done]].
  intros y e Hy. apply Hk. by right.
Qed.

Lemma varbytes_lower s e : serialize_varbytes s = Ok e -> 2 <= len e.
Proof. unfold serialize_varbytes. intros. inv_res. len_lia. Qed.
Lemma TxOutput_lower o e : TxOutput_serialize o = Ok e -> 12 <= len e.
Proof.
  unfold TxOutput_serialize. intros. inv_step. apply varbytes_lower in E.
  destruct (datum o), (datum_hash o); inv_res; len_lia.
Qed.
Lemma TxWitness_lower w e : TxWitness_serialize w = Ok e -> 3 <= len e.
Proof.
  unfold TxWitness_serialize. intros. inv_step. apply varbytes_lower in E.
  destruct (redeemer w); inv_res; len_lia.
Qed.

(** What a body prefix decodes to: the part shared by the full transaction and
    by the signing bytes. *)
Lemma body_encodes tx :
  Forall TxInput_wf (inputs tx) -> Forall TxOutput_wf (outputs tx) ->
  exists ins outs,
    serialize_all (fun i => Ok (E := SerError) (TxInput_serialize i)) (inputs tx) = Ok ins /\
    serialize_all TxOutput_serialize (outputs tx) = Ok outs /\
    forall pre rest,
      deserialize_n TxInput_deserialize (length (inputs tx)) (pre ++ ins ++ outs ++ rest) (len pre)
        = Ok (inputs tx, len pre + len ins) /\
      deserialize_n TxOutput_deserialize (length (outputs tx)) (pre ++ ins ++ outs ++ rest)
        (len pre + len ins) = Ok (outputs tx, len pre + len ins + len outs).
Proof.
  intros Hi Ho.
  destruct (serialize_all_dec (dec := TxInput_deserialize) _ Hi) as (ins & Ei & Di).
  destruct (serialize_all_dec (dec := TxOutput_deserialize) _ Ho) as (outs & Eo & Do).
  exists ins, outs. split_and!; [done..|]. intros pre rest. split; [apply Di|].
  rewrite app_assoc, <- len_app. apply Do.
Qed.

Lemma TxInput_lower i : TxInput_wf i -> len (TxInput_serialize i) = 36.
Proof. intros [Hh _]. unfold TxInput_serialize, hash_wf in *. len_lia. Qed.

Lemma counts_bound tx ins outs wits :
  Transaction_wf tx ->
  serialize_all (fun i => Ok (E := SerError) (TxInput_serialize i)) (inputs tx) = Ok ins ->
  serialize_all TxOutput_serialize (outputs tx) = Ok outs ->
  serialize_all TxWitness_serialize (witnesses tx) = Ok wits ->
  len (inputs tx) * 36 + len (outputs tx) * 12 + len (inputs tx) * 3 <= len ins + len outs + len wits.
Proof.
  intros (_ & _ & Hlw & Hi & _ & _) Ei Eo Ew. rewrite Forall_forall in Hi.
  apply (serialize_all_lower _ 36) in Ei.
  2: { intros i e Hin [= <-]. rewrite TxInput_lower; auto with lia. }
  apply (serialize_all_lower _ 12) in Eo; [|intros o e _; apply TxOutput_lower].
  apply (serialize_all_lower _ 3) in Ew; [|intros w e _; apply TxWitness_lower].
  unfold len in *. lia.
Qed.

Lemma Transaction_encodes tx :
  Transaction_wf tx ->
  exists b, Transaction_serialize tx = Ok b /\
    forall rest, Transaction_deserialize (b ++ rest) = Ok (tx, len b).
Proof.
  intros Hwf. pose proof Hwf as (Hli & Hlo & Hlw & Hi & Ho & Hw).
  destruct (body_encodes tx Hi Ho) as (ins & outs & Ei & Eo & Hbody).
  destruct (serialize_all_dec (dec := TxWitness_deserialize) _ Hw) as (wits & Ew & Dw).
  pose proof (counts_bound tx ins outs wits Hwf Ei Eo Ew) as Hmin.
  pose proof (len_nonneg (inputs tx)). pose proof (len_nonneg (outputs tx)).
  unfold U16_MAX in *.
  set (ci := le_bytes 2 (len (inputs tx))). set (co := le_bytes 2 (len (outputs tx))).
  assert (len ci = 2 /\ len co = 2) as [Hci Hco] by (subst ci co; len_lia).
  exists ((ci ++ co) ++ (ins ++ outs) ++ wits). unfold Transaction_serialize, serialize_body.
  rewrite serialize_header_ok, Ei, Eo, Ew by done. split; [done|]. intros rest.
  unfold Transaction_deserialize. rewrite <- !app_assoc.
  rewrite slice_app, slice_mid by (simpl; lia). subst ci co. rewrite !le_val_bytes by (simpl; lia).
  set (ci := le_bytes 2 (len (inputs tx))) in *. set (co := le_bytes 2 (len (outputs tx))) in *.
  set (data := ci ++ co ++ ins ++ outs ++ wits ++ rest).
  assert (len data = 4 + (len ins + len outs + len wits) + len rest) as Hdata by (subst data; len_lia).
  destruct (Z.ltb_spec (len data) 4); [len_lia|].
  match goal with |- (if ?c then _ else _) = _ => destruct c eqn:Hc end.
  { unfold saturating_add, saturating_mul, saturating_sub, U64_MAX in Hc. len_lia. }
  subst data. rewrite !to_nat_len, app_assoc.
  replace (0 + 2 + 2) with (len (ci ++ co)) by len_lia.
  destruct (Hbody (ci ++ co) (wits ++ rest)) as [-> ->].
  rewrite <- Hlw, <- !len_app, !app_assoc, <- (app_assoc _ wits rest), Dw.
  destruct tx. do 2 f_equal. rewrite !len_app. lia.
Qed.

Lemma Transaction_decodes data tx n :
  Transaction_deserialize data = Ok (tx, n) ->
  Transaction_wf tx /\
  exists b rest, Transaction_serialize tx = Ok b /\ data = b ++ rest /\ n = len b.
Proof.
  unfold Transaction_deserialize. intros Hd. inv_res. rewrite Z.ltb_ge in *.
  destruct (split_len data 2) as (a & r & -> & Ha); [lia|].
  destruct (split_len r 2) as (b & r' & -> & Hb); [len_lia|].
  rewrite slice_app, slice_mid in * by (simpl; lia).
  pose proof (len_pow256 2 a Ha). pose proof (len_pow256 2 b Hb). simpl Z.pow in *.
  match goal with Hx : deserialize_n TxInput_deserialize _ _ _ = _ |- _ =>
    apply (deserialize_n_enc (enc := fun i => Ok (E := SerError) (TxInput_serialize i))) in Hx
      as (Hi & Li & ins & r1 & Ei & Hs1 & ->); [|lia] end.
  rewrite app_assoc, slice_from_app in Hs1 by len_lia. subst r'.
  match goal with Hx : deserialize_n TxOutput_deserialize _ _ _ = _ |- _ =>
    apply (deserialize_n_enc (enc := TxOutput_serialize)) in Hx
      as (Ho & Lo & outs & r2 & Eo & Hs2 & ->); [|len_lia] end.
  rewrite !app_assoc, slice_from_app in Hs2 by len_lia. subst r1.
  match goal with Hx : deserialize_n TxWitness_deserialize _ _ _ = _ |- _ =>
    apply (deserialize_n_enc (enc := TxWitness_serialize)) in Hx
      as (Hw & Lw & wits & r3 & Ew & Hs3 & ->); [|len_lia] end.
  rewrite !app_assoc, slice_from_app in Hs3 by len_lia. subst r2.
  assert (Hli : len l = le_val a) by (unfold len; lia).
  assert (Hlo : len l0 = le_val b) by (unfold len; lia).
  split; [unfold Transaction_wf, U16_MAX; simpl; rewrite Hli, Hlo; split_and!; done || lia |].
  exists ((a ++ b) ++ (ins ++ outs) ++ wits), r3. rewrite <- !app_assoc. split_and!; [|done|len_lia].
  unfold Transaction_serialize, serialize_body. rewrite serialize_header_ok by (unfold U16_MAX; simpl; lia).
  simpl. rewrite Ei, Eo, Ew, Hli, Hlo, !le_bytes_val by done. by rewrite <- !app_assoc.
Qed.

#[export] Instance Transaction_codec :
  Codec Transaction_wf Transaction_serialize Transaction_deserialize.
Proof. split; [apply Transaction_encodes | apply Transaction_decodes]. Qed.

(** *** Signing bytes determine the body *)

Definition body_wf (tx : Transaction) : Prop :=
  len (inputs tx) <= U16_MAX /\ len (outputs tx) <= U16_MAX /\
  Forall TxInput_wf (inputs tx) /\ Forall TxOutput_wf (outputs tx).

Lemma Transaction_body_wf tx : Transaction_wf tx -> body_wf tx.
Proof. unfold Transaction_wf, body_wf. tauto. Qed.

Lemma signing_bytes_inv tx b :
  body_wf tx -> signing_bytes tx = Ok b ->
  exists ci co body, b = ci ++ co ++ body /\ len ci = 2 /\ len co = 2 /\
    le_val ci = len (inputs tx) /\ le_val co = len (outputs tx) /\
    exists mid, deserialize_n TxInput_deserialize (length (inputs tx)) body 0 = Ok (inputs tx, mid) /\
    exists fin, deserialize_n TxOutput_deserialize (length (outputs tx)) body mid = Ok (outputs tx, fin).
Proof.
  intros (Hli & Hlo & Hi & Ho) Hb. destruct (body_encodes tx Hi Ho) as (ins & outs & Ei & Eo & Hbody).
  unfold signing_bytes, serialize_body in Hb. rewrite serialize_header_ok, Ei, Eo in Hb by done.
  injection Hb as <-. rewrite <- app_assoc. unfold U16_MAX in *.
  pose proof (len_nonneg (inputs tx)). pose proof (len_nonneg (outputs tx)).
  eexists _, _, _. split; [done|]. rewrite !le_val_bytes, !len_le_bytes by (simpl; lia).
  split_and!; try done. specialize (Hbody [] []). rewrite app_nil_r in Hbody. simpl in Hbody.
  destruct Hbody as [Hb1 Hb2]. eauto.
Qed.

Lemma signing_bytes_inj tx1 tx2 b :
  body_wf tx1 -> body_wf tx2 -> signing_bytes tx1 = Ok b -> signing_bytes tx2 = Ok b ->
  inputs tx1 = inputs tx2 /\ outputs tx1 = outputs tx2.
Proof.
  intros Hw1 Hw2 H1 H2.
  apply (signing_bytes_inv _ _ Hw1) in H1 as (ci & co & bd & -> & Lci & Lco & Vci & Vco & m & Di & f & Do).
  apply (signing_bytes_inv _ _ Hw2) in H2 as (ci' & co' & bd' & E & Lci' & Lco' & Vci' & Vco' & m' & Di' & f' & Do').
  apply app_inj_1 in E as [-> E]; [|unfold len in *; lia].
  apply app_inj_1 in E as [-> ->]; [|unfold len in *; lia].
  assert (length (inputs tx1) = length (inputs tx2)) as Li by (unfold len in *; lia).
  assert (length (outputs tx1) = length (outputs tx2)) as Lo by (unfold len in *; lia).
  rewrite Li, Di' in Di. injection Di as -> ->. rewrite Lo, Do' in Do. injection Do as -> ->. done.
Qed.

Lemma signing_bytes_body tx1 tx2 :
  inputs tx1 = inputs tx2 -> outputs tx1 = outputs tx2 -> signing_bytes tx1 = signing_bytes tx2.
Proof.
  intros Hi Ho. unfold signing_bytes, serialize_header, serialize_body. by rewrite Hi, Ho.
Qed.

(** ** Properties *)

(** The transaction codec is correct.  Round trip: the serialization of a
    well-formed transaction succeeds and deserializes to the same transaction,
    consuming exactly its own bytes whatever follows in the buffer.  Canonical
    decoding: whatever the deserializer accepts is a well-formed transaction
    whose serialization is exactly the consumed prefix, so no transaction has a
    second accepted encoding. *)
Theorem transaction_codec_correct :
  (forall tx, Transaction_wf tx ->
    exists b, Transaction_serialize tx = Ok b /\
      forall rest, Transaction_deserialize (b ++ rest) = Ok (tx, len b)) /\
  (forall data tx n, Transaction_deserialize data = Ok (tx, n) ->
    Transaction_wf tx /\ 0 <= n <= len data /\ Transaction_serialize tx = Ok (slice data 0 n)).
Proof.
  split; [apply codec_encodes|].
  intros data tx n Hd. apply codec_decodes in Hd as (Hwf & b & rest & Hb & -> & ->).
  split_and!; [done|len_lia..|]. by rewrite slice_app.
Qed.

(** a signature binds the chain and the transaction body: if two
    transactions have the same signing message, they were built for the same
    genesis id and have the same inputs and outputs. *)
Theorem sig_message_binds_chain_and_body dom1 dom2 tx1 tx2 m :
  hash_wf dom1 -> hash_wf dom2 -> body_wf tx1 -> body_wf tx2 ->
  sig_message dom1 tx1 = Ok m -> sig_message dom2 tx2 = Ok m ->
  dom1 = dom2 /\ inputs tx1 = inputs tx2 /\ outputs tx1 = outputs tx2.
Proof.
  unfold sig_message, hash_wf. intros Hd1 Hd2 Hw1 Hw2 H1 H2.
  destruct (signing_bytes tx1) as [b1|] eqn:E1, (signing_bytes tx2) as [b2|] eqn:E2; try done.
  assert (DS_SIG ++ dom1 ++ b1 = DS_SIG ++ dom2 ++ b2) as E by congruence.
  apply app_inv_head, app_inj_1 in E as [-> ->]; [|unfold len in *; lia].
  split; [done|]. by eapply signing_bytes_inj.
Qed.

(** The transaction id depends on the body alone: witnesses do not enter
    it, and two transactions with the same id have the same inputs and outputs
    unless their two preimages collide. *)
Theorem tx_id_commits_to_body `{Sha2} tx1 tx2 :
  (inputs tx1 = inputs tx2 -> outputs tx1 = outputs tx2 -> tx_id tx1 = tx_id tx2) /\
  (forall b1 b2 h,
     body_wf tx1 -> body_wf tx2 ->
     signing_bytes tx1 = Ok b1 -> signing_bytes tx2 = Ok b2 ->
     collision_free [domain_preimage DS_TX b1] [domain_preimage DS_TX b2] ->
     tx_id tx1 = Ok h -> tx_id tx2 = Ok h ->
     inputs tx1 = inputs tx2 /\ outputs tx1 = outputs tx2).
Proof.
  split.
  - intros Hi Ho. unfold tx_id. by rewrite (signing_bytes_body tx1 tx2).
  - intros b1 b2 h Hw1 Hw2 E1 E2 Hcf H1 H2. unfold tx_id in *. rewrite E1 in H1. rewrite E2 in H2.
    assert (domain_hash DS_TX b1 = domain_hash DS_TX b2) as E by congruence. apply Hcf in E; [|left..].
    apply domain_preimage_inj_data in E. subst b2. by eapply signing_bytes_inj.
Qed.

(** ** Witnesses *)

Definition sample_tx : Transaction := {|
  inputs := [ {| prev_tx_id := replicate 32 x07; output_index := 3 |} ];
  outputs := [ {| value := 5000; script := replicate 32 x11; datum := Some [x01; x02];
                  datum_hash := Some (replicate 32 x22) |};
               {| value := 700; script := [x01; x02; x03]; datum := None; datum_hash := None |} ];
  witnesses := [ {| witness := replicate 5 x33; redeemer := Some [x44] |} ]
|}.

Lemma sample_tx_wf : Transaction_wf sample_tx.
Proof. crush_closed. Qed.

Lemma sig_message_binds_chain_and_body_witness :
  replicate 32 x09 = replicate 32 x09 /\ inputs sample_tx = inputs sample_tx /\
  outputs sample_tx = outputs sample_tx.
Proof.
  apply (sig_message_binds_chain_and_body (replicate 32 x09) (replicate 32 x09) sample_tx sample_tx
           (match sig_message (replicate 32 x09) sample_tx with Ok m => m | Err _ => [] end));
    crush_closed.
Defined.
