(* ===== verification/Block.v ===== *)
(** * Blocks ([src/types/block.rs])

    The 156-byte header and the block encoding.  The header codec works on
    fixed byte ranges, the block codec on the transaction codec's interface. *)

From Stdlib Require Import Strings.String.
From S2P Require Import Prelude Bytes Codec Hash Transaction.
#[local] Open Scope Z_scope.
#[local] Open Scope list_scope.

Definition HEADER_SIZE : Z := 156.
Definition MAX_BLOCK_SIZE : Z := 4194304.
Definition MIN_TX_SIZE : Z := 50.

Record BlockHeader := {
  version : Z;
  height : Z;
  prev_block_id : Hash256;
  timestamp : Z;
  difficulty_target : Hash256;
  nonce : Z;
  tx_root : Hash256;
  state_root : Hash256
}.

#[export] Instance BlockHeader_eq_dec : EqDecision BlockHeader.
Proof. solve_decision. Defined.

Definition BlockHeader_serialize (h : BlockHeader) : bytes :=
  le_bytes 4 (version h) ++ le_bytes 8 (height h) ++ prev_block_id h ++
  le_bytes 8 (timestamp h) ++ difficulty_target h ++ le_bytes 8 (nonce h) ++
  tx_root h ++ state_root h.

Definition BlockHeader_deserialize (data : bytes) : BlockHeader := {|
  version := le_val (slice data 0 4);
  height := le_val (slice data 4 12);
  prev_block_id := slice data 12 44;
  timestamp := le_val (slice data 44 52);
  difficulty_target := slice data 52 84;
  nonce := le_val (slice data 84 92);
  tx_root := slice data 92 124;
  state_root := slice data 124 156
|}.

Definition block_id `{Sha2} (h : BlockHeader) : Hash256 := Hash256_sha256 (BlockHeader_serialize h).

Record Block := { header : BlockHeader; transactions : list Transaction }.

Definition Block_serialize (b : Block) : result SerError bytes :=
  let? txs := serialize_all Transaction_serialize (transactions b) in
  Ok (BlockHeader_serialize (header b) ++ le_bytes 4 (len (transactions b)) ++ txs).

Definition Block_deserialize (data : bytes) : result SerError (Block * Z) :=
  if len data <? HEADER_SIZE + 4 then Err UnexpectedEof
  else
    let header := BlockHeader_deserialize (slice data 0 HEADER_SIZE) in
    let pos := HEADER_SIZE in
    let tx_count := le_val (slice data pos (pos + 4)) in
    let pos := pos + 4 in
    let max_txs := MAX_BLOCK_SIZE / MIN_TX_SIZE in
    if max_txs <? tx_count then
      Err (InvalidData ("tx_count " +:+ pretty tx_count +:+ " exceeds maximum " +:+ pretty max_txs))
    else
      let? (transactions, pos) := deserialize_n Transaction_deserialize (Z.to_nat tx_count) data pos in
      Ok ({| header := header; transactions := transactions |}, pos).

(** ** Well-formedness *)

Definition BlockHeader_wf (h : BlockHeader) : Prop :=
  in_u32 (version h) /\ in_u64 (height h) /\ hash_wf (prev_block_id h) /\ in_u64 (timestamp h) /\
  hash_wf (difficulty_target h) /\ in_u64 (nonce h) /\ hash_wf (tx_root h) /\ hash_wf (state_root h).

Definition Block_wf (b : Block) : Prop :=
  BlockHeader_wf (header b) /\ len (transactions b) <= MAX_BLOCK_SIZE / MIN_TX_SIZE /\
  Forall Transaction_wf (transactions b).

(** ** Codec proofs *)

Lemma len_header h : BlockHeader_wf h -> len (BlockHeader_serialize h) = 156.
Proof. unfold BlockHeader_wf, hash_wf, BlockHeader_serialize. intros. len_lia. Qed.

(** Eight consecutive fields, read at the header's fixed offsets. *)
Lemma header_fields v ht p t d n tr sr :
  len v = 4 -> len ht = 8 -> len p = 32 -> len t = 8 -> len d = 32 -> len n = 8 -> len tr = 32 ->
  len sr = 32 ->
  BlockHeader_deserialize (v ++ ht ++ p ++ t ++ d ++ n ++ tr ++ sr) =
  {| version := le_val v; height := le_val ht; prev_block_id := p; timestamp := le_val t;
     difficulty_target := d; nonce := le_val n; tx_root := tr; state_root := sr |}.
Proof.
  intros. unfold BlockHeader_deserialize.
  f_equal; try (f_equal; []);
    repeat first [rewrite slice_all by lia | rewrite slice_head by lia | rewrite slice_skip by lia];
    done.
Qed.

Lemma header_decodes_encoding h :
  BlockHeader_wf h -> BlockHeader_deserialize (BlockHeader_serialize h) = h.
Proof.
  destruct h as [v ht p t d n tr sr].
  unfold BlockHeader_wf, in_u32, in_u64, hash_wf, U32_MAX, U64_MAX, BlockHeader_serialize. simpl.
  intros (Hv & Hht & Hp & Ht & Hd & Hn & Htr & Hsr).
  rewrite header_fields by (done || apply len_le_bytes). by rewrite !le_val_bytes by (simpl; lia).
Qed.

Lemma header_encodes_decoding data :
  len data = 156 ->
  BlockHeader_wf (BlockHeader_deserialize data) /\
  BlockHeader_serialize (BlockHeader_deserialize data) = data.
Proof.
  intros Hl.
  destruct (split_len data 4) as (v & r1 & -> & Hv); [lia|].
  destruct (split_len r1 8) as (ht & r2 & -> & Hht); [len_lia|].
  destruct (split_len r2 32) as (p & r3 & -> & Hp); [len_lia|].
  destruct (split_len r3 8) as (t & r4 & -> & Ht); [len_lia|].
  destruct (split_len r4 32) as (d & r5 & -> & Hd); [len_lia|].
  destruct (split_len r5 8) as (n & r6 & -> & Hn); [len_lia|].
  destruct (split_len r6 32) as (tr & sr & -> & Htr); [len_lia|].
  assert (len sr = 32) as Hsr by len_lia.
  rewrite header_fields by done. split.
  - pose proof (len_pow256 4 v Hv). pose proof (len_pow256 8 ht Hht).
    pose proof (len_pow256 8 t Ht). pose proof (len_pow256 8 n Hn).
    unfold BlockHeader_wf, in_u32, in_u64, hash_wf, U32_MAX, U64_MAX. simpl in *. split_and!; done || lia.
  - unfold BlockHeader_serialize. simpl. by rewrite !le_bytes_val by done.
Qed.

Lemma Block_encodes b :
  Block_wf b ->
  exists e, Block_serialize b = Ok e /\ forall rest, Block_deserialize (e ++ rest) = Ok (b, len e).
Proof.
  intros (Hh & Hn & Htx).
  destruct (serialize_all_dec (dec := Transaction_deserialize) _ Htx) as (txs & Et & Dt).
  pose proof (len_header _ Hh) as Hlh. pose proof (len_nonneg (transactions b)).
  change (MAX_BLOCK_SIZE / MIN_TX_SIZE) with 83886 in *.
  set (hb := BlockHeader_serialize (header b)) in *. set (cb := le_bytes 4 (len (transactions b))).
  assert (len cb = 4) as Hcb by (subst cb; len_lia).
  exists (hb ++ cb ++ txs). unfold Block_serialize. rewrite Et. split; [done|]. intros rest.
  unfold Block_deserialize, HEADER_SIZE. rewrite <- !app_assoc, slice_app, slice_mid by lia.
  subst cb. rewrite le_val_bytes by (simpl; lia). set (cb := le_bytes 4 (len (transactions b))) in *.
  destruct (Z.ltb_spec (len (hb ++ cb ++ txs ++ rest)) (156 + 4)); [len_lia|].
  change (MAX_BLOCK_SIZE / MIN_TX_SIZE) with 83886.
  destruct (Z.ltb_spec 83886 (len (transactions b))); [lia|].
  rewrite to_nat_len, app_assoc. replace (156 + 4) with (len (hb ++ cb)) by len_lia. rewrite Dt.
  subst hb. rewrite header_decodes_encoding by done. destruct b. do 2 f_equal. len_lia.
Qed.

Lemma Block_decodes data b n :
  Block_deserialize data = Ok (b, n) ->
  Block_wf b /\ exists e rest, Block_serialize b = Ok e /\ data = e ++ rest /\ n = len e.
Proof.
  unfold Block_deserialize, HEADER_SIZE. change (MAX_BLOCK_SIZE / MIN_TX_SIZE) with 83886.
  intros Hd. inv_res. rewrite Z.ltb_ge in *.
  destruct (split_len data 156) as (h & r & -> & Hh); [lia|].
  destruct (split_len r 4) as (c & r' & -> & Hc); [len_lia|].
  rewrite slice_app, slice_mid in * by lia. pose proof (len_pow256 4 c Hc).
  match goal with Hx : deserialize_n _ _ _ _ = _ |- _ =>
    apply (deserialize_n_enc (enc := Transaction_serialize)) in Hx
      as (Ht & Lt & txs & r1 & Et & Hs & ->); [|lia] end.
  rewrite app_assoc, slice_from_app in Hs by len_lia. subst r'.
  assert (len l = le_val c) as Hl by (unfold len; lia).
  destruct (header_encodes_decoding h Hh) as [Hwf Eh].
  split; [unfold Block_wf; change (MAX_BLOCK_SIZE / MIN_TX_SIZE) with 83886; simpl; split_and!; done || lia|].
  exists (h ++ c ++ txs), r1. unfold Block_serialize. simpl. rewrite Et, Eh, Hl, le_bytes_val by done.
  rewrite <- !app_assoc. split_and!; [done..|len_lia].
Qed.

#[export] Instance Block_codec : Codec Block_wf Block_serialize Block_deserialize.
Proof. split; [apply Block_encodes | apply Block_decodes]. Qed.

(** ** Properties *)

(** the block header codec is a bijection between well-formed headers and
    the byte strings of length 156. *)
Theorem header_codec_bijective :
  (forall h, BlockHeader_wf h ->
     len (BlockHeader_serialize h) = HEADER_SIZE /\
     BlockHeader_deserialize (BlockHeader_serialize h) = h) /\
  (forall data, len data = HEADER_SIZE ->
     BlockHeader_wf (BlockHeader_deserialize data) /\
     BlockHeader_serialize (BlockHeader_deserialize data) = data).
Proof.
  split; [|apply header_encodes_decoding]. intros h Hh.
  split; [by apply len_header | by apply header_decodes_encoding].
Qed.

(** block round trip and canonicity: a well-formed block decodes from its
    encoding, and every accepted byte string is the encoding of the block it
    yields. *)
Theorem block_codec_correct :
  (forall b, Block_wf b ->
     exists e, Block_serialize b = Ok e /\ forall rest, Block_deserialize (e ++ rest) = Ok (b, len e)) /\
  (forall data b n, Block_deserialize data = Ok (b, n) ->
     Block_wf b /\ 0 <= n <= len data /\ Block_serialize b = Ok (slice data 0 n)).
Proof.
  split; [apply codec_encodes|]. intros data b n Hd.
  apply codec_decodes in Hd as (Hwf & e & rest & He & -> & ->).
  split_and!; [done|len_lia..|]. by rewrite slice_app.
Qed.
