(* ===== verification/ScriptValue.v ===== *)
(** * Exfer Script types and values ([src/script/types.rs], [src/script/value.rs])

    Constructors carry a [T] (types) or [V] (values) prefix.  The capacity of a
    [Vec] and [size_of::<Value>()] are not fixed by the language: [heap_size]
    takes them as a parameter ([Layout]).  [deserialize_depth] recurses at most
    [MAX_VALUE_DEPTH + 1] times, so its recursion is on the levels that are
    left ([depth > MAX_VALUE_DEPTH] is "no level left"). *)

From Stdlib Require Import Strings.String.
From S2P Require Import Prelude Bytes Codec Hash.
#[local] Open Scope Z_scope.
#[local] Open Scope list_scope.

(** ** Types *)

Inductive SType :=
| TUnit
| TSum (a b : SType)
| TProduct (a b : SType)
| TList (a : SType)
| TBound (k : Z)
| TU256.

#[export] Instance SType_eq_dec : EqDecision SType.
Proof. solve_decision. Defined.

Definition TOption (inner : SType) : SType := TSum TUnit inner.
Definition bool_type : SType := TSum TUnit TUnit.
Definition bytes_type : SType := TList (TBound 256).
Definition hash256_type : SType := TBound 0.
Definition u64_type : SType := TBound U64_MAX.
Definition u256_type : SType := TU256.

(** ** Values *)

#[local] Set Warnings "-register-all".
Inductive Value :=
| VUnit
| VLeft (v : Value)
| VRight (v : Value)
| VPair (a b : Value)
| VList (vs : list Value)
| VBytes (bs : bytes)
| VU64 (n : Z)
| VU256 (data : bytes)
| VBool (b : bool)
| VHash (h : Hash256).

(** The induction principle that goes through the elements of a list. *)
Section ValueInd.
Variable P : Value -> Prop.
Hypotheses (HUnit : P VUnit) (HLeft : forall v, P v -> P (VLeft v))
  (HRight : forall v, P v -> P (VRight v)) (HPair : forall a b, P a -> P b -> P (VPair a b))
  (HList : forall vs, Forall P vs -> P (VList vs)) (HBytes : forall bs, P (VBytes bs))
  (HU64 : forall n, P (VU64 n)) (HU256 : forall d, P (VU256 d)) (HBool : forall b, P (VBool b))
  (HHash : forall h, P (VHash h)).
Fixpoint Value_ind' (v : Value) : P v :=
  match v with
  | VUnit => HUnit
  | VLeft v => HLeft v (Value_ind' v)
  | VRight v => HRight v (Value_ind' v)
  | VPair a b => HPair a b (Value_ind' a) (Value_ind' b)
  | VList vs =>
      HList vs ((fix go (vs : list Value) : Forall P vs :=
                   match vs with
                   | [] => Forall_nil_2 P
                   | v :: vs => Forall_cons_2 P v vs (Value_ind' v) (go vs)
                   end) vs)
  | VBytes bs => HBytes bs
  | VU64 n => HU64 n
  | VU256 d => HU256 d
  | VBool b => HBool b
  | VHash h => HHash h
  end.
End ValueInd.

#[export] Instance Value_eq_dec : EqDecision Value.
Proof.
  refine (fix go (v w : Value) : Decision (v = w) :=
    match v, w with
    | VUnit, VUnit => left eq_refl
    | VLeft a, VLeft b => cast_if (go a b)
    | VRight a, VRight b => cast_if (go a b)
    | VPair a b, VPair c d => cast_if_and (go a c) (go b d)
    | VList vs, VList ws => cast_if (@list_eq_dec _ go vs ws)
    | VBytes a, VBytes b => cast_if (decide (a = b))
    | VU64 a, VU64 b => cast_if (decide (a = b))
    | VU256 a, VU256 b => cast_if (decide (a = b))
    | VBool a, VBool b => cast_if (decide (a = b))
    | VHash a, VHash b => cast_if (decide (a = b))
    | _, _ => right _
    end); congruence.
Defined.

Definition Value_none : Value := VLeft VUnit.
Definition Value_some (v : Value) : Value := VRight v.

(** *** Memory accounting *)

(** What the language leaves to the implementation: the size of the [Value]
    enum and the capacity of a vector. *)
Class Layout := {
  VALUE_SIZE : Z;
  list_capacity : list Value -> Z;
  bytes_capacity : bytes -> Z
}.
(** Documented: a vector's capacity is at least its length; sizes are positive. *)
Class LayoutLaws `{Layout} := {
  value_size_pos : 0 < VALUE_SIZE;
  list_capacity_len vs : len vs <= list_capacity vs;
  bytes_capacity_len bs : len bs <= bytes_capacity bs
}.

Fixpoint heap_size `{Layout} (v : Value) : Z :=
  match v with
  | VUnit | VU64 _ | VU256 _ | VBool _ | VHash _ => 0
  | VLeft v => VALUE_SIZE + heap_size v
  | VRight v => VALUE_SIZE + heap_size v
  | VPair a b => 2 * VALUE_SIZE + heap_size a + heap_size b
  | VList vs =>
      fold_left (fun size h => size + h) (map heap_size vs) (list_capacity vs * VALUE_SIZE)
  | VBytes bs => bytes_capacity bs
  end.

(** *** Runtime types *)

Fixpoint infer_type (v : Value) : SType :=
  match v with
  | VUnit => TUnit
  | VLeft v => TSum (infer_type v) TUnit
  | VRight v => TSum TUnit (infer_type v)
  | VPair a b => TProduct (infer_type a) (infer_type b)
  | VList vs =>
      let elem_type := match vs with [] => TUnit | v :: _ => infer_type v end in
      TList elem_type
  | VBytes _ => bytes_type
  | VU64 _ => u64_type
  | VU256 _ => u256_type
  | VBool _ => bool_type
  | VHash _ => hash256_type
  end.

Fixpoint matches_type (v : Value) (ty : SType) : bool :=
  if bool_decide (ty = bool_type) then
    match v with
    | VBool _ => true
    | VLeft VUnit => true
    | VRight VUnit => true
    | _ => false
    end
  else if bool_decide (ty = bytes_type) then
    match v with VBytes _ => true | _ => false end
  else if bool_decide (ty = hash256_type) then
    match v with VHash _ => true | _ => false end
  else if bool_decide (ty = TU256) then
    match v with VU256 _ => true | _ => false end
  else
    match v, ty with
    | VUnit, TUnit => true
    | VU64 n, TBound k => (k =? U64_MAX) || (n <? k)
    | VLeft a, TSum ta _ => matches_type a ta
    | VRight b, TSum _ tb => matches_type b tb
    | VPair a b, TProduct ta tb => matches_type a ta && matches_type b tb
    | VList elems, TList elem_ty => forallb (fun e => matches_type e elem_ty) elems
    | _, _ => false
    end.

Definition as_bool (v : Value) : option bool :=
  match v with
  | VBool b => Some b
  | VLeft VUnit => Some false
  | VRight VUnit => Some true
  | _ => None
  end.

Definition as_u256 (v : Value) : option bytes :=
  match v with VU256 data => Some data | _ => None end.

Fixpoint lists_are_homogeneous (v : Value) : bool :=
  match v with
  | VList vs =>
      match vs with
      | v0 :: rest => forallb (fun v => bool_decide (infer_type v = infer_type v0)) rest
      | [] => true
      end && forallb lists_are_homogeneous vs
  | VLeft v | VRight v => lists_are_homogeneous v
  | VPair a b => lists_are_homogeneous a && lists_are_homogeneous b
  | _ => true
  end.

(** *** Serialization *)

Fixpoint Value_serialize (v : Value) : bytes :=
  match v with
  | VUnit => [x00]
  | VLeft v => [x01] ++ Value_serialize v
  | VRight v => [x02] ++ Value_serialize v
  | VPair a b => [x03] ++ Value_serialize a ++ Value_serialize b
  | VList vs => [x04] ++ le_bytes 4 (len vs) ++ concat (map Value_serialize vs)
  | VBytes bs => [x05] ++ le_bytes 4 (len bs) ++ bs
  | VU64 n => [x06] ++ le_bytes 8 n
  | VU256 data => [x07] ++ data
  | VBool b => [x08] ++ [if b then x01 else x00]
  | VHash h => [x09] ++ h
  end.

(** The skeleton keeps the tags and the nesting, not the scalar payloads. *)
Fixpoint structural_skeleton (v : Value) : bytes :=
  match v with
  | VUnit => [x00]
  | VLeft v => [x01] ++ structural_skeleton v
  | VRight v => [x02] ++ structural_skeleton v
  | VPair a b => [x03] ++ structural_skeleton a ++ structural_skeleton b
  | VList vs => [x04] ++ le_bytes 4 (len vs) ++ concat (map structural_skeleton vs)
  | VBytes _ => [x05]
  | VU64 _ => [x06]
  | VU256 _ => [x07]
  | VBool _ => [x08]
  | VHash _ => [x09]
  end.

Definition MAX_VALUE_DEPTH : Z := 128.
Definition MAX_LIST_LENGTH : Z := 65536.

(** [levels] is [MAX_VALUE_DEPTH + 1 - depth]. *)
Fixpoint deserialize_depth (levels : nat) (data : bytes) : result string (Value * Z) :=
  match levels with
  | O => Err "value nesting depth exceeded"%string
  | S levels =>
      match data with
      | [] => Err "unexpected end of value data"%string
      | tag :: rest =>
          match tag with
          | x00 => Ok (VUnit, 1)
          | x01 =>
              let? (v, consumed) := deserialize_depth levels rest in
              Ok (VLeft v, 1 + consumed)
          | x02 =>
              let? (v, consumed) := deserialize_depth levels rest in
              Ok (VRight v, 1 + consumed)
          | x03 =>
              let? (a, ca) := deserialize_depth levels rest in
              let? (b, cb) := deserialize_depth levels (slice_from rest ca) in
              Ok (VPair a b, 1 + ca + cb)
          | x04 =>
              if len rest <? 4 then Err "unexpected end of list length"%string
              else
                let count := le_val (slice rest 0 4) in
                if MAX_LIST_LENGTH <? count then Err "list length exceeds maximum"%string
                else
                  let? (vs, pos) := deserialize_n (deserialize_depth levels) (Z.to_nat count) rest 4 in
                  Ok (VList vs, 1 + pos)
          | x05 =>
              if len rest <? 4 then Err "unexpected end of bytes length"%string
              else
                let n := le_val (slice rest 0 4) in
                if len rest <? 4 + n then Err "unexpected end of bytes data"%string
                else Ok (VBytes (slice rest 4 (4 + n)), 1 + 4 + n)
          | x06 =>
              if len rest <? 8 then Err "unexpected end of u64 data"%string
              else Ok (VU64 (le_val (slice rest 0 8)), 1 + 8)
          | x07 =>
              if len rest <? 32 then Err "unexpected end of u256 data"%string
              else Ok (VU256 (slice rest 0 32), 1 + 32)
          | x08 =>
              match rest with
              | [] => Err "unexpected end of bool data"%string
              | x00 :: _ => Ok (VBool false, 2)
              | x01 :: _ => Ok (VBool true, 2)
              | _ => Err "non-canonical bool byte"%string
              end
          | x09 =>
              if len rest <? 32 then Err "unexpected end of hash data"%string
              else Ok (VHash (slice rest 0 32), 1 + 32)
          | _ => Err "unknown value tag"%string
          end
      end
  end.

Definition Value_deserialize (data : bytes) : result string (Value * Z) :=
  deserialize_depth (Z.to_nat (MAX_VALUE_DEPTH + 1)) data.

(** ** The value codec *)

(** What [deserialize_depth] can return with [levels] levels left: payloads in
    their width, lists within [MAX_LIST_LENGTH], nesting within the levels. *)
Fixpoint value_wf (levels : nat) (v : Value) : Prop :=
  match levels with
  | O => False
  | S levels =>
      match v with
      | VUnit | VBool _ => True
      | VLeft v | VRight v => value_wf levels v
      | VPair a b => value_wf levels a /\ value_wf levels b
      | VList vs => len vs <= MAX_LIST_LENGTH /\ Forall (value_wf levels) vs
      | VBytes bs => in_u32 (len bs)
      | VU64 n => in_u64 n
      | VU256 data => len data = 32
      | VHash h => hash_wf h
      end
  end.
Definition Value_wf : Value -> Prop := value_wf (Z.to_nat (MAX_VALUE_DEPTH + 1)).

Definition Value_enc (v : Value) : result string bytes := Ok (Value_serialize v).

Lemma serialize_all_total {F A} (f : A -> bytes) xs :
  serialize_all (F := F) (fun x => Ok (f x)) xs = Ok (concat (map f xs)).
Proof. induction xs as [|x xs IH]; [done|]. simpl. by rewrite IH. Qed.

(** Reading an [n]-byte field at the head of an input. *)
Lemma read_le n m z rest :
  Z.of_nat n = m -> 0 <= z < 256 ^ m -> le_val (slice (le_bytes n z ++ rest) 0 m) = z.
Proof. intros <- ?. rewrite slice_head by len_lia. by apply le_val_bytes. Qed.

Lemma read_le_inv n m data :
  Z.of_nat n = m -> m <= len data ->
  0 <= le_val (slice data 0 m) < 256 ^ m /\
  exists rest, data = le_bytes n (le_val (slice data 0 m)) ++ rest.
Proof.
  intros <- Hn. destruct (split_len data (Z.of_nat n)) as (a & r & -> & Ha); [lia|].
  rewrite slice_head by done. split; [rewrite <- Ha; apply le_val_range|]. exists r.
  by rewrite le_bytes_val.
Qed.

Lemma u32_range z : in_u32 z <-> 0 <= z < 256 ^ 4.
Proof. unfold in_u32, U32_MAX. change (256 ^ 4) with 4294967296. lia. Qed.
Lemma u64_range z : in_u64 z <-> 0 <= z < 256 ^ 8.
Proof. unfold in_u64, U64_MAX. change (256 ^ 8) with 18446744073709551616. lia. Qed.

(** Resolves the length guards of a decoder run on an encoding. *)
Ltac guard_false :=
  match goal with
  | |- context [if ?a <? ?b then _ else _] =>
      replace (a <? b) with false by (symmetry; apply Z.ltb_ge; len_lia)
  end.

Ltac ok_len :=
  match goal with |- Ok (?v, ?a) = Ok (?v, ?b) => assert (b = a) as ->; [len_lia | reflexivity] end.

Section Level.
Context (levels : nat) (IH : Codec (value_wf levels) Value_enc (deserialize_depth levels)).

Lemma level_enc v rest :
  value_wf levels v ->
  deserialize_depth levels (Value_serialize v ++ rest) = Ok (v, len (Value_serialize v)).
Proof. intros Hv. destruct (codec_encodes v Hv) as (b & [= <-] & Hdec). apply Hdec. Qed.

Lemma level_dec data v n :
  deserialize_depth levels data = Ok (v, n) ->
  value_wf levels v /\ n = len (Value_serialize v) /\ exists rest, data = Value_serialize v ++ rest.
Proof. intros Hd. apply codec_decodes in Hd as (Hv & b & rest & [= <-] & -> & ->). eauto. Qed.

Lemma deserialize_depth_enc v rest :
  value_wf (S levels) v ->
  deserialize_depth (S levels) (Value_serialize v ++ rest) = Ok (v, len (Value_serialize v)).
Proof.
  destruct v as [|v|v|a b|vs|bs|n|d|b|h]; cbn [value_wf]; intros Hwf;
    cbn [Value_serialize app deserialize_depth].
  - done.
  - rewrite level_enc by done. ok_len.
  - rewrite level_enc by done. ok_len.
  - destruct Hwf as [Ha Hb]. rewrite <- app_assoc, level_enc by done. rewrite slice_from_app by done.
    rewrite level_enc by done. ok_len.
  - destruct Hwf as [Hl Hvs]. rewrite <- !app_assoc. unfold MAX_LIST_LENGTH in *.
    pose proof (len_nonneg vs). guard_false.
    rewrite read_le by (done || apply u32_range; unfold in_u32, U32_MAX; lia). guard_false. rewrite to_nat_len.
    destruct (serialize_all_dec vs Hvs) as (b & Eb & Hdec).
    unfold Value_enc in Eb. rewrite serialize_all_total in Eb. injection Eb as <-.
    specialize (Hdec (le_bytes 4 (len vs)) rest). rewrite len_le_bytes in Hdec.
    change (Z.of_nat 4) with 4 in Hdec. rewrite Hdec.
    ok_len.
  - rewrite <- !app_assoc. guard_false. rewrite read_le by (done || by apply u32_range).
    guard_false. rewrite slice_mid by len_lia. ok_len.
  - guard_false. rewrite read_le by (done || by apply u64_range).
    ok_len.
  - guard_false. rewrite slice_head by done. ok_len.
  - by destruct b.
  - unfold hash_wf in Hwf. guard_false. rewrite slice_head by done. ok_len.
Qed.

(** The remaining cases of the decoder, each from its own branch. *)
Lemma decode_list_dec data vs pos :
  4 <= len data -> le_val (slice data 0 4) <= MAX_LIST_LENGTH ->
  deserialize_n (deserialize_depth levels) (Z.to_nat (le_val (slice data 0 4))) data 4 = Ok (vs, pos) ->
  value_wf (S levels) (VList vs) /\ 1 + pos = len (Value_serialize (VList vs)) /\
  exists rest, x04 :: data = Value_serialize (VList vs) ++ rest.
Proof.
  intros Hl Hm Hd. destruct (read_le_inv 4 4 data eq_refl Hl) as [Hr [r Hr']].
  apply deserialize_n_enc in Hd as (Hvs & Hlen & b & rest & Eb & Hs & ->); [|lia].
  unfold Value_enc in Eb. rewrite serialize_all_total in Eb. injection Eb as <-.
  assert (len vs = le_val (slice data 0 4)) as Hcount by (unfold len; lia).
  split; [cbn [value_wf]; split; [lia | done]|].
  split; [cbn [Value_serialize app]; len_lia|]. exists rest. cbn [Value_serialize app].
  rewrite <- Hcount in Hr'.
  f_equal. rewrite Hr' in Hs |- *. rewrite slice_from_app in Hs by len_lia. rewrite Hs. by rewrite app_assoc.
Qed.

Lemma decode_bytes_dec data :
  4 <= len data -> 4 + le_val (slice data 0 4) <= len data ->
  let n := le_val (slice data 0 4) in
  let v := VBytes (slice data 4 (4 + n)) in
  value_wf (S levels) v /\ 1 + 4 + n = len (Value_serialize v) /\
  exists rest, x05 :: data = Value_serialize v ++ rest.
Proof.
  intros Hl Hm n v. destruct (read_le_inv 4 4 data eq_refl Hl) as [Hr [r Hr']]. fold n in Hr', Hm, Hr.
  assert (n <= len r) as Hn by (rewrite Hr' in Hm; len_lia).
  destruct (split_len r n) as (a & r' & Er & Ha); [lia|].
  assert (slice data 4 (4 + n) = a) as Hv by (rewrite Hr', Er; apply slice_mid; len_lia).
  subst v. rewrite Hv. cbn [value_wf Value_serialize app]. 
  split; [apply u32_range; lia|]. split; [len_lia|]. exists r'. rewrite Hr' at 1. rewrite Ha, Er.
  by rewrite app_assoc.
Qed.

Lemma decode_fixed_dec (data : bytes) n :
  0 <= n <= len data -> len (slice data 0 n) = n /\ exists rest, data = slice data 0 n ++ rest.
Proof.
  intros Hn. destruct (split_len data n Hn) as (a & r & -> & Ha). rewrite slice_head by done. eauto.
Qed.

Lemma deserialize_depth_dec data v n :
  deserialize_depth (S levels) data = Ok (v, n) ->
  value_wf (S levels) v /\ n = len (Value_serialize v) /\ exists rest, data = Value_serialize v ++ rest.
Proof.
  destruct data as [|tag data]; [done|]. cbn [deserialize_depth].
  destruct tag; try (intros; discriminate).
  - intros [= <- <-]. split_and!; [done..|by exists data].
  - intros Hd. inv_res. apply level_dec in E as (Hv & -> & r & ->). split; [done|].
    split; [cbn [Value_serialize app]; len_lia|eauto].
  - intros Hd. inv_res. apply level_dec in E as (Hv & -> & r & ->). split; [done|].
    split; [cbn [Value_serialize app]; len_lia|eauto].
  - intros Hd. inv_res. apply level_dec in E as (Hv & -> & r & ->).
    rewrite slice_from_app in E0 by done. apply level_dec in E0 as (Hv' & -> & r' & ->).
    split; [done|]. split; [cbn [Value_serialize app]; len_lia|]. exists r'. simpl. by rewrite app_assoc.
  - intros Hd. inv_res. apply decode_list_dec in E1; [done|lia..].
  - intros Hd. inv_res. apply decode_bytes_dec; lia.
  - intros Hd. inv_res. destruct (read_le_inv 8 8 data) as [Hr [r Hr']]; [done|lia|].
    cbn [value_wf Value_serialize app]. 
    split; [by apply u64_range|]. split; [len_lia|]. exists r. by rewrite Hr' at 1.
  - intros Hd. inv_res. destruct (decode_fixed_dec data 32) as [Hl [r Hr]]; [lia|].
    cbn [value_wf Value_serialize app]. split; [done|]. split; [len_lia|]. exists r. by rewrite Hr at 1.
  - destruct data as [|b data]; [done|]. destruct b; intros [= <- <-]; (split_and!; [done..|by exists data]).
  - intros Hd. inv_res. destruct (decode_fixed_dec data 32) as [Hl [r Hr]]; [lia|].
    cbn [value_wf Value_serialize app]. split; [done|]. split; [len_lia|]. exists r. by rewrite Hr at 1.
Qed.
End Level.

#[export] Instance value_levels_codec levels :
  Codec (value_wf levels) Value_enc (deserialize_depth levels).
Proof.
  induction levels as [|levels IH]; [by split|]. split.
  - intros v Hv. exists (Value_serialize v). split; [done|]. intros. by apply deserialize_depth_enc.
  - intros data v n Hd. apply deserialize_depth_dec in Hd as (Hv & -> & rest & ->); [|done].
    split; [done|]. by exists (Value_serialize v), rest.
Qed.

#[export] Instance Value_codec : Codec Value_wf Value_enc Value_deserialize.
Proof. apply value_levels_codec. Qed.

(** The value codec is a bijection between the well-formed values (nesting at
    most [MAX_VALUE_DEPTH], lists of at most [MAX_LIST_LENGTH], payloads in
    their widths) and the accepted encodings: the encoding of a well-formed
    value decodes to it and to its exact length whatever bytes follow, and
    whatever the decoder accepts is a well-formed value whose encoding is
    exactly the bytes consumed. *)
Theorem value_codec_correct v data n :
  (Value_wf v -> forall rest,
     Value_deserialize (Value_serialize v ++ rest) = Ok (v, len (Value_serialize v))) /\
  (Value_deserialize data = Ok (v, n) ->
     Value_wf v /\ n = len (Value_serialize v) /\ exists rest, data = Value_serialize v ++ rest).
Proof.
  split.
  - intros Hv rest. destruct (codec_encodes v Hv) as (b & [= <-] & Hdec). apply Hdec.
  - intros Hd. apply codec_decodes in Hd as (Hv & b & rest & [= <-] & -> & ->). eauto.
Qed.

(** ** The structural skeleton *)

(** A value with its scalar payloads erased. *)
Fixpoint erase (v : Value) : Value :=
  match v with
  | VUnit => VUnit
  | VLeft v => VLeft (erase v)
  | VRight v => VRight (erase v)
  | VPair a b => VPair (erase a) (erase b)
  | VList vs => VList (map erase vs)
  | VBytes _ => VBytes []
  | VU64 _ => VU64 0
  | VU256 _ => VU256 []
  | VBool _ => VBool false
  | VHash _ => VHash []
  end.

(** Every list of the value is shorter than [2^32]. *)
Fixpoint lists_fit (v : Value) : bool :=
  match v with
  | VList vs => (len vs <=? U32_MAX) && forallb lists_fit vs
  | VLeft v | VRight v => lists_fit v
  | VPair a b => lists_fit a && lists_fit b
  | _ => true
  end.

Lemma skeleton_erase v : structural_skeleton (erase v) = structural_skeleton v.
Proof.
  induction v as [|v IH|v IH|a b IHa IHb|vs IH|bs|n|d|b|h] using Value_ind'; simpl; try congruence.
  rewrite len_map. do 2 f_equal. rewrite map_map. f_equal.
  induction IH as [|v vs Hv _ IH]; [done|]. simpl. congruence.
Qed.

Lemma le_bytes_inj_app n a b r s :
  0 <= a < 256 ^ Z.of_nat n -> 0 <= b < 256 ^ Z.of_nat n ->
  le_bytes n a ++ r = le_bytes n b ++ s -> a = b /\ r = s.
Proof.
  intros Ha Hb E. apply app_inj_1 in E as [E ->].
  - split; [|done]. rewrite <- (le_val_bytes n a), <- (le_val_bytes n b), E by done. done.
  - pose proof (len_le_bytes n a). pose proof (len_le_bytes n b). unfold len in *. lia.
Qed.

Lemma cons_inv {A} (x y : A) a b : x :: a = y :: b -> x = y /\ a = b.
Proof. by intros [= -> ->]. Qed.

(** Skeletons are prefix-free: equal inputs start with the same shape. *)
Definition skeleton_prefix_inj (v : Value) : Prop :=
  forall w r s, lists_fit v = true -> lists_fit w = true ->
    structural_skeleton v ++ r = structural_skeleton w ++ s -> erase v = erase w /\ r = s.

Lemma skeletons_prefix_inj vs ws r s :
  Forall skeleton_prefix_inj vs -> length vs = length ws ->
  forallb lists_fit vs = true -> forallb lists_fit ws = true ->
  concat (map structural_skeleton vs) ++ r = concat (map structural_skeleton ws) ++ s ->
  map erase vs = map erase ws /\ r = s.
Proof.
  intros Hvs. revert ws. induction Hvs as [|v vs Hv _ IH]; intros [|w ws] Hl Fv Fw E; try done.
  simpl in *. apply andb_prop in Fv as [? ?]. apply andb_prop in Fw as [? ?].
  rewrite <- !app_assoc in E. apply Hv in E as [-> E]; [|done..].
  apply IH in E as [-> ->]; [done|lia|done..].
Qed.

Lemma skeleton_prefix v : skeleton_prefix_inj v.
Proof.
  induction v as [|v IH|v IH|a b IHa IHb|vs IH|bs|n|d|b|h] using Value_ind'; intros w r s Fv Fw E;
    destruct w as [|w|w|c d'|ws|bs'|n'|d'|b'|h']; simpl in E; apply cons_inv in E as [Et E]; try discriminate Et;
    try (by subst).
  - apply IH in E as [E ->]; [|done..]. split; [|done]. simpl. congruence.
  - apply IH in E as [E ->]; [|done..]. split; [|done]. simpl. congruence.
  - simpl in Fv, Fw. apply andb_prop in Fv as [? ?], Fw as [? ?].
    rewrite <- !app_assoc in E. apply IHa in E as [Ea E]; [|done..].
    apply IHb in E as [Eb ->]; [|done..]. split; [|done]. simpl. congruence.
  - cbn [lists_fit] in Fv, Fw. apply andb_prop in Fv as [Lv Fv], Fw as [Lw Fw].
    pose proof (len_nonneg vs). pose proof (len_nonneg ws).
    rewrite <- !app_assoc in E. apply le_bytes_inj_app in E as [El E];
      [|change (256 ^ Z.of_nat 4) with (U32_MAX + 1); lia..].
    apply skeletons_prefix_inj in E as [E ->]; [|done|unfold len in El; lia|done..].
    split; [|done]. simpl. congruence.
Qed.

(** The structural skeleton identifies exactly the shape of a constant: two
    values (lists below [2^32] elements) have the same skeleton if and only if
    they are equal after their scalar payloads are erased.  In particular the
    list length kept in the skeleton makes the grammar unambiguous. *)
Theorem skeleton_identifies_shape v w :
  lists_fit v = true -> lists_fit w = true ->
  structural_skeleton v = structural_skeleton w <-> erase v = erase w.
Proof.
  intros Fv Fw. split; intros E.
  - apply (skeleton_prefix v w [] []); [done..|]. by rewrite E.
  - by rewrite <- skeleton_erase, E, skeleton_erase.
Qed.

(** ** Runtime types *)

Lemma infer_unit v : infer_type v = TUnit -> v = VUnit.
Proof. by destruct v. Qed.

Lemma infer_not_byte v : infer_type v <> TBound 256.
Proof. by destruct v. Qed.

(** [matches_type] on the types that are none of the aliases. *)
Lemma matches_list vs ty :
  ty <> TBound 256 -> matches_type (VList vs) (TList ty) = forallb (fun e => matches_type e ty) vs.
Proof.
  intros Hty. simpl. rewrite !bool_decide_eq_false_2; [done|..]; unfold bool_type, bytes_type; congruence.
Qed.

(** A value whose lists are homogeneous matches the type inferred for it, so
    a constant that passes [lists_are_homogeneous] never fails the runtime type
    check against its own inferred type. *)
Theorem homogeneous_matches_inferred v :
  lists_are_homogeneous v = true -> matches_type v (infer_type v) = true.
Proof.
  induction v as [|v IH|v IH|a b IHa IHb|vs IH|bs|n|d|b|h] using Value_ind'; intros Hh; try done.
  - cbn [infer_type]. destruct (decide (v = VUnit)) as [->|Hv]; [done|].
    simpl. rewrite !bool_decide_eq_false_2; [auto|..]; try done.
    intros [= E]. by apply Hv, infer_unit.
  - cbn [infer_type]. destruct (decide (v = VUnit)) as [->|Hv]; [done|].
    simpl. rewrite !bool_decide_eq_false_2; [auto|..]; try done.
    intros [= E]. by apply Hv, infer_unit.
  - simpl in Hh. apply andb_prop in Hh as [Ha Hb]. simpl. by rewrite IHa, IHb.
  - destruct vs as [|v0 vs]; [done|]. cbn [infer_type]. rewrite matches_list by apply infer_not_byte.
    cbn [lists_are_homogeneous] in Hh. apply andb_prop in Hh as [Hs Hr].
    apply forallb_forall. intros x Hx. rewrite forallb_forall in Hs, Hr. rewrite Forall_forall in IH.
    specialize (IH x). rewrite list_elem_of_In in IH.
    specialize (IH Hx (Hr x Hx)). destruct Hx as [->|Hx]; [done|].
    specialize (Hs x Hx). apply bool_decide_eq_true in Hs. by rewrite <- Hs.
Qed.

(** ** Witnesses *)

Lemma skeleton_identifies_shape_witness :
  let v := VPair (VU64 7) (VList [VBytes [x01]; VBytes []]) in
  let w := VPair (VU64 9) (VList [VBytes []; VBytes [x02; x03]]) in
  v <> w /\ structural_skeleton v = structural_skeleton w.
Proof.
  intros v w. split; [done|].
  apply (skeleton_identifies_shape v w); vm_compute; reflexivity.
Defined.

Lemma homogeneous_matches_inferred_witness :
  let v := VList [VPair (VU64 1) (VLeft (VU64 2)); VPair (VU64 3) (VLeft (VU64 4))] in
  matches_type v (infer_type v) = true.
Proof. intros v. apply (homogeneous_matches_inferred v). vm_compute. reflexivity. Defined.
