(* ===== verification/ScriptAst.v ===== *)
(** * Exfer Script programs ([src/script/ast.rs], [JetId] of [src/script/jets/mod.rs])

    A program is an arena of combinator nodes, children after their parents.
    [NodeId]s are [u32]s in [Z], as the wire format has them; [Z.to_nat] is the
    [as usize] of an array index.  The bottom-up loops [for i in (0..n).rev()]
    of the script front end share the loop combinators of the prelude and
    the lemma [rev_fill_spec]: a table filled from the last node to the first
    satisfies its own recurrence. *)

From Stdlib Require Import Strings.String.
From S2P Require Import Prelude Bytes Codec Hash ScriptValue.
#[local] Open Scope Z_scope.
#[local] Open Scope list_scope.

(** ** Jets *)

Inductive JetId :=
| JSha256 | JEd25519Verify | JSchnorrVerify | JMerkleVerify
| JAdd64 | JSub64 | JMul64 | JDiv64 | JMod64 | JEq64 | JLt64 | JGt64
| JAdd256 | JSub256 | JMul256 | JDiv256 | JMod256 | JEq256 | JLt256 | JGt256
| JCat | JSlice | JLen | JEqBytes | JEqHash
| JTxInputs | JTxOutputs | JTxValue | JTxScriptHash | JTxInputCount | JTxOutputCount
| JSelfIndex | JBlockHeight | JTxSigHash
| JListLen | JListAt | JListSum | JListAll | JListAny | JListFind.

#[export] Instance JetId_eq_dec : EqDecision JetId.
Proof. solve_decision. Defined.

(** [jet_id as u32]: the [repr(u32)] discriminants. *)
Definition jet_u32 (j : JetId) : Z :=
  match j with
  | JSha256 => 0x0001 | JEd25519Verify => 0x0002 | JSchnorrVerify => 0x0003 | JMerkleVerify => 0x0004
  | JAdd64 => 0x0100 | JSub64 => 0x0101 | JMul64 => 0x0102 | JDiv64 => 0x0103 | JMod64 => 0x0104
  | JEq64 => 0x0105 | JLt64 => 0x0106 | JGt64 => 0x0107
  | JAdd256 => 0x0200 | JSub256 => 0x0201 | JMul256 => 0x0202 | JDiv256 => 0x0203 | JMod256 => 0x0204
  | JEq256 => 0x0205 | JLt256 => 0x0206 | JGt256 => 0x0207
  | JCat => 0x0300 | JSlice => 0x0301 | JLen => 0x0302 | JEqBytes => 0x0303 | JEqHash => 0x0304
  | JTxInputs => 0x0400 | JTxOutputs => 0x0401 | JTxValue => 0x0402 | JTxScriptHash => 0x0403
  | JTxInputCount => 0x0404 | JTxOutputCount => 0x0405 | JSelfIndex => 0x0406 | JBlockHeight => 0x0407
  | JTxSigHash => 0x0408
  | JListLen => 0x0500 | JListAt => 0x0501 | JListSum => 0x0502 | JListAll => 0x0503
  | JListAny => 0x0504 | JListFind => 0x0505
  end.

Definition from_u32 (id : Z) : option JetId :=
  match id with
  | 0x0001 => Some JSha256
  | 0x0002 => Some JEd25519Verify
  | 0x0003 => Some JSchnorrVerify
  | 0x0004 => Some JMerkleVerify
  | 0x0100 => Some JAdd64
  | 0x0101 => Some JSub64
  | 0x0102 => Some JMul64
  | 0x0103 => Some JDiv64
  | 0x0104 => Some JMod64
  | 0x0105 => Some JEq64
  | 0x0106 => Some JLt64
  | 0x0107 => Some JGt64
  | 0x0200 => Some JAdd256
  | 0x0201 => Some JSub256
  | 0x0202 => Some JMul256
  | 0x0203 => Some JDiv256
  | 0x0204 => Some JMod256
  | 0x0205 => Some JEq256
  | 0x0206 => Some JLt256
  | 0x0207 => Some JGt256
  | 0x0300 => Some JCat
  | 0x0301 => Some JSlice
  | 0x0302 => Some JLen
  | 0x0303 => Some JEqBytes
  | 0x0304 => Some JEqHash
  | 0x0400 => Some JTxInputs
  | 0x0401 => Some JTxOutputs
  | 0x0402 => Some JTxValue
  | 0x0403 => Some JTxScriptHash
  | 0x0404 => Some JTxInputCount
  | 0x0405 => Some JTxOutputCount
  | 0x0406 => Some JSelfIndex
  | 0x0407 => Some JBlockHeight
  | 0x0408 => Some JTxSigHash
  | 0x0500 => Some JListLen
  | 0x0501 => Some JListAt
  | 0x0502 => Some JListSum
  | 0x0503 => Some JListAll
  | 0x0504 => Some JListAny
  | 0x0505 => Some JListFind
  | _ => None
  end.

(** The discriminant of every jet decodes to it, and nothing else decodes. *)
Lemma from_jet_u32 j : from_u32 (jet_u32 j) = Some j.
Proof. by destruct j. Qed.
Lemma jet_u32_range j : in_u32 (jet_u32 j).
Proof. unfold in_u32, U32_MAX. by destruct j. Qed.
Lemma from_u32_inv id j : from_u32 id = Some j -> jet_u32 j = id.
Proof.
  unfold from_u32. intros H.
  repeat match type of H with
  | context [match ?x with _ => _ end] => is_var x; destruct x; try discriminate H
  end; by injection H as <-.
Qed.

(** ** Programs *)

Inductive Combinator :=
| CIden
| CComp (f g : Z)
| CUnit
| CPair (f g : Z)
| CTake (f : Z)
| CDrop (f : Z)
| CInjL (f : Z)
| CInjR (f : Z)
| CCase (f g : Z)
| CFold (f z k : Z)
| CListFold (f z : Z)
| CJet (j : JetId)
| CWitness
| CMerkleHidden (h : Hash256)
| CConst (v : Value).

#[export] Instance Combinator_eq_dec : EqDecision Combinator.
Proof. solve_decision. Defined.

Record Program := { nodes : list Combinator; root : Z }.

#[export] Instance Program_eq_dec : EqDecision Program.
Proof. solve_decision. Defined.

Definition Program_single (comb : Combinator) : Program := {| nodes := [comb]; root := 0 |}.
Definition node_count (p : Program) : Z := len (nodes p).
Definition Program_get (p : Program) (id : Z) : option Combinator := nodes p !! Z.to_nat id.

Definition children_of (node : Combinator) : list Z :=
  match node with
  | CIden | CUnit | CWitness | CMerkleHidden _ | CConst _ | CJet _ => []
  | CTake f | CDrop f | CInjL f | CInjR f => [f]
  | CComp f g | CPair f g | CCase f g | CListFold f g => [f; g]
  | CFold f z _ => [f; z]
  end.

(** [children(id)] indexes the arena, so it panics out of range: no result. *)
Definition children (p : Program) (id : Z) : option (list Z) :=
  children_of <$> nodes p !! Z.to_nat id.

(** First pass of [validate_structure]: the checks on one node's children ... *)
Fixpoint check_children (n i : Z) (cs : list Z) : result string unit :=
  match cs with
  | [] => Ok tt
  | child :: cs =>
      if n <=? child then Err "child index out of bounds"%string
      else if child <=? i then Err "child index must be greater than parent (DAG invariant)"%string
      else check_children n i cs
  end.
(** ... and on every node, in order. *)
Fixpoint check_nodes (n i : Z) (ns : list Combinator) : result string unit :=
  match ns with
  | [] => Ok tt
  | node :: ns =>
      let? _ := check_children n i (children_of node) in
      check_nodes n (i + 1) ns
  end.

(** Second pass: mark what is reachable, by a forward scan. *)
Definition mark_children (ns : list Combinator) (i : nat) (reachable : list bool) : list bool :=
  if default false (reachable !! i) then
    fold_left (fun r child => <[Z.to_nat child := true]> r)
      (default [] (children_of <$> ns !! i)) reachable
  else reachable.
Definition reachable_scan (p : Program) : list bool :=
  let n := length (nodes p) in
  fwd_iter (mark_children (nodes p)) 0 n (<[Z.to_nat (root p) := true]> (replicate n false)).

Definition validate_structure (p : Program) : result string unit :=
  let n := len (nodes p) in
  if n =? 0 then Err "empty program"%string
  else if n <=? root p then Err "root index out of bounds"%string
  else
    let? _ := check_nodes n 0 (nodes p) in
    if existsb negb (reachable_scan p) then Err "program contains unreachable nodes"%string
    else Ok tt.

(** [depth[i] = max_child + 1] *)
Definition node_depth (ns : list Combinator) (i : nat) (depth : list Z) : Z :=
  let cs := default [] (children_of <$> ns !! i) in
  fold_right Z.max 0 (map (fun c => default 0 (depth !! Z.to_nat c)) cs) + 1.
Definition depth_table (p : Program) : list Z :=
  let n := length (nodes p) in rev_fill (node_depth (nodes p)) n (replicate n 0).
Definition max_depth (p : Program) : Z :=
  if len (nodes p) =? 0 then 0 else default 0 (depth_table p !! Z.to_nat (root p)).

(** ** The DAG invariant *)

(** [edge p i j]: node [j] is a child of node [i]. *)
Definition edge (p : Program) (i j : nat) : Prop :=
  exists node, nodes p !! i = Some node /\ Z.of_nat j ∈ children_of node.

(** Children are in range and after their parent. *)
Definition dag (ns : list Combinator) : Prop :=
  forall i node c, ns !! i = Some node -> c ∈ children_of node -> Z.of_nat i < c < len ns.

Definition valid (p : Program) : Prop := validate_structure p = Ok tt.

Lemma check_children_ok n i cs :
  check_children n i cs = Ok tt <-> Forall (fun c => i < c < n) cs.
Proof.
  induction cs as [|c cs IH]; simpl; [done|].
  destruct (Z.leb_spec n c), (Z.leb_spec c i); rewrite Forall_cons; try rewrite IH;
    split; try done; try lia; naive_solver lia.
Qed.

Lemma check_nodes_ok n i ns :
  check_nodes n i ns = Ok tt <->
  forall k node, ns !! k = Some node -> Forall (fun c => i + Z.of_nat k < c < n) (children_of node).
Proof.
  revert i. induction ns as [|node ns IH]; intros i; simpl; [done|].
  destruct (check_children n i (children_of node)) as [[]|e] eqn:E.
  - apply check_children_ok in E. rewrite IH. split.
    + intros H [|k] node'; [intros [= <-]; by rewrite Z.add_0_r|]. simpl. intros Hk.
      specialize (H _ _ Hk). by replace (i + Z.of_nat (S k)) with (i + 1 + Z.of_nat k) by lia.
    + intros H k node' Hk. specialize (H (S k) node' Hk).
      by replace (i + 1 + Z.of_nat k) with (i + Z.of_nat (S k)) by lia.
  - split; [done|]. intros H. specialize (H 0%nat node eq_refl). rewrite Z.add_0_r in H.
    apply check_children_ok in H. congruence.
Qed.

Lemma check_nodes_dag p : check_nodes (len (nodes p)) 0 (nodes p) = Ok tt <-> dag (nodes p).
Proof.
  rewrite check_nodes_ok. unfold dag. split.
  - intros H i node c Hi Hc. specialize (H i node Hi). rewrite Forall_forall in H. by apply H.
  - intros H k node Hk. apply Forall_forall. intros c Hc. by apply (H k node).
Qed.

(** ** The forward scan computes reachability *)

Lemma mark_fold_lookup cs (r : list bool) j :
  Forall (fun c => 0 <= c) cs -> (j < length r)%nat ->
  fold_left (fun r child => <[Z.to_nat child := true]> r) cs r !! j =
  Some (default false (r !! j) || bool_decide (Z.of_nat j ∈ cs)).
Proof.
  revert r. induction cs as [|c cs IH]; intros r Hcs Hj; simpl.
  - destruct (lookup_lt_is_Some_2 r j Hj) as [b ->]. by rewrite orb_false_r.
  - apply Forall_cons in Hcs as [Hc Hcs]. rewrite IH by (done || by rewrite length_insert). f_equal.
    destruct (decide (Z.of_nat j = c)) as [<-|Hne].
    + rewrite Nat2Z.id, list_lookup_insert_eq by done. simpl.
      rewrite (bool_decide_eq_true_2 (Z.of_nat j ∈ Z.of_nat j :: cs)) by set_solver. by rewrite orb_true_r.
    + rewrite list_lookup_insert_ne by lia. f_equal. apply bool_decide_ext. set_solver.
Qed.

Lemma mark_children_length ns i r : length (mark_children ns i r) = length r.
Proof.
  unfold mark_children. destruct (default false _); [|done].
  generalize (default [] (children_of <$> ns !! i)) as cs. intros cs. revert r.
  induction cs as [|c cs IH]; intros r; simpl; [done|]. rewrite IH. apply length_insert.
Qed.

Section Scan.
Context (p : Program) (Hdag : dag (nodes p)).
Let n := length (nodes p).

Lemma edge_lt i j : edge p i j -> (i < j < n)%nat.
Proof. intros (node & Hi & Hj). specialize (Hdag _ _ _ Hi Hj). subst n. unfold len in *. lia. Qed.

Lemma edge_star_le i j : rtc (edge p) i j -> (i <= j)%nat.
Proof. induction 1 as [|i k j He _ IH]; [done|]. apply edge_lt in He. lia. Qed.

Lemma edge_star_bound i j : rtc (edge p) i j -> (i < n)%nat -> (j < n)%nat.
Proof. induction 1 as [|i k j He _ IH]; [done|]. apply edge_lt in He. intros. apply IH. lia. Qed.

Lemma mark_children_lookup i r j :
  length r = n -> (i < n)%nat -> (j < n)%nat ->
  mark_children (nodes p) i r !! j = Some true <->
  r !! j = Some true \/ (r !! i = Some true /\ edge p i j).
Proof.
  intros Hl Hi Hj. unfold mark_children.
  destruct (lookup_lt_is_Some_2 r i) as [bi Ei]; [lia|].
  destruct (lookup_lt_is_Some_2 r j) as [bj Ej]; [lia|].
  destruct (lookup_lt_is_Some_2 (nodes p) i Hi) as [node En]. rewrite Ei, En. simpl.
  assert (edge p i j <-> Z.of_nat j ∈ children_of node) as He.
  { unfold edge. rewrite En. split; [by intros (? & [= <-] & ?)|eauto]. }
  destruct bi; [|rewrite Ej; naive_solver].
  rewrite mark_fold_lookup; [|apply Forall_forall; intros c Hc; specialize (Hdag _ _ _ En Hc); lia|lia].
  rewrite Ej, He. simpl. destruct bj; simpl; [naive_solver|].
  case_bool_decide; naive_solver.
Qed.

(** After the nodes below [i] are processed, the marked nodes are those
    reachable through a last edge that leaves a node below [i]. *)
Definition scan_inv (i : nat) (r : list bool) : Prop :=
  length r = n /\
  forall j, (j < n)%nat ->
    r !! j = Some true <->
    j = Z.to_nat (root p) \/ exists k, (k < i)%nat /\ rtc (edge p) (Z.to_nat (root p)) k /\ edge p k j.

Lemma scan_inv_reach i r :
  scan_inv i r -> (i < n)%nat -> r !! i = Some true <-> rtc (edge p) (Z.to_nat (root p)) i.
Proof.
  intros [Hl Hr] Hi. rewrite Hr by done. split; clear Hr Hl.
  - intros [->|(k & _ & Hk & He)]; [done|]. eauto using rtc_r.
  - intros Hreach. apply rtc_inv_r in Hreach as [<-|(k & Hk & He)]; [by left|].
    right. exists k. split; [|done]. apply edge_lt in He; lia.
Qed.

Lemma scan_step i r :
  (i < n)%nat -> scan_inv i r -> scan_inv (S i) (mark_children (nodes p) i r).
Proof.
  intros Hi Hinv. pose proof (scan_inv_reach i r Hinv Hi) as Hreach. destruct Hinv as [Hl Hr].
  split; [by rewrite mark_children_length|]. intros j Hj.
  rewrite mark_children_lookup, Hr, Hreach by done. split.
  - intros [[->|(k & Hk & Hs & He)]|[Hs He]]; [by left|right; exists k; split; [lia|done]|].
    right. exists i. split; [lia|done].
  - intros [->|(k & Hk & Hs & He)]; [by left; left|].
    destruct (decide (k = i)) as [->|]; [by right|]. left. right. exists k. split; [lia|done].
Qed.

Lemma scan_run i m r :
  (i + m = n)%nat -> scan_inv i r -> scan_inv n (fwd_iter (mark_children (nodes p)) i m r).
Proof.
  revert i r. induction m as [|m IH]; intros i r Him Hinv; simpl.
  - by replace n with i by lia.
  - apply IH; [lia|]. apply scan_step; [lia|done].
Qed.

Lemma reachable_scan_spec j :
  (Z.to_nat (root p) < n)%nat -> (j < n)%nat ->
  reachable_scan p !! j = Some true <-> rtc (edge p) (Z.to_nat (root p)) j.
Proof.
  intros Hroot Hj.
  assert (scan_inv n (reachable_scan p)) as [Hl Hr].
  { apply scan_run; [done|]. split; [by rewrite length_insert, length_replicate|].
    intros k Hk. destruct (decide (k = Z.to_nat (root p))) as [->|Hne].
    - rewrite list_lookup_insert_eq by by rewrite length_replicate. naive_solver.
    - rewrite list_lookup_insert_ne, lookup_replicate_2 by done.
      split; [done|]. intros [->|(? & ? & _)]; [done|lia]. }
  rewrite Hr by done. split.
  - intros [->|(k & _ & Hk & He)]; [done|]. eauto using rtc_r.
  - intros Hreach. apply rtc_inv_r in Hreach as [<-|(k & Hk & He)]; [by left|].
    right. exists k. split; [|done]. apply edge_lt in He. lia.
Qed.

Lemma reachable_scan_length : length (reachable_scan p) = n.
Proof.
  unfold reachable_scan. fold n.
  assert (forall m i r, length (fwd_iter (mark_children (nodes p)) i m r) = length r) as Hlen.
  { induction m as [|m IH]; intros i r; [done|]. simpl. by rewrite IH, mark_children_length. }
  by rewrite Hlen, length_insert, length_replicate.
Qed.

Lemma all_marked :
  existsb negb (reachable_scan p) = false <->
  forall j, (j < n)%nat -> reachable_scan p !! j = Some true.
Proof.
  rewrite <- reachable_scan_length. generalize (reachable_scan p) as r. intros r. split.
  - intros He j Hj. destruct (lookup_lt_is_Some_2 r j Hj) as [[] E]; [done|].
    rewrite <- not_true_iff_false, existsb_exists in He. destruct He. exists false.
    split; [|done]. apply list_elem_of_In, list_elem_of_lookup. eauto.
  - intros Hall. apply not_true_iff_false. rewrite existsb_exists. intros ([] & Hin & Hb); [done|].
    apply list_elem_of_In, list_elem_of_lookup in Hin as [j Hj].
    pose proof (lookup_lt_Some _ _ _ Hj) as Hlt. apply Hall in Hlt. congruence.
Qed.
End Scan.

(** ** What validation establishes *)

Lemma validate_structure_iff p :
  0 <= root p ->
  valid p <->
  root p < len (nodes p) /\ dag (nodes p) /\
  forall j, (j < length (nodes p))%nat -> rtc (edge p) (Z.to_nat (root p)) j.
Proof.
  intros Hroot. unfold valid, validate_structure.
  destruct (Z.eqb_spec (len (nodes p)) 0) as [E|E]; [split; [done|lia]|].
  destruct (Z.leb_spec (len (nodes p)) (root p)) as [L|L]; [split; [done|lia]|].
  destruct (check_nodes (len (nodes p)) 0 (nodes p)) as [[]|e] eqn:C.
  - apply check_nodes_dag in C. pose proof (all_marked p) as Hall.
    assert (Z.to_nat (root p) < length (nodes p))%nat by (unfold len in L; lia).
    assert ((forall j, (j < length (nodes p))%nat -> reachable_scan p !! j = Some true) <->
            (forall j, (j < length (nodes p))%nat -> rtc (edge p) (Z.to_nat (root p)) j)) as Hiff.
    { split; intros H' j Hj; specialize (H' j Hj); by apply (reachable_scan_spec p C). }
    rewrite Hiff in Hall. destruct (existsb negb (reachable_scan p)).
    + split; [done|]. intros (_ & _ & HH). by apply Hall in HH.
    + split; [|done]. intros _. split; [done|]. split; [done|]. by apply Hall.
  - split; [done|]. intros (_ & Hd & _). apply check_nodes_dag in Hd. congruence.
Qed.

Lemma valid_root p : 0 <= root p -> valid p -> root p = 0.
Proof.
  intros Hroot Hv. apply validate_structure_iff in Hv as (Hr & Hd & Hall); [|done].
  assert (0 < length (nodes p))%nat as Hn by (unfold len in Hr; lia).
  apply Hall in Hn. apply edge_star_le in Hn; [|done]. lia.
Qed.

Lemma valid_dag p : valid p -> dag (nodes p).
Proof.
  unfold valid, validate_structure. intros Hv. inv_res. destruct a. by apply check_nodes_dag.
Qed.
Lemma valid_nonempty p : valid p -> root p < len (nodes p) /\ nodes p <> [].
Proof.
  unfold valid, validate_structure. intros Hv. inv_res.
  split; [lia|]. intros En. by rewrite En in *.
Qed.

(** ** The depth table *)

(** [path p i m]: a downward path of [m] nodes starts at node [i]. *)
Inductive path (p : Program) : nat -> Z -> Prop :=
| path_one i : (i < length (nodes p))%nat -> path p i 1
| path_edge i j m : edge p i j -> path p j m -> path p i (m + 1).

Lemma fold_max_ge l x : x ∈ l -> x <= fold_right Z.max 0 l.
Proof. induction 1; simpl; lia. Qed.
Lemma fold_max_in l : Forall (fun x => 0 <= x) l -> fold_right Z.max 0 l = 0 \/ fold_right Z.max 0 l ∈ l.
Proof.
  induction 1 as [|x l Hx _ IH]; simpl; [by left|].
  destruct (Z.max_spec x (fold_right Z.max 0 l)) as [[_ ->]|[_ ->]]; set_solver.
Qed.

Section Depth.
Context (p : Program) (Hdag : dag (nodes p)).

Lemma depth_table_spec i :
  (i < length (nodes p))%nat -> depth_table p !! i = Some (node_depth (nodes p) i (depth_table p)).
Proof.
  intros Hi. apply rev_fill_spec; [|by rewrite length_replicate|done].
  intros k arr arr' _ Habove. unfold node_depth. destruct (nodes p !! k) as [node|] eqn:E; [|done].
  simpl. do 2 f_equal. apply map_ext_in. intros c Hc. apply list_elem_of_In in Hc.
  specialize (Hdag _ _ _ E Hc). rewrite Habove by lia. done.
Qed.

Definition depth_at (i : nat) : Z := default 0 (depth_table p !! i).

Lemma depth_at_eq i node :
  nodes p !! i = Some node ->
  depth_at i = fold_right Z.max 0 (map (fun c => depth_at (Z.to_nat c)) (children_of node)) + 1.
Proof.
  intros E. unfold depth_at at 1. rewrite depth_table_spec by by eapply lookup_lt_Some.
  unfold node_depth. by rewrite E.
Qed.

Lemma depth_at_pos i : (i < length (nodes p))%nat -> 1 <= depth_at i.
Proof.
  intros Hi. destruct (lookup_lt_is_Some_2 _ _ Hi) as [node E]. rewrite (depth_at_eq i node E).
  assert (0 <= fold_right Z.max 0 (map (fun c => depth_at (Z.to_nat c)) (children_of node))); [|lia].
  induction (map _ _); simpl; lia.
Qed.

Lemma edge_depth i j : edge p i j -> depth_at j + 1 <= depth_at i.
Proof.
  intros (node & E & Hj). rewrite (depth_at_eq i node E).
  enough (depth_at j <= fold_right Z.max 0 (map (fun c => depth_at (Z.to_nat c)) (children_of node))) by lia.
  apply fold_max_ge, list_elem_of_fmap. exists (Z.of_nat j). by rewrite Nat2Z.id.
Qed.

Lemma path_depth i m : path p i m -> m <= depth_at i.
Proof.
  induction 1 as [i Hi|i j m He _ IH]; [by apply depth_at_pos|]. apply edge_depth in He. lia.
Qed.

(** The table's value is attained: by induction from the last node down. *)
Lemma depth_path k i : (length (nodes p) - i <= k)%nat -> (i < length (nodes p))%nat -> path p i (depth_at i).
Proof.
  revert i. induction k as [|k IH]; intros i Hk Hi; [lia|].
  destruct (lookup_lt_is_Some_2 _ _ Hi) as [node E]. rewrite (depth_at_eq i node E).
  assert (forall c, c ∈ children_of node -> edge p i (Z.to_nat c) /\ (i < Z.to_nat c < length (nodes p))%nat) as Hc.
  { intros c Hc. pose proof (Hdag _ _ _ E Hc) as Hr. unfold len in Hr. split; [|lia].
    exists node. split; [done|]. by rewrite Z2Nat.id by lia. }
  destruct (fold_max_in (map (fun c => depth_at (Z.to_nat c)) (children_of node))) as [->|Hin].
  - apply Forall_forall. intros d (c & -> & Hcc)%list_elem_of_fmap.
    destruct (Hc c Hcc). enough (1 <= depth_at (Z.to_nat c)) by lia. apply depth_at_pos. lia.
  - by constructor.
  - apply list_elem_of_fmap in Hin as (c & -> & Hcc). destruct (Hc c Hcc) as [He Hlt].
    econstructor; [done|]. apply IH; lia.
Qed.
End Depth.

(** ** Properties *)

(** [validate_structure] accepts a program exactly when its root is in range,
    every child index is in range and greater than its parent's, and every node
    is reachable from the root along child edges: the single forward scan over a
    boolean array computes reachability.  The root of an accepted program is
    node [0]. *)
Theorem validate_structure_correct p :
  0 <= root p ->
  (validate_structure p = Ok tt <->
   root p < len (nodes p) /\
   (forall i node c, nodes p !! i = Some node -> c ∈ children_of node ->
      Z.of_nat i < c < len (nodes p)) /\
   (forall j, (j < length (nodes p))%nat -> rtc (edge p) (Z.to_nat (root p)) j)) /\
  (validate_structure p = Ok tt -> root p = 0).
Proof. intros Hroot. split; [by apply validate_structure_iff | by apply valid_root]. Qed.

(** [max_depth] of a valid program is the number of nodes on the longest
    downward path from the root: no path is longer, and one has that length. *)
Theorem max_depth_is_longest_path p :
  0 <= root p -> validate_structure p = Ok tt ->
  (forall m, path p (Z.to_nat (root p)) m -> m <= max_depth p) /\
  path p (Z.to_nat (root p)) (max_depth p).
Proof.
  intros Hroot Hv. pose proof (valid_dag p Hv) as Hd. destruct (valid_nonempty p Hv) as [Hr _].
  unfold max_depth. replace (len (nodes p) =? 0) with false by lia.
  split; [intros m; by apply path_depth|].
  eapply depth_path; [done|done|]. unfold len in Hr. lia.
Qed.

(** ** Witnesses *)

(** [Comp(Pair(Iden, Witness), Jet(Eq64))] with a shared leaf. *)
Definition sample_program : Program := {|
  nodes := [CComp 1 3; CPair 2 2; CIden; CJet JEq64];
  root := 0
|}.

Lemma validate_structure_correct_witness :
  root sample_program = 0 /\ rtc (edge sample_program) 0%nat 2%nat.
Proof.
  destruct (validate_structure_correct sample_program ltac:(vm_compute; discriminate)) as [Hiff Hroot].
  split; [apply Hroot; vm_compute; reflexivity|].
  destruct (proj1 Hiff ltac:(vm_compute; reflexivity)) as (_ & _ & Hall). apply (Hall 2%nat). simpl. lia.
Defined.

Lemma max_depth_is_longest_path_witness :
  max_depth sample_program = 3 /\ path sample_program 0%nat 3.
Proof.
  split; [vm_compute; reflexivity|].
  destruct (max_depth_is_longest_path sample_program ltac:(vm_compute; discriminate)
              ltac:(vm_compute; reflexivity)) as [_ H]. exact H.
Defined.
