(* ===== verification/ScriptCodec.v ===== *)
(** * Program encoding and Merkle commitment ([src/script/serialize.rs])

    [serialize_program]/[deserialize_program] and the two Merkle hashes.  The
    hash tables are filled bottom-up ([rev_fill]); an index outside the arena
    panics in the source, and the theorems are about programs that pass
    [validate_structure], where there is none. *)

From Stdlib Require Import Strings.String.
From S2P Require Import Prelude Bytes Codec Hash ScriptValue ScriptAst.
#[local] Open Scope Z_scope.
#[local] Open Scope list_scope.

Definition SCRIPT_DOMAIN : bytes := list_byte_of_string "EXFER-SCRIPT".

Inductive SerializeError :=
| UnexpectedEnd
| UnknownTag (tag : byte)
| InvalidJetId (id : Z)
| ValueError (msg : string)
| NodeOutOfBounds (id : Z)
| InvalidStructure (msg : string).

Definition MAX_SCRIPT_NODES : Z := 65535.

(** ** Encoding *)

Definition serialize_node (node : Combinator) : bytes :=
  match node with
  | CIden => [x00]
  | CComp f g => [x01] ++ le_bytes 4 f ++ le_bytes 4 g
  | CUnit => [x02]
  | CPair f g => [x03] ++ le_bytes 4 f ++ le_bytes 4 g
  | CTake f => [x04] ++ le_bytes 4 f
  | CDrop f => [x05] ++ le_bytes 4 f
  | CInjL f => [x06] ++ le_bytes 4 f
  | CInjR f => [x07] ++ le_bytes 4 f
  | CCase f g => [x08] ++ le_bytes 4 f ++ le_bytes 4 g
  | CFold f z k => [x09] ++ le_bytes 4 f ++ le_bytes 4 z ++ le_bytes 8 k
  | CListFold f z => [x0a] ++ le_bytes 4 f ++ le_bytes 4 z
  | CJet jet_id => [x0b] ++ le_bytes 4 (jet_u32 jet_id)
  | CWitness => [x0c]
  | CMerkleHidden hash => [x0d] ++ hash
  | CConst v =>
      let value_bytes := Value_serialize v in
      [x0e] ++ le_bytes 4 (len value_bytes) ++ value_bytes
  end.

Definition serialize_program (p : Program) : bytes :=
  le_bytes 4 (len (nodes p)) ++ le_bytes 4 (root p) ++ concat (map serialize_node (nodes p)).

(** ** Decoding *)

(** The one- and two-child cases of [deserialize_node]. *)
Definition decode1 (mk : Z -> Combinator) (rest : bytes) : result SerializeError (Combinator * Z) :=
  if len rest <? 4 then Err UnexpectedEnd
  else Ok (mk (le_val (slice rest 0 4)), 5).
Definition decode2 (mk : Z -> Z -> Combinator) (rest : bytes) : result SerializeError (Combinator * Z) :=
  if len rest <? 8 then Err UnexpectedEnd
  else Ok (mk (le_val (slice rest 0 4)) (le_val (slice rest 4 8)), 9).

Definition deserialize_node (data : bytes) : result SerializeError (Combinator * Z) :=
  match data with
  | [] => Err UnexpectedEnd
  | tag :: rest =>
      match tag with
      | x00 => Ok (CIden, 1)
      | x01 => decode2 CComp rest
      | x02 => Ok (CUnit, 1)
      | x03 => decode2 CPair rest
      | x04 => decode1 CTake rest
      | x05 => decode1 CDrop rest
      | x06 => decode1 CInjL rest
      | x07 => decode1 CInjR rest
      | x08 => decode2 CCase rest
      | x09 =>
          if len rest <? 16 then Err UnexpectedEnd
          else Ok (CFold (le_val (slice rest 0 4)) (le_val (slice rest 4 8)) (le_val (slice rest 8 16)), 17)
      | x0a => decode2 CListFold rest
      | x0b =>
          if len rest <? 4 then Err UnexpectedEnd
          else
            let id := le_val (slice rest 0 4) in
            let? jet_id := ok_or (from_u32 id) (InvalidJetId id) in
            Ok (CJet jet_id, 5)
      | x0c => Ok (CWitness, 1)
      | x0d =>
          if len rest <? 32 then Err UnexpectedEnd
          else Ok (CMerkleHidden (slice rest 0 32), 33)
      | x0e =>
          if len rest <? 4 then Err UnexpectedEnd
          else
            let value_len := le_val (slice rest 0 4) in
            if len rest <? 4 + value_len then Err UnexpectedEnd
            else
              let? (value, consumed) :=
                map_err ValueError (Value_deserialize (slice rest 4 (4 + value_len))) in
              if negb (consumed =? value_len) then
                Err (ValueError ("TAG_CONST payload_size=" +:+ pretty value_len
                                   +:+ " but value consumed " +:+ pretty consumed +:+ " bytes"))
              else Ok (CConst value, 5 + value_len)
      | _ => Err (UnknownTag tag)
      end
  end.

Definition deserialize_program (data : bytes) : result SerializeError Program :=
  if len data <? 8 then Err UnexpectedEnd
  else
    let node_count := le_val (slice data 0 4) in
    let root := le_val (slice data 4 8) in
    if MAX_SCRIPT_NODES <? node_count then
      Err (InvalidStructure ("node_count " +:+ pretty node_count +:+ " exceeds maximum "
                               +:+ pretty MAX_SCRIPT_NODES))
    else
      let remaining_bytes := saturating_sub (len data) 8 in
      if remaining_bytes <? node_count then
        Err (InvalidStructure ("node_count " +:+ pretty node_count +:+ " exceeds available data ("
                                 +:+ pretty remaining_bytes +:+ " bytes)"))
      else
        let? (nodes, pos) := deserialize_n deserialize_node (Z.to_nat node_count) data 8 in
        if negb (len nodes =? node_count) then Err (InvalidStructure "node count mismatch")
        else if negb (pos =? len data) then
          Err (InvalidStructure ("trailing bytes: consumed " +:+ pretty pos +:+ " of "
                                   +:+ pretty (len data) +:+ " bytes"))
        else
          let program := {| nodes := nodes; root := root |} in
          let? _ := map_err InvalidStructure (validate_structure program) in
          Ok program.

(** ** Merkle hashes *)

Section Merkle.
Context `{Sha2}.

(** [hashes[f as usize].as_bytes()] *)
Definition hash_at (hashes : list Hash256) (f : Z) : bytes := default Hash256_ZERO (hashes !! Z.to_nat f).

(** The bytes that are hashed for a node; [MerkleHidden] has none. *)
Definition node_preimage (node : Combinator) (hashes : list Hash256) : bytes :=
  match node with
  | CIden => [x00]
  | CComp f g => [x01] ++ hash_at hashes f ++ hash_at hashes g
  | CUnit => [x02]
  | CPair f g => [x03] ++ hash_at hashes f ++ hash_at hashes g
  | CTake f => [x04] ++ hash_at hashes f
  | CDrop f => [x05] ++ hash_at hashes f
  | CInjL f => [x06] ++ hash_at hashes f
  | CInjR f => [x07] ++ hash_at hashes f
  | CCase f g => [x08] ++ hash_at hashes f ++ hash_at hashes g
  | CFold f z k => [x09] ++ hash_at hashes f ++ hash_at hashes z ++ le_bytes 8 k
  | CListFold f z => [x0a] ++ hash_at hashes f ++ hash_at hashes z
  | CJet jet_id => [x0b] ++ le_bytes 4 (jet_u32 jet_id)
  | CWitness => [x0c]
  | CMerkleHidden _ => []
  | CConst v => [x0e] ++ Value_serialize v
  end.

Definition node_merkle_hash (node : Combinator) (hashes : list Hash256) : Hash256 :=
  match node with
  | CMerkleHidden hash => hash
  | _ => domain_hash SCRIPT_DOMAIN (node_preimage node hashes)
  end.

Definition node_structural_merkle_hash (node : Combinator) (hashes : list Hash256) : Hash256 :=
  match node with
  | CConst v => domain_hash SCRIPT_DOMAIN ([x0e] ++ structural_skeleton v)
  | _ => node_merkle_hash node hashes
  end.

(** The loop both hashes share: [hashes[i] = node_hash(&nodes[i], &hashes)]. *)
Definition hash_table (node_hash : Combinator -> list Hash256 -> Hash256) (ns : list Combinator)
  : list Hash256 :=
  let n := length ns in
  rev_fill (fun i hashes => node_hash (default CIden (ns !! i)) hashes) n (replicate n Hash256_ZERO).

Definition merkle_hash (p : Program) : Hash256 :=
  hash_at (hash_table node_merkle_hash (nodes p)) (root p).
Definition structural_merkle_hash (p : Program) : Hash256 :=
  hash_at (hash_table node_structural_merkle_hash (nodes p)) (root p).
End Merkle.

(** ** The node codec *)

Definition node_wf (node : Combinator) : Prop :=
  match node with
  | CIden | CUnit | CWitness | CJet _ => True
  | CTake f | CDrop f | CInjL f | CInjR f => in_u32 f
  | CComp f g | CPair f g | CCase f g | CListFold f g => in_u32 f /\ in_u32 g
  | CFold f z k => in_u32 f /\ in_u32 z /\ in_u64 k
  | CMerkleHidden h => hash_wf h
  | CConst v => Value_wf v /\ in_u32 (len (Value_serialize v))
  end.
Definition Program_wf (p : Program) : Prop :=
  Forall node_wf (nodes p) /\ len (nodes p) <= MAX_SCRIPT_NODES /\ in_u32 (root p) /\ valid p.

Definition node_enc (node : Combinator) : result SerializeError bytes := Ok (serialize_node node).

(** Fields at an offset: what precedes is skipped. *)
Lemma read_le_at n z (pre rest : bytes) i j :
  Z.of_nat n = j - i -> 0 <= z < 256 ^ (j - i) -> len pre = i ->
  le_val (slice (pre ++ le_bytes n z ++ rest) i j) = z.
Proof.
  intros Hn Hz Hi. rewrite slice_mid by len_lia. apply le_val_bytes. by rewrite Hn.
Qed.

Ltac u32_side := done || (by apply u32_range) || (by apply u64_range) || len_lia.

Lemma decode1_enc mk f rest : in_u32 f -> decode1 mk (le_bytes 4 f ++ rest) = Ok (mk f, 5).
Proof. intros Hf. unfold decode1. guard_false. by rewrite read_le by u32_side. Qed.

Lemma decode2_enc mk f g rest :
  in_u32 f -> in_u32 g -> decode2 mk (le_bytes 4 f ++ le_bytes 4 g ++ rest) = Ok (mk f g, 9).
Proof.
  intros Hf Hg. unfold decode2. guard_false. rewrite read_le by u32_side.
  by rewrite read_le_at by u32_side.
Qed.

Lemma two_fields n1 n2 m1 m2 data :
  Z.of_nat n1 = m1 -> Z.of_nat n2 = m2 -> m1 + m2 <= len data ->
  exists a b rest, data = le_bytes n1 a ++ le_bytes n2 b ++ rest /\
    0 <= a < 256 ^ m1 /\ 0 <= b < 256 ^ m2.
Proof.
  intros E1 E2 Hl. destruct (read_le_inv n1 m1 data E1) as [Ha [r1 Hr1]]; [lia|].
  assert (m2 <= len r1) as Hl2 by (rewrite Hr1 in Hl; len_lia).
  destruct (read_le_inv n2 m2 r1 E2 Hl2) as [Hb [r2 Hr2]]. rewrite Hr2 in Hr1. eauto 10.
Qed.

Lemma decode1_dec mk data node n :
  decode1 mk data = Ok (node, n) ->
  exists f rest, in_u32 f /\ node = mk f /\ n = 5 /\ data = le_bytes 4 f ++ rest.
Proof.
  unfold decode1. intros Hd. inv_res. destruct (read_le_inv 4 4 data) as [Ha [r Hr]]; [done|lia|].
  apply u32_range in Ha. eauto 10.
Qed.

Lemma decode2_dec mk data node n :
  decode2 mk data = Ok (node, n) ->
  exists f g rest, in_u32 f /\ in_u32 g /\ node = mk f g /\ n = 9 /\ data = le_bytes 4 f ++ le_bytes 4 g ++ rest.
Proof.
  unfold decode2. intros Hd. inv_res.
  destruct (two_fields 4 4 4 4 data) as (f & g & r & -> & Hf & Hg); [done|done|lia|].
  exists f, g, r. rewrite read_le, read_le_at by u32_side. rewrite <- u32_range in *. done.
Qed.

Lemma deserialize_node_enc node rest :
  node_wf node -> deserialize_node (serialize_node node ++ rest) = Ok (node, len (serialize_node node)).
Proof.
  destruct node as [|f g| |f g|f|f|f|f|f g|f z k|f z|j| |h|v]; cbn [node_wf]; intros Hwf;
    cbn [serialize_node app deserialize_node]; rewrite <- ?app_assoc; try done;
    try (rewrite decode1_enc by done; ok_len);
    try (rewrite decode2_enc by apply Hwf; ok_len).
  - destruct Hwf as (Hf & Hz & Hk). guard_false. rewrite read_le, read_le_at by u32_side.
    rewrite (app_assoc (le_bytes 4 f)), read_le_at by u32_side. ok_len.
  - guard_false. rewrite read_le by (done || apply u32_range, jet_u32_range).
    rewrite from_jet_u32. cbn [ok_or]. ok_len.
  - unfold hash_wf in Hwf. guard_false. rewrite slice_head by done. ok_len.
  - destruct Hwf as [Hv Hl]. set (vb := Value_serialize v) in *. guard_false. rewrite read_le by u32_side.
    guard_false. rewrite slice_mid by len_lia. rewrite <- (app_nil_r vb).
    destruct (codec_encodes v Hv) as (b & [= <-] & Hdec). fold vb in Hdec. rewrite Hdec. cbn [map_err].
    rewrite app_nil_r, Z.eqb_refl. cbn [negb]. ok_len.
Qed.

Lemma const_dec rest v m :
  4 <= len rest -> 4 + le_val (slice rest 0 4) <= len rest ->
  Value_deserialize (slice rest 4 (4 + le_val (slice rest 0 4))) = Ok (v, m) ->
  m = le_val (slice rest 0 4) ->
  node_wf (CConst v) /\ 5 + m = len (serialize_node (CConst v)) /\
  exists tail, x0e :: rest = serialize_node (CConst v) ++ tail.
Proof.
  intros Hl Hm Hd ->. destruct (read_le_inv 4 4 rest eq_refl Hl) as [Hr [r Hr']].
  set (n := le_val (slice rest 0 4)) in *.
  assert (n <= len r) as Hn by (rewrite Hr' in Hm; len_lia).
  destruct (split_len r n) as (a & r' & Er & Ha); [lia|].
  assert (slice rest 4 (4 + n) = a) as Hs by (rewrite Hr', Er; apply slice_mid; len_lia).
  rewrite Hs in Hd. apply codec_decodes in Hd as (Hv & b & tail & [= <-] & Ea & Hlen).
  assert (tail = []) as -> by (apply len_0; subst a; len_lia). rewrite app_nil_r in Ea.
  cbn [node_wf serialize_node app]. rewrite <- Ea, Ha. split; [split; [done|by apply u32_range]|].
  split; [len_lia|]. exists r'. rewrite Hr' at 1. rewrite Er. by rewrite app_assoc.
Qed.

Lemma deserialize_node_dec data node n :
  deserialize_node data = Ok (node, n) ->
  node_wf node /\ n = len (serialize_node node) /\ exists rest, data = serialize_node node ++ rest.
Proof.
  destruct data as [|tag data]; [done|]. cbn [deserialize_node].
  destruct tag; try (intros; discriminate);
    try (by intros [= <- <-]; split_and!; [done..|exists data]);
    try (intros (f & rest & Hf & -> & -> & ->)%decode1_dec; cbn [node_wf serialize_node app];
         split_and!; [done|len_lia|by exists rest]);
    try (intros (f & g & rest & Hf & Hg & -> & -> & ->)%decode2_dec; cbn [node_wf serialize_node app];
         split_and!; [done|done|len_lia|exists rest; by rewrite app_assoc]).
  - intros Hd. inv_res. destruct (two_fields 4 4 4 4 data) as (f & z & r & -> & Hf & Hz); [done|done|lia|].
    apply Z.ltb_ge in E. destruct (read_le_inv 8 8 r) as [Hk [r' Hr]]; [done|clear Hf Hz; len_lia|].
    generalize dependent (le_val (slice r 0 8)); intros k Hk Hr; subst r.
    rewrite read_le, read_le_at by u32_side. rewrite (app_assoc (le_bytes 4 f)), read_le_at by u32_side.
    cbn [node_wf serialize_node app]. rewrite !u32_range, u64_range. split_and!; try lia; [len_lia|].
    exists r'. by rewrite <- !app_assoc.
  - intros Hd. inv_res. destruct (read_le_inv 4 4 data) as [_ [r Hr]]; [done|lia|].
    destruct (from_u32 _) as [j|] eqn:Ej; [|discriminate]. apply from_u32_inv in Ej.
    cbn [ok_or] in *. inv_res. cbn [node_wf serialize_node app]. rewrite Ej.
    split_and!; [done|len_lia|exists r; by f_equal].
  - intros Hd. inv_res. destruct (decode_fixed_dec data 32) as [Hl [r Hr]]; [lia|].
    cbn [node_wf serialize_node app]. split_and!; [done|len_lia|exists r; by f_equal].
  - intros Hd. inv_res.
    apply map_err_Ok in E1. apply negb_false_iff, Z.eqb_eq in E2.
    destruct (const_dec data v z) as (Hw & Hl & Ht); try done; try lia.
    split_and!; [done|lia|done].
Qed.

#[export] Instance node_codec : Codec node_wf node_enc deserialize_node.
Proof.
  split.
  - intros node Hwf. exists (serialize_node node). split; [done|]. intros. by apply deserialize_node_enc.
  - intros data node n Hd. apply deserialize_node_dec in Hd as (Hwf & -> & rest & ->).
    split; [done|]. by exists (serialize_node node), rest.
Qed.

(** ** The program codec *)

Lemma serialize_node_pos node : 1 <= len (serialize_node node).
Proof. destruct node; cbn [serialize_node app]; len_lia. Qed.

Lemma concat_nodes_len ns : len ns <= len (concat (map serialize_node ns)).
Proof.
  induction ns as [|node ns IH]; [done|]. simpl. pose proof (serialize_node_pos node). len_lia.
Qed.

Lemma deserialize_program_enc p :
  Program_wf p -> deserialize_program (serialize_program p) = Ok p.
Proof.
  intros (Hns & Hmax & Hroot & Hv). unfold deserialize_program, serialize_program.
  unfold MAX_SCRIPT_NODES in *. pose proof (concat_nodes_len (nodes p)) as Hlen.
  pose proof (len_nonneg (nodes p)) as Hpos.
  destruct (serialize_all_dec (nodes p) Hns) as (b & Eb & Hdec).
  unfold node_enc in Eb. rewrite serialize_all_total in Eb. injection Eb as <-.
  set (body := concat (map serialize_node (nodes p))) in *.
  guard_false. rewrite read_le by (done || apply u32_range; unfold in_u32, U32_MAX; lia).
  rewrite read_le_at by u32_side. guard_false. unfold saturating_sub.
  replace (_ <? len (nodes p)) with false by (symmetry; apply Z.ltb_ge; len_lia).
  specialize (Hdec (le_bytes 4 (len (nodes p)) ++ le_bytes 4 (root p)) []). rewrite app_nil_r in Hdec.
  rewrite to_nat_len. rewrite <- app_assoc in Hdec.
  replace (len (le_bytes 4 (len (nodes p)) ++ le_bytes 4 (root p))) with 8 in Hdec by len_lia.
  rewrite Hdec, Z.eqb_refl. cbn [negb].
  replace (8 + len body =? _) with true by (symmetry; apply Z.eqb_eq; len_lia). cbn [negb].
  destruct p as [ns r]. cbn [ScriptAst.nodes ScriptAst.root] in *. by rewrite Hv.
Qed.

Lemma deserialize_program_dec data p :
  deserialize_program data = Ok p -> Program_wf p /\ serialize_program p = data.
Proof.
  unfold deserialize_program, saturating_sub. intros Hd. inv_res. rewrite Z.ltb_ge in *.
  match goal with Hv : map_err _ _ = Ok ?u |- _ => destruct u; apply map_err_Ok in Hv; rename Hv into Hval end.
  destruct (two_fields 4 4 4 4 data) as (c & r & body & -> & Hc & Hr); [done|done|lia|].
  rewrite read_le, read_le_at in * by u32_side.
  match goal with Hx : deserialize_n _ _ _ _ = _ |- _ =>
    apply (deserialize_n_enc (enc := node_enc)) in Hx as (Hns & Hlen & b & rest & Eb & Hs & ->); [|lia] end.
  unfold node_enc in Eb. rewrite serialize_all_total in Eb. injection Eb as <-.
  rewrite app_assoc, slice_from_app in Hs by len_lia. subst body.
  assert (len l = c) as <- by (unfold len; lia).
  assert (rest = []) as ->.
  { apply len_0. match goal with Hx : negb (8 + _ =? _) = false |- _ =>
      apply negb_false_iff, Z.eqb_eq in Hx end. len_lia. }
  rewrite app_nil_r. split; [|done]. unfold Program_wf. cbn [nodes root]. rewrite u32_range. done.
Qed.

(** ** Merkle tables *)

Section MerkleTables.
Context `{Sha2}.

(** A node hash that reads the table at the node's children only. *)
Definition reads_children (node_hash : Combinator -> list Hash256 -> Hash256) : Prop :=
  forall node hs hs', (forall c, c ∈ children_of node -> hash_at hs c = hash_at hs' c) ->
    node_hash node hs = node_hash node hs'.

Lemma node_preimage_children node hs hs' :
  (forall c, c ∈ children_of node -> hash_at hs c = hash_at hs' c) ->
  node_preimage node hs = node_preimage node hs'.
Proof.
  destruct node; cbn [children_of node_preimage]; intros Hc; rewrite ?Hc by set_solver; done.
Qed.

Lemma merkle_reads_children : reads_children node_merkle_hash.
Proof.
  intros node hs hs' Hc. pose proof (node_preimage_children node hs hs' Hc) as E.
  destruct node; unfold node_merkle_hash; rewrite ?E; done.
Qed.

Lemma structural_reads_children : reads_children node_structural_merkle_hash.
Proof.
  intros node hs hs' Hc. destruct node; try done; by apply merkle_reads_children.
Qed.

Section Table.
Context (node_hash : Combinator -> list Hash256 -> Hash256) (Hreads : reads_children node_hash).

Lemma hash_table_length ns : length (hash_table node_hash ns) = length ns.
Proof. unfold hash_table. by rewrite rev_fill_length, length_replicate. Qed.

Lemma hash_table_spec ns i node :
  dag ns -> ns !! i = Some node ->
  hash_table node_hash ns !! i = Some (node_hash node (hash_table node_hash ns)).
Proof.
  intros Hdag Hi. pose proof (lookup_lt_Some _ _ _ Hi) as Hlt. unfold hash_table.
  rewrite rev_fill_spec; [by rewrite Hi| |by rewrite length_replicate|done].
  intros k arr arr' _ Habove. destruct (ns !! k) as [nk|] eqn:Ek; [|apply Hreads; intros c Hc; by apply not_elem_of_nil in Hc].
  simpl. apply Hreads. intros c Hc. specialize (Hdag _ _ _ Ek Hc). unfold hash_at.
  rewrite Habove by lia. done.
Qed.

Lemma hash_at_spec ns i node :
  dag ns -> ns !! Z.to_nat i = Some node ->
  hash_at (hash_table node_hash ns) i = node_hash node (hash_table node_hash ns).
Proof. intros Hdag Hi. unfold hash_at. by rewrite (hash_table_spec ns _ node). Qed.
End Table.

(** Two tables agree when, node by node, the hashes agree as soon as the tables
    agree on the children. *)
Lemma hash_tables_agree h1 h2 ns1 ns2 :
  reads_children h1 -> reads_children h2 -> dag ns1 -> dag ns2 -> length ns1 = length ns2 ->
  (forall i n1 n2, ns1 !! i = Some n1 -> ns2 !! i = Some n2 ->
     (forall j, (i < j)%nat -> hash_table h1 ns1 !! j = hash_table h2 ns2 !! j) ->
     h1 n1 (hash_table h1 ns1) = h2 n2 (hash_table h2 ns2)) ->
  hash_table h1 ns1 = hash_table h2 ns2.
Proof.
  intros H1 H2 Hd1 Hd2 Hl Hstep.
  assert (forall k i, (length ns1 - i <= k)%nat -> hash_table h1 ns1 !! i = hash_table h2 ns2 !! i) as Hall.
  { induction k as [|k IH]; intros i Hk.
    - rewrite !lookup_ge_None_2; [done|..]; rewrite hash_table_length; lia.
    - destruct (decide (i < length ns1)%nat) as [Hi|];
        [|rewrite !lookup_ge_None_2; [done|..]; rewrite hash_table_length; lia].
      destruct (lookup_lt_is_Some_2 _ _ Hi) as [n1 E1].
      destruct (lookup_lt_is_Some_2 ns2 i) as [n2 E2]; [lia|].
      rewrite (hash_table_spec h1 H1 _ _ n1), (hash_table_spec h2 H2 _ _ n2) by done.
      f_equal. apply (Hstep i); [done..|]. intros j Hj. apply IH. lia. }
  apply list_eq. intros i. by apply (Hall (length ns1)); lia.
Qed.

Lemma agree_children (ns : list Combinator) i node (t1 t2 : list Hash256) :
  dag ns -> ns !! i = Some node -> (forall j, (i < j)%nat -> t1 !! j = t2 !! j) ->
  forall c, c ∈ children_of node -> hash_at t1 c = hash_at t2 c.
Proof.
  intros Hd Hi Habove c Hc. specialize (Hd _ _ _ Hi Hc). unfold hash_at. rewrite Habove by lia. done.
Qed.

(** Pruning: node [i] replaced by a hidden node that carries its hash. *)
Definition prune (p : Program) (i : nat) : Program := {|
  nodes := <[i := CMerkleHidden (hash_at (hash_table node_merkle_hash (nodes p)) (Z.of_nat i))]> (nodes p);
  root := root p
|}.

Lemma prune_dag p i : dag (nodes p) -> dag (nodes (prune p i)).
Proof.
  intros Hd k node c Hk Hc. unfold len. cbn [prune nodes] in *. rewrite length_insert.
  apply list_lookup_insert_Some in Hk as [(-> & <- & _)|[_ Hk]]; [set_solver|].
  by apply (Hd k node).
Qed.

Lemma prune_table p i :
  dag (nodes p) ->
  hash_table node_merkle_hash (nodes (prune p i)) = hash_table node_merkle_hash (nodes p).
Proof.
  intros Hd. apply hash_tables_agree; try apply merkle_reads_children; try done;
    [by apply prune_dag|by cbn [prune nodes]; rewrite length_insert|].
  intros k n1 n2 E1 E2 Habove. cbn [prune nodes] in E1.
  apply list_lookup_insert_Some in E1 as [(-> & <- & _)|[_ E1]].
  - cbn [node_merkle_hash]. rewrite (hash_at_spec node_merkle_hash merkle_reads_children _ _ n2);
      [done..|by rewrite Nat2Z.id].
  - rewrite E1 in E2. injection E2 as <-. apply merkle_reads_children.
    by apply (agree_children (nodes p) k).
Qed.

(** Two nodes with the same template: equal, or constants of the same shape. *)
Definition same_template (n1 n2 : Combinator) : Prop :=
  n1 = n2 \/ exists v w, n1 = CConst v /\ n2 = CConst w /\ structural_skeleton v = structural_skeleton w.

Lemma same_template_children n1 n2 : same_template n1 n2 -> children_of n1 = children_of n2.
Proof. intros [->|(v & w & -> & -> & _)]; done. Qed.

Lemma structural_table ns1 ns2 :
  dag ns1 -> Forall2 same_template ns1 ns2 ->
  hash_table node_structural_merkle_hash ns1 = hash_table node_structural_merkle_hash ns2.
Proof.
  intros Hd Hsame. pose proof (Forall2_length _ _ _ Hsame) as Hl.
  assert (dag ns2) as Hd2.
  { intros i n2 c E2 Hc. destruct (lookup_lt_is_Some_2 ns1 i) as [n1 E1];
      [apply lookup_lt_Some in E2; lia|].
    pose proof (Forall2_lookup_lr _ _ _ _ _ _ Hsame E1 E2) as Ht.
    rewrite <- (same_template_children _ _ Ht) in Hc. specialize (Hd _ _ _ E1 Hc).
    unfold len in *. by rewrite <- Hl. }
  apply hash_tables_agree; try apply structural_reads_children; try done.
  intros i n1 n2 E1 E2 Habove. destruct (Forall2_lookup_lr _ _ _ _ _ _ Hsame E1 E2) as [->|(v & w & -> & -> & E)].
  - apply structural_reads_children. by apply (agree_children ns1 i).
  - cbn [node_structural_merkle_hash]. by rewrite E.
Qed.

Lemma structural_merkle_table ns :
  dag ns -> (forall v, CConst v ∉ ns) ->
  hash_table node_structural_merkle_hash ns = hash_table node_merkle_hash ns.
Proof.
  intros Hd Hno. apply hash_tables_agree; auto using structural_reads_children, merkle_reads_children.
  intros i n1 n2 E1 E2 Habove. rewrite E1 in E2. injection E2 as <-.
  rewrite <- (merkle_reads_children n1 (hash_table node_structural_merkle_hash ns));
    [|by apply (agree_children ns i)].
  destruct n1; try done. destruct (Hno v). by eapply list_elem_of_lookup_2.
Qed.
End MerkleTables.

(** ** The Merkle hash binds the program *)

(** A node without its child references. *)
Definition label (node : Combinator) : Combinator :=
  match node with
  | CComp _ _ => CComp 0 0 | CPair _ _ => CPair 0 0 | CCase _ _ => CCase 0 0
  | CListFold _ _ => CListFold 0 0 | CFold _ _ k => CFold 0 0 k
  | CTake _ => CTake 0 | CDrop _ => CDrop 0 | CInjL _ => CInjL 0 | CInjR _ => CInjR 0
  | node => node
  end.

#[local] Set Warnings "-register-all".
(** Nodes [i] of [ns1] and [j] of [ns2] unfold to the same tree. *)
Inductive same_tree (ns1 ns2 : list Combinator) : nat -> nat -> Prop :=
| same_node i j n1 n2 :
    ns1 !! i = Some n1 -> ns2 !! j = Some n2 -> label n1 = label n2 ->
    Forall2 (fun c d => same_tree ns1 ns2 (Z.to_nat c) (Z.to_nat d)) (children_of n1) (children_of n2) ->
    same_tree ns1 ns2 i j.

Definition is_hidden (node : Combinator) : bool :=
  match node with CMerkleHidden _ => true | _ => false end.


Section Binding.
Context `{Sha2}.

Definition hashes_wf (hs : list Hash256) : Prop := forall c, hash_wf (hash_at hs c).

Lemma preimage_inj n1 n2 hs1 hs2 :
  hashes_wf hs1 -> hashes_wf hs2 -> node_wf n1 -> node_wf n2 ->
  is_hidden n1 = false -> is_hidden n2 = false ->
  node_preimage n1 hs1 = node_preimage n2 hs2 ->
  label n1 = label n2 /\ map (hash_at hs1) (children_of n1) = map (hash_at hs2) (children_of n2).
Proof.
  intros H1 H2 W1 W2 N1 N2 E.
  assert (forall c d r s, hash_at hs1 c ++ r = hash_at hs2 d ++ s ->
            hash_at hs1 c = hash_at hs2 d /\ r = s) as Hinj.
  { intros c d r s. apply app_inv_len. by rewrite (H1 c), (H2 d). }
  destruct n1 as [|f g| |f g|f|f|f|f|f g|f z k|f z|j| |h|v]; try discriminate N1;
  destruct n2 as [|f' g'| |f' g'|f'|f'|f'|f'|f' g'|f' z' k'|f' z'|j'| |h'|v']; try discriminate N2;
    cbn [node_preimage app] in E; try apply cons_inv in E as [Et E]; try discriminate Et; try done;
    cbn [label children_of map].
  all: try (apply Hinj in E as [-> ->]; done).
  all: try (split; [done|congruence]).
  - apply Hinj in E as [-> E]. apply Hinj in E as [-> E]. destruct W1 as (_ & _ & K1), W2 as (_ & _ & K2).
    split; [|done]. f_equal. apply u64_range in K1, K2.
    rewrite <- (le_val_bytes 8 k), <- (le_val_bytes 8 k'), E by done. done.
  - split; [|done]. f_equal. assert (from_u32 (jet_u32 j) = from_u32 (jet_u32 j')) as Ej.
    { f_equal. pose proof (jet_u32_range j) as R1. pose proof (jet_u32_range j') as R2.
      apply u32_range in R1, R2. rewrite <- (le_val_bytes 4 (jet_u32 j)), E by done. by apply le_val_bytes. }
    rewrite !from_jet_u32 in Ej. congruence.
  - split; [|done]. f_equal. destruct W1 as [W1 _], W2 as [W2 _].
    apply (codec_inj v v' (Value_serialize v)); [done|done|done|]. unfold Value_enc. by rewrite E.
Qed.

Definition program_preimages (p : Program) : list bytes :=
  map (fun node => domain_preimage SCRIPT_DOMAIN (node_preimage node (hash_table node_merkle_hash (nodes p))))
      (nodes p).

Lemma table_wf `{!Sha2Width} ns : dag ns -> Forall node_wf ns -> hashes_wf (hash_table node_merkle_hash ns).
Proof.
  intros Hd Hwf c. unfold hash_at. destruct (hash_table _ ns !! Z.to_nat c) as [h|] eqn:E; [|done]. simpl.
  pose proof (lookup_lt_Some _ _ _ E) as Hlt. rewrite hash_table_length in Hlt.
  destruct (lookup_lt_is_Some_2 _ _ Hlt) as [node En].
  rewrite (hash_table_spec _ merkle_reads_children _ _ node Hd En) in E. injection E as <-.
  rewrite Forall_lookup in Hwf. specialize (Hwf _ _ En).
  destruct node; try apply domain_hash_wf; done.
Qed.

Lemma merkle_not_hidden node hs :
  is_hidden node = false -> node_merkle_hash node hs = domain_hash SCRIPT_DOMAIN (node_preimage node hs).
Proof. by destruct node. Qed.

Lemma same_hash_same_tree `{!Sha2Width} p1 p2 :
  dag (nodes p1) -> dag (nodes p2) -> Forall node_wf (nodes p1) -> Forall node_wf (nodes p2) ->
  existsb is_hidden (nodes p1) = false -> existsb is_hidden (nodes p2) = false ->
  collision_free (program_preimages p1) (program_preimages p2) ->
  forall k i j n1 n2, (length (nodes p1) - i <= k)%nat -> nodes p1 !! i = Some n1 -> nodes p2 !! j = Some n2 ->
    hash_table node_merkle_hash (nodes p1) !! i = hash_table node_merkle_hash (nodes p2) !! j ->
    same_tree (nodes p1) (nodes p2) i j.
Proof.
  intros D1 D2 W1 W2 N1 N2 Hcf.
  assert (forall ns i node, existsb is_hidden ns = false -> ns !! i = Some node -> is_hidden node = false) as Hnh.
  { intros ns i node Hn Hi. apply not_true_iff_false. intros Hh. apply not_true_iff_false in Hn.
    apply Hn, existsb_exists. exists node. split; [|done]. eapply list_elem_of_In, list_elem_of_lookup_2, Hi. }
  induction k as [|k IH]; intros i j n1 n2 Hk E1 E2 Eh.
  { apply lookup_lt_Some in E1. lia. }
  pose proof (Hnh _ _ _ N1 E1) as H1. pose proof (Hnh _ _ _ N2 E2) as H2.
  rewrite (hash_table_spec _ merkle_reads_children _ _ n1 D1 E1),
    (hash_table_spec _ merkle_reads_children _ _ n2 D2 E2) in Eh.
  injection Eh as Eh. rewrite !merkle_not_hidden in Eh by done.
  apply Hcf, domain_preimage_inj_data in Eh;
    [|apply list_elem_of_fmap; eexists; split; [done|by eapply list_elem_of_lookup_2]..].
  apply preimage_inj in Eh as [El Ec]; try done; try (by apply table_wf);
    [|exact (Forall_lookup_1 _ _ _ _ W1 E1)|exact (Forall_lookup_1 _ _ _ _ W2 E2)].
  econstructor; [done..|].
  assert (forall cs ds, map (hash_at (hash_table node_merkle_hash (nodes p1))) cs =
                   map (hash_at (hash_table node_merkle_hash (nodes p2))) ds ->
    (forall c, c ∈ cs -> c ∈ children_of n1) -> (forall d, d ∈ ds -> d ∈ children_of n2) ->
    Forall2 (fun c d => same_tree (nodes p1) (nodes p2) (Z.to_nat c) (Z.to_nat d)) cs ds) as Hch; [|by apply Hch].
  induction cs as [|c cs IHc]; intros [|d ds] Em Hc Hd; try done.
  simpl in Em. injection Em as Ecd Em. constructor; [|apply IHc; set_solver].
  pose proof (D1 _ _ c E1 (Hc c ltac:(set_solver))) as R1.
  pose proof (D2 _ _ d E2 (Hd d ltac:(set_solver))) as R2. unfold len in *.
  destruct (lookup_lt_is_Some_2 (nodes p1) (Z.to_nat c)) as [nc Enc]; [lia|].
  destruct (lookup_lt_is_Some_2 (nodes p2) (Z.to_nat d)) as [nd End']; [lia|].
  apply (IH _ _ nc nd); [lia|done|done|].
  unfold hash_at in Ecd. rewrite (hash_table_spec _ merkle_reads_children _ _ nc D1 Enc) in Ecd |- *.
  rewrite (hash_table_spec _ merkle_reads_children _ _ nd D2 End') in Ecd |- *. simpl in Ecd. by rewrite Ecd.
Qed.
End Binding.

(** ** Properties *)

(** C39: The program codec is a bijection between the well-formed programs (at most
    [MAX_SCRIPT_NODES] nodes with fields in their widths, structurally valid)
    and the accepted byte strings: such a program decodes from its encoding, and
    every accepted input is exactly the encoding of a well-formed program, so a
    program has one encoding only. *)
Theorem program_codec_bijective :
  (forall p, Program_wf p -> deserialize_program (serialize_program p) = Ok p) /\
  (forall data p, deserialize_program data = Ok p -> Program_wf p /\ serialize_program p = data).
Proof. split; [apply deserialize_program_enc | apply deserialize_program_dec]. Qed.

(** The Merkle hash commits to the program: two well-formed programs without
    hidden nodes that have the same hash unfold to the same tree of combinators
    and constants, unless two of the preimages hashed for them collide. *)
Theorem merkle_hash_binding `{Sha2Width} p1 p2 :
  Program_wf p1 -> Program_wf p2 ->
  existsb is_hidden (nodes p1) = false -> existsb is_hidden (nodes p2) = false ->
  collision_free (program_preimages p1) (program_preimages p2) ->
  merkle_hash p1 = merkle_hash p2 ->
  same_tree (nodes p1) (nodes p2) (Z.to_nat (root p1)) (Z.to_nat (root p2)).
Proof.
  intros (W1 & _ & R1 & V1) (W2 & _ & R2 & V2) N1 N2 Hcf Eh.
  pose proof (valid_dag _ V1) as D1. pose proof (valid_dag _ V2) as D2.
  destruct (valid_nonempty _ V1) as [L1 _], (valid_nonempty _ V2) as [L2 _].
  unfold len, in_u32 in *.
  destruct (lookup_lt_is_Some_2 (nodes p1) (Z.to_nat (root p1))) as [n1 E1]; [lia|].
  destruct (lookup_lt_is_Some_2 (nodes p2) (Z.to_nat (root p2))) as [n2 E2]; [lia|].
  eapply (same_hash_same_tree p1 p2); try done.
  unfold merkle_hash, hash_at in Eh.
  rewrite (hash_table_spec _ merkle_reads_children _ _ n1 D1 E1) in Eh |- *.
  rewrite (hash_table_spec _ merkle_reads_children _ _ n2 D2 E2) in Eh |- *. simpl in Eh. by rewrite Eh.
Qed.

(** Pruning does not change the commitment: replacing any node of a valid
    program by [MerkleHidden] of that node's hash gives a program with the same
    Merkle hash. *)
Theorem merkle_hash_prune `{Sha2} p i :
  validate_structure p = Ok tt -> merkle_hash (prune p i) = merkle_hash p.
Proof. intros Hv. unfold merkle_hash. rewrite prune_table by by apply valid_dag. done. Qed.

(** The structural hash identifies templates: programs that differ only in
    constants of the same shape have the same structural hash, and on a valid
    program without constants it is the Merkle hash. *)
Theorem structural_hash_template `{Sha2} p q :
  validate_structure p = Ok tt ->
  (root p = root q -> Forall2 same_template (nodes p) (nodes q) ->
   structural_merkle_hash p = structural_merkle_hash q) /\
  ((forall v, CConst v ∉ nodes p) -> structural_merkle_hash p = merkle_hash p).
Proof.
  intros Hv. pose proof (valid_dag p Hv) as Hd. unfold structural_merkle_hash, merkle_hash. split.
  - intros Hroot Hsame. rewrite Hroot. by rewrite (structural_table (nodes p) (nodes q)).
  - intros Hno. by rewrite structural_merkle_table.
Qed.

(** ** Witnesses *)

Definition sample_const_program (k : Z) : Program := {|
  nodes := [CComp 1 4; CPair 2 3; CConst (VU64 k); CConst (VU64 7); CJet JEq64];
  root := 0
|}.

Lemma sample_const_program_wf : Program_wf (sample_const_program 5).
Proof. unfold Program_wf. split_and!; crush_closed. Qed.

Lemma merkle_hash_binding_witness :
  same_tree (nodes (sample_const_program 5)) (nodes (sample_const_program 5)) 0%nat 0%nat.
Proof.
  apply (@merkle_hash_binding toy_digest toy_digest_width (sample_const_program 5) (sample_const_program 5));
    [apply sample_const_program_wf | apply sample_const_program_wf | reflexivity | reflexivity | | reflexivity].
  apply (@collision_freeb_ok toy_digest). vm_compute. reflexivity.
Defined.

Lemma merkle_hash_prune_witness :
  @merkle_hash toy_digest (@prune toy_digest (sample_const_program 5) 1) =
  @merkle_hash toy_digest (sample_const_program 5).
Proof. apply (@merkle_hash_prune toy_digest). vm_compute. reflexivity. Defined.

Lemma structural_hash_template_witness :
  @structural_merkle_hash toy_digest (sample_const_program 5) =
  @structural_merkle_hash toy_digest (sample_const_program 6).
Proof.
  destruct (@structural_hash_template toy_digest (sample_const_program 5) (sample_const_program 6)
              ltac:(vm_compute; reflexivity)) as [H _].
  apply H; [reflexivity|].
  cbn [nodes sample_const_program].
  repeat (apply Forall2_cons_2; [first [left; reflexivity | right; eexists _, _; split_and!; reflexivity]|]).
  constructor.
Defined.
