(* ===== verification/U256.v ===== *)
(** * 256-bit integers as 32 big-endian bytes (the helpers of
      [src/script/jets/arithmetic.rs])

    Comparison, shift, subtraction, the bit-by-bit long division and the
    64-bit-limb multiplication, each with the theorem that it computes the
    integer operation on the values of its operands. *)

From Stdlib Require Import Strings.String.
From S2P Require Import Prelude Bytes.
#[local] Open Scope Z_scope.
#[local] Open Scope list_scope.

(** ** Operations *)

(** [for i in 0..32]: the first difference decides. *)
Fixpoint cmp_u256 (a b : bytes) : Z :=
  match a, b with
  | x :: a, y :: b =>
      if byte_Z x <? byte_Z y then -1
      else if byte_Z y <? byte_Z x then 1
      else cmp_u256 a b
  | _, _ => 0
  end.

(** [for i in (0..32).rev()] with the carry of the byte to the right. *)
Fixpoint shift_left_carry (v : bytes) : Z * bytes :=
  match v with
  | [] => (0, [])
  | x :: v =>
      let '(carry, v') := shift_left_carry v in
      let new_carry := Z.shiftr (byte_Z x) 7 in
      (new_carry, Z_byte (Z.lor (Z.shiftl (byte_Z x) 1) carry) :: v')
  end.
Definition shift_left_1 (v : bytes) : bytes := snd (shift_left_carry v).

(** [diff] is a [u16] that wraps. *)
Fixpoint sub_borrow (a b : bytes) : Z * bytes :=
  match a, b with
  | x :: a, y :: b =>
      let '(borrow, r) := sub_borrow a b in
      let diff := (byte_Z x - byte_Z y - borrow) mod 2 ^ 16 in
      (if 255 <? diff then 1 else 0, Z_byte diff :: r)
  | _, _ => (0, [])
  end.
Definition sub_u256_unchecked (a b : bytes) : bytes := snd (sub_borrow a b).

(** [(a[bit / 8] >> (7 - bit % 8)) & 1 == 1] *)
Definition bit_of (a : bytes) (bit : nat) : bool :=
  Z.land (Z.shiftr (byte_Z (byte_at a (Z.of_nat bit / 8))) (7 - Z.of_nat bit mod 8)) 1 =? 1.
(** [v[i] |= m] *)
Definition or_byte (v : bytes) (i m : Z) : bytes :=
  <[Z.to_nat i := Z_byte (Z.lor (byte_Z (byte_at v i)) m)]> v.

Definition zero32 : bytes := replicate 32 x00.

(** One round: bring down a bit of [a]. *)
Definition bring_down (a : bytes) (bit : nat) (remainder : bytes) : bytes :=
  let remainder := shift_left_1 remainder in
  if bit_of a bit then or_byte remainder 31 1 else remainder.

Definition div_round (a b : bytes) (bit : nat) (qr : bytes * bytes) : bytes * bytes :=
  let '(quotient, remainder) := qr in
  let remainder := bring_down a bit remainder in
  if 0 <=? cmp_u256 remainder b then
    (or_byte quotient (Z.of_nat bit / 8) (Z.shiftl 1 (7 - Z.of_nat bit mod 8)),
     sub_u256_unchecked remainder b)
  else (quotient, remainder).

Definition div_u256 (a b : bytes) : bytes :=
  if cmp_u256 a b <? 0 then zero32
  else fst (fwd_iter (div_round a b) 0 256 (zero32, zero32)).

Definition mod_round (a b : bytes) (bit : nat) (remainder : bytes) : bytes :=
  let remainder := bring_down a bit remainder in
  if 0 <=? cmp_u256 remainder b then sub_u256_unchecked remainder b else remainder.

Definition mod_u256 (a b : bytes) : bytes :=
  if cmp_u256 a b <? 0 then a else fwd_iter (mod_round a b) 0 256 zero32.

(** *** Multiplication *)

(** The four limbs, least significant first ([a_limbs[3 - i]]). *)
Definition limbs (a : bytes) : list Z :=
  [be_val (slice a 24 32); be_val (slice a 16 24); be_val (slice a 8 16); be_val (slice a 0 8)].

(** [while carry != 0 && k < 8]: on the limbs from [k] on. *)
Fixpoint add_carry (result : list Z) (carry : Z) : list Z :=
  match result with
  | [] => []
  | r :: rest =>
      if carry =? 0 then r :: rest
      else
        let sum := r + Z.land carry 0xFFFFFFFFFFFFFFFF in
        sum mod 2 ^ 64 :: add_carry rest (Z.shiftr carry 64 + Z.shiftr sum 64)
  end.
Definition add_product (result : list Z) (pos : nat) (prod : Z) : list Z :=
  take pos result ++ add_carry (drop pos result) prod.

Definition mul_row (ai : Z) (b_limbs : list Z) (i : nat) (result : list Z) : list Z :=
  fwd_iter (fun j result => add_product result (i + j) (ai * default 0 (b_limbs !! j))) 0 4 result.
Definition mul_limbs (a_limbs b_limbs : list Z) : list Z :=
  fwd_iter (fun i result => mul_row (default 0 (a_limbs !! i)) b_limbs i result) 0 4 (replicate 8 0).

(** [None] is the [Overflow] error. *)
Definition mul_u256_full (a b : bytes) : option bytes :=
  let result := mul_limbs (limbs a) (limbs b) in
  let at_ k := default 0 (result !! k) in
  if negb (at_ 4%nat =? 0) || negb (at_ 5%nat =? 0) || negb (at_ 6%nat =? 0) || negb (at_ 7%nat =? 0)
  then None
  else Some (be_bytes 8 (at_ 3%nat) ++ be_bytes 8 (at_ 2%nat) ++ be_bytes 8 (at_ 1%nat) ++ be_bytes 8 (at_ 0%nat)).

(** ** Comparison, shift and subtraction *)

Lemma cmp_u256_spec a b :
  len a = len b ->
  cmp_u256 a b = match be_val a ?= be_val b with Lt => -1 | Eq => 0 | Gt => 1 end.
Proof.
  revert b. induction a as [|x a IH]; intros [|y b] Hl; try (rewrite ?len_cons, ?len_nil in Hl; len_lia); [done|].
  rewrite !len_cons in Hl. assert (len a = len b) as Hl' by lia. simpl. rewrite Hl'.
  pose proof (be_val_range a) as Ra. pose proof (be_val_range b) as Rb. rewrite Hl' in Ra.
  pose proof (pow256_len_pos b).
  destruct (Z.ltb_spec (byte_Z x) (byte_Z y)).
  - replace (_ ?= _) with Lt; [done|]. symmetry. apply Z.compare_lt_iff. nia.
  - destruct (Z.ltb_spec (byte_Z y) (byte_Z x)).
    + replace (_ ?= _) with Gt; [done|]. symmetry. apply Z.compare_gt_iff. nia.
    + rewrite IH by done. replace (byte_Z x) with (byte_Z y) by lia.
      by rewrite Z.add_compare_mono_l.
Qed.

Lemma cmp_u256_lt a b : len a = len b -> (cmp_u256 a b <? 0) = (be_val a <? be_val b).
Proof. intros Hl. rewrite cmp_u256_spec by done. unfold Z.ltb at 2. by destruct (_ ?= _). Qed.
Lemma cmp_u256_ge a b : len a = len b -> (0 <=? cmp_u256 a b) = (be_val b <=? be_val a).
Proof.
  intros Hl. rewrite cmp_u256_spec by done. unfold Z.leb at 2. rewrite Z.compare_antisym.
  by destruct (_ ?= _).
Qed.
Lemma cmp_u256_gt a b : len a = len b -> (0 <? cmp_u256 a b) = (be_val b <? be_val a).
Proof.
  intros Hl. rewrite cmp_u256_spec by done. unfold Z.ltb at 2. rewrite Z.compare_antisym.
  by destruct (_ ?= _).
Qed.

Lemma lor_disjoint a b : Z.land a b = 0 -> Z.lor a b = a + b.
Proof. intros Hl. rewrite Z.add_nocarry_lxor by done. symmetry. by apply Z.lxor_lor. Qed.

Lemma lor_low x c k : 0 <= k -> 0 <= c < 2 ^ k -> Z.lor (Z.shiftl x k) c = x * 2 ^ k + c.
Proof.
  intros Hk Hc. rewrite Z.shiftl_mul_pow2 by done. apply lor_disjoint.
  apply Z.bits_inj'. intros n Hn. rewrite Z.land_spec, Z.bits_0. destruct (Z.ltb_spec n k).
  - by rewrite Z.mul_pow2_bits_low.
  - rewrite <- (Z.mod_small c (2 ^ k)) by done. rewrite Z.mod_pow2_bits_high by lia. apply andb_false_r.
Qed.

Lemma shift_left_carry_spec v :
  let '(c, v') := shift_left_carry v in
  0 <= c <= 1 /\ len v' = len v /\ c * 256 ^ len v + be_val v' = 2 * be_val v.
Proof.
  induction v as [|x v IH]; [done|]. cbn [shift_left_carry].
  destruct (shift_left_carry v) as [c v']. destruct IH as (Hc & Hl & Hv).
  pose proof (byte_Z_range x) as Rx. rewrite lor_low by (change (2 ^ 1) with 2; lia).
  rewrite Z.shiftr_div_pow2 by lia. change (2 ^ 7) with 128. change (2 ^ 1) with 2.
  assert (0 <= byte_Z x / 128 <= 1) as Hq.
  { split; [apply Z.div_pos; lia|]. apply Z.lt_succ_r, Z.div_lt_upper_bound; lia. }
  split; [done|]. rewrite !len_cons, Hl. split; [done|]. cbn [be_val]. rewrite Hl.
  rewrite byte_Z_byte, pow256_S by apply len_nonneg.
  set (w := byte_Z x * 2 + c). set (P := 256 ^ len v) in *.
  assert (byte_Z x / 128 = w / 256) as ->.
  { subst w. apply Z.div_unique with (byte_Z x mod 128 * 2 + c).
    - left. pose proof (Z.mod_pos_bound (byte_Z x) 128). lia.
    - pose proof (Z.div_mod (byte_Z x) 128). lia. }
  pose proof (Z.div_mod w 256). nia.
Qed.

Lemma shift_left_1_spec v :
  2 * be_val v < 256 ^ len v -> len (shift_left_1 v) = len v /\ be_val (shift_left_1 v) = 2 * be_val v.
Proof.
  intros Hlt. unfold shift_left_1. pose proof (shift_left_carry_spec v) as Hs.
  destruct (shift_left_carry v) as [c v']. destruct Hs as (Hc & Hl & Hv). simpl.
  split; [done|]. pose proof (be_val_range v'). pose proof (pow256_len_pos v).
  assert (c = 0) as -> by nia. lia.
Qed.

Lemma sub_borrow_spec a b :
  len a = len b ->
  let '(c, r) := sub_borrow a b in
  0 <= c <= 1 /\ len r = len a /\ be_val r = be_val a - be_val b + c * 256 ^ len a.
Proof.
  revert b. induction a as [|x a IH]; intros [|y b] Hl; try (rewrite ?len_cons, ?len_nil in Hl; len_lia); [done|].
  rewrite !len_cons in Hl. assert (len a = len b) as Hl' by lia. specialize (IH b Hl').
  cbn [sub_borrow]. destruct (sub_borrow a b) as [c r]. destruct IH as (Hc & Hr & Hv).
  pose proof (byte_Z_range x). pose proof (byte_Z_range y).
  set (d := byte_Z x - byte_Z y - c) in *. change (2 ^ 16) with 65536.
  assert ((if 255 <? d mod 65536 then 1 else 0) = if d <? 0 then 1 else 0) as ->.
  { destruct (Z.ltb_spec d 0).
    - replace (d mod 65536) with (d + 65536); [destruct (Z.ltb_spec 255 (d + 65536)); lia|].
      apply Z.mod_unique with (-1); lia.
    - rewrite Z.mod_small by lia. destruct (Z.ltb_spec 255 d); lia. }
  split; [destruct (d <? 0); lia|]. rewrite !len_cons. split; [lia|].
  cbn [be_val]. rewrite Hr, byte_Z_byte, pow256_S, <- Hl' by apply len_nonneg.
  assert ((d mod 65536) mod 256 = d + (if d <? 0 then 1 else 0) * 256) as ->.
  { change 65536 with (256 * 256). rewrite Z.rem_mul_r by lia.
    rewrite (Z.mul_comm 256 (_ mod _)), Z.mod_add, Z.mod_mod by lia.
    destruct (Z.ltb_spec d 0); [|rewrite Z.mod_small; lia].
    symmetry. apply Z.mod_unique with (-1); lia. }
  rewrite Hv. subst d. destruct (_ <? 0); nia.
Qed.

Lemma sub_u256_spec a b :
  len a = len b -> be_val b <= be_val a ->
  len (sub_u256_unchecked a b) = len a /\ be_val (sub_u256_unchecked a b) = be_val a - be_val b.
Proof.
  intros Hl Hge. unfold sub_u256_unchecked. pose proof (sub_borrow_spec a b Hl) as Hs.
  destruct (sub_borrow a b) as [c r]. destruct Hs as (Hc & Hr & Hv). simpl. split; [done|].
  pose proof (be_val_range r) as Rr. pose proof (be_val_range a). pose proof (be_val_range b).
  rewrite Hr in Rr. assert (c = 0) as -> by nia. lia.
Qed.

(** ** Bits *)

Lemma byte_at_val a i :
  0 <= i < len a -> byte_Z (byte_at a i) = (be_val a / 2 ^ (8 * (len a - 1 - i))) mod 256.
Proof.
  intros Hi. destruct (split_at a i) as (pre & E & Hp); [lia|].
  destruct (split_cons (slice_from a i)) as (x & post & Ex); [rewrite E in Hi; len_lia|].
  rewrite Ex in E. rewrite E at 1 2. rewrite byte_at_mid by done.
  assert (len a - 1 - i = len post) as -> by (rewrite E; len_lia).
  rewrite Z.pow_mul_r by len_lia. change (2 ^ 8) with 256. rewrite be_val_app, len_cons. cbn [be_val].
  pose proof (be_val_range post). pose proof (byte_Z_range x). pose proof (pow256_len_pos post).
  rewrite pow256_S by apply len_nonneg.
  replace (be_val pre * (256 * 256 ^ len post) + (byte_Z x * 256 ^ len post + be_val post))
    with ((be_val pre * 256 + byte_Z x) * 256 ^ len post + be_val post) by lia.
  rewrite Z.div_add_l, (Z.div_small (be_val post)), Z.add_0_r by lia.
  rewrite Z.add_comm, Z.mod_add, Z.mod_small by lia. done.
Qed.

Lemma bit_of_spec a bit :
  len a = 32 -> (bit < 256)%nat -> bit_of a bit = Z.testbit (be_val a) (255 - Z.of_nat bit).
Proof.
  intros Hl Hb. unfold bit_of. set (n := Z.of_nat bit).
  pose proof (Z.div_mod n 8). pose proof (Z.mod_pos_bound n 8).
  assert (0 <= n / 8 < 32) as Hq by (split; [apply Z.div_pos; lia | apply Z.div_lt_upper_bound; lia]).
  assert (forall z, (Z.land z 1 =? 1) = Z.testbit z 0) as ->.
  { intros z. change 1 with (Z.ones 1) at 1. rewrite Z.land_ones by lia. change (2 ^ 1) with 2.
    rewrite Zmod_odd, <- Z.bit0_odd. by destruct (Z.testbit z 0). }
  rewrite Z.shiftr_spec, Z.add_0_l by lia. rewrite byte_at_val, Hl by lia.
  change 256 with (2 ^ 8). rewrite Z.mod_pow2_bits_low by lia. rewrite Z.div_pow2_bits by lia.
  f_equal. lia.
Qed.

(** The top [k] bits of a 256-bit value. *)
Definition top (V : Z) (k : nat) : Z := V / 2 ^ (256 - Z.of_nat k).

Lemma top_step V k :
  (k < 256)%nat -> top V (S k) = 2 * top V k + Z.b2z (Z.testbit V (255 - Z.of_nat k)).
Proof.
  intros Hk. unfold top. replace (256 - Z.of_nat (S k)) with (255 - Z.of_nat k) by lia.
  replace (256 - Z.of_nat k) with (255 - Z.of_nat k + 1) by lia. set (m := 255 - Z.of_nat k).
  rewrite Z.testbit_spec' by lia. rewrite Z.pow_add_r, <- Z.div_div by lia. change (2 ^ 1) with 2.
  pose proof (Z.div_mod (V / 2 ^ m) 2). lia.
Qed.

Lemma top_bound V k : 0 <= V < 2 ^ 256 -> (k <= 256)%nat -> 0 <= top V k < 2 ^ Z.of_nat k.
Proof.
  intros HV Hk. unfold top. split; [apply Z.div_pos; lia|].
  apply Z.div_lt_upper_bound; [lia|]. rewrite <- Z.pow_add_r by lia.
  replace (256 - Z.of_nat k + Z.of_nat k) with 256 by lia. lia.
Qed.

(** [v[i] |= 1 << s] adds the bit when it is not set. *)
Lemma or_byte_spec v i s :
  0 <= i < len v -> 0 <= s < 8 -> Z.testbit (be_val v) (8 * (len v - 1 - i) + s) = false ->
  len (or_byte v i (Z.shiftl 1 s)) = len v /\
  be_val (or_byte v i (Z.shiftl 1 s)) = be_val v + 2 ^ (8 * (len v - 1 - i) + s).
Proof.
  intros Hi Hs Hbit. unfold or_byte. split; [unfold len; by rewrite length_insert|].
  set (b := byte_Z (byte_at v i)).
  assert (Z.testbit b s = false) as Hb.
  { subst b. rewrite byte_at_val by done. change 256 with (2 ^ 8).
    rewrite Z.mod_pow2_bits_low, Z.div_pow2_bits by lia. by rewrite Z.add_comm. }
  pose proof (byte_Z_range (byte_at v i)) as Rb. fold b in Rb.
  assert (Z.lor b (Z.shiftl 1 s) = b + 2 ^ s) as Hor.
  { rewrite Z.shiftl_1_l. apply lor_disjoint.
    apply Z.bits_inj'. intros n Hn. rewrite Z.land_spec, Z.bits_0, Z.pow2_bits_eqb by lia.
    destruct (Z.eqb_spec s n) as [<-|]; [by rewrite Hb|apply andb_false_r]. }
  assert (0 <= Z.lor b (Z.shiftl 1 s) < 256) as Hlt.
  { split; [apply Z.lor_nonneg; split; [lia|apply Z.shiftl_nonneg; lia]|].
    rewrite Z.shiftl_1_l. destruct (decide (Z.lor b (2 ^ s) = 0)) as [->|Hne]; [lia|].
    assert (0 <= Z.lor b (2 ^ s)) by (apply Z.lor_nonneg; lia).
    change 256 with (2 ^ 8). apply Z.log2_lt_pow2; [lia|]. rewrite Z.log2_lor, Z.log2_pow2 by lia.
    apply Z.max_lub_lt; [|lia]. destruct (decide (b = 0)) as [->|]; [done|].
    apply Z.log2_lt_pow2; lia. }
  rewrite Hor in *. destruct (split_at v i) as (pre & E & Hp); [lia|].
  destruct (split_cons (slice_from v i)) as (x & post & Ex); [rewrite E in Hi; len_lia|].
  rewrite Ex in E. assert (b = byte_Z x) as Hbx by (subst b; by rewrite E, byte_at_mid).
  assert (Z.to_nat i = length pre + 0)%nat as -> by (unfold len in Hp; lia).
  assert (len v - 1 - i = len post) as -> by (rewrite E; len_lia).
  rewrite E, insert_app_r. cbn. rewrite !be_val_app, !len_cons. cbn [be_val].
  rewrite byte_Z_byte_small, Hbx by done. rewrite (Z.pow_add_r 2), (Z.pow_mul_r 2 8) by len_lia.
  change (2 ^ 8) with 256. lia.
Qed.

(** ** Long division *)

Lemma len_zero32 : len zero32 = 32.
Proof. done. Qed.
Lemma val_zero32 : be_val zero32 = 0.
Proof. done. Qed.

Section Division.
Context (a b : bytes) (La : len a = 32) (Lb : len b = 32) (Hb : 0 < be_val b).
Let A := be_val a.
Let B := be_val b.

Lemma val_bound v : len v = 32 -> 0 <= be_val v < 2 ^ 256.
Proof. intros Hl. pose proof (be_val_range v) as R. rewrite Hl in R. exact R. Qed.

Lemma bring_down_spec k r :
  (k < 256)%nat -> len r = 32 -> be_val r = top A k mod B ->
  len (bring_down a k r) = 32 /\
  be_val (bring_down a k r) = 2 * (top A k mod B) + Z.b2z (Z.testbit A (255 - Z.of_nat k)).
Proof.
  intros Hk Lr Er. pose proof (top_bound A k (val_bound a La) ltac:(lia)) as Ht.
  assert (top A k mod B <= top A k) as Hm by (apply Z.mod_le; lia).
  assert (2 * be_val r < 256 ^ len r) as Hov.
  { rewrite Lr, Er. change (256 ^ 32) with (2 ^ 256).
    assert (2 ^ Z.of_nat k <= 2 ^ 255) by (apply Z.pow_le_mono_r; lia).
    replace (2 ^ 256) with (2 * 2 ^ 255) by reflexivity. lia. }
  destruct (shift_left_1_spec r Hov) as [Ls Vs]. unfold bring_down.
  rewrite bit_of_spec by done. fold A. rewrite <- Er.
  destruct (Z.testbit A (255 - Z.of_nat k)); simpl Z.b2z; [|split; lia].
  rewrite Lr in Ls.
  destruct (or_byte_spec (shift_left_1 r) 31 0) as [Lo Vo]; [lia|lia| |].
  - rewrite Ls, Vs. change (8 * (32 - 1 - 31) + 0) with 0. rewrite Z.bit0_odd, Z.odd_mul. done.
  - change (Z.shiftl 1 0) with 1 in Lo, Vo. rewrite Lo, Vo, Ls, Vs.
    change (2 ^ (8 * (32 - 1 - 31) + 0)) with 1. lia.
Qed.

(** After [k] bits, quotient and remainder are those of the top [k] bits. *)
Definition div_inv (k : nat) (qr : bytes * bytes) : Prop :=
  len (fst qr) = 32 /\ len (snd qr) = 32 /\
  be_val (fst qr) = top A k / B * 2 ^ (256 - Z.of_nat k) /\ be_val (snd qr) = top A k mod B.

Lemma div_step k :
  (k < 256)%nat ->
  let r' := 2 * (top A k mod B) + Z.b2z (Z.testbit A (255 - Z.of_nat k)) in
  (B <= r' -> top A (S k) / B = 2 * (top A k / B) + 1 /\ top A (S k) mod B = r' - B) /\
  (r' < B -> top A (S k) / B = 2 * (top A k / B) /\ top A (S k) mod B = r').
Proof.
  intros Hk r'. pose proof (Z.mod_pos_bound (top A k) B Hb) as Hm.
  pose proof (Z.div_mod (top A k) B ltac:(lia)) as Hd.
  assert (0 <= Z.b2z (Z.testbit A (255 - Z.of_nat k)) <= 1) as Hbit by (destruct (Z.testbit _ _); simpl; lia).
  rewrite (top_step A k Hk). split; intros Hc; subst r'.
  - assert (2 * top A k + Z.b2z (Z.testbit A (255 - Z.of_nat k)) =
            B * (2 * (top A k / B) + 1) + (2 * (top A k mod B) + Z.b2z (Z.testbit A (255 - Z.of_nat k)) - B)) as E by lia.
    split; symmetry; [eapply Z.div_unique_pos | eapply Z.mod_unique_pos]; [|exact E| |exact E]; lia.
  - assert (2 * top A k + Z.b2z (Z.testbit A (255 - Z.of_nat k)) =
            B * (2 * (top A k / B)) + (2 * (top A k mod B) + Z.b2z (Z.testbit A (255 - Z.of_nat k)))) as E by lia.
    split; symmetry; [eapply Z.div_unique_pos | eapply Z.mod_unique_pos]; [|exact E| |exact E]; lia.
Qed.

Lemma div_round_inv k qr : (k < 256)%nat -> div_inv k qr -> div_inv (S k) (div_round a b k qr).
Proof.
  destruct qr as [q r]. intros Hk (Lq & Lr & Vq & Vr). simpl in *.
  destruct (bring_down_spec k r Hk Lr Vr) as [Ld Vd]. destruct (div_step k Hk) as [Hge Hlt].
  rewrite <- Vd in Hge, Hlt. set (r' := bring_down a k r) in *.
  rewrite cmp_u256_ge by lia. fold B. unfold div_inv.
  replace (256 - Z.of_nat (S k)) with (255 - Z.of_nat k) by lia.
  assert (2 ^ (256 - Z.of_nat k) = 2 * 2 ^ (255 - Z.of_nat k)) as Hpow.
  { rewrite <- Z.pow_succ_r by lia. f_equal. lia. }
  destruct (Z.leb_spec B (be_val r')) as [HB|HB]; simpl.
  - destruct (Hge HB) as [-> ->]. destruct (sub_u256_spec r' b) as [Ls Vs]; [lia|done|].
    set (n := Z.of_nat k) in *. pose proof (Z.div_mod n 8). pose proof (Z.mod_pos_bound n 8).
    assert (0 <= n / 8 < 32) by (split; [apply Z.div_pos; lia | apply Z.div_lt_upper_bound; lia]).
    assert (8 * (len q - 1 - n / 8) + (7 - n mod 8) = 255 - n) as Epos by lia.
    destruct (or_byte_spec q (n / 8) (7 - n mod 8)) as [Lo Vo]; [lia|lia| |].
    + rewrite Epos, Vq, Hpow. rewrite Z.mul_assoc, Z.mul_pow2_bits by lia.
      rewrite Z.sub_diag, Z.bit0_odd, Z.odd_mul, andb_comm. done.
    + rewrite Lo, Vo, Ls, Vs, Epos, Vq, Hpow. fold B. split_and!; lia.
  - destruct (Hlt HB) as [-> ->]. rewrite Vq, Hpow. split_and!; lia.
Qed.

Lemma mod_round_inv k r :
  (k < 256)%nat -> len r = 32 /\ be_val r = top A k mod B ->
  len (mod_round a b k r) = 32 /\ be_val (mod_round a b k r) = top A (S k) mod B.
Proof.
  intros Hk [Lr Vr]. destruct (bring_down_spec k r Hk Lr Vr) as [Ld Vd].
  destruct (div_step k Hk) as [Hge Hlt]. rewrite <- Vd in Hge, Hlt. unfold mod_round.
  rewrite cmp_u256_ge by lia. fold B. destruct (Z.leb_spec B (be_val (bring_down a k r))) as [HB|HB].
  - destruct (Hge HB) as [_ ->]. destruct (sub_u256_spec (bring_down a k r) b) as [Ls Vs]; [lia|done|].
    rewrite Ls, Vs. done.
  - destruct (Hlt HB) as [_ ->]. done.
Qed.

Lemma top_0 : top A 0 = 0.
Proof. unfold top. apply Z.div_small. apply (val_bound a La). Qed.
Lemma top_all : top A 256 = A.
Proof. unfold top. apply Z.div_1_r. Qed.

Lemma div_u256_val : len (div_u256 a b) = 32 /\ be_val (div_u256 a b) = A / B.
Proof.
  unfold div_u256. rewrite cmp_u256_lt by lia. fold A B. destruct (Z.ltb_spec A B) as [Hlt|Hge].
  { rewrite len_zero32, val_zero32. pose proof (val_bound a La) as HA. fold A in HA. rewrite Z.div_small by lia. done. }
  assert (div_inv (0 + 256) (fwd_iter (div_round a b) 0 256 (zero32, zero32))) as (L & _ & V & _).
  { apply fwd_iter_inv; [intros k s Hk; rewrite Nat.add_1_r; apply div_round_inv; lia|].
    unfold div_inv. simpl fst. simpl snd. rewrite len_zero32, val_zero32, top_0.
    rewrite Z.div_0_l, Z.mod_0_l by lia. done. }
  rewrite L, V. change (0 + 256)%nat with 256%nat. rewrite top_all. split; [done|].
  change (2 ^ (256 - Z.of_nat 256)) with 1. lia.
Qed.

Lemma mod_u256_val : len (mod_u256 a b) = 32 /\ be_val (mod_u256 a b) = A mod B.
Proof.
  unfold mod_u256. rewrite cmp_u256_lt by lia. fold A B. destruct (Z.ltb_spec A B) as [Hlt|Hge].
  { pose proof (val_bound a La) as HA. fold A in HA. rewrite Z.mod_small by lia. done. }
  pose proof (fwd_iter_inv (fun k r => len r = 32 /\ be_val r = top A k mod B)
                (mod_round a b) 0 256 zero32) as Hinv.
  cbv beta in Hinv. change (0 + 256)%nat with 256%nat in Hinv. rewrite top_all in Hinv. apply Hinv.
  - intros k s Hk. rewrite Nat.add_1_r. apply mod_round_inv. lia.
  - rewrite len_zero32, val_zero32, top_0, Z.mod_0_l by lia. done.
Qed.
End Division.

(** ** Limb multiplication *)

(** The value of a list of 64-bit limbs, least significant first. *)
Fixpoint lval (l : list Z) : Z :=
  match l with [] => 0 | x :: l => x + 2 ^ 64 * lval l end.
Definition limb (x : Z) : Prop := 0 <= x < 2 ^ 64.

Lemma pow64_add n m : 0 <= n -> 0 <= m -> 2 ^ (64 * (n + m)) = 2 ^ (64 * n) * 2 ^ (64 * m).
Proof. intros. rewrite Z.mul_add_distr_l, Z.pow_add_r by lia. done. Qed.
Lemma pow64_pos n : 0 <= n -> 0 < 2 ^ (64 * n).
Proof. intros. apply Z.pow_pos_nonneg; lia. Qed.

Lemma lval_range l : Forall limb l -> 0 <= lval l < 2 ^ (64 * len l).
Proof.
  induction 1 as [|x l Hx _ IH]; [done|]. rewrite len_cons, pow64_add by (lia || apply len_nonneg).
  change (2 ^ (64 * 1)) with (2 ^ 64). cbn [lval]. unfold limb in Hx. nia.
Qed.

Lemma lval_app l m : lval (l ++ m) = lval l + 2 ^ (64 * len l) * lval m.
Proof.
  induction l as [|x l IH]; [change (2 ^ (64 * len (@nil Z))) with 1; cbn [app lval]; lia|].
  cbn [app lval].
  rewrite IH, len_cons, pow64_add by (lia || apply len_nonneg). change (2 ^ (64 * 1)) with (2 ^ 64). lia.
Qed.

Lemma lval_take_S l j :
  lval (take (S j) l) = lval (take j l) + 2 ^ (64 * Z.of_nat j) * default 0 (l !! j).
Proof.
  destruct (l !! j) as [x|] eqn:E.
  - rewrite (take_S_r l j x E), lval_app. apply lookup_lt_Some in E.
    unfold len. rewrite length_take, Nat.min_l by lia. simpl. lia.
  - apply lookup_ge_None in E. rewrite !take_ge by lia. simpl. lia.
Qed.

Lemma lval_take_le l j : Forall limb l -> 0 <= lval (take j l) <= lval l.
Proof.
  intros Hl. rewrite <- (take_drop j l) at 3. rewrite lval_app.
  pose proof (lval_range _ (Forall_take _ j _ Hl)). pose proof (lval_range _ (Forall_drop _ j _ Hl)).
  pose proof (pow64_pos (len (take j l)) (len_nonneg _)). nia.
Qed.

Lemma add_carry_spec ls carry :
  Forall limb ls -> 0 <= carry -> lval ls + carry < 2 ^ (64 * len ls) ->
  Forall limb (add_carry ls carry) /\ length (add_carry ls carry) = length ls /\
  lval (add_carry ls carry) = lval ls + carry.
Proof.
  intros Hls. revert carry. induction Hls as [|r ls Hr Hls IH]; intros carry Hc Hlt.
  { simpl in *. split_and!; [done..|]. unfold len in Hlt. simpl in Hlt. lia. }
  cbn [add_carry]. destruct (Z.eqb_spec carry 0) as [->|Hne]; [split_and!; [by constructor|done|lia]|].
  change 0xFFFFFFFFFFFFFFFF with (Z.ones 64). rewrite Z.land_ones, !Z.shiftr_div_pow2 by lia.
  set (M := 2 ^ 64) in *. assert (0 < M) as HM by done.
  set (sum := r + carry mod M).
  pose proof (Z.div_mod sum M ltac:(lia)) as Hs. pose proof (Z.div_mod carry M ltac:(lia)) as Hcd.
  pose proof (Z.mod_pos_bound sum M HM) as Hsm. pose proof (Z.mod_pos_bound carry M HM) as Hcm.
  assert (0 <= carry / M) by (apply Z.div_pos; lia).
  unfold limb in Hr. fold M in Hr. assert (0 <= sum / M) by (apply Z.div_pos; lia).
  rewrite len_cons, pow64_add in Hlt by (lia || apply len_nonneg).
  change (2 ^ (64 * 1)) with M in Hlt. cbn [lval] in Hlt |- *. fold M in Hlt |- *.
  assert (r + M * lval ls + carry = sum mod M + M * (lval ls + (carry / M + sum / M))) as Esum by lia.
  destruct (IH (carry / M + sum / M)) as (Hf & Hl & Hv); [lia|nia|].
  split_and!; [by constructor|simpl; lia|]. rewrite Hv. lia.
Qed.

Definition acc_ok (res : list Z) : Prop := length res = 8%nat /\ Forall limb res.

Lemma acc_range res : acc_ok res -> 0 <= lval res < 2 ^ 512.
Proof. intros [Hl Hf]. pose proof (lval_range res Hf) as R. unfold len in R. by rewrite Hl in R. Qed.

Lemma add_product_spec res pos prod :
  acc_ok res -> (pos <= 8)%nat -> 0 <= prod -> lval res + prod * 2 ^ (64 * Z.of_nat pos) < 2 ^ 512 ->
  acc_ok (add_product res pos prod) /\
  lval (add_product res pos prod) = lval res + prod * 2 ^ (64 * Z.of_nat pos).
Proof.
  intros [Hl Hf] Hp Hprod Hlt.
  assert (len (take pos res) = Z.of_nat pos) as Ht by (unfold len; rewrite length_take; lia).
  assert (len (drop pos res) = 8 - Z.of_nat pos) as Hd by (unfold len; rewrite length_drop; lia).
  assert (lval res = lval (take pos res) + 2 ^ (64 * Z.of_nat pos) * lval (drop pos res)) as Hv.
  { rewrite <- (take_drop pos res) at 1. by rewrite lval_app, Ht. }
  pose proof (lval_range _ (Forall_take _ pos _ Hf)) as Rt. pose proof (lval_range _ (Forall_drop _ pos _ Hf)).
  pose proof (pow64_pos (Z.of_nat pos) ltac:(lia)) as Hpos.
  assert (lval (drop pos res) + prod < 2 ^ (64 * len (drop pos res))) as Hfit.
  { rewrite Hd. assert (2 ^ 512 = 2 ^ (64 * Z.of_nat pos) * 2 ^ (64 * (8 - Z.of_nat pos))) as E.
    { rewrite <- pow64_add by lia. f_equal. lia. }
    rewrite E in Hlt. nia. }
  destruct (add_carry_spec (drop pos res) prod) as (Hf' & Hl' & Hv'); [by apply Forall_drop|done|done|].
  unfold add_product. split.
  - split; [rewrite length_app, Hl', <- length_app, take_drop; done|].
    apply Forall_app. split; [by apply Forall_take|done].
  - rewrite lval_app, Ht, Hv', Hv. lia.
Qed.

Lemma mul_row_spec ai bl i res :
  0 <= ai -> Forall limb bl -> length bl = 4%nat -> (i <= 4)%nat -> acc_ok res ->
  lval res + ai * lval bl * 2 ^ (64 * Z.of_nat i) < 2 ^ 512 ->
  acc_ok (mul_row ai bl i res) /\
  lval (mul_row ai bl i res) = lval res + ai * lval bl * 2 ^ (64 * Z.of_nat i).
Proof.
  intros Ha Hbl Hlb Hi Hacc Hlt. pose proof (pow64_pos (Z.of_nat i) ltac:(lia)) as Hpos.
  pose proof (fwd_iter_inv (fun j r => acc_ok r /\
      lval r = lval res + ai * lval (take j bl) * 2 ^ (64 * Z.of_nat i))
    (fun j result => add_product result (i + j) (ai * default 0 (bl !! j))) 0 4 res) as Hinv.
  cbv beta in Hinv. change (0 + 4)%nat with 4%nat in Hinv.
  rewrite (take_ge bl 4) in Hinv by lia. apply Hinv; [|split; [done|simpl; lia]].
  intros j r Hj [Hr Hv]. rewrite Nat.add_1_r, lval_take_S.
  assert (0 <= default 0 (bl !! j)) as Hb.
  { destruct (bl !! j) as [x|] eqn:E; [|done]. pose proof (Forall_lookup_1 _ _ _ _ Hbl E) as Hx.
    unfold limb in Hx. simpl. lia. }
  pose proof (lval_take_le bl (S j) Hbl) as Hle. rewrite lval_take_S in Hle.
  replace (Z.of_nat (i + j)) with (Z.of_nat i + Z.of_nat j) by lia.
  assert (ai * default 0 (bl !! j) * 2 ^ (64 * Z.of_nat (i + j)) =
          ai * (2 ^ (64 * Z.of_nat j) * default 0 (bl !! j)) * 2 ^ (64 * Z.of_nat i)) as E.
  { rewrite Nat2Z.inj_add, pow64_add by lia. lia. }
  assert (ai * (lval (take j bl) + 2 ^ (64 * Z.of_nat j) * default 0 (bl !! j)) * 2 ^ (64 * Z.of_nat i)
          <= ai * lval bl * 2 ^ (64 * Z.of_nat i)) as Hb2.
  { apply Z.mul_le_mono_nonneg_r; [lia|]. apply Z.mul_le_mono_nonneg_l; lia. }
  destruct (add_product_spec r (i + j) (ai * default 0 (bl !! j))) as [Hr' Hv'];
    [done|lia|lia|rewrite E, Hv; lia|].
  split; [done|]. rewrite Hv', E, Hv. lia.
Qed.

Lemma mul_limbs_spec al bl :
  Forall limb al -> Forall limb bl -> length al = 4%nat -> length bl = 4%nat ->
  acc_ok (mul_limbs al bl) /\ lval (mul_limbs al bl) = lval al * lval bl.
Proof.
  intros Hal Hbl Hla Hlb. pose proof (lval_range al Hal) as Ra. pose proof (lval_range bl Hbl) as Rb.
  assert (lval al * lval bl < 2 ^ 512) as Hmax.
  { unfold len in Ra, Rb. rewrite Hla in Ra. rewrite Hlb in Rb.
    change (2 ^ (64 * Z.of_nat 4)) with (2 ^ 256) in *.
    replace (2 ^ 512) with (2 ^ 256 * 2 ^ 256) by reflexivity. nia. }
  pose proof (fwd_iter_inv (fun i r => acc_ok r /\ lval r = lval (take i al) * lval bl)
    (fun i result => mul_row (default 0 (al !! i)) bl i result) 0 4 (replicate 8 0)) as Hinv.
  cbv beta in Hinv. change (0 + 4)%nat with 4%nat in Hinv.
  rewrite (take_ge al 4) in Hinv by lia. apply Hinv; [|by split; [split; [done|repeat constructor]|]].
  intros i r Hi [Hr Hv]. rewrite Nat.add_1_r, lval_take_S.
  assert (0 <= default 0 (al !! i)) as Ha.
  { destruct (al !! i) as [x|] eqn:E; [|done]. pose proof (Forall_lookup_1 _ _ _ _ Hal E) as Hx.
    unfold limb in Hx. simpl. lia. }
  pose proof (lval_take_le al (S i) Hal) as Hle. rewrite lval_take_S in Hle.
  assert ((lval (take i al) + 2 ^ (64 * Z.of_nat i) * default 0 (al !! i)) * lval bl <= lval al * lval bl) as Hb2.
  { apply Z.mul_le_mono_nonneg_r; lia. }
  destruct (mul_row_spec (default 0 (al !! i)) bl i r) as [Hr' Hv']; [done|done|done|lia|done|rewrite Hv; lia|].
  split; [done|]. rewrite Hv', Hv. lia.
Qed.

Lemma limbs_ok a : len a = 32 -> Forall limb (limbs a) /\ lval (limbs a) = be_val a.
Proof.
  intros Hl. destruct (split_len a 8) as (l3 & r1 & -> & H3); [lia|].
  destruct (split_len r1 8) as (l2 & r2 & -> & H2); [len_lia|].
  destruct (split_len r2 8) as (l1 & l0 & -> & H1); [len_lia|].
  assert (len l0 = 8) as H0 by len_lia. unfold limbs.
  rewrite (slice_head l3 _ 0 8), (slice_mid l3 l2 _ 8 16) by lia.
  assert (slice (l3 ++ l2 ++ l1 ++ l0) 16 24 = l1) as ->.
  { rewrite app_assoc. apply slice_mid; len_lia. }
  assert (slice (l3 ++ l2 ++ l1 ++ l0) 24 32 = l0) as ->.
  { rewrite (app_assoc l3), (app_assoc (l3 ++ l2)). apply slice_tail; len_lia. }
  split.
  - assert (forall l, len l = 8 -> limb (be_val l)) as Hlimb.
    { intros l Hl8. pose proof (be_val_range l) as R. by rewrite Hl8 in R. }
    repeat constructor; apply Hlimb; done.
  - rewrite !be_val_app, !len_app, H0, H1, H2. rewrite !Z.pow_add_r by lia.
    cbn [lval]. change (256 ^ 8) with (2 ^ 64). lia.
Qed.

Lemma high_zero r4 r5 r6 r7 :
  Forall limb [r4; r5; r6; r7] ->
  (lval [r4; r5; r6; r7] =? 0) = (r4 =? 0) && (r5 =? 0) && (r6 =? 0) && (r7 =? 0).
Proof.
  rewrite !Forall_cons. unfold limb. intros (H4 & H5 & H6 & H7 & _). cbn [lval]. set (M := 2 ^ 64) in *.
  assert (0 < M) by done.
  destruct (Z.eqb_spec r4 0) as [->|], (Z.eqb_spec r5 0) as [->|], (Z.eqb_spec r6 0) as [->|],
    (Z.eqb_spec r7 0) as [->|]; cbn [andb]; (apply Z.eqb_eq || apply Z.eqb_neq); nia.
Qed.

Lemma out_val r0 r1 r2 r3 :
  Forall limb [r0; r1; r2; r3] ->
  be_val (be_bytes 8 r3 ++ be_bytes 8 r2 ++ be_bytes 8 r1 ++ be_bytes 8 r0) = lval [r0; r1; r2; r3].
Proof.
  rewrite !Forall_cons. unfold limb. change (2 ^ 64) with (256 ^ Z.of_nat 8). intros (H0 & H1 & H2 & H3 & _).
  rewrite !be_val_app, !len_app, !len_be_bytes, !be_val_bytes by done. cbn [lval].
  rewrite !Z.pow_add_r by lia. change (2 ^ 64) with (256 ^ Z.of_nat 8). lia.
Qed.

Lemma mul_u256_full_val a b :
  len a = 32 -> len b = 32 ->
  mul_u256_full a b =
    if be_val a * be_val b <? 2 ^ 256 then Some (be_bytes 32 (be_val a * be_val b)) else None.
Proof.
  intros La Lb. destruct (limbs_ok a La) as [Fa Va], (limbs_ok b Lb) as [Fb Vb].
  destruct (mul_limbs_spec (limbs a) (limbs b) Fa Fb eq_refl eq_refl) as [[Hl Hf] Hv].
  rewrite Va, Vb in Hv. unfold mul_u256_full. set (res := mul_limbs (limbs a) (limbs b)) in *. clearbody res.
  destruct res as [|r0 [|r1 [|r2 [|r3 [|r4 [|r5 [|r6 [|r7 [|]]]]]]]]]; try discriminate Hl.
  assert (Forall limb [r0; r1; r2; r3] /\ Forall limb [r4; r5; r6; r7]) as [Flo Fhi].
  { by apply (Forall_app limb [r0; r1; r2; r3] [r4; r5; r6; r7]). }
  change [r0; r1; r2; r3; r4; r5; r6; r7] with ([r0; r1; r2; r3] ++ [r4; r5; r6; r7]) in Hv.
  rewrite lval_app in Hv. change (2 ^ (64 * len [r0; r1; r2; r3])) with (2 ^ 256) in Hv.
  pose proof (lval_range _ Flo) as Rlo. pose proof (lval_range _ Fhi) as Rhi.
  change (2 ^ (64 * len [r0; r1; r2; r3])) with (2 ^ 256) in Rlo.
  rewrite <- Hv. cbv beta zeta iota delta [lookup list_lookup from_option id].
  assert (negb (r4 =? 0) || negb (r5 =? 0) || negb (r6 =? 0) || negb (r7 =? 0) =
          negb (lval [r4; r5; r6; r7] =? 0)) as ->.
  { rewrite (high_zero r4 r5 r6 r7 Fhi). by destruct (r4 =? 0), (r5 =? 0), (r6 =? 0), (r7 =? 0). }
  destruct (Z.eqb_spec (lval [r4; r5; r6; r7]) 0) as [->|Hne]; cbn [negb].
  - rewrite Z.mul_0_r, Z.add_0_r. replace (_ <? 2 ^ 256) with true by lia. f_equal.
    apply be_val_inj; [len_lia|]. rewrite be_val_bytes by exact Rlo. by apply out_val.
  - replace (_ <? 2 ^ 256) with false by nia. done.
Qed.
