(* ===== verification/Jets.v ===== *)
(** * Jets ([src/script/jets/])

    Types, costs and implementations of the native operations.  Ed25519 is
    third-party code: [Ed25519] is the interface the jets and the transaction
    validator call.  [usize] is 64 bits wide, so [usize::try_from] on a [u64]
    never fails. *)

From Stdlib Require Import Strings.String.
From S2P Require Import Prelude Bytes Codec Hash ScriptValue ScriptAst U256.
#[local] Open Scope Z_scope.
#[local] Open Scope list_scope.

Inductive JetError :=
| JTypeMismatch (msg : string)
| JOverflow (msg : string)
| JDivisionByZero
| JOutOfBounds (msg : string)
| JNotImplemented (msg : string).

Abbreviation jet_result := (result JetError Value).

(** ** Context ([context.rs]) *)

Record TxInputInfo := {
  ii_prev_tx_id : Hash256; ii_output_index : Z; ii_value : Z; ii_script_hash : Hash256
}.
Record TxOutputInfo := {
  oi_value : Z; oi_script_hash : Hash256; oi_datum_hash : option Hash256
}.
Record ScriptContext := {
  tx_inputs : list TxInputInfo;
  tx_outputs : list TxOutputInfo;
  self_index : Z;
  block_height : Z;
  sig_hash : bytes
}.
Definition ScriptContext_empty : ScriptContext :=
  {| tx_inputs := []; tx_outputs := []; self_index := 0; block_height := 0; sig_hash := [] |}.
Definition with_self_index (c : ScriptContext) (idx : Z) : ScriptContext :=
  {| tx_inputs := tx_inputs c; tx_outputs := tx_outputs c; self_index := idx;
     block_height := block_height c; sig_hash := sig_hash c |}.

(** ** 64-bit arithmetic ([arithmetic.rs]) *)

Definition extract_u64_pair (input : Value) : result JetError (Z * Z) :=
  match input with
  | VPair (VU64 x) (VU64 y) => Ok (x, y)
  | VPair _ _ => Err (JTypeMismatch "expected Pair(U64, U64)")
  | _ => Err (JTypeMismatch "expected Pair")
  end.

Definition jet_add64 (input : Value) : jet_result :=
  let? (a, b) := extract_u64_pair input in
  let? r := ok_or (checked_add U64_MAX a b) (JOverflow "add64 overflow") in
  Ok (VU64 r).
Definition jet_sub64 (input : Value) : jet_result :=
  let? (a, b) := extract_u64_pair input in
  let? r := ok_or (checked_sub U64_MAX a b) (JOverflow "sub64 underflow") in
  Ok (VU64 r).
Definition jet_mul64 (input : Value) : jet_result :=
  let? (a, b) := extract_u64_pair input in
  let? r := ok_or (checked_mul U64_MAX a b) (JOverflow "mul64 overflow") in
  Ok (VU64 r).
Definition jet_div64 (input : Value) : jet_result :=
  let? (a, b) := extract_u64_pair input in
  if b =? 0 then Err JDivisionByZero else Ok (VU64 (a / b)).
Definition jet_mod64 (input : Value) : jet_result :=
  let? (a, b) := extract_u64_pair input in
  if b =? 0 then Err JDivisionByZero else Ok (VU64 (a mod b)).
Definition jet_eq64 (input : Value) : jet_result :=
  let? (a, b) := extract_u64_pair input in Ok (VBool (a =? b)).
Definition jet_lt64 (input : Value) : jet_result :=
  let? (a, b) := extract_u64_pair input in Ok (VBool (a <? b)).
Definition jet_gt64 (input : Value) : jet_result :=
  let? (a, b) := extract_u64_pair input in Ok (VBool (b <? a)).

(** ** 256-bit arithmetic *)

Definition extract_u256 (v : Value) : result JetError bytes :=
  ok_or (as_u256 v) (JTypeMismatch "expected U256 or Pair(U64, U64)").
Definition extract_u256_pair (input : Value) : result JetError (bytes * bytes) :=
  match input with
  | VPair a b =>
      let? x := extract_u256 a in
      let? y := extract_u256 b in
      Ok (x, y)
  | _ => Err (JTypeMismatch "expected Pair")
  end.

Definition u256_to_parts (data : bytes) : Z * Z :=
  (be_val (slice data 0 16), be_val (slice data 16 32)).
Definition parts_to_u256 (hi lo : Z) : bytes := be_bytes 16 hi ++ be_bytes 16 lo.

Definition jet_add256 (input : Value) : jet_result :=
  let? (a, b) := extract_u256_pair input in
  let '(ah, al) := u256_to_parts a in
  let '(bh, bl) := u256_to_parts b in
  let lo := (al + bl) mod 2 ^ 128 in
  let carry := U128_MAX <? al + bl in
  let? hi := ok_or (let! h := checked_add U128_MAX ah bh in
                    checked_add U128_MAX h (if carry then 1 else 0)) (JOverflow "add256 overflow") in
  Ok (VU256 (parts_to_u256 hi lo)).

Definition jet_sub256 (input : Value) : jet_result :=
  let? (a, b) := extract_u256_pair input in
  let '(ah, al) := u256_to_parts a in
  let '(bh, bl) := u256_to_parts b in
  let lo := (al - bl) mod 2 ^ 128 in
  let borrow := al <? bl in
  let? hi := ok_or (let! h := checked_sub U128_MAX ah bh in
                    checked_sub U128_MAX h (if borrow then 1 else 0)) (JOverflow "sub256 underflow") in
  Ok (VU256 (parts_to_u256 hi lo)).

(** [cross.is_none()] *)
Definition overflows (o : option Z) : bool := match o with None => true | Some _ => false end.

Definition jet_mul256 (input : Value) : jet_result :=
  let? (a, b) := extract_u256_pair input in
  let '(ah, al) := u256_to_parts a in
  let '(bh, bl) := u256_to_parts b in
  let overflow : jet_result := Err (JOverflow "mul256 overflow") in
  if (0 <? ah) && ((0 <? bh) || (0 <? bl)) && ((0 <? bh) || overflows (checked_mul U128_MAX ah bl))
  then overflow
  else if (0 <? bh) && (0 <? al) && overflows (checked_mul U128_MAX bh al) then overflow
  else
    let? result := ok_or (mul_u256_full a b) (JOverflow "mul256 overflow") in
    Ok (VU256 result).

Definition jet_div256 (input : Value) : jet_result :=
  let? (a, b) := extract_u256_pair input in
  if bool_decide (b = zero32) then Err JDivisionByZero else Ok (VU256 (div_u256 a b)).
Definition jet_mod256 (input : Value) : jet_result :=
  let? (a, b) := extract_u256_pair input in
  if bool_decide (b = zero32) then Err JDivisionByZero else Ok (VU256 (mod_u256 a b)).
Definition jet_eq256 (input : Value) : jet_result :=
  let? (a, b) := extract_u256_pair input in Ok (VBool (bool_decide (a = b))).
Definition jet_lt256 (input : Value) : jet_result :=
  let? (a, b) := extract_u256_pair input in Ok (VBool (cmp_u256 a b <? 0)).
Definition jet_gt256 (input : Value) : jet_result :=
  let? (a, b) := extract_u256_pair input in Ok (VBool (0 <? cmp_u256 a b)).

(** ** Bytes ([bytes.rs]) *)

Definition jet_cat (input : Value) : jet_result :=
  match input with
  | VPair (VBytes x) (VBytes y) => Ok (VBytes (x ++ y))
  | VPair _ _ => Err (JTypeMismatch "cat expects (Bytes, Bytes)")
  | _ => Err (JTypeMismatch "cat expects Pair")
  end.

Definition jet_slice (input : Value) : jet_result :=
  match input with
  | VPair (VBytes bs) (VPair (VU64 start) (VU64 n)) =>
      if len bs <? start then Ok (VBytes [])
      else
        let end_ := Z.min (saturating_add U64_MAX start n) (len bs) in
        Ok (VBytes (slice bs start end_))
  | VPair (VBytes _) (VPair _ _) => Err (JTypeMismatch "slice expects (Bytes, (U64, U64))")
  | VPair _ _ => Err (JTypeMismatch "slice expects (Bytes, Pair)")
  | _ => Err (JTypeMismatch "slice expects Pair")
  end.

Definition jet_len (input : Value) : jet_result :=
  match input with
  | VBytes data => Ok (VU64 (len data))
  | _ => Err (JTypeMismatch "len expects Bytes")
  end.

Definition to_byte_slice (v : Value) : result JetError bytes :=
  match v with
  | VBytes b => Ok b
  | VHash h => Ok h
  | _ => Err (JTypeMismatch "eq_bytes expects Bytes or Hash")
  end.
Definition jet_eq_bytes (input : Value) : jet_result :=
  match input with
  | VPair a b =>
      let? lhs := to_byte_slice a in
      let? rhs := to_byte_slice b in
      Ok (VBool (bool_decide (lhs = rhs)))
  | _ => Err (JTypeMismatch "eq_bytes expects Pair")
  end.

(** ** Lists ([list.rs]) *)

Definition jet_list_len (input : Value) : jet_result :=
  match input with
  | VList items => Ok (VU64 (len items))
  | _ => Err (JTypeMismatch "list_len expects List")
  end.

Definition jet_list_at (input : Value) : jet_result :=
  match input with
  | VPair (VList items) (VU64 i) =>
      match items !! Z.to_nat i with
      | Some v => Ok (Value_some v)
      | None => Ok Value_none
      end
  | VPair _ _ => Err (JTypeMismatch "list_at expects (List, U64)")
  | _ => Err (JTypeMismatch "list_at expects Pair")
  end.

Fixpoint list_sum (items : list Value) (sum : Z) : jet_result :=
  match items with
  | [] => Ok (VU64 sum)
  | VU64 n :: items =>
      let? sum := ok_or (checked_add U64_MAX sum n) (JOverflow "list_sum overflow") in
      list_sum items sum
  | _ :: _ => Err (JTypeMismatch "list_sum expects List(U64)")
  end.
Definition jet_list_sum (input : Value) : jet_result :=
  match input with
  | VList items => list_sum items 0
  | _ => Err (JTypeMismatch "list_sum expects List")
  end.

Fixpoint list_all (items : list Value) : jet_result :=
  match items with
  | [] => Ok (VBool true)
  | item :: items =>
      match as_bool item with
      | Some b => if negb b then Ok (VBool false) else list_all items
      | None => Err (JTypeMismatch "list_all expects List(Bool)")
      end
  end.
Definition jet_list_all (input : Value) : jet_result :=
  match input with
  | VList items => list_all items
  | _ => Err (JTypeMismatch "list_all expects List")
  end.

Fixpoint list_any (items : list Value) : jet_result :=
  match items with
  | [] => Ok (VBool false)
  | item :: items =>
      match as_bool item with
      | Some b => if b then Ok (VBool true) else list_any items
      | None => Err (JTypeMismatch "list_any expects List(Bool)")
      end
  end.
Definition jet_list_any (input : Value) : jet_result :=
  match input with
  | VList items => list_any items
  | _ => Err (JTypeMismatch "list_any expects List")
  end.

Fixpoint list_find (items : list Value) (i : Z) : jet_result :=
  match items with
  | [] => Ok Value_none
  | item :: items =>
      match as_bool item with
      | Some b => if b then Ok (Value_some (VU64 i)) else list_find items (i + 1)
      | None => Err (JTypeMismatch "list_find expects List(Bool)")
      end
  end.
Definition jet_list_find (input : Value) : jet_result :=
  match input with
  | VList items => list_find items 0
  | _ => Err (JTypeMismatch "list_find expects List")
  end.

(** ** Introspection ([introspection.rs]) *)

Definition jet_tx_inputs (c : ScriptContext) : jet_result :=
  Ok (VList (map (fun info =>
    VPair (VHash (ii_prev_tx_id info))
      (VPair (VU64 (ii_output_index info)) (VPair (VU64 (ii_value info)) (VHash (ii_script_hash info)))))
    (tx_inputs c))).
Definition jet_tx_outputs (c : ScriptContext) : jet_result :=
  Ok (VList (map (fun info =>
    VPair (VU64 (oi_value info))
      (VPair (VHash (oi_script_hash info))
         match oi_datum_hash info with Some h => Value_some (VHash h) | None => Value_none end))
    (tx_outputs c))).

Definition jet_tx_value (input : Value) (c : ScriptContext) : jet_result :=
  match input with
  | VU64 idx =>
      let? info := ok_or (tx_inputs c !! Z.to_nat idx) (JOutOfBounds "tx_value index out of bounds") in
      Ok (VU64 (ii_value info))
  | _ => Err (JTypeMismatch "tx_value expects U64")
  end.
Definition jet_tx_script_hash (input : Value) (c : ScriptContext) : jet_result :=
  match input with
  | VU64 idx =>
      let? info := ok_or (tx_inputs c !! Z.to_nat idx) (JOutOfBounds "tx_script_hash index out of bounds") in
      Ok (VHash (ii_script_hash info))
  | _ => Err (JTypeMismatch "tx_script_hash expects U64")
  end.
Definition jet_tx_input_count (c : ScriptContext) : jet_result := Ok (VU64 (len (tx_inputs c))).
Definition jet_tx_output_count (c : ScriptContext) : jet_result := Ok (VU64 (len (tx_outputs c))).
Definition jet_self_index (c : ScriptContext) : jet_result := Ok (VU64 (self_index c)).
Definition jet_block_height (c : ScriptContext) : jet_result := Ok (VU64 (block_height c)).
Definition jet_tx_sig_hash (c : ScriptContext) : jet_result := Ok (VBytes (sig_hash c)).

(** ** Cryptography ([crypto.rs]) *)

(** [curve25519-dalek] and [ed25519-dalek]. *)
Class Ed25519 := {
  ed_point : Type;
  ed_decompress : bytes -> option ed_point;
  ed_is_small_order : ed_point -> bool;
  ed_key : Type;
  ed_key_from_bytes : bytes -> option ed_key;
  ed_verify : ed_key -> bytes -> bytes -> bool
}.

Definition DS_MERKLE : bytes := list_byte_of_string "EXFER-MERKLE".

Section Crypto.
Context `{Sha2} `{Ed25519}.

(** [types/mod.rs] *)
Definition is_weak_ed25519_key (pubkey_bytes : bytes) : bool :=
  match ed_decompress pubkey_bytes with
  | Some point => ed_is_small_order point
  | None => true
  end.

Definition jet_sha256 (input : Value) : jet_result :=
  match input with
  | VBytes data => Ok (VHash (Hash256_sha256 data))
  | _ => Err (JTypeMismatch "sha256 expects Bytes")
  end.

Definition ed25519_verify_zip215 (message pubkey_bytes sig_bytes : bytes) : bool :=
  if negb (len pubkey_bytes =? 32) || negb (len sig_bytes =? 64) then false
  else if is_weak_ed25519_key pubkey_bytes then false
  else
    match ed_key_from_bytes pubkey_bytes with
    | Some vk => ed_verify vk message sig_bytes
    | None => false
    end.

Definition jet_ed25519_verify (input : Value) : jet_result :=
  match input with
  | VPair (VBytes message) (VPair (VBytes pubkey_bytes) (VBytes sig_bytes)) =>
      Ok (VBool (ed25519_verify_zip215 message pubkey_bytes sig_bytes))
  | VPair _ _ => Err (JTypeMismatch "ed25519_verify expects (Bytes, (Bytes, Bytes))")
  | _ => Err (JTypeMismatch "ed25519_verify expects Pair")
  end.

Definition jet_schnorr_verify (_ : Value) : jet_result :=
  Err (JNotImplemented "schnorr_verify is reserved but not yet implemented").

(** [for chunk in proof.chunks_exact(33)]: [None] is [return false]. *)
Fixpoint merkle_walk (chunks : nat) (proof : bytes) (current : Hash256) : option Hash256 :=
  match chunks with
  | O => Some current
  | S chunks =>
      let side := byte_Z (byte_at proof 0) in
      if 1 <? side then None
      else
        let sibling := slice proof 1 33 in
        let combined := if side =? 0 then current ++ sibling else sibling ++ current in
        merkle_walk chunks (slice_from proof 33) (domain_hash DS_MERKLE combined)
  end.
Definition verify_merkle_proof (root leaf : Hash256) (proof : bytes) : bool :=
  if negb (len proof mod 33 =? 0) then false
  else
    match merkle_walk (Z.to_nat (len proof / 33)) proof leaf with
    | Some current => bool_decide (current = root)
    | None => false
    end.

Definition jet_merkle_verify (input : Value) : jet_result :=
  match input with
  | VPair (VHash root_hash) (VPair (VHash leaf_hash) (VBytes proof_bytes)) =>
      Ok (VBool (verify_merkle_proof root_hash leaf_hash proof_bytes))
  | VPair _ _ => Err (JTypeMismatch "merkle_verify expects (Hash, (Hash, Bytes))")
  | _ => Err (JTypeMismatch "merkle_verify expects Pair")
  end.

(** ** Dispatch ([mod.rs]) *)

Definition jet_eval (j : JetId) (input : Value) (c : ScriptContext) : jet_result :=
  match j with
  | JSha256 => jet_sha256 input
  | JEd25519Verify => jet_ed25519_verify input
  | JSchnorrVerify => jet_schnorr_verify input
  | JMerkleVerify => jet_merkle_verify input
  | JAdd64 => jet_add64 input
  | JSub64 => jet_sub64 input
  | JMul64 => jet_mul64 input
  | JDiv64 => jet_div64 input
  | JMod64 => jet_mod64 input
  | JEq64 => jet_eq64 input
  | JLt64 => jet_lt64 input
  | JGt64 => jet_gt64 input
  | JAdd256 => jet_add256 input
  | JSub256 => jet_sub256 input
  | JMul256 => jet_mul256 input
  | JDiv256 => jet_div256 input
  | JMod256 => jet_mod256 input
  | JEq256 => jet_eq256 input
  | JLt256 => jet_lt256 input
  | JGt256 => jet_gt256 input
  | JCat => jet_cat input
  | JSlice => jet_slice input
  | JLen => jet_len input
  | JEqBytes | JEqHash => jet_eq_bytes input
  | JTxInputs => jet_tx_inputs c
  | JTxOutputs => jet_tx_outputs c
  | JTxValue => jet_tx_value input c
  | JTxScriptHash => jet_tx_script_hash input c
  | JTxInputCount => jet_tx_input_count c
  | JTxOutputCount => jet_tx_output_count c
  | JSelfIndex => jet_self_index c
  | JBlockHeight => jet_block_height c
  | JTxSigHash => jet_tx_sig_hash c
  | JListLen => jet_list_len input
  | JListAt => jet_list_at input
  | JListSum => jet_list_sum input
  | JListAll => jet_list_all input
  | JListAny => jet_list_any input
  | JListFind => jet_list_find input
  end.
End Crypto.

Definition jet_type (j : JetId) : SType * SType :=
  match j with
  | JSha256 => (bytes_type, hash256_type)
  | JEd25519Verify => (TProduct bytes_type (TProduct bytes_type bytes_type), bool_type)
  | JSchnorrVerify => (TProduct bytes_type (TProduct bytes_type bytes_type), bool_type)
  | JMerkleVerify => (TProduct hash256_type (TProduct hash256_type bytes_type), bool_type)
  | JAdd64 | JSub64 | JMul64 | JDiv64 | JMod64 => (TProduct u64_type u64_type, u64_type)
  | JEq64 | JLt64 | JGt64 => (TProduct u64_type u64_type, bool_type)
  | JAdd256 | JSub256 | JMul256 | JDiv256 | JMod256 => (TProduct u256_type u256_type, u256_type)
  | JEq256 | JLt256 | JGt256 => (TProduct u256_type u256_type, bool_type)
  | JCat => (TProduct bytes_type bytes_type, bytes_type)
  | JSlice => (TProduct bytes_type (TProduct u64_type u64_type), bytes_type)
  | JLen => (bytes_type, u64_type)
  | JEqBytes => (TProduct bytes_type bytes_type, bool_type)
  | JEqHash => (TProduct hash256_type hash256_type, bool_type)
  | JTxInputs =>
      (TUnit, TList (TProduct hash256_type (TProduct u64_type (TProduct u64_type hash256_type))))
  | JTxOutputs => (TUnit, TList (TProduct u64_type (TProduct hash256_type (TOption hash256_type))))
  | JTxValue => (u64_type, u64_type)
  | JTxScriptHash => (u64_type, hash256_type)
  | JTxInputCount | JTxOutputCount => (TUnit, u64_type)
  | JSelfIndex => (TUnit, u64_type)
  | JBlockHeight => (TUnit, u64_type)
  | JTxSigHash => (TUnit, bytes_type)
  | JListLen => (TList TUnit, u64_type)
  | JListAt => (TProduct (TList TUnit) u64_type, TOption TUnit)
  | JListSum => (TList u64_type, u64_type)
  | JListAll | JListAny => (TList bool_type, bool_type)
  | JListFind => (TList bool_type, TOption u64_type)
  end.

(** Static [(steps, cells)]. *)
Definition jet_cost (j : JetId) : Z * Z :=
  match j with
  | JSha256 => (1000, 1)
  | JEd25519Verify | JSchnorrVerify => (5000, 1)
  | JMerkleVerify => (32000, 1)
  | JAdd64 | JSub64 | JMul64 | JDiv64 | JMod64 | JEq64 | JLt64 | JGt64 => (10, 1)
  | JAdd256 | JSub256 | JMul256 | JDiv256 | JMod256 | JEq256 | JLt256 | JGt256 => (50, 1)
  | JCat | JSlice => (100, 1)
  | JLen => (10, 0)
  | JEqBytes | JEqHash => (500, 0)
  | JTxInputs | JTxOutputs => (1000, 0)
  | JTxValue | JTxScriptHash => (10, 0)
  | JTxInputCount | JTxOutputCount | JSelfIndex | JBlockHeight | JTxSigHash => (5, 0)
  | JListLen => (10, 0)
  | JListAt => (10, 1)
  | JListSum | JListAll | JListAny | JListFind => (1000, 0)
  end.

Definition bytes_len (v : Value) : Z := match v with VBytes d => len d | _ => 0 end.
Definition bytes_or_hash_len (v : Value) : Z :=
  match v with VBytes d => len d | VHash _ => 32 | _ => 0 end.

Definition runtime_cost (j : JetId) (input : Value) (c : ScriptContext) : Z :=
  let sat_add := saturating_add U64_MAX in
  match j with
  | JSha256 => sat_add 500 (bytes_len input / 64 * 8)
  | JMerkleVerify =>
      let proof_len := match input with VPair _ (VPair _ proof) => bytes_len proof | _ => 0 end in
      sat_add 500 (saturating_mul U64_MAX (proof_len / 33) 500)
  | JListSum | JListAll | JListAny | JListFind =>
      sat_add 10 match input with VList items => len items | _ => 0 end
  | JEqHash => 14
  | JEqBytes =>
      let max_len := match input with
                     | VPair a b => Z.max (bytes_or_hash_len a) (bytes_or_hash_len b)
                     | _ => 0 end in
      sat_add 10 (max_len / 8)
  | JCat =>
      let total_len := match input with VPair a b => sat_add (bytes_len a) (bytes_len b) | _ => 0 end in
      sat_add 10 (total_len / 8)
  | JSlice =>
      let src_len := match input with VPair a _ => bytes_len a | _ => 0 end in
      sat_add 10 (src_len / 8)
  | JTxInputs => sat_add 10 (len (tx_inputs c) * 10)
  | JTxOutputs => sat_add 10 (len (tx_outputs c) * 10)
  | JTxSigHash => sat_add 5 (len (sig_hash c) / 64)
  | JEd25519Verify =>
      let msg_len := match input with VPair msg _ => bytes_len msg | _ => 0 end in
      sat_add 5000 (saturating_mul U64_MAX (div_ceil msg_len 64) 8)
  | _ => fst (jet_cost j)
  end.

Definition is_implemented (j : JetId) : bool :=
  match j with JSchnorrVerify => false | _ => true end.

(** ** 256-bit arithmetic is exact *)

Lemma parts_val a :
  len a = 32 ->
  let '(h, l) := u256_to_parts a in
  be_val a = h * 2 ^ 128 + l /\ 0 <= h < 2 ^ 128 /\ 0 <= l < 2 ^ 128.
Proof.
  intros Hl. destruct (split_len a 16) as (h & l & -> & Hh); [lia|].
  assert (len l = 16) as Hl' by len_lia. unfold u256_to_parts.
  rewrite slice_head, slice_tail by lia. rewrite be_val_app, Hl'. pose proof (be_val_range h) as Rh. pose proof (be_val_range l) as Rl.
  rewrite Hh in Rh. rewrite Hl' in Rl. change (256 ^ 16) with (2 ^ 128) in *. done.
Qed.

Lemma parts_bytes h l :
  0 <= h < 2 ^ 128 -> 0 <= l < 2 ^ 128 -> parts_to_u256 h l = be_bytes 32 (h * 2 ^ 128 + l).
Proof.
  intros Hh Hl. apply be_val_inj; [unfold parts_to_u256; len_lia|].
  unfold parts_to_u256. rewrite be_val_app, len_be_bytes.
  rewrite !be_val_bytes; change (256 ^ Z.of_nat 16) with (2 ^ 128); change (256 ^ Z.of_nat 32) with (2 ^ 128 * 2 ^ 128);
    try done. nia.
Qed.

Lemma add256_val a b :
  len a = 32 -> len b = 32 ->
  jet_add256 (VPair (VU256 a) (VU256 b)) =
    if be_val a + be_val b <? 2 ^ 256 then Ok (VU256 (be_bytes 32 (be_val a + be_val b)))
    else Err (JOverflow "add256 overflow").
Proof.
  intros La Lb. unfold jet_add256. cbn [extract_u256_pair extract_u256 as_u256 ok_or].
  pose proof (parts_val a La) as Pa. pose proof (parts_val b Lb) as Pb.
  destruct (u256_to_parts a) as [ah al], (u256_to_parts b) as [bh bl].
  destruct Pa as (-> & Hah & Hal), Pb as (-> & Hbh & Hbl).
  set (M := 2 ^ 128) in *. change U128_MAX with (M - 1).
  replace (2 ^ 256) with (M * M) by reflexivity. unfold checked_add, checked.
  set (c := if M - 1 <? al + bl then 1 else 0).
  assert ((al + bl) mod M = al + bl - c * M) as Hlo.
  { subst c. symmetry. destruct (Z.ltb_spec (M - 1) (al + bl)).
    - apply Z.mod_unique with 1; lia.
    - apply Z.mod_unique with 0; lia. }
  assert (0 <= c <= 1) as Hc by (subst c; destruct (_ <? _); lia).
  assert (0 <= al + bl - c * M < M) as Hlow by (subst c; destruct (Z.ltb_spec (M - 1) (al + bl)); lia).
  rewrite Hlo. destruct (Z.ltb_spec (ah * M + al + (bh * M + bl)) (M * M)) as [Hs|Hs].
  - replace ((0 <=? ah + bh) && (ah + bh <=? M - 1)) with true by nia.
    replace ((0 <=? ah + bh + c) && (ah + bh + c <=? M - 1)) with true by nia. cbn [ok_or].
    rewrite parts_bytes by (subst M; nia). do 3 f_equal. fold M. lia.
  - destruct ((0 <=? ah + bh) && (ah + bh <=? M - 1)) eqn:E1; [|done].
    replace ((0 <=? ah + bh + c) && (ah + bh + c <=? M - 1)) with false by nia. done.
Qed.

Lemma sub256_val a b :
  len a = 32 -> len b = 32 ->
  jet_sub256 (VPair (VU256 a) (VU256 b)) =
    if be_val b <=? be_val a then Ok (VU256 (be_bytes 32 (be_val a - be_val b)))
    else Err (JOverflow "sub256 underflow").
Proof.
  intros La Lb. unfold jet_sub256. cbn [extract_u256_pair extract_u256 as_u256 ok_or].
  pose proof (parts_val a La) as Pa. pose proof (parts_val b Lb) as Pb.
  destruct (u256_to_parts a) as [ah al], (u256_to_parts b) as [bh bl].
  destruct Pa as (-> & Hah & Hal), Pb as (-> & Hbh & Hbl).
  set (M := 2 ^ 128) in *. change U128_MAX with (M - 1). unfold checked_sub, checked.
  set (c := if al <? bl then 1 else 0).
  assert ((al - bl) mod M = al - bl + c * M) as Hlo.
  { subst c. symmetry. destruct (Z.ltb_spec al bl).
    - apply Z.mod_unique with (-1); lia.
    - apply Z.mod_unique with 0; lia. }
  assert (0 <= c <= 1) as Hc by (subst c; destruct (_ <? _); lia).
  assert (0 <= al - bl + c * M < M) as Hlow by (subst c; destruct (Z.ltb_spec al bl); lia).
  rewrite Hlo. destruct (Z.leb_spec (bh * M + bl) (ah * M + al)) as [Hs|Hs].
  - replace ((0 <=? ah - bh) && (ah - bh <=? M - 1)) with true by nia.
    replace ((0 <=? ah - bh - c) && (ah - bh - c <=? M - 1)) with true by nia. cbn [ok_or].
    rewrite parts_bytes by (subst M; nia). do 3 f_equal. fold M. lia.
  - destruct ((0 <=? ah - bh) && (ah - bh <=? M - 1)) eqn:E1; [|done].
    replace ((0 <=? ah - bh - c) && (ah - bh - c <=? M - 1)) with false by nia. done.
Qed.

Lemma checked_mul_overflows max a b : 0 <= a -> 0 <= b -> overflows (checked_mul max a b) = (max <? a * b).
Proof.
  intros Ha Hb. unfold checked_mul, checked. replace (0 <=? a * b) with true by nia.
  destruct (Z.leb_spec (a * b) max), (Z.ltb_spec max (a * b)); simpl; lia || done.
Qed.

Lemma mul256_val a b :
  len a = 32 -> len b = 32 ->
  jet_mul256 (VPair (VU256 a) (VU256 b)) =
    if be_val a * be_val b <? 2 ^ 256 then Ok (VU256 (be_bytes 32 (be_val a * be_val b)))
    else Err (JOverflow "mul256 overflow").
Proof.
  intros La Lb. unfold jet_mul256. cbn [extract_u256_pair extract_u256 as_u256 ok_or].
  rewrite mul_u256_full_val by done.
  pose proof (parts_val a La) as Pa. pose proof (parts_val b Lb) as Pb.
  destruct (u256_to_parts a) as [ah al], (u256_to_parts b) as [bh bl].
  destruct Pa as (-> & Hah & Hal), Pb as (-> & Hbh & Hbl).
  rewrite !checked_mul_overflows by lia. set (M := 2 ^ 128) in *. change U128_MAX with (M - 1).
  replace (2 ^ 256) with (M * M) by reflexivity.
  assert ((ah * M + al) * (bh * M + bl) = ah * bh * (M * M) + (ah * bl + bh * al) * M + al * bl) as E by lia.
  assert (0 <= ah * bh /\ 0 <= ah * bl /\ 0 <= bh * al /\ 0 <= al * bl) as (P1 & P2 & P3 & P4) by nia.
  destruct ((0 <? ah) && ((0 <? bh) || (0 <? bl)) && ((0 <? bh) || (M - 1 <? ah * bl))) eqn:C1.
  { replace (_ <? M * M) with false; [done|]. symmetry. apply Z.ltb_ge. rewrite E.
    destruct (Z.ltb_spec 0 ah), (Z.ltb_spec 0 bh), (Z.ltb_spec 0 bl), (Z.ltb_spec (M - 1) (ah * bl));
      try discriminate C1; nia. }
  destruct ((0 <? bh) && (0 <? al) && (M - 1 <? bh * al)) eqn:C2.
  { replace (_ <? M * M) with false; [done|]. symmetry. apply Z.ltb_ge. rewrite E.
    destruct (Z.ltb_spec 0 bh), (Z.ltb_spec 0 al), (Z.ltb_spec (M - 1) (bh * al)); try discriminate C2; nia. }
  by destruct (_ <? M * M).
Qed.

Lemma zero32_val b : len b = 32 -> b = zero32 <-> be_val b = 0.
Proof.
  intros Hl. split; [intros ->; apply val_zero32|]. intros E. apply be_val_inj; [done|].
  by rewrite E, val_zero32.
Qed.

Lemma div256_val a b :
  len a = 32 -> len b = 32 ->
  jet_div256 (VPair (VU256 a) (VU256 b)) =
    (if be_val b =? 0 then Err JDivisionByZero else Ok (VU256 (be_bytes 32 (be_val a / be_val b)))) /\
  jet_mod256 (VPair (VU256 a) (VU256 b)) =
    (if be_val b =? 0 then Err JDivisionByZero else Ok (VU256 (be_bytes 32 (be_val a mod be_val b)))).
Proof.
  intros La Lb. unfold jet_div256, jet_mod256. cbn [extract_u256_pair extract_u256 as_u256 ok_or].
  rewrite (bool_decide_ext _ (be_val b = 0)) by by apply zero32_val.
  destruct (Z.eqb_spec (be_val b) 0) as [E|E]; [by rewrite !bool_decide_eq_true_2|].
  rewrite !bool_decide_eq_false_2 by done. pose proof (be_val_range b) as Rb. rewrite Lb in Rb.
  destruct (div_u256_val a b La Lb ltac:(lia)) as [Ld Vd]. destruct (mod_u256_val a b La Lb ltac:(lia)) as [Lm Vm].
  rewrite <- Vd, <- Vm, !be_bytes_val by done. done.
Qed.

(** ** Merkle proofs *)

(** One proof step: the side of the current hash and its sibling. *)
Definition proof_step : Type := bool * Hash256.
Definition step_bytes (s : proof_step) : bytes := (if fst s then x01 else x00) :: snd s.
Definition encode_proof (path : list proof_step) : bytes := concat (map step_bytes path).
(** [true]: the current hash is the right child. *)
Definition step_pair (s : proof_step) (current : Hash256) : bytes :=
  if fst s then snd s ++ current else current ++ snd s.

Section MerkleProofs.
Context `{Sha2}.

Definition fold_path (leaf : Hash256) (path : list proof_step) : Hash256 :=
  fold_left (fun cur s => domain_hash DS_MERKLE (step_pair s cur)) path leaf.

(** The strings hashed along the path. *)
Fixpoint path_preimages (leaf : Hash256) (path : list proof_step) : list bytes :=
  match path with
  | [] => []
  | s :: path =>
      domain_preimage DS_MERKLE (step_pair s leaf) ::
      path_preimages (domain_hash DS_MERKLE (step_pair s leaf)) path
  end.

Definition path_wf (path : list proof_step) : Prop := Forall (fun s => hash_wf (snd s)) path.

Lemma len_encode_proof path : path_wf path -> len (encode_proof path) = 33 * len path.
Proof.
  induction 1 as [|s path Hs _ IH]; [done|]. unfold encode_proof in *. simpl. rewrite !len_cons, len_app.
  unfold hash_wf in Hs. lia.
Qed.

Lemma merkle_walk_encode path leaf :
  path_wf path -> merkle_walk (length path) (encode_proof path) leaf = Some (fold_path leaf path).
Proof.
  intros Hwf. revert leaf. induction Hwf as [|[side sib] path Hs _ IH]; intros leaf; [done|].
  simpl in Hs. unfold hash_wf in Hs. unfold encode_proof. cbn [length merkle_walk map concat].
  change (concat (map step_bytes path)) with (encode_proof path).
  unfold step_bytes at 1 2 3 4 5. cbn [fst snd app]. rewrite !byte_at_0.
  change (?x :: sib ++ encode_proof path) with ([x] ++ sib ++ encode_proof path).
  rewrite slice_mid by len_lia.
  rewrite (app_assoc [_] sib), slice_from_app by len_lia. rewrite IH.
  by destruct side.
Qed.

(** What the proof bytes of a walk are. *)
Lemma merkle_walk_decode n proof leaf r :
  len proof = 33 * Z.of_nat n -> merkle_walk n proof leaf = Some r ->
  exists path, path_wf path /\ length path = n /\ proof = encode_proof path /\ r = fold_path leaf path.
Proof.
  revert proof leaf. induction n as [|n IH]; intros proof leaf Hl Hw.
  { injection Hw as <-. exists []. split_and!; try done; [constructor|]. apply len_0. lia. }
  destruct (split_cons proof) as (x & rest & ->); [lia|]. rewrite len_cons in Hl.
  destruct (split_len rest 32) as (sib & rest' & -> & Hs); [lia|].
  cbn [merkle_walk] in Hw. rewrite byte_at_0 in Hw.
  destruct (1 <? byte_Z x) eqn:Hx; [discriminate|]. apply flag_cases in Hx.
  change (x :: sib ++ rest') with ([x] ++ sib ++ rest') in Hw.
  rewrite slice_mid in Hw by len_lia. rewrite (app_assoc [x] sib), slice_from_app in Hw by len_lia.
  apply IH in Hw as (path & Hp & Hn & -> & ->); [|len_lia].
  exists ((byte_Z x =? 1, sib) :: path).
  split_and!; [by constructor|simpl; lia| |]; destruct Hx as [->| ->]; done.
Qed.

Lemma fold_path_inj `{!Sha2Width} p1 p2 l1 l2 :
  hash_wf l1 -> hash_wf l2 -> path_wf p1 -> path_wf p2 -> map fst p1 = map fst p2 ->
  collision_free (path_preimages l1 p1) (path_preimages l2 p2) ->
  fold_path l1 p1 = fold_path l2 p2 -> l1 = l2 /\ p1 = p2.
Proof.
  intros H1 H2 Hp1. revert p2 l1 l2 H1 H2.
  induction Hp1 as [|[s1 b1] p1 Hs1 _ IH]; intros [|[s2 b2] p2] l1 l2 H1 H2 Hp2 Es Hcf E; try done.
  apply Forall_cons in Hp2 as [Hs2 Hp2]. simpl in *. injection Es as -> Es.
  destruct (IH p2 (domain_hash DS_MERKLE (step_pair (s2, b1) l1))
              (domain_hash DS_MERKLE (step_pair (s2, b2) l2))) as [Eh ->];
    try done; try apply domain_hash_wf.
  { intros x y Hx Hy. apply Hcf; by right. }
  unfold domain_hash in Eh. apply Hcf in Eh; [|by left..]. apply domain_preimage_inj_data in Eh.
  unfold step_pair in Eh. cbn [fst snd] in Eh. unfold hash_wf, len in *.
  destruct s2; apply app_inj_1 in Eh as [-> ->]; try done; lia.
Qed.
End MerkleProofs.

(** ** Properties *)

(** The 256-bit arithmetic jets compute on the integers their 32 big-endian
    bytes denote: addition, subtraction and multiplication are exact and report
    overflow or underflow exactly when the result does not fit 256 bits, division
    and remainder are the Euclidean ones and fail exactly on a zero divisor, and
    the comparisons decide the order and the equality of the integers. *)
Theorem jets_256_exact a b :
  len a = 32 -> len b = 32 ->
  let A := be_val a in let B := be_val b in let p := VPair (VU256 a) (VU256 b) in
  jet_add256 p = (if A + B <? 2 ^ 256 then Ok (VU256 (be_bytes 32 (A + B)))
                  else Err (JOverflow "add256 overflow")) /\
  jet_sub256 p = (if B <=? A then Ok (VU256 (be_bytes 32 (A - B)))
                  else Err (JOverflow "sub256 underflow")) /\
  jet_mul256 p = (if A * B <? 2 ^ 256 then Ok (VU256 (be_bytes 32 (A * B)))
                  else Err (JOverflow "mul256 overflow")) /\
  jet_div256 p = (if B =? 0 then Err JDivisionByZero else Ok (VU256 (be_bytes 32 (A / B)))) /\
  jet_mod256 p = (if B =? 0 then Err JDivisionByZero else Ok (VU256 (be_bytes 32 (A mod B)))) /\
  jet_eq256 p = Ok (VBool (A =? B)) /\ jet_lt256 p = Ok (VBool (A <? B)) /\ jet_gt256 p = Ok (VBool (B <? A)).
Proof.
  intros La Lb A B p. subst p. destruct (div256_val a b La Lb) as [Hd Hm].
  split_and!; [by apply add256_val|by apply sub256_val|by apply mul256_val|done|done|..];
    unfold jet_eq256, jet_lt256, jet_gt256; cbn [extract_u256_pair extract_u256 as_u256 ok_or].
  - do 2 f_equal. apply eq_true_iff_eq. rewrite bool_decide_eq_true, Z.eqb_eq.
    split; [by intros ->|]. apply be_val_inj. by rewrite La, Lb.
  - by rewrite cmp_u256_lt by lia.
  - by rewrite cmp_u256_gt by lia.
Qed.

(** Whatever its input, a jet other than [ListAt] that succeeds returns a value
    of the output type the type checker assigns to it ([ListAt] is declared with
    [Unit] as a wildcard for the element type). *)
Theorem jet_output_typed `{Sha2} `{Ed25519} j input c v :
  j <> JListAt -> jet_eval j input c = Ok v -> matches_type v (snd (jet_type j)) = true.
Proof.
  intros Hj Hv. destruct j; try done; cbn [jet_eval] in Hv;
    unfold jet_sha256, jet_ed25519_verify, jet_schnorr_verify, jet_merkle_verify, jet_add64, jet_sub64,
      jet_mul64, jet_div64, jet_mod64, jet_eq64, jet_lt64, jet_gt64, jet_add256, jet_sub256, jet_mul256,
      jet_div256, jet_mod256, jet_eq256, jet_lt256, jet_gt256, jet_cat, jet_slice, jet_len, jet_eq_bytes,
      jet_tx_value, jet_tx_script_hash, jet_list_len in Hv;
    try (repeat first [ inv_step | progress (repeat case_match; simplify_eq) ]; done);
    try (by injection Hv as <-).
  - injection Hv as <-. cbn [snd jet_type]. rewrite matches_list by done. apply forallb_forall.
    intros x (info & <- & _)%in_map_iff. done.
  - injection Hv as <-. cbn [snd jet_type]. rewrite matches_list by done. apply forallb_forall.
    intros x (info & <- & _)%in_map_iff. by destruct (oi_datum_hash info).
  - destruct input as [| | | |vs| | | | |]; try discriminate. simpl in Hv. revert Hv. generalize 0. induction vs as [|w vs IH]; intros s Hv.
    + by injection Hv as <-.
    + cbn [list_sum] in Hv. destruct w; try discriminate. inv_res. eauto.
  - destruct input as [| | | |vs| | | | |]; try discriminate. simpl in Hv. induction vs as [|w vs IH]; [by injection Hv as <-|].
    cbn [list_all] in Hv. destruct (as_bool w) as [[]|]; [eauto|by injection Hv as <-|discriminate].
  - destruct input as [| | | |vs| | | | |]; try discriminate. simpl in Hv. induction vs as [|w vs IH]; [by injection Hv as <-|].
    cbn [list_any] in Hv. destruct (as_bool w) as [[]|]; [by injection Hv as <-|eauto|discriminate].
  - destruct input as [| | | |vs| | | | |]; try discriminate. simpl in Hv. revert Hv. generalize 0.
    induction vs as [|w vs IH]; intros i Hv; [by injection Hv as <-|].
    cbn [list_find] in Hv. destruct (as_bool w) as [[]|]; [by injection Hv as <-|eauto|discriminate].
Qed.

(** Merkle proof verification: a proof is accepted exactly when its bytes are
    the encoding of a path of sides and 32-byte siblings along which the leaf
    hashes to the root. *)
Theorem merkle_proof_correct `{Sha2} root leaf proof :
  verify_merkle_proof root leaf proof = true <->
  exists path, path_wf path /\ proof = encode_proof path /\ fold_path leaf path = root.
Proof.
  unfold verify_merkle_proof. split.
  - destruct (Z.eqb_spec (len proof mod 33) 0) as [Hm|]; [|done]. cbn [negb].
    destruct (merkle_walk _ proof leaf) as [cur|] eqn:Ew; [|done]. intros Hr%bool_decide_eq_true.
    pose proof (len_nonneg proof). apply merkle_walk_decode in Ew as (path & Hp & _ & -> & ->).
    + eauto.
    + rewrite Z2Nat.id by (apply Z.div_pos; lia). pose proof (Z.div_mod (len proof) 33). lia.
  - intros (path & Hp & -> & Hf). rewrite len_encode_proof by done.
    rewrite Z.mul_comm, Z.mod_mul, Z.div_mul by lia. cbn [Z.eqb negb]. rewrite to_nat_len.
    rewrite merkle_walk_encode by done. by apply bool_decide_eq_true.
Qed.

(** Merkle proofs bind: two proofs accepted for the same root that take the
    same turns are proofs of the same leaf with the same siblings, unless two of
    the strings hashed along them collide. *)
Theorem merkle_proof_binding `{Sha2Width} root l1 l2 p1 p2 :
  hash_wf l1 -> hash_wf l2 -> path_wf p1 -> path_wf p2 -> map fst p1 = map fst p2 ->
  collision_free (path_preimages l1 p1) (path_preimages l2 p2) ->
  verify_merkle_proof root l1 (encode_proof p1) = true ->
  verify_merkle_proof root l2 (encode_proof p2) = true -> l1 = l2 /\ p1 = p2.
Proof.
  intros H1 H2 W1 W2 Es Hcf V1 V2.
  assert (forall l p, path_wf p -> verify_merkle_proof root l (encode_proof p) = true -> fold_path l p = root) as Hfold.
  { intros l p W V. unfold verify_merkle_proof in V. rewrite len_encode_proof in V by done.
    rewrite Z.mul_comm, Z.mod_mul, Z.div_mul in V by lia. cbn [Z.eqb negb] in V. rewrite to_nat_len in V.
    rewrite merkle_walk_encode in V by done. by apply bool_decide_eq_true in V. }
  apply fold_path_inj; try done. by rewrite (Hfold l1 p1), (Hfold l2 p2).
Qed.

(** ** Witnesses *)

Lemma jets_256_exact_witness :
  jet_mul256 (VPair (VU256 (be_bytes 32 (2 ^ 127))) (VU256 (be_bytes 32 (2 ^ 128 + 3)))) =
  Ok (VU256 (be_bytes 32 (2 ^ 255 + 3 * 2 ^ 127))).
Proof.
  destruct (jets_256_exact (be_bytes 32 (2 ^ 127)) (be_bytes 32 (2 ^ 128 + 3)))
    as (_ & _ & Hmul & _); [reflexivity|reflexivity|].
  refine (eq_trans Hmul _). vm_compute. reflexivity.
Defined.

#[local] Instance toy_ed25519 : Ed25519 := {|
  ed_point := unit; ed_decompress := fun _ => Some tt; ed_is_small_order := fun _ => false;
  ed_key := unit; ed_key_from_bytes := fun _ => Some tt; ed_verify := fun _ _ _ => true
|}.

Lemma jet_output_typed_witness :
  matches_type (VRight (VU64 1)) (snd (jet_type JListFind)) = true.
Proof.
  apply (@jet_output_typed toy_digest toy_ed25519 JListFind (VList [VBool false; VBool true]) ScriptContext_empty);
    [discriminate | reflexivity].
Defined.

Lemma merkle_proof_binding_witness :
  let leaf := replicate 32 x07 in let path := [(true, replicate 32 x01); (false, replicate 32 x02)] in
  leaf = leaf /\ path = path.
Proof.
  intros leaf path.
  apply (@merkle_proof_binding toy_digest toy_digest_width
           (@fold_path toy_digest leaf path) leaf leaf path path);
    [crush_closed | crush_closed | crush_closed | crush_closed | reflexivity |
     apply (@collision_freeb_ok toy_digest); vm_compute; reflexivity |
     vm_compute; reflexivity | vm_compute; reflexivity].
Defined.
