(* ===== verification/Typecheck.v ===== *)
(** * The type checker ([src/script/typecheck.rs])

    Pass 1 fills a table of types bottom-up, pass 2 pushes resolved types from
    parents into the [Unit] wildcards of their children.  A table entry is an
    [Option<(Type, Type)>] in the source; [in_of]/[out_of] are its [unwrap]s
    (the theorems show that no entry is missing where they are used).

    [typed] states the typing rules on their own, one per combinator, as a
    relation between a node, the types of its children and its own types;
    [well_typed] is a table that follows them.  The checker accepts exactly the
    programs that have such a table. *)

From Stdlib Require Import Strings.String.
From S2P Require Import Prelude Bytes Codec Hash ScriptValue ScriptAst U256 Jets.
#[local] Open Scope Z_scope.
#[local] Open Scope list_scope.

Inductive TypeError :=
| TNodeOutOfBounds (id : Z)
| TCompTypeMismatch (node : Z) (f_out g_in : SType)
| TExpectedProduct (id : Z)
| TExpectedSum (id : Z)
| TCaseBranchMismatch (id : Z)
| TFoldStepMismatch (id : Z)
| TFoldInitMismatch (id : Z)
| TListFoldStepMismatch (id : Z)
| TListFoldInitMismatch (id : Z)
| TCannotTypeCheckHidden (id : Z)
| TInvalidStructure (msg : string)
| TUnresolvedWitness (id : Z).

Record TypedNode := { combinator : Combinator; input_type : SType; output_type : SType }.

Abbreviation type_table := (list (option (SType * SType))).

(** ** Compatibility and inference *)

Fixpoint types_compatible (a b : SType) : bool :=
  if bool_decide (a = b) then true
  else if bool_decide (a = TUnit) || bool_decide (b = TUnit) then true
  else
    match a, b with
    | TSum a1 a2, TSum b1 b2 => types_compatible a1 b1 && types_compatible a2 b2
    | TProduct a1 a2, TProduct b1 b2 => types_compatible a1 b1 && types_compatible a2 b2
    | TList a1, TList b1 => types_compatible a1 b1
    | _, _ => false
    end.

Definition child_types (child : Z) (typed : type_table) : result TypeError (SType * SType) :=
  match typed !! Z.to_nat child with
  | Some (Some t) => Ok t
  | _ => Err (TNodeOutOfBounds child)
  end.

Definition exfer_node_type (id : Z) (node : Combinator) (typed : type_table)
  : result TypeError (SType * SType) :=
  match node with
  | CIden => Ok (TUnit, TUnit)
  | CUnit => Ok (TUnit, TUnit)
  | CComp f g =>
      let? (f_in, f_out) := child_types f typed in
      let? (g_in, g_out) := child_types g typed in
      if negb (types_compatible f_out g_in) then Err (TCompTypeMismatch id f_out g_in)
      else Ok (f_in, g_out)
  | CPair f g =>
      let? (f_in, f_out) := child_types f typed in
      let? (g_in, g_out) := child_types g typed in
      let in_type := if bool_decide (f_in = TUnit) then g_in else f_in in
      Ok (in_type, TProduct f_out g_out)
  | CTake f =>
      let? (f_in, f_out) := child_types f typed in
      Ok (TProduct f_in TUnit, f_out)
  | CDrop f =>
      let? (f_in, f_out) := child_types f typed in
      Ok (TProduct TUnit f_in, f_out)
  | CInjL f =>
      let? (f_in, f_out) := child_types f typed in
      Ok (f_in, TSum f_out TUnit)
  | CInjR f =>
      let? (f_in, f_out) := child_types f typed in
      Ok (f_in, TSum TUnit f_out)
  | CCase f g =>
      let? (f_in, f_out) := child_types f typed in
      let? (g_in, g_out) := child_types g typed in
      if negb (types_compatible f_out g_out) then Err (TCaseBranchMismatch id)
      else
        let out := if bool_decide (f_out = TUnit) then g_out else f_out in
        Ok (TSum f_in g_in, out)
  | CFold f z k =>
      let? (f_in, f_out) := child_types f typed in
      let? (z_in, z_out) := child_types z typed in
      if negb (types_compatible f_out z_out) then Err (TFoldInitMismatch id)
      else
        let? _ := match f_in with
                  | TProduct a b =>
                      if negb (types_compatible a z_in) then Err (TFoldStepMismatch id)
                      else if negb (types_compatible b z_out) then Err (TFoldStepMismatch id)
                      else Ok tt
                  | TUnit => Ok tt
                  | _ => Err (TFoldStepMismatch id)
                  end in
        let b_type := if bool_decide (z_out = TUnit) then f_out else z_out in
        Ok (TProduct (TBound k) z_in, b_type)
  | CListFold f z =>
      let? (f_in, f_out) := child_types f typed in
      let? (z_in, z_out) := child_types z typed in
      if negb (types_compatible f_out z_out) then Err (TListFoldInitMismatch id)
      else
        let? elem_type := match f_in with
                          | TProduct a _ => Ok a
                          | TUnit => Ok TUnit
                          | _ => Err (TListFoldStepMismatch id)
                          end in
        let b_type := if bool_decide (z_out = TUnit) then f_out else z_out in
        Ok (TProduct (TList elem_type) z_in, b_type)
  | CJet jet_id => Ok (jet_type jet_id)
  | CWitness => Ok (TUnit, TUnit)
  | CMerkleHidden _ => Ok (TUnit, TUnit)
  | CConst v => Ok (TUnit, infer_type v)
  end.

(** ** Refinement *)

Fixpoint refine_deep (slot resolved : SType) : SType :=
  if bool_decide (slot = TUnit) && negb (bool_decide (resolved = TUnit)) then resolved
  else
    match slot, resolved with
    | TProduct a1 a2, TProduct b1 b2 => TProduct (refine_deep a1 b1) (refine_deep a2 b2)
    | TSum a1 a2, TSum b1 b2 => TSum (refine_deep a1 b1) (refine_deep a2 b2)
    | TList a, TList b => TList (refine_deep a b)
    | _, _ => slot
    end.

Definition has_refinable_output (node : Combinator) : bool :=
  match node with CUnit | CConst _ | CJet _ => false | _ => true end.

(** [typed[i].as_ref().unwrap().0] and [.1] *)
Definition in_of (typed : type_table) (i : Z) : SType :=
  match typed !! Z.to_nat i with Some (Some (t, _)) => t | _ => TUnit end.
Definition out_of (typed : type_table) (i : Z) : SType :=
  match typed !! Z.to_nat i with Some (Some (_, t)) => t | _ => TUnit end.
(** [if let Some((ref mut t, _)) = typed[i] { refine_deep(t, with) }] and the
    same for the output *)
Definition refine_in (i : Z) (resolved : SType) (typed : type_table) : type_table :=
  alter (fmap (fun '(a, b) => (refine_deep a resolved, b))) (Z.to_nat i) typed.
Definition refine_out (i : Z) (resolved : SType) (typed : type_table) : type_table :=
  alter (fmap (fun '(a, b) => (a, refine_deep b resolved))) (Z.to_nat i) typed.
(** [if has_refinable_output(&nodes[i]) { ... }] *)
Definition refine_out_if (ns : list Combinator) (i : Z) (resolved : SType) (typed : type_table) : type_table :=
  if has_refinable_output (default CUnit (ns !! Z.to_nat i)) then refine_out i resolved typed else typed.

Definition refine_children (ns : list Combinator) (node_idx : nat) (typed : type_table) : type_table :=
  match default CUnit (ns !! node_idx) with
  | CComp f g =>
      let g_in := in_of typed g in
      let f_out := out_of typed f in
      let typed := refine_out_if ns f g_in typed in
      refine_in g f_out typed
  | CPair f g =>
      let f_in := in_of typed f in
      let g_in := in_of typed g in
      let typed := refine_in f g_in typed in
      let typed := refine_in g f_in typed in
      let pair_in := in_of typed (Z.of_nat node_idx) in
      let typed :=
        if negb (bool_decide (pair_in = TUnit))
        then refine_in g pair_in (refine_in f pair_in typed) else typed in
      match out_of typed (Z.of_nat node_idx) with
      | TProduct a b => refine_out_if ns g b (refine_out_if ns f a typed)
      | _ => typed
      end
  | CCase f g =>
      let f_out := out_of typed f in
      let g_out := out_of typed g in
      refine_out_if ns g f_out (refine_out_if ns f g_out typed)
  | CFold f z _ | CListFold f z =>
      let f_out := out_of typed f in
      let z_out := out_of typed z in
      refine_out_if ns z f_out (refine_out_if ns f z_out typed)
  | _ => typed
  end.

(** ** The two passes *)

Definition infer_pass (p : Program) : result TypeError type_table :=
  let n := length (nodes p) in
  rev_fill_for (fun i typed =>
    let? t := exfer_node_type (Z.of_nat i) (default CUnit (nodes p !! i)) typed in
    Ok (Some t)) n (replicate n None).

Definition refine_pass (p : Program) (typed : type_table) : type_table :=
  fwd_iter (refine_children (nodes p)) 0 (length (nodes p)) typed.

Fixpoint build_result (i : Z) (ns : list Combinator) (typed : type_table)
  : result TypeError (list TypedNode) :=
  match ns with
  | [] => Ok []
  | node :: ns =>
      let? (it, ot) := ok_or (match typed with t :: _ => t | [] => None end) (TUnresolvedWitness i) in
      let? rest := build_result (i + 1) ns (tail typed) in
      Ok ({| combinator := node; input_type := it; output_type := ot |} :: rest)
  end.

Definition typecheck (p : Program) : result TypeError (list TypedNode) :=
  let? _ := map_err TInvalidStructure (validate_structure p) in
  let? typed := infer_pass p in
  build_result 0 (nodes p) (refine_pass p typed).

(** ** The typing rules *)

(** Two types are compatible when they differ only where one of them is the
    [Unit] wildcard. *)
Inductive compatible : SType -> SType -> Prop :=
| compat_same t : compatible t t
| compat_wild_l t : compatible TUnit t
| compat_wild_r t : compatible t TUnit
| compat_sum a1 a2 b1 b2 : compatible a1 b1 -> compatible a2 b2 -> compatible (TSum a1 a2) (TSum b1 b2)
| compat_product a1 a2 b1 b2 :
    compatible a1 b1 -> compatible a2 b2 -> compatible (TProduct a1 a2) (TProduct b1 b2)
| compat_list a b : compatible a b -> compatible (TList a) (TList b).

(** [prefers a b c]: [c] is [a], or [b] where [a] is the wildcard. *)
Inductive prefers (a b : SType) : SType -> Prop :=
| prefers_first : a <> TUnit -> prefers a b a
| prefers_second : a = TUnit -> prefers a b b.

(** The step of a bounded fold takes the product of an element and the
    accumulator, or is still a wildcard. *)
Inductive fold_step (z_in z_out : SType) : SType -> Prop :=
| fold_step_product a b :
    compatible a z_in -> compatible b z_out -> fold_step z_in z_out (TProduct a b)
| fold_step_wild : fold_step z_in z_out TUnit.

(** The element a list fold runs over. *)
Inductive list_step : SType -> SType -> Prop :=
| list_step_product a b : list_step (TProduct a b) a
| list_step_wild : list_step TUnit TUnit.

(** [typed T node a b]: over a table [T] of the types of its children, [node] is
    a function from [a] to [b].  One rule per combinator. *)
Inductive typed (T : list (SType * SType)) : Combinator -> SType -> SType -> Prop :=
| typed_iden : typed T CIden TUnit TUnit
| typed_unit : typed T CUnit TUnit TUnit
| typed_witness : typed T CWitness TUnit TUnit
| typed_hidden h : typed T (CMerkleHidden h) TUnit TUnit
| typed_const v : typed T (CConst v) TUnit (infer_type v)
| typed_jet j a b : jet_type j = (a, b) -> typed T (CJet j) a b
| typed_comp f g a b b' c :
    T !! Z.to_nat f = Some (a, b) -> T !! Z.to_nat g = Some (b', c) -> compatible b b' ->
    typed T (CComp f g) a c
| typed_pair f g a a' i b c :
    T !! Z.to_nat f = Some (a, b) -> T !! Z.to_nat g = Some (a', c) -> prefers a a' i ->
    typed T (CPair f g) i (TProduct b c)
| typed_take f a b : T !! Z.to_nat f = Some (a, b) -> typed T (CTake f) (TProduct a TUnit) b
| typed_drop f a b : T !! Z.to_nat f = Some (a, b) -> typed T (CDrop f) (TProduct TUnit a) b
| typed_injl f a b : T !! Z.to_nat f = Some (a, b) -> typed T (CInjL f) a (TSum b TUnit)
| typed_injr f a b : T !! Z.to_nat f = Some (a, b) -> typed T (CInjR f) a (TSum TUnit b)
| typed_case f g a b c c' o :
    T !! Z.to_nat f = Some (a, c) -> T !! Z.to_nat g = Some (b, c') -> compatible c c' -> prefers c c' o ->
    typed T (CCase f g) (TSum a b) o
| typed_fold f z k s f_out z_in z_out o :
    T !! Z.to_nat f = Some (s, f_out) -> T !! Z.to_nat z = Some (z_in, z_out) ->
    compatible f_out z_out -> fold_step z_in z_out s -> prefers z_out f_out o ->
    typed T (CFold f z k) (TProduct (TBound k) z_in) o
| typed_list_fold f z s f_out z_in z_out e o :
    T !! Z.to_nat f = Some (s, f_out) -> T !! Z.to_nat z = Some (z_in, z_out) ->
    compatible f_out z_out -> list_step s e -> prefers z_out f_out o ->
    typed T (CListFold f z) (TProduct (TList e) z_in) o.

(** A table types a program when every node's entry follows from its rule. *)
Definition well_typed (p : Program) (T : list (SType * SType)) : Prop :=
  length T = length (nodes p) /\
  forall i node, nodes p !! i = Some node ->
    exists a b, T !! i = Some (a, b) /\ typed T node a b.

Create HintDb types.
#[export] Hint Constructors compatible prefers fold_step list_step typed : types.

Lemma types_compatible_spec a b : types_compatible a b = true <-> compatible a b.
Proof.
  split.
  - revert b. induction a; intros b Hc; cbn [types_compatible] in Hc; repeat case_bool_decide;
      subst; simpl in *; auto with types; destruct b; try done; auto with types;
      apply andb_prop in Hc as [? ?]; auto with types.
  - induction 1 as [t|t|t|? ? ? ? _ IH1 _ IH2|? ? ? ? _ IH1 _ IH2|? ? _ IH]; cbn [types_compatible].
    + destruct t; cbn [types_compatible]; by rewrite bool_decide_true.
    + by destruct (bool_decide _).
    + destruct t; cbn [types_compatible]; repeat case_bool_decide; done.
    + rewrite IH1, IH2. by repeat destruct (bool_decide _).
    + rewrite IH1, IH2. by repeat destruct (bool_decide _).
    + rewrite IH. by repeat destruct (bool_decide _).
Qed.
Lemma types_incompatible a b : compatible a b -> negb (types_compatible a b) = false.
Proof. intros Hc. by rewrite (proj2 (types_compatible_spec a b) Hc). Qed.

Lemma prefers_spec a b c : prefers a b c <-> c = if bool_decide (a = TUnit) then b else a.
Proof.
  split; [by destruct 1; case_bool_decide|]. intros ->. case_bool_decide; auto with types.
Qed.

Lemma child_types_Some T c t :
  T !! Z.to_nat c = Some t -> child_types c (Some <$> T) = Ok t.
Proof. intros Hc. unfold child_types. by rewrite list_lookup_fmap, Hc. Qed.
Lemma child_types_Ok T c t :
  child_types c (Some <$> T) = Ok t -> T !! Z.to_nat c = Some t.
Proof.
  unfold child_types. rewrite list_lookup_fmap. by destruct (T !! Z.to_nat c); simpl; [injection 1 as ->|].
Qed.

(** The inference of one node computes what its rule derives. *)
Lemma exfer_typed id node T a b :
  exfer_node_type id node (Some <$> T) = Ok (a, b) <-> typed T node a b.
Proof.
  split.
  - intros Hx. destruct node; cbn [exfer_node_type] in Hx; inv_res; repeat case_match; simplify_eq; inv_res;
      repeat match goal with
      | H : child_types _ _ = Ok _ |- _ => apply child_types_Ok in H
      | H : negb (types_compatible _ _) = false |- _ => apply negb_false_iff, types_compatible_spec in H
      end; eauto with types.
    all: econstructor; try apply prefers_spec; eauto with types; by case_bool_decide.
  - destruct 1; cbn [exfer_node_type]; auto;
      repeat match goal with H : T !! _ = Some _ |- _ => apply child_types_Some in H; rewrite H; clear H end;
      cbn [mbind]; rewrite ?types_incompatible by done.
    all: try match goal with H : prefers _ _ _ |- _ => apply prefers_spec in H; subst end; try done.
    + by f_equal.
    + destruct H2; simpl; rewrite ?types_incompatible by done; done.
    + destruct H2; done.
Qed.

(** ** Refinement only resolves wildcards *)

(** [refines a b]: [b] is [a] with some [Unit] positions replaced. *)
Inductive refines : SType -> SType -> Prop :=
| refines_refl t : refines t t
| refines_unit t : refines TUnit t
| refines_sum a1 a2 b1 b2 : refines a1 b1 -> refines a2 b2 -> refines (TSum a1 a2) (TSum b1 b2)
| refines_product a1 a2 b1 b2 : refines a1 b1 -> refines a2 b2 -> refines (TProduct a1 a2) (TProduct b1 b2)
| refines_list a b : refines a b -> refines (TList a) (TList b).
#[export] Hint Constructors refines : types.

Lemma refines_trans a b c : refines a b -> refines b c -> refines a c.
Proof.
  intros Hab. revert c. induction Hab; intros c Hbc; auto with types;
    inversion Hbc; subst; auto with types.
Qed.
#[export] Instance refines_preorder : PreOrder refines.
Proof. split; [intros t; apply refines_refl | intros a b c; apply refines_trans]. Qed.

Lemma refine_deep_refines slot resolved : refines slot (refine_deep slot resolved).
Proof.
  revert resolved. induction slot; intros resolved; cbn [refine_deep]; destruct (_ && _) eqn:E;
    try (apply andb_prop in E as [E _]; by apply bool_decide_eq_true in E); auto with types;
    destruct resolved; auto with types.
Qed.
#[export] Hint Resolve refine_deep_refines : types.

(** Tables: entrywise, on both components. *)
Definition entry_refines (x y : option (SType * SType)) : Prop :=
  match x, y with
  | None, None => True
  | Some (a, b), Some (a', b') => refines a a' /\ refines b b'
  | _, _ => False
  end.
Definition table_refines : type_table -> type_table -> Prop := Forall2 entry_refines.

#[export] Instance entry_refines_preorder : PreOrder entry_refines.
Proof.
  split.
  - intros [[a b]|]; [|done]. split; reflexivity.
  - intros [[a b]|] [[a' b']|] [[a'' b'']|]; try done. intros [H1 H2] [H3 H4].
    split; by etransitivity.
Qed.
#[export] Instance table_refines_preorder : PreOrder table_refines.
Proof. unfold table_refines. apply _. Qed.

Lemma alter_refines g i T :
  (forall a b, refines a (fst (g (a, b))) /\ refines b (snd (g (a, b)))) ->
  table_refines T (alter (fmap g) i T).
Proof.
  intros Hg. revert i. induction T as [|e T IH]; intros [|i]; simpl; [done..| |].
  - constructor; [|reflexivity]. destruct e as [[a b]|]; [|done]. simpl. destruct (g (a, b)) as [a' b'] eqn:E.
    specialize (Hg a b). by rewrite E in Hg.
  - constructor; [reflexivity|]. apply IH.
Qed.
Lemma refine_in_refines i t T : table_refines T (refine_in i t T).
Proof. apply alter_refines. intros. simpl. auto with types. Qed.
Lemma refine_out_refines i t T : table_refines T (refine_out i t T).
Proof. apply alter_refines. intros. simpl. auto with types. Qed.
Lemma refine_out_if_refines ns i t T : table_refines T (refine_out_if ns i t T).
Proof. unfold refine_out_if. destruct (has_refinable_output _); [apply refine_out_refines|reflexivity]. Qed.

(** One step of a chain of table updates. *)
Ltac refine_chain :=
  repeat first
    [ reflexivity
    | etransitivity; [|apply refine_in_refines]
    | etransitivity; [|apply refine_out_if_refines]
    | case_match ].

Lemma refine_children_refines ns i T : table_refines T (refine_children ns i T).
Proof. unfold refine_children. destruct (default CUnit (ns !! i)); cbv zeta; refine_chain. Qed.

Lemma refine_pass_refines p T : table_refines T (refine_pass p T).
Proof.
  unfold refine_pass. generalize 0%nat (length (nodes p)). intros i n. revert i T.
  induction n as [|n IH]; intros i T; simpl; [reflexivity|].
  etransitivity; [apply (refine_children_refines (nodes p) i)|apply IH].
Qed.

(** ** Fixed outputs are never refined *)

Definition fixed_kept (ns : list Combinator) (T T' : type_table) : Prop :=
  forall i node, ns !! i = Some node -> has_refinable_output node = false ->
    out_of T' (Z.of_nat i) = out_of T (Z.of_nat i).

#[export] Instance fixed_kept_preorder ns : PreOrder (fixed_kept ns).
Proof.
  split; [done|]. intros T1 T2 T3 H1 H2 i node Hi Hr. by rewrite (H2 i node), (H1 i node).
Qed.

Lemma out_of_alter g i k T :
  (forall a b, snd (g (a, b)) = b) -> out_of (alter (fmap g) i T) k = out_of T k.
Proof.
  intros Hg. unfold out_of. destruct (decide (i = Z.to_nat k)) as [->|].
  - rewrite list_lookup_alter_eq. destruct (T !! Z.to_nat k) as [[[a b]|]|]; simpl; try done.
    specialize (Hg a b). by destruct (g (a, b)).
  - by rewrite list_lookup_alter_ne.
Qed.
Lemma refine_in_kept ns i t T : fixed_kept ns T (refine_in i t T).
Proof. intros k node _ _. by apply out_of_alter. Qed.
Lemma refine_out_if_kept ns i t T : fixed_kept ns T (refine_out_if ns i t T).
Proof.
  intros k node Hk Hr. unfold refine_out_if.
  destruct (has_refinable_output (default _ _)) eqn:E; [|done]. unfold out_of, refine_out.
  rewrite list_lookup_alter_ne; [done|]. intros Ei. rewrite Ei, Nat2Z.id, Hk in E. simpl in E. congruence.
Qed.

Ltac kept_chain :=
  repeat first
    [ reflexivity
    | etransitivity; [|apply refine_in_kept]
    | etransitivity; [|apply refine_out_if_kept]
    | case_match ].

Lemma refine_pass_kept p T : fixed_kept (nodes p) T (refine_pass p T).
Proof.
  unfold refine_pass. generalize 0%nat (length (nodes p)). intros i n. revert i T.
  induction n as [|n IH]; intros i T; simpl; [reflexivity|].
  transitivity (refine_children (nodes p) i T); [|apply IH].
  unfold refine_children. destruct (default CUnit (nodes p !! i)); cbv zeta; kept_chain.
Qed.

(** ** Pass 1 *)

(** The errors that report an ill-typed program. *)
Definition is_mismatch (e : TypeError) : bool :=
  match e with
  | TCompTypeMismatch _ _ _ | TCaseBranchMismatch _ | TFoldStepMismatch _ | TFoldInitMismatch _
  | TListFoldStepMismatch _ | TListFoldInitMismatch _ => true
  | _ => false
  end.

Lemma exfer_children id node T T' :
  (forall c, c ∈ children_of node -> T !! Z.to_nat c = T' !! Z.to_nat c) ->
  exfer_node_type id node T = exfer_node_type id node T'.
Proof.
  intros Hc. assert (forall c, c ∈ children_of node -> child_types c T = child_types c T') as Hct.
  { intros c Hin. unfold child_types. by rewrite Hc. }
  destruct node; cbn [children_of exfer_node_type] in *; rewrite ?Hct by set_solver; done.
Qed.

Definition filled (T : type_table) (c : Z) : Prop := exists t, T !! Z.to_nat c = Some (Some t).

Lemma exfer_err id node T e :
  (forall c, c ∈ children_of node -> filled T c) ->
  exfer_node_type id node T = Err e -> is_mismatch e = true.
Proof.
  intros Hc. assert (forall c, c ∈ children_of node -> exists t, child_types c T = Ok t) as Hct.
  { intros c Hin. destruct (Hc c Hin) as [t Ht]. exists t. unfold child_types. by rewrite Ht. }
  destruct node; cbn [children_of exfer_node_type] in *; try done;
    repeat match goal with
    | H : forall c, c ∈ ?x :: ?l -> _ |- _ =>
        destruct (H x ltac:(set_solver)) as [[? ?] ->];
        assert (forall c, c ∈ l -> exists t, child_types c T = Ok t) by (intros; apply H; set_solver); clear H
    end; intros He; repeat case_match; simplify_eq; done.
Qed.

Lemma all_filled {A} (l : list (option A)) :
  (forall i, (i < length l)%nat -> exists x, l !! i = Some (Some x)) -> exists l', l = Some <$> l'.
Proof.
  induction l as [|o l IH]; intros Hl; [by exists []|].
  destruct (Hl 0%nat) as [x Hx]; [simpl; lia|]. destruct IH as [l' ->].
  { intros i Hi. apply (Hl (S i)). simpl. lia. }
  exists (x :: l'). by injection Hx as ->.
Qed.

Section Infer.
Context (p : Program) (Hdag : dag (nodes p)).

Let f := fun (i : nat) (typed : type_table) =>
  let? t := exfer_node_type (Z.of_nat i) (default CUnit (nodes p !! i)) typed in
  Ok (E := TypeError) (Some t).

Lemma infer_above i arr arr' :
  length arr = length arr' -> (forall j, (i < j)%nat -> arr !! j = arr' !! j) -> f i arr = f i arr'.
Proof.
  intros _ Habove. unfold f. destruct (nodes p !! i) as [node|] eqn:E; [|done]. simpl.
  rewrite (exfer_children _ node arr arr'); [done|].
  intros c Hc. specialize (Hdag _ _ _ E Hc). apply Habove. lia.
Qed.

(** The table of pass 1 satisfies the typing rules. *)
Lemma infer_pass_spec T :
  infer_pass p = Ok T ->
  length T = length (nodes p) /\
  forall i node, nodes p !! i = Some node ->
    exists t, exfer_node_type (Z.of_nat i) node T = Ok t /\ T !! i = Some (Some t).
Proof.
  intros HT. split; [apply rev_fill_for_keep in HT as [-> _]; apply length_replicate|].
  intros i node Hi. pose proof (lookup_lt_Some _ _ _ Hi) as Hlt.
  destruct (rev_fill_for_spec f infer_above _ _ _ HT) with i as (x & Hx & HTi);
    [by rewrite length_replicate|done|].
  unfold f in Hx. rewrite Hi in Hx. simpl in Hx. inv_res. eauto.
Qed.

(** A table that follows the rules is the one pass 1 computes. *)
Lemma infer_pass_complete TT : well_typed p TT -> infer_pass p = Ok (Some <$> TT).
Proof.
  intros [Hl HT]. unfold infer_pass. apply (rev_fill_for_complete f infer_above).
  - by rewrite length_replicate, length_fmap.
  - by rewrite length_fmap, Hl.
  - intros j Hj. rewrite !lookup_ge_None_2; [done| |]; rewrite ?length_fmap, ?length_replicate; lia.
  - intros i Hi. destruct (lookup_lt_is_Some_2 _ _ Hi) as [node Hn].
    destruct (HT i node Hn) as (a & b & Hi' & Ht). exists (Some (a, b)). split.
    + unfold f. rewrite Hn. cbn [default]. by rewrite (proj2 (exfer_typed _ _ _ _ _) Ht).
    + by rewrite list_lookup_fmap, Hi'.
Qed.

(** Pass 1 computes a table that follows the rules. *)
Lemma infer_pass_typed T : infer_pass p = Ok T -> exists TT, T = Some <$> TT /\ well_typed p TT.
Proof.
  intros HT. destruct (infer_pass_spec T HT) as [Hl Hs].
  assert (exists TT, T = Some <$> TT) as [TT ->].
  { apply all_filled. intros i Hi. rewrite Hl in Hi. destruct (lookup_lt_is_Some_2 _ _ Hi) as [node Hn].
    destruct (Hs i node Hn) as (t & _ & ?). eauto. }
  exists TT. split; [done|]. split; [by rewrite length_fmap in Hl|]. intros i node Hn.
  destruct (Hs i node Hn) as ([a b] & Hx & Hi). exists a, b. split; [|by eapply exfer_typed].
  rewrite list_lookup_fmap in Hi. destruct (TT !! i); [by injection Hi as ->|done].
Qed.

Lemma infer_pass_err e : infer_pass p = Err e -> is_mismatch e = true.
Proof.
  intros He. apply rev_fill_for_err in He as (i & T & Hi & He & Hl & _ & Hfill).
  destruct (lookup_lt_is_Some_2 _ _ Hi) as [node En]. rewrite En in He. simpl in He.
  destruct (exfer_node_type _ node T) as [t|e'] eqn:Ex; [discriminate|]. injection He as ->.
  apply exfer_err in Ex; [done|]. intros c Hc. specialize (Hdag _ _ _ En Hc). unfold len in Hdag.
  destruct (Hfill (Z.to_nat c)) as (x & T' & Hx & HT); [lia|by rewrite length_replicate|].
  destruct (exfer_node_type _ _ T') as [t|]; [|discriminate]. injection Hx as <-. by exists t.
Qed.
End Infer.

(** ** The result *)

Lemma build_result_spec i ns T :
  length T = length ns -> (forall k, (k < length ns)%nat -> exists t, T !! k = Some (Some t)) ->
  exists ts, build_result i ns T = Ok ts /\ length ts = length ns /\
    forall k node it ot, ns !! k = Some node -> T !! k = Some (Some (it, ot)) ->
      ts !! k = Some {| combinator := node; input_type := it; output_type := ot |}.
Proof.
  revert i T. induction ns as [|node ns IH]; intros i T Hl HT; simpl.
  { exists []. done. }
  destruct T as [|e T]; [done|]. destruct (HT 0%nat) as [[it ot] He]; [simpl; lia|]. injection He as ->.
  simpl. destruct (IH (i + 1) T) as (ts & Ets & Hlen & Hts).
  { simpl in Hl. lia. }
  { intros k Hk. apply (HT (S k)). simpl. lia. }
  rewrite Ets. eexists. split; [done|]. split; [simpl; lia|].
  intros [|k] n' it' ot' Hn HTk; simpl in *; [by simplify_eq|]. by apply Hts.
Qed.

Lemma table_refines_filled T T' i t :
  table_refines T T' -> T !! i = Some (Some t) ->
  exists t', T' !! i = Some (Some t') /\ refines (fst t) (fst t') /\ refines (snd t) (snd t').
Proof.
  intros HT Hi. destruct (Forall2_lookup_l _ _ _ _ _ HT Hi) as (e & He & Hr).
  destruct t as [a b], e as [[a' b']|]; [|done]. destruct Hr as [Ha Hb]. by exists (a', b').
Qed.

Lemma typecheck_split p :
  validate_structure p = Ok tt ->
  (exists e, infer_pass p = Err e /\ typecheck p = Err e) \/
  (exists T ts, infer_pass p = Ok T /\ typecheck p = Ok ts /\ length ts = length (nodes p) /\
     forall i node, nodes p !! i = Some node ->
       exists t it ot, exfer_node_type (Z.of_nat i) node T = Ok t /\ T !! i = Some (Some t) /\
         ts !! i = Some {| combinator := node; input_type := it; output_type := ot |} /\
         refines (fst t) it /\ refines (snd t) ot /\
         (has_refinable_output node = false -> ot = snd t)).
Proof.
  intros Hv. pose proof (valid_dag p Hv) as Hd. unfold typecheck. rewrite Hv. cbn [map_err].
  destruct (infer_pass p) as [T|e] eqn:EI; [right|left; eauto].
  destruct (infer_pass_spec p Hd T EI) as [Hl HT]. pose proof (refine_pass_refines p T) as Hr.
  pose proof (Forall2_length _ _ _ Hr) as Hlr.
  destruct (build_result_spec 0 (nodes p) (refine_pass p T)) as (ts & Ets & Hlen & Hts).
  { lia. }
  { intros k Hk. destruct (lookup_lt_is_Some_2 _ _ Hk) as [node En].
    destruct (HT k node En) as (t & _ & HTk). destruct (table_refines_filled _ _ _ _ Hr HTk) as (t' & Ht' & _).
    eauto. }
  exists T, ts. split_and!; [done|done|done|]. intros i node Hi. destruct (HT i node Hi) as (t & Ht & HTi).
  destruct (table_refines_filled _ _ _ _ Hr HTi) as ([it ot] & Hti & Hin & Hout).
  exists t, it, ot. split_and!; try done; [by apply Hts|].
  intros Hfix. pose proof (refine_pass_kept p T i node Hi Hfix) as Hk. unfold out_of in Hk.
  rewrite Nat2Z.id, Hti, HTi in Hk. by destruct t.
Qed.

Lemma typecheck_valid p ts : typecheck p = Ok ts -> validate_structure p = Ok tt.
Proof. unfold typecheck. by destruct (validate_structure p) as [[]|]. Qed.

(** ** Properties *)

(** The type checker is total on valid programs: on a program that passes
    [validate_structure] it returns one typed node per node, or a mismatch error
    of one of the typing rules; it never reports a missing node or an unresolved
    entry. *)
Theorem typecheck_total p :
  validate_structure p = Ok tt ->
  (exists ts, typecheck p = Ok ts /\ map combinator ts = nodes p) \/
  (exists e, typecheck p = Err e /\ is_mismatch e = true).
Proof.
  intros Hv. destruct (typecheck_split p Hv) as [(e & He & Ht)|(T & ts & HT & Ht & Hlen & Hts)].
  - right. exists e. split; [done|]. by apply (infer_pass_err p (valid_dag p Hv)).
  - left. exists ts. split; [done|]. apply list_eq_same_length with (length (nodes p));
      [done|by rewrite length_map|]. intros i x y Hi Hx Hy.
    destruct (Hts i y Hy) as (t & it & ot & _ & _ & Hti & _). rewrite list_lookup_fmap, Hti in Hx.
    by injection Hx as <-.
Qed.

(** C40: What the type checker accepts and reports.  It accepts a program exactly
    when the program is structurally valid and there is a table of types that
    follows from the typing rules, one rule per combinator with [Unit] as the
    wildcard of compatibility.  There is then only one such table, and the types
    reported for a node are its entry with nothing but [Unit] wildcards resolved;
    the nodes whose output does not depend on the context (the [Unit] combinator,
    constants and jets) keep exactly their own output type. *)
Theorem typecheck_sound_refinement p :
  ((exists ts, typecheck p = Ok ts) <-> validate_structure p = Ok tt /\ exists T, well_typed p T) /\
  forall ts, typecheck p = Ok ts ->
    exists T, well_typed p T /\ (forall T', well_typed p T' -> T' = T) /\
      length ts = length (nodes p) /\
      forall i node, nodes p !! i = Some node ->
        exists a b tn, T !! i = Some (a, b) /\ ts !! i = Some tn /\ combinator tn = node /\
          refines a (input_type tn) /\ refines b (output_type tn) /\
          match node with
          | CUnit | CConst _ | CJet _ => output_type tn = b
          | _ => True
          end.
Proof.
  split; [split|].
  - intros [ts Ht]. pose proof (typecheck_valid _ _ Ht) as Hv. split; [done|].
    destruct (typecheck_split p Hv) as [(e & _ & He)|(T & _ & HT & _)]; [congruence|].
    destruct (infer_pass_typed p (valid_dag p Hv) T HT) as (TT & _ & ?). by exists TT.
  - intros [Hv [T HT]]. apply (infer_pass_complete p (valid_dag p Hv)) in HT.
    destruct (typecheck_split p Hv) as [(e & He & _)|(T' & ts & _ & Ht & _)]; [congruence|by exists ts].
  - intros ts Ht. pose proof (typecheck_valid _ _ Ht) as Hv.
    destruct (typecheck_split p Hv) as [(e & _ & He)|(T & ts' & HT & Ht' & Hlen & Hts)]; [congruence|].
    rewrite Ht in Ht'. injection Ht' as <-.
    destruct (infer_pass_typed p (valid_dag p Hv) T HT) as (TT & -> & HTT). exists TT. split_and!; [done| |done|].
    + intros T' HT'. apply (infer_pass_complete p (valid_dag p Hv)) in HT'. rewrite HT in HT'.
      injection HT' as HT'. symmetry. by apply (inj (fmap Some)).
    + intros i node Hi. destruct (Hts i node Hi) as ([a b] & it & ot & _ & Hi' & Hti & Hin & Hout & Hfix).
      rewrite list_lookup_fmap in Hi'. destruct (TT !! i) as [ab|] eqn:ETT; [|done]. injection Hi' as ->.
      eexists a, b, _. split_and!; [done..|]. destruct node; try done; by apply Hfix.
Qed.

(** ** Witnesses *)

Lemma typecheck_total_witness :
  (exists ts, typecheck sample_program = Ok ts /\ map combinator ts = nodes sample_program) \/
  (exists e, typecheck sample_program = Err e /\ is_mismatch e = true).
Proof. apply (typecheck_total sample_program). vm_compute. reflexivity. Defined.

Lemma typecheck_sound_refinement_witness :
  exists ts T, typecheck sample_program = Ok ts /\ well_typed sample_program T.
Proof.
  eexists. edestruct (proj2 (typecheck_sound_refinement sample_program)) as (T & HT & _);
    [vm_compute; reflexivity|].
  exists T. split; [vm_compute; reflexivity|]. exact HT.
Defined.
