(* ===== verification/ScriptCost.v ===== *)
(** * Static script cost ([src/script/cost.rs])

    The cost table is filled bottom-up; every sum and product is checked, an
    overflow of [u64] is the [Overflow] error. *)

From Stdlib Require Import Strings.String.
From S2P Require Import Prelude Bytes Codec Hash ScriptValue ScriptAst U256 Jets.
#[local] Open Scope Z_scope.
#[local] Open Scope list_scope.

Record ScriptCost := { cells : Z; steps : Z }.
Record ListSizes := { input_count : Z; output_count : Z }.

Inductive CostError :=
| CostNodeOutOfBounds (id : Z)
| CostOverflow
| CostInvalidStructure (msg : string).

Abbreviation cost_table := (list (option ScriptCost)).

Definition child_cost (child : Z) (costs : cost_table) : result CostError ScriptCost :=
  match costs !! Z.to_nat child with
  | Some (Some c) => Ok c
  | _ => Err (CostNodeOutOfBounds child)
  end.

(** [a.checked_add(b).ok_or(CostError::Overflow)] and the same for products *)
Definition cadd (a b : Z) : result CostError Z := ok_or (checked_add U64_MAX a b) CostOverflow.
Definition cmul (a b : Z) : result CostError Z := ok_or (checked_mul U64_MAX a b) CostOverflow.

(** The cost of [n] rounds of [f] after [z], for [Fold] and [ListFold]. *)
Definition fold_cost (fc zc : ScriptCost) (n : Z) : result CostError ScriptCost :=
  let? f_cells_total := cmul (cells fc) n in
  let? cells := cadd (cells zc) f_cells_total in
  let? f_steps_plus_1 := cadd (steps fc) 1 in
  let? f_steps_total := cmul f_steps_plus_1 n in
  let? s := cadd (steps zc) f_steps_total in
  let? s := cadd s 1 in
  Ok {| cells := cells; steps := s |}.

Definition node_cost (node : Combinator) (costs : cost_table) (default_list_size : Z)
  : result CostError ScriptCost :=
  match node with
  | CIden => Ok {| cells := 0; steps := 1 |}
  | CUnit => Ok {| cells := 0; steps := 1 |}
  | CComp f g =>
      let? fc := child_cost f costs in
      let? gc := child_cost g costs in
      let? c := cadd (cells fc) (cells gc) in
      let? s := cadd (steps fc) (steps gc) in
      let? s := cadd s 1 in
      Ok {| cells := c; steps := s |}
  | CPair f g =>
      let? fc := child_cost f costs in
      let? gc := child_cost g costs in
      let? c := cadd (cells fc) (cells gc) in
      let? c := cadd c 1 in
      let? s := cadd (steps fc) (steps gc) in
      let? s := cadd s 1 in
      Ok {| cells := c; steps := s |}
  | CTake f | CDrop f =>
      let? fc := child_cost f costs in
      let? s := cadd (steps fc) 1 in
      Ok {| cells := cells fc; steps := s |}
  | CInjL f | CInjR f =>
      let? fc := child_cost f costs in
      let? c := cadd (cells fc) 1 in
      let? s := cadd (steps fc) 1 in
      Ok {| cells := c; steps := s |}
  | CCase f g =>
      let? fc := child_cost f costs in
      let? gc := child_cost g costs in
      let? c := cadd (Z.max (cells fc) (cells gc)) 1 in
      let? s := cadd (Z.max (steps fc) (steps gc)) 1 in
      Ok {| cells := c; steps := s |}
  | CFold f z k =>
      let? fc := child_cost f costs in
      let? zc := child_cost z costs in
      fold_cost fc zc k
  | CListFold f z =>
      let? fc := child_cost f costs in
      let? zc := child_cost z costs in
      fold_cost fc zc default_list_size
  | CJet jet_id => let '(s, c) := jet_cost jet_id in Ok {| cells := c; steps := s |}
  | CWitness => Ok {| cells := 0; steps := 1 |}
  | CMerkleHidden _ => Ok {| cells := 0; steps := 0 |}
  | CConst v =>
      let serialized_bytes := len (Value_serialize v) in
      let size_cost := Z.max (div_ceil serialized_bytes 64) 1 in
      let? c := cadd 1 size_cost in
      let? s := cadd 1 size_cost in
      Ok {| cells := c; steps := s |}
  end.

Definition cost_entry (p : Program) (default_list_size : Z) (i : nat) (costs : cost_table)
  : result CostError (option ScriptCost) :=
  let? cost := node_cost (default CUnit (nodes p !! i)) costs default_list_size in
  Ok (Some cost).
Definition cost_pass (p : Program) (default_list_size : Z) : result CostError cost_table :=
  let n := length (nodes p) in
  rev_fill_for (cost_entry p default_list_size) n (replicate n None).

Definition compute_cost (p : Program) (list_sizes : ListSizes) : result CostError ScriptCost :=
  let? _ := map_err CostInvalidStructure (validate_structure p) in
  let default_list_size := Z.max (input_count list_sizes) (output_count list_sizes) in
  let? costs := cost_pass p default_list_size in
  child_cost (root p) costs.

(** ** The table satisfies its recurrence *)

Lemma node_cost_children node T T' d :
  (forall c, c ∈ children_of node -> T !! Z.to_nat c = T' !! Z.to_nat c) ->
  node_cost node T d = node_cost node T' d.
Proof.
  intros Hc. assert (forall c, c ∈ children_of node -> child_cost c T = child_cost c T') as Hct.
  { intros c Hin. unfold child_cost. by rewrite Hc. }
  destruct node; cbn [children_of node_cost] in *; rewrite ?Hct by set_solver; done.
Qed.

Lemma cost_entry_above p d :
  dag (nodes p) -> forall i arr arr',
  length arr = length arr' -> (forall j, (i < j)%nat -> arr !! j = arr' !! j) ->
  cost_entry p d i arr = cost_entry p d i arr'.
Proof.
  intros Hdag i arr arr' _ Habove. unfold cost_entry. destruct (nodes p !! i) as [nk|] eqn:E; [|done]. simpl.
  rewrite (node_cost_children nk arr arr'); [done|].
  intros c Hc. specialize (Hdag _ _ _ E Hc). apply Habove. lia.
Qed.

Lemma cost_pass_spec p d T :
  dag (nodes p) -> cost_pass p d = Ok T ->
  forall i node, nodes p !! i = Some node ->
    exists c, node_cost node T d = Ok c /\ T !! i = Some (Some c).
Proof.
  intros Hdag HT i node Hi. pose proof (lookup_lt_Some _ _ _ Hi) as Hlt.
  destruct (rev_fill_for_spec _ (cost_entry_above p d Hdag) _ _ _ HT) with i as (x & Hx & HTi);
    [by rewrite length_replicate|done|].
  unfold cost_entry in Hx. rewrite Hi in Hx. simpl in Hx. inv_res. eauto.
Qed.

(** Costs are non-negative. *)
Definition cost_nonneg (c : ScriptCost) : Prop := 0 <= cells c /\ 0 <= steps c.

Lemma cadd_Ok a b r : cadd a b = Ok r -> r = a + b /\ 0 <= a + b <= U64_MAX.
Proof.
  unfold cadd. destruct (checked_add U64_MAX a b) as [x|] eqn:E; [|done]. intros [= <-].
  apply checked_Some in E as [? ->]. done.
Qed.
Lemma cmul_Ok a b r : cmul a b = Ok r -> r = a * b /\ 0 <= a * b <= U64_MAX.
Proof.
  unfold cmul. destruct (checked_mul U64_MAX a b) as [x|] eqn:E; [|done]. intros [= <-].
  apply checked_Some in E as [? ->]. done.
Qed.
