(* ===== verification/Eval.v ===== *)
(** * The interpreter ([src/script/eval.rs])

    The budget and the position in the witness data are mutated in place and
    survive an error: the evaluator is in the state monad [M], whose result
    carries the final state on success and on failure.  The recursion depth is
    at most [MAX_EVAL_DEPTH], so [eval_node] recurses on the levels left
    ([MAX_EVAL_DEPTH + 1 - depth]).  Diagnostics made with [{:?}] are kept as
    structured messages. *)

From Stdlib Require Import Strings.String.
From S2P Require Import Prelude Bytes Codec Hash ScriptValue ScriptAst U256 Jets Typecheck ScriptCost.
#[local] Open Scope Z_scope.
#[local] Open Scope list_scope.

Definition MAX_SCRIPT_MEMORY : Z := 16 * 1024 * 1024.
Definition MAX_EVAL_DEPTH : Z := 128.

Record Budget := {
  steps_remaining : Z; cells_remaining : Z; memory_used : Z; memory_limit : Z
}.
Definition Budget_new (steps cells : Z) : Budget :=
  {| steps_remaining := steps; cells_remaining := cells; memory_used := 0;
     memory_limit := MAX_SCRIPT_MEMORY |}.

Inductive Msg :=
| Text (s : string)
| Expected (s : string) (t : SType)
| ExpectedGot (t got : SType)
| Unconsumed (pos total : Z)
| TypecheckFailed (e : TypeError).

Inductive EvalError :=
| BudgetExceeded
| MemoryExceeded
| ETypeMismatch (m : Msg)
| HiddenNode
| WitnessError (m : Msg)
| ENodeOutOfBounds (id : Z)
| EJetError (e : JetError)
| RecursionDepthExceeded.

(** ** The state monad *)

(** The budget and [WitnessReader::pos]. *)
Record EvalState := { budget : Budget; wpos : Z }.

Definition M (A : Type) : Type := EvalState -> result EvalError A * EvalState.
Definition ret {A} (a : A) : M A := fun s => (Ok a, s).
Definition fail {A} (e : EvalError) : M A := fun s => (Err e, s).
Definition bind {A B} (m : M A) (k : A -> M B) : M B :=
  fun s => match m s with (Ok a, s') => k a s' | (Err e, s') => (Err e, s') end.
Definition lift {A} (r : result EvalError A) : M A := fun s => (r, s).

Notation "'let$' x ':=' c 'in' k" := (bind c (fun x => k))
  (at level 10, x pattern, c at level 100, k at level 200,
   format "'[hv' 'let$'  x  ':='  c  'in'  '//' k ']'") : exfer_scope.

(** ** Budget operations *)

Definition set_steps (b : Budget) (n : Z) : Budget :=
  {| steps_remaining := n; cells_remaining := cells_remaining b; memory_used := memory_used b;
     memory_limit := memory_limit b |}.
Definition set_cells (b : Budget) (n : Z) : Budget :=
  {| steps_remaining := steps_remaining b; cells_remaining := n; memory_used := memory_used b;
     memory_limit := memory_limit b |}.
Definition set_memory (b : Budget) (n : Z) : Budget :=
  {| steps_remaining := steps_remaining b; cells_remaining := cells_remaining b; memory_used := n;
     memory_limit := memory_limit b |}.

Definition consume_step : M unit := fun s =>
  let b := budget s in
  if steps_remaining b =? 0 then (Err BudgetExceeded, s)
  else (Ok tt, {| budget := set_steps b (steps_remaining b - 1); wpos := wpos s |}).

Definition consume_steps (n : Z) : M unit := fun s =>
  let b := budget s in
  if steps_remaining b <? n then (Err BudgetExceeded, s)
  else (Ok tt, {| budget := set_steps b (steps_remaining b - n); wpos := wpos s |}).

Definition consume_cell : M unit := fun s =>
  let b := budget s in
  if cells_remaining b =? 0 then (Err BudgetExceeded, s)
  else (Ok tt, {| budget := set_cells b (cells_remaining b - 1); wpos := wpos s |}).

Definition track_memory (size : Z) : M unit := fun s =>
  let b := budget s in
  match checked_add U64_MAX (memory_used b) size with
  | None => (Err MemoryExceeded, s)
  | Some m =>
      let s := {| budget := set_memory b m; wpos := wpos s |} in
      if memory_limit b <? m then (Err MemoryExceeded, s) else (Ok tt, s)
  end.

Definition release_memory (size : Z) : M unit := fun s =>
  let b := budget s in
  (Ok tt, {| budget := set_memory b (saturating_sub (memory_used b) size); wpos := wpos s |}).

(** ** Witness reader *)

Section Witness.
Context (data : bytes).

Definition read_value : M Value := fun s =>
  if len data <=? wpos s then (Err (WitnessError (Text "unexpected end of witness data")), s)
  else
    match Value_deserialize (slice_from data (wpos s)) with
    | Err e => (Err (WitnessError (Text e)), s)
    | Ok (value, consumed) => (Ok value, {| budget := budget s; wpos := wpos s + consumed |})
    end.

Definition read_typed_value (expected : SType) : M Value :=
  let$ value := read_value in
  if negb (bool_decide (expected = TUnit)) && negb (matches_type value expected)
  then fail (WitnessError (ExpectedGot expected (infer_type value)))
  else ret value.
End Witness.

(** ** Evaluation *)

Section Evaluator.
Context `{Sha2} `{Ed25519} `{Layout}.
Context (program : Program) (context : ScriptContext) (typed_nodes : list TypedNode) (data : bytes).

(** The rounds of a fold: [elems] are the first components of the step inputs
    ([init_input] each time for [Fold], the list's elements for [ListFold]). *)
Fixpoint fold_rounds (step : Value -> M Value) (elems : list Value) (acc : Value) (prev_step_heap : Z)
  : M Value :=
  match elems with
  | [] => let$ _ := release_memory prev_step_heap in ret acc
  | elem :: elems =>
      let$ _ := consume_step in
      let$ _ := release_memory prev_step_heap in
      let clone_heap := heap_size elem in
      let$ _ := track_memory (clone_heap + 2 * VALUE_SIZE) in
      let step_input := VPair elem acc in
      let$ acc := step step_input in
      fold_rounds step elems acc (heap_size step_input)
  end.

(** [typed_nodes.get(id)] *)
Definition typed_at (id : Z) : option TypedNode := typed_nodes !! Z.to_nat id.

(** The payload check of a [Case] branch. *)
Definition check_payload (branch : Z) (payload : Value) (msg : string) : M unit :=
  match typed_at branch with
  | Some tn =>
      if negb (matches_type payload (input_type tn))
      then fail (ETypeMismatch (Expected msg (input_type tn)))
      else ret tt
  | None => ret tt
  end.

Fixpoint eval_node (levels : nat) (node_id : Z) (input : Value) : M Value :=
  match levels with
  | O => fail RecursionDepthExceeded
  | S levels =>
      match Program_get program node_id with
      | None => fail (ENodeOutOfBounds node_id)
      | Some node =>
          match node with
          | CIden =>
              let$ _ := consume_step in
              let$ _ := track_memory (heap_size input) in
              ret input
          | CUnit =>
              let$ _ := consume_step in
              ret VUnit
          | CComp f g =>
              let$ _ := consume_step in
              let$ mid := eval_node levels f input in
              let mid_heap := heap_size mid in
              let$ res := eval_node levels g mid in
              let$ _ := release_memory mid_heap in
              ret res
          | CPair f g =>
              let$ _ := consume_step in
              let$ _ := consume_cell in
              let$ l := eval_node levels f input in
              let$ r := eval_node levels g input in
              let$ _ := track_memory (2 * VALUE_SIZE) in
              ret (VPair l r)
          | CTake f =>
              let$ _ := consume_step in
              match input with
              | VPair a _ => eval_node levels f a
              | _ => fail (ETypeMismatch (Text "Take expects Pair input"))
              end
          | CDrop f =>
              let$ _ := consume_step in
              match input with
              | VPair _ b => eval_node levels f b
              | _ => fail (ETypeMismatch (Text "Drop expects Pair input"))
              end
          | CInjL f =>
              let$ _ := consume_step in
              let$ _ := consume_cell in
              let$ res := eval_node levels f input in
              let$ _ := track_memory VALUE_SIZE in
              ret (VLeft res)
          | CInjR f =>
              let$ _ := consume_step in
              let$ _ := consume_cell in
              let$ res := eval_node levels f input in
              let$ _ := track_memory VALUE_SIZE in
              ret (VRight res)
          | CCase f g =>
              let$ _ := consume_step in
              let input_is_bool :=
                match typed_at node_id with
                | Some tn => bool_decide (input_type tn = bool_type)
                | None => false
                end in
              match input with
              | VLeft a =>
                  let$ _ := check_payload f a "Case Left payload type mismatch" in
                  eval_node levels f a
              | VRight b =>
                  let$ _ := check_payload g b "Case Right payload type mismatch" in
                  eval_node levels g b
              | VBool false =>
                  if input_is_bool then eval_node levels f VUnit
                  else fail (ETypeMismatch (Text "Case expects Sum (Left/Right) or Bool input"))
              | VBool true =>
                  if input_is_bool then eval_node levels g VUnit
                  else fail (ETypeMismatch (Text "Case expects Sum (Left/Right) or Bool input"))
              | _ => fail (ETypeMismatch (Text "Case expects Sum (Left/Right) or Bool input"))
              end
          | CFold f z k =>
              let$ _ := consume_step in
              match input with
              | VPair _ init_input =>
                  let$ acc := eval_node levels z init_input in
                  fold_rounds (eval_node levels f) (replicate (Z.to_nat k) init_input) acc 0
              | _ => fail (ETypeMismatch (Text "Fold expects Pair input"))
              end
          | CListFold f z =>
              let$ _ := consume_step in
              match input with
              | VPair (VList elems) init_input =>
                  let$ acc := eval_node levels z init_input in
                  fold_rounds (eval_node levels f) elems acc 0
              | VPair _ _ =>
                  fail (ETypeMismatch (Text "ListFold expects List as first element of Pair"))
              | _ => fail (ETypeMismatch (Text "ListFold expects Pair input"))
              end
          | CJet jet_id =>
              let cost := runtime_cost jet_id input context in
              let$ _ := consume_steps cost in
              let$ res := lift (map_err EJetError (jet_eval jet_id input context)) in
              let$ _ := track_memory (heap_size res) in
              ret res
          | CWitness =>
              let$ _ := consume_step in
              let expected_type := match typed_at node_id with Some tn => output_type tn | None => TUnit end in
              let$ value := read_typed_value data expected_type in
              let$ _ := track_memory (heap_size value) in
              ret value
          | CMerkleHidden _ => fail HiddenNode
          | CConst v =>
              let$ _ := consume_step in
              let$ _ := track_memory (heap_size v) in
              ret v
          end
      end
  end.
End Evaluator.

Section Evaluate.
Context `{Sha2} `{Ed25519} `{Layout}.

(** The result and the budget as the caller sees it afterwards. *)
Definition evaluate_with_context (program : Program) (input : Value) (witness_data : bytes)
    (b : Budget) (context : ScriptContext) : result EvalError Value * Budget :=
  match typecheck program with
  | Err e => (Err (ETypeMismatch (TypecheckFailed e)), b)
  | Ok typed_nodes =>
      let '(r, s) := eval_node program context typed_nodes witness_data
                       (Z.to_nat (MAX_EVAL_DEPTH + 1)) (root program) input {| budget := b; wpos := 0 |} in
      match r with
      | Err e => (Err e, budget s)
      | Ok v =>
          if wpos s <? len witness_data
          then (Err (WitnessError (Unconsumed (wpos s) (len witness_data))), budget s)
          else (Ok v, budget s)
      end
  end.

Definition evaluate (program : Program) (input : Value) (witness_data : bytes) (b : Budget)
  : result EvalError Value * Budget :=
  evaluate_with_context program input witness_data b ScriptContext_empty.
End Evaluate.

(** ** State changes are monotone *)

(** [keeps R m]: running [m] moves the state along [R], also when it fails. *)
Definition keeps {A} (R : EvalState -> EvalState -> Prop) (m : M A) : Prop := forall s, R s (snd (m s)).

Section Keeps.
Context (R : EvalState -> EvalState -> Prop) `{!PreOrder R}.

Lemma keeps_ret {A} (a : A) : keeps R (ret a).
Proof. intros s. reflexivity. Qed.
Lemma keeps_fail {A} e : keeps R (@fail A e).
Proof. intros s. reflexivity. Qed.
Lemma keeps_lift {A} (r : result EvalError A) : keeps R (lift r).
Proof. intros s. reflexivity. Qed.
Lemma keeps_bind {A B} (m : M A) (k : A -> M B) : keeps R m -> (forall a, keeps R (k a)) -> keeps R (bind m k).
Proof.
  intros Hm Hk s. unfold bind. specialize (Hm s). destruct (m s) as [[a|e] s']; simpl in *; [|done].
  etransitivity; [exact Hm|apply Hk].
Qed.
End Keeps.

(** A rule-directed proof over the structure of a computation. *)
Ltac by_rules rule :=
  repeat first
    [ progress rule
    | match goal with
      | |- context [match ?x with _ => _ end] =>
          lazymatch x with context [match _ with _ => _ end] => fail | _ => destruct x end
      end ].

(** Costs are non-negative. *)
Create HintDb nonneg.
Lemma sat_add_nonneg a b : 0 <= a -> 0 <= b -> 0 <= saturating_add U64_MAX a b.
Proof. unfold saturating_add, U64_MAX. lia. Qed.
Lemma sat_mul_nonneg a b : 0 <= a -> 0 <= b -> 0 <= saturating_mul U64_MAX a b.
Proof. unfold saturating_mul, U64_MAX. nia. Qed.
Lemma bytes_len_nonneg v : 0 <= bytes_len v.
Proof. destruct v; simpl; lia || apply len_nonneg. Qed.
Lemma bytes_or_hash_len_nonneg v : 0 <= bytes_or_hash_len v.
Proof. destruct v; simpl; lia || apply len_nonneg. Qed.
Lemma quot_nonneg a b : 0 <= a -> 0 <= Zpos b -> 0 <= a / Zpos b.
Proof. intros. apply Z.div_pos; lia. Qed.
Lemma div_ceil_nonneg a b : 0 <= a -> 0 <= Zpos b -> 0 <= div_ceil a (Zpos b).
Proof. intros. apply Z.div_pos; lia. Qed.
Lemma max_nonneg a b : 0 <= a -> 0 <= Z.max a b.
Proof. lia. Qed.
Lemma const_nonneg p : 0 <= Zpos p.
Proof. lia. Qed.
#[export] Hint Resolve sat_add_nonneg sat_mul_nonneg bytes_len_nonneg bytes_or_hash_len_nonneg quot_nonneg
  div_ceil_nonneg max_nonneg const_nonneg Z.le_refl Z.mul_nonneg_nonneg len_nonneg : nonneg.

Lemma runtime_cost_nonneg j input c : 0 <= runtime_cost j input c.
Proof.
  destruct j; cbn [runtime_cost jet_cost fst]; repeat case_match; auto 10 with nonneg.
Qed.

Definition state_step (data : bytes) (s s' : EvalState) : Prop :=
  steps_remaining (budget s') <= steps_remaining (budget s) /\
  cells_remaining (budget s') <= cells_remaining (budget s) /\
  memory_limit (budget s') = memory_limit (budget s) /\
  (0 <= steps_remaining (budget s) -> 0 <= steps_remaining (budget s')) /\
  (0 <= cells_remaining (budget s) -> 0 <= cells_remaining (budget s')) /\
  (0 <= wpos s <= len data -> wpos s <= wpos s' <= len data).

#[export] Instance state_step_preorder data : PreOrder (state_step data).
Proof. split; [intros s | intros s1 s2 s3]; unfold state_step; lia. Qed.

Section Monotone.
Context (data : bytes).
Abbreviation R := (state_step data).

Lemma consume_step_keeps : keeps R consume_step.
Proof. intros s. unfold consume_step. destruct (Z.eqb_spec (steps_remaining (budget s)) 0); [reflexivity|]. unfold state_step. simpl. lia. Qed.
Lemma consume_steps_keeps n : 0 <= n -> keeps R (consume_steps n).
Proof. intros Hn s. unfold consume_steps. destruct (Z.ltb_spec (steps_remaining (budget s)) n); [reflexivity|]. unfold state_step. simpl. lia. Qed.
Lemma consume_cell_keeps : keeps R consume_cell.
Proof. intros s. unfold consume_cell. destruct (Z.eqb_spec (cells_remaining (budget s)) 0); [reflexivity|]. unfold state_step. simpl. lia. Qed.
Lemma track_memory_keeps n : keeps R (track_memory n).
Proof.
  intros s. unfold track_memory. destruct (checked_add _ _ _); [|reflexivity].
  destruct (_ <? _); unfold state_step; simpl; lia.
Qed.
Lemma release_memory_keeps n : keeps R (release_memory n).
Proof. intros s. unfold state_step. simpl. lia. Qed.
Lemma read_value_keeps : keeps R (read_value data).
Proof.
  intros s. unfold read_value. destruct (Z.leb_spec (len data) (wpos s)); [reflexivity|].
  destruct (Value_deserialize _) as [[v n]|] eqn:E; [|reflexivity].
  unfold state_step. simpl. split_and!; try lia. intros Hw.
  apply codec_decodes in E as (_ & b & rest & _ & Es & ->). destruct (split_at data (wpos s) Hw) as (a & Ed & Ha).
  rewrite Es in Ed. rewrite Ed. len_lia.
Qed.

Ltac keeps_rule :=
  first [ apply keeps_bind; [apply _ | | intros ?] | apply keeps_ret; apply _ | apply keeps_fail; apply _
        | apply keeps_lift; apply _ | apply consume_step_keeps | apply consume_steps_keeps, runtime_cost_nonneg
        | apply consume_cell_keeps | apply track_memory_keeps | apply release_memory_keeps
        | apply read_value_keeps | solve [auto] ].

Lemma fold_rounds_keeps `{Layout} step elems acc h :
  (forall v, keeps R (step v)) -> keeps R (fold_rounds step elems acc h).
Proof.
  intros Hs. revert acc h. induction elems as [|e elems IH]; intros acc h; cbn [fold_rounds]; by_rules keeps_rule.
Qed.

Lemma eval_node_keeps `{Sha2} `{Ed25519} `{Layout} p c ts levels id input :
  keeps R (eval_node p c ts data levels id input).
Proof.
  revert id input. induction levels as [|levels IH]; intros id input; cbn [eval_node]; [apply keeps_fail; apply _|].
  unfold check_payload, read_typed_value.
  by_rules ltac:(first [keeps_rule | apply fold_rounds_keeps]).
Qed.
End Monotone.

(** ** More witness bytes do not change a successful run *)

(** [sim w m m']: where [m] (run on the witness [w]) succeeds, [m'] succeeds with
    the same value and state. *)
Definition sim {A} (w : bytes) (m m' : M A) : Prop :=
  forall s a s', 0 <= wpos s <= len w -> m s = (Ok a, s') -> m' s = (Ok a, s') /\ 0 <= wpos s' <= len w.

Section Simulation.
Context (w x : bytes).

Lemma sim_ret {A} (a : A) : sim w (ret a) (ret a).
Proof. intros s b s' Hs [= <- <-]. done. Qed.
Lemma sim_fail {A} e m' : sim w (@fail A e) m'.
Proof. intros s b s' Hs. done. Qed.
Lemma sim_lift {A} (r : result EvalError A) : sim w (lift r) (lift r).
Proof. intros s b s' Hs [= -> <-]. done. Qed.
Lemma sim_bind {A B} (m m' : M A) (k k' : A -> M B) :
  sim w m m' -> (forall a, sim w (k a) (k' a)) -> sim w (bind m k) (bind m' k').
Proof.
  intros Hm Hk s b s' Hs. unfold bind. destruct (m s) as [[a|e] s1] eqn:E; [|done].
  destruct (Hm s a s1 Hs E) as [-> Hs1]. by apply Hk.
Qed.
(** Operations that leave the reader alone. *)
Lemma sim_same {A} (m : M A) : (forall s, wpos (snd (m s)) = wpos s) -> sim w m m.
Proof. intros Hw s a s' Hs E. split; [done|]. specialize (Hw s). rewrite E in Hw. simpl in Hw. lia. Qed.

Lemma read_value_sim : sim w (read_value w) (read_value (w ++ x)).
Proof.
  intros s v s' Hs. unfold read_value.
  destruct (Z.leb_spec (len w) (wpos s)); [done|].
  destruct (Value_deserialize (slice_from w (wpos s))) as [[v' n]|] eqn:E; [|done]. intros [= <- <-].
  apply codec_decodes in E as (Hv & b & rest & Hb & Es & ->).
  destruct (split_at w (wpos s) Hs) as (a & Ed & Ha). rewrite Es in Ed.
  assert (slice_from (w ++ x) (wpos s) = b ++ rest ++ x) as ->.
  { rewrite Ed, <- !app_assoc. by apply slice_from_app. }
  destruct (codec_encodes v' Hv) as (b' & Hb' & Hdec). rewrite Hb in Hb'. injection Hb' as <-.
  rewrite Hdec. destruct (Z.leb_spec (len (w ++ x)) (wpos s)); [len_lia|].
  split; [done|]. simpl. rewrite Ed. len_lia.
Qed.

Lemma consume_step_sim : sim w consume_step consume_step.
Proof. apply sim_same. intros s. unfold consume_step. by destruct (_ =? _). Qed.
Lemma consume_steps_sim n : sim w (consume_steps n) (consume_steps n).
Proof. apply sim_same. intros s. unfold consume_steps. by destruct (_ <? _). Qed.
Lemma consume_cell_sim : sim w consume_cell consume_cell.
Proof. apply sim_same. intros s. unfold consume_cell. by destruct (_ =? _). Qed.
Lemma track_memory_sim n : sim w (track_memory n) (track_memory n).
Proof. apply sim_same. intros s. unfold track_memory. destruct (checked_add _ _ _); [|done]. by destruct (_ <? _). Qed.
Lemma release_memory_sim n : sim w (release_memory n) (release_memory n).
Proof. apply sim_same. done. Qed.

Ltac sim_rule :=
  first [ apply sim_bind; [|intros ?] | apply sim_ret | apply sim_fail | apply sim_lift
        | apply consume_step_sim | apply consume_steps_sim | apply consume_cell_sim | apply track_memory_sim
        | apply release_memory_sim | apply read_value_sim | solve [auto] ].

Lemma fold_rounds_sim `{Layout} step step' elems acc h :
  (forall v, sim w (step v) (step' v)) -> sim w (fold_rounds step elems acc h) (fold_rounds step' elems acc h).
Proof.
  intros Hs. revert acc h. induction elems as [|e elems IH]; intros acc h; cbn [fold_rounds]; by_rules sim_rule.
Qed.

Lemma eval_node_sim `{Sha2} `{Ed25519} `{Layout} p c ts levels id input :
  sim w (eval_node p c ts w levels id input) (eval_node p c ts (w ++ x) levels id input).
Proof.
  revert id input. induction levels as [|levels IH]; intros id input; cbn [eval_node]; [apply sim_fail|].
  unfold check_payload, read_typed_value.
  by_rules ltac:(first [sim_rule | apply fold_rounds_sim]).
Qed.
End Simulation.

(** ** Depth *)

(** [never bad m]: [m] does not fail with an error in [bad]. *)
Definition never {A} (bad : EvalError -> bool) (m : M A) : Prop :=
  forall s e, fst (m s) = Err e -> bad e = false.

(** The errors of a malformed traversal. *)
Definition structural (e : EvalError) : bool :=
  match e with RecursionDepthExceeded | ENodeOutOfBounds _ => true | _ => false end.

(** The errors every run may end in: budget, memory, types and witness data. *)
Definition ordinary (e : EvalError) : bool :=
  match e with BudgetExceeded | MemoryExceeded | ETypeMismatch _ | WitnessError _ => true | _ => false end.

Section Never.
Context (bad : EvalError -> bool).
Hypothesis bad_ordinary : forall e, ordinary e = true -> bad e = false.
Abbreviation good := (never bad).

Lemma never_ret {A} (a : A) : good (ret a).
Proof. intros s e. done. Qed.
Lemma never_fail {A} e : bad e = false -> good (@fail A e).
Proof. intros He s e' [= <-]. done. Qed.
Lemma never_ordinary {A} e : ordinary e = true -> good (@fail A e).
Proof. intros He. by apply never_fail, bad_ordinary. Qed.
Lemma never_lift {A} (r : result EvalError A) : (forall e, r = Err e -> bad e = false) -> good (lift r).
Proof. intros Hr s e. apply Hr. Qed.
Lemma never_bind {A B} (m : M A) (k : A -> M B) : good m -> (forall a, good (k a)) -> good (bind m k).
Proof.
  intros Hm Hk s e. unfold bind. specialize (Hm s). destruct (m s) as [[a|e'] s']; [apply Hk|].
  intros [= <-]. by apply Hm.
Qed.
Lemma consume_step_never : good consume_step.
Proof. intros s e. unfold consume_step. destruct (_ =? _); [|done]. intros [= <-]. by apply bad_ordinary. Qed.
Lemma consume_steps_never n : good (consume_steps n).
Proof. intros s e. unfold consume_steps. destruct (_ <? _); [|done]. intros [= <-]. by apply bad_ordinary. Qed.
Lemma consume_cell_never : good consume_cell.
Proof. intros s e. unfold consume_cell. destruct (_ =? _); [|done]. intros [= <-]. by apply bad_ordinary. Qed.
Lemma track_memory_never n : good (track_memory n).
Proof.
  intros s e. unfold track_memory.
  destruct (checked_add _ _ _); [destruct (_ <? _); [|done]|]; intros [= <-]; by apply bad_ordinary.
Qed.
Lemma release_memory_never n : good (release_memory n).
Proof. intros s e. done. Qed.
Lemma read_value_never data : good (read_value data).
Proof.
  intros s e. unfold read_value. destruct (_ <=? _); [intros [= <-]; by apply bad_ordinary|].
  destruct (Value_deserialize _) as [[v n]|]; [done|]. intros [= <-]. by apply bad_ordinary.
Qed.

Ltac never_rule :=
  first [ apply never_bind; [|intros ?] | apply never_ret | apply never_ordinary; reflexivity
        | apply consume_step_never | apply consume_steps_never | apply consume_cell_never
        | apply track_memory_never | apply release_memory_never | apply read_value_never | solve [auto] ].

Lemma fold_rounds_never `{Layout} step elems acc h :
  (forall v, good (step v)) -> good (fold_rounds step elems acc h).
Proof.
  intros Hs. revert acc h. induction elems as [|e elems IH]; intros acc h; cbn [fold_rounds]; by_rules never_rule.
Qed.

(** What a node itself must not do: a hidden node always fails, a jet may. *)
Definition node_never `{Sha2} `{Ed25519} (c : ScriptContext) (node : Combinator) : Prop :=
  match node with
  | CMerkleHidden _ => bad HiddenNode = false
  | CJet j => forall input e, jet_eval j input c = Err e -> bad (EJetError e) = false
  | _ => True
  end.

Lemma eval_node_never `{Sha2} `{Ed25519} `{Layout} p c ts data levels :
  dag (nodes p) -> Forall (node_never c) (nodes p) ->
  forall id input, 0 <= id < len (nodes p) -> depth_at p (Z.to_nat id) <= Z.of_nat levels ->
  good (eval_node p c ts data levels id input).
Proof.
  intros Hd Hnodes. induction levels as [|levels IH]; intros id input Hid Hdepth.
  { unfold len in Hid. pose proof (depth_at_pos p Hd (Z.to_nat id)). lia. }
  cbn [eval_node]. unfold Program_get.
  destruct (lookup_lt_is_Some_2 (nodes p) (Z.to_nat id)) as [node En]; [unfold len in Hid; lia|]. rewrite En.
  assert (forall ch v, ch ∈ children_of node -> good (eval_node p c ts data levels ch v)) as Hch.
  { intros ch v Hin. pose proof (Hd _ _ _ En Hin). apply IH; [lia|].
    assert (edge p (Z.to_nat id) (Z.to_nat ch)) as He by (exists node; by rewrite Z2Nat.id by lia).
    apply edge_depth in He; [lia|done]. }
  pose proof (Forall_lookup_1 _ _ _ _ Hnodes En) as Hnode. clear IH Hnodes. unfold check_payload, read_typed_value.
  destruct node; cbn [children_of node_never] in Hch, Hnode;
    by_rules ltac:(first [never_rule | apply Hch; set_solver | apply fold_rounds_never; intros ?
      | apply never_fail; exact Hnode
      | apply never_lift; intros ?; destruct (jet_eval _ _ _) eqn:?; intros [= <-]; by eapply Hnode]).
Qed.

(** A program within the depth limit whose nodes do not fail badly. *)
Lemma evaluate_never `{Sha2} `{Ed25519} `{Layout} p input w b c e :
  0 <= root p -> max_depth p <= MAX_EVAL_DEPTH -> Forall (node_never c) (nodes p) ->
  fst (evaluate_with_context p input w b c) = Err e -> bad e = false.
Proof.
  intros Hroot Hd Hnodes He. unfold evaluate_with_context in He.
  destruct (typecheck p) as [ts|te] eqn:Et; [|injection He as <-; by apply bad_ordinary].
  assert (validate_structure p = Ok tt) as Hv.
  { unfold typecheck in Et. destruct (validate_structure p) as [[]|]; [done|discriminate]. }
  destruct (valid_nonempty p Hv) as [Hr _]. unfold max_depth in Hd.
  replace (len (nodes p) =? 0) with false in Hd by lia.
  pose proof (eval_node_never p c ts w (Z.to_nat (MAX_EVAL_DEPTH + 1)) (valid_dag p Hv) Hnodes (root p) input) as Hn.
  specialize (Hn ltac:(lia)). unfold depth_at in Hn. specialize (Hn ltac:(unfold MAX_EVAL_DEPTH in *; lia)).
  specialize (Hn {| budget := b; wpos := 0 |}).
  destruct (eval_node _ _ _ _ _ _ _ _) as [[v|e'] s]; simpl in *.
  - destruct (_ <? _); [injection He as <-; by apply bad_ordinary|done].
  - injection He as <-. by apply Hn.
Qed.
End Never.

(** ** Static costs bound the run *)

(** [uses S C m]: from a budget of at least [S] steps and [C] cells, [m] does not
    exceed the budget, and consumes at most that when it succeeds. *)
Definition uses {A} (S C : Z) (m : M A) : Prop :=
  forall s, S <= steps_remaining (budget s) -> C <= cells_remaining (budget s) ->
    match m s with
    | (Ok _, s') => steps_remaining (budget s) - S <= steps_remaining (budget s') /\
                    cells_remaining (budget s) - C <= cells_remaining (budget s')
    | (Err e, _) => e <> BudgetExceeded
    end.

(** Jets whose runtime cost does not depend on data. *)
Definition fixed_cost_jet (j : JetId) : bool :=
  match j with
  | JSha256 | JMerkleVerify | JListSum | JListAll | JListAny | JListFind | JEqBytes | JCat | JSlice
  | JTxInputs | JTxOutputs | JTxSigHash | JEd25519Verify => false
  | _ => true
  end.
Lemma fixed_cost_jet_le j input c : fixed_cost_jet j = true -> runtime_cost j input c <= fst (jet_cost j).
Proof. destruct j; try done; simpl; lia. Qed.

(** What the static analysis covers: no list fold, no data-dependent jet. *)
Definition statically_costed (node : Combinator) : bool :=
  match node with CListFold _ _ => false | CJet j => fixed_cost_jet j | _ => true end.

Section Uses.
Lemma uses_weaken {A} S C S' C' (m : M A) : uses S C m -> S <= S' -> C <= C' -> uses S' C' m.
Proof.
  intros Hm HS HC s Hs Hc. specialize (Hm s ltac:(lia) ltac:(lia)). destruct (m s) as [[a|e] s']; [lia|done].
Qed.
Lemma uses_bind {A B} S1 C1 S2 C2 (m : M A) (k : A -> M B) :
  0 <= S2 -> 0 <= C2 -> uses S1 C1 m -> (forall a, uses S2 C2 (k a)) -> uses (S1 + S2) (C1 + C2) (bind m k).
Proof.
  intros HS HC Hm Hk s Hs Hc. unfold bind. specialize (Hm s ltac:(lia) ltac:(lia)).
  destruct (m s) as [[a|e] s1]; [|done]. specialize (Hk a s1 ltac:(lia) ltac:(lia)).
  destruct (k a s1) as [[b|e] s2]; [lia|done].
Qed.
(** A first operation that costs nothing. *)
Lemma uses_then {A B} S C (m : M A) (k : A -> M B) :
  0 <= S -> 0 <= C -> uses 0 0 m -> (forall a, uses S C (k a)) -> uses S C (bind m k).
Proof. intros. apply (uses_bind 0 0 S C); done. Qed.
Lemma uses_ret {A} (a : A) : uses 0 0 (ret a).
Proof. intros s Hs Hc. simpl. lia. Qed.
Lemma uses_fail {A} S C e : e <> BudgetExceeded -> uses S C (@fail A e).
Proof. by intros He s Hs Hc. Qed.
Lemma uses_jet {A} (r : result JetError A) : uses 0 0 (lift (map_err EJetError r)).
Proof. intros s Hs Hc. destruct r; simpl; [lia|done]. Qed.
Lemma consume_step_uses : uses 1 0 consume_step.
Proof. intros s Hs Hc. unfold consume_step. destruct (Z.eqb_spec (steps_remaining (budget s)) 0); simpl; lia. Qed.
Lemma consume_steps_uses n : uses n 0 (consume_steps n).
Proof. intros s Hs Hc. unfold consume_steps. destruct (Z.ltb_spec (steps_remaining (budget s)) n); simpl; lia. Qed.
Lemma consume_cell_uses : uses 0 1 consume_cell.
Proof. intros s Hs Hc. unfold consume_cell. destruct (Z.eqb_spec (cells_remaining (budget s)) 0); simpl; lia. Qed.
Lemma track_memory_uses n : uses 0 0 (track_memory n).
Proof. intros s Hs Hc. unfold track_memory. destruct (checked_add _ _ _); [destruct (_ <? _)|]; simpl; done || lia. Qed.
Lemma release_memory_uses n : uses 0 0 (release_memory n).
Proof. intros s Hs Hc. simpl. lia. Qed.
Lemma read_value_uses data : uses 0 0 (read_value data).
Proof.
  intros s Hs Hc. unfold read_value. destruct (_ <=? _); [done|].
  destruct (Value_deserialize _) as [[v n]|]; simpl; done || lia.
Qed.

(** Free operations, by their rules. *)
Ltac free_rule :=
  first [ apply uses_then; [lia|lia| |intros ?] | apply uses_ret | apply uses_fail; discriminate | apply uses_jet
        | apply track_memory_uses | apply release_memory_uses | apply read_value_uses ].

Lemma fold_rounds_uses `{Layout} S C step elems acc h :
  0 <= S -> 0 <= C -> (forall v, uses S C (step v)) ->
  uses (len elems * (S + 1)) (len elems * C) (fold_rounds step elems acc h).
Proof.
  intros HS HC Hs. revert acc h. induction elems as [|e elems IH]; intros acc h; cbn [fold_rounds].
  { change (len (@nil Value)) with 0. by_rules free_rule. }
  rewrite len_cons. pose proof (len_nonneg elems).
  apply (uses_weaken (1 + (S + len elems * (S + 1))) (0 + (C + len elems * C))); [|lia..].
  apply uses_bind; [nia|nia|apply consume_step_uses|intros _].
  do 2 (apply uses_then; [nia|nia|free_rule|intros _]).
  apply uses_bind; [nia|nia|apply Hs|intros acc'; apply IH].
Qed.

Section Costed.
Context `{Sha2} `{Ed25519} `{Layout}.
Context (p : Program) (c : ScriptContext) (ts : list TypedNode) (data : bytes) (d : Z) (T : cost_table).
Context (Hdag : dag (nodes p)) (HT : cost_pass p d = Ok T).
Context (Hcosted : forallb statically_costed (nodes p) = true).
Context (Hk : forall i f z k, nodes p !! i = Some (CFold f z k) -> 0 <= k).

Lemma child_cost_lookup ch x : child_cost ch T = Ok x <-> T !! Z.to_nat ch = Some (Some x).
Proof. unfold child_cost. destruct (T !! Z.to_nat ch) as [[y|]|]; split; naive_solver. Qed.

(** Inverting the checked sums of [node_cost]. *)
Ltac inv_cost :=
  inv_res; repeat match goal with
  | Hc : cadd _ _ = Ok _ |- _ => apply cadd_Ok in Hc as [-> ?]
  | Hc : cmul _ _ = Ok _ |- _ => apply cmul_Ok in Hc as [-> ?]
  end; simpl in *.

Lemma cost_table_nonneg n i x :
  (length (nodes p) - i <= n)%nat -> T !! i = Some (Some x) -> (i < length (nodes p))%nat -> 0 <= cells x /\ 0 <= steps x.
Proof.
  revert i x. induction n as [|n IH]; intros i x Hn HTi Hi; [lia|].
  destruct (lookup_lt_is_Some_2 _ _ Hi) as [node En].
  destruct (cost_pass_spec p d T Hdag HT i node En) as (x' & Hx & HTi'). rewrite HTi in HTi'. injection HTi' as <-.
  assert (forall ch y, ch ∈ children_of node -> child_cost ch T = Ok y -> 0 <= cells y /\ 0 <= steps y) as Hch.
  { intros ch y Hin Hy. apply child_cost_lookup in Hy. specialize (Hdag _ _ _ En Hin). unfold len in Hdag.
    apply (IH (Z.to_nat ch)); [lia|done|lia]. }
  destruct node; cbn [node_cost children_of] in *; unfold fold_cost in Hx;
    try (destruct (jet_cost j) as [? ?] eqn:Ej; injection Hx as <-; destruct j; injection Ej as <- <-; simpl; lia);
    inv_cost; repeat match goal with
    | Hc : child_cost ?f T = Ok _ |- _ => apply Hch in Hc as [? ?]; [|set_solver]
    end; try lia.
Qed.

(** The costs of the children bound the runs of the children. *)
Definition children_use (levels : nat) (node : Combinator) : Prop :=
  forall ch y, ch ∈ children_of node -> child_cost ch T = Ok y ->
    (0 <= cells y /\ 0 <= steps y) /\ forall v, uses (steps y) (cells y) (eval_node p c ts data levels ch v).

Lemma uses_step {A} (S C : Z) (k : unit -> M A) :
  0 <= S -> 0 <= C -> (forall a, uses S C (k a)) -> uses (S + 1) C (bind consume_step k).
Proof.
  intros HS HC Hk'. rewrite Z.add_comm. apply (uses_bind 1 0 S C); auto using consume_step_uses.
Qed.
(** One child inside a step and a cell. *)
Lemma uses_inject (f : Value -> M Value) mk cf :
  0 <= cells cf -> 0 <= steps cf -> (forall v, uses (steps cf) (cells cf) (f v)) ->
  forall v, uses (steps cf + 1) (cells cf + 1)
    (let$ _ := consume_step in
     let$ _ := consume_cell in
     let$ res := f v in
     let$ _ := track_memory VALUE_SIZE in
     ret (mk res : Value)).
Proof.
  intros HC HS Hf v. apply uses_step; [lia|lia|intros _].
  apply (uses_weaken (0 + (steps cf + 0)) (1 + (cells cf + 0))); [|lia..].
  apply uses_bind; [lia|lia|apply consume_cell_uses|intros _].
  apply uses_bind; [lia|lia|auto|intros r]. by_rules free_rule.
Qed.

Lemma node_uses levels id input node x :
  nodes p !! Z.to_nat id = Some node -> node_cost node T d = Ok x -> children_use levels node ->
  uses (steps x) (cells x) (eval_node p c ts data (S levels) id input).
Proof.
  intros En Hrule Hch.
  assert (statically_costed node = true) as Hst.
  { rewrite forallb_forall in Hcosted. eapply Hcosted, list_elem_of_In, list_elem_of_lookup_2, En. }
  cbn [eval_node]. unfold Program_get. rewrite En. unfold check_payload, read_typed_value.
  destruct node as [|f g| |f g|f|f|f|f|f g|f z k|f z|j| |h|v]; cbn [node_cost children_of] in *; try discriminate Hst;
    unfold fold_cost in Hrule; try (destruct (jet_cost j) as [js jc] eqn:Ej); inv_cost;
    try (match goal with Hc : child_cost f T = Ok ?x |- _ => rename x into cf; apply Hch in Hc as [[? ?] Hf]; [|set_solver] end);
    try (match goal with Hc : child_cost g T = Ok ?x |- _ => rename x into cg; apply Hch in Hc as [[? ?] Hg]; [|set_solver] end);
    try (match goal with Hc : child_cost z T = Ok ?x |- _ => rename x into cg; apply Hch in Hc as [[? ?] Hg]; [|set_solver] end);
    clear Hch.
  - apply (uses_weaken (0 + 1) 0); [|lia..]. apply uses_step; [lia|lia|intros _]. by_rules free_rule.
  - apply uses_step; [lia|lia|intros _].
    apply uses_bind; [lia|lia|auto|intros mid].
    apply (uses_weaken (steps cg + 0) (cells cg + 0)); [|lia..].
    apply uses_bind; [lia|lia|auto|intros r]. by_rules free_rule.
  - apply (uses_weaken (0 + 1) 0); [|lia..]. apply uses_step; [lia|lia|intros _]. by_rules free_rule.
  - apply uses_step; [lia|lia|intros _].
    apply (uses_weaken (0 + (steps cf + (steps cg + 0))) (1 + (cells cf + (cells cg + 0)))); [|lia..].
    apply uses_bind; [lia|lia|apply consume_cell_uses|intros _].
    apply uses_bind; [lia|lia|auto|intros l]. apply uses_bind; [lia|lia|auto|intros r]. by_rules free_rule.
  - apply uses_step; [lia|lia|intros _]. destruct input; try (apply uses_fail; discriminate). auto.
  - apply uses_step; [lia|lia|intros _]. destruct input; try (apply uses_fail; discriminate). auto.
  - by apply uses_inject.
  - by apply uses_inject.
  - apply uses_step; [lia|lia|intros _].
    assert (forall v, uses (Z.max (steps cf) (steps cg)) (Z.max (cells cf) (cells cg) + 1)
                        (eval_node p c ts data levels f v)) by (intros; eapply uses_weaken; eauto; lia).
    assert (forall v, uses (Z.max (steps cf) (steps cg)) (Z.max (cells cf) (cells cg) + 1)
                        (eval_node p c ts data levels g v)) by (intros; eapply uses_weaken; eauto; lia).
    by_rules ltac:(first [free_rule | solve [auto] | eapply uses_weaken; [apply uses_ret|lia|lia]]).
  - pose proof (Hk _ _ _ _ En). apply uses_step; [nia|nia|intros _].
    destruct input; try (apply uses_fail; discriminate).
    apply uses_bind; [nia|nia|auto|intros acc].
    eapply uses_weaken; [apply (fold_rounds_uses (steps cf) (cells cf)); auto|..];
      unfold len; rewrite length_replicate, Z2Nat.id by done; lia.
  - pose proof (fixed_cost_jet_le j input c Hst) as Hle. rewrite Ej in Hle. simpl in Hle.
    assert (0 <= jc) by (destruct j; injection Ej as <- <-; lia).
    apply (uses_weaken (runtime_cost j input c + 0) (0 + 0)); [|lia..].
    apply uses_bind; [lia|lia|apply consume_steps_uses|intros _]. by_rules free_rule.
  - apply (uses_weaken (0 + 1) 0); [|lia..]. apply uses_step; [lia|lia|intros _]. by_rules free_rule.
  - by apply uses_fail.
  - apply (uses_weaken (0 + 1) 0); [|lia..]. apply uses_step; [lia|lia|intros _]. by_rules free_rule.
Qed.

Lemma eval_node_uses levels id input x :
  0 <= id < len (nodes p) -> T !! Z.to_nat id = Some (Some x) ->
  uses (steps x) (cells x) (eval_node p c ts data levels id input).
Proof.
  revert id input x. induction levels as [|levels IH]; intros id input x Hid Hx; [by apply uses_fail|].
  destruct (lookup_lt_is_Some_2 (nodes p) (Z.to_nat id)) as [node En]; [unfold len in Hid; lia|].
  destruct (cost_pass_spec p d T Hdag HT _ node En) as (x' & Hrule & HTi). rewrite Hx in HTi. injection HTi as <-.
  apply (node_uses levels id input node x En Hrule).
  intros ch y Hin Hy. apply child_cost_lookup in Hy. pose proof (Hdag _ _ _ En Hin) as Hr. split.
  - apply (cost_table_nonneg (length (nodes p)) (Z.to_nat ch)); [lia|done|unfold len in Hr; lia].
  - intros v. apply IH; [lia|done].
Qed.
End Costed.
End Uses.

(** ** Properties *)

(** The program's node fields are in their widths. *)
Definition fold_counts_ok (p : Program) : Prop :=
  forall i f z k, nodes p !! i = Some (CFold f z k) -> 0 <= k.

Section Properties.
Context `{Sha2} `{Ed25519} `{Layout}.

(** Witness data cannot be padded: when evaluation succeeds on a witness, it
    fails on every proper extension of that witness, whatever the program, the
    input, the context and the budget. *)
Theorem evaluate_witness_not_malleable p input w x b c v b' :
  evaluate_with_context p input w b c = (Ok v, b') -> x <> [] ->
  exists e b'', evaluate_with_context p input (w ++ x) b c = (Err (WitnessError e), b'').
Proof.
  unfold evaluate_with_context. destruct (typecheck p) as [ts|]; [|done].
  destruct (eval_node p c ts w _ _ _ _) as [[v'|e] s] eqn:E; [|done].
  destruct (Z.ltb_spec (wpos s) (len w)); [done|]. intros _ Hx.
  apply (eval_node_sim w x) in E as [-> Hs]; [|simpl; len_lia].
  destruct (Z.ltb_spec (wpos s) (len (w ++ x))) as [_|Hge]; [eauto|].
  destruct x; [done|]. len_lia.
Qed.

(** Evaluation only ever spends its budget: whatever the outcome, the steps and
    cells left are between zero and what was given, and the memory limit is
    unchanged. *)
Theorem evaluate_budget_monotone p input w b c :
  0 <= steps_remaining b -> 0 <= cells_remaining b ->
  let b' := snd (evaluate_with_context p input w b c) in
  0 <= steps_remaining b' <= steps_remaining b /\
  0 <= cells_remaining b' <= cells_remaining b /\
  memory_limit b' = memory_limit b.
Proof.
  intros Hs Hc. unfold evaluate_with_context. destruct (typecheck p) as [ts|]; [|simpl; lia].
  pose proof (eval_node_keeps w p c ts (Z.to_nat (MAX_EVAL_DEPTH + 1)) (root p) input
                {| budget := b; wpos := 0 |}) as Hk.
  destruct (eval_node _ _ _ _ _ _ _ _) as [[v|e] s]; unfold state_step in Hk; simpl in Hk;
    [destruct (_ <? _)|]; simpl; lia.
Qed.

(** The depth limit is the one [max_depth] measures: a program of depth at most
    [MAX_EVAL_DEPTH] (the bound that is checked when an output is created) never
    fails with [RecursionDepthExceeded], nor with a node out of bounds. *)
Theorem evaluate_depth_safe p input w b c e :
  0 <= root p -> max_depth p <= MAX_EVAL_DEPTH ->
  fst (evaluate_with_context p input w b c) = Err e -> structural e = false.
Proof.
  intros Hroot Hd. apply evaluate_never; [by intros []|done|done|].
  apply Forall_forall. intros [] _; done.
Qed.

(** C37: The static cost is sufficient: for a program without list folds and without
    jets of data-dependent cost, a budget of the steps and cells that
    [compute_cost] reports is never exceeded, whatever the input and the witness. *)
Theorem static_cost_sufficient p ls cost input w b c :
  0 <= root p -> fold_counts_ok p -> forallb statically_costed (nodes p) = true ->
  compute_cost p ls = Ok cost ->
  steps cost <= steps_remaining b -> cells cost <= cells_remaining b ->
  fst (evaluate_with_context p input w b c) <> Err BudgetExceeded.
Proof.
  intros Hroot Hk Hst Hcost Hs Hc. unfold evaluate_with_context.
  destruct (typecheck p) as [ts|]; [|done]. unfold compute_cost in Hcost. inv_res.
  match goal with Hv : map_err _ _ = Ok ?u |- _ => destruct u; apply map_err_Ok in Hv; rename Hv into Hval end.
  destruct (valid_nonempty p Hval) as [Hr _].
  match goal with HT : cost_pass p ?d = Ok ?T |- _ =>
    pose proof (eval_node_uses p c ts w d T (valid_dag p Hval) HT Hst Hk
      (Z.to_nat (MAX_EVAL_DEPTH + 1)) (root p) input cost ltac:(lia)) as Hu end.
  apply child_cost_lookup in Hcost. specialize (Hu Hcost {| budget := b; wpos := 0 |} Hs Hc).
  destruct (eval_node _ _ _ _ _ _ _ _) as [[v|e] s]; [by destruct (_ <? _)|]. intros [= ->]. done.
Qed.
End Properties.

(** ** Witnesses *)

#[local] Instance toy_layout : Layout :=
  {| VALUE_SIZE := 40; list_capacity := len; bytes_capacity := len |}.

(** [Comp(Pair(Witness, Const(7)), Jet(Eq64))]: the witness must be 7. *)
Definition seven_program : Program := {|
  nodes := [CComp 1 4; CPair 2 3; CWitness; CConst (VU64 7); CJet JEq64]; root := 0
|}.
Definition seven_witness : bytes := Value_serialize (VU64 7).
Definition run_seven (w : bytes) (b : Budget) : result EvalError Value * Budget :=
  @evaluate_with_context toy_digest toy_ed25519 toy_layout seven_program VUnit w b ScriptContext_empty.

Lemma evaluate_witness_not_malleable_witness :
  exists e b'', run_seven (seven_witness ++ [x00]) (Budget_new 1000 1000) = (Err (WitnessError e), b'').
Proof.
  apply (@evaluate_witness_not_malleable toy_digest toy_ed25519 toy_layout seven_program VUnit seven_witness
           [x00] (Budget_new 1000 1000) ScriptContext_empty (VBool true)
           (snd (run_seven seven_witness (Budget_new 1000 1000)))); [vm_compute; reflexivity | discriminate].
Defined.

Lemma evaluate_budget_monotone_witness :
  memory_limit (snd (run_seven seven_witness (Budget_new 1000 1000))) = MAX_SCRIPT_MEMORY.
Proof.
  apply (@evaluate_budget_monotone toy_digest toy_ed25519 toy_layout seven_program VUnit seven_witness
           (Budget_new 1000 1000) ScriptContext_empty); vm_compute; discriminate.
Defined.

Lemma evaluate_depth_safe_witness : structural BudgetExceeded = false.
Proof.
  apply (@evaluate_depth_safe toy_digest toy_ed25519 toy_layout seven_program VUnit seven_witness
           (Budget_new 2 1000) ScriptContext_empty BudgetExceeded);
    [vm_compute; discriminate | vm_compute; discriminate | vm_compute; reflexivity].
Defined.

Lemma static_cost_sufficient_witness :
  fst (run_seven seven_witness (Budget_new 15 4)) <> Err BudgetExceeded.
Proof.
  apply (@static_cost_sufficient toy_digest toy_ed25519 toy_layout seven_program
           {| input_count := 1; output_count := 1 |} {| cells := 4; steps := 15 |} VUnit seven_witness
           (Budget_new 15 4) ScriptContext_empty);
    [vm_compute; discriminate | | vm_compute; reflexivity | vm_compute; reflexivity
    | vm_compute; discriminate | vm_compute; discriminate].
  intros [|[|[|[|[|i]]]]] f z k Hi; discriminate Hi.
Defined.
