(* ===== verification/EvalSpec.v ===== *)
(** * A big-step semantics for scripts

    [runs id input w v w'] says that node [id] takes [input] to [v] and the
    witness position from [w] to [w'], with no budget, no memory accounting and
    no depth limit.  The interpreter of [src/script/eval.rs] is sound for it
    whatever the budget, and complete given enough; the covenants are proved
    correct against this relation. *)

From Stdlib Require Import Strings.String.
From S2P Require Import Prelude Bytes Codec Hash ScriptValue ScriptAst U256 Jets Typecheck ScriptCost Eval.
#[local] Open Scope Z_scope.
#[local] Open Scope list_scope.

Section BigStep.
Context `{Sha2} `{Ed25519}.
Context (program : Program) (context : ScriptContext) (typed_nodes : list TypedNode) (data : bytes).

(** A witness value at position [w], and the position after it. *)
Definition reads (expected : SType) (w : Z) (v : Value) (w' : Z) : Prop :=
  w < len data /\ exists n, Value_deserialize (slice_from data w) = Ok (v, n) /\ w' = w + n /\
  (expected = TUnit \/ matches_type v expected = true).

(** The payload of a [Case] fits the branch's input type. *)
Definition payload_fits (branch : Z) (payload : Value) : Prop :=
  forall tn, typed_at typed_nodes branch = Some tn -> matches_type payload (input_type tn) = true.
Definition on_bool (id : Z) : Prop := exists tn, typed_at typed_nodes id = Some tn /\ input_type tn = bool_type.
Definition witness_type (id : Z) : SType := match typed_at typed_nodes id with Some tn => output_type tn | None => TUnit end.

Inductive runs : Z -> Value -> Z -> Value -> Z -> Prop :=
| run_iden id v w : Program_get program id = Some CIden -> runs id v w v w
| run_unit id v w : Program_get program id = Some CUnit -> runs id v w VUnit w
| run_comp id f g v w m w1 r w2 :
    Program_get program id = Some (CComp f g) -> runs f v w m w1 -> runs g m w1 r w2 -> runs id v w r w2
| run_pair id f g v w a w1 b w2 :
    Program_get program id = Some (CPair f g) -> runs f v w a w1 -> runs g v w1 b w2 -> runs id v w (VPair a b) w2
| run_take id f a b w r w' : Program_get program id = Some (CTake f) -> runs f a w r w' -> runs id (VPair a b) w r w'
| run_drop id f a b w r w' : Program_get program id = Some (CDrop f) -> runs f b w r w' -> runs id (VPair a b) w r w'
| run_injl id f v w r w' : Program_get program id = Some (CInjL f) -> runs f v w r w' -> runs id v w (VLeft r) w'
| run_injr id f v w r w' : Program_get program id = Some (CInjR f) -> runs f v w r w' -> runs id v w (VRight r) w'
| run_case_left id f g a w r w' :
    Program_get program id = Some (CCase f g) -> payload_fits f a -> runs f a w r w' -> runs id (VLeft a) w r w'
| run_case_right id f g b w r w' :
    Program_get program id = Some (CCase f g) -> payload_fits g b -> runs g b w r w' -> runs id (VRight b) w r w'
| run_case_bool id f g (c : bool) w r w' :
    Program_get program id = Some (CCase f g) -> on_bool id -> runs (if c then g else f) VUnit w r w' -> runs id (VBool c) w r w'
| run_fold id f z k x init w acc w1 r w2 :
    Program_get program id = Some (CFold f z k) -> runs z init w acc w1 ->
    rounds f (replicate (Z.to_nat k) init) acc w1 r w2 -> runs id (VPair x init) w r w2
| run_list_fold id f z elems init w acc w1 r w2 :
    Program_get program id = Some (CListFold f z) -> runs z init w acc w1 ->
    rounds f elems acc w1 r w2 -> runs id (VPair (VList elems) init) w r w2
| run_jet id j v w r : Program_get program id = Some (CJet j) -> jet_eval j v context = Ok r -> runs id v w r w
| run_witness id v w r w' : Program_get program id = Some CWitness -> reads (witness_type id) w r w' -> runs id v w r w'
| run_const id v w r : Program_get program id = Some (CConst r) -> runs id v w r w
with rounds : Z -> list Value -> Value -> Z -> Value -> Z -> Prop :=
| rounds_nil f acc w : rounds f [] acc w acc w
| rounds_cons f e es acc w acc1 w1 r w2 :
    runs f (VPair e acc) w acc1 w1 -> rounds f es acc1 w1 r w2 -> rounds f (e :: es) acc w r w2.

Scheme runs_min := Minimality for runs Sort Prop
with rounds_min := Minimality for rounds Sort Prop.
Combined Scheme runs_rounds_ind from runs_min, rounds_min.

(** What a run of a given node is made of. *)
Lemma runs_at id node v w r w' :
  runs id v w r w' -> Program_get program id = Some node ->
  match node with
  | CUnit => r = VUnit /\ w' = w
  | CConst k => r = k /\ w' = w
  | CJet j => jet_eval j v context = Ok r /\ w' = w
  | CWitness => reads (witness_type id) w r w'
  | CComp f g => exists m w1, runs f v w m w1 /\ runs g m w1 r w'
  | CPair f g => exists a w1 b, r = VPair a b /\ runs f v w a w1 /\ runs g v w1 b w'
  | CCase f g =>
      (exists a, v = VLeft a /\ payload_fits f a /\ runs f a w r w') \/
      (exists b, v = VRight b /\ payload_fits g b /\ runs g b w r w') \/
      (exists c : bool, v = VBool c /\ on_bool id /\ runs (if c then g else f) VUnit w r w')
  | _ => True
  end.
Proof. intros Hr En. destruct Hr; match goal with E : Program_get _ _ = _ |- _ => rewrite E in En; injection En as <- end; eauto 10. Qed.

(** ** Soundness *)

Lemma bind_Ok {A B} (m : M A) (k : A -> M B) s b s' :
  bind m k s = (Ok b, s') -> exists a s1, m s = (Ok a, s1) /\ k a s1 = (Ok b, s').
Proof. unfold bind. destruct (m s) as [[a|e] s1]; [eauto|done]. Qed.

(** [m] leaves the witness position alone when it succeeds. *)
Definition still {A} (m : M A) : Prop := forall s a s', m s = (Ok a, s') -> wpos s' = wpos s.
Lemma consume_step_still : still consume_step.
Proof. intros s a s'. unfold consume_step. case_match; [done|]. by intros [= _ <-]. Qed.
Lemma consume_steps_still n : still (consume_steps n).
Proof. intros s a s'. unfold consume_steps. case_match; [done|]. by intros [= _ <-]. Qed.
Lemma consume_cell_still : still consume_cell.
Proof. intros s a s'. unfold consume_cell. case_match; [done|]. by intros [= _ <-]. Qed.
Lemma track_memory_still n : still (track_memory n).
Proof. intros s a s'. unfold track_memory. repeat case_match; try done. by intros [= _ <-]. Qed.
Lemma release_memory_still n : still (release_memory n).
Proof. intros s a s'. unfold release_memory. by intros [= _ <-]. Qed.

Ltac still H :=
  first [ apply consume_step_still in H | apply consume_steps_still in H | apply consume_cell_still in H
        | apply track_memory_still in H | apply release_memory_still in H ].
(** Take apart a successful run, keeping track of the position. *)
Ltac inv_run :=
  repeat match goal with
  | H : bind _ _ _ = (Ok _, _) |- _ => apply bind_Ok in H as (? & ? & ? & ?)
  | H : ret _ _ = (Ok _, _) |- _ => injection H as ? ?; subst
  | H : fail _ _ = (Ok _, _) |- _ => discriminate H
  | H : _ = (Ok _, _) |- _ => still H
  end.

Lemma read_typed_runs expected s v s' :
  read_typed_value data expected s = (Ok v, s') -> reads expected (wpos s) v (wpos s').
Proof.
  unfold read_typed_value. intros (v0 & s1 & Hr & Hk)%bind_Ok. unfold read_value in Hr.
  destruct (Z.leb_spec (len data) (wpos s)); [done|]. destruct (Value_deserialize _) as [[v1 n]|] eqn:Ed; [|done].
  injection Hr as -> <-. cbn [wpos] in *. destruct (_ && _) eqn:Ec; [done|]. injection Hk as -> <-. cbn [wpos]. split; [done|].
  exists n. split_and!; [done|done|]. apply andb_false_iff in Ec as [Ec|Ec]; apply negb_false_iff in Ec; [left; by apply bool_decide_eq_true in Ec|by right].
Qed.

Context `{Layout}.

Lemma fold_rounds_runs f step elems acc h s r s' :
  (forall v s r s', step v s = (Ok r, s') -> runs f v (wpos s) r (wpos s')) ->
  fold_rounds step elems acc h s = (Ok r, s') -> rounds f elems acc (wpos s) r (wpos s').
Proof.
  intros Hstep. revert acc h s. induction elems as [|e es IH]; intros acc h s; cbn [fold_rounds]; intros Hr; inv_run.
  - replace (wpos s') with (wpos s) by congruence. constructor.
  - match goal with Hs : step _ ?s0 = (Ok _, ?s1), Hf : fold_rounds _ _ _ _ ?s1 = _ |- _ =>
      apply Hstep in Hs; apply IH in Hf; replace (wpos s0) with (wpos s) in Hs by congruence; by econstructor end.
Qed.

Lemma check_payload_fits branch payload msg s u s' :
  check_payload typed_nodes branch payload msg s = (Ok u, s') -> payload_fits branch payload /\ s' = s.
Proof.
  unfold check_payload, payload_fits. destruct (typed_at typed_nodes branch) as [tn|].
  - destruct (matches_type payload (input_type tn)) eqn:Em; [|done]. intros [= _ <-]. split; [|done]. intros tn' [= <-]. done.
  - intros [= _ <-]. done.
Qed.

(** Use the induction hypothesis, then bring all positions to a common name. *)
Ltac by_IH IH :=
  repeat match goal with H : eval_node _ _ _ _ _ _ _ _ = (Ok _, _) |- _ => apply IH in H end;
  repeat match goal with E : wpos ?a = wpos ?b |- _ => rewrite E in *; clear E end.

(** A successful evaluation is a run. *)
Lemma eval_node_runs levels id v s r s' :
  eval_node program context typed_nodes data levels id v s = (Ok r, s') -> runs id v (wpos s) r (wpos s').
Proof.
  revert id v s r s'. induction levels as [|levels IH]; intros id v s r s'; cbn [eval_node]; [done|].
  destruct (Program_get program id) as [node|] eqn:En; [|done]. destruct node; intros Hr.
  - inv_run. by_IH IH. by apply run_iden.
  - inv_run. by_IH IH. by eapply run_comp.
  - inv_run. by_IH IH. by apply run_unit.
  - inv_run. by_IH IH. by eapply run_pair.
  - inv_run. destruct v; inv_run; try done. by_IH IH. by eapply run_take.
  - inv_run. destruct v; inv_run; try done. by_IH IH. by eapply run_drop.
  - inv_run. by_IH IH. by eapply run_injl.
  - inv_run. by_IH IH. by eapply run_injr.
  - inv_run. destruct v as [|a|b| | | | | |c|]; inv_run; try done.
    + match goal with H : check_payload _ _ _ _ _ = _ |- _ => apply check_payload_fits in H as [? ->] end. by_IH IH. by eapply run_case_left.
    + match goal with H : check_payload _ _ _ _ _ = _ |- _ => apply check_payload_fits in H as [? ->] end. by_IH IH. by eapply run_case_right.
    + assert (on_bool id) as Hb.
      { unfold on_bool. destruct (typed_at typed_nodes id) as [tn|]; [|by destruct c]. exists tn. split; [done|].
        destruct (bool_decide (input_type tn = bool_type)) eqn:Eb; [by apply bool_decide_eq_true in Eb|by destruct c]. }
      destruct Hb as (tn & Ht & Hb). rewrite Ht, bool_decide_true in * by done.
      eapply run_case_bool; [done|by exists tn|]. destruct c; by_IH IH; done.
  - inv_run. destruct v as [| | |pa init| | | | | |]; inv_run; try done.
    match goal with H : fold_rounds _ _ _ _ _ = _ |- _ => eapply fold_rounds_runs in H; [|intros; by eapply IH] end.
    by_IH IH. by eapply run_fold.
  - inv_run. destruct v as [| | |pa init| | | | | |]; inv_run; try done. destruct pa; inv_run; try done.
    match goal with H : fold_rounds _ _ _ _ _ = _ |- _ => eapply fold_rounds_runs in H; [|intros; by eapply IH] end.
    by_IH IH. by eapply run_list_fold.
  - inv_run. match goal with H : lift _ _ = _ |- _ => injection H as Hj Hs end. subst.
    destruct (jet_eval _ _ _) as [r0|] eqn:Ej; [|done]. injection Hj as ->. by_IH IH. by eapply run_jet.
  - inv_run. match goal with H : read_typed_value _ _ _ = _ |- _ => apply read_typed_runs in H end. by_IH IH. by apply run_witness.
  - done.
  - inv_run. by_IH IH. by apply run_const.
Qed.

(** ** Completeness *)

(** [takes S C m w a w']: from position [w], with [S] steps, [C] cells and [Mm]
    bytes of memory to spare, [m] succeeds with [a] at position [w'] and has used
    no more than that. *)
Definition room (S C Mm : Z) (b : Budget) : Prop :=
  S <= steps_remaining b /\ C <= cells_remaining b /\
  0 <= memory_used b /\ memory_used b + Mm <= memory_limit b <= U64_MAX.
Definition spent (S C Mm : Z) (b b' : Budget) : Prop :=
  steps_remaining b - S <= steps_remaining b' /\ cells_remaining b - C <= cells_remaining b' /\
  0 <= memory_used b' <= memory_used b + Mm /\ memory_limit b' = memory_limit b.
Definition takes {A} (S C Mm : Z) (m : M A) (w : Z) (a : A) (w' : Z) : Prop :=
  (0 <= S /\ 0 <= C /\ 0 <= Mm) /\
  forall s, wpos s = w -> room S C Mm (budget s) ->
    exists s', m s = (Ok a, s') /\ wpos s' = w' /\ spent S C Mm (budget s) (budget s').

Ltac open_takes := unfold takes, room, spent in *.

Lemma takes_ret {A} (a : A) w : takes 0 0 0 (ret a) w a w.
Proof. open_takes. split; [lia|]. intros s <- Hb. exists s. split; [done|]. split; [done|lia]. Qed.
Lemma takes_weaken {A} S1 C1 M1 S2 C2 M2 (m : M A) w a w' :
  takes S1 C1 M1 m w a w' -> S1 <= S2 -> C1 <= C2 -> M1 <= M2 -> takes S2 C2 M2 m w a w'.
Proof.
  open_takes. intros [Hp Hm] HS HC HM. split; [lia|]. intros s Hw Hb.
  destruct (Hm s Hw ltac:(lia)) as (s' & ? & ? & ?). exists s'. split; [done|]. split; [done|lia].
Qed.
Lemma takes_bind {A B} S1 C1 M1 S2 C2 M2 (m : M A) (k : A -> M B) w a w1 b w2 :
  takes S1 C1 M1 m w a w1 -> takes S2 C2 M2 (k a) w1 b w2 ->
  takes (S1 + S2) (C1 + C2) (M1 + M2) (bind m k) w b w2.
Proof.
  open_takes. intros [Hp1 Hm] [Hp2 Hk]. split; [lia|]. intros s Hw Hb.
  destruct (Hm s Hw ltac:(lia)) as (s1 & E1 & Hw1 & Hs1). destruct (Hk s1 Hw1 ltac:(lia)) as (s2 & E2 & Hw2 & Hs2).
  exists s2. unfold bind. rewrite E1. split; [done|]. split; [done|lia].
Qed.
Lemma consume_step_takes w : takes 1 0 0 consume_step w tt w.
Proof.
  open_takes. split; [lia|]. intros s <- Hb. unfold consume_step. replace (steps_remaining (budget s) =? 0) with false by lia.
  eexists. split; [done|]. cbn. split; [done|lia].
Qed.
Lemma consume_steps_takes n w : 0 <= n -> takes n 0 0 (consume_steps n) w tt w.
Proof.
  open_takes. split; [lia|]. intros s <- Hb. unfold consume_steps. replace (steps_remaining (budget s) <? n) with false by lia.
  eexists. split; [done|]. cbn. split; [done|lia].
Qed.
Lemma consume_cell_takes w : takes 0 1 0 consume_cell w tt w.
Proof.
  open_takes. split; [lia|]. intros s <- Hb. unfold consume_cell. replace (cells_remaining (budget s) =? 0) with false by lia.
  eexists. split; [done|]. cbn. split; [done|lia].
Qed.
Lemma track_memory_takes n w : 0 <= n -> takes 0 0 n (track_memory n) w tt w.
Proof.
  open_takes. split; [lia|]. intros s <- Hb. unfold track_memory, checked_add.
  rewrite (proj2 (checked_Some U64_MAX (memory_used (budget s) + n) _)) by (split; [lia|done]).
  replace (memory_limit (budget s) <? memory_used (budget s) + n) with false by lia.
  eexists. split; [done|]. cbn. split; [done|lia].
Qed.
Lemma release_memory_takes n w : 0 <= n -> takes 0 0 0 (release_memory n) w tt w.
Proof.
  open_takes. split; [lia|]. intros s <- Hb. unfold release_memory, saturating_sub.
  eexists. split; [done|]. cbn. split; [done|lia].
Qed.
Lemma lift_takes {A} (a : A) w : takes 0 0 0 (lift (Ok a)) w a w.
Proof. apply takes_ret. Qed.

Lemma read_typed_takes expected w v w' : reads expected w v w' -> takes 0 0 0 (read_typed_value data expected) w v w'.
Proof.
  intros (Hlt & n & Ed & -> & Ht). open_takes. split; [lia|]. intros s <- Hb.
  unfold read_typed_value, bind, read_value. replace (len data <=? wpos s) with false by lia. rewrite Ed.
  replace (negb (bool_decide (expected = TUnit)) && negb (matches_type v expected)) with false.
  - eexists. split; [done|]. cbn. split; [done|lia].
  - symmetry. apply andb_false_iff. destruct Ht as [->| ->]; [by left|by right].
Qed.

(** *** Each node *)

Context `{!LayoutLaws}.

Lemma heap_size_nonneg v : 0 <= heap_size v.
Proof.
  pose proof value_size_pos. induction v as [|v IH|v IH|a b IHa IHb|vs IH|bs|n|d|b|h] using Value_ind'; cbn [heap_size]; try lia.
  - assert (forall l z, Forall (fun v => 0 <= heap_size v) l -> 0 <= z -> 0 <= fold_left (fun size h => size + h) (map heap_size l) z) as Hl.
    { intros l z Hf. revert z. induction Hf; intros z Hz; cbn [map fold_left]; [done|]. apply IHHf. lia. }
    apply Hl; [done|]. pose proof (list_capacity_len vs). pose proof (len_nonneg vs). nia.
  - pose proof (bytes_capacity_len bs). pose proof (len_nonneg bs). lia.
Qed.

(** Chain the rules of the operations a node performs; [tac] handles the calls. *)
Ltac take_rule tac :=
  first [ tac | eapply takes_bind | apply takes_ret | apply consume_step_takes | apply consume_cell_takes | apply lift_takes
        | apply consume_steps_takes; apply runtime_cost_nonneg
        | apply track_memory_takes; pose proof value_size_pos; auto using heap_size_nonneg; lia
        | apply release_memory_takes; auto using heap_size_nonneg; lia ].
Ltac node_takes En tac :=
  cbn [eval_node]; rewrite En; eapply takes_weaken; [repeat take_rule tac | cbn beta; lia ..].

Abbreviation ev := (eval_node program context typed_nodes data).

Lemma take_iden l id v w : Program_get program id = Some CIden -> takes 1 0 (heap_size v) (ev (S l) id v) w v w.
Proof. intros En. node_takes En ltac:(fail). Qed.
Lemma take_unit l id v w : Program_get program id = Some CUnit -> takes 1 0 0 (ev (S l) id v) w VUnit w.
Proof. intros En. node_takes En ltac:(fail). Qed.
Lemma take_const l id v w r : Program_get program id = Some (CConst r) -> takes 1 0 (heap_size r) (ev (S l) id v) w r w.
Proof. intros En. node_takes En ltac:(fail). Qed.
Lemma take_jet l id j v w r :
  Program_get program id = Some (CJet j) -> jet_eval j v context = Ok r ->
  takes (runtime_cost j v context) 0 (heap_size r) (ev (S l) id v) w r w.
Proof. intros En Ej. cbn [eval_node]. rewrite En, Ej. eapply takes_weaken; [repeat take_rule ltac:(fail) | cbn beta; lia ..]. Qed.
Lemma take_witness l id v w r w' :
  Program_get program id = Some CWitness -> reads (witness_type id) w r w' ->
  takes 1 0 (heap_size r) (ev (S l) id v) w r w'.
Proof. intros En Hr. node_takes En ltac:(by apply read_typed_takes). Qed.

Lemma take_comp l id f g v w m w1 r w2 S1 C1 M1 S2 C2 M2 :
  Program_get program id = Some (CComp f g) ->
  takes S1 C1 M1 (ev l f v) w m w1 -> takes S2 C2 M2 (ev l g m) w1 r w2 ->
  takes (1 + S1 + S2) (C1 + C2) (M1 + M2) (ev (S l) id v) w r w2.
Proof. intros En Hf Hg. node_takes En ltac:(first [exact Hf | exact Hg]). Qed.
Lemma take_pair l id f g v w a w1 b w2 S1 C1 M1 S2 C2 M2 :
  Program_get program id = Some (CPair f g) ->
  takes S1 C1 M1 (ev l f v) w a w1 -> takes S2 C2 M2 (ev l g v) w1 b w2 ->
  takes (1 + S1 + S2) (1 + C1 + C2) (M1 + M2 + 2 * VALUE_SIZE) (ev (S l) id v) w (VPair a b) w2.
Proof. intros En Hf Hg. node_takes En ltac:(first [exact Hf | exact Hg]). Qed.
Lemma take_take l id f a b w r w' S1 C1 M1 :
  Program_get program id = Some (CTake f) -> takes S1 C1 M1 (ev l f a) w r w' ->
  takes (1 + S1) C1 M1 (ev (S l) id (VPair a b)) w r w'.
Proof. intros En Hf. node_takes En ltac:(exact Hf). Qed.
Lemma take_drop l id f a b w r w' S1 C1 M1 :
  Program_get program id = Some (CDrop f) -> takes S1 C1 M1 (ev l f b) w r w' ->
  takes (1 + S1) C1 M1 (ev (S l) id (VPair a b)) w r w'.
Proof. intros En Hf. node_takes En ltac:(exact Hf). Qed.
Lemma take_injl l id f v w r w' S1 C1 M1 :
  Program_get program id = Some (CInjL f) -> takes S1 C1 M1 (ev l f v) w r w' ->
  takes (1 + S1) (1 + C1) (M1 + VALUE_SIZE) (ev (S l) id v) w (VLeft r) w'.
Proof. intros En Hf. node_takes En ltac:(exact Hf). Qed.
Lemma take_injr l id f v w r w' S1 C1 M1 :
  Program_get program id = Some (CInjR f) -> takes S1 C1 M1 (ev l f v) w r w' ->
  takes (1 + S1) (1 + C1) (M1 + VALUE_SIZE) (ev (S l) id v) w (VRight r) w'.
Proof. intros En Hf. node_takes En ltac:(exact Hf). Qed.

Lemma check_payload_takes branch payload msg w :
  payload_fits branch payload -> takes 0 0 0 (check_payload typed_nodes branch payload msg) w tt w.
Proof.
  unfold payload_fits, check_payload. intros Hp. destruct (typed_at typed_nodes branch) as [tn|]; [|apply takes_ret].
  rewrite (Hp tn) by done. apply takes_ret.
Qed.
Lemma take_case_left l id f g a w r w' S1 C1 M1 :
  Program_get program id = Some (CCase f g) -> payload_fits f a -> takes S1 C1 M1 (ev l f a) w r w' ->
  takes (1 + S1) C1 M1 (ev (S l) id (VLeft a)) w r w'.
Proof. intros En Hp Hf. node_takes En ltac:(first [exact Hf | by apply check_payload_takes]). Qed.
Lemma take_case_right l id f g b w r w' S1 C1 M1 :
  Program_get program id = Some (CCase f g) -> payload_fits g b -> takes S1 C1 M1 (ev l g b) w r w' ->
  takes (1 + S1) C1 M1 (ev (S l) id (VRight b)) w r w'.
Proof. intros En Hp Hf. node_takes En ltac:(first [exact Hf | by apply check_payload_takes]). Qed.
Lemma take_case_bool l id f g (c : bool) w r w' S1 C1 M1 :
  Program_get program id = Some (CCase f g) -> on_bool id -> takes S1 C1 M1 (ev l (if c then g else f) VUnit) w r w' ->
  takes (1 + S1) C1 M1 (ev (S l) id (VBool c)) w r w'.
Proof.
  intros En (tn & Ht & Hb) Hf. cbn [eval_node]. rewrite En, Ht, bool_decide_true by done.
  eapply takes_weaken; [eapply takes_bind; [apply consume_step_takes|destruct c; exact Hf] | lia..].
Qed.
Lemma take_rounds_cons (step : Value -> M Value) e es acc h w acc1 w1 r w2 S1 C1 M1 S2 C2 M2 :
  0 <= h -> takes S1 C1 M1 (step (VPair e acc)) w acc1 w1 ->
  takes S2 C2 M2 (fold_rounds step es acc1 (heap_size (VPair e acc))) w1 r w2 ->
  takes (1 + S1 + S2) (C1 + C2) (heap_size e + 2 * VALUE_SIZE + M1 + M2) (fold_rounds step (e :: es) acc h) w r w2.
Proof.
  intros Hh Hs Hr. cbn [fold_rounds]. pose proof (heap_size_nonneg e).
  eapply takes_weaken; [repeat take_rule ltac:(first [exact Hs | exact Hr]) | cbn beta; lia ..].
Qed.
Lemma take_rounds_nil (step : Value -> M Value) acc h w : 0 <= h -> takes 0 0 0 (fold_rounds step [] acc h) w acc w.
Proof. intros Hh. cbn [fold_rounds]. eapply takes_weaken; [repeat take_rule ltac:(fail) | cbn beta; lia ..]. Qed.

(** *** The whole run *)

Hypothesis Hdag : dag (nodes program).

Definition completes (l : nat) (id : Z) (v : Value) (w : Z) (r : Value) (w' : Z) : Prop :=
  exists S C Mm, takes S C Mm (ev l id v) w r w'.
(** Every sufficient depth completes the run. *)
Definition depth_completes (id : Z) (v : Value) (w : Z) (r : Value) (w' : Z) : Prop :=
  0 <= id -> forall l, depth_at program (Z.to_nat id) <= Z.of_nat l -> completes l id v w r w'.
Definition rounds_complete (f : Z) (es : list Value) (acc : Value) (w : Z) (r : Value) (w' : Z) : Prop :=
  0 <= f -> forall l, depth_at program (Z.to_nat f) <= Z.of_nat l -> forall h, 0 <= h ->
  exists S C Mm, takes S C Mm (fold_rounds (ev l f) es acc h) w r w'.

(** A node in range needs one level, and leaves enough for its children. *)
Lemma depth_levels id node l :
  Program_get program id = Some node -> 0 <= id -> depth_at program (Z.to_nat id) <= Z.of_nat l ->
  exists l', l = S l' /\
    forall ch, ch ∈ children_of node -> 0 <= ch /\ depth_at program (Z.to_nat ch) <= Z.of_nat l'.
Proof.
  unfold Program_get. intros En Hid Hl. pose proof (depth_at_pos program Hdag (Z.to_nat id) (lookup_lt_Some _ _ _ En)).
  destruct l as [|l']; [lia|]. exists l'. split; [done|]. intros ch Hch. pose proof (Hdag _ _ _ En Hch).
  assert (edge program (Z.to_nat id) (Z.to_nat ch)) as He by (exists node; by rewrite Z2Nat.id by lia).
  apply edge_depth in He; [lia|done].
Qed.

Ltac children :=
  match goal with
  | En : Program_get program ?id = Some _ |- depth_completes ?id _ _ _ _ =>
      let Hid := fresh in let Hl := fresh in let Hch := fresh "Hch" in
      intros Hid l Hl; destruct (depth_levels _ _ _ En Hid Hl) as (l' & -> & Hch); cbn [children_of] in Hch
  end.
Ltac use_child Hch :=
  repeat match goal with
  | IH : depth_completes ?ch _ _ _ _ |- _ =>
      destruct (IH (proj1 (Hch ch ltac:(set_solver))) _ (proj2 (Hch ch ltac:(set_solver)))) as (? & ? & ? & ?); clear IH
  | IH : rounds_complete ?ch _ _ _ _ _ |- _ =>
      destruct (IH (proj1 (Hch ch ltac:(set_solver))) _ (proj2 (Hch ch ltac:(set_solver))) 0 ltac:(lia)) as (? & ? & ? & ?); clear IH
  end.

Lemma runs_complete_all :
  (forall id v w r w', runs id v w r w' -> depth_completes id v w r w') /\
  (forall f es acc w r w', rounds f es acc w r w' -> rounds_complete f es acc w r w').
Proof.
  apply runs_rounds_ind; intros; try (children; use_child Hch; unfold completes).
  - do 3 eexists. by apply take_iden.
  - do 3 eexists. by apply take_unit.
  - do 3 eexists. by eapply take_comp.
  - do 3 eexists. by eapply take_pair.
  - do 3 eexists. by eapply take_take.
  - do 3 eexists. by eapply take_drop.
  - do 3 eexists. by eapply take_injl.
  - do 3 eexists. by eapply take_injr.
  - do 3 eexists. by eapply take_case_left.
  - do 3 eexists. by eapply take_case_right.
  - assert ((if c then g else f) ∈ [f; g]) as Hin by (destruct c; set_solver).
    match goal with IH : depth_completes _ _ _ _ _ |- _ => destruct (IH (proj1 (Hch _ Hin)) _ (proj2 (Hch _ Hin))) as (? & ? & ? & ?) end.
    do 3 eexists. by eapply take_case_bool.
  - match goal with En : Program_get _ _ = Some _ |- _ => rename En into Hn end.
    do 3 eexists. cbn [eval_node]. rewrite Hn. eapply takes_bind; [apply consume_step_takes|]. by eapply takes_bind.
  - match goal with En : Program_get _ _ = Some _ |- _ => rename En into Hn end.
    do 3 eexists. cbn [eval_node]. rewrite Hn. eapply takes_bind; [apply consume_step_takes|]. by eapply takes_bind.
  - do 3 eexists. by apply take_jet.
  - do 3 eexists. by apply take_witness.
  - do 3 eexists. by apply take_const.
  - intros ? l ? h Hh. do 3 eexists. by apply take_rounds_nil.
  - intros Hf l Hl h Hh. match goal with IH : depth_completes _ _ _ _ _ |- _ => destruct (IH Hf l Hl) as (? & ? & ? & ?) end.
    match goal with IH : rounds_complete _ _ _ _ _ _ |- _ =>
      destruct (IH Hf l Hl (heap_size (VPair e acc)) (heap_size_nonneg _)) as (? & ? & ? & ?) end.
    do 3 eexists. by eapply take_rounds_cons.
Qed.
End BigStep.

(** ** The interpreter implements the semantics *)

Section Refinement.
Context `{Sha2} `{Ed25519} `{Layout} `{!LayoutLaws}.

(** A script accepts: it runs on the whole witness and returns [v]. *)
Definition script_returns (p : Program) (ts : list TypedNode) (c : ScriptContext) (input : Value) (w : bytes) (v : Value) : Prop :=
  exists w', runs p c ts w (root p) input 0 v w' /\ len w <= w'.

Lemma evaluate_runs p input w b c v b' :
  evaluate_with_context p input w b c = (Ok v, b') ->
  exists ts, typecheck p = Ok ts /\ script_returns p ts c input w v.
Proof.
  unfold evaluate_with_context. destruct (typecheck p) as [ts|]; [|done].
  destruct (eval_node p c ts w _ _ _ _) as [[r|e] s] eqn:Ee; [|done].
  destruct (Z.ltb_spec (wpos s) (len w)); [done|]. intros [= -> _]. exists ts. split; [done|].
  apply eval_node_runs in Ee. by eexists.
Qed.

(** From the cost of the root node to the cost of the evaluation. *)
Lemma takes_evaluate p input w b c ts v w' S C Mm :
  typecheck p = Ok ts ->
  takes S C Mm (eval_node p c ts w (Z.to_nat (MAX_EVAL_DEPTH + 1)) (root p) input) 0 v w' -> len w <= w' ->
  room S C Mm b -> exists b', evaluate_with_context p input w b c = (Ok v, b') /\ spent S C Mm b b'.
Proof.
  intros Ht [_ Hr] Hw Hb. unfold evaluate_with_context. rewrite Ht.
  destruct (Hr {| budget := b; wpos := 0 |} eq_refl Hb) as (s' & -> & Hs & Hsp). subst w'.
  replace (wpos s' <? len w) with false by lia. eauto.
Qed.

(** C35: The interpreter refines the big-step semantics.  Whatever the budget, a
    successful evaluation is a run of the semantics that reads the witness to
    its end; and for a program within the depth limit every such run is found,
    by every budget from some size on. *)
Theorem evaluate_refines_semantics (p : Program) (ts : list TypedNode) (input : Value) (w : bytes) (c : ScriptContext) (v : Value) :
  typecheck p = Ok ts -> 0 <= root p -> max_depth p <= MAX_EVAL_DEPTH ->
  (forall b, fst (evaluate_with_context p input w b c) = Ok v -> script_returns p ts c input w v) /\
  (script_returns p ts c input w v ->
   exists S C Mm, forall b, room S C Mm b -> fst (evaluate_with_context p input w b c) = Ok v).
Proof.
  intros Ht Hroot Hd. split.
  - intros b Hb. destruct (evaluate_with_context p input w b c) as [r b'] eqn:Ee. cbn in Hb. subst r.
    apply evaluate_runs in Ee as (ts' & Ht' & Hr). congruence.
  - intros (w' & Hr & Hw).
    assert (valid p) as Hv by (unfold typecheck, valid in *; destruct (validate_structure p) as [[]|]; [done|discriminate]).
    destruct (valid_nonempty p Hv) as [Hlt _]. unfold max_depth in Hd. replace (len (nodes p) =? 0) with false in Hd by lia.
    destruct (proj1 (runs_complete_all p c ts w (valid_dag p Hv)) _ _ _ _ _ Hr Hroot (Z.to_nat (MAX_EVAL_DEPTH + 1)))
      as (S & C & Mm & Hm); [unfold depth_at, MAX_EVAL_DEPTH in *; lia|].
    exists S, C, Mm. intros b Hb. destruct (takes_evaluate _ _ _ b _ _ _ _ _ _ _ Ht Hm Hw Hb) as (b' & -> & _). done.
Qed.
End Refinement.

(** ** Witnesses *)

#[export] Instance toy_layout_laws : @LayoutLaws toy_layout.
Proof. split; [done|intros; cbn; lia|intros; cbn; lia]. Qed.

Lemma evaluate_refines_semantics_witness :
  exists S C Mm, forall b, room S C Mm b -> fst (run_seven seven_witness b) = Ok (VBool true).
Proof.
  destruct (typecheck seven_program) as [ts|] eqn:Et; [|exfalso; revert Et; vm_compute; discriminate].
  destruct (@evaluate_refines_semantics toy_digest toy_ed25519 toy_layout toy_layout_laws seven_program ts VUnit seven_witness
              ScriptContext_empty (VBool true)) as [Hsound Hcomplete];
    [exact Et | vm_compute; discriminate | vm_compute; discriminate |].
  apply Hcomplete, (Hsound (Budget_new 1000 1000)). vm_compute. reflexivity.
Defined.
