(* ===== verification/Reward.v ===== *)
(** * Block subsidy and amounts ([src/consensus/reward.rs], [src/types/amount.rs])

    The subsidy decays by half every [HALF_LIFE] blocks, computed in Q64.64
    fixed point with a 4097-entry table and linear interpolation.  The model
    computes the table with the source's recurrence. *)

From S2P Require Import Prelude Bytes.

Definition BASE_REWARD : Z := 100000000.
Definition DECAY_COMPONENT : Z := 9900000000.
Definition HALF_LIFE : Z := 6307200.
Definition LUT_SIZE : nat := 4097.
Definition LUT_K : Z := 18443622869203936790.

(** [table[i] = (table[i - 1] * k) >> 64] *)
Definition lut_next (x : Z) : Z := Z.shiftr (x * LUT_K) 64.
Fixpoint lut_from (n : nat) (x : Z) : list Z :=
  match n with O => [] | S n => x :: lut_from n (lut_next x) end.
Definition build_lut : list Z := lut_from LUT_SIZE (2 ^ 64).
Definition LUT (i : Z) : Z := default 0 (build_lut !! Z.to_nat i).

Definition block_reward (height : Z) : Z :=
  let q := height / HALF_LIFE in
  let r := height mod HALF_LIFE in
  if 128 <=? q then BASE_REWARD
  else
    let bucket_size := div_ceil HALF_LIFE 4096 in
    let bucket := r / bucket_size in
    let frac := r mod bucket_size in
    let lut_lo := LUT bucket in
    let lut_hi := LUT (bucket + 1) in
    let diff := lut_lo - lut_hi in
    let interp := lut_lo - diff * frac / bucket_size in
    let product := DECAY_COMPONENT * interp in
    let shift := 64 + q in
    let decay := if 128 <=? shift then 0 else Z.shiftr product shift in
    BASE_REWARD + decay.

(** ** Amounts *)

Definition EXFER : Z := 100000000.
Definition Amount_from_exfer (exfer : Z) : option Z := checked_mul U64_MAX exfer EXFER.
Definition Amount_checked_add (a b : Z) : option Z := checked_add U64_MAX a b.
Definition Amount_checked_sub (a b : Z) : option Z := checked_sub U64_MAX a b.
Fixpoint sum_amounts_from (total : Z) (amounts : list Z) : option Z :=
  match amounts with
  | [] => Some total
  | a :: amounts => let! total := Amount_checked_add total a in sum_amounts_from total amounts
  end.
Definition sum_amounts (amounts : list Z) : option Z := sum_amounts_from 0 amounts.

(** ** The table *)

(** The [i]-th iterate of the recurrence. *)
Definition lut_val (i : nat) : Z := Nat.iter i lut_next (2 ^ 64).

Lemma lut_from_lookup n x i : (i < n)%nat -> lut_from n x !! i = Some (Nat.iter i lut_next x).
Proof.
  revert x i. induction n as [|n IH]; intros x [|i] Hi; try lia; [done|].
  simpl. rewrite IH by lia. f_equal. clear. induction i as [|i IH]; [done|]. simpl. by rewrite IH.
Qed.

Lemma LUT_val i : 0 <= i <= 4096 -> LUT i = lut_val (Z.to_nat i).
Proof. intros Hi. unfold LUT, build_lut, LUT_SIZE. rewrite lut_from_lookup by lia. done. Qed.

Lemma lut_next_bounds x : 0 <= x -> 0 <= lut_next x <= x.
Proof.
  intros Hx. unfold lut_next. rewrite Z.shiftr_div_pow2 by lia. change (2 ^ 64) with 18446744073709551616.
  unfold LUT_K. split; [apply Z.div_pos; lia|]. apply Z.div_le_upper_bound; lia.
Qed.

Lemma lut_val_bounds i : 0 <= lut_val (S i) <= lut_val i /\ lut_val i <= 2 ^ 64.
Proof.
  assert (forall n, lut_val (S n) = lut_next (lut_val n)) as HS by reflexivity.
  induction i as [|i [[H0 H1] H2]].
  - split; [rewrite HS; apply lut_next_bounds; done|reflexivity].
  - split; [|lia]. rewrite HS. by apply lut_next_bounds.
Qed.
Lemma lut_val_nonneg i : 0 <= lut_val i.
Proof. destruct (lut_val_bounds i). lia. Qed.

(** The last entry: at least one half. *)
Lemma lut_last : lut_val 4096 = 9223758693993446757.
Proof. vm_compute. reflexivity. Qed.

(** ** Interpolation *)

Abbreviation BUCKET := 1540.

Definition interp (r : Z) : Z :=
  LUT (r / BUCKET) - (LUT (r / BUCKET) - LUT (r / BUCKET + 1)) * (r mod BUCKET) / BUCKET.

Lemma bucket_range r : 0 <= r < HALF_LIFE -> 0 <= r / BUCKET <= 4095.
Proof.
  unfold HALF_LIFE. intros Hr. split; [apply Z.div_pos; lia|].
  apply Z.lt_succ_r, Z.div_lt_upper_bound; lia.
Qed.

Lemma interp_between r :
  0 <= r < HALF_LIFE -> LUT (r / BUCKET + 1) <= interp r <= LUT (r / BUCKET).
Proof.
  intros Hr. pose proof (bucket_range r Hr) as Hb. unfold interp. rewrite !LUT_val by lia.
  replace (Z.to_nat (r / BUCKET + 1)) with (S (Z.to_nat (r / BUCKET))) by lia.
  destruct (lut_val_bounds (Z.to_nat (r / BUCKET))) as [Hd _].
  set (a := lut_val (Z.to_nat (r / BUCKET))) in *. set (b := lut_val (S _)) in *.
  pose proof (Z.mod_pos_bound r BUCKET eq_refl) as Hm.
  assert (0 <= (a - b) * (r mod BUCKET) / BUCKET) by (apply Z.div_pos; nia).
  assert ((a - b) * (r mod BUCKET) / BUCKET <= a - b) by (apply Z.div_le_upper_bound; nia).
  lia.
Qed.

(** One block later, within a half-life. *)
Lemma interp_step r : 0 <= r -> r + 1 < HALF_LIFE -> interp (r + 1) <= interp r.
Proof.
  intros H0 Hr. pose proof (Z.div_mod r BUCKET) as Hd. pose proof (Z.mod_pos_bound r BUCKET eq_refl) as Hm.
  destruct (decide (r mod BUCKET = BUCKET - 1)) as [E|E].
  - assert (r + 1 = (r / BUCKET + 1) * BUCKET) as Er by lia.
    transitivity (LUT (r / BUCKET + 1)); [|apply interp_between; lia].
    replace (r / BUCKET + 1) with ((r + 1) / BUCKET) by (rewrite Er, Z.div_mul; lia).
    apply interp_between. lia.
  - assert ((r + 1) / BUCKET = r / BUCKET) as Eq.
    { symmetry. apply Z.div_unique with (r mod BUCKET + 1); lia. }
    assert ((r + 1) mod BUCKET = r mod BUCKET + 1) as Em by (rewrite Z.mod_eq, Eq; lia).
    unfold interp. rewrite Eq, Em. pose proof (bucket_range r ltac:(lia)) as Hb.
    rewrite !LUT_val by lia. replace (Z.to_nat (r / BUCKET + 1)) with (S (Z.to_nat (r / BUCKET))) by lia.
    destruct (lut_val_bounds (Z.to_nat (r / BUCKET))) as [Hv _].
    enough ((lut_val (Z.to_nat (r / BUCKET)) - lut_val (S (Z.to_nat (r / BUCKET)))) * (r mod BUCKET) / BUCKET
         <= (lut_val (Z.to_nat (r / BUCKET)) - lut_val (S (Z.to_nat (r / BUCKET)))) * (r mod BUCKET + 1) / BUCKET) by lia.
    apply Z.div_le_mono; nia.
Qed.

Lemma interp_bounds r : 0 <= r < HALF_LIFE -> 2 ^ 63 <= interp r <= 2 ^ 64.
Proof.
  intros Hr. pose proof (interp_between r Hr) as Hi. pose proof (bucket_range r Hr) as Hb.
  rewrite !LUT_val in Hi by lia. destruct (lut_val_bounds (Z.to_nat (r / BUCKET))) as [_ Hu].
  assert (lut_val 4096 <= lut_val (Z.to_nat (r / BUCKET + 1))) as Hlast.
  { assert (forall n m, (n <= m)%nat -> lut_val m <= lut_val n) as Hmono.
    { intros n m. induction 1 as [|m _ IH]; [done|]. destruct (lut_val_bounds m). lia. }
    apply Hmono. lia. }
  rewrite lut_last in Hlast. change (2 ^ 63) with 9223372036854775808. lia.
Qed.

(** ** The subsidy *)

Definition decay (q r : Z) : Z := Z.shiftr (DECAY_COMPONENT * interp r) (64 + q).

Lemma decay_div q r : 0 <= q -> decay q r = DECAY_COMPONENT * interp r / 2 ^ (64 + q).
Proof. intros. unfold decay. by rewrite Z.shiftr_div_pow2 by lia. Qed.

Lemma decay_range q r : 0 <= q -> 0 <= r < HALF_LIFE -> 0 <= decay q r <= DECAY_COMPONENT.
Proof.
  intros Hq Hr. rewrite decay_div by done. destruct (interp_bounds r Hr) as [Hl Hu].
  assert (0 < 2 ^ q) by (apply Z.pow_pos_nonneg; lia).
  rewrite Z.pow_add_r by lia. change (2 ^ 63) with 9223372036854775808 in *.
  change (2 ^ 64) with 18446744073709551616 in *. unfold DECAY_COMPONENT.
  split; [apply Z.div_pos; nia|]. apply Z.div_le_upper_bound; nia.
Qed.

Lemma reward_split h :
  0 <= h -> block_reward h = BASE_REWARD + if 64 <=? h / HALF_LIFE then 0 else decay (h / HALF_LIFE) (h mod HALF_LIFE).
Proof.
  intros Hh. unfold block_reward, decay, interp.
  assert (div_ceil HALF_LIFE 4096 = BUCKET) as -> by reflexivity. cbv zeta.
  destruct (Z.leb_spec 128 (h / HALF_LIFE)), (Z.leb_spec 64 (h / HALF_LIFE)),
    (Z.leb_spec 128 (64 + h / HALF_LIFE)); try lia.
Qed.

Lemma half_life_div h : 0 <= h -> 0 <= h / HALF_LIFE /\ 0 <= h mod HALF_LIFE < HALF_LIFE.
Proof. intros. split; [apply Z.div_pos; done|]. by apply Z.mod_pos_bound. Qed.

Lemma decay_step q r : 0 <= q -> 0 <= r -> r + 1 < HALF_LIFE -> decay q (r + 1) <= decay q r.
Proof.
  intros Hq Hr Hr1. rewrite !decay_div by done. pose proof (interp_step r Hr Hr1).
  apply Z.div_le_mono; [apply Z.pow_pos_nonneg; lia|]. unfold DECAY_COMPONENT. lia.
Qed.

(** Across a half-life boundary. *)
Lemma decay_boundary q : 0 <= q -> decay (q + 1) 0 <= decay q (HALF_LIFE - 1).
Proof.
  intros Hq. rewrite !decay_div by lia.
  assert (interp 0 = 2 ^ 64) as -> by (vm_compute; reflexivity).
  destruct (interp_bounds (HALF_LIFE - 1) ltac:(unfold HALF_LIFE; lia)) as [Hl _].
  replace (64 + (q + 1)) with (1 + (64 + q)) by lia. rewrite Z.pow_add_r by lia.
  assert (0 < 2 ^ (64 + q)) by (apply Z.pow_pos_nonneg; lia).
  replace (DECAY_COMPONENT * 2 ^ 64) with (2 ^ 1 * (DECAY_COMPONENT * 2 ^ 63)) by reflexivity.
  rewrite Z.div_mul_cancel_l by (change (2 ^ 1) with 2; lia).
  apply Z.div_le_mono; [done|]. unfold DECAY_COMPONENT. nia.
Qed.

Lemma reward_step h : 0 <= h -> block_reward (h + 1) <= block_reward h.
Proof.
  intros Hh. rewrite !reward_split by lia. destruct (half_life_div h Hh) as [Hq Hr].
  pose proof (Z.div_mod h HALF_LIFE ltac:(done)) as Hd.
  assert (0 < HALF_LIFE) as Hpos by done.
  destruct (decide (h mod HALF_LIFE + 1 = HALF_LIFE)) as [E|E].
  - assert ((h + 1) / HALF_LIFE = h / HALF_LIFE + 1) as Eq by (symmetry; apply Z.div_unique with 0; lia).
    assert ((h + 1) mod HALF_LIFE = 0) as Em by (rewrite Z.mod_eq, Eq; lia). rewrite Eq, Em.
    replace (h mod HALF_LIFE) with (HALF_LIFE - 1) by lia.
    pose proof (decay_boundary (h / HALF_LIFE) Hq).
    pose proof (decay_range (h / HALF_LIFE) (HALF_LIFE - 1) Hq ltac:(lia)).
    destruct (Z.leb_spec 64 (h / HALF_LIFE + 1)), (Z.leb_spec 64 (h / HALF_LIFE)); lia.
  - assert ((h + 1) / HALF_LIFE = h / HALF_LIFE) as Eq
      by (symmetry; apply Z.div_unique with (h mod HALF_LIFE + 1); lia).
    assert ((h + 1) mod HALF_LIFE = h mod HALF_LIFE + 1) as Em by (rewrite Z.mod_eq, Eq; lia). rewrite Eq, Em.
    pose proof (decay_step (h / HALF_LIFE) (h mod HALF_LIFE) Hq ltac:(lia) ltac:(lia)).
    destruct (Z.leb_spec 64 (h / HALF_LIFE)); lia.
Qed.

(** ** Properties *)

Lemma reward_monotone h h' : 0 <= h <= h' -> block_reward h' <= block_reward h.
Proof.
  intros Hh. replace h' with (h + Z.of_nat (Z.to_nat (h' - h))) by lia.
  induction (Z.to_nat (h' - h)) as [|n IH]; [by rewrite Z.add_0_r|].
  replace (h + Z.of_nat (S n)) with (h + Z.of_nat n + 1) by lia.
  etransitivity; [apply reward_step; lia|done].
Qed.

Lemma reward_bounds h : 0 <= h -> BASE_REWARD <= block_reward h <= BASE_REWARD + DECAY_COMPONENT.
Proof.
  intros Hh. rewrite reward_split by lia. destruct (half_life_div h ltac:(lia)) as [Hq Hr]. pose proof (decay_range _ _ Hq Hr).
  destruct (64 <=? h / HALF_LIFE); unfold DECAY_COMPONENT in *; lia.
Qed.

(** The emission schedule: the block subsidy never increases with the height,
    lies between [BASE_REWARD] and [BASE_REWARD + DECAY_COMPONENT] at every
    height (so the final checked addition cannot fail), starts at the upper
    bound, takes the values pinned by the consensus vectors and ends at
    [BASE_REWARD]. *)
Theorem block_reward_schedule (h h' : Z) :
  0 <= h <= h' ->
  block_reward h' <= block_reward h /\
  BASE_REWARD <= block_reward h <= BASE_REWARD + DECAY_COMPONENT /\
  map block_reward [0; 1; 100; 1000; 4320; 10000; 43200; 100000; 6307200; 12614400; 18921600; 63072000; 630720000] =
    [10000000000; 9999998912; 9999891228; 9998912280; 9995301790; 9989127892; 9953117900; 9891814300;
     5050000000; 2575000000; 1337500000; 109667968; 100000000] /\
  block_reward U64_MAX = BASE_REWARD.
Proof.
  intros Hh. split; [by apply reward_monotone|]. split; [apply reward_bounds; lia|split; vm_compute; reflexivity].
Qed.

(** [sum_amounts] returns the exact sum of the amounts, and fails exactly when
    the sum does not fit 64 bits. *)
Theorem sum_amounts_exact amounts :
  Forall (fun a => 0 <= a) amounts ->
  sum_amounts amounts =
    if fold_right Z.add 0 amounts <=? U64_MAX then Some (fold_right Z.add 0 amounts) else None.
Proof.
  intros Ha. unfold sum_amounts.
  assert (forall t, 0 <= t <= U64_MAX -> sum_amounts_from t amounts =
    if t + fold_right Z.add 0 amounts <=? U64_MAX then Some (t + fold_right Z.add 0 amounts) else None) as Hgen;
    [|by rewrite Hgen].
  induction Ha as [|a l Ha Hl IH]; intros t Ht; simpl.
  - rewrite Z.add_0_r. by replace (t <=? U64_MAX) with true by lia.
  - assert (0 <= fold_right Z.add 0 l) by (clear IH; induction Hl; simpl; lia).
    unfold Amount_checked_add, checked_add, checked. replace (0 <=? t + a) with true by lia. cbn [andb].
    destruct (Z.leb_spec (t + a) U64_MAX).
    + rewrite IH by lia. by rewrite Z.add_assoc.
    + replace (_ <=? U64_MAX) with false by lia. done.
Qed.

(** ** Witnesses *)

Lemma block_reward_schedule_witness : block_reward 4320 <= block_reward 1000.
Proof. apply (block_reward_schedule 1000 4320). lia. Defined.

Lemma sum_amounts_exact_witness : sum_amounts [1; 2; U64_MAX - 3] = Some U64_MAX.
Proof.
  refine (eq_trans (sum_amounts_exact [1; 2; U64_MAX - 3] _) _); [|vm_compute; reflexivity].
  repeat (apply Forall_cons; split; [vm_compute; discriminate|]). apply Forall_nil. exact I.
Defined.
