(* ===== verification/FeeCost.v ===== *)
(** * Transaction cost and minimum fee ([src/consensus/cost.rs])

    The two cost functions differ in the script components only; intermediate
    sums are [u128] and wrap, the result must fit [u64].  The signature domain
    of the process is an argument. *)

From S2P Require Import Prelude Bytes Codec Hash Transaction.
#[local] Open Scope Z_scope.
#[local] Open Scope list_scope.

Definition UTXO_LOOKUP_COST : Z := 100.
Definition UTXO_CREATE_COST : Z := 100.
Definition SMT_DELETE_COST : Z := 500.
Definition SMT_INSERT_COST : Z := 500.
Definition MIN_FEE_DIVISOR : Z := 100.
Definition PHASE1_SCRIPT_EVAL_COST : Z := 5000.
Definition OUTPUT_TYPECHECK_COST : Z := 1000.

Definition is_phase1_script (script_bytes : bytes) : bool := len script_bytes =? 32.

(** The divisors in use are the constants 64 and 100. *)
Definition ceil_div_u128 (a b : Z) : option Z :=
  let result := div_ceil a b in
  if U64_MAX <? result then None else Some result.

Definition add128 (a b : Z) : Z := wrap128 (a + b).

(** [if n > 0 { total += ceil_div(n, 64)? }] *)
Definition add_chunks (total n : Z) : option Z :=
  if 0 <? n then let! cost := ceil_div_u128 n 64 in Some (add128 total cost) else Some total.

Fixpoint output_typecheck_cost (outs : list TxOutput) (total : Z) : Z :=
  match outs with
  | [] => total
  | o :: outs =>
      output_typecheck_cost outs
        (if negb (is_phase1_script (script o)) then add128 total OUTPUT_TYPECHECK_COST else total)
  end.

Fixpoint witness_deser_cost (ws : list TxWitness) (total : Z) : option Z :=
  match ws with
  | [] => Some total
  | w :: ws =>
      let! total := add_chunks total (len (witness w)) in
      let! total := match redeemer w with Some r => add_chunks total (len r) | None => Some total end in
      witness_deser_cost ws total
  end.

Fixpoint datum_deser_cost (outs : list TxOutput) (total : Z) : option Z :=
  match outs with
  | [] => Some total
  | o :: outs =>
      let! total := match datum o with Some d => add_chunks total (len d) | None => Some total end in
      datum_deser_cost outs total
  end.

Definition ok {E A} (r : result E A) : option A := match r with Ok a => Some a | Err _ => None end.

Definition tx_cost_with_script_cost (tx : Transaction) (script_eval_cost script_validation_cost : Z) : option Z :=
  let input_count := len (inputs tx) in
  let output_count := len (outputs tx) in
  let output_typecheck_cost := output_typecheck_cost (outputs tx) 0 in
  let! witness_deser_cost := witness_deser_cost (witnesses tx) 0 in
  let! datum_deser_cost := datum_deser_cost (outputs tx) 0 in
  let! total_tx_bytes := ok (Transaction_serialize tx) in
  let! tx_deser_cost := ceil_div_u128 (len total_tx_bytes) 64 in
  let utxo_io_cost := add128 (wrap128 (input_count * UTXO_LOOKUP_COST)) (wrap128 (output_count * UTXO_CREATE_COST)) in
  let smt_cost := add128 (wrap128 (input_count * SMT_DELETE_COST)) (wrap128 (output_count * SMT_INSERT_COST)) in
  let total := add128 (add128 (add128 (add128 (add128 (add128 (add128 script_eval_cost output_typecheck_cost)
                 witness_deser_cost) datum_deser_cost) tx_deser_cost) utxo_io_cost) smt_cost) script_validation_cost in
  if U64_MAX <? total then None else Some total.

Definition min_fee_with_script_cost (tx : Transaction) (script_eval_cost script_validation_cost : Z) : option Z :=
  let! cost := tx_cost_with_script_cost tx script_eval_cost script_validation_cost in
  ceil_div_u128 cost MIN_FEE_DIVISOR.

Section Fee.
Variable signature_domain : Hash256.

Definition tx_cost (tx : Transaction) : option Z :=
  let input_count := len (inputs tx) in
  let output_count := len (outputs tx) in
  let! message := ok (sig_message signature_domain tx) in
  let sig_message_bytes := len message in
  let per_input_cost := add128 PHASE1_SCRIPT_EVAL_COST (wrap128 (div_ceil sig_message_bytes 64 * 8)) in
  let script_eval_cost := wrap128 (input_count * per_input_cost) in
  let output_typecheck_cost := output_typecheck_cost (outputs tx) 0 in
  let! witness_deser_cost := witness_deser_cost (witnesses tx) 0 in
  let! datum_deser_cost := datum_deser_cost (outputs tx) 0 in
  let! total_tx_bytes := ok (Transaction_serialize tx) in
  let! tx_deser_cost := ceil_div_u128 (len total_tx_bytes) 64 in
  let utxo_io_cost := add128 (wrap128 (input_count * UTXO_LOOKUP_COST)) (wrap128 (output_count * UTXO_CREATE_COST)) in
  let smt_cost := add128 (wrap128 (input_count * SMT_DELETE_COST)) (wrap128 (output_count * SMT_INSERT_COST)) in
  let script_validation_cost := 0 in
  let total := add128 (add128 (add128 (add128 (add128 (add128 (add128 script_eval_cost output_typecheck_cost)
                 witness_deser_cost) datum_deser_cost) tx_deser_cost) utxo_io_cost) smt_cost) script_validation_cost in
  if U64_MAX <? total then None else Some total.

Definition min_fee (tx : Transaction) : option Z :=
  let! cost := tx_cost tx in
  ceil_div_u128 cost MIN_FEE_DIVISOR.
End Fee.

(** ** The costs without wrap-around *)

Definition MAX_TX_SIZE : Z := 1048576.

(** 64-byte chunks. *)
Definition chunks (n : Z) : Z := div_ceil n 64.

Lemma chunks_range n : 0 <= n -> 0 <= chunks n <= n.
Proof.
  intros Hn. unfold chunks, div_ceil. split; [apply Z.div_pos; lia|].
  destruct (Z.eq_dec n 0) as [->|]; [done|]. apply Z.div_le_upper_bound; lia.
Qed.

Lemma ceil_div_chunks n : 0 <= n <= U64_MAX -> ceil_div_u128 n 64 = Some (chunks n).
Proof.
  intros Hn. unfold ceil_div_u128. fold (chunks n). pose proof (chunks_range n ltac:(lia)).
  by replace (U64_MAX <? chunks n) with false by lia.
Qed.

Lemma add128_small a b : 0 <= a -> 0 <= b -> a + b < 2 ^ 128 -> add128 a b = a + b.
Proof. intros Ha Hb Hab. apply Z.mod_small. lia. Qed.
Lemma wrap128_small a : 0 <= a < 2 ^ 128 -> wrap128 a = a.
Proof. apply Z.mod_small. Qed.

Lemma add_chunks_small t n :
  0 <= t < 2 ^ 64 -> 0 <= n <= U16_MAX -> add_chunks t n = Some (t + chunks n).
Proof.
  intros Ht Hn. unfold add_chunks. destruct (Z.ltb_spec 0 n) as [Hp|Hz].
  - assert (U16_MAX <= U64_MAX) by done. rewrite ceil_div_chunks by lia. pose proof (chunks_range n ltac:(lia)).
    rewrite add128_small; unfold U16_MAX in *; lia || done.
  - replace n with 0 by lia. change (chunks 0) with 0. by rewrite Z.add_0_r.
Qed.

Definition typecheck_sum (outs : list TxOutput) : Z :=
  fold_right (fun o t => (if is_phase1_script (script o) then 0 else OUTPUT_TYPECHECK_COST) + t) 0 outs.
Definition witness_sum (ws : list TxWitness) : Z :=
  fold_right (fun w t => chunks (len (witness w)) + default 0 ((fun r => chunks (len r)) <$> redeemer w) + t) 0 ws.
Definition datum_sum (outs : list TxOutput) : Z :=
  fold_right (fun o t => default 0 ((fun d => chunks (len d)) <$> datum o) + t) 0 outs.

Lemma typecheck_sum_range outs : 0 <= typecheck_sum outs <= OUTPUT_TYPECHECK_COST * len outs.
Proof.
  induction outs as [|o outs IH]; [done|]. rewrite len_cons. cbn [typecheck_sum fold_right]. fold (typecheck_sum outs).
  unfold OUTPUT_TYPECHECK_COST in *. destruct (is_phase1_script _); lia.
Qed.

Lemma typecheck_exact outs t :
  0 <= t -> t + OUTPUT_TYPECHECK_COST * len outs < 2 ^ 128 -> output_typecheck_cost outs t = t + typecheck_sum outs.
Proof.
  revert t. induction outs as [|o outs IH]; intros t Ht Hb; cbn [output_typecheck_cost]; [cbn; lia|].
  rewrite len_cons in Hb. cbn [typecheck_sum fold_right]. fold (typecheck_sum outs). unfold OUTPUT_TYPECHECK_COST in *.
  pose proof (len_nonneg outs). destruct (is_phase1_script _); cbn [negb].
  - rewrite IH; lia.
  - rewrite add128_small, IH; lia.
Qed.

(** One witness costs at most [2 * U16_MAX] chunks. *)
Lemma witness_exact ws t :
  Forall TxWitness_wf ws -> 0 <= t -> t + 2 * U16_MAX * len ws < 2 ^ 64 ->
  witness_deser_cost ws t = Some (t + witness_sum ws) /\ 0 <= witness_sum ws <= 2 * U16_MAX * len ws.
Proof.
  intros Hws. revert t. induction Hws as [|w ws [Hw Hr] _ IH]; intros t Ht Hb.
  { cbn. rewrite Z.add_0_r. done. }
  rewrite len_cons in *. cbn [witness_deser_cost witness_sum fold_right]. fold (witness_sum ws).
  pose proof (len_nonneg (witness w)). pose proof (len_nonneg ws). pose proof (chunks_range (len (witness w)) ltac:(lia)).
  assert (0 <= U16_MAX) by done. rewrite add_chunks_small by nia. destruct (redeemer w) as [r|]; cbn [fmap option_fmap option_map default from_option].
  - unfold MAX_REDEEMER_SIZE in Hr. pose proof (len_nonneg r). pose proof (chunks_range (len r) ltac:(lia)).
    assert (16384 <= U16_MAX) by done. rewrite add_chunks_small by nia.
    destruct (IH (t + chunks (len (witness w)) + chunks (len r)) ltac:(lia) ltac:(nia)) as [-> Hs].
    unfold id. split; [f_equal; lia|nia].
  - destruct (IH (t + chunks (len (witness w))) ltac:(lia) ltac:(nia)) as [-> Hs]. split; [f_equal; lia|nia].
Qed.

Lemma datum_exact outs t :
  Forall TxOutput_wf outs -> 0 <= t -> t + U16_MAX * len outs < 2 ^ 64 ->
  datum_deser_cost outs t = Some (t + datum_sum outs) /\ 0 <= datum_sum outs <= U16_MAX * len outs.
Proof.
  intros Ho. revert t. induction Ho as [|o outs (_ & _ & Hd & _) _ IH]; intros t Ht Hb.
  { cbn. rewrite Z.add_0_r. done. }
  rewrite len_cons in *. cbn [datum_deser_cost datum_sum fold_right]. fold (datum_sum outs).
  pose proof (len_nonneg outs). assert (4096 <= U16_MAX) by done. destruct (datum o) as [d|]; cbn [fmap option_fmap option_map default from_option].
  - unfold MAX_DATUM_SIZE in Hd. pose proof (len_nonneg d). pose proof (chunks_range (len d) ltac:(lia)).
    rewrite add_chunks_small by nia. destruct (IH (t + chunks (len d)) ltac:(lia) ltac:(nia)) as [-> Hs].
    unfold id. split; [f_equal; lia|nia].
  - destruct (IH t ltac:(lia) ltac:(nia)) as [-> Hs]. split; [f_equal; lia|nia].
Qed.

(** The cost that does not depend on script evaluation. *)
Definition base_cost (tx : Transaction) (size : Z) : Z :=
  typecheck_sum (outputs tx) + witness_sum (witnesses tx) + datum_sum (outputs tx) + chunks size +
  (UTXO_LOOKUP_COST + SMT_DELETE_COST) * len (inputs tx) + (UTXO_CREATE_COST + SMT_INSERT_COST) * len (outputs tx).

Lemma cost_with_script_exact tx b e v :
  Transaction_wf tx -> Transaction_serialize tx = Ok b -> len b <= MAX_TX_SIZE -> 0 <= e -> 0 <= v -> e + v < 2 ^ 127 ->
  let total := e + v + base_cost tx (len b) in
  0 <= base_cost tx (len b) < 2 ^ 50 /\
  tx_cost_with_script_cost tx e v = if U64_MAX <? total then None else Some total.
Proof.
  intros (Hi & Ho & Hw & _ & Hos & Hws) Hb Hmax He Hv Hev total. unfold MAX_TX_SIZE in Hmax.
  assert (len (witnesses tx) = len (inputs tx)) as Hlw by (unfold len; lia).
  pose proof (len_nonneg (inputs tx)). pose proof (len_nonneg (outputs tx)). pose proof (len_nonneg b).
  change U16_MAX with 65535 in Hi, Ho. pose proof (typecheck_sum_range (outputs tx)) as Rt. unfold OUTPUT_TYPECHECK_COST in Rt.
  destruct (witness_exact (witnesses tx) 0 Hws ltac:(lia)) as [Ew Rw]; [change U16_MAX with 65535; lia|].
  destruct (datum_exact (outputs tx) 0 Hos ltac:(lia)) as [Ed Rd]; [change U16_MAX with 65535; lia|].
  change U16_MAX with 65535 in Rw, Rd. pose proof (chunks_range (len b) ltac:(lia)) as Rc.
  assert (1048576 <= U64_MAX) by done.
  unfold tx_cost_with_script_cost. rewrite Ew, Ed, Hb. cbn [ok]. rewrite ceil_div_chunks by lia.
  rewrite typecheck_exact by (unfold OUTPUT_TYPECHECK_COST; lia).
  subst total. unfold base_cost, UTXO_LOOKUP_COST, UTXO_CREATE_COST, SMT_DELETE_COST, SMT_INSERT_COST.
  split; [lia|]. rewrite !Z.add_0_l. set (tc := typecheck_sum _) in *. set (ws := witness_sum _) in *. set (ds := datum_sum _) in *.
  set (c := chunks _) in *. set (i := len (inputs tx)) in *. set (o := len (outputs tx)) in *.
  rewrite !wrap128_small by lia. rewrite (add128_small (i * 100)), (add128_small (i * 500)) by lia.
  rewrite (add128_small e tc), (add128_small (e + tc) ws), (add128_small (e + tc + ws) ds) by lia.
  rewrite (add128_small (e + tc + ws + ds) c), (add128_small (e + tc + ws + ds + c)) by lia.
  rewrite (add128_small (e + tc + ws + ds + c + _)), (add128_small (e + tc + ws + ds + c + _ + _)) by lia.
  match goal with |- (if _ <? ?x then _ else _) = (if _ <? ?y then _ else _) => replace x with y by lia end. done.
Qed.

Lemma signing_prefix tx b : Transaction_serialize tx = Ok b -> exists s, signing_bytes tx = Ok s /\ len s <= len b.
Proof.
  unfold Transaction_serialize, signing_bytes. intros Hs. inv_res. eexists. split; [done|].
  rewrite !len_app. match goal with |- context [len ?w] => is_var w; pose proof (len_nonneg w) end. len_lia.
Qed.

(** Costs and fees are exact on every well-formed transaction within the size
    limit.  No intermediate sum wraps: [tx_cost_with_script_cost] is the sum of
    its components, failing exactly when it exceeds [u64]; [tx_cost] is the same
    function at the phase 1 script cost of [5000 + 8] per 64 message bytes and
    input, and never fails; the minimum fee is the cost divided by 100, rounded
    up. *)
Theorem fees_exact (domain : Hash256) (tx : Transaction) (b : bytes) (e v : Z) :
  hash_wf domain -> Transaction_wf tx -> Transaction_serialize tx = Ok b -> len b <= MAX_TX_SIZE ->
  0 <= e -> 0 <= v -> e + v < 2 ^ 127 ->
  let total := e + v + base_cost tx (len b) in
  tx_cost_with_script_cost tx e v = (if U64_MAX <? total then None else Some total) /\
  (forall fee, min_fee_with_script_cost tx e v = Some fee -> total <= 100 * fee < total + 100) /\
  exists m cost fee, sig_message domain tx = Ok m /\
    tx_cost domain tx = Some cost /\ min_fee domain tx = Some fee /\ cost <= 100 * fee < cost + 100 /\
    cost = len (inputs tx) * (5000 + 8 * chunks (len m)) + base_cost tx (len b) /\
    tx_cost domain tx = tx_cost_with_script_cost tx (len (inputs tx) * (5000 + 8 * chunks (len m))) 0.
Proof.
  intros Hdom Hwf Hb Hmax He Hv Hev total.
  destruct (cost_with_script_exact tx b e v Hwf Hb Hmax He Hv Hev) as [Rb Ecost]. fold total in Ecost.
  assert (forall c, 0 <= c <= U64_MAX -> exists fee, ceil_div_u128 c MIN_FEE_DIVISOR = Some fee /\ c <= 100 * fee < c + 100) as Hfee.
  { intros c Hc. unfold ceil_div_u128, div_ceil, MIN_FEE_DIVISOR. pose proof (Z.div_mod (c + 100 - 1) 100 ltac:(lia)).
    pose proof (Z.mod_pos_bound (c + 100 - 1) 100 ltac:(lia)). unfold U64_MAX in *.
    replace (_ <? _) with false by lia. eexists. split; [done|]. lia. }
  split; [done|]. split.
  { intros fee. unfold min_fee_with_script_cost. rewrite Ecost. destruct (Z.ltb_spec U64_MAX total); [done|].
    intros Hf. destruct (Hfee total ltac:(lia)) as (f & Ef & Hr). congruence. }
  destruct (signing_prefix tx b Hb) as (s & Es & Hs). unfold sig_message. rewrite Es.
  set (m := DS_SIG ++ domain ++ s). assert (0 <= len m <= 2 ^ 21) as Rm.
  { unfold m. rewrite !len_app. change (len DS_SIG) with 9. unfold hash_wf in Hdom. unfold MAX_TX_SIZE in Hmax.
    pose proof (len_nonneg s). lia. }
  pose proof (chunks_range (len m) ltac:(lia)) as Rc. destruct Hwf as (Hi & Hrest) eqn:Ewf. clear Ewf.
  pose proof (len_nonneg (inputs tx)). change U16_MAX with 65535 in Hi.
  set (p1 := len (inputs tx) * (5000 + 8 * chunks (len m))). assert (0 <= p1 < 2 ^ 50) as Rp by (unfold p1; nia).
  assert (tx_cost domain tx = tx_cost_with_script_cost tx p1 0) as Etx.
  { unfold tx_cost, sig_message, tx_cost_with_script_cost. rewrite Es. cbn [ok]. fold m. fold (chunks (len m)).
    assert (wrap128 (len (inputs tx) * add128 PHASE1_SCRIPT_EVAL_COST (wrap128 (chunks (len m) * 8))) = p1) as ->; [|done].
    unfold PHASE1_SCRIPT_EVAL_COST. rewrite (wrap128_small (chunks (len m) * 8)), add128_small by lia.
    unfold p1 in *. rewrite wrap128_small by lia. lia. }
  destruct (cost_with_script_exact tx b p1 0 (conj Hi Hrest) Hb Hmax ltac:(lia) ltac:(lia) ltac:(lia)) as [_ Ep1].
  assert (tx_cost domain tx = Some (p1 + base_cost tx (len b))) as Ecost1.
  { rewrite Etx, Ep1, Z.add_0_r. by replace (U64_MAX <? _) with false by (unfold U64_MAX; lia). }
  destruct (Hfee (p1 + base_cost tx (len b))) as (fee & Efee & Hr); [unfold U64_MAX; lia|].
  exists m, (p1 + base_cost tx (len b)), fee. split_and!; try done; [|lia..].
  unfold min_fee. by rewrite Ecost1.
Qed.

Definition sample_tx_bytes : bytes :=
  match Transaction_serialize sample_tx with Ok b => b | Err _ => [] end.
Lemma fees_exact_witness :
  tx_cost_with_script_cost sample_tx 70 3 =
    (if U64_MAX <? 70 + 3 + base_cost sample_tx 146 then None else Some (70 + 3 + base_cost sample_tx 146)).
Proof.
  destruct (fees_exact (replicate 32 x09) sample_tx sample_tx_bytes 70 3) as [W _].
  - reflexivity.
  - exact sample_tx_wf.
  - vm_compute. reflexivity.
  - vm_compute. discriminate.
  - discriminate.
  - discriminate.
  - reflexivity.
  - exact W.
Defined.
