(* ===== verification/Difficulty.v ===== *)
(** * Difficulty, work and fork choice ([src/consensus/difficulty.rs],
      [src/consensus/pow.rs], [src/chain/fork_choice.rs])

    Targets and cumulative work are 32 big-endian bytes.  The header store is a
    parameter of [expected_difficulty]: a lookup that can fail ([ChainStorage]);
    Argon2id is a parameter of [compute_pow]. *)

From Stdlib Require Import Strings.String.
From S2P Require Import Prelude Bytes Codec Hash Transaction Block U256.
#[local] Open Scope Z_scope.
#[local] Open Scope list_scope.

Definition RETARGET_WINDOW : Z := 4320.
Definition TARGET_BLOCK_TIME_SECS : Z := 10.
Definition MAX_RETARGET_FACTOR : Z := 4.

Definition max32 : bytes := replicate 32 xff.

(** ** 256-bit helpers *)

(** The bytes of the [i]-th big-endian 64-bit limb. *)
Definition limb_be (value : bytes) (i : Z) : Z := be_val (slice value (i * 8) (i * 8 + 8)).

(** [for i in (0..4).rev()]: the limbs of the product and the final carry. *)
Fixpoint mul_small (limbs : list Z) (num : Z) : Z * list Z :=
  match limbs with
  | [] => (0, [])
  | l :: limbs =>
      let '(carry, product) := mul_small limbs num in
      let val := l * num + carry in
      (Z.shiftr val 64, Z.land val 0xFFFFFFFFFFFFFFFF :: product)
  end.

(** [for i in 0..5]: quotient limbs, [None] for the saturating return. *)
Fixpoint div_small (first : bool) (product : list Z) (den remainder : Z) : option (list Z) :=
  match product with
  | [] => Some []
  | p :: product =>
      let cur := Z.lor (Z.shiftl remainder 64) p in
      let q := cur / den in
      let remainder := cur mod den in
      if first then
        if 0 <? q then None else div_small false product den remainder
      else if U64_MAX <? q then None
      else let! qs := div_small false product den remainder in Some (q :: qs)
  end.

Definition mul_div_256 (value : bytes) (numerator denominator : Z) : bytes :=
  let limbs := [limb_be value 0; limb_be value 1; limb_be value 2; limb_be value 3] in
  let '(carry, product) := mul_small limbs numerator in
  match div_small true (carry :: product) denominator 0 with
  | None => max32
  | Some result_limbs => concat (map (be_bytes 8) result_limbs)
  end.

Definition one32 : bytes := replicate 31 x00 ++ [x01].

Definition retarget (old_target : Hash256) (actual_time_secs : Z) : Hash256 :=
  let expected_time := (RETARGET_WINDOW - 1) * TARGET_BLOCK_TIME_SECS in
  let actual := if actual_time_secs =? 0 then 1 else actual_time_secs in
  let min_time := expected_time / MAX_RETARGET_FACTOR in
  let max_time := expected_time * MAX_RETARGET_FACTOR in
  let clamped_time := Z.max min_time (Z.min actual max_time) in
  let new_target_bytes := mul_div_256 old_target clamped_time expected_time in
  if bool_decide (new_target_bytes = zero32) then one32 else new_target_bytes.

(** [ge_256]: the first difference decides. *)
Fixpoint ge_256 (a b : bytes) : bool :=
  match a, b with
  | x :: a, y :: b =>
      if byte_Z y <? byte_Z x then true
      else if byte_Z x <? byte_Z y then false
      else ge_256 a b
  | _, _ => true
  end.

(** [sub_256_inplace], with its [i16] borrow. *)
Fixpoint sub_256 (a b : bytes) : Z * bytes :=
  match a, b with
  | x :: a, y :: b =>
      let '(borrow, r) := sub_256 a b in
      let diff := byte_Z x - byte_Z y - borrow in
      if diff <? 0 then (1, Z_byte (diff + 256) :: r) else (0, Z_byte diff :: r)
  | _, _ => (0, [])
  end.

Definition div_256_round (a b : bytes) (bit_pos : nat) (qr : bytes * bytes) : bytes * bytes :=
  let '(quotient, remainder) := qr in
  let remainder := shift_left_1 remainder in
  let bit := Z.land (Z.shiftr (byte_Z (byte_at a (Z.of_nat bit_pos / 8))) (7 - Z.of_nat bit_pos mod 8)) 1 in
  let remainder := or_byte remainder 31 bit in
  if ge_256 remainder b then
    (or_byte quotient (Z.of_nat bit_pos / 8) (Z.shiftl 1 (7 - Z.of_nat bit_pos mod 8)),
     snd (sub_256 remainder b))
  else (quotient, remainder).
Definition div_256 (a b : bytes) : bytes :=
  fst (fwd_iter (div_256_round a b) 0 256 (zero32, zero32)).

(** The byte-wise addition of [add_work] and the [+ 1] of [work_from_target]. *)
Fixpoint add_bytes (a b : bytes) (carry_in : Z) : Z * bytes :=
  match a, b with
  | x :: a, y :: b =>
      let '(carry, r) := add_bytes a b carry_in in
      let sum := byte_Z x + byte_Z y + carry in
      (Z.shiftr sum 8, Z_byte sum :: r)
  | _, _ => (carry_in, [])
  end.

Definition add_work (a b : bytes) : bytes :=
  let '(carry, result) := add_bytes a b 0 in
  if 0 <? carry then max32 else result.

Definition work_from_target (target : Hash256) : bytes :=
  if bool_decide (target = zero32) then max32
  else
    let numerator := snd (sub_256 zero32 target) in
    let quotient := div_256 numerator target in
    let '(carry, result) := add_bytes quotient zero32 1 in
    if 0 <? carry then max32 else result.

Definition needs_retarget (height : Z) : bool := (0 <? height) && (height mod RETARGET_WINDOW =? 0).

Definition genesis_target : Hash256 := x01 :: replicate 31 x00.

(** ** Expected difficulty *)

Inductive DifficultyError :=
| AncestorNotFound (h : Hash256)
| DOther (msg : string).

(** A header source: [ChainStorage::get_header], or an overlay on it. *)
Definition header_source : Type := Hash256 -> result DifficultyError (option BlockHeader).

Definition require_header (get : header_source) (id : Hash256) : result DifficultyError BlockHeader :=
  let? o := get id in ok_or o (AncestorNotFound id).

(** [for _ in 0..n { current_id = header(current_id)?.prev_block_id }] *)
Fixpoint walk_back (get : header_source) (n : nat) (current_id : Hash256) : result DifficultyError Hash256 :=
  match n with
  | O => Ok current_id
  | S n =>
      let? hdr := require_header get current_id in
      walk_back get n (prev_block_id hdr)
  end.

Definition expected_difficulty (get : header_source) (prev_id : Hash256) (height : Z)
  : result DifficultyError Hash256 :=
  if height =? 0 then Ok genesis_target
  else
    let? parent := require_header get prev_id in
    if negb (height mod RETARGET_WINDOW =? 0) then Ok (difficulty_target parent)
    else
      let tip_timestamp := timestamp parent in
      let? current_id := walk_back get (Z.to_nat (RETARGET_WINDOW - 1)) prev_id in
      let? window_start := require_header get current_id in
      let actual_time := saturating_sub tip_timestamp (timestamp window_start) in
      Ok (retarget (difficulty_target parent) actual_time).

Section Overlay.
Context `{Sha2}.

Record ForwardHeaderOverlay := { fo_storage : header_source; overlay : gmap Hash256 BlockHeader }.
Definition overlay_new (storage : header_source) : ForwardHeaderOverlay :=
  {| fo_storage := storage; overlay := ∅ |}.
Definition overlay_insert (o : ForwardHeaderOverlay) (h : BlockHeader) : ForwardHeaderOverlay :=
  {| fo_storage := fo_storage o; overlay := <[block_id h := h]> (overlay o) |}.
Definition overlay_get_header (o : ForwardHeaderOverlay) : header_source := fun id =>
  match overlay o !! id with
  | Some h => Ok (Some h)
  | None => fo_storage o id
  end.
(** The same computation through the overlay. *)
Definition expected_difficulty_overlay (o : ForwardHeaderOverlay) (prev_id : Hash256) (height : Z)
  : result DifficultyError Hash256 :=
  if height =? 0 then Ok genesis_target
  else
    let? parent := require_header (overlay_get_header o) prev_id in
    if negb (height mod RETARGET_WINDOW =? 0) then Ok (difficulty_target parent)
    else
      let tip_timestamp := timestamp parent in
      let? current_id := walk_back (overlay_get_header o) (Z.to_nat (RETARGET_WINDOW - 1)) prev_id in
      let? window_start := require_header (overlay_get_header o) current_id in
      let actual_time := saturating_sub tip_timestamp (timestamp window_start) in
      Ok (retarget (difficulty_target parent) actual_time).
End Overlay.

(** ** Proof of work *)

Inductive PowError := PowParams (msg : string) | PowHash (msg : string).
(** Argon2id, version 0x13: memory in KiB, iterations, lanes and output length
    (the [Params], which may be refused), then password and salt. *)
Class Argon2 := argon2id : Z -> Z -> Z -> Z -> bytes -> bytes -> result PowError bytes.

Definition ARGON2_MEMORY_KIB : Z := 65536.
Definition ARGON2_ITERATIONS : Z := 2.
Definition ARGON2_PARALLELISM : Z := 1.
Definition ARGON2_OUTPUT_LEN : Z := 32.

Definition DS_POW_P : bytes := list_byte_of_string "EXFER-POW-P".
Definition DS_POW_S : bytes := list_byte_of_string "EXFER-POW-S".

Definition compute_pow `{Sha2} `{Argon2} (h : BlockHeader) : result PowError Hash256 :=
  let header_bytes := BlockHeader_serialize h in
  let pw := domain_hash DS_POW_P header_bytes in
  let salt := domain_hash DS_POW_S header_bytes in
  argon2id ARGON2_MEMORY_KIB ARGON2_ITERATIONS ARGON2_PARALLELISM ARGON2_OUTPUT_LEN pw salt.
(** The comparison of byte arrays is lexicographic. *)
Definition verify_pow `{Sha2} `{Argon2} (h : BlockHeader) : result PowError bool :=
  let? pow_hash := compute_pow h in
  Ok (cmp_u256 pow_hash (difficulty_target h) <? 0).

(** ** Fork choice *)

Record ChainTip := { tip_block_id : Hash256; tip_height : Z; cumulative_work : bytes }.

Definition ChainTip_new (block_id : Hash256) (height : Z) (difficulty_target : Hash256) (parent_work : bytes)
  : ChainTip :=
  let block_work := work_from_target difficulty_target in
  {| tip_block_id := block_id; tip_height := height; cumulative_work := add_work parent_work block_work |}.
Definition ChainTip_genesis (block_id : Hash256) (difficulty_target : Hash256) : ChainTip :=
  {| tip_block_id := block_id; tip_height := 0; cumulative_work := work_from_target difficulty_target |}.

Definition is_better_chain (candidate current : ChainTip) : bool :=
  let c := cmp_u256 (cumulative_work candidate) (cumulative_work current) in
  if 0 <? c then true
  else if c <? 0 then false
  else tip_height current <? tip_height candidate.

(** ** Limb arithmetic *)

(** The value of big-endian 64-bit limbs. *)
Fixpoint bval (l : list Z) : Z :=
  match l with [] => 0 | x :: l => x * 2 ^ (64 * len l) + bval l end.

Lemma bval_range l : Forall limb l -> 0 <= bval l < 2 ^ (64 * len l).
Proof.
  induction 1 as [|x l Hx _ IH]; [done|]. rewrite len_cons, pow64_add by (lia || apply len_nonneg).
  change (2 ^ (64 * 1)) with (2 ^ 64). cbn [bval]. unfold limb in Hx.
  pose proof (pow64_pos (len l) (len_nonneg l)). nia.
Qed.

Lemma mul_small_spec ls num :
  Forall limb ls -> limb num ->
  let '(c, p) := mul_small ls num in
  limb c /\ Forall limb p /\ length p = length ls /\ c * 2 ^ (64 * len ls) + bval p = bval ls * num.
Proof.
  intros Hls Hnum. unfold limb in *. induction Hls as [|l ls Hl Hls IH].
  { split_and!; done. }
  cbn [mul_small]. destruct (mul_small ls num) as [c p]. destruct IH as (Hc & Hp & Hlen & Hv).
  set (M := 2 ^ 64) in *. assert (0 < M) as HM by done.
  change 0xFFFFFFFFFFFFFFFF with (Z.ones 64). rewrite Z.land_ones, Z.shiftr_div_pow2 by lia. fold M.
  set (v := l * num + c) in *.
  pose proof (Z.div_mod v M ltac:(lia)) as Hd. pose proof (Z.mod_pos_bound v M HM) as Hm.
  assert (0 <= v / M < M) as Hq by (split; [apply Z.div_pos; nia | apply Z.div_lt_upper_bound; nia]).
  split_and!; [lia|lia|by constructor|simpl; lia|].
  rewrite len_cons, pow64_add by (lia || apply len_nonneg). change (2 ^ (64 * 1)) with M. cbn [bval].
  assert (len p = len ls) as -> by (unfold len; lia). nia.
Qed.

Lemma div_small_spec p den r :
  Forall limb p -> 0 < den <= 2 ^ 64 -> 0 <= r < den ->
  exists qs, div_small false p den r = Some qs /\ Forall limb qs /\ length qs = length p /\
    bval qs = (r * 2 ^ (64 * len p) + bval p) / den.
Proof.
  intros Hp Hden. revert r. induction Hp as [|x p Hx Hp IH]; intros r Hr.
  { exists []. split_and!; try done. cbn [bval]. change (len (@nil Z)) with 0.
    rewrite Z.div_small by lia. done. }
  unfold limb in Hx. cbn [div_small]. rewrite lor_low by lia. set (M := 2 ^ 64) in *.
  set (cur := r * M + x). pose proof (Z.div_mod cur den ltac:(lia)) as Hd.
  pose proof (Z.mod_pos_bound cur den ltac:(lia)) as Hm.
  assert (0 <= cur / den < M) as Hq by (split; [apply Z.div_pos; nia | apply Z.div_lt_upper_bound; nia]).
  change U64_MAX with (M - 1). replace (M - 1 <? cur / den) with false by lia.
  destruct (IH (cur mod den) Hm) as (qs & Eq & Hqs & Hlen & Hv). rewrite Eq.
  exists (cur / den :: qs). split_and!; [done|by constructor|simpl; lia|].
  cbn [bval]. assert (len qs = len p) as -> by (unfold len; lia). rewrite Hv.
  rewrite len_cons, pow64_add by (lia || apply len_nonneg). change (2 ^ (64 * 1)) with M.
  set (P := 2 ^ (64 * len p)) in *.
  replace (r * (M * P) + (x * P + bval p)) with ((cur / den * P) * den + (cur mod den * P + bval p)) by nia.
  rewrite Z.div_add_l by lia. done.
Qed.

Lemma concat_limbs qs : Forall limb qs -> be_val (concat (map (be_bytes 8) qs)) = bval qs /\
  len (concat (map (be_bytes 8) qs)) = 8 * len qs.
Proof.
  induction 1 as [|q qs Hq _ [IHv IHl]]; [done|]. cbn [map concat bval].
  rewrite len_cons, len_app, len_be_bytes, IHl. split; [|lia].
  rewrite be_val_app, IHv, IHl, be_val_bytes by exact Hq. f_equal. f_equal.
  change 256 with (2 ^ 8). rewrite <- Z.pow_mul_r by len_lia. f_equal. lia.
Qed.

Lemma limb_be_vals v :
  len v = 32 ->
  let ls := [limb_be v 0; limb_be v 1; limb_be v 2; limb_be v 3] in Forall limb ls /\ bval ls = be_val v.
Proof.
  intros Hl ls. destruct (limbs_ok v Hl) as [Hf Hv]. unfold limbs in *. subst ls.
  rewrite !Forall_cons in *. destruct Hf as (H0 & H1 & H2 & H3 & _).
  change (limb_be v 0) with (be_val (slice v 0 8)). change (limb_be v 1) with (be_val (slice v 8 16)).
  change (limb_be v 2) with (be_val (slice v 16 24)). change (limb_be v 3) with (be_val (slice v 24 32)).
  split; [done|]. rewrite <- Hv. revert H0 H1 H2 H3. clear.
  generalize (be_val (slice v 24 32)) (be_val (slice v 16 24)) (be_val (slice v 8 16)) (be_val (slice v 0 8)).
  intros a b c d _ _ _ _. cbn [bval lval]. change (2 ^ (64 * len [c; b; a])) with (2 ^ 64 * (2 ^ 64 * 2 ^ 64)).
  change (2 ^ (64 * len [b; a])) with (2 ^ 64 * 2 ^ 64). change (2 ^ (64 * len [a])) with (2 ^ 64).
  change (2 ^ (64 * len [])) with 1. lia.
Qed.

Lemma len_max32 : len max32 = 32.
Proof. done. Qed.
Lemma val_max32 : be_val max32 = 2 ^ 256 - 1.
Proof. vm_compute. reflexivity. Qed.

(** Multiplication and division, saturating. *)
Lemma mul_div_256_spec v num den :
  len v = 32 -> 0 <= num < 2 ^ 64 -> 0 < den < 2 ^ 64 ->
  len (mul_div_256 v num den) = 32 /\
  be_val (mul_div_256 v num den) = Z.min (2 ^ 256 - 1) (be_val v * num / den).
Proof.
  intros Hl Hnum Hden. unfold mul_div_256. destruct (limb_be_vals v Hl) as [Hf Hv].
  pose proof (mul_small_spec [limb_be v 0; limb_be v 1; limb_be v 2; limb_be v 3] num Hf Hnum) as Hmul.
  destruct (mul_small _ num) as [c p]. destruct Hmul as (Hc & Hp & Hlp & Hprod). rewrite Hv in Hprod.
  change (2 ^ (64 * len [limb_be v 0; limb_be v 1; limb_be v 2; limb_be v 3])) with (2 ^ 256) in Hprod.
  unfold limb in Hc. cbn [div_small]. rewrite Z.shiftl_0_l, Z.lor_0_l.
  assert (len p = 4) as Hlen by (unfold len; rewrite Hlp; done).
  pose proof (bval_range p Hp) as Rp. rewrite Hlen in Rp. change (2 ^ (64 * 4)) with (2 ^ 256) in Rp.
  rewrite <- Hprod. destruct (Z.ltb_spec 0 (c / den)) as [Hq|Hq].
  - rewrite len_max32, val_max32. split; [done|]. rewrite Z.min_l; [done|].
    assert (den <= c) by (pose proof (Z.div_mod c den ltac:(lia)); pose proof (Z.mod_pos_bound c den ltac:(lia)); nia).
    assert (2 ^ 256 <= (c * 2 ^ 256 + bval p) / den); [|lia]. apply Z.div_le_lower_bound; nia.
  - assert (0 <= c / den) by (apply Z.div_pos; lia). assert (c / den = 0) as Hz by lia.
    assert (c < den) by (apply Z.div_small_iff in Hz; lia).
    rewrite Z.mod_small by lia. destruct (div_small_spec p den c Hp ltac:(lia) ltac:(lia)) as (qs & -> & Hqs & Hlq & Hvq).
    destruct (concat_limbs qs Hqs) as [Ev El]. assert (len qs = 4) as Hlq' by (unfold len; rewrite Hlq; exact Hlen).
    rewrite El, Ev, Hvq, Hlen, Hlq'. split; [done|]. change (2 ^ (64 * 4)) with (2 ^ 256).
    rewrite Z.min_r; [done|]. assert ((c * 2 ^ 256 + bval p) / den < 2 ^ 256); [|lia].
    apply Z.div_lt_upper_bound; nia.
Qed.

(** ** Division, addition and work *)

Lemma ge_256_spec a b : len a = len b -> ge_256 a b = (0 <=? cmp_u256 a b).
Proof.
  revert b. induction a as [|x a IH]; intros [|y b] Hl; try done. rewrite !len_cons in Hl. simpl.
  destruct (Z.ltb_spec (byte_Z y) (byte_Z x)), (Z.ltb_spec (byte_Z x) (byte_Z y)); try lia; try done.
  apply IH. lia.
Qed.

Lemma sub_256_borrow a b : len a = len b -> sub_256 a b = sub_borrow a b.
Proof.
  revert b. induction a as [|x a IH]; intros [|y b] Hl; try done. rewrite !len_cons in Hl.
  cbn [sub_256 sub_borrow]. rewrite IH by lia. assert (len a = len b) as Hl' by lia.
  pose proof (sub_borrow_spec a b Hl') as Hs. destruct (sub_borrow a b) as [c r]. destruct Hs as (Hc & _).
  pose proof (byte_Z_range x). pose proof (byte_Z_range y). set (d := byte_Z x - byte_Z y - c) in *.
  change (2 ^ 16) with 65536. destruct (Z.ltb_spec d 0).
  - replace (d mod 65536) with (d + 65536) by (apply Z.mod_unique with (-1); lia).
    replace (255 <? d + 65536) with true by lia. do 2 f_equal. apply byte_Z_inj. rewrite !byte_Z_byte.
    replace (d + 65536) with (d + 256 + 255 * 256) by lia. by rewrite Z.mod_add by lia.
  - rewrite Z.mod_small by lia. replace (255 <? d) with false by lia. done.
Qed.

Lemma or_zero v : len v = 32 -> or_byte v 31 0 = v.
Proof.
  intros Hl. unfold or_byte. rewrite Z.lor_0_r, Z_byte_Z. unfold byte_at.
  destruct (lookup_lt_is_Some_2 v (Z.to_nat 31)) as [x Hx]; [unfold len in Hl; lia|].
  rewrite Hx. by apply list_insert_id.
Qed.

Lemma div_256_round_eq a b k qr :
  len (snd qr) = 32 -> len b = 32 -> div_256_round a b k qr = div_round a b k qr.
Proof.
  destruct qr as [q r]. simpl. intros Lr Lb. unfold div_256_round, div_round, bring_down, bit_of.
  assert (len (shift_left_1 r) = 32) as Ls.
  { unfold shift_left_1. pose proof (shift_left_carry_spec r) as Hs. destruct (shift_left_carry r).
    simpl. lia. }
  set (bit := Z.land _ 1). assert (0 <= bit <= 1) as Hbit.
  { subst bit. set (x := Z.shiftr _ _). change (Z.land x 1) with (Z.land x (Z.ones 1)).
    rewrite Z.land_ones by lia. change (2 ^ 1) with 2. pose proof (Z.mod_pos_bound x 2 eq_refl). lia. }
  assert (or_byte (shift_left_1 r) 31 bit = if bit =? 1 then or_byte (shift_left_1 r) 31 1 else shift_left_1 r) as ->.
  { destruct (Z.eqb_spec bit 1) as [->|]; [done|]. replace bit with 0 by lia. by apply or_zero. }
  assert (len (if bit =? 1 then or_byte (shift_left_1 r) 31 1 else shift_left_1 r) = len b) as Lx.
  { destruct (bit =? 1); [|lia]. unfold or_byte, len. rewrite length_insert. unfold len in *. lia. }
  rewrite ge_256_spec by done. destruct (0 <=? _); [|done]. rewrite sub_256_borrow by done. done.
Qed.

Lemma div_256_val a b :
  len a = 32 -> len b = 32 -> 0 < be_val b ->
  len (div_256 a b) = 32 /\ be_val (div_256 a b) = be_val a / be_val b.
Proof.
  intros La Lb Hb. unfold div_256.
  assert (div_inv a b (0 + 256) (fwd_iter (div_256_round a b) 0 256 (zero32, zero32))) as (L & _ & V & _).
  { apply fwd_iter_inv.
    - intros k s Hk Hinv. rewrite div_256_round_eq by (apply Hinv || done). rewrite Nat.add_1_r.
      apply div_round_inv; [done..|lia|done].
    - unfold div_inv. simpl fst. simpl snd. rewrite len_zero32, val_zero32, top_0 by done.
      rewrite Z.div_0_l, Z.mod_0_l by lia. done. }
  rewrite L, V. change (0 + 256)%nat with 256%nat. rewrite top_all. split; [done|].
  change (2 ^ (256 - Z.of_nat 256)) with 1. lia.
Qed.

Lemma add_bytes_spec a b c0 :
  len a = len b -> 0 <= c0 <= 1 ->
  let '(c, r) := add_bytes a b c0 in
  0 <= c <= 1 /\ len r = len a /\ c * 256 ^ len a + be_val r = be_val a + be_val b + c0.
Proof.
  intros Hl Hc0. revert b Hl. induction a as [|x a IH]; intros [|y b] Hl; try (unfold len in Hl; simpl in Hl; lia).
  { cbn [add_bytes be_val]. change (len (@nil byte)) with 0. change (256 ^ 0) with 1. lia. }
  rewrite !len_cons in Hl. assert (len a = len b) as Hl' by lia. specialize (IH b Hl'). cbn [add_bytes].
  destruct (add_bytes a b c0) as [c r]. destruct IH as (Hc & Hr & Hv).
  pose proof (byte_Z_range x). pose proof (byte_Z_range y). set (s := byte_Z x + byte_Z y + c) in *.
  rewrite Z.shiftr_div_pow2 by lia. change (2 ^ 8) with 256.
  pose proof (Z.div_mod s 256 ltac:(lia)). pose proof (Z.mod_pos_bound s 256 eq_refl).
  split; [split; [apply Z.div_pos; lia|apply Z.lt_succ_r, Z.div_lt_upper_bound; lia]|].
  rewrite !len_cons, Hr. split; [done|]. cbn [be_val]. rewrite Hr, byte_Z_byte, pow256_S, <- Hl' by apply len_nonneg.
  nia.
Qed.

Lemma add_work_spec a b :
  len a = 32 -> len b = 32 ->
  len (add_work a b) = 32 /\ be_val (add_work a b) = Z.min (2 ^ 256 - 1) (be_val a + be_val b).
Proof.
  intros La Lb. unfold add_work. pose proof (add_bytes_spec a b 0 ltac:(lia) ltac:(lia)) as Hs.
  destruct (add_bytes a b 0) as [c r]. destruct Hs as (Hc & Hr & Hv). rewrite La in *.
  change (256 ^ 32) with (2 ^ 256) in Hv. pose proof (val_bound r Hr).
  destruct (Z.ltb_spec 0 c).
  - rewrite len_max32, val_max32. split; [done|]. rewrite Z.min_l; [done|nia].
  - assert (c = 0) as -> by lia. split; [done|]. rewrite Z.min_r; lia.
Qed.

Lemma work_from_target_spec t :
  len t = 32 ->
  len (work_from_target t) = 32 /\
  be_val (work_from_target t) =
    if be_val t =? 0 then 2 ^ 256 - 1 else Z.min (2 ^ 256 - 1) (2 ^ 256 / be_val t).
Proof.
  intros Lt. unfold work_from_target. pose proof (val_bound t Lt) as Rt.
  destruct (bool_decide_reflect (t = zero32)) as [->|Hne].
  { rewrite len_max32, val_max32, val_zero32. done. }
  assert (be_val t <> 0) as Hnz.
  { intros E. apply Hne, be_val_inj; [done|]. by rewrite E, val_zero32. }
  destruct (Z.eqb_spec (be_val t) 0) as [|_]; [done|].
  rewrite sub_256_borrow by (rewrite Lt; apply len_zero32).
  pose proof (sub_borrow_spec zero32 t ltac:(rewrite Lt; apply len_zero32)) as Hs.
  destruct (sub_borrow zero32 t) as [c n]. destruct Hs as (Hc & Ln & Vn). rewrite len_zero32, val_zero32 in *.
  change (256 ^ 32) with (2 ^ 256) in Vn. cbn [snd]. pose proof (val_bound n Ln) as Rn.
  assert (c = 1) as -> by nia. destruct (div_256_val n t Ln Lt ltac:(lia)) as [Lq Vq].
  pose proof (add_bytes_spec (div_256 n t) zero32 1 ltac:(rewrite Lq; by rewrite len_zero32) ltac:(lia)) as Ha.
  destruct (add_bytes (div_256 n t) zero32 1) as [c r]. destruct Ha as (Hc' & Lr & Vr).
  rewrite Lq, Vq, Vn, val_zero32 in *. change (256 ^ 32) with (2 ^ 256) in Vr.
  assert ((0 - be_val t + 1 * 2 ^ 256) / be_val t = 2 ^ 256 / be_val t - 1) as Ediv.
  { replace (0 - be_val t + 1 * 2 ^ 256) with ((-1) * be_val t + 2 ^ 256) by lia.
    rewrite Z.div_add_l by lia. lia. }
  rewrite Ediv in Vr. pose proof (val_bound r Lr). destruct (Z.ltb_spec 0 c).
  - rewrite len_max32, val_max32. split; [done|]. rewrite Z.min_l; nia.
  - assert (c = 0) as -> by lia. split; [done|]. rewrite Z.min_r; lia.
Qed.

(** ** Retargeting *)

Lemma one32_ok : len one32 = 32 /\ be_val one32 = 1.
Proof. split; [done|]. vm_compute. reflexivity. Qed.

Definition clamp_time (t : Z) : Z := Z.max 10797 (Z.min t 172760).

Lemma retarget_value old t :
  len old = 32 -> 0 <= t < 2 ^ 64 ->
  len (retarget old t) = 32 /\
  be_val (retarget old t) = Z.max 1 (Z.min (2 ^ 256 - 1) (be_val old * clamp_time t / 43190)).
Proof.
  intros Lo Ht. unfold retarget. change ((RETARGET_WINDOW - 1) * TARGET_BLOCK_TIME_SECS) with 43190.
  change (43190 / MAX_RETARGET_FACTOR) with 10797. change (43190 * MAX_RETARGET_FACTOR) with 172760.
  replace (Z.max 10797 (Z.min (if t =? 0 then 1 else t) 172760)) with (clamp_time t)
    by (unfold clamp_time; destruct (Z.eqb_spec t 0); lia).
  assert (10797 <= clamp_time t <= 172760) as Hc by (unfold clamp_time; lia).
  destruct (mul_div_256_spec old (clamp_time t) 43190 Lo ltac:(lia) ltac:(lia)) as [Lm Vm].
  pose proof (val_bound _ Lm) as Rm. destruct (bool_decide_reflect (mul_div_256 old (clamp_time t) 43190 = zero32)) as [E|Hne].
  - destruct one32_ok as [-> ->]. rewrite E, val_zero32 in Vm. split; [done|]. lia.
  - split; [done|]. assert (be_val (mul_div_256 old (clamp_time t) 43190) <> 0).
    { intros E. apply Hne, be_val_inj; [by rewrite Lm, len_zero32|]. by rewrite E, val_zero32. }
    lia.
Qed.

(** [retarget] is exact: the new target is [old * t / 43190] with [t] clamped
    to [[10797, 172760]], then clamped to [[1, 2^256 - 1]].  Consequently it is
    a positive 256-bit target, at most four times the old one, at least
    [old * 10797 / 43190], unchanged when the window took exactly the expected
    time, and never decreasing in the elapsed time. *)
Theorem retarget_exact (old : Hash256) (t : Z) :
  len old = 32 -> 1 <= be_val old -> 0 <= t < 2 ^ 64 ->
  len (retarget old t) = 32 /\
  be_val (retarget old t) = Z.max 1 (Z.min (2 ^ 256 - 1) (be_val old * clamp_time t / 43190)) /\
  Z.max 1 (be_val old * 10797 / 43190) <= be_val (retarget old t) <= 4 * be_val old /\
  be_val (retarget old t) < 2 ^ 256 /\
  (t = 43190 -> retarget old t = old) /\
  (forall t', t <= t' < 2 ^ 64 -> be_val (retarget old t) <= be_val (retarget old t')).
Proof.
  intros Lo Ho Ht. destruct (retarget_value old t Lo Ht) as [Lr Vr]. pose proof (val_bound old Lo) as Ro.
  assert (10797 <= clamp_time t <= 172760) as Hc by (unfold clamp_time; lia).
  assert (be_val old * 10797 / 43190 <= be_val old * clamp_time t / 43190) by (apply Z.div_le_mono; nia).
  assert (be_val old * clamp_time t / 43190 <= 4 * be_val old) by (apply Z.div_le_upper_bound; nia).
  assert (be_val old * 10797 / 43190 <= be_val old) by (apply Z.div_le_upper_bound; nia).
  split_and!; [done|done|lia|lia|lia| |].
  - intros ->. apply be_val_inj; [by rewrite Lr|]. rewrite Vr. change (clamp_time 43190) with 43190.
    rewrite Z.div_mul by lia. lia.
  - intros t' Ht'. destruct (retarget_value old t' Lo ltac:(lia)) as [_ ->]. rewrite Vr.
    assert (be_val old * clamp_time t / 43190 <= be_val old * clamp_time t' / 43190); [|lia].
    apply Z.div_le_mono; [lia|]. unfold clamp_time. nia.
Qed.
Lemma retarget_exact_witness :
  be_val (retarget genesis_target 1000) = Z.max 1 (Z.min (2 ^ 256 - 1) (be_val genesis_target * clamp_time 1000 / 43190)).
Proof.
  apply (retarget_exact genesis_target 1000); [reflexivity|vm_compute; discriminate|vm_compute; split; congruence].
Defined.

(** ** Work *)

(** The work of a block is the integer [2^256 / target] (saturating at
    [2^256 - 1]), where the target is also the number of 256-bit hashes the
    proof-of-work test accepts: [verify_pow] accepts exactly when the Argon2id
    output is, as an integer, below the target. *)
Theorem work_matches_acceptance `{Sha2} `{Argon2} (h : BlockHeader) :
  len (difficulty_target h) = 32 ->
  (forall m t p pw salt d, argon2id m t p 32 pw salt = Ok d -> len d = 32) ->
  let target := be_val (difficulty_target h) in
  len (work_from_target (difficulty_target h)) = 32 /\
  be_val (work_from_target (difficulty_target h)) =
    (if target =? 0 then 2 ^ 256 - 1 else Z.min (2 ^ 256 - 1) (2 ^ 256 / target)) /\
  (verify_pow h = Ok true <-> exists d, compute_pow h = Ok d /\ be_val d < target) /\
  (verify_pow h = Ok false <-> exists d, compute_pow h = Ok d /\ target <= be_val d) /\
  (forall e, verify_pow h = Err e <-> compute_pow h = Err e).
Proof.
  intros Lt Hargon target. destruct (work_from_target_spec _ Lt) as [Lw Vw]. split; [done|]. split; [done|].
  unfold verify_pow. destruct (compute_pow h) as [d|e] eqn:E; simpl; [|naive_solver].
  assert (len d = 32) as Ld by (unfold compute_pow in E; by eapply Hargon).
  pose proof (cmp_u256_lt d (difficulty_target h) ltac:(lia)) as Hlt. fold target in Hlt.
  destruct (Z.ltb_spec (cmp_u256 d (difficulty_target h)) 0); split_and!; try split; intros; naive_solver lia.
Qed.
Definition toy_argon2 (m t p out_len : Z) (pw salt : bytes) : result PowError bytes := Ok (toy_digest (pw ++ salt)).
Definition sample_header (i : Z) : BlockHeader := {|
  version := 1; height := i; prev_block_id := be_bytes 32 (i - 1); timestamp := 1700000000 + 12 * i;
  difficulty_target := genesis_target; nonce := 0; tx_root := zero32; state_root := zero32 |}.
Lemma work_matches_acceptance_witness :
  be_val (work_from_target (difficulty_target (sample_header 3))) = 256.
Proof.
  pose proof (@work_matches_acceptance toy_digest toy_argon2 (sample_header 3)) as [_ [V _]]; [reflexivity| |exact V].
  intros m t p pw salt d [= <-]. apply toy_digest_width.
Defined.

(** ** Ancestry *)

(** The target a block at height [h] must have on a given chain of headers. *)
Definition chain_target (chain : Z -> BlockHeader) (h : Z) : Hash256 :=
  if h =? 0 then genesis_target
  else if negb (h mod RETARGET_WINDOW =? 0) then difficulty_target (chain (h - 1))
  else retarget (difficulty_target (chain (h - 1)))
         (saturating_sub (timestamp (chain (h - 1))) (timestamp (chain (h - RETARGET_WINDOW)))).

Section Chain.
Variable get : header_source.
(** A chain of headers: [chain i] is the header at height [i], stored under
    [ids i], and each header names its predecessor. *)
Variable chain : Z -> BlockHeader.
Variable ids : Z -> Hash256.
Variable n : Z.
Hypothesis chain_stored : forall i, 0 <= i < n -> get (ids i) = Ok (Some (chain i)).
Hypothesis chain_linked : forall i, 0 < i < n -> prev_block_id (chain i) = ids (i - 1).

Lemma require_stored i : 0 <= i < n -> require_header get (ids i) = Ok (chain i).
Proof. intros Hi. unfold require_header. by rewrite chain_stored. Qed.

Lemma walk_back_chain k i : Z.of_nat k <= i < n -> walk_back get k (ids i) = Ok (ids (i - Z.of_nat k)).
Proof.
  revert i. induction k as [|k IH]; intros i Hi; cbn [walk_back].
  { by rewrite Z.sub_0_r. }
  rewrite require_stored by lia. cbn iota. rewrite chain_linked, IH by lia. do 2 f_equal. lia.
Qed.

Lemma expected_difficulty_chain h :
  0 <= h <= n ->
  expected_difficulty get (ids (h - 1)) h = Ok (chain_target chain h).
Proof.
  intros Hh. unfold expected_difficulty, chain_target. destruct (Z.eqb_spec h 0) as [|Hz]; [done|].
  rewrite require_stored by lia. cbn iota. destruct (Z.eqb_spec (h mod RETARGET_WINDOW) 0) as [Hm|]; [|done].
  cbn [negb]. assert (RETARGET_WINDOW <= h) as Hw.
  { apply Z.mod_divide in Hm as [k Hk]; [|done]. unfold RETARGET_WINDOW in *. lia. }
  rewrite walk_back_chain by (unfold RETARGET_WINDOW in *; lia). cbn iota.
  replace (h - 1 - Z.of_nat (Z.to_nat (RETARGET_WINDOW - 1))) with (h - RETARGET_WINDOW)
    by (unfold RETARGET_WINDOW in *; lia).
  rewrite require_stored by (unfold RETARGET_WINDOW in *; lia). done.
Qed.
End Chain.

(** On a stored chain the expected difficulty is always found: the genesis
    target at height 0, the parent's target inside a window, and at a multiple
    of 4320 the parent's target retargeted by the time between the window's
    first block (height - 4320) and the parent. *)
Theorem expected_difficulty_on_chain (get : header_source) (chain : Z -> BlockHeader) (ids : Z -> Hash256) (h : Z) :
  0 <= h ->
  (forall i, 0 <= i < h -> get (ids i) = Ok (Some (chain i))) ->
  (forall i, 0 < i < h -> prev_block_id (chain i) = ids (i - 1)) ->
  expected_difficulty get (ids (h - 1)) h = Ok (chain_target chain h).
Proof. intros Hh Hs Hl. apply expected_difficulty_chain with h; [done|done|lia]. Qed.
Lemma expected_difficulty_on_chain_witness :
  expected_difficulty (fun id => Ok (Some (sample_header (be_val id)))) (be_bytes 32 4319) 4320 =
    Ok (retarget genesis_target (12 * 4319)).
Proof.
  apply (expected_difficulty_on_chain (fun id => Ok (Some (sample_header (be_val id))))
           sample_header (be_bytes 32) 4320); [discriminate| |reflexivity].
  intros i Hi. rewrite be_val_bytes by (change (256 ^ Z.of_nat 32) with (2 ^ 256); lia). reflexivity.
Defined.

(** ** The forward overlay *)

Section OverlayFacts.
Context `{Sha2}.

(** The overlay never contradicts the storage. *)
Definition overlay_agrees (o : ForwardHeaderOverlay) : Prop :=
  forall id h h', overlay o !! id = Some h -> fo_storage o id = Ok (Some h') -> h = h'.

Lemma require_overlay o id h :
  overlay_agrees o -> require_header (fo_storage o) id = Ok h -> require_header (overlay_get_header o) id = Ok h.
Proof.
  unfold require_header, overlay_get_header. intros Ha Hr.
  destruct (fo_storage o id) as [[h'|]|] eqn:E; try done. simpl in Hr. simplify_eq.
  destruct (overlay o !! id) eqn:Eo; [|done]. simpl. f_equal. by eapply Ha.
Qed.

Lemma walk_back_overlay o n id r :
  overlay_agrees o -> walk_back (fo_storage o) n id = Ok r -> walk_back (overlay_get_header o) n id = Ok r.
Proof.
  intros Ha. revert id. induction n as [|n IH]; intros id; cbn [walk_back]; [done|].
  destruct (require_header (fo_storage o) id) as [h|] eqn:E; [|done]. cbn iota.
  rewrite (require_overlay o id h Ha E). apply IH.
Qed.

Lemma overlay_inserts_agree storage hs :
  (forall id h, storage id = Ok (Some h) -> block_id h = id) ->
  (forall h h' id, In h hs -> storage id = Ok (Some h') -> block_id h = block_id h' -> h = h') ->
  overlay_agrees (fold_left overlay_insert hs (overlay_new storage)).
Proof.
  intros Hk Hcol. assert (fo_storage (fold_left overlay_insert hs (overlay_new storage)) = storage /\
    (forall id h, overlay (fold_left overlay_insert hs (overlay_new storage)) !! id = Some h -> In h hs /\ block_id h = id))
    as [Hs Ho].
  { clear Hk Hcol. induction hs as [|h hs [IHs IHo]] using rev_ind; [done|]. rewrite fold_left_app. cbn [fold_left].
    split; [done|]. intros id h'. cbn [overlay overlay_insert]. rewrite lookup_insert_Some, in_app_iff. simpl.
    intros [[<- <-]|[_ Hx]]; [tauto|]. apply IHo in Hx. tauto. }
  intros id h h' Hoh Hst. rewrite Hs in Hst. apply Ho in Hoh as [Hin <-]. eapply Hcol; [done|done|]. symmetry. by apply Hk.
Qed.
End OverlayFacts.

(** Confirmation through an overlay agrees with block validation: whatever
    headers are inserted into the overlay, when the storage alone determines the
    expected difficulty the overlay gives the same one (provided no inserted
    header collides with a different stored one); and on a chain
    whose headers are partly in the overlay and partly in storage it is the
    target the chain prescribes. *)
Theorem overlay_agrees_with_storage `{Sha2} (storage : header_source) (hs : list BlockHeader) (prev_id : Hash256) (h : Z) :
  (forall id hdr, storage id = Ok (Some hdr) -> block_id hdr = id) ->
  (forall hdr hdr' id, In hdr hs -> storage id = Ok (Some hdr') -> block_id hdr = block_id hdr' -> hdr = hdr') ->
  let o := fold_left overlay_insert hs (overlay_new storage) in
  (forall d, expected_difficulty storage prev_id h = Ok d -> expected_difficulty_overlay o prev_id h = Ok d) /\
  (forall chain : Z -> BlockHeader, 0 <= h ->
     (forall i, 0 <= i < h -> overlay_get_header o (block_id (chain i)) = Ok (Some (chain i))) ->
     (forall i, 0 < i < h -> prev_block_id (chain i) = block_id (chain (i - 1))) ->
     expected_difficulty_overlay o (block_id (chain (h - 1))) h = Ok (chain_target chain h)).
Proof.
  intros Hk Hcol o. pose proof (overlay_inserts_agree storage hs Hk Hcol) as Ha. fold o in Ha.
  assert (fo_storage o = storage) as Hs.
  { subst o. clear. induction hs as [|x hs IH] using rev_ind; [done|]. by rewrite fold_left_app. }
  split.
  - intros d. unfold expected_difficulty, expected_difficulty_overlay. rewrite <- Hs.
    destruct (h =? 0); [done|]. destruct (require_header (fo_storage o) prev_id) as [p|] eqn:E; [|done].
    rewrite (require_overlay o _ _ Ha E). cbn iota. destruct (negb _); [done|].
    destruct (walk_back (fo_storage o) _ prev_id) as [w|] eqn:Ew; [|done].
    rewrite (walk_back_overlay o _ _ _ Ha Ew). cbn iota.
    destruct (require_header (fo_storage o) w) as [s|] eqn:Es; [|done].
    by rewrite (require_overlay o _ _ Ha Es).
  - intros chain Hh Hst Hl.
    exact (expected_difficulty_chain (overlay_get_header o) chain (fun i => block_id (chain i)) h Hst Hl h ltac:(lia)).
Qed.

Definition sample_storage : header_source := fun id =>
  if bool_decide (id = @block_id toy_digest (sample_header 0)) then Ok (Some (sample_header 0)) else Ok None.
Lemma overlay_agrees_with_storage_witness :
  @expected_difficulty_overlay (@overlay_insert toy_digest (overlay_new sample_storage) (sample_header 1))
    (@block_id toy_digest (sample_header 0)) 1 = Ok genesis_target.
Proof.
  pose proof (@overlay_agrees_with_storage toy_digest sample_storage [sample_header 1] (@block_id toy_digest (sample_header 0)) 1)
    as [W _]; [| |apply W].
  - intros id hdr. unfold sample_storage. destruct (bool_decide_reflect (id = @block_id toy_digest (sample_header 0))) as [->|];
      intros [= <-]. reflexivity.
  - intros hdr hdr' id [<-|[]]. unfold sample_storage. destruct (bool_decide _); intros [= <-]. vm_compute. discriminate.
  - vm_compute. reflexivity.
Defined.

(** ** Fork choice *)

Lemma is_better_chain_spec a b :
  len (cumulative_work a) = 32 -> len (cumulative_work b) = 32 ->
  is_better_chain a b = true <->
    be_val (cumulative_work b) < be_val (cumulative_work a) \/
    be_val (cumulative_work a) = be_val (cumulative_work b) /\ tip_height b < tip_height a.
Proof.
  intros La Lb. unfold is_better_chain. rewrite cmp_u256_spec by lia.
  destruct (Z.compare_spec (be_val (cumulative_work a)) (be_val (cumulative_work b))); simpl;
    rewrite ?Z.ltb_lt; split; intros; try lia; try done.
Qed.

(** Fork choice is a strict weak order on tips (irreflexive, transitive, and
    incomparability is transitive), so a node that only switches to better tips
    never cycles; it agrees with cumulative work first and height second; and
    appending a block to a chain always makes it better, even when the
    cumulative work has saturated. *)
Theorem fork_choice_order (a b c : ChainTip) (id : Hash256) (target : Hash256) :
  len (cumulative_work a) = 32 -> len (cumulative_work b) = 32 -> len (cumulative_work c) = 32 ->
  len target = 32 ->
  is_better_chain a a = false /\
  (is_better_chain a b = true -> is_better_chain b a = false) /\
  (is_better_chain a b = true -> is_better_chain b c = true -> is_better_chain a c = true) /\
  (is_better_chain a b = false -> is_better_chain b c = false -> is_better_chain a c = false) /\
  is_better_chain (ChainTip_new id (tip_height a + 1) target (cumulative_work a)) a = true /\
  (be_val (cumulative_work a) + be_val (work_from_target target) < 2 ^ 256 ->
   be_val (cumulative_work (ChainTip_new id (tip_height a + 1) target (cumulative_work a))) =
   be_val (cumulative_work a) + be_val (work_from_target target)).
Proof.
  intros La Lb Lc Lt. destruct (work_from_target_spec target Lt) as [Lw _].
  destruct (add_work_spec _ _ La Lw) as [Ls Vs]. pose proof (val_bound _ La). pose proof (val_bound _ Lw).
  rewrite <- !not_true_iff_false, !is_better_chain_spec by done. cbn [ChainTip_new cumulative_work tip_height].
  rewrite Vs. lia.
Qed.
Lemma fork_choice_order_witness :
  let g := ChainTip_genesis zero32 genesis_target in
  is_better_chain (ChainTip_new one32 1 genesis_target (cumulative_work g)) g = true.
Proof.
  intros g. apply (fork_choice_order g g g one32 genesis_target); vm_compute; reflexivity.
Defined.
