(* ===== verification/Smt.v ===== *)
(** * The sparse Merkle tree of the UTXO commitment ([src/chain/smt.rs])

    The path-compressed tree lives in an arena of nodes with a free list; every
    operation reads and writes that shared store.  Indexing outside the arena
    is a panic, modelled by [None]; the recursion of [insert_at], [remove_at],
    [any_key] and the loop of [find_leaf] follow child indices and carry fuel.
    The reference is the uncompressed depth-256 tree ([ref_hash]). *)

From Stdlib Require Import Strings.String.
From S2P Require Import Prelude Bytes Codec Hash Transaction U256.
#[local] Open Scope Z_scope.
#[local] Open Scope list_scope.

Definition SMT_DEPTH : nat := 256.

(** [(key[bit / 8] >> (7 - bit % 8)) & 1] *)
Definition get_bit (key : bytes) (bit_index : nat) : Z :=
  let byte_idx := Z.of_nat bit_index / 8 in
  let bit_idx := 7 - Z.of_nat bit_index mod 8 in
  Z.land (Z.shiftr (byte_Z (byte_at key byte_idx)) bit_idx) 1.

(** [for d in from..from + n]: the first position where the keys differ. *)
Fixpoint first_diff (a b : bytes) (from n : nat) : option nat :=
  match n with
  | O => None
  | S n => if get_bit a from =? get_bit b from then first_diff a b (S from) n else Some from
  end.
Definition first_different_bit (a b : bytes) (from : nat) : nat :=
  default SMT_DEPTH (first_diff a b from (SMT_DEPTH - from)).

(** ** The arena *)

Definition NodeIdx : Type := Z.
Definition NULL : NodeIdx := 0.

Inductive SmtNode :=
| Leaf (key value : bytes)
| Branch (bit_depth : nat) (lhs rhs : NodeIdx) (hash : bytes)
| Extension (bit_depth child_depth : nat) (prefix_key : bytes) (child : NodeIdx) (hash : bytes).

(** [free] has the last pushed index first. *)
Record Heap := { arena : list SmtNode; free : list NodeIdx }.

Definition heap_op (A : Type) : Type := Heap -> option (A * Heap).
#[export] Instance heap_ret : MRet heap_op := fun A a h => Some (a, h).
#[export] Instance heap_bind : MBind heap_op := fun A B f c h =>
  match c h with Some (a, h) => f a h | None => None end.
Definition panic {A} : heap_op A := fun _ => None.

(** [self.arena[idx]] *)
Definition get_node (idx : NodeIdx) : heap_op SmtNode := fun h =>
  match arena h !! Z.to_nat idx with Some n => Some (n, h) | None => None end.
(** [self.arena[idx] = node] *)
Definition put_node (idx : NodeIdx) (node : SmtNode) : heap_op unit := fun h =>
  if (Z.to_nat idx <? length (arena h))%nat
  then Some (tt, {| arena := <[Z.to_nat idx := node]> (arena h); free := free h |})
  else None.

Definition alloc (node : SmtNode) : heap_op NodeIdx := fun h =>
  match free h with
  | idx :: rest =>
      (_ ← put_node idx node; mret idx) {| arena := arena h; free := rest |}
  | [] =>
      Some (len (arena h) mod 2 ^ 32, {| arena := arena h ++ [node]; free := [] |})
  end.

Definition free_node (idx : NodeIdx) : heap_op unit := fun h =>
  if idx =? NULL then Some (tt, h) else Some (tt, {| arena := arena h; free := idx :: free h |}).

Definition logical_depth (idx : NodeIdx) : heap_op nat :=
  if idx =? NULL then mret O
  else
    n ← get_node idx;
    mret match n with
         | Leaf _ _ => 256%nat
         | Branch bit_depth _ _ _ => bit_depth
         | Extension bit_depth _ _ _ _ => bit_depth
         end.

Fixpoint any_key (fuel : nat) (idx : NodeIdx) : heap_op bytes :=
  match fuel with
  | O => panic
  | S fuel =>
      if idx =? NULL then mret zero32
      else
        n ← get_node idx;
        match n with
        | Leaf key _ => mret key
        | Branch _ lhs rhs _ => if negb (lhs =? NULL) then any_key fuel lhs else any_key fuel rhs
        | Extension _ _ _ child _ => any_key fuel child
        end
  end.

(** Enough for any chain of strictly increasing depths up to 256. *)
Definition FUEL : nat := 258.

Section Smt.
Context `{Sha2}.

(** ** Hashes *)

(** [EmptyHashes]: the hash of an empty subtree of the given height. *)
Fixpoint empty_hash (d : nat) : bytes :=
  match d with
  | O => zero32
  | S d => let h := empty_hash d in Hash256_sha256 (h ++ h)
  end.
Definition empty_root : Hash256 := empty_hash SMT_DEPTH.

Definition leaf_key (tx_id : Hash256) (output_index : Z) : Hash256 :=
  domain_hash DS_STATE (tx_id ++ le_bytes 4 output_index).
Definition leaf_value (canonical_output_bytes : bytes) (height : Z) (is_coinbase : bool) : Hash256 :=
  Hash256_sha256 (canonical_output_bytes ++ le_bytes 8 height ++ [if is_coinbase then x01 else x00]).

Definition subtree_hash (idx : NodeIdx) (at_depth : nat) : heap_op bytes :=
  if idx =? NULL then mret (empty_hash (SMT_DEPTH - at_depth))
  else
    n ← get_node idx;
    mret match n with
         | Leaf _ value => value
         | Branch _ _ _ hash => hash
         | Extension _ _ _ _ hash => hash
         end.

Definition compute_branch_hash (lhs rhs : NodeIdx) (bit_depth : nat) : heap_op bytes :=
  left_hash ← subtree_hash lhs (bit_depth + 1);
  right_hash ← subtree_hash rhs (bit_depth + 1);
  mret (Hash256_sha256 (left_hash ++ right_hash)).

(** [for d in (from_depth..from_depth + n).rev()]: the outermost level is [from_depth]. *)
Fixpoint fold_levels (child_hash key : bytes) (from_depth n : nat) : bytes :=
  match n with
  | O => child_hash
  | S n =>
      let h := fold_levels child_hash key (S from_depth) n in
      let empty_sibling := empty_hash (SMT_DEPTH - from_depth - 1) in
      if get_bit key from_depth =? 0 then Hash256_sha256 (h ++ empty_sibling)
      else Hash256_sha256 (empty_sibling ++ h)
  end.
Definition fold_hash (child_hash key : bytes) (from_depth to_depth : nat) : bytes :=
  fold_levels child_hash key from_depth (to_depth - from_depth).

(** ** Lookup *)

Fixpoint find_leaf_from (fuel : nat) (idx : NodeIdx) (key : bytes) : heap_op (option bytes) :=
  match fuel with
  | O => panic
  | S fuel =>
      if idx =? NULL then mret None
      else
        n ← get_node idx;
        match n with
        | Leaf k value => mret (if bool_decide (k = key) then Some value else None)
        | Branch bit_depth lhs rhs _ =>
            find_leaf_from fuel (if get_bit key bit_depth =? 0 then lhs else rhs) key
        | Extension bit_depth child_depth prefix_key child _ =>
            match first_diff key prefix_key bit_depth (child_depth - bit_depth) with
            | Some _ => mret None
            | None => find_leaf_from fuel child key
            end
        end
  end.

(** ** Insertion *)

Definition wrap_in_extension (node_idx : NodeIdx) (target_depth : nat) : heap_op NodeIdx :=
  node_depth ← logical_depth node_idx;
  if (node_depth <=? target_depth)%nat then mret node_idx
  else
    key ← any_key FUEL node_idx;
    child_hash ← subtree_hash node_idx node_depth;
    alloc (Extension target_depth node_depth key node_idx (fold_hash child_hash key target_depth node_depth)).

(** The partial match of [insert_at]: the extension is split at [diverge]. *)
Definition split_extension (idx : NodeIdx) (bit_depth child_depth : nat) (prefix_key : bytes) (child : NodeIdx)
  (key value : bytes) (diverge : nat) : heap_op NodeIdx :=
  new_leaf ← alloc (Leaf key value);
  remaining_child ←
    (if (diverge + 1 <? child_depth)%nat then
       ch ← subtree_hash child child_depth;
       alloc (Extension (diverge + 1) child_depth prefix_key child
                (fold_hash ch prefix_key (diverge + 1) child_depth))
     else mret child);
  let bit_new := get_bit key diverge in
  w ← wrap_in_extension new_leaf (diverge + 1);
  let lr := if bit_new =? 0 then (w, remaining_child) else (remaining_child, w) in
  branch_hash ← compute_branch_hash lr.1 lr.2 diverge;
  branch ← alloc (Branch diverge lr.1 lr.2 branch_hash);
  if (bit_depth <? diverge)%nat then
    _ ← put_node idx (Extension bit_depth diverge key branch (fold_hash branch_hash key bit_depth diverge));
    mret idx
  else
    _ ← free_node idx;
    mret branch.

Fixpoint insert_at (fuel : nat) (idx : NodeIdx) (depth : nat) (key value : bytes) : heap_op NodeIdx :=
  match fuel with
  | O => panic
  | S fuel =>
      if idx =? NULL then
        leaf ← alloc (Leaf key value);
        wrap_in_extension leaf depth
      else
        n ← get_node idx;
        match n with
        | Leaf existing_key _ =>
            if bool_decide (existing_key = key) then
              _ ← put_node idx (Leaf key value);
              mret idx
            else
              leaf_depth ← logical_depth idx;
              let diverge := first_different_bit existing_key key leaf_depth in
              new_leaf ← alloc (Leaf key value);
              (* [get_bit(key, 256)] indexes past the key *)
              if (SMT_DEPTH <=? diverge)%nat then panic
              else
                let bit_new := get_bit key diverge in
                lr ← (if bit_new =? 0 then
                        l ← wrap_in_extension new_leaf (diverge + 1);
                        r ← wrap_in_extension idx (diverge + 1);
                        mret (l, r)
                      else
                        l ← wrap_in_extension idx (diverge + 1);
                        r ← wrap_in_extension new_leaf (diverge + 1);
                        mret (l, r));
                branch_hash ← compute_branch_hash lr.1 lr.2 diverge;
                branch ← alloc (Branch diverge lr.1 lr.2 branch_hash);
                if (depth <? diverge)%nat then alloc (Extension depth diverge key branch zero32)
                else mret branch
        | Branch bit_depth lhs rhs _ =>
            let bit := get_bit key bit_depth in
            lr ← (if bit =? 0 then
                    l ← insert_at fuel lhs (bit_depth + 1) key value;
                    mret (l, rhs)
                  else
                    r ← insert_at fuel rhs (bit_depth + 1) key value;
                    mret (lhs, r));
            h ← compute_branch_hash lr.1 lr.2 bit_depth;
            _ ← put_node idx (Branch bit_depth lr.1 lr.2 h);
            mret idx
        | Extension bit_depth child_depth prefix_key child _ =>
            match first_diff key prefix_key bit_depth (child_depth - bit_depth) with
            | None =>
                new_child ← insert_at fuel child child_depth key value;
                ch ← subtree_hash new_child child_depth;
                _ ← put_node idx (Extension bit_depth child_depth prefix_key new_child
                                    (fold_hash ch prefix_key bit_depth child_depth));
                mret idx
            | Some diverge => split_extension idx bit_depth child_depth prefix_key child key value diverge
            end
        end
  end.

(** ** Removal *)

Definition prepend_extension (child : NodeIdx) (from_depth : nat) : heap_op NodeIdx :=
  child_key ← any_key FUEL child;
  child_logical_depth ← logical_depth child;
  n ← get_node child;
  match n with
  | Extension _ child_depth prefix_key inner_child _ =>
      ch ← subtree_hash inner_child child_depth;
      _ ← put_node child (Extension from_depth child_depth prefix_key inner_child
                            (fold_hash ch prefix_key from_depth child_depth));
      mret child
  | _ =>
      if (from_depth <? child_logical_depth)%nat then
        ch ← subtree_hash child child_logical_depth;
        alloc (Extension from_depth child_logical_depth child_key child
                 (fold_hash ch child_key from_depth child_logical_depth))
      else mret child
  end.

Definition try_merge_extension (ext_idx : NodeIdx) (ext_bd ext_cd : nat) (ext_prefix : bytes)
  (new_child : NodeIdx) : heap_op NodeIdx :=
  n ← get_node new_child;
  match n with
  | Extension _ inner_cd inner_prefix inner _ =>
      ch ← subtree_hash inner inner_cd;
      _ ← free_node new_child;
      _ ← put_node ext_idx (Extension ext_bd inner_cd inner_prefix inner (fold_hash ch inner_prefix ext_bd inner_cd));
      mret ext_idx
  | Leaf leaf_key _ =>
      ch ← subtree_hash new_child 256;
      _ ← put_node ext_idx (Extension ext_bd 256 leaf_key new_child (fold_hash ch leaf_key ext_bd 256));
      mret ext_idx
  | Branch _ _ _ _ =>
      ch ← subtree_hash new_child ext_cd;
      _ ← put_node ext_idx (Extension ext_bd ext_cd ext_prefix new_child (fold_hash ch ext_prefix ext_bd ext_cd));
      mret ext_idx
  end.

Fixpoint remove_at (fuel : nat) (idx : NodeIdx) (depth : nat) (key : bytes) : heap_op NodeIdx :=
  match fuel with
  | O => panic
  | S fuel =>
      if idx =? NULL then mret NULL
      else
        n ← get_node idx;
        match n with
        | Leaf k _ =>
            if bool_decide (k = key) then
              _ ← free_node idx;
              mret NULL
            else mret idx
        | Branch bit_depth lhs rhs _ =>
            let bit := get_bit key bit_depth in
            lr ← (if bit =? 0 then
                    l ← remove_at fuel lhs (bit_depth + 1) key;
                    mret (l, rhs)
                  else
                    r ← remove_at fuel rhs (bit_depth + 1) key;
                    mret (lhs, r));
            if (lr.1 =? NULL) && (lr.2 =? NULL) then
              _ ← free_node idx;
              mret NULL
            else if lr.1 =? NULL then
              _ ← free_node idx;
              prepend_extension lr.2 depth
            else if lr.2 =? NULL then
              _ ← free_node idx;
              prepend_extension lr.1 depth
            else
              h ← compute_branch_hash lr.1 lr.2 bit_depth;
              _ ← put_node idx (Branch bit_depth lr.1 lr.2 h);
              mret idx
        | Extension bit_depth child_depth prefix_key child _ =>
            new_child ← remove_at fuel child child_depth key;
            if new_child =? NULL then
              _ ← free_node idx;
              mret NULL
            else try_merge_extension idx bit_depth child_depth prefix_key new_child
        end
  end.

(** ** The tree *)

Record SparseMerkleTree := { heap : Heap; root : NodeIdx; root_hash : Hash256; leaf_count : Z }.

Definition SparseMerkleTree_new : SparseMerkleTree := {|
  heap := {| arena := [Leaf zero32 zero32]; free := [] |};
  root := NULL; root_hash := empty_root; leaf_count := 0 |}.

Definition find_leaf (t : SparseMerkleTree) (key : bytes) : option (option bytes) :=
  fst <$> find_leaf_from FUEL (root t) key (heap t).

Definition SparseMerkleTree_insert (key value : Hash256) (t : SparseMerkleTree) : option SparseMerkleTree :=
  let! found := find_leaf t key in
  let! (root, h) := insert_at FUEL (root t) 0 key value (heap t) in
  let! (hash, h) := subtree_hash root 0 h in
  Some {| heap := h; root := root; root_hash := hash;
          leaf_count := match found with None => leaf_count t + 1 | Some _ => leaf_count t end |}.

Definition SparseMerkleTree_remove (key : Hash256) (t : SparseMerkleTree) : option SparseMerkleTree :=
  let! found := find_leaf t key in
  match found with
  | None => Some t
  | Some _ =>
      let! (root, h) := remove_at FUEL (root t) 0 key (heap t) in
      let! (hash, h) := subtree_hash root 0 h in
      Some {| heap := h; root := root; root_hash := hash; leaf_count := leaf_count t - 1 |}
  end.

Definition smt_node_count (t : SparseMerkleTree) : Z := len (arena (heap t)) - 1 - len (free (heap t)).

(** ** The reference: the uncompressed tree *)

(** The hash of the subtree with [n] levels below it and the given leaves. *)
Fixpoint ref_hash (n : nat) (m : gmap bytes bytes) : bytes :=
  match n with
  | O => match map_to_list m with [] => zero32 | kv :: _ => kv.2 end
  | S n =>
      Hash256_sha256
        (ref_hash n (filter (fun kv => get_bit kv.1 (SMT_DEPTH - S n) = 0) m) ++
         ref_hash n (filter (fun kv => get_bit kv.1 (SMT_DEPTH - S n) <> 0) m))
  end.

End Smt.

(** ** Key bits *)

Lemma get_bit_testbit k i :
  get_bit k i = Z.b2z (Z.testbit (byte_Z (byte_at k (Z.of_nat i / 8))) (7 - Z.of_nat i mod 8)).
Proof.
  unfold get_bit. pose proof (Z.mod_pos_bound (Z.of_nat i) 8 eq_refl). rewrite Z.testbit_spec' by lia.
  set (x := byte_Z _). set (s := 7 - _). change (Z.land (Z.shiftr x s) 1) with (Z.land (Z.shiftr x s) (Z.ones 1)).
  rewrite Z.land_ones, Z.shiftr_div_pow2 by lia. done.
Qed.

Lemma get_bit_01 k i : get_bit k i = 0 \/ get_bit k i = 1.
Proof. rewrite get_bit_testbit. destruct (Z.testbit _ _); [by right|by left]. Qed.

Definition agree (d : nat) (a b : bytes) : Prop := forall i, (i < d)%nat -> get_bit a i = get_bit b i.

#[export] Instance agree_equiv d : Equivalence (agree d).
Proof.
  split; [done| |]; [intros a b Hab i Hi; symmetry; auto|intros a b c Hab Hbc i Hi; rewrite Hab by done; auto].
Qed.

Lemma agree_weaken d d' a b : (d' <= d)%nat -> agree d a b -> agree d' a b.
Proof. intros Hd Ha i Hi. apply Ha. lia. Qed.

Lemma agree_S d a b : agree d a b -> get_bit a d = get_bit b d -> agree (S d) a b.
Proof. intros Ha Hb i Hi. destruct (decide (i = d)) as [->|]; [done|]. apply Ha. lia. Qed.

Lemma agree_0 a b : agree 0 a b.
Proof. intros i Hi. lia. Qed.

(** Keys that agree on all 256 bits are equal. *)
Lemma agree_full a b : len a = 32 -> len b = 32 -> agree 256 a b -> a = b.
Proof.
  intros La Lb Hab. apply (list_eq_same_length _ _ 32); [unfold len in *; lia..|].
  intros i x y Hi Hx Hy. apply byte_Z_inj. apply Z.bits_inj'. intros n Hn.
  destruct (Z.ltb_spec n 8) as [Hn8|Hn8].
  - specialize (Hab (8 * i + Z.to_nat (7 - n))%nat ltac:(lia)). rewrite !get_bit_testbit in Hab.
    replace (Z.of_nat (8 * i + Z.to_nat (7 - n)) / 8) with (Z.of_nat i) in Hab
      by (apply Z.div_unique with (7 - n); lia).
    replace (Z.of_nat (8 * i + Z.to_nat (7 - n)) mod 8) with (7 - n) in Hab
      by (apply Z.mod_unique with (Z.of_nat i); lia).
    unfold byte_at in Hab. rewrite Nat2Z.id, Hx, Hy in Hab. replace (7 - (7 - n)) with n in Hab by lia.
    cbn [default] in Hab. by apply Z.b2z_inj.
  - rewrite !Z.bits_above_log2; [done| | | |]; try apply byte_Z_range;
      pose proof (byte_Z_range x); pose proof (byte_Z_range y);
      (eapply Z.le_lt_trans; [apply (Z.log2_le_mono _ 255); lia|]; change (Z.log2 255) with 7; lia).
Qed.

Lemma first_diff_None a b from n :
  first_diff a b from n = None <-> forall i, (from <= i < from + n)%nat -> get_bit a i = get_bit b i.
Proof.
  revert from. induction n as [|n IH]; intros from; cbn [first_diff]; [split; [lia|done]|].
  destruct (Z.eqb_spec (get_bit a from) (get_bit b from)) as [E|E].
  - rewrite IH. split; intros Hall i Hi; [|apply Hall; lia].
    destruct (decide (i = from)) as [->|]; [done|]. apply Hall. lia.
  - split; [done|]. intros Hall. destruct E. apply Hall. lia.
Qed.

Lemma first_diff_Some a b from n d :
  first_diff a b from n = Some d ->
  (from <= d < from + n)%nat /\ get_bit a d <> get_bit b d /\
  forall i, (from <= i < d)%nat -> get_bit a i = get_bit b i.
Proof.
  revert from. induction n as [|n IH]; intros from; cbn [first_diff]; [done|].
  destruct (Z.eqb_spec (get_bit a from) (get_bit b from)) as [E|E].
  - intros Hd. apply IH in Hd as (Hr & Hne & Heq). split; [lia|]. split; [done|]. intros i Hi.
    destruct (decide (i = from)) as [->|]; [done|]. apply Heq. lia.
  - intros [= <-]. split; [lia|]. split; [done|]. lia.
Qed.

(** ** Abstract trees *)

Inductive tree :=
| TLeaf (k v : bytes)
| TBranch (d : nat) (l r : tree)
| TExt (bd cd : nat) (pk : bytes) (c : tree).

Fixpoint leaves (t : tree) : gmap bytes bytes :=
  match t with
  | TLeaf k v => {[k := v]}
  | TBranch _ l r => leaves l ∪ leaves r
  | TExt _ _ _ c => leaves c
  end.

(** The tree sits at depth [d] below the first [d] bits of [p]. *)
Fixpoint twf (d : nat) (p : bytes) (t : tree) : Prop :=
  match t with
  | TLeaf k v => d = 256%nat /\ len k = 32 /\ agree 256 k p
  | TBranch bd l r =>
      bd = d /\ (d < 256)%nat /\
      exists pl pr, agree d pl p /\ agree d pr p /\ get_bit pl d = 0 /\ get_bit pr d = 1 /\
        twf (S d) pl l /\ twf (S d) pr r
  | TExt bd cd pk c => bd = d /\ (d < cd <= 256)%nat /\ agree d pk p /\ twf cd pk c
  end.

Lemma twf_agree d p q t : agree d p q -> twf d p t -> twf d q t.
Proof.
  destruct t as [k v|bd l r|bd cd pk c]; cbn [twf].
  - intros Ha (-> & Hl & Hk). by rewrite <- Ha.
  - intros Ha (-> & Hd & pl & pr & Hl & Hr & H0). split; [done|]. split; [done|]. exists pl, pr.
    by rewrite <- !Ha.
  - intros Ha (-> & Hd & Hp & Hc). by rewrite <- Ha.
Qed.

Lemma twf_depth d p t : twf d p t -> (d <= 256)%nat.
Proof. destruct t; cbn [twf]; intros; lia. Qed.

Lemma twf_keys d p t k v : twf d p t -> leaves t !! k = Some v -> agree d k p /\ len k = 32.
Proof.
  revert d p. induction t as [k' v'|bd l IHl r IHr|bd cd pk c IHc]; intros d p; cbn [twf leaves].
  - intros (-> & Hl & Ha) [-> ->]%lookup_singleton_Some. done.
  - intros (-> & Hd & pl & pr & Hl & Hr & _ & _ & Wl & Wr) [Hk|[_ Hk]]%lookup_union_Some_raw.
    + destruct (IHl _ _ Wl Hk) as [Ha Hlen]. split; [|done]. rewrite <- Hl. apply agree_weaken with (S d); [lia|done].
    + destruct (IHr _ _ Wr Hk) as [Ha Hlen]. split; [|done]. rewrite <- Hr. apply agree_weaken with (S d); [lia|done].
  - intros (-> & Hd & Hp & Hc) Hk. destruct (IHc _ _ Hc Hk) as [Ha Hlen]. split; [|done].
    rewrite <- Hp. apply agree_weaken with cd; [lia|done].
Qed.

Arguments twf_keys {d p t k v}.

(** ** Hashes of abstract trees are hashes of the reference tree *)

Section Hashes.
Context `{Sha2}.

Fixpoint thash (t : tree) : bytes :=
  match t with
  | TLeaf _ v => v
  | TBranch _ l r => Hash256_sha256 (thash l ++ thash r)
  | TExt bd cd pk c => fold_hash (thash c) pk bd cd
  end.

Lemma ref_hash_empty n : ref_hash n ∅ = empty_hash n.
Proof.
  induction n as [|n IH]; cbn [ref_hash empty_hash].
  - by rewrite map_to_list_empty.
  - by rewrite !map_filter_empty, IH.
Qed.

(** Leaves that all have the same bit go to one side. *)
Lemma filter_bits (d : nat) (m : gmap bytes bytes) (b : Z) :
  (forall k v, m !! k = Some v -> get_bit k d = b) ->
  filter (fun kv => get_bit kv.1 d = 0) m = (if b =? 0 then m else ∅) /\
  filter (fun kv => get_bit kv.1 d <> 0) m = (if b =? 0 then ∅ else m).
Proof.
  intros Hm. destruct (Z.eqb_spec b 0) as [->|Hb]; split.
  - apply map_filter_id. intros k v Hk. by apply (Hm k v).
  - apply map_empty_filter. intros k v Hk Hne. by apply Hne, (Hm k v).
  - apply map_empty_filter. intros k v Hk. simpl. by rewrite (Hm k v Hk).
  - apply map_filter_id. intros k v Hk. simpl. by rewrite (Hm k v Hk).
Qed.

Lemma ref_hash_S (d : nat) (m : gmap bytes bytes) :
  (d < 256)%nat ->
  ref_hash (256 - d) m =
    Hash256_sha256 (ref_hash (256 - S d) (filter (fun kv => get_bit kv.1 d = 0) m) ++
                    ref_hash (256 - S d) (filter (fun kv => get_bit kv.1 d <> 0) m)).
Proof.
  intros Hd. replace (256 - d)%nat with (S (256 - S d)) by lia. cbn [ref_hash]. unfold SMT_DEPTH.
  by replace (256 - S (256 - S d))%nat with d by lia.
Qed.

Lemma ref_hash_fold m pk n from :
  (from + n <= 256)%nat ->
  (forall k v i, m !! k = Some v -> (from <= i < from + n)%nat -> get_bit k i = get_bit pk i) ->
  ref_hash (256 - from) m = fold_levels (ref_hash (256 - (from + n)) m) pk from n.
Proof.
  revert from. induction n as [|n IH]; intros from Hn Hm; cbn [fold_levels]; [by rewrite Nat.add_0_r|].
  rewrite ref_hash_S by lia. destruct (filter_bits from m (get_bit pk from)) as [-> ->].
  { intros k v Hk. eapply Hm; [done|lia]. }
  unfold SMT_DEPTH. replace (256 - from - 1)%nat with (256 - S from)%nat by lia.
  replace (from + S n)%nat with (S from + n)%nat by lia.
  rewrite <- (IH (S from)) by (lia || (intros; eapply Hm; [done|lia])).
  destruct (get_bit pk from =? 0); by rewrite ref_hash_empty.
Qed.

Lemma leaves_bits d p t k v : twf (S d) p t -> leaves t !! k = Some v -> get_bit k d = get_bit p d.
Proof. intros Hw Hk. apply (proj1 (twf_keys Hw Hk)). lia. Qed.

#[local] Arguments leaves_bits {d p t k v}.

Lemma ref_hash_tree d p t : twf d p t -> ref_hash (256 - d) (leaves t) = thash t.
Proof.
  revert d p. induction t as [k v|bd l IHl r IHr|bd cd pk c IHc]; intros d p; cbn [twf leaves thash].
  - intros (-> & _). change (256 - 256)%nat with O. cbn [ref_hash]. by rewrite map_to_list_singleton.
  - intros (-> & Hd & pl & pr & _ & _ & Hbl & Hbr & Wl & Wr). rewrite <- (IHl _ _ Wl), <- (IHr _ _ Wr).
    assert (leaves l ##ₘ leaves r) as Hdisj.
    { apply map_disjoint_spec. intros k x y Hx Hy. pose proof (leaves_bits Wl Hx).
      pose proof (leaves_bits Wr Hy). lia. }
    rewrite ref_hash_S by done. rewrite !map_filter_union by done.
    destruct (filter_bits d (leaves l) 0) as [-> ->]; [intros k v Hk; by rewrite (leaves_bits Wl Hk)|].
    destruct (filter_bits d (leaves r) 1) as [-> ->]; [intros k v Hk; by rewrite (leaves_bits Wr Hk)|].
    cbn [Z.eqb]. by rewrite (left_id_L ∅ _), (right_id_L ∅ _).
  - intros (-> & Hd & Hp & Hc). unfold fold_hash. rewrite (ref_hash_fold _ pk (cd - d)); [|lia|].
    + replace (d + (cd - d))%nat with cd by lia. by rewrite (IHc _ _ Hc).
    + intros k v i Hk Hi. apply (proj1 (twf_keys Hc Hk)). lia.
Qed.
End Hashes.
Arguments leaves_bits {d p t k v}.

(** ** Representation of trees in the arena *)

Ltac perm :=
  apply (Permutation_count_occ Z.eq_dec); let x := fresh "x" in intros x;
  rewrite ?app_nil_r, ?count_occ_app; cbn [count_occ app]; rewrite ?count_occ_app; cbn [count_occ app];
  rewrite ?count_occ_app; repeat destruct (Z.eq_dec _ _); lia.

(** The nodes in use and the free list are disjoint and lie in the arena. *)
Definition heap_ok (h : Heap) (live : list Z) : Prop :=
  NoDup (live ++ free h) /\ Forall (fun i => 0 < i < len (arena h)) (live ++ free h) /\ 1 <= len (arena h).

(** The cells of [live] have the same contents. *)
Definition same_on (live : list Z) (h h' : Heap) : Prop :=
  forall j, In j live -> arena h' !! Z.to_nat j = arena h !! Z.to_nat j.

Lemma same_on_refl live h : same_on live h h.
Proof. done. Qed.
Lemma same_on_trans live h1 h2 h3 : same_on live h1 h2 -> same_on live h2 h3 -> same_on live h1 h3.
Proof. intros H12 H23 j Hj. rewrite H23 by done. auto. Qed.
Lemma same_on_sub live live' h h' : (forall j, In j live' -> In j live) -> same_on live h h' -> same_on live' h h'.
Proof. intros Hs Hh j Hj. auto. Qed.

Lemma heap_ok_perm h l l' : Permutation l l' -> heap_ok h l -> heap_ok h l'.
Proof. intros Hp (Hn & Hf & Hl). unfold heap_ok. by rewrite <- Hp. Qed.

(** Rearrange the list of nodes in use. *)
Ltac reperm H := eapply heap_ok_perm; [|exact H]; perm.

Lemma run_bind {A B} (c : heap_op A) (f : A -> heap_op B) h a h1 : c h = Some (a, h1) -> (c ≫= f) h = f a h1.
Proof. intros Hc. unfold mbind, heap_bind. by rewrite Hc. Qed.

Arguments run_bind {A B c f h a h1}.

Lemma get_node_ok h i n : arena h !! Z.to_nat i = Some n -> get_node i h = Some (n, h).
Proof. intros Hi. unfold get_node. by rewrite Hi. Qed.

Arguments get_node_ok {h i n}.

Lemma alloc_ok h live n :
  heap_ok h live -> len (arena h) < 2 ^ 32 ->
  exists i h', alloc n h = Some (i, h') /\ heap_ok h' (i :: live) /\ 0 < i /\
    arena h' !! Z.to_nat i = Some n /\ same_on live h h' /\
    len (arena h') = len (arena h) + (match free h with [] => 1 | _ => 0 end).
Proof.
  intros (Hn & Hf & Hl) Hb. unfold alloc. destruct (free h) as [|i rest] eqn:Ef.
  - exists (len (arena h)). rewrite Z.mod_small by lia. eexists. split; [done|].
    rewrite app_nil_r in *. unfold heap_ok. cbn [arena free]. rewrite len_app, !app_nil_r. change (len [n]) with 1.
    split_and!; try lia.
    + constructor; [|done]. intros Hin. rewrite Forall_forall in Hf. apply Hf in Hin. lia.
    + constructor; [lia|]. eapply Forall_impl; [done|]. simpl. lia.
    + unfold len. by rewrite Nat2Z.id, list_lookup_middle.
    + intros j Hj. rewrite Forall_forall in Hf. apply list_elem_of_In, Hf in Hj. cbn [arena].
      apply lookup_app_l. unfold len in Hj. lia.
  - assert (Permutation (live ++ i :: rest) ((i :: live) ++ rest)) as Hp by (cbn; by rewrite Permutation_middle).
    rewrite Hp in Hn, Hf. pose proof (Forall_inv Hf) as Hi. cbn beta in Hi.
    exists i, {| arena := <[Z.to_nat i := n]> (arena h); free := rest |}.
    unfold mbind, heap_bind, put_node, mret, heap_ret. cbn [arena free].
    assert (Z.to_nat i < length (arena h))%nat as Hlt by (unfold len in Hi; lia).
    apply Nat.ltb_lt in Hlt as Hltb. rewrite Hltb. split; [done|].
    unfold heap_ok, len. cbn [arena free]. rewrite length_insert. fold (len (arena h)).
    split_and!; try done; try lia.
    + by rewrite list_lookup_insert_eq.
    + intros j Hj. cbn [arena]. apply list_lookup_insert_ne. intros Eij.
      assert (In j (live ++ rest)) as Hj' by (apply in_or_app; by left).
      apply list_elem_of_In in Hj'. apply NoDup_cons in Hn as [Hni Hn]. apply Hni.
      apply Forall_cons in Hf as [_ Hf]. rewrite Forall_forall in Hf. pose proof (Hf j Hj').
      by replace i with j by lia.
Qed.

Lemma put_ok h live i n :
  heap_ok h live -> In i live ->
  exists h', put_node i n h = Some (tt, h') /\ heap_ok h' live /\ arena h' !! Z.to_nat i = Some n /\
    (forall j, In j live -> j <> i -> arena h' !! Z.to_nat j = arena h !! Z.to_nat j) /\
    len (arena h') = len (arena h) /\ free h' = free h.
Proof.
  intros (Hn & Hf & Hl) Hi. rewrite Forall_forall in Hf.
  assert (forall j, In j live -> 0 < j < len (arena h)) as Hr.
  { intros j Hj. apply Hf. apply list_elem_of_In, in_or_app. by left. }
  pose proof (Hr i Hi). assert (Z.to_nat i < length (arena h))%nat as Hlt by (unfold len in *; lia).
  unfold put_node. apply Nat.ltb_lt in Hlt as Hltb. rewrite Hltb. eexists. split; [done|].
  unfold heap_ok, len. cbn [arena free]. rewrite length_insert. fold (len (arena h)). split_and!; try done.
  - by apply Forall_forall.
  - by rewrite list_lookup_insert_eq.
  - intros j Hj Hne. pose proof (Hr j Hj). apply list_lookup_insert_ne. lia.
Qed.

Lemma free_ok h live i :
  heap_ok h (i :: live) ->
  exists h', free_node i h = Some (tt, h') /\ heap_ok h' live /\ arena h' = arena h /\ free h' <> [].
Proof.
  intros (Hn & Hf & Hl). pose proof (Forall_inv Hf) as Hi. cbn beta in Hi. unfold free_node, NULL.
  replace (i =? 0) with false by lia. eexists. split; [done|]. unfold heap_ok. cbn [arena free].
  assert (Permutation (live ++ i :: free h) ((i :: live) ++ free h)) as -> by (cbn; by rewrite Permutation_middle).
  done.
Qed.

Section Rep.
Context `{Sha2}.

(** Node [i] of the arena is the root of [t], with cached hashes, and [fp]
    lists the indices of its nodes. *)
Fixpoint rep (a : list SmtNode) (i : Z) (t : tree) (fp : list Z) : Prop :=
  0 < i /\
  match t with
  | TLeaf k v => fp = [i] /\ a !! Z.to_nat i = Some (Leaf k v)
  | TBranch d l r =>
      exists li ri fl fr, fp = i :: fl ++ fr /\ a !! Z.to_nat i = Some (Branch d li ri (thash (TBranch d l r))) /\
        rep a li l fl /\ rep a ri r fr
  | TExt bd cd pk c =>
      exists ci fc, fp = i :: fc /\ a !! Z.to_nat i = Some (Extension bd cd pk ci (thash (TExt bd cd pk c))) /\
        rep a ci c fc
  end.

Lemma rep_pos a i t fp : rep a i t fp -> 0 < i /\ (i =? NULL) = false /\ In i fp.
Proof.
  destruct t; cbn [rep]; intros [Hi Ht]; unfold NULL; (split; [done|split; [lia|]]);
    [destruct Ht as [-> _]|destruct Ht as (? & ? & ? & ? & -> & _)|destruct Ht as (? & ? & -> & _)]; by left.
Qed.

#[local] Arguments rep_pos {a i t fp}.

Lemma rep_same h h' i t fp : same_on fp h h' -> rep (arena h) i t fp -> rep (arena h') i t fp.
Proof.
  revert i fp. induction t as [k v|bd l IHl r IHr|bd cd pk c IHc]; intros i fp Hs; cbn [rep].
  - intros (Hi & -> & Ha). rewrite Hs by (by left). done.
  - intros (Hi & li & ri & fl & fr & -> & Ha & Hl & Hr). split; [done|]. exists li, ri, fl, fr.
    rewrite (Hs i) by (by left). split_and!; [done|done| |].
    + apply IHl; [|done]. eapply same_on_sub; [|exact Hs]. intros j Hj. right. apply in_or_app. by left.
    + apply IHr; [|done]. eapply same_on_sub; [|exact Hs]. intros j Hj. right. apply in_or_app. by right.
  - intros (Hi & ci & fc & -> & Ha & Hc). split; [done|]. exists ci, fc.
    rewrite (Hs i) by (by left). split_and!; [done|done|].
    apply IHc; [|done]. eapply same_on_sub; [|exact Hs]. intros j Hj. by right.
Qed.

Lemma subtree_hash_ok h i t fp d : rep (arena h) i t fp -> subtree_hash i d h = Some (thash t, h).
Proof.
  intros Hr. destruct (rep_pos Hr) as (_ & Hz & _). unfold subtree_hash. rewrite Hz.
  destruct t; cbn [rep] in Hr; destruct Hr as [_ Hr].
  - destruct Hr as [_ Ha]. by rewrite (run_bind (get_node_ok Ha)).
  - destruct Hr as (? & ? & ? & ? & _ & Ha & _). by rewrite (run_bind (get_node_ok Ha)).
  - destruct Hr as (? & ? & _ & Ha & _). by rewrite (run_bind (get_node_ok Ha)).
Qed.

Lemma branch_hash_ok h li ri l r fl fr d :
  rep (arena h) li l fl -> rep (arena h) ri r fr ->
  compute_branch_hash li ri d h = Some (thash (TBranch d l r), h).
Proof.
  intros Hl Hr. unfold compute_branch_hash. rewrite (run_bind (subtree_hash_ok _ _ _ _ _ Hl)).
  by rewrite (run_bind (subtree_hash_ok _ _ _ _ _ Hr)).
Qed.

Lemma any_key_ok fuel h i t fp d p :
  twf d p t -> (257 <= fuel + d)%nat -> rep (arena h) i t fp ->
  exists k v, any_key fuel i h = Some (k, h) /\ leaves t !! k = Some v.
Proof.
  revert fuel i fp d p. induction t as [k v|bd l IHl r IHr|bd cd pk c IHc]; intros fuel i fp d p Hw Hfuel Hrep;
    pose proof (twf_depth _ _ _ Hw); destruct fuel as [|fuel]; try lia; destruct (rep_pos Hrep) as (_ & Hz & _);
    cbn [any_key]; rewrite Hz; cbn [rep] in Hrep; destruct Hrep as [_ Hrep]; cbn [twf] in Hw.
  - destruct Hrep as [_ Ha]. exists k, v. rewrite (run_bind (get_node_ok Ha)).
    split; [done|]. apply lookup_singleton_eq.
  - destruct Hrep as (li & ri & fl & fr & _ & Ha & Hl & Hr). rewrite (run_bind (get_node_ok Ha)).
    destruct (rep_pos Hl) as (_ & -> & _). cbn [negb]. destruct Hw as (-> & Hd & pl & pr & _ & _ & _ & _ & Wl & _).
    destruct (IHl fuel li fl _ _ Wl ltac:(lia) Hl) as (k & v & E & Hk). exists k, v. split; [done|].
    cbn [leaves]. by apply lookup_union_Some_l.
  - destruct Hrep as (ci & fc & _ & Ha & Hc). rewrite (run_bind (get_node_ok Ha)).
    destruct Hw as (-> & Hd & _ & Wc). by apply (IHc fuel ci fc _ _ Wc ltac:(lia)).
Qed.

Lemma find_leaf_ok fuel h i t fp d p key :
  twf d p t -> (257 <= fuel + d)%nat -> rep (arena h) i t fp ->
  find_leaf_from fuel i key h = Some (leaves t !! key, h).
Proof.
  revert fuel i fp d p. induction t as [k v|bd l IHl r IHr|bd cd pk c IHc]; intros fuel i fp d p Hw Hfuel Hrep;
    pose proof (twf_depth _ _ _ Hw); destruct fuel as [|fuel]; try lia; destruct (rep_pos Hrep) as (_ & Hz & _);
    cbn [find_leaf_from leaves]; rewrite Hz; cbn [rep] in Hrep; destruct Hrep as [_ Hrep]; cbn [twf] in Hw.
  - destruct Hrep as [_ Ha]. rewrite (run_bind (get_node_ok Ha)).
    destruct (bool_decide_reflect (k = key)) as [->|Hne]; [by rewrite lookup_singleton_eq|].
    by rewrite lookup_singleton_ne.
  - destruct Hrep as (li & ri & fl & fr & _ & Ha & Hl & Hr). rewrite (run_bind (get_node_ok Ha)).
    destruct Hw as (-> & Hd & pl & pr & _ & _ & Hbl & Hbr & Wl & Wr).
    destruct (get_bit_01 key d) as [Hb|Hb]; rewrite Hb; cbn [Z.eqb].
    + rewrite (IHl fuel li fl _ _ Wl ltac:(lia) Hl), lookup_union_l; [done|].
      destruct (leaves r !! key) eqn:E; [|done]. pose proof (leaves_bits Wr E). lia.
    + rewrite (IHr fuel ri fr _ _ Wr ltac:(lia) Hr), lookup_union_r; [done|].
      destruct (leaves l !! key) eqn:E; [|done]. pose proof (leaves_bits Wl E). lia.
  - destruct Hrep as (ci & fc & _ & Ha & Hc). rewrite (run_bind (get_node_ok Ha)).
    destruct Hw as (-> & Hd & Hp & Wc). destruct (first_diff key pk d (cd - d)) as [x|] eqn:E.
    + apply first_diff_Some in E as (Hx & Hne & _). destruct (leaves c !! key) eqn:Ek; [|done].
      destruct Hne. apply (proj1 (twf_keys Wc Ek)). lia.
    + by apply (IHc fuel ci fc _ _ Wc ltac:(lia)).
Qed.

(** ** Insertion *)

Lemma logical_depth_ok h i t fp d p : twf d p t -> rep (arena h) i t fp -> logical_depth i h = Some (d, h).
Proof.
  intros Hw Hr. destruct (rep_pos Hr) as (_ & Hz & _). unfold logical_depth. rewrite Hz.
  destruct t; cbn [rep] in Hr; cbn [twf] in Hw; destruct Hr as [_ Hr].
  - destruct Hr as [_ Ha]. destruct Hw as [-> _]. by rewrite (run_bind (get_node_ok Ha)).
  - destruct Hr as (? & ? & ? & ? & _ & Ha & _). destruct Hw as [-> _].
    by rewrite (run_bind (get_node_ok Ha)).
  - destruct Hr as (? & ? & _ & Ha & _). destruct Hw as [-> _].
    by rewrite (run_bind (get_node_ok Ha)).
Qed.

(** What an operation that builds a tree at depth [d] around the leaves [m] promises. *)
Definition built (h h' : Heap) (i : Z) (d : nat) (p : bytes) (m : gmap bytes bytes) (rest : list Z) (n : Z) : Prop :=
  exists t fp, rep (arena h') i t fp /\ heap_ok h' (fp ++ rest) /\ same_on rest h h' /\
    twf d p t /\ leaves t = m /\ len (arena h) <= len (arena h') <= len (arena h) + n.

Lemma wrap_leaf_ok h rest i k v d :
  heap_ok h (i :: rest) -> arena h !! Z.to_nat i = Some (Leaf k v) -> 0 < i ->
  (d <= 256)%nat -> len k = 32 -> len (arena h) < 2 ^ 32 ->
  exists i' h', wrap_in_extension i d h = Some (i', h') /\ built h h' i' d k {[k := v]} rest 1.
Proof.
  intros Hok Ha Hi Hd Hk Hb. assert (rep (arena h) i (TLeaf k v) [i]) as Hrep by done.
  assert (twf 256 k (TLeaf k v)) as Hw by done. unfold wrap_in_extension.
  rewrite (run_bind (logical_depth_ok _ _ _ _ _ _ Hw Hrep)).
  destruct (Nat.leb_spec 256 d) as [Hle|Hlt].
  - assert (d = 256%nat) as -> by lia. exists i, h. split; [done|]. exists (TLeaf k v), [i].
    split_and!; try done; lia.
  - destruct (any_key_ok FUEL h i _ _ _ _ Hw ltac:(unfold FUEL; lia) Hrep) as (k' & v' & Ek & Hkv).
    cbn [leaves] in Hkv. apply lookup_singleton_Some in Hkv as [-> _].
    rewrite (run_bind Ek), (run_bind (subtree_hash_ok _ _ _ _ _ Hrep)).
    destruct (alloc_ok h (i :: rest) (Extension d 256 k' i (fold_hash (thash (TLeaf k' v)) k' d 256)) Hok Hb)
      as (j & h' & -> & Hok' & Hj & Haj & Hs & Hlen).
    exists j, h'. split; [done|]. exists (TExt d 256 k' (TLeaf k' v)), [j; i].
    split_and!; try done; try (destruct (free h); lia).
    + cbn [rep]. split; [done|]. exists i, [i]. split_and!; try done. rewrite Hs by (by left). done.
    + eapply same_on_sub; [|exact Hs]. intros x Hx. by right.
Qed.

Lemma alloc_leaf_ok h rest k v d :
  heap_ok h rest -> (d <= 256)%nat -> len k = 32 -> len (arena h) + 1 < 2 ^ 32 ->
  exists i' h', (leaf ← alloc (Leaf k v); wrap_in_extension leaf d) h = Some (i', h') /\
    built h h' i' d k {[k := v]} rest 2.
Proof.
  intros Hok Hd Hk Hb. destruct (alloc_ok h rest (Leaf k v) Hok ltac:(lia)) as (i & h1 & E & Hok1 & Hi & Ha & Hs & Hlen).
  rewrite (run_bind E).
  destruct (wrap_leaf_ok h1 rest i k v d Hok1 Ha Hi Hd Hk ltac:(destruct (free h); lia))
    as (i' & h' & Ew & t & fp & Hrep & Hok' & Hs' & Hw & Hl & Hn).
  exists i', h'. split; [done|]. exists t, fp. split_and!; try done; try (destruct (free h); lia).
  by eapply same_on_trans.
Qed.

(** A branch node over two trees that differ at bit [d]. *)
Lemma twf_branch d p pl pr l r :
  (d < 256)%nat -> agree d pl p -> agree d pr p -> get_bit pl d <> get_bit pr d ->
  twf (S d) pl l -> twf (S d) pr r ->
  twf d p (if get_bit pl d =? 0 then TBranch d l r else TBranch d r l).
Proof.
  intros Hd Hl Hr Hne Wl Wr. destruct (get_bit_01 pl d) as [E|E]; rewrite E; cbn [Z.eqb twf];
    (split; [done|split; [done|]]).
  - exists pl, pr. destruct (get_bit_01 pr d); [congruence|]. done.
  - exists pr, pl. destruct (get_bit_01 pr d); [|congruence]. done.
Qed.

Lemma leaves_union_comm d pl pr l r :
  twf (S d) pl l -> twf (S d) pr r -> get_bit pl d <> get_bit pr d -> leaves l ∪ leaves r = leaves r ∪ leaves l.
Proof.
  intros Wl Wr Hne. apply map_union_comm, map_disjoint_spec. intros k x y Hx Hy.
  rewrite <- (leaves_bits Wl Hx), <- (leaves_bits Wr Hy) in Hne. done.
Qed.

(** The shared end of the two splitting cases. *)
Lemma alloc_branch_ok h rest i j fi fj t u d p pt pu :
  rep (arena h) i t fi -> rep (arena h) j u fj -> heap_ok h (fi ++ fj ++ rest) -> len (arena h) < 2 ^ 32 ->
  (d < 256)%nat -> agree d pt p -> agree d pu p -> get_bit pt d <> get_bit pu d -> twf (S d) pt t -> twf (S d) pu u ->
  let lr := if get_bit pt d =? 0 then (i, j) else (j, i) in
  let b := if get_bit pt d =? 0 then TBranch d t u else TBranch d u t in
  compute_branch_hash lr.1 lr.2 d h = Some (thash b, h) /\ twf d p b /\ leaves b = leaves t ∪ leaves u /\
  exists x h' fp, alloc (Branch d lr.1 lr.2 (thash b)) h = Some (x, h') /\ rep (arena h') x b fp /\
    heap_ok h' (fp ++ rest) /\ same_on rest h h' /\ len (arena h) <= len (arena h') <= len (arena h) + 1.
Proof.
  intros Ri Rj Hok Hb Hd At Au Hne Wt Wu lr b.
  assert (compute_branch_hash lr.1 lr.2 d h = Some (thash b, h)) as Hh.
  { subst lr b. destruct (get_bit pt d =? 0); simpl; by eapply branch_hash_ok. }
  assert (twf d p b) as Wb by (by eapply twf_branch).
  assert (leaves b = leaves t ∪ leaves u) as Lb.
  { subst b. destruct (get_bit pt d =? 0); [done|]. cbn [leaves]. symmetry. by eapply leaves_union_comm. }
  split_and!; try done.
  destruct (alloc_ok h _ (Branch d lr.1 lr.2 (thash b)) Hok Hb) as (x & h' & E & Hok' & Hx & Ha & Hs & Hlen).
  assert (rep (arena h') i t fi) as Ri' by (eapply rep_same; [|exact Ri]; eapply same_on_sub; [|exact Hs]; intros y Hy; rewrite !in_app_iff; tauto).
  assert (rep (arena h') j u fj) as Rj' by (eapply rep_same; [|exact Rj]; eapply same_on_sub; [|exact Hs]; intros y Hy; rewrite !in_app_iff; tauto).
  exists x, h', (if get_bit pt d =? 0 then x :: fi ++ fj else x :: fj ++ fi). split_and!; try done.
  - subst lr b. destruct (get_bit pt d =? 0); cbn [rep]; (split; [done|]); cbn [fst snd] in *; eauto 10.
  - eapply heap_ok_perm; [|exact Hok']. destruct (get_bit pt d =? 0); perm.
  - eapply same_on_sub; [|exact Hs]. intros y Hy. rewrite !in_app_iff. tauto.
  - destruct (free h); lia.
  - destruct (free h); lia.
Qed.

(** Rewriting the root node of a tree whose children are in place. *)
Lemma put_branch_ok h rest i li ri l r fl fr d p pl pr :
  0 < i -> rep (arena h) li l fl -> rep (arena h) ri r fr -> heap_ok h ((i :: fl ++ fr) ++ rest) ->
  (d < 256)%nat -> agree d pl p -> agree d pr p -> get_bit pl d = 0 -> get_bit pr d = 1 ->
  twf (S d) pl l -> twf (S d) pr r ->
  exists h', (h0 ← compute_branch_hash li ri d; _ ← put_node i (Branch d li ri h0); mret i) h = Some (i, h') /\
    built h h' i d p (leaves l ∪ leaves r) rest 0.
Proof.
  intros Hi Rl Rr Hok Hd Al Ar Bl Br Wl Wr. rewrite (run_bind (branch_hash_ok _ _ _ _ _ _ _ d Rl Rr)).
  destruct (put_ok h _ i (Branch d li ri (thash (TBranch d l r))) Hok ltac:(by left)) as (h' & E & Hok' & Ha & Hs & Hlen & Hf).
  rewrite (run_bind E). exists h'. split; [done|].
  assert (NoDup (i :: fl ++ fr ++ rest)) as Hnd.
  { destruct Hok as [Hn _]. apply NoDup_app in Hn as [Hn _]. cbn [app] in Hn. by rewrite <- app_assoc in Hn. }
  apply NoDup_cons in Hnd as [Hni _]. rewrite list_elem_of_In in Hni.
  assert (forall j, In j (fl ++ fr ++ rest) -> arena h' !! Z.to_nat j = arena h !! Z.to_nat j) as Hsame.
  { intros j Hj. apply Hs; [|by intros ->].
    cbn [app]. rewrite <- app_assoc. by right. }
  exists (TBranch d l r), (i :: fl ++ fr). split_and!; try done; try lia.
  - cbn [rep]. split; [done|]. exists li, ri, fl, fr. split_and!; [done|done| |].
    + eapply rep_same; [|exact Rl]. intros j Hj. apply Hsame. rewrite !in_app_iff. tauto.
    + eapply rep_same; [|exact Rr]. intros j Hj. apply Hsame. rewrite !in_app_iff. tauto.
  - intros j Hj. apply Hsame. rewrite !in_app_iff. tauto.
  - cbn [twf]. split; [done|]. split; [done|]. by exists pl, pr.
Qed.

Lemma put_ext_ok h rest i ci c fc bd cd pk p hash :
  0 < i -> rep (arena h) ci c fc -> heap_ok h ((i :: fc) ++ rest) ->
  (bd < cd <= 256)%nat -> agree bd pk p -> twf cd pk c -> hash = thash (TExt bd cd pk c) ->
  exists h', (_ ← put_node i (Extension bd cd pk ci hash); mret i) h = Some (i, h') /\
    built h h' i bd p (leaves c) rest 0.
Proof.
  intros Hi Rc Hok Hd Ap Wc ->.
  destruct (put_ok h _ i (Extension bd cd pk ci (thash (TExt bd cd pk c))) Hok ltac:(by left))
    as (h' & E & Hok' & Ha & Hs & Hlen & Hf).
  rewrite (run_bind E). exists h'. split; [done|].
  assert (NoDup (i :: fc ++ rest)) as Hnd by (destruct Hok as [Hn _]; by apply NoDup_app in Hn as [Hn _]).
  apply NoDup_cons in Hnd as [Hni _]. rewrite list_elem_of_In in Hni.
  assert (forall j, In j (fc ++ rest) -> arena h' !! Z.to_nat j = arena h !! Z.to_nat j) as Hsame.
  { intros j Hj. apply Hs; [by right|by intros ->]. }
  exists (TExt bd cd pk c), (i :: fc). split_and!; try done; try lia.
  - cbn [rep]. split; [done|]. exists ci, fc. split_and!; [done|done|].
    eapply rep_same; [|exact Rc]. intros j Hj. apply Hsame. rewrite !in_app_iff. tauto.
  - intros j Hj. apply Hsame. rewrite !in_app_iff. tauto.
Qed.

(** The rest of a split extension. *)
Lemma remaining_ok h rest ci c fc cd pk x :
  rep (arena h) ci c fc -> heap_ok h (fc ++ rest) -> len (arena h) < 2 ^ 32 ->
  (x < cd <= 256)%nat -> twf cd pk c ->
  exists j h',
    (if (x + 1 <? cd)%nat then
       ch ← subtree_hash ci cd;
       alloc (Extension (x + 1) cd pk ci (fold_hash ch pk (x + 1) cd))
     else mret ci) h = Some (j, h') /\
    built h h' j (S x) pk (leaves c) rest 1.
Proof.
  intros Rc Hok Hb Hx Wc. rewrite Nat.add_1_r. destruct (Nat.ltb_spec (S x) cd) as [Hlt|Hge].
  - rewrite (run_bind (subtree_hash_ok _ _ _ _ _ Rc)).
    destruct (alloc_ok h _ (Extension (S x) cd pk ci (fold_hash (thash c) pk (S x) cd)) Hok Hb)
      as (j & h' & E & Hok' & Hj & Ha & Hs & Hlen).
    exists j, h'. split; [done|]. exists (TExt (S x) cd pk c), (j :: fc).
    split_and!; try done; try (destruct (free h); lia).
    + cbn [rep]. split; [done|]. exists ci, fc. split_and!; try done.
      eapply rep_same; [|exact Rc]. intros y Hy. apply Hs. rewrite in_app_iff. tauto.
    + intros y Hy. apply Hs. rewrite in_app_iff. tauto.
    + cbn [twf]. split_and!; [done|lia|lia|done|done].
  - assert (cd = S x) as -> by lia. exists ci, h. split; [done|]. exists c, fc. split_and!; try done; lia.
Qed.

Lemma split_extension_ok h rest i ci c fc bd cd pk k v x :
  0 < i -> rep (arena h) ci c fc -> heap_ok h ((i :: fc) ++ rest) -> len (arena h) + 4 <= 2 ^ 32 ->
  (cd <= 256)%nat -> agree bd pk k -> twf cd pk c -> len k = 32 ->
  first_diff k pk bd (cd - bd) = Some x ->
  exists i' h', split_extension i bd cd pk ci k v x h = Some (i', h') /\
    built h h' i' bd k (<[k := v]> (leaves c)) rest 4.
Proof.
  intros Hi Rc Hok Hb Hcd Hp Wc Hk Hx. apply first_diff_Some in Hx as (Hx & Hne & Heq).
  assert (agree x pk k) as Hpx.
  { intros j Hj. destruct (decide (j < bd)%nat); [by apply Hp|]. symmetry. apply Heq. lia. }
  unfold split_extension.
  destruct (alloc_ok h _ (Leaf k v) Hok ltac:(lia)) as (nl & h1 & E1 & Hok1 & Hnl & Ha1 & Hs1 & Hl1).
  rewrite (run_bind E1).
  assert (len (arena h) <= len (arena h1) <= len (arena h) + 1) as Hl1' by (destruct (free h); lia). clear Hl1.
  assert (rep (arena h1) ci c fc) as Rc1.
  { eapply rep_same; [|exact Rc]. intros y Hy. apply Hs1. right. rewrite in_app_iff. tauto. }
  destruct (remaining_ok h1 (nl :: i :: rest) ci c fc cd pk x Rc1 ltac:(reperm Hok1) ltac:(lia) ltac:(lia) Wc)
    as (rj & h2 & E2 & u & fu & Ru & Hok2 & Hs2 & Wu & Lu & Hl2).
  rewrite (run_bind E2). rewrite Nat.add_1_r.
  destruct (wrap_leaf_ok h2 (fu ++ i :: rest) nl k v (S x)) as (w & h3 & E3 & t & ft & Rt & Hok3 & Hs3 & Wt & Lt & Hl3);
    [reperm Hok2|rewrite Hs2 by (by left); done|done|lia|done|lia|].
  rewrite (run_bind E3).
  assert (rep (arena h3) rj u fu) as Ru3.
  { eapply rep_same; [|exact Ru]. intros y Hy. apply Hs3. rewrite in_app_iff. tauto. }
  destruct (alloc_branch_ok h3 (i :: rest) w rj ft fu t u x k k pk Rt Ru3 Hok3 ltac:(lia) ltac:(lia) ltac:(done) Hpx Hne Wt Wu)
    as (Eh & Wb & Lb & y & h4 & fb & E4 & Rb & Hok4 & Hs4 & Hl4).
  set (b := if get_bit k x =? 0 then TBranch x t u else TBranch x u t) in *.
  rewrite (run_bind Eh), (run_bind E4).
  assert (leaves b = <[k := v]> (leaves c)) as Lb' by (by rewrite Lb, Lt, Lu, insert_union_singleton_l).
  assert (same_on (i :: rest) h h4) as Hs.
  { intros j Hj. rewrite Hs4, Hs3, Hs2, Hs1; try (rewrite ?in_app_iff; cbn in *; rewrite ?in_app_iff; tauto). }
  destruct (Nat.ltb_spec bd x) as [Hlt|Hge].
  - destruct (put_ext_ok h4 rest i y b fb bd x k k _ Hi Rb ltac:(reperm Hok4) ltac:(lia) ltac:(done) Wb eq_refl)
      as (h5 & E5 & t5 & f5 & R5 & Hok5 & Hs5 & W5 & L5 & Hl5).
    exists i, h5. split; [exact E5|]. exists t5, f5. split_and!; try done; try lia; [|by rewrite L5].
    intros j Hj. rewrite Hs5 by done. apply Hs. by right.
  - assert (bd = x) as -> by lia. destruct (free_ok h4 (fb ++ rest) i) as (h5 & E5 & Hok5 & Ea & _).
    { reperm Hok4. }
    rewrite (run_bind E5). exists y, h5. split; [done|]. exists b, fb. rewrite Ea.
    split_and!; try done; try lia. intros j Hj. rewrite Ea. apply Hs. by right.
Qed.

Lemma built_weaken h h' i d p m rest n n' : n <= n' -> built h h' i d p m rest n -> built h h' i d p m rest n'.
Proof. intros Hn (t & fp & R & Hok & Hs & W & L & Hl). exists t, fp. split_and!; try done; lia. Qed.

(** Followed by a step that keeps the frame. *)
Lemma built_trans h0 h h' i d p m rest n n' :
  same_on rest h0 h -> len (arena h0) <= len (arena h) <= len (arena h0) + n' ->
  built h h' i d p m rest n -> built h0 h' i d p m rest (n + n').
Proof.
  intros Hs0 Hl0 (t & fp & R & Hok & Hs & W & L & Hl). exists t, fp. split_and!; try done; [|lia..].
  by eapply same_on_trans.
Qed.

Lemma insert_branch_l d k v pl pr l r :
  twf (S d) pl l -> twf (S d) pr r -> get_bit k d = 1 -> get_bit pl d = 0 ->
  leaves l ∪ <[k := v]> (leaves r) = <[k := v]> (leaves l ∪ leaves r).
Proof.
  intros Wl Wr Hb Hbl. rewrite <- insert_union_r; [done|]. destruct (leaves l !! k) eqn:E; [|done].
  pose proof (leaves_bits Wl E). lia.
Qed.

(** Rewriting a branch after one of its sides was rebuilt. *)
Lemma rebuild_left_ok h h1 rest i li ri r fr d k m n pr :
  0 < i -> 0 <= n -> built h h1 li (S d) k m (i :: fr ++ rest) n -> rep (arena h) ri r fr ->
  (d < 256)%nat -> agree d pr k -> get_bit k d = 0 -> get_bit pr d = 1 -> twf (S d) pr r ->
  exists h', (h0 ← compute_branch_hash li ri d; _ ← put_node i (Branch d li ri h0); mret i) h1 = Some (i, h') /\
    built h h' i d k (m ∪ leaves r) rest n.
Proof.
  intros Hi Hn (l & fl & Rl & Hok & Hs & Wl & Ll & Hl) Rr Hd Ar Hk Hbr Wr.
  destruct (put_branch_ok h1 rest i li ri l r fl fr d k k pr Hi Rl) as (h2 & E2 & B); try done.
  { eapply rep_same; [|exact Rr]. intros j Hj. apply Hs. right. rewrite in_app_iff. tauto. }
  { reperm Hok. }
  exists h2. split; [exact E2|]. rewrite Ll in B. change n with (0 + n).
  apply (built_trans h h1); [|lia|exact B]. intros j Hj. apply Hs. right. rewrite in_app_iff. tauto.
Qed.

Lemma rebuild_right_ok h h1 rest i li ri l fl d k m n pl :
  0 < i -> 0 <= n -> built h h1 ri (S d) k m (i :: fl ++ rest) n -> rep (arena h) li l fl ->
  (d < 256)%nat -> agree d pl k -> get_bit k d = 1 -> get_bit pl d = 0 -> twf (S d) pl l ->
  exists h', (h0 ← compute_branch_hash li ri d; _ ← put_node i (Branch d li ri h0); mret i) h1 = Some (i, h') /\
    built h h' i d k (leaves l ∪ m) rest n.
Proof.
  intros Hi Hn (r & fr & Rr & Hok & Hs & Wr & Lr & Hl) Rl Hd Al Hk Hbl Wl.
  destruct (put_branch_ok h1 rest i li ri l r fl fr d k pl k Hi) as (h2 & E2 & B); try done.
  { eapply rep_same; [|exact Rl]. intros j Hj. apply Hs. right. rewrite in_app_iff. tauto. }
  { reperm Hok. }
  exists h2. split; [exact E2|]. rewrite Lr in B. change n with (0 + n).
  apply (built_trans h h1); [|lia|exact B]. intros j Hj. apply Hs. right. rewrite in_app_iff. tauto.
Qed.

(** Overwriting the value of a leaf. *)
Lemma put_leaf_ok h rest i k v v' :
  0 < i -> len k = 32 -> heap_ok h (i :: rest) ->
  exists h', (_ ← put_node i (Leaf k v); mret i) h = Some (i, h') /\ built h h' i 256 k (<[k := v]> {[k := v']}) rest 0.
Proof.
  intros Hi Hk Hok. destruct (put_ok h _ i (Leaf k v) Hok ltac:(by left)) as (h' & E & Hok' & Ha' & Hs & Hlen & _).
  rewrite (run_bind E). exists h'. split; [done|]. exists (TLeaf k v), [i].
  split_and!; try done; try lia; [|by rewrite insert_singleton_eq].
  destruct Hok as [Hnd _]. apply NoDup_app in Hnd as [Hnd _]. apply NoDup_cons in Hnd as [Hni _].
  rewrite list_elem_of_In in Hni. intros j Hj. apply Hs; [by right|by intros ->].
Qed.

Lemma insert_at_ok fuel h i t fp d k v rest :
  twf d k t -> len k = 32 -> (257 <= fuel + d)%nat -> rep (arena h) i t fp -> heap_ok h (fp ++ rest) ->
  len (arena h) + 4 <= 2 ^ 32 ->
  exists i' h', insert_at fuel i d k v h = Some (i', h') /\ built h h' i' d k (<[k := v]> (leaves t)) rest 4.
Proof.
  revert fuel h i fp d rest. induction t as [k' v'|bd l IHl r IHr|bd cd pk c IHc]; intros fuel h i fp d rest Hw Hk Hfuel Hrep Hok Hb;
    pose proof (twf_depth _ _ _ Hw); destruct fuel as [|fuel]; try lia; destruct (rep_pos Hrep) as (Hi & Hz & _);
    cbn [insert_at leaves]; rewrite Hz; cbn [rep] in Hrep; destruct Hrep as [_ Hrep]; cbn [twf] in Hw.
  - destruct Hrep as [-> Ha]. destruct Hw as (-> & Hk' & Hagree). rewrite (run_bind (get_node_ok Ha)).
    assert (k' = k) as -> by (by apply agree_full). rewrite bool_decide_true by done.
    destruct (put_leaf_ok h rest i k v v' Hi Hk Hok) as (h' & E & B). exists i, h'.
    split; [exact E|]. eapply built_weaken; [|exact B]. lia.
  - destruct Hrep as (li & ri & fl & fr & -> & Ha & Hl & Hr). rewrite (run_bind (get_node_ok Ha)).
    destruct Hw as (-> & Hd & pl & pr & Al & Ar & Hbl & Hbr & Wl & Wr). cbv zeta. rewrite Nat.add_1_r.
    destruct (get_bit_01 k d) as [Hbit|Hbit]; rewrite Hbit; cbn [Z.eqb].
    + assert (twf (S d) k l) as Wl' by (eapply twf_agree; [|exact Wl]; apply agree_S; [done|congruence]).
      destruct (IHl fuel h li fl (S d) (i :: fr ++ rest) Wl' Hk ltac:(lia) Hl ltac:(reperm Hok) Hb)
        as (li' & h1 & E1 & B1).
      erewrite run_bind by (rewrite (run_bind E1); reflexivity). cbn [fst snd].
      destruct (rebuild_left_ok h h1 rest i li' ri r fr d k _ 4 pr Hi ltac:(lia) B1 Hr) as (h2 & E2 & B); try done.
      exists i, h2. split; [exact E2|]. by rewrite <- insert_union_l in B.
    + assert (twf (S d) k r) as Wr' by (eapply twf_agree; [|exact Wr]; apply agree_S; [done|congruence]).
      destruct (IHr fuel h ri fr (S d) (i :: fl ++ rest) Wr' Hk ltac:(lia) Hr ltac:(reperm Hok) Hb)
        as (ri' & h1 & E1 & B1).
      erewrite run_bind by (rewrite (run_bind E1); reflexivity). cbn [fst snd].
      destruct (rebuild_right_ok h h1 rest i li ri' l fl d k _ 4 pl Hi ltac:(lia) B1 Hl) as (h2 & E2 & B); try done.
      exists i, h2. split; [exact E2|]. by rewrite (insert_branch_l d k v pl pr) in B.
  - destruct Hrep as (ci & fc & -> & Ha & Hc). rewrite (run_bind (get_node_ok Ha)).
    destruct Hw as (-> & Hd & Hp & Wc). destruct (first_diff k pk d (cd - d)) as [x|] eqn:Ex.
    + eapply split_extension_ok; try done; lia.
    + rewrite first_diff_None in Ex. assert (agree cd pk k) as Hpk.
      { intros j Hj. destruct (decide (j < d)%nat); [by apply Hp|]. symmetry. apply Ex. lia. }
      destruct (IHc fuel h ci fc cd (i :: rest) (twf_agree _ _ _ _ Hpk Wc) Hk ltac:(lia) Hc
        ltac:(reperm Hok) Hb) as (ci' & h1 & E1 & c' & fc' & Rc & Hok1 & Hs1 & Wc1 & Lc & Hl1).
      rewrite (run_bind E1), (run_bind (subtree_hash_ok _ _ _ _ _ Rc)).
      destruct (put_ext_ok h1 rest i ci' c' fc' d cd pk k _ Hi Rc ltac:(reperm Hok1)
        Hd Hp (twf_agree _ _ _ _ (symmetry Hpk) Wc1) eq_refl) as (h2 & E2 & B).
      exists i, h2. split; [exact E2|]. rewrite Lc in B.
      apply (built_weaken _ _ _ _ _ _ _ (0 + 4)); [lia|]. apply (built_trans h h1); [|lia|exact B].
      intros j Hj. apply Hs1. by right.
Qed.

(** ** Removal *)

Lemma alloc_ext_ok h rest i t fp d p k :
  rep (arena h) i t fp -> heap_ok h (fp ++ rest) -> len (arena h) < 2 ^ 32 -> free h <> [] ->
  (d < 256)%nat -> agree d k p -> twf (S d) k t ->
  exists j h', alloc (Extension d (S d) k i (fold_hash (thash t) k d (S d))) h = Some (j, h') /\
    built h h' j d p (leaves t) rest 0.
Proof.
  intros R Hok Hb Hf Hd Hp W.
  destruct (alloc_ok h _ (Extension d (S d) k i (fold_hash (thash t) k d (S d))) Hok Hb)
    as (j & h' & E & Hok' & Hj & Ha & Hs & Hlen).
  exists j, h'. split; [done|]. exists (TExt d (S d) k t), (j :: fp).
  split_and!; try done; try (destruct (free h); done || lia).
  - cbn [rep]. split; [done|]. exists i, fp. split_and!; try done.
    eapply rep_same; [|exact R]. intros y Hy. apply Hs. rewrite in_app_iff. tauto.
  - intros y Hy. apply Hs. rewrite in_app_iff. tauto.
  - cbn [twf]. split_and!; [done|lia|lia|done|done].
Qed.

Lemma prepend_ok h rest i t fp d p q :
  rep (arena h) i t fp -> heap_ok h (fp ++ rest) -> len (arena h) < 2 ^ 32 -> free h <> [] ->
  (d < 256)%nat -> twf (S d) q t -> agree d q p ->
  exists j h', prepend_extension i d h = Some (j, h') /\ built h h' j d p (leaves t) rest 0.
Proof.
  intros R Hok Hb Hf Hd W Hq. unfold prepend_extension.
  destruct (any_key_ok FUEL h i t fp (S d) q W ltac:(unfold FUEL; lia) R) as (k & v & Ek & Hk).
  rewrite (run_bind Ek), (run_bind (logical_depth_ok _ _ _ _ _ _ W R)).
  destruct (twf_keys W Hk) as [Akq _].
  assert (twf (S d) k t) as Wk by (by eapply twf_agree).
  assert (agree d k p) as Akp by (rewrite <- Hq; by apply agree_weaken with (S d); [lia|]).
  pose proof (alloc_ext_ok h rest i t fp d p k R Hok Hb Hf Hd Akp Wk) as Halloc.
  pose proof (subtree_hash_ok _ _ _ _ (S d) R) as Eh. destruct (rep_pos R) as (Hi & _ & _).
  destruct t as [k' v'|bd l r|bd cd pk c]; cbn [rep] in R; destruct R as [_ R].
  - destruct R as [_ Ha]. rewrite (run_bind (get_node_ok Ha)).
    replace (d <? S d)%nat with true by (symmetry; apply Nat.ltb_lt; lia). by rewrite (run_bind Eh).
  - destruct R as (? & ? & ? & ? & _ & Ha & _). rewrite (run_bind (get_node_ok Ha)).
    replace (d <? S d)%nat with true by (symmetry; apply Nat.ltb_lt; lia). by rewrite (run_bind Eh).
  - destruct R as (ci & fc & -> & Ha & Rc). rewrite (run_bind (get_node_ok Ha)).
    rewrite (run_bind (subtree_hash_ok _ _ _ _ _ Rc)). cbn [twf] in W. destruct W as (-> & Hcd & Apk & Wc).
    destruct (put_ext_ok h rest i ci c fc d cd pk p _ Hi Rc Hok ltac:(lia)
      ltac:(etransitivity; [apply agree_weaken with (S d); [lia|exact Apk]|exact Hq]) Wc eq_refl) as (h' & E & B).
    exists i, h'. by split.
Qed.

Lemma merge_ok h rest i j t fp bd cd pk k :
  0 < i -> rep (arena h) j t fp -> heap_ok h (i :: fp ++ rest) ->
  (bd < cd <= 256)%nat -> agree bd pk k -> agree cd pk k -> twf cd k t ->
  exists h', try_merge_extension i bd cd pk j h = Some (i, h') /\ built h h' i bd k (leaves t) rest 0.
Proof.
  intros Hi R Hok Hd Ap Apk W. unfold try_merge_extension. pose proof (subtree_hash_ok _ _ _ _ cd R) as Eh.
  destruct t as [k' v'|d l r|d icd ipk c]; cbn [rep] in R; destruct R as [Hj R].
  - destruct R as [-> Ha]. rewrite (run_bind (get_node_ok Ha)). cbn [twf] in W.
    destruct W as (-> & Hk' & Ak). rewrite (run_bind Eh).
    apply (put_ext_ok h rest i j (TLeaf k' v') [j] bd 256 k' k); try done.
    by apply agree_weaken with 256%nat; [lia|].
  - destruct R as (li & ri & fl & fr & -> & Ha & Rl & Rr). rewrite (run_bind (get_node_ok Ha)).
    rewrite (run_bind Eh).
    apply (put_ext_ok h rest i j (TBranch d l r) (j :: fl ++ fr) bd cd pk k); try done; [|by eapply twf_agree].
    cbn [rep]. split; [done|]. by exists li, ri, fl, fr.
  - destruct R as (ci & fc & -> & Ha & Rc). rewrite (run_bind (get_node_ok Ha)).
    rewrite (run_bind (subtree_hash_ok _ _ _ _ _ Rc)). cbn [twf] in W. destruct W as (-> & Hcd & Aik & Wc).
    destruct (free_ok h ((i :: fc) ++ rest) j) as (h1 & E1 & Hok1 & Ea & _).
    { reperm Hok. }
    rewrite (run_bind E1). rewrite <- Ea in Rc.
    destruct (put_ext_ok h1 rest i ci c fc bd icd ipk k _ Hi Rc Hok1 ltac:(lia)
      ltac:(by apply agree_weaken with cd; [lia|]) Wc eq_refl) as (h2 & E2 & B).
    exists h2. split; [exact E2|]. apply (built_weaken _ _ _ _ _ _ _ (0 + 0)); [lia|].
    apply (built_trans h h1); [|rewrite Ea; lia|exact B]. intros y Hy. by rewrite Ea.
Qed.

(** The result of removing [k]: nothing left, or a tree with the other leaves. *)
Definition removed (h h' : Heap) (i : Z) (d : nat) (k v : bytes) (m : gmap bytes bytes) (rest : list Z) : Prop :=
  (i = NULL /\ m = {[k := v]} /\ heap_ok h' rest /\ same_on rest h h' /\ len (arena h') = len (arena h)) \/
  built h h' i d k (delete k m) rest 0.

(** Collapse of a branch whose side [x] was removed to nothing. *)
Lemma collapse_ok h h1 rest i j u fu d k v pu m :
  0 < i -> rep (arena h) j u fu -> heap_ok h1 (i :: fu ++ rest) -> same_on (i :: fu ++ rest) h h1 ->
  len (arena h1) = len (arena h) -> len (arena h) + 4 <= 2 ^ 32 ->
  (d < 256)%nat -> twf (S d) pu u -> agree d pu k -> leaves u = delete k m ->
  exists i' h', (_ ← free_node i; prepend_extension j d) h1 = Some (i', h') /\ removed h h' i' d k v m rest.
Proof.
  intros Hi Ru Hok Hs Hl Hb Hd W A L. destruct (free_ok h1 (fu ++ rest) i Hok) as (h2 & E2 & Hok2 & Ea & Hf).
  rewrite (run_bind E2).
  assert (same_on (fu ++ rest) h h2) as Hs2 by (intros y Hy; rewrite Ea; apply Hs; by right).
  assert (rep (arena h2) j u fu) as Ru2.
  { eapply rep_same; [|exact Ru]. intros y Hy. apply Hs2. rewrite in_app_iff. tauto. }
  destruct (prepend_ok h2 rest j u fu d k pu Ru2 Hok2 ltac:(rewrite Ea; lia) Hf Hd W A) as (i' & h3 & E3 & B).
  exists i', h3. split; [done|]. right. rewrite L in B. apply (built_weaken _ _ _ _ _ _ _ (0 + 0)); [lia|].
  apply (built_trans h h2); [|rewrite Ea; lia|exact B]. intros y Hy. apply Hs2. rewrite in_app_iff. tauto.
Qed.

(** The leaves of a branch after removing [k] on one side. *)
Lemma delete_branch d k pl pr l r :
  twf (S d) pl l -> twf (S d) pr r -> get_bit pl d <> get_bit k d ->
  leaves l !! k = None /\ delete k (leaves l ∪ leaves r) = leaves l ∪ delete k (leaves r) /\
  delete k (leaves r ∪ leaves l) = delete k (leaves r) ∪ leaves l.
Proof.
  intros Wl Wr Hne. assert (leaves l !! k = None) as Hn.
  { destruct (leaves l !! k) eqn:E; [|done]. by rewrite (leaves_bits Wl E) in Hne. }
  split; [done|]. rewrite !delete_union. by rewrite (delete_id (leaves l)).
Qed.

(** The end of [remove_at] on a branch. *)
Definition finish_branch (i : NodeIdx) (d : nat) (lr : NodeIdx * NodeIdx) : heap_op NodeIdx :=
  if (lr.1 =? NULL) && (lr.2 =? NULL) then _ ← free_node i; mret NULL
  else if lr.1 =? NULL then _ ← free_node i; prepend_extension lr.2 d
  else if lr.2 =? NULL then _ ← free_node i; prepend_extension lr.1 d
  else h ← compute_branch_hash lr.1 lr.2 d; _ ← put_node i (Branch d lr.1 lr.2 h); mret i.

Lemma finish_left_ok h h1 rest i li' ri l r fr d k v pl pr :
  0 < i -> rep (arena h) ri r fr -> removed h h1 li' (S d) k v (leaves l) (i :: fr ++ rest) ->
  len (arena h) + 4 <= 2 ^ 32 ->
  (d < 256)%nat -> agree d pl k -> agree d pr k -> get_bit k d = 0 -> get_bit pr d = 1 -> twf (S d) pl l -> twf (S d) pr r ->
  exists i' h', finish_branch i d (li', ri) h1 = Some (i', h') /\ removed h h' i' d k v (leaves l ∪ leaves r) rest.
Proof.
  intros Hi Rr Hrem Hb Hd Al Ar Hk Hbr Wl Wr. unfold finish_branch. cbn [fst snd].
  destruct (rep_pos Rr) as (_ & -> & _). rewrite andb_false_r.
  destruct (delete_branch d k pr pl r l Wr Wl ltac:(lia)) as (Hn & _ & Edel).
  destruct Hrem as [(-> & Ll & Hok1 & Hs1 & Hl1)|B1].
  - eapply collapse_ok; try done. rewrite Ll, delete_union, delete_singleton_eq, (left_id_L ∅ _).
    symmetry. by apply delete_id.
  - assert ((li' =? NULL) = false) as -> by (destruct B1 as (? & ? & R & _); exact (proj1 (proj2 (rep_pos R)))).
    destruct (rebuild_left_ok h h1 rest i li' ri r fr d k _ 0 pr Hi ltac:(lia) B1 Rr) as (h2 & E2 & B); try done.
    exists i, h2. split; [exact E2|]. right. by rewrite Edel.
Qed.

Lemma finish_right_ok h h1 rest i li ri' l r fl d k v pl pr :
  0 < i -> rep (arena h) li l fl -> removed h h1 ri' (S d) k v (leaves r) (i :: fl ++ rest) ->
  len (arena h) + 4 <= 2 ^ 32 ->
  (d < 256)%nat -> agree d pl k -> agree d pr k -> get_bit k d = 1 -> get_bit pl d = 0 -> twf (S d) pl l -> twf (S d) pr r ->
  exists i' h', finish_branch i d (li, ri') h1 = Some (i', h') /\ removed h h' i' d k v (leaves l ∪ leaves r) rest.
Proof.
  intros Hi Rl Hrem Hb Hd Al Ar Hk Hbl Wl Wr. unfold finish_branch. cbn [fst snd].
  destruct (rep_pos Rl) as (_ & -> & _). cbn [andb].
  destruct (delete_branch d k pl pr l r Wl Wr ltac:(lia)) as (Hn & Edel & _).
  destruct Hrem as [(-> & Lr & Hok1 & Hs1 & Hl1)|B1].
  - eapply collapse_ok; try done. rewrite Lr, delete_union, delete_singleton_eq, (right_id_L ∅ _).
    symmetry. by apply delete_id.
  - assert ((ri' =? NULL) = false) as -> by (destruct B1 as (? & ? & R & _); exact (proj1 (proj2 (rep_pos R)))).
    destruct (rebuild_right_ok h h1 rest i li ri' l fl d k _ 0 pl Hi ltac:(lia) B1 Rl) as (h2 & E2 & B); try done.
    exists i, h2. split; [exact E2|]. right. by rewrite Edel.
Qed.

Lemma remove_at_ok fuel h i t fp d k v rest :
  twf d k t -> leaves t !! k = Some v -> (257 <= fuel + d)%nat -> rep (arena h) i t fp -> heap_ok h (fp ++ rest) ->
  len (arena h) + 4 <= 2 ^ 32 ->
  exists i' h', remove_at fuel i d k h = Some (i', h') /\ removed h h' i' d k v (leaves t) rest.
Proof.
  revert fuel h i fp d rest. induction t as [k' v'|bd l IHl r IHr|bd cd pk c IHc]; intros fuel h i fp d rest Hw Hk Hfuel Hrep Hok Hb;
    pose proof (twf_depth _ _ _ Hw); destruct fuel as [|fuel]; try lia; destruct (rep_pos Hrep) as (Hi & Hz & _);
    cbn [remove_at leaves]; rewrite Hz; cbn [rep] in Hrep; destruct Hrep as [_ Hrep]; cbn [twf] in Hw; cbn [leaves] in Hk.
  - apply lookup_singleton_Some in Hk as [-> ->]. destruct Hrep as [-> Ha]. destruct Hw as (-> & _).
    rewrite (run_bind (get_node_ok Ha)), bool_decide_true by done.
    destruct (free_ok h rest i Hok) as (h' & E & Hok' & Ea & _). rewrite (run_bind E).
    exists NULL, h'. split; [done|]. left. unfold same_on. by rewrite Ea.
  - destruct Hrep as (li & ri & fl & fr & -> & Ha & Hl & Hr). rewrite (run_bind (get_node_ok Ha)).
    destruct Hw as (-> & Hd & pl & pr & Al & Ar & Hbl & Hbr & Wl & Wr). cbv zeta. rewrite Nat.add_1_r.
    destruct (get_bit_01 k d) as [Hbit|Hbit]; rewrite Hbit; cbn [Z.eqb].
    + destruct (delete_branch d k pr pl r l Wr Wl ltac:(lia)) as (Hn & _ & _). rewrite lookup_union_l in Hk by done.
      assert (twf (S d) k l) as Wl' by (eapply twf_agree; [|exact Wl]; apply agree_S; [done|congruence]).
      destruct (IHl fuel h li fl (S d) (i :: fr ++ rest) Wl' Hk ltac:(lia) Hl ltac:(reperm Hok) Hb)
        as (li' & h1 & E1 & Hrem).
      erewrite run_bind by (rewrite (run_bind E1); reflexivity).
      exact (finish_left_ok h h1 rest i li' ri l r fr d k v pl pr Hi Hr Hrem Hb Hd Al Ar Hbit Hbr Wl Wr).
    + destruct (delete_branch d k pl pr l r Wl Wr ltac:(lia)) as (Hn & _ & _). rewrite lookup_union_r in Hk by done.
      assert (twf (S d) k r) as Wr' by (eapply twf_agree; [|exact Wr]; apply agree_S; [done|congruence]).
      destruct (IHr fuel h ri fr (S d) (i :: fl ++ rest) Wr' Hk ltac:(lia) Hr ltac:(reperm Hok) Hb)
        as (ri' & h1 & E1 & Hrem).
      erewrite run_bind by (rewrite (run_bind E1); reflexivity).
      exact (finish_right_ok h h1 rest i li ri' l r fl d k v pl pr Hi Hl Hrem Hb Hd Al Ar Hbit Hbl Wl Wr).
  - destruct Hrep as (ci & fc & -> & Ha & Hc). rewrite (run_bind (get_node_ok Ha)).
    destruct Hw as (-> & Hd & Hp & Wc). pose proof (proj1 (twf_keys Wc Hk)) as Akp. symmetry in Akp.
    destruct (IHc fuel h ci fc cd (i :: rest) (twf_agree _ _ _ _ Akp Wc) Hk ltac:(lia) Hc
      ltac:(reperm Hok) Hb) as (ci' & h1 & E1 & Hrem).
    rewrite (run_bind E1). destruct Hrem as [(-> & Lc & Hok1 & Hs1 & Hl1)|(c' & fc' & Rc & Hok1 & Hs1 & Wc1 & Lc & Hl1)].
    + destruct (free_ok h1 rest i Hok1) as (h2 & E2 & Hok2 & Ea & _). cbn [Z.eqb NULL]. rewrite (run_bind E2).
      exists NULL, h2. split; [done|]. left. rewrite Ea. split_and!; try done. intros y Hy. rewrite Ea. apply Hs1. by right.
    + destruct (rep_pos Rc) as (_ & -> & _).
      destruct (merge_ok h1 rest i ci' c' fc' d cd pk k Hi Rc ltac:(reperm Hok1) Hd Hp Akp Wc1)
        as (h2 & E2 & B).
      exists i, h2. split; [exact E2|]. right. rewrite <- Lc. apply (built_weaken _ _ _ _ _ _ _ (0 + 0)); [lia|].
      apply (built_trans h h1); [|lia|exact B]. intros y Hy. apply Hs1. by right.
Qed.
End Rep.
Arguments rep_pos {H a i t fp}.

(** ** The tree and its contents *)

Section TopLevel.
Context `{Sha2}.

(** The tree stores the leaves [m], with the root hash of the reference tree. *)
Definition smt_ok (t : SparseMerkleTree) (m : gmap bytes bytes) : Prop :=
  root_hash t = ref_hash SMT_DEPTH m /\ leaf_count t = Z.of_nat (size m) /\
  ((root t = NULL /\ m = ∅ /\ heap_ok (heap t) []) \/
   exists tr fp, rep (arena (heap t)) (root t) tr fp /\ heap_ok (heap t) fp /\ twf 0 zero32 tr /\ leaves tr = m).

Definition arena_len (t : SparseMerkleTree) : Z := len (arena (heap t)).

Lemma new_ok : smt_ok SparseMerkleTree_new ∅.
Proof.
  split; [by rewrite ref_hash_empty|]. split; [done|]. left. split_and!; try done. split_and!; try done; by constructor.
Qed.

Lemma find_ok t m k : smt_ok t m -> find_leaf t k = Some (m !! k).
Proof.
  intros (_ & _ & [(Hr & -> & _)|(tr & fp & R & _ & W & L)]); unfold find_leaf.
  - rewrite Hr. done.
  - by rewrite (find_leaf_ok FUEL _ _ tr fp 0 zero32 k W ltac:(unfold FUEL; lia) R), <- L.
Qed.

Lemma built_ok h h' i d k m n : built h h' i d k m [] n -> exists tr fp,
  rep (arena h') i tr fp /\ heap_ok h' fp /\ twf d k tr /\ leaves tr = m.
Proof. intros (t & fp & R & Hok & _ & W & L & _). exists t, fp. by rewrite app_nil_r in Hok. Qed.

Lemma insert_ok t m k v :
  smt_ok t m -> len k = 32 -> arena_len t + 4 <= 2 ^ 32 ->
  exists t', SparseMerkleTree_insert k v t = Some t' /\ smt_ok t' (<[k := v]> m) /\ arena_len t' <= arena_len t + 4.
Proof.
  intros Hok Hk Hb. pose proof (find_ok t m k Hok) as Ef. destruct Hok as (_ & Hc & Hrep).
  unfold SparseMerkleTree_insert. rewrite Ef.
  assert (exists i h', insert_at FUEL (root t) 0 k v (heap t) = Some (i, h') /\ built (heap t) h' i 0 k (<[k := v]> m) [] 4)
    as (i & h' & E & B).
  { destruct Hrep as [(Hr & -> & Hok)|(tr & fp & R & Hok & W & L)].
    - rewrite Hr. destruct (alloc_leaf_ok (heap t) [] k v 0 Hok ltac:(lia) Hk ltac:(unfold arena_len in Hb; lia)) as (i & h' & E & B).
      exists i, h'. split; [exact E|]. eapply built_weaken; [|exact B]. lia.
    - rewrite <- L. apply (insert_at_ok FUEL (heap t) (root t) tr fp 0 k v []); try done; [|unfold FUEL; lia|by rewrite app_nil_r].
      eapply twf_agree; [apply agree_0|exact W]. }
  rewrite E. destruct B as (tr & fp & R & Hok & _ & W & L & Hlen). rewrite (subtree_hash_ok _ _ _ _ 0 R).
  eexists. split; [reflexivity|]. split; [|unfold arena_len; cbn [heap]; lia].
  split; [cbn [root_hash]; rewrite <- L; symmetry; exact (ref_hash_tree 0 k tr W)|]. split.
  - cbn [leaf_count]. rewrite map_size_insert. destruct (m !! k); simpl; lia.
  - right. exists tr, fp. rewrite app_nil_r in Hok. split_and!; try done. eapply twf_agree; [apply agree_0|exact W].
Qed.

Lemma remove_ok t m k :
  smt_ok t m -> arena_len t + 4 <= 2 ^ 32 ->
  exists t', SparseMerkleTree_remove k t = Some t' /\ smt_ok t' (delete k m) /\ arena_len t' = arena_len t.
Proof.
  intros Hok Hb. pose proof (find_ok t m k Hok) as Ef. unfold SparseMerkleTree_remove. rewrite Ef.
  destruct (m !! k) as [v|] eqn:Em; [|exists t; by rewrite delete_id].
  destruct Hok as (_ & Hc & [(_ & -> & _)|(tr & fp & R & Hok & W & L)]); [done|].
  destruct (remove_at_ok FUEL (heap t) (root t) tr fp 0 k v []) as (i & h' & E & Hrem); try done;
    [eapply twf_agree; [apply agree_0|exact W]|by rewrite L|unfold FUEL; lia|by rewrite app_nil_r|].
  rewrite E, L in *.
  assert (leaf_count t - 1 = Z.of_nat (size (delete k m))) as Hcount.
  { rewrite map_size_delete, Em, Hc. simpl. assert (size m <> 0)%nat; [|lia].
    intros Hz%map_size_empty_inv. by rewrite Hz in Em. }
  destruct Hrem as [(-> & Lm & Hok' & _ & Hl)|B].
  - change (subtree_hash NULL 0 h') with (Some (empty_hash (SMT_DEPTH - 0), h')).
    assert (delete k m = ∅) as Hd by (by rewrite Lm, delete_singleton_eq).
    eexists. split; [reflexivity|]. split; [|done]. split; [|split; [done|]].
    + cbn [root_hash]. rewrite Hd, ref_hash_empty. done.
    + left. done.
  - destruct B as (tr' & fp' & R' & Hok' & _ & W' & L' & Hl). rewrite (subtree_hash_ok _ _ _ _ 0 R').
    eexists. split; [reflexivity|]. split; [|unfold arena_len; cbn [heap]; lia]. split; [|split; [done|]].
    + cbn [root_hash]. rewrite <- L'. symmetry. exact (ref_hash_tree 0 k tr' W').
    + right. exists tr', fp'. rewrite app_nil_r in Hok'. split_and!; try done. eapply twf_agree; [apply agree_0|exact W'].
Qed.

(** ** Sequences of operations *)

Inductive SmtOp := OpInsert (k v : bytes) | OpRemove (k : bytes).

Definition op_key (o : SmtOp) : bytes := match o with OpInsert k _ => k | OpRemove k => k end.
Definition run_op (o : SmtOp) (t : SparseMerkleTree) : option SparseMerkleTree :=
  match o with OpInsert k v => SparseMerkleTree_insert k v t | OpRemove k => SparseMerkleTree_remove k t end.
Fixpoint run_ops (os : list SmtOp) (t : SparseMerkleTree) : option SparseMerkleTree :=
  match os with [] => Some t | o :: os => let! t := run_op o t in run_ops os t end.
Definition spec_op (m : gmap bytes bytes) (o : SmtOp) : gmap bytes bytes :=
  match o with OpInsert k v => <[k := v]> m | OpRemove k => delete k m end.

Lemma run_ops_ok os t m :
  smt_ok t m -> Forall (fun o => len (op_key o) = 32) os -> arena_len t + 4 * len os <= 2 ^ 32 ->
  exists t', run_ops os t = Some t' /\ smt_ok t' (fold_left spec_op os m).
Proof.
  revert t m. induction os as [|o os IH]; intros t m Hok Hk Hb; cbn [run_ops fold_left]; [by exists t|].
  rewrite len_cons in Hb. apply Forall_cons in Hk as [Ho Hk]. pose proof (len_nonneg os).
  destruct o as [k v|k]; cbn [run_op spec_op op_key] in *.
  - destruct (insert_ok t m k v Hok Ho ltac:(lia)) as (t1 & -> & Hok1 & Hl). apply IH; try done; lia.
  - destruct (remove_ok t m k Hok ltac:(lia)) as (t1 & -> & Hok1 & Hl). apply IH; try done; lia.
Qed.
End TopLevel.

(** ** The interface to the UTXO set *)

(** The operations the UTXO set uses; [None] is a panic. *)
Class StateTree := {
  st_tree : Type;
  st_new : st_tree;
  st_insert : bytes -> bytes -> st_tree -> option st_tree;
  st_remove : bytes -> st_tree -> option st_tree;
  st_root : st_tree -> bytes
}.

(** What it relies on: the tree holds a leaf map, with room for [n] more
    operations, and its root is a function of the map. *)
Class StateTreeLaws `{StateTree} (capacity : Z) (root_of : gmap bytes bytes -> bytes) := {
  st_ok : st_tree -> gmap bytes bytes -> Z -> Prop;
  st_new_ok : st_ok st_new ∅ capacity;
  st_insert_ok t m n k v : st_ok t m n -> 0 < n -> len k = 32 ->
    exists t', st_insert k v t = Some t' /\ st_ok t' (<[k := v]> m) (n - 1);
  st_remove_ok t m n k : st_ok t m n -> 0 < n ->
    exists t', st_remove k t = Some t' /\ st_ok t' (delete k m) (n - 1);
  st_root_ok t m n : st_ok t m n -> st_root t = root_of m
}.

#[export] Instance smt_tree `{Sha2} : StateTree := {|
  st_new := SparseMerkleTree_new;
  st_insert := SparseMerkleTree_insert;
  st_remove := SparseMerkleTree_remove;
  st_root := root_hash
|}.

(** The sparse Merkle tree discharges it: [2^30 - 1] operations fit 32-bit indices. *)
#[export] Instance smt_laws `{Sha2} : StateTreeLaws (2 ^ 30 - 1) (ref_hash SMT_DEPTH).
Proof.
  refine {| st_ok := fun (t : @st_tree smt_tree) m n => smt_ok t m /\ arena_len t + 4 * n <= 2 ^ 32 |}.
  - split; [apply new_ok|]. change (1 + 4 * (2 ^ 30 - 1) <= 2 ^ 32). lia.
  - intros t m n k v [Hok Hb] Hn Hk. destruct (insert_ok t m k v Hok Hk ltac:(lia)) as (t' & E & Hok' & Hl).
    exists t'. split; [done|]. split; [done|]. lia.
  - intros t m n k [Hok Hb] Hn. destruct (remove_ok t m k Hok ltac:(lia)) as (t' & E & Hok' & Hl).
    exists t'. split; [done|]. split; [done|]. lia.
  - intros t m n [Hok _]. apply Hok.
Defined.

(** C31: The path-compressed tree refines the uncompressed depth-256 tree.  Every
    sequence of insertions and removals of 32-byte keys (short enough for 32-bit
    node indices) runs without panicking, and afterwards the root hash is that
    of the reference tree of the surviving leaves, the leaf count is their
    number and lookup finds exactly them. *)
Theorem smt_refines_reference `{Sha2} (os : list SmtOp) :
  Forall (fun o => len (op_key o) = 32) os -> 4 * len os < 2 ^ 32 ->
  let m := fold_left spec_op os ∅ in
  exists t, run_ops os SparseMerkleTree_new = Some t /\
    root_hash t = ref_hash SMT_DEPTH m /\ leaf_count t = Z.of_nat (size m) /\
    forall k, find_leaf t k = Some (m !! k).
Proof.
  intros Hk Hb m. destruct (run_ops_ok os SparseMerkleTree_new ∅ new_ok Hk) as (t & Et & Hok); [change (arena_len SparseMerkleTree_new) with 1; lia|].
  exists t. split; [done|]. split; [apply Hok|]. split; [apply Hok|]. intros k. by apply find_ok.
Qed.
Definition sample_ops : list SmtOp :=
  [OpInsert (be_bytes 32 5) (be_bytes 32 7); OpInsert (be_bytes 32 6) (be_bytes 32 8); OpRemove (be_bytes 32 5)].
Lemma smt_refines_reference_witness :
  exists t, @run_ops toy_digest sample_ops (@SparseMerkleTree_new toy_digest) = Some t /\
    root_hash t = @ref_hash toy_digest SMT_DEPTH {[be_bytes 32 6 := be_bytes 32 8]}.
Proof.
  destruct (@smt_refines_reference toy_digest sample_ops) as (t & Et & Er & _).
  - repeat (apply Forall_cons; split; [reflexivity|]). apply Forall_nil. exact I.
  - vm_compute. reflexivity.
  - exists t. split; [exact Et|]. rewrite Er. f_equal.
Defined.

(** ** The root commits to the leaves *)

Section Binding.
Context `{Sha2}.

(** The strings hashed in the reference tree. *)
Fixpoint ref_preimage (n : nat) (m : gmap bytes bytes) (x : bytes) : Prop :=
  match n with
  | O => False
  | S n =>
      let l := filter (fun kv => get_bit kv.1 (SMT_DEPTH - S n) = 0) m in
      let r := filter (fun kv => get_bit kv.1 (SMT_DEPTH - S n) <> 0) m in
      x = ref_hash n l ++ ref_hash n r \/ ref_preimage n l x \/ ref_preimage n r x
  end.

Definition leaf_values_ok (m : gmap bytes bytes) : Prop := map_Forall (fun k v => len k = 32 /\ len v = 32 /\ v <> zero32) m.

Lemma ref_hash_len `{!Sha2Width} n m : leaf_values_ok m -> len (ref_hash n m) = 32.
Proof.
  intros Hm. destruct n as [|n]; cbn [ref_hash]; [|apply sha2_width].
  destruct (map_to_list m) as [|[k v] l] eqn:E; [done|]. simpl.
  assert (m !! k = Some v) as Hk by (apply elem_of_map_to_list; rewrite E; left). by destruct (Hm k v Hk) as (_ & ? & _).
Qed.

Lemma leaf_values_filter (P : bytes * bytes -> Prop) `{!forall x, Decision (P x)} m :
  leaf_values_ok m -> leaf_values_ok (filter P m).
Proof. intros Hm k v [Hk _]%map_lookup_filter_Some. by apply Hm. Qed.

(** All keys have the bits [pb] at the positions below [d]. *)
Definition prefix_ok (pb : nat -> Z) (d : nat) (m : gmap bytes bytes) : Prop :=
  forall k v, m !! k = Some v -> forall i, (i < d)%nat -> get_bit k i = pb i.

Lemma ref_hash_leaf pb m :
  leaf_values_ok m -> prefix_ok pb 256 m ->
  (m = ∅ /\ ref_hash 0 m = zero32) \/ exists k v, m = {[k := v]} /\ ref_hash 0 m = v /\ v <> zero32 /\ len k = 32.
Proof.
  intros Hm Hp. cbn [ref_hash]. destruct (map_to_list m) as [|[k v] l] eqn:E.
  { left. by apply map_to_list_empty_iff in E. }
  right. assert (m !! k = Some v) as Hk by (apply elem_of_map_to_list; rewrite E; left).
  destruct (Hm k v Hk) as (Lk & Lv & Hv). exists k, v. split_and!; try done.
  apply map_eq. intros k'. destruct (decide (k = k')) as [<-|Hne]; [by rewrite lookup_singleton_eq|].
  rewrite lookup_singleton_ne by done. destruct (m !! k') as [v'|] eqn:Ek'; [|done]. destruct Hne.
  apply agree_full; [done|by destruct (Hm k' v' Ek')|]. intros i Hi. by rewrite (Hp k v Hk i Hi), (Hp k' v' Ek' i Hi).
Qed.

Lemma prefix_filter (pb : nat -> Z) (d : nat) (m : gmap bytes bytes) (P : bytes * bytes -> Prop) `{!forall x, Decision (P x)} (b : Z) :
  prefix_ok pb d m -> (forall k v, P (k, v) -> get_bit k d = b) ->
  prefix_ok (fun i => if decide (i = d) then b else pb i) (S d) (filter P m).
Proof.
  intros Hp HP k v [Hk HPk]%map_lookup_filter_Some i Hi. destruct (decide (i = d)) as [->|]; [by eapply HP|].
  apply (Hp k v Hk). lia.
Qed.

Lemma ref_hash_inj `{!Sha2Width} n pb m1 m2 :
  (n <= 256)%nat -> leaf_values_ok m1 -> leaf_values_ok m2 -> prefix_ok pb (256 - n) m1 -> prefix_ok pb (256 - n) m2 ->
  (forall x y, ref_preimage n m1 x -> ref_preimage n m2 y -> sha2_digest x = sha2_digest y -> x = y) ->
  ref_hash n m1 = ref_hash n m2 -> m1 = m2.
Proof.
  revert pb m1 m2. induction n as [|n IH]; intros pb m1 m2 Hn V1 V2 P1 P2 Hcf Heq.
  - destruct (ref_hash_leaf pb m1 V1 P1) as [[-> E1]|(k1 & v1 & -> & E1 & N1 & L1)],
      (ref_hash_leaf pb m2 V2 P2) as [[-> E2]|(k2 & v2 & -> & E2 & N2 & L2)]; try congruence.
    assert (k1 = k2) as ->; [|congruence]. apply agree_full; [done..|]. intros i Hi.
    rewrite (P1 k1 v1), (P2 k2 v2); try done; apply lookup_singleton_eq.
  - cbn [ref_hash ref_preimage] in *. unfold SMT_DEPTH in *. set (d := (256 - S n)%nat) in *.
    apply Hcf in Heq; [|by left|by left].
    apply app_inj_1 in Heq as [E0 E1].
    2:{ apply Nat2Z.inj. transitivity 32; [|symmetry]; apply ref_hash_len; by apply leaf_values_filter. }
    rewrite <- (map_filter_union_complement (fun kv => get_bit kv.1 d = 0) m1),
      <- (map_filter_union_complement (fun kv => get_bit kv.1 d = 0) m2).
    replace (256 - n)%nat with (S d) in IH by lia.
    f_equal.
    + eapply (IH (fun i => if decide (i = d) then 0 else pb i)); try (apply leaf_values_filter; done); try done; try lia;
        try (apply prefix_filter; [done|by intros ? ?]). intros x y Hx Hy. apply Hcf; by right; left.
    + eapply (IH (fun i => if decide (i = d) then 1 else pb i)); try (apply leaf_values_filter; done); try done; try lia;
        try (apply prefix_filter; [done|intros k v Hk; simpl in Hk; destruct (get_bit_01 k d); [done|done]]).
      intros x y Hx Hy. apply Hcf; by right; right.
Qed.
End Binding.

(** The state root commits to the contents: if two trees, each built by its own
    insertions and removals with non-zero 32-byte values, have the same root
    hash, then every lookup gives the same result in both, unless two different
    strings hashed in the reference trees of their contents collide. *)
Theorem state_root_binding `{Sha2} `{!Sha2Width} (os1 os2 : list SmtOp) (t1 t2 : SparseMerkleTree) :
  let m1 := fold_left spec_op os1 ∅ in
  let m2 := fold_left spec_op os2 ∅ in
  Forall (fun o => len (op_key o) = 32) os1 -> Forall (fun o => len (op_key o) = 32) os2 ->
  4 * len os1 < 2 ^ 32 -> 4 * len os2 < 2 ^ 32 ->
  run_ops os1 SparseMerkleTree_new = Some t1 -> run_ops os2 SparseMerkleTree_new = Some t2 ->
  leaf_values_ok m1 -> leaf_values_ok m2 ->
  (forall x y, ref_preimage SMT_DEPTH m1 x -> ref_preimage SMT_DEPTH m2 y -> sha2_digest x = sha2_digest y -> x = y) ->
  root_hash t1 = root_hash t2 -> forall k, find_leaf t1 k = find_leaf t2 k.
Proof.
  intros m1 m2 Hk1 Hk2 Hn1 Hn2 E1 E2 V1 V2 Hcf Heq k.
  destruct (run_ops_ok os1 SparseMerkleTree_new ∅ new_ok Hk1) as (t & Et & Hok1);
    [change (arena_len SparseMerkleTree_new) with 1; lia|]. rewrite E1 in Et. injection Et as <-.
  destruct (run_ops_ok os2 SparseMerkleTree_new ∅ new_ok Hk2) as (t & Et & Hok2);
    [change (arena_len SparseMerkleTree_new) with 1; lia|]. rewrite E2 in Et. injection Et as <-.
  fold m1 in Hok1. fold m2 in Hok2. rewrite (find_ok t1 m1 k Hok1), (find_ok t2 m2 k Hok2).
  rewrite (proj1 Hok1), (proj1 Hok2) in Heq. do 2 f_equal. apply (ref_hash_inj SMT_DEPTH (fun _ => 0)); try done;
    intros k' v _ i Hi; unfold SMT_DEPTH in Hi; lia.
Qed.

(** One leaf at the all-zero key, under the truncating digest. *)
Definition sample_leaf : bytes := be_bytes 32 7.
Definition sample_map : gmap bytes bytes := {[zero32 := sample_leaf]}.

Lemma le_bytes_prefix a b : le_bytes (length a) (le_val (a ++ b)) = a.
Proof.
  induction a as [|x a IH]; [done|]. cbn [length app le_val]. pose proof (byte_Z_range x).
  set (z := byte_Z x + _). change (Z_byte z :: le_bytes (length a) (z / 256) = x :: a). subst z. f_equal.
  - apply byte_Z_inj. rewrite byte_Z_byte, (Z.mul_comm 256), Z.mod_add by lia. by apply Z.mod_small.
  - rewrite (Z.mul_comm 256), Z.div_add by lia. rewrite Z.div_small by lia. exact IH.
Qed.

Lemma toy_digest_app a b : length a = 32%nat -> toy_digest (a ++ b) = a.
Proof. intros La. unfold toy_digest. rewrite <- La. apply le_bytes_prefix. Qed.

Lemma zero_bit i : get_bit zero32 i = 0.
Proof.
  rewrite get_bit_testbit. unfold byte_at. replace (default x00 _) with x00.
  - by rewrite Z.bits_0.
  - destruct (zero32 !! Z.to_nat (Z.of_nat i / 8)) as [b|] eqn:E; [|done].
    unfold zero32 in E. apply lookup_replicate in E as [-> _]. done.
Qed.

Lemma sample_sides d :
  filter (fun kv => get_bit kv.1 d = 0) sample_map = sample_map /\
  filter (fun kv => get_bit kv.1 d <> 0) sample_map = ∅.
Proof.
  destruct (filter_bits d sample_map 0) as [-> ->]; [|done].
  unfold sample_map. intros k v [<- _]%lookup_singleton_Some. apply zero_bit.
Qed.

Lemma sample_hashes n :
  @ref_hash toy_digest n ∅ = zero32 /\ @ref_hash toy_digest n sample_map = sample_leaf.
Proof.
  induction n as [|n [IHe IHs]]; [split; reflexivity|]. cbn [ref_hash]. rewrite !map_filter_empty.
  destruct (sample_sides (SMT_DEPTH - S n)) as [-> ->]. rewrite IHe, IHs.
  unfold Hash256_sha256, sha2_digest. by rewrite !toy_digest_app.
Qed.

Lemma sample_preimages n x :
  (@ref_preimage toy_digest n ∅ x -> x = zero32 ++ zero32) /\
  (@ref_preimage toy_digest n sample_map x -> x = zero32 ++ zero32 \/ x = sample_leaf ++ zero32).
Proof.
  induction n as [|n [IHe IHs]]; [done|]. cbn [ref_preimage]. rewrite !map_filter_empty.
  destruct (sample_sides (SMT_DEPTH - S n)) as [-> ->]. destruct (sample_hashes n) as [-> ->]. naive_solver.
Qed.

Lemma sample_map_ok : leaf_values_ok sample_map.
Proof. apply map_Forall_singleton. split; [reflexivity|]. split; [reflexivity|]. discriminate. Qed.

Definition leaf_op : SmtOp := OpInsert zero32 sample_leaf.
Definition sample_runs (os : list SmtOp) : Prop :=
  exists t, @run_ops toy_digest os (@SparseMerkleTree_new toy_digest) = Some t /\
    root_hash t = @ref_hash toy_digest SMT_DEPTH (fold_left spec_op os ∅).
Lemma sample_runs_ok os : Forall (fun o => len (op_key o) = 32) os -> 4 * len os < 2 ^ 32 -> sample_runs os.
Proof.
  intros Hk Hn. destruct (@run_ops_ok toy_digest os SparseMerkleTree_new ∅ new_ok Hk) as (t & Et & Hok);
    [change (@arena_len (@SparseMerkleTree_new toy_digest)) with 1; lia|].
  exists t. split; [done|apply Hok].
Qed.
Lemma sample_keys_1 : Forall (fun o => len (op_key o) = 32) [leaf_op].
Proof. apply Forall_cons. split; [reflexivity|constructor]. Qed.
Lemma sample_keys_2 : Forall (fun o => len (op_key o) = 32) [OpRemove zero32; leaf_op].
Proof. apply Forall_cons. split; [reflexivity|apply sample_keys_1]. Qed.

Lemma state_root_binding_witness :
  exists t1 t2, @run_ops toy_digest [leaf_op] (@SparseMerkleTree_new toy_digest) = Some t1 /\
    @run_ops toy_digest [OpRemove zero32; leaf_op] (@SparseMerkleTree_new toy_digest) = Some t2 /\
    forall k, find_leaf t1 k = find_leaf t2 k.
Proof.
  destruct (sample_runs_ok [leaf_op] sample_keys_1 eq_refl) as (t1 & E1 & R1).
  destruct (sample_runs_ok [OpRemove zero32; leaf_op] sample_keys_2 eq_refl) as (t2 & E2 & R2).
  exists t1, t2. split; [exact E1|]. split; [exact E2|].
  apply (@state_root_binding toy_digest toy_digest_width [leaf_op] [OpRemove zero32; leaf_op] t1 t2).
  - exact sample_keys_1.
  - exact sample_keys_2.
  - reflexivity.
  - reflexivity.
  - exact E1.
  - exact E2.
  - exact sample_map_ok.
  - exact sample_map_ok.
  - intros x y Hx Hy. change (fold_left spec_op [leaf_op] ∅) with sample_map in Hx.
    change (fold_left spec_op [OpRemove zero32; leaf_op] ∅) with sample_map in Hy.
    apply sample_preimages in Hx, Hy. unfold sha2_digest.
    destruct Hx as [-> | ->], Hy as [-> | ->]; rewrite !toy_digest_app by reflexivity; congruence.
  - rewrite R1, R2. reflexivity.
Defined.
