(* ===== verification/Utxo.v ===== *)
(** * The UTXO set ([src/chain/state.rs])

    [UtxoSet] keeps three things in step: the map from outpoints to entries, the
    state tree behind [StateTree], and the index from scripts to outpoints.
    Operations return the state also on errors, because a failed
    [apply_transaction] leaves a partly updated set for
    [undo_partial_transaction]; [None] is a panic of the state tree.

    [apply_transaction], [undo_transaction] and [undo_partial_transaction] are
    written over the store's own [insert]/[remove]/[contains] ([UtxoStore]), so
    that the same text runs on [UtxoSet] and on its specification, a plain map. *)

From Stdlib Require Import Strings.String.
From S2P Require Import Prelude Bytes Codec Hash Transaction U256 Smt.
#[local] Open Scope Z_scope.
#[local] Open Scope list_scope.

(** [Serialization] carries the error instead of its debug text. *)
Inductive StateError :=
| InputNotFound (op : OutPoint)
| OutputNotFound (op : OutPoint)
| DuplicateRestore (op : OutPoint)
| DuplicateOutpoint (op : OutPoint)
| Serialization (e : SerError)
| IncompleteUndo (expected got : Z).

Record UtxoEntry := { output : TxOutput; entry_height : Z; entry_coinbase : bool }.

#[export] Instance UtxoEntry_eq_dec : EqDecision UtxoEntry.
Proof. solve_decision. Defined.

Inductive UtxoMutation :=
| MInsert (op : OutPoint) (e : UtxoEntry)
| MRemove (op : OutPoint) (e : UtxoEntry).

Definition collect_spent_utxos (mutations : list UtxoMutation) : list (OutPoint * UtxoEntry) :=
  omap (fun m => match m with MRemove op e => Some (op, e) | MInsert _ _ => None end) mutations.

(** ** Stores *)

Definition store_op (S A : Type) : Type := S -> option (result StateError A * S).

Class UtxoStore (S : Type) := {
  store_insert : OutPoint -> UtxoEntry -> store_op S unit;
  store_remove : OutPoint -> S -> option (option UtxoEntry * S);
  store_contains : OutPoint -> S -> bool
}.

Section Ops.
Context {S : Type} `{UtxoStore S} `{Sha2}.

#[export] Instance store_ret : MRet (store_op S) := fun A a s => Some (Ok a, s).
#[export] Instance store_bind : MBind (store_op S) := fun A B f c s =>
  match c s with
  | Some (Ok a, s) => f a s
  | Some (Err e, s) => Some (Err e, s)
  | None => None
  end.
Definition throw {A} (e : StateError) : store_op S A := fun s => Some (Err e, s).
Definition of_result {A} (r : result StateError A) : store_op S A := fun s => Some (r, s).
Definition removing (op : OutPoint) : store_op S (option UtxoEntry) := fun s =>
  let! (e, s) := store_remove op s in Some (Ok e, s).

(** [idx as u32] *)
Definition output_outpoint (tx_id : Hash256) (idx : nat) : OutPoint :=
  {| op_tx_id := tx_id; op_index := Z.of_nat idx mod 2 ^ 32 |}.

Fixpoint spend_inputs (ins : list TxInput) : store_op S (list UtxoMutation) :=
  match ins with
  | [] => mret []
  | input :: ins =>
      let outpoint := input_outpoint input in
      removed ← removing outpoint;
      match removed with
      | Some entry =>
          mutations ← spend_inputs ins;
          mret (MRemove outpoint entry :: mutations)
      | None => throw (InputNotFound outpoint)
      end
  end.

Fixpoint create_outputs (tx_id : Hash256) (height : Z) (is_coinbase : bool) (idx : nat) (outs : list TxOutput)
  : store_op S (list UtxoMutation) :=
  match outs with
  | [] => mret []
  | out :: outs =>
      let outpoint := output_outpoint tx_id idx in
      let entry := {| output := out; entry_height := height; entry_coinbase := is_coinbase |} in
      _ ← store_insert outpoint entry;
      mutations ← create_outputs tx_id height is_coinbase (idx + 1) outs;
      mret (MInsert outpoint entry :: mutations)
  end.

Definition apply_transaction (tx : Transaction) (height : Z) : store_op S (list UtxoMutation) :=
  tx_id ← of_result (map_err Serialization (tx_id tx));
  let coinbase := is_coinbase tx in
  removes ← (if negb coinbase then spend_inputs (inputs tx) else mret []);
  inserts ← create_outputs tx_id height coinbase 0 (outputs tx);
  mret (removes ++ inserts).

(** [for idx in idx..idx + n] *)
Fixpoint remove_outputs (tx_id : Hash256) (idx n : nat) : store_op S unit :=
  match n with
  | O => mret tt
  | Datatypes.S n =>
      let outpoint := output_outpoint tx_id idx in
      removed ← removing outpoint;
      match removed with
      | None => throw (OutputNotFound outpoint)
      | Some _ => remove_outputs tx_id (idx + 1) n
      end
  end.

Fixpoint restore_inputs (prev_utxos : list (OutPoint * UtxoEntry)) : store_op S unit :=
  match prev_utxos with
  | [] => mret tt
  | (outpoint, entry) :: prev_utxos => fun s =>
      if store_contains outpoint s then throw (DuplicateRestore outpoint) s
      else (_ ← store_insert outpoint entry; restore_inputs prev_utxos) s
  end.

Definition undo_transaction (tx : Transaction) (prev_utxos : list (OutPoint * UtxoEntry)) : store_op S unit :=
  if negb (is_coinbase tx) && negb (len prev_utxos =? len (inputs tx)) then
    throw (IncompleteUndo (len (inputs tx)) (len prev_utxos))
  else
    tx_id ← of_result (map_err Serialization (tx_id tx));
    _ ← remove_outputs tx_id 0 (length (outputs tx));
    restore_inputs prev_utxos.

Fixpoint discard_outputs (tx_id : Hash256) (idx n : nat) : store_op S unit :=
  match n with
  | O => mret tt
  | Datatypes.S n =>
      _ ← removing (output_outpoint tx_id idx);
      discard_outputs tx_id (idx + 1) n
  end.

Fixpoint restore_missing (prev_utxos : list (OutPoint * UtxoEntry)) : store_op S unit :=
  match prev_utxos with
  | [] => mret tt
  | (outpoint, entry) :: prev_utxos => fun s =>
      if negb (store_contains outpoint s) then (_ ← store_insert outpoint entry; restore_missing prev_utxos) s
      else restore_missing prev_utxos s
  end.

Definition undo_partial_transaction (tx : Transaction) (prev_utxos : list (OutPoint * UtxoEntry)) : store_op S unit :=
  tx_id ← of_result (map_err Serialization (tx_id tx));
  _ ← discard_outputs tx_id 0 (length (outputs tx));
  if negb (is_coinbase tx) then restore_missing prev_utxos else mret tt.

(** A call of the mutating interface, for sequences of calls. *)
Inductive UtxoCall :=
| CallInsert (op : OutPoint) (e : UtxoEntry)
| CallRemove (op : OutPoint)
| CallApply (tx : Transaction) (height : Z)
| CallUndo (tx : Transaction) (prev : list (OutPoint * UtxoEntry))
| CallUndoPartial (tx : Transaction) (prev : list (OutPoint * UtxoEntry)).

Inductive CallResult :=
| RUnit
| REntry (e : option UtxoEntry)
| RMutations (ms : list UtxoMutation).

Definition run_call (c : UtxoCall) : store_op S CallResult :=
  match c with
  | CallInsert op e => _ ← store_insert op e; mret RUnit
  | CallRemove op => e ← removing op; mret (REntry e)
  | CallApply tx height => ms ← apply_transaction tx height; mret (RMutations ms)
  | CallUndo tx prev => _ ← undo_transaction tx prev; mret RUnit
  | CallUndoPartial tx prev => _ ← undo_partial_transaction tx prev; mret RUnit
  end.
End Ops.

(** ** The set *)

Section UtxoSet.
Context `{Sha2} `{StateTree}.

Record UtxoSet := {
  utxos : gmap OutPoint UtxoEntry;
  smt : st_tree;
  by_script : gmap bytes (gset OutPoint)
}.

Definition UtxoSet_new : UtxoSet := {| utxos := ∅; smt := st_new; by_script := ∅ |}.

Definition get (s : UtxoSet) (outpoint : OutPoint) : option UtxoEntry := utxos s !! outpoint.
Definition contains (outpoint : OutPoint) (s : UtxoSet) : bool := bool_decide (is_Some (utxos s !! outpoint)).

Definition snapshot_for_outpoints (s : UtxoSet) (outpoints : list OutPoint) : UtxoSet := {|
  utxos := fold_left (fun u op => match utxos s !! op with Some e => <[op := e]> u | None => u end) outpoints ∅;
  smt := st_new;
  by_script := ∅
|}.

Definition outpoint_key (op : OutPoint) : Hash256 := leaf_key (op_tx_id op) (op_index op).

Definition UtxoSet_insert (outpoint : OutPoint) (entry : UtxoEntry) : store_op UtxoSet unit := fun s =>
  if contains outpoint s then Some (Err (DuplicateOutpoint outpoint), s)
  else
    let key := outpoint_key outpoint in
    match TxOutput_serialize (output entry) with
    | Err e => Some (Err (Serialization e), s)
    | Ok out =>
        let value := leaf_value out (entry_height entry) (entry_coinbase entry) in
        let! t := st_insert key value (smt s) in
        let sc := script (output entry) in
        Some (Ok tt, {|
          utxos := <[outpoint := entry]> (utxos s);
          smt := t;
          by_script := <[sc := {[outpoint]} ∪ default ∅ (by_script s !! sc)]> (by_script s)
        |})
    end.

Definition UtxoSet_remove (outpoint : OutPoint) (s : UtxoSet) : option (option UtxoEntry * UtxoSet) :=
  match utxos s !! outpoint with
  | None => Some (None, s)
  | Some entry =>
      let! t := st_remove (outpoint_key outpoint) (smt s) in
      let sc := script (output entry) in
      Some (Some entry, {|
        utxos := delete outpoint (utxos s);
        smt := t;
        by_script :=
          match by_script s !! sc with
          | Some set =>
              let set := set ∖ {[outpoint]} in
              if decide (set = ∅) then delete sc (by_script s) else <[sc := set]> (by_script s)
          | None => by_script s
          end
      |})
  end.

#[export] Instance UtxoSet_store : UtxoStore UtxoSet := {|
  store_insert := UtxoSet_insert;
  store_remove := UtxoSet_remove;
  store_contains := contains
|}.

Definition state_root (s : UtxoSet) : Hash256 := st_root (smt s).

(** ** Queries by script *)

Definition COINBASE_MATURITY : Z := 360.
(** The live value: 360, or 1 after [enter_devnet]. *)
Variable coinbase_maturity : Z.

Definition mature (current_height : Z) (e : UtxoEntry) : bool :=
  if entry_coinbase e then coinbase_maturity <=? saturating_sub current_height (entry_height e) else true.

(** The order of byte strings: lexicographic, a prefix first. *)
Fixpoint lex_cmp (a b : bytes) : comparison :=
  match a, b with
  | [], [] => Eq
  | [], _ :: _ => Lt
  | _ :: _, [] => Gt
  | x :: a, y :: b => match byte_Z x ?= byte_Z y with Eq => lex_cmp a b | c => c end
  end.
(** The derived order of [OutPoint]: the identifier, then the index. *)
Definition outpoint_le (a b : OutPoint) : Prop :=
  match lex_cmp (op_tx_id a) (op_tx_id b) with
  | Lt => True
  | Eq => op_index a <= op_index b
  | Gt => False
  end.
#[export] Instance outpoint_le_dec a b : Decision (outpoint_le a b).
Proof. unfold outpoint_le. destruct (lex_cmp _ _); apply _. Defined.

(** A [BTreeSet] iterates in ascending order. *)
Definition ascending (set : gset OutPoint) : list OutPoint := merge_sort outpoint_le (elements set).

Definition balance_for_script (s : UtxoSet) (sc : bytes) (current_height : Z) : Z :=
  match by_script s !! sc with
  | None => 0
  | Some outpoints =>
      fold_left (fun total op =>
        match utxos s !! op with
        | Some entry =>
            if entry_coinbase entry && (saturating_sub current_height (entry_height entry) <? coinbase_maturity)
            then total
            else saturating_add U64_MAX total (value (output entry))
        | None => total
        end) (ascending outpoints) 0
  end.

Definition utxo_row : Type := OutPoint * Z * Z * bool.

(** The scan loop: push mature entries until [limit] results are there. *)
Fixpoint scan_mature (s : UtxoSet) (current_height limit : Z) (ops : list OutPoint) (results : list utxo_row)
  : list utxo_row :=
  match ops with
  | [] => results
  | op :: ops =>
      match utxos s !! op with
      | Some entry =>
          if mature current_height entry then
            let results := results ++ [(op, value (output entry), entry_height entry, entry_coinbase entry)] in
            if limit <=? len results then results else scan_mature s current_height limit ops results
          else scan_mature s current_height limit ops results
      | None => scan_mature s current_height limit ops results
      end
  end.

Definition utxos_for_script (s : UtxoSet) (sc : bytes) (current_height limit : Z) : list utxo_row :=
  match by_script s !! sc with
  | None => []
  | Some outpoints => scan_mature s current_height limit (ascending outpoints) []
  end.

Definition utxos_for_script_paged (s : UtxoSet) (sc : bytes) (current_height : Z) (after : option OutPoint) (limit : Z)
  : list utxo_row :=
  match by_script s !! sc with
  | None => []
  | Some outpoints =>
      let iter :=
        match after with
        | Some cursor => filter (fun op => ~ outpoint_le op cursor) (ascending outpoints)
        | None => ascending outpoints
        end in
      scan_mature s current_height limit iter []
  end.
End UtxoSet.

(** ** The specification: a plain map *)

Abbreviation utxo_map := (gmap OutPoint UtxoEntry).

Definition spec_insert (outpoint : OutPoint) (entry : UtxoEntry) : store_op utxo_map unit := fun u =>
  match u !! outpoint with
  | Some _ => Some (Err (DuplicateOutpoint outpoint), u)
  | None =>
      match TxOutput_serialize (output entry) with
      | Err e => Some (Err (Serialization e), u)
      | Ok _ => Some (Ok tt, <[outpoint := entry]> u)
      end
  end.

#[export] Instance spec_store : UtxoStore utxo_map := {|
  store_insert := spec_insert;
  store_remove := fun op u => Some (u !! op, delete op u);
  store_contains := fun op u => bool_decide (is_Some (u !! op))
|}.

Section Refinement.
Context `{Sha2} `{!Sha2Width} `{StateTree}.
Context {capacity : Z} {root_of : gmap bytes bytes -> bytes} `{!StateTreeLaws capacity root_of}.
(** The outpoints in play, whose leaf keys do not collide. *)
Variable D : OutPoint -> Prop.
Hypothesis keys_distinct : forall a b, D a -> D b -> outpoint_key a = outpoint_key b -> a = b.

Definition entry_value (e : UtxoEntry) : bytes :=
  match TxOutput_serialize (output e) with
  | Ok out => leaf_value out (entry_height e) (entry_coinbase e)
  | Err _ => zero32
  end.

(** The state tree's leaves are those of the entries. *)
Definition commits (u : utxo_map) (m : gmap bytes bytes) : Prop :=
  (forall o e, u !! o = Some e -> m !! outpoint_key o = Some (entry_value e)) /\
  (forall k v, m !! k = Some v -> exists o e, u !! o = Some e /\ outpoint_key o = k).

(** The index lists exactly the outpoints of each script, without empty sets. *)
Definition indexes (u : utxo_map) (ix : gmap bytes (gset OutPoint)) : Prop :=
  forall sc, match ix !! sc with
             | Some set => set <> ∅ /\ forall op, op ∈ set <-> exists e, u !! op = Some e /\ script (output e) = sc
             | None => forall op e, u !! op = Some e -> script (output e) <> sc
             end.

Definition entries_ok (u : utxo_map) : Prop :=
  forall o e, u !! o = Some e -> D o /\ exists out, TxOutput_serialize (output e) = Ok out.

(** [s] implements the map [u], with room for [n] more tree operations. *)
Definition refines (n : Z) (s : UtxoSet) (u : utxo_map) : Prop :=
  utxos s = u /\ entries_ok u /\ indexes u (by_script s) /\
  exists m n', n <= n' /\ st_ok (smt s) m n' /\ commits u m.

Lemma commits_inj u m1 m2 : commits u m1 -> commits u m2 -> m1 = m2.
Proof.
  intros [F1 B1] [F2 B2]. apply map_eq. intros k.
  destruct (m1 !! k) as [v1|] eqn:E1.
  - destruct (B1 k v1 E1) as (o & e & Ho & <-). rewrite (F1 o e Ho) in E1. by rewrite (F2 o e Ho).
  - destruct (m2 !! k) as [v2|] eqn:E2; [|done]. destruct (B2 k v2 E2) as (o & e & Ho & <-).
    by rewrite (F1 o e Ho) in E1.
Qed.

Lemma indexes_inj u i1 i2 : indexes u i1 -> indexes u i2 -> i1 = i2.
Proof.
  intros I1 I2. apply map_eq. intros sc. specialize (I1 sc). specialize (I2 sc).
  destruct (i1 !! sc) as [s1|], (i2 !! sc) as [s2|]; [| | |done].
  - f_equal. apply set_eq. intros op. by rewrite (proj2 I1 op), (proj2 I2 op).
  - destruct I1 as [Hne I1]. apply set_choose_L in Hne as [op Hop]. apply I1 in Hop as (e & He & Hsc). by destruct (I2 op e).
  - destruct I2 as [Hne I2]. apply set_choose_L in Hne as [op Hop]. apply I2 in Hop as (e & He & Hsc). by destruct (I1 op e).
Qed.

Lemma commits_insert u m o e :
  entries_ok u -> D o -> u !! o = None -> commits u m ->
  commits (<[o := e]> u) (<[outpoint_key o := entry_value e]> m).
Proof.
  intros Hu Ho Hn [F B]. split.
  - intros o' e' [[<- <-]|[Hne He]]%lookup_insert_Some; [by rewrite lookup_insert_eq|].
    rewrite lookup_insert_ne; [by apply F|]. intros Hk. apply Hne. apply keys_distinct; [done| |done]. by eapply Hu.
  - intros k v [[<- _]|[Hne Hk]]%lookup_insert_Some; [exists o, e; by rewrite lookup_insert_eq|].
    destruct (B k v Hk) as (o' & e' & He & <-). exists o', e'. rewrite lookup_insert_ne; [done|]. by intros ->.
Qed.

Lemma commits_delete u m o e :
  entries_ok u -> u !! o = Some e -> commits u m -> commits (delete o u) (delete (outpoint_key o) m).
Proof.
  intros Hu Ho [F B]. split.
  - intros o' e' [Hne He]%lookup_delete_Some. rewrite lookup_delete_ne; [by apply F|].
    intros Hk. apply Hne. apply keys_distinct; [by eapply Hu|by eapply Hu|done].
  - intros k v [Hne Hk]%lookup_delete_Some. destruct (B k v Hk) as (o' & e' & He & <-). exists o', e'.
    rewrite lookup_delete_ne; [done|]. by intros ->.
Qed.

Lemma indexes_insert u ix o e :
  u !! o = None -> indexes u ix ->
  indexes (<[o := e]> u) (<[script (output e) := {[o]} ∪ default ∅ (ix !! script (output e))]> ix).
Proof.
  intros Hn Hix sc. pose proof (Hix sc) as Hsc. destruct (decide (script (output e) = sc)) as [<-|Hne].
  - rewrite lookup_insert_eq. split; [set_solver|]. intros op. rewrite elem_of_union, elem_of_singleton.
    destruct (decide (op = o)) as [->|Hop].
    { split; [|by left]. intros _. exists e. by rewrite lookup_insert_eq. }
    rewrite lookup_insert_ne by done. destruct (ix !! script (output e)) as [set|]; cbn [default].
    + rewrite (proj2 Hsc op). naive_solver.
    + split; [set_solver|]. intros (e' & He & Hs). by destruct (Hsc op e').
  - rewrite lookup_insert_ne by done. destruct (ix !! sc) as [set|].
    + destruct Hsc as [Hne' Hsc]. split; [done|]. intros op. rewrite Hsc. destruct (decide (op = o)) as [->|Hop].
      * rewrite lookup_insert_eq, Hn. naive_solver.
      * by rewrite lookup_insert_ne.
    + intros op e' [[<- <-]|[_ He]]%lookup_insert_Some; [done|]. by apply (Hsc op).
Qed.

Lemma indexes_delete u ix o e :
  u !! o = Some e -> indexes u ix ->
  indexes (delete o u)
    (match ix !! script (output e) with
     | Some set =>
         let set := set ∖ {[o]} in
         if decide (set = ∅) then delete (script (output e)) ix else <[script (output e) := set]> ix
     | None => ix
     end).
Proof.
  intros Ho Hix. pose proof (Hix (script (output e))) as He.
  destruct (ix !! script (output e)) as [set|] eqn:Eset; [|by destruct (He o e)]. destruct He as [_ He].
  assert (forall op, op ∈ set ∖ {[o]} <-> exists e', delete o u !! op = Some e' /\ script (output e') = script (output e)) as Hset.
  { intros op. rewrite elem_of_difference, elem_of_singleton, He. setoid_rewrite lookup_delete_Some. naive_solver. }
  assert (forall sc, script (output e) <> sc -> match ix !! sc with
    | Some set => set <> ∅ /\ forall op, op ∈ set <-> exists e', delete o u !! op = Some e' /\ script (output e') = sc
    | None => forall op e', delete o u !! op = Some e' -> script (output e') <> sc end) as Hother.
  { intros sc Hne. specialize (Hix sc). destruct (ix !! sc) as [set'|].
    - destruct Hix as [Hne' Hsc]. split; [done|]. intros op. rewrite Hsc. setoid_rewrite lookup_delete_Some. naive_solver.
    - intros op e' [_ He']%lookup_delete_Some. by apply (Hix op). }
  intros sc. cbv zeta. destruct (decide (script (output e) = sc)) as [<-|Hne]; destruct (decide (set ∖ {[o]} = ∅)) as [Hempty|Hnonempty].
  - rewrite lookup_delete_eq. intros op e' He' Hs. assert (op ∈ set ∖ {[o]}) as Hin by (apply Hset; eauto).
    rewrite Hempty in Hin. set_solver.
  - rewrite lookup_insert_eq. done.
  - rewrite lookup_delete_ne by done. by apply Hother.
  - rewrite lookup_insert_ne by done. by apply Hother.
Qed.

(** ** Simulation *)

(** The two computations agree when there is room for [k] tree operations. *)
Definition usim {A} (k : Z) (c1 : store_op UtxoSet A) (c2 : store_op utxo_map A) : Prop :=
  forall n s u, k <= n -> refines n s u ->
  exists r s' u', c1 s = Some (r, s') /\ c2 u = Some (r, u') /\ refines (n - k) s' u'.

Lemma refines_weaken n n' s u : n' <= n -> refines n s u -> refines n' s u.
Proof. intros Hn (Hu & He & Hi & m & n1 & Hn1 & Hok). split_and!; try done. exists m, n1. split; [lia|done]. Qed.

Lemma usim_bind {A B} k1 k2 (c1 : store_op UtxoSet A) c2 (f1 : A -> store_op UtxoSet B) f2 :
  0 <= k1 -> 0 <= k2 -> usim k1 c1 c2 -> (forall a, usim k2 (f1 a) (f2 a)) -> usim (k1 + k2) (c1 ≫= f1) (c2 ≫= f2).
Proof.
  intros Hk1 Hk2 Hc Hf n s u Hn Hr. destruct (Hc n s u ltac:(lia) Hr) as (r & s1 & u1 & E1 & E2 & Hr1).
  unfold mbind, store_bind. rewrite E1, E2. destruct r as [a|e].
  - destruct (Hf a (n - k1) s1 u1 ltac:(lia) Hr1) as (r' & s2 & u2 & -> & -> & Hr2). exists r', s2, u2.
    split_and!; try done. eapply refines_weaken; [|exact Hr2]. lia.
  - exists (Err e), s1, u1. split_and!; try done. eapply refines_weaken; [|exact Hr1]. lia.
Qed.

Lemma usim_pure {A} (r : result StateError A) : usim 0 (of_result r) (of_result r).
Proof. intros n s u _ Hr. exists r, s, u. by rewrite Z.sub_0_r. Qed.
Lemma usim_ret {A} (a : A) : usim 0 (mret a) (mret a).
Proof. apply (usim_pure (Ok a)). Qed.
Lemma usim_throw {A} e : usim (A := A) 0 (throw e) (throw e).
Proof. apply (usim_pure (Err e)). Qed.
Lemma usim_weaken {A} k k' (c1 : store_op UtxoSet A) c2 : k <= k' -> usim k c1 c2 -> usim k' c1 c2.
Proof.
  intros Hk Hc n s u Hn Hr. destruct (Hc n s u ltac:(lia) Hr) as (r & s' & u' & E1 & E2 & Hr'). exists r, s', u'.
  split_and!; try done. eapply refines_weaken; [|exact Hr']. lia.
Qed.

Lemma contains_refines n s u op : refines n s u -> contains op s = bool_decide (is_Some (u !! op)).
Proof. intros (<- & _). done. Qed.

Lemma usim_insert op e : D op -> usim 1 (UtxoSet_insert op e) (spec_insert op e).
Proof.
  intros Hop n s u Hn Hr. destruct Hr as (Hu & He & Hi & m & n' & Hn' & Hok & Hc).
  assert (refines (n - 1) s u) as Hsame.
  { split_and!; try done. exists m, n'. split; [lia|done]. }
  unfold UtxoSet_insert, contains, spec_insert. rewrite Hu. destruct (u !! op) as [e0|] eqn:Eop.
  { rewrite bool_decide_true by eauto. eauto 10. }
  rewrite bool_decide_false by (intros [? ?]; done). destruct (TxOutput_serialize (output e)) as [out|err] eqn:Eser; [|eauto 10].
  destruct (st_insert_ok (smt s) m n' (outpoint_key op) (leaf_value out (entry_height e) (entry_coinbase e)) Hok
    ltac:(lia) ltac:(apply sha2_width)) as (t & -> & Hok').
  eexists _, _, _. split; [reflexivity|]. split; [reflexivity|]. split_and!; cbn [utxos smt by_script].
  - done.
  - intros o e' [[<- <-]|[_ Ho]]%lookup_insert_Some; [eauto|by apply He].
  - by apply indexes_insert.
  - exists (<[outpoint_key op := entry_value e]> m), (n' - 1). split; [lia|]. unfold entry_value at 1. rewrite Eser.
    split; [done|]. by apply commits_insert.
Qed.

Lemma usim_remove op : usim 1 (removing op) (removing op).
Proof.
  intros n s u Hn Hr. destruct Hr as (Hu & He & Hi & m & n' & Hn' & Hok & Hc).
  unfold removing. cbn [store_remove UtxoSet_store spec_store]. unfold UtxoSet_remove. rewrite Hu.
  destruct (u !! op) as [e|] eqn:Eop.
  - destruct (st_remove_ok (smt s) m n' (outpoint_key op) Hok ltac:(lia)) as (t & -> & Hok').
    eexists _, _, _. split; [reflexivity|]. split; [reflexivity|]. split_and!; cbn [utxos smt by_script].
    + done.
    + intros o e' [_ Ho]%lookup_delete_Some. by apply He.
    + by apply indexes_delete.
    + exists (delete (outpoint_key op) m), (n' - 1). split; [lia|]. split; [done|]. by eapply commits_delete.
  - eexists _, _, _. split; [reflexivity|]. split; [reflexivity|]. rewrite delete_id by done. split_and!; try done.
    exists m, n'. split; [lia|done].
Qed.

Lemma usim_contains {A} op k (c1 d1 : store_op UtxoSet A) c2 d2 :
  usim k c1 c2 -> usim k d1 d2 ->
  usim k (fun s => if contains op s then c1 s else d1 s) (fun u => if bool_decide (is_Some (u !! op)) then c2 u else d2 u).
Proof.
  intros Hc Hd n s u Hn Hr. rewrite (contains_refines n s u op Hr). destruct (bool_decide _); [by apply Hc|by apply Hd].
Qed.

Lemma usim_spend ins : usim (len ins) (spend_inputs ins) (spend_inputs ins).
Proof.
  induction ins as [|i ins IH]; cbn [spend_inputs]; [apply usim_ret|]. pose proof (len_nonneg ins). rewrite len_cons.
  apply usim_bind; [lia|lia|apply usim_remove|]. intros [e|].
  - replace (len ins) with (len ins + 0) by lia. apply usim_bind; [lia|lia|done|]. intros ms. apply usim_ret.
  - apply usim_weaken with 0; [lia|apply usim_throw].
Qed.

Lemma usim_create id height cb idx outs :
  (forall i, (idx <= i < idx + length outs)%nat -> D (output_outpoint id i)) ->
  usim (len outs) (create_outputs id height cb idx outs) (create_outputs id height cb idx outs).
Proof.
  revert idx. induction outs as [|o outs IH]; intros idx HD; cbn [create_outputs]; [apply usim_ret|]. cbn [length] in HD.
  pose proof (len_nonneg outs). rewrite len_cons. apply usim_bind; [lia|lia|apply usim_insert, HD; lia|]. intros _.
  replace (len outs) with (len outs + 0) by lia. apply usim_bind; [lia|lia|apply IH; intros; apply HD; lia|]. intros ms. apply usim_ret.
Qed.

Lemma usim_remove_outputs id idx n : usim (Z.of_nat n) (remove_outputs id idx n) (remove_outputs id idx n).
Proof.
  revert idx. induction n as [|n IH]; intros idx; cbn [remove_outputs]; [apply usim_ret|].
  replace (Z.of_nat (Datatypes.S n)) with (1 + Z.of_nat n) by lia. apply usim_bind; [lia|lia|apply usim_remove|]. intros [e|]; [done|].
  apply usim_weaken with 0; [lia|apply usim_throw].
Qed.

Lemma usim_discard id idx n : usim (Z.of_nat n) (discard_outputs id idx n) (discard_outputs id idx n).
Proof.
  revert idx. induction n as [|n IH]; intros idx; cbn [discard_outputs]; [apply usim_ret|].
  replace (Z.of_nat (Datatypes.S n)) with (1 + Z.of_nat n) by lia. apply usim_bind; [lia|lia|apply usim_remove|]. by intros _.
Qed.

Lemma usim_restore prev : Forall (fun oe => D oe.1) prev -> usim (len prev) (restore_inputs prev) (restore_inputs prev).
Proof.
  induction 1 as [|[op e] prev Hop _ IH]; cbn [restore_inputs]; [apply usim_ret|].
  pose proof (len_nonneg prev). rewrite len_cons. apply usim_contains.
  - apply usim_weaken with 0; [lia|apply usim_throw].
  - apply usim_bind; [lia|lia|by apply usim_insert|]. by intros _.
Qed.

Lemma usim_restore_missing prev :
  Forall (fun oe => D oe.1) prev -> usim (len prev) (restore_missing prev) (restore_missing prev).
Proof.
  induction 1 as [|[op e] prev Hop _ IH]; cbn [restore_missing]; [apply usim_ret|].
  pose proof (len_nonneg prev). rewrite len_cons. intros n s u Hn Hr. cbn [store_contains UtxoSet_store spec_store].
  rewrite (contains_refines n s u op Hr). destruct (bool_decide _); cbn [negb].
  - apply (usim_weaken (len prev)); [lia|done|done|done].
  - apply (usim_bind 1 (len prev)); try lia; [by apply usim_insert|by intros _|done].
Qed.

(** ** Calls *)

Definition tx_in (tx : Transaction) : Prop :=
  forall id i, tx_id tx = Ok id -> (i < length (outputs tx))%nat -> D (output_outpoint id i).
Definition call_in (c : UtxoCall) : Prop :=
  match c with
  | CallInsert op _ => D op
  | CallRemove _ => True
  | CallApply tx _ => tx_in tx
  | CallUndo tx prev | CallUndoPartial tx prev => tx_in tx /\ Forall (fun oe => D oe.1) prev
  end.
Definition call_size (c : UtxoCall) : Z :=
  match c with
  | CallInsert _ _ | CallRemove _ => 1
  | CallApply tx _ => len (inputs tx) + len (outputs tx)
  | CallUndo tx prev | CallUndoPartial tx prev => len (outputs tx) + len prev
  end.

Lemma usim_tx_id {A} tx k (f1 : Hash256 -> store_op UtxoSet A) f2 :
  0 <= k -> (forall id, tx_id tx = Ok id -> usim k (f1 id) (f2 id)) ->
  usim k (of_result (map_err Serialization (tx_id tx)) ≫= f1) (of_result (map_err Serialization (tx_id tx)) ≫= f2).
Proof.
  intros Hk Hf. destruct (tx_id tx) as [id|e] eqn:E.
  - intros n s u Hn Hr. exact (Hf id eq_refl n s u Hn Hr).
  - apply usim_weaken with 0; [lia|]. apply (usim_throw (Serialization e)).
Qed.

Lemma usim_apply tx height :
  tx_in tx -> usim (len (inputs tx) + len (outputs tx)) (apply_transaction tx height) (apply_transaction tx height).
Proof.
  intros Htx. pose proof (len_nonneg (inputs tx)). pose proof (len_nonneg (outputs tx)).
  apply usim_tx_id; [lia|]. intros id Hid. apply usim_bind; [lia|lia| |].
  - destruct (negb _); [apply usim_spend|]. apply usim_weaken with 0; [lia|apply usim_ret].
  - intros ms. replace (len (outputs tx)) with (len (outputs tx) + 0) by lia.
    apply usim_bind; [lia|lia|apply usim_create; intros i Hi; apply Htx; [done|lia]|]. intros ms'. apply usim_ret.
Qed.

Lemma usim_undo tx prev :
  Forall (fun oe => D oe.1) prev -> usim (len (outputs tx) + len prev) (undo_transaction tx prev) (undo_transaction tx prev).
Proof.
  intros Hp. pose proof (len_nonneg prev). pose proof (len_nonneg (outputs tx)). unfold undo_transaction.
  destruct (negb _ && negb _); [apply usim_weaken with 0; [lia|apply usim_throw]|].
  apply usim_tx_id; [lia|]. intros id Hid. apply usim_bind; [lia|lia|apply usim_remove_outputs|]. intros _. by apply usim_restore.
Qed.

Lemma usim_undo_partial tx prev :
  Forall (fun oe => D oe.1) prev ->
  usim (len (outputs tx) + len prev) (undo_partial_transaction tx prev) (undo_partial_transaction tx prev).
Proof.
  intros Hp. pose proof (len_nonneg prev). pose proof (len_nonneg (outputs tx)). apply usim_tx_id; [lia|]. intros id Hid.
  apply usim_bind; [lia|lia|apply usim_discard|]. intros _. destruct (negb _); [by apply usim_restore_missing|].
  apply usim_weaken with 0; [lia|apply usim_ret].
Qed.

Lemma usim_call c : call_in c -> usim (call_size c) (run_call c) (run_call c).
Proof.
  intros Hc. replace (call_size c) with (call_size c + 0) by lia.
  destruct c as [op e|op|tx height|tx prev|tx prev]; cbn [run_call call_size call_in] in *;
    (apply usim_bind; [try lia|lia| |intros ?; apply usim_ret]).
  - by apply usim_insert.
  - apply usim_remove.
  - pose proof (len_nonneg (inputs tx)). pose proof (len_nonneg (outputs tx)). lia.
  - by apply usim_apply.
  - pose proof (len_nonneg prev). pose proof (len_nonneg (outputs tx)). lia.
  - apply usim_undo, Hc.
  - pose proof (len_nonneg prev). pose proof (len_nonneg (outputs tx)). lia.
  - apply usim_undo_partial, Hc.
Qed.

(** ** Sequences of calls from the empty set *)

(** The calls in order; an error does not stop the caller. *)
Fixpoint run_calls {S} `{UtxoStore S} (cs : list UtxoCall) (s : S) : option (list (result StateError CallResult) * S) :=
  match cs with
  | [] => Some ([], s)
  | c :: cs =>
      let! (r, s) := run_call c s in
      let! (rs, s) := run_calls cs s in
      Some (r :: rs, s)
  end.

Fixpoint calls_size (cs : list UtxoCall) : Z :=
  match cs with [] => 0 | c :: cs => call_size c + calls_size cs end.

Lemma call_size_nonneg c : 0 <= call_size c.
Proof.
  destruct c as [op e|op|tx h|tx prev|tx prev]; cbn [call_size]; try lia;
    pose proof (len_nonneg (inputs tx)); pose proof (len_nonneg (outputs tx)); try pose proof (len_nonneg prev); lia.
Qed.
Lemma calls_size_nonneg cs : 0 <= calls_size cs.
Proof. induction cs as [|c cs IH]; cbn [calls_size]; [lia|]. pose proof (call_size_nonneg c). lia. Qed.

Lemma usim_calls cs n s u :
  Forall call_in cs -> calls_size cs <= n -> refines n s u ->
  exists rs s' u', run_calls cs s = Some (rs, s') /\ run_calls cs u = Some (rs, u') /\ refines (n - calls_size cs) s' u'.
Proof.
  intros Hcs. revert n s u. induction Hcs as [|c cs Hc Hcs IH]; intros n s u Hn Hr; cbn [run_calls calls_size] in *.
  { exists [], s, u. by rewrite Z.sub_0_r. }
  pose proof (calls_size_nonneg cs). pose proof (call_size_nonneg c).
  destruct (usim_call c Hc n s u ltac:(lia) Hr) as (r & s1 & u1 & -> & -> & Hr1).
  destruct (IH (n - call_size c) s1 u1 ltac:(lia) Hr1) as (rs & s2 & u2 & -> & -> & Hr2).
  exists (r :: rs), s2, u2. split_and!; try done. eapply refines_weaken; [|exact Hr2]. lia.
Qed.

Lemma refines_new n : n <= capacity -> refines n UtxoSet_new ∅.
Proof.
  intros Hn. split_and!; [done|by intros o e ?%lookup_empty_Some| |].
  - intros sc. cbn [by_script UtxoSet_new]. rewrite lookup_empty. by intros op e ?%lookup_empty_Some.
  - exists ∅, capacity. split; [done|]. split; [apply st_new_ok|]. split.
    + by intros o e ?%lookup_empty_Some.
    + by intros k v ?%lookup_empty_Some.
Qed.

Lemma refines_root n s u : refines n s u -> exists m, commits u m /\ state_root s = root_of m.
Proof.
  intros (_ & _ & _ & m & n' & _ & Hok & Hc). exists m. split; [done|]. unfold state_root. by eapply st_root_ok.
Qed.

(** Sets that implement the same map are indistinguishable. *)
Lemma refines_same n1 n2 s1 s2 u :
  refines n1 s1 u -> refines n2 s2 u ->
  utxos s1 = utxos s2 /\ by_script s1 = by_script s2 /\ state_root s1 = state_root s2.
Proof.
  intros R1 R2. destruct (refines_root _ _ _ R1) as (m1 & C1 & ->). destruct (refines_root _ _ _ R2) as (m2 & C2 & ->).
  destruct R1 as (-> & _ & I1 & _). destruct R2 as (-> & _ & I2 & _). split; [done|]. split; [by eapply indexes_inj|].
  by rewrite (commits_inj _ _ _ C1 C2).
Qed.
End Refinement.

(** ** Undo on the specification *)

Section Undo.
Context `{Sha2}.

Definition serializable (u : utxo_map) : Prop :=
  forall o e, u !! o = Some e -> exists out, TxOutput_serialize (output e) = Ok out.

Lemma collect_app a b : collect_spent_utxos (a ++ b) = collect_spent_utxos a ++ collect_spent_utxos b.
Proof. apply omap_app. Qed.

Lemma spend_spec ins u ms u' :
  spend_inputs ins u = Some (Ok ms, u') ->
  let spent := collect_spent_utxos ms in
  len spent = len ins /\ NoDup (spent.*1) /\ (forall o, In o (spent.*1) -> u' !! o = None) /\
  u = list_to_map spent ∪ u'.
Proof.
  revert u ms. induction ins as [|i ins IH]; intros u ms; cbn [spend_inputs].
  { intros [= <- <-]. cbn. rewrite (left_id_L ∅ _). split_and!; try done. constructor. }
  unfold mbind, store_bind, removing. cbn [store_remove spec_store].
  destruct (u !! input_outpoint i) as [e|] eqn:Ei; [|done].
  destruct (spend_inputs ins (delete (input_outpoint i) u)) as [[[ms1|] u1]|] eqn:Es; [|done|done].
  intros [= <- <-]. destruct (IH _ _ Es) as (Hlen & Hnd & Hnone & Hu). cbn [collect_spent_utxos omap list_omap] in *.
  fold (collect_spent_utxos ms1) in *. set (spent := collect_spent_utxos ms1) in *.
  assert (u1 !! input_outpoint i = None /\ ~ In (input_outpoint i) (spent.*1)) as [Hn Hni].
  { assert (delete (input_outpoint i) u !! input_outpoint i = None) as Hd by apply lookup_delete_eq.
    rewrite Hu in Hd. apply lookup_union_None in Hd as [Hl Hr]. split; [done|]. rewrite <- list_elem_of_In.
    by apply not_elem_of_list_to_map. }
  rewrite !len_cons. cbn [fmap list_fmap fst list_to_map foldr]. split_and!.
  - by rewrite Hlen.
  - constructor; [by rewrite list_elem_of_In|done].
  - intros o [<-|Ho]; [done|by apply Hnone].
  - rewrite <- insert_union_l, <- Hu. by rewrite insert_delete_id.
Qed.

Lemma restore_spec spent u :
  NoDup (spent.*1) -> (forall o, In o (spent.*1) -> u !! o = None) ->
  Forall (fun oe => exists out, TxOutput_serialize (output oe.2) = Ok out) spent ->
  restore_inputs spent u = Some (Ok tt, list_to_map spent ∪ u).
Proof.
  revert u. induction spent as [|[o e] spent IH]; intros u Hnd Hn Hser; cbn [restore_inputs].
  { cbn. by rewrite (left_id_L ∅ _). }
  cbn [fmap list_fmap fst] in *. apply NoDup_cons in Hnd as [Hni Hnd]. apply Forall_cons in Hser as [[out Hout] Hser]. cbn [snd] in Hout.
  cbn [store_contains store_insert spec_store]. rewrite (Hn o) by (by left). rewrite bool_decide_false by (intros [? ?]; done).
  unfold mbind, store_bind, spec_insert. rewrite (Hn o), Hout by (by left). rewrite IH; try done.
  - f_equal. f_equal. cbn [list_to_map foldr fst snd]. rewrite <- insert_union_l, insert_union_r; [done|].
    by apply not_elem_of_list_to_map.
  - intros o' Ho'. rewrite lookup_insert_ne; [by apply Hn; right|]. intros <-. by rewrite <- list_elem_of_In in Ho'.
Qed.

Lemma remove_outputs_frame id idx n u u' o e :
  remove_outputs id idx n u = Some (Ok tt, u') -> u' !! o = Some e ->
  remove_outputs id idx n (delete o u) = Some (Ok tt, delete o u').
Proof.
  revert idx u. induction n as [|n IH]; intros idx u; cbn [remove_outputs]; [by intros [= <-]|].
  unfold mbind, store_bind, removing. cbn [store_remove spec_store].
  destruct (u !! output_outpoint id idx) as [x|] eqn:Ex; [|done]. intros Hr Ho.
  assert (o <> output_outpoint id idx) as Hne.
  { intros ->. assert (forall n idx' w, remove_outputs id idx' n w = Some (Ok tt, u') -> w !! output_outpoint id idx = None ->
      u' !! output_outpoint id idx = None) as Hmono.
    { clear. induction n as [|n IH]; intros idx' w; cbn [remove_outputs]; [by intros [= <-]|].
      unfold mbind, store_bind, removing. cbn [store_remove spec_store].
      destruct (w !! output_outpoint id idx') eqn:E; [|done]. intros Hw Hn. eapply IH; [exact Hw|].
      rewrite lookup_delete_None. by right. }
    rewrite (Hmono _ _ _ Hr) in Ho; [done|]. apply lookup_delete_eq. }
  rewrite lookup_delete_ne, Ex by done. rewrite delete_delete. by apply IH.
Qed.

Lemma create_spec id height cb idx outs u ms u' :
  create_outputs id height cb idx outs u = Some (Ok ms, u') ->
  collect_spent_utxos ms = [] /\ u ⊆ u' /\ remove_outputs id idx (length outs) u' = Some (Ok tt, u).
Proof.
  revert idx u ms. induction outs as [|out outs IH]; intros idx u ms; cbn [create_outputs].
  { by intros [= <- <-]. }
  unfold mbind, store_bind. cbn [store_insert spec_store]. unfold spec_insert at 1.
  set (op := output_outpoint id idx). set (e := {| output := out; entry_height := height; entry_coinbase := cb |}).
  destruct (u !! op) as [|] eqn:Eop; [done|]. destruct (TxOutput_serialize (output e)); [|done].
  destruct (create_outputs id height cb (idx + 1) outs (<[op := e]> u)) as [[[ms1|] u1]|] eqn:Ec; [|done|done].
  intros [= <- <-]. destruct (IH _ _ _ Ec) as (Hms & Hsub & Hrem). cbn [collect_spent_utxos omap list_omap length remove_outputs].
  split_and!; [done| |].
  - etransitivity; [|exact Hsub]. by apply insert_subseteq.
  - unfold mbind, store_bind, removing. cbn [store_remove spec_store]. fold op.
    assert (u1 !! op = Some e) as -> by (eapply lookup_weaken; [|exact Hsub]; apply lookup_insert_eq).
    rewrite (remove_outputs_frame _ _ _ _ _ op e Hrem) by apply lookup_insert_eq.
    by rewrite delete_insert_id.
Qed.

Lemma spec_apply_undo tx height u ms u' :
  serializable u -> apply_transaction tx height u = Some (Ok ms, u') ->
  undo_transaction tx (collect_spent_utxos ms) u' = Some (Ok tt, u).
Proof.
  intros Hser. unfold apply_transaction, undo_transaction, mbind, store_bind, of_result.
  destruct (tx_id tx) as [id|]; [|done]. cbn [map_err].
  destruct (is_coinbase tx) eqn:Ecb; cbn [negb andb].
  - unfold mret, store_ret. destruct (create_outputs id height true 0 (outputs tx) u) as [[[ms1|] u1]|] eqn:Ec; [|done|done].
    intros [= <- <-]. destruct (create_spec _ _ _ _ _ _ _ _ Ec) as (Hms & _ & Hrem). cbn [app]. rewrite Hms, Hrem. done.
  - destruct (spend_inputs (inputs tx) u) as [[[ms0|] u0]|] eqn:Es; [|done|done].
    destruct (create_outputs id height false 0 (outputs tx) u0) as [[[ms1|] u1]|] eqn:Ec; [|done|done].
    intros [= <- <-]. destruct (create_spec _ _ _ _ _ _ _ _ Ec) as (Hms & _ & Hrem).
    destruct (spend_spec _ _ _ _ Es) as (Hlen & Hnd & Hnone & Hu).
    rewrite collect_app, Hms, app_nil_r, Hlen, Z.eqb_refl. cbn [negb]. rewrite Hrem. rewrite restore_spec; [by rewrite <- Hu|done|done|].
    apply Forall_forall. intros [o e] Hoe. apply (Hser o). rewrite Hu. apply lookup_union_Some_l.
    by apply elem_of_list_to_map.
Qed.

Lemma spent_in_set (D : OutPoint -> Prop) tx height (u : utxo_map) ms u' :
  (forall o e, u !! o = Some e -> D o) -> apply_transaction tx height u = Some (Ok ms, u') ->
  Forall (fun oe => D oe.1) (collect_spent_utxos ms) /\ len (collect_spent_utxos ms) <= len (inputs tx).
Proof.
  intros HD. unfold apply_transaction, mbind, store_bind, of_result. destruct (tx_id tx) as [id|]; [|done]. cbn [map_err].
  pose proof (len_nonneg (inputs tx)). destruct (is_coinbase tx); cbn [negb].
  - unfold mret, store_ret. destruct (create_outputs id height true 0 (outputs tx) u) as [[[ms1|] u1]|] eqn:Ec; [|done|done].
    intros [= <- <-]. destruct (create_spec _ _ _ _ _ _ _ _ Ec) as (Hms & _). cbn [app]. rewrite Hms. split; [done|]. by rewrite len_nil.
  - destruct (spend_inputs (inputs tx) u) as [[[ms0|] u0]|] eqn:Es; [|done|done].
    destruct (create_outputs id height false 0 (outputs tx) u0) as [[[ms1|] u1]|] eqn:Ec; [|done|done].
    intros [= <- <-]. destruct (create_spec _ _ _ _ _ _ _ _ Ec) as (Hms & _).
    destruct (spend_spec _ _ _ _ Es) as (Hlen & Hnd & Hnone & Hu). rewrite collect_app, Hms, app_nil_r, Hlen. split; [|done].
    apply Forall_forall. intros [o e] Hoe. apply (HD o e). rewrite Hu. apply lookup_union_Some_l. by apply elem_of_list_to_map.
Qed.

(** *** After any outcome of [apply_transaction] *)

Lemma spend_any ins u r u' :
  spend_inputs ins u = Some (r, u') ->
  forall o, u' !! o = u !! o \/ u' !! o = None /\ exists i e, In i ins /\ input_outpoint i = o /\ u !! o = Some e.
Proof.
  revert u r. induction ins as [|i ins IH]; intros u r; cbn [spend_inputs].
  { intros [= _ <-] o. by left. }
  unfold mbind, store_bind, removing. cbn [store_remove spec_store].
  destruct (u !! input_outpoint i) as [e|] eqn:Ei.
  2:{ intros [= _ <-] o. left. by rewrite delete_id. }
  destruct (spend_inputs ins (delete (input_outpoint i) u)) as [[r1 u1]|] eqn:Es; [|done].
  intros Hr o. assert (u1 = u') as -> by (unfold mret, store_ret in *; destruct r1; congruence). clear Hr. destruct (decide (o = input_outpoint i)) as [->|Hne].
  - right. destruct (IH _ _ Es (input_outpoint i)) as [->|[-> _]]; rewrite ?lookup_delete_eq; (split; [done|]);
      exists i, e; (split; [by left|done]).
  - destruct (IH _ _ Es o) as [->|[-> (j & e' & Hj & Hop & He)]]; rewrite lookup_delete_ne in * by done; [by left|].
    right. split; [done|]. exists j, e'. split; [by right|done].
Qed.

Lemma create_any id height cb idx outs u r u' :
  create_outputs id height cb idx outs u = Some (r, u') ->
  forall o, u' !! o = u !! o \/ exists i, (idx <= i < idx + length outs)%nat /\ o = output_outpoint id i.
Proof.
  revert idx u r. induction outs as [|out outs IH]; intros idx u r; cbn [create_outputs].
  { intros [= _ <-] o. by left. }
  unfold mbind, store_bind. cbn [store_insert spec_store]. unfold spec_insert at 1.
  set (e := {| output := out; entry_height := height; entry_coinbase := cb |}).
  destruct (u !! output_outpoint id idx) as [|] eqn:Eop; [intros [= _ <-] o; by left|].
  destruct (TxOutput_serialize (output e)); [|intros [= _ <-] o; by left].
  destruct (create_outputs id height cb (idx + 1) outs (<[output_outpoint id idx := e]> u)) as [[r1 u1]|] eqn:Ec; [|done].
  intros Hr o. assert (u1 = u') as -> by (unfold mret, store_ret in *; destruct r1; congruence). clear Hr. cbn [length].
  destruct (IH _ _ _ Ec o) as [->|(i & Hi & ->)]; [|right; exists i; split; [lia|done]].
  destruct (decide (o = output_outpoint id idx)) as [->|Hne]; [right; exists idx; split; [lia|done]|].
  left. by rewrite lookup_insert_ne.
Qed.

Lemma discard_spec id idx n (u : utxo_map) : exists u' : utxo_map,
  discard_outputs id idx n u = Some (Ok tt, u') /\
  (forall i, (idx <= i < idx + n)%nat -> u' !! output_outpoint id i = None) /\
  (forall o, u' !! o = u !! o \/ exists i, (idx <= i < idx + n)%nat /\ o = output_outpoint id i).
Proof.
  revert idx u. induction n as [|n IH]; intros idx u; cbn [discard_outputs].
  { exists u. split_and!; [done|lia|]. intros o. by left. }
  unfold mbind, store_bind, removing. cbn [store_remove spec_store].
  destruct (IH (idx + 1)%nat (delete (output_outpoint id idx) u)) as (u' & -> & Hnone & Hsame). exists u'. split_and!; [done| |].
  - intros i Hi. destruct (decide (i = idx)) as [->|]; [|apply Hnone; lia].
    destruct (Hsame (output_outpoint id idx)) as [->|(j & Hj & ->)]; [apply lookup_delete_eq|by apply Hnone].
  - intros o. destruct (decide (o = output_outpoint id idx)) as [->|Hne]; [right; exists idx; split; [lia|done]|].
    destruct (Hsame o) as [->|(j & Hj & ->)]; [left; by rewrite lookup_delete_ne|right; exists j; split; [lia|done]].
Qed.

Lemma restore_missing_spec u prev w :
  serializable u -> (forall o e, In (o, e) prev -> u !! o = Some e) ->
  (forall o, w !! o = u !! o \/ w !! o = None /\ exists e, In (o, e) prev) ->
  restore_missing prev w = Some (Ok tt, u).
Proof.
  intros Hser. revert w. induction prev as [|[o e] prev IH]; intros w Hp Hw; cbn [restore_missing].
  { unfold mret, store_ret. do 2 f_equal. apply map_eq. intros o. destruct (Hw o) as [->|[_ [e []]]]. done. }
  pose proof (Hp o e (or_introl eq_refl)) as Ho. cbn [store_contains spec_store].
  destruct (w !! o) as [e'|] eqn:Eo.
  - rewrite bool_decide_true by eauto. cbn [negb]. apply IH; [intros; apply Hp; by right|].
    intros o'. destruct (Hw o') as [Hl|[Hl [e1 [[= <- <-]|Hin]]]]; [by left|congruence|right; eauto].
  - rewrite bool_decide_false by (intros [? ?]; done). cbn [negb]. unfold mbind, store_bind.
    cbn [store_insert spec_store]. unfold spec_insert. rewrite Eo. destruct (Hser o e Ho) as [out ->].
    apply IH; [intros; apply Hp; by right|]. intros o'. destruct (decide (o = o')) as [<-|Hne].
    + left. by rewrite lookup_insert_eq.
    + rewrite lookup_insert_ne by done. destruct (Hw o') as [Hl|[Hl [e1 [[= <- <-]|Hin]]]]; [by left|done|right; eauto].
Qed.

(** The snapshot a caller takes before applying [tx]. *)
Definition snapshot_of (tx : Transaction) (u : utxo_map) (prev : list (OutPoint * UtxoEntry)) : Prop :=
  (forall o e, In (o, e) prev -> u !! o = Some e) /\
  (forall i e, In i (inputs tx) -> u !! input_outpoint i = Some e -> In (input_outpoint i, e) prev).
(** No output of [tx] is in the set yet. *)
Definition outputs_fresh (tx : Transaction) (u : utxo_map) : Prop :=
  forall id i, tx_id tx = Ok id -> (i < length (outputs tx))%nat -> u !! output_outpoint id i = None.

(** How any outcome of [apply_transaction] differs from the set before. *)
Lemma apply_any tx height id u r u' prev :
  tx_id tx = Ok id -> snapshot_of tx u prev -> apply_transaction tx height u = Some (r, u') ->
  forall o, u' !! o = u !! o \/
    (u' !! o = None /\ is_coinbase tx = false /\ exists e, In (o, e) prev) \/
    exists i, (i < length (outputs tx))%nat /\ o = output_outpoint id i.
Proof.
  intros Hid [_ Hin]. unfold apply_transaction, mbind, store_bind, of_result. rewrite Hid. cbn [map_err].
  destruct (is_coinbase tx) eqn:Ecb; cbn [negb].
  - unfold mret, store_ret. destruct (create_outputs id height true 0 (outputs tx) u) as [[r1 u1]|] eqn:Ec; [|done].
    intros Happ. assert (u1 = u') as -> by (destruct r1; congruence). intros o.
    destruct (create_any _ _ _ _ _ _ _ _ Ec o) as [->|(i & Hi & ->)]; [by left|]. right. right. exists i. split; [lia|done].
  - destruct (spend_inputs (inputs tx) u) as [[r0 u0]|] eqn:Es; [|done].
    assert (forall o, u0 !! o = u !! o \/ u0 !! o = None /\ exists e, In (o, e) prev) as H0.
    { intros o. destruct (spend_any _ _ _ _ Es o) as [|[Hn (i & e & Hi & <- & He)]]; [by left|right; eauto]. }
    destruct r0 as [ms|]; [|intros [= _ <-] o; destruct (H0 o) as [|[? ?]]; [by left|right; left; done]].
    destruct (create_outputs id height false 0 (outputs tx) u0) as [[r1 u1]|] eqn:Ec; [|done]. intros Happ.
    assert (u1 = u') as -> by (unfold mret, store_ret in *; destruct r1; congruence). intros o.
    destruct (create_any _ _ _ _ _ _ _ _ Ec o) as [->|(i & Hi & ->)].
    + destruct (H0 o) as [|[? ?]]; [by left|right; left; done].
    + right. right. exists i. split; [lia|done].
Qed.

Lemma spec_undo_partial tx height u r u' prev :
  serializable u -> is_ok (tx_id tx) = true -> outputs_fresh tx u -> snapshot_of tx u prev ->
  apply_transaction tx height u = Some (r, u') ->
  undo_partial_transaction tx prev u' = Some (Ok tt, u).
Proof.
  intros Hser Hok Hfresh Hsnap Happ. destruct (tx_id tx) as [id|] eqn:Hid; [|done].
  pose proof (apply_any tx height id u r u' prev Hid Hsnap Happ) as Hw. clear Happ Hok.
  assert (forall i, (i < length (outputs tx))%nat -> u !! output_outpoint id i = None) as Hf by (intros; by eapply Hfresh).
  unfold undo_partial_transaction, mbind, store_bind, of_result. rewrite Hid. cbn [map_err].
  destruct (discard_spec id 0 (length (outputs tx)) u') as (w & -> & Hnone & Hsame).
  assert (forall i, (i < length (outputs tx))%nat -> w !! output_outpoint id i = u !! output_outpoint id i) as Hout
    by (intros i Hi; rewrite Hnone, Hf by lia; done).
  assert (forall o, w !! o = u !! o \/ w !! o = None /\ is_coinbase tx = false /\ exists e, In (o, e) prev) as Hw'.
  { intros o. destruct (Hsame o) as [Eo|(i & Hi & ->)]; [|left; apply Hout; lia].
    destruct (Hw o) as [Ew|[[Ew Hx]|(i & Hi & ->)]]; rewrite ?Eo, ?Ew; [by left|by right|]. left. rewrite <- Eo. by apply Hout. }
  destruct (is_coinbase tx); cbn [negb].
  - unfold mret, store_ret. do 2 f_equal. apply map_eq. intros o. by destruct (Hw' o) as [->|(_ & ? & _)].
  - apply restore_missing_spec; [done|apply Hsnap|]. intros o. destruct (Hw' o) as [->|(-> & _ & ?)]; auto.
Qed.
End Undo.

(** ** Balances *)

Section Balance.
Context `{Sha2} `{StateTree}.

Lemma saturating_fold (f : OutPoint -> option Z) ops t :
  (forall op v, In op ops -> f op = Some v -> 0 <= v) -> 0 <= t <= U64_MAX ->
  fold_left (fun total op => match f op with Some v => saturating_add U64_MAX total v | None => total end) ops t =
  Z.min U64_MAX (t + fold_right (fun op s => default 0 (f op) + s) 0 ops).
Proof.
  revert t. induction ops as [|op ops IH]; intros t Hf Ht; cbn [fold_left fold_right]; [lia|].
  assert (0 <= fold_right (fun op s => default 0 (f op) + s) 0 ops) as Hnn.
  { clear IH. assert (forall op v, In op ops -> f op = Some v -> 0 <= v) as Hf' by (intros; eapply Hf; [by right|done]).
    clear Hf. induction ops as [|o ops IHo]; cbn [fold_right]; [lia|].
    assert (0 <= default 0 (f o)) by (destruct (f o) eqn:E; cbn [default from_option]; unfold id; [eapply Hf'; [by left|done]|lia]).
    assert (0 <= fold_right (fun op s => default 0 (f op) + s) 0 ops) by (apply IHo; intros; eapply Hf'; [by right|done]). lia. }
  destruct (f op) as [v|] eqn:E; cbn [default].
  - assert (0 <= v) by (eapply Hf; [by left|done]). rewrite IH; [|intros; eapply Hf; [by right|done]|unfold saturating_add; lia].
    revert Hnn. generalize (fold_right (fun op s => default 0 (f op) + s) 0 ops). unfold saturating_add, id. lia.
  - rewrite IH; [lia|intros; eapply Hf; [by right|done]|done].
Qed.

Variable coinbase_maturity : Z.

(** The specification of a balance: a sum over the whole set. *)
Definition spendable_value (sc : bytes) (current_height : Z) (e : UtxoEntry) : Z :=
  if bool_decide (script (output e) = sc) && mature coinbase_maturity current_height e then value (output e) else 0.
Definition total_spendable (u : utxo_map) (sc : bytes) (current_height : Z) : Z :=
  fold_right (fun oe t => spendable_value sc current_height oe.2 + t) 0 (map_to_list u).

Lemma sum_perm {A} (g : A -> Z) l l' :
  Permutation l l' -> fold_right (fun x t => g x + t) 0 l = fold_right (fun x t => g x + t) 0 l'.
Proof. induction 1; cbn [fold_right]; lia. Qed.

Lemma sum_ext {A} (g g' : A -> Z) l :
  (forall x, x ∈ l -> g x = g' x) -> fold_right (fun x t => g x + t) 0 l = fold_right (fun x t => g' x + t) 0 l.
Proof.
  induction l as [|x l IH]; intros Hg; [done|]. cbn [fold_right]. rewrite (Hg x), IH; [done| |left].
  intros y Hy. apply Hg. by right.
Qed.

Lemma fold_left_ext {A B} (f g : A -> B -> A) l a : (forall a b, f a b = g a b) -> fold_left f l a = fold_left g l a.
Proof. intros Hfg. revert a. induction l as [|b l IH]; intros a; cbn [fold_left]; [done|]. by rewrite Hfg. Qed.

Lemma sum_filter {A} (g : A -> Z) (P : A -> Prop) `{!forall x, Decision (P x)} l :
  (forall x, ~ P x -> g x = 0) ->
  fold_right (fun x t => g x + t) 0 (filter P l) = fold_right (fun x t => g x + t) 0 l.
Proof.
  intros Hz. induction l as [|x l IH]; [done|]. rewrite filter_cons. cbn [fold_right]. destruct (decide (P x)) as [|Hn].
  - cbn [fold_right]. by rewrite IH.
  - by rewrite IH, (Hz x Hn).
Qed.

Lemma sum_keys (g : UtxoEntry -> Z) (u : utxo_map) l :
  (forall o e, (o, e) ∈ l -> u !! o = Some e) ->
  fold_right (fun oe t => g oe.2 + t) 0 l =
  fold_right (fun op t => default 0 (g <$> u !! op) + t) 0 (l.*1).
Proof.
  intros Hl. induction l as [|[o e] l IH]; [done|]. cbn [fold_right fmap list_fmap fst snd].
  rewrite IH, (Hl o e) by (intros; apply Hl; by right) || left. done.
Qed.

Lemma ascending_perm set : Permutation (ascending set) (elements set).
Proof. apply merge_sort_Permutation. Qed.

Lemma indexed_keys (u : utxo_map) sc (set : gset OutPoint) :
  (forall op, op ∈ set <-> exists e, u !! op = Some e /\ script (output e) = sc) ->
  Permutation (elements set) ((filter (fun oe => script (output oe.2) = sc) (map_to_list u)).*1).
Proof.
  intros Hset. apply NoDup_Permutation.
  - apply NoDup_elements.
  - eapply sublist_NoDup; [apply (NoDup_fst_map_to_list u)|]. apply fmap_sublist, sublist_filter.
  - intros op. rewrite elem_of_elements, Hset, list_elem_of_fmap. split.
    + intros (e & He & Hsc). exists (op, e). split; [done|]. by apply list_elem_of_filter, conj, elem_of_map_to_list.
    + intros ([o e] & -> & [Hsc Hin]%list_elem_of_filter). exists e. by apply elem_of_map_to_list in Hin.
Qed.

(** The fold of [balance_for_script] over the index is the sum over the set. *)
Lemma balance_spec (s : UtxoSet) sc current_height :
  indexes (utxos s) (by_script s) -> (forall o e, utxos s !! o = Some e -> 0 <= value (output e)) ->
  balance_for_script coinbase_maturity s sc current_height =
    Z.min U64_MAX (total_spendable (utxos s) sc current_height).
Proof.
  intros Hix Hv. specialize (Hix sc). unfold balance_for_script, total_spendable. set (u := utxos s) in *.
  rewrite <- (sum_filter _ (fun oe => script (output oe.2) = sc))
    by (intros [o e] Hn; unfold spendable_value; simpl in *; by rewrite bool_decide_false).
  rewrite (sum_keys _ u) by (intros o e [_ Ho]%list_elem_of_filter; by apply elem_of_map_to_list).
  destruct (by_script s !! sc) as [set|].
  - destruct Hix as [_ Hset]. rewrite <- (sum_perm _ _ _ (indexed_keys u sc set Hset)), <- (sum_perm _ _ _ (ascending_perm set)).
    set (f := fun op => match u !! op with
      | Some e => if mature coinbase_maturity current_height e then Some (value (output e)) else None
      | None => None end).
    rewrite (fold_left_ext _ (fun total op => match f op with Some v => saturating_add U64_MAX total v | None => total end)).
    + rewrite (saturating_fold f); [|intros op v _; unfold f; destruct (u !! op) eqn:E; [|done]; case_match; intros [= <-]; by eapply Hv|done].
      rewrite Z.add_0_l. f_equal. apply sum_ext. intros op Hop. rewrite ascending_perm, elem_of_elements in Hop. apply Hset in Hop as (e & He & Hsc).
      unfold f, spendable_value. rewrite He. cbn [fmap option_fmap option_map default]. rewrite bool_decide_true by done.
      cbn [andb]. by destruct (mature _ _ _).
    + intros total op. unfold f. destruct (u !! op) as [e|]; [|done]. unfold mature. destruct (entry_coinbase e); [|done].
      cbn [andb]. rewrite Z.ltb_antisym. by destruct (coinbase_maturity <=? _).
  - assert (filter (fun oe => script (output oe.2) = sc) (map_to_list u) = []) as ->; [|done].
    destruct (filter _ (map_to_list u)) as [|[o e] l] eqn:E; [done|].
    assert ((o, e) ∈ filter (fun oe => script (output oe.2) = sc) (map_to_list u)) as Hin by (rewrite E; left).
    apply list_elem_of_filter in Hin as [Hsc Hin]. apply elem_of_map_to_list in Hin. by destruct (Hix o e).
Qed.
End Balance.

(** ** Paging *)

Lemma lex_cmp_refl a : lex_cmp a a = Eq.
Proof. induction a as [|x a IH]; [done|]. cbn [lex_cmp]. by rewrite Z.compare_refl. Qed.
Lemma lex_cmp_eq a b : lex_cmp a b = Eq -> a = b.
Proof.
  revert b. induction a as [|x a IH]; intros [|y b]; cbn [lex_cmp]; try done.
  destruct (Z.compare_spec (byte_Z x) (byte_Z y)) as [E| |]; try done. intros Hab. f_equal; [by apply byte_Z_inj|by apply IH].
Qed.
Lemma lex_cmp_antisym a b : lex_cmp b a = CompOpp (lex_cmp a b).
Proof.
  revert b. induction a as [|x a IH]; intros [|y b]; cbn [lex_cmp]; try done.
  rewrite Z.compare_antisym. destruct (byte_Z x ?= byte_Z y); [apply IH|done|done].
Qed.
Lemma lex_cmp_trans a b c : lex_cmp a b = Lt -> lex_cmp b c = Lt -> lex_cmp a c = Lt.
Proof.
  revert b c. induction a as [|x a IH]; intros [|y b] [|z c]; cbn [lex_cmp]; try done.
  destruct (Z.compare_spec (byte_Z x) (byte_Z y)), (Z.compare_spec (byte_Z y) (byte_Z z)),
    (Z.compare_spec (byte_Z x) (byte_Z z)); try done; try lia. intros. by eapply IH.
Qed.

#[export] Instance outpoint_le_total : Total outpoint_le.
Proof.
  intros a b. unfold outpoint_le. rewrite (lex_cmp_antisym (op_tx_id a)). destruct (lex_cmp _ _); simpl; [lia|by left|by right].
Qed.
#[export] Instance outpoint_le_trans : Transitive outpoint_le.
Proof.
  intros a b c. unfold outpoint_le. destruct (lex_cmp (op_tx_id a) (op_tx_id b)) eqn:E1; [|intros _|done].
  - apply lex_cmp_eq in E1 as ->. destruct (lex_cmp (op_tx_id b) (op_tx_id c)); [lia|done|done].
  - destruct (lex_cmp (op_tx_id b) (op_tx_id c)) eqn:E2; [|intros _|done].
    + apply lex_cmp_eq in E2 as <-. by rewrite E1.
    + by rewrite (lex_cmp_trans _ _ _ E1 E2).
Qed.
#[export] Instance outpoint_le_antisym : AntiSymm (=) outpoint_le.
Proof.
  intros [ta ia] [tb ib]. unfold outpoint_le. cbn [op_tx_id op_index]. rewrite (lex_cmp_antisym ta).
  destruct (lex_cmp ta tb) eqn:E; simpl; [|done|done]. apply lex_cmp_eq in E as ->. intros. f_equal. lia.
Qed.

Section Paging.
Context `{Sha2} `{StateTree}.
Variable coinbase_maturity : Z.

Definition row_of (s : UtxoSet) (current_height : Z) (op : OutPoint) : option utxo_row :=
  match utxos s !! op with
  | Some e => if mature coinbase_maturity current_height e
              then Some (op, value (output e), entry_height e, entry_coinbase e) else None
  | None => None
  end.

(** All mature rows of a script, in ascending order. *)
Definition all_rows (s : UtxoSet) (sc : bytes) (current_height : Z) : list utxo_row :=
  omap (row_of s current_height) (ascending (default ∅ (by_script s !! sc))).

Lemma scan_spec s h limit ops results :
  scan_mature coinbase_maturity s h limit ops results =
  results ++ take (Z.to_nat (Z.max 1 (limit - len results))) (omap (row_of s h) ops).
Proof.
  revert results. induction ops as [|op ops IH]; intros results; cbn [scan_mature omap list_omap].
  { by rewrite take_nil, app_nil_r. }
  unfold row_of at 1. destruct (utxos s !! op) as [e|]; [|apply IH]. destruct (mature _ _ e); [|apply IH].
  rewrite len_app. change (len [_]) with 1. set (row := (op, value (output e), entry_height e, entry_coinbase e)).
  destruct (Z.leb_spec limit (len results + 1)).
  - replace (Z.max 1 (limit - len results)) with 1 by lia. done.
  - rewrite IH, len_app. change (len [row]) with 1.
    replace (Z.to_nat (Z.max 1 (limit - len results))) with (S (Z.to_nat (Z.max 1 (limit - (len results + 1))))) by lia.
    cbn [take]. by rewrite <- app_assoc.
Qed.

Definition iter_after (after : option OutPoint) (l : list OutPoint) : list OutPoint :=
  match after with Some c => filter (fun op => ~ outpoint_le op c) l | None => l end.

Lemma paged_spec s sc h after limit :
  1 <= limit ->
  utxos_for_script_paged coinbase_maturity s sc h after limit =
  take (Z.to_nat limit) (omap (row_of s h) (iter_after after (ascending (default ∅ (by_script s !! sc))))).
Proof.
  intros Hl. unfold utxos_for_script_paged. destruct (by_script s !! sc) as [set|]; cbn [default].
  - rewrite scan_spec. change (len (@nil utxo_row)) with 0. rewrite Z.sub_0_r, Z.max_r by lia. by destruct after.
  - unfold ascending, iter_after. cbn [from_option]. rewrite elements_empty. destruct after; cbn; by rewrite take_nil.
Qed.

(** A client that asks for page after page until a short one. *)
Fixpoint walk_pages (fuel : nat) (s : UtxoSet) (sc : bytes) (h : Z) (after : option OutPoint) (limit : Z) : list utxo_row :=
  match fuel with
  | O => []
  | S fuel =>
      let page := utxos_for_script_paged coinbase_maturity s sc h after limit in
      match last page with
      | None => []
      | Some row => if len page <? limit then page else page ++ walk_pages fuel s sc h (Some row.1.1.1) limit
      end
  end.

Lemma filter_after l1 x l2 :
  StronglySorted outpoint_le (l1 ++ x :: l2) -> NoDup (l1 ++ x :: l2) ->
  filter (fun op => ~ outpoint_le op x) (l1 ++ x :: l2) = l2.
Proof.
  intros Hs Hnd. rewrite filter_app, filter_cons.
  assert (outpoint_le x x) as Hxx by (by destruct (total outpoint_le x x)).
  rewrite decide_False by tauto. apply NoDup_app in Hnd as (_ & _ & [Hx _]%NoDup_cons).
  assert (filter (fun op => ~ outpoint_le op x) l1 = []) as ->.
  { apply StronglySorted_app in Hs as (Hle & _ & _). induction l1 as [|y l1 IH]; [done|].
    rewrite filter_cons, decide_False.
    - apply IH. intros a b Ha Hb. apply Hle; [by right|done].
    - intros Hn. apply Hn, Hle; left. }
  assert (StronglySorted outpoint_le (x :: l2)) as Hs2 by (by apply StronglySorted_app in Hs as (_ & _ & ?)).
  apply StronglySorted_inv in Hs2 as [_ Hall]. cbn [app]. clear Hs. induction Hall as [|y l2 Hy _ IH]; [done|].
  rewrite filter_cons, decide_True.
  - f_equal. apply IH. intros Hin. apply Hx. by right.
  - intros Hyx. apply Hx. rewrite (anti_symm outpoint_le x y Hy Hyx). left.
Qed.

Lemma take_omap_split {A B} (f : A -> option B) n l :
  (1 <= n <= length (omap f l))%nat ->
  exists l1 x l2 b, l = l1 ++ x :: l2 /\ f x = Some b /\ take n (omap f l) = omap f l1 ++ [b] /\ drop n (omap f l) = omap f l2.
Proof.
  revert n. induction l as [|a l IH]; intros n Hn; cbn [omap list_omap] in *; [simpl in Hn; lia|].
  destruct (f a) as [b|] eqn:E; cbn [length] in Hn.
  - destruct n as [|[|n]]; [lia| |].
    + exists [], a, l, b. by rewrite take_0 || done.
    + destruct (IH (S n) ltac:(lia)) as (l1 & x & l2 & b' & -> & Hx & Ht & Hd).
      exists (a :: l1), x, l2, b'. cbn [omap list_omap take drop app]. rewrite E. split_and!; try done. by rewrite Ht.
  - destruct (IH n Hn) as (l1 & x & l2 & b' & -> & Hx & Ht & Hd). exists (a :: l1), x, l2, b'.
    cbn [omap list_omap app]. by rewrite E.
Qed.

Lemma walk_rest fuel s sc h after limit pre rest :
  let l := ascending (default ∅ (by_script s !! sc)) in
  1 <= limit -> l = pre ++ rest -> iter_after after l = rest -> (length (omap (row_of s h) rest) < fuel)%nat ->
  walk_pages fuel s sc h after limit = omap (row_of s h) rest.
Proof.
  intros l Hl. revert after pre rest. induction fuel as [|fuel IH]; intros after pre rest Hpre Hiter Hf; [lia|].
  cbn [walk_pages]. rewrite paged_spec by done. fold l. rewrite Hiter. set (rows := omap (row_of s h) rest) in *.
  destruct (decide (length rows < Z.to_nat limit)%nat) as [Hshort|Hlong].
  - rewrite take_ge by lia. destruct (last rows) as [row|] eqn:El; [|symmetry; by apply last_None].
    replace (len rows <? limit) with true by (unfold len; lia). done.
  - destruct (take_omap_split (row_of s h) (Z.to_nat limit) rest) as (r1 & x & r2 & row & Er & Hx & Ht & Hd);
      [fold rows; lia|]. fold rows in Ht, Hd. rewrite Ht, last_snoc. rewrite <- Ht.
    assert (len (take (Z.to_nat limit) rows) = limit) as -> by (unfold len; rewrite length_take; lia).
    rewrite Z.ltb_irrefl. transitivity (take (Z.to_nat limit) rows ++ drop (Z.to_nat limit) rows); [|apply take_drop].
    f_equal. rewrite Hd.
    assert (row.1.1.1 = x) as ->.
    { unfold row_of in Hx. destruct (utxos s !! x); [|done]. case_match; [|done]. by injection Hx as <-. }
    rewrite Er, app_assoc in Hpre. rewrite cons_middle, app_assoc in Hpre.
    apply (IH _ ((pre ++ r1) ++ [x])); [done| |].
    + unfold iter_after. rewrite Hpre, <- (app_assoc (pre ++ r1)). cbn [app].
      assert (StronglySorted outpoint_le l /\ NoDup l) as [Hs Hnd].
      { split; [apply (StronglySorted_merge_sort outpoint_le)|]. unfold l. rewrite ascending_perm. apply NoDup_elements. }
      rewrite Hpre, <- app_assoc in Hs, Hnd. by apply filter_after.
    + assert (length rows = Z.to_nat limit + length (omap (row_of s h) r2))%nat; [|lia].
      rewrite <- (take_drop (Z.to_nat limit) rows), length_app, Hd, length_take. lia.
Qed.
Lemma length_omap_le {A B} (f : A -> option B) l : (length (omap f l) <= length l)%nat.
Proof. induction l as [|x l IH]; cbn [omap list_omap length]; [lia|]. destruct (f x); cbn [length]; lia. Qed.

(** The rows of a strictly sorted list of outpoints. *)
Lemma rows_spec s sc h l :
  NoDup l -> StronglySorted outpoint_le l ->
  (forall op, op ∈ l <-> exists e, utxos s !! op = Some e /\ script (output e) = sc) ->
  let rows := omap (row_of s h) l in
  NoDup (map (fun row => row.1.1.1) rows) /\ StronglySorted outpoint_le (map (fun row => row.1.1.1) rows) /\
  forall row, In row rows <-> exists op e, utxos s !! op = Some e /\ script (output e) = sc /\
    mature coinbase_maturity h e = true /\ row = (op, value (output e), entry_height e, entry_coinbase e).
Proof.
  intros Hnd Hs Hmem rows.
  assert (forall row, In row rows <-> exists op, op ∈ l /\ row_of s h op = Some row) as Hin
    by (intros row; rewrite <- list_elem_of_In; unfold rows; by rewrite list_elem_of_omap).
  assert (sublist (map (fun row => row.1.1.1) rows) l) as Hsub.
  { unfold rows. clear. induction l as [|op l IH]; cbn [omap list_omap map]; [constructor|].
    destruct (row_of s h op) as [row|] eqn:E; [|by constructor]. cbn [map].
    assert (row.1.1.1 = op) as -> by (unfold row_of in E; destruct (utxos s !! op); [|done]; case_match; [|done]; by injection E as <-).
    by constructor. }
  split_and!.
  - by eapply sublist_NoDup.
  - clear Hin Hmem. induction Hsub as [|x l1 l2 Hsub IH|x l1 l2 Hsub IH].
    + constructor.
    + apply StronglySorted_inv in Hs as [Hs Hx]. apply NoDup_cons in Hnd as [_ Hnd]. constructor; [by apply IH|].
      rewrite Forall_forall in *. intros y Hy. apply Hx. by eapply sublist_subseteq.
    + apply StronglySorted_inv in Hs as [Hs _]. apply NoDup_cons in Hnd as [_ Hnd]. by apply IH.
  - intros row. rewrite Hin. setoid_rewrite Hmem. split.
    + intros (op & (e & He & Hsc) & Hrow). exists op, e. unfold row_of in Hrow. rewrite He in Hrow.
      destruct (mature _ _ _) eqn:Em; [|done]. by injection Hrow as <-.
    + intros (op & e & He & Hsc & Hm & ->). exists op. split; [by exists e|]. unfold row_of. by rewrite He, Hm.
Qed.
End Paging.

(** ** Properties *)

Section Properties.
Context `{Sha2} `{!Sha2Width} `{StateTree}.
Context {capacity : Z} {root_of : gmap bytes bytes -> bytes} `{!StateTreeLaws capacity root_of}.

(** The leaf keys of the outpoints in [D] do not collide. *)
Definition keys_distinct (D : OutPoint -> Prop) : Prop :=
  forall a b, D a -> D b -> outpoint_key a = outpoint_key b -> a = b.

(** [s] results from calls on the empty set, and [n] more tree operations fit. *)
Definition reachable (D : OutPoint -> Prop) (n : Z) (s : UtxoSet) : Prop :=
  0 <= n /\ exists cs rs, Forall (call_in D) cs /\ calls_size cs + n <= capacity /\ run_calls cs UtxoSet_new = Some (rs, s).

Lemma reachable_refines D n s : keys_distinct D -> reachable D n s -> refines D n s (utxos s).
Proof.
  intros HD (Hn0 & cs & rs & Hcs & Hn & Hrun).
  destruct (usim_calls D HD cs capacity UtxoSet_new ∅ Hcs) as (rs' & s' & u' & E1 & _ & Hr); [lia|by apply refines_new|].
  rewrite Hrun in E1. injection E1 as <- <-. pose proof Hr as (Hu & _). rewrite Hu.
  eapply refines_weaken; [|exact Hr]. lia.
Qed.

Lemma undo_room i o p : p <= i -> o + p <= 2 * (i + o) - (i + o).
Proof. lia. Qed.

Lemma entries_serializable D u : entries_ok D u -> serializable u.
Proof. intros He o e Ho. by destruct (He o e Ho). Qed.

(** C38: The UTXO set refines a plain map.  Any sequence of insertions, removals,
    applications and undos from the empty set (failing ones included) returns
    the same results as on a map and leaves the same entries; the script index
    lists exactly the entries of each script, and the state root is the root of
    the tree of the entries' leaves. *)
Theorem utxo_set_refines_map (D : OutPoint -> Prop) (cs : list UtxoCall) :
  keys_distinct D -> Forall (call_in D) cs -> calls_size cs <= capacity ->
  exists rs s (u : utxo_map), run_calls cs UtxoSet_new = Some (rs, s) /\ run_calls cs (∅ : utxo_map) = Some (rs, u) /\
    utxos s = u /\ indexes u (by_script s) /\ exists m, commits u m /\ state_root s = root_of m.
Proof.
  intros HD Hcs Hn. destruct (usim_calls D HD cs capacity UtxoSet_new ∅ Hcs Hn) as (rs & s & u & E1 & E2 & Hr);
    [by apply refines_new|].
  exists rs, s, u. split_and!; [done|done|apply Hr|apply Hr|by eapply refines_root].
Qed.

(** Reorganisation safety: undoing a transaction with the spent entries of its
    mutation log restores the set before it was applied: the same entries, the
    same script index and the same state root. *)
Theorem apply_undo_restores (D : OutPoint -> Prop) (s s' : UtxoSet) (tx : Transaction) (height : Z) (ms : list UtxoMutation) :
  keys_distinct D -> tx_in D tx -> reachable D (2 * (len (inputs tx) + len (outputs tx))) s ->
  apply_transaction tx height s = Some (Ok ms, s') ->
  exists s'', undo_transaction tx (collect_spent_utxos ms) s' = Some (Ok tt, s'') /\
    utxos s'' = utxos s /\ by_script s'' = by_script s /\ state_root s'' = state_root s.
Proof.
  intros HD Htx Hreach Happ. pose proof (reachable_refines _ _ _ HD Hreach) as Hr.
  pose proof (len_nonneg (inputs tx)). pose proof (len_nonneg (outputs tx)).
  destruct (usim_apply D HD tx height Htx (2 * (len (inputs tx) + len (outputs tx))) s (utxos s) ltac:(lia) Hr) as (r & s1 & u1 & E1 & E2 & Hr1).
  rewrite Happ in E1. injection E1 as <- <-.
  pose proof (spec_apply_undo tx height (utxos s) ms u1 (entries_serializable _ _ (proj1 (proj2 Hr))) E2) as Hundo.
  assert (Forall (fun oe => D oe.1) (collect_spent_utxos ms) /\ len (collect_spent_utxos ms) <= len (inputs tx)) as [HDs Hlen].
  { apply (spent_in_set D tx height (utxos s) ms u1); [|done]. intros o e Ho. by destruct (proj1 (proj2 Hr) o e Ho). }
  destruct (usim_undo D HD tx _ HDs _ s' u1 (undo_room _ _ _ Hlen) Hr1) as (r & s2 & u2 & E3 & E4 & Hr2).
  rewrite Hundo in E4. injection E4 as <- <-. exists s2. split; [done|]. by eapply refines_same.
Qed.

(** Failure atomicity: after [apply_transaction] with any outcome, including a
    failure half way through its inputs or outputs,
    [undo_partial_transaction] with a snapshot of the spent entries restores
    the entries, the script index and the state root, provided no output of the
    transaction was in the set beforehand. *)
Theorem undo_partial_restores (D : OutPoint -> Prop) (s s' : UtxoSet) (tx : Transaction) (height : Z)
    (r : result StateError (list UtxoMutation)) (prev : list (OutPoint * UtxoEntry)) :
  keys_distinct D -> tx_in D tx -> reachable D (2 * (len (inputs tx) + len (outputs tx)) + len prev) s ->
  is_ok (tx_id tx) = true -> outputs_fresh tx (utxos s) -> snapshot_of tx (utxos s) prev ->
  apply_transaction tx height s = Some (r, s') ->
  exists s'', undo_partial_transaction tx prev s' = Some (Ok tt, s'') /\
    utxos s'' = utxos s /\ by_script s'' = by_script s /\ state_root s'' = state_root s.
Proof.
  intros HD Htx Hreach Hid Hfresh Hsnap Happ. pose proof (reachable_refines _ _ _ HD Hreach) as Hr.
  pose proof (len_nonneg (inputs tx)). pose proof (len_nonneg (outputs tx)). pose proof (len_nonneg prev).
  set (n := 2 * (len (inputs tx) + len (outputs tx)) + len prev) in *.
  destruct (usim_apply D HD tx height Htx n s (utxos s) ltac:(lia) Hr) as (r1 & s1 & u1 & E1 & E2 & Hr1).
  rewrite Happ in E1. injection E1 as <- <-.
  pose proof (spec_undo_partial tx height (utxos s) r u1 prev (entries_serializable _ _ (proj1 (proj2 Hr))) Hid Hfresh Hsnap E2) as Hundo.
  assert (Forall (fun oe => D oe.1) prev) as HDp.
  { apply Forall_forall. intros [o e] Hoe. apply list_elem_of_In in Hoe. apply Hsnap in Hoe.
    by destruct (proj1 (proj2 Hr) o e Hoe). }
  destruct (usim_undo_partial D HD tx prev HDp (n - (len (inputs tx) + len (outputs tx))) s' u1 ltac:(lia) Hr1)
    as (r2 & s2 & u2 & E3 & E4 & Hr2).
  rewrite Hundo in E4. injection E4 as <- <-. exists s2. split; [done|]. by eapply refines_same.
Qed.

(** [balance_for_script] on the script index is the sum over the whole set of
    the values locked to the script that are spendable at the given height,
    saturating at [u64::MAX]. *)
Theorem balance_exact (D : OutPoint -> Prop) (s : UtxoSet) (coinbase_maturity : Z) (sc : bytes) (current_height : Z) :
  keys_distinct D -> reachable D 0 s -> (forall o e, utxos s !! o = Some e -> 0 <= value (output e)) ->
  balance_for_script coinbase_maturity s sc current_height =
    Z.min U64_MAX (total_spendable coinbase_maturity (utxos s) sc current_height).
Proof. intros HD Hreach Hv. apply balance_spec; [|done]. by apply (reachable_refines D 0). Qed.

(** Paging is complete: asking for page after page (of at least one row) until
    a short page yields exactly the spendable entries of the script, each once,
    in ascending order of outpoints. *)
Theorem paged_walk_complete (D : OutPoint -> Prop) (s : UtxoSet) (coinbase_maturity : Z) (sc : bytes) (current_height limit : Z)
    (fuel : nat) :
  keys_distinct D -> reachable D 0 s -> 1 <= limit ->
  let rows := walk_pages coinbase_maturity fuel s sc current_height None limit in
  (size (utxos s) < fuel)%nat ->
  NoDup (map (fun row => row.1.1.1) rows) /\ StronglySorted outpoint_le (map (fun row => row.1.1.1) rows) /\
  forall row, In row rows <-> exists op e, utxos s !! op = Some e /\ script (output e) = sc /\
    mature coinbase_maturity current_height e = true /\ row = (op, value (output e), entry_height e, entry_coinbase e).
Proof.
  intros HD Hreach Hl rows Hf. destruct (reachable_refines D 0 s HD Hreach) as (_ & _ & Hix & _). specialize (Hix sc).
  set (l := ascending (default ∅ (by_script s !! sc))).
  assert (forall op, op ∈ l <-> exists e, utxos s !! op = Some e /\ script (output e) = sc) as Hmem.
  { intros op. unfold l. rewrite ascending_perm, elem_of_elements. destruct (by_script s !! sc) as [set|]; cbn [default].
    - apply Hix.
    - split; [set_solver|]. intros (e & He & Hs). by destruct (Hix op e). }
  assert (NoDup l) as Hnd by (unfold l; rewrite ascending_perm; apply NoDup_elements).
  assert (length l <= size (utxos s))%nat as Hsize.
  { rewrite <- size_dom. rewrite <- (size_list_to_set (C := gset OutPoint) l Hnd). apply subseteq_size.
    intros op. rewrite elem_of_list_to_set, Hmem, elem_of_dom. intros (e & -> & _). done. }
  assert (rows = omap (row_of coinbase_maturity s current_height) l) as Hrows.
  { apply (walk_rest coinbase_maturity fuel s sc current_height None limit [] l); try done.
    eapply Nat.le_lt_trans; [apply length_omap_le|]. lia. }
  clearbody rows. subst rows. apply rows_spec; [done| |done]. apply (StronglySorted_merge_sort outpoint_le).
Qed.
End Properties.

(** ** Witnesses: a coinbase and a transaction that spends it *)

Definition sample_out (v : Z) (sc : bytes) : TxOutput := {| value := v; script := sc; datum := None; datum_hash := None |}.
Definition sample_coinbase : Transaction := {|
  inputs := [{| prev_tx_id := Hash256_ZERO; output_index := 0 |}];
  outputs := [sample_out 5000 [x41]]; witnesses := [{| witness := []; redeemer := None |}] |}.
Definition sample_id (tx : Transaction) : Hash256 := match @tx_id toy_digest tx with Ok id => id | Err _ => zero32 end.
Definition sample_spend : Transaction := {|
  inputs := [{| prev_tx_id := sample_id sample_coinbase; output_index := 0 |}];
  outputs := [sample_out 4000 [x42]]; witnesses := [{| witness := []; redeemer := None |}] |}.
(** A spend whose second input is missing. *)
Definition sample_bad_spend : Transaction := {|
  inputs := [{| prev_tx_id := sample_id sample_coinbase; output_index := 0 |};
             {| prev_tx_id := sample_id sample_coinbase; output_index := 1 |}];
  outputs := []; witnesses := [] |}.

Definition op_a : OutPoint := output_outpoint (sample_id sample_coinbase) 0.
Definition op_b : OutPoint := output_outpoint (sample_id sample_spend) 0.
Definition sample_D (o : OutPoint) : Prop := o = op_a \/ o = op_b.
(** A state tree that is just a map, committed to by listing it. *)
Definition list_root (m : gmap bytes bytes) : bytes := toy_digest (concat (map (fun kv => kv.1 ++ kv.2) (map_to_list m))).
Definition sample_tree : StateTree := {|
  st_tree := gmap bytes bytes; st_new := ∅; st_insert := fun k v m => Some (<[k := v]> m);
  st_remove := fun k m => Some (delete k m); st_root := list_root |}.
Lemma sample_laws : @StateTreeLaws sample_tree 1000 list_root.
Proof.
  refine (@Build_StateTreeLaws sample_tree 1000 list_root (fun t m _ => t = m) _ _ _ _); [done|..]; intros; subst; eauto.
Defined.
Definition sample_calls : list UtxoCall := [CallApply sample_coinbase 0].
Definition sample_run := @run_calls toy_digest _ (@UtxoSet_store toy_digest sample_tree) sample_calls (@UtxoSet_new sample_tree).
Definition sample_set : @UtxoSet sample_tree :=
  match sample_run with Some (_, s) => s | None => @UtxoSet_new sample_tree end.
Definition sample_entry : UtxoEntry := {| output := sample_out 5000 [x41]; entry_height := 0; entry_coinbase := true |}.

Lemma sample_keys_distinct : @keys_distinct toy_digest sample_D.
Proof.
  assert (@outpoint_key toy_digest op_a <> @outpoint_key toy_digest op_b) as Hne by (vm_compute; discriminate).
  intros a b [-> | ->] [-> | ->] E; try reflexivity; [by destruct Hne|]. destruct Hne. by symmetry.
Qed.

Lemma sample_in tx id : @tx_id toy_digest tx = Ok id -> length (outputs tx) = 1%nat ->
  sample_D (output_outpoint id 0) -> @tx_in toy_digest sample_D tx.
Proof. intros Hid Hlen HD id' i Hid' Hi. rewrite Hid in Hid'. injection Hid' as <-. rewrite Hlen in Hi. by replace i with 0%nat by lia. Qed.

Lemma sample_coinbase_in : @tx_in toy_digest sample_D sample_coinbase.
Proof. apply (sample_in sample_coinbase (sample_id sample_coinbase)); [vm_compute; reflexivity|done|by left]. Qed.
Lemma sample_spend_in : @tx_in toy_digest sample_D sample_spend.
Proof. apply (sample_in sample_spend (sample_id sample_spend)); [vm_compute; reflexivity|done|by right]. Qed.

Lemma sample_calls_in : Forall (@call_in toy_digest sample_D) sample_calls.
Proof. apply Forall_cons. split; [apply sample_coinbase_in|constructor]. Qed.

Lemma sample_run_ok : (if sample_run is Some _ then true else false) = true.
Proof. vm_compute. reflexivity. Qed.

Lemma sample_reachable n : 0 <= n <= 100 -> @reachable toy_digest sample_tree 1000 sample_D n sample_set.
Proof.
  intros Hn. split; [lia|]. pose proof sample_run_ok as Hok. unfold sample_set. exists sample_calls.
  destruct sample_run as [[rs s]|] eqn:E; [|done].
  exists rs. split; [apply sample_calls_in|]. split; [change (calls_size sample_calls) with 2; lia|]. exact E.
Qed.

Lemma utxo_set_refines_map_witness :
  exists rs s (u : utxo_map),
    @run_calls toy_digest _ (@UtxoSet_store toy_digest sample_tree) sample_calls (@UtxoSet_new sample_tree) = Some (rs, s) /\
    @run_calls toy_digest _ spec_store sample_calls (∅ : utxo_map) = Some (rs, u) /\ utxos s = u.
Proof.
  destruct (@utxo_set_refines_map toy_digest toy_digest_width sample_tree _ _ sample_laws sample_D sample_calls)
    as (rs & s & u & E1 & E2 & E3 & _);
    [exact sample_keys_distinct|exact sample_calls_in|vm_compute; discriminate|].
  exists rs, s, u. split; [exact E1|]. split; [exact E2|exact E3].
Defined.

Definition sample_apply (tx : Transaction) :=
  @apply_transaction _ (@UtxoSet_store toy_digest sample_tree) toy_digest tx 1 sample_set.
Lemma sample_apply_ok : (if sample_apply sample_spend is Some (Ok _, _) then true else false) = true.
Proof. vm_compute. reflexivity. Qed.
Lemma sample_apply_bad : (if sample_apply sample_bad_spend is Some (Err (InputNotFound _), _) then true else false) = true.
Proof. vm_compute. reflexivity. Qed.

Lemma apply_undo_restores_witness :
  exists ms s' s'', sample_apply sample_spend = Some (Ok ms, s') /\
    @undo_transaction _ (@UtxoSet_store toy_digest sample_tree) toy_digest sample_spend (collect_spent_utxos ms) s' = Some (Ok tt, s'') /\
    @state_root sample_tree s'' = @state_root sample_tree sample_set.
Proof.
  pose proof sample_apply_ok as Hok. destruct (sample_apply sample_spend) as [[[ms|e] s']|] eqn:E; [|discriminate|discriminate].
  destruct (@apply_undo_restores toy_digest toy_digest_width sample_tree _ _ sample_laws
    sample_D sample_set s' sample_spend 1 ms) as (s'' & Hs & _ & _ & Hroot);
    [exact sample_keys_distinct|exact sample_spend_in|apply sample_reachable; vm_compute; split; discriminate|exact E|].
  exists ms, s', s''. split; [reflexivity|]. split; [exact Hs|exact Hroot].
Defined.

Lemma sample_utxos : utxos sample_set = {[op_a := sample_entry]}.
Proof. apply (bool_decide_unpack _). vm_compute. exact I. Qed.

Lemma undo_partial_restores_witness :
  exists e s' s'', sample_apply sample_bad_spend = Some (Err e, s') /\
    @undo_partial_transaction _ (@UtxoSet_store toy_digest sample_tree) toy_digest sample_bad_spend [(op_a, sample_entry)] s'
      = Some (Ok tt, s'') /\
    @utxos sample_tree s'' = @utxos sample_tree sample_set.
Proof.
  pose proof sample_apply_bad as Hok. destruct (sample_apply sample_bad_spend) as [[[ms|e] s']|] eqn:E; [discriminate| |discriminate].
  destruct (@undo_partial_restores toy_digest toy_digest_width sample_tree _ _ sample_laws
    sample_D sample_set s' sample_bad_spend 1 (Err e) [(op_a, sample_entry)]) as (s'' & Hs & Hu & _ & _).
  - exact sample_keys_distinct.
  - intros id i _ Hi. apply Nat.nlt_0_r in Hi. destruct Hi.
  - apply sample_reachable; vm_compute; split; discriminate.
  - vm_compute. reflexivity.
  - intros id i _ Hi. apply Nat.nlt_0_r in Hi. destruct Hi.
  - rewrite sample_utxos. split.
    + intros o x [[= <- <-]|[]]. reflexivity.
    + intros i x [<-|[<-|[]]]; vm_compute; [intros [= <-]; by left|discriminate].
  - exact E.
  - exists e, s', s''. split; [reflexivity|]. split; [exact Hs|exact Hu].
Defined.

Lemma balance_exact_witness :
  @balance_for_script sample_tree 360 sample_set [x41] 400 =
    Z.min U64_MAX (total_spendable 360 (utxos sample_set) [x41] 400).
Proof.
  apply (@balance_exact toy_digest toy_digest_width sample_tree _ _ sample_laws sample_D sample_set 360 [x41] 400).
  - exact sample_keys_distinct.
  - apply sample_reachable. vm_compute. split; discriminate.
  - rewrite sample_utxos. intros o e He. apply lookup_singleton_Some in He as [_ <-]. vm_compute. discriminate.
Defined.

Lemma paged_walk_complete_witness :
  StronglySorted outpoint_le (map (fun row => row.1.1.1) (@walk_pages sample_tree 360 5 sample_set [x41] 400 None 1)).
Proof.
  destruct (@paged_walk_complete toy_digest toy_digest_width sample_tree _ _ sample_laws sample_D sample_set 360 [x41] 400 1 5)
    as (_ & W & _).
  - exact sample_keys_distinct.
  - apply sample_reachable. vm_compute. split; discriminate.
  - discriminate.
  - rewrite sample_utxos. apply Nat.ltb_lt. vm_compute. reflexivity.
  - exact W.
Defined.
