(* ===== verification/TxValidation.v ===== *)
(** * Transaction validation ([src/consensus/validation.rs], first part)

    The rules a transaction, a coinbase and the outputs of both must satisfy.
    The UTXO set is read through its [get] only, so the definitions take the
    lookup function.  The signature domain and the coinbase maturity are the
    process-wide values of [genesis.rs] and [types/mod.rs].  Errors keep their
    payload; the texts built with [format!] are structured values. *)

From Stdlib Require Import Strings.String.
From S2P Require Import Prelude Bytes Codec Hash Transaction Block ScriptValue ScriptAst ScriptCodec U256 Jets Typecheck ScriptCost Eval.
From S2P Require Import FeeCost Utxo.
#[local] Open Scope Z_scope.
#[local] Open Scope list_scope.

Definition DUST_THRESHOLD : Z := 200.
Definition MAX_WITNESS_SIZE : Z := 65535.
Definition MAX_SCRIPT_STEPS : Z := 4000000.
Definition MAX_TX_SCRIPT_BUDGET : Z := 20000000.

(** ** Errors *)

(** The reason of a [ScriptEvalFailed]. *)
Inductive ScriptFailure :=
| SfDeserialize (e : SerializeError)
| SfNonCanonical
| SfTypecheck
| SfDatum (msg : string)
| SfCost (e : CostError)
| SfStepCap (steps : Z)
| SfReturned (v : Value)
| SfEvaluation (e : EvalError)
| SfTxBudget (total : Z).

Inductive ValidationError :=
| InvalidVersion (v : Z)
| InvalidHeight (expected got : Z)
| InvalidPrevBlockId
| PowFailed
| InvalidDifficulty
| TimestampBelowMtp (mtp timestamp : Z)
| TimestampTooFarAhead (max timestamp : Z)
| TimestampGapTooLarge (parent timestamp : Z)
| InvalidTxRoot
| InvalidStateRoot
| NoCoinbase
| NoTransactions
| BlockTooLarge (size : Z)
| DuplicateTransaction (id : Hash256)
| DoubleSpend (op : OutPoint)
| NonCoinbaseSentinel (tx_index : Z)
| NoInputs
| NoOutputs
| UtxoNotFound (op : OutPoint)
| DuplicateInput (op : OutPoint)
| PubkeyHashMismatch (input_index : Z)
| SignatureInvalid (input_index : Z)
| WitnessInvalid (input_index : Z) (reason : string)
| OutputBelowDust (output_index value : Z)
| ValueOverflow
| InsufficientInputValue
| FeeBelowMinimum (fee min_fee : Z)
| CoinbaseImmature (op : OutPoint) (age : Z)
| TxTooLarge (size : Z)
| TxCostOverflow
| WitnessCountMismatch (inputs witnesses : Z)
| IllTypedScript (idx : Z)
| AmbiguousScript (idx : Z)
| ScriptEvalFailed (input_index : Z) (reason : ScriptFailure)
| DatumHashMismatch (idx : Z)
| WitnessOversized (input_index size : Z)
| DatumOversized (output_index size : Z)
| RedeemerOversized (input_index size : Z)
| Phase1HasRedeemer (input_index : Z)
| RewardOverflow
| ArithmeticOverflow
| StateCorrupted (reason : Corruption)
| CoinbaseBadInputCount (n : Z)
| CoinbaseBadOutputIndex (expected got : Z)
| CoinbaseHeightOverflow (height : Z)
| CoinbaseWrongReward (expected got : Z)
| CoinbaseZeroOutput (index : Z)
| CoinbaseWitnessNotEmpty
| CoinbaseHasRedeemer
| CoinbaseWitnessCountMismatch (expected got : Z)
| InputMissing (index : Z)
(** The reason of a [StateCorrupted].  [RollbackFailed e u] is the text
    "e: rollback failed: u": the rollback that should have preceded reporting
    [e] failed with [u]. *)
with Corruption :=
| CoinbaseApply (e : StateError)
| TxApply (e : StateError)
| TxApplyPartial (e partial_err : StateError)
| MissingInputUtxo (op : OutPoint)
| RollbackFailed (during : ValidationError) (undo_err : StateError).

(** ** Output scripts *)

(** [idx as u32] and [len as u64] never truncate here; [usize] is 64 bits. *)
Section Admission.
Context `{Sha2}.

Definition script_input_type : SType :=
  TProduct bytes_type (TProduct (TOption bytes_type) (TProduct (TOption bytes_type) TUnit)).

Fixpoint script_input_accepts (script_type runtime_type : SType) : bool :=
  if bool_decide (script_type = runtime_type) then true
  else if bool_decide (script_type = TUnit) then true
  else
    match script_type, runtime_type with
    | TProduct a1 a2, TProduct b1 b2 => script_input_accepts a1 b1 && script_input_accepts a2 b2
    | TSum a1 a2, TSum b1 b2 => script_input_accepts a1 b1 && script_input_accepts a2 b2
    | TList a1, TList b1 => script_input_accepts a1 b1
    | _, _ => false
    end.

(** [typed[i as usize].input_type] and [.output_type]; the indices of a checked
    program are in range ([typed_in_range]). *)
Definition typed_input (typed : list TypedNode) (i : Z) : SType :=
  match typed !! Z.to_nat i with Some t => input_type t | None => TUnit end.
Definition typed_output (typed : list TypedNode) (i : Z) : SType :=
  match typed !! Z.to_nat i with Some t => output_type t | None => TUnit end.

Definition is_unit (t : SType) : bool := bool_decide (t = TUnit).
Definition type_eqb (a b : SType) : bool := bool_decide (a = b).

(** The first pass of [strict_type_edges], on one node. *)
Definition strict_edge (typed : list TypedNode) (node : Combinator) : bool :=
  match node with
  | CComp f g => type_eqb (typed_output typed f) (typed_input typed g)
  | CCase f g => type_eqb (typed_output typed f) (typed_output typed g)
  | CPair f g =>
      let f_in := typed_input typed f in
      let g_in := typed_input typed g in
      if negb (is_unit f_in) && negb (is_unit g_in) && negb (type_eqb f_in g_in) then false
      else negb (is_unit (typed_output typed f) || is_unit (typed_output typed g))
  | CFold f z _ | CListFold f z =>
      let f_out := typed_output typed f in
      let z_out := typed_output typed z in
      negb (negb (type_eqb f_out z_out) || is_unit f_out || is_unit z_out)
  | _ => true
  end.

(** The second pass, on the node at index [i]. *)
Definition produced_type (typed : list TypedNode) (i : Z) (node : Combinator) : bool :=
  let node_out := typed_output typed i in
  if is_unit node_out then true
  else
    match node with
    | CComp _ g => type_eqb node_out (typed_output typed g)
    | CCase f g =>
        let f_out := typed_output typed f in
        let g_out := typed_output typed g in
        if is_unit f_out || is_unit g_out then false
        else type_eqb node_out f_out && type_eqb node_out g_out
    | _ => true
    end.

Fixpoint all_enum {A} (f : Z -> A -> bool) (i : Z) (xs : list A) : bool :=
  match xs with [] => true | x :: xs => f i x && all_enum f (i + 1) xs end.

Definition strict_type_edges (program : Program) (typed : list TypedNode) : bool :=
  forallb (strict_edge typed) (nodes program) && all_enum (produced_type typed) 0 (nodes program).

(** The nodes an output script may contain. *)
Definition node_admissible (node : Combinator) : bool :=
  match node with
  | CJet jet_id => is_implemented jet_id
  | CMerkleHidden _ => false
  | CConst v => lists_are_homogeneous v
  | _ => true
  end.

Definition validate_output_script (idx : Z) (output : TxOutput) : result ValidationError unit :=
  let? program := map_err (fun _ => IllTypedScript idx) (deserialize_program (script output)) in
  let? typed_nodes := map_err (fun _ => IllTypedScript idx) (typecheck program) in
  if negb (type_eqb (typed_output typed_nodes (root program)) bool_type) then Err (IllTypedScript idx)
  else if negb (strict_type_edges program typed_nodes) then Err (IllTypedScript idx)
  else if negb (forallb node_admissible (nodes program)) then Err (IllTypedScript idx)
  else if negb (script_input_accepts (typed_input typed_nodes (root program)) script_input_type) then Err (IllTypedScript idx)
  else if MAX_EVAL_DEPTH <? max_depth program then Err (IllTypedScript idx)
  else
    match compute_cost program {| input_count := 1; output_count := 1 |} with
    | Ok cost => if MAX_SCRIPT_STEPS <? steps cost then Err (IllTypedScript idx) else Ok tt
    | Err _ => Err (IllTypedScript idx)
    end.

(** Rule 12 on one output: the ambiguity guard, or the script checks. *)
Definition check_output_script (idx : Z) (output : TxOutput) : result ValidationError unit :=
  if is_phase1_script (script output) then
    if is_ok (deserialize_program (script output)) then Err (AmbiguousScript idx) else Ok tt
  else validate_output_script idx output.

Definition check_script_admissible (idx : Z) (output : TxOutput) : result ValidationError unit :=
  if len (script output) =? 0 then Err (IllTypedScript idx)
  else check_output_script idx output.

(** ** Checks on the fields of one output or witness *)

Definition check_dust (idx : Z) (o : TxOutput) : result ValidationError unit :=
  if value o <? DUST_THRESHOLD then Err (OutputBelowDust idx (value o)) else Ok tt.

Definition check_datum_size (idx : Z) (o : TxOutput) : result ValidationError unit :=
  match datum o with
  | Some d => if MAX_DATUM_SIZE <? len d then Err (DatumOversized idx (len d)) else Ok tt
  | None => Ok tt
  end.

Definition check_datum_hash (idx : Z) (o : TxOutput) : result ValidationError unit :=
  match datum o, datum_hash o with
  | Some d, Some hash => if negb (bool_decide (Hash256_sha256 d = hash)) then Err (DatumHashMismatch idx) else Ok tt
  | _, _ => Ok tt
  end.

Definition check_witness_size (idx : Z) (w : TxWitness) : result ValidationError unit :=
  if MAX_WITNESS_SIZE <? len (witness w) then Err (WitnessOversized idx (len (witness w)))
  else
    match redeemer w with
    | Some r => if MAX_REDEEMER_SIZE <? len r then Err (RedeemerOversized idx (len r)) else Ok tt
    | None => Ok tt
    end.

(** Rule 11. *)
Definition check_tx_size (tx : Transaction) : result ValidationError unit :=
  let? serialized := map_err (fun _ => TxTooLarge 0) (Transaction_serialize tx) in
  if MAX_TX_SIZE <? len serialized then Err (TxTooLarge (len serialized)) else Ok tt.

(** Rule 4. *)
Definition check_distinct_inputs (tx : Transaction) : result ValidationError unit :=
  let? _ := insert_all DuplicateInput ∅ (map input_outpoint (inputs tx)) in Ok tt.

(** [total += o.value as u128] *)
Definition sum_outputs (outs : list TxOutput) : Z :=
  fold_left (fun total o => add128 total (value o)) outs 0.
End Admission.

(** ** Spending *)

Section Spending.
Context `{Sha2} `{Ed25519} `{Layout}.

Definition resolve_datum (utxo : TxOutput) (w : TxWitness) : result string (option bytes) :=
  match datum utxo with
  | Some d =>
      match datum_hash utxo with
      | Some hash =>
          if negb (bool_decide (Hash256_sha256 d = hash)) then Err "datum_hash does not match inline datum"%string
          else Ok (Some d)
      | None => Ok (Some d)
      end
  | None =>
      match datum_hash utxo with
      | Some hash =>
          match redeemer w with
          | Some provided =>
              if MAX_DATUM_SIZE <? len provided then
                Err ("hash-committed datum exceeds MAX_DATUM_SIZE (" +:+ pretty (len provided) +:+ " > "
                       +:+ pretty MAX_DATUM_SIZE +:+ ")")
              else if bool_decide (Hash256_sha256 provided = hash) then Ok (Some provided)
              else Err "datum hash mismatch"%string
          | None => Err "datum required: output has datum_hash but no datum provided"%string
          end
      | None => Ok None
      end
  end.

Definition option_bytes (o : option bytes) : Value :=
  match o with Some r => VRight (VBytes r) | None => VLeft VUnit end.

Definition build_script_input (w : bytes) (redeemer datum : option bytes) : Value :=
  VPair (VBytes w) (VPair (option_bytes redeemer) (VPair (option_bytes datum) VUnit)).

Definition validate_phase1_input (idx : Z) (w : TxWitness) (utxo_output : TxOutput) (sig_message : bytes)
  : result ValidationError unit :=
  if negb (len (witness w) =? 96) then
    Err (WitnessInvalid idx ("witness length " +:+ pretty (len (witness w)) +:+ " != 96"))
  else if bool_decide (is_Some (redeemer w)) then Err (Phase1HasRedeemer idx)
  else
    let pubkey_bytes := slice (witness w) 0 32 in
    let sig_bytes := slice (witness w) 32 96 in
    let expected_hash := pubkey_hash_from_key pubkey_bytes in
    if negb (bool_decide (expected_hash = script utxo_output)) then Err (PubkeyHashMismatch idx)
    else if is_weak_ed25519_key pubkey_bytes then Err (SignatureInvalid idx)
    else
      match ed_key_from_bytes pubkey_bytes with
      | None => Err (SignatureInvalid idx)
      | Some verifying_key =>
          if ed_verify verifying_key sig_message sig_bytes then Ok tt else Err (SignatureInvalid idx)
      end.

Definition validate_script_input (idx : Z) (w : TxWitness) (utxo_output : TxOutput) (context : ScriptContext)
  : result ValidationError Z :=
  let? program := map_err (fun e => ScriptEvalFailed idx (SfDeserialize e)) (deserialize_program (script utxo_output)) in
  if negb (bool_decide (serialize_program program = script utxo_output)) then Err (ScriptEvalFailed idx SfNonCanonical)
  else if is_err (typecheck program) then Err (ScriptEvalFailed idx SfTypecheck)
  else
    let? datum := map_err (fun e => ScriptEvalFailed idx (SfDatum e)) (resolve_datum utxo_output w) in
    let input_value := build_script_input (witness w) (redeemer w) datum in
    let list_sizes := {| input_count := len (tx_inputs context); output_count := len (tx_outputs context) |} in
    let? cost := map_err (fun e => ScriptEvalFailed idx (SfCost e)) (compute_cost program list_sizes) in
    if MAX_SCRIPT_STEPS <? steps cost then Err (ScriptEvalFailed idx (SfStepCap (steps cost)))
    else
      let budget := Budget_new MAX_SCRIPT_STEPS (cells cost) in
      let context_with_self := with_self_index context (idx mod 2 ^ 32) in
      let (res, budget) := evaluate_with_context program input_value (witness w) budget context_with_self in
      let actual_steps := wrap64 (MAX_SCRIPT_STEPS - steps_remaining budget) in
      match res with
      | Ok v => if bool_decide (as_bool v = Some true) then Ok actual_steps else Err (ScriptEvalFailed idx (SfReturned v))
      | Err e => Err (ScriptEvalFailed idx (SfEvaluation e))
      end.
End Spending.

(** ** Transactions *)

Section Validate.
Context `{Sha2} `{Ed25519} `{Layout}.
Variable signature_domain : Hash256.
Variable coinbase_maturity : Z.

Section Lookup.
Variable utxo_get : OutPoint -> option UtxoEntry.

(** The inputs of [build_script_context], from index [i] on. *)
Fixpoint context_inputs (i : Z) (ins : list TxInput) : result ValidationError (list TxInputInfo) :=
  match ins with
  | [] => Ok []
  | input :: ins =>
      let? utxo := ok_or (utxo_get (input_outpoint input)) (InputMissing i) in
      let? rest := context_inputs (i + 1) ins in
      Ok ({| ii_prev_tx_id := prev_tx_id input; ii_output_index := output_index input;
             ii_value := value (output utxo); ii_script_hash := Hash256_sha256 (script (output utxo)) |} :: rest)
  end.

Definition build_script_context (tx : Transaction) (block_height : Z) : result ValidationError ScriptContext :=
  let? tx_inputs := context_inputs 0 (inputs tx) in
  let tx_outputs := map (fun o => {| oi_value := value o; oi_script_hash := Hash256_sha256 (script o);
                                     oi_datum_hash := datum_hash o |}) (outputs tx) in
  let? sig_hash := map_err (fun _ => TxTooLarge 0) (sig_message signature_domain tx) in
  Ok {| tx_inputs := tx_inputs; tx_outputs := tx_outputs; self_index := 0; block_height := block_height;
        sig_hash := sig_hash |}.

(** Pass 1 over the inputs: existence, maturity, values. *)
Fixpoint gather_inputs (current_height : Z) (ins : list TxInput) (total_input : Z) (input_utxos : list UtxoEntry)
  : result ValidationError (Z * list UtxoEntry) :=
  match ins with
  | [] => Ok (total_input, input_utxos)
  | input :: ins =>
      let outpoint := input_outpoint input in
      let? utxo_entry := ok_or (utxo_get outpoint) (UtxoNotFound outpoint) in
      let age := saturating_sub current_height (entry_height utxo_entry) in
      if entry_coinbase utxo_entry && (age <? coinbase_maturity) then Err (CoinbaseImmature outpoint age)
      else
        gather_inputs current_height ins (add128 total_input (value (output utxo_entry))) (input_utxos ++ [utxo_entry])
  end.

(** Pass 2 over the inputs: signatures and scripts.  [witnesses] has an element
    for each input (checked before). *)
Fixpoint check_spends (sig_message : bytes) (script_context : ScriptContext) (idx : Z)
    (spends : list (UtxoEntry * TxWitness)) (script_cost script_validation_cost : Z) : result ValidationError (Z * Z) :=
  match spends with
  | [] => Ok (script_cost, script_validation_cost)
  | (input_utxo, w) :: spends =>
      if is_phase1_script (script (output input_utxo)) then
        let? _ := validate_phase1_input idx w (output input_utxo) sig_message in
        let sig_msg_cost := wrap64 (div_ceil (len sig_message) 64 * 8) in
        check_spends sig_message script_context (idx + 1) spends
          (add128 script_cost (add128 PHASE1_SCRIPT_EVAL_COST sig_msg_cost)) script_validation_cost
      else
        let? c := validate_script_input idx w (output input_utxo) script_context in
        let script_bytes := len (script (output input_utxo)) in
        check_spends sig_message script_context (idx + 1) spends
          (add128 script_cost c) (add128 script_validation_cost (wrap64 (div_ceil script_bytes 64 * 10)))
  end.

Definition validate_transaction (tx : Transaction) (current_height : Z) : result ValidationError (Z * Z * Z) :=
  if len (inputs tx) =? 0 then Err NoInputs
  else if len (outputs tx) =? 0 then Err NoOutputs
  else if negb (len (witnesses tx) =? len (inputs tx)) then
    Err (WitnessCountMismatch (len (inputs tx)) (len (witnesses tx)))
  else
    let? _ := for_enum check_witness_size 0 (witnesses tx) in
    let? _ := for_enum check_datum_size 0 (outputs tx) in
    let? _ := check_tx_size tx in
    let? _ := check_distinct_inputs tx in
    let? _ := for_enum (fun idx o => let? _ := check_dust idx o in check_datum_hash idx o) 0 (outputs tx) in
    let? (total_input, input_utxos) := gather_inputs current_height (inputs tx) 0 [] in
    let total_output := sum_outputs (outputs tx) in
    if (U64_MAX <? total_input) || (U64_MAX <? total_output) then Err ValueOverflow
    else if total_input <? total_output then Err InsufficientInputValue
    else
      let? _ := for_enum check_output_script 0 (outputs tx) in
      let? message := map_err (fun _ => TxTooLarge 0) (sig_message signature_domain tx) in
      let? script_context := build_script_context tx current_height in
      let? (total_script_cost, total_script_validation_cost) :=
        check_spends message script_context 0 (zip input_utxos (witnesses tx)) 0 0 in
      if MAX_TX_SCRIPT_BUDGET <? total_script_cost then
        Err (ScriptEvalFailed (saturating_sub (len (inputs tx)) 1) (SfTxBudget total_script_cost))
      else
        let fee := total_input - total_output in
        let? min_fee := ok_or (min_fee_with_script_cost tx total_script_cost total_script_validation_cost) TxCostOverflow in
        if fee <? min_fee then Err (FeeBelowMinimum fee min_fee)
        else Ok (fee, total_script_cost, total_script_validation_cost).
End Lookup.

(** ** Coinbase transactions *)

(** [inputs[0]] and [witnesses[0]] are read after the length checks. *)
Definition validate_coinbase (tx : Transaction) (height expected_reward : Z) : result ValidationError unit :=
  match inputs tx with
  | [input] =>
      if negb (bool_decide (prev_tx_id input = Hash256_ZERO)) then Err (CoinbaseBadInputCount 0)
      else
        let? _ := check_tx_size tx in
        if U32_MAX <? height then Err (CoinbaseHeightOverflow height)
        else if negb (output_index input =? height) then Err (CoinbaseBadOutputIndex height (output_index input))
        else
          match witnesses tx with
          | [w] =>
              if negb (height =? 0) && negb (len (witness w) =? 0) then Err CoinbaseWitnessNotEmpty
              else if bool_decide (is_Some (redeemer w)) then Err CoinbaseHasRedeemer
              else
                let? _ := for_enum (fun idx o =>
                            let? _ := check_dust idx o in
                            let? _ := check_datum_size idx o in
                            check_datum_hash idx o) 0 (outputs tx) in
                let? _ := for_enum check_output_script 0 (outputs tx) in
                let total_output := sum_outputs (outputs tx) in
                if U64_MAX <? total_output then Err (CoinbaseWrongReward expected_reward U64_MAX)
                else if negb (total_output =? expected_reward) then Err (CoinbaseWrongReward expected_reward total_output)
                else Ok tt
          | ws => Err (CoinbaseWitnessCountMismatch 1 (len ws))
          end
  | ins => Err (CoinbaseBadInputCount (len ins))
  end.
End Validate.

(** ** Helper lemmas *)

(** A running [u128] sum of [u64] values does not wrap. *)
Lemma sum128_exact {A} (f : A -> Z) xs t :
  0 <= t -> Forall (fun x => in_u64 (f x)) xs -> t + len xs * 2 ^ 64 <= 2 ^ 128 ->
  fold_left (fun total x => add128 total (f x)) xs t = t + sum_of f xs.
Proof.
  intros Ht Hxs. revert t Ht. induction Hxs as [|x xs Hx _ IH]; intros t Ht Hb; cbn [fold_left].
  { change (sum_of f []) with 0. lia. }
  pose proof (len_nonneg xs). rewrite len_cons in Hb. unfold in_u64, U64_MAX in Hx. rewrite sum_of_cons.
  rewrite add128_small by lia. rewrite IH by lia. lia.
Qed.

Lemma check_tx_size_Ok tx :
  check_tx_size tx = Ok tt ->
  exists b, Transaction_serialize tx = Ok b /\ len b <= MAX_TX_SIZE /\ len (inputs tx) <= U16_MAX /\ len (outputs tx) <= U16_MAX.
Proof.
  unfold check_tx_size. destruct (Transaction_serialize tx) as [b|] eqn:E; [|done]. cbn [map_err].
  destruct (Z.ltb_spec MAX_TX_SIZE (len b)); [done|]. intros _. exists b. split; [done|]. split; [done|].
  unfold Transaction_serialize, serialize_header in E. inv_res. lia.
Qed.

(** What a serialisable transaction also has. *)
Lemma serialize_signing tx b : Transaction_serialize tx = Ok b -> exists s, signing_bytes tx = Ok s.
Proof. unfold Transaction_serialize, signing_bytes. intros. inv_res. eauto. Qed.
Lemma signing_tx_id `{Sha2} tx s : signing_bytes tx = Ok s -> tx_id tx = Ok (domain_hash DS_TX s).
Proof. unfold tx_id. by intros ->. Qed.
Lemma serialize_all_each {F A} (enc : A -> result F bytes) xs b :
  serialize_all enc xs = Ok b -> Forall (fun x => exists e, enc x = Ok e) xs.
Proof. revert b. induction xs as [|x xs IH]; intros b Hb; cbn [serialize_all] in Hb; [constructor|]. inv_res. constructor; eauto. Qed.
Lemma signing_outputs tx s :
  signing_bytes tx = Ok s -> Forall (fun o => exists b, TxOutput_serialize o = Ok b) (outputs tx).
Proof. unfold signing_bytes, serialize_body. intros. inv_res. by eapply serialize_all_each. Qed.

Lemma check_distinct_inputs_Ok tx :
  check_distinct_inputs tx = Ok tt <-> NoDup (map input_outpoint (inputs tx)).
Proof.
  unfold check_distinct_inputs. pose proof (insert_all_Ok DuplicateInput ∅ (map input_outpoint (inputs tx))) as Hi.
  destruct (insert_all _ _ _); cbn [is_ok] in Hi; split; try done.
  - intros _. by apply Hi.
  - intros Hnd. assert (false = true); [|done]. apply Hi. split; [done|set_solver].
Qed.

(** ** Scripts that were admitted *)

(** Not the error of a reserved jet. *)
Definition answers {A} (r : result JetError A) : bool :=
  match r with Err (JNotImplemented _) => false | _ => true end.

Ltac by_cases :=
  repeat match goal with
  | |- context [match ?x with _ => _ end] =>
      lazymatch x with context [match _ with _ => _ end] => fail | _ => destruct x end
  end; try reflexivity.

Lemma list_jets_answer items n i :
  answers (list_sum items n) = true /\ answers (list_all items) = true /\ answers (list_any items) = true /\
  answers (list_find items i) = true.
Proof.
  revert n i. induction items as [|v items IH]; intros n i; [done|]. cbn [list_sum list_all list_any list_find].
  unfold ok_or. split_and!; by_cases; first [apply (IH 0 0)|apply (IH _ 0)|apply (IH 0)].
Qed.

Lemma implemented_jet `{Sha2} `{Ed25519} j input c :
  is_implemented j = true -> answers (jet_eval j input c) = true.
Proof.
  intros Hj. destruct j; try discriminate Hj; cbn [jet_eval]; try reflexivity;
    unfold jet_sha256, jet_ed25519_verify, jet_merkle_verify, jet_add64, jet_sub64, jet_mul64, jet_div64, jet_mod64, jet_eq64,
      jet_lt64, jet_gt64, jet_add256, jet_sub256, jet_mul256, jet_div256, jet_mod256, jet_eq256, jet_lt256, jet_gt256, jet_cat,
      jet_slice, jet_len, jet_eq_bytes, jet_tx_value, jet_tx_script_hash, jet_list_len, jet_list_at, jet_list_sum,
      jet_list_all, jet_list_any, jet_list_find, extract_u64_pair, extract_u256_pair, extract_u256, to_byte_slice, ok_or;
    by_cases; apply (list_jets_answer _ 0 0).
Qed.

(** The failures that the script alone decides, whatever the witness and the
    transaction: it does not parse or type check, or its traversal is malformed. *)
Definition static_failure (r : ScriptFailure) : bool :=
  match r with
  | SfDeserialize _ | SfNonCanonical | SfTypecheck => true
  | SfEvaluation e =>
      match e with
      | RecursionDepthExceeded | ENodeOutOfBounds _ | HiddenNode | EJetError (JNotImplemented _) => true
      | _ => false
      end
  | _ => false
  end.

Lemma admissible_never `{Sha2} `{Ed25519} c node :
  node_admissible node = true -> node_never (fun e => static_failure (SfEvaluation e)) c node.
Proof.
  destruct node as [| | | | | | | | | | |j| | |]; try done. cbn [node_admissible node_never]. intros Hj input e He.
  pose proof (implemented_jet j input c Hj) as Ha. rewrite He in Ha. destruct e; done.
Qed.

(** The indices [typed_input] and [typed_output] are used at. *)
Lemma typed_in_range p ts :
  typecheck p = Ok ts ->
  is_Some (ts !! Z.to_nat (root p)) /\
  (forall i node c, nodes p !! i = Some node -> c ∈ children_of node -> is_Some (ts !! Z.to_nat c)).
Proof.
  intros Ht. assert (validate_structure p = Ok tt) as Hv.
  { unfold typecheck in Ht. destruct (validate_structure p) as [[]|]; [done|discriminate]. }
  destruct (typecheck_split p Hv) as [(e & _ & He)|(T & ts' & _ & Ht' & Hlen & _)]; [congruence|].
  rewrite Ht in Ht'. injection Ht' as <-. destruct (valid_nonempty p Hv) as [Hr Hne]. unfold len in *. split.
  - apply lookup_lt_is_Some. rewrite Hlen. destruct (nodes p); [done|]. cbn [length] in *. lia.
  - intros i node c Hi Hc. pose proof (valid_dag p Hv _ _ _ Hi Hc) as Hd. apply lookup_lt_is_Some. unfold len in *. lia.
Qed.

(** What an admitted output script is. *)
Lemma validate_output_script_Ok `{Sha2} idx o :
  validate_output_script idx o = Ok tt ->
  exists p ts cost, deserialize_program (script o) = Ok p /\ Program_wf p /\ serialize_program p = script o /\
    typecheck p = Ok ts /\ typed_output ts (root p) = bool_type /\ strict_type_edges p ts = true /\
    Forall (fun n => node_admissible n = true) (nodes p) /\
    script_input_accepts (typed_input ts (root p)) script_input_type = true /\ max_depth p <= MAX_EVAL_DEPTH /\
    compute_cost p {| input_count := 1; output_count := 1 |} = Ok cost /\ steps cost <= MAX_SCRIPT_STEPS.
Proof.
  unfold validate_output_script. intros Ho. inv_ok Ho.
  repeat match goal with E : map_err _ _ = Ok _ |- _ => apply map_err_Ok in E end.
  repeat match goal with E : negb _ = false |- _ => apply negb_false_iff in E end.
  rewrite Z.ltb_ge in *. destruct (deserialize_program_dec _ _ E) as [Hwf Hser].
  exists a, a0, a1. split_and!; try done; [by apply (bool_decide_eq_true_1 _)|].
  apply Forall_forall. intros n Hn%list_elem_of_In. rewrite forallb_forall in *. auto.
Qed.

(** ** Pass 1 and pass 2 over the inputs *)

Section Passes.
Context `{Sha2} `{Ed25519} `{Layout}.
Variable signature_domain : Hash256.
Variable coinbase_maturity : Z.
Variable utxo_get : OutPoint -> option UtxoEntry.

(** The entry an input spends, spendable at height [h]. *)
Definition spends (h : Z) (i : TxInput) (e : UtxoEntry) : Prop :=
  utxo_get (input_outpoint i) = Some e /\ mature coinbase_maturity h e = true.

Lemma gather_inputs_Ok h ins t acc total l :
  gather_inputs coinbase_maturity utxo_get h ins t acc = Ok (total, l) ->
  exists es, l = acc ++ es /\ Forall2 (spends h) ins es /\
    total = fold_left (fun total e => add128 total (value (output e))) es t.
Proof.
  revert t acc. induction ins as [|i ins IH]; intros t acc Hg; cbn [gather_inputs] in Hg.
  { injection Hg as <- <-. exists []. by rewrite app_nil_r. }
  destruct (utxo_get (input_outpoint i)) as [e|] eqn:Ei; [|done]. cbn [ok_or] in Hg.
  destruct (entry_coinbase e && _) eqn:Em; [done|]. apply IH in Hg as (es & -> & Hes & ->).
  exists (e :: es). rewrite <- app_assoc. split_and!; [done| |done]. constructor; [|done]. split; [done|].
  unfold mature. destruct (entry_coinbase e); [|done]. cbn [andb] in Em. by rewrite Z.leb_antisym, Em.
Qed.

(** Any input that is missing or immature makes pass 1 fail, with its error. *)
Lemma gather_inputs_fails h ins t acc :
  Exists (fun i => forall e, ~ spends h i e) ins ->
  exists i, i ∈ ins /\
    (gather_inputs coinbase_maturity utxo_get h ins t acc = Err (UtxoNotFound (input_outpoint i)) \/
     exists age, gather_inputs coinbase_maturity utxo_get h ins t acc = Err (CoinbaseImmature (input_outpoint i) age)).
Proof.
  intros Hex. revert t acc. induction ins as [|i ins IH]; intros t acc; [by apply Exists_nil in Hex|]. cbn [gather_inputs].
  destruct (utxo_get (input_outpoint i)) as [e|] eqn:Ei; cbn [ok_or]; [|exists i; split; [left|by left]].
  destruct (entry_coinbase e && _) eqn:Em; [exists i; split; [left|right; eauto]|].
  apply Exists_cons in Hex as [Hi|Hex].
  - destruct (Hi e). split; [done|]. unfold mature. destruct (entry_coinbase e); [|done]. cbn [andb] in Em.
    by rewrite Z.leb_antisym, Em.
  - destruct (IH Hex (add128 t (value (output e))) (acc ++ [e])) as (j & Hj & Hr). exists j. split; [by right|done].
Qed.

(** What a script sees of the transaction [tx] that spends the entries [es] in a
    block of height [h]. *)
Definition context_of (tx : Transaction) (es : list UtxoEntry) (h : Z) (message : bytes) : ScriptContext := {|
  tx_inputs := zip_with (fun i e => {| ii_prev_tx_id := prev_tx_id i; ii_output_index := output_index i;
                                       ii_value := value (output e); ii_script_hash := Hash256_sha256 (script (output e)) |}) (inputs tx) es;
  tx_outputs := map (fun o => {| oi_value := value o; oi_script_hash := Hash256_sha256 (script o); oi_datum_hash := datum_hash o |}) (outputs tx);
  self_index := 0; block_height := h; sig_hash := message |}.

Lemma context_inputs_of h ins es i infos :
  Forall2 (spends h) ins es -> context_inputs utxo_get i ins = Ok infos ->
  infos = zip_with (fun i e => {| ii_prev_tx_id := prev_tx_id i; ii_output_index := output_index i;
                                  ii_value := value (output e); ii_script_hash := Hash256_sha256 (script (output e)) |}) ins es.
Proof.
  intros Hes. revert i infos. induction Hes as [|x e ins es [He _] _ IH]; intros i infos; cbn [context_inputs zip_with]; [by intros [= <-]|].
  rewrite He. cbn [ok_or]. destruct (context_inputs utxo_get (i + 1) ins) as [rest|] eqn:Er; [|done]. intros [= <-]. f_equal. by eapply IH.
Qed.
Lemma build_context_of tx h es message ctx :
  Forall2 (spends h) (inputs tx) es -> sig_message signature_domain tx = Ok message ->
  build_script_context signature_domain utxo_get tx h = Ok ctx -> ctx = context_of tx es h message.
Proof.
  intros Hes Hm. unfold build_script_context, context_of. destruct (context_inputs utxo_get 0 (inputs tx)) as [infos|] eqn:Ei; [|done].
  rewrite Hm. cbn [map_err]. intros [= <-]. by rewrite (context_inputs_of _ _ _ _ _ Hes Ei).
Qed.

(** The owner of an entry agreed to the transaction, at the script cost [c] and the
    cost [vc] of reading the script.  Either its key signed the signing message,
    for a fixed price and 8 steps per 64 bytes of the message; or its script
    accepted in the given context, with the index of this input, for the steps
    that it took and 10 per 64 bytes of the script. *)
Definition authorised (message : bytes) (ctx : ScriptContext) (idx : Z) (e : UtxoEntry) (w : TxWitness) (c vc : Z) : Prop :=
  if is_phase1_script (script (output e)) then
    c = PHASE1_SCRIPT_EVAL_COST + wrap64 (div_ceil (len message) 64 * 8) /\ vc = 0 /\
    exists key vk sig, witness w = key ++ sig /\ len key = 32 /\ redeemer w = None /\
      pubkey_hash_from_key key = script (output e) /\ is_weak_ed25519_key key = false /\
      ed_key_from_bytes key = Some vk /\ ed_verify vk message sig = true
  else
    vc = wrap64 (div_ceil (len (script (output e))) 64 * 10) /\
    exists p datum cost v b', serialize_program p = script (output e) /\ resolve_datum (output e) w = Ok datum /\
      compute_cost p {| input_count := len (tx_inputs ctx); output_count := len (tx_outputs ctx) |} = Ok cost /\
      steps cost <= MAX_SCRIPT_STEPS /\
      evaluate_with_context p (build_script_input (witness w) (redeemer w) datum) (witness w) (Budget_new MAX_SCRIPT_STEPS (cells cost))
        (with_self_index ctx (idx mod 2 ^ 32)) = (Ok v, b') /\
      as_bool v = Some true /\ c = MAX_SCRIPT_STEPS - steps_remaining b' /\ 0 <= c <= MAX_SCRIPT_STEPS.

Lemma evaluate_steps p input w b c : 0 <= steps_remaining b ->
  0 <= steps_remaining (snd (evaluate_with_context p input w b c)) <= steps_remaining b.
Proof.
  intros Hs. unfold evaluate_with_context. destruct (typecheck p) as [ts|]; [|simpl; lia].
  pose proof (eval_node_keeps w p c ts (Z.to_nat (MAX_EVAL_DEPTH + 1)) (root p) input {| budget := b; wpos := 0 |}) as Hk.
  destruct (eval_node _ _ _ _ _ _ _ _) as [[v|e] s]; unfold state_step in Hk; simpl in Hk; [destruct (_ <? _)|]; simpl; lia.
Qed.

Lemma validate_phase1_input_Ok idx w o message :
  validate_phase1_input idx w o message = Ok tt ->
  exists key vk sig, witness w = key ++ sig /\ len key = 32 /\ redeemer w = None /\
    pubkey_hash_from_key key = script o /\ is_weak_ed25519_key key = false /\
    ed_key_from_bytes key = Some vk /\ ed_verify vk message sig = true.
Proof.
  unfold validate_phase1_input. intros Hv. inv_ok Hv. apply negb_false_iff, Z.eqb_eq in E. apply negb_false_iff, bool_decide_eq_true in E1.
  apply bool_decide_eq_false in E0. destruct (ed_key_from_bytes _) as [vk|] eqn:Ek; [|done]. inv_ok Hv.
  destruct (split_len (witness w) 32) as (key & sig & Ew & Hkey); [lia|].
  assert (slice (witness w) 0 32 = key /\ slice (witness w) 32 96 = sig) as [Hk Hs].
  { rewrite Ew in *. rewrite len_app in E. split; [by apply slice_app|by apply slice_tail]. }
  rewrite Hk, Hs in *. exists key, vk, sig. split_and!; try done. destruct (redeemer w); [|done]. destruct E0. eauto.
Qed.

Lemma validate_script_input_Ok idx w o ctx c :
  validate_script_input idx w o ctx = Ok c ->
  exists p datum cost v b', serialize_program p = script o /\ resolve_datum o w = Ok datum /\
    compute_cost p {| input_count := len (tx_inputs ctx); output_count := len (tx_outputs ctx) |} = Ok cost /\
    steps cost <= MAX_SCRIPT_STEPS /\
    evaluate_with_context p (build_script_input (witness w) (redeemer w) datum) (witness w) (Budget_new MAX_SCRIPT_STEPS (cells cost))
      (with_self_index ctx (idx mod 2 ^ 32)) = (Ok v, b') /\
    as_bool v = Some true /\ c = MAX_SCRIPT_STEPS - steps_remaining b' /\ 0 <= c <= MAX_SCRIPT_STEPS.
Proof.
  unfold validate_script_input. intros Hv. inv_ok Hv.
  match type of Hv with context [evaluate_with_context ?p ?i ?w ?b ?x] =>
    pose proof (evaluate_steps p i w b x ltac:(cbn; unfold MAX_SCRIPT_STEPS; lia)) as Hst end.
  destruct (evaluate_with_context _ _ _ _ _) as [res b'] eqn:Ee. destruct res as [v|]; [|done]. cbn [snd] in Hst.
  repeat match goal with E : map_err _ _ = Ok _ |- _ => apply map_err_Ok in E end.
  apply negb_false_iff, bool_decide_eq_true in E0. rewrite Z.ltb_ge in *. inv_ok Hv. apply bool_decide_eq_true in E5.
  change (steps_remaining (Budget_new _ _)) with MAX_SCRIPT_STEPS in Hst.
  assert (c = MAX_SCRIPT_STEPS - steps_remaining b') as ->.
  { rewrite <- Hv. unfold wrap64. apply Z.mod_small. unfold MAX_SCRIPT_STEPS in *. lia. }
  eexists _, _, _, v, b'. split_and!; [done|done|done|done|exact Ee|done|done|lia|lia].
Qed.

(** One input of pass 2. *)
Lemma check_spends_cons message ctx idx e w sp c0 vc0 r :
  check_spends message ctx idx ((e, w) :: sp) c0 vc0 = Ok r -> 0 <= vc0 < 2 ^ 128 ->
  exists c vc, authorised message ctx idx e w c vc /\ 0 <= c < 2 ^ 65 /\ 0 <= vc < 2 ^ 65 /\
    check_spends message ctx (idx + 1) sp (add128 c0 c) (add128 vc0 vc) = Ok r.
Proof.
  cbn [check_spends]. unfold authorised. intros Hc Hvc. pose proof (Z.mod_pos_bound (div_ceil (len message) 64 * 8) (2 ^ 64) ltac:(done)) as Hm.
  pose proof (Z.mod_pos_bound (div_ceil (len (script (output e))) 64 * 10) (2 ^ 64) ltac:(done)) as Hs. destruct (is_phase1_script _).
  - destruct (validate_phase1_input idx w (output e) message) as [[]|] eqn:Ep; [|done]. unfold PHASE1_SCRIPT_EVAL_COST in *. rewrite (add128_small 5000) in Hc by (unfold wrap64; lia).
    eexists _, 0. split; [split; [done|split; [done|by eapply validate_phase1_input_Ok]]|]. unfold wrap64 at 1 2. split; [lia|]. split; [lia|]. by rewrite (add128_small vc0 0), Z.add_0_r by lia.
  - destruct (validate_script_input idx w (output e) ctx) as [x|] eqn:Es; [|done]. pose proof (validate_script_input_Ok _ _ _ _ _ Es) as Hx.
    exists x. eexists. split; [split; [done|exact Hx]|]. destruct Hx as (? & ? & ? & ? & ? & _ & _ & _ & _ & _ & _ & _ & Hx). unfold MAX_SCRIPT_STEPS, wrap64 in *. split; [lia|]. split; [lia|done].
Qed.

Lemma check_spends_Ok message ctx idx sp c0 vc0 sc svc :
  check_spends message ctx idx sp c0 vc0 = Ok (sc, svc) -> 0 <= c0 -> 0 <= vc0 -> c0 + len sp * 2 ^ 65 < 2 ^ 128 -> vc0 + len sp * 2 ^ 65 < 2 ^ 128 ->
  exists costs, length costs = length sp /\ sc = c0 + sum_of fst costs /\ svc = vc0 + sum_of snd costs /\
    forall k e w, sp !! k = Some (e, w) -> exists c vc, costs !! k = Some (c, vc) /\ authorised message ctx (idx + Z.of_nat k) e w c vc.
Proof.
  revert idx c0 vc0. induction sp as [|[e w] sp IH]; intros idx c0 vc0 Hc Hc0 Hv0 Hlc Hlv.
  { injection Hc as <- <-. exists []. split; [done|]. change (sum_of fst []) with 0. change (sum_of snd []) with 0. split_and!; [lia|lia|done]. }
  pose proof (len_nonneg sp). rewrite len_cons in *. apply check_spends_cons in Hc as (c & vc & Ha & Hc1 & Hvc1 & Hc); [|lia].
  rewrite !add128_small in Hc by lia. apply IH in Hc as (costs & Hlen & -> & -> & Hall); [|lia..].
  exists ((c, vc) :: costs). rewrite !sum_of_cons. cbn [length fst snd]. split_and!; [lia|lia|lia|]. intros [|k] e' w' Hk; cbn [lookup list_lookup] in *.
  - injection Hk as <- <-. exists c, vc. by rewrite Z.add_0_r.
  - replace (idx + Z.of_nat (S k)) with (idx + 1 + Z.of_nat k) by lia. by apply Hall.
Qed.
End Passes.

(** ** The rules *)

Section Rules.
Context `{Sha2} `{Ed25519} `{Layout}.
Variable signature_domain : Hash256.
Variable coinbase_maturity : Z.

Definition check_dust_and_hash (idx : Z) (o : TxOutput) : result ValidationError unit :=
  let? _ := check_dust idx o in check_datum_hash idx o.

(** The checks of [validate_transaction] that do not read the UTXO set. *)
Definition standalone_rules (tx : Transaction) : Prop :=
  inputs tx <> [] /\ outputs tx <> [] /\ len (witnesses tx) = len (inputs tx) /\
  for_enum check_witness_size 0 (witnesses tx) = Ok tt /\ for_enum check_datum_size 0 (outputs tx) = Ok tt /\
  check_tx_size tx = Ok tt /\ check_distinct_inputs tx = Ok tt /\
  for_enum check_dust_and_hash 0 (outputs tx) = Ok tt /\ for_enum check_output_script 0 (outputs tx) = Ok tt.

Lemma validate_transaction_inv utxo_get tx h fee sc svc :
  validate_transaction signature_domain coinbase_maturity utxo_get tx h = Ok (fee, sc, svc) ->
  standalone_rules tx /\
  exists es message ctx m,
    Forall2 (spends coinbase_maturity utxo_get h) (inputs tx) es /\
    let total_input := fold_left (fun total e => add128 total (value (output e))) es 0 in
    total_input <= U64_MAX /\ sum_outputs (outputs tx) <= U64_MAX /\ sum_outputs (outputs tx) <= total_input /\
    fee = total_input - sum_outputs (outputs tx) /\
    sig_message signature_domain tx = Ok message /\
    build_script_context signature_domain utxo_get tx h = Ok ctx /\
    check_spends message ctx 0 (zip es (witnesses tx)) 0 0 = Ok (sc, svc) /\ sc <= MAX_TX_SCRIPT_BUDGET /\
    min_fee_with_script_cost tx sc svc = Some m /\ m <= fee.
Proof.
  unfold validate_transaction. intros Hv.
  destruct (Z.eqb_spec (len (inputs tx)) 0) as [|Hi]; [done|]. destruct (Z.eqb_spec (len (outputs tx)) 0) as [|Ho]; [done|].
  destruct (Z.eqb_spec (len (witnesses tx)) (len (inputs tx))) as [Hw|]; [|done]. cbn [negb] in Hv.
  do 5 (match type of Hv with match ?c with Ok _ => _ | Err _ => _ end = _ => destruct c as [[]|] eqn:?; [|done] end).
  destruct (gather_inputs _ _ _ _ _ _) as [[total es]|] eqn:Eg; [|done].
  apply gather_inputs_Ok in Eg as (es' & -> & Hes & ->). cbn [app] in Hv.
  destruct (_ || _) eqn:Eo; [done|]. apply orb_false_iff in Eo as [E1 E2]. rewrite Z.ltb_ge in E1, E2.
  destruct (Z.ltb_spec (fold_left (fun total e => add128 total (value (output e))) es' 0) (sum_outputs (outputs tx))) as [|E3]; [done|].
  match type of Hv with match ?c with Ok _ => _ | Err _ => _ end = _ => destruct c as [[]|] eqn:?; [|done] end.
  destruct (sig_message signature_domain tx) as [message|] eqn:Em; [|done]. cbn [map_err] in Hv.
  destruct (build_script_context _ _ _ _) as [ctx|] eqn:Ec; [|done].
  destruct (check_spends _ _ _ _ _ _) as [[c vc]|] eqn:Es; [|done]. destruct (Z.ltb_spec MAX_TX_SCRIPT_BUDGET c) as [|Eb]; [done|].
  destruct (min_fee_with_script_cost tx c vc) as [m|] eqn:Ef; [|done]. cbn [ok_or] in Hv.
  destruct (Z.ltb_spec (fold_left (fun total e => add128 total (value (output e))) es' 0 - sum_outputs (outputs tx)) m) as [|Efm]; [done|].
  injection Hv as <- <- <-. split.
  - repeat split; try done; [intros En; by rewrite En in Hi|intros En; by rewrite En in Ho].
  - exists es', message, ctx, m. cbv zeta. split_and!; done.
Qed.

Definition output_rules (o : TxOutput) : Prop :=
  DUST_THRESHOLD <= value o /\ (forall d, datum o = Some d -> len d <= MAX_DATUM_SIZE) /\
  (forall d hash, datum o = Some d -> datum_hash o = Some hash -> Hash256_sha256 d = hash) /\
  exists idx, check_output_script idx o = Ok tt.

Lemma standalone_outputs tx : standalone_rules tx -> Forall output_rules (outputs tx).
Proof.
  intros (_ & _ & _ & _ & Hd & _ & _ & Hu & Hs). rewrite for_enum_Ok in Hd, Hu, Hs. apply Forall_lookup. intros k o Hk.
  specialize (Hd k o Hk). specialize (Hu k o Hk). specialize (Hs k o Hk). unfold check_datum_size in Hd.
  unfold check_dust_and_hash, check_dust, check_datum_hash in Hu. destruct (Z.ltb_spec (value o) DUST_THRESHOLD); [done|].
  split_and!; [done| | |eauto].
  - intros d Ed. rewrite Ed in Hd. destruct (Z.ltb_spec MAX_DATUM_SIZE (len d)); [done|lia].
  - intros d hash Ed Eh. rewrite Ed, Eh in Hu. destruct (bool_decide _) eqn:Eb; [|done]. by apply bool_decide_eq_true in Eb.
Qed.

(** Amounts are [u64] values. *)
Definition amounts_ok (outs : list TxOutput) : Prop := Forall (fun o => in_u64 (value o)) outs.

Lemma sum_outputs_exact outs : amounts_ok outs -> len outs <= U16_MAX -> sum_outputs outs = sum_of value outs.
Proof. intros Ha Hl. unfold sum_outputs. rewrite sum128_exact; [done|done|done|]. unfold U16_MAX in Hl. lia. Qed.

(** The fee of an accepted transaction, in exact integers. *)
Lemma accepted_fee utxo_get tx h fee sc svc :
  (forall op e, utxo_get op = Some e -> in_u64 (value (output e))) -> amounts_ok (outputs tx) ->
  validate_transaction signature_domain coinbase_maturity utxo_get tx h = Ok (fee, sc, svc) ->
  exists es, Forall2 (spends coinbase_maturity utxo_get h) (inputs tx) es /\
    sum_of (fun e => value (output e)) es = sum_of value (outputs tx) + fee /\ 0 <= fee <= U64_MAX.
Proof.
  intros Hget Hout Hv. apply validate_transaction_inv in Hv as (Hst & es & message & ctx & m & Hes & Hti & Hto & Hle & Hfee & _).
  destruct Hst as (_ & _ & _ & _ & _ & Hsz & _). apply check_tx_size_Ok in Hsz as (b & _ & _ & Hi & Ho).
  assert (Forall (fun e => in_u64 (value (output e))) es) as Hes64.
  { clear -Hes Hget. induction Hes as [|i e ins es [He _] _ IH]; constructor; eauto. }
  assert (len es = len (inputs tx)) as Hlen by (unfold len; f_equal; symmetry; by eapply Forall2_length).
  exists es. split; [done|]. rewrite sum_outputs_exact in * by done.
  rewrite (sum128_exact (fun e => value (output e))) in Hti, Hle, Hfee by (done || unfold U16_MAX in Hi; lia).
  assert (0 <= sum_of value (outputs tx)) by (apply sum_of_nonneg; eapply Forall_impl; [exact Hout|by intros o [? _]]).
  lia.
Qed.

(** C9: Accepted transactions keep the rules.  Every input spends a different
    entry of the set that is mature at the given height and whose owner agreed: a
    signature of the signing message by the key the output pays to, or an accepting
    run of its script, within the step cap, in the context of this transaction (the
    entries it spends, its outputs, this height, its signing message and the index
    of the input).  The script costs that are charged are the sums over the inputs
    of what each signature or run cost.  The inputs' values are exactly the outputs'
    plus the fee, without overflow; the fee is at least the minimum for these costs,
    which are within the budget; and every output has at least the dust value, a
    datum within its limit that matches its hash, and an admissible script. *)
Theorem validate_transaction_sound utxo_get tx h fee sc svc :
  (forall op e, utxo_get op = Some e -> in_u64 (value (output e))) -> amounts_ok (outputs tx) ->
  validate_transaction signature_domain coinbase_maturity utxo_get tx h = Ok (fee, sc, svc) ->
  exists es message costs m,
    Forall2 (fun i e => utxo_get (input_outpoint i) = Some e /\ mature coinbase_maturity h e = true) (inputs tx) es /\
    NoDup (map input_outpoint (inputs tx)) /\
    sum_of (fun e => value (output e)) es = sum_of value (outputs tx) + fee /\ 0 <= fee <= U64_MAX /\
    sig_message signature_domain tx = Ok message /\
    length (witnesses tx) = length (inputs tx) /\ length costs = length (inputs tx) /\
    (forall k e w, es !! k = Some e -> witnesses tx !! k = Some w ->
       exists c vc, costs !! k = Some (c, vc) /\ authorised message (context_of tx es h message) (Z.of_nat k) e w c vc) /\
    sc = sum_of fst costs /\ svc = sum_of snd costs /\
    sc <= MAX_TX_SCRIPT_BUDGET /\ min_fee_with_script_cost tx sc svc = Some m /\ m <= fee /\
    Forall output_rules (outputs tx).
Proof.
  intros Hget Hout Hv. destruct (accepted_fee _ _ _ _ _ _ Hget Hout Hv) as (es & Hes & Hsum & Hfee).
  apply validate_transaction_inv in Hv as (Hst & es' & message & ctx & m & Hes' & _ & _ & _ & _ & Hm & Hctx & Hsp & Hb & Hmf & Hle).
  assert (es' = es) as ->.
  { clear -Hes Hes'. revert es Hes. induction Hes' as [|i e ins es' [He _] _ IH]; intros es Hes; inversion Hes as [|? e2 ? es2 [He2 _]]; [done|].
    subst. f_equal; [congruence|by apply IH]. }
  apply (build_context_of _ _ _ _ _ _ _ _ Hes Hm) in Hctx as ->.
  pose proof (Forall2_length _ _ _ Hes) as Hlen. assert (length (witnesses tx) = length (inputs tx)) as Hw by (destruct Hst as (_ & _ & Hw & _); unfold len in Hw; lia).
  assert (len (zip es (witnesses tx)) <= U16_MAX) as Hzip.
  { destruct Hst as (_ & _ & _ & _ & _ & Hsz & _). apply check_tx_size_Ok in Hsz as (b & _ & _ & Hi & _). unfold len in *. rewrite length_zip_with. lia. }
  unfold U16_MAX in Hzip. pose proof (len_nonneg (zip es (witnesses tx))).
  destruct (check_spends_Ok _ _ _ _ _ _ _ _ Hsp) as (costs & Hcl & -> & -> & Hall); [lia..|].
  exists es, message, costs, m. rewrite !Z.add_0_l in *. split_and!; try done; try lia.
  - apply check_distinct_inputs_Ok. apply Hst.
  - rewrite Hcl, length_zip_with. lia.
  - intros k e w He Hwk. destruct (Hall k e w) as (c & vc & Hk & Ha); [by rewrite lookup_zip_with, He, Hwk|]. exists c, vc. split; [done|]. by rewrite Z.add_0_l in Ha.
  - by apply standalone_outputs.
Qed.
End Rules.

(** ** Rejections *)

(** The errors of pass 2 and of what follows it. *)
Definition needs_pass2 (e : ValidationError) : bool :=
  match e with
  | PubkeyHashMismatch _ | SignatureInvalid _ | WitnessInvalid _ _ | Phase1HasRedeemer _ | ScriptEvalFailed _ _
  | TxCostOverflow | FeeBelowMinimum _ _ => true
  | _ => false
  end.

Lemma check_spends_Err `{Sha2} `{Ed25519} `{Layout} message ctx idx sp c vc e :
  check_spends message ctx idx sp c vc = Err e -> needs_pass2 e = true.
Proof.
  revert idx c vc. induction sp as [|[e0 w0] sp IH]; intros idx c vc; cbn [check_spends]; [done|].
  destruct (is_phase1_script _).
  - destruct (validate_phase1_input _ _ _ _) as [[]|e'] eqn:Ep; [apply IH|]. intros [= <-].
    unfold validate_phase1_input in Ep. repeat case_match; simplify_eq; done.
  - destruct (validate_script_input _ _ _ _) as [x|e'] eqn:Ep; [apply IH|]. intros [= <-].
    unfold validate_script_input, map_err in Ep. repeat case_match; simplify_eq; done.
Qed.

Lemma for_enum_fails {E A} (check : Z -> A -> result E unit) i xs :
  Exists (fun x => forall i, check i x <> Ok tt) xs -> exists k x e, check k x = Err e /\ for_enum check i xs = Err e.
Proof.
  intros Hex. destruct (for_enum check i xs) as [[]|e] eqn:Ef.
  - rewrite for_enum_Ok in Ef. apply Exists_exists in Hex as (x & Hx & Hn). apply list_elem_of_lookup in Hx as [k Hk].
    by destruct (Hn (i + Z.of_nat k)); apply Ef.
  - apply for_enum_Err in Ef as (k & x & _ & Hk & _). eauto.
Qed.

(** An error with which the loop over the outputs can end. *)
Lemma check_output_script_Err `{Sha2} idx o e : check_output_script idx o = Err e -> needs_pass2 e = false.
Proof.
  unfold check_output_script, validate_output_script, map_err. intros He. repeat case_match; simplify_eq; done.
Qed.

Section Rejections.
Context `{Sha2}.
Variable signature_domain : Hash256.
Variable coinbase_maturity : Z.
Variable utxo_get : OutPoint -> option UtxoEntry.

(** What pass 1 establishes, or the error it ends in: the part of
    [validate_transaction] before the first signature or script is run. *)
Definition pass1 (tx : Transaction) (h : Z) : result ValidationError (list UtxoEntry * Z * bytes * ScriptContext) :=
  if len (inputs tx) =? 0 then Err NoInputs
  else if len (outputs tx) =? 0 then Err NoOutputs
  else if negb (len (witnesses tx) =? len (inputs tx)) then
    Err (WitnessCountMismatch (len (inputs tx)) (len (witnesses tx)))
  else
    let? _ := for_enum check_witness_size 0 (witnesses tx) in
    let? _ := for_enum check_datum_size 0 (outputs tx) in
    let? _ := check_tx_size tx in
    let? _ := check_distinct_inputs tx in
    let? _ := for_enum check_dust_and_hash 0 (outputs tx) in
    let? (total_input, input_utxos) := gather_inputs coinbase_maturity utxo_get h (inputs tx) 0 [] in
    let total_output := sum_outputs (outputs tx) in
    if (U64_MAX <? total_input) || (U64_MAX <? total_output) then Err ValueOverflow
    else if total_input <? total_output then Err InsufficientInputValue
    else
      let? _ := for_enum check_output_script 0 (outputs tx) in
      let? message := map_err (fun _ => TxTooLarge 0) (sig_message signature_domain tx) in
      let? ctx := build_script_context signature_domain utxo_get tx h in
      Ok (input_utxos, total_input - total_output, message, ctx).

Definition pass2 `{Ed25519} `{Layout} (tx : Transaction) (es : list UtxoEntry) (fee : Z) (message : bytes) (ctx : ScriptContext)
  : result ValidationError (Z * Z * Z) :=
  let? (sc, svc) := check_spends message ctx 0 (zip es (witnesses tx)) 0 0 in
  if MAX_TX_SCRIPT_BUDGET <? sc then Err (ScriptEvalFailed (saturating_sub (len (inputs tx)) 1) (SfTxBudget sc))
  else
    let? min_fee := ok_or (min_fee_with_script_cost tx sc svc) TxCostOverflow in
    if fee <? min_fee then Err (FeeBelowMinimum fee min_fee) else Ok (fee, sc, svc).

Lemma validate_passes `{Ed25519} `{Layout} tx h :
  validate_transaction signature_domain coinbase_maturity utxo_get tx h =
  let? (es, fee, message, ctx) := pass1 tx h in pass2 tx es fee message ctx.
Proof.
  unfold pass1, pass2, validate_transaction. fold check_dust_and_hash.
  repeat match goal with
  | |- context [if ?c then Err _ else _] => lazymatch c with context [match _ with _ => _ end] => fail | _ => destruct c; [done|] end
  | |- context [match ?c with Ok _ => _ | Err _ => Err _ end] =>
      lazymatch c with context [match _ with _ => _ end] => fail | check_spends _ _ _ _ _ _ => fail | _ => destruct c as [?|?]; [|done] end
  | |- context [let '(_, _) := ?p in _] => destruct p
  end; done.
Qed.

Lemma pass2_Err `{Ed25519} `{Layout} tx es fee message ctx e :
  pass2 tx es fee message ctx = Err e -> needs_pass2 e = true.
Proof.
  unfold pass2. destruct (check_spends _ _ _ _ _ _) as [[sc svc]|e'] eqn:Es.
  - unfold ok_or. intros He. repeat case_match; simplify_eq; done.
  - intros [= <-]. by eapply check_spends_Err.
Qed.

(** A transaction that no witness can save: an input that is missing or not yet
    spendable, or an output whose script is not admissible. *)
Definition hopeless (tx : Transaction) (h : Z) : Prop :=
  Exists (fun i => forall e, ~ spends coinbase_maturity utxo_get h i e) (inputs tx) \/
  Exists (fun o => forall idx, check_output_script idx o <> Ok tt) (outputs tx).

Lemma pass1_hopeless tx h : hopeless tx h -> exists e, pass1 tx h = Err e.
Proof.
  intros Hh. unfold pass1.
  repeat match goal with
  | |- context [if ?c then Err _ else _] => lazymatch c with context [match _ with _ => _ end] => fail | _ => destruct c; [eauto|] end
  | |- context [match ?c with Ok _ => _ | Err _ => Err _ end] =>
      lazymatch c with
      | context [match _ with _ => _ end] => fail | gather_inputs _ _ _ _ _ _ => fail | for_enum check_output_script _ _ => fail
      | build_script_context _ _ _ _ => fail | map_err _ (sig_message _ _) => fail
      | _ => destruct c as [?|?]; [|eauto] end
  end.
  destruct Hh as [Hin|Hout].
  - destruct (gather_inputs_fails coinbase_maturity utxo_get h (inputs tx) 0 [] Hin) as (i & _ & [->|[age ->]]); eauto.
  - destruct (gather_inputs _ _ _ _ _ _) as [[total es]|]; [|eauto]. destruct (_ || _); [eauto|]. destruct (_ <? _); [eauto|].
    destruct (for_enum_fails check_output_script 0 (outputs tx) Hout) as (k & o & e & _ & ->). eauto.
Qed.

(** Cheap rejections come first.  A hopeless transaction (an input missing or
    immature, or an inadmissible output script) is rejected with an error that
    does not depend on the signature scheme, the evaluator's memory layout or
    any witness check; and an error of pass 1 is always the same whatever those
    are, so no signature or script can have been run before it. *)
Theorem cheap_rejections_first tx h :
  (hopeless tx h -> exists e, forall (ed : Ed25519) (layout : Layout),
     validate_transaction signature_domain coinbase_maturity utxo_get tx h = Err e) /\
  (forall (ed1 ed2 : Ed25519) (l1 l2 : Layout) e, needs_pass2 e = false ->
     @validate_transaction _ ed1 l1 signature_domain coinbase_maturity utxo_get tx h = Err e ->
     @validate_transaction _ ed2 l2 signature_domain coinbase_maturity utxo_get tx h = Err e).
Proof.
  split.
  - intros [e He]%pass1_hopeless. exists e. intros ed layout. by rewrite validate_passes, He.
  - intros ed1 ed2 l1 l2 e Hn. rewrite !validate_passes. destruct (pass1 tx h) as [[[[es fee] message] ctx]|e']; [|done].
    intros He%pass2_Err. congruence.
Qed.
End Rejections.

(** C36: Admission makes scripts runnable.  Spending an output whose script was
    admitted can only fail for reasons of the spend: the datum, the cost with
    this transaction's list sizes, the budget, types or jet errors on the given
    values, or a result other than true; never because the script does not
    parse, is not canonical, is ill-typed, is too deep, has a hidden node, an
    index out of range or a jet that is not implemented. *)
Theorem admitted_script_runnable `{Sha2} `{Ed25519} `{Layout} (idx0 idx : Z) (o : TxOutput) (w : TxWitness) (ctx : ScriptContext)
    (e : ValidationError) :
  validate_output_script idx0 o = Ok tt -> validate_script_input idx w o ctx = Err e ->
  exists r, e = ScriptEvalFailed idx r /\ static_failure r = false.
Proof.
  intros (p & ts & cost & Hd & (_ & _ & [Hroot _] & _) & Hser & Ht & _ & _ & Hadm & _ & Hdepth & _)%validate_output_script_Ok.
  unfold validate_script_input. rewrite Hd. cbn [map_err]. rewrite Hser, bool_decide_true by done. cbn [negb].
  rewrite Ht. cbn [is_err is_ok negb]. destruct (resolve_datum o w) as [d|]; cbn [map_err]; [|intros [= <-]; eauto].
  destruct (compute_cost _ _) as [c|]; cbn [map_err]; [|intros [= <-]; eauto]. destruct (_ <? _); [intros [= <-]; eauto|].
  destruct (evaluate_with_context _ _ _ _ _) as [[v|ev] b'] eqn:Ee.
  - case_match; intros [= <-]. eauto.
  - intros [= <-]. eexists. split; [done|].
    eapply (evaluate_never (fun e => static_failure (SfEvaluation e)) ltac:(by intros []) p _ _ _ _ ev Hroot Hdepth);
      [|by rewrite Ee].
    eapply Forall_impl; [exact Hadm|]. intros node. apply admissible_never.
Qed.

(** ** Witnesses: a signed payment *)

Definition sample_key : bytes := replicate 32 x07.
Definition sample_domain : Hash256 := replicate 32 x01.
Definition payment_entry : UtxoEntry := {|
  output := {| value := 100000; script := @pubkey_hash_from_key toy_digest sample_key; datum := None; datum_hash := None |};
  entry_height := 5; entry_coinbase := true |}.
Definition payment : Transaction := {|
  inputs := [{| prev_tx_id := replicate 32 x02; output_index := 0 |}];
  outputs := [{| value := 60000; script := @pubkey_hash_from_key toy_digest sample_key; datum := None; datum_hash := None |}];
  witnesses := [{| witness := sample_key ++ replicate 64 x00; redeemer := None |}] |}.
Definition payment_get (op : OutPoint) : option UtxoEntry :=
  if bool_decide (op = {| op_tx_id := replicate 32 x02; op_index := 0 |}) then Some payment_entry else None.
Definition payment_result (h : Z) := @validate_transaction toy_digest toy_ed25519 toy_layout sample_domain 360 payment_get payment h.

Lemma payment_get_u64 op e : payment_get op = Some e -> in_u64 (value (output e)).
Proof. unfold payment_get. case_bool_decide; [|done]. intros [= <-]. done. Qed.
Example payment_accepted : payment_result 400 = Ok (40000, 5016, 0).
Proof. vm_compute. reflexivity. Qed.

Lemma validate_transaction_sound_witness :
  exists es, Forall2 (fun i e => payment_get (input_outpoint i) = Some e /\ mature 360 400 e = true) (inputs payment) es /\
    sum_of (fun e => value (output e)) es = sum_of value (outputs payment) + 40000.
Proof.
  destruct (@validate_transaction_sound toy_digest toy_ed25519 toy_layout sample_domain 360 payment_get payment 400 40000 5016 0)
    as (es & _ & _ & _ & H1 & _ & H2 & _).
  - exact payment_get_u64.
  - apply Forall_cons. split; [vm_compute; split; discriminate|constructor].
  - exact payment_accepted.
  - exists es. split; [exact H1|exact H2].
Defined.

(** Before its maturity the payment is hopeless. *)
Lemma cheap_rejections_first_witness :
  exists e, @validate_transaction toy_digest toy_ed25519 toy_layout sample_domain 360 payment_get payment 300 = Err e.
Proof.
  destruct (@cheap_rejections_first toy_digest sample_domain 360 payment_get payment 300) as [W _].
  destruct W as [e He].
  - left. apply Exists_cons. left. intros e [He Hm]. vm_compute in He. injection He as <-. vm_compute in Hm. discriminate Hm.
  - exists e. apply He.
Defined.

(** An output anybody can spend, and a spend with a witness byte too many. *)
Definition open_output : TxOutput := {|
  value := 60000; script := serialize_program (Program_single (CConst (VBool true))); datum := None; datum_hash := None |}.
Definition padded_witness : TxWitness := {| witness := [x00]; redeemer := None |}.
Example open_output_admitted : @validate_output_script 0 open_output = Ok tt.
Proof. vm_compute. reflexivity. Qed.

Lemma admitted_script_runnable_witness :
  exists r, ScriptEvalFailed 0 (SfEvaluation (WitnessError (Unconsumed 0 1))) = ScriptEvalFailed 0 r /\ static_failure r = false.
Proof.
  apply (@admitted_script_runnable toy_digest toy_ed25519 toy_layout 0 0 open_output padded_witness ScriptContext_empty);
    [exact open_output_admitted | vm_compute; reflexivity].
Defined.
