(* ===== verification/BlockValidation.v ===== *)
(** * Block validation ([src/consensus/validation.rs], second part)

    Header rules, the structural pre-check, and the application of a block to
    the UTXO set with its rollback.  As in [Utxo], a computation returns the
    state also on errors, and [None] is a panic.  The application is written
    over a store with a lookup ([UtxoStore], [UtxoGet]), so that the same text
    runs on [UtxoSet] and on its specification, a plain map. *)

From Stdlib Require Import Strings.String.
From S2P Require Import Prelude Bytes Codec Hash Transaction Block U256 Difficulty Reward.
From S2P Require Import ScriptValue Jets ScriptCost Eval FeeCost Smt Utxo TxValidation.
#[local] Open Scope Z_scope.
#[local] Open Scope list_scope.

Definition VERSION : Z := 1.
Definition MAX_TIMESTAMP_DRIFT : Z := 120.
Definition MAX_TIMESTAMP_GAP : Z := 604800.
Definition MAX_SPENT_UTXOS_SIZE : Z := 16777216.

(** ** Headers *)

Section Headers.
Context `{Sha2} `{Argon2}.

(** [wtx_ids.push(tx.wtx_id()?)] for each transaction *)
Fixpoint wtx_ids (txs : list Transaction) : result SerError (list Hash256) :=
  match txs with
  | [] => Ok []
  | tx :: txs => let? id := wtx_id tx in let? ids := wtx_ids txs in Ok (id :: ids)
  end.
Definition compute_tx_root (txs : list Transaction) : result SerError Hash256 :=
  let? ids := wtx_ids txs in Ok (merkle_root DS_TXROOT ids).

(** [sorted[sorted.len() / 2]]; a panic ([None]) on an empty slice *)
Definition median_time_past (timestamps : list Z) : option Z :=
  let sorted := merge_sort Z.le timestamps in sorted !! (length sorted / 2)%nat.

(** Rule 14: the identifiers of the transactions are distinct. *)
Fixpoint check_tx_ids (seen : gset Hash256) (txs : list Transaction) : result ValidationError unit :=
  match txs with
  | [] => Ok tt
  | tx :: txs =>
      let? id := map_err (fun _ => TxTooLarge 0) (tx_id tx) in
      if bool_decide (id ∈ seen) then Err (DuplicateTransaction id) else check_tx_ids ({[id]} ∪ seen) txs
  end.

Definition check_height (h : BlockHeader) (parent : option BlockHeader) : result ValidationError unit :=
  match parent with
  | Some p =>
      let? expected := ok_or (checked_add U64_MAX (height p) 1) ArithmeticOverflow in
      if negb (height h =? expected) then Err (InvalidHeight expected (height h)) else Ok tt
  | None => if negb (height h =? 0) then Err (InvalidHeight 0 (height h)) else Ok tt
  end.

Definition check_prev_block (h : BlockHeader) (parent : option BlockHeader) : result ValidationError unit :=
  let expected := match parent with Some p => block_id p | None => Hash256_ZERO end in
  if negb (bool_decide (prev_block_id h = expected)) then Err InvalidPrevBlockId else Ok tt.

(** Rules 7, 8 and 9. *)
Definition check_timestamp (h : BlockHeader) (parent : option BlockHeader) (ancestor_timestamps : list Z) (wall_clock : option Z)
  : result ValidationError unit :=
  let? _ := match median_time_past ancestor_timestamps with
            | Some mtp => if timestamp h <=? mtp then Err (TimestampBelowMtp mtp (timestamp h)) else Ok tt
            | None => Ok tt (* no ancestors: the rule is skipped *)
            end in
  let? _ := match wall_clock with
            | Some wc =>
                let? max_future := ok_or (checked_add U64_MAX wc MAX_TIMESTAMP_DRIFT) ArithmeticOverflow in
                if max_future <? timestamp h then Err (TimestampTooFarAhead max_future (timestamp h)) else Ok tt
            | None => Ok tt
            end in
  match parent with
  | Some p =>
      let? max_gap := ok_or (checked_add U64_MAX (timestamp p) MAX_TIMESTAMP_GAP) ArithmeticOverflow in
      if max_gap <? timestamp h then Err (TimestampGapTooLarge (timestamp p) (timestamp h)) else Ok tt
  | None => Ok tt
  end.

(** Rules 12, 14, 15 and 10, on the transactions of the block. *)
Definition check_transactions (b : Block) : result ValidationError unit :=
  match transactions b with
  | [] => Err NoCoinbase
  | coinbase :: txs =>
      if negb (is_coinbase coinbase) then Err NoCoinbase
      else
        let? _ := for_enum (fun i tx => if is_coinbase tx then Err (NonCoinbaseSentinel i) else Ok tt) 1 txs in
        let? _ := check_tx_ids ∅ (transactions b) in
        let? _ := insert_all DoubleSpend ∅ (concat (map (fun tx => map input_outpoint (inputs tx)) txs)) in
        let? computed_tx_root := map_err (fun _ => TxTooLarge 0) (compute_tx_root (transactions b)) in
        if negb (bool_decide (tx_root (header b) = computed_tx_root)) then Err InvalidTxRoot else Ok tt
  end.

Definition validate_block_header_inner (b : Block) (parent : option BlockHeader) (ancestor_timestamps : list Z)
    (expected_target : Hash256) (wall_clock : option Z) (skip_pow : bool) : result ValidationError unit :=
  let h := header b in
  if negb (version h =? VERSION) then Err (InvalidVersion (version h))
  else
    let? _ := check_height h parent in
    let? _ := check_prev_block h parent in
    if negb (bool_decide (difficulty_target h = expected_target)) then Err InvalidDifficulty
    else
      let? _ := (if negb skip_pow then
                   match verify_pow h with Ok true => Ok tt | Ok false | Err _ => Err PowFailed end
                 else Ok tt) in
      let? _ := check_timestamp h parent ancestor_timestamps wall_clock in
      let? block_bytes := map_err (fun _ => TxTooLarge 0) (Block_serialize b) in
      if MAX_BLOCK_SIZE <? len block_bytes then Err (BlockTooLarge (len block_bytes))
      else check_transactions b.

Definition validate_block_header (b : Block) (parent : option BlockHeader) (ancestor_timestamps : list Z)
    (expected_target : Hash256) (wall_clock : option Z) : result ValidationError unit :=
  validate_block_header_inner b parent ancestor_timestamps expected_target wall_clock false.

Definition validate_block_header_skip_pow (b : Block) (parent : option BlockHeader) (ancestor_timestamps : list Z)
    (expected_target : Hash256) (wall_clock : option Z) : result ValidationError unit :=
  validate_block_header_inner b parent ancestor_timestamps expected_target wall_clock true.

(** ** The structural pre-check *)

Definition check_tx_structure (tx : Transaction) : result ValidationError unit :=
  if len (inputs tx) =? 0 then Err NoInputs
  else if len (outputs tx) =? 0 then Err NoOutputs
  else if negb (len (witnesses tx) =? len (inputs tx)) then
    Err (WitnessCountMismatch (len (inputs tx)) (len (witnesses tx)))
  else
    let? _ := for_enum check_witness_size 0 (witnesses tx) in
    let? _ := for_enum (fun idx o =>
                let? _ := check_datum_size idx o in
                let? _ := check_datum_hash idx o in
                check_script_admissible idx o) 0 (outputs tx) in
    let? _ := check_tx_size tx in
    let? _ := check_distinct_inputs tx in
    for_enum check_dust 0 (outputs tx).

Definition check_coinbase_structure (coinbase : Transaction) (h : Z) : result ValidationError unit :=
  match inputs coinbase with
  | [input] =>
      if negb (bool_decide (prev_tx_id input = Hash256_ZERO)) then Err (CoinbaseBadInputCount 0)
      else if U32_MAX <? h then Err (CoinbaseHeightOverflow h)
      else if negb (output_index input =? h) then Err (CoinbaseBadOutputIndex h (output_index input))
      else
        match witnesses coinbase with
        | [w] =>
            if negb (h =? 0) && negb (len (witness w) =? 0) then Err CoinbaseWitnessNotEmpty
            else if bool_decide (is_Some (redeemer w)) then Err CoinbaseHasRedeemer
            else
              for_enum (fun idx o =>
                let? _ := check_dust idx o in
                let? _ := check_datum_size idx o in
                let? _ := check_datum_hash idx o in
                check_script_admissible idx o) 0 (outputs coinbase)
        | ws => Err (CoinbaseWitnessCountMismatch 1 (len ws))
        end
  | ins => Err (CoinbaseBadInputCount (len ins))
  end.

Definition validate_block_structure (b : Block) : result ValidationError unit :=
  match transactions b with
  | [] => Err NoTransactions
  | coinbase :: txs =>
      let? _ := check_coinbase_structure coinbase (height (header b)) in
      for_each check_tx_structure txs
  end.
End Headers.

(** ** Applying a block *)

(** [utxo_set.get(&outpoint)] *)
Class UtxoGet (S : Type) := store_get : S -> OutPoint -> option UtxoEntry.
#[export] Instance UtxoSet_get `{StateTree} : UtxoGet UtxoSet := get.
#[export] Instance spec_get : UtxoGet utxo_map := fun u op => u !! op.

Abbreviation spent_list := (list (OutPoint * UtxoEntry)).
Definition block_op (S A : Type) : Type := S -> option (result ValidationError A * S).

Section Apply.
Context {S : Type} `{UtxoStore S} `{!UtxoGet S}.
Context `{Sha2} `{Ed25519} `{Layout}.
Variable signature_domain : Hash256.
Variable coinbase_maturity : Z.

(** The entries of [spent_utxos] that [tx] spends. *)
Definition tx_spent (tx : Transaction) (spent_utxos : spent_list) : spent_list :=
  List.filter (fun oe => existsb (fun i => bool_decide (prev_tx_id i = op_tx_id (fst oe)) && (output_index i =? op_index (fst oe)))
                           (inputs tx)) spent_utxos.

Fixpoint undo_in_order (txs : list Transaction) (spent_utxos : spent_list) : store_op S unit :=
  match txs with
  | [] => mret tt
  | tx :: txs =>
      _ ← undo_transaction tx (tx_spent tx spent_utxos);
      undo_in_order txs spent_utxos
  end.
Definition undo_applied_transactions (b : Block) (applied_count : nat) (spent_utxos : spent_list) : store_op S unit :=
  undo_in_order (rev (take applied_count (transactions b))) spent_utxos.
Definition undo_block_transactions (b : Block) (spent_utxos : spent_list) : store_op S unit :=
  undo_applied_transactions b (length (transactions b)) spent_utxos.

(** Roll back, then report [e]. *)
Definition rolled_back {A} (undo : store_op S unit) (e : ValidationError) : block_op S A := fun s =>
  match undo s with
  | Some (Ok _, s) => Some (Err e, s)
  | Some (Err undo_err, s) => Some (Err (StateCorrupted (RollbackFailed e undo_err)), s)
  | None => None
  end.

(** [53 + entry.output.serialize().map(|b| b.len()).unwrap_or(0)] *)
Definition entry_bytes (e : UtxoEntry) : Z :=
  53 + match TxOutput_serialize (output e) with Ok b => len b | Err _ => 0 end.

(** The snapshot of a transaction's inputs; [Err] carries the size and the list
    when the undo metadata outgrows its limit. *)
Fixpoint snapshot_inputs (utxo_get : OutPoint -> option UtxoEntry) (ins : list TxInput) (spent_utxos : spent_list) (spent_utxos_bytes : Z)
  : result (Z * spent_list) (spent_list * Z) :=
  match ins with
  | [] => Ok (spent_utxos, spent_utxos_bytes)
  | input :: ins =>
      let outpoint := input_outpoint input in
      match utxo_get outpoint with
      | Some entry =>
          let spent_utxos_bytes := saturating_add U64_MAX spent_utxos_bytes (entry_bytes entry) in
          if MAX_SPENT_UTXOS_SIZE <? spent_utxos_bytes then Err (spent_utxos_bytes, spent_utxos)
          else snapshot_inputs utxo_get ins (spent_utxos ++ [(outpoint, entry)]) spent_utxos_bytes
      | None => snapshot_inputs utxo_get ins spent_utxos spent_utxos_bytes
      end
  end.

(** [apply_transaction] failed: undo what it did of [tx] (with the entries
    [spent_of_tx]), then the transactions before it. *)
Definition apply_failed {A} (tx : Transaction) (spent_of_tx : spent_list) (undo : store_op S unit) (e : StateError) : block_op S A := fun s =>
  match undo_partial_transaction tx spent_of_tx s with
  | Some (Ok _, s) => rolled_back undo (StateCorrupted (TxApply e)) s
  | Some (Err partial_err, s) => Some (Err (StateCorrupted (TxApplyPartial e partial_err)), s)
  | None => None
  end.

(** What the loop over the transactions has gathered. *)
Record progress := {
  applied_count : nat; total_fees : Z; spent_utxos : spent_list; spent_utxos_bytes : Z; mutations : list UtxoMutation
}.

Fixpoint apply_validated (b : Block) (txs : list Transaction) (p : progress) : block_op S progress :=
  match txs with
  | [] => fun s => Some (Ok p, s)
  | tx :: txs => fun s =>
      match validate_transaction signature_domain coinbase_maturity (store_get s) tx (height (header b)) with
      | Err e => rolled_back (undo_applied_transactions b (applied_count p) (spent_utxos p)) e s
      | Ok (fee, _, _) =>
          match snapshot_inputs (store_get s) (inputs tx) (spent_utxos p) (spent_utxos_bytes p) with
          | Err (size, spent) => rolled_back (undo_applied_transactions b (applied_count p) spent) (BlockTooLarge size) s
          | Ok (spent, spent_bytes) =>
              match apply_transaction tx (height (header b)) s with
              | Some (Ok m, s) =>
                  apply_validated b txs {|
                    applied_count := applied_count p + 1; total_fees := add128 (total_fees p) fee;
                    spent_utxos := spent; spent_utxos_bytes := spent_bytes; mutations := mutations p ++ m |} s
              | Some (Err e, s) =>
                  apply_failed tx (tx_spent tx spent) (undo_applied_transactions b (applied_count p) spent) e s
              | None => None
              end
          end
      end
  end.

(** The coinbase is applied first; when that fails, [undo_transaction] with no
    spent entries is the rollback. *)
Definition apply_coinbase (b : Block) (coinbase : Transaction) : block_op S progress := fun s =>
  match apply_transaction coinbase (height (header b)) s with
  | Some (Ok m, s) =>
      Some (Ok {| applied_count := 1; total_fees := 0; spent_utxos := []; spent_utxos_bytes := 0; mutations := m |}, s)
  | Some (Err e, s) => rolled_back (undo_transaction coinbase []) (StateCorrupted (CoinbaseApply e)) s
  | None => None
  end.

(** [block.transactions[0]] panics on a block without transactions. *)
Definition validate_and_apply_block_transactions_atomic (b : Block) : block_op S (Z * list UtxoMutation) := fun s =>
  match transactions b with
  | [] => None
  | coinbase :: txs =>
      match apply_coinbase b coinbase s with
      | Some (Ok p, s) =>
          match apply_validated b txs p s with
          | Some (Ok p, s) =>
              let undo := undo_applied_transactions b (applied_count p) (spent_utxos p) in
              if U64_MAX <? total_fees p then rolled_back undo ValueOverflow s
              else
                match checked_add U64_MAX (block_reward (height (header b))) (total_fees p) with
                | None => rolled_back undo RewardOverflow s
                | Some expected_reward =>
                    match validate_coinbase coinbase (height (header b)) expected_reward with
                    | Err e => rolled_back undo e s
                    | Ok _ => Some (Ok (total_fees p, mutations p), s)
                    end
                end
          | Some (Err e, s) => Some (Err e, s)
          | None => None
          end
      | Some (Err e, s) => Some (Err e, s)
      | None => None
      end
  end.

(** *** The non-atomic path *)

Fixpoint apply_unguarded (h : Z) (txs : list Transaction) (total_fees : Z) : block_op S Z :=
  match txs with
  | [] => fun s => Some (Ok total_fees, s)
  | tx :: txs => fun s =>
      match validate_transaction signature_domain coinbase_maturity (store_get s) tx h with
      | Err e => Some (Err e, s)
      | Ok (fee, _, _) =>
          match apply_transaction tx h s with
          | Some (Ok _, s) => apply_unguarded h txs (add128 total_fees fee) s
          | Some (Err e, s) => Some (Err (StateCorrupted (TxApply e)), s)
          | None => None
          end
      end
  end.

Definition validate_and_apply_block_transactions (b : Block) : block_op S Z := fun s =>
  match transactions b with
  | [] => None
  | coinbase :: txs =>
      let h := height (header b) in
      match apply_transaction coinbase h s with
      | Some (Ok _, s) =>
          match apply_unguarded h txs 0 s with
          | Some (Ok total_fees, s) =>
              if U64_MAX <? total_fees then Some (Err ValueOverflow, s)
              else
                match checked_add U64_MAX (block_reward h) total_fees with
                | None => Some (Err RewardOverflow, s)
                | Some expected_reward =>
                    match validate_coinbase coinbase h expected_reward with
                    | Err e => Some (Err e, s)
                    | Ok _ => Some (Ok total_fees, s)
                    end
                end
          | Some (Err e, s) => Some (Err e, s)
          | None => None
          end
      | Some (Err e, s) => Some (Err (StateCorrupted (CoinbaseApply e)), s)
      | None => None
      end
  end.

(** [validate_block_transactions] works on a clone and leaves the set alone. *)
Definition validate_block_transactions (b : Block) (s : S) : option (result ValidationError Z) :=
  fst <$> validate_and_apply_block_transactions b s.

(** *** The assume-valid path *)

(** Why the snapshot of the assume-valid path stops early. *)
Inductive snapshot_failure := MissingEntry (op : OutPoint) | MetadataOverflow (size : Z).

Fixpoint snapshot_all (utxo_get : OutPoint -> option UtxoEntry) (ins : list TxInput) (spent : spent_list) (spent_bytes input_sum : Z)
  : result (snapshot_failure * spent_list) (spent_list * Z * Z) :=
  match ins with
  | [] => Ok (spent, spent_bytes, input_sum)
  | input :: ins =>
      let outpoint := input_outpoint input in
      match utxo_get outpoint with
      | None => Err (MissingEntry outpoint, spent)
      | Some entry =>
          let input_sum := saturating_add U128_MAX input_sum (value (output entry)) in
          let spent_bytes := saturating_add U64_MAX spent_bytes (entry_bytes entry) in
          if MAX_SPENT_UTXOS_SIZE <? spent_bytes then Err (MetadataOverflow spent_bytes, spent)
          else snapshot_all utxo_get ins (spent ++ [(outpoint, entry)]) spent_bytes input_sum
      end
  end.

Definition snapshot_error (f : snapshot_failure) : ValidationError :=
  match f with
  | MissingEntry op => StateCorrupted (MissingInputUtxo op)
  | MetadataOverflow size => BlockTooLarge size
  end.

Fixpoint apply_trusted (b : Block) (txs : list Transaction) (p : progress) : block_op S progress :=
  match txs with
  | [] => fun s => Some (Ok p, s)
  | tx :: txs => fun s =>
      match snapshot_all (store_get s) (inputs tx) (spent_utxos p) (spent_utxos_bytes p) 0 with
      | Err (f, spent) => rolled_back (undo_applied_transactions b (applied_count p) spent) (snapshot_error f) s
      | Ok (spent, spent_bytes, input_sum) =>
          let output_sum := sum_outputs (outputs tx) in
          match checked_sub U128_MAX input_sum output_sum with
          | None => rolled_back (undo_applied_transactions b (applied_count p) spent) ValueOverflow s
          | Some fee =>
              match apply_transaction tx (height (header b)) s with
              | Some (Ok m, s) =>
                  apply_trusted b txs {|
                    applied_count := applied_count p + 1; total_fees := saturating_add U128_MAX (total_fees p) fee;
                    spent_utxos := spent; spent_utxos_bytes := spent_bytes; mutations := mutations p ++ m |} s
              | Some (Err e, s) =>
                  apply_failed tx (drop (length (spent_utxos p)) spent) (undo_applied_transactions b (applied_count p) spent) e s
              | None => None
              end
          end
      end
  end.

Definition apply_block_transactions_assume_valid (b : Block) : block_op S (Z * list UtxoMutation) := fun s =>
  match transactions b with
  | [] => None
  | coinbase :: txs =>
      match apply_coinbase b coinbase s with
      | Some (Ok p, s) =>
          match apply_trusted b txs p s with
          | Some (Ok p, s) =>
              if U64_MAX <? total_fees p
              then rolled_back (undo_applied_transactions b (applied_count p) (spent_utxos p)) ValueOverflow s
              else Some (Ok (total_fees p, mutations p), s)
          | Some (Err e, s) => Some (Err e, s)
          | None => None
          end
      | Some (Err e, s) => Some (Err e, s)
      | None => None
      end
  end.
End Apply.

(** ** Headers: lemmas and properties *)

Lemma median_Some ts : ts <> [] -> is_Some (median_time_past ts).
Proof.
  intros Hne. unfold median_time_past. apply lookup_lt_is_Some.
  assert (length (merge_sort Z.le ts) = length ts) as -> by (by rewrite merge_sort_Permutation).
  destruct ts; [done|]. cbn [length]. apply Nat.div_lt; lia.
Qed.

#[export] Instance median_perm : Proper (Permutation ==> (=)) median_time_past.
Proof.
  intros xs ys Hp. unfold median_time_past.
  assert (merge_sort Z.le xs = merge_sort Z.le ys) as ->; [|done].
  apply (StronglySorted_unique Z.le); try apply (StronglySorted_merge_sort Z.le).
  by rewrite !merge_sort_Permutation.
Qed.

Lemma filter_none {A} (P : A -> Prop) `{!forall x, Decision (P x)} l : Forall (fun x => ~ P x) l -> filter P l = [].
Proof. induction 1 as [|x l Hx _ IH]; [done|]. by rewrite filter_cons, decide_False. Qed.

(** At most half of a sorted list is below, and less than half above, its middle. *)
Lemma sorted_middle (l : list Z) (m : Z) :
  StronglySorted Z.le l -> l !! (length l / 2)%nat = Some m ->
  (2 * length (filter (fun x => (x < m)%Z) l) <= length l)%nat /\ (2 * length (filter (fun x => (m < x)%Z) l) < length l)%nat.
Proof.
  intros Hs Hm. pose proof (lookup_lt_Some _ _ _ Hm) as Hlt. set (k := (length l / 2)%nat) in *.
  assert (2 * k <= length l < 2 * k + 2)%nat as Hk.
  { unfold k. pose proof (Nat.div_mod_eq (length l) 2). pose proof (Nat.mod_upper_bound (length l) 2). lia. }
  rewrite <- (take_drop_middle l k m Hm) in Hs |- *. apply StronglySorted_app in Hs as (Hle & Hs1 & Hs2).
  apply StronglySorted_inv in Hs2 as [Hs2 Hge]. rewrite !filter_app, !filter_cons, !decide_False by lia.
  rewrite (filter_none (fun x => x < m) (drop (S k) l)) by (eapply Forall_impl; [exact Hge|intros x Hx; simpl in *; lia]).
  rewrite (filter_none (fun x => m < x) (take k l))
    by (apply Forall_forall; intros x Hx Hmx; assert (x <= m) by (apply Hle; [done|left]); lia).
  rewrite !length_app. cbn [length app]. rewrite length_take, length_drop.
  pose proof (length_filter (fun x => x < m) (take k l)) as H1. pose proof (length_filter (fun x => m < x) (drop (S k) l)) as H2.
  rewrite length_take in H1. rewrite length_drop in H2. lia.
Qed.

(** The outpoints a transaction names. *)
Definition spend_keys (tx : Transaction) : list OutPoint := map input_outpoint (inputs tx).
Lemma elem_of_keys o txs : o ∈ concat (map spend_keys txs) <-> exists tx, tx ∈ txs /\ o ∈ spend_keys tx.
Proof.
  induction txs as [|tx txs IH]; cbn [map concat].
  - split; [by intros ?%not_elem_of_nil|by intros (tx & ?%not_elem_of_nil & _)].
  - rewrite elem_of_app, IH. setoid_rewrite elem_of_cons. naive_solver.
Qed.

Section HeaderProperties.
Context `{Sha2} `{Argon2}.

(** The shape of a block that [check_transactions] accepts. *)
Record well_shaped (b : Block) (coinbase : Transaction) (txs : list Transaction) : Prop := {
  ws_txs : transactions b = coinbase :: txs;
  ws_coinbase : is_coinbase coinbase = true;
  ws_others : Forall (fun tx => is_coinbase tx = false) txs;
  ws_ids : exists ids, Forall2 (fun tx id => tx_id tx = Ok id) (transactions b) ids /\ NoDup ids;
  ws_inputs : NoDup (concat (map spend_keys txs));
  ws_root : compute_tx_root (transactions b) = Ok (tx_root (header b))
}.

Lemma check_tx_ids_Ok seen txs :
  check_tx_ids seen txs = Ok tt ->
  exists ids, Forall2 (fun tx id => tx_id tx = Ok id) txs ids /\ NoDup ids /\ forall id, id ∈ ids -> id ∉ seen.
Proof.
  revert seen. induction txs as [|tx txs IH]; intros seen Hc; cbn [check_tx_ids] in Hc.
  { exists []. split_and!; [constructor|constructor|set_solver]. }
  destruct (tx_id tx) as [id|] eqn:Eid; [|done]. cbn [map_err] in Hc. case_bool_decide; [done|].
  apply IH in Hc as (ids & Hids & Hnd & Hseen). exists (id :: ids). split_and!; [by constructor| |].
  - constructor; [|done]. intros Hin%Hseen. set_solver.
  - intros id' [->|Hin]%elem_of_cons; [done|]. specialize (Hseen id' Hin). set_solver.
Qed.

Lemma check_transactions_Ok b :
  check_transactions b = Ok tt -> exists coinbase txs, well_shaped b coinbase txs.
Proof.
  unfold check_transactions. destruct (transactions b) as [|coinbase txs] eqn:Etx; [done|]. intros Hc.
  destruct (is_coinbase coinbase) eqn:Ecb; [|done]. cbn [negb] in Hc.
  destruct (for_enum _ _ _) as [[]|] eqn:Eo; [|done]. destruct (check_tx_ids _ _) as [[]|] eqn:Ei; [|done].
  destruct (insert_all _ _ _) as [s|] eqn:Es; [|done]. destruct (compute_tx_root _) as [r|] eqn:Er; [|done]. cbn [map_err] in Hc.
  case_bool_decide as Eroot; [|done]. exists coinbase, txs. split; [done|done| | | |].
  - rewrite for_enum_Ok in Eo. apply Forall_lookup. intros k tx Hk. specialize (Eo k tx Hk). by destruct (is_coinbase tx).
  - apply check_tx_ids_Ok in Ei as (ids & Hids & Hnd & _). exists ids. by rewrite Etx.
  - apply (insert_all_Ok DoubleSpend ∅). unfold spend_keys. by rewrite Es.
  - by rewrite Etx, Er, Eroot.
Qed.

Lemma header_inner_Ok b parent ts target clock skip :
  validate_block_header_inner b parent ts target clock skip = Ok tt ->
  version (header b) = VERSION /\ check_height (header b) parent = Ok tt /\ check_prev_block (header b) parent = Ok tt /\
  difficulty_target (header b) = target /\ (skip = false -> verify_pow (header b) = Ok true) /\
  check_timestamp (header b) parent ts clock = Ok tt /\
  (exists bytes, Block_serialize b = Ok bytes /\ len bytes <= MAX_BLOCK_SIZE) /\ check_transactions b = Ok tt.
Proof.
  unfold validate_block_header_inner. intros Hv.
  destruct (Z.eqb_spec (version (header b)) VERSION); [|done]. cbn [negb] in Hv.
  destruct (check_height _ _) as [[]|]; [|done]. destruct (check_prev_block _ _) as [[]|]; [|done].
  case_bool_decide; [|done]. cbn [negb] in Hv.
  destruct (if negb skip then _ else _) as [[]|] eqn:Epow; [|done]. destruct (check_timestamp _ _ _ _) as [[]|]; [|done].
  destruct (Block_serialize b) as [bs|]; [|done]. cbn [map_err] in Hv. destruct (Z.ltb_spec MAX_BLOCK_SIZE (len bs)); [done|].
  split_and!; try done; [|eauto]. intros ->. cbn [negb] in Epow. by destruct (verify_pow _) as [[]|].
Qed.

(** C33: What an accepted header guarantees.  The check that skips the proof of work
    accepts exactly the blocks that the full check accepts up to the proof of
    work.  An accepted block extends its parent by one height and names it,
    meets the expected target, is timed after the median of its ancestors'
    timestamps (whatever their order) and within the drift and gap limits; its
    first transaction is its only coinbase, its transactions have distinct
    identifiers, spend no outpoint twice, and are those the header commits to. *)
Theorem validate_block_header_correct b parent ts target clock :
  (validate_block_header b parent ts target clock = Ok tt <->
   validate_block_header_skip_pow b parent ts target clock = Ok tt /\ verify_pow (header b) = Ok true) /\
  (validate_block_header_skip_pow b parent ts target clock = Ok tt ->
   height (header b) = match parent with Some p => height p + 1 | None => 0 end /\
   prev_block_id (header b) = match parent with Some p => block_id p | None => Hash256_ZERO end /\
   difficulty_target (header b) = target /\
   (ts <> [] -> exists mtp, mtp < timestamp (header b) /\ (forall ts', Permutation ts ts' -> median_time_past ts' = Some mtp) /\
      (2 * length (filter (fun t => (t < mtp)%Z) ts) <= length ts)%nat /\ (2 * length (filter (fun t => (mtp < t)%Z) ts) < length ts)%nat) /\
   (forall wc, clock = Some wc -> timestamp (header b) <= wc + MAX_TIMESTAMP_DRIFT) /\
   (forall p, parent = Some p -> timestamp (header b) <= timestamp p + MAX_TIMESTAMP_GAP) /\
   exists coinbase txs, well_shaped b coinbase txs).
Proof.
  split.
  - unfold validate_block_header, validate_block_header_skip_pow. split.
    + intros Hv. pose proof (header_inner_Ok _ _ _ _ _ _ Hv) as (_ & _ & _ & _ & Hp & _). specialize (Hp eq_refl).
      split; [|done]. revert Hv. unfold validate_block_header_inner. cbn [negb]. by rewrite Hp.
    + intros [Hv Hp]. revert Hv. unfold validate_block_header_inner. cbn [negb]. rewrite Hp. done.
  - intros (_ & Hh & Hp & Hd & _ & Ht & _ & Htx)%header_inner_Ok. unfold check_height, check_prev_block, check_timestamp in *.
    split_and!; [| |done| | | |by apply check_transactions_Ok].
    + destruct parent as [p|].
      * destruct (checked_add _ _ _) as [x|] eqn:Ea; [|done]. cbn [ok_or] in Hh. apply checked_Some in Ea as [_ ->].
        destruct (Z.eqb_spec (height (header b)) (height p + 1)); done.
      * destruct (Z.eqb_spec (height (header b)) 0); done.
    + destruct parent; case_bool_decide; done.
    + intros Hne. destruct (median_Some ts Hne) as [mtp Hm]. rewrite Hm in Ht. exists mtp.
      destruct (Z.leb_spec (timestamp (header b)) mtp); [done|]. split; [done|]. split; [intros ts' Hts; by rewrite <- Hts|].
      assert (merge_sort Z.le ts ≡ₚ ts) as Hperm by apply merge_sort_Permutation.
      rewrite <- Hperm at 1 2 3 4. apply sorted_middle; [apply (StronglySorted_merge_sort Z.le)|done].
    + intros wc ->. clear Hh. destruct (match median_time_past ts with Some _ => _ | None => _ end) as [[]|]; [|done].
      destruct (checked_add _ _ _) as [x|] eqn:Ea; [|done]. cbn [ok_or] in Ht. apply checked_Some in Ea as [_ ->].
      destruct (Z.ltb_spec (wc + MAX_TIMESTAMP_DRIFT) (timestamp (header b))); [done|lia].
    + intros p ->. clear Hh. destruct (match median_time_past ts with Some _ => _ | None => _ end) as [[]|]; [|done].
      destruct (match clock with Some _ => _ | None => _ end) as [[]|]; [|done].
      destruct (checked_add _ _ _) as [x|] eqn:Ea; [|done]. cbn [ok_or] in Ht. apply checked_Some in Ea as [_ ->].
      destruct (Z.ltb_spec (timestamp p + MAX_TIMESTAMP_GAP) (timestamp (header b))); [done|lia].
Qed.
End HeaderProperties.
