(* ===== verification/BlockApply.v ===== *)
(** * Applying blocks: proofs for [src/consensus/validation.rs]

    What happens to the UTXO set when a block is validated and applied: the
    rollback of a rejected block, the value a block creates, the agreement of
    the validated, unguarded and assume-valid paths, and the undo of a whole
    block.  The reasoning is done on the specification store (a map) and carried
    to [UtxoSet] by simulation. *)

From Stdlib Require Import Strings.String.
From S2P Require Import Prelude Bytes Codec Hash Transaction Block U256 Difficulty Reward.
From S2P Require Import ScriptValue ScriptCodec Jets ScriptCost Eval FeeCost Smt Utxo TxValidation BlockValidation.
#[local] Open Scope Z_scope.
#[local] Open Scope list_scope.

(** ** One transaction on a map *)

(** The value held by a set of entries. *)
Definition supply (u : utxo_map) : Z := sum_of (fun oe => value (output oe.2)) (map_to_list u).

Lemma supply_insert u o e : u !! o = None -> supply (<[o := e]> u) = value (output e) + supply u.
Proof. intros Hn. unfold supply. rewrite map_to_list_insert by done. by rewrite sum_of_cons. Qed.
Lemma supply_delete u o e : u !! o = Some e -> supply u = value (output e) + supply (delete o u).
Proof. intros Ho. rewrite <- (supply_insert _ o e) by apply lookup_delete_eq. by rewrite insert_delete_id. Qed.

Section Transactions.
Context `{Sha2}.

Lemma spend_effect ins u ms u' :
  spend_inputs ins u = Some (Ok ms, u') ->
  (collect_spent_utxos ms).*1 = map input_outpoint ins /\
  supply u = sum_of (fun oe => value (output oe.2)) (collect_spent_utxos ms) + supply u' /\ u' ⊆ u.
Proof.
  revert u ms. induction ins as [|i ins IH]; intros u ms; cbn [spend_inputs].
  { intros [= <- <-]. done. }
  unfold mbind, store_bind, removing. cbn [store_remove spec_store].
  destruct (u !! input_outpoint i) as [e|] eqn:Ei; [|done].
  destruct (spend_inputs ins (delete (input_outpoint i) u)) as [[[ms1|] u1]|] eqn:Es; [|done|done].
  intros [= <- <-]. destruct (IH _ _ Es) as (Hk & Hs & Hsub). cbn [collect_spent_utxos omap list_omap].
  fold (collect_spent_utxos ms1). split_and!.
  - cbn [fmap list_fmap map]. f_equal. exact Hk.
  - rewrite sum_of_cons, (supply_delete u _ e Ei), Hs. cbn [snd]. lia.
  - etransitivity; [exact Hsub|apply delete_subseteq].
Qed.

Lemma create_effect id height cb idx outs u ms u' :
  create_outputs id height cb idx outs u = Some (Ok ms, u') ->
  supply u' = supply u + sum_of value outs /\ collect_spent_utxos ms = [] /\ (serializable u -> serializable u') /\
  forall o e, u' !! o = Some e ->
    u !! o = Some e \/ (exists i, (idx <= i < idx + length outs)%nat /\ o = output_outpoint id i) /\ output e ∈ outs.
Proof.
  revert idx u ms. induction outs as [|out outs IH]; intros idx u ms; cbn [create_outputs].
  { intros [= <- <-]. change (sum_of value []) with 0. split_and!; [lia|done|done|by left]. }
  unfold mbind, store_bind. cbn [store_insert spec_store]. unfold spec_insert at 1.
  set (op := output_outpoint id idx). set (e := {| output := out; entry_height := height; entry_coinbase := cb |}).
  destruct (u !! op) as [|] eqn:Eop; [done|]. destruct (TxOutput_serialize (output e)) as [b|] eqn:Eser; [|done].
  destruct (create_outputs id height cb (idx + 1) outs (<[op := e]> u)) as [[[ms1|] u1]|] eqn:Ec; [|done|done].
  intros [= <- <-]. destruct (IH _ _ _ Ec) as (Hs & Hms & Hser & Hk). cbn [collect_spent_utxos omap list_omap].
  split_and!.
  - rewrite Hs, supply_insert, sum_of_cons by done. cbn [output e]. lia.
  - exact Hms.
  - intros Hu. apply Hser. intros o e' [[<- <-]|[_ Ho]]%lookup_insert_Some; [eauto|by apply (Hu o)].
  - intros o e' Ho. cbn [length]. destruct (Hk o e' Ho) as [[[<- <-]|[_ Ho']]%lookup_insert_Some|[(i & Hi & ->) ?]].
    + right. split; [exists idx; split; [lia|done]|left].
    + by left.
    + right. split; [exists i; split; [lia|done]|by right].
Qed.

(** The effect of an applied transaction that is not a coinbase. *)
Lemma apply_effect tx h u ms u' :
  apply_transaction tx h u = Some (Ok ms, u') ->
  (serializable u -> serializable u') /\
  (collect_spent_utxos ms).*1 = (if is_coinbase tx then [] else spend_keys tx) /\
  supply u' + sum_of (fun oe => value (output oe.2)) (collect_spent_utxos ms) = supply u + sum_of value (outputs tx) /\
  exists id, tx_id tx = Ok id /\
    forall o e, u' !! o = Some e ->
      u !! o = Some e \/ (exists i, (i < length (outputs tx))%nat /\ o = output_outpoint id i) /\ output e ∈ outputs tx.
Proof.
  unfold apply_transaction, mbind, store_bind, of_result. destruct (tx_id tx) as [id|]; [|done]. cbn [map_err].
  destruct (is_coinbase tx); cbn [negb].
  - unfold mret, store_ret. destruct (create_outputs id h true 0 (outputs tx) u) as [[[ms1|] u1]|] eqn:Ec; [|done|done].
    intros [= <- <-]. destruct (create_effect _ _ _ _ _ _ _ _ Ec) as (Hs & Hms & Hser & Hk). cbn [app]. rewrite Hms.
    split_and!; [done|done|change (sum_of _ []) with 0; lia|]. exists id. split; [done|].
    intros o e Ho. destruct (Hk o e Ho) as [|[(i & Hi & ->) ?]]; [by left|right]. split; [exists i; split; [lia|done]|done].
  - destruct (spend_inputs (inputs tx) u) as [[[ms0|] u0]|] eqn:Es; [|done|done].
    destruct (create_outputs id h false 0 (outputs tx) u0) as [[[ms1|] u1]|] eqn:Ec; [|done|done].
    intros [= <- <-]. destruct (create_effect _ _ _ _ _ _ _ _ Ec) as (Hs & Hms & Hser & Hk).
    destruct (spend_effect _ _ _ _ Es) as (Hkeys & Hs0 & Hsub). rewrite collect_app, Hms, app_nil_r. split_and!; [|done|lia|].
    + intros Hu. apply Hser. intros o e Ho. apply (Hu o). by eapply lookup_weaken.
    + exists id. split; [done|]. intros o e Ho. destruct (Hk o e Ho) as [Ho'|[(i & Hi & ->) ?]].
      * left. by eapply lookup_weaken.
      * right. split; [exists i; split; [lia|done]|done].
Qed.

Lemma spend_succeeds ins u :
  NoDup (map input_outpoint ins) -> Forall (fun i => is_Some (u !! input_outpoint i)) ins ->
  exists ms u', spend_inputs ins u = Some (Ok ms, u') /\ u' ⊆ u.
Proof.
  revert u. induction ins as [|i ins IH]; intros u Hnd Hin; cbn [spend_inputs]; [by exists [], u|].
  cbn [map] in Hnd. apply NoDup_cons in Hnd as [Hni Hnd]. apply Forall_cons in Hin as [[e He] Hin].
  unfold mbind, store_bind, removing. cbn [store_remove spec_store]. rewrite He.
  destruct (IH (delete (input_outpoint i) u)) as (ms & u' & -> & Hsub); [done| |].
  - apply Forall_forall. intros j Hj. rewrite Forall_forall in Hin. rewrite lookup_delete_ne; [by apply Hin|].
    intros Heq. apply Hni. rewrite Heq. by apply list_elem_of_fmap_2.
  - exists (MRemove (input_outpoint i) e :: ms), u'. split; [done|]. etransitivity; [exact Hsub|apply delete_subseteq].
Qed.

Lemma output_outpoint_inj id i j :
  Z.of_nat i < 2 ^ 32 -> Z.of_nat j < 2 ^ 32 -> output_outpoint id i = output_outpoint id j -> i = j.
Proof. intros Hi Hj [= Hij]. rewrite !Z.mod_small in Hij by lia. lia. Qed.

Lemma create_succeeds id h cb idx outs (u : utxo_map) :
  Forall (fun o => exists b, TxOutput_serialize o = Ok b) outs -> Z.of_nat (idx + length outs) <= 2 ^ 32 ->
  (forall i, (idx <= i < idx + length outs)%nat -> u !! output_outpoint id i = None) ->
  exists ms u', create_outputs id h cb idx outs u = Some (Ok ms, u').
Proof.
  intros Hser. revert idx u. induction Hser as [|o outs [b Hb] _ IH]; intros idx u Hlen Hu; cbn [create_outputs]; [by exists [], u|].
  cbn [length] in *. unfold mbind, store_bind. cbn [store_insert spec_store]. unfold spec_insert at 1.
  rewrite Hu by lia. cbn [output]. rewrite Hb.
  destruct (IH (idx + 1)%nat (<[output_outpoint id idx := {| output := o; entry_height := h; entry_coinbase := cb |}]> u)) as (ms & u' & ->).
  - lia.
  - intros i Hi. rewrite lookup_insert_ne; [apply Hu; lia|]. intros Heq%output_outpoint_inj; lia.
  - eexists _, u'. done.
Qed.

(** A transaction whose inputs are there and whose identifier is new applies. *)
Lemma apply_succeeds tx h id (u : utxo_map) :
  tx_id tx = Ok id -> len (outputs tx) <= U16_MAX -> Forall (fun o => exists b, TxOutput_serialize o = Ok b) (outputs tx) ->
  (is_coinbase tx = false -> NoDup (spend_keys tx) /\ Forall (fun i => is_Some (u !! input_outpoint i)) (inputs tx)) ->
  (forall o e, u !! o = Some e -> op_tx_id o <> id) ->
  exists ms u', apply_transaction tx h u = Some (Ok ms, u').
Proof.
  intros Hid Hlen Hser Hin Hnew. unfold apply_transaction, mbind, store_bind, of_result. rewrite Hid. cbn [map_err].
  unfold len, U16_MAX in Hlen.
  assert (forall v, v ⊆ u -> exists ms u', create_outputs id h (is_coinbase tx) 0 (outputs tx) v = Some (Ok ms, u')) as Hcreate.
  { intros v Hv. apply create_succeeds; [done|lia|]. intros i _. apply eq_None_not_Some. intros [e He].
    apply (Hnew (output_outpoint id i) e); [by eapply lookup_weaken|done]. }
  destruct (is_coinbase tx); cbn [negb].
  - destruct (Hcreate u) as (ms & u' & Ec); [done|]. unfold mret, store_ret. rewrite Ec. eauto.
  - destruct (Hin eq_refl) as [Hnd Hex]. destruct (spend_succeeds (inputs tx) u Hnd Hex) as (ms0 & u0 & -> & Hsub).
    destruct (Hcreate u0 Hsub) as (ms & u' & ->). unfold mret, store_ret. eauto.
Qed.
End Transactions.

(** ** The spent entries of a transaction *)

Lemma tx_spent_app tx l1 l2 : tx_spent tx (l1 ++ l2) = tx_spent tx l1 ++ tx_spent tx l2.
Proof. apply List.filter_app. Qed.

Lemma spends_key tx (op : OutPoint) :
  existsb (fun i => bool_decide (prev_tx_id i = op_tx_id op) && (output_index i =? op_index op)) (inputs tx) = true <->
  op ∈ spend_keys tx.
Proof.
  unfold spend_keys. rewrite existsb_exists, list_elem_of_fmap. split.
  - intros (i & Hi & [Hid%bool_decide_eq_true Hix%Z.eqb_eq]%andb_true_iff). exists i. rewrite list_elem_of_In. split; [|done].
    destruct op, i. unfold input_outpoint. simpl in *. congruence.
  - intros (i & -> & Hi). exists i. rewrite <- list_elem_of_In. split; [done|]. cbn. rewrite bool_decide_true, Z.eqb_refl; done.
Qed.

Lemma tx_spent_own tx l : (forall oe, oe ∈ l -> oe.1 ∈ spend_keys tx) -> tx_spent tx l = l.
Proof.
  unfold tx_spent. induction l as [|oe l IH]; intros Hl; cbn [List.filter]; [done|].
  replace (existsb _ _) with true by (symmetry; apply spends_key, Hl; left). f_equal. apply IH. intros x Hx. apply Hl. by right.
Qed.
Lemma tx_spent_other tx l : (forall oe, oe ∈ l -> oe.1 ∉ spend_keys tx) -> tx_spent tx l = [].
Proof.
  unfold tx_spent. induction l as [|oe l IH]; intros Hl; cbn [List.filter]; [done|].
  destruct (existsb _ _) eqn:E; [apply spends_key in E; destruct (Hl oe); [left|done]|]. apply IH. intros x Hx. apply Hl. by right.
Qed.

(** ** Sequences of applied transactions, and their undo *)

Section Applied.
Context `{Sha2}.

(** Applying [txs] in order at height [h] succeeds on [u], with the mutation log
    [ms], and ends in [v]. *)
Inductive applied (h : Z) : list Transaction -> utxo_map -> list UtxoMutation -> utxo_map -> Prop :=
| applied_nil u : applied h [] u [] u
| applied_snoc txs u ms v tx m w :
    applied h txs u ms v -> apply_transaction tx h v = Some (Ok m, w) -> applied h (txs ++ [tx]) u (ms ++ m) w.

Lemma applied_serializable h txs u ms v : applied h txs u ms v -> serializable u -> serializable v.
Proof. induction 1 as [u|txs u ms v tx m w _ IH Ha]; [done|]. intros Hu. by apply (apply_effect _ _ _ _ _ Ha), IH. Qed.

(** Entries come from the start or from the transactions. *)
Lemma applied_entries h txs u ms v :
  applied h txs u ms v ->
  forall o e, v !! o = Some e -> u !! o = Some e \/ exists tx, tx ∈ txs /\ tx_id tx = Ok (op_tx_id o) /\ output e ∈ outputs tx.
Proof.
  induction 1 as [u|txs u ms v tx m w _ IH Ha]; intros o e Ho; [by left|].
  destruct (apply_effect _ _ _ _ _ Ha) as (_ & _ & _ & id & Hid & Hk). destruct (Hk o e Ho) as [Hv|[(i & _ & ->) Hout]].
  - destruct (IH o e Hv) as [|(tx' & Htx & Hid' & Hout)]; [by left|]. right. exists tx'. split_and!; [set_solver|done|done].
  - right. exists tx. split_and!; [set_solver|done|done].
Qed.

Lemma applied_domain (D : OutPoint -> Prop) h txs u ms v :
  applied h txs u ms v -> Forall (tx_in D) txs -> (forall o e, u !! o = Some e -> D o) ->
  (forall o e, v !! o = Some e -> D o) /\ Forall (fun oe => D oe.1) (collect_spent_utxos ms) /\
  len (collect_spent_utxos ms) <= sum_of (fun tx => len (inputs tx)) txs.
Proof.
  induction 1 as [u|txs u ms v tx m w _ IH Ha]; intros Hin Hu; [done|]. apply Forall_app in Hin as [Hin Htx].
  apply Forall_cons in Htx as [Htx _]. destruct (IH Hin Hu) as (Hv & Hms & Hlen).
  destruct (apply_effect _ _ _ _ _ Ha) as (_ & _ & _ & id & Hid & Hk). destruct (spent_in_set D _ _ _ _ _ Hv Ha) as [Hm Hlm]. split_and!.
  - intros o e Ho. destruct (Hk o e Ho) as [Hvo|[(i & Hi & ->) _]]; [by eapply Hv|by apply Htx].
  - rewrite collect_app. by apply Forall_app.
  - rewrite collect_app, len_app, sum_of_app, sum_of_cons. change (sum_of (fun tx => len (inputs tx)) []) with 0. lia.
Qed.

Lemma applied_keys h txs u ms v :
  applied h txs u ms v -> forall oe, oe ∈ collect_spent_utxos ms -> exists tx, tx ∈ txs /\ is_coinbase tx = false /\ oe.1 ∈ spend_keys tx.
Proof.
  induction 1 as [u|txs u ms v tx m w _ IH Ha]; intros oe Hoe; [by apply not_elem_of_nil in Hoe|].
  rewrite collect_app in Hoe. apply elem_of_app in Hoe as [Hoe|Hoe].
  - destruct (IH oe Hoe) as (tx' & ? & ? & ?). exists tx'. split_and!; [set_solver|done|done].
  - destruct (apply_effect _ _ _ _ _ Ha) as (_ & Hk & _). exists tx.
    apply (list_elem_of_fmap_2 fst) in Hoe. rewrite Hk in Hoe. destruct (is_coinbase tx); [by apply not_elem_of_nil in Hoe|].
    split_and!; [set_solver|done|done].
Qed.

(** Rolling back: the log, possibly followed by entries no applied transaction
    spends, undoes the sequence. *)
Lemma applied_undo h txs u ms v extra :
  applied h txs u ms v -> serializable u -> NoDup (concat (map spend_keys txs)) ->
  (forall oe tx, oe ∈ extra -> tx ∈ txs -> oe.1 ∉ spend_keys tx) ->
  undo_in_order (rev txs) (collect_spent_utxos ms ++ extra) v = Some (Ok tt, u).
Proof.
  intros Happ. revert extra. induction Happ as [u|txs u ms v tx m w Happ IH Ha]; intros extra Hser Hnd Hex; [done|].
  rewrite rev_app_distr. cbn [rev app undo_in_order].
  rewrite map_app, concat_app in Hnd. cbn [map concat] in Hnd. rewrite app_nil_r in Hnd.
  apply NoDup_app in Hnd as (Hnd & Hdis & _).
  assert (forall tx' op, tx' ∈ txs -> op ∈ spend_keys tx' -> op ∉ spend_keys tx) as Hsep.
  { intros tx' op Htx Hop. apply Hdis, elem_of_keys. eauto. }
  destruct (apply_effect _ _ _ _ _ Ha) as (_ & Hk & _).
  assert (forall oe, oe ∈ collect_spent_utxos m -> oe.1 ∈ spend_keys tx) as Hown.
  { intros oe Hoe. apply (list_elem_of_fmap_2 fst) in Hoe. rewrite Hk in Hoe. by destruct (is_coinbase tx); [apply not_elem_of_nil in Hoe|]. }
  assert (tx_spent tx (collect_spent_utxos (ms ++ m) ++ extra) = collect_spent_utxos m) as ->.
  { rewrite collect_app, !tx_spent_app, (tx_spent_own tx (collect_spent_utxos m)) by done.
    rewrite (tx_spent_other tx extra) by (intros oe Hoe; apply Hex; [done|set_solver]).
    rewrite (tx_spent_other tx (collect_spent_utxos ms)); [by rewrite app_nil_r|].
    intros oe Hoe. destruct (applied_keys _ _ _ _ _ Happ oe Hoe) as (tx' & Htx & _ & Hop). by eapply Hsep. }
  unfold mbind at 1, store_bind at 1.
  rewrite (spec_apply_undo tx h v m w (applied_serializable _ _ _ _ _ Happ Hser) Ha).
  rewrite collect_app, <- app_assoc. apply IH; [done|done|]. intros oe tx' [Hoe|Hoe]%elem_of_app Htx.
  - intros Hop. by apply (Hsep tx' oe.1 Htx Hop), Hown.
  - apply Hex; [done|set_solver].
Qed.

Lemma applied_supply h txs u ms v :
  applied h txs u ms v ->
  supply v + sum_of (fun oe => value (output oe.2)) (collect_spent_utxos ms) =
  supply u + sum_of (fun tx => sum_of value (outputs tx)) txs.
Proof.
  induction 1 as [u|txs u ms v tx m w _ IH Ha]; [done|].
  destruct (apply_effect _ _ _ _ _ Ha) as (_ & _ & Hs & _). rewrite collect_app, !sum_of_app, sum_of_cons.
  change (sum_of (fun tx => sum_of value (outputs tx)) []) with 0. lia.
Qed.
End Applied.

(** ** Validation never reports a corrupted state by itself *)

Definition is_corrupted (e : ValidationError) : bool := match e with StateCorrupted _ => true | _ => false end.

(** [r] is not a corrupted-state error. *)
Definition clean {A} (r : result ValidationError A) : Prop := forall e, r = Err e -> is_corrupted e = false.

Lemma clean_ok {A} (a : A) : clean (Ok a).
Proof. by intros e. Qed.
Lemma clean_err {A} e : is_corrupted e = false -> clean (Err (A := A) e).
Proof. by intros He e' [= <-]. Qed.
Lemma clean_bind {A B} (r : result ValidationError A) (k : A -> result ValidationError B) :
  clean r -> (forall a, clean (k a)) -> clean (let? a := r in k a).
Proof. intros Hr Hk. destruct r as [a|e]; [apply Hk|]. intros e' [= <-]. by apply Hr. Qed.
Lemma clean_map_err {E A} (f : E -> ValidationError) (r : result E A) : (forall e, is_corrupted (f e) = false) -> clean (map_err f r).
Proof. intros Hf e. destruct r; [done|]. by intros [= <-]. Qed.
Lemma clean_ok_or {A} (o : option A) e : is_corrupted e = false -> clean (ok_or o e).
Proof. intros He e'. destruct o; [done|]. by intros [= <-]. Qed.
Lemma clean_if {A} (c : bool) (r1 r2 : result ValidationError A) : clean r1 -> clean r2 -> clean (if c then r1 else r2).
Proof. by destruct c. Qed.
Lemma clean_enum {A} (check : Z -> A -> result ValidationError unit) i xs : (forall i x, clean (check i x)) -> clean (for_enum check i xs).
Proof. intros Hc e He. apply for_enum_Err in He as (k & x & _ & He & _). by eapply Hc. Qed.

Ltac clean_rule :=
  first [ apply clean_ok | apply clean_err; reflexivity | apply clean_bind; [|intros ?] | apply clean_if
        | apply clean_map_err; intros ?; reflexivity | apply clean_ok_or; reflexivity | apply clean_enum; intros ? ?
        | match goal with |- clean (match ?x with _ => _ end) => destruct x end ].

Section Clean.
Context `{Sha2} `{Ed25519} `{Layout}.

Lemma check_output_script_clean idx o : clean (check_output_script idx o).
Proof. unfold check_output_script, validate_output_script. repeat clean_rule. Qed.
Lemma check_dust_clean idx o : clean (check_dust idx o).
Proof. unfold check_dust. repeat clean_rule. Qed.
Lemma check_datum_size_clean idx o : clean (check_datum_size idx o).
Proof. unfold check_datum_size. repeat clean_rule. Qed.
Lemma check_datum_hash_clean idx o : clean (check_datum_hash idx o).
Proof. unfold check_datum_hash. repeat clean_rule. Qed.
Lemma check_witness_size_clean idx w : clean (check_witness_size idx w).
Proof. unfold check_witness_size. repeat clean_rule. Qed.
Lemma check_tx_size_clean tx : clean (check_tx_size tx).
Proof. unfold check_tx_size. repeat clean_rule. Qed.
Lemma check_distinct_clean tx : clean (check_distinct_inputs tx).
Proof. unfold check_distinct_inputs. apply clean_bind; [|intros ?; repeat clean_rule]. intros e (x & _ & ->)%insert_all_Err. done. Qed.

Lemma gather_clean maturity get h ins t acc : clean (gather_inputs maturity get h ins t acc).
Proof. revert t acc. induction ins as [|i ins IH]; intros t acc; cbn [gather_inputs]; repeat first [apply IH | clean_rule]. Qed.
Lemma context_clean domain get tx h : clean (build_script_context domain get tx h).
Proof.
  unfold build_script_context. apply clean_bind; [|intros ?; repeat clean_rule]. generalize 0.
  induction (inputs tx) as [|i ins IH]; intros k; cbn [context_inputs]; repeat first [apply IH | clean_rule].
Qed.

Lemma pass1_clean domain maturity get tx h : clean (pass1 domain maturity get tx h).
Proof.
  unfold pass1, check_dust_and_hash. repeat first
    [ apply check_output_script_clean | apply check_dust_clean | apply check_datum_size_clean | apply check_datum_hash_clean | apply check_witness_size_clean | apply check_tx_size_clean | apply check_distinct_clean
    | apply gather_clean | apply context_clean | clean_rule ].
Qed.

Lemma validate_transaction_clean domain maturity get tx h : clean (validate_transaction domain maturity get tx h).
Proof.
  rewrite validate_passes. apply clean_bind; [apply pass1_clean|]. intros [[[es fee] message] ctx] e He.
  apply pass2_Err in He. by destruct e.
Qed.

Lemma validate_coinbase_clean tx h reward : clean (validate_coinbase tx h reward).
Proof.
  unfold validate_coinbase. repeat first
    [ apply check_output_script_clean | apply check_dust_clean | apply check_datum_size_clean | apply check_datum_hash_clean | apply check_witness_size_clean | apply check_tx_size_clean | clean_rule ].
Qed.
End Clean.

(** ** Snapshots *)

(** Entries read from the set at the given keys. *)
Definition read_from (get : OutPoint -> option UtxoEntry) (l : spent_list) : Prop := forall oe, oe ∈ l -> get oe.1 = Some oe.2.

Lemma read_from_unique get l l' : read_from get l -> read_from get l' -> l.*1 = l'.*1 -> l = l'.
Proof.
  revert l'. induction l as [|[o e] l IH]; intros [|[o' e'] l'] Hl Hl'; try done. cbn [fmap list_fmap fst]. intros [= <- Hk].
  pose proof (Hl (o, e) ltac:(left)) as E1. pose proof (Hl' (o, e') ltac:(left)) as E2. cbn [fst snd] in *. f_equal; [congruence|].
  apply IH; [intros x Hx; apply Hl; by right|intros x Hx; apply Hl'; by right|done].
Qed.

Definition present (get : OutPoint -> option UtxoEntry) (ins : list TxInput) : Prop := Forall (fun i => is_Some (get (input_outpoint i))) ins.

Lemma snapshot_spec get ins spent bytes :
  match snapshot_inputs get ins spent bytes with
  | Ok (spent', _) => exists l, spent' = spent ++ l /\ read_from get l /\ (present get ins -> l.*1 = map input_outpoint ins)
  | Err (_, spent') => exists l, spent' = spent ++ l /\ read_from get l /\ forall o, o ∈ l.*1 -> o ∈ map input_outpoint ins
  end.
Proof.
  revert spent bytes. induction ins as [|i ins IH]; intros spent bytes; cbn [snapshot_inputs].
  { exists []. rewrite app_nil_r. split_and!; [done|by intros oe ?%not_elem_of_nil|done]. }
  destruct (get (input_outpoint i)) as [e|] eqn:Ei.
  - destruct (_ <? _); [exists []; rewrite app_nil_r; split_and!; [done|by intros oe ?%not_elem_of_nil|by intros o ?%not_elem_of_nil]|].
    specialize (IH (spent ++ [(input_outpoint i, e)]) (saturating_add U64_MAX bytes (entry_bytes e))).
    destruct (snapshot_inputs _ _ _ _) as [[spent' bytes']|[size spent']]; destruct IH as (l & -> & Hr & Hk);
      exists ((input_outpoint i, e) :: l); rewrite <- app_assoc; (split_and!; [done|by intros oe [->|]%elem_of_cons; [|apply Hr]|]).
    + intros Hp. apply Forall_cons in Hp as [_ Hp]. cbn. f_equal. by apply Hk.
    + intros o [->|Ho]%elem_of_cons; [left|right]. by apply Hk.
  - specialize (IH spent bytes). destruct (snapshot_inputs _ _ _ _) as [[spent' bytes']|[size spent']]; destruct IH as (l & -> & Hr & Hk);
      exists l; (split_and!; [done|done|]).
    + intros Hp. apply Forall_cons in Hp as [[x Hx] _]. congruence.
    + intros o Ho. right. by apply Hk.
Qed.

Section Blocks.
Context `{Sha2} `{Ed25519} `{Layout}.
Variable signature_domain : Hash256.
Variable coinbase_maturity : Z.

Lemma apply_spent_read tx h (u : utxo_map) ms u' :
  apply_transaction tx h u = Some (Ok ms, u') -> read_from (store_get u) (collect_spent_utxos ms).
Proof.
  unfold apply_transaction, mbind, store_bind, of_result. destruct (tx_id tx) as [id|]; [|done]. cbn [map_err].
  destruct (is_coinbase tx); cbn [negb].
  - unfold mret, store_ret. destruct (create_outputs id h true 0 (outputs tx) u) as [[[ms1|] u1]|] eqn:Ec; [|done|done].
    intros [= <- <-]. cbn [app]. destruct (create_effect _ _ _ _ _ _ _ _ Ec) as (_ & -> & _). by intros oe ?%not_elem_of_nil.
  - destruct (spend_inputs (inputs tx) u) as [[[ms0|] u0]|] eqn:Es; [|done|done].
    destruct (create_outputs id h false 0 (outputs tx) u0) as [[[ms1|] u1]|] eqn:Ec; [|done|done].
    intros [= <- <-]. destruct (create_effect _ _ _ _ _ _ _ _ Ec) as (_ & Hms & _). rewrite collect_app, Hms, app_nil_r.
    destruct (spend_spec _ _ _ _ Es) as (_ & Hnd & _ & Hu). intros [o e] Hoe. unfold store_get, spec_get. rewrite Hu.
    apply lookup_union_Some_l. by apply elem_of_list_to_map.
Qed.

Lemma validated_present (u : utxo_map) tx h r :
  validate_transaction signature_domain coinbase_maturity (store_get u) tx h = Ok r -> present (store_get u) (inputs tx).
Proof.
  destruct r as [[fee sc] svc]. intros (_ & es & _ & _ & _ & Hes & _)%validate_transaction_inv.
  unfold present. clear -Hes. induction Hes as [|i e ins es [He _] _ IH]; constructor; [|done]. by rewrite He.
Qed.

(** What validation leaves for the application: it succeeds, and the snapshot
    taken before it is what it spends. *)
Lemma validated_applies (u : utxo_map) tx h r id :
  validate_transaction signature_domain coinbase_maturity (store_get u) tx h = Ok r -> is_coinbase tx = false ->
  tx_id tx = Ok id -> (forall o e, u !! o = Some e -> op_tx_id o <> id) ->
  NoDup (spend_keys tx) /\ present (store_get u) (inputs tx) /\
  exists m w, apply_transaction tx h u = Some (Ok m, w) /\ (collect_spent_utxos m).*1 = spend_keys tx.
Proof.
  intros Hv Hcb Hid Hnew. pose proof (validated_present _ _ _ _ Hv) as Hp. destruct r as [[fee sc] svc]. apply validate_transaction_inv in Hv as (Hst & _).
  destruct Hst as (_ & _ & _ & _ & _ & Hsz & Hd & _). apply check_tx_size_Ok in Hsz as (b & Hb & _ & _ & Hlo).
  destruct (serialize_signing _ _ Hb) as [s Hs].
  assert (NoDup (spend_keys tx)) as Hnd by (by apply check_distinct_inputs_Ok).
  split_and!; [done|done|].
  destruct (apply_succeeds tx h id u Hid Hlo (signing_outputs _ _ Hs)) as (m & w & Ha); [done|done|].
  exists m, w. split; [done|]. destruct (apply_effect _ _ _ _ _ Ha) as (_ & Hk & _). by rewrite Hcb in Hk.
Qed.

(** ** The loop of the atomic path *)

(** No entry of [u] has the identifier of a transaction of the block, and none of
    either is the zero identifier of a coinbase input. *)
Definition fresh_block (b : Block) (u : utxo_map) : Prop :=
  (forall o e, u !! o = Some e -> op_tx_id o <> Hash256_ZERO /\ forall tx, tx ∈ transactions b -> tx_id tx <> Ok (op_tx_id o)) /\
  (forall tx, tx ∈ transactions b -> tx_id tx <> Ok Hash256_ZERO).

(** The same with identifiers of transactions seen before, [Hist]: those of the
    entries are among them, the coinbase is not, and a transaction that repeats
    one of them spends an outpoint of a seen transaction that is not in the set
    any more. *)
Record fresh_for (Hist : Hash256 -> Prop) (b : Block) (u : utxo_map) : Prop := {
  ff_entries o e : u !! o = Some e -> Hist (op_tx_id o) /\ op_tx_id o <> Hash256_ZERO;
  ff_nonzero tx : tx ∈ transactions b -> tx_id tx <> Ok Hash256_ZERO;
  ff_coinbase tx id : head (transactions b) = Some tx -> tx_id tx = Ok id -> ~ Hist id;
  ff_repeats tx id : tx ∈ tail (transactions b) -> tx_id tx = Ok id -> Hist id ->
    exists o, o ∈ spend_keys tx /\ u !! o = None /\ Hist (op_tx_id o)
}.

Lemma fresh_block_for b u : fresh_block b u -> fresh_for (fun id => exists o e, u !! o = Some e /\ op_tx_id o = id) b u.
Proof.
  intros [Hu Hz]. assert (forall tx id, tx ∈ transactions b -> tx_id tx = Ok id -> ~ exists o e, u !! o = Some e /\ op_tx_id o = id) as Hno.
  { intros tx id Htx Hid (o & e & Ho & <-). by apply (proj2 (Hu o e Ho) tx). }
  split; [|done| |].
  - intros o e Ho. split; [eauto|by apply (Hu o e)].
  - intros tx id Hh. apply Hno. destruct (transactions b); [done|]. injection Hh as ->. left.
  - intros tx id Htx Hid Hex. exfalso. apply (Hno tx id); [|done|done]. destruct (transactions b); [done|]. by right.
Qed.

Section Loop.
Variables (b : Block) (coinbase : Transaction) (others : list Transaction) (u : utxo_map) (Hist : Hash256 -> Prop).
Hypothesis shape : well_shaped b coinbase others.
Hypothesis ser : serializable u.
Hypothesis fresh : fresh_for Hist b u.

Abbreviation h := (height (header b)).

(** After the transactions [past], in state [v] with [p] gathered. *)
Record loop_inv (past : list Transaction) (p : progress) (v : utxo_map) : Prop := {
  li_applied : applied h past u (mutations p) v;
  li_count : applied_count p = length past;
  li_spent : spent_utxos p = collect_spent_utxos (mutations p);
  li_keys : NoDup (concat (map spend_keys past));
  li_new tx id : tx ∈ past -> tx_id tx = Ok id -> ~ Hist id
}.

Lemma tx_ids_distinct past tx rest id tx' :
  transactions b = past ++ tx :: rest -> tx_id tx = Ok id -> tx' ∈ past -> tx_id tx' <> Ok id.
Proof.
  intros Hb Hid Htx Hid'. destruct (ws_ids _ _ _ shape) as (ids & Hids & Hnd). rewrite Hb in Hids.
  apply Forall2_app_inv_l in Hids as (ids1 & ids2 & Hi1 & Hi2 & ->). inversion Hi2 as [|? id2 ? ids3 Hid2 _]; subst.
  apply NoDup_app in Hnd as (_ & Hdis & _). assert (id2 = id) as -> by congruence.
  apply list_elem_of_lookup in Htx as [k Hk]. destruct (Forall2_lookup_l _ _ _ _ _ Hi1 Hk) as (x & Hx & Hxid).
  assert (x = id) as -> by congruence. apply (Hdis id); [by eapply list_elem_of_lookup_2|left].
Qed.

Lemma state_is_fresh past p v tx rest id :
  loop_inv past p v -> transactions b = past ++ tx :: rest -> tx_id tx = Ok id -> ~ Hist id ->
  forall o e, v !! o = Some e -> op_tx_id o <> id.
Proof.
  intros Hinv Hb Hid Hnew o e Ho Heq. destruct (applied_entries _ _ _ _ _ (li_applied _ _ _ Hinv) o e Ho) as [Hu|(tx' & Htx & Hid' & _)].
  - apply Hnew. rewrite <- Heq. by eapply (ff_entries _ _ _ fresh).
  - apply (tx_ids_distinct past tx rest id tx' Hb Hid Htx). congruence.
Qed.

(** A transaction whose inputs are there is none that was seen before. *)
Lemma present_is_new past p v tx rest id :
  loop_inv (coinbase :: past) p v -> transactions b = (coinbase :: past) ++ tx :: rest -> tx_id tx = Ok id ->
  present (store_get v) (inputs tx) -> ~ Hist id.
Proof.
  intros Hinv Hb Hid Hp Hh. destruct (ff_repeats _ _ _ fresh tx id) as (o & Ho & Hu & Hho); [rewrite Hb; cbn; set_solver|done|done|].
  unfold spend_keys in Ho. apply list_elem_of_fmap in Ho as (i & -> & Hi). unfold present in Hp. rewrite Forall_forall in Hp.
  destruct (Hp i Hi) as [e He]. destruct (applied_entries _ _ _ _ _ (li_applied _ _ _ Hinv) _ e He) as [He'|(tx' & Htx & Hid' & _)]; [congruence|].
  by apply (li_new _ _ _ Hinv tx' _ Htx Hid').
Qed.

(** Keys that are in the set are not those of coinbase inputs. *)
Lemma state_no_zero past p v rest :
  loop_inv past p v -> transactions b = past ++ rest -> forall o e, v !! o = Some e -> op_tx_id o <> Hash256_ZERO.
Proof.
  intros Hinv Hb o e Ho Heq. destruct (applied_entries _ _ _ _ _ (li_applied _ _ _ Hinv) o e Ho) as [Hu|(tx' & Htx & Hid' & _)].
  - by destruct (ff_entries _ _ _ fresh o e Hu).
  - apply (ff_nonzero _ _ _ fresh tx'); [rewrite Hb; set_solver|congruence].
Qed.

Lemma next_keys_new past p v tx rest :
  loop_inv (coinbase :: past) p v -> transactions b = (coinbase :: past) ++ tx :: rest ->
  forall o e tx', o ∈ spend_keys tx -> v !! o = Some e -> tx' ∈ coinbase :: past -> o ∉ spend_keys tx'.
Proof.
  intros Hinv Hb o e tx' Ho He [->|Htx]%elem_of_cons Ho'.
  - pose proof (ws_coinbase _ _ _ shape) as Hcb. unfold is_coinbase in Hcb. unfold spend_keys in Ho'.
    destruct (inputs coinbase) as [|i [|]]; try done. apply bool_decide_eq_true in Hcb.
    cbn [map] in Ho'. apply list_elem_of_singleton in Ho' as ->. by apply (state_no_zero _ _ _ _ Hinv Hb _ _ He).
  - pose proof (ws_inputs _ _ _ shape) as Hnd. rewrite (ws_txs _ _ _ shape) in Hb. injection Hb as Hb. rewrite Hb in Hnd.
    rewrite map_app, concat_app in Hnd. apply NoDup_app in Hnd as (_ & Hdis & _). apply (Hdis o).
    + apply elem_of_keys. eauto.
    + cbn [map concat]. apply elem_of_app. by left.
Qed.

Lemma rollback_restores {A} past p v rest extra e :
  loop_inv past p v -> transactions b = past ++ rest ->
  (forall oe tx, oe ∈ extra -> tx ∈ past -> oe.1 ∉ spend_keys tx) ->
  rolled_back (A := A) (undo_applied_transactions b (applied_count p) (spent_utxos p ++ extra)) e v = Some (Err e, u).
Proof.
  intros Hinv Hb Hex. unfold rolled_back, undo_applied_transactions. rewrite (li_count _ _ _ Hinv), (li_spent _ _ _ Hinv), Hb, take_app_length.
  by rewrite (applied_undo h past u (mutations p) v extra (li_applied _ _ _ Hinv) ser (li_keys _ _ _ Hinv) Hex).
Qed.

Lemma loop_inv_step past p v tx rest m w fees bytes :
  transactions b = (coinbase :: past) ++ tx :: rest -> loop_inv (coinbase :: past) p v ->
  NoDup (spend_keys tx) -> present (store_get v) (inputs tx) -> (forall id, tx_id tx = Ok id -> ~ Hist id) ->
  apply_transaction tx h v = Some (Ok m, w) ->
  loop_inv (coinbase :: past ++ [tx]) {| applied_count := applied_count p + 1; total_fees := fees;
    spent_utxos := spent_utxos p ++ collect_spent_utxos m; spent_utxos_bytes := bytes; mutations := mutations p ++ m |} w.
Proof.
  intros Hb Hinv Hnd Hp Hnew Ha. rewrite app_comm_cons. split; cbn [mutations applied_count spent_utxos].
  - eapply applied_snoc; [by apply (li_applied _ _ _ Hinv)|done].
  - rewrite (li_count _ _ _ Hinv), length_app. done.
  - by rewrite collect_app, (li_spent _ _ _ Hinv).
  - rewrite map_app, concat_app. change (concat (map spend_keys [tx])) with (spend_keys tx ++ []). rewrite app_nil_r.
    apply NoDup_app. split_and!; [by apply (li_keys _ _ _ Hinv)| |done].
    intros o (tx' & Htx' & Ho)%elem_of_keys Ho'.
    assert (exists e, v !! o = Some e) as [e He].
    { unfold spend_keys in Ho'. apply list_elem_of_fmap in Ho' as (i & -> & Hi). unfold present in Hp. rewrite Forall_forall in Hp. by apply Hp. }
    by apply (next_keys_new past p v tx rest Hinv Hb o e tx').
  - intros tx' id [Htx'| ->%list_elem_of_singleton]%elem_of_app; [by apply (li_new _ _ _ Hinv)|apply Hnew].
Qed.

(** What the loop guarantees: on success the whole block is applied; on failure
    the set is as before and the error is that of a rule. *)
Lemma apply_validated_spec past rest p v :
  transactions b = (coinbase :: past) ++ rest -> loop_inv (coinbase :: past) p v ->
  exists r v', apply_validated signature_domain coinbase_maturity b rest p v = Some (r, v') /\
    match r with
    | Ok p' => loop_inv (transactions b) p' v'
    | Err e => v' = u /\ is_corrupted e = false
    end.
Proof.
  revert past p v. induction rest as [|tx rest IH]; intros past p v Hb Hinv; cbn [apply_validated].
  { exists (Ok p), v. split; [done|]. rewrite app_nil_r in Hb. by rewrite Hb. }
  destruct (validate_transaction _ _ _ tx h) as [[[fee sc] svc]|e] eqn:Hv.
  2:{ exists (Err e), u. rewrite <- (app_nil_r (spent_utxos p)). split; [|split; [done|by eapply validate_transaction_clean]].
      eapply rollback_restores; [done|done|]. by intros oe tx' ?%not_elem_of_nil. }
  assert (is_coinbase tx = false) as Hcb.
  { pose proof (ws_others _ _ _ shape) as Ho. rewrite (ws_txs _ _ _ shape) in Hb. injection Hb as ->. rewrite Forall_forall in Ho. apply Ho. set_solver. }
  assert (exists id, tx_id tx = Ok id) as [id Hid].
  { destruct (ws_ids _ _ _ shape) as (ids & Hids & _). rewrite Hb in Hids.
    destruct (Forall2_lookup_l _ _ _ (length (coinbase :: past)) tx Hids) as (id & _ & Hid); [by apply list_lookup_middle|eauto]. }
  assert (~ Hist id) as Hnew by (eapply present_is_new; [done|done|done|by eapply validated_present]).
  destruct (validated_applies v tx h _ id Hv Hcb Hid (state_is_fresh _ _ _ _ _ _ Hinv Hb Hid Hnew)) as (Hnd & Hp & m & w & Ha & Hkeys).
  pose proof (snapshot_spec (store_get v) (inputs tx) (spent_utxos p) (spent_utxos_bytes p)) as Hsnap.
  destruct (snapshot_inputs _ _ _ _) as [[spent bytes]|[size spent]]; destruct Hsnap as (l & -> & Hr & Hk).
  2:{ exists (Err (BlockTooLarge size)), u. split; [|done]. eapply rollback_restores; [done|done|].
      intros oe tx' Hoe Htx'. eapply next_keys_new; [done|done| |by apply Hr|done]. apply Hk. by apply list_elem_of_fmap_2. }
  rewrite Ha. assert (l = collect_spent_utxos m) as ->.
  { eapply read_from_unique; [exact Hr|by eapply apply_spent_read|]. by rewrite Hkeys, Hk. }
  apply (IH (past ++ [tx])); [by rewrite app_comm_cons, <- app_assoc|]. eapply loop_inv_step; [done..| |done]. congruence.
Qed.

Lemma tx_id_serializes tx id :
  tx_id tx = Ok id -> len (outputs tx) <= U16_MAX /\ Forall (fun o => exists b, TxOutput_serialize o = Ok b) (outputs tx).
Proof.
  unfold tx_id. destruct (signing_bytes tx) as [s|] eqn:Es; [|done]. intros _. split; [|by eapply signing_outputs].
  unfold signing_bytes, serialize_header in Es. inv_res. lia.
Qed.

Lemma apply_coinbase_spec :
  exists p v, apply_coinbase b coinbase u = Some (Ok p, v) /\ loop_inv [coinbase] p v /\ total_fees p = 0.
Proof.
  destruct (ws_ids _ _ _ shape) as (ids & Hids & _). rewrite (ws_txs _ _ _ shape) in Hids.
  inversion Hids as [|? id ? ids' Hid _]; subst. destruct (tx_id_serializes _ _ Hid) as [Hlen Hser].
  destruct (apply_succeeds coinbase h id u Hid Hlen Hser) as (m & v & Ha).
  - intros Hcb. by rewrite (ws_coinbase _ _ _ shape) in Hcb.
  - intros o e Ho Heq. destruct (ff_entries _ _ _ fresh o e Ho) as [Hh _]. rewrite Heq in Hh. revert Hh.
    apply (ff_coinbase _ _ _ fresh coinbase); [by rewrite (ws_txs _ _ _ shape)|done].
  - eexists _, v. split; [unfold apply_coinbase; by rewrite Ha|]. split; [|done]. split; cbn [mutations applied_count spent_utxos].
    + apply (applied_snoc h [] u [] u coinbase m v); [constructor|done].
    + done.
    + destruct (apply_effect _ _ _ _ _ Ha) as (_ & Hk & _). rewrite (ws_coinbase _ _ _ shape) in Hk. by destruct (collect_spent_utxos m).
    + cbn [map concat]. rewrite app_nil_r. unfold spend_keys. pose proof (ws_coinbase _ _ _ shape) as Hcb. unfold is_coinbase in Hcb.
      destruct (inputs coinbase) as [|i [|]]; try done. apply NoDup_singleton.
    + intros tx id' ->%list_elem_of_singleton. apply (ff_coinbase _ _ _ fresh). by rewrite (ws_txs _ _ _ shape).
Qed.

(** The atomic path on a map. *)
Lemma atomic_spec_for :
  exists r u', validate_and_apply_block_transactions_atomic signature_domain coinbase_maturity b u = Some (r, u') /\
    match r with
    | Ok (fees, ms) => applied h (transactions b) u ms u' /\ NoDup (concat (map spend_keys (transactions b))) /\
        forall tx id, tx ∈ transactions b -> tx_id tx = Ok id -> ~ Hist id
    | Err e => u' = u /\ is_corrupted e = false
    end.
Proof.
  unfold validate_and_apply_block_transactions_atomic. rewrite (ws_txs _ _ _ shape).
  destruct apply_coinbase_spec as (p0 & v0 & -> & Hinv0 & _).
  destruct (apply_validated_spec [] others p0 v0) as (r & v & -> & Hr); [by rewrite (ws_txs _ _ _ shape)|done|].
  destruct r as [p|e]; [|eauto]. cbv zeta.
  assert (forall A e, rolled_back (A := A) (undo_applied_transactions b (applied_count p) (spent_utxos p)) e v = Some (Err e, u)) as Hback.
  { intros A e. rewrite <- (app_nil_r (spent_utxos p)). eapply rollback_restores; [exact Hr|by rewrite app_nil_r|]. by intros oe tx ?%not_elem_of_nil. }
  destruct (_ <? _); [rewrite Hback; by eexists _, u|]. destruct (checked_add _ _ _) as [reward|]; [|rewrite Hback; by eexists _, u].
  destruct (validate_coinbase _ _ _) as [[]|e] eqn:Ec.
  - eexists _, v. split; [done|]. rewrite <- (ws_txs _ _ _ shape). split_and!; [by apply (li_applied _ _ _ Hr)|by apply (li_keys _ _ _ Hr)|by apply (li_new _ _ _ Hr)].
  - rewrite Hback. eexists _, u. split; [done|]. split; [done|]. by eapply validate_coinbase_clean.
Qed.
End Loop.

Lemma atomic_spec b coinbase others u :
  well_shaped b coinbase others -> serializable u -> fresh_block b u ->
  exists r u', validate_and_apply_block_transactions_atomic signature_domain coinbase_maturity b u = Some (r, u') /\
    match r with
    | Ok (fees, ms) => applied (height (header b)) (transactions b) u ms u' /\ NoDup (concat (map spend_keys (transactions b)))
    | Err e => u' = u /\ is_corrupted e = false
    end.
Proof.
  intros Hws Hser Hf%fresh_block_for. destruct (atomic_spec_for b coinbase others u _ Hws Hser Hf) as (r & u' & Hr & Hspec).
  exists r, u'. split; [done|]. destruct r as [[fees ms]|]; [|done]. by destruct Hspec as (? & ? & _).
Qed.
End Blocks.

(** ** Counting tree operations *)

Definition tx_size (tx : Transaction) : Z := len (inputs tx) + len (outputs tx).
Definition block_size (b : Block) : Z := sum_of tx_size (transactions b).
Definition inputs_total (b : Block) : Z := sum_of (fun tx => len (inputs tx)) (transactions b).
(** Room for applying a block, undoing a transaction half way and all before it. *)
Definition block_room (b : Block) : Z := 7 * block_size b.

Lemma sum_of_le {A} (f g : A -> Z) xs : (forall x, f x <= g x) -> sum_of f xs <= sum_of g xs.
Proof. intros Hfg. induction xs as [|x xs IH]; [done|]. rewrite !sum_of_cons. specialize (Hfg x). lia. Qed.
Lemma sum_of_add {A} (f g : A -> Z) xs : sum_of (fun x => f x + g x) xs = sum_of f xs + sum_of g xs.
Proof. induction xs as [|x xs IH]; [done|]. rewrite !sum_of_cons. lia. Qed.
Lemma sum_of_pos {A} (f : A -> Z) xs : (forall x, 0 <= f x) -> 0 <= sum_of f xs.
Proof. intros Hf. apply sum_of_nonneg, Forall_forall. intros x _. apply Hf. Qed.
Lemma sum_of_take {A} (f : A -> Z) n xs : (forall x, 0 <= f x) -> sum_of f (take n xs) <= sum_of f xs.
Proof. intros Hf. rewrite <- (take_drop n xs) at 2. rewrite sum_of_app. pose proof (sum_of_pos f (drop n xs) Hf). lia. Qed.

Lemma tx_spent_len tx l : len (tx_spent tx l) <= len l.
Proof. unfold len, tx_spent. pose proof (filter_length_le (fun oe => existsb (fun i => bool_decide (prev_tx_id i = op_tx_id (fst oe)) && (output_index i =? op_index (fst oe))) (inputs tx)) l). lia. Qed.

(** A spent entry belongs to at most one of transactions that share no input. *)
Lemma tx_spent_one txs oe :
  NoDup (concat (map spend_keys txs)) -> sum_of (fun tx => len (tx_spent tx [oe])) txs <= 1.
Proof.
  induction txs as [|tx txs IH]; intros Hnd; [done|]. cbn [map concat] in Hnd. apply NoDup_app in Hnd as (_ & Hdis & Hnd).
  rewrite sum_of_cons. destruct (decide (oe.1 ∈ spend_keys tx)) as [Hin|Hout].
  - rewrite tx_spent_own by (by intros x ->%list_elem_of_singleton). change (len [oe]) with 1.
    rewrite (sum_of_ext _ (fun _ => 0)).
    + clear. assert (sum_of (fun _ : Transaction => 0) txs = 0) as ->; [|lia]. induction txs as [|tx txs IH]; [done|]. by rewrite sum_of_cons.
    + intros tx' Htx'. rewrite tx_spent_other; [done|]. intros x ->%list_elem_of_singleton Hx. apply (Hdis _ Hin), elem_of_keys. eauto.
  - rewrite (tx_spent_other tx) by (by intros x ->%list_elem_of_singleton). change (len (@nil (OutPoint * UtxoEntry))) with 0. specialize (IH Hnd). lia.
Qed.

Lemma tx_spent_total txs l :
  NoDup (concat (map spend_keys txs)) -> sum_of (fun tx => len (tx_spent tx l)) txs <= len l.
Proof.
  intros Hnd. induction l as [|oe l IH].
  - clear. induction txs as [|tx txs IH]; [done|]. rewrite sum_of_cons. change (len (tx_spent tx [])) with 0. lia.
  - rewrite (sum_of_ext _ (fun tx => len (tx_spent tx [oe]) + len (tx_spent tx l))).
    + rewrite sum_of_add, len_cons. pose proof (tx_spent_one txs oe Hnd). lia.
    + intros tx _. change (oe :: l) with ([oe] ++ l). by rewrite tx_spent_app, len_app.
Qed.

Lemma snapshot_len get ins spent bytes :
  match snapshot_inputs get ins spent bytes with
  | Ok (spent', _) | Err (_, spent') => len spent' <= len spent + len ins
  end.
Proof.
  revert spent bytes. induction ins as [|i ins IH]; intros spent bytes; cbn [snapshot_inputs].
  { change (len (@nil TxInput)) with 0. lia. }
  pose proof (len_nonneg ins). destruct (get _) as [e|].
  - destruct (_ <? _); [rewrite len_cons; lia|]. specialize (IH (spent ++ [(input_outpoint i, e)]) (saturating_add U64_MAX bytes (entry_bytes e))).
    destruct (snapshot_inputs _ _ _ _) as [[spent' ?]|[? spent']]; rewrite len_app in IH; change (len [_]) with 1 in IH; rewrite len_cons; lia.
  - specialize (IH spent bytes). destruct (snapshot_inputs _ _ _ _) as [[spent' ?]|[? spent']]; rewrite len_cons; lia.
Qed.

(** ** Simulation: the set behaves as the map *)

Section Simulation.
Context `{Sha2} `{!Sha2Width} `{StateTree} `{Ed25519} `{Layout}.
Context {capacity : Z} {root_of : gmap bytes bytes -> bytes} `{!StateTreeLaws capacity root_of}.
Variable signature_domain : Hash256.
Variable coinbase_maturity : Z.
Variable D : OutPoint -> Prop.
Hypothesis HD : keys_distinct D.

(** The two computations agree when there is room for [k] tree operations; a
    successful result satisfies [Q]. *)
Definition bsim {A} (k : Z) (Q : A -> Prop) (c1 : block_op UtxoSet A) (c2 : block_op utxo_map A) : Prop :=
  forall n s u, k <= n -> refines D n s u ->
  exists r s' u', c1 s = Some (r, s') /\ c2 u = Some (r, u') /\ refines D (n - k) s' u' /\ forall a, r = Ok a -> Q a.

Lemma bsim_weaken {A} k k' Q (c1 : block_op UtxoSet A) c2 : k <= k' -> bsim k Q c1 c2 -> bsim k' Q c1 c2.
Proof.
  intros Hk Hc n s u Hn Hr. destruct (Hc n s u ltac:(lia) Hr) as (r & s' & u' & E1 & E2 & Hr' & HQ). exists r, s', u'.
  split_and!; try done. eapply refines_weaken; [|exact Hr']. lia.
Qed.

Lemma bsim_rolled_back {A} k Q (c1 : store_op UtxoSet unit) c2 e :
  usim D k c1 c2 -> bsim (A := A) k Q (rolled_back c1 e) (rolled_back c2 e).
Proof.
  intros Hc n s u Hn Hr. destruct (Hc n s u Hn Hr) as (r & s' & u' & E1 & E2 & Hr'). unfold rolled_back. rewrite E1, E2.
  destruct r; eexists _, s', u'; split_and!; try done; by intros a [=].
Qed.

Lemma get_agrees n s u : refines D n s u -> store_get s = store_get u.
Proof. intros (<- & _). done. Qed.

Definition in_domain (l : spent_list) : Prop := Forall (fun oe => D oe.1) l.

Lemma tx_spent_domain tx l : in_domain l -> in_domain (tx_spent tx l).
Proof. unfold in_domain, tx_spent. rewrite !Forall_forall. intros Hl oe Hoe. apply Hl. rewrite list_elem_of_In in *. by apply filter_In in Hoe as [? _]. Qed.

Lemma usim_undo_in_order txs spent :
  in_domain spent ->
  usim D (sum_of (fun tx => len (outputs tx) + len (tx_spent tx spent)) txs) (undo_in_order txs spent) (undo_in_order txs spent).
Proof.
  intros Hs. induction txs as [|tx txs IH]; cbn [undo_in_order]; [apply usim_ret|]. rewrite sum_of_cons.
  pose proof (len_nonneg (outputs tx)). pose proof (len_nonneg (tx_spent tx spent)). apply usim_bind; [lia| | |by intros _].
  - apply sum_of_pos. intros tx'. pose proof (len_nonneg (outputs tx')). pose proof (len_nonneg (tx_spent tx' spent)). lia.
  - by apply usim_undo, tx_spent_domain.
Qed.

Section Block.
Variables (b : Block) (coinbase : Transaction) (others : list Transaction).
Hypothesis shape : well_shaped b coinbase others.

Lemma undo_room_bound k spent :
  len spent <= inputs_total b ->
  sum_of (fun tx => len (outputs tx) + len (tx_spent tx spent)) (rev (take k (transactions b))) <= 2 * block_size b.
Proof.
  intros Hs. rewrite <- Permutation_rev. etransitivity.
  { apply sum_of_take. intros tx. pose proof (len_nonneg (outputs tx)). pose proof (len_nonneg (tx_spent tx spent)). lia. }
  rewrite sum_of_add. assert (sum_of (fun tx => len (tx_spent tx spent)) (transactions b) <= 2 * len spent).
  { rewrite (ws_txs _ _ _ shape), sum_of_cons. pose proof (tx_spent_len coinbase spent).
    pose proof (tx_spent_total others spent (ws_inputs _ _ _ shape)). lia. }
  unfold block_size, tx_size, inputs_total in *. rewrite sum_of_add.
  pose proof (sum_of_pos (fun tx => len (outputs tx)) (transactions b) ltac:(intros; apply len_nonneg)). lia.
Qed.

Lemma usim_undo_applied k spent :
  in_domain spent -> len spent <= inputs_total b ->
  usim D (2 * block_size b) (undo_applied_transactions b k spent) (undo_applied_transactions b k spent).
Proof. intros Hd Hs. eapply usim_weaken; [by apply (undo_room_bound k)|by apply usim_undo_in_order]. Qed.

Lemma block_size_nonneg : 0 <= block_size b.
Proof. apply sum_of_pos. intros tx. unfold tx_size. pose proof (len_nonneg (inputs tx)). pose proof (len_nonneg (outputs tx)). lia. Qed.

Lemma bsim_apply_failed {A} Q tx spent_of_tx undo1 undo2 e :
  tx ∈ transactions b -> in_domain spent_of_tx -> len spent_of_tx <= inputs_total b ->
  usim D (2 * block_size b) undo1 undo2 ->
  bsim (A := A) (3 * block_size b) Q (apply_failed tx spent_of_tx undo1 e) (apply_failed tx spent_of_tx undo2 e).
Proof.
  intros Htx Hd Hl Hu n s u Hn Hr.
  assert (len (outputs tx) + len spent_of_tx <= block_size b) as Hroom.
  { unfold block_size, tx_size, inputs_total in *. rewrite sum_of_add.
    apply list_elem_of_split in Htx as (l1 & l2 & Etx). rewrite Etx, !sum_of_app, !sum_of_cons in *.
    pose proof (sum_of_pos (fun tx => len (outputs tx)) l1 ltac:(intros; apply len_nonneg)).
    pose proof (sum_of_pos (fun tx => len (outputs tx)) l2 ltac:(intros; apply len_nonneg)). lia. }
  pose proof block_size_nonneg.
  destruct (usim_undo_partial D HD tx spent_of_tx Hd n s u ltac:(lia) Hr) as (r & s1 & u1 & E1 & E2 & Hr1).
  unfold apply_failed. rewrite E1, E2. destruct r as [[]|p].
  - destruct (bsim_rolled_back (A := A) _ Q _ _ (StateCorrupted (TxApply e)) Hu (n - (len (outputs tx) + len spent_of_tx)) s1 u1 ltac:(lia) Hr1) as (r & s2 & u2 & -> & -> & Hr2 & HQ).
    exists r, s2, u2. split_and!; try done. eapply refines_weaken; [|exact Hr2]. lia.
  - eexists _, s1, u1. split_and!; try done. eapply refines_weaken; [|exact Hr1]. lia.
Qed.

(** What the loop keeps about its undo metadata. *)
Definition spent_ok (rest : list Transaction) (p : progress) : Prop :=
  in_domain (spent_utxos p) /\ len (spent_utxos p) + sum_of (fun tx => len (inputs tx)) rest <= inputs_total b.

Lemma refines_domain n s u l : refines D n s u -> read_from (store_get u) l -> in_domain l.
Proof. intros (_ & He & _) Hl. apply Forall_forall. intros [o e] Hoe. by destruct (He o e (Hl _ Hoe)). Qed.

Lemma bsim_validated rest p :
  Forall (tx_in D) rest -> (forall tx, tx ∈ rest -> tx ∈ transactions b) -> spent_ok rest p ->
  bsim (sum_of tx_size rest + 3 * block_size b) (spent_ok [])
    (apply_validated signature_domain coinbase_maturity b rest p) (apply_validated signature_domain coinbase_maturity b rest p).
Proof.
  revert p. induction rest as [|tx rest IH]; intros p Hin Hsub [Hd Hl] n s u Hn Hr; cbn [apply_validated].
  { exists (Ok p), s, u. split_and!; try done; [|by intros a [= <-]]. eapply refines_weaken; [|exact Hr]. pose proof block_size_nonneg.
    change (sum_of tx_size []) with 0. lia. }
  rewrite sum_of_cons in Hn |- *. rewrite sum_of_cons in Hl. pose proof block_size_nonneg. pose proof (len_nonneg (inputs tx)). pose proof (len_nonneg (outputs tx)).
  assert (0 <= sum_of tx_size rest) by (apply sum_of_pos; intros t; unfold tx_size; pose proof (len_nonneg (inputs t)); pose proof (len_nonneg (outputs t)); lia).
  assert (0 <= sum_of (fun tx => len (inputs tx)) rest) by (apply sum_of_pos; intros t; apply len_nonneg).
  assert (tx_size tx = len (inputs tx) + len (outputs tx)) as Hts by done. rewrite (get_agrees n s u Hr).
  destruct (validate_transaction _ _ _ _ _) as [[[fee sc] svc]|e].
  2:{ apply (bsim_weaken (2 * block_size b)) with (n := n); [lia| |lia|done]. by apply bsim_rolled_back, usim_undo_applied; [|lia]. }
  pose proof (snapshot_spec (store_get u) (inputs tx) (spent_utxos p) (spent_utxos_bytes p)) as Hs.
  pose proof (snapshot_len (store_get u) (inputs tx) (spent_utxos p) (spent_utxos_bytes p)) as Hsl.
  destruct (snapshot_inputs _ _ _ _) as [[spent bytes]|[size spent]]; destruct Hs as (l & -> & Hread & _);
    (assert (in_domain (spent_utxos p ++ l)) as Hd' by (apply Forall_app; split; [done|by eapply refines_domain])).
  2:{ apply (bsim_weaken (2 * block_size b)) with (n := n); [lia| |lia|done]. by apply bsim_rolled_back, usim_undo_applied; [|lia]. }
  apply Forall_cons in Hin as [Htx Hin].
  destruct (usim_apply D HD tx (height (header b)) Htx n s u ltac:(lia) Hr) as (r & s1 & u1 & E1 & E2 & Hr1). rewrite E1, E2.
  destruct r as [m|e].
  - destruct (IH {| applied_count := applied_count p + 1; total_fees := add128 (total_fees p) fee; spent_utxos := spent_utxos p ++ l;
        spent_utxos_bytes := bytes; mutations := mutations p ++ m |} Hin ltac:(set_solver) ltac:(split; [done|cbn [spent_utxos]; lia])
        (n - (len (inputs tx) + len (outputs tx))) s1 u1 ltac:(lia) Hr1)
      as (r & s2 & u2 & -> & -> & Hr2 & HQ). exists r, s2, u2. split_and!; try done. eapply refines_weaken; [|exact Hr2]. lia.
  - destruct (bsim_apply_failed (spent_ok []) tx (tx_spent tx (spent_utxos p ++ l)) _ _ e ltac:(set_solver) ltac:(by apply tx_spent_domain)
      ltac:(pose proof (tx_spent_len tx (spent_utxos p ++ l)); lia) (usim_undo_applied (applied_count p) (spent_utxos p ++ l) Hd' ltac:(lia))
      (n - (len (inputs tx) + len (outputs tx))) s1 u1 ltac:(lia) Hr1) as (r & s2 & u2 & -> & -> & Hr2 & HQ).
    exists r, s2, u2. split_and!; try done. eapply refines_weaken; [|exact Hr2]. lia.
Qed.

Lemma block_size_split : block_size b = tx_size coinbase + sum_of tx_size others.
Proof. unfold block_size. by rewrite (ws_txs _ _ _ shape), sum_of_cons. Qed.
Lemma others_size_nonneg : 0 <= sum_of tx_size others.
Proof. apply sum_of_pos. intros tx. unfold tx_size. pose proof (len_nonneg (inputs tx)). pose proof (len_nonneg (outputs tx)). lia. Qed.

Lemma bsim_coinbase :
  tx_in D coinbase ->
  bsim (2 * tx_size coinbase) (spent_ok others) (apply_coinbase b coinbase) (apply_coinbase b coinbase).
Proof.
  intros Hin n s u Hn Hr. unfold tx_size in *. pose proof (len_nonneg (inputs coinbase)). pose proof (len_nonneg (outputs coinbase)).
  destruct (usim_apply D HD coinbase (height (header b)) Hin n s u ltac:(lia) Hr) as (r & s1 & u1 & E1 & E2 & Hr1).
  unfold apply_coinbase. rewrite E1, E2. destruct r as [m|e].
  - eexists _, s1, u1. split_and!; [done|done|eapply refines_weaken; [|exact Hr1]; lia|]. intros p [= <-]. split; [constructor|].
    unfold inputs_total. rewrite (ws_txs _ _ _ shape), sum_of_cons. cbn [spent_utxos]. change (len (@nil (OutPoint * UtxoEntry))) with 0. lia.
  - destruct (bsim_rolled_back _ (spent_ok others) _ _ (StateCorrupted (CoinbaseApply e)) (usim_undo D HD coinbase [] (List.Forall_nil _))
      (n - (len (inputs coinbase) + len (outputs coinbase))) s1 u1) as (r & s2 & u2 & -> & -> & Hr2 & HQ).
    + change (len (@nil (OutPoint * UtxoEntry))) with 0. lia.
    + done.
    + exists r, s2, u2. split_and!; try done. eapply refines_weaken; [|exact Hr2]. change (len (@nil (OutPoint * UtxoEntry))) with 0. lia.
Qed.

Lemma bsim_atomic :
  Forall (tx_in D) (transactions b) ->
  bsim (block_room b) (fun _ => True) (validate_and_apply_block_transactions_atomic signature_domain coinbase_maturity b)
    (validate_and_apply_block_transactions_atomic signature_domain coinbase_maturity b).
Proof.
  intros Hin n s u Hn Hr. unfold block_room in *. pose proof block_size_nonneg. pose proof block_size_split. pose proof others_size_nonneg.
  unfold validate_and_apply_block_transactions_atomic. rewrite (ws_txs _ _ _ shape) in *. apply Forall_cons in Hin as [Hc Hin].
  destruct (bsim_coinbase Hc n s u ltac:(lia) Hr) as (r & s1 & u1 & -> & -> & Hr1 & HQ1). destruct r as [p1|e].
  2:{ eexists _, s1, u1. split_and!; [done|done|eapply refines_weaken; [|exact Hr1]; lia|done]. }
  destruct (bsim_validated others p1 Hin ltac:(rewrite (ws_txs _ _ _ shape); set_solver) (HQ1 p1 eq_refl) (n - 2 * tx_size coinbase) s1 u1 ltac:(lia) Hr1)
    as (r & s2 & u2 & -> & -> & Hr2 & HQ2). destruct r as [p2|e].
  2:{ eexists _, s2, u2. split_and!; [done|done|eapply refines_weaken; [|exact Hr2]; lia|done]. }
  cbv zeta. destruct (HQ2 p2 eq_refl) as [Hd2 Hl2]. change (sum_of (fun tx => len (inputs tx)) []) with 0 in Hl2.
  assert (forall e, exists r s' u',
    rolled_back (A := Z * list UtxoMutation) (undo_applied_transactions b (applied_count p2) (spent_utxos p2)) e s2 = Some (r, s') /\
    rolled_back (A := Z * list UtxoMutation) (undo_applied_transactions b (applied_count p2) (spent_utxos p2)) e u2 = Some (r, u') /\
    refines D (n - 7 * block_size b) s' u' /\ forall a, r = Ok a -> True) as Hback.
  { intros e. destruct (bsim_rolled_back (A := Z * list UtxoMutation) _ (fun _ => True) _ _ e
      (usim_undo_applied (applied_count p2) (spent_utxos p2) Hd2 ltac:(lia))
      (n - 2 * tx_size coinbase - (sum_of tx_size others + 3 * block_size b)) s2 u2 ltac:(lia) Hr2) as (r & s3 & u3 & E1 & E2 & Hr3 & _).
    exists r, s3, u3. split_and!; try done. eapply refines_weaken; [|exact Hr3]. lia. }
  destruct (_ <? _); [apply Hback|]. destruct (checked_add _ _ _); [|apply Hback]. destruct (validate_coinbase _ _ _); [|apply Hback].
  eexists _, s2, u2. split_and!; [done|done|eapply refines_weaken; [|exact Hr2]; lia|done].
Qed.
End Block.
End Simulation.

(** ** Runs that succeed *)

Section Successes.
Context {S : Type} `{UtxoStore S} `{!UtxoGet S} `{Sha2}.

Lemma rolled_back_Ok {A} (undo : store_op S unit) e s (a : A) s' : rolled_back undo e s <> Some (Ok a, s').
Proof. unfold rolled_back. destruct (undo s) as [[[[]|] ?]|]; done. Qed.
Lemma apply_failed_Ok {A} tx spent (undo : store_op S unit) e s (a : A) s' : apply_failed tx spent undo e s <> Some (Ok a, s').
Proof. unfold apply_failed. destruct (undo_partial_transaction _ _ _) as [[[[]|] s2]|]; [apply rolled_back_Ok|done|done]. Qed.

Context `{Ed25519} `{Layout}.
Variable signature_domain : Hash256.
Variable coinbase_maturity : Z.

(** One successful round of the loop, as an induction principle: [P rest p s] is
    kept backwards by every transaction that was validated and applied. *)
Lemma apply_validated_ind (b : Block) (P : list Transaction -> progress -> S -> Prop) p' s' :
  P [] p' s' ->
  (forall tx rest p s fee sc svc spent bytes m s1,
     validate_transaction signature_domain coinbase_maturity (store_get s) tx (height (header b)) = Ok (fee, sc, svc) ->
     snapshot_inputs (store_get s) (inputs tx) (spent_utxos p) (spent_utxos_bytes p) = Ok (spent, bytes) ->
     apply_transaction tx (height (header b)) s = Some (Ok m, s1) ->
     P rest {| applied_count := applied_count p + 1; total_fees := add128 (total_fees p) fee; spent_utxos := spent;
               spent_utxos_bytes := bytes; mutations := mutations p ++ m |} s1 ->
     P (tx :: rest) p s) ->
  forall rest p s, apply_validated signature_domain coinbase_maturity b rest p s = Some (Ok p', s') -> P rest p s.
Proof.
  intros Hnil Hcons. induction rest as [|tx rest IH]; intros p s; cbn [apply_validated]; [by intros [= -> ->]|].
  destruct (validate_transaction _ _ _ _ _) as [[[fee sc] svc]|e] eqn:Hv; [|by intros ?%rolled_back_Ok].
  destruct (snapshot_inputs _ _ _ _) as [[spent bytes]|[size spent]] eqn:Hs; [|by intros ?%rolled_back_Ok].
  destruct (apply_transaction _ _ _) as [[[m|e] s1]|] eqn:Ha; [|by intros ?%apply_failed_Ok|done].
  intros Hrun. by eapply Hcons; [exact Hv|exact Hs|exact Ha|apply IH].
Qed.

(** An accepted block: its coinbase was applied, the loop ran to its end, the fees
    and the reward fit, and the coinbase was valid. *)
Lemma atomic_Ok b s fees ms s' :
  validate_and_apply_block_transactions_atomic signature_domain coinbase_maturity b s = Some (Ok (fees, ms), s') ->
  exists coinbase others m s1 p,
    transactions b = coinbase :: others /\ apply_transaction coinbase (height (header b)) s = Some (Ok m, s1) /\
    apply_validated signature_domain coinbase_maturity b others
      {| applied_count := 1; total_fees := 0; spent_utxos := []; spent_utxos_bytes := 0; mutations := m |} s1 = Some (Ok p, s') /\
    fees = total_fees p /\ ms = mutations p /\ fees <= U64_MAX /\ 0 <= block_reward (height (header b)) + fees <= U64_MAX /\
    validate_coinbase coinbase (height (header b)) (block_reward (height (header b)) + fees) = Ok tt.
Proof.
  unfold validate_and_apply_block_transactions_atomic. destruct (transactions b) as [|coinbase others]; [done|]. unfold apply_coinbase.
  destruct (apply_transaction coinbase _ s) as [[[m|e] s1]|] eqn:Ha; [|destruct (rolled_back _ _ _) as [[[a|] ?]|] eqn:Eb; [by apply rolled_back_Ok in Eb|done|done]|done].
  destruct (apply_validated _ _ b others _ s1) as [[[p|e] s2]|] eqn:Hrun; [|done|done]. cbv zeta.
  destruct (Z.ltb_spec U64_MAX (total_fees p)); [by intros ?%rolled_back_Ok|].
  destruct (checked_add _ _ _) as [reward|] eqn:Er; [|by intros ?%rolled_back_Ok].
  destruct (validate_coinbase _ _ _) as [[]|] eqn:Ec; [|by intros ?%rolled_back_Ok].
  intros [= <- <- <-]. apply checked_Some in Er as [? ->]. exists coinbase, others, m, s1, p. split_and!; done || lia.
Qed.
End Successes.

(** ** The value of the set *)

Section Projection.
Context `{Sha2} `{StateTree}.

(** Whatever the state tree does, the entries of the set change as those of a map. *)
Definition projects {A} (c1 : store_op UtxoSet A) (c2 : store_op utxo_map A) : Prop :=
  forall s r s', c1 s = Some (r, s') -> c2 (utxos s) = Some (r, utxos s').

Lemma projects_bind {A B} (c1 : store_op UtxoSet A) c2 (f1 : A -> store_op UtxoSet B) f2 :
  projects c1 c2 -> (forall a, projects (f1 a) (f2 a)) -> projects (c1 ≫= f1) (c2 ≫= f2).
Proof.
  intros Hc Hf s r s'. unfold mbind, store_bind. destruct (c1 s) as [[[a|e] s1]|] eqn:E1; [| |done]; rewrite (Hc _ _ _ E1).
  - apply Hf.
  - by intros [= <- <-].
Qed.
Lemma projects_result {A} (r : result StateError A) : projects (of_result r) (of_result r).
Proof. by intros s r' s' [= <- <-]. Qed.
Lemma projects_ret {A} (a : A) : projects (mret a) (mret a).
Proof. apply (projects_result (Ok a)). Qed.
Lemma projects_insert o e : projects (UtxoSet_insert o e) (spec_insert o e).
Proof.
  intros s r s'. unfold UtxoSet_insert, contains, spec_insert. destruct (utxos s !! o) as [x|] eqn:Eo.
  - rewrite bool_decide_true by eauto. by intros [= <- <-].
  - rewrite bool_decide_false by (intros [? ?]; done). destruct (TxOutput_serialize (output e)); [|by intros [= <- <-]].
    destruct (st_insert _ _ _); [|done]. by intros [= <- <-].
Qed.
Lemma projects_remove o : projects (removing o) (removing o).
Proof.
  intros s r s'. unfold removing. cbn [store_remove UtxoSet_store spec_store]. unfold UtxoSet_remove.
  destruct (utxos s !! o) as [x|] eqn:Eo.
  - destruct (st_remove _ _); [|done]. by intros [= <- <-].
  - intros [= <- <-]. by rewrite delete_id.
Qed.

Lemma projects_apply tx h : projects (apply_transaction tx h) (apply_transaction tx h).
Proof.
  assert (forall ins, projects (spend_inputs ins) (spend_inputs ins)) as Hspend.
  { induction ins as [|i ins IH]; cbn [spend_inputs]; [apply projects_ret|]. apply projects_bind; [apply projects_remove|].
    intros [e|]; [|apply (projects_result (Err _))]. apply projects_bind; [done|]. intros ms. apply projects_ret. }
  assert (forall id cb outs idx, projects (create_outputs id h cb idx outs) (create_outputs id h cb idx outs)) as Hcreate.
  { intros id cb. induction outs as [|o outs IH]; intros idx; cbn [create_outputs]; [apply projects_ret|].
    apply projects_bind; [apply projects_insert|]. intros _. apply projects_bind; [done|]. intros ms. apply projects_ret. }
  unfold apply_transaction. apply projects_bind; [apply projects_result|]. intros id.
  apply projects_bind; [destruct (negb _); [apply Hspend|apply projects_ret]|]. intros rs. apply projects_bind; [apply Hcreate|].
  intros ms. apply projects_ret.
Qed.
End Projection.

Definition entries_u64 (u : utxo_map) : Prop := forall o e, u !! o = Some e -> in_u64 (value (output e)).

Section Supply.
Context `{Sha2} `{StateTree} `{Ed25519} `{Layout}.
Variable signature_domain : Hash256.
Variable coinbase_maturity : Z.

Lemma apply_entries_u64 tx h u ms u' :
  apply_transaction tx h u = Some (Ok ms, u') -> amounts_ok (outputs tx) -> entries_u64 u -> entries_u64 u'.
Proof.
  intros Ha Hout Hu o e Ho. destruct (apply_effect _ _ _ _ _ Ha) as (_ & _ & _ & id & _ & Hk).
  destruct (Hk o e Ho) as [Ho'|[_ Hin]]; [by eapply Hu|]. unfold amounts_ok in Hout. rewrite Forall_forall in Hout. by apply Hout.
Qed.

(** A validated transaction destroys exactly its fee. *)
Lemma validated_supply (u : utxo_map) tx h fee sc svc ms u' :
  entries_u64 u -> amounts_ok (outputs tx) -> is_coinbase tx = false ->
  validate_transaction signature_domain coinbase_maturity (store_get u) tx h = Ok (fee, sc, svc) ->
  apply_transaction tx h u = Some (Ok ms, u') -> supply u' + fee = supply u /\ 0 <= fee <= U64_MAX.
Proof.
  intros Hu Hout Hcb Hv Ha. destruct (accepted_fee _ _ _ _ _ _ _ _ Hu Hout Hv) as (es & Hes & Hsum & Hfee).
  destruct (apply_effect _ _ _ _ _ Ha) as (_ & Hk & Hs & _). rewrite Hcb in Hk.
  assert (collect_spent_utxos ms = zip (spend_keys tx) es) as Heq.
  { eapply read_from_unique; [by eapply apply_spent_read| |].
    - intros [o e] Hoe. unfold spend_keys in Hoe. clear -Hes Hoe. induction Hes as [|i e' ins es [He _] _ IH]; [by apply not_elem_of_nil in Hoe|].
      cbn [map zip zip_with] in Hoe. apply elem_of_cons in Hoe as [[= -> ->]|Hoe]; [done|by apply IH].
    - rewrite Hk. symmetry. apply fst_zip. unfold spend_keys. rewrite length_map. erewrite Forall2_length by exact Hes. done. }
  assert (sum_of (fun oe => value (output oe.2)) (collect_spent_utxos ms) = sum_of (fun e => value (output e)) es) as Hse.
  { rewrite Heq. unfold spend_keys. clear -Hes. induction Hes as [|i e ins es _ _ IH]; [done|]. cbn [map zip zip_with]. rewrite !sum_of_cons. cbn [snd]. by rewrite <- IH. }
  split; lia.
Qed.

Lemma apply_validated_supply b p' s' rest p s :
  apply_validated signature_domain coinbase_maturity b rest p s = Some (Ok p', s') ->
  Forall (fun tx => is_coinbase tx = false /\ amounts_ok (outputs tx)) rest -> entries_u64 (utxos s) ->
  0 <= total_fees p -> total_fees p + len rest * 2 ^ 64 <= 2 ^ 128 ->
  supply (utxos s') + total_fees p' = supply (utxos s) + total_fees p /\ entries_u64 (utxos s').
Proof.
  intros Hrun. pattern rest, p, s. revert rest p s Hrun. apply apply_validated_ind; cbv beta; [done|].
  intros tx rest p s fee sc svc spent bytes m s1 Hv _ Ha IH Hrest Hu Hp Hroom. apply Forall_cons in Hrest as [[Hcb Hout] Hrest].
  apply projects_apply in Ha. rewrite len_cons in Hroom. pose proof (len_nonneg rest).
  destruct (validated_supply (utxos s) tx _ fee sc svc m (utxos s1) Hu Hout Hcb Hv Ha) as [Hs Hfee].
  unfold U64_MAX in Hfee. cbn [total_fees] in IH. rewrite add128_small in IH by lia.
  destruct IH as [IH Hu']; [done|by eapply apply_entries_u64|lia|lia|]. split; [lia|done].
Qed.

Lemma validate_coinbase_Ok tx h reward :
  amounts_ok (outputs tx) -> validate_coinbase tx h reward = Ok tt -> is_coinbase tx = true /\ sum_of value (outputs tx) = reward.
Proof.
  intros Hout. unfold validate_coinbase, is_coinbase. destruct (inputs tx) as [|i [|]]; try done. case_bool_decide; [|done]. cbn [negb].
  destruct (check_tx_size tx) as [[]|] eqn:Es; [|done]. destruct (_ <? _); [done|]. destruct (negb _); [done|].
  destruct (witnesses tx) as [|w [|]]; try done. destruct (_ && _); [done|]. case_bool_decide; [done|].
  do 2 (destruct (for_enum _ _ _) as [[]|]; [|done]). destruct (Z.ltb_spec U64_MAX (sum_outputs (outputs tx))); [done|].
  destruct (Z.eqb_spec (sum_outputs (outputs tx)) reward) as [Heq|]; [|done]. intros _. split; [done|].
  apply check_tx_size_Ok in Es as (? & _ & _ & _ & Hlo). by rewrite <- sum_outputs_exact.
Qed.

(** A block adds exactly its subsidy. *)
Lemma block_supply b coinbase others s fees ms s' :
  well_shaped b coinbase others -> len (transactions b) <= MAX_BLOCK_SIZE ->
  Forall (fun tx => amounts_ok (outputs tx)) (transactions b) -> entries_u64 (utxos s) ->
  validate_and_apply_block_transactions_atomic signature_domain coinbase_maturity b s = Some (Ok (fees, ms), s') ->
  supply (utxos s') = supply (utxos s) + block_reward (height (header b)) /\ entries_u64 (utxos s').
Proof.
  intros Hws Hlen Hout Hu (cb & oth & m & s1 & p & Htx & Ha & Hrun & -> & -> & _ & _ & Hc)%atomic_Ok.
  rewrite (ws_txs _ _ _ Hws) in *. injection Htx as <- <-. apply Forall_cons in Hout as [Hoc Hout].
  apply projects_apply in Ha. destruct (apply_effect _ _ _ _ _ Ha) as (_ & Hk & Hs & _). rewrite (ws_coinbase _ _ _ Hws) in Hk.
  destruct (collect_spent_utxos m); [|done]. change (sum_of _ []) with 0 in Hs.
  rewrite len_cons in Hlen. unfold MAX_BLOCK_SIZE in Hlen.
  apply apply_validated_supply in Hrun as [Hrun Hu2].
  - apply validate_coinbase_Ok in Hc as [_ Hc]; [|done]. cbn [total_fees] in Hrun. split; [lia|done].
  - apply Forall_and. split; [apply (ws_others _ _ _ Hws)|done].
  - by eapply apply_entries_u64.
  - done.
  - cbn [total_fees]. lia.
Qed.
End Supply.

(** ** The three paths, and the structural pre-check *)

Section Paths.
Context `{Sha2} `{StateTree} `{Ed25519} `{Layout}.
Variable signature_domain : Hash256.
Variable coinbase_maturity : Z.

Lemma unguarded_agrees b p' (s' : UtxoSet) rest p s :
  apply_validated signature_domain coinbase_maturity b rest p s = Some (Ok p', s') ->
  apply_unguarded signature_domain coinbase_maturity (height (header b)) rest (total_fees p) s = Some (Ok (total_fees p'), s').
Proof.
  intros Hrun. pattern rest, p, s. revert rest p s Hrun. apply apply_validated_ind; cbv beta; [done|].
  intros tx rest p s fee sc svc spent bytes m s1 Hv _ Ha IH. cbn [apply_unguarded]. by rewrite Hv, Ha.
Qed.

(** The two snapshots agree where every input is there. *)
Lemma snapshots_agree get ins es spent bytes sum spent' bytes' :
  Forall2 (fun i e => get (input_outpoint i) = Some e) ins es ->
  Forall (fun e => in_u64 (value (output e))) es -> 0 <= sum -> sum + len ins * 2 ^ 64 <= 2 ^ 128 ->
  snapshot_inputs get ins spent bytes = Ok (spent', bytes') ->
  snapshot_all get ins spent bytes sum = Ok (spent', bytes', sum + sum_of (fun e => value (output e)) es).
Proof.
  intros Hes. revert spent bytes sum. induction Hes as [|i e ins es He _ IH]; intros spent bytes sum Hv Hs Hb; cbn [snapshot_inputs snapshot_all].
  { intros [= <- <-]. change (sum_of _ []) with 0. by rewrite Z.add_0_r. }
  apply Forall_cons in Hv as [Hv Hes]. rewrite He. destruct (_ <? _); [done|]. intros Hsnap.
  rewrite len_cons in Hb. pose proof (len_nonneg ins). unfold in_u64, U64_MAX in Hv.
  assert (saturating_add U128_MAX sum (value (output e)) = sum + value (output e)) as -> by (unfold saturating_add, U128_MAX; lia).
  rewrite sum_of_cons, Z.add_assoc. apply IH; [done|lia|lia|done].
Qed.

Lemma trusted_agrees b p' s' rest p s :
  apply_validated signature_domain coinbase_maturity b rest p s = Some (Ok p', s') ->
  Forall (fun tx => amounts_ok (outputs tx)) rest -> entries_u64 (utxos s) ->
  0 <= total_fees p -> total_fees p + len rest * 2 ^ 64 <= 2 ^ 128 ->
  apply_trusted b rest p s = Some (Ok p', s').
Proof.
  intros Hrun. pattern rest, p, s. revert rest p s Hrun. apply apply_validated_ind; cbv beta; [done|].
  intros tx rest p s fee sc svc spent bytes m s1 Hv Hsnap Ha IH Hrest Hu Hp Hroom. apply Forall_cons in Hrest as [Hout Hrest].
  destruct (accepted_fee _ _ (store_get s) tx _ fee sc svc Hu Hout Hv) as (es & Hes & Hsum & Hfee).
  apply validate_transaction_inv in Hv as (Hst & _). destruct Hst as (_ & _ & _ & _ & _ & Hsz & _).
  apply check_tx_size_Ok in Hsz as (_ & _ & _ & Hli & Hlo). unfold U16_MAX, U64_MAX in *.
  assert (Forall (fun e => in_u64 (value (output e))) es) as Hes64.
  { clear -Hes Hu. induction Hes as [|i e ins es [He _] _ IH]; constructor; [by eapply Hu|done]. }
  assert (Forall2 (fun i e => store_get s (input_outpoint i) = Some e) (inputs tx) es) as Hread by (eapply Forall2_impl; [exact Hes|by intros i e [? _]]).
  cbn [apply_trusted]. rewrite (snapshots_agree _ _ _ _ _ 0 _ _ Hread Hes64 ltac:(lia) ltac:(lia) Hsnap). cbv zeta.
  rewrite sum_outputs_exact by (done || unfold U16_MAX; lia). rewrite Hsum.
  assert (0 <= sum_of value (outputs tx)) by (apply sum_of_nonneg; eapply Forall_impl; [exact Hout|by intros o [? _]]).
  replace (0 + (sum_of value (outputs tx) + fee)) with (fee + sum_of value (outputs tx)) by lia. unfold checked_sub. rewrite Z.add_simpl_r.
  assert (checked U128_MAX fee = Some fee) as -> by (apply checked_Some; unfold U128_MAX; lia).
  rewrite Ha. rewrite len_cons in Hroom. pose proof (len_nonneg rest). cbn [total_fees] in IH. rewrite add128_small in IH by lia.
  assert (saturating_add U128_MAX (total_fees p) fee = total_fees p + fee) as -> by (unfold saturating_add, U128_MAX; lia).
  apply projects_apply in Ha. apply IH; [done|by eapply apply_entries_u64|lia|lia].
Qed.

(** C32: The three ways of applying a block agree.  When the validating, atomic path
    accepts a block, the assume-valid path (which runs no signature and no
    script) returns the same fees and the same mutation log and leaves the very
    same state, and the non-atomic path the same fees and state. *)
Theorem application_paths_agree (b : Block) (s s' : UtxoSet) (fees : Z) (ms : list UtxoMutation) :
  len (transactions b) <= MAX_BLOCK_SIZE -> Forall (fun tx => amounts_ok (outputs tx)) (transactions b) -> entries_u64 (utxos s) ->
  validate_and_apply_block_transactions_atomic signature_domain coinbase_maturity b s = Some (Ok (fees, ms), s') ->
  apply_block_transactions_assume_valid b s = Some (Ok (fees, ms), s') /\
  validate_and_apply_block_transactions signature_domain coinbase_maturity b s = Some (Ok fees, s').
Proof.
  intros Hlen Hout Hu (coinbase & others & m & s1 & p & Htx & Ha & Hrun & -> & -> & Hfee & Hreward & Hc)%atomic_Ok. rewrite Htx in *.
  apply Forall_cons in Hout as [Hoc Hout]. rewrite len_cons in Hlen. unfold MAX_BLOCK_SIZE in Hlen. split.
  - unfold apply_block_transactions_assume_valid, apply_coinbase. rewrite Htx, Ha.
    rewrite (trusted_agrees _ _ _ _ _ _ Hrun); [|done|eapply apply_entries_u64; [by apply projects_apply|done|done]|done|cbn [total_fees]; lia].
    by destruct (Z.ltb_spec U64_MAX (total_fees p)); [lia|].
  - unfold validate_and_apply_block_transactions. rewrite Htx. cbv zeta. rewrite Ha. apply unguarded_agrees in Hrun. cbn [total_fees] in Hrun.
    rewrite Hrun. destruct (Z.ltb_spec U64_MAX (total_fees p)); [lia|].
    assert (checked_add U64_MAX (block_reward (height (header b))) (total_fees p) = Some (block_reward (height (header b)) + total_fees p)) as ->
      by (by apply checked_Some).
    by rewrite Hc.
Qed.

Lemma admissible_of_output_script idx o : check_output_script idx o = Ok tt -> check_script_admissible idx o = Ok tt.
Proof.
  intros Ho. unfold check_script_admissible. destruct (Z.eqb_spec (len (script o)) 0) as [Hz|]; [|done].
  unfold check_output_script, is_phase1_script, validate_output_script, deserialize_program in Ho. by rewrite Hz in Ho.
Qed.

Lemma standalone_structure tx : standalone_rules tx -> check_tx_structure tx = Ok tt.
Proof.
  intros (Hi & Ho & Hw & Hws & Hd & Hsz & Hdi & Hu & Hs). unfold check_tx_structure.
  destruct (Z.eqb_spec (len (inputs tx)) 0) as [E|_]; [by destruct (inputs tx)|]. destruct (Z.eqb_spec (len (outputs tx)) 0) as [E|_]; [by destruct (outputs tx)|].
  rewrite Hw, Z.eqb_refl, Hws, Hsz, Hdi. cbn [negb]. rewrite for_enum_Ok in Hd, Hu, Hs.
  assert (forall k o, outputs tx !! k = Some o -> check_dust (0 + Z.of_nat k) o = Ok tt /\ check_datum_hash (0 + Z.of_nat k) o = Ok tt) as Hu'.
  { intros k o Hk. specialize (Hu k o Hk). unfold check_dust_and_hash in Hu. by destruct (check_dust _ _) as [[]|]. }
  rewrite (proj2 (for_enum_Ok (fun idx o => let? _ := check_datum_size idx o in let? _ := check_datum_hash idx o in check_script_admissible idx o) 0 _)).
  - apply for_enum_Ok. intros k o Hk. by apply Hu'.
  - intros k o Hk. rewrite (Hd k o Hk). destruct (Hu' k o Hk) as [_ ->]. by apply admissible_of_output_script, Hs.
Qed.

Lemma coinbase_structure tx h reward : validate_coinbase tx h reward = Ok tt -> check_coinbase_structure tx h = Ok tt.
Proof.
  unfold validate_coinbase, check_coinbase_structure. destruct (inputs tx) as [|i [|]]; try done. destruct (negb _); [done|].
  destruct (check_tx_size tx) as [[]|]; [|done]. destruct (_ <? _); [done|]. destruct (negb _); [done|].
  destruct (witnesses tx) as [|w [|]]; try done. destruct (_ && _); [done|]. destruct (bool_decide _); [done|].
  destruct (for_enum _ 0 (outputs tx)) as [[]|] eqn:E1; [|done]. destruct (for_enum check_output_script 0 (outputs tx)) as [[]|] eqn:E2; [|done].
  intros _. rewrite for_enum_Ok in *. intros k o Hk. specialize (E1 k o Hk). specialize (E2 k o Hk).
  destruct (check_dust _ _) as [[]|]; [|done]. destruct (check_datum_size _ _) as [[]|]; [|done]. rewrite E1. by apply admissible_of_output_script.
Qed.

Lemma validated_rules b p' (s' : UtxoSet) rest p s :
  apply_validated signature_domain coinbase_maturity b rest p s = Some (Ok p', s') -> Forall standalone_rules rest.
Proof.
  intros Hrun. pattern rest, p, s. revert rest p s Hrun. apply apply_validated_ind; cbv beta; [constructor|].
  intros tx rest p s fee sc svc spent bytes m s1 Hv _ _ IH. constructor; [|done]. by apply validate_transaction_inv in Hv as [? _].
Qed.

(** The structural pre-check has no false alarms: a block that full validation
    accepts (on any set) passes [validate_block_structure], so storing fork
    blocks only after the pre-check never loses a block that could become valid. *)
Theorem structure_precheck_complete (b : Block) (s s' : UtxoSet) (r : Z * list UtxoMutation) :
  validate_and_apply_block_transactions_atomic signature_domain coinbase_maturity b s = Some (Ok r, s') ->
  validate_block_structure b = Ok tt.
Proof.
  destruct r as [fees ms]. intros (coinbase & others & m & s1 & p & Htx & _ & Hrun & _ & _ & _ & _ & Hc)%atomic_Ok.
  unfold validate_block_structure. rewrite Htx, (coinbase_structure _ _ _ Hc). apply for_each_Ok.
  apply validated_rules in Hrun. eapply Forall_impl; [exact Hrun|]. apply standalone_structure.
Qed.
End Paths.

(** ** Rejection, undo and supply *)

Section Properties.
Context `{Sha2} `{!Sha2Width} `{StateTree} `{Ed25519} `{Layout} `{Argon2}.
Context {capacity : Z} {root_of : gmap bytes bytes -> bytes} `{!StateTreeLaws capacity root_of}.
Variable signature_domain : Hash256.
Variable coinbase_maturity : Z.

Lemma header_shape b parent ts target clock :
  validate_block_header_skip_pow b parent ts target clock = Ok tt ->
  (exists coinbase others, well_shaped b coinbase others) /\ len (transactions b) <= MAX_BLOCK_SIZE.
Proof.
  intros (_ & _ & _ & _ & _ & _ & (bytes & Hb & Hlen) & Htx)%header_inner_Ok. split; [by apply check_transactions_Ok|].
  unfold Block_serialize in Hb. destruct (serialize_all _ _) as [txs|] eqn:Es; [|done]. injection Hb as <-.
  apply (serialize_all_lower _ 1) in Es.
  - rewrite !len_app in Hlen. pose proof (len_nonneg (BlockHeader_serialize (header b))). rewrite len_le_bytes in Hlen. lia.
  - intros tx e _ He. unfold Transaction_serialize, serialize_header in He. inv_res. rewrite !len_app, !len_le_bytes.
    repeat match goal with |- context [len ?l] => lazymatch goal with _ : 0 <= len l |- _ => fail | _ => pose proof (len_nonneg l) end end. lia.
Qed.

(** The application of a header-checked block whose identifiers are new. *)
Lemma atomic_on_set D b coinbase others s n :
  keys_distinct D -> Forall (tx_in D) (transactions b) -> block_room b <= n -> reachable (capacity := capacity) D n s ->
  well_shaped b coinbase others -> fresh_block b (utxos s) ->
  exists r s', validate_and_apply_block_transactions_atomic signature_domain coinbase_maturity b s = Some (r, s') /\
    refines D (n - block_room b) s' (utxos s') /\
    match r with
    | Ok (fees, ms) => applied (height (header b)) (transactions b) (utxos s) ms (utxos s') /\
        NoDup (concat (map spend_keys (transactions b)))
    | Err e => utxos s' = utxos s /\ is_corrupted e = false
    end.
Proof.
  intros HD Hin Hn Hreach Hws Hfresh. pose proof (reachable_refines D n s HD Hreach) as Hr.
  destruct (bsim_atomic signature_domain coinbase_maturity D HD b coinbase others Hws Hin n s (utxos s) Hn Hr) as (r & s' & u' & E1 & E2 & Hr' & _).
  pose proof (entries_serializable _ _ (proj1 (proj2 Hr))) as Hser.
  destruct (atomic_spec signature_domain coinbase_maturity b coinbase others (utxos s) Hws Hser Hfresh) as (r' & u'' & E3 & Hspec).
  rewrite E2 in E3. injection E3 as <- <-. exists r, s'. split; [done|]. pose proof (proj1 Hr') as Hu'. rewrite Hu'. split; [done|].
  destruct r as [[fees ms]|e]; [done|]. exact Hspec.
Qed.

(** C8: A rejected block leaves no trace.  Take a block that passed the header rules
    and whose identifiers are new: no entry of the set belongs to a transaction of
    the block, and neither has the zero identifier of a coinbase input.  When it is
    rejected by any rule (a transaction, the undo-metadata limit, the fees or the
    coinbase), the set is as before the call: the same entries, script index and
    state root, and the error is that of the rule, never a corrupted state.  As
    long as the tree has room for the block ([block_room] insertions) the call
    returns.  Without new identifiers it is false: a block that repeats the
    coinbase of an unspent output loses that output
    ([duplicate_coinbase_rollback_loses_entry]). *)
Theorem rejected_block_leaves_no_trace (D : OutPoint -> Prop) (b : Block) (s : UtxoSet) parent ts target clock :
  keys_distinct D -> Forall (tx_in D) (transactions b) -> reachable (capacity := capacity) D (block_room b) s ->
  validate_block_header_skip_pow b parent ts target clock = Ok tt -> fresh_block b (utxos s) ->
  exists r s', validate_and_apply_block_transactions_atomic signature_domain coinbase_maturity b s = Some (r, s') /\
    forall e, r = Err e -> utxos s' = utxos s /\ by_script s' = by_script s /\ Utxo.state_root s' = Utxo.state_root s /\
      is_corrupted e = false.
Proof.
  intros HD Hin Hreach ((coinbase & others & Hws) & _)%header_shape Hfresh.
  destruct (atomic_on_set D b coinbase others s (block_room b) HD Hin ltac:(lia) Hreach Hws Hfresh) as (r & s' & Ha & Hr' & Hspec).
  exists r, s'. split; [done|]. intros e ->. destruct Hspec as [Hu He]. rewrite Hu in Hr'.
  destruct (refines_same D _ _ s' s (utxos s) Hr' (reachable_refines D _ s HD Hreach)) as (? & ? & ?). done.
Qed.

(** C11: Reorganisations can undo whole blocks.  After a block was accepted,
    [undo_block_transactions] with the spent entries of its mutation log
    restores the entries, the script index and the state root. *)
Theorem accepted_block_undo_restores (D : OutPoint -> Prop) (b : Block) (s s' : UtxoSet) fees ms parent ts target clock :
  keys_distinct D -> Forall (tx_in D) (transactions b) -> reachable (capacity := capacity) D (9 * block_size b) s ->
  validate_block_header_skip_pow b parent ts target clock = Ok tt -> fresh_block b (utxos s) ->
  validate_and_apply_block_transactions_atomic signature_domain coinbase_maturity b s = Some (Ok (fees, ms), s') ->
  exists s'', undo_block_transactions b (collect_spent_utxos ms) s' = Some (Ok tt, s'') /\
    utxos s'' = utxos s /\ by_script s'' = by_script s /\ Utxo.state_root s'' = Utxo.state_root s.
Proof.
  intros HD Hin Hreach ((coinbase & others & Hws) & _)%header_shape Hfresh Ha. pose proof (block_size_nonneg b) as Hb0.
  destruct (atomic_on_set D b coinbase others s (9 * block_size b) HD Hin ltac:(unfold block_room; lia) Hreach Hws Hfresh) as (r & s1 & Ha' & Hr' & Hspec).
  rewrite Ha in Ha'. injection Ha' as <- <-. destruct Hspec as [Happ Hnd]. unfold block_room in Hr'.
  pose proof (reachable_refines D _ s HD Hreach) as Hr. pose proof (entries_serializable _ _ (proj1 (proj2 Hr))) as Hser.
  assert (undo_block_transactions b (collect_spent_utxos ms) (utxos s') = Some (Ok tt, utxos s)) as Hundo.
  { unfold undo_block_transactions, undo_applied_transactions. rewrite firstn_all, <- (app_nil_r (collect_spent_utxos ms)).
    eapply applied_undo; [exact Happ|done|done|]. by intros oe tx ?%not_elem_of_nil. }
  destruct (applied_domain D _ _ _ _ _ Happ Hin) as (_ & Hd & Hl); [intros o e Ho; by destruct (proj1 (proj2 Hr) o e Ho)|].
  destruct (usim_undo_applied D HD b coinbase others Hws (length (transactions b)) (collect_spent_utxos ms) Hd Hl
    (9 * block_size b - 7 * block_size b) s' (utxos s') ltac:(lia) Hr') as (r & s2 & u2 & E1 & E2 & Hr2).
  unfold undo_block_transactions in *. rewrite Hundo in E2. injection E2 as <- <-. exists s2. split; [done|].
  by apply (refines_same D _ _ s2 s (utxos s) Hr2 Hr).
Qed.

(** Chains of accepted blocks on the empty set, each the child of the one before. *)
Inductive accepted_chain : list Block -> UtxoSet -> Prop :=
| chain_empty : accepted_chain [] UtxoSet_new
| chain_extend bs s b ts target clock fees ms s' :
    accepted_chain bs s ->
    validate_block_header_skip_pow b (header <$> last bs) ts target clock = Ok tt ->
    Forall (fun tx => amounts_ok (outputs tx)) (transactions b) ->
    validate_and_apply_block_transactions_atomic signature_domain coinbase_maturity b s = Some (Ok (fees, ms), s') ->
    accepted_chain (bs ++ [b]) s'.

Lemma chain_heights bs s : accepted_chain bs s -> forall b, last bs = Some b -> height (header b) = Z.of_nat (length bs) - 1.
Proof.
  induction 1 as [|bs s b ts target clock fees ms s' _ IH Hh _ _]; intros b' Hb'; [done|].
  rewrite last_snoc in Hb'. injection Hb' as <-. apply header_inner_Ok in Hh as (_ & Hh & _). rewrite length_app. cbn [length].
  unfold check_height in Hh. destruct (last bs) as [p|] eqn:El; cbn [fmap option_fmap option_map] in Hh.
  - specialize (IH p eq_refl). destruct (checked_add _ _ _) as [x|] eqn:Ea; [|done]. cbn [ok_or] in Hh. apply checked_Some in Ea as [_ ->].
    destruct (Z.eqb_spec (height (header b)) (height (header p) + 1)); [lia|done].
  - apply last_None in El as ->. destruct (Z.eqb_spec (height (header b)) 0); [|done]. cbn [length]. lia.
Qed.

(** C7: The money supply is the emission schedule.  After any chain of accepted
    blocks the value of all entries of the set is exactly the sum of the
    subsidies of the heights so far: no transaction, fee or coinbase creates or
    destroys value beyond that; and every entry is a [u64] amount. *)
Theorem supply_follows_schedule (bs : list Block) (s : UtxoSet) :
  accepted_chain bs s ->
  supply (utxos s) = sum_of (fun i => block_reward (Z.of_nat i)) (seq 0 (length bs)) /\ entries_u64 (utxos s).
Proof.
  induction 1 as [|bs s b ts target clock fees ms s' Hc IH Hh Hout Ha].
  { cbn [utxos UtxoSet_new]. unfold supply. rewrite map_to_list_empty. split; [done|]. by intros o e ?%lookup_empty_Some. }
  destruct IH as [Hs Hu]. pose proof (header_shape _ _ _ _ _ Hh) as ((coinbase & others & Hws) & Hlen).
  destruct (block_supply _ _ b coinbase others s fees ms s' Hws Hlen Hout Hu Ha) as [Hs' Hu']. split; [|done].
  assert (accepted_chain (bs ++ [b]) s') as Hc' by (by econstructor).
  pose proof (chain_heights _ _ Hc' b ltac:(by rewrite last_snoc)) as Hheight. rewrite length_app in *. cbn [length] in *.
  rewrite seq_app, sum_of_app, Hs', Hs. cbn [seq]. rewrite sum_of_cons. change (sum_of _ []) with 0. rewrite Hheight.
  replace (Z.of_nat (0 + length bs)) with (Z.of_nat (length bs + 1) - 1) by lia. lia.
Qed.
End Properties.

(** ** Witnesses: a first block, and one that pays itself too much *)

Section Witnesses.
#[local] Instance sha : Sha2 := toy_digest.
#[local] Instance argon2 : Argon2 := toy_argon2.
#[local] Existing Instance toy_ed25519.
#[local] Existing Instance toy_layout.
#[local] Existing Instance sample_tree.

Definition first_coinbase (reward : Z) : Transaction := {|
  inputs := [{| prev_tx_id := Hash256_ZERO; output_index := 0 |}];
  outputs := [{| value := reward; script := sample_key; datum := None; datum_hash := None |}];
  witnesses := [{| witness := []; redeemer := None |}] |}.
Definition first_block (reward : Z) : Block := {|
  header := {|
    version := 1; height := 0; prev_block_id := Hash256_ZERO; timestamp := 1700000000; difficulty_target := genesis_target;
    nonce := 0; tx_root := match compute_tx_root [first_coinbase reward] with Ok r => r | Err _ => zero32 end;
    Block.state_root := zero32 |};
  transactions := [first_coinbase reward] |}.
Definition first_D (o : OutPoint) : Prop := o = output_outpoint (sample_id (first_coinbase 0)) 0.
Definition apply_first (reward : Z) :=
  validate_and_apply_block_transactions_atomic sample_domain 360 (first_block reward) (UtxoSet_new).

Lemma first_keys_distinct : keys_distinct first_D.
Proof. intros a b -> -> _. reflexivity. Qed.
Lemma first_in reward : tx_id (first_coinbase reward) = Ok (sample_id (first_coinbase 0)) ->
  Forall (tx_in first_D) (transactions (first_block reward)).
Proof.
  intros Hid. apply Forall_cons. split; [|constructor]. intros id i Hid' Hi. rewrite Hid in Hid'. injection Hid' as <-.
  change (length (outputs (first_coinbase reward))) with 1%nat in Hi. by replace i with 0%nat by lia.
Qed.
Lemma first_reachable n : 0 <= n <= 100 -> reachable (capacity := 1000) first_D n UtxoSet_new.
Proof. intros Hn. split; [lia|]. exists [], []. split; [constructor|]. split; [change (calls_size []) with 0; lia|done]. Qed.
Lemma first_fresh reward : tx_id (first_coinbase reward) = Ok (sample_id (first_coinbase 0)) -> fresh_block (first_block reward) ∅.
Proof.
  intros Hid. split; [intros o e He; apply lookup_empty_Some in He; destruct He|].
  intros tx Htx. apply list_elem_of_singleton in Htx as ->. rewrite Hid. vm_compute. discriminate.
Qed.
Lemma first_header : validate_block_header_skip_pow (first_block 10000000000) None [] genesis_target None = Ok tt.
Proof. vm_compute. reflexivity. Qed.
Lemma greedy_header : validate_block_header_skip_pow (first_block 10000000001) None [] genesis_target None = Ok tt.
Proof. vm_compute. reflexivity. Qed.
Lemma first_accepted : (if apply_first 10000000000 is Some (Ok (0, _), _) then true else false) = true.
Proof. vm_compute. reflexivity. Qed.
Lemma greedy_rejected : (if apply_first 10000000001 is Some (Err (CoinbaseWrongReward _ _), _) then true else false) = true.
Proof. vm_compute. reflexivity. Qed.

Lemma validate_block_header_correct_witness :
  timestamp (header (first_block 10000000000)) <= 1699999990 + MAX_TIMESTAMP_DRIFT.
Proof.
  destruct (@validate_block_header_correct sha argon2 (first_block 10000000000) None [1600000000; 1690000000; 1650000000] genesis_target
    (Some 1699999990)) as [_ W].
  destruct W as (_ & _ & _ & _ & Hdrift & _); [vm_compute; reflexivity|]. apply Hdrift. reflexivity.
Defined.

Lemma rejected_block_leaves_no_trace_witness :
  exists e s', apply_first 10000000001 = Some (Err e, s') /\ utxos s' = ∅ /\ is_corrupted e = false.
Proof.
  pose proof greedy_rejected as Hrej.
  destruct (@rejected_block_leaves_no_trace sha toy_digest_width sample_tree toy_ed25519 toy_layout argon2 1000 list_root sample_laws
    sample_domain 360 first_D (first_block 10000000001) UtxoSet_new None [] genesis_target None) as (r & s' & Hr & Herr).
  - exact first_keys_distinct.
  - apply first_in. vm_compute. reflexivity.
  - apply first_reachable. vm_compute. split; discriminate.
  - exact greedy_header.
  - apply first_fresh. vm_compute. reflexivity.
  - unfold apply_first in *. rewrite Hr in Hrej. destruct r as [[]|e]; [discriminate Hrej|]. exists e, s'.
    destruct (Herr e eq_refl) as (Hu & _ & _ & Hc). split; [exact Hr|]. split; [exact Hu|exact Hc].
Defined.

Lemma accepted_block_undo_restores_witness :
  exists fees ms s' s'', apply_first 10000000000 = Some (Ok (fees, ms), s') /\
    undo_block_transactions (first_block 10000000000) (collect_spent_utxos ms) s' = Some (Ok tt, s'') /\ utxos s'' = ∅.
Proof.
  pose proof first_accepted as Hacc. destruct (apply_first 10000000000) as [[[[fees ms]|e] s']|] eqn:E; [|discriminate Hacc|discriminate Hacc].
  destruct (@accepted_block_undo_restores sha toy_digest_width sample_tree toy_ed25519 toy_layout argon2 1000 list_root sample_laws
    sample_domain 360 first_D (first_block 10000000000) UtxoSet_new s' fees ms None [] genesis_target None) as (s'' & Hs & Hu & _).
  - exact first_keys_distinct.
  - apply first_in. vm_compute. reflexivity.
  - apply first_reachable. vm_compute. split; discriminate.
  - exact first_header.
  - apply first_fresh. vm_compute. reflexivity.
  - exact E.
  - exists fees, ms, s', s''. split; [reflexivity|]. split; [exact Hs|exact Hu].
Defined.

Lemma application_paths_agree_witness :
  exists fees ms s', apply_first 10000000000 = Some (Ok (fees, ms), s') /\
    apply_block_transactions_assume_valid (first_block 10000000000) UtxoSet_new = Some (Ok (fees, ms), s').
Proof.
  pose proof first_accepted as Hacc. destruct (apply_first 10000000000) as [[[[fees ms]|e] s']|] eqn:E; [|discriminate Hacc|discriminate Hacc].
  destruct (@application_paths_agree sha sample_tree toy_ed25519 toy_layout sample_domain 360 (first_block 10000000000)
    UtxoSet_new s' fees ms) as [W _].
  - vm_compute. discriminate.
  - apply Forall_cons. split; [|constructor]. apply Forall_cons. split; [vm_compute; split; discriminate|constructor].
  - intros o x Hx. change (utxos UtxoSet_new) with (∅ : utxo_map) in Hx. apply lookup_empty_Some in Hx. destruct Hx.
  - exact E.
  - exists fees, ms, s'. split; [reflexivity|exact W].
Defined.

Lemma structure_precheck_complete_witness : validate_block_structure (first_block 10000000000) = Ok tt.
Proof.
  pose proof first_accepted as Hacc. destruct (apply_first 10000000000) as [[[r|e] s']|] eqn:E; [|discriminate Hacc|discriminate Hacc].
  exact (@structure_precheck_complete sha sample_tree toy_ed25519 toy_layout sample_domain 360 (first_block 10000000000)
    UtxoSet_new s' r E).
Defined.

Lemma supply_follows_schedule_witness :
  exists ms s', apply_first 10000000000 = Some (Ok ms, s') /\ supply (utxos s') = block_reward 0 + 0.
Proof.
  pose proof first_accepted as Hacc. destruct (apply_first 10000000000) as [[[[fees ms]|e] s']|] eqn:E; [|discriminate Hacc|discriminate Hacc].
  exists (fees, ms), s'. split; [reflexivity|].
  apply (@supply_follows_schedule sha sample_tree toy_ed25519 toy_layout argon2 sample_domain 360
    ([] ++ [first_block 10000000000]) s').
  apply chain_extend with (s := UtxoSet_new) (ts := []) (target := genesis_target) (clock := None) (fees := fees) (ms := ms).
  - apply chain_empty.
  - exact first_header.
  - apply Forall_cons. split; [|constructor]. apply Forall_cons. split; [vm_compute; split; discriminate|constructor].
  - exact E.
Defined.

(** The freshness hypothesis matters: when the outpoint of a coinbase is already
    in the set, its application fails, and the rollback removes the entry that
    was there before the call. *)
Definition taken : utxo_map :=
  {[output_outpoint (sample_id (first_coinbase 0)) 0 := {| output := sample_out 7 [x41]; entry_height := 3; entry_coinbase := true |}]}.
Example duplicate_coinbase_rollback_loses_entry :
  validate_and_apply_block_transactions_atomic sample_domain 360 (first_block 10000000000) taken =
    Some (Err (StateCorrupted (CoinbaseApply (DuplicateOutpoint (output_outpoint (sample_id (first_coinbase 0)) 0)))), ∅ : utxo_map).
Proof. vm_compute. reflexivity. Qed.
End Witnesses.
