(* ===== verification/Mempool.v ===== *)
(** * The transaction pool ([src/mempool/mempool.rs])

    [Mempool] keeps the admitted transactions by identifier together with four
    derived structures: the order by fee density, the set of spent outpoints,
    the index from scripts to transactions and the byte count.  A hash map is a
    [gmap], a [BTreeMap] or [BTreeSet] one that is sorted when it is iterated.
    The UTXO set enters through its lookup, as in [TxValidation]; the event bus
    is the log of the scripts it was notified of.  [None] stands for an eviction
    loop that never ends. *)

From Stdlib Require Import Strings.String.
From S2P Require Import Prelude Bytes Codec Hash Transaction Block U256.
From S2P Require Import ScriptValue Jets ScriptCost Eval FeeCost Utxo TxValidation BlockValidation.
#[local] Open Scope Z_scope.
#[local] Open Scope list_scope.

Definition MEMPOOL_CAPACITY : Z := 8192.
Definition MAX_MEMPOOL_BYTES : Z := 256 * 1024 * 1024.

Record SpentInput := { si_outpoint : OutPoint; si_script : bytes; si_value : Z }.

Record MempoolEntry := {
  tx : Transaction; entry_id : Hash256; fee : Z; entry_cost : Z; fee_density : Z; spent_inputs : list SpentInput
}.

Record MempoolAddressTx := {
  address_tx_id : Hash256; received : list (Z * Z); spent : list (OutPoint * Z)
}.

Inductive MempoolError :=
| AlreadyInMempool
| CoinbaseNotAllowed
| PoolDoubleSpend (op : OutPoint)
| ValidationFailed (e : ValidationError)
| FeeTooLow
| CostOverflow.

Record Mempool := {
  entries : gmap Hash256 MempoolEntry;
  by_fee_density : gmap (Z * Hash256) Hash256;
  spent_outpoints : gset OutPoint;
  scripts : gmap bytes (gset Hash256);
  total_bytes : Z;
  event_bus : option (list bytes)
}.

Definition Mempool_new : Mempool := {|
  entries := ∅; by_fee_density := ∅; spent_outpoints := ∅; scripts := ∅; total_bytes := 0; event_bus := None
|}.
Definition set_event_bus (log : list bytes) (m : Mempool) : Mempool := {|
  entries := entries m; by_fee_density := by_fee_density m; spent_outpoints := spent_outpoints m; scripts := scripts m;
  total_bytes := total_bytes m; event_bus := Some log
|}.
Definition emit_script_changed (sc : bytes) (m : Mempool) : Mempool := {|
  entries := entries m; by_fee_density := by_fee_density m; spent_outpoints := spent_outpoints m; scripts := scripts m;
  total_bytes := total_bytes m; event_bus := (fun log => log ++ [sc]) <$> event_bus m
|}.
Definition Mempool_len (m : Mempool) : Z := Z.of_nat (size (entries m)).
Definition Mempool_is_empty (m : Mempool) : bool := Mempool_len m =? 0.

(** ** The index by script *)

Definition with_scripts (f : gmap bytes (gset Hash256) -> gmap bytes (gset Hash256)) (m : Mempool) : Mempool := {|
  entries := entries m; by_fee_density := by_fee_density m; spent_outpoints := spent_outpoints m; scripts := f (scripts m);
  total_bytes := total_bytes m; event_bus := event_bus m
|}.

(** [by_script.entry(script).or_default().insert(id)] *)
Definition index_add (id : Hash256) (ix : gmap bytes (gset Hash256)) (sc : bytes) : gmap bytes (gset Hash256) :=
  <[sc := {[id]} ∪ default ∅ (ix !! sc)]> ix.
(** Remove the identifier, and the row when it becomes empty. *)
Definition index_remove (id : Hash256) (ix : gmap bytes (gset Hash256)) (sc : bytes) : gmap bytes (gset Hash256) :=
  match ix !! sc with
  | Some set => let set := set ∖ {[id]} in if decide (set = ∅) then delete sc ix else <[sc := set]> ix
  | None => ix
  end.

(** The scripts an entry touches: its outputs', then those it spends. *)
Definition touched (e : MempoolEntry) : list bytes :=
  map script (outputs (tx e)) ++ map si_script (spent_inputs e).

Definition index_entry (e : MempoolEntry) (m : Mempool) : Mempool :=
  fold_left (fun m sc => emit_script_changed sc (with_scripts (fun ix => index_add (entry_id e) ix sc) m)) (touched e) m.
Definition deindex_entry (e : MempoolEntry) (m : Mempool) : Mempool :=
  let m := fold_left (fun m sc => with_scripts (fun ix => index_remove (entry_id e) ix sc) m) (touched e) m in
  fold_left (fun m sc => emit_script_changed sc m) (touched e) m.

(** ** The order by fee density *)

(** The order of the keys: the density, then the identifier. *)
Definition density_le (a b : Z * Hash256) : Prop :=
  match fst a ?= fst b with Lt => True | Gt => False | Eq => lex_cmp (snd a) (snd b) <> Gt end.
#[export] Instance density_le_dec a b : Decision (density_le a b).
Proof. unfold density_le. destruct (_ ?= _); apply _. Defined.
Definition key_le (a b : (Z * Hash256) * Hash256) : Prop := density_le (fst a) (fst b).
#[export] Instance key_le_dec a b : Decision (key_le a b).
Proof. apply density_le_dec. Defined.

(** The rows of [by_fee_density], lowest first. *)
Definition density_rows (m : Mempool) : list ((Z * Hash256) * Hash256) := merge_sort key_le (map_to_list (by_fee_density m)).

(** ** Operations *)

Definition size_or (d : Z) (t : Transaction) : Z :=
  match serialized_size t with Ok n => n | Err _ => d end.

(** What [remove] and [evict_lowest] do once the entry is out of [entries] and
    [by_fee_density]. *)
Definition forget_entry (e : MempoolEntry) (m : Mempool) : Mempool :=
  let m := deindex_entry e m in {|
    entries := entries m; by_fee_density := by_fee_density m;
    spent_outpoints := fold_left (fun s i => s ∖ {[input_outpoint i]}) (inputs (tx e)) (spent_outpoints m);
    scripts := scripts m; total_bytes := saturating_sub (total_bytes m) (size_or 0 (tx e)); event_bus := event_bus m
  |}.

Definition Mempool_remove (id : Hash256) (m : Mempool) : option Transaction * Mempool :=
  match entries m !! id with
  | Some e =>
      (Some (tx e), forget_entry e {|
        entries := delete id (entries m); by_fee_density := delete (fee_density e, entry_id e) (by_fee_density m);
        spent_outpoints := spent_outpoints m; scripts := scripts m; total_bytes := total_bytes m; event_bus := event_bus m |})
  | None => (None, m)
  end.

Definition evict_lowest (m : Mempool) : Mempool :=
  match density_rows m with
  | [] => m
  | (key, id) :: _ =>
      let rest := delete key (by_fee_density m) in
      match entries m !! id with
      | Some e =>
          forget_entry e {|
            entries := delete id (entries m); by_fee_density := rest;
            spent_outpoints := spent_outpoints m; scripts := scripts m; total_bytes := total_bytes m; event_bus := event_bus m |}
      | None => {|
          entries := entries m; by_fee_density := rest; spent_outpoints := spent_outpoints m; scripts := scripts m;
          total_bytes := total_bytes m; event_bus := event_bus m |}
      end
  end.

(** The condition on which a new transaction of [tx_bytes] needs room. *)
Definition full (m : Mempool) (tx_bytes : Z) : bool :=
  (MEMPOOL_CAPACITY <=? Mempool_len m) || (MAX_MEMPOOL_BYTES <? wrap64 (total_bytes m + tx_bytes)).

(** The eviction loop.  Every round takes a row from [by_fee_density]; when no
    row is left and the condition still holds, the loop never ends. *)
Fixpoint evict_while (fuel : nat) (tx_bytes : Z) (m : Mempool) : option Mempool :=
  if full m tx_bytes then
    if Mempool_is_empty m then Some m
    else match fuel with
         | O => None
         | Datatypes.S fuel => evict_while fuel tx_bytes (evict_lowest m)
         end
  else Some m.

Definition make_room (density tx_bytes : Z) (m : Mempool) : option (result MempoolError Mempool) :=
  if full m tx_bytes then
    match density_rows m with
    | ((worst_density, _), _) :: _ =>
        if density <=? worst_density then Some (Err FeeTooLow)
        else let! m := evict_while (size (by_fee_density m)) tx_bytes m in Some (Ok m)
    | [] => Some (Ok m)
    end
  else Some (Ok m).

Section Pool.
Context `{Sha2} `{Ed25519} `{Layout}.
Variable signature_domain : Hash256.
Variable coinbase_maturity : Z.

Definition resolve_spent_inputs (t : Transaction) (resolved : OutPoint -> option UtxoEntry) : list SpentInput :=
  omap (fun i => match resolved (input_outpoint i) with
                 | Some utxo => Some {| si_outpoint := input_outpoint i; si_script := script (output utxo); si_value := value (output utxo) |}
                 | None => None
                 end) (inputs t).

(** The checks against the pool, the same at the start of [pre_check], [add] and
    [add_validated]. *)
Definition screen (m : Mempool) (t : Transaction) : result MempoolError Hash256 :=
  let? id := map_err (fun _ => ValidationFailed (TxTooLarge 0)) (tx_id t) in
  if bool_decide (is_Some (entries m !! id)) then Err AlreadyInMempool
  else if is_coinbase t then Err CoinbaseNotAllowed
  else
    let? _ := for_each (fun i => if bool_decide (input_outpoint i ∈ spent_outpoints m) then Err (PoolDoubleSpend (input_outpoint i))
                                 else Ok tt) (inputs t) in
    Ok id.
Definition pre_check (m : Mempool) (t : Transaction) : result MempoolError unit :=
  let? _ := screen m t in Ok tt.

(** The ending of [add] and [add_validated]: cost, room and bookkeeping. *)
Definition admit_entry (m : Mempool) (t : Transaction) (id : Hash256) (fee script_cost script_validation_cost : Z)
    (resolved : OutPoint -> option UtxoEntry) : option (result MempoolError Hash256 * Mempool) :=
  match tx_cost_with_script_cost t script_cost script_validation_cost with
  | None => Some (Err CostOverflow, m)
  | Some tx_cost =>
      let density := if 0 <? tx_cost then saturating_mul U64_MAX fee 1000000 / tx_cost else 0 in
      let e := {| tx := t; entry_id := id; fee := fee; entry_cost := tx_cost; fee_density := density;
                  spent_inputs := resolve_spent_inputs t resolved |} in
      let tx_bytes := size_or 0 t in
      match make_room density tx_bytes m with
      | None => None
      | Some (Err err) => Some (Err err, m)
      | Some (Ok m) =>
          let m := index_entry e {|
            entries := entries m; by_fee_density := <[(density, id) := id]> (by_fee_density m);
            spent_outpoints := fold_left (fun s i => {[input_outpoint i]} ∪ s) (inputs t) (spent_outpoints m);
            scripts := scripts m; total_bytes := wrap64 (total_bytes m + tx_bytes); event_bus := event_bus m |} in
          Some (Ok id, {|
            entries := <[id := e]> (entries m); by_fee_density := by_fee_density m; spent_outpoints := spent_outpoints m;
            scripts := scripts m; total_bytes := total_bytes m; event_bus := event_bus m |})
      end
  end.

Definition add_validated (m : Mempool) (t : Transaction) (fee script_cost script_validation_cost : Z)
    (resolved_inputs : OutPoint -> option UtxoEntry) : option (result MempoolError Hash256 * Mempool) :=
  match screen m t with
  | Err e => Some (Err e, m)
  | Ok id => admit_entry m t id fee script_cost script_validation_cost resolved_inputs
  end.

Definition add (m : Mempool) (t : Transaction) (utxo_get : OutPoint -> option UtxoEntry) (current_height : Z)
  : option (result MempoolError Hash256 * Mempool) :=
  match screen m t with
  | Err e => Some (Err e, m)
  | Ok id =>
      match validate_transaction signature_domain coinbase_maturity utxo_get t current_height with
      | Err e => Some (Err (ValidationFailed e), m)
      | Ok (fee, script_cost, script_validation_cost) => admit_entry m t id fee script_cost script_validation_cost utxo_get
      end
  end.

Definition Mempool_get (m : Mempool) (id : Hash256) : option Transaction := tx <$> entries m !! id.

(** The loop of [select_transactions], on the rows from highest to lowest. *)
Fixpoint select_from (m : Mempool) (max_block_size : Z) (ids : list Hash256) (selected : list Transaction) (total_fees total_size : Z)
  : list Transaction * Z :=
  match ids with
  | [] => (selected, total_fees)
  | id :: ids =>
      match entries m !! id with
      | Some e =>
          let size := size_or U64_MAX (tx e) in
          if wrap64 (total_size + size) <=? max_block_size then
            match checked_add U64_MAX total_fees (fee e) with
            | Some new_fees => select_from m max_block_size ids (selected ++ [tx e]) new_fees (wrap64 (total_size + size))
            | None => select_from m max_block_size ids selected total_fees total_size
            end
          else select_from m max_block_size ids selected total_fees total_size
      | None => select_from m max_block_size ids selected total_fees total_size
      end
  end.
Definition select_transactions (m : Mempool) (max_block_size : Z) : list Transaction * Z :=
  select_from m max_block_size (rev (map snd (density_rows m))) [] 0 0.

Definition remove_all (ids : list Hash256) (m : Mempool) : Mempool := fold_left (fun m id => snd (Mempool_remove id m)) ids m.

(** The outpoints spent by the confirmed transactions that are not coinbases. *)
Definition confirmed_outpoints (txs : list Transaction) : gset OutPoint :=
  list_to_set (concat (map spend_keys (filter (fun t => is_coinbase t = false) txs))).

Definition remove_confirmed (txs : list Transaction) (m : Mempool) : Mempool :=
  let m := fold_left (fun m t => match tx_id t with Ok id => snd (Mempool_remove id m) | Err _ => m end) txs m in
  let confirmed := confirmed_outpoints txs in
  remove_all (map fst (filter (fun ie => Exists (fun o => o ∈ confirmed) (spend_keys (tx ie.2))) (map_to_list (entries m)))) m.

Definition referenced_outpoints (m : Mempool) : list OutPoint :=
  concat (map (fun ie => spend_keys (tx ie.2)) (map_to_list (entries m))).

(** Whether [revalidate] drops an entry. *)
Definition stale (utxo_get : OutPoint -> option UtxoEntry) (current_height : Z) (e : MempoolEntry) : bool :=
  if existsb (fun i => match utxo_get (input_outpoint i) with
                       | None => true
                       | Some utxo => entry_coinbase utxo && (saturating_sub current_height (entry_height utxo) <? coinbase_maturity)
                       end) (inputs (tx e))
  then true
  else is_err (validate_transaction signature_domain coinbase_maturity utxo_get (tx e) current_height).
Definition revalidate (utxo_get : OutPoint -> option UtxoEntry) (current_height : Z) (m : Mempool) : Mempool :=
  fold_left (fun m id =>
    match entries m !! id with
    | Some e => if stale utxo_get current_height e then snd (Mempool_remove id m) else m
    | None => m
    end) (map fst (map_to_list (entries m))) m.

Definition is_spent (m : Mempool) (op : OutPoint) : bool := bool_decide (op ∈ spent_outpoints m).

(** Identifiers in ascending order, as a [BTreeSet] iterates. *)
Definition hash_le (a b : Hash256) : Prop := lex_cmp a b <> Gt.
#[export] Instance hash_le_dec a b : Decision (hash_le a b).
Proof. unfold hash_le. apply _. Defined.

Definition address_view (sc : bytes) (id : Hash256) (e : MempoolEntry) : MempoolAddressTx := {|
  address_tx_id := id;
  received := map (fun io => (Z.of_nat io.1 mod 2 ^ 32, value io.2))
                (filter (fun io => script io.2 = sc) (imap (fun i o => (i, o)) (outputs (tx e))));
  spent := map (fun s => (si_outpoint s, si_value s)) (filter (fun s => si_script s = sc) (spent_inputs e))
|}.
Fixpoint address_rows (m : Mempool) (sc : bytes) (limit : Z) (ids : list Hash256) (out : list MempoolAddressTx) : list MempoolAddressTx :=
  match ids with
  | [] => out
  | id :: ids =>
      if limit <=? len out then out
      else match entries m !! id with
           | Some e => address_rows m sc limit ids (out ++ [address_view sc id e])
           | None => address_rows m sc limit ids out
           end
  end.
Definition address_mempool_capped (m : Mempool) (sc : bytes) (limit : Z) : list MempoolAddressTx :=
  match scripts m !! sc with
  | None => []
  | Some set => address_rows m sc limit (merge_sort hash_le (elements set)) []
  end.
Definition address_mempool (m : Mempool) (sc : bytes) : list MempoolAddressTx := address_mempool_capped m sc U64_MAX.
End Pool.

(** ** The structures as functions of the entries *)

Definition members (ix : gmap bytes (gset Hash256)) (sc : bytes) : gset Hash256 := default ∅ (ix !! sc).
Definition pruned (ix : gmap bytes (gset Hash256)) : Prop := forall sc, ix !! sc <> Some ∅.

Lemma index_add_spec id0 scs ix :
  pruned ix ->
  pruned (fold_left (index_add id0) scs ix) /\
  forall sc id, id ∈ members (fold_left (index_add id0) scs ix) sc <-> id ∈ members ix sc \/ (id = id0 /\ sc ∈ scs).
Proof.
  revert ix. induction scs as [|sc0 scs IH]; intros ix Hp; cbn [fold_left].
  { split; [done|]. intros sc id. set_solver. }
  destruct (IH (index_add id0 ix sc0)) as [Hp' Hm].
  { intros sc. unfold index_add. destruct (decide (sc0 = sc)) as [->|Hne]; [rewrite lookup_insert_eq|by rewrite lookup_insert_ne by done].
    intros [= Hs]. set_solver. }
  split; [done|]. intros sc id. rewrite Hm. unfold index_add, members.
  destruct (decide (sc0 = sc)) as [->|Hne]; [rewrite lookup_insert_eq|rewrite lookup_insert_ne by done]; simpl; set_solver.
Qed.

Lemma index_remove_spec id0 scs ix :
  pruned ix ->
  pruned (fold_left (index_remove id0) scs ix) /\
  forall sc id, id ∈ members (fold_left (index_remove id0) scs ix) sc <-> id ∈ members ix sc /\ ~ (id = id0 /\ sc ∈ scs).
Proof.
  revert ix. induction scs as [|sc0 scs IH]; intros ix Hp; cbn [fold_left].
  { split; [done|]. intros sc id. set_solver. }
  destruct (IH (index_remove id0 ix sc0)) as [Hp' Hm].
  { intros sc. unfold index_remove. destruct (ix !! sc0) as [set|] eqn:E; [|apply Hp]. case_decide; [|].
    - destruct (decide (sc0 = sc)) as [->|Hne]; [by rewrite lookup_delete_eq|rewrite lookup_delete_ne by done; apply Hp].
    - destruct (decide (sc0 = sc)) as [->|Hne]; [rewrite lookup_insert_eq; congruence|rewrite lookup_insert_ne by done; apply Hp]. }
  split; [done|]. intros sc id. rewrite Hm. unfold index_remove, members. clear IH Hm Hp'.
  destruct (ix !! sc0) as [set|] eqn:E.
  - case_decide as Hs; destruct (decide (sc0 = sc)) as [->|Hne];
      rewrite ?lookup_delete_eq, ?lookup_insert_eq, ?lookup_delete_ne, ?lookup_insert_ne, ?E by done; simpl; set_solver.
  - destruct (decide (sc0 = sc)) as [->|Hne]; [rewrite E; simpl|]; set_solver.
Qed.

(** What indexing changes: the index and the log. *)
Definition with_index (ix : gmap bytes (gset Hash256)) (log : option (list bytes)) (m : Mempool) : Mempool := {|
  entries := entries m; by_fee_density := by_fee_density m; spent_outpoints := spent_outpoints m; scripts := ix;
  total_bytes := total_bytes m; event_bus := log
|}.
Lemma index_entry_eq e m :
  index_entry e m = with_index (fold_left (index_add (entry_id e)) (touched e) (scripts m)) ((fun log => log ++ touched e) <$> event_bus m) m.
Proof.
  unfold index_entry. generalize (touched e) as scs, m. clear m. induction scs as [|sc scs IH]; intros [es d sp ix n bus]; cbn [fold_left].
  - unfold with_index. destruct bus as [log|]; simpl; by rewrite ?app_nil_r.
  - rewrite IH. unfold with_index, emit_script_changed, with_scripts. simpl. f_equal. destruct bus as [log|]; simpl; by rewrite <- ?app_assoc.
Qed.
Lemma deindex_entry_eq e m :
  deindex_entry e m = with_index (fold_left (index_remove (entry_id e)) (touched e) (scripts m)) ((fun log => log ++ touched e) <$> event_bus m) m.
Proof.
  unfold deindex_entry. set (m1 := fold_left _ (touched e) m).
  assert (m1 = with_index (fold_left (index_remove (entry_id e)) (touched e) (scripts m)) (event_bus m) m) as ->.
  { subst m1. generalize (touched e) as scs, m. clear m. induction scs as [|sc scs IH]; intros [es d sp ix n bus]; cbn [fold_left]; [done|].
    rewrite IH. done. }
  generalize (fold_left (index_remove (entry_id e)) (touched e) (scripts m)) as ix. generalize (touched e) as scs.
  intros scs ix. destruct m as [es d sp ix0 n bus]. unfold with_index. simpl. clear ix0. revert bus.
  induction scs as [|sc scs IH]; intros bus; cbn [fold_left].
  - f_equal. destruct bus as [log|]; simpl; by rewrite ?app_nil_r.
  - unfold emit_script_changed at 2. simpl. rewrite IH. f_equal. destruct bus as [log|]; simpl; by rewrite <- ?app_assoc.
Qed.

(** *** Orders *)

#[export] Instance hash_le_total : Total hash_le.
Proof. intros a b. unfold hash_le. rewrite (lex_cmp_antisym a b). destruct (lex_cmp a b); simpl; naive_solver. Qed.
#[export] Instance hash_le_trans : Transitive hash_le.
Proof.
  intros a b c. unfold hash_le. destruct (lex_cmp a b) eqn:E1; [|intros _|done].
  - by apply lex_cmp_eq in E1 as ->.
  - destruct (lex_cmp b c) eqn:E2; [|intros _|done].
    + apply lex_cmp_eq in E2 as <-. by rewrite E1.
    + by rewrite (lex_cmp_trans _ _ _ E1 E2).
Qed.
#[export] Instance density_le_total : Total density_le.
Proof.
  intros [d a] [d' b]. unfold density_le. cbn [fst snd]. rewrite (Z.compare_antisym d d').
  destruct (d ?= d'); simpl; [|by left|by right]. apply (hash_le_total a b).
Qed.
#[export] Instance density_le_trans : Transitive density_le.
Proof.
  intros [d1 a] [d2 b] [d3 c]. unfold density_le. cbn [fst snd].
  destruct (Z.compare_spec d1 d2), (Z.compare_spec d2 d3), (Z.compare_spec d1 d3); try done; try lia. apply (hash_le_trans a b c).
Qed.
#[export] Instance key_le_total : Total key_le.
Proof. intros a b. apply density_le_total. Qed.
#[export] Instance key_le_trans : Transitive key_le.
Proof. intros a b c. apply density_le_trans. Qed.
Lemma density_le_fst a b : density_le a b -> fst a <= fst b.
Proof. unfold density_le. destruct (Z.compare_spec (fst a) (fst b)); [lia|lia|done]. Qed.

Lemma density_rows_elem m k id : (k, id) ∈ density_rows m <-> by_fee_density m !! k = Some id.
Proof. unfold density_rows. by rewrite merge_sort_Permutation, elem_of_map_to_list. Qed.
Lemma density_rows_sorted m : StronglySorted key_le (density_rows m).
Proof. apply (StronglySorted_merge_sort key_le). Qed.
Lemma density_rows_nil m : density_rows m = [] -> by_fee_density m = ∅.
Proof.
  intros E. apply map_empty. intros k. destruct (by_fee_density m !! k) as [id|] eqn:Ek; [|done].
  apply density_rows_elem in Ek. rewrite E in Ek. set_solver.
Qed.

(** ** The invariant *)

Section Invariant.
Context `{Sha2}.

Definition entry_size (e : MempoolEntry) : Z := size_or 0 (tx e).
Definition pool_bytes (es : gmap Hash256 MempoolEntry) : Z := sum_of (fun ie => entry_size ie.2) (map_to_list es).

Record entry_ok (id : Hash256) (e : MempoolEntry) : Prop := {
  eo_id : entry_id e = id;
  eo_tx_id : tx_id (tx e) = Ok id;
  eo_spend : is_coinbase (tx e) = false;
  eo_rules : standalone_rules (tx e);
  eo_fee : 0 <= fee e <= U64_MAX
}.

Definition spends_outpoint (e : MempoolEntry) (o : OutPoint) : Prop := o ∈ spend_keys (tx e).

(** Every structure is the one the entries prescribe, no two entries spend one
    outpoint, and the pool is within its two capacities. *)
Record pool_ok (m : Mempool) : Prop := {
  po_entry : forall id e, entries m !! id = Some e -> entry_ok id e;
  po_density : forall k id, by_fee_density m !! k = Some id <-> exists e, entries m !! id = Some e /\ k = (fee_density e, id);
  po_spent : forall o, o ∈ spent_outpoints m <-> exists id e, entries m !! id = Some e /\ spends_outpoint e o;
  po_conflict : forall id1 id2 e1 e2 o, entries m !! id1 = Some e1 -> entries m !! id2 = Some e2 ->
    spends_outpoint e1 o -> spends_outpoint e2 o -> id1 = id2;
  po_pruned : pruned (scripts m);
  po_scripts : forall sc id, id ∈ members (scripts m) sc <-> exists e, entries m !! id = Some e /\ sc ∈ touched e;
  po_bytes : total_bytes m = pool_bytes (entries m);
  po_caps : Mempool_len m <= MEMPOOL_CAPACITY /\ total_bytes m <= MAX_MEMPOOL_BYTES
}.

Lemma pool_new_ok : pool_ok Mempool_new.
Proof.
  split; cbn [entries by_fee_density spent_outpoints scripts Mempool_new total_bytes].
  - intros id e He. by rewrite lookup_empty in He.
  - intros k id. rewrite lookup_empty. split; [done|]. intros (e & He & _). by rewrite lookup_empty in He.
  - intros o. split; [set_solver|]. intros (id & e & He & _). by rewrite lookup_empty in He.
  - intros id1 id2 e1 e2 o He. by rewrite lookup_empty in He.
  - intros sc. by rewrite lookup_empty.
  - intros sc id. unfold members. rewrite lookup_empty. simpl. split; [set_solver|]. intros (e & He & _). by rewrite lookup_empty in He.
  - unfold pool_bytes. by rewrite map_to_list_empty.
  - vm_compute. split; discriminate.
Qed.

Lemma pool_bytes_insert es id e : es !! id = None -> pool_bytes (<[id := e]> es) = entry_size e + pool_bytes es.
Proof. intros Hn. unfold pool_bytes. rewrite map_to_list_insert by done. by rewrite sum_of_cons. Qed.
Lemma pool_bytes_delete es id e : es !! id = Some e -> pool_bytes es = entry_size e + pool_bytes (delete id es).
Proof. intros Hi. rewrite <- (pool_bytes_insert _ id e) by apply lookup_delete_eq. by rewrite insert_delete_id. Qed.
Lemma entry_size_nonneg e : 0 <= entry_size e.
Proof.
  unfold entry_size, size_or. destruct (serialized_size _) as [n|] eqn:E; [|lia]. unfold serialized_size in E.
  destruct (Transaction_serialize _) as [b|]; [|done]. injection E as <-. apply len_nonneg.
Qed.
Lemma pool_bytes_nonneg es : 0 <= pool_bytes es.
Proof. apply sum_of_nonneg, Forall_forall. intros ie _. apply entry_size_nonneg. Qed.

Lemma spent_remove_elem o ins s :
  o ∈ fold_left (fun (s : gset OutPoint) i => s ∖ {[input_outpoint i]}) ins s <-> o ∈ s /\ o ∉ map input_outpoint ins.
Proof.
  revert s. induction ins as [|i ins IH]; intros s; cbn [fold_left map]; [set_solver|]. rewrite IH, elem_of_cons. set_solver.
Qed.
Lemma spent_add_elem o ins s :
  o ∈ fold_left (fun (s : gset OutPoint) i => {[input_outpoint i]} ∪ s) ins s <-> o ∈ s \/ o ∈ map input_outpoint ins.
Proof.
  revert s. induction ins as [|i ins IH]; intros s; cbn [fold_left map]; [set_solver|]. rewrite IH, elem_of_cons. set_solver.
Qed.

(** *** Removal *)

Lemma pool_remove_ok m id e :
  pool_ok m -> entries m !! id = Some e ->
  pool_ok (snd (Mempool_remove id m)) /\ entries (snd (Mempool_remove id m)) = delete id (entries m).
Proof.
  intros Hok Hid. unfold Mempool_remove. rewrite Hid. cbn [snd]. pose proof (po_entry _ Hok id e Hid) as He.
  rewrite (eo_id _ _ He). unfold forget_entry. rewrite deindex_entry_eq, (eo_id _ _ He).
  set (m' := {| entries := delete id (entries m); by_fee_density := _; spent_outpoints := _; scripts := _; total_bytes := _; event_bus := _ |}).
  cbn [with_index entries by_fee_density spent_outpoints scripts total_bytes event_bus]. subst m'.
  cbn [with_index entries by_fee_density spent_outpoints scripts total_bytes event_bus]. split; [|done].
  destruct (index_remove_spec id (touched e) (scripts m) (po_pruned _ Hok)) as [Hpr Hix].
  assert (forall id' e', delete id (entries m) !! id' = Some e' <-> id' <> id /\ entries m !! id' = Some e') as Hdel
    by (intros id' e'; rewrite lookup_delete_Some; naive_solver).
  split; cbn [entries by_fee_density spent_outpoints scripts total_bytes].
  - intros id' e' [_ He']%Hdel. by apply (po_entry _ Hok).
  - intros k id'. rewrite lookup_delete_Some, (po_density _ Hok). split.
    + intros (Hne & e' & He' & ->). exists e'. split; [|done]. apply Hdel. split; [|done]. intros ->. apply Hne. congruence.
    + intros (e' & [Hne He']%Hdel & ->). split; [|eauto]. congruence.
  - intros o. rewrite spent_remove_elem, (po_spent _ Hok). split.
    + intros ((id' & e' & He' & Ho) & Hno). exists id', e'. split; [|done]. apply Hdel. split; [|done].
      intros ->. rewrite Hid in He'. injection He' as <-. done.
    + intros (id' & e' & [Hne He']%Hdel & Ho). split; [eauto|]. intros Ho'. apply Hne. by eapply (po_conflict _ Hok id' id e' e o).
  - intros id1 id2 e1 e2 o [_ H1']%Hdel [_ H2']%Hdel. by apply (po_conflict _ Hok).
  - done.
  - intros sc id'. rewrite Hix, (po_scripts _ Hok). split.
    + intros ((e' & He' & Hsc) & Hn). exists e'. split; [|done]. apply Hdel. split; [|done].
      intros ->. apply Hn. rewrite Hid in He'. injection He' as <-. done.
    + intros (e' & [Hne He']%Hdel & Hsc). split; [eauto|naive_solver].
  - rewrite (po_bytes _ Hok), (pool_bytes_delete _ id e Hid). unfold saturating_sub, entry_size.
    pose proof (pool_bytes_nonneg (delete id (entries m))). lia.
  - pose proof (po_caps _ Hok) as [Hc Hb]. pose proof (entry_size_nonneg e). unfold entry_size in *.
    pose proof (pool_bytes_nonneg (entries m)). rewrite <- (po_bytes _ Hok) in *. unfold Mempool_len in *. cbn [entries].
    rewrite map_size_delete, Hid. unfold saturating_sub. lia.
Qed.

(** *** Eviction and admission *)

Lemma standalone_size t : standalone_rules t -> exists n, serialized_size t = Ok n /\ 0 <= n <= MAX_TX_SIZE.
Proof.
  intros (_ & _ & _ & _ & _ & Hsz & _). apply check_tx_size_Ok in Hsz as (b & Hb & Hle & _). unfold serialized_size. rewrite Hb.
  exists (len b). pose proof (len_nonneg b). split; [done|lia].
Qed.

Lemma pool_bytes_small m : pool_ok m -> 0 <= total_bytes m <= MAX_MEMPOOL_BYTES.
Proof. intros Hok. pose proof (po_caps _ Hok) as [_ Hb]. rewrite (po_bytes _ Hok) in *. pose proof (pool_bytes_nonneg (entries m)). lia. Qed.

Lemma density_size m : pool_ok m -> size (by_fee_density m) = size (entries m).
Proof.
  intros Hok. rewrite <- !length_map_to_list, <- (length_fmap (fun ie : Hash256 * MempoolEntry => ((fee_density ie.2, ie.1), ie.1))).
  apply Permutation_length, NoDup_Permutation.
  - apply NoDup_map_to_list.
  - apply NoDup_fmap_2_strong; [|apply NoDup_map_to_list].
    intros [i1 e1] [i2 e2] Hi1%elem_of_map_to_list Hi2%elem_of_map_to_list [= _ ->]. rewrite Hi1 in Hi2. by simplify_eq.
  - intros [k id]. rewrite elem_of_map_to_list, (po_density _ Hok), list_elem_of_fmap. split.
    + intros (e & He & ->). exists (id, e). split; [done|]. by apply elem_of_map_to_list.
    + intros ([i e] & [= -> ->] & Hi%elem_of_map_to_list). eauto.
Qed.

Lemma evict_lowest_remove m key id rows :
  pool_ok m -> density_rows m = (key, id) :: rows ->
  exists e, entries m !! id = Some e /\ key = (fee_density e, id) /\ evict_lowest m = snd (Mempool_remove id m) /\
    forall id' e', entries m !! id' = Some e' -> density_le key (fee_density e', id').
Proof.
  intros Hok Hrows. assert (by_fee_density m !! key = Some id) as Hk by (apply density_rows_elem; rewrite Hrows; left).
  apply (po_density _ Hok) in Hk as (e & He & ->). exists e. split_and!; [done|done| |].
  - unfold evict_lowest, Mempool_remove. rewrite Hrows, He. by rewrite (eo_id _ _ (po_entry _ Hok id e He)).
  - intros id' e' He'. pose proof (density_rows_sorted m) as Hs. rewrite Hrows in Hs.
    assert (((fee_density e', id'), id') ∈ density_rows m) as Hin by (apply density_rows_elem, (po_density _ Hok); eauto).
    rewrite Hrows in Hin. apply elem_of_cons in Hin as [[= -> ->]|Hin].
    + destruct (density_le_total (fee_density e, id) (fee_density e, id)); done.
    + inversion Hs as [|? ? _ Hall]. rewrite Forall_forall in Hall. by apply (Hall _ Hin).
Qed.

(** What an eviction keeps: the entries above a cut in the order by density. *)
Definition evicts_lowest (before after : gmap Hash256 MempoolEntry) : Prop :=
  after ⊆ before /\
  forall id e id' e', before !! id = Some e -> after !! id = None -> after !! id' = Some e' ->
    density_le (fee_density e, id) (fee_density e', id').

Lemma full_empty m tx_bytes : pool_ok m -> 0 <= tx_bytes <= MAX_TX_SIZE -> Mempool_is_empty m = true -> full m tx_bytes = false.
Proof.
  intros Hok Ht He. unfold Mempool_is_empty in He. apply Z.eqb_eq in He. unfold full.
  assert (entries m = ∅) as Hem by (apply map_size_empty_iff; unfold Mempool_len in He; lia).
  rewrite (po_bytes _ Hok), Hem. unfold pool_bytes. rewrite map_to_list_empty. change (sum_of _ []) with 0.
  unfold wrap64, MEMPOOL_CAPACITY, MAX_MEMPOOL_BYTES, MAX_TX_SIZE in *. rewrite Z.mod_small by lia.
  apply orb_false_iff. split; lia.
Qed.

Lemma evict_while_ok fuel tx_bytes m :
  pool_ok m -> 0 <= tx_bytes <= MAX_TX_SIZE -> (size (entries m) <= fuel)%nat ->
  exists m', evict_while fuel tx_bytes m = Some m' /\ pool_ok m' /\ full m' tx_bytes = false /\ evicts_lowest (entries m) (entries m').
Proof.
  revert m. induction fuel as [|fuel IH]; intros m Hok Ht Hf; cbn [evict_while].
  all: destruct (full m tx_bytes) eqn:Efull; [|exists m; split_and!; [done..|split; [done|]; naive_solver congruence]].
  all: destruct (Mempool_is_empty m) eqn:Eem; [by rewrite (full_empty m tx_bytes Hok Ht Eem) in Efull|].
  - exfalso. unfold Mempool_is_empty, Mempool_len in Eem. apply Z.eqb_neq in Eem. lia.
  - destruct (density_rows m) as [|[key id] rows] eqn:Hrows.
    { exfalso. apply density_rows_nil in Hrows. pose proof (density_size m Hok) as Hs. rewrite Hrows, map_size_empty in Hs.
      unfold Mempool_is_empty, Mempool_len in Eem. apply Z.eqb_neq in Eem. lia. }
    destruct (evict_lowest_remove m key id rows Hok Hrows) as (e & He & -> & -> & Hmin).
    destruct (pool_remove_ok m id e Hok He) as [Hok' Hes].
    destruct (IH _ Hok' Ht) as (m' & Hm' & Hok2 & Hfull & Hsub & Hcut).
    { rewrite Hes, map_size_delete, He. lia. }
    exists m'. split_and!; [done..|]. rewrite Hes in *. split.
    + etransitivity; [exact Hsub|apply delete_subseteq].
    + intros id1 e1 id' e' H1' Hn H'. destruct (decide (id1 = id)) as [->|Hne].
      * rewrite He in H1'. injection H1' as <-. apply Hmin. by eapply lookup_weaken; [eapply lookup_weaken|apply delete_subseteq].
      * apply (Hcut id1 e1); [|done|done]. by rewrite lookup_delete_ne.
Qed.

Lemma make_room_ok density tx_bytes m :
  pool_ok m -> 0 <= tx_bytes <= MAX_TX_SIZE ->
  exists r, make_room density tx_bytes m = Some r /\
    match r with
    | Ok m' => pool_ok m' /\ full m' tx_bytes = false /\ evicts_lowest (entries m) (entries m') /\
        (entries m' = entries m \/
         exists id e, entries m !! id = Some e /\ entries m' !! id = None /\ fee_density e < density)
    | Err e => e = FeeTooLow /\ full m tx_bytes = true /\ forall id x, entries m !! id = Some x -> density <= fee_density x
    end.
Proof.
  intros Hok Ht. unfold make_room. destruct (full m tx_bytes) eqn:Ef.
  2:{ exists (Ok m). split; [done|]. split_and!; [done|done| |by left]. split; [done|]. naive_solver congruence. }
  destruct (density_rows m) as [|[[worst wid] id] rows] eqn:Hrows.
  { exfalso. apply density_rows_nil in Hrows. pose proof (density_size m Hok) as Hs. rewrite Hrows, map_size_empty in Hs.
    assert (Mempool_is_empty m = true) as He by (apply Z.eqb_eq; unfold Mempool_len; lia).
    by rewrite (full_empty m tx_bytes Hok Ht He) in Ef. }
  destruct (evict_lowest_remove m _ id rows Hok Hrows) as (e & He & [= -> ->] & _ & Hmin).
  destruct (Z.leb_spec density (fee_density e)) as [Hle|Hlt].
  { exists (Err FeeTooLow). split_and!; [done..|]. intros id' x Hx. apply Hmin, density_le_fst in Hx. cbn [fst] in Hx. lia. }
  destruct (evict_while_ok (size (by_fee_density m)) tx_bytes m Hok Ht) as (m' & -> & Hok' & Hf' & Hev); [by rewrite density_size|].
  exists (Ok m'). split; [done|]. split_and!; [done..|].
  destruct (entries m' !! id) as [x|] eqn:Ex; [|right; exists id, e; done]. left.
  apply map_eq. intros id'. destruct Hev as [Hsub Hcut]. destruct (entries m !! id') as [e'|] eqn:Ee'.
  - destruct (entries m' !! id') as [x'|] eqn:Ex'; [by rewrite (lookup_weaken _ _ _ _ Ex' Hsub) in Ee'|]. exfalso.
    pose proof (lookup_weaken _ _ _ _ Ex Hsub) as Hx. rewrite He in Hx. injection Hx as <-.
    pose proof (Hcut id' e' id e Ee' Ex' Ex) as H1. pose proof (Hmin id' e' Ee') as H2'.
    assert ((fee_density e, id) = (fee_density e', id')) as [= _ ->]; [|congruence].
    clear -H1 H2'. revert H1 H2'. unfold density_le. cbn [fst snd]. rewrite (Z.compare_antisym (fee_density e) (fee_density e')).
    destruct (Z.compare_spec (fee_density e) (fee_density e')) as [->| |]; simpl; try done. rewrite (lex_cmp_antisym id id').
    destruct (lex_cmp id id') eqn:E; simpl; try done. by apply lex_cmp_eq in E as ->.
  - destruct (entries m' !! id') as [x'|] eqn:Ex'; [|done]. by rewrite (lookup_weaken _ _ _ _ Ex' Hsub) in Ee'.
Qed.

Lemma screen_ok m t id :
  screen m t = Ok id ->
  tx_id t = Ok id /\ entries m !! id = None /\ is_coinbase t = false /\ forall o, o ∈ spend_keys t -> o ∉ spent_outpoints m.
Proof.
  unfold screen. destruct (tx_id t) as [id0|]; [|done]. cbn [map_err]. case_bool_decide as Hs; [done|].
  destruct (is_coinbase t); [done|]. destruct (for_each _ _) as [[]|] eqn:Ef; [|done]. intros [= ->].
  split_and!; [done|by apply eq_None_not_Some|done|]. apply for_each_Ok in Ef. rewrite Forall_forall in Ef.
  intros o (i & -> & Hi)%list_elem_of_fmap_1. specialize (Ef i Hi). by case_bool_decide.
Qed.

(** The bookkeeping of an admission, on a pool that has room. *)
Lemma pool_insert_ok m t id e n :
  pool_ok m -> entry_ok id e -> tx e = t -> serialized_size t = Ok n -> full m n = false ->
  entries m !! id = None -> (forall o, o ∈ spend_keys t -> o ∉ spent_outpoints m) ->
  pool_ok {| entries := <[id := e]> (entries m); by_fee_density := <[(fee_density e, id) := id]> (by_fee_density m);
    spent_outpoints := fold_left (fun s i => {[input_outpoint i]} ∪ s) (inputs t) (spent_outpoints m);
    scripts := fold_left (index_add id) (touched e) (scripts m); total_bytes := wrap64 (total_bytes m + n);
    event_bus := (fun log => log ++ touched e) <$> event_bus m |}.
Proof.
  intros Hok He <- Hn Hf Hnone Hfresh. destruct (standalone_size _ (eo_rules _ _ He)) as (n' & Hn' & Hle).
  rewrite Hn in Hn'. injection Hn' as <-. pose proof (pool_bytes_small m Hok) as Hb.
  destruct (index_add_spec id (touched e) (scripts m) (po_pruned _ Hok)) as [Hpr Hix].
  unfold full in Hf. apply orb_false_iff in Hf as [Hf1 Hf2]. rewrite Z.leb_gt in Hf1. rewrite Z.ltb_ge in Hf2.
  assert (wrap64 (total_bytes m + n) = total_bytes m + n) as Hw.
  { unfold wrap64, MAX_MEMPOOL_BYTES, MAX_TX_SIZE in *. apply Z.mod_small. lia. }
  assert (forall o, spends_outpoint e o -> forall id' e', entries m !! id' = Some e' -> ~ spends_outpoint e' o) as Hdis.
  { intros o Ho id' e' He' Ho'. apply (Hfresh o Ho), (po_spent _ Hok). eauto. }
  split; cbn [entries by_fee_density spent_outpoints scripts total_bytes].
  - intros id' e' [[<- <-]|[_ He']]%lookup_insert_Some; [done|by apply (po_entry _ Hok)].
  - intros k id'. rewrite lookup_insert_Some, (po_density _ Hok). split.
    + intros [[<- <-]|(Hne & e' & He' & ->)]; [exists e; by rewrite lookup_insert_eq|]. exists e'. split; [|done].
      rewrite lookup_insert_ne; [done|]. intros ->. congruence.
    + intros (e' & [[<- <-]|[Hne He']]%lookup_insert_Some & ->); [by left|]. right. split; [congruence|eauto].
  - intros o. rewrite spent_add_elem, (po_spent _ Hok). split.
    + intros [(id' & e' & He' & Ho)|Ho]; [|exists id, e; by rewrite lookup_insert_eq]. exists id', e'. split; [|done].
      rewrite lookup_insert_ne; [done|]. intros ->. congruence.
    + intros (id' & e' & [[<- <-]|[Hne He']]%lookup_insert_Some & Ho); [by right|left; eauto].
  - intros id1 id2 e1 e2 o [[<- <-]|[Hne1 He1]]%lookup_insert_Some [[<- <-]|[Hne2 He2]]%lookup_insert_Some H1 H2'; try done.
    + by destruct (Hdis o H1 _ _ He2).
    + by destruct (Hdis o H2' _ _ He1).
    + by eapply (po_conflict _ Hok).
  - done.
  - intros sc id'. rewrite Hix, (po_scripts _ Hok). split.
    + intros [(e' & He' & Hsc)|[-> Hsc]]; [|exists e; by rewrite lookup_insert_eq]. exists e'. split; [|done].
      rewrite lookup_insert_ne; [done|]. intros ->. congruence.
    + intros (e' & [[<- <-]|[Hne He']]%lookup_insert_Some & Hsc); [by right|left; eauto].
  - rewrite Hw, pool_bytes_insert, (po_bytes _ Hok) by done. unfold entry_size, size_or. rewrite Hn. lia.
  - unfold Mempool_len in *. cbn [entries]. rewrite map_size_insert, Hnone. lia.
Qed.
End Invariant.

Section Admission.
Context `{Sha2} `{Ed25519} `{Layout}.
Variable signature_domain : Hash256.
Variable coinbase_maturity : Z.

(** What an admission did: [t] is in, possibly at the expense of entries of the
    lowest density, the lowest of them below that of [t]. *)
Definition admitted (m m' : Mempool) (t : Transaction) (id : Hash256) (fee sc svc : Z) : Prop :=
  tx_id t = Ok id /\ entries m !! id = None /\
  exists e kept cost, entries m' = <[id := e]> kept /\ tx e = t /\ Mempool.fee e = fee /\
    tx_cost_with_script_cost t sc svc = Some cost /\ (0 < cost -> fee_density e = Z.min U64_MAX (fee * 1000000) / cost) /\
    evicts_lowest (entries m) kept /\
    (kept = entries m \/ exists old x, entries m !! old = Some x /\ kept !! old = None /\ fee_density x < fee_density e).

Lemma admit_ok m t id fee sc svc resolved :
  pool_ok m -> screen m t = Ok id -> standalone_rules t -> 0 <= fee <= U64_MAX ->
  exists r m', admit_entry m t id fee sc svc resolved = Some (r, m') /\ pool_ok m' /\
    match r with
    | Ok id' => id' = id /\ admitted m m' t id fee sc svc
    | Err e => m' = m /\ (e = CostOverflow \/ e = FeeTooLow)
    end.
Proof.
  intros Hok Hscr Hst Hfee. destruct (screen_ok _ _ _ Hscr) as (Hid & Hnone & Hcb & Hfresh).
  destruct (standalone_size _ Hst) as (n & Hn & Hle). unfold admit_entry.
  destruct (tx_cost_with_script_cost t sc svc) as [cost|] eqn:Ec; [|exists (Err CostOverflow), m; naive_solver].
  set (density := if 0 <? cost then _ else _). assert (size_or 0 t = n) as -> by (unfold size_or; by rewrite Hn).
  set (e := {| tx := t; entry_id := id; Mempool.fee := fee; entry_cost := cost; fee_density := density; spent_inputs := _ |}).
  destruct (make_room_ok density n m Hok Hle) as ([m1|err] & -> & Hroom).
  2:{ destruct Hroom as (-> & _). exists (Err FeeTooLow), m. naive_solver. }
  destruct Hroom as (Hok1 & Hf1 & Hev & Hw). rewrite index_entry_eq. cbn [with_index entries by_fee_density spent_outpoints scripts total_bytes event_bus].
  eexists (Ok id), _. split; [done|]. split.
  - apply (pool_insert_ok m1 t id e n); [done|by split|done|done|done| |].
    + destruct (entries m1 !! id) eqn:E1; [|done]. by rewrite (lookup_weaken _ _ _ _ E1 (proj1 Hev)) in Hnone.
    + intros o Ho (id' & e' & He' & Ho')%(po_spent _ Hok1). apply (Hfresh o Ho), (po_spent _ Hok). exists id', e'. split; [|done].
      by eapply lookup_weaken; [|apply Hev].
  - split; [done|]. split; [done|]. split; [done|]. exists e, (entries m1), cost. split_and!; try done.
    intros Hc. cbn [fee_density e]. subst density. by destruct (Z.ltb_spec 0 cost); [|lia].
Qed.

Lemma sum_outputs_nonneg outs : 0 <= sum_outputs outs.
Proof.
  unfold sum_outputs. assert (forall t, 0 <= t -> 0 <= fold_left (fun total o => add128 total (value o)) outs t) as Hf; [|by apply Hf].
  induction outs as [|o outs IH]; intros t Ht; [done|]. cbn [fold_left]. apply IH. unfold add128, wrap128. apply Z.mod_pos_bound. lia.
Qed.

Lemma validated_entry utxo_get t h fee sc svc :
  validate_transaction signature_domain coinbase_maturity utxo_get t h = Ok (fee, sc, svc) -> standalone_rules t /\ 0 <= fee <= U64_MAX.
Proof.
  intros (Hst & es & message & ctx & m & _ & Hti & _ & Hle & -> & _)%validate_transaction_inv. split; [done|].
  pose proof (sum_outputs_nonneg (outputs t)). lia.
Qed.

(** ** Sequences of calls *)

(** The calls that change the pool.  [add_validated] is called with the result of
    a validation of the same transaction. *)
Inductive pool_call : Mempool -> Mempool -> Prop :=
| call_add m t utxo_get h r m' :
    add signature_domain coinbase_maturity m t utxo_get h = Some (r, m') -> pool_call m m'
| call_add_validated m t utxo_get h fee sc svc resolved r m' :
    validate_transaction signature_domain coinbase_maturity utxo_get t h = Ok (fee, sc, svc) ->
    add_validated m t fee sc svc resolved = Some (r, m') -> pool_call m m'
| call_remove m id : pool_call m (snd (Mempool_remove id m))
| call_remove_confirmed m txs : pool_call m (remove_confirmed txs m)
| call_revalidate m utxo_get h : pool_call m (revalidate signature_domain coinbase_maturity utxo_get h m)
| call_set_event_bus m log : pool_call m (set_event_bus log m).

Inductive pool_reachable : Mempool -> Prop :=
| reach_new : pool_reachable Mempool_new
| reach_call m m' : pool_reachable m -> pool_call m m' -> pool_reachable m'.

Lemma remove_any m id :
  pool_ok m -> pool_ok (snd (Mempool_remove id m)) /\ entries (snd (Mempool_remove id m)) = delete id (entries m).
Proof.
  intros Hok. destruct (entries m !! id) as [e|] eqn:E; [by apply (pool_remove_ok m id e)|].
  unfold Mempool_remove. rewrite E. cbn [snd]. by rewrite delete_id.
Qed.

Lemma remove_all_ok ids m :
  pool_ok m -> pool_ok (remove_all ids m) /\
  forall id e, entries (remove_all ids m) !! id = Some e <-> entries m !! id = Some e /\ id ∉ ids.
Proof.
  revert m. induction ids as [|id0 ids IH]; intros m Hok; cbn [remove_all fold_left].
  { split; [done|]. intros id e. set_solver. }
  destruct (remove_any m id0 Hok) as [Hok1 He1]. destruct (IH _ Hok1) as [Hok2 He2]. split; [done|].
  intros id e. fold (remove_all ids (snd (Mempool_remove id0 m))). rewrite He2, He1, lookup_delete_Some, not_elem_of_cons. naive_solver.
Qed.

(** The identifiers of the confirmed transactions, then the conflicting entries. *)
Lemma remove_confirmed_ok txs m :
  pool_ok m -> pool_ok (remove_confirmed txs m) /\
  forall id e, entries (remove_confirmed txs m) !! id = Some e <->
    entries m !! id = Some e /\ (forall t, t ∈ txs -> tx_id t <> Ok id) /\
    forall t o, t ∈ txs -> is_coinbase t = false -> o ∈ spend_keys t -> ~ spends_outpoint e o.
Proof.
  intros Hok. unfold remove_confirmed. set (m1 := fold_left _ txs m).
  assert (pool_ok m1 /\ forall id e, entries m1 !! id = Some e <-> entries m !! id = Some e /\ forall t, t ∈ txs -> tx_id t <> Ok id) as [Hok1 He1].
  { subst m1. revert m Hok. induction txs as [|t txs IH]; intros m Hok; cbn [fold_left].
    { split; [done|]. intros id e. set_solver. }
    destruct (tx_id t) as [id0|] eqn:Eid.
    - destruct (remove_any m id0 Hok) as [Hok1 He1]. destruct (IH _ Hok1) as [Hok2 He2]. split; [done|].
      intros id e. rewrite He2, He1, lookup_delete_Some. setoid_rewrite elem_of_cons. naive_solver congruence.
    - destruct (IH _ Hok) as [Hok2 He2]. split; [done|]. intros id e'. rewrite He2. setoid_rewrite elem_of_cons. naive_solver congruence. }
  clearbody m1. destruct (remove_all_ok (map fst (filter (fun ie => Exists (fun o => o ∈ confirmed_outpoints txs) (spend_keys (tx ie.2)))
    (map_to_list (entries m1)))) m1 Hok1) as [Hok2 He2]. split; [done|]. intros id e. rewrite He2, He1.
  assert (forall o, o ∈ confirmed_outpoints txs <-> exists t, t ∈ txs /\ is_coinbase t = false /\ o ∈ spend_keys t) as Hc.
  { intros o. unfold confirmed_outpoints. rewrite elem_of_list_to_set, elem_of_keys. setoid_rewrite list_elem_of_filter. naive_solver. }
  assert (entries m1 !! id = Some e -> (id ∉ map fst (filter (fun ie => Exists (fun o => o ∈ confirmed_outpoints txs) (spend_keys (tx ie.2)))
    (map_to_list (entries m1))) <-> forall t o, t ∈ txs -> is_coinbase t = false -> o ∈ spend_keys t -> ~ spends_outpoint e o)) as Hf.
  { intros Hid. split.
    - intros Hn t o Ht Hcb Ho Hsp. apply Hn, list_elem_of_fmap. exists (id, e). split; [done|]. apply list_elem_of_filter.
      split; [|by apply elem_of_map_to_list]. apply Exists_exists. exists o. split; [done|]. apply Hc. eauto.
    - intros Hall ([id' e'] & -> & [Hex Hin%elem_of_map_to_list]%list_elem_of_filter)%list_elem_of_fmap. cbn [fst snd] in *.
      rewrite Hid in Hin. injection Hin as <-. apply Exists_exists in Hex as (o & Ho & (t & Ht & Hcb & Hk)%Hc). by eapply Hall. }
  rewrite He1 in Hf. naive_solver.
Qed.

(** Entries stay exactly when their transaction still validates. *)
Lemma stale_spec utxo_get h e :
  stale signature_domain coinbase_maturity utxo_get h e = is_err (validate_transaction signature_domain coinbase_maturity utxo_get (tx e) h).
Proof.
  unfold stale. destruct (existsb _ _) eqn:Ex; [|done].
  destruct (validate_transaction _ _ _ _ _) as [[[f c] v]|] eqn:Ev; [|done]. exfalso.
  apply existsb_exists in Ex as (i & Hi & Hbad). apply validate_transaction_inv in Ev as (_ & es & message & ctx & mm & Hes & _).
  apply list_elem_of_In, list_elem_of_lookup in Hi as [k Hk]. destruct (Forall2_lookup_l _ _ _ _ _ Hes Hk) as (x & _ & [Hx Hm]).
  rewrite Hx in Hbad. unfold mature in Hm. apply andb_true_iff in Hbad as [Hb1 Hb2]. rewrite Hb1 in Hm. lia.
Qed.

Lemma revalidate_ok utxo_get h m :
  pool_ok m -> pool_ok (revalidate signature_domain coinbase_maturity utxo_get h m) /\
  forall id e, entries (revalidate signature_domain coinbase_maturity utxo_get h m) !! id = Some e <->
    entries m !! id = Some e /\ is_ok (validate_transaction signature_domain coinbase_maturity utxo_get (tx e) h) = true.
Proof.
  intros Hok. unfold revalidate.
  assert (forall ids m, pool_ok m -> let m' := fold_left (fun m id => match entries m !! id with
      | Some e => if stale signature_domain coinbase_maturity utxo_get h e then snd (Mempool_remove id m) else m | None => m end) ids m in
    pool_ok m' /\ forall id e, entries m' !! id = Some e <-> entries m !! id = Some e /\
      (id ∈ ids -> is_ok (validate_transaction signature_domain coinbase_maturity utxo_get (tx e) h) = true)) as Hf.
  { clear m Hok. induction ids as [|id0 ids IH]; intros m Hok; cbn [fold_left]; [split; [done|]; intros id e; set_solver|].
    destruct (entries m !! id0) as [e0|] eqn:E0.
    - rewrite stale_spec. unfold is_err. destruct (is_ok _) eqn:Eo; cbn [negb].
      + destruct (IH m Hok) as [Hok1 He1]. split; [done|]. intros id e. rewrite He1, elem_of_cons. naive_solver congruence.
      + destruct (remove_any m id0 Hok) as [Hok1 Hd]. destruct (IH _ Hok1) as [Hok2 He2]. split; [done|].
        intros id e. rewrite He2, Hd, lookup_delete_Some, elem_of_cons. naive_solver congruence.
    - destruct (IH m Hok) as [Hok1 He1]. split; [done|]. intros id e. rewrite He1, elem_of_cons. naive_solver congruence. }
  destruct (Hf (map fst (map_to_list (entries m))) m Hok) as [Hok1 He1]. split; [done|]. intros id e. rewrite He1.
  assert (entries m !! id = Some e -> id ∈ map fst (map_to_list (entries m))) as Hin; [|naive_solver].
  intros Hid. apply list_elem_of_fmap. exists (id, e). split; [done|]. by apply elem_of_map_to_list.
Qed.
End Admission.

(** ** Selection *)

Section Selection.
Context `{Sha2}.

(** The greedy choice along [es] with [size] bytes and [fees] already taken. *)
Inductive greedy (max : Z) : Z -> Z -> list MempoolEntry -> list MempoolEntry -> Prop :=
| greedy_nil size fees : size <= max -> fees <= U64_MAX -> greedy max size fees [] []
| greedy_take size fees e es chosen :
    size + entry_size e <= max -> fees + fee e <= U64_MAX ->
    greedy max (size + entry_size e) (fees + fee e) es chosen -> greedy max size fees (e :: es) (e :: chosen)
| greedy_skip size fees e es chosen :
    max < size + entry_size e \/ U64_MAX < fees + fee e ->
    greedy max size fees es chosen -> greedy max size fees (e :: es) chosen.

Lemma greedy_sublist max size fees es chosen : greedy max size fees es chosen -> chosen `sublist_of` es.
Proof. induction 1; by constructor. Qed.
Lemma greedy_within max size fees es chosen :
  greedy max size fees es chosen -> size + sum_of entry_size chosen <= max /\ fees + sum_of fee chosen <= U64_MAX.
Proof. induction 1; rewrite ?sum_of_cons; [change (sum_of _ []) with 0; change (sum_of fee []) with 0; lia|lia|done]. Qed.

Lemma select_from_greedy m max es sel fees size :
  pool_ok m -> Forall (fun e => entries m !! entry_id e = Some e) es -> 0 <= size <= max -> max <= MAX_BLOCK_SIZE -> 0 <= fees <= U64_MAX ->
  exists chosen, greedy max size fees es chosen /\
    select_from m max (map entry_id es) sel fees size = (sel ++ map tx chosen, fees + sum_of fee chosen).
Proof.
  intros Hok Hes Hs Hmax Hf. revert sel fees size Hs Hf. induction Hes as [|e es He Hes IH]; intros sel fees size Hs Hf; cbn [map select_from].
  { exists []. split; [constructor; lia|]. change (sum_of fee []) with 0. by rewrite app_nil_r, Z.add_0_r. }
  rewrite He. destruct (po_entry _ Hok _ _ He) as [_ _ _ Hst Hfee]. destruct (standalone_size _ Hst) as (n & Hn & Hle).
  assert (size_or U64_MAX (tx e) = entry_size e /\ entry_size e = n) as [-> En] by (unfold entry_size, size_or; by rewrite Hn).
  assert (wrap64 (size + entry_size e) = size + entry_size e) as ->
    by (unfold wrap64, MAX_BLOCK_SIZE, MAX_TX_SIZE in *; apply Z.mod_small; lia).
  destruct (Z.leb_spec (size + entry_size e) max).
  - destruct (checked_add U64_MAX fees (fee e)) as [nf|] eqn:Ea.
    + apply checked_Some in Ea as [Hnf ->].
      destruct (IH (sel ++ [tx e]) (fees + fee e) (size + entry_size e)) as (chosen & Hg & ->); [lia|lia|].
      exists (e :: chosen). split; [apply greedy_take; [lia|lia|done]|]. rewrite sum_of_cons, <- app_assoc. cbn [map app]. f_equal. lia.
    + destruct (IH sel fees size) as (chosen & Hg & ->); [lia|lia|]. exists chosen. split; [|done]. apply greedy_skip; [|done].
      right. apply checked_None in Ea. lia.
  - destruct (IH sel fees size) as (chosen & Hg & ->); [lia|lia|]. exists chosen. split; [|done]. apply greedy_skip; [lia|done].
Qed.

(** The entries from the highest density to the lowest. *)
Definition by_density (m : Mempool) : list MempoolEntry := omap (fun id => entries m !! id) (rev (map snd (density_rows m))).

Definition higher (a b : MempoolEntry) : Prop := density_le (fee_density b, entry_id b) (fee_density a, entry_id a).

Lemma density_ids m :
  pool_ok m -> exists es, Forall (fun e => entries m !! entry_id e = Some e) es /\ rev (map snd (density_rows m)) = map entry_id es /\
    by_density m = es /\ StronglySorted higher es /\ NoDup es /\ forall e, e ∈ es <-> entries m !! entry_id e = Some e.
Proof.
  intros Hok.
  assert (exists es, Forall (fun e => entries m !! entry_id e = Some e) es /\ map (fun e => ((fee_density e, entry_id e), entry_id e)) es = density_rows m) as (es & Hes & Hrows).
  { assert (Forall (fun row => exists e, entries m !! row.2 = Some e /\ row.1 = (fee_density e, row.2)) (density_rows m)) as Hall.
    { apply Forall_forall. intros [k id] Hin. apply density_rows_elem, (po_density _ Hok) in Hin. done. }
    clear -Hall Hok. induction Hall as [|[k id] rows (e & He & Hk) _ (es & Hes & <-)]; [by exists []|]. cbn [fst snd] in *. subst k.
    pose proof (eo_id _ _ (po_entry _ Hok id e He)) as Hid. exists (e :: es). split.
    - constructor; [by rewrite Hid|done].
    - cbn [map]. by rewrite Hid. }
  exists (rev es). split_and!.
  - by apply Forall_rev.
  - rewrite <- Hrows, map_map. cbn [snd]. by rewrite map_rev.
  - unfold by_density. rewrite <- Hrows, map_map. cbn [snd]. rewrite <- map_rev. apply Forall_rev in Hes. clear -Hes.
    induction Hes as [|e l He _ IH]; [done|]. cbn [map omap list_omap]. rewrite He. by f_equal.
  - pose proof (density_rows_sorted m) as Hs. rewrite <- Hrows in Hs. clear -Hs.
    induction es as [|e es IH]; [constructor|]. cbn [map] in Hs. inversion_clear Hs as [|? ? Hs' Hall]. cbn [rev].
    apply StronglySorted_app_2; [|by apply IH|repeat constructor].
    intros a b Ha Hb. apply list_elem_of_singleton in Hb as ->. rewrite <- Permutation_rev in Ha. rewrite Forall_forall in Hall.
    apply (Hall ((fee_density a, entry_id a), entry_id a)). apply list_elem_of_fmap. eauto.
  - rewrite <- Permutation_rev. assert (NoDup (density_rows m)) as Hnd by (unfold density_rows; rewrite merge_sort_Permutation; apply NoDup_map_to_list).
    rewrite <- Hrows in Hnd. by apply NoDup_fmap_1 in Hnd.
  - intros e. rewrite <- Permutation_rev. split; [by rewrite Forall_forall in Hes; apply Hes|]. intros He.
    assert (((fee_density e, entry_id e), entry_id e) ∈ density_rows m) as Hin by (apply density_rows_elem, (po_density _ Hok); eauto).
    rewrite <- Hrows in Hin. apply list_elem_of_fmap in Hin as (e' & [= _ Hid] & Hin). rewrite Forall_forall in Hes.
    specialize (Hes e' Hin). rewrite <- Hid, He in Hes. by injection Hes as ->.
Qed.
End Selection.

(** ** Properties *)

Section Properties.
Context `{Sha2} `{Ed25519} `{Layout}.
Variable signature_domain : Hash256.
Variable coinbase_maturity : Z.

Lemma call_ok m m' : pool_ok m -> pool_call signature_domain coinbase_maturity m m' -> pool_ok m'.
Proof.
  intros Hok Hcall. destruct Hcall as [m t utxo_get h r m' Ha|m t utxo_get h fee sc svc resolved r m' Hv Ha|m id|m txs|m utxo_get h|m log].
  - unfold add in Ha. destruct (screen m t) as [id|] eqn:Es; [|by simplify_eq].
    destruct (validate_transaction _ _ _ _ _) as [[[fee sc] svc]|] eqn:Ev; [|by simplify_eq].
    apply validated_entry in Ev as [Hst Hfee]. destruct (admit_ok m t id fee sc svc utxo_get Hok Es Hst Hfee) as (r' & m1 & Ha' & Hok1 & _).
    rewrite Ha in Ha'. by simplify_eq.
  - unfold add_validated in Ha. destruct (screen m t) as [id|] eqn:Es; [|by simplify_eq].
    apply validated_entry in Hv as [Hst Hfee]. destruct (admit_ok m t id fee sc svc resolved Hok Es Hst Hfee) as (r' & m1 & Ha' & Hok1 & _).
    rewrite Ha in Ha'. by simplify_eq.
  - by apply remove_any.
  - by apply remove_confirmed_ok.
  - by apply revalidate_ok.
  - by destruct Hok; split.
Qed.
Lemma reachable_ok m : pool_reachable signature_domain coinbase_maturity m -> pool_ok m.
Proof. induction 1; [apply pool_new_ok|by eapply call_ok]. Qed.

(** C12: The pool stays consistent.  After any sequence of admissions, removals,
    confirmations and revalidations, failed ones included: the order by
    density, the set of spent outpoints, the index by script and the byte count
    are exactly those of the entries; no two entries spend one outpoint; the
    pool is within both capacities.  And [add] always returns: either an error
    that changed nothing, or a validated transaction is in and the entries that
    had to go are those of the lowest density, below its own. *)
Theorem pool_consistent (m : Mempool) :
  pool_reachable signature_domain coinbase_maturity m ->
  pool_ok m /\
  forall t utxo_get h, exists r m', add signature_domain coinbase_maturity m t utxo_get h = Some (r, m') /\
    match r with
    | Ok id => exists fee sc svc,
        validate_transaction signature_domain coinbase_maturity utxo_get t h = Ok (fee, sc, svc) /\ admitted m m' t id fee sc svc
    | Err _ => m' = m
    end.
Proof.
  intros Hok%reachable_ok. split; [done|]. intros t utxo_get h. unfold add.
  destruct (screen m t) as [id|e] eqn:Es; [|by exists (Err e), m].
  destruct (validate_transaction _ _ _ _ _) as [[[fee sc] svc]|e] eqn:Ev; [|by exists (Err (ValidationFailed e)), m].
  destruct (validated_entry _ _ _ _ _ _ _ _ Ev) as [Hst Hfee].
  destruct (admit_ok m t id fee sc svc utxo_get Hok Es Hst Hfee) as (r & m' & Ha & _ & Hr). exists r, m'. split; [done|].
  destruct r as [id'|e]; [|by destruct Hr]. destruct Hr as [-> Hr]. eauto.
Qed.

(** A new block cleans the pool exactly.  After the confirmation of a block and
    the revalidation on the new tip, an entry is still there if and only if it
    was there, is not in the block, spends nothing a transaction of the block
    spends, and is valid on the new tip. *)
Theorem pool_after_block (m : Mempool) (txs : list Transaction) utxo_get h id e :
  pool_reachable signature_domain coinbase_maturity m ->
  entries (revalidate signature_domain coinbase_maturity utxo_get h (remove_confirmed txs m)) !! id = Some e <->
  entries m !! id = Some e /\ (forall t, t ∈ txs -> tx_id t <> Ok id) /\
  (forall t o, t ∈ txs -> is_coinbase t = false -> o ∈ spend_keys t -> o ∉ spend_keys (tx e)) /\
  is_ok (validate_transaction signature_domain coinbase_maturity utxo_get (tx e) h) = true.
Proof.
  intros Hok%reachable_ok. destruct (remove_confirmed_ok txs m Hok) as [Hok1 He1].
  destruct (revalidate_ok signature_domain coinbase_maturity utxo_get h _ Hok1) as [_ He2]. rewrite He2, He1. unfold spends_outpoint. naive_solver.
Qed.

Lemma distinct_spends t : standalone_rules t -> NoDup (spend_keys t).
Proof.
  intros (_ & _ & _ & _ & _ & _ & Hd & _). unfold check_distinct_inputs in Hd.
  destruct (insert_all _ _ _) as [s|] eqn:Es; [|done]. apply (insert_all_Ok DuplicateInput ∅). unfold spend_keys. by rewrite Es.
Qed.

Lemma disjoint_spends m es :
  pool_ok m -> Forall (fun e => entries m !! entry_id e = Some e) es -> NoDup es -> NoDup (concat (map spend_keys (map tx es))).
Proof.
  intros Hok Hes Hnd. induction Hes as [|e es He Hes IH]; [constructor|]. apply NoDup_cons in Hnd as [Hn Hnd]. cbn [map concat].
  apply NoDup_app. split_and!; [apply distinct_spends, (eo_rules _ _ (po_entry _ Hok _ _ He))| |by apply IH].
  intros o Ho (t & (e' & -> & He')%list_elem_of_fmap_1 & Ho')%elem_of_keys.
  apply Hn. rewrite Forall_forall in Hes. pose proof (Hes e' He') as Hl.
  assert (entry_id e = entry_id e') as Hid by (by eapply (po_conflict _ Hok)). rewrite <- Hid, He in Hl. by injection Hl as ->.
Qed.

(** Block templates take the best paying transactions.  [select_transactions]
    is the greedy choice along the entries from the highest fee density to the
    lowest: an entry is passed over only if with those chosen before it the size
    or the fee total would be exceeded.  The choice fits the block, the fees are
    their exact sum, and no outpoint is spent twice. *)
Theorem select_transactions_greedy (m : Mempool) (max : Z) :
  pool_reachable signature_domain coinbase_maturity m -> 0 <= max <= MAX_BLOCK_SIZE ->
  exists chosen, select_transactions m max = (map tx chosen, sum_of fee chosen) /\
    greedy max 0 0 (by_density m) chosen /\ StronglySorted higher (by_density m) /\
    (forall e, e ∈ by_density m <-> entries m !! entry_id e = Some e) /\
    sum_of entry_size chosen <= max /\ sum_of fee chosen <= U64_MAX /\ NoDup (concat (map spend_keys (map tx chosen))).
Proof.
  intros Hok%reachable_ok Hmax. destruct (density_ids m Hok) as (es & Hes & Hids & -> & Hs & Hnd & Hin).
  destruct (select_from_greedy m max es [] 0 0 Hok Hes ltac:(lia) ltac:(lia) ltac:(unfold U64_MAX; lia)) as (chosen & Hg & Hsel).
  exists chosen. unfold select_transactions. rewrite Hids, Hsel. destruct (greedy_within _ _ _ _ _ Hg) as [Hw1 Hw2].
  pose proof (greedy_sublist _ _ _ _ _ Hg) as Hsub. split_and!; [done|done|done|done|lia|lia|].
  apply (disjoint_spends m); [done| |by eapply sublist_NoDup].
  apply Forall_forall. intros e He. rewrite Forall_forall in Hes. apply Hes. by eapply elem_of_sublist.
Qed.

Lemma address_rows_spec m sc limit ids out :
  0 <= limit -> Forall (fun id => is_Some (entries m !! id)) ids ->
  address_rows m sc limit ids out = out ++ take (Z.to_nat (limit - len out)) (omap (fun id => address_view sc id <$> entries m !! id) ids).
Proof.
  intros Hl Hids. revert out. induction Hids as [|id ids [e He] Hids IH]; intros out; cbn [address_rows omap list_omap].
  { by rewrite take_nil, app_nil_r. }
  rewrite He. cbn [fmap option_fmap option_map]. pose proof (len_nonneg out).
  destruct (Z.leb_spec limit (len out)) as [Hle|Hlt].
  - replace (Z.to_nat (limit - len out)) with 0%nat by lia. by rewrite app_nil_r.
  - rewrite IH, len_app, len_cons. change (len []) with 0. replace (Z.to_nat (limit - len out)) with (Datatypes.S (Z.to_nat (limit - (len out + (1 + 0))))) by lia.
    cbn [take]. by rewrite <- app_assoc.
Qed.

(** The pending view of an address is exact.  [address_mempool_capped] lists, in
    ascending order of identifiers and at most [limit] of them, exactly the
    transactions of the pool that pay the script or spend an output of it. *)
Theorem address_mempool_exact (m : Mempool) (sc : bytes) (limit : Z) :
  pool_reachable signature_domain coinbase_maturity m -> 0 <= limit ->
  exists ids, StronglySorted hash_le ids /\ NoDup ids /\
    (forall id, id ∈ ids <-> exists e, entries m !! id = Some e /\ sc ∈ touched e) /\
    address_mempool_capped m sc limit = take (Z.to_nat limit) (omap (fun id => address_view sc id <$> entries m !! id) ids).
Proof.
  intros Hok%reachable_ok Hl. exists (merge_sort hash_le (elements (members (scripts m) sc))).
  assert (forall id, id ∈ merge_sort hash_le (elements (members (scripts m) sc)) <-> exists e, entries m !! id = Some e /\ sc ∈ touched e) as Hin.
  { intros id. by rewrite merge_sort_Permutation, elem_of_elements, (po_scripts _ Hok). }
  split_and!; [apply (StronglySorted_merge_sort hash_le)|rewrite merge_sort_Permutation; apply NoDup_elements|done|].
  unfold address_mempool_capped, members in *. destruct (scripts m !! sc) as [set|]; simpl in *.
  - rewrite address_rows_spec; [by rewrite Z.sub_0_r|done|]. apply Forall_forall. intros id (e & He & _)%Hin. eauto.
  - rewrite elements_empty. simpl. by rewrite take_nil.
Qed.
End Properties.

(** ** Witnesses: a pool with a payment *)

Section Witnesses.
#[local] Instance pool_sha : Sha2 := toy_digest.
#[local] Existing Instance toy_ed25519.
#[local] Existing Instance toy_layout.

Definition payment_added := add sample_domain 360 Mempool_new payment payment_get 400.
Definition payment_pool : Mempool := match payment_added with Some (_, m) => m | None => Mempool_new end.
Lemma payment_added_ok : (if payment_added is Some (Ok _, _) then true else false) = true.
Proof. vm_compute. reflexivity. Qed.
Lemma payment_pool_reachable : pool_reachable sample_domain 360 payment_pool.
Proof.
  unfold payment_pool. destruct payment_added as [[r m]|] eqn:E; [|apply reach_new].
  eapply reach_call; [apply reach_new|]. eapply call_add. exact E.
Qed.
(** The same payment again, and one that spends the same output. *)
Definition conflicting : Transaction := {|
  inputs := inputs payment; outputs := [sample_out 50000 sample_key]; witnesses := witnesses payment |}.
Example duplicate_refused : fst <$> add sample_domain 360 payment_pool payment payment_get 400 = Some (Err AlreadyInMempool).
Proof. vm_compute. reflexivity. Qed.
Example payment_selected : select_transactions payment_pool MAX_BLOCK_SIZE = ([payment], 40000).
Proof. vm_compute. reflexivity. Qed.

Lemma pool_consistent_witness :
  exists r m', add sample_domain 360 payment_pool payment payment_get 400 = Some (r, m') /\ r = Err AlreadyInMempool /\ m' = payment_pool.
Proof.
  destruct (@pool_consistent pool_sha toy_ed25519 toy_layout sample_domain 360 payment_pool) as [_ W]; [exact payment_pool_reachable|].
  destruct (W payment payment_get 400) as (r & m' & Ha & Hr). pose proof duplicate_refused as Hd. rewrite Ha in Hd.
  cbn [fst fmap option_fmap option_map] in Hd. injection Hd as ->. exists (Err AlreadyInMempool), m'. split; [exact Ha|]. split; [reflexivity|exact Hr].
Defined.

(** After the maturity rule stops holding (a reorganisation to height 300) the payment is gone. *)
Lemma pool_after_block_witness :
  entries (revalidate sample_domain 360 payment_get 300 (remove_confirmed [] payment_pool)) !! sample_id payment = None.
Proof.
  destruct (entries (revalidate _ _ _ _ _) !! _) as [e|] eqn:He; [exfalso|reflexivity]. pose proof (@pool_after_block pool_sha toy_ed25519 toy_layout sample_domain 360 payment_pool [] payment_get 300 (sample_id payment) e
    payment_pool_reachable) as W. apply W in He as (Hin & _ & _ & Hv).
  assert (tx e = payment) as Htx.
  { assert (tx <$> entries payment_pool !! sample_id payment = Some payment) as Hp by (vm_compute; reflexivity). rewrite Hin in Hp. by injection Hp. }
  rewrite Htx in Hv. vm_compute in Hv. discriminate Hv.
Defined.

Lemma select_transactions_greedy_witness : exists chosen, select_transactions payment_pool 1000 = (map tx chosen, sum_of fee chosen).
Proof.
  destruct (@select_transactions_greedy pool_sha toy_ed25519 toy_layout sample_domain 360 payment_pool 1000) as (chosen & Hs & _);
    [exact payment_pool_reachable|vm_compute; split; discriminate|]. exists chosen. exact Hs.
Defined.

Lemma address_mempool_exact_witness :
  exists ids, address_mempool_capped payment_pool (pubkey_hash_from_key sample_key) 5 =
    take 5 (omap (fun id => address_view (pubkey_hash_from_key sample_key) id <$> entries payment_pool !! id) ids).
Proof.
  destruct (@address_mempool_exact pool_sha toy_ed25519 toy_layout sample_domain 360 payment_pool (pubkey_hash_from_key sample_key) 5)
    as (ids & _ & _ & _ & W); [exact payment_pool_reachable|discriminate|]. exists ids. exact W.
Defined.
End Witnesses.
