(* ===== verification/Miner.v ===== *)
(** * The miner ([src/miner/miner.rs])

    [build_template_from_txs] tries the candidates on a copy of the UTXO set,
    then builds the block and its state root on a second copy; copies are values
    here, and [None] is a panic.  [mine] grinds nonces in a loop that other
    threads pause and cancel: it is a step function on what it reads from them
    and from the clock. *)

From Stdlib Require Import Strings.String.
From S2P Require Import Prelude Bytes Codec Hash Transaction Block U256 Difficulty Reward.
From S2P Require Import ScriptValue ScriptCodec Jets ScriptCost Eval FeeCost Smt Utxo TxValidation BlockValidation BlockApply Mempool.
#[local] Open Scope Z_scope.
#[local] Open Scope list_scope.

Record Miner := { pubkey : bytes }.

Section Template.
Context `{Sha2} `{StateTree} `{Ed25519} `{Layout}.
Variable signature_domain : Hash256.
Variable coinbase_maturity : Z.
Variable miner : Miner.

Definition build_coinbase (height total_fees : Z) : option Transaction :=
  if U32_MAX <? height then None
  else
    let! reward := checked_add U64_MAX (block_reward height) total_fees in
    Some {| inputs := [{| prev_tx_id := Hash256_ZERO; output_index := height |}];
            outputs := [new_p2pkh reward (pubkey miner)];
            witnesses := [{| witness := []; redeemer := None |}] |}.

(** What the trial loop has gathered. *)
Record assembly := { trial : UtxoSet; applied_txs : list Transaction; skipped_ids : list Hash256; applied_fees : Z }.

Definition skip (tx : Transaction) (a : assembly) : assembly := {|
  trial := trial a; applied_txs := applied_txs a;
  skipped_ids := match tx_id tx with Ok id => skipped_ids a ++ [id] | Err _ => skipped_ids a end;
  applied_fees := applied_fees a |}.

(** The value of the inputs that are in the set. *)
Definition input_value (s : UtxoSet) (tx : Transaction) : Z :=
  fold_left (fun t i => match get s (input_outpoint i) with Some e => add128 t (value (output e)) | None => t end) (inputs tx) 0.

Fixpoint assemble (height : Z) (txs : list Transaction) (a : assembly) : option assembly :=
  match txs with
  | [] => Some a
  | tx :: txs =>
      match validate_transaction signature_domain coinbase_maturity (get (trial a)) tx height with
      | Err _ => assemble height txs (skip tx a)
      | Ok _ =>
          let tx_in := input_value (trial a) tx in
          match apply_transaction tx height (trial a) with
          | None => None
          | Some (Ok _, s) =>
              assemble height txs {|
                trial := s; applied_txs := applied_txs a ++ [tx]; skipped_ids := skipped_ids a;
                applied_fees := add128 (applied_fees a) (saturating_sub tx_in (sum_outputs (outputs tx))) |}
          | Some (Err _, _) => assemble height txs (skip tx a)
          end
      end
  end.

(** Apply transactions in order; [Some None] when one fails. *)
Fixpoint apply_all (height : Z) (txs : list Transaction) (s : UtxoSet) : option (option UtxoSet) :=
  match txs with
  | [] => Some (Some s)
  | tx :: txs =>
      match apply_transaction tx height s with
      | None => None
      | Some (Err _, _) => Some None
      | Some (Ok _, s) => apply_all height txs s
      end
  end.

Definition build_template_from_txs (height : Z) (prev_block_id difficulty_target : Hash256) (timestamp : Z)
    (txs : list Transaction) (utxo_set : UtxoSet) : option (option (Block * list Hash256)) :=
  match assemble height txs {| trial := utxo_set; applied_txs := []; skipped_ids := []; applied_fees := 0 |} with
  | None => None
  | Some a =>
      let actual_fees := Z.min (applied_fees a) U64_MAX in
      match build_coinbase height actual_fees with
      | None => Some None
      | Some coinbase =>
          match apply_all height (coinbase :: applied_txs a) utxo_set with
          | None => None
          | Some None => Some None
          | Some (Some utxo_copy) =>
              let transactions := coinbase :: applied_txs a in
              match compute_tx_root transactions with
              | Err _ => None
              | Ok tx_root =>
                  Some (Some ({|
                    header := {|
                      version := VERSION; height := height; prev_block_id := prev_block_id; timestamp := timestamp;
                      difficulty_target := difficulty_target; nonce := 0; tx_root := tx_root;
                      Block.state_root := Utxo.state_root utxo_copy |};
                    transactions := transactions |}, skipped_ids a))
              end
          end
      end
  end.

Definition build_template (height : Z) (prev_block_id difficulty_target : Hash256) (timestamp : Z) (mempool : Mempool)
    (utxo_set : UtxoSet) : option (option (Block * list Hash256)) :=
  let max_tx_space := saturating_sub MAX_BLOCK_SIZE 400 in
  let (txs, _) := select_transactions mempool max_tx_space in
  build_template_from_txs height prev_block_id difficulty_target timestamp txs utxo_set.
End Template.

(** ** Grinding *)

Section Mine.
Context `{Sha2} `{Argon2}.

(** What one round reads: the two flags, and the clock ([None] before the epoch). *)
Record Observation := { cancel : bool; pause : bool; clock : option Z }.

(** At the head of the loop, at the head of the pause loop, or returned. *)
Inductive mine_state := MLoop (b : Block) | MWait (b : Block) | MDone (r : option Block).

Definition with_nonce (n t : Z) (b : Block) : Block := {|
  header := let h := header b in {|
    version := version h; height := height h; prev_block_id := prev_block_id h; timestamp := t;
    difficulty_target := difficulty_target h; nonce := n; tx_root := tx_root h; Block.state_root := Block.state_root h |};
  transactions := transactions b |}.

(** One hash, then the next nonce; a full nonce space starts over with the clock. *)
Definition grind (min_timestamp max_timestamp : Z) (o : Observation) (b : Block) : mine_state :=
  match compute_pow (header b) with
  | Err _ => MDone None
  | Ok pow_hash =>
      if cmp_u256 pow_hash (difficulty_target (header b)) <? 0 then MDone (Some b)
      else
        match checked_add U64_MAX (nonce (header b)) 1 with
        | Some n => MLoop (with_nonce n (timestamp (header b)) b)
        | None =>
            let now := default (timestamp (header b)) (clock o) in
            if max_timestamp <? now then MDone None
            else MLoop (with_nonce 0 (Z.max now min_timestamp) b)
        end
  end.

Definition mine_step (min_timestamp max_timestamp : Z) (o : Observation) (s : mine_state) : mine_state :=
  match s with
  | MLoop b => if cancel o then MDone None else MWait b
  | MWait b =>
      if pause o then (if cancel o then MDone None else MWait b)
      else grind min_timestamp max_timestamp o b
  | MDone r => MDone r
  end.

(** [mine] under the observations [os], as far as they go. *)
Definition mine (min_timestamp max_timestamp : Z) (os : list Observation) (b : Block) : mine_state :=
  fold_left (fun s o => mine_step min_timestamp max_timestamp o s) os (MLoop b).
End Mine.

(** ** Validation reads the inputs only *)

Section Local.
Context `{Sha2} `{Ed25519} `{Layout}.
Variable signature_domain : Hash256.
Variable coinbase_maturity : Z.
Variables get1 get2 : OutPoint -> option UtxoEntry.

Definition agree_on (ins : list TxInput) : Prop := Forall (fun i => get1 (input_outpoint i) = get2 (input_outpoint i)) ins.

Lemma gather_local h ins t es :
  agree_on ins -> gather_inputs coinbase_maturity get1 h ins t es = gather_inputs coinbase_maturity get2 h ins t es.
Proof.
  intros Ha. revert t es. induction Ha as [|i ins Hi _ IH]; intros t es; cbn [gather_inputs]; [done|]. rewrite Hi.
  destruct (get2 _) as [e|]; [|done]. cbn [ok_or]. destruct (_ && _); [done|]. apply IH.
Qed.
Lemma context_local i ins : agree_on ins -> context_inputs get1 i ins = context_inputs get2 i ins.
Proof.
  intros Ha. revert i. induction Ha as [|x ins Hi _ IH]; intros i; cbn [context_inputs]; [done|]. by rewrite Hi, IH.
Qed.
Lemma validate_local tx h :
  agree_on (inputs tx) ->
  validate_transaction signature_domain coinbase_maturity get1 tx h = validate_transaction signature_domain coinbase_maturity get2 tx h.
Proof.
  intros Ha. unfold validate_transaction, build_script_context. by rewrite (gather_local _ _ _ _ Ha), (context_local _ _ Ha).
Qed.

(** An accepted transaction is accepted on every larger set. *)
Lemma validate_larger tx h r :
  (forall o e, get1 o = Some e -> get2 o = Some e) ->
  validate_transaction signature_domain coinbase_maturity get1 tx h = Ok r ->
  validate_transaction signature_domain coinbase_maturity get2 tx h = Ok r.
Proof.
  intros Hsub Hv. rewrite <- Hv. symmetry. apply validate_local. destruct r as [[fee sc] svc].
  apply validate_transaction_inv in Hv as (_ & es & _ & _ & _ & Hes & _). unfold agree_on.
  induction Hes as [|i e ins es [He _] _ IH]; constructor; [|done]. rewrite He. symmetry. by apply Hsub.
Qed.
End Local.

(** ** Applying on a larger set *)

Section Larger.
Context `{Sha2}.

(** [v] is [u] with further entries, all at outpoints in [Q]. *)
Definition over (Q : OutPoint -> Prop) (u v : utxo_map) : Prop :=
  u ⊆ v /\ forall o e, v !! o = Some e -> u !! o = Some e \/ Q o.

Lemma spend_over Q ins u v ms u' :
  over Q u v -> spend_inputs ins u = Some (Ok ms, u') -> exists ms' v', spend_inputs ins v = Some (Ok ms', v') /\ over Q u' v'.
Proof.
  revert u v ms. induction ins as [|i ins IH]; intros u v ms [Hsub Hq]; cbn [spend_inputs]; [intros [= _ <-]; by exists [], v|].
  unfold mbind, store_bind, removing. cbn [store_remove spec_store]. destruct (u !! input_outpoint i) as [x|] eqn:Ex; [|done].
  rewrite (lookup_weaken _ _ _ _ Ex Hsub).
  destruct (spend_inputs ins (delete (input_outpoint i) u)) as [[[a|] u1]|] eqn:E1; [|done|done]. intros [= _ <-].
  destruct (IH (delete (input_outpoint i) u) (delete (input_outpoint i) v) a) as (ms' & v' & -> & Ho); [|done|by eexists _, v'].
  split; [by apply delete_mono|]. intros o e [Hne Ho]%lookup_delete_Some. rewrite lookup_delete_ne by done. by apply Hq.
Qed.

Lemma create_over Q id h cb idx outs u v ms u' :
  over Q u v -> (forall i, ~ Q (output_outpoint id i)) -> create_outputs id h cb idx outs u = Some (Ok ms, u') ->
  exists ms' v', create_outputs id h cb idx outs v = Some (Ok ms', v') /\ over Q u' v'.
Proof.
  intros Hov Hid. revert idx u v ms Hov. induction outs as [|o outs IH]; intros idx u v ms [Hsub Hq]; cbn [create_outputs];
    [intros [= _ <-]; by exists [], v|].
  unfold mbind, store_bind. cbn [store_insert spec_store]. unfold spec_insert.
  set (op := output_outpoint id idx). set (e := {| output := o; entry_height := h; entry_coinbase := cb |}).
  destruct (u !! op) eqn:Eu; [done|].
  assert (v !! op = None) as ->. { destruct (v !! op) as [x|] eqn:Ev; [|done]. destruct (Hq _ _ Ev) as [|Hbad]; [congruence|by apply Hid in Hbad]. }
  destruct (TxOutput_serialize _) as [enc|]; [|done].
  destruct (create_outputs id h cb (idx + 1) outs (<[op := e]> u)) as [[[a|] u1]|] eqn:E1; [|done|done]. intros [= _ <-].
  destruct (IH (idx + 1)%nat (<[op := e]> u) (<[op := e]> v) a) as (ms' & v' & -> & Ho); [|done|by eexists _, v'].
  split; [by apply insert_mono|]. intros o' e' [[<- <-]|[Hne Ho]]%lookup_insert_Some; [left; apply lookup_insert_eq|].
  rewrite lookup_insert_ne by done. by apply Hq.
Qed.

Lemma apply_over Q tx id h u v ms u' :
  over Q u v -> tx_id tx = Ok id -> (forall i, ~ Q (output_outpoint id i)) -> apply_transaction tx h u = Some (Ok ms, u') ->
  exists ms' v', apply_transaction tx h v = Some (Ok ms', v') /\ over Q u' v'.
Proof.
  unfold apply_transaction, mbind, store_bind, of_result. intros Hov -> Hid. cbn [map_err].
  destruct (negb (is_coinbase tx)).
  - destruct (spend_inputs (inputs tx) u) as [[[a|] u1]|] eqn:E1; [|done|done].
    destruct (spend_over Q _ _ _ _ _ Hov E1) as (ms1 & v1 & -> & Hov1).
    destruct (create_outputs _ _ _ _ _ u1) as [[[c|] u2]|] eqn:E3; [|done|done]. intros [= _ <-].
    destruct (create_over Q _ _ _ _ _ _ _ _ _ Hov1 Hid E3) as (ms2 & v2 & -> & Hov2). by eexists _, v2.
  - unfold mret, store_ret.
    destruct (create_outputs _ _ _ _ _ u) as [[[c|] u2]|] eqn:E3; [|done|done]. intros [= _ <-].
    destruct (create_over Q _ _ _ _ _ _ _ _ _ Hov Hid E3) as (ms2 & v2 & -> & Hov2). by eexists _, v2.
Qed.

(** A coinbase adds entries at its own outpoints only. *)
Lemma apply_coinbase_over c id h u ms u' :
  is_coinbase c = true -> tx_id c = Ok id -> apply_transaction c h u = Some (Ok ms, u') -> over (fun o => op_tx_id o = id) u u'.
Proof.
  intros Hcb Hid Ha. split.
  - unfold apply_transaction, mbind, store_bind, of_result in Ha. rewrite Hid, Hcb in Ha. cbn [map_err negb] in Ha. unfold mret, store_ret in Ha.
    destruct (create_outputs _ _ _ _ _ u) as [[[m|] v]|] eqn:Eo; [|done|done]. injection Ha as _ <-.
    clear -Eo. revert Eo. generalize 0%nat as idx. revert u m. generalize (outputs c) as outs.
    induction outs as [|o outs IH]; intros u m idx; cbn [create_outputs]; [by intros [= _ <-]|].
    unfold mbind, store_bind. cbn [store_insert spec_store]. unfold spec_insert at 1.
    destruct (u !! _) eqn:Eu; [done|]. destruct (TxOutput_serialize _) as [enc|]; [|done].
    match goal with |- context [create_outputs id h true (idx + 1) outs ?x] => destruct (create_outputs id h true (idx + 1) outs x) as [[[a|] u1]|] eqn:E1; [|done|done] end.
    intros [= _ <-]. etransitivity; [by apply insert_subseteq|]. by eapply IH.
  - intros o e Ho. destruct (apply_effect _ _ _ _ _ Ha) as (_ & _ & _ & id' & Hid' & Hk). rewrite Hid in Hid'. injection Hid' as <-.
    destruct (Hk o e Ho) as [|[(i & _ & ->) _]]; [by left|by right].
Qed.
End Larger.

(** ** The trial and the rebuild *)

Section Assembly.
Context `{Sha2} `{StateTree} `{Ed25519} `{Layout}.
Variable signature_domain : Hash256.
Variable coinbase_maturity : Z.
Variable h : Z.

Abbreviation valid_on s tx r := (validate_transaction signature_domain coinbase_maturity (get s) tx h = Ok r).

(** [txs] were validated and applied one after the other, with their fees. *)
Inductive trial_run : UtxoSet -> Z -> list Transaction -> Z -> UtxoSet -> Prop :=
| trial_nil s fees : trial_run s fees [] fees s
| trial_cons s fees tx fee sc svc ms s1 txs fees' s' :
    valid_on s tx (fee, sc, svc) -> apply_transaction tx h s = Some (Ok ms, s1) ->
    trial_run s1 (add128 fees fee) txs fees' s' -> trial_run s fees (tx :: txs) fees' s'.

Lemma input_value_fee s tx fee sc svc :
  valid_on s tx (fee, sc, svc) -> saturating_sub (input_value s tx) (sum_outputs (outputs tx)) = fee.
Proof.
  intros (_ & es & _ & _ & _ & Hes & _ & _ & Hle & -> & _)%validate_transaction_inv.
  assert (input_value s tx = fold_left (fun total e => add128 total (value (output e))) es 0) as ->.
  { unfold input_value. clear Hle. generalize 0. induction Hes as [|i e ins es [He _] _ IH]; intros t; [done|]. cbn [fold_left]. by rewrite He, IH. }
  unfold saturating_sub. lia.
Qed.

Lemma assemble_run txs a a' :
  assemble signature_domain coinbase_maturity h txs a = Some a' ->
  exists txs', applied_txs a' = applied_txs a ++ txs' /\ txs' `sublist_of` txs /\
    trial_run (trial a) (applied_fees a) txs' (applied_fees a') (trial a').
Proof.
  revert a. induction txs as [|tx txs IH]; intros a; cbn [assemble].
  { intros [= <-]. exists []. rewrite app_nil_r. split_and!; [done|done|constructor]. }
  assert (assemble signature_domain coinbase_maturity h txs (skip tx a) = Some a' ->
    exists txs', applied_txs a' = applied_txs a ++ txs' /\ txs' `sublist_of` tx :: txs /\
      trial_run (trial a) (applied_fees a) txs' (applied_fees a') (trial a')) as Hskip.
  { intros (txs' & Ha & Hsub & Hrun)%IH. exists txs'. split_and!; [done|by apply sublist_cons|done]. }
  destruct (validate_transaction _ _ _ _ _) as [[[fee sc] svc]|] eqn:Ev; [|done].
  destruct (apply_transaction tx h (trial a)) as [[[ms|] s]|] eqn:Ea; [|done|done].
  intros (txs' & Ha & Hsub & Hrun)%IH. cbn [applied_txs applied_fees trial] in *. exists (tx :: txs').
  split_and!; [by rewrite Ha, <- app_assoc|by apply sublist_skip|]. rewrite (input_value_fee _ _ _ _ _ Ev) in Hrun. by econstructor.
Qed.

(** The undo metadata of applying [txs] from [s]. *)
Fixpoint undo_metadata (txs : list Transaction) (s : UtxoSet) : Z :=
  match txs with
  | [] => 0
  | tx :: txs =>
      sum_of (fun i => match get s (input_outpoint i) with Some e => entry_bytes e | None => 0 end) (inputs tx) +
      match apply_transaction tx h s with Some (Ok _, s) => undo_metadata txs s | _ => 0 end
  end.

Lemma entry_bytes_nonneg e : 0 <= entry_bytes e.
Proof. unfold entry_bytes. destruct (TxOutput_serialize _) as [b|]; [pose proof (len_nonneg b)|]; lia. Qed.
Lemma input_bytes_nonneg s ins : 0 <= sum_of (fun i => match get s (input_outpoint i) with Some e => entry_bytes e | None => 0 end) ins.
Proof. apply sum_of_nonneg, Forall_forall. intros i _. destruct (get s _); [apply entry_bytes_nonneg|lia]. Qed.
Lemma undo_metadata_nonneg txs s : 0 <= undo_metadata txs s.
Proof.
  revert s. induction txs as [|tx txs IH]; intros s; cbn [undo_metadata]; [lia|]. pose proof (input_bytes_nonneg s (inputs tx)).
  destruct (apply_transaction tx h s) as [[[ms|] s1]|]; [pose proof (IH s1)| |]; lia.
Qed.

Lemma snapshot_fits s ins spent bytes :
  0 <= bytes -> bytes + sum_of (fun i => match get s (input_outpoint i) with Some e => entry_bytes e | None => 0 end) ins <= MAX_SPENT_UTXOS_SIZE ->
  exists spent', snapshot_inputs (store_get s) ins spent bytes =
    Ok (spent', bytes + sum_of (fun i => match get s (input_outpoint i) with Some e => entry_bytes e | None => 0 end) ins).
Proof.
  revert spent bytes. induction ins as [|i ins IH]; intros spent bytes Hb; cbn [snapshot_inputs].
  { intros _. change (sum_of _ []) with 0. rewrite Z.add_0_r. eauto. }
  rewrite sum_of_cons. change (store_get s (input_outpoint i)) with (get s (input_outpoint i)).
  pose proof (input_bytes_nonneg s ins) as Hn. destruct (get s (input_outpoint i)) as [e|]; intros Hle.
  - pose proof (entry_bytes_nonneg e). unfold saturating_add, MAX_SPENT_UTXOS_SIZE in *.
    rewrite Z.min_r by (unfold U64_MAX; lia). destruct (Z.ltb_spec 16777216 (bytes + entry_bytes e)); [lia|].
    rewrite Z.add_assoc. apply IH; lia.
  - rewrite Z.add_0_l. apply IH; lia.
Qed.

Lemma trial_step_over cid tx s s1 r r1 ms ms' :
  tx_id tx <> Ok cid -> over (fun o => op_tx_id o = cid) (utxos s) (utxos r) ->
  apply_transaction tx h s = Some (Ok ms, s1) -> apply_transaction tx h r = Some (Ok ms', r1) ->
  over (fun o => op_tx_id o = cid) (utxos s1) (utxos r1).
Proof.
  intros Hn Hov Ha%projects_apply Er%projects_apply. destruct (apply_effect _ _ _ _ _ Ha) as (_ & _ & _ & id & Hid & _).
  destruct (apply_over (fun o => op_tx_id o = cid) tx id h (utxos s) (utxos r) ms (utxos s1) Hov Hid) as (ms'' & v' & Hv' & Hov');
    [intros i; cbn; congruence|done|]. rewrite Er in Hv'. by injection Hv' as _ ->.
Qed.

(** The validating loop accepts what the trial accepted and the rebuild applied. *)
Lemma rebuild_validates cid b s fees txs fees' s' r r' p :
  height (header b) = h -> trial_run s fees txs fees' s' -> Forall (fun t => tx_id t <> Ok cid) txs ->
  over (fun o => op_tx_id o = cid) (utxos s) (utxos r) -> apply_all h txs r = Some (Some r') ->
  total_fees p = fees -> 0 <= spent_utxos_bytes p -> spent_utxos_bytes p + undo_metadata txs r <= MAX_SPENT_UTXOS_SIZE ->
  exists p', apply_validated signature_domain coinbase_maturity b txs p r = Some (Ok p', r') /\ total_fees p' = fees'.
Proof.
  intros Hh Hrun. revert r p. induction Hrun as [s fees|s fees tx fee sc svc ms s1 txs fees' s' Hv Ha Hrun IH]; intros r p Hn Hov Hall Hp Hb Hu;
    cbn [apply_all apply_validated undo_metadata] in *.
  { injection Hall as ->. eauto. }
  rewrite Hh. destruct (apply_transaction tx h r) as [[[ms'|] r1]|] eqn:Er; [|done|done].
  assert (validate_transaction signature_domain coinbase_maturity (store_get r) tx h = Ok (fee, sc, svc)) as ->.
  { eapply validate_larger; [|exact Hv]. intros o e. unfold get. intros He. exact (lookup_weaken _ _ _ _ He (proj1 Hov)). }
  pose proof (undo_metadata_nonneg txs r1). pose proof (input_bytes_nonneg r (inputs tx)).
  destruct (snapshot_fits r (inputs tx) (spent_utxos p) (spent_utxos_bytes p)) as (spent' & ->); [done|lia|].
  apply Forall_cons in Hn as [Hn1 Hn]. apply IH; cbn [total_fees spent_utxos_bytes]; [done| |done|by rewrite Hp|lia|lia].
  by apply (trial_step_over cid tx s s1 r r1 ms ms').
Qed.
End Assembly.

(** ** The coinbase of a template *)

Section Coinbase.
Context `{Sha2} `{!Sha2Width}.
Variable miner : Miner.
(** The miner's address is not at the same time a serialised program. *)
Hypothesis address_unambiguous : is_ok (deserialize_program (pubkey_hash_from_key (pubkey miner))) = false.

Lemma address_len : len (pubkey_hash_from_key (pubkey miner)) = 32.
Proof. apply domain_hash_wf. Qed.

Lemma coinbase_shape h fees c :
  build_coinbase miner h fees = Some c -> h <= U32_MAX /\ 0 <= block_reward h + fees <= U64_MAX /\
  inputs c = [{| prev_tx_id := Hash256_ZERO; output_index := h |}] /\ outputs c = [new_p2pkh (block_reward h + fees) (pubkey miner)] /\
  witnesses c = [{| witness := []; redeemer := None |}].
Proof.
  unfold build_coinbase. destruct (Z.ltb_spec U32_MAX h); [done|]. destruct (checked_add _ _ _) as [r|] eqn:Er; [|done].
  apply checked_Some in Er as [Hr ->]. by intros [= <-].
Qed.

(** 4 bytes of counts, 36 of input, 44 of output and 3 of witness *)
Lemma coinbase_size h fees c :
  build_coinbase miner h fees = Some c -> exists b, Transaction_serialize c = Ok b /\ len b = 87.
Proof.
  intros (_ & _ & Hi & Ho & Hw)%coinbase_shape. unfold Transaction_serialize, serialize_header, serialize_body. rewrite Hi, Ho, Hw.
  change (U16_MAX <? len [{| prev_tx_id := Hash256_ZERO; output_index := h |}]) with false.
  change (U16_MAX <? len [new_p2pkh (block_reward h + fees) (pubkey miner)]) with false.
  cbn [serialize_all]. unfold TxOutput_serialize, TxWitness_serialize, serialize_varbytes. cbn [script value datum datum_hash new_p2pkh witness redeemer].
  rewrite address_len. change (U16_MAX <? 32) with false. change (U16_MAX <? len []) with false. cbn [app]. eexists. split; [done|].
  unfold TxInput_serialize. cbn [prev_tx_id output_index]. rewrite !len_app, !len_le_bytes, address_len. reflexivity.
Qed.

Lemma coinbase_accepted h fees c :
  0 <= h -> 0 <= fees -> build_coinbase miner h fees = Some c -> validate_coinbase c h (block_reward h + fees) = Ok tt.
Proof.
  intros Hh Hf Hc. pose proof (reward_bounds h Hh) as Hr. unfold BASE_REWARD, DECAY_COMPONENT in Hr.
  destruct (coinbase_size _ _ _ Hc) as (b & Hb & Hlen). destruct (coinbase_shape _ _ _ Hc) as (Hh32 & Hrange & Hi & Ho & Hw).
  unfold validate_coinbase, check_tx_size. rewrite Hi, Hw, Ho, Hb. cbn [prev_tx_id output_index map_err].
  rewrite bool_decide_true by done. cbn [negb]. rewrite Hlen. change (MAX_TX_SIZE <? 87) with false.
  replace (U32_MAX <? h) with false by lia. rewrite Z.eqb_refl. cbn [negb witness redeemer].
  change (len [] =? 0) with true. cbn [negb]. rewrite andb_false_r. rewrite bool_decide_false by (intros [? [=]]).
  cbn [for_enum]. unfold check_dust, check_datum_size, check_datum_hash, check_output_script, is_phase1_script.
  cbn [value script datum datum_hash new_p2pkh]. unfold DUST_THRESHOLD. replace (block_reward h + fees <? 200) with false by lia.
  rewrite address_len. cbn [Z.eqb]. rewrite Pos.eqb_refl, address_unambiguous. unfold sum_outputs. cbn [fold_left value new_p2pkh].
  unfold add128, wrap128, U64_MAX in *. rewrite Z.add_0_l, Z.mod_small by lia.
  replace (_ <? block_reward h + fees) with false by lia. by rewrite Z.eqb_refl.
Qed.
End Coinbase.

(** ** Templates are accepted *)

Section Accept.
Context `{Sha2} `{!Sha2Width} `{StateTree} `{Ed25519} `{Layout} `{Argon2}.
Variable signature_domain : Hash256.
Variable coinbase_maturity : Z.
Variable miner : Miner.

(** What the pool guarantees of the candidates. *)
Record candidates_ok (txs : list Transaction) : Prop := {
  co_coinbase : Forall (fun t => is_coinbase t = false) txs;
  co_spends : NoDup (concat (map spend_keys txs));
  co_ids : exists ids, Forall2 (fun t id => tx_id t = Ok id) txs ids /\ NoDup ids;
  co_bytes : Forall (fun t => exists b, Transaction_serialize t = Ok b) txs;
  co_size : sum_of (size_or 0) txs <= MAX_BLOCK_SIZE - 400
}.

Lemma sublist_keys txs txs' : txs' `sublist_of` txs -> concat (map spend_keys txs') `sublist_of` concat (map spend_keys txs).
Proof.
  induction 1 as [|t l1 l2 _ IH|t l1 l2 _ IH]; cbn [map concat]; [done| |].
  - by apply sublist_app.
  - etransitivity; [exact IH|]. by apply sublist_inserts_l.
Qed.
Lemma sublist_ids txs txs' ids :
  txs' `sublist_of` txs -> Forall2 (fun t id => tx_id t = Ok id) txs ids ->
  exists ids', Forall2 (fun t id => tx_id t = Ok id) txs' ids' /\ ids' `sublist_of` ids.
Proof.
  intros Hsub. revert ids. induction Hsub as [|t l1 l2 _ IH|t l1 l2 _ IH]; intros ids Hids.
  - inversion Hids. by exists [].
  - inversion Hids as [|? id ? ids0 Hid Hrest]; subst. destruct (IH _ Hrest) as (ids' & Hf & Hs).
    exists (id :: ids'). split; [by constructor|by apply sublist_skip].
  - inversion Hids as [|? id ? ids0 Hid Hrest]; subst. destruct (IH _ Hrest) as (ids' & Hf & Hs).
    exists ids'. split; [done|by apply sublist_cons].
Qed.
Lemma sublist_sum {A} (f : A -> Z) l l' : (forall x, 0 <= f x) -> l' `sublist_of` l -> sum_of f l' <= sum_of f l.
Proof.
  intros Hf. induction 1 as [|t l1 l2 _ IH|t l1 l2 _ IH]; rewrite ?sum_of_cons; [done|lia|]. specialize (Hf t). lia.
Qed.
Lemma size_or_nonneg t : 0 <= size_or 0 t.
Proof. apply (entry_size_nonneg {| tx := t; entry_id := []; fee := 0; entry_cost := 0; fee_density := 0; spent_inputs := [] |}). Qed.

Lemma candidates_sublist txs txs' : txs' `sublist_of` txs -> candidates_ok txs -> candidates_ok txs'.
Proof.
  intros Hsub [Hc Hs (ids & Hids & Hnd) Hb Hz]. split.
  - apply Forall_forall. intros t Ht. rewrite Forall_forall in Hc. apply Hc. by eapply elem_of_sublist.
  - eapply sublist_NoDup; [exact Hs|]. by apply sublist_keys.
  - destruct (sublist_ids _ _ _ Hsub Hids) as (ids' & Hf & Hs'). exists ids'. split; [done|]. by eapply sublist_NoDup.
  - apply Forall_forall. intros t Ht. rewrite Forall_forall in Hb. apply Hb. by eapply elem_of_sublist.
  - pose proof (sublist_sum (size_or 0) txs txs' size_or_nonneg Hsub). lia.
Qed.

Lemma selection_candidates m : pool_ok m -> candidates_ok (fst (select_transactions m (MAX_BLOCK_SIZE - 400))).
Proof.
  intros Hok. destruct (density_ids m Hok) as (es & Hes & Hids & _ & _ & Hnd & _).
  destruct (select_from_greedy m (MAX_BLOCK_SIZE - 400) es [] 0 0 Hok Hes) as (chosen & Hg & Hsel);
    [unfold MAX_BLOCK_SIZE; lia..|unfold U64_MAX; lia|].
  unfold select_transactions. rewrite Hids, Hsel. cbn [fst app].
  pose proof (greedy_sublist _ _ _ _ _ Hg) as Hsub. destruct (greedy_within _ _ _ _ _ Hg) as [Hw _].
  assert (Forall (fun e => entries m !! entry_id e = Some e) chosen) as Hch.
  { apply Forall_forall. intros e He. rewrite Forall_forall in Hes. apply Hes. by eapply elem_of_sublist. }
  assert (NoDup chosen) as Hnd' by (by eapply sublist_NoDup).
  assert (Forall (fun e => entry_ok (entry_id e) e) chosen) as Heo.
  { eapply Forall_impl; [exact Hch|]. intros e. apply (po_entry _ Hok). }
  split.
  - apply Forall_map. eapply Forall_impl; [exact Heo|]. intros e. apply eo_spend.
  - by apply (disjoint_spends m).
  - exists (map entry_id chosen). split.
    + clear -Heo. induction Heo as [|e l He _ IH]; constructor; [apply (eo_tx_id _ _ He)|done].
    + apply NoDup_fmap_2_strong; [|done]. intros a b Ha Hb Hab. rewrite Forall_forall in Hch.
      pose proof (Hch a Ha) as E1. pose proof (Hch b Hb) as E2. rewrite Hab, E2 in E1. by injection E1.
  - apply Forall_map. eapply Forall_impl; [exact Heo|]. intros e He. destruct (standalone_size _ (eo_rules _ _ He)) as (n & Hn & _).
    unfold serialized_size in Hn. destruct (Transaction_serialize (tx e)) as [b|]; [eauto|done].
  - assert (sum_of (size_or 0) (map tx chosen) = sum_of entry_size chosen) as ->; [|lia].
    clear. induction chosen as [|e l IH]; [done|]. cbn [map]. rewrite !sum_of_cons, IH. done.
Qed.

Lemma block_bytes txs :
  Forall (fun t => exists b, Transaction_serialize t = Ok b) txs ->
  exists b, serialize_all Transaction_serialize txs = Ok b /\ len b = sum_of (size_or 0) txs.
Proof.
  induction 1 as [|t txs (b & Hb) _ (bs & Hbs & Hlen)]; cbn [serialize_all]; [by exists []|]. rewrite Hb, Hbs.
  exists (b ++ bs). split; [done|]. rewrite len_app, sum_of_cons, Hlen. unfold size_or at 2, serialized_size. by rewrite Hb.
Qed.

Lemma check_tx_ids_complete txs ids seen :
  Forall2 (fun t id => tx_id t = Ok id) txs ids -> NoDup ids -> (forall id, id ∈ ids -> id ∉ seen) -> check_tx_ids seen txs = Ok tt.
Proof.
  intros Hf. revert seen. induction Hf as [|t id txs ids Hid _ IH]; intros seen Hnd Hs; cbn [check_tx_ids]; [done|].
  apply NoDup_cons in Hnd as [Hn Hnd]. rewrite Hid. cbn [map_err]. rewrite bool_decide_false by (apply Hs; left).
  apply IH; [done|]. intros id' Hid'. specialize (Hs id' ltac:(by right)). set_solver.
Qed.

(** The parts of a finished template. *)
Lemma template_inv h prev target ts txs s block skipped :
  build_template_from_txs signature_domain coinbase_maturity miner h prev target ts txs s = Some (Some (block, skipped)) ->
  exists c txs' fees s' final,
    txs' `sublist_of` txs /\ trial_run signature_domain coinbase_maturity h s 0 txs' fees s' /\
    build_coinbase miner h (Z.min fees U64_MAX) = Some c /\ apply_all h (c :: txs') s = Some (Some final) /\
    transactions block = c :: txs' /\ compute_tx_root (c :: txs') = Ok (tx_root (header block)) /\
    header block = {| version := VERSION; height := h; prev_block_id := prev; timestamp := ts; difficulty_target := target; nonce := 0;
      tx_root := tx_root (header block); Block.state_root := Utxo.state_root final |}.
Proof.
  unfold build_template_from_txs. destruct (assemble _ _ _ _ _) as [a|] eqn:Ea; [|done].
  apply assemble_run in Ea as (txs' & Hap & Hsub & Hrun). cbn [applied_txs applied_fees trial app] in *. rewrite Hap.
  destruct (build_coinbase _ _ _) as [c|] eqn:Ec; [|done]. destruct (apply_all h (c :: txs') s) as [[final|]|] eqn:Eall; [|done|done].
  destruct (compute_tx_root _) as [root|] eqn:Er; [|done]. intros [= <- <-].
  exists c, txs', (applied_fees a), (trial a), final. by split_and!.
Qed.

(** The parent a template of height [h] with [prev] builds on. *)
Definition extends (parent : option BlockHeader) (h : Z) (prev : Hash256) : Prop :=
  match parent with Some p => h = height p + 1 /\ prev = block_id p | None => h = 0 /\ prev = Hash256_ZERO end.

Lemma trial_fees s fees txs fees' s' :
  0 <= fees -> forall h, trial_run signature_domain coinbase_maturity h s fees txs fees' s' -> 0 <= fees'.
Proof. intros Hf h Hrun. induction Hrun; [done|]. apply IHHrun. unfold add128, wrap128. apply Z.mod_pos_bound. lia. Qed.

Lemma template_header h prev target ts txs s block skipped parent ats clock :
  candidates_ok txs ->
  build_template_from_txs signature_domain coinbase_maturity miner h prev target ts txs s = Some (Some (block, skipped)) ->
  BlockHeader_wf (header block) -> 0 <= h -> extends parent h prev -> check_timestamp (header block) parent ats clock = Ok tt ->
  (forall c rest t, transactions block = c :: rest -> t ∈ rest -> tx_id t <> tx_id c) ->
  validate_block_header_skip_pow block parent ats target clock = Ok tt.
Proof.
  intros Hco (c & txs' & fees & s' & final & Hsub & Hrun & Hc & Hall & Htx & Hroot & Hhdr)%template_inv Hwf Hh Hext Hts Hids.
  apply (candidates_sublist _ _ Hsub) in Hco. destruct (coinbase_shape miner h _ c Hc) as (Hh32 & _ & Hi & _).
  destruct (coinbase_size miner h _ c Hc) as (cb & Hcb & Hcl).
  unfold validate_block_header_skip_pow, validate_block_header_inner.
  assert (version (header block) = VERSION /\ height (header block) = h /\ prev_block_id (header block) = prev /\
    difficulty_target (header block) = target) as (-> & Hht & Hpv & ->) by (by rewrite Hhdr).
  rewrite Z.eqb_refl, bool_decide_true by done. cbn [negb].
  assert (check_height (header block) parent = Ok tt) as ->.
  { unfold check_height. rewrite Hht. destruct parent as [p|]; destruct Hext as [-> _]; [|by rewrite Z.eqb_refl].
    assert (checked_add U64_MAX (height p) 1 = Some (height p + 1)) as ->
      by (apply checked_Some; unfold U64_MAX, U32_MAX in *; lia). cbn [ok_or]. by rewrite Z.eqb_refl. }
  assert (check_prev_block (header block) parent = Ok tt) as ->.
  { unfold check_prev_block. rewrite Hpv. destruct parent as [p|]; destruct Hext as [_ ->]; by rewrite bool_decide_true. }
  rewrite Hts. unfold Block_serialize. rewrite Htx.
  destruct (block_bytes txs' (co_bytes _ Hco)) as (bs & Hbs & Hlen). cbn [serialize_all]. rewrite Hcb, Hbs. cbn [map_err].
  rewrite !len_app, len_le_bytes, Hcl, Hlen. pose proof (co_size _ Hco).
  rewrite (len_header _ Hwf). change (Z.of_nat 4) with 4.
  destruct (Z.ltb_spec MAX_BLOCK_SIZE (156 + (4 + (87 + sum_of (size_or 0) txs')))); [lia|].
  unfold check_transactions. rewrite Htx.
  assert (is_coinbase c = true) as -> by (unfold is_coinbase; rewrite Hi; by apply bool_decide_true). cbn [negb].
  rewrite (proj2 (for_enum_Ok (fun i t => if is_coinbase t then Err (NonCoinbaseSentinel i) else Ok tt) 1 txs')).
  2:{ intros k t Hk. pose proof (co_coinbase _ Hco) as Hn. rewrite Forall_forall in Hn. by rewrite (Hn t) by (by eapply list_elem_of_lookup_2). }
  destruct (co_ids _ Hco) as (ids & Hf & Hnd). destruct (serialize_signing _ _ Hcb) as [sb Hsb].
  assert (tx_id c = Ok (domain_hash DS_TX sb)) as Hcid by (unfold tx_id; by rewrite Hsb).
  rewrite (check_tx_ids_complete (c :: txs') (domain_hash DS_TX sb :: ids) ∅).
  2:{ by constructor. }
  2:{ apply NoDup_cons. split; [|done]. intros Hin. apply list_elem_of_lookup in Hin as [k Hk].
      destruct (Forall2_lookup_r _ _ _ _ _ Hf Hk) as (t & Ht & Hid). apply (Hids c txs' t Htx); [by eapply list_elem_of_lookup_2|congruence]. }
  2:{ intros id _. set_solver. }
  pose proof (proj2 (insert_all_Ok DoubleSpend ∅ (concat (map spend_keys txs')))) as Hins.
  assert (is_ok (insert_all DoubleSpend ∅ (concat (map spend_keys txs'))) = true) as Hins' by (apply Hins; split; [apply (co_spends _ Hco)|set_solver]).
  unfold spend_keys in Hins'. destruct (insert_all _ _ _); [|done]. rewrite Hroot. cbn [map_err].
  by rewrite bool_decide_true.
Qed.

Hypothesis address_unambiguous : is_ok (deserialize_program (pubkey_hash_from_key (pubkey miner))) = false.

Lemma template_applies h prev target ts txs s block skipped :
  build_template_from_txs signature_domain coinbase_maturity miner h prev target ts txs s = Some (Some (block, skipped)) ->
  0 <= h -> (forall c rest t, transactions block = c :: rest -> t ∈ rest -> tx_id t <> tx_id c) ->
  undo_metadata h (transactions block) s <= MAX_SPENT_UTXOS_SIZE ->
  exists fees ms s', validate_and_apply_block_transactions_atomic signature_domain coinbase_maturity block s = Some (Ok (fees, ms), s') /\
    Utxo.state_root s' = Block.state_root (header block).
Proof.
  intros (c & txs' & fees & s' & final & _ & Hrun & Hc & Hall & Htx & _ & Hhdr)%template_inv Hh Hids Hu.
  pose proof (trial_fees s 0 txs' fees s' ltac:(lia) h Hrun) as Hf0.
  destruct (coinbase_shape miner h _ c Hc) as (Hh32 & Hr & Hi & _). pose proof (reward_bounds h Hh) as Hrb. unfold BASE_REWARD in Hrb.
  assert (Z.min fees U64_MAX = fees) as Hmin by lia. rewrite Hmin in *.
  assert (height (header block) = h) as Hht by (by rewrite Hhdr).
  cbn [apply_all] in Hall. rewrite Htx in Hu. cbn [undo_metadata] in Hu.
  destruct (apply_transaction c h s) as [[[ms|] s1]|] eqn:Ec; [|done|done].
  pose proof (input_bytes_nonneg s (inputs c)) as Hib.
  unfold validate_and_apply_block_transactions_atomic, apply_coinbase. rewrite Htx, Hht, Ec.
  apply projects_apply in Ec. destruct (apply_effect _ _ _ _ _ Ec) as (_ & _ & _ & cid & Hcid & _).
  assert (is_coinbase c = true) as Hcb by (unfold is_coinbase; rewrite Hi; by apply bool_decide_true).
  pose proof (apply_coinbase_over _ _ _ _ _ _ Hcb Hcid Ec) as Hov.
  destruct (rebuild_validates signature_domain coinbase_maturity h cid block s 0 txs' fees s' s1 final
    {| applied_count := 1; total_fees := 0; spent_utxos := []; spent_utxos_bytes := 0; mutations := ms |} Hht Hrun) as (p' & -> & Hp');
    [|done|done|done|done|cbn [spent_utxos_bytes]; lia|].
  { apply Forall_forall. intros t Ht. rewrite <- Hcid. by apply (Hids c txs'). }
  rewrite Hp'. destruct (Z.ltb_spec U64_MAX fees); [lia|].
  assert (checked_add U64_MAX (block_reward h) fees = Some (block_reward h + fees)) as -> by (apply checked_Some; lia).
  rewrite (coinbase_accepted miner address_unambiguous h fees c) by done. exists fees, (mutations p'), final. by rewrite Hhdr.
Qed.

(** C29: When consensus accepts what the miner builds.  A template assembled from a
    reachable pool on a parent passes the header rules (up to the proof of work) and
    full validation on the UTXO set it was built on, and leads to the state root in
    its header, provided that: its undo metadata (the serialised outputs it spends)
    is within [MAX_SPENT_UTXOS_SIZE], which the miner does not check and without
    which validation rejects the block; its timestamp is in the window of the header
    rules, which the caller of [build_template] chooses; the miner's address does
    not also parse as a program; none of its transactions has the identifier of its
    coinbase; and the fields of its header are within their widths. *)
Theorem template_accepted (m : Mempool) h prev target ts s block skipped parent ats clock :
  pool_reachable signature_domain coinbase_maturity m ->
  build_template signature_domain coinbase_maturity miner h prev target ts m s = Some (Some (block, skipped)) ->
  BlockHeader_wf (header block) -> 0 <= h -> extends parent h prev -> check_timestamp (header block) parent ats clock = Ok tt ->
  (forall c rest t, transactions block = c :: rest -> t ∈ rest -> tx_id t <> tx_id c) ->
  undo_metadata h (transactions block) s <= MAX_SPENT_UTXOS_SIZE ->
  validate_block_header_skip_pow block parent ats target clock = Ok tt /\
  exists fees ms s', validate_and_apply_block_transactions_atomic signature_domain coinbase_maturity block s = Some (Ok (fees, ms), s') /\
    Utxo.state_root s' = Block.state_root (header block).
Proof.
  intros Hm%reachable_ok Hb Hwf Hh Hext Hts Hids Hu. unfold build_template in Hb. pose proof (selection_candidates m Hm) as Hco.
  change (saturating_sub MAX_BLOCK_SIZE 400) with (MAX_BLOCK_SIZE - 400) in Hb. destruct (select_transactions _ _) as [txs f].
  split; [by eapply template_header|by eapply template_applies].
Qed.
End Accept.

(** ** There is always a template *)

Section Progress.
Context `{Sha2} `{!Sha2Width} `{StateTree} `{Ed25519} `{Layout}.
Context {capacity : Z} {root_of : gmap bytes bytes -> bytes} `{!StateTreeLaws capacity root_of}.
Variable signature_domain : Hash256.
Variable coinbase_maturity : Z.
Variable miner : Miner.
Variable D : OutPoint -> Prop.
Hypothesis HD : keys_distinct D.
Variable h : Z.

Lemma tx_size_nonneg t : 0 <= tx_size t.
Proof. unfold tx_size. pose proof (len_nonneg (inputs t)). pose proof (len_nonneg (outputs t)). lia. Qed.
Lemma tx_sizes_nonneg txs : 0 <= sum_of tx_size txs.
Proof. apply sum_of_nonneg, Forall_forall. intros t _. apply tx_size_nonneg. Qed.

Lemma apply_on_set t n s :
  tx_in D t -> tx_size t <= n -> refines D n s (utxos s) ->
  exists r s', apply_transaction t h s = Some (r, s') /\ apply_transaction t h (utxos s) = Some (r, utxos s') /\
    refines D (n - tx_size t) s' (utxos s').
Proof.
  intros Hin Hn Hr. destruct (usim_apply D HD t h Hin n s (utxos s) Hn Hr) as (r & s' & u' & E1 & E2 & Hr').
  pose proof (proj1 Hr') as <-. by exists r, s'.
Qed.

Lemma assemble_total txs a n :
  Forall (tx_in D) txs -> sum_of tx_size txs <= n -> refines D n (trial a) (utxos (trial a)) ->
  exists a', assemble signature_domain coinbase_maturity h txs a = Some a'.
Proof.
  intros Hin. revert a n. induction Hin as [|t txs Ht _ IH]; intros a n Hn Hr; cbn [assemble]; [by exists a|].
  rewrite sum_of_cons in Hn. pose proof (tx_sizes_nonneg txs). pose proof (tx_size_nonneg t).
  destruct (validate_transaction _ _ _ _ _) as [v|]; [|by apply (IH (skip t a) n); [lia|]].
  destruct (apply_on_set t n (trial a) Ht ltac:(lia) Hr) as (r & s' & -> & _ & Hr').
  destruct r as [ms|]; [|by apply (IH (skip t a) n); [lia|]]. apply (IH _ (n - tx_size t)); [lia|done].
Qed.

Lemma supply_nonneg u : entries_u64 u -> 0 <= supply u.
Proof. intros Hu. apply sum_of_nonneg, Forall_forall. intros [o e] Hin%elem_of_map_to_list. by apply (Hu o e). Qed.

(** The fees come out of the set. *)
Lemma trial_supply s fees txs fees' s' :
  trial_run signature_domain coinbase_maturity h s fees txs fees' s' ->
  entries_u64 (utxos s) -> Forall (fun t => is_coinbase t = false /\ amounts_ok (outputs t)) txs ->
  0 <= fees -> fees + supply (utxos s) <= U64_MAX ->
  fees' + supply (utxos s') = fees + supply (utxos s) /\ entries_u64 (utxos s').
Proof.
  intros Hrun. induction Hrun as [s fees|s fees t fee sc svc ms s1 txs fees' s' Hv Ha _ IH]; intros Hu Htx Hf Hle; [done|].
  apply Forall_cons in Htx as [[Hcb Hout] Htx]. apply projects_apply in Ha.
  destruct (validated_supply signature_domain coinbase_maturity (utxos s) t h fee sc svc ms (utxos s1) Hu Hout Hcb Hv Ha) as [Hs Hfee].
  assert (entries_u64 (utxos s1)) as Hu1 by (by eapply apply_entries_u64).
  pose proof (supply_nonneg _ Hu1) as Hpos.
  assert (add128 fees fee = fees + fee) as Hadd by (unfold add128, wrap128, U64_MAX in *; apply Z.mod_small; lia).
  rewrite Hadd in IH. destruct IH as [IH1 IH2]; [done|done|lia|lia|]. split; [lia|done].
Qed.

(** The rebuild applies what the trial applied. *)
Lemma rebuild_total cid s fees txs fees' s' r n :
  trial_run signature_domain coinbase_maturity h s fees txs fees' s' -> Forall (fun t => tx_in D t /\ tx_id t <> Ok cid) txs ->
  over (fun o => op_tx_id o = cid) (utxos s) (utxos r) -> sum_of tx_size txs <= n -> refines D n r (utxos r) ->
  exists r', apply_all h txs r = Some (Some r').
Proof.
  intros Hrun. revert r n. induction Hrun as [s fees|s fees t fee sc svc ms s1 txs fees' s' Hv Ha _ IH]; intros r n Htx Hov Hn Hr; cbn [apply_all]; [eauto|].
  apply Forall_cons in Htx as [[Hin Hne] Htx]. rewrite sum_of_cons in Hn. pose proof (tx_sizes_nonneg txs).
  destruct (apply_on_set t n r Hin ltac:(lia) Hr) as (res & r1 & Er & Eu & Hr1). rewrite Er.
  pose proof Ha as Hm%projects_apply. destruct (apply_effect _ _ _ _ _ Hm) as (_ & _ & _ & id & Hid & _).
  destruct (apply_over (fun o => op_tx_id o = cid) t id h (utxos s) (utxos r) ms (utxos s1) Hov Hid) as (ms' & v' & Hv' & Hov');
    [intros i; cbn; congruence|done|]. rewrite Eu in Hv'. injection Hv' as -> <-. apply (IH r1 (n - tx_size t)); [done|done|lia|done].
Qed.

Lemma tx_root_total txs : Forall (fun t => exists b, Transaction_serialize t = Ok b) txs -> exists root, compute_tx_root txs = Ok root.
Proof.
  intros Hb. unfold compute_tx_root. assert (exists ids, wtx_ids txs = Ok ids) as [ids ->]; [|eauto].
  induction Hb as [|t txs (b & Hb) _ (ids & IH)]; cbn [wtx_ids]; [eauto|]. unfold wtx_id. rewrite Hb, IH. eauto.
Qed.

Lemma coinbase_id fees c : build_coinbase miner h fees = Some c -> exists id, tx_id c = Ok id.
Proof.
  intros (b & Hb & _)%coinbase_size. destruct (serialize_signing _ _ Hb) as [sb Hsb]. exists (domain_hash DS_TX sb). by apply signing_tx_id.
Qed.

Lemma selected_in_pool m t :
  pool_ok m -> t ∈ fst (select_transactions m (MAX_BLOCK_SIZE - 400)) -> exists id e, entries m !! id = Some e /\ tx e = t.
Proof.
  intros Hok. destruct (density_ids m Hok) as (es & Hes & Hids & _).
  destruct (select_from_greedy m (MAX_BLOCK_SIZE - 400) es [] 0 0 Hok Hes) as (chosen & Hg & Hs);
    [unfold MAX_BLOCK_SIZE; lia..|unfold U64_MAX; lia|]. unfold select_transactions. rewrite Hids, Hs. cbn [fst app].
  intros (e & -> & He)%list_elem_of_fmap_1. rewrite Forall_forall in Hes. exists (entry_id e), e. split; [|done].
  apply Hes. eapply elem_of_sublist; [exact He|by eapply greedy_sublist].
Qed.

(** The coinbase exists and applies to a set that does not know its identifier. *)
Lemma coinbase_total fees s n :
  0 <= h <= U32_MAX -> 0 <= fees -> block_reward h + fees <= U64_MAX -> 2 <= n -> refines D n s (utxos s) ->
  (forall c cid, build_coinbase miner h fees = Some c -> tx_id c = Ok cid -> tx_in D c /\ forall o e, utxos s !! o = Some e -> op_tx_id o <> cid) ->
  exists c cid ms s1, build_coinbase miner h fees = Some c /\ tx_id c = Ok cid /\ (exists b, Transaction_serialize c = Ok b) /\
    apply_transaction c h s = Some (Ok ms, s1) /\ over (fun o => op_tx_id o = cid) (utxos s) (utxos s1) /\ refines D (n - 2) s1 (utxos s1).
Proof.
  intros Hh Hf Hle Hn Hr Hcoin. pose proof (reward_bounds h ltac:(lia)) as Hb. unfold BASE_REWARD in Hb.
  assert (exists c, build_coinbase miner h fees = Some c) as [c Hc].
  { unfold build_coinbase. destruct (Z.ltb_spec U32_MAX h); [lia|].
    assert (checked_add U64_MAX (block_reward h) fees = Some (block_reward h + fees)) as -> by (apply checked_Some; lia). eauto. }
  destruct (coinbase_id _ _ Hc) as [cid Hcid]. destruct (Hcoin _ _ Hc Hcid) as (HcD & Hfresh).
  destruct (coinbase_shape miner h _ c Hc) as (_ & _ & Hi & Ho & _). destruct (coinbase_size miner h _ c Hc) as (cb & Hcb & _).
  assert (tx_size c = 2) as Hcs by (unfold tx_size; by rewrite Hi, Ho).
  assert (is_coinbase c = true) as Hisc by (unfold is_coinbase; rewrite Hi; by apply bool_decide_true).
  assert (exists ms u1, apply_transaction c h (utxos s) = Some (Ok ms, u1)) as (ms & u1 & Hcu).
  { apply (apply_succeeds c h cid); [done|by rewrite Ho| |by rewrite Hisc|done].
    destruct (serialize_signing _ _ Hcb) as [sb Hsb]. by apply (signing_outputs c sb). }
  destruct (apply_on_set c n s HcD ltac:(lia) Hr) as (r & s1 & Hcs1 & Hcu1 & Hr1). rewrite Hcu in Hcu1. injection Hcu1 as <- ->.
  rewrite Hcs in Hr1. exists c, cid, ms, s1. split_and!; [done|done|eauto|done| |done]. by apply (apply_coinbase_over c cid h (utxos s) ms).
Qed.

(** Mining can always go on.  On a reachable set with room, at a height that
    fits 32 bits and while the total supply fits 64 bits, [build_template]
    returns a block whatever is in the pool: candidates that stopped being valid
    are skipped, no panic occurs, and neither the fees nor the rebuild fail.
    Identifiers are assumed not to collide with that of the new coinbase. *)
Theorem template_progress (m : Mempool) prev target ts s n :
  pool_reachable signature_domain coinbase_maturity m -> reachable (capacity := capacity) D n s ->
  sum_of tx_size (fst (select_transactions m (MAX_BLOCK_SIZE - 400))) + 2 <= n ->
  (forall id e, entries m !! id = Some e -> tx_in D (tx e) /\ amounts_ok (outputs (tx e))) ->
  0 <= h <= U32_MAX -> entries_u64 (utxos s) -> supply (utxos s) + block_reward h <= U64_MAX ->
  (forall fees c cid, build_coinbase miner h fees = Some c -> tx_id c = Ok cid -> tx_in D c /\
     (forall o e, utxos s !! o = Some e -> op_tx_id o <> cid) /\ forall id e, entries m !! id = Some e -> id <> cid) ->
  exists block skipped, build_template signature_domain coinbase_maturity miner h prev target ts m s = Some (Some (block, skipped)).
Proof.
  intros Hm Hreach Hn Hpool Hh Hu Hsup Hcoin. pose proof (reachable_refines D n s HD Hreach) as Hr.
  pose proof (reachable_ok _ _ _ Hm) as Hok. pose proof (selection_candidates m Hok) as Hco.
  pose proof (fun t => selected_in_pool m t Hok) as Hsel.
  unfold build_template. change (saturating_sub MAX_BLOCK_SIZE 400) with (MAX_BLOCK_SIZE - 400).
  destruct (select_transactions _ _) as [txs f]. cbn [fst] in *. unfold build_template_from_txs.
  assert (Forall (tx_in D) txs) as HinD by (apply Forall_forall; intros t (id & e & He & <-)%Hsel; by apply (Hpool id e)).
  destruct (assemble_total txs {| trial := s; applied_txs := []; skipped_ids := []; applied_fees := 0 |} n HinD ltac:(lia) Hr) as (a & Ea).
  rewrite Ea. apply assemble_run in Ea as (txs' & Hap & Hsub & Hrun). cbn [applied_txs applied_fees trial app] in *. rewrite Hap.
  assert (forall t, t ∈ txs' -> t ∈ txs) as Hsub' by (intros t Ht; by eapply elem_of_sublist).
  destruct (trial_supply _ _ _ _ _ Hrun Hu) as [Hfees Hu']; [|lia|pose proof (reward_bounds h ltac:(lia)) as Hb; unfold BASE_REWARD in Hb; lia|].
  { apply Forall_forall. intros t Ht%Hsub'. split.
    - pose proof (co_coinbase _ Hco) as Hc. rewrite Forall_forall in Hc. by apply Hc.
    - destruct (Hsel t Ht) as (id & e & He & <-). by apply (Hpool id e). }
  pose proof (supply_nonneg _ Hu') as Hpos.
  pose proof (trial_fees signature_domain coinbase_maturity s 0 txs' (applied_fees a) (trial a) ltac:(lia) h Hrun) as Hf0.
  pose proof (reward_bounds h ltac:(lia)) as Hb. unfold BASE_REWARD in Hb. rewrite Z.min_l by lia.
  pose proof (sublist_sum tx_size txs txs' tx_size_nonneg Hsub) as Hsz. pose proof (tx_sizes_nonneg txs') as Hsz0.
  destruct (coinbase_total (applied_fees a) s n Hh Hf0 ltac:(lia) ltac:(lia) Hr) as (c & cid & ms & s1 & Hc & Hcid & Hcb & Hcs & Hov & Hr1).
  { intros c cid Hc Hcid. by destruct (Hcoin _ _ _ Hc Hcid) as (? & ? & _). }
  destruct (Hcoin _ _ _ Hc Hcid) as (_ & _ & Hcne). rewrite Hc. cbn [apply_all]. rewrite Hcs.
  destruct (rebuild_total cid s 0 txs' (applied_fees a) (trial a) s1 (n - 2) Hrun) as (final & ->); [|done|lia|done|].
  { apply Forall_forall. intros t Ht%Hsub'. destruct (Hsel t Ht) as (id & e & He & <-). split; [by apply (Hpool id e)|].
    rewrite (eo_tx_id _ _ (po_entry _ Hok _ _ He)). intros [= ->]. by apply (Hcne cid e He). }
  destruct (tx_root_total (c :: txs')) as [root ->]; [|eauto].
  apply Forall_cons. split; [done|]. apply Forall_forall. intros t Ht%Hsub'. pose proof (co_bytes _ Hco) as Hbs. rewrite Forall_forall in Hbs. by apply Hbs.
Qed.
End Progress.

(** ** Grinding finds the first winning nonce *)

Section Grinding.
Context `{Sha2} `{Argon2}.
Variables min_timestamp max_timestamp : Z.

(** [b'] is [b] with another nonce and possibly a refreshed timestamp. *)
Definition remined (b b' : Block) : Prop :=
  exists n t, b' = with_nonce n t b /\ (t = timestamp (header b) \/ min_timestamp <= t <= Z.max min_timestamp max_timestamp).

Lemma with_nonce_twice n t n' t' b : with_nonce n t (with_nonce n' t' b) = with_nonce n t b.
Proof. done. Qed.
Lemma with_nonce_same b : with_nonce (nonce (header b)) (timestamp (header b)) b = b.
Proof. by destruct b as [[] ?]. Qed.

Definition mine_inv (b : Block) (s : mine_state) : Prop :=
  match s with
  | MLoop b' | MWait b' => remined b b'
  | MDone None => True
  | MDone (Some b') => remined b b' /\ verify_pow (header b') = Ok true
  end.

Lemma mine_step_inv b o s : mine_inv b s -> mine_inv b (mine_step min_timestamp max_timestamp o s).
Proof.
  destruct s as [b'|b'|r]; cbn [mine_step mine_inv]; [by destruct (cancel o)| |done].
  intros (n & t & -> & Ht). destruct (pause o); [destruct (cancel o); [done|by exists n, t]|]. unfold grind.
  destruct (compute_pow _) as [pow|] eqn:Ep; [|done]. destruct (cmp_u256 pow _ <? 0) eqn:Ec.
  - split; [by exists n, t|]. unfold verify_pow. by rewrite Ep, Ec.
  - destruct (checked_add _ _ _) as [n'|].
    + exists n', t. by rewrite with_nonce_twice.
    + destruct (Z.ltb_spec max_timestamp (default (timestamp (header (with_nonce n t b))) (clock o))); [done|].
      exists 0, (Z.max (default (timestamp (header (with_nonce n t b))) (clock o)) min_timestamp). split; [done|]. right. lia.
Qed.

(** The proof of work of [b] with a given nonce. *)
Definition wins (b : Block) (n : Z) : Prop := verify_pow (header (with_nonce n (timestamp (header b)) b)) = Ok true.
Definition loses (b : Block) (n : Z) : Prop := verify_pow (header (with_nonce n (timestamp (header b)) b)) = Ok false.

(** Two rounds for each nonce: at the head of the loop, and past the pause loop. *)
Definition grinding (b : Block) (phase : nat) : mine_state :=
  let b' := with_nonce (nonce (header b) + Z.of_nat (phase / 2)) (timestamp (header b)) b in
  if Nat.even phase then MLoop b' else MWait b'.

Lemma grinding_step b k o phase :
  (forall j, 0 <= j < Z.of_nat k -> loses b (nonce (header b) + j)) -> wins b (nonce (header b) + Z.of_nat k) ->
  0 <= nonce (header b) -> nonce (header b) + Z.of_nat k <= U64_MAX -> (phase < 2 * (k + 1))%nat -> cancel o = false ->
  let s := mine_step min_timestamp max_timestamp o (grinding b phase) in
  s = MDone (Some (with_nonce (nonce (header b) + Z.of_nat k) (timestamp (header b)) b)) \/
  exists phase', s = grinding b phase' /\ (phase <= phase' < 2 * (k + 1))%nat /\ (pause o = false -> phase < phase')%nat.
Proof.
  intros Hlose Hwin Hn0 Hmax Hph Hc. cbv zeta. destruct (Nat.even phase) eqn:Ev.
  - right. exists (Datatypes.S phase). unfold grinding. rewrite Ev, Nat.even_succ, <- Nat.negb_even, Ev. cbn [negb mine_step]. rewrite Hc.
    apply Nat.even_spec in Ev as [j ->]. split; [|lia]. do 3 f_equal. replace (Datatypes.S (2 * j)) with (1 + j * 2)%nat by lia.
    rewrite Nat.div_add, (Nat.mul_comm 2 j), Nat.div_mul by lia. done.
  - assert (grinding b phase = MWait (with_nonce (nonce (header b) + Z.of_nat (phase / 2)) (timestamp (header b)) b)) as Eg
      by (unfold grinding; by rewrite Ev).
    rewrite Eg. cbn [mine_step]. destruct (pause o) eqn:Epause; [rewrite Hc; right; exists phase; split; [done|]; split; [lia|done]|].
    clear Eg.
    assert (exists j, phase = 1 + j * 2)%nat as [j ->].
    { rewrite <- Nat.negb_odd in Ev. apply negb_false_iff, Nat.odd_spec in Ev as [j ->]. exists j. lia. }
    rewrite Nat.div_add by lia. change (1 / 2)%nat with 0%nat. rewrite Nat.add_0_l. unfold grind.
    set (b' := with_nonce (nonce (header b) + Z.of_nat j) (timestamp (header b)) b).
    destruct (decide (j = k)) as [->|Hne].
    + unfold wins, verify_pow in Hwin. fold b' in Hwin. destruct (compute_pow (header b')) as [pow|]; [|done].
      assert ((cmp_u256 pow (difficulty_target (header b')) <? 0) = true) as -> by (by injection Hwin). by left.
    + assert (j < k)%nat as Hjk by lia. specialize (Hlose (Z.of_nat j) ltac:(lia)). unfold loses, verify_pow in Hlose. fold b' in Hlose.
      destruct (compute_pow (header b')) as [pow|]; [|done].
      assert ((cmp_u256 pow (difficulty_target (header b')) <? 0) = false) as -> by (by injection Hlose). subst b'. cbn [header nonce with_nonce timestamp].
      assert (checked_add U64_MAX (nonce (header b) + Z.of_nat j) 1 = Some (nonce (header b) + Z.of_nat j + 1)) as -> by (apply checked_Some; lia).
      right. exists (2 * Datatypes.S j)%nat. unfold grinding. rewrite Nat.mul_comm, Nat.div_mul by lia.
      replace (Nat.even (Datatypes.S j * 2)) with true by (symmetry; apply Nat.even_spec; exists (Datatypes.S j); lia).
      split; [|lia]. f_equal. rewrite with_nonce_twice. f_equal. lia.
Qed.

Lemma grinding_done b k os phase :
  (forall j, 0 <= j < Z.of_nat k -> loses b (nonce (header b) + j)) -> wins b (nonce (header b) + Z.of_nat k) ->
  0 <= nonce (header b) -> nonce (header b) + Z.of_nat k <= U64_MAX -> (phase < 2 * (k + 1))%nat -> Forall (fun o => cancel o = false) os ->
  (2 * (k + 1) - phase <= length (filter (fun o => pause o = false) os))%nat ->
  fold_left (fun s o => mine_step min_timestamp max_timestamp o s) os (grinding b phase) =
    MDone (Some (with_nonce (nonce (header b) + Z.of_nat k) (timestamp (header b)) b)).
Proof.
  intros Hlose Hwin Hn0 Hmax Hph Hc. revert phase Hph. induction Hc as [|o os Hco Hc IH]; intros phase Hph Hcount; [cbn in Hcount; lia|].
  cbn [fold_left]. destruct (grinding_step b k o phase Hlose Hwin Hn0 Hmax Hph Hco) as [->|(phase' & -> & Hp & Hadv)].
  - clear. induction os as [|o' os IH]; [done|]. cbn [fold_left mine_step]. done.
  - rewrite filter_cons in Hcount. apply IH; [lia|]. destruct (decide (pause o = false)) as [Hno|Hyes]; cbn [length] in Hcount; [specialize (Hadv Hno)|]; lia.
Qed.

(** Grinding is sound and finds the first winning nonce.  Whatever the other
    threads and the clock do, a block that [mine] returns is the template with
    another nonce (and, after a full nonce space, a timestamp in the window) and
    has a valid proof of work.  And if one of the nonces from the template's on
    wins, then after two unpaused rounds for each nonce up to the first that
    does, without a cancellation, [mine] has returned the block with it. *)
Theorem mine_finds_first_winner (b : Block) (os : list Observation) :
  (forall b', mine min_timestamp max_timestamp os b = MDone (Some b') -> remined b b' /\ verify_pow (header b') = Ok true) /\
  (forall k, (forall j, 0 <= j < Z.of_nat k -> loses b (nonce (header b) + j)) -> wins b (nonce (header b) + Z.of_nat k) ->
     0 <= nonce (header b) -> nonce (header b) + Z.of_nat k <= U64_MAX -> Forall (fun o => cancel o = false) os ->
     (2 * (k + 1) <= length (filter (fun o => pause o = false) os))%nat ->
     mine min_timestamp max_timestamp os b = MDone (Some (with_nonce (nonce (header b) + Z.of_nat k) (timestamp (header b)) b))).
Proof.
  split.
  - assert (mine_inv b (mine min_timestamp max_timestamp os b)) as Hinv; [|intros b' E; by rewrite E in Hinv].
    unfold mine. assert (mine_inv b (MLoop b)) as Hb.
    { exists (nonce (header b)), (timestamp (header b)). split; [by rewrite with_nonce_same|by left]. }
    revert Hb. generalize (MLoop b). induction os as [|o os IH]; intros s Hs; [done|]. cbn [fold_left]. by apply IH, mine_step_inv.
  - intros k Hlose Hwin Hn0 Hmax Hc Hcount. unfold mine. rewrite <- (grinding_done b k os 0 Hlose Hwin Hn0 Hmax) by (done || lia).
    f_equal. unfold grinding. cbn [Nat.even Nat.div]. rewrite Z.add_0_r, with_nonce_same. done.
Qed.
End Grinding.

(** ** Witnesses: mining the payment *)

Section Witnesses.
#[local] Instance miner_sha : Sha2 := toy_digest.
#[local] Instance miner_argon2 : Argon2 := toy_argon2.
#[local] Existing Instance toy_ed25519.
#[local] Existing Instance toy_layout.
#[local] Existing Instance sample_tree.

Definition sample_miner : Miner := {| pubkey := sample_key |}.
Definition payment_outpoint : OutPoint := {| op_tx_id := replicate 32 x02; op_index := 0 |}.
(** A set with the output the payment spends. *)
Definition payment_set : UtxoSet := match UtxoSet_insert payment_outpoint payment_entry UtxoSet_new with Some (_, s) => s | None => UtxoSet_new end.
Definition parent_header : BlockHeader := {|
  version := 1; height := 399; prev_block_id := zero32; timestamp := 1700000000; difficulty_target := genesis_target;
  nonce := 0; tx_root := zero32; Block.state_root := zero32 |}.
Definition payment_template :=
  build_template sample_domain 360 sample_miner 400 (block_id parent_header) genesis_target 1700000010 payment_pool payment_set.
Example payment_template_built :
  (if payment_template is Some (Some ({| transactions := [_; t] |}, [])) then bool_decide (t = payment) else false) = true.
Proof. vm_compute. reflexivity. Qed.

Definition template_block : Block :=
  match payment_template with Some (Some (b, _)) => b | _ => {| header := parent_header; transactions := [] |} end.
Lemma payment_template_eq : payment_template = Some (Some (template_block, [])).
Proof.
  pose proof payment_template_built as Hb. unfold template_block.
  destruct payment_template as [[[[hd [|c [|t [|]]]] [|]]|]|]; try discriminate Hb. reflexivity.
Qed.
Lemma template_ids : (if transactions template_block is [c; t] then negb (bool_decide (sample_id t = sample_id c)) else false) = true.
Proof. vm_compute. reflexivity. Qed.
Lemma template_fits : (undo_metadata 400 (transactions template_block) payment_set <=? MAX_SPENT_UTXOS_SIZE) = true.
Proof. vm_compute. reflexivity. Qed.

Lemma template_accepted_witness :
  validate_block_header_skip_pow template_block (Some parent_header) [1700000000; 1699999990] genesis_target (Some 1700000010) = Ok tt /\
  exists fees ms s', validate_and_apply_block_transactions_atomic sample_domain 360 template_block payment_set = Some (Ok (fees, ms), s').
Proof.
  destruct (@template_accepted miner_sha toy_digest_width sample_tree toy_ed25519 toy_layout miner_argon2 sample_domain 360 sample_miner)
    with (m := payment_pool) (h := 400) (prev := block_id parent_header) (target := genesis_target) (ts := 1700000010) (s := payment_set)
         (block := template_block) (skipped := @nil Hash256) (parent := Some parent_header) (ats := [1700000000; 1699999990])
         (clock := Some 1700000010) as [Hh (fees & ms & s' & Ha & _)].
  - vm_compute. reflexivity.
  - exact payment_pool_reachable.
  - exact payment_template_eq.
  - vm_compute. repeat split; discriminate.
  - discriminate.
  - split; reflexivity.
  - vm_compute. reflexivity.
  - pose proof template_ids as Hids. intros c rest t Htx Hin. rewrite Htx in Hids. destruct rest as [|t' [|]]; try discriminate Hids.
    apply list_elem_of_singleton in Hin as ->. apply negb_true_iff, bool_decide_eq_false in Hids. intros He. apply Hids.
    unfold sample_id. change (@tx_id toy_digest) with (@tx_id miner_sha). rewrite He. reflexivity.
  - pose proof template_fits as Hf. by apply Z.leb_le in Hf.
  - split; [exact Hh|]. exists fees, ms, s'. exact Ha.
Defined.

(** The identifier of every coinbase under this digest. *)
Definition toy_coinbase_id : Hash256 := sample_id (first_coinbase 0).
Lemma toy_coinbase fees c cid :
  build_coinbase sample_miner 0 fees = Some c -> tx_id c = Ok cid -> cid = toy_coinbase_id /\ length (outputs c) = 1%nat.
Proof.
  intros (_ & _ & Hi & Ho & _)%coinbase_shape. rewrite Ho. split; [|done]. revert H.
  unfold tx_id, signing_bytes, serialize_header, serialize_body. rewrite Hi, Ho.
  change (len [{| prev_tx_id := Hash256_ZERO; output_index := 0 |}]) with 1. change (len [new_p2pkh (block_reward 0 + fees) (pubkey sample_miner)]) with 1.
  change (U16_MAX <? 1) with false. cbn [serialize_all]. destruct (TxOutput_serialize _) as [b|]; [|done]. intros [= <-].
  unfold domain_hash, domain_preimage. change (sha2_digest) with toy_digest.
  match goal with |- toy_digest ?x = _ => change x with (take 32 x ++ drop 32 x) end.
  rewrite toy_digest_app; reflexivity.
Qed.

Lemma template_progress_witness :
  exists block skipped, build_template sample_domain 360 sample_miner 0 zero32 genesis_target 1700000000 Mempool_new UtxoSet_new
    = Some (Some (block, skipped)).
Proof.
  apply (@template_progress miner_sha toy_digest_width sample_tree toy_ed25519 toy_layout 1000 list_root sample_laws sample_domain 360 sample_miner
    first_D first_keys_distinct 0 Mempool_new zero32 genesis_target 1700000000 UtxoSet_new 10).
  - apply reach_new.
  - apply first_reachable. split; discriminate.
  - vm_compute. discriminate.
  - intros id e He. change (entries Mempool_new) with (∅ : gmap Hash256 MempoolEntry) in He. apply lookup_empty_Some in He. destruct He.
  - vm_compute. split; discriminate.
  - intros o x Hx. change (utxos UtxoSet_new) with (∅ : utxo_map) in Hx. apply lookup_empty_Some in Hx. destruct Hx.
  - vm_compute. discriminate.
  - intros fees c cid Hc Hid. destruct (toy_coinbase fees c cid Hc Hid) as [-> Hlen]. split_and!.
    + intros id i Hid' Hi. rewrite Hid in Hid'. injection Hid' as <-. rewrite Hlen in Hi. replace i with 0%nat by lia. reflexivity.
    + intros o x Hx. change (utxos UtxoSet_new) with (∅ : utxo_map) in Hx. apply lookup_empty_Some in Hx. destruct Hx.
    + intros id e He. change (entries Mempool_new) with (∅ : gmap Hash256 MempoolEntry) in He. apply lookup_empty_Some in He. destruct He.
Defined.

Definition easy_block : Block := with_nonce 0 1700000000 {|
  header := {| version := 1; height := 0; prev_block_id := zero32; timestamp := 0; difficulty_target := replicate 32 xff;
    nonce := 0; tx_root := zero32; Block.state_root := zero32 |};
  transactions := [] |}.
Definition undisturbed : Observation := {| cancel := false; pause := false; clock := None |}.
Definition paused : Observation := {| cancel := false; pause := true; clock := None |}.

Lemma mine_finds_first_winner_witness :
  mine 0 1800000000 [undisturbed; paused; undisturbed] easy_block = MDone (Some easy_block).
Proof.
  destruct (@mine_finds_first_winner miner_sha miner_argon2 0 1800000000 easy_block [undisturbed; paused; undisturbed]) as [_ W].
  apply (W 0%nat).
  - intros j Hj. exfalso. lia.
  - vm_compute. reflexivity.
  - discriminate.
  - vm_compute. discriminate.
  - repeat constructor.
  - vm_compute. repeat constructor.
Defined.
End Witnesses.
