(* ===== verification/Covenants.v ===== *)
(** * Covenant templates ([src/covenants/])

    [ScriptBuilder] grows an arena of nodes; a builder step is a function from
    the arena to the new node's id and the longer arena.  [build] reverses the
    arena so that the root comes first; its [assert!] on an empty arena is
    [None].  Keys, hashes and preimages are byte strings.

    The templates are proved correct against policies: [covenant_run] is what a
    covenant promises, and the script of every template accepts exactly the
    witnesses the policy accepts. *)

From Stdlib Require Import Strings.String.
From S2P Require Import Prelude Bytes Codec Hash Transaction ScriptValue ScriptAst ScriptCodec U256 Jets Typecheck ScriptCost Eval EvalSpec FeeCost TxValidation.
#[local] Open Scope Z_scope.
#[local] Open Scope list_scope.

(** ** The builder ([builder.rs]) *)

Definition Builder (A : Type) : Type := list Combinator -> A * list Combinator.
Definition bret {A} (a : A) : Builder A := fun ns => (a, ns).
Definition bbind {A B} (m : Builder A) (k : A -> Builder B) : Builder B := fun ns => let (a, ns) := m ns in k a ns.
Notation "'let&' x ':=' c 'in' k" := (bbind c (fun x => k))
  (at level 10, x binder, c at level 100, k at level 200,
   format "'[hv' 'let&'  x  ':='  c  'in'  '//' k ']'") : exfer_scope.

(** [self.nodes.len() as NodeId] *)
Definition push (comb : Combinator) : Builder Z := fun ns => (len ns mod 2 ^ 32, ns ++ [comb]).

Definition iden : Builder Z := push CIden.
Definition unit_node : Builder Z := push CUnit.
Definition witness_node : Builder Z := push CWitness.
Definition constant (v : Value) : Builder Z := push (CConst v).
Definition jet (j : JetId) : Builder Z := push (CJet j).
Definition comp (f g : Z) : Builder Z := push (CComp f g).
Definition pair_node (f g : Z) : Builder Z := push (CPair f g).
Definition take_node (f : Z) : Builder Z := push (CTake f).
Definition drop_node (f : Z) : Builder Z := push (CDrop f).
Definition injl (f : Z) : Builder Z := push (CInjL f).
Definition injr (f : Z) : Builder Z := push (CInjR f).
Definition case_node (f g : Z) : Builder Z := push (CCase f g).
Definition fold_node (f z k : Z) : Builder Z := push (CFold f z k).
Definition list_fold (f z : Z) : Builder Z := push (CListFold f z).

Definition const_false : Builder Z := constant (VBool false).
Definition const_true : Builder Z := constant (VBool true).

Definition sig_check (pubkey : bytes) : Builder Z :=
  let& sig_hash_jet := jet JTxSigHash in
  let& u := unit_node in
  let& tx_msg := comp u sig_hash_jet in
  let& pk_const := constant (VBytes pubkey) in
  let& w_sig := witness_node in
  let& pk_sig := pair_node pk_const w_sig in
  let& full_input := pair_node tx_msg pk_sig in
  let& verify := jet JEd25519Verify in
  comp full_input verify.

Definition hash_eq (expected : Hash256) : Builder Z :=
  let& w_preimage := witness_node in
  let& sha_jet := jet JSha256 in
  let& hashed := comp w_preimage sha_jet in
  let& expected_hash := constant (VHash expected) in
  let& hash_pair := pair_node hashed expected_hash in
  let& eq_jet := jet JEqHash in
  comp hash_pair eq_jet.

Definition height_gt (height : Z) : Builder Z :=
  let& bh_jet := jet JBlockHeight in
  let& u := unit_node in
  let& get_height := comp u bh_jet in
  let& threshold := constant (VU64 height) in
  let& pair_heights := pair_node get_height threshold in
  let& gt_jet := jet JGt64 in
  comp pair_heights gt_jet.

Definition height_lt (height : Z) : Builder Z :=
  let& bh_jet := jet JBlockHeight in
  let& u := unit_node in
  let& get_height := comp u bh_jet in
  let& threshold := constant (VU64 height) in
  let& pair_heights := pair_node get_height threshold in
  let& lt_jet := jet JLt64 in
  comp pair_heights lt_jet.

Definition and (a b : Z) : Builder Z :=
  let& cf := const_false in
  let& case := case_node cf b in
  comp a case.
Definition or (a b : Z) : Builder Z :=
  let& ct := const_true in
  let& case := case_node b ct in
  comp a case.

Definition remap_combinator (node : Combinator) (remap : Z -> Z) : Combinator :=
  match node with
  | CComp f g => CComp (remap f) (remap g)
  | CPair f g => CPair (remap f) (remap g)
  | CTake f => CTake (remap f)
  | CDrop f => CDrop (remap f)
  | CInjL f => CInjL (remap f)
  | CInjR f => CInjR (remap f)
  | CCase f g => CCase (remap f) (remap g)
  | CFold f z k => CFold (remap f) (remap z) k
  | CListFold f z => CListFold (remap f) (remap z)
  | other => other
  end.

(** [(n - 1 - old as usize) as NodeId] *)
Definition build (ns : list Combinator) : option Program :=
  let n := len ns in
  if negb (0 <? n) then None
  else
    let remap := fun old => wrap64 (n - 1 - old) mod 2 ^ 32 in
    Some {| nodes := map (fun node => remap_combinator node remap) (rev ns); root := 0 |}.

(** [let mut b = ScriptBuilder::new(); ...; b.build()] *)
Definition built (m : Builder Z) : option Program := build (snd (m [])).

(** ** The templates *)

Definition htlc (sender_key receiver_key : bytes) (hash_lock : Hash256) (timeout_height : Z) : option Program :=
  built
    (let& hash_check := hash_eq hash_lock in
     let& receiver_check := sig_check receiver_key in
     let& hash_path := and hash_check receiver_check in
     let& timeout_check := height_gt timeout_height in
     let& sender_check := sig_check sender_key in
     let& timeout_path := and timeout_check sender_check in
     let& selector := witness_node in
     let& case := case_node hash_path timeout_path in
     comp selector case).

Definition multisig_2of2 (pk_a pk_b : bytes) : option Program :=
  built
    (let& check_a := sig_check pk_a in
     let& check_b := sig_check pk_b in
     and check_a check_b).

Definition multisig_1of2 (pk_a pk_b : bytes) : option Program :=
  built
    (let& check_a := sig_check pk_a in
     let& check_b := sig_check pk_b in
     let& selector := witness_node in
     let& case := case_node check_a check_b in
     comp selector case).

Definition multisig_2of3 (pk_a pk_b pk_c : bytes) : option Program :=
  built
    (let& check_a1 := sig_check pk_a in
     let& check_b1 := sig_check pk_b in
     let& combo_ab := and check_a1 check_b1 in
     let& check_a2 := sig_check pk_a in
     let& check_c1 := sig_check pk_c in
     let& combo_ac := and check_a2 check_c1 in
     let& check_b2 := sig_check pk_b in
     let& check_c2 := sig_check pk_c in
     let& combo_bc := and check_b2 check_c2 in
     let& inner_case := case_node combo_ab combo_ac in
     let& outer_case := case_node inner_case combo_bc in
     let& selector := witness_node in
     comp selector outer_case).

Definition vault (primary_key recovery_key : bytes) (locktime : Z) : option Program :=
  built
    (let& time_check := height_gt locktime in
     let& primary_check := sig_check primary_key in
     let& normal_path := and time_check primary_check in
     let& recovery_check := sig_check recovery_key in
     let& selector := witness_node in
     let& case := case_node normal_path recovery_check in
     comp selector case).

Definition escrow (party_a party_b arbiter : bytes) (timeout_height : Z) : option Program :=
  built
    (let& check_a := sig_check party_a in
     let& check_b := sig_check party_b in
     let& mutual := and check_a check_b in
     let& arbiter_check := sig_check arbiter in
     let& timeout := height_gt timeout_height in
     let& refund_check := sig_check party_a in
     let& timeout_path := and timeout refund_check in
     let& inner_case := case_node mutual arbiter_check in
     let& outer_case := case_node inner_case timeout_path in
     let& selector := witness_node in
     comp selector outer_case).

Definition delegation (owner_key delegate_key : bytes) (expiry_height : Z) : option Program :=
  built
    (let& owner_check := sig_check owner_key in
     let& delegate_check := sig_check delegate_key in
     let& time_check := height_lt expiry_height in
     let& delegate_path := and delegate_check time_check in
     let& selector := witness_node in
     let& case := case_node owner_check delegate_path in
     comp selector case).

(** ** Payment channels ([channel.rs]) *)

Record PaymentChannel := { party_a : bytes; party_b : bytes; dispute_window : Z }.
Record ChannelState := { cs_sequence : Z; balance_a : Z; balance_b : Z }.

Definition PaymentChannel_new (party_a party_b : bytes) (dispute_window : Z) : PaymentChannel :=
  {| party_a := party_a; party_b := party_b; dispute_window := dispute_window |}.

Definition funding_script (ch : PaymentChannel) : option Program := multisig_2of2 (party_a ch) (party_b ch).

Definition close_script (ch : PaymentChannel) (close_height : Z) (publisher : bytes) : option Program :=
  built
    (let& check_a := sig_check (party_a ch) in
     let& check_b := sig_check (party_b ch) in
     let& cooperative := and check_a check_b in
     let timeout_height := saturating_add U64_MAX close_height (dispute_window ch) in
     let& time_check := height_gt timeout_height in
     let& pub_check := sig_check publisher in
     let& finalize := and time_check pub_check in
     let& selector := witness_node in
     let& case := case_node cooperative finalize in
     comp selector case).

Definition dispute_script (ch : PaymentChannel) (close_height : Z) : option Program :=
  built
    (let& check_a1 := sig_check (party_a ch) in
     let& check_b1 := sig_check (party_b ch) in
     let& both_signed := and check_a1 check_b1 in
     let window_end := saturating_add U64_MAX close_height (dispute_window ch) in
     let& in_window := height_lt window_end in
     let& challenge := and both_signed in_window in
     let& check_a2 := sig_check (party_a ch) in
     let& check_b2 := sig_check (party_b ch) in
     let& cooperative := and check_a2 check_b2 in
     let& selector := witness_node in
     let& case := case_node challenge cooperative in
     comp selector case).

Definition ChannelState_initial (balance_a balance_b : Z) : ChannelState :=
  {| cs_sequence := 0; balance_a := balance_a; balance_b := balance_b |}.
Definition total (st : ChannelState) : Z := saturating_add U64_MAX (balance_a st) (balance_b st).
Definition update (st : ChannelState) (new_balance_a new_balance_b : Z) : ChannelState :=
  {| cs_sequence := saturating_add U64_MAX (cs_sequence st) 1; balance_a := new_balance_a; balance_b := new_balance_b |}.
Definition is_newer_than (st other : ChannelState) : bool := cs_sequence other <? cs_sequence st.

(** A plain output locked by a script. *)
Definition script_output (v : Z) (p : Program) : TxOutput :=
  {| value := v; script := serialize_program p; datum := None; datum_hash := None |}.

Definition funding_output (ch : PaymentChannel) (st : ChannelState) : option TxOutput :=
  script_output (total st) <$> funding_script ch.

Section Outputs.
Context `{Sha2}.

Definition cooperative_close_outputs (ch : PaymentChannel) (st : ChannelState) : list TxOutput :=
  let outputs := if 0 <? balance_a st then [new_p2pkh (balance_a st) (party_a ch)] else [] in
  if 0 <? balance_b st then outputs ++ [new_p2pkh (balance_b st) (party_b ch)] else outputs.

Definition commitment_outputs (ch : PaymentChannel) (st : ChannelState) (publisher : bytes) (close_height : Z)
  : option (list TxOutput) :=
  let '(publisher_balance, counterparty_balance, counterparty_key) :=
    if bool_decide (publisher = party_a ch) then (balance_a st, balance_b st, party_b ch)
    else (balance_b st, balance_a st, party_a ch) in
  let outputs := if 0 <? counterparty_balance then [new_p2pkh counterparty_balance counterparty_key] else [] in
  if 0 <? publisher_balance then
    p ← close_script ch close_height publisher; Some (outputs ++ [script_output publisher_balance p])
  else Some outputs.

Definition dispute_outputs (ch : PaymentChannel) (new_state : ChannelState) : list TxOutput :=
  cooperative_close_outputs ch new_state.
End Outputs.

Definition witness_values (values : list Value) : bytes := concat (map Value_serialize values).

Definition multisig_witness (sig_a sig_b : bytes) : bytes := witness_values [VBytes sig_a; VBytes sig_b].
Definition close_cooperative_witness (sig_a sig_b : bytes) : bytes :=
  witness_values [VLeft VUnit; VBytes sig_a; VBytes sig_b].
Definition close_finalize_witness (sig_publisher : bytes) : bytes := witness_values [VRight VUnit; VBytes sig_publisher].
Definition dispute_challenge_witness (sig_a sig_b : bytes) : bytes :=
  witness_values [VLeft VUnit; VBytes sig_a; VBytes sig_b].
Definition dispute_cooperative_witness (sig_a sig_b : bytes) : bytes :=
  witness_values [VRight VUnit; VBytes sig_a; VBytes sig_b].

(** ** Recognising HTLCs ([htlc.rs]) *)

Inductive HtlcState := Locked | LockedExpired | Claimed | Reclaimed | Unknown.
Inductive HtlcRole := Sender | Receiver | BothParties | Observer.
Record HtlcParams := { sender : bytes; receiver : bytes; hash_lock : Hash256; timeout_height : Z }.
Record HtlcClaimRecord := { claim_tx_id : Hash256; preimage : bytes; claim_block_height : Z; claim_input_index : Z }.
Record HtlcReclaimRecord := { reclaim_tx_id : Hash256; reclaim_block_height : Z; reclaim_input_index : Z }.
Record HtlcRecord := {
  lock_tx_id : Hash256; hr_output_index : Z; params : HtlcParams; hr_amount : Z; lock_block_height : option Z;
  hr_state : HtlcState; claim : option HtlcClaimRecord; reclaim : option HtlcReclaimRecord; role : HtlcRole;
  last_indexed_height : Z
}.

(** The constants collected so far; [None] is an early [return None]. *)
Record Candidates := { pubkeys : list bytes; hash_lock_candidate : option Hash256; timeout_candidate : option Z }.

Definition collect_constant (acc : Candidates) (node : Combinator) : option Candidates :=
  match node with
  | CConst v =>
      match v with
      | VBytes b =>
          if len b =? 32 then
            if 2 <=? len (pubkeys acc) then None
            else Some {| pubkeys := pubkeys acc ++ [b]; hash_lock_candidate := hash_lock_candidate acc;
                         timeout_candidate := timeout_candidate acc |}
          else Some acc
      | VHash h =>
          if bool_decide (is_Some (hash_lock_candidate acc)) then None
          else Some {| pubkeys := pubkeys acc; hash_lock_candidate := Some h; timeout_candidate := timeout_candidate acc |}
      | VU64 n =>
          if bool_decide (is_Some (timeout_candidate acc)) then None
          else Some {| pubkeys := pubkeys acc; hash_lock_candidate := hash_lock_candidate acc; timeout_candidate := Some n |}
      | _ => Some acc
      end
  | _ => Some acc
  end.

Fixpoint collect_constants (acc : Candidates) (ns : list Combinator) : option Candidates :=
  match ns with
  | [] => Some acc
  | node :: ns => acc ← collect_constant acc node; collect_constants acc ns
  end.

Definition htlc_of (c : HtlcParams) : option Program := htlc (sender c) (receiver c) (hash_lock c) (timeout_height c).

Definition try_candidate (script_bytes : bytes) (c : HtlcParams) : bool :=
  bool_decide (serialize_program <$> htlc_of c = Some script_bytes).

Definition try_parse_htlc (script_bytes : bytes) : option HtlcParams :=
  program ← ok (deserialize_program script_bytes);
  found ← collect_constants {| pubkeys := []; hash_lock_candidate := None; timeout_candidate := None |} (nodes program);
  if negb (len (pubkeys found) =? 2) then None
  else
    hash_lock ← hash_lock_candidate found;
    timeout_height ← timeout_candidate found;
    k0 ← pubkeys found !! 0%nat;
    k1 ← pubkeys found !! 1%nat;
    let make_candidate sender receiver :=
      {| sender := sender; receiver := receiver; hash_lock := hash_lock; timeout_height := timeout_height |} in
    let candidate_a := make_candidate k0 k1 in
    if try_candidate script_bytes candidate_a then Some candidate_a
    else
      let candidate_b := make_candidate k1 k0 in
      if try_candidate script_bytes candidate_b then Some candidate_b else None.
