(* ===== verification/CovenantSpec.v ===== *)
(** * What the covenants promise

    A policy says who may spend and when; [policy_run] is its meaning on the
    items of a witness.  A menu lets the spender select a policy.  A script
    of [src/covenants/] implements a covenant when spending an output locked by it
    succeeds exactly when the covenant accepts the items of the witness.  The
    covenants of the templates are those of EXFER.md, section 22, as far as it
    describes them; comments of htlc.rs, multisig.rs, vault.rs, escrow.rs and
    delegation.rs differ from it and from the code. *)

From Stdlib Require Import Strings.String.
From S2P Require Import Prelude Bytes Codec Hash Transaction ScriptValue ScriptAst ScriptCodec U256 Jets Typecheck ScriptCost Eval EvalSpec FeeCost TxValidation Covenants.
#[local] Open Scope Z_scope.
#[local] Open Scope list_scope.

(** ** Policies *)

Inductive policy :=
| Signed (pk : bytes)
| Preimage (h : Hash256)
| After (height : Z)
| Before (height : Z)
| Both (a b : policy).

(** A tree of alternatives, selected by nested [Left]/[Right] values. *)
Inductive menu := Just (p : policy) | Choice (l r : menu).
Inductive covenant := Direct (p : policy) | Select (m : menu).

Fixpoint menu_type (m : menu) : SType :=
  match m with Just _ => TUnit | Choice l r => TSum (menu_type l) (menu_type r) end.

Section Meaning.
Context `{Sha2} `{Ed25519}.

(** The verdict of a policy and the items it leaves; [None]: an item is missing
    or of the wrong kind.  The second half of [Both] is looked at only if the
    first holds. *)
Fixpoint policy_run (c : ScriptContext) (p : policy) (items : list Value) : option (bool * list Value) :=
  match p with
  | Signed pk =>
      match items with
      | VBytes sig :: rest => Some (ed25519_verify_zip215 (sig_hash c) pk sig, rest)
      | _ => None
      end
  | Preimage h =>
      match items with
      | VBytes x :: rest => Some (bool_decide (Hash256_sha256 x = h), rest)
      | _ => None
      end
  | After t => Some (t <? block_height c, items)
  | Before t => Some (block_height c <? t, items)
  | Both a b =>
      match policy_run c a items with
      | Some (true, rest) => policy_run c b rest
      | o => o
      end
  end.

(** [Bool] is accepted for [Left(Unit)]/[Right(Unit)] where the type is [Bool]. *)
Fixpoint pick (m : menu) (selector : Value) : option policy :=
  match m with
  | Just p => match selector with VUnit => Some p | _ => None end
  | Choice l r =>
      match selector with
      | VLeft v => pick l v
      | VRight v => pick r v
      | VBool b => match l, r with Just l, Just r => Some (if b then r else l) | _, _ => None end
      | _ => None
      end
  end.

Definition covenant_run (c : ScriptContext) (cov : covenant) (items : list Value) : option (bool * list Value) :=
  match cov with
  | Direct p => policy_run c p items
  | Select m =>
      match items with
      | selector :: rest => p ← pick m selector; policy_run c p rest
      | [] => None
      end
  end.

(** The spend is authorised by exactly these items. *)
Definition covenant_accepts (c : ScriptContext) (cov : covenant) (items : list Value) : Prop :=
  covenant_run c cov items = Some (true, []).
End Meaning.

(** ** Scripts that encode a policy *)

Section Encoding.
Context (p : Program) (ts : list TypedNode).
Abbreviation at_node id node := (Program_get p id = Some node).

Inductive at_policy : Z -> policy -> Prop :=
| at_signed id full verify msg pks u sh k w pk :
    at_node id (CComp full verify) -> at_node verify (CJet JEd25519Verify) -> at_node full (CPair msg pks) ->
    at_node msg (CComp u sh) -> at_node u CUnit -> at_node sh (CJet JTxSigHash) ->
    at_node pks (CPair k w) -> at_node k (CConst (VBytes pk)) -> at_node w CWitness -> witness_type ts w = bytes_type ->
    at_policy id (Signed pk)
| at_preimage id both eq hashed w sha k h :
    at_node id (CComp both eq) -> at_node eq (CJet JEqHash) -> at_node both (CPair hashed k) ->
    at_node hashed (CComp w sha) -> at_node w CWitness -> witness_type ts w = bytes_type -> at_node sha (CJet JSha256) ->
    at_node k (CConst (VHash h)) ->
    at_policy id (Preimage h)
| at_after id both gt height u bh k t :
    at_node id (CComp both gt) -> at_node gt (CJet JGt64) -> at_node both (CPair height k) ->
    at_node height (CComp u bh) -> at_node u CUnit -> at_node bh (CJet JBlockHeight) -> at_node k (CConst (VU64 t)) ->
    at_policy id (After t)
| at_before id both lt height u bh k t :
    at_node id (CComp both lt) -> at_node lt (CJet JLt64) -> at_node both (CPair height k) ->
    at_node height (CComp u bh) -> at_node u CUnit -> at_node bh (CJet JBlockHeight) -> at_node k (CConst (VU64 t)) ->
    at_policy id (Before t)
| at_both id a case cf b pa pb :
    at_node id (CComp a case) -> at_node case (CCase cf b) -> at_node cf (CConst (VBool false)) -> on_bool ts case ->
    at_policy a pa -> at_policy b pb -> at_policy id (Both pa pb).

Definition takes_input (id : Z) (t : SType) : Prop := exists tn, typed_at ts id = Some tn /\ input_type tn = t.

Inductive at_menu : Z -> menu -> Prop :=
| at_just id pol : takes_input id TUnit -> at_policy id pol -> at_menu id (Just pol)
| at_choice id f g l r :
    at_node id (CCase f g) -> takes_input id (menu_type (Choice l r)) -> at_menu f l -> at_menu g r ->
    at_menu id (Choice l r).

Inductive at_covenant : covenant -> Prop :=
| at_direct pol : at_policy (root p) pol -> at_covenant (Direct pol)
| at_select s k l r :
    at_node (root p) (CComp s k) -> at_node s CWitness -> witness_type ts s = menu_type (Choice l r) ->
    at_menu k (Choice l r) -> at_covenant (Select (Choice l r)).
End Encoding.

Lemma at_menu_input p ts id m : at_menu p ts id m -> takes_input ts id (menu_type m).
Proof. by destruct 1. Qed.
Lemma payload_matches ts id t v : takes_input ts id t -> payload_fits ts id v <-> matches_type v t = true.
Proof.
  intros (tn & Ht & <-). unfold payload_fits. rewrite Ht. split; [by intros Hp; apply Hp|]. by intros Hm tn' [= <-].
Qed.

(** ** Reading a witness *)

Section Reading.
Context (data : bytes).

(** The bytes from [w] to [w'] are these items. *)
Definition consumed (w : Z) (items : list Value) (w' : Z) : Prop :=
  0 <= w /\ Forall Value_wf items /\ slice_from data w = witness_values items ++ slice_from data w' /\
  w' = w + len (witness_values items).

Lemma consumed_nil w : 0 <= w -> consumed w [] w.
Proof. intros Hw. split_and!; [done|constructor|done|change (len (witness_values [])) with 0; lia]. Qed.
Lemma witness_values_app xs ys : witness_values (xs ++ ys) = witness_values xs ++ witness_values ys.
Proof. unfold witness_values. by rewrite map_app, concat_app. Qed.
Lemma consumed_app w xs w1 ys w2 : consumed w xs w1 -> consumed w1 ys w2 -> consumed w (xs ++ ys) w2.
Proof.
  intros (Hw & Hx & Ex & ->) (_ & Hy & Ey & ->). split_and!; [done|by apply Forall_app| |].
  - by rewrite Ex, Ey, witness_values_app, app_assoc.
  - rewrite witness_values_app. len_lia.
Qed.

Lemma consumed_split w xs ys w2 : consumed w (xs ++ ys) w2 -> exists w1, consumed w xs w1 /\ consumed w1 ys w2.
Proof.
  intros (Hw & [Hx Hy]%Forall_app & Es & ->). exists (w + len (witness_values xs)). rewrite witness_values_app in *.
  pose proof (len_nonneg (witness_values xs)). pose proof (len_nonneg (witness_values ys)).
  assert (slice_from data (w + len (witness_values xs)) =
          witness_values ys ++ slice_from data (w + len (witness_values xs ++ witness_values ys))) as E2.
  { rewrite slice_from_add, Es, <- app_assoc, slice_from_app by (done || lia). done. }
  split; split_and!; try done; [|lia|by rewrite len_app, Z.add_assoc]. by rewrite E2, Es, app_assoc.
Qed.

Lemma Value_serialize_pos v : 0 < len (Value_serialize v).
Proof. destruct v; cbn [Value_serialize]; rewrite len_cons || idtac; try (pose proof (len_nonneg (@nil byte)); len_lia). Qed.

Lemma reads_consumed t w v w' : 0 <= w -> reads data t w v w' -> consumed w [v] w'.
Proof.
  intros Hw (Hlt & n & Ed & -> & _). apply codec_decodes in Ed as (Hv & b & rest & [= <-] & Er & ->).
  pose proof (len_nonneg (Value_serialize v)).
  unfold consumed, witness_values. cbn [map concat]. rewrite app_nil_r. split_and!; [done|by constructor| |done].
  rewrite slice_from_add, Er, slice_from_app by (done || lia). done.
Qed.

Lemma consumed_reads t w v w' :
  consumed w [v] w' -> t = TUnit \/ matches_type v t = true -> reads data t w v w'.
Proof.
  intros (Hw & Hv & Es & ->) Ht. apply Forall_inv in Hv. unfold witness_values in *. cbn [map concat] in *.
  rewrite app_nil_r in *. pose proof (Value_serialize_pos v) as Hpos. unfold reads. split.
  - apply (f_equal len) in Es. rewrite len_app in Es. unfold slice_from, len in *. rewrite !length_drop in Es. lia.
  - exists (len (Value_serialize v)). destruct (codec_encodes v Hv) as (b & [= <-] & Hdec).
    rewrite Es, Hdec. done.
Qed.
End Reading.

(** ** A script accepts only what its covenant accepts *)

Section Sound.
Context `{Sha2} `{Ed25519}.
Context (p : Program) (c : ScriptContext) (ts : list TypedNode) (data : bytes).
Abbreviation run := (runs p c ts data).

Lemma sha256_Ok v r : jet_eval JSha256 v c = Ok r -> exists x, v = VBytes x /\ r = VHash (Hash256_sha256 x).
Proof. destruct v; try discriminate. intros [= <-]. eauto. Qed.
Lemma verify_Ok msg pk v r :
  jet_eval JEd25519Verify (VPair (VBytes msg) (VPair (VBytes pk) v)) c = Ok r ->
  exists sig, v = VBytes sig /\ r = VBool (ed25519_verify_zip215 msg pk sig).
Proof. destruct v; try discriminate. intros [= <-]. eauto. Qed.

(** A run from [w] to [w'] with this verdict, as the policy has it. *)
Definition judged (pol : policy) (w : Z) (r : Value) (w' : Z) : Prop :=
  exists verdict items, r = VBool verdict /\ consumed data w items w' /\
    forall rest, policy_run c pol (items ++ rest) = Some (verdict, rest).

(** Follow a run through the nodes that are known. *)
Ltac follow :=
  repeat match goal with
  | Hr : runs _ _ _ _ ?id _ _ _ _, En : Program_get _ ?id = Some _ |- _ =>
      pose proof (runs_at _ _ _ _ _ _ _ _ _ _ Hr En); clear Hr; cbn beta iota in *
  | He : exists _, _ |- _ => destruct He
  | Ha : _ /\ _ |- _ => destruct Ha
  end; subst.
Ltac jets :=
  repeat match goal with
  | Hj : jet_eval JTxSigHash _ _ = Ok _ |- _ => injection Hj as <-
  | Hj : jet_eval JBlockHeight _ _ = Ok _ |- _ => injection Hj as <-
  | Hj : jet_eval JSha256 _ _ = Ok _ |- _ => apply sha256_Ok in Hj as (? & -> & ->)
  | Hj : jet_eval JEd25519Verify (VPair (VBytes _) (VPair (VBytes _) _)) _ = Ok _ |- _ => apply verify_Ok in Hj as (? & -> & ->)
  | Hj : jet_eval JEqHash _ _ = Ok _ |- _ => injection Hj as <-
  | Hj : jet_eval JGt64 _ _ = Ok _ |- _ => injection Hj as <-
  | Hj : jet_eval JLt64 _ _ = Ok _ |- _ => injection Hj as <-
  end.

Lemma judged_height pol w verdict :
  0 <= w -> (forall items, policy_run c pol items = Some (verdict, items)) -> judged pol w (VBool verdict) w.
Proof. intros Hw Hp. exists verdict, []. split_and!; [done|by apply consumed_nil|done]. Qed.

Lemma policy_sound id pol : at_policy p ts id pol ->
  forall v w r w', 0 <= w -> run id v w r w' -> judged pol w r w'.
Proof.
  induction 1; intros v w0 r w' Hw Hr; follow.
  - match goal with Hx : reads _ _ _ _ _ |- _ => apply reads_consumed in Hx; [|done] end. jets.
    eexists _, [_]. split_and!; [done|eassumption|done].
  - match goal with Hx : reads _ _ _ _ _ |- _ => apply reads_consumed in Hx; [|done] end. jets.
    eexists _, [_]. split_and!; [done|eassumption|done].
  - jets. by apply judged_height.
  - jets. by apply judged_height.
  - match goal with Hx : run a _ _ _ _ |- _ => apply IHat_policy1 in Hx as (verdict & items & -> & Hc & Ha); [|done] end.
    match goal with Hx : _ \/ _ |- _ => destruct Hx as [(? & ? & _)|[(? & ? & _)|(verdict' & [= <-] & _ & Hrun)]]; [done|done|] end. destruct verdict.
    + pose proof Hc as (_ & _ & _ & Hx). pose proof (len_nonneg (witness_values items)).
      apply IHat_policy2 in Hrun as (verdict2 & items2 & -> & Hc2 & Hb); [|lia].
      exists verdict2, (items ++ items2). split_and!; [done|by eapply consumed_app|].
      intros rest. cbn [policy_run]. by rewrite <- app_assoc, Ha, Hb.
    + follow. exists false, items. split_and!; [done|done|]. intros rest. cbn [policy_run]. by rewrite Ha.
Qed.

Lemma at_menu_sound id m : at_menu p ts id m ->
  forall sel w r w', 0 <= w -> matches_type sel (menu_type m) = true -> run id sel w r w' ->
  exists pol, pick m sel = Some pol /\ judged pol w r w'.
Proof.
  induction 1 as [id pol Hin Hp|id f g l r Hn Hin Hl IHl Hr IHr]; intros sel w res w' Hw Hm Hrun.
  - exists pol. split; [by destruct sel|by eapply policy_sound].
  - destruct (runs_at _ _ _ _ _ _ _ _ _ _ Hrun Hn) as [(a & -> & Hf & Hr')|[(b & -> & Hf & Hr')|(x & -> & Hb & Hr')]].
    + apply (payload_matches ts f _ _ (at_menu_input _ _ _ _ Hl)) in Hf. cbn [pick]. by apply (IHl a w res w').
    + apply (payload_matches ts g _ _ (at_menu_input _ _ _ _ Hr)) in Hf. cbn [pick]. by apply (IHr b w res w').
    + assert (menu_type (Choice l r) = bool_type) as Ht.
      { destruct Hin as (tn & Htn & <-), Hb as (tn' & Htn' & Hb'). congruence. }
      destruct l as [pl|]; [|done]. destruct r as [pr|]; [|done]. inversion Hl; inversion Hr; subst. cbn [pick].
      eexists. split; [done|]. by destruct x; eapply policy_sound.
Qed.

Lemma covenant_sound cov input w' verdict : at_covenant p ts cov ->
  run (root p) input 0 verdict w' -> len data <= w' ->
  exists items b, verdict = VBool b /\ data = witness_values items /\ Forall Value_wf items /\
    covenant_run c cov items = Some (b, []).
Proof.
  assert (forall items, consumed data 0 items w' -> len data <= w' -> data = witness_values items) as Hall.
  { intros items (_ & _ & Es & ->) Hlen. rewrite slice_from_0 in Es. rewrite Es at 1.
    unfold slice_from. rewrite drop_ge; [by rewrite app_nil_r|]. unfold len in *. lia. }
  destruct 1 as [pol Hp|s k l r Hroot Hs Hw Hm]; intros Hrun Hlen.
  - destruct (policy_sound _ _ Hp input 0 verdict w' ltac:(lia) Hrun) as (b & items & -> & Hc & Hpol). exists items, b.
    pose proof (Hpol []) as Hpol'. rewrite app_nil_r in Hpol'. split_and!; [done|by apply Hall|by apply Hc|done].
  - destruct (runs_at _ _ _ _ _ _ _ _ _ _ Hrun Hroot) as (sel & w1 & Hsel & Hk).
    pose proof (runs_at _ _ _ _ _ _ _ _ _ _ Hsel Hs) as Hread. cbn beta iota in Hread.
    assert (matches_type sel (menu_type (Choice l r)) = true) as Hty.
    { destruct Hread as (_ & n & _ & _ & [Ht|Ht]); rewrite Hw in Ht; [done|exact Ht]. }
    apply reads_consumed in Hread as Hc1; [|done]. pose proof Hc1 as (_ & _ & _ & Hx). pose proof (len_nonneg (witness_values [sel])).
    destruct (at_menu_sound _ _ Hm sel w1 verdict w' ltac:(lia) Hty Hk) as (pol & Hpick & b & items & -> & Hc2 & Hpol).
    pose proof (consumed_app _ _ _ _ _ _ Hc1 Hc2) as Hc. exists (sel :: items), b. pose proof (Hpol []) as Hpol'. rewrite app_nil_r in Hpol'.
    split_and!; [done|by apply Hall|by apply Hc|]. cbn [covenant_run]. rewrite Hpick. exact Hpol'.
Qed.
End Sound.

(** ** A script accepts all its covenant accepts *)

Section Complete.
Context `{Sha2} `{Ed25519} `{Layout} `{!LayoutLaws}.
Context (p : Program) (c : ScriptContext) (ts : list TypedNode) (data : bytes).

Fixpoint policy_depth (pol : policy) : nat :=
  match pol with Both a b => S (Nat.max (policy_depth a) (S (Nat.max 1 (policy_depth b)))) | _ => 4 end.
(** Bounds on the cost of a policy, without that of its items. *)
Fixpoint policy_steps (msg_len : Z) (pol : policy) : Z :=
  match pol with
  | Signed _ => 5012 + msg_len / 64 + 8 * div_ceil msg_len 64
  | Preimage _ => 519
  | After _ | Before _ => 20
  | Both a b => policy_steps msg_len a + policy_steps msg_len b + 3
  end.
Fixpoint policy_cells (pol : policy) : Z :=
  match pol with Signed _ => 2 | Both a b => policy_cells a + policy_cells b | _ => 1 end.
Fixpoint policy_memory (pol : policy) : Z :=
  match pol with
  | Signed pk => bytes_capacity (sig_hash c) + bytes_capacity pk + 4 * VALUE_SIZE
  | Both a b => policy_memory a + policy_memory b
  | _ => 2 * VALUE_SIZE
  end.
Definition items_steps (items : list Value) : Z := sum_of (fun v => bytes_len v / 64 * 8) items.
Definition items_heap (items : list Value) : Z := sum_of heap_size items.


(** What the items of a policy are does not depend on what follows. *)
Lemma policy_run_items pol items b rest :
  policy_run c pol items = Some (b, rest) ->
  exists used, items = used ++ rest /\ forall rest', policy_run c pol (used ++ rest') = Some (b, rest').
Proof.
  revert items b rest. induction pol as [pk|h|t|t|a IHa b IHb]; intros items v rest; cbn [policy_run].
  - destruct items as [|[] items]; try done. intros [= <- <-]. eexists [_]. done.
  - destruct items as [|[] items]; try done. intros [= <- <-]. eexists [_]. done.
  - intros [= <- <-]. by exists [].
  - intros [= <- <-]. by exists [].
  - destruct (policy_run c a items) as [[[] r1]|] eqn:Ea; [| |done].
    + intros Eb. apply IHa in Ea as (ua & -> & Ha). apply IHb in Eb as (ub & -> & Hb).
      exists (ua ++ ub). rewrite app_assoc. split; [done|]. intros rest'. by rewrite <- app_assoc, Ha, Hb.
    + intros [= <- <-]. apply IHa in Ea as (ua & -> & Ha). exists ua. split; [done|]. intros rest'. by rewrite Ha.
Qed.

(** Longer messages cost more. *)
Lemma policy_steps_mono m n pol : 0 <= m <= n -> 0 <= policy_steps m pol <= policy_steps n pol.
Proof.
  intros Hmn. pose proof (Z.div_pos m 64). pose proof (div_ceil_nonneg m 64).
  assert (m / 64 <= n / 64) by (apply Z.div_le_mono; lia).
  assert (div_ceil m 64 <= div_ceil n 64) by (apply Z.div_le_mono; lia).
  induction pol; cbn [policy_steps]; lia.
Qed.
Lemma policy_steps_nonneg pol : 0 <= policy_steps (len (sig_hash c)) pol.
Proof. pose proof (len_nonneg (sig_hash c)). apply (policy_steps_mono _ (len (sig_hash c))). lia. Qed.
Lemma policy_cells_nonneg pol : 0 <= policy_cells pol.
Proof. induction pol; cbn [policy_cells]; lia. Qed.
Lemma bytes_capacity_nonneg bs : 0 <= bytes_capacity bs.
Proof. pose proof (bytes_capacity_len bs). pose proof (len_nonneg bs). lia. Qed.
Lemma policy_memory_nonneg pol : 0 <= policy_memory pol.
Proof.
  pose proof value_size_pos. pose proof (bytes_capacity_nonneg (sig_hash c)).
  induction pol; cbn [policy_memory]; try lia. pose proof (bytes_capacity_nonneg pk). lia.
Qed.

Ltac take_nodes :=
  repeat first
    [ eapply (take_comp p c ts data); [eassumption| |] | eapply (take_pair p c ts data); [eassumption| |] | apply (take_unit p c ts data); eassumption
    | apply (take_const p c ts data); eassumption | eapply (take_jet p c ts data); [eassumption|reflexivity] | eapply (take_witness p c ts data); eassumption ].
Ltac cost_le :=
  cbn [runtime_cost jet_cost fst heap_size policy_steps policy_cells policy_memory bytes_len];
  unfold saturating_add, saturating_mul, items_steps, items_heap; rewrite ?sum_of_cons;
  change (sum_of (A := Value) ?f []) with 0; cbn [bytes_len heap_size];
  try match goal with |- context [len ?b / 64 * 8] => pose proof (Z.div_pos (len b) 64 (len_nonneg b)) end; lia.

(** [takes], with the bounds of a policy. *)
Definition policy_takes (pol : policy) (items : list Value) (m : M Value) (w : Z) (v : Value) (w' : Z) : Prop :=
  takes (policy_steps (len (sig_hash c)) pol + items_steps items) (policy_cells pol) (policy_memory pol + items_heap items) m w v w'.

Lemma policy_complete id pol : at_policy p ts id pol ->
  forall l v w items w' verdict, (policy_depth pol <= l)%nat ->
  policy_run c pol items = Some (verdict, []) -> consumed data w items w' ->
  policy_takes pol items (eval_node p c ts data l id v) w (VBool verdict) w'.
Proof.
  induction 1; intros l v w0 items w' verdict Hl Hp Hc; cbn [policy_depth] in Hl.
  - destruct l as [|[|[|[|l]]]]; try lia. cbn [policy_run] in Hp. destruct items as [|[] items]; try done. injection Hp as <- ->.
    apply consumed_reads with (t := bytes_type) in Hc; [|by right].
    match goal with Ht : witness_type _ _ = _ |- _ => rewrite <- Ht in Hc end.
    eapply takes_weaken; [take_nodes | cost_le..].
  - destruct l as [|[|[|[|l]]]]; try lia. cbn [policy_run] in Hp. destruct items as [|[] items]; try done. injection Hp as <- ->.
    apply consumed_reads with (t := bytes_type) in Hc; [|by right].
    match goal with Ht : witness_type _ _ = _ |- _ => rewrite <- Ht in Hc end.
    eapply takes_weaken; [take_nodes | cost_le..].
  - destruct l as [|[|[|[|l]]]]; try lia. injection Hp as <- ->. destruct Hc as (_ & _ & _ & ->). rewrite Z.add_0_r.
    eapply takes_weaken; [take_nodes | cost_le..].
  - destruct l as [|[|[|[|l]]]]; try lia. injection Hp as <- ->. destruct Hc as (_ & _ & _ & ->). rewrite Z.add_0_r.
    eapply takes_weaken; [take_nodes | cost_le..].
  - destruct l as [|[|[|l]]]; try lia. cbn [policy_run] in Hp.
    destruct (policy_run c pa items) as [[[] r1]|] eqn:Ea; [| |done].
    + apply policy_run_items in Ea as (ua & -> & Ha). specialize (Ha []). rewrite app_nil_r in Ha.
      apply consumed_split in Hc as (w1 & Hc1 & Hc2).
      eapply takes_weaken; [eapply (take_comp p c ts data); [eassumption|eapply IHat_policy1; [lia|done|done]|]|..].
      { eapply (take_case_bool p c ts data); [eassumption|done|]. eapply IHat_policy2; [lia|done|done]. }
      all: cbn [policy_steps policy_cells policy_memory]; unfold items_steps, items_heap; rewrite ?sum_of_app; lia.
    + injection Hp as <- ->. pose proof (policy_steps_nonneg pb). pose proof (policy_cells_nonneg pb). pose proof (policy_memory_nonneg pb).
      eapply takes_weaken; [eapply (take_comp p c ts data); [eassumption|eapply IHat_policy1; [lia|done|done]|]|..].
      { eapply (take_case_bool p c ts data); [eassumption|done|]. by apply (take_const p c ts data). }
      all: cbn [policy_steps policy_cells policy_memory heap_size]; lia.
Qed.

(** The dearest path of a menu. *)
Fixpoint menu_depth (m : menu) : nat :=
  match m with Just pol => policy_depth pol | Choice l r => S (Nat.max (menu_depth l) (menu_depth r)) end.
Fixpoint menu_steps (msg_len : Z) (m : menu) : Z :=
  match m with Just pol => policy_steps msg_len pol | Choice l r => 1 + Z.max (menu_steps msg_len l) (menu_steps msg_len r) end.
Fixpoint menu_cells (m : menu) : Z :=
  match m with Just pol => policy_cells pol | Choice l r => Z.max (menu_cells l) (menu_cells r) end.
Fixpoint menu_memory (m : menu) : Z :=
  match m with Just pol => policy_memory pol | Choice l r => Z.max (menu_memory l) (menu_memory r) end.

Definition covenant_depth (cov : covenant) : nat :=
  match cov with Direct pol => policy_depth pol | Select m => S (menu_depth m) end.
Definition covenant_steps (msg_len : Z) (cov : covenant) : Z :=
  match cov with Direct pol => policy_steps msg_len pol | Select m => 2 + menu_steps msg_len m end.
Definition covenant_cells (cov : covenant) : Z :=
  match cov with Direct pol => policy_cells pol | Select m => menu_cells m end.
Definition covenant_memory (cov : covenant) : Z :=
  match cov with Direct pol => policy_memory pol | Select m => menu_memory m end.

Definition menu_takes (m : menu) (items : list Value) (x : M Value) (w : Z) (v : Value) (w' : Z) : Prop :=
  takes (menu_steps (len (sig_hash c)) m + items_steps items) (menu_cells m) (menu_memory m + items_heap items) x w v w'.

Lemma menu_steps_mono m n mn : 0 <= m <= n -> menu_steps m mn <= menu_steps n mn.
Proof.
  intros Hmn. induction mn as [pol|l IHl r IHr]; cbn [menu_steps]; [|lia]. pose proof (policy_steps_mono m n pol Hmn). lia.
Qed.
Lemma covenant_steps_mono m n cov : 0 <= m <= n -> covenant_steps m cov <= covenant_steps n cov.
Proof.
  intros Hmn. destruct cov as [pol|mn]; cbn [covenant_steps].
  - pose proof (policy_steps_mono m n pol Hmn). lia.
  - pose proof (menu_steps_mono m n mn Hmn). lia.
Qed.
(** The items cost no more steps than they have bytes. *)
Lemma items_steps_le items : items_steps items <= len (witness_values items).
Proof.
  unfold items_steps, witness_values. induction items as [|v items IH]; [done|]. rewrite sum_of_cons. cbn [map concat]. rewrite len_app.
  assert (bytes_len v / 64 * 8 <= len (Value_serialize v)); [|lia].
  assert (bytes_len v <= len (Value_serialize v)) by (destruct v; cbn [bytes_len Value_serialize]; try apply len_nonneg; len_lia).
  pose proof (bytes_len_nonneg v). pose proof (Z.mul_div_le (bytes_len v) 64 ltac:(lia)). lia.
Qed.

Lemma pick_matches m sel pol : pick m sel = Some pol -> matches_type sel (menu_type m) = true.
Proof.
  revert sel. induction m as [q|l IHl r IHr]; intros sel; cbn [pick]; [by destruct sel|]. destruct sel as [|v|v| | | | | |b|]; try done.
  - intros Hv%IHl. cbn [menu_type matches_type]. repeat (case_bool_decide as Hb; [try discriminate Hb|clear Hb]); [|done].
    injection Hb as Hl _. rewrite Hl in Hv. by destruct v.
  - intros Hv%IHr. cbn [menu_type matches_type]. repeat (case_bool_decide as Hb; [try discriminate Hb|clear Hb]); [|done].
    injection Hb as _ Hr. rewrite Hr in Hv. by destruct v.
  - destruct l, r; done.
Qed.

Lemma pick_fits id m sel pol : at_menu p ts id m -> pick m sel = Some pol -> payload_fits ts id sel.
Proof. intros Hm Hp. apply (payload_matches ts id _ _ (at_menu_input _ _ _ _ Hm)). by eapply pick_matches. Qed.

Lemma menu_complete id m : at_menu p ts id m ->
  forall sel pol l w items w' verdict, (menu_depth m <= l)%nat -> pick m sel = Some pol ->
  policy_run c pol items = Some (verdict, []) -> consumed data w items w' ->
  menu_takes m items (eval_node p c ts data l id sel) w (VBool verdict) w'.
Proof.
  induction 1 as [id pol Hin Hp|id f g ml mr Hn Hin Hl IHl Hr IHr]; intros sel q l w items w' verdict Hd Hpick Hrun Hc;
    cbn [menu_depth pick] in *.
  - destruct sel; try done. injection Hpick as ->. by eapply policy_complete.
  - destruct l as [|l]; [lia|]. destruct sel as [|v|v| | | | | |b|]; try done.
    + eapply takes_weaken; [eapply (take_case_left p c ts data); [done|by eapply pick_fits|]|..];
        [by eapply IHl; [lia|..]|cbn [menu_steps menu_cells menu_memory]; lia..].
    + eapply takes_weaken; [eapply (take_case_right p c ts data); [done|by eapply pick_fits|]|..];
        [by eapply IHr; [lia|..]|cbn [menu_steps menu_cells menu_memory]; lia..].
    + destruct ml as [pl|]; [|done]. destruct mr as [pr|]; [|done]. injection Hpick as <-.
      destruct b.
      * eapply takes_weaken; [eapply (take_case_bool p c ts data); [done|exact Hin|by eapply IHr; [lia|..]]
          |cbn [menu_steps menu_cells menu_memory]; lia..].
      * eapply takes_weaken; [eapply (take_case_bool p c ts data); [done|exact Hin|by eapply IHl; [lia|..]]
          |cbn [menu_steps menu_cells menu_memory]; lia..].
Qed.

Lemma consumed_all items : Forall Value_wf items -> data = witness_values items -> consumed data 0 items (len data).
Proof.
  intros Hwf Hd. split_and!; [done|done| |by rewrite Hd].
  rewrite slice_from_0. unfold slice_from. rewrite drop_ge by (unfold len; lia). by rewrite app_nil_r.
Qed.

Lemma covenant_complete cov input l items verdict : at_covenant p ts cov -> (covenant_depth cov <= l)%nat ->
  Forall Value_wf items -> data = witness_values items -> covenant_run c cov items = Some (verdict, []) ->
  takes (covenant_steps (len (sig_hash c)) cov + items_steps items) (covenant_cells cov) (covenant_memory cov + items_heap items)
    (eval_node p c ts data l (root p) input) 0 (VBool verdict) (len data).
Proof.
  intros Hcov Hl Hwf Hd Hrun. pose proof (consumed_all items Hwf Hd) as Hc.
  destruct Hcov as [pol Hp|s k ml mr Hroot Hs Hw Hm]; cbn [covenant_depth covenant_run] in *.
  - by eapply policy_complete.
  - destruct items as [|sel items]; [done|]. destruct (pick (Choice ml mr) sel) as [pol|] eqn:Ep; [|done]. cbn in Hrun.
    apply (consumed_split data 0 [sel] items) in Hc as (w1 & Hc1 & Hc2).
    apply consumed_reads with (t := menu_type (Choice ml mr)) in Hc1; [|right; by eapply pick_matches]. rewrite <- Hw in Hc1.
    destruct l as [|[|l]]; [lia|cbn [menu_depth] in Hl; lia|].
    eapply takes_weaken; [eapply (take_comp p c ts data); [done|by apply (take_witness p c ts data)|]|..].
    { eapply menu_complete; [done|lia|done|done|done]. }
    all: cbn [covenant_steps covenant_cells covenant_memory]; unfold items_steps, items_heap; rewrite ?sum_of_cons;
      pose proof (Z.div_pos (bytes_len sel) 64 (bytes_len_nonneg sel)); lia.
Qed.
End Complete.

(** ** Spending an output locked by a covenant *)

Definition MAX_LEVELS : nat := Z.to_nat (MAX_EVAL_DEPTH + 1).

(** The program is well-formed and well-typed, encodes the covenant, and its
    static cost covers every path of it, for messages and witnesses up to the
    limits of a transaction. *)
Definition implements (p : Program) (cov : covenant) : Prop :=
  Program_wf p /\ (exists ts, typecheck p = Ok ts /\ at_covenant p ts cov) /\
  (covenant_depth cov <= MAX_LEVELS)%nat /\
  covenant_steps MAX_TX_SIZE cov + MAX_WITNESS_SIZE <= MAX_SCRIPT_STEPS /\
  forall ls, exists cost, compute_cost p ls = Ok cost /\ steps cost <= MAX_SCRIPT_STEPS /\ covenant_cells cov <= cells cost.

Section Spending.
Context `{Sha2} `{Ed25519} `{Layout} `{!LayoutLaws}.

(** A covenant looks at the message and the height only. *)
Lemma policy_run_context c c' pol items :
  sig_hash c = sig_hash c' -> block_height c = block_height c' -> policy_run c pol items = policy_run c' pol items.
Proof.
  intros Hs Hh. revert items. induction pol as [pk|h|t|t|a IHa b IHb]; intros items; cbn [policy_run]; rewrite ?Hs, ?Hh; try done.
  rewrite IHa. destruct (policy_run c' a items) as [[[] r]|]; [apply IHb|done..].
Qed.
Lemma covenant_run_self c i cov items : covenant_run (with_self_index c i) cov items = covenant_run c cov items.
Proof.
  destruct cov as [pol|m]; cbn [covenant_run]; [by apply policy_run_context|]. destruct items as [|sel items]; [done|].
  destruct (pick m sel) as [pol|]; [|done]. by apply policy_run_context.
Qed.
Lemma covenant_memory_self c i cov : covenant_memory (with_self_index c i) cov = covenant_memory c cov.
Proof.
  assert (forall pol, policy_memory (with_self_index c i) pol = policy_memory c pol) as Hp
    by (induction pol; cbn [policy_memory with_self_index sig_hash]; lia).
  destruct cov as [pol|m]; cbn [covenant_memory]; [done|]. induction m as [pol|]; cbn [menu_memory]; [apply Hp|lia].
Qed.

Context (p : Program) (cov : covenant) (Himp : implements p cov).
Context (idx : Z) (w : TxWitness) (o : TxOutput) (ctx : ScriptContext).
Context (Hscript : script o = serialize_program p).

(** What is left of [validate_script_input] on a known script. *)
Lemma validate_implementing :
  exists cost, covenant_cells cov <= cells cost /\ validate_script_input idx w o ctx =
    let? d := map_err (fun e => ScriptEvalFailed idx (SfDatum e)) (resolve_datum o w) in
    let (res, b) := evaluate_with_context p (build_script_input (witness w) (redeemer w) d) (witness w)
                      (Budget_new MAX_SCRIPT_STEPS (cells cost)) (with_self_index ctx (idx mod 2 ^ 32)) in
    match res with
    | Ok v => if bool_decide (as_bool v = Some true) then Ok (wrap64 (MAX_SCRIPT_STEPS - steps_remaining b))
              else Err (ScriptEvalFailed idx (SfReturned v))
    | Err e => Err (ScriptEvalFailed idx (SfEvaluation e))
    end.
Proof.
  destruct Himp as (Hwf & (ts & Ht & _) & _ & _ & Hcost). unfold validate_script_input.
  rewrite Hscript, deserialize_program_enc by done. cbn [map_err]. rewrite bool_decide_true by done. cbn [negb].
  rewrite Ht. cbn [is_err is_ok negb].
  destruct (Hcost {| input_count := len (tx_inputs ctx); output_count := len (tx_outputs ctx) |}) as (cost & Ec & Hs & Hcells).
  exists cost. split; [done|]. destruct (resolve_datum o w) as [d|]; [|done]. cbn [map_err]. rewrite Ec. cbn [map_err].
  replace (MAX_SCRIPT_STEPS <? steps cost) with false by lia. done.
Qed.

Lemma covenant_spend_sound n :
  validate_script_input idx w o ctx = Ok n ->
  exists items, Forall Value_wf items /\ witness w = witness_values items /\ covenant_accepts ctx cov items.
Proof.
  destruct validate_implementing as (cost & _ & ->). intros Hv. destruct (resolve_datum o w) as [d|]; [|done]. cbn [map_err] in Hv.
  destruct (evaluate_with_context _ _ _ _ _) as [[v|e] b] eqn:Ee; [|done].
  destruct (bool_decide (as_bool v = Some true)) eqn:Eb; [|done]. apply bool_decide_eq_true in Eb.
  apply evaluate_runs in Ee as (ts & Ht & w' & Hr & Hl). destruct Himp as (_ & (ts' & Ht' & Hat) & _).
  rewrite Ht in Ht'. injection Ht' as <-.
  destruct (covenant_sound _ _ _ _ _ _ _ _ Hat Hr Hl) as (items & b0 & -> & Hd & Hwf & Hrun).
  injection Eb as ->. exists items. split_and!; [done|done|]. unfold covenant_accepts. by rewrite covenant_run_self in Hrun.
Qed.

Lemma covenant_spend_complete items d :
  Forall Value_wf items -> witness w = witness_values items -> covenant_accepts ctx cov items ->
  resolve_datum o w = Ok d -> len (sig_hash ctx) <= MAX_TX_SIZE -> len (witness w) <= MAX_WITNESS_SIZE ->
  covenant_memory ctx cov + items_heap items <= MAX_SCRIPT_MEMORY ->
  exists n, validate_script_input idx w o ctx = Ok n.
Proof.
  intros Hwf Hw Hacc Hd Hmsg Hlen Hmem. destruct validate_implementing as (cost & Hcells & ->). rewrite Hd. cbn [map_err].
  destruct Himp as (_ & (ts & Ht & Hat) & Hdepth & Hsteps & _). unfold covenant_accepts in Hacc.
  rewrite <- (covenant_run_self ctx (idx mod 2 ^ 32)) in Hacc.
  pose proof (covenant_complete p (with_self_index ctx (idx mod 2 ^ 32)) ts (witness w) cov
    (build_script_input (witness w) (redeemer w) d) MAX_LEVELS items true Hat Hdepth Hwf Hw Hacc) as Htakes.
  edestruct (takes_evaluate p _ (witness w) (Budget_new MAX_SCRIPT_STEPS (cells cost)) _ ts _ _ _ _ _ Ht Htakes) as (b & -> & _);
    [lia| |rewrite bool_decide_true by done; eauto].
  pose proof (covenant_steps_mono (len (sig_hash ctx)) MAX_TX_SIZE cov ltac:(pose proof (len_nonneg (sig_hash ctx)); lia)).
  pose proof (items_steps_le items). rewrite <- Hw in *. rewrite covenant_memory_self.
  unfold room, Budget_new. cbn [steps_remaining cells_remaining memory_used memory_limit with_self_index sig_hash].
  unfold MAX_SCRIPT_MEMORY, U64_MAX in *. lia.
Qed.
End Spending.
