(* ===== verification/CovenantTemplates.v ===== *)
(** * The templates implement their covenants

    Every template of [src/covenants/] with its covenant, as EXFER.md describes it in
    section 22 (payment channels, which it does not describe, after the code;
    comments in the modules that differ from it and from the code, on the witness
    and on time limits, are not followed); the exact conditions under which an
    output locked by it can be spent; HTLC recognition.

    The scripts are concrete up to keys, hashes and heights, so their structure,
    types and encoded policy are computed; the static cost depends on the keys
    only through their length ([same_cost]). *)

From Stdlib Require Import Strings.String.
From S2P Require Import Prelude Bytes Codec Hash Transaction ScriptValue ScriptAst ScriptCodec U256 Jets Typecheck ScriptCost Eval EvalSpec FeeCost TxValidation Covenants CovenantSpec.
#[local] Open Scope Z_scope.
#[local] Open Scope list_scope.

(** ** Costs depend on the shape of the constants only *)

Definition same_cost (n n' : Combinator) : Prop := forall T d, node_cost n T d = node_cost n' T d.

Lemma same_cost_refl n : same_cost n n.
Proof. done. Qed.
Lemma same_cost_bytes a b : len a = len b -> same_cost (CConst (VBytes a)) (CConst (VBytes b)).
Proof. intros E T d. cbn [node_cost Value_serialize]. rewrite !len_app, E, !len_le_bytes. done. Qed.
Lemma same_cost_hash a b : len a = len b -> same_cost (CConst (VHash a)) (CConst (VHash b)).
Proof. intros E T d. cbn [node_cost Value_serialize]. by rewrite !len_app, E. Qed.
Lemma same_cost_u64 a b : same_cost (CConst (VU64 a)) (CConst (VU64 b)).
Proof. intros T d. cbn [node_cost Value_serialize]. by rewrite !len_app, !len_le_bytes. Qed.

Ltac same_cost :=
  match goal with
  | |- same_cost (CConst (VBytes _)) _ => apply same_cost_bytes; assumption
  | |- same_cost (CConst (VHash _)) _ => apply same_cost_hash; assumption
  | |- same_cost (CConst (VU64 _)) _ => apply same_cost_u64
  | |- same_cost _ _ => apply same_cost_refl
  end.

Lemma cost_pass_same p q d : Forall2 same_cost (nodes p) (nodes q) -> cost_pass p d = cost_pass q d.
Proof.
  intros Hpq. unfold cost_pass, rev_fill_for. rewrite (Forall2_length _ _ _ Hpq). generalize (replicate (length (nodes q)) (@None ScriptCost)).
  assert (forall i T, cost_entry p d i T = cost_entry q d i T) as He.
  { intros i T. unfold cost_entry. destruct (nodes p !! i) as [n|] eqn:En.
    - destruct (Forall2_lookup_l _ _ _ _ _ Hpq En) as (n' & -> & Hn). unfold default, from_option, id. by rewrite (Hn T d).
    - rewrite (proj2 (lookup_ge_None (nodes q) i)); [done|]. apply lookup_ge_None in En. by rewrite <- (Forall2_length _ _ _ Hpq). }
  generalize (length (nodes q)) as n. induction n as [|n IH]; intros T; [done|]. cbn [rev_for]. rewrite He.
  destruct (cost_entry q d n T) as [x|]; [apply IH|done].
Qed.
Lemma compute_cost_same p q ls :
  Forall2 same_cost (nodes p) (nodes q) -> root p = root q -> valid p -> valid q -> compute_cost p ls = compute_cost q ls.
Proof.
  intros Hpq Hr Hp Hq. unfold compute_cost. unfold valid in *. rewrite Hp, Hq. cbn [map_err]. by rewrite (cost_pass_same p q _ Hpq), Hr.
Qed.

(** ** The templates and their covenants *)

Inductive template :=
| T_htlc (sender receiver : bytes) (hash_lock : Hash256) (timeout : Z)
| T_2of2 (a b : bytes)
| T_1of2 (a b : bytes)
| T_2of3 (a b c : bytes)
| T_vault (primary recovery : bytes) (locktime : Z)
| T_escrow (a b arbiter : bytes) (timeout : Z)
| T_delegation (owner delegate : bytes) (expiry : Z)
| T_close (ch : PaymentChannel) (close_height : Z) (publisher : bytes)
| T_dispute (ch : PaymentChannel) (close_height : Z).

Definition template_program (t : template) : option Program :=
  match t with
  | T_htlc s r h t => htlc s r h t
  | T_2of2 a b => multisig_2of2 a b
  | T_1of2 a b => multisig_1of2 a b
  | T_2of3 a b c => multisig_2of3 a b c
  | T_vault k r t => vault k r t
  | T_escrow a b c t => escrow a b c t
  | T_delegation o d t => delegation o d t
  | T_close ch t k => close_script ch t k
  | T_dispute ch t => dispute_script ch t
  end.

Definition two (a b : bytes) : policy := Both (Signed a) (Signed b).
Definition end_of_window (ch : PaymentChannel) (close_height : Z) : Z := saturating_add U64_MAX close_height (dispute_window ch).

Definition template_covenant (t : template) : covenant :=
  match t with
  | T_htlc s r h t => Select (Choice (Just (Both (Preimage h) (Signed r))) (Just (Both (After t) (Signed s))))
  | T_2of2 a b => Direct (two a b)
  | T_1of2 a b => Select (Choice (Just (Signed a)) (Just (Signed b)))
  | T_2of3 a b c => Select (Choice (Choice (Just (two a b)) (Just (two a c))) (Just (two b c)))
  | T_vault k r t => Select (Choice (Just (Both (After t) (Signed k))) (Just (Signed r)))
  | T_escrow a b c t => Select (Choice (Choice (Just (two a b)) (Just (Signed c))) (Just (Both (After t) (Signed a))))
  | T_delegation o d t => Select (Choice (Just (Signed o)) (Just (Both (Signed d) (Before t))))
  | T_close ch t k =>
      Select (Choice (Just (two (party_a ch) (party_b ch))) (Just (Both (After (end_of_window ch t)) (Signed k))))
  | T_dispute ch t =>
      Select (Choice (Just (Both (two (party_a ch) (party_b ch)) (Before (end_of_window ch t))))
                     (Just (two (party_a ch) (party_b ch))))
  end.

(** The widths of the arguments: keys and hashes have 32 bytes, heights are [u64]s. *)
Definition key (k : bytes) : Prop := len k = 32.
Definition template_wf (t : template) : Prop :=
  match t with
  | T_htlc s r h t => key s /\ key r /\ hash_wf h /\ in_u64 t
  | T_2of2 a b | T_1of2 a b => key a /\ key b
  | T_2of3 a b c => key a /\ key b /\ key c
  | T_vault k r t => key k /\ key r /\ in_u64 t
  | T_escrow a b c t => key a /\ key b /\ key c /\ in_u64 t
  | T_delegation o d t => key o /\ key d /\ in_u64 t
  | T_close ch t k => key (party_a ch) /\ key (party_b ch) /\ key k /\ in_u64 t /\ in_u64 (dispute_window ch)
  | T_dispute ch t => key (party_a ch) /\ key (party_b ch) /\ in_u64 t /\ in_u64 (dispute_window ch)
  end.

(** The same template at fixed arguments. *)
Definition zero_key : bytes := replicate 32 x00.
Definition template_zero (t : template) : template :=
  let k := zero_key in
  let ch := {| party_a := k; party_b := k; dispute_window := 0 |} in
  match t with
  | T_htlc _ _ _ _ => T_htlc k k k 0
  | T_2of2 _ _ => T_2of2 k k
  | T_1of2 _ _ => T_1of2 k k
  | T_2of3 _ _ _ => T_2of3 k k k
  | T_vault _ _ _ => T_vault k k 0
  | T_escrow _ _ _ _ => T_escrow k k k 0
  | T_delegation _ _ _ => T_delegation k k 0
  | T_close _ _ _ => T_close ch 0 k
  | T_dispute _ _ => T_dispute ch 0
  end.

Lemma template_builds t : exists p, template_program t = Some p.
Proof. destruct t; vm_compute; eexists; reflexivity. Qed.

(** Nodes of a template are well-formed, and cost as much as at fixed arguments. *)
Lemma template_cost t p : template_wf t -> template_program t = Some p -> forall ls, exists cost,
  compute_cost p ls = Ok cost /\ steps cost <= MAX_SCRIPT_STEPS /\ covenant_cells (template_covenant t) <= cells cost.
Proof.
  intros Hwf Hp ls. destruct (template_builds (template_zero t)) as [q Hq].
  assert (compute_cost p ls = compute_cost q ls) as ->.
  { destruct t; cbn [template_wf template_zero] in *; vm_compute in Hp, Hq; injection Hp as <-; injection Hq as <-;
      (apply compute_cost_same; [|vm_compute; reflexivity..]); cbn [nodes]; destruct_and?;
      repeat apply Forall2_cons_2; try apply Forall2_nil_2; same_cost. }
  destruct t; vm_compute in Hq; injection Hq as <-; (eexists; split; [vm_compute; reflexivity|]); vm_compute; split; discriminate.
Qed.

Lemma const_key_wf k : key k -> node_wf (CConst (VBytes k)).
Proof. intros Hk. split; [change (in_u32 (len k))|cbn [Value_serialize]; rewrite !len_app, len_le_bytes]; rewrite Hk; done. Qed.
Lemma const_hash_wf h : hash_wf h -> node_wf (CConst (VHash h)).
Proof. intros Hh. cbn [node_wf Value_serialize]. rewrite len_app, Hh. done. Qed.
Lemma const_height_wf t : in_u64 t -> node_wf (CConst (VU64 t)).
Proof. intros Ht. cbn [node_wf Value_serialize]. rewrite len_app, len_le_bytes. done. Qed.
Lemma window_wf ch t : in_u64 t -> in_u64 (dispute_window ch) -> in_u64 (saturating_add U64_MAX t (dispute_window ch)).
Proof. unfold in_u64, saturating_add. lia. Qed.

Ltac node_wf :=
  match goal with
  | |- node_wf (CConst (VBytes _)) => apply const_key_wf; assumption
  | |- node_wf (CConst (VHash _)) => apply const_hash_wf; assumption
  | |- node_wf (CConst (VU64 _)) => apply const_height_wf; first [assumption
      | match goal with Ha : in_u64 ?t, Hb : in_u64 (dispute_window ?ch) |- _ => exact (window_wf ch t Ha Hb) end]
  | |- node_wf _ => done
  end.

Lemma template_program_wf t p : template_wf t -> template_program t = Some p -> Program_wf p.
Proof.
  intros Hwf Hp. destruct t; cbn [template_wf] in *; vm_compute in Hp; injection Hp as <-; destruct_and?;
    (split; [cbn [nodes]; repeat apply Forall_cons_2; try apply Forall_nil_2; node_wf|]);
    (split; [vm_compute; discriminate|split; [done|vm_compute; reflexivity]]).
Qed.

(** Find the policy a computed program encodes. *)
Ltac encodes :=
  repeat first
    [ reflexivity
    | match goal with
      | |- at_covenant _ _ (Direct _) => eapply at_direct
      | |- at_covenant _ _ (Select _) => eapply at_select
      | |- at_menu _ _ _ (Just _) => eapply at_just
      | |- at_menu _ _ _ (Choice _ _) => eapply at_choice
      | |- at_policy _ _ _ (Signed _) => eapply at_signed
      | |- at_policy _ _ _ (Preimage _) => eapply at_preimage
      | |- at_policy _ _ _ (After _) => eapply at_after
      | |- at_policy _ _ _ (Before _) => eapply at_before
      | |- at_policy _ _ _ (Both _ _) => eapply at_both
      | |- takes_input _ _ _ => eexists; split; reflexivity
      | |- on_bool _ _ => eexists; split; reflexivity
      end ].

Lemma template_encodes t p : template_program t = Some p ->
  exists ts, typecheck p = Ok ts /\ at_covenant p ts (template_covenant t).
Proof.
  intros Hp. destruct t; vm_compute in Hp; injection Hp as <-; (eexists; split; [vm_compute; reflexivity|]);
    cbn [template_covenant]; unfold two; encodes.
Qed.

Lemma template_depth t : (covenant_depth (template_covenant t) <= 10)%nat.
Proof. destruct t; cbn; lia. Qed.
Lemma template_steps t : covenant_steps MAX_TX_SIZE (template_covenant t) <= 400000.
Proof. destruct t; vm_compute; discriminate. Qed.

Lemma template_implements t p : template_wf t -> template_program t = Some p -> implements p (template_covenant t).
Proof.
  intros Hwf Hp. split; [exact (template_program_wf t p Hwf Hp)|]. split; [exact (template_encodes t p Hp)|].
  split; [|split; [|exact (template_cost t p Hwf Hp)]].
  - pose proof (template_depth t). unfold MAX_LEVELS, MAX_EVAL_DEPTH. lia.
  - pose proof (template_steps t). unfold MAX_WITNESS_SIZE, MAX_SCRIPT_STEPS. lia.
Qed.

(** ** Recognising HTLCs *)

Definition params_template (c : HtlcParams) : template := T_htlc (sender c) (receiver c) (hash_lock c) (timeout_height c).
#[local] Strategy expand [htlc_of params_template template_program].
Lemma htlc_of_template c : htlc_of c = template_program (params_template c).
Proof. reflexivity. Qed.

(** The constants of the template, in the order of its arena. *)
Lemma htlc_constants s r h t p : key s -> key r -> htlc s r h t = Some p ->
  collect_constants {| pubkeys := []; hash_lock_candidate := None; timeout_candidate := None |} (nodes p) =
  Some {| pubkeys := [s; r]; hash_lock_candidate := Some h; timeout_candidate := Some t |}.
Proof.
  intros Hs Hr Hp. vm_compute in Hp. injection Hp as <-. unfold key in *.
  cbn [nodes collect_constants collect_constant mbind option_bind].
  rewrite ?Hs, ?Hr. cbn. rewrite ?Hs, ?Hr. reflexivity.
Qed.

(** The candidates come from well-formed nodes. *)
Definition candidates_wf (acc : Candidates) : Prop :=
  Forall key (pubkeys acc) /\ (forall h, hash_lock_candidate acc = Some h -> hash_wf h) /\
  (forall t, timeout_candidate acc = Some t -> in_u64 t).
Lemma collect_constant_wf acc node acc' :
  node_wf node -> candidates_wf acc -> collect_constant acc node = Some acc' -> candidates_wf acc'.
Proof.
  intros Hn (Hk & Hh & Ht). destruct node as [| | | | | | | | | | | | | |v]; cbn [collect_constant]; try (by intros [= <-]).
  destruct Hn as [Hv _]. destruct v as [| | | | |b|n| | |h]; try (by intros [= <-]).
  - destruct (Z.eqb_spec (len b) 32); [|by intros [= <-]]. case_match; [done|]. intros [= <-].
    split_and!; cbn; [|done|done]. apply Forall_app. by repeat constructor.
  - case_match; [done|]. intros [= <-]. split_and!; cbn; [done|done|]. by intros t [= <-].
  - case_match; [done|]. intros [= <-]. split_and!; cbn; [done| |done]. by intros t [= <-].
Qed.
Lemma collect_constants_wf ns acc acc' :
  Forall node_wf ns -> candidates_wf acc -> collect_constants acc ns = Some acc' -> candidates_wf acc'.
Proof.
  intros Hns. revert acc. induction Hns as [|n ns Hn _ IH]; intros acc Hacc; cbn [collect_constants]; [by intros [= <-]|].
  destruct (collect_constant acc n) as [acc1|] eqn:E; [|done]. cbn. apply IH. by eapply collect_constant_wf.
Qed.

(** HTLC recognition is exact: [try_parse_htlc] returns parameters just when
    they have their widths and the bytes are the serialised [htlc] script of
    these parameters; so scripts that embed the right constants elsewhere, or
    have one byte more or less, are not recognised, and the parameters are
    unique. *)
Theorem try_parse_htlc_exact (script_bytes : bytes) (c : HtlcParams) :
  try_parse_htlc script_bytes = Some c <->
  template_wf (params_template c) /\ serialize_program <$> htlc_of c = Some script_bytes.
Proof.
  unfold try_parse_htlc. split.
  - destruct (deserialize_program script_bytes) as [p|] eqn:Ed; [|done]. cbn [ok mbind option_bind].
    apply deserialize_program_dec in Ed as [(Hns & _) _].
    destruct (collect_constants _ _) as [found|] eqn:Ef; [|done]. cbn [mbind option_bind].
    apply collect_constants_wf in Ef as (Hk & Hh & Ht); [|done|by split_and!; [constructor|..]].
    destruct (_ =? 2); [|done]. cbn [negb]. destruct (hash_lock_candidate found) as [h|]; [|done].
    destruct (timeout_candidate found) as [t|]; [|done]. cbn [mbind option_bind].
    destruct (pubkeys found) as [|k0 [|k1 ks]]; [done..|]. cbn [lookup list_lookup mbind option_bind].
    assert (key k0 /\ key k1) as [K0 K1] by (by inversion_clear Hk as [|? ? ? Hk']; inversion_clear Hk').
    unfold try_candidate. case_bool_decide as Ha; [|case_bool_decide as Hb; [|done]]; intros [= <-];
      (split; [|done]); split_and!; auto.
  - intros [Hwf Hs]. destruct (htlc_of c) as [p|] eqn:Ep; [|done]. cbn in Hs. injection Hs as <-.
    rewrite htlc_of_template in Ep. rewrite deserialize_program_enc by (by eapply template_program_wf). cbn [ok mbind option_bind].
    destruct Hwf as (Hks & Hkr & _). rewrite <- htlc_of_template in Ep.
    rewrite (htlc_constants _ _ _ _ _ Hks Hkr Ep). cbn -[try_candidate]. unfold try_candidate.
    replace {| sender := sender c; receiver := receiver c; hash_lock := hash_lock c; timeout_height := timeout_height c |} with c by (by destruct c).
    rewrite Ep. rewrite bool_decide_true by done. done.
Qed.

(** ** Spending *)

Section Spending.
Context `{Sha2} `{Ed25519} `{Layout} `{!LayoutLaws}.

(** C34: Every template is enforced exactly.  For an output locked by the script of a
    template (HTLC, multisigs, vault, escrow, delegation, channel close and
    dispute): if consensus accepts the input, its witness is a list of items
    that the template's covenant accepts, with nothing before, between or after
    them; and every such witness is accepted, whatever the datum, the redeemer
    and the other parts of the transaction, as long as the datum of the output
    can be resolved ([resolve_datum]: it matches its hash where there is one), the
    message and the witness are within the transaction limits and the values fit
    in script memory. *)
Theorem template_spend_exact (t : template) (p : Program) (idx : Z) (w : TxWitness) (o : TxOutput) (ctx : ScriptContext) :
  template_wf t -> template_program t = Some p -> script o = serialize_program p ->
  (forall n, validate_script_input idx w o ctx = Ok n ->
     exists items, Forall Value_wf items /\ witness w = witness_values items /\ covenant_accepts ctx (template_covenant t) items) /\
  (forall items d, Forall Value_wf items -> witness w = witness_values items ->
     covenant_accepts ctx (template_covenant t) items ->
     resolve_datum o w = Ok d -> len (sig_hash ctx) <= MAX_TX_SIZE -> len (witness w) <= MAX_WITNESS_SIZE ->
     covenant_memory ctx (template_covenant t) + items_heap items <= MAX_SCRIPT_MEMORY ->
     exists n, validate_script_input idx w o ctx = Ok n).
Proof.
  intros Hwf Hp Hs. pose proof (template_implements t p Hwf Hp) as Himp. split.
  - intros n. by eapply covenant_spend_sound.
  - intros items d. by eapply covenant_spend_complete.
Qed.

Lemma both_accepts c a b items :
  policy_run c (Both a b) items = Some (true, []) <->
  exists rest, policy_run c a items = Some (true, rest) /\ policy_run c b rest = Some (true, []).
Proof. cbn [policy_run]. destruct (policy_run c a items) as [[[] rest]|]; naive_solver. Qed.
Lemma signed_accepts c pk items rest :
  policy_run c (Signed pk) items = Some (true, rest) <->
  exists sig, items = VBytes sig :: rest /\ ed25519_verify_zip215 (sig_hash c) pk sig = true.
Proof.
  cbn [policy_run]. split; [|by intros (sig & -> & ->)].
  destruct items as [|[] items]; try done. intros [= Hv ->]. eauto.
Qed.
Lemma preimage_accepts c h items rest :
  policy_run c (Preimage h) items = Some (true, rest) <-> exists x, items = VBytes x :: rest /\ Hash256_sha256 x = h.
Proof.
  cbn [policy_run]. split.
  - destruct items as [|[] items]; try done. intros [= Hb ->]. apply bool_decide_eq_true in Hb. eauto.
  - intros (x & -> & Hx). by rewrite bool_decide_true.
Qed.
Lemma after_accepts c t items rest : policy_run c (After t) items = Some (true, rest) <-> items = rest /\ t < block_height c.
Proof. cbn [policy_run]. split; [intros [= Hb ->]; split; [done|lia]|]. intros [-> Hb]. by replace (t <? block_height c) with true by lia. Qed.

Lemma pick_two l r sel pol :
  pick (Choice (Just l) (Just r)) sel = Some pol <->
  (sel = VLeft VUnit \/ sel = VBool false) /\ pol = l \/ (sel = VRight VUnit \/ sel = VBool true) /\ pol = r.
Proof.
  cbn [pick]. split.
  - destruct sel as [|v|v| | | | | |b|]; try done; [destruct v; try done..|destruct b]; intros [= <-]; auto.
  - by intros [[[-> | ->] ->]|[[-> | ->] ->]].
Qed.

(** An HTLC output can be spent in two ways only.  Either the witness selects the
    hash path and holds a preimage of the hash lock and the receiver's signature
    of the transaction; or it selects the timeout path, the block is higher than
    the timeout, and it holds the sender's signature.  There is nothing else in
    the witness. *)
Theorem htlc_spend_paths (sender_key receiver_key : bytes) (hash_lock : Hash256) (timeout_height : Z) (p : Program)
    (idx n : Z) (w : TxWitness) (o : TxOutput) (ctx : ScriptContext) :
  key sender_key -> key receiver_key -> hash_wf hash_lock -> in_u64 timeout_height ->
  htlc sender_key receiver_key hash_lock timeout_height = Some p -> script o = serialize_program p ->
  validate_script_input idx w o ctx = Ok n ->
  (exists selector preimage sig, (selector = VLeft VUnit \/ selector = VBool false) /\
     witness w = witness_values [selector; VBytes preimage; VBytes sig] /\
     Hash256_sha256 preimage = hash_lock /\ ed25519_verify_zip215 (sig_hash ctx) receiver_key sig = true) \/
  (exists selector sig, (selector = VRight VUnit \/ selector = VBool true) /\
     witness w = witness_values [selector; VBytes sig] /\
     timeout_height < block_height ctx /\ ed25519_verify_zip215 (sig_hash ctx) sender_key sig = true).
Proof.
  intros Hs Hr Hh Ht Hp Ho Hv.
  assert (implements p (template_covenant (T_htlc sender_key receiver_key hash_lock timeout_height))) as Himp
    by exact (template_implements (T_htlc sender_key receiver_key hash_lock timeout_height) p (conj Hs (conj Hr (conj Hh Ht))) Hp).
  eapply covenant_spend_sound in Hv as (items & _ & Hw & Hacc); [|exact Himp|exact Ho]. clear Himp Hp.
  unfold covenant_accepts in Hacc. cbn [template_covenant covenant_run] in Hacc. destruct items as [|sel items]; [done|].
  destruct (pick _ sel) as [pol|] eqn:Ep; [|done]. cbn [mbind option_bind] in Hacc. apply pick_two in Ep as [[Hsel ->]|[Hsel ->]].
  - left. apply both_accepts in Hacc as (rest & (x & -> & Hx)%preimage_accepts & (sig & -> & Hsig)%signed_accepts).
    by exists sel, x, sig.
  - right. apply both_accepts in Hacc as (rest & [-> Hheight]%after_accepts & (sig & -> & Hsig)%signed_accepts).
    by exists sel, sig.
Qed.
End Spending.

(** ** Channels *)

(** Every way to close a channel pays out exactly the two balances, and the
    publisher's own share is the one that is delayed. *)
Theorem channel_closes_conserve `{Sha2} (ch : PaymentChannel) (st : ChannelState) (publisher : bytes) (close_height : Z) :
  0 <= balance_a st -> 0 <= balance_b st ->
  sum_of value (cooperative_close_outputs ch st) = balance_a st + balance_b st /\
  exists outs, commitment_outputs ch st publisher close_height = Some outs /\
    sum_of value outs = balance_a st + balance_b st.
Proof.
  intros Ha Hb. split.
  - unfold cooperative_close_outputs. destruct (Z.ltb_spec 0 (balance_a st)), (Z.ltb_spec 0 (balance_b st));
      cbn [app]; rewrite ?sum_of_cons; cbn [new_p2pkh value]; change (sum_of value []) with 0; lia.
  - unfold commitment_outputs. destruct (template_builds (T_close ch close_height publisher)) as [p Hp]. cbn [template_program] in Hp.
    destruct (bool_decide (publisher = party_a ch)); cbn beta iota; rewrite Hp; cbn [mbind option_bind];
      destruct (Z.ltb_spec 0 (balance_a st)), (Z.ltb_spec 0 (balance_b st)); (eexists; split; [reflexivity|]); clear Hp;
      rewrite ?sum_of_app, ?sum_of_cons; cbn [new_p2pkh script_output value]; change (sum_of value []) with 0; lia.
Qed.

(** ** Witnesses *)

Section Witnesses.
#[local] Instance covenant_sha : Sha2 := toy_digest.
#[local] Existing Instances toy_ed25519 toy_layout.

Definition some_signature : bytes := replicate 64 x01.
Definition some_context : ScriptContext := {|
  tx_inputs := []; tx_outputs := []; self_index := 0; block_height := 200; sig_hash := [x2a] |}.
Definition plain_witness (items : list Value) : TxWitness := {| witness := witness_values items; redeemer := None |}.
Definition multisig_items : list Value := [VBytes some_signature; VBytes some_signature].

Lemma template_spend_exact_witness : exists p n, multisig_2of2 zero_key zero_key = Some p /\
  validate_script_input 0 (plain_witness multisig_items) (script_output 5 p) some_context = Ok n.
Proof.
  destruct (template_builds (T_2of2 zero_key zero_key)) as [p Hp]. exists p.
  destruct (@template_spend_exact toy_digest toy_ed25519 toy_layout toy_layout_laws (T_2of2 zero_key zero_key) p 0 (plain_witness multisig_items)
              (script_output 5 p) some_context) as [_ Hspend]; [split; reflexivity | exact Hp | reflexivity |].
  destruct (Hspend multisig_items None) as [n Hn];
    [ repeat constructor; vm_compute; discriminate | reflexivity | vm_compute; reflexivity | reflexivity
    | vm_compute; discriminate | vm_compute; discriminate | vm_compute; discriminate |].
  exists n. split; [exact Hp | exact Hn].
Defined.

Definition htlc_lock : Hash256 := Hash256_sha256 [x07].
Definition htlc_items : list Value := [VLeft VUnit; VBytes [x07]; VBytes some_signature].

Lemma htlc_spend_paths_witness :
  (exists selector preimage sig, (selector = VLeft VUnit \/ selector = VBool false) /\
     witness_values htlc_items = witness_values [selector; VBytes preimage; VBytes sig] /\
     Hash256_sha256 preimage = htlc_lock /\ ed25519_verify_zip215 (sig_hash some_context) zero_key sig = true) \/
  (exists selector sig, (selector = VRight VUnit \/ selector = VBool true) /\
     witness_values htlc_items = witness_values [selector; VBytes sig] /\
     100 < block_height some_context /\ ed25519_verify_zip215 (sig_hash some_context) zero_key sig = true).
Proof.
  destruct (template_builds (T_htlc zero_key zero_key htlc_lock 100)) as [p Hp].
  assert (template_wf (T_htlc zero_key zero_key htlc_lock 100)) as Hwf 
    by (split; [reflexivity|split; [reflexivity|split; [vm_compute; reflexivity|vm_compute; split; discriminate]]]).
  destruct (covenant_spend_complete p _ (template_implements _ p Hwf Hp) 0 (plain_witness htlc_items) (script_output 5 p) some_context
              eq_refl htlc_items None) as [n Hn];
    [ repeat constructor; vm_compute; discriminate | reflexivity | vm_compute; reflexivity | reflexivity
    | vm_compute; discriminate | vm_compute; discriminate | vm_compute; discriminate |].
  apply (@htlc_spend_paths toy_digest toy_ed25519 toy_layout zero_key zero_key htlc_lock 100 p 0 n (plain_witness htlc_items)
           (script_output 5 p) some_context); [apply Hwf | apply Hwf | apply Hwf | apply Hwf | exact Hp | reflexivity | exact Hn].
Defined.

End Witnesses.
