(* ===== verification/Wire.v ===== *)
(** * The wire protocol ([src/network/protocol.rs])

    Messages, their framing and payload codecs, the handshake transcripts and
    the address filter.  A frame is a type byte, the payload length as a [u32]
    and the payload.  [SocketAddr] follows the standard library: a V6 address
    has a flow label and a scope, which do not go on the wire. *)

From Stdlib Require Import Strings.String.
From S2P Require Import Prelude Bytes Codec Hash Transaction Block.
#[local] Open Scope Z_scope.
#[local] Open Scope list_scope.

(** ** Constants *)

Definition MAX_MESSAGE_SIZE : Z := 8388608.
Definition MAX_GETBLOCKS_ITEMS : Z := 64.
Definition MAX_ADDR_ITEMS : Z := 64.
Definition DS_AUTH : bytes := list_byte_of_string "EXFER-AUTH".
Definition DS_SESSION : bytes := list_byte_of_string "EXFER-SESSION".
Definition ADDR_ENTRY_WIRE_SIZE : Z := 26.
Definition HELLO_V4_PAYLOAD_SIZE : Z := 268.

Definition MSG_HELLO : byte := x01.
Definition MSG_PING : byte := x02.
Definition MSG_PONG : byte := x03.
Definition MSG_NEW_BLOCK : byte := x10.
Definition MSG_GET_BLOCKS : byte := x11.
Definition MSG_BLOCK_RESPONSE : byte := x12.
Definition MSG_GET_TIP : byte := x13.
Definition MSG_TIP_RESPONSE : byte := x14.
Definition MSG_INV : byte := x15.
Definition MSG_GET_ADDR : byte := x16.
Definition MSG_ADDR : byte := x17.
Definition MSG_AUTH_ACK : byte := x18.
Definition MSG_NEW_TX : byte := x20.
Definition MSG_GET_HEADERS : byte := x21.
Definition MSG_HEADERS : byte := x22.

(** ** Messages *)

Record HelloMsg := {
  hello_version : Z; genesis_block_id : Hash256; best_height : Z; best_block_id : Hash256; hello_work : bytes;
  hello_nonce : bytes; echo : bytes; hello_pubkey : bytes; hello_sig : bytes
}.
Record AuthAckMsg := { ack_sig : bytes }.
Record TipResponseMsg := { tip_height : Z; tip_block_id : Hash256; tip_work : bytes }.
Record GetHeadersMsg := { start_height : Z; max_count : Z }.

(** Octets in network order, port; flow label and scope of a V6 address. *)
Inductive SocketAddr :=
| SockV4 (octets : bytes) (port : Z)
| SockV6 (octets : bytes) (port flowinfo scope_id : Z).
Record AddrEntry := { addr : SocketAddr; last_seen : Z }.

Inductive Message :=
| MHello (h : HelloMsg)
| MAuthAck (a : AuthAckMsg)
| MPing
| MPong
| MNewBlock (b : Block)
| MGetBlocks (hashes : list Hash256)
| MBlockResponse (b : Block)
| MGetTip
| MTipResponse (t : TipResponseMsg)
| MInv (hashes : list Hash256)
| MNewTx (tx : Transaction)
| MGetHeaders (g : GetHeadersMsg)
| MHeaders (headers : list BlockHeader)
| MGetAddr
| MAddr (entries : list AddrEntry).

(** ** Payloads *)

Definition serialize_hello (h : HelloMsg) : bytes :=
  le_bytes 4 (hello_version h) ++ genesis_block_id h ++ le_bytes 8 (best_height h) ++ best_block_id h ++
  hello_work h ++ hello_nonce h ++ echo h ++ hello_pubkey h ++ hello_sig h.

Definition deserialize_hello (data : bytes) : result SerError HelloMsg :=
  if len data <? 108 then Err UnexpectedEof
  else if negb (len data =? 108) && negb (len data =? 172) && negb (len data =? HELLO_V4_PAYLOAD_SIZE)
  then Err (InvalidData "Hello payload must be 108, 172, or 268 bytes")
  else
    let version := le_val (slice data 0 4) in
    let genesis := slice data 4 36 in
    let best_height := le_val (slice data 36 44) in
    let best_id := slice data 44 76 in
    let cumulative_work := slice data 76 108 in
    let '(nonce, echo) :=
      if 172 <=? len data then (slice data 108 140, slice data 140 172) else (replicate 32 x00, replicate 32 x00) in
    let '(pubkey, sig) :=
      if HELLO_V4_PAYLOAD_SIZE <=? len data then (slice data 172 204, slice data 204 268)
      else (replicate 32 x00, replicate 64 x00) in
    Ok {| hello_version := version; genesis_block_id := genesis; best_height := best_height; best_block_id := best_id;
          hello_work := cumulative_work; hello_nonce := nonce; echo := echo; hello_pubkey := pubkey; hello_sig := sig |}.

Definition serialize_hash_list (hashes : list Hash256) : bytes := le_bytes 4 (len hashes) ++ concat hashes.

(** [for i in 0..count { .. data[4 + i * size .. 4 + (i + 1) * size] .. }] *)
Definition read_items {A} (size : Z) (dec : bytes -> A) (count : nat) (data : bytes) : list A :=
  map (fun i => let offset := 4 + Z.of_nat i * size in dec (slice data offset (offset + size))) (seq 0 count).

(** The shared guards of the counted lists: [count] items of [size] bytes. *)
Definition counted_list {A} (max size : Z) (dec : bytes -> A) (trailing : string) (data : bytes) : result SerError (list A) :=
  if len data <? 4 then Err UnexpectedEof
  else
    let count := le_val (slice data 0 4) in
    if max <? count then Err InvalidLength
    else
      let expected_len := 4 + count * size in
      if len data <? expected_len then Err UnexpectedEof
      else if negb (len data =? expected_len) then Err (InvalidData trailing)
      else Ok (read_items size dec (Z.to_nat count) data).

Definition deserialize_hash_list : bytes -> result SerError (list Hash256) :=
  counted_list MAX_GETBLOCKS_ITEMS 32 (fun h => h) "trailing bytes in hash list".

Definition serialize_tip_response (t : TipResponseMsg) : bytes := le_bytes 8 (tip_height t) ++ tip_block_id t ++ tip_work t.
Definition deserialize_tip_response (data : bytes) : result SerError TipResponseMsg :=
  if len data <? 72 then Err UnexpectedEof
  else if negb (len data =? 72) then Err (InvalidData "trailing bytes in tip response")
  else Ok {| tip_height := le_val (slice data 0 8); tip_block_id := slice data 8 40; tip_work := slice data 40 72 |}.

Definition serialize_get_headers (g : GetHeadersMsg) : bytes := le_bytes 8 (start_height g) ++ le_bytes 4 (max_count g).
Definition deserialize_get_headers (data : bytes) : result SerError GetHeadersMsg :=
  if len data <? 12 then Err UnexpectedEof
  else if negb (len data =? 12) then Err (InvalidData "trailing bytes in get_headers")
  else Ok {| start_height := le_val (slice data 0 8); max_count := le_val (slice data 8 12) |}.

Definition serialize_headers (headers : list BlockHeader) : bytes :=
  le_bytes 4 (len headers) ++ concat (map BlockHeader_serialize headers).
Definition deserialize_headers : bytes -> result SerError (list BlockHeader) :=
  counted_list MAX_GETBLOCKS_ITEMS HEADER_SIZE BlockHeader_deserialize "trailing bytes in headers list".

(** [Ipv4Addr::to_ipv6_mapped] and [Ipv6Addr::to_ipv4_mapped] *)
Definition mapped_prefix : bytes := replicate 10 x00 ++ [xff; xff].
Definition to_ipv6_mapped (v4 : bytes) : bytes := mapped_prefix ++ v4.
Definition to_ipv4_mapped (v6 : bytes) : option bytes :=
  if bool_decide (slice v6 0 12 = mapped_prefix) then Some (slice v6 12 16) else None.

Definition serialize_socket_addr (a : SocketAddr) : bytes :=
  match a with
  | SockV4 v4 port => to_ipv6_mapped v4 ++ le_bytes 2 port
  | SockV6 v6 port _ _ => v6 ++ le_bytes 2 port
  end.
(** [SocketAddr::new] leaves flow label and scope zero. *)
Definition deserialize_socket_addr (data : bytes) : SocketAddr :=
  let v6 := slice data 0 16 in
  let port := le_val (slice data 16 18) in
  match to_ipv4_mapped v6 with
  | Some v4 => SockV4 v4 port
  | None => SockV6 v6 port 0 0
  end.

Definition serialize_addr_entry (e : AddrEntry) : bytes := serialize_socket_addr (addr e) ++ le_bytes 8 (last_seen e).
Definition deserialize_addr_entry (data : bytes) : AddrEntry :=
  {| addr := deserialize_socket_addr (slice data 0 18); last_seen := le_val (slice data 18 26) |}.

Definition serialize_addr_list (entries : list AddrEntry) : bytes :=
  let count := Z.min (len entries) MAX_ADDR_ITEMS in
  le_bytes 4 count ++ concat (map serialize_addr_entry (take (Z.to_nat count) entries)).
Definition deserialize_addr_list : bytes -> result SerError (list AddrEntry) :=
  counted_list MAX_ADDR_ITEMS ADDR_ENTRY_WIRE_SIZE deserialize_addr_entry "trailing bytes in addr list".

(** ** Frames *)

Definition message_payload (m : Message) : result SerError (byte * bytes) :=
  match m with
  | MHello h => Ok (MSG_HELLO, serialize_hello h)
  | MAuthAck a => Ok (MSG_AUTH_ACK, ack_sig a)
  | MPing => Ok (MSG_PING, [])
  | MPong => Ok (MSG_PONG, [])
  | MNewBlock b => let? p := Block_serialize b in Ok (MSG_NEW_BLOCK, p)
  | MGetBlocks hashes => Ok (MSG_GET_BLOCKS, serialize_hash_list hashes)
  | MBlockResponse b => let? p := Block_serialize b in Ok (MSG_BLOCK_RESPONSE, p)
  | MGetTip => Ok (MSG_GET_TIP, [])
  | MTipResponse t => Ok (MSG_TIP_RESPONSE, serialize_tip_response t)
  | MInv hashes => Ok (MSG_INV, serialize_hash_list hashes)
  | MNewTx tx => let? p := Transaction_serialize tx in Ok (MSG_NEW_TX, p)
  | MGetHeaders g => Ok (MSG_GET_HEADERS, serialize_get_headers g)
  | MHeaders hdrs => Ok (MSG_HEADERS, serialize_headers hdrs)
  | MGetAddr => Ok (MSG_GET_ADDR, [])
  | MAddr entries => Ok (MSG_ADDR, serialize_addr_list entries)
  end.

Definition Message_serialize (m : Message) : result SerError bytes :=
  let? (msg_type, payload) := message_payload m in
  Ok (msg_type :: le_bytes 4 (len payload) ++ payload).

(** [if !payload.is_empty() { return Err(..) }] *)
Definition empty_payload (payload : bytes) (m : Message) (msg : string) : result SerError Message :=
  if negb (len payload =? 0) then Err (InvalidData msg) else Ok m.
(** [if consumed != payload.len() { return Err(..) }] *)
Definition whole_payload {A} (dec : bytes -> result SerError (A * Z)) (mk : A -> Message) (msg : string) (payload : bytes)
  : result SerError Message :=
  let? (x, consumed) := dec payload in
  if negb (consumed =? len payload) then Err (InvalidData msg) else Ok (mk x).

(** [{:#x}] of a [u8] *)
Definition hex_digit (n : Z) : string := String.substring (Z.to_nat n) 1 "0123456789abcdef".
Definition hex_u8 (b : byte) : string :=
  let n := byte_Z b in
  "0x"%string +:+ (if n <? 16 then EmptyString else hex_digit (n / 16)) +:+ hex_digit (n mod 16).

Definition decode_payload (msg_type : byte) (payload : bytes) : result SerError Message :=
  match msg_type with
  | x01 => let? h := deserialize_hello payload in Ok (MHello h)
  | x02 => empty_payload payload MPing "Ping must have empty payload"
  | x03 => empty_payload payload MPong "Pong must have empty payload"
  | x10 => whole_payload Block_deserialize MNewBlock "trailing bytes in NewBlock payload" payload
  | x11 => let? hs := deserialize_hash_list payload in Ok (MGetBlocks hs)
  | x12 => whole_payload Block_deserialize MBlockResponse "trailing bytes in BlockResponse payload" payload
  | x13 => empty_payload payload MGetTip "GetTip must have empty payload"
  | x14 => let? t := deserialize_tip_response payload in Ok (MTipResponse t)
  | x15 => let? hs := deserialize_hash_list payload in Ok (MInv hs)
  | x20 => whole_payload Transaction_deserialize MNewTx "trailing bytes in NewTx payload" payload
  | x21 => let? g := deserialize_get_headers payload in Ok (MGetHeaders g)
  | x22 => let? hs := deserialize_headers payload in Ok (MHeaders hs)
  | x16 => empty_payload payload MGetAddr "GetAddr must have empty payload"
  | x17 => let? es := deserialize_addr_list payload in Ok (MAddr es)
  | x18 => if negb (len payload =? 64) then Err (InvalidData "AuthAck payload must be 64 bytes")
           else Ok (MAuthAck {| ack_sig := payload |})
  | _ => Err (InvalidData ("unknown message type: " +:+ hex_u8 msg_type))
  end.

Definition Message_deserialize (data : bytes) : result SerError (Message * Z) :=
  if len data <? 5 then Err UnexpectedEof
  else
    let msg_type := byte_at data 0 in
    let payload_len := le_val (slice data 1 5) in
    if MAX_MESSAGE_SIZE <? payload_len then Err (InvalidData "message too large")
    else if len data <? 5 + payload_len then Err UnexpectedEof
    else
      let payload := slice data 5 (5 + payload_len) in
      let? msg := decode_payload msg_type payload in
      Ok (msg, 5 + payload_len).

(** ** Handshake transcripts *)

Definition tip_commitment (best_height : Z) (best_block_id : Hash256) (cumulative_work : bytes) : bytes :=
  le_bytes 8 best_height ++ best_block_id ++ cumulative_work.

Definition auth_preimage (genesis_id : Hash256) (version : Z) (nonce_a nonce_b : bytes) (role : byte) (tip_a tip_b : bytes) : bytes :=
  DS_AUTH ++ genesis_id ++ le_bytes 4 version ++ nonce_a ++ nonce_b ++ [role] ++ tip_a ++ tip_b.
Definition session_transcript (genesis_id : Hash256) (version : Z) (nonce_a nonce_b : bytes) : bytes :=
  DS_AUTH ++ genesis_id ++ le_bytes 4 version ++ nonce_a ++ nonce_b.

Section Transcripts.
Context `{Sha2}.
Definition compute_auth_transcript (genesis_id : Hash256) (version : Z) (nonce_a nonce_b : bytes) (role : byte) (tip_a tip_b : bytes) : bytes :=
  sha2_digest (auth_preimage genesis_id version nonce_a nonce_b role tip_a tip_b).
Definition compute_session_key (genesis_id : Hash256) (version : Z) (nonce_a nonce_b dh_shared_secret : bytes) : bytes :=
  let transcript := sha2_digest (session_transcript genesis_id version nonce_a nonce_b) in
  sha2_digest (DS_SESSION ++ transcript ++ dh_shared_secret).
End Transcripts.

(** ** Routable addresses *)

Definition octet (o : bytes) (i : Z) : Z := byte_Z (byte_at o i).

Section V4.
Context (o : bytes).
Abbreviation o0 := (octet o 0).
Abbreviation o1 := (octet o 1).
Abbreviation o2 := (octet o 2).
(** The standard library's classification of [Ipv4Addr]. *)
Definition v4_is_loopback : bool := o0 =? 127.
Definition v4_is_private : bool :=
  (o0 =? 10) || ((o0 =? 172) && (16 <=? o1) && (o1 <=? 31)) || ((o0 =? 192) && (o1 =? 168)).
Definition v4_is_link_local : bool := (o0 =? 169) && (o1 =? 254).
Definition v4_is_broadcast : bool := (o0 =? 255) && (o1 =? 255) && (o2 =? 255) && (octet o 3 =? 255).

Definition routable_v4 : bool :=
  negb (v4_is_loopback || v4_is_private || v4_is_link_local || v4_is_broadcast
        || (o0 =? 0)
        || ((o0 =? 100) && (Z.land o1 0xC0 =? 64))
        || ((o0 =? 192) && (o1 =? 0) && (o2 =? 0))
        || ((o0 =? 192) && (o1 =? 0) && (o2 =? 2))
        || ((o0 =? 198) && (o1 =? 51) && (o2 =? 100))
        || ((o0 =? 203) && (o1 =? 0) && (o2 =? 113))
        || ((o0 =? 198) && (Z.land o1 0xFE =? 18))
        || (224 <=? o0)).
End V4.

Section V6.
Context (o : bytes).
(** [v6.segments()[i]] *)
Definition segment (i : Z) : Z := octet o (2 * i) * 256 + octet o (2 * i + 1).
Definition v6_is_loopback : bool := bool_decide (o = replicate 15 x00 ++ [x01]).
Definition v6_is_unspecified : bool := bool_decide (o = replicate 16 x00).
Definition v6_is_multicast : bool := Z.land (segment 0) 0xff00 =? 0xff00.

Definition routable_v6 : bool :=
  negb v6_is_loopback && negb v6_is_unspecified && negb v6_is_multicast
  && negb (Z.land (segment 0) 0xffc0 =? 0xfe80)
  && negb (Z.land (segment 0) 0xfe00 =? 0xfc00)
  && negb ((segment 0 =? 0x0100) && (segment 1 =? 0) && (segment 2 =? 0) && (segment 3 =? 0))
  && negb ((segment 0 =? 0x2001) && (segment 1 =? 0x0db8))
  && negb ((segment 0 =? 0x2001) && (segment 1 =? 0x0000))
  && negb ((segment 0 =? 0x0064) && (segment 1 =? 0xff9b)).
End V6.

Definition is_routable (a : SocketAddr) : bool :=
  match a with
  | SockV4 v4 port => if port =? 0 then false else routable_v4 v4
  | SockV6 v6 port _ _ =>
      if port =? 0 then false
      else match to_ipv4_mapped v6 with Some v4 => routable_v4 v4 | None => routable_v6 v6 end
  end.

(** ** Codecs of fixed size *)

(** [enc] and [dec] are inverse between the well-formed values and the strings
    of [size] bytes. *)
Class FixedCodec {A} (wf : A -> Prop) (size : Z) (enc : A -> bytes) (dec : bytes -> A) : Prop := {
  fixed_pos : 0 <= size;
  fixed_encodes x : wf x -> len (enc x) = size /\ dec (enc x) = x;
  fixed_decodes b : len b = size -> wf (dec b) /\ enc (dec b) = b
}.

Section Counted.
Context {A : Type} {wf : A -> Prop} {size : Z} {enc : A -> bytes} {dec : bytes -> A} `{!FixedCodec wf size enc dec}.

(** The items from an offset on. *)
Definition items_at (off : Z) (n : nat) (data : bytes) : list A :=
  map (fun i => dec (slice data (off + Z.of_nat i * size) (off + Z.of_nat i * size + size))) (seq 0 n).
Lemma items_at_S off n data : items_at off (S n) data = dec (slice data off (off + size)) :: items_at (off + size) n data.
Proof.
  unfold items_at. cbn [seq map]. rewrite Z.mul_0_l, Z.add_0_r. f_equal. rewrite <- seq_shift, map_map.
  apply map_ext. intros i. f_equal. f_equal; lia.
Qed.

Lemma items_at_enc xs pre rest :
  Forall wf xs -> items_at (len pre) (length xs) (pre ++ concat (map enc xs) ++ rest) = xs.
Proof.
  intros Hxs. revert pre. induction Hxs as [|x xs Hx _ IH]; intros pre; [done|]. cbn [length map concat]. rewrite items_at_S.
  destruct (fixed_encodes x Hx) as [Hl Hd]. f_equal.
  - rewrite <- app_assoc, slice_mid by lia. exact Hd.
  - rewrite <- app_assoc, (app_assoc pre). replace (len pre + size) with (len (pre ++ enc x)) by len_lia. apply IH.
Qed.
Lemma items_at_dec n off data :
  0 <= off -> len data = off + Z.of_nat n * size ->
  Forall wf (items_at off n data) /\ length (items_at off n data) = n /\
  slice_from data off = concat (map enc (items_at off n data)).
Proof.
  pose proof fixed_pos as Hsize. revert off. induction n as [|n IH]; intros off Hoff Hlen.
  - split_and!; [constructor|done|]. apply len_0. unfold slice_from, len in *. rewrite length_drop. lia.
  - rewrite items_at_S. destruct (IH (off + size)) as (Hwf & Hn & Hs); [lia|lia|].
    destruct (split_len data off) as (a & r & -> & Ha); [lia|]. destruct (split_len r size) as (b & r' & -> & Hb); [len_lia|].
    rewrite slice_mid by lia. destruct (fixed_decodes b Hb) as [Hw He].
    split_and!; [by constructor|by cbn; rewrite Hn|]. cbn [map concat]. rewrite He, <- Hs, slice_from_add, !slice_from_app by (done || lia).
    done.
Qed.

Lemma counted_list_enc max msg xs :
  Forall wf xs -> len xs <= max -> max <= U32_MAX ->
  counted_list max size dec msg (le_bytes 4 (len xs) ++ concat (map enc xs)) = Ok xs.
Proof.
  intros Hxs Hn Hmax. pose proof (len_nonneg xs). pose proof fixed_pos as Hsize. unfold counted_list. rewrite slice_app by len_lia.
  rewrite le_val_bytes by (change (256 ^ Z.of_nat 4) with (U32_MAX + 1); lia).
  assert (len (concat (map enc xs)) = len xs * size) as Hc.
  { clear Hn Hmax. induction Hxs as [|x xs Hx _ IH]; [done|]. cbn [map concat]. rewrite len_app, len_cons, (proj1 (fixed_encodes x Hx)), IH; [lia|apply len_nonneg]. }
  assert (len (le_bytes 4 (len xs) ++ concat (map enc xs)) = 4 + len xs * size) as Hl by (rewrite len_app, Hc, len_le_bytes; lia).
  rewrite Hl, !(proj2 (Z.ltb_ge _ _)) by lia. rewrite Z.eqb_refl. cbn [negb]. f_equal.
  rewrite to_nat_len. pose proof (items_at_enc xs (le_bytes 4 (len xs)) [] Hxs) as Hi. rewrite app_nil_r in Hi.
  replace (len (le_bytes 4 (len xs))) with 4 in Hi by len_lia. exact Hi.
Qed.
Lemma counted_list_dec max msg data xs :
  counted_list max size dec msg data = Ok xs ->
  Forall wf xs /\ len xs <= max /\ data = le_bytes 4 (len xs) ++ concat (map enc xs).
Proof.
  unfold counted_list. intros Hd. inv_res. apply negb_false_iff, Z.eqb_eq in E2. apply Z.ltb_ge in E0.
  destruct (split_len data 4) as (c & r & -> & Hc); [lia|]. rewrite slice_app in * by done.
  pose proof (le_val_range c) as Hr.
  destruct (items_at_dec (Z.to_nat (le_val c)) 4 (c ++ r)) as (Hwf & Hn & Hs); [lia|rewrite Z2Nat.id by lia; exact E2|].
  change (read_items size dec (Z.to_nat (le_val c)) (c ++ r)) with (items_at 4 (Z.to_nat (le_val c)) (c ++ r)).
  assert (len (items_at 4 (Z.to_nat (le_val c)) (c ++ r)) = le_val c) as Hl by (unfold len; lia).
  rewrite slice_from_app in Hs by done. split_and!; [done|lia|]. rewrite Hl, <- Hs, le_bytes_val by done. done.
Qed.
End Counted.

#[export] Instance hash_fixed : FixedCodec hash_wf 32 (fun h => h) (fun h => h).
Proof. split; [lia|by intros x Hx|by intros b Hb]. Qed.
#[export] Instance header_fixed : FixedCodec BlockHeader_wf HEADER_SIZE BlockHeader_serialize BlockHeader_deserialize.
Proof.
  split; [done|intros h Hh; split; [by apply len_header|by apply header_decodes_encoding]|].
  intros b Hb. by apply header_encodes_decoding.
Qed.

(** Addresses as they come off the wire: a V6 address is not a mapped V4 one. *)
Definition SocketAddr_wf (a : SocketAddr) : Prop :=
  match a with
  | SockV4 o port => len o = 4 /\ 0 <= port < 65536
  | SockV6 o port flowinfo scope_id =>
      len o = 16 /\ 0 <= port < 65536 /\ flowinfo = 0 /\ scope_id = 0 /\ to_ipv4_mapped o = None
  end.
Definition AddrEntry_wf (e : AddrEntry) : Prop := SocketAddr_wf (addr e) /\ in_u64 (last_seen e).

Lemma to_ipv4_mapped_Some o v4 : len o = 16 -> to_ipv4_mapped o = Some v4 <-> o = to_ipv6_mapped v4 /\ len v4 = 4.
Proof.
  intros Ho. destruct (split_len o 12) as (a & b & -> & Ha); [lia|]. assert (len b = 4) by len_lia.
  unfold to_ipv4_mapped, to_ipv6_mapped. rewrite slice_app, slice_tail by len_lia. split.
  - case_bool_decide as Hp; [|done]. intros [= <-]. by rewrite Hp.
  - intros [E Hv]. apply app_inv_len in E as [-> ->]; [|done]. by rewrite bool_decide_true.
Qed.
Lemma socket_addr_codec a : SocketAddr_wf a ->
  len (serialize_socket_addr a) = 18 /\ deserialize_socket_addr (serialize_socket_addr a) = a.
Proof.
  destruct a as [o port|o port f s]; cbn [SocketAddr_wf serialize_socket_addr].
  - intros [Ho Hp]. assert (len (to_ipv6_mapped o) = 16) as Hm by (unfold to_ipv6_mapped; rewrite len_app, Ho; done). split; [len_lia|].
    unfold deserialize_socket_addr. rewrite slice_app, slice_tail by len_lia. rewrite le_val_bytes by done.
    rewrite (proj2 (to_ipv4_mapped_Some (to_ipv6_mapped o) o Hm)) by done. done.
  - intros (Ho & Hp & -> & -> & Hm). split; [len_lia|]. unfold deserialize_socket_addr. rewrite slice_app, slice_tail by len_lia.
    by rewrite le_val_bytes, Hm.
Qed.
Lemma socket_addr_decodes b : len b = 18 ->
  SocketAddr_wf (deserialize_socket_addr b) /\ serialize_socket_addr (deserialize_socket_addr b) = b.
Proof.
  intros Hb. destruct (split_len b 16) as (o & p & -> & Ho); [lia|]. assert (len p = 2) as Hp by len_lia.
  unfold deserialize_socket_addr. rewrite slice_app, slice_tail by len_lia. pose proof (le_val_range p) as Hr. rewrite Hp in Hr.
  destruct (to_ipv4_mapped o) as [v4|] eqn:Em.
  - apply to_ipv4_mapped_Some in Em as [-> Hv]; [|done]. split; [done|]. cbn [serialize_socket_addr]. by rewrite le_bytes_val.
  - split; [done|]. cbn [serialize_socket_addr]. by rewrite le_bytes_val.
Qed.
#[export] Instance addr_entry_fixed : FixedCodec AddrEntry_wf ADDR_ENTRY_WIRE_SIZE serialize_addr_entry deserialize_addr_entry.
Proof.
  unfold ADDR_ENTRY_WIRE_SIZE, serialize_addr_entry, deserialize_addr_entry. split; [lia|..].
  - intros [a t] [Ha Ht]. cbn [addr last_seen] in *. destruct (socket_addr_codec a Ha) as [Hl Hd]. split; [len_lia|].
    rewrite slice_app, slice_tail, Hd by len_lia. by rewrite le_val_bytes by (unfold in_u64, U64_MAX in Ht; cbn; lia).
  - intros b Hb. destruct (split_len b 18) as (a & t & -> & Ha); [lia|]. assert (len t = 8) as Ht by len_lia.
    rewrite slice_app, slice_tail by len_lia. destruct (socket_addr_decodes a Ha) as [Hw He]. pose proof (len_pow256 8 t Ht) as Hr.
    unfold AddrEntry_wf. cbn [addr last_seen]. rewrite He, le_bytes_val by done. split; [|done]. split; [done|].
    unfold in_u64, U64_MAX. simpl in Hr. lia.
Qed.

(** Three sequences of fixed-width fields. *)
Definition HelloMsg_wf (h : HelloMsg) : Prop :=
  in_u32 (hello_version h) /\ hash_wf (genesis_block_id h) /\ in_u64 (best_height h) /\ hash_wf (best_block_id h) /\
  len (hello_work h) = 32 /\ len (hello_nonce h) = 32 /\ len (echo h) = 32 /\ len (hello_pubkey h) = 32 /\ len (hello_sig h) = 64.
Definition TipResponseMsg_wf (t : TipResponseMsg) : Prop := in_u64 (tip_height t) /\ hash_wf (tip_block_id t) /\ len (tip_work t) = 32.
Definition GetHeadersMsg_wf (g : GetHeadersMsg) : Prop := in_u64 (start_height g) /\ in_u32 (max_count g).

(** Read consecutive fields of fixed width. *)
Ltac read_fields := repeat first [rewrite slice_all by lia | rewrite slice_head by lia | rewrite slice_skip by lia].
Ltac take_field data n x Hx :=
  let r := fresh "r" in destruct (split_len data n) as (x & r & -> & Hx); [len_lia|]; rename r into data.

Lemma hello_fields v g h b w n e k s :
  len v = 4 -> len g = 32 -> len h = 8 -> len b = 32 -> len w = 32 -> len n = 32 -> len e = 32 -> len k = 32 -> len s = 64 ->
  deserialize_hello (v ++ g ++ h ++ b ++ w ++ n ++ e ++ k ++ s) =
  Ok {| hello_version := le_val v; genesis_block_id := g; best_height := le_val h; best_block_id := b; hello_work := w;
        hello_nonce := n; echo := e; hello_pubkey := k; hello_sig := s |}.
Proof.
  intros. unfold deserialize_hello, HELLO_V4_PAYLOAD_SIZE.
  replace (len (v ++ g ++ h ++ b ++ w ++ n ++ e ++ k ++ s)) with 268 by len_lia. cbn -[slice le_val].
  repeat (f_equal; []). f_equal; try (f_equal; []); read_fields; done.
Qed.

Lemma hello_encodes h : HelloMsg_wf h -> deserialize_hello (serialize_hello h) = Ok h.
Proof.
  destruct h as [v g ht b w n e k s]. unfold HelloMsg_wf, in_u32, in_u64, hash_wf, U32_MAX, U64_MAX, serialize_hello. simpl.
  intros (Hv & Hg & Hh & Hb & Hw & Hn & He & Hk & Hs). rewrite hello_fields by (done || apply len_le_bytes).
  by rewrite !le_val_bytes by (simpl; lia).
Qed.

Lemma hello_decodes_full data h : len data = 268 -> deserialize_hello data = Ok h -> HelloMsg_wf h /\ serialize_hello h = data.
Proof.
  intros Hl. take_field data 4 v Hv. take_field data 32 g Hg. take_field data 8 ht Hh. take_field data 32 b Hb. take_field data 32 w Hw.
  take_field data 32 n Hn. take_field data 32 e He. take_field data 32 k Hk. assert (len data = 64) as Hs by len_lia.
  rewrite hello_fields by done. intros [= <-]. pose proof (len_pow256 4 v Hv). pose proof (len_pow256 8 ht Hh).
  unfold HelloMsg_wf, serialize_hello, in_u32, in_u64, hash_wf, U32_MAX, U64_MAX. simpl in *.
  rewrite !le_bytes_val by done. split; [split_and!; done || lia|done].
Qed.

Lemma slice_within {A} (a r : list A) i j : 0 <= i -> j <= len a -> slice (a ++ r) i j = slice a i j.
Proof.
  intros Hi Hj. unfold slice, len in *. destruct (decide (Z.to_nat i <= length a)%nat).
  - rewrite drop_app_le by done. apply take_app_le. rewrite length_drop. lia.
  - replace (Z.to_nat (j - i)) with 0%nat by lia. done.
Qed.
Lemma slice_replicate {A} (x : A) n i j : 0 <= i -> i <= j -> j <= Z.of_nat n -> slice (replicate n x) i j = replicate (Z.to_nat (j - i)) x.
Proof. intros Hi Hij Hj. unfold slice. rewrite drop_replicate, take_replicate. f_equal. lia. Qed.

(** A legacy Hello is read as if its missing fields were zero. *)
Definition padded (data : bytes) : bytes := data ++ replicate (Z.to_nat (268 - len data)) x00.
Lemma hello_legacy data : len data = 108 \/ len data = 172 -> deserialize_hello data = deserialize_hello (padded data).
Proof.
  intros Hl. assert (len (padded data) = 268) as Hp by (unfold padded; destruct Hl as [Hl|Hl]; rewrite len_app, Hl; done).
  unfold deserialize_hello. rewrite Hp. unfold padded, HELLO_V4_PAYLOAD_SIZE.
  destruct Hl as [Hl|Hl]; rewrite Hl; cbn -[slice le_val replicate];
    rewrite ?(slice_within data) by lia; rewrite ?(slice_skip data) by lia; rewrite ?slice_replicate by lia; rewrite ?Hl; done.
Qed.
Lemma hello_decodes data h : deserialize_hello data = Ok h ->
  HelloMsg_wf h /\ serialize_hello h = padded data /\ (len data = 108 \/ len data = 172 \/ len data = 268).
Proof.
  intros Hd. assert (len data = 108 \/ len data = 172 \/ len data = 268) as Hl.
  { unfold deserialize_hello, HELLO_V4_PAYLOAD_SIZE in Hd. destruct (Z.ltb_spec (len data) 108); [done|].
    destruct (Z.eqb_spec (len data) 108); [by left|]. destruct (Z.eqb_spec (len data) 172); [by right; left|].
    destruct (Z.eqb_spec (len data) 268); [by right; right|done]. }
  assert (len (padded data) = 268) as Hp by (unfold padded; rewrite len_app; destruct Hl as [Hl|[Hl|Hl]]; rewrite Hl; done).
  assert (HelloMsg_wf h /\ serialize_hello h = padded data) as [Hwf He]; [|done].
  apply hello_decodes_full; [done|]. destruct Hl as [Hl|[Hl|Hl]].
  - by rewrite <- hello_legacy by auto.
  - by rewrite <- hello_legacy by auto.
  - unfold padded. rewrite Hl. by rewrite app_nil_r.
Qed.

Lemma tip_response_codec t : TipResponseMsg_wf t -> deserialize_tip_response (serialize_tip_response t) = Ok t.
Proof.
  destruct t as [h b w]. unfold TipResponseMsg_wf, in_u64, U64_MAX, hash_wf, deserialize_tip_response, serialize_tip_response. simpl.
  intros (Hh & Hb & Hw). replace (len (le_bytes 8 h ++ b ++ w)) with 72 by len_lia. cbn -[slice le_val].
  rewrite slice_head, slice_mid by len_lia. rewrite (app_assoc (le_bytes 8 h)), slice_tail by len_lia.
  by rewrite le_val_bytes by (simpl; lia).
Qed.
Lemma tip_response_decodes data t : deserialize_tip_response data = Ok t -> TipResponseMsg_wf t /\ serialize_tip_response t = data.
Proof.
  unfold deserialize_tip_response. intros Hd. inv_res. apply negb_false_iff, Z.eqb_eq in E0. clear E.
  take_field data 8 h Hh. take_field data 32 b Hb. assert (len data = 32) by len_lia. pose proof (len_pow256 8 h Hh).
  read_fields. unfold TipResponseMsg_wf, serialize_tip_response, in_u64, hash_wf, U64_MAX. simpl in *. rewrite le_bytes_val by done.
  split; [split_and!; done || lia|done].
Qed.
Lemma get_headers_codec g : GetHeadersMsg_wf g -> deserialize_get_headers (serialize_get_headers g) = Ok g.
Proof.
  destruct g as [h c]. unfold GetHeadersMsg_wf, in_u64, in_u32, U64_MAX, U32_MAX, deserialize_get_headers, serialize_get_headers. simpl.
  intros (Hh & Hc). replace (len (le_bytes 8 h ++ le_bytes 4 c)) with 12 by len_lia. cbn -[slice le_val].
  rewrite slice_head, slice_tail by len_lia. by rewrite !le_val_bytes by (simpl; lia).
Qed.
Lemma get_headers_decodes data g : deserialize_get_headers data = Ok g -> GetHeadersMsg_wf g /\ serialize_get_headers g = data.
Proof.
  unfold deserialize_get_headers. intros Hd. inv_res. apply negb_false_iff, Z.eqb_eq in E0. clear E.
  take_field data 8 h Hh. assert (len data = 4) as Hc by len_lia. pose proof (len_pow256 8 h Hh). pose proof (len_pow256 4 data Hc).
  read_fields. unfold GetHeadersMsg_wf, serialize_get_headers, in_u64, in_u32, U64_MAX, U32_MAX. simpl in *. rewrite !le_bytes_val by done.
  split; [split_and!; done || lia|done].
Qed.

(** ** The message codec *)

Definition parts_wf (m : Message) : Prop :=
  match m with
  | MHello h => HelloMsg_wf h
  | MAuthAck a => len (ack_sig a) = 64
  | MNewBlock b | MBlockResponse b => Block_wf b
  | MGetBlocks hs | MInv hs => Forall hash_wf hs /\ len hs <= MAX_GETBLOCKS_ITEMS
  | MTipResponse t => TipResponseMsg_wf t
  | MNewTx tx => Transaction_wf tx
  | MGetHeaders g => GetHeadersMsg_wf g
  | MHeaders hs => Forall BlockHeader_wf hs /\ len hs <= MAX_GETBLOCKS_ITEMS
  | MAddr es => Forall AddrEntry_wf es /\ len es <= MAX_ADDR_ITEMS
  | MPing | MPong | MGetTip | MGetAddr => True
  end.
(** The payload fits a frame. *)
Definition Message_wf (m : Message) : Prop :=
  parts_wf m /\ forall t p, message_payload m = Ok (t, p) -> len p <= MAX_MESSAGE_SIZE.

Lemma whole_payload_codec {A} (wf : A -> Prop) (enc : A -> result SerError bytes) dec (mk : A -> Message) msg `{!Codec wf enc dec} x :
  wf x -> exists p, enc x = Ok p /\ whole_payload dec mk msg p = Ok (mk x).
Proof.
  intros Hx. destruct (codec_encodes x Hx) as (p & Ep & Hd). exists p. split; [done|]. specialize (Hd []). rewrite app_nil_r in Hd.
  unfold whole_payload. by rewrite Hd, Z.eqb_refl.
Qed.
Lemma whole_payload_decodes {A} (wf : A -> Prop) (enc : A -> result SerError bytes) dec (mk : A -> Message) msg `{!Codec wf enc dec} p m :
  whole_payload dec mk msg p = Ok m -> exists x, m = mk x /\ wf x /\ enc x = Ok p.
Proof.
  unfold whole_payload. destruct (dec p) as [[x n]|] eqn:Ed; [|done]. destruct (n =? len p) eqn:En; [|done]. intros [= <-].
  apply Z.eqb_eq in En. subst n. apply codec_decodes in Ed as (Hx & b & rest & Eb & -> & Hl). exists x. split_and!; [done|done|].
  assert (rest = []) as -> by (apply len_0; rewrite len_app in Hl; pose proof (len_nonneg rest); lia). by rewrite app_nil_r.
Qed.

Lemma hash_list_encodes hs : Forall hash_wf hs -> len hs <= MAX_GETBLOCKS_ITEMS -> deserialize_hash_list (serialize_hash_list hs) = Ok hs.
Proof.
  intros Hh Hn. unfold deserialize_hash_list, serialize_hash_list. rewrite <- (map_id hs) at 2.
  by rewrite (counted_list_enc (enc := fun h => h)).
Qed.
Lemma hash_list_decodes data hs : deserialize_hash_list data = Ok hs ->
  Forall hash_wf hs /\ len hs <= MAX_GETBLOCKS_ITEMS /\ serialize_hash_list hs = data.
Proof.
  intros (Hh & Hn & ->)%(counted_list_dec (enc := fun h => h)). split_and!; [done|done|]. unfold serialize_hash_list. by rewrite map_id.
Qed.
Lemma addr_list_encodes es : Forall AddrEntry_wf es -> len es <= MAX_ADDR_ITEMS -> deserialize_addr_list (serialize_addr_list es) = Ok es.
Proof.
  intros He Hn. unfold deserialize_addr_list, serialize_addr_list. rewrite Z.min_l by done. rewrite to_nat_len, firstn_all.
  by rewrite (counted_list_enc (enc := serialize_addr_entry)).
Qed.
Lemma addr_list_decodes data es : deserialize_addr_list data = Ok es ->
  Forall AddrEntry_wf es /\ len es <= MAX_ADDR_ITEMS /\ serialize_addr_list es = data.
Proof.
  intros (He & Hn & ->)%(counted_list_dec (enc := serialize_addr_entry)). split_and!; [done|done|].
  unfold serialize_addr_list. rewrite Z.min_l by done. by rewrite to_nat_len, firstn_all.
Qed.

Lemma payload_encodes m : parts_wf m -> exists t p, message_payload m = Ok (t, p) /\ decode_payload t p = Ok m.
Proof.
  destruct m as [h|a| | |b|hs|b| |t|hs|tx|g|hs| |es]; cbn [parts_wf message_payload]; intros Hwf.
  - do 2 eexists. split; [done|]. cbn [decode_payload MSG_HELLO]. by rewrite hello_encodes.
  - do 2 eexists. split; [done|]. cbn [decode_payload MSG_AUTH_ACK]. rewrite Hwf. by destruct a.
  - by do 2 eexists.
  - by do 2 eexists.
  - destruct (whole_payload_codec _ _ _ MNewBlock "trailing bytes in NewBlock payload" b Hwf) as (p & -> & Hd). by do 2 eexists.
  - destruct Hwf as [Hh Hn]. do 2 eexists. split; [done|]. cbn [decode_payload MSG_GET_BLOCKS]. by rewrite hash_list_encodes.
  - destruct (whole_payload_codec _ _ _ MBlockResponse "trailing bytes in BlockResponse payload" b Hwf) as (p & -> & Hd). by do 2 eexists.
  - by do 2 eexists.
  - do 2 eexists. split; [done|]. cbn [decode_payload MSG_TIP_RESPONSE]. by rewrite tip_response_codec.
  - destruct Hwf as [Hh Hn]. do 2 eexists. split; [done|]. cbn [decode_payload MSG_INV]. by rewrite hash_list_encodes.
  - destruct (whole_payload_codec _ _ _ MNewTx "trailing bytes in NewTx payload" tx Hwf) as (p & -> & Hd). by do 2 eexists.
  - do 2 eexists. split; [done|]. cbn [decode_payload MSG_GET_HEADERS]. by rewrite get_headers_codec.
  - destruct Hwf as [Hh Hn]. do 2 eexists. split; [done|]. cbn [decode_payload MSG_HEADERS].
    unfold deserialize_headers, serialize_headers. by rewrite (counted_list_enc (enc := BlockHeader_serialize)).
  - by do 2 eexists.
  - destruct Hwf as [Hh Hn]. do 2 eexists. split; [done|]. cbn [decode_payload MSG_ADDR]. by rewrite addr_list_encodes.
Qed.

(** A Hello of an old version, whose encoding is the zero-padded one. *)
Definition legacy (t : byte) (p q : bytes) : Prop := t = MSG_HELLO /\ (len p = 108 \/ len p = 172) /\ q = padded p.

Lemma empty_payload_Ok p m msg m' : empty_payload p m msg = Ok m' -> p = [] /\ m' = m.
Proof. unfold empty_payload. destruct (len p =? 0) eqn:E; [|done]. intros [= <-]. by apply Z.eqb_eq, len_0 in E. Qed.
(** The encoder of a decoded payload gives the payload back. *)
Ltac exact_payload := eexists; split; [reflexivity|by left].

Lemma payload_decodes t p m : decode_payload t p = Ok m ->
  parts_wf m /\ exists q, message_payload m = Ok (t, q) /\ (q = p \/ legacy t p q).
Proof.
  unfold decode_payload. intros Hd. destruct t; try discriminate Hd;
    try (apply empty_payload_Ok in Hd as [-> ->]; split; [done|exact_payload]).
  - destruct (deserialize_hello p) as [h|] eqn:E; [|discriminate Hd]. injection Hd as <-.
    apply hello_decodes in E as (Hwf & He & Hl). split; [done|]. exists (padded p). cbn [message_payload]. rewrite He. split; [done|].
    destruct Hl as [Hl|[Hl|Hl]]; [right; split_and!; auto..|left]. unfold padded. rewrite Hl. apply app_nil_r.
  - apply (whole_payload_decodes _ _ _ _ _) in Hd as (b & -> & Hwf & E). split; [done|]. cbn [message_payload]. rewrite E. exact_payload.
  - destruct (deserialize_hash_list p) as [hs|] eqn:E; [|discriminate Hd]. injection Hd as <-.
    apply hash_list_decodes in E as (? & ? & <-). split; [done|exact_payload].
  - apply (whole_payload_decodes _ _ _ _ _) in Hd as (b & -> & Hwf & E). split; [done|]. cbn [message_payload]. rewrite E. exact_payload.
  - destruct (deserialize_tip_response p) as [t|] eqn:E; [|discriminate Hd]. injection Hd as <-.
    apply tip_response_decodes in E as (? & <-). split; [done|exact_payload].
  - destruct (deserialize_hash_list p) as [hs|] eqn:E; [|discriminate Hd]. injection Hd as <-.
    apply hash_list_decodes in E as (? & ? & <-). split; [done|exact_payload].
  - destruct (deserialize_addr_list p) as [es|] eqn:E; [|discriminate Hd]. injection Hd as <-.
    apply addr_list_decodes in E as (? & ? & <-). split; [done|exact_payload].
  - destruct (len p =? 64) eqn:E; [|discriminate Hd]. injection Hd as <-. apply Z.eqb_eq in E. split; [done|exact_payload].
  - apply (whole_payload_decodes _ _ _ _ _) in Hd as (b & -> & Hwf & E). split; [done|]. cbn [message_payload]. rewrite E. exact_payload.
  - destruct (deserialize_get_headers p) as [g|] eqn:E; [|discriminate Hd]. injection Hd as <-.
    apply get_headers_decodes in E as (? & <-). split; [done|exact_payload].
  - destruct (deserialize_headers p) as [hs|] eqn:E; [|discriminate Hd]. injection Hd as <-.
    apply (counted_list_dec (enc := BlockHeader_serialize)) in E as (? & ? & ->). split; [done|exact_payload].
Qed.

(** The wire codec is exact.  A well-formed message that fits a frame is encoded
    as a frame that decodes to it and to its length, whatever follows in the
    stream; and whatever the decoder accepts is a well-formed message whose
    payload fits a frame and whose encoding is the bytes consumed, except for
    the Hellos of old versions (108 or 172 bytes), which are read as if their
    missing fields were zero. *)
Theorem message_codec_correct :
  (forall m, Message_wf m -> exists b, Message_serialize m = Ok b /\
     forall rest, Message_deserialize (b ++ rest) = Ok (m, len b)) /\
  (forall data m n, Message_deserialize data = Ok (m, n) ->
     Message_wf m /\
     exists t p q rest, data = t :: le_bytes 4 (len p) ++ p ++ rest /\ n = 5 + len p /\ len p <= MAX_MESSAGE_SIZE /\
       Message_serialize m = Ok (t :: le_bytes 4 (len q) ++ q) /\ (q = p \/ legacy t p q)).
Proof.
  split.
  - intros m [Hwf Hmax]. destruct (payload_encodes m Hwf) as (t & p & Ep & Hd). specialize (Hmax t p Ep). pose proof (len_nonneg p) as Hp.
    unfold Message_serialize. rewrite Ep. eexists. split; [done|]. intros rest. unfold Message_deserialize, MAX_MESSAGE_SIZE in *.
    change (byte_at ((t :: le_bytes 4 (len p) ++ p) ++ rest) 0) with t.
    replace ((t :: le_bytes 4 (len p) ++ p) ++ rest) with ([t] ++ le_bytes 4 (len p) ++ p ++ rest) by (cbn; by rewrite <- app_assoc).
    rewrite slice_mid by len_lia. rewrite le_val_bytes by (change (256 ^ Z.of_nat 4) with 4294967296; lia).
    rewrite !(proj2 (Z.ltb_ge _ _)) by len_lia. rewrite (app_assoc [t]), slice_mid by len_lia. rewrite Hd. do 2 f_equal. len_lia.
  - intros data m n. unfold Message_deserialize. intros Hd. inv_res. rewrite Z.ltb_ge in *.
    destruct data as [|t data]; [by vm_compute in E|]. take_field data 4 c Hc. rewrite len_cons in *. change (t :: c ++ data) with ([t] ++ c ++ data) in *.
    rewrite slice_mid in * by len_lia. pose proof (le_val_range c) as Hr. take_field data (le_val c) p Hp.
    rewrite (slice_mid [t] c (p ++ data) 1 5) in E2 by len_lia. rewrite (app_assoc [t]), slice_mid in E2 by len_lia. apply payload_decodes in E2 as (Hwf & q & Eq & Hq).
    change (byte_at ([t] ++ c ++ p ++ data) 0) with t in *.
    assert (len q <= MAX_MESSAGE_SIZE) as Hlq.
    { destruct Hq as [->|(_ & Hl & ->)]; [lia|]. unfold padded. destruct Hl as [Hl|Hl]; rewrite len_app, Hl; vm_compute; discriminate. }
    split; [split; [done|]; intros t' p' Ep'; rewrite Eq in Ep'; by injection Ep' as _ <-|].
    exists t, p, q, data. rewrite Hp, le_bytes_val by done. split_and!; [done|done|lia| |done]. unfold Message_serialize. by rewrite Eq.
Qed.

(** ** Handshakes *)

Lemma tip_commitment_inj h1 b1 w1 h2 b2 w2 :
  in_u64 h1 -> in_u64 h2 -> hash_wf b1 -> hash_wf b2 ->
  tip_commitment h1 b1 w1 = tip_commitment h2 b2 w2 -> h1 = h2 /\ b1 = b2 /\ w1 = w2.
Proof.
  unfold tip_commitment, in_u64, U64_MAX, hash_wf. intros Hh1 Hh2 Hb1 Hb2 E.
  apply app_inv_len in E as [Eh E]; [|len_lia]. apply app_inv_len in E as [-> ->]; [|congruence].
  split_and!; [|done..]. rewrite <- (le_val_bytes 8 h1), <- (le_val_bytes 8 h2), Eh by (simpl; lia). done.
Qed.

(** A signed handshake binds everything it speaks of: two transcripts of the same
    hash have the same chain, version, nonces, role and both tips (height, block
    and work), unless the two hashed strings collide; so a signature made as
    responder is never one of an initiator, and no claim about a tip can be
    changed under a signature. *)
Theorem auth_transcript_binding `{Sha2} (g1 g2 : Hash256) (v1 v2 : Z) (a1 a2 b1 b2 : bytes) (r1 r2 : byte)
    (ha1 ha2 hb1 hb2 : Z) (ia1 ia2 ib1 ib2 : Hash256) (wa1 wa2 wb1 wb2 : bytes) :
  let tip_a1 := tip_commitment ha1 ia1 wa1 in let tip_b1 := tip_commitment hb1 ib1 wb1 in
  let tip_a2 := tip_commitment ha2 ia2 wa2 in let tip_b2 := tip_commitment hb2 ib2 wb2 in
  Forall hash_wf [g1; g2; a1; a2; b1; b2; ia1; ia2; ib1; ib2; wa1; wa2; wb1; wb2] -> in_u32 v1 -> in_u32 v2 ->
  Forall in_u64 [ha1; ha2; hb1; hb2] ->
  collision_free [auth_preimage g1 v1 a1 b1 r1 tip_a1 tip_b1] [auth_preimage g2 v2 a2 b2 r2 tip_a2 tip_b2] ->
  compute_auth_transcript g1 v1 a1 b1 r1 tip_a1 tip_b1 = compute_auth_transcript g2 v2 a2 b2 r2 tip_a2 tip_b2 ->
  (g1, v1, a1, b1, r1) = (g2, v2, a2, b2, r2) /\ (ha1, ia1, wa1) = (ha2, ia2, wa2) /\ (hb1, ib1, wb1) = (hb2, ib2, wb2).
Proof.
  intros tip_a1 tip_b1 tip_a2 tip_b2 Hw Hv1 Hv2 Hh Hcf E. rewrite !Forall_cons in Hw. rewrite !Forall_cons in Hh. unfold hash_wf in Hw. destruct_and!.
  apply Hcf in E; [|by apply list_elem_of_singleton..]. unfold auth_preimage in E. apply app_inv_head in E.
  apply app_inv_len in E as [-> E]; [|congruence]. apply app_inv_len in E as [Ev E]; [|len_lia].
  apply app_inv_len in E as [-> E]; [|congruence]. apply app_inv_len in E as [-> E]; [|congruence].
  apply app_inv_len in E as [Er E]; [|done]. injection Er as ->.
  apply app_inv_len in E as [Ea Eb]; [|subst tip_a1 tip_a2; unfold tip_commitment; len_lia].
  apply tip_commitment_inj in Ea as (-> & -> & ->); [|done..]. apply tip_commitment_inj in Eb as (-> & -> & ->); [|done..].
  assert (v1 = v2) as ->; [|done]. unfold in_u32, U32_MAX in *.
  rewrite <- (le_val_bytes 4 v1), <- (le_val_bytes 4 v2), Ev by (simpl; lia). done.
Qed.

(** ** Routable addresses *)

(** The block [base/length] of addresses of [bits] bits. *)
Definition in_block (bits a : Z) (blk : Z * Z) : bool :=
  a / 2 ^ (bits - snd blk) =? fst blk / 2 ^ (bits - snd blk).
Definition ip4 (a b c d : Z) : Z := ((a * 256 + b) * 256 + c) * 256 + d.
(** The first 64 bits of a V6 address. *)
Definition net6 (a b c d : Z) : Z := (((a * 2 ^ 16 + b) * 2 ^ 16 + c) * 2 ^ 16 + d) * 2 ^ 64.

Definition reserved_v4 : list (Z * Z) :=
  [(ip4 0 0 0 0, 8); (ip4 10 0 0 0, 8); (ip4 100 64 0 0, 10); (ip4 127 0 0 0, 8); (ip4 169 254 0 0, 16); (ip4 172 16 0 0, 12);
   (ip4 192 0 0 0, 24); (ip4 192 0 2 0, 24); (ip4 192 168 0 0, 16); (ip4 198 18 0 0, 15); (ip4 198 51 100 0, 24);
   (ip4 203 0 113 0, 24); (ip4 224 0 0 0, 3)].
Definition reserved_v6 : list (Z * Z) :=
  [(0, 128); (1, 128); (net6 0xff00 0 0 0, 8); (net6 0xfe80 0 0 0, 10); (net6 0xfc00 0 0 0, 7); (net6 0x0100 0 0 0, 64);
   (net6 0x2001 0x0db8 0 0, 32); (net6 0x2001 0 0 0, 32); (net6 0x0064 0xff9b 0 0, 32)].

(** Masking the high bits of a [w]-bit number. *)
Lemma land_high x k w : 0 <= k <= w -> 0 <= x < 2 ^ w -> Z.land x (2 ^ w - 2 ^ k) = x / 2 ^ k * 2 ^ k.
Proof.
  intros Hk Hx. rewrite <- Z.shiftr_div_pow2, <- Z.shiftl_mul_pow2 by lia.
  replace (2 ^ w - 2 ^ k) with (Z.shiftl (Z.ones (w - k)) k).
  2:{ rewrite Z.shiftl_mul_pow2, Z.ones_equiv by lia. replace w with ((w - k) + k) at 2 by lia. rewrite Z.pow_add_r by lia. rewrite <- Z.sub_1_r. ring. }
  apply Z.bits_inj'. intros n Hn. rewrite Z.land_spec, !Z.shiftl_spec by done. destruct (Z.ltb_spec n k).
  - rewrite !(Z.testbit_neg_r _ (n - k)) by lia. apply andb_false_r.
  - rewrite Z.shiftr_spec by lia. replace (n - k + k) with n by lia. destruct (Z.ltb_spec n w).
    + rewrite Z.ones_spec_low by lia. apply andb_true_r.
    + destruct (decide (x = 0)) as [->|]; [by rewrite Z.bits_0|].
      rewrite (Z.bits_above_log2 x n); [done|lia|]. apply Z.log2_lt_pow2; [lia|].
      eapply Z.lt_le_trans; [apply Hx|]. apply Z.pow_le_mono_r; lia.
Qed.

Lemma bytes4 (o : bytes) : len o = 4 -> exists a b c d, o = [a; b; c; d].
Proof.
  intros Ho. destruct o as [|a [|b [|c [|d [|x o]]]]]; try discriminate Ho; [by exists a, b, c, d|].
  exfalso. rewrite !len_cons in Ho. pose proof (len_nonneg o). lia.
Qed.

(** The quotients of an address by the block sizes, from its octets. *)
Lemma v4_quotients z0 z1 z2 z3 :
  0 <= z0 < 256 -> 0 <= z1 < 256 -> 0 <= z2 < 256 -> 0 <= z3 < 256 ->
  let v := ip4 z0 z1 z2 z3 in
  v / 2 ^ 24 = z0 /\ v / 2 ^ 22 = z0 * 4 + z1 / 64 /\ v / 2 ^ 20 = z0 * 16 + z1 / 16 /\ v / 2 ^ 17 = z0 * 128 + z1 / 2 /\
  v / 2 ^ 16 = z0 * 256 + z1 /\ v / 2 ^ 8 = (z0 * 256 + z1) * 256 + z2 /\ v / 2 ^ 29 = z0 / 32.
Proof. unfold ip4. intros ? ? ? ?. cbn zeta. split_and!; Z.to_euclidean_division_equations; lia. Qed.

Ltac compute_blocks :=
  repeat match goal with
  | |- context [ip4 ?a ?b ?c ?d / 2 ^ ?k] => let t := constr:(ip4 a b c d / 2 ^ k) in let v := eval vm_compute in t in change t with v
  end.

Ltac find_block := lazymatch goal with |- _ \/ _ => first [left; find_block | right; find_block] | |- _ => lia end.

Lemma routable_v4_exact o : len o = 4 -> routable_v4 o = negb (existsb (in_block 32 (be_val o)) reserved_v4).
Proof.
  intros (a & b & c & d & ->)%bytes4. unfold routable_v4, v4_is_loopback, v4_is_private, v4_is_link_local, v4_is_broadcast, octet.
  change (byte_at [a; b; c; d] 0) with a. change (byte_at [a; b; c; d] 1) with b. change (byte_at [a; b; c; d] 2) with c.
  change (byte_at [a; b; c; d] 3) with d.
  replace (be_val [a; b; c; d]) with (ip4 (byte_Z a) (byte_Z b) (byte_Z c) (byte_Z d)) 
    by (unfold ip4; cbn [be_val]; change (256 ^ len [b; c; d]) with 16777216; change (256 ^ len [c; d]) with 65536;
        change (256 ^ len [d]) with 256; change (256 ^ len (@nil byte)) with 1; lia).
  destruct (v4_quotients _ _ _ _ (byte_Z_range a) (byte_Z_range b) (byte_Z_range c) (byte_Z_range d)) as (E8 & E10 & E12 & E15 & E16 & E24 & E3).
  pose proof (byte_Z_range a). pose proof (byte_Z_range b). pose proof (byte_Z_range c). pose proof (byte_Z_range d).
  change (Z.land (byte_Z b) 0xC0) with (Z.land (byte_Z b) (2 ^ 8 - 2 ^ 6)). change (Z.land (byte_Z b) 0xFE) with (Z.land (byte_Z b) (2 ^ 8 - 2 ^ 1)).
  rewrite !land_high by lia.
  f_equal. unfold reserved_v4, in_block. cbn [existsb fst snd]. generalize dependent (ip4 (byte_Z a) (byte_Z b) (byte_Z c) (byte_Z d)).
  intros v E8 E10 E12 E15 E16 E24 E3. compute_blocks.
  change (32 - 8) with 24. change (32 - 10) with 22. change (32 - 16) with 16. change (32 - 12) with 20. change (32 - 24) with 8.
  change (32 - 15) with 17. change (32 - 3) with 29. rewrite E8, E10, E12, E15, E16, E24, E3. clear E8 E10 E12 E15 E16 E24 E3 v.
  pose proof (Z.div_mod (byte_Z b) 64 ltac:(lia)). pose proof (Z.mod_pos_bound (byte_Z b) 64 ltac:(lia)).
  pose proof (Z.div_mod (byte_Z b) 16 ltac:(lia)). pose proof (Z.mod_pos_bound (byte_Z b) 16 ltac:(lia)).
  pose proof (Z.div_mod (byte_Z b) 2 ltac:(lia)). pose proof (Z.mod_pos_bound (byte_Z b) 2 ltac:(lia)).
  pose proof (Z.div_mod (byte_Z a) 32 ltac:(lia)). pose proof (Z.mod_pos_bound (byte_Z a) 32 ltac:(lia)).
  change (2 ^ 6) with 64. change (2 ^ 1) with 2. apply eq_true_iff_eq. rewrite !orb_true_iff, !andb_true_iff, !Z.eqb_eq, !Z.leb_le.
  split; intros Hd; repeat destruct Hd as [Hd|Hd]; try discriminate Hd; find_block.
Qed.

Lemma v6_quotients s0 s1 s2 s3 lo :
  0 <= s0 < 65536 -> 0 <= s1 < 65536 -> 0 <= s2 < 65536 -> 0 <= s3 < 65536 -> 0 <= lo < 2 ^ 64 ->
  let v := net6 s0 s1 s2 s3 + lo in
  v / 2 ^ 0 = v /\ v / 2 ^ 120 = s0 / 256 /\ v / 2 ^ 118 = s0 / 64 /\ v / 2 ^ 121 = s0 / 512 /\
  v / 2 ^ 96 = s0 * 65536 + s1 /\ v / 2 ^ 64 = ((s0 * 65536 + s1) * 65536 + s2) * 65536 + s3.
Proof.
  unfold net6. intros ? ? ? ? Hlo. cbn zeta.
  assert (((((s0 * 2 ^ 16 + s1) * 2 ^ 16 + s2) * 2 ^ 16 + s3) * 2 ^ 64 + lo) / 2 ^ 64 = ((s0 * 65536 + s1) * 65536 + s2) * 65536 + s3) as E64
    by (rewrite Z.div_add_l, (Z.div_small lo) by lia; lia).
  assert (forall v k, 0 <= k -> v / 2 ^ (64 + k) = v / 2 ^ 64 / 2 ^ k) as Hq
    by (intros v k Hk; rewrite Z.pow_add_r, Z.div_div by lia; done).
  rewrite (Hq _ 56), (Hq _ 54), (Hq _ 57), (Hq _ 32), E64 by lia. change (2 ^ 0) with 1. rewrite Z.div_1_r.
  split_and!; try done; Z.to_euclidean_division_equations; lia.
Qed.

Lemma bytes16 (o : bytes) : len o = 16 -> exists a b c d e f g h lo, o = [a; b; c; d; e; f; g; h] ++ lo /\ len lo = 8.
Proof.
  intros Ho. destruct (split_len o 4) as (x & r & -> & (a & b & c & d & ->)%bytes4); [lia|].
  destruct (split_len r 4) as (y & lo & -> & (e & f & g & h & ->)%bytes4); [len_lia|].
  exists a, b, c, d, e, f, g, h, lo. split; [done|]. revert Ho. rewrite !len_app. change (len [a; b; c; d]) with 4. change (len [e; f; g; h]) with 4. lia.
Qed.

Lemma v6_value o : len o = 16 ->
  (forall i, 0 <= segment o i < 65536) /\
  exists lo, 0 <= lo < 2 ^ 64 /\ be_val o = net6 (segment o 0) (segment o 1) (segment o 2) (segment o 3) + lo.
Proof.
  intros Ho. split.
  { intros i. unfold segment, octet. pose proof (byte_Z_range (byte_at o (2 * i))). pose proof (byte_Z_range (byte_at o (2 * i + 1))). lia. }
  destruct (bytes16 o Ho) as (a & b & c & d & e & f & g & h & lo & -> & Hlo). exists (be_val lo).
  pose proof (be_val_range lo) as Hr. rewrite Hlo in Hr. split; [exact Hr|]. rewrite be_val_app, Hlo. f_equal.
  change (segment ([a; b; c; d; e; f; g; h] ++ lo) 0) with (byte_Z a * 256 + byte_Z b).
  change (segment ([a; b; c; d; e; f; g; h] ++ lo) 1) with (byte_Z c * 256 + byte_Z d).
  change (segment ([a; b; c; d; e; f; g; h] ++ lo) 2) with (byte_Z e * 256 + byte_Z f).
  change (segment ([a; b; c; d; e; f; g; h] ++ lo) 3) with (byte_Z g * 256 + byte_Z h).
  unfold net6. change (256 ^ 8) with (2 ^ 64). f_equal. cbn [be_val].
  change (256 ^ len [b; c; d; e; f; g; h]) with (2 ^ 56). change (256 ^ len [c; d; e; f; g; h]) with (2 ^ 48).
  change (256 ^ len [d; e; f; g; h]) with (2 ^ 40). change (256 ^ len [e; f; g; h]) with (2 ^ 32). change (256 ^ len [f; g; h]) with (2 ^ 24).
  change (256 ^ len [g; h]) with (2 ^ 16). change (256 ^ len [h]) with (2 ^ 8). change (256 ^ len (@nil byte)) with 1. lia.
Qed.

Ltac compute_blocks6 :=
  repeat match goal with
  | |- context [net6 ?a ?b ?c ?d / 2 ^ ?k] => let t := constr:(net6 a b c d / 2 ^ k) in let v := eval vm_compute in t in change t with v
  end.

Lemma routable_v6_exact o : len o = 16 -> routable_v6 o = negb (existsb (in_block 128 (be_val o)) reserved_v6).
Proof.
  intros Ho. unfold routable_v6, v6_is_loopback, v6_is_unspecified, v6_is_multicast.
  assert (bool_decide (o = replicate 15 x00 ++ [x01]) = (be_val o =? 1)) as ->.
  { apply eq_true_iff_eq. rewrite bool_decide_eq_true, Z.eqb_eq. split; [by intros ->|]. intros E. by apply be_val_inj. }
  assert (bool_decide (o = replicate 16 x00) = (be_val o =? 0)) as ->.
  { apply eq_true_iff_eq. rewrite bool_decide_eq_true, Z.eqb_eq. split; [by intros ->|]. intros E. by apply be_val_inj. }
  destruct (v6_value o Ho) as (Hseg & lo & Hlo & ->).
  destruct (v6_quotients _ _ _ _ lo (Hseg 0) (Hseg 1) (Hseg 2) (Hseg 3) Hlo) as (E0 & E8 & E10 & E7 & E32 & E64).
  pose proof (Hseg 0). pose proof (Hseg 1). pose proof (Hseg 2). pose proof (Hseg 3).
  change 0xff00 with (2 ^ 16 - 2 ^ 8) at 1. change 0xffc0 with (2 ^ 16 - 2 ^ 6). change 0xfe00 with (2 ^ 16 - 2 ^ 9). rewrite !land_high by lia.
  unfold reserved_v6, in_block. cbn [existsb fst snd]. generalize dependent (net6 (segment o 0) (segment o 1) (segment o 2) (segment o 3) + lo).
  intros v E0 E8 E10 E7 E32 E64. compute_blocks6.
  change (128 - 8) with 120. change (128 - 10) with 118. change (128 - 7) with 121. change (128 - 64) with 64. change (128 - 32) with 96.
  change (128 - 128) with 0. rewrite E0, E8, E10, E7, E32, E64. change (0 / 2 ^ 0) with 0. change (1 / 2 ^ 0) with 1. clear E0 E8 E10 E7 E32 E64 Hseg Ho Hlo.
  generalize dependent (segment o 0). generalize dependent (segment o 1). generalize dependent (segment o 2). generalize dependent (segment o 3).
  intros s3 H3 s2 H2 s1 H1 s0 H0. rewrite <- !negb_orb. f_equal. apply eq_true_iff_eq.
  change (2 ^ 8) with 256. change (2 ^ 6) with 64. change (2 ^ 9) with 512. rewrite !orb_true_iff, !andb_true_iff, !Z.eqb_eq.
  split; intros Hd; repeat destruct Hd as [Hd|Hd]; try discriminate Hd; find_block.
Qed.

(** The address filter rejects exactly port 0 and the listed address blocks; an
    IPv4-mapped V6 address is judged as the V4 address it carries.  The last V6
    block is all of [64:ff9b::/32]. *)
Theorem is_routable_exact (a : SocketAddr) :
  match a with SockV4 o _ => len o = 4 | SockV6 o _ _ _ => len o = 16 end ->
  is_routable a =
  match a with
  | SockV4 o port => negb (port =? 0) && negb (existsb (in_block 32 (be_val o)) reserved_v4)
  | SockV6 o port _ _ =>
      negb (port =? 0) &&
      match to_ipv4_mapped o with
      | Some v4 => negb (existsb (in_block 32 (be_val v4)) reserved_v4)
      | None => negb (existsb (in_block 128 (be_val o)) reserved_v6)
      end
  end.
Proof.
  destruct a as [o port|o port f s]; intros Ho; cbn [is_routable]; destruct (port =? 0); cbn [negb andb]; try done.
  - by apply routable_v4_exact.
  - destruct (to_ipv4_mapped o) as [v4|] eqn:Em; [|by apply routable_v6_exact].
    apply to_ipv4_mapped_Some in Em as [_ Hv]; [|done]. by apply routable_v4_exact.
Qed.

(** ** Witnesses *)

Definition zero32 : bytes := replicate 32 x00.
Definition one32 : bytes := replicate 32 x01.

Lemma auth_transcript_binding_witness :
  (zero32, 5, zero32, one32, x01) = (zero32, 5, zero32, one32, x01) /\ (7, one32, one32) = (7, one32, one32) /\ (9, zero32, one32) = (9, zero32, one32).
Proof.
  apply (@auth_transcript_binding toy_digest zero32 zero32 5 5 zero32 zero32 one32 one32 x01 x01 7 7 9 9 one32 one32 zero32 zero32
           one32 one32 one32 one32);
    [ repeat constructor | split; discriminate | split; discriminate | repeat constructor; discriminate
    | intros x y ->%list_elem_of_singleton ->%list_elem_of_singleton _; reflexivity | reflexivity ].
Defined.
