(* ===== verification/FrameBudget.v ===== *)
(** * The frame budget ([src/network/frame_budget.rs])

    Peer tasks run [try_reserve] and drop reservations concurrently on two
    shared counters.  Every atomic access is one step of a task: [task_step] is
    the code between two accesses, with the point a task has reached as its
    state, and [budget_step] lets any task go next.  [compare_exchange_weak] may
    fail although the values agree; [fetch_sub] wraps around.

    A task's view of a counter ([prev]) may be stale at every moment; the
    theorems hold for all interleavings of any number of tasks and peers. *)

From S2P Require Import Prelude.
#[local] Open Scope Z_scope.

Definition GLOBAL_FRAME_BUDGET_BYTES : Z := 128 * 1024 * 1024.
Definition PER_PEER_FRAME_BUDGET_BYTES : Z := 16 * 1024 * 1024.

(** [FrameBudget] and the [PeerBudget]s attached to it, by peer. *)
Record Counters := { global_used : Z; peer_used : Z -> Z }.
Record Caps := { global_cap : Z; peer_cap : Z -> Z }.

Inductive BudgetError :=
| BEGlobal (requested used cap : Z)
| BEPerPeer (requested held cap : Z).

(** Where a task is: before the first load of [try_reserve], in the peer loop
    with the last value seen, before the second load, in the global loop, before
    the roll-back of a failure, holding a [FrameReservation], in the middle of
    its [drop], or done. *)
Inductive task :=
| LoadPeer (peer bytes : Z)
| CasPeer (peer bytes prev : Z)
| LoadGlobal (peer bytes : Z)
| CasGlobal (peer bytes prev : Z)
| RollBack (peer bytes used : Z)
| Holding (peer bytes : Z)
| DropGlobal (peer bytes : Z)
| Released
| Refused (e : BudgetError).

Definition set_global (s : Counters) (v : Z) : Counters := {| global_used := v; peer_used := peer_used s |}.
Definition set_peer (s : Counters) (p v : Z) : Counters := {| global_used := global_used s; 
     peer_used := fun q => if decide (q = p) then v else peer_used s q |}.
Definition fetch_sub (v bytes : Z) : Z := wrap64 (v - bytes).

(** One atomic access; [spurious] is a failure of [compare_exchange_weak] on
    equal values.  A task that holds a reservation steps by dropping it. *)
Definition task_step (caps : Caps) (spurious : bool) (t : task) (s : Counters) : option (task * Counters) :=
  match t with
  | LoadPeer p n => Some (CasPeer p n (peer_used s p), s)
  | CasPeer p n prev =>
      let new := saturating_add U64_MAX prev n in
      if peer_cap caps p <? new then Some (Refused (BEPerPeer n prev (peer_cap caps p)), s)
      else if negb spurious && (peer_used s p =? prev) then Some (LoadGlobal p n, set_peer s p new)
      else Some (CasPeer p n (peer_used s p), s)
  | LoadGlobal p n => Some (CasGlobal p n (global_used s), s)
  | CasGlobal p n prev =>
      let new := saturating_add U64_MAX prev n in
      if global_cap caps <? new then Some (RollBack p n prev, s)
      else if negb spurious && (global_used s =? prev) then Some (Holding p n, set_global s new)
      else Some (CasGlobal p n (global_used s), s)
  | RollBack p n used =>
      Some (Refused (BEGlobal n used (global_cap caps)), set_peer s p (fetch_sub (peer_used s p) n))
  | Holding p n => Some (DropGlobal p n, set_peer s p (fetch_sub (peer_used s p) n))
  | DropGlobal p n => Some (Released, set_global s (fetch_sub (global_used s) n))
  | Released | Refused _ => None
  end.

Record BudgetState := { counters : Counters; tasks : list task }.
Definition BudgetState_new : BudgetState :=
  {| counters := {| global_used := 0; peer_used := fun _ => 0 |}; tasks := [] |}.

(** A task calls [try_reserve], or some task makes its next access. *)
Inductive budget_step (caps : Caps) : BudgetState -> BudgetState -> Prop :=
| step_call s p n : in_u64 n ->
    budget_step caps s {| counters := counters s; tasks := tasks s ++ [LoadPeer p n] |}
| step_task s i spurious t t' c' :
    tasks s !! i = Some t -> task_step caps spurious t (counters s) = Some (t', c') ->
    budget_step caps s {| counters := c'; tasks := <[i := t']> (tasks s) |}.

(** ** The counters are the sums of the shares *)

(** What a task has added to its peer's counter and to the global one. *)
Definition peer_share (p : Z) (t : task) : Z :=
  match t with
  | LoadGlobal q n | CasGlobal q n _ | RollBack q n _ | Holding q n => if decide (q = p) then n else 0
  | _ => 0
  end.
Definition global_share (t : task) : Z := match t with Holding _ n | DropGlobal _ n => n | _ => 0 end.
Definition task_wf (t : task) : Prop :=
  match t with
  | LoadPeer _ n | CasPeer _ n _ | LoadGlobal _ n | CasGlobal _ n _ | RollBack _ n _ | Holding _ n | DropGlobal _ n => in_u64 n
  | Released | Refused _ => True
  end.
(** A cap of [u64::MAX] would let a saturated sum through. *)
Definition caps_wf (caps : Caps) : Prop := 0 <= global_cap caps < U64_MAX /\ forall p, 0 <= peer_cap caps p < U64_MAX.

Record budget_ok (caps : Caps) (s : BudgetState) : Prop := {
  ok_tasks : Forall task_wf (tasks s);
  ok_global : global_used (counters s) = sum_of global_share (tasks s);
  ok_peers p : peer_used (counters s) p = sum_of (peer_share p) (tasks s);
  ok_global_cap : global_used (counters s) <= global_cap caps;
  ok_peer_cap p : peer_used (counters s) p <= peer_cap caps p
}.

Lemma sum_of_insert {A} (f : A -> Z) xs i x y : xs !! i = Some x -> sum_of f (<[i := y]> xs) = sum_of f xs - f x + f y.
Proof.
  revert i. induction xs as [|z xs IH]; intros [|i] Hi; try done.
  - injection Hi as ->. change (<[0%nat := y]> (x :: xs)) with (y :: xs). rewrite !sum_of_cons. lia.
  - change (<[S i := y]> (z :: xs)) with (z :: <[i := y]> xs). rewrite !sum_of_cons, (IH i) by done. lia.
Qed.
Lemma sum_of_member {A} (f : A -> Z) xs i x : Forall (fun y => 0 <= f y) xs -> xs !! i = Some x -> f x <= sum_of f xs.
Proof.
  intros Hf. revert i. induction Hf as [|z xs Hz Hf IH]; intros [|i]; try done; cbn; rewrite sum_of_cons.
  - intros [= <-]. pose proof (sum_of_nonneg f xs Hf). lia.
  - intros Hi%IH. lia.
Qed.
Lemma shares_nonneg ts : Forall task_wf ts -> Forall (fun t => 0 <= global_share t) ts /\ forall p, Forall (fun t => 0 <= peer_share p t) ts.
Proof.
  intros Hts. split; [|intros p]; (eapply Forall_impl; [exact Hts|]; intros [] Ht; cbn in *; unfold in_u64 in *; repeat case_decide; lia).
Qed.

(** ** Every interleaving keeps them *)

Lemma budget_ok_new caps : caps_wf caps -> budget_ok caps BudgetState_new.
Proof. intros [Hg Hp]. split; cbn; [constructor|done|done|apply Hg|intros p; apply Hp]. Qed.

Lemma wrap64_small z : 0 <= z <= U64_MAX -> wrap64 z = z.
Proof. intros Hz. apply Z.mod_small. unfold U64_MAX in Hz. lia. Qed.

(** A task moves on and the counters change by the change of its shares. *)
Lemma share_step caps c c' ts i t t' :
  budget_ok caps {| counters := c; tasks := ts |} -> ts !! i = Some t -> task_wf t' ->
  global_used c' = global_used c - global_share t + global_share t' ->
  (forall p, peer_used c' p = peer_used c p - peer_share p t + peer_share p t') ->
  global_used c' <= global_cap caps -> (forall p, peer_used c' p <= peer_cap caps p) ->
  budget_ok caps {| counters := c'; tasks := <[i := t']> ts |}.
Proof.
  intros [Hwf Hg Hp Hgcap Hpcap] Hi Ht' Eg Ep Hgc Hpc. cbn [counters tasks] in *. split; cbn [counters tasks]; [|..|done|done].
  - by apply Forall_insert.
  - rewrite (sum_of_insert _ _ _ _ _ Hi). lia.
  - intros p. rewrite (sum_of_insert _ _ _ _ _ Hi), Ep, Hp. lia.
Qed.
(** A task that moves on without touching the counters. *)
Lemma share_still caps c ts i t t' :
  budget_ok caps {| counters := c; tasks := ts |} -> ts !! i = Some t -> task_wf t' ->
  global_share t' = global_share t -> (forall p, peer_share p t' = peer_share p t) ->
  budget_ok caps {| counters := c; tasks := <[i := t']> ts |}.
Proof.
  intros Hok Hi Ht' Eg Ep. eapply share_step; [done|done|done|lia|intros p; rewrite Ep; lia|apply (ok_global_cap _ _ Hok)|apply (ok_peer_cap _ _ Hok)].
Qed.

(** A task that changes its peer's counter only. *)
Lemma share_peer caps c ts i t t' p v :
  budget_ok caps {| counters := c; tasks := ts |} -> ts !! i = Some t -> task_wf t' ->
  global_share t' = global_share t -> (forall q, q <> p -> peer_share q t' = peer_share q t) ->
  v = peer_used c p - peer_share p t + peer_share p t' -> v <= peer_cap caps p ->
  budget_ok caps {| counters := set_peer c p v; tasks := <[i := t']> ts |}.
Proof.
  intros Hok Hi Ht' Eg Eq Ev Hv. eapply share_step; [done..|cbn; lia| |apply (ok_global_cap _ _ Hok)|]; intros q; cbn; case_decide as Hq.
  - by rewrite Hq.
  - rewrite Eq by done. lia.
  - by rewrite Hq.
  - apply (ok_peer_cap _ _ Hok).
Qed.

Lemma fetch_sub_share v n : 0 <= n <= v -> v <= U64_MAX -> fetch_sub v n = v - n.
Proof. intros. apply wrap64_small. lia. Qed.

Lemma task_step_ok caps spurious t t' c c' ts i :
  caps_wf caps -> budget_ok caps {| counters := c; tasks := ts |} -> ts !! i = Some t ->
  task_step caps spurious t c = Some (t', c') -> budget_ok caps {| counters := c'; tasks := <[i := t']> ts |}.
Proof.
  intros [Hgc Hpc] Hok Hi Hstep. destruct Hok as [Hwf Hg Hp Hgcap Hpcap] eqn:Eok. clear Eok. cbn [counters tasks] in *.
  destruct (shares_nonneg ts Hwf) as [Hgn Hpn]. pose proof (Forall_lookup_1 _ _ _ _ Hwf Hi) as Ht.
  pose proof (sum_of_member _ _ _ _ Hgn Hi) as Hgm. pose proof (fun p => sum_of_member _ _ _ _ (Hpn p) Hi) as Hpm.
  rewrite <- Hg in Hgm. assert (forall p, peer_share p t <= peer_used c p) as Hpm' by (intros p; rewrite Hp; apply Hpm). clear Hpm.
  destruct t as [p n|p n prev|p n|p n prev|p n used|p n|p n| |e]; cbn [task_step] in Hstep; try discriminate Hstep; cbn [task_wf] in Ht; unfold in_u64 in *.
  - injection Hstep as <- <-. by eapply share_still.
  - destruct (Z.ltb_spec (peer_cap caps p) (saturating_add U64_MAX prev n)) as [|Hcap]; [injection Hstep as <- <-; by eapply share_still|].
    destruct (negb spurious && _) eqn:Ecas; injection Hstep as <- <-; [|by eapply share_still].
    apply andb_true_iff in Ecas as [_ Eprev%Z.eqb_eq]. unfold saturating_add in *. pose proof (Hpc p).
    eapply share_peer; [done..|cbn; intros q ?; by rewrite decide_False by congruence|cbn; rewrite decide_True by done; lia|lia].
  - injection Hstep as <- <-. by eapply share_still.
  - destruct (Z.ltb_spec (global_cap caps) (saturating_add U64_MAX prev n)) as [|Hcap]; [injection Hstep as <- <-; by eapply share_still|].
    destruct (negb spurious && _) eqn:Ecas; injection Hstep as <- <-; [|by eapply share_still].
    apply andb_true_iff in Ecas as [_ Eprev%Z.eqb_eq]. unfold saturating_add in *.
    eapply share_step; [done|done|done|cbn; lia|cbn; intros q; lia|cbn; lia|done].
  - injection Hstep as <- <-. specialize (Hpm' p) as Hm. cbn in Hm. rewrite decide_True in Hm by done. pose proof (Hpc p). pose proof (Hpcap p).
    rewrite fetch_sub_share by lia.
    eapply share_peer; [done..|cbn; intros q ?; by rewrite decide_False by congruence|cbn; rewrite decide_True by done; lia|lia].
  - injection Hstep as <- <-. specialize (Hpm' p) as Hm. cbn in Hm. rewrite decide_True in Hm by done. pose proof (Hpc p). pose proof (Hpcap p).
    rewrite fetch_sub_share by lia.
    eapply share_peer; [done..|cbn; intros q ?; by rewrite decide_False by congruence|cbn; rewrite decide_True by done; lia|lia].
  - injection Hstep as <- <-. cbn in Hgm.
    eapply share_step; [done|done|done|cbn; rewrite fetch_sub_share by lia; lia|cbn; intros q; lia|cbn; rewrite fetch_sub_share by lia; lia|done].
Qed.

Lemma budget_step_ok caps s s' : caps_wf caps -> budget_step caps s s' -> budget_ok caps s -> budget_ok caps s'.
Proof.
  intros Hcaps Hstep Hok. destruct Hstep as [s p n Hn|[c ts] i spurious t t' c' Hi Hs].
  - destruct Hok as [Hwf Hg Hp Hgcap Hpcap]. split; cbn; [apply Forall_app; split; [done|by constructor]|..|done|done].
    + rewrite sum_of_app, Hg, sum_of_cons. change (sum_of global_share []) with 0. cbn. lia.
    + intros q. rewrite sum_of_app, Hp, sum_of_cons. change (sum_of (peer_share q) []) with 0. cbn. lia.
  - by eapply task_step_ok.
Qed.

(** ** A call that runs alone *)

(** [try_reserve] and [drop] as the caller sees them when no other task
    touches the counters: [fuel] bounds the number of accesses. *)
Fixpoint run_alone (caps : Caps) (fuel : nat) (t : task) (c : Counters) : task * Counters :=
  match fuel, t with
  | O, _ | _, Holding _ _ | _, Released | _, Refused _ => (t, c)
  | S fuel, _ => match task_step caps false t c with Some (t', c') => run_alone caps fuel t' c' | None => (t, c) end
  end.
Definition try_reserve (caps : Caps) (p n : Z) (c : Counters) : task * Counters := run_alone caps 5 (LoadPeer p n) c.
Definition drop (caps : Caps) (p n : Z) (c : Counters) : task * Counters :=
  match task_step caps false (Holding p n) c with Some (t', c') => run_alone caps 1 t' c' | None => (Holding p n, c) end.

(** The atomic specification. *)
Definition counters_eq (c d : Counters) : Prop := global_used c = global_used d /\ forall p, peer_used c p = peer_used d p.
#[export] Instance counters_equiv : Equiv Counters := counters_eq.
#[export] Instance counters_equivalence : Equivalence (≡@{Counters}).
Proof. split; [done|intros c d [? ?]; done|]. intros c d e [Eg Hc] [Eg' Hd]; split; [congruence|intros p; by rewrite Hc, Hd]. Qed.
Definition reserve_spec (caps : Caps) (p n : Z) (c : Counters) : task * Counters :=
  if peer_cap caps p <? peer_used c p + n then (Refused (BEPerPeer n (peer_used c p) (peer_cap caps p)), c)
  else if global_cap caps <? global_used c + n then (Refused (BEGlobal n (global_used c) (global_cap caps)), c)
  else (Holding p n, {| global_used := global_used c + n; peer_used := fun q => peer_used c q + (if decide (q = p) then n else 0) |}).

Lemma saturating_over cap v n : cap < U64_MAX -> (cap <? saturating_add U64_MAX v n) = (cap <? v + n).
Proof. intros. unfold saturating_add. destruct (Z.ltb_spec cap (v + n)), (Z.ltb_spec cap (Z.min U64_MAX (v + n))); lia. Qed.

(** ** Properties *)

(** Frame memory is accounted for exactly, under every interleaving.  After any
    steps of any number of tasks, each counter is the sum of the reservations
    charged to it and within its cap, so no subtraction wraps and the
    reservations that are held together never exceed the global cap, nor those
    of a peer the peer's cap; and when every task is done the counters are back
    at zero: no failure, roll-back or drop leaks or double-frees a byte. *)
Theorem frame_budget_exact (caps : Caps) (s : BudgetState) :
  caps_wf caps -> rtc (budget_step caps) BudgetState_new s ->
  global_used (counters s) = sum_of global_share (tasks s) /\ 0 <= global_used (counters s) <= global_cap caps /\
  (forall p, peer_used (counters s) p = sum_of (peer_share p) (tasks s) /\ 0 <= peer_used (counters s) p <= peer_cap caps p) /\
  (Forall (fun t => match t with Released | Refused _ => True | _ => False end) (tasks s) ->
   global_used (counters s) = 0 /\ forall p, peer_used (counters s) p = 0).
Proof.
  intros Hcaps Hr. assert (budget_ok caps s) as [Hwf Hg Hp Hgcap Hpcap].
  { revert s Hr. apply (rtc_ind_r (R := budget_step caps) (budget_ok caps)); [by apply budget_ok_new|]. intros y z _ Hs Hy. by eapply budget_step_ok. }
  destruct (shares_nonneg _ Hwf) as [Hgn Hpn]. pose proof (sum_of_nonneg _ _ Hgn). pose proof (fun p => sum_of_nonneg _ _ (Hpn p)) as Hp0.
  split_and!; [done|lia|done| |].
  - intros p. rewrite Hp at 2. split_and!; auto.
  - intros Hdone. rewrite Hg. split; [|intros p; rewrite Hp]; clear -Hdone; induction Hdone as [|[] ts Ht _ IH]; try done; rewrite sum_of_cons, IH; done.
Qed.

Definition small_caps : Caps := {| global_cap := 10; peer_cap := fun _ => 8 |}.
Lemma frame_budget_exact_witness : let s := {| counters := {| global_used := 0; peer_used := fun q => if decide (q = 1) then 6 else 0 |}; tasks := [LoadGlobal 1 6] |} in
  caps_wf small_caps /\ rtc (budget_step small_caps) BudgetState_new s /\ 0 <= peer_used (counters s) 1 <= 8.
Proof.
  intros s. assert (caps_wf small_caps) as Hc by (split; [|intros p]; cbn; unfold U64_MAX; lia).
  assert (rtc (budget_step small_caps) BudgetState_new s) as Hr.
  { eapply rtc_l; [apply (step_call _ _ 1 6); unfold in_u64, U64_MAX; lia|].
    eapply rtc_l; [by eapply (step_task _ _ 0 false)|]. eapply rtc_l; [by eapply (step_task _ _ 0 false)|]. apply rtc_refl. }
  split; [exact Hc|]. split; [exact Hr|]. destruct (frame_budget_exact small_caps s Hc Hr) as (_ & _ & Hp & _). apply (Hp 1).
Defined.

(** [try_reserve] on its own meets its documentation: it refuses with
    [PerPeer] exactly when the peer's cap would be exceeded, otherwise with
    [Global] exactly when the global cap would be exceeded, in both cases
    leaving the counters as they were, and otherwise charges the bytes to both
    counters; and dropping the reservation afterwards restores them. *)
Theorem try_reserve_refines (caps : Caps) (p n : Z) (c : Counters) :
  caps_wf caps -> in_u64 n -> 0 <= global_used c <= global_cap caps -> (forall q, 0 <= peer_used c q <= peer_cap caps q) ->
  fst (try_reserve caps p n c) = fst (reserve_spec caps p n c) /\ snd (try_reserve caps p n c) ≡ snd (reserve_spec caps p n c) /\
  (fst (try_reserve caps p n c) = Holding p n -> snd (drop caps p n (snd (try_reserve caps p n c))) ≡ c).
Proof.
  intros [Hgc Hpc] Hn Hg Hp. specialize (Hpc p) as Hcp. specialize (Hp p) as Hpp. unfold in_u64 in Hn.
  unfold try_reserve, reserve_spec. cbn [run_alone task_step]. rewrite (saturating_over (peer_cap caps p)) by lia.
  destruct (Z.ltb_spec (peer_cap caps p) (peer_used c p + n)) as [|Hroom]; [split_and!; [done|reflexivity|discriminate]|].
  rewrite Z.eqb_refl. cbn [negb andb run_alone task_step set_peer global_used peer_used]. rewrite (saturating_over (global_cap caps)) by lia.
  destruct (Z.ltb_spec (global_cap caps) (global_used c + n)) as [|Hgroom].
  - cbn. split_and!; [done| |discriminate]. split; [done|]. intros q. cbn. rewrite (decide_True (P := p = p)) by done. case_decide as Hq; [|done].
    subst q. rewrite fetch_sub_share; unfold saturating_add; lia.
  - rewrite Z.eqb_refl. cbn. split_and!; [done| |intros _].
    + split; cbn; [unfold saturating_add; lia|]. intros q. case_decide as Hq; [subst q; unfold saturating_add|]; lia.
    + split; cbn; [rewrite fetch_sub_share; unfold saturating_add; lia|]. intros q. rewrite (decide_True (P := p = p)) by done. case_decide as Hq; [|done].
      subst q. rewrite fetch_sub_share; unfold saturating_add; lia.
Qed.
