(* ===== verification/Storage.v ===== *)
(** * Persistent storage ([src/chain/storage.rs])

    The tables of the embedded database as maps from keys to values, both byte
    strings as on disk ([HEIGHT_INDEX] has integer keys and [TX_INDEX_TABLE]
    integer values).  A write transaction is a function on the whole database
    that either returns the new database or an error; [write_txn] commits it or
    leaves the database as it was, and fails without effect when the database
    engine does ([fault]).  A read is a function of the database.  Iteration is
    in the order of the keys. *)

From Stdlib Require Import Strings.String.
From S2P Require Import Prelude Bytes Codec Hash Transaction Block Utxo Wire.
#[local] Open Scope Z_scope.
#[local] Open Scope list_scope.

(** ** The database *)

Inductive Table :=
| BLOCKS_TABLE | HEADERS_TABLE | META_TABLE | WORK_TABLE | SPENT_UTXOS_TABLE | FORK_BLOCKS_TABLE
| IP_BAN_TABLE | ADDR_TABLE | IDENTITY_BAN_TABLE | RETAINED_FORK_HEADERS_TABLE | UTXOS_TABLE
| SMT_NODES_TABLE | SPENT_BY_TABLE.
#[export] Instance Table_eq_dec : EqDecision Table.
Proof. solve_decision. Defined.

Definition TIP_KEY : bytes := list_byte_of_string "tip_block_id".
Definition UTXO_SNAPSHOT_COMPLETE_KEY : bytes := list_byte_of_string "utxo_snapshot_complete".
Definition UTXO_SNAPSHOT_TIP_KEY : bytes := list_byte_of_string "utxo_snapshot_tip".
Definition WALK_VERIFIED_TIP_KEY : bytes := list_byte_of_string "walk_verified_tip".

Record ChainStorage := {
  tables : Table -> gmap bytes bytes;
  HEIGHT_INDEX : gmap Z bytes;
  TX_INDEX_TABLE : gmap bytes Z
}.

(** [ChainStorage::open] on a new file: all tables exist and are empty. *)
Definition empty_db : ChainStorage := {| tables := fun _ => ∅; HEIGHT_INDEX := ∅; TX_INDEX_TABLE := ∅ |}.

Definition table_get (t : Table) (k : bytes) (db : ChainStorage) : option bytes := tables db t !! k.
Definition table_set (t : Table) (m : gmap bytes bytes) (db : ChainStorage) : ChainStorage := {|
  tables := fun t' => if decide (t' = t) then m else tables db t';
  HEIGHT_INDEX := HEIGHT_INDEX db; TX_INDEX_TABLE := TX_INDEX_TABLE db |}.
Definition table_insert (t : Table) (k v : bytes) (db : ChainStorage) : ChainStorage := table_set t (<[k := v]> (tables db t)) db.
Definition table_remove (t : Table) (k : bytes) (db : ChainStorage) : ChainStorage := table_set t (delete k (tables db t)) db.
Definition height_update (f : gmap Z bytes -> gmap Z bytes) (db : ChainStorage) : ChainStorage :=
  {| tables := tables db; HEIGHT_INDEX := f (HEIGHT_INDEX db); TX_INDEX_TABLE := TX_INDEX_TABLE db |}.
Definition tx_index_update (f : gmap bytes Z -> gmap bytes Z) (db : ChainStorage) : ChainStorage :=
  {| tables := tables db; HEIGHT_INDEX := HEIGHT_INDEX db; TX_INDEX_TABLE := f (TX_INDEX_TABLE db) |}.

(** [table.iter()]: rows in the order of the keys. *)
Definition row_le (a b : bytes * bytes) : Prop := lex_cmp (fst a) (fst b) <> Gt.
#[export] Instance row_le_dec a b : Decision (row_le a b).
Proof. unfold row_le. apply _. Defined.
Definition table_rows (t : Table) (db : ChainStorage) : list (bytes * bytes) := merge_sort row_le (map_to_list (tables db t)).

(** The details that the texts of [StorageError::Corruption] carry. *)
Inductive Corruption :=
| StoredBlockMismatch (expected actual : Hash256)
| BadUtxoKey (length : Z)
| BadUtxoValue (op : OutPoint)
| BadOrphanSpent (id : Hash256)
| BadSpentBy (prev_tx_id : Hash256) (output_index length : Z)
| MissingBody (id : bytes)
| BadBlock (e : SerError).
(** [DbError] is an error of the database engine. *)
Inductive StorageError := DbError | SerializationError (e : SerError) | CorruptionError (c : Corruption).

Definition txn : Type := ChainStorage -> result StorageError ChainStorage.
Definition write_txn (fault : bool) (body : txn) (db : ChainStorage) : result StorageError unit * ChainStorage :=
  if fault then (Err DbError, db)
  else match body db with Ok db' => (Ok tt, db') | Err e => (Err e, db) end.

(** [for x in xs { ... ? }] on the database. *)
Fixpoint for_txn {A} (f : A -> txn) (xs : list A) (db : ChainStorage) : result StorageError ChainStorage :=
  match xs with [] => Ok db | x :: xs => let? db := f x db in for_txn f xs db end.

(** ** Encodings *)

Definition serialize_utxo_entry (e : UtxoEntry) : result SerError bytes :=
  let? output_bytes := TxOutput_serialize (output e) in
  Ok (le_bytes 4 (len output_bytes) ++ output_bytes ++ le_bytes 8 (entry_height e) ++ [if entry_coinbase e then x01 else x00]).

Definition deserialize_utxo_entry (data : bytes) : option UtxoEntry :=
  if len data <? 4 then None
  else
    let output_len := le_val (slice data 0 4) in
    if len data <? 4 + output_len then None
    else
      match TxOutput_deserialize (slice data 4 (4 + output_len)) with
      | Err _ => None
      | Ok (out, consumed) =>
          if negb (consumed =? output_len) then None
          else
            let pos := 4 + output_len in
            if negb (pos + 9 =? len data) then None
            else Some {| output := out; entry_height := le_val (slice data pos (pos + 8));
                         entry_coinbase := negb (bool_decide (byte_at data (pos + 8) = x00)) |}
      end.

Definition serialize_outpoint_key (op : OutPoint) : bytes := op_tx_id op ++ le_bytes 4 (op_index op).
Definition deserialize_outpoint_key (data : bytes) : option OutPoint :=
  if negb (len data =? 36) then None
  else Some {| op_tx_id := slice data 0 32; op_index := le_val (slice data 32 36) |}.

(** The records of the undo metadata: key, then entry. *)
Definition serialize_spent (oe : OutPoint * UtxoEntry) : result SerError bytes :=
  let? e := serialize_utxo_entry (snd oe) in Ok (serialize_outpoint_key (fst oe) ++ e).
Definition serialize_spent_utxos (spent : list (OutPoint * UtxoEntry)) : result SerError bytes :=
  let? rows := serialize_all serialize_spent spent in
  Ok (le_bytes 4 (len spent) ++ rows).

(** One round of the loop, on [data[pos..]]. *)
Definition deserialize_spent (data : bytes) : result unit ((OutPoint * UtxoEntry) * Z) :=
  if len data <? 36 then Err tt
  else if len data <? 40 then Err tt
  else
    let output_len := le_val (slice data 36 40) in
    if len data <? 40 + output_len then Err tt
    else
      match TxOutput_deserialize (slice data 40 (40 + output_len)) with
      | Err _ => Err tt
      | Ok (out, consumed) =>
          if negb (consumed =? output_len) then Err tt
          else
            let pos := 40 + output_len in
            if len data <? pos + 9 then Err tt
            else Ok (({| op_tx_id := slice data 0 32; op_index := le_val (slice data 32 36) |},
                      {| output := out; entry_height := le_val (slice data pos (pos + 8));
                         entry_coinbase := negb (bool_decide (byte_at data (pos + 8) = x00)) |}), pos + 9)
      end.
Definition deserialize_spent_utxos (data : bytes) : option (list (OutPoint * UtxoEntry)) :=
  if len data <? 4 then None
  else
    let count := le_val (slice data 0 4) in
    match deserialize_n deserialize_spent (Z.to_nat count) data 4 with
    | Err _ => None
    | Ok (rows, pos) => if negb (pos =? len data) then None else Some rows
    end.

Definition serialize_spent_by_key (prev_tx_id : Hash256) (output_index : Z) : bytes :=
  serialize_outpoint_key {| op_tx_id := prev_tx_id; op_index := output_index |}.
Definition serialize_spent_by_value (spending_tx_id : Hash256) (input_index block_height : Z) : bytes :=
  spending_tx_id ++ le_bytes 4 input_index ++ le_bytes 8 block_height.
Record SpentBy := { spending_tx_id : Hash256; sb_input_index : Z; sb_block_height : Z }.
Definition deserialize_spent_by_value (data : bytes) : option SpentBy :=
  if negb (len data =? 44) then None
  else Some {| spending_tx_id := slice data 0 32; sb_input_index := le_val (slice data 32 36);
               sb_block_height := le_val (slice data 36 44) |}.

(** [std::net::IpAddr], and its 16-byte form. *)
Inductive IpAddr := V4 (octets : bytes) | V6 (octets : bytes).
#[export] Instance IpAddr_eq_dec : EqDecision IpAddr.
Proof. solve_decision. Defined.
Definition ip_to_canonical_bytes (ip : IpAddr) : bytes := match ip with V4 o => to_ipv6_mapped o | V6 o => o end.
Definition ip_from_canonical_bytes (data : bytes) : IpAddr :=
  match to_ipv4_mapped data with Some v4 => V4 v4 | None => V6 data end.
Definition sock_ip (a : SocketAddr) : IpAddr := match a with SockV4 o _ => V4 o | SockV6 o _ _ _ => V6 o end.
Definition sock_port (a : SocketAddr) : Z := match a with SockV4 _ p => p | SockV6 _ p _ _ => p end.
(** [SocketAddr::new]: no flow label, no scope. *)
Definition SocketAddr_new (ip : IpAddr) (port : Z) : SocketAddr :=
  match ip with V4 o => SockV4 o port | V6 o => SockV6 o port 0 0 end.
Definition socket_addr_to_bytes (a : SocketAddr) : bytes := ip_to_canonical_bytes (sock_ip a) ++ le_bytes 2 (sock_port a).
Definition socket_addr_from_bytes (data : bytes) : SocketAddr :=
  SocketAddr_new (ip_from_canonical_bytes (slice data 0 16)) (le_val (slice data 16 18)).

(** ** Reads *)

Definition if_32 (v : option bytes) : option Hash256 :=
  match v with Some v => if len v =? 32 then Some v else None | None => None end.

Definition get_cumulative_work (id : Hash256) (db : ChainStorage) : option bytes := if_32 (table_get WORK_TABLE id db).
Definition get_header (id : Hash256) (db : ChainStorage) : option BlockHeader :=
  match table_get HEADERS_TABLE id db with
  | Some v => if len v =? HEADER_SIZE then Some (BlockHeader_deserialize v) else None
  | None => None
  end.
Definition get_block_id_by_height (h : Z) (db : ChainStorage) : option Hash256 := if_32 (HEIGHT_INDEX db !! h).
Definition get_tip (db : ChainStorage) : option Hash256 := if_32 (table_get META_TABLE TIP_KEY db).
Definition has_block (id : Hash256) (db : ChainStorage) : bool := bool_decide (is_Some (table_get BLOCKS_TABLE id db)).
Definition has_header (id : Hash256) (db : ChainStorage) : bool := bool_decide (is_Some (table_get HEADERS_TABLE id db)).
Definition is_fork_block (id : Hash256) (db : ChainStorage) : bool := bool_decide (is_Some (table_get FORK_BLOCKS_TABLE id db)).
Definition get_tx_block_height (id : Hash256) (db : ChainStorage) : option Z := TX_INDEX_TABLE db !! id.
Definition get_spent_utxos (id : Hash256) (db : ChainStorage) : option (list (OutPoint * UtxoEntry)) :=
  match table_get SPENT_UTXOS_TABLE id db with Some v => deserialize_spent_utxos v | None => None end.
Definition get_walk_verified_tip (db : ChainStorage) : option Hash256 := if_32 (table_get META_TABLE WALK_VERIFIED_TIP_KEY db).
Definition snapshot_complete (db : ChainStorage) : bool :=
  bool_decide (table_get META_TABLE UTXO_SNAPSHOT_COMPLETE_KEY db = Some [x01]).
Definition get_utxo_snapshot_tip (db : ChainStorage) : option Hash256 :=
  if negb (snapshot_complete db) then None else if_32 (table_get META_TABLE UTXO_SNAPSHOT_TIP_KEY db).
Definition get_output_spent_by (prev_tx_id : Hash256) (output_index : Z) (db : ChainStorage) : result StorageError (option SpentBy) :=
  match table_get SPENT_BY_TABLE (serialize_spent_by_key prev_tx_id output_index) db with
  | Some v =>
      match deserialize_spent_by_value v with
      | Some sb => Ok (Some sb)
      | None => Err (CorruptionError (BadSpentBy prev_tx_id output_index (len v)))
      end
  | None => Ok None
  end.
Definition spent_by_table_is_empty (db : ChainStorage) : bool := bool_decide (tables db SPENT_BY_TABLE = ∅).
Definition height_index_is_empty (db : ChainStorage) : bool := bool_decide (HEIGHT_INDEX db = ∅).
Definition blocks_table_is_empty (db : ChainStorage) : bool := bool_decide (tables db BLOCKS_TABLE = ∅).
(** [range(tip_height.saturating_add(1)..).next().is_some()] *)
Definition has_stale_height_entries (tip_height : Z) (db : ChainStorage) : bool :=
  existsb (fun row => saturating_add U64_MAX tip_height 1 <=? fst row) (map_to_list (HEIGHT_INDEX db)).

(** Framing errors stop the iteration. *)
Fixpoint decode_utxos (rows : list (bytes * bytes)) : result StorageError (list (OutPoint * UtxoEntry)) :=
  match rows with
  | [] => Ok []
  | (k, v) :: rows =>
      let? op := ok_or (deserialize_outpoint_key k) (CorruptionError (BadUtxoKey (len k))) in
      let? e := ok_or (deserialize_utxo_entry v) (CorruptionError (BadUtxoValue op)) in
      let? rest := decode_utxos rows in
      Ok ((op, e) :: rest)
  end.
Definition iter_utxos (db : ChainStorage) : result StorageError (list (OutPoint * UtxoEntry)) := decode_utxos (table_rows UTXOS_TABLE db).

Fixpoint get_ancestor_timestamps (id : Hash256) (count : nat) (db : ChainStorage) : list Z :=
  match count with
  | O => []
  | S count =>
      match get_header id db with
      | Some h => timestamp h :: (if decide (prev_block_id h = Hash256_ZERO) then [] else get_ancestor_timestamps (prev_block_id h) count db)
      | None => []
      end
  end.

Section Blocks.
Context `{Sha2}.

Definition get_block (id : Hash256) (db : ChainStorage) : result StorageError (option Block) :=
  match table_get BLOCKS_TABLE id db with
  | Some v =>
      match Block_deserialize v with
      | Ok (b, consumed) =>
          if consumed =? len v then
            if decide (block_id (header b) = id) then Ok (Some b)
            else Err (CorruptionError (StoredBlockMismatch id (block_id (header b))))
          else Ok None
      | Err _ => Ok None
      end
  | None => Ok None
  end.

(** ** Parts of transactions *)

(** The block bytes and the header under the block's identifier. *)
Definition put_block_data (b : Block) : txn := fun db =>
  let? block_bytes := map_err SerializationError (Block_serialize b) in
  Ok (table_insert HEADERS_TABLE (block_id (header b)) (BlockHeader_serialize (header b))
       (table_insert BLOCKS_TABLE (block_id (header b)) block_bytes db)).

Definition apply_utxo_mutation (m : UtxoMutation) : txn := fun db =>
  match m with
  | MInsert op e =>
      let? value := map_err SerializationError (serialize_utxo_entry e) in
      Ok (table_insert UTXOS_TABLE (serialize_outpoint_key op) value db)
  | MRemove op _ => Ok (table_remove UTXOS_TABLE (serialize_outpoint_key op) db)
  end.
Definition apply_utxo_mutations (mutations : list UtxoMutation) : txn := for_txn apply_utxo_mutation mutations.

(** The inputs of a transaction that is not a coinbase, with their numbers. *)
Definition apply_spent_by_tx (h : Z) (tx : Transaction) : txn := fun db =>
  if is_coinbase tx then Ok db
  else
    let? id := map_err SerializationError (tx_id tx) in
    Ok (fold_left (fun db ix =>
          table_insert SPENT_BY_TABLE (serialize_spent_by_key (prev_tx_id (snd ix)) (output_index (snd ix)))
            (serialize_spent_by_value id (Z.of_nat (fst ix) mod 2 ^ 32) h) db) (imap pair (inputs tx)) db).
Definition apply_spent_by_for_block (b : Block) : txn := for_txn (apply_spent_by_tx (height (header b))) (transactions b).
Definition revert_spent_by_for_block (b : Block) (db : ChainStorage) : ChainStorage :=
  fold_left (fun db tx =>
    if is_coinbase tx then db
    else fold_left (fun db i => table_remove SPENT_BY_TABLE (serialize_spent_by_key (prev_tx_id i) (output_index i)) db) (inputs tx) db)
    (transactions b) db.

Definition advance_snapshot_marker_in_txn (tip_id : Hash256) (db : ChainStorage) : ChainStorage :=
  if negb (snapshot_complete db) then db else table_insert META_TABLE UTXO_SNAPSHOT_TIP_KEY tip_id db.
Definition initialize_snapshot_marker_in_txn (tip_id : Hash256) (db : ChainStorage) : ChainStorage :=
  table_insert META_TABLE UTXO_SNAPSHOT_COMPLETE_KEY [x01] (table_insert META_TABLE UTXO_SNAPSHOT_TIP_KEY tip_id db).
Definition advance_walk_marker_in_txn (tip_id : Hash256) (db : ChainStorage) : ChainStorage :=
  table_insert META_TABLE WALK_VERIFIED_TIP_KEY tip_id db.

(** Transactions whose identifier cannot be computed are not indexed. *)
Definition index_txs (b : Block) (db : ChainStorage) : ChainStorage :=
  fold_left (fun db tx => match tx_id tx with Ok id => tx_index_update <[id := height (header b)]> db | Err _ => db end)
    (transactions b) db.
Definition unindex_txs (b : Block) (db : ChainStorage) : ChainStorage :=
  fold_left (fun db tx => match tx_id tx with Ok id => tx_index_update (delete id) db | Err _ => db end) (transactions b) db.

(** ** Transactions *)

Definition store_block (b : Block) : txn := put_block_data b.
Definition set_canonical_height (h : Z) (id : Hash256) : txn := fun db => Ok (height_update <[h := id]> db).
Definition delete_canonical_height (h : Z) : txn := fun db => Ok (height_update (delete h) db).
Definition put_cumulative_work (id : Hash256) (work : bytes) : txn := fun db => Ok (table_insert WORK_TABLE id work db).
Definition put_block (b : Block) : txn := fun db =>
  let? db := put_block_data b db in Ok (height_update <[height (header b) := block_id (header b)]> db).
Definition index_tx (id : Hash256) (h : Z) : txn := fun db => Ok (tx_index_update <[id := h]> db).
Definition set_tip (id : Hash256) : txn := fun db => Ok (table_insert META_TABLE TIP_KEY id db).
Definition set_walk_verified_tip (id : Hash256) : txn := fun db => Ok (advance_walk_marker_in_txn id db).
Definition store_spent_utxos (id : Hash256) (spent : list (OutPoint * UtxoEntry)) : txn := fun db =>
  let? data := map_err SerializationError (serialize_spent_utxos spent) in
  Ok (table_insert SPENT_UTXOS_TABLE id data db).

(** The rows of the set are written over those that are there. *)
Definition finalize_utxo_snapshot (entries : list (OutPoint * UtxoEntry)) (tip_id : Hash256) : txn := fun db =>
  let? db := for_txn (fun oe => apply_utxo_mutation (MInsert (fst oe) (snd oe))) entries db in
  Ok (advance_walk_marker_in_txn tip_id
       (table_insert META_TABLE UTXO_SNAPSHOT_TIP_KEY tip_id (table_insert META_TABLE UTXO_SNAPSHOT_COMPLETE_KEY [x01] db))).
Definition clear_utxo_snapshot : txn := fun db =>
  Ok (table_remove META_TABLE WALK_VERIFIED_TIP_KEY
       (table_remove META_TABLE UTXO_SNAPSHOT_TIP_KEY
         (table_remove META_TABLE UTXO_SNAPSHOT_COMPLETE_KEY (table_set UTXOS_TABLE ∅ db)))).

Definition store_fork_block_atomic (b : Block) (cumulative_work : bytes) : txn := fun db =>
  let? db := put_block_data b db in
  Ok (table_insert FORK_BLOCKS_TABLE (block_id (header b)) cumulative_work
       (table_insert WORK_TABLE (block_id (header b)) cumulative_work db)).

Definition commit_genesis_atomic (b : Block) (cumulative_work : bytes) (utxo_mutations : list UtxoMutation) : txn := fun db =>
  let id := block_id (header b) in
  let? db := put_block_data b db in
  let db := height_update <[height (header b) := id]> db in
  let db := table_insert WORK_TABLE id cumulative_work db in
  let db := table_insert META_TABLE TIP_KEY id db in
  let db := initialize_snapshot_marker_in_txn id db in
  let db := advance_walk_marker_in_txn id db in
  let db := index_txs b db in
  let? db := apply_utxo_mutations utxo_mutations db in
  apply_spent_by_for_block b db.

Definition commit_block_atomic (b : Block) (cumulative_work : bytes) (spent : list (OutPoint * UtxoEntry))
    (utxo_mutations : list UtxoMutation) : txn := fun db =>
  let id := block_id (header b) in
  let? db := put_block_data b db in
  let? spent_data := map_err SerializationError (serialize_spent_utxos spent) in
  let db := table_insert WORK_TABLE id cumulative_work db in
  let db := table_insert SPENT_UTXOS_TABLE id spent_data db in
  let db := height_update <[height (header b) := id]> db in
  let db := table_insert META_TABLE TIP_KEY id db in
  let db := advance_snapshot_marker_in_txn id db in
  let db := advance_walk_marker_in_txn id db in
  let db := table_remove FORK_BLOCKS_TABLE id db in
  let db := index_txs b db in
  let? db := apply_utxo_mutations utxo_mutations db in
  apply_spent_by_for_block b db.

(** The heights whose rows a reorganisation replaces or removes, ascending. *)
Definition stale_range (range : option (Z * Z)) : list Z :=
  match range with Some (first, last) => seqZ first (last - first + 1) | None => [] end.
Definition stale_heights (range : option (Z * Z)) (new_heights : list (Z * Hash256)) : list Z :=
  merge_sort Z.le (elements (list_to_set (stale_range range ++ map fst new_heights) : gset Z)).
(** The index rows of the block that is at height [h] so far. *)
Definition unindex_height (h : Z) (db : ChainStorage) : ChainStorage :=
  match HEIGHT_INDEX db !! h with
  | None => db
  | Some id =>
      match table_get BLOCKS_TABLE id db with
      | None => db
      | Some data => match Block_deserialize data with Ok (b, _) => unindex_txs b db | Err _ => db end
      end
  end.

(** Taking an orphaned block out of [UTXOS_TABLE]: its outputs, then the entries
    it spent. *)
Definition remove_output_rows (b : Block) (db : ChainStorage) : ChainStorage :=
  fold_left (fun db tx =>
    match tx_id tx with
    | Err _ => db
    | Ok id => fold_left (fun db i => table_remove UTXOS_TABLE (serialize_outpoint_key (output_outpoint id i)) db)
                 (seq 0 (length (outputs tx))) db
    end) (transactions b) db.
Definition undo_orphan (b : Block) : txn := fun db =>
  let db := remove_output_rows b db in
  match table_get SPENT_UTXOS_TABLE (block_id (header b)) db with
  | None => Ok db
  | Some data =>
      match deserialize_spent_utxos data with
      | None => Err (CorruptionError (BadOrphanSpent (block_id (header b))))
      | Some spent => for_txn (fun oe => apply_utxo_mutation (MInsert (fst oe) (snd oe))) spent db
      end
  end.

Definition commit_reorg_atomic (trigger : Block) (cumulative_work : bytes) (old_chain : list Block)
    (new_spent : list (Hash256 * list (OutPoint * UtxoEntry))) (new_mutations : list (Hash256 * list UtxoMutation))
    (new_heights : list (Z * Hash256)) (new_chain : list Block) (new_work : list (Hash256 * bytes))
    (stale : option (Z * Z)) (new_tip_id : Hash256) : txn := fun db =>
  let trigger_id := block_id (header trigger) in
  let? db := put_block_data trigger db in
  let? db := for_txn put_block_data new_chain db in
  let db := table_insert WORK_TABLE trigger_id cumulative_work db in
  let db := fold_left (fun db iw => table_insert WORK_TABLE (fst iw) (snd iw) db) new_work db in
  let? db := for_txn (fun ispent db =>
      let? data := map_err SerializationError (serialize_spent_utxos (snd ispent)) in
      Ok (table_insert SPENT_UTXOS_TABLE (fst ispent) data db)) new_spent db in
  let db := fold_left (fun db h => unindex_height h db) (stale_heights stale new_heights) db in
  let db := fold_left (fun db hid => height_update <[fst hid := snd hid]> db) new_heights db in
  let db := fold_left (fun db h => height_update (delete h) db) (stale_range stale) db in
  let db := table_insert META_TABLE TIP_KEY new_tip_id db in
  let db := advance_snapshot_marker_in_txn new_tip_id db in
  let db := advance_walk_marker_in_txn new_tip_id db in
  let db := fold_left (fun db hid => table_remove FORK_BLOCKS_TABLE (snd hid) db) new_heights db in
  let db := table_remove FORK_BLOCKS_TABLE trigger_id db in
  let db := index_txs trigger db in
  let db := fold_left (fun db b => index_txs b db) new_chain db in
  let? db := for_txn undo_orphan old_chain db in
  let db := fold_left (fun db b => revert_spent_by_for_block b db) old_chain db in
  let? db := for_txn (fun im => apply_utxo_mutations (snd im)) new_mutations db in
  let? db := apply_spent_by_for_block trigger db in
  for_txn apply_spent_by_for_block new_chain db.

(** ** Evicting fork blocks *)

(** The height in a stored header: bytes 4 to 12, when there are so many. *)
Definition stored_height (id : Hash256) (db : ChainStorage) : option Z :=
  match table_get HEADERS_TABLE id db with
  | Some v => if len v <? 12 then None else Some (le_val (slice v 4 12))
  | None => None
  end.
Definition is_canonical_at (h : Z) (id : bytes) (db : ChainStorage) : bool := bool_decide (HEIGHT_INDEX db !! h = Some id).

Definition evict_body (id : Hash256) : txn := fun db =>
  let height_opt := stored_height id db in
  let is_canonical := match height_opt with Some h => is_canonical_at h id db | None => false end in
  let db :=
    if is_canonical then db
    else
      let db := table_remove SPENT_UTXOS_TABLE id (table_remove BLOCKS_TABLE id db) in
      match height_opt with Some h => table_insert RETAINED_FORK_HEADERS_TABLE id (le_bytes 8 h) db | None => db end in
  Ok (table_remove FORK_BLOCKS_TABLE id db).

Definition retained_entries (db : ChainStorage) : list (bytes * Z) :=
  omap (fun row => if (len (fst row) =? 32) && (len (snd row) =? 8) then Some (fst row, le_val (snd row)) else None)
    (table_rows RETAINED_FORK_HEADERS_TABLE db).
Definition height_order (a b : bytes * Z) : Prop := snd a <= snd b.
#[export] Instance height_order_dec a b : Decision (height_order a b).
Proof. unfold height_order. apply _. Defined.
Definition drop_retained (e : bytes * Z) : txn := fun db =>
  let db' := table_remove RETAINED_FORK_HEADERS_TABLE (fst e) db in
  Ok (if is_canonical_at (snd e) (fst e) db then db'
      else table_remove SPENT_UTXOS_TABLE (fst e) (table_remove WORK_TABLE (fst e) (table_remove HEADERS_TABLE (fst e) db'))).
Definition enforce_retained_fork_header_cap (fault : bool) (max_retained : Z) (db : ChainStorage) : result StorageError unit * ChainStorage :=
  let entries := retained_entries db in
  if len entries <=? max_retained then (Ok tt, db)
  else
    let sorted := merge_sort height_order entries in
    write_txn fault (for_txn drop_retained (take (Z.to_nat (len entries - max_retained)) sorted)) db.

Definition MAX_RETAINED_FORK_HEADERS : Z := 10000.
Definition evict_fork_block (fault fault' : bool) (id : Hash256) (db : ChainStorage) : result StorageError unit * ChainStorage :=
  match write_txn fault (evict_body id) db with
  | (Err e, db) => (Err e, db)
  | (Ok _, db) => enforce_retained_fork_header_cap fault' MAX_RETAINED_FORK_HEADERS db
  end.

(** [load_fork_blocks]: rows of the right sizes; above [max_entries] those of
    least work are evicted; the result ascends by work. *)
Definition work_ge (a b : bytes * bytes) : Prop := lex_cmp (snd b) (snd a) <> Gt.
#[export] Instance work_ge_dec a b : Decision (work_ge a b).
Proof. unfold work_ge. apply _. Defined.
Definition work_le (a b : bytes * bytes) : Prop := lex_cmp (snd a) (snd b) <> Gt.
#[export] Instance work_le_dec a b : Decision (work_le a b).
Proof. unfold work_le. apply _. Defined.
Fixpoint evict_all (faults : Hash256 -> bool * bool) (ids : list Hash256) (db : ChainStorage) : result StorageError unit * ChainStorage :=
  match ids with
  | [] => (Ok tt, db)
  | id :: ids =>
      match evict_fork_block (fst (faults id)) (snd (faults id)) id db with
      | (Ok _, db) => evict_all faults ids db
      | (Err e, db) => (Err e, db)
      end
  end.
Definition load_fork_blocks (faults : Hash256 -> bool * bool) (max_entries : Z) (db : ChainStorage)
  : result StorageError (list (Hash256 * bytes)) * ChainStorage :=
  let rows := filter (fun row => len (fst row) = 32 /\ len (snd row) = 32) (table_rows FORK_BLOCKS_TABLE db) in
  if max_entries <? len rows then
    let sorted := merge_sort work_ge rows in
    match evict_all faults (map fst (drop (Z.to_nat max_entries) sorted)) db with
    | (Err e, db) => (Err e, db)
    | (Ok _, db) => (Ok (merge_sort work_le (take (Z.to_nat max_entries) sorted)), db)
    end
  else (Ok (merge_sort work_le rows), db).

(** ** The index of spenders *)

(** One block of the backfill: its body is read from the database before the
    chunk's transaction. *)
Definition backfill_block (snapshot : ChainStorage) (id : bytes) (acc : ChainStorage * Z * Z) : result StorageError (ChainStorage * Z * Z) :=
  let '(db, blocks, ins) := acc in
  let? data := ok_or (table_get BLOCKS_TABLE id snapshot) (CorruptionError (MissingBody id)) in
  let? (b, _) := map_err (fun e => CorruptionError (BadBlock e)) (Block_deserialize data) in
  let? db := apply_spent_by_for_block b db in
  Ok (db, blocks + 1, ins + sum_of (fun tx => if is_coinbase tx then 0 else len (inputs tx)) (transactions b)).
Fixpoint backfill_chunk (snapshot : ChainStorage) (ids : list bytes) (acc : ChainStorage * Z * Z) : result StorageError (ChainStorage * Z * Z) :=
  match ids with [] => Ok acc | id :: ids => let? acc := backfill_block snapshot id acc in backfill_chunk snapshot ids acc end.
Definition CHUNK : nat := 1024.
(** A chunk is one transaction; an error leaves the chunks before it.  [fuel]
    bounds the number of chunks. *)
Fixpoint backfill (fuel : nat) (faults : nat -> bool) (ids : list bytes) (blocks ins : Z) (db : ChainStorage)
  : result StorageError (Z * Z) * ChainStorage :=
  match fuel, ids with
  | _, [] | O, _ => (Ok (blocks, ins), db)
  | S fuel, _ =>
      if faults fuel then (Err DbError, db)
      else match backfill_chunk db (take CHUNK ids) (db, blocks, ins) with
           | Err e => (Err e, db)
           | Ok (db, blocks, ins) => backfill fuel faults (drop CHUNK ids) blocks ins db
           end
  end.
Definition height_row_le (a b : Z * bytes) : Prop := fst a <= fst b.
#[export] Instance height_row_le_dec a b : Decision (height_row_le a b).
Proof. unfold height_row_le. apply _. Defined.
Definition build_spent_by_index_from_genesis (faults : nat -> bool) (db : ChainStorage) : result StorageError (Z * Z) * ChainStorage :=
  let ids := map snd (merge_sort height_row_le (map_to_list (HEIGHT_INDEX db))) in
  backfill (length ids) faults ids 0 0 db.
End Blocks.

(** ** Bans and known addresses *)

Definition put_ip_ban (ip : IpAddr) (banned_until_unix : Z) : txn := fun db =>
  Ok (table_insert IP_BAN_TABLE (ip_to_canonical_bytes ip) (le_bytes 8 banned_until_unix) db).
Definition remove_ip_ban (ip : IpAddr) : txn := fun db => Ok (table_remove IP_BAN_TABLE (ip_to_canonical_bytes ip) db).
Definition put_identity_ban (pubkey : bytes) (banned_until_unix : Z) : txn := fun db =>
  Ok (table_insert IDENTITY_BAN_TABLE pubkey (le_bytes 8 banned_until_unix) db).
Definition remove_identity_ban (pubkey : bytes) : txn := fun db => Ok (table_remove IDENTITY_BAN_TABLE pubkey db).

(** Rows with a key of [size] bytes and an 8-byte time. *)
Definition timed_rows (t : Table) (size : Z) (db : ChainStorage) : list (bytes * Z) :=
  omap (fun row => if (len (fst row) =? size) && (len (snd row) =? 8) then Some (fst row, le_val (snd row)) else None) (table_rows t db).
(** Bans that have not expired; the others are removed, unless that write fails. *)
Definition load_bans (fault : bool) (t : Table) (size now_unix : Z) (db : ChainStorage) : list (bytes * Z) * ChainStorage :=
  let rows := timed_rows t size db in
  let expired := map fst (filter (fun row => snd row <= now_unix) rows) in
  (filter (fun row => now_unix < snd row) rows,
   snd (write_txn fault (fun db => Ok (fold_left (fun db k => table_remove t k db) expired db)) db)).
Definition load_ip_bans (fault : bool) (now_unix : Z) (db : ChainStorage) : list (IpAddr * Z) * ChainStorage :=
  let '(rows, db) := load_bans fault IP_BAN_TABLE 16 now_unix db in
  (map (fun row => (ip_from_canonical_bytes (fst row), snd row)) rows, db).
Definition load_identity_bans (fault : bool) (now_unix : Z) (db : ChainStorage) : list (bytes * Z) * ChainStorage :=
  load_bans fault IDENTITY_BAN_TABLE 32 now_unix db.
Definition clear_bans (fault : bool) (t : Table) (db : ChainStorage) : result StorageError Z * ChainStorage :=
  let count := Z.of_nat (size (tables db t)) in
  if count =? 0 then (Ok 0, db)
  else match write_txn fault (fun db => Ok (table_set t ∅ db)) db with
       | (Ok _, db) => (Ok count, db)
       | (Err e, db) => (Err e, db)
       end.
Definition clear_ip_bans (fault : bool) : ChainStorage -> result StorageError Z * ChainStorage := clear_bans fault IP_BAN_TABLE.
Definition clear_identity_bans (fault : bool) : ChainStorage -> result StorageError Z * ChainStorage := clear_bans fault IDENTITY_BAN_TABLE.

Definition MAX_ADDR_BOOK_SIZE : Z := 1024.
(** The rows with a key of 18 bytes are replaced by the given addresses. *)
Definition put_known_addrs (addrs : list (SocketAddr * Z)) : txn := fun db =>
  let db := table_set ADDR_TABLE (filter (fun row => len row.1 <> 18) (tables db ADDR_TABLE)) db in
  Ok (fold_left (fun db al => table_insert ADDR_TABLE (socket_addr_to_bytes (fst al)) (le_bytes 8 (snd al)) db) addrs db).
Definition recent_first (a b : SocketAddr * Z) : Prop := snd b <= snd a.
#[export] Instance recent_first_dec a b : Decision (recent_first a b).
Proof. unfold recent_first. apply _. Defined.
Definition get_known_addrs (db : ChainStorage) : list (SocketAddr * Z) :=
  let rows := map (fun row => (socket_addr_from_bytes (fst row), snd row)) (timed_rows ADDR_TABLE 18 db) in
  if MAX_ADDR_BOOK_SIZE <? len rows then take (Z.to_nat MAX_ADDR_BOOK_SIZE) (merge_sort recent_first rows) else rows.

(** ** The encodings are read back *)

Definition UtxoEntry_wf (e : UtxoEntry) : Prop := TxOutput_wf (output e) /\ in_u64 (entry_height e).
Definition OutPoint_wf (o : OutPoint) : Prop := hash_wf (op_tx_id o) /\ in_u32 (op_index o).

Lemma TxOutput_upper o b : TxOutput_wf o -> TxOutput_serialize o = Ok b -> len b < 2 ^ 32.
Proof.
  intros (_ & Hs & Hd & Hh). unfold TxOutput_serialize, serialize_varbytes. intros Hb.
  unfold U16_MAX, MAX_DATUM_SIZE, hash_wf in *. destruct (datum o), (datum_hash o); cbn in *; inv_res; len_lia.
Qed.

Lemma coinbase_flag (cb : bool) : negb (bool_decide ((if cb then x01 else x00) = x00)) = cb.
Proof. by destruct cb. Qed.

(** The fixed part behind the output: eight bytes and a flag. *)
Lemma entry_tail (pre rest : bytes) h cb pos :
  in_u64 h -> len pre = pos -> let data := pre ++ (le_bytes 8 h ++ [if cb : bool then x01 else x00]) ++ rest in
  le_val (slice data pos (pos + 8)) = h /\ negb (bool_decide (byte_at data (pos + 8) = x00)) = cb.
Proof.
  intros Hh Hp data. subst data. rewrite <- app_assoc. rewrite slice_mid by len_lia. unfold in_u64, U64_MAX in Hh.
  rewrite le_val_bytes by (simpl; lia). split; [done|]. cbn [app].
  replace (pre ++ le_bytes 8 h ++ (if cb then x01 else x00) :: rest) with ((pre ++ le_bytes 8 h) ++ (if cb then x01 else x00) :: rest) by by rewrite <- app_assoc.
  rewrite byte_at_mid by len_lia. apply coinbase_flag.
Qed.

Lemma utxo_entry_codec e :
  UtxoEntry_wf e -> exists b, serialize_utxo_entry e = Ok b /\ deserialize_utxo_entry b = Some e.
Proof.
  intros [Ho Hh]. destruct (codec_encodes _ Ho) as (o & Eo & Do). pose proof (TxOutput_upper _ _ Ho Eo) as Hlo. pose proof (len_nonneg o).
  unfold serialize_utxo_entry. rewrite Eo. eexists. split; [done|]. unfold deserialize_utxo_entry.
  set (tail := le_bytes 8 _ ++ _). assert (len tail = 9) as Ht by (subst tail; len_lia).
  destruct (Z.ltb_spec (len (le_bytes 4 (len o) ++ o ++ tail)) 4); [len_lia|].
  rewrite slice_head, le_val_bytes by (len_lia || (simpl; lia)).
  destruct (Z.ltb_spec (len (le_bytes 4 (len o) ++ o ++ tail)) (4 + len o)); [len_lia|].
  rewrite slice_mid by len_lia. specialize (Do []). rewrite app_nil_r in Do. rewrite Do, Z.eqb_refl. cbn [negb].
  destruct (Z.eqb_spec (4 + len o + 9) (len (le_bytes 4 (len o) ++ o ++ tail))); [|len_lia]. cbn [negb].
  rewrite app_assoc, <- (app_nil_r tail). subst tail.
  destruct (entry_tail (le_bytes 4 (len o) ++ o) [] (entry_height e) (entry_coinbase e) (4 + len o) Hh ltac:(len_lia)) as [-> ->].
  by destruct e.
Qed.

Lemma outpoint_key_codec o : OutPoint_wf o -> deserialize_outpoint_key (serialize_outpoint_key o) = Some o.
Proof.
  intros [Hi Hx]. unfold hash_wf in Hi. unfold deserialize_outpoint_key, serialize_outpoint_key, in_u32, U32_MAX in *.
  destruct (Z.eqb_spec (len (op_tx_id o ++ le_bytes 4 (op_index o))) 36); [|len_lia]. cbn [negb].
  rewrite slice_head, slice_tail by len_lia. rewrite le_val_bytes by (simpl; lia). by destruct o.
Qed.
Lemma outpoint_key_inj o1 o2 : OutPoint_wf o1 -> OutPoint_wf o2 -> serialize_outpoint_key o1 = serialize_outpoint_key o2 -> o1 = o2.
Proof. intros H1 H2 E. apply (inj Some). by rewrite <- (outpoint_key_codec o1 H1), <- (outpoint_key_codec o2 H2), E. Qed.

Lemma spent_reads oe :
  OutPoint_wf oe.1 /\ UtxoEntry_wf oe.2 ->
  exists b, serialize_spent oe = Ok b /\ forall rest, deserialize_spent (b ++ rest) = Ok (oe, len b).
Proof.
  destruct oe as [o e]. cbn [fst snd]. intros [[Hi Hx] [Ho Hh]]. unfold hash_wf in Hi. destruct (codec_encodes _ Ho) as (eo & Eo & Do).
  pose proof (TxOutput_upper _ _ Ho Eo) as Hlo. pose proof (len_nonneg eo). unfold serialize_spent, serialize_utxo_entry, serialize_outpoint_key. cbn [fst snd].
  rewrite Eo. eexists. split; [done|]. intros rest. unfold deserialize_spent. pose proof (len_nonneg rest).
  set (tail := le_bytes 8 _ ++ _). assert (len tail = 9) as Ht by (subst tail; len_lia). rewrite <- !app_assoc.
  destruct (Z.ltb_spec (len (op_tx_id o ++ le_bytes 4 (op_index o) ++ le_bytes 4 (len eo) ++ eo ++ tail ++ rest)) 36); [len_lia|].
  destruct (Z.ltb_spec (len (op_tx_id o ++ le_bytes 4 (op_index o) ++ le_bytes 4 (len eo) ++ eo ++ tail ++ rest)) 40); [len_lia|].
  rewrite (slice_skip (op_tx_id o) _ 36 40) by len_lia. rewrite slice_mid by len_lia. rewrite le_val_bytes by (simpl; lia).
  destruct (Z.ltb_spec (len (op_tx_id o ++ le_bytes 4 (op_index o) ++ le_bytes 4 (len eo) ++ eo ++ tail ++ rest)) (40 + len eo)); [len_lia|].
  rewrite (slice_skip (op_tx_id o) _ 40) by len_lia. rewrite (slice_skip (le_bytes 4 (op_index o))) by len_lia. rewrite slice_mid by len_lia.
  specialize (Do []). rewrite app_nil_r in Do. rewrite Do, Z.eqb_refl. cbn [negb].
  destruct (Z.ltb_spec (len (op_tx_id o ++ le_bytes 4 (op_index o) ++ le_bytes 4 (len eo) ++ eo ++ tail ++ rest)) (40 + len eo + 9)); [len_lia|].
  rewrite (slice_head (op_tx_id o)), (slice_mid (op_tx_id o)) by len_lia. unfold in_u32, U32_MAX in Hx. rewrite (le_val_bytes 4 (op_index o)) by (simpl; lia).
  replace (op_tx_id o ++ le_bytes 4 (op_index o) ++ le_bytes 4 (len eo) ++ eo ++ tail ++ rest) with ((op_tx_id o ++ le_bytes 4 (op_index o) ++ le_bytes 4 (len eo) ++ eo) ++ tail ++ rest) by by rewrite <- !app_assoc.
  subst tail. destruct (entry_tail (op_tx_id o ++ le_bytes 4 (op_index o) ++ le_bytes 4 (len eo) ++ eo) rest (entry_height e) (entry_coinbase e) (40 + len eo) Hh ltac:(len_lia)) as [-> ->].
  destruct o, e. f_equal. f_equal. cbn in *. len_lia.
Qed.

Lemma spent_utxos_codec spent :
  Forall (fun oe => OutPoint_wf oe.1 /\ UtxoEntry_wf oe.2) spent -> len spent <= U32_MAX ->
  exists b, serialize_spent_utxos spent = Ok b /\ deserialize_spent_utxos b = Some spent.
Proof.
  intros Hs Hl. destruct (serialize_all_reads _ _ deserialize_spent spent spent_reads Hs) as (b & Eb & Db). pose proof (len_nonneg spent).
  unfold serialize_spent_utxos. rewrite Eb. eexists. split; [done|]. unfold deserialize_spent_utxos, U32_MAX in *. pose proof (len_nonneg b).
  destruct (Z.ltb_spec (len (le_bytes 4 (len spent) ++ b)) 4); [len_lia|].
  rewrite slice_head, le_val_bytes by (len_lia || (simpl; lia)). rewrite to_nat_len.
  specialize (Db (le_bytes 4 (len spent)) []). rewrite app_nil_r, len_le_bytes in Db. change (Z.of_nat 4) with 4 in Db. rewrite Db.
  destruct (Z.eqb_spec (4 + len b) (len (le_bytes 4 (len spent) ++ b))); [done|len_lia].
Qed.
