(* ===== verification/ChainManager.v ===== *)
(** * The chain manager ([src/network/sync.rs]: [process_block] and what it calls)

    A received block goes through header rules and fork choice, and then extends
    the tip, triggers a reorganisation or is kept as a fork block.  The node's
    state that this touches is [Node]; an operation is a function on it that
    returns a result and the new state, and [None] when it panics or does not
    return.

    The work before the UTXO write lock is [prepare], the work under it [commit]:
    other tasks can run in between, and [commit] reads the tip again.  Storage
    calls can fail: [io] says for each call site and key whether the database
    engine reports an error there.  Time is read from the environment. *)

From Stdlib Require Import Strings.String.
From S2P Require Import Prelude Bytes Codec Hash Transaction Block Wire U256 Difficulty Reward.
From S2P Require Import ScriptValue ScriptCodec Jets ScriptCost Eval FeeCost Smt Utxo TxValidation BlockValidation Mempool Storage.
#[local] Open Scope Z_scope.
#[local] Open Scope list_scope.

Definition MTP_WINDOW : nat := 11.
Definition ASSUME_VALID_HEIGHT : Z := 500000.
Definition ASSUME_VALID_HASH : Hash256 :=
  [xdb; x1f; x9c; xa3; x6c; x3e; x12; xbf; x03; x01; xfb; x65; xea; x9c; xf2; x18;
   xa7; x53; xf3; xd8; x0f; x1a; x07; xb5; x9d; x6e; xa1; x32; x37; x32; x19; x40].
Definition ASSUME_VALID_CUMULATIVE_WORK : bytes := replicate 26 x00 ++ [x01; xdc; x5d; x56; x4b; xd4].
Definition MAX_FORK_BLOCKS : Z := 128.
Definition MAX_FORK_BLOCK_SIZE : Z := MAX_BLOCK_SIZE.
Definition MAX_DIFFICULTY_CACHE_ENTRIES : Z := 256.
Definition MAX_FUTURE_BLOCKS : Z := 16.
Definition FUTURE_BLOCK_MAX_AGE_SECS : Z := 300.
Definition MAX_TRIGGERS_PER_ANCESTOR : Z := 16.
Definition MAX_GLOBAL_TRIGGERS : Z := 64.

(** ** Errors and outcomes *)

(** What the message of an error says. *)
Inductive reason :=
| StorageFailed (e : StorageError)
| HeightZero
| ParentNotFound
| DifficultyFailed (e : DifficultyError)
| HeaderInvalid (e : ValidationError)
| CheckpointMismatch (got : Hash256)
| ParentWorkNotFound
| TxRootUncomputable (e : SerError)
| TxRootMismatch
| StructureInvalid (e : ValidationError)
| ApplyCorrupted (e : ValidationError)
| BlockTxInvalid (e : ValidationError)
| StateRootMismatch
| RollbackAlsoFailed (cause : reason) (e : StateError)
| CanonicalBlockMissing (id : Hash256)
| UndoFailed (e : StateError)
| MissingSpent (id : Hash256) (h : Z)
| RedoFailed (cause : reason) (e : StateError)
| ReorgParentMissing (h : Z)
| ReorgHeaderInvalid (h : Z) (e : ValidationError)
| AncestorMissing (id : Hash256)
| NewChainUndoFailed (cause : reason)
| ForkPointWorkMissing (id : Hash256).

Inductive ProcessBlockError :=
| Recoverable (r : reason)
| Fatal (r : reason)
| MissingReorgAncestor (id : Hash256).
Definition is_fatal (e : ProcessBlockError) : bool := match e with Fatal _ => true | _ => false end.
(** [msg.starts_with("block header validation failed")] *)
Definition is_header_only (e : ProcessBlockError) : bool := match e with Recoverable (HeaderInvalid _) => true | _ => false end.
Inductive ProcessBlockOutcome := Accepted | Stored | BufferedFuture.

(** ** Pending reorganisations *)

Record ReorgTriggerState := { triggers : gmap Hash256 (list Block); order : list Hash256 }.
Definition ReorgTriggerState_new : ReorgTriggerState := {| triggers := ∅; order := [] |}.

Definition evict_trigger (rt : ReorgTriggerState) (ancestor : Hash256) (rest : list Hash256) : ReorgTriggerState :=
  match triggers rt !! ancestor with
  | None => {| triggers := triggers rt; order := rest |}
  | Some blocks =>
      let blocks := tail blocks in
      {| triggers := if decide (blocks = []) then delete ancestor (triggers rt) else <[ancestor := blocks]> (triggers rt);
         order := rest |}
  end.
Fixpoint evict_triggers (order' : list Hash256) (rt : ReorgTriggerState) : ReorgTriggerState :=
  match order' with
  | ancestor :: rest => if MAX_GLOBAL_TRIGGERS <=? len order' then evict_triggers rest (evict_trigger rt ancestor rest) else rt
  | [] => rt
  end.
Definition trigger_insert (ancestor : Hash256) (b : Block) (rt : ReorgTriggerState) : bool * ReorgTriggerState :=
  if match triggers rt !! ancestor with Some v => MAX_TRIGGERS_PER_ANCESTOR <=? len v | None => false end then (false, rt)
  else
    let rt := evict_triggers (order rt) rt in
    let waiting := default [] (triggers rt !! ancestor) in
    if len waiting <? MAX_TRIGGERS_PER_ANCESTOR then
      (true, {| triggers := <[ancestor := waiting ++ [b]]> (triggers rt); order := order rt ++ [ancestor] |})
    else (false, {| triggers := <[ancestor := waiting]> (triggers rt); order := order rt |}).
Definition trigger_take (ancestor : Hash256) (rt : ReorgTriggerState) : option (list Block) * ReorgTriggerState :=
  (triggers rt !! ancestor,
   {| triggers := delete ancestor (triggers rt); order := filter (fun a => a <> ancestor) (order rt) |}).

(** ** The pool of fork blocks *)

Abbreviation fork_list := (list (Hash256 * bytes)).
(** [iter().enumerate().filter(p).min_by(work)]: the first entry of least work
    among those that [p] keeps, with its position. *)
Fixpoint min_work_where (p : Hash256 -> bool) (i : nat) (l : fork_list) : option (nat * (Hash256 * bytes)) :=
  match l with
  | [] => None
  | e :: l =>
      let rest := min_work_where p (Datatypes.S i) l in
      if negb (p (fst e)) then rest
      else match rest with
           | Some (j, m) => match lex_cmp (snd m) (snd e) with Lt => Some (j, m) | _ => Some (i, e) end
           | None => Some (i, e)
           end
  end.
Definition min_work (l : fork_list) : option (nat * (Hash256 * bytes)) := min_work_where (fun _ => true) 0 l.
(** [Vec::swap_remove] *)
Definition swap_remove {A} (i : nat) (l : list A) : list A :=
  match last l with
  | Some x => take (length l - 1) (<[i := x]> l)
  | None => l
  end.
Definition in_pool (id : Hash256) (l : fork_list) : bool := existsb (fun e => bool_decide (fst e = id)) l.
(** Trimming to the limit; each round removes an entry, so [length l] rounds are
    enough. *)
Fixpoint trim (choose : fork_list -> option (nat * (Hash256 * bytes))) (fuel : nat) (l : fork_list) (removed : list Hash256)
  : fork_list * list Hash256 :=
  match fuel with
  | O => (l, removed)
  | Datatypes.S fuel =>
      if len l <=? MAX_FORK_BLOCKS then (l, removed)
      else match choose l with
           | Some (i, e) => trim choose fuel (swap_remove i l) (removed ++ [fst e])
           | None => (l, removed)
           end
  end.

(** ** The node *)

Inductive NodeEvent := ScriptsChanged (scripts : list bytes) | TipChanged (h : Z).

(** The root of a UTXO store. *)
Class UtxoRoot (S : Type) := store_root : S -> Hash256.
#[export] Instance UtxoSet_root `{StateTree} : UtxoRoot UtxoSet := Utxo.state_root.

(** The places where processing a block calls the storage. *)
Inductive storage_call :=
| AtHasBlock | AtParentHeader | AtTimestamps | AtDifficulty (id : Hash256) | AtCheckpointWork | AtParentWork
| AtForkHasBlock | AtForkEvict (id : Hash256) | AtForkCap (id : Hash256) | AtForkStore | AtForkRecheck
| AtCommitBlock | AtOldBlock (id : Hash256) | AtNewBlock (id : Hash256) | AtSpent (id : Hash256)
| AtReorgParent (id : Hash256) | AtReorgTimestamps (id : Hash256) | AtReorgDifficulty (id : Hash256)
| AtForkPointWork | AtCommitReorg | AtDemoteWork (id : Hash256) | AtDemoteStore (id : Hash256)
| AtDemoteEvict (id : Hash256) | AtDemoteCap (id : Hash256).

(** What a call reads from outside: the system clock (seconds), the monotonic
    clock (nanoseconds) and the outcomes of storage calls. *)
Record Env := { wall_clock : option Z; now : Z; io : storage_call -> bool }.

Section Manager.
Context {S : Type} `{UtxoStore S} `{!UtxoGet S} `{!UtxoRoot S}.
Context `{Sha2} `{Ed25519} `{Layout} `{Argon2}.
Variable signature_domain : Hash256.
Variable coinbase_maturity : Z.

Record Node := {
  storage : ChainStorage; utxo_set : S; mempool : Mempool; tip : ChainTip;
  fork_blocks : fork_list; future_blocks : list (Block * Z); difficulty_cache : gmap (Hash256 * Z) Hash256;
  reorg_triggers : ReorgTriggerState;
  assume_valid : bool; assume_valid_verified : bool; assume_valid_cumulative_work_trusted : bool;
  event_bus : list NodeEvent
}.

Definition with_storage (db : ChainStorage) (n : Node) : Node :=
  Build_Node db (utxo_set n) (mempool n) (tip n) (fork_blocks n) (future_blocks n) (difficulty_cache n) (reorg_triggers n)
    (assume_valid n) (assume_valid_verified n) (assume_valid_cumulative_work_trusted n) (event_bus n).
Definition with_utxo (s : S) (n : Node) : Node :=
  Build_Node (storage n) s (mempool n) (tip n) (fork_blocks n) (future_blocks n) (difficulty_cache n) (reorg_triggers n)
    (assume_valid n) (assume_valid_verified n) (assume_valid_cumulative_work_trusted n) (event_bus n).
Definition with_mempool (m : Mempool) (n : Node) : Node :=
  Build_Node (storage n) (utxo_set n) m (tip n) (fork_blocks n) (future_blocks n) (difficulty_cache n) (reorg_triggers n)
    (assume_valid n) (assume_valid_verified n) (assume_valid_cumulative_work_trusted n) (event_bus n).
Definition with_tip (t : ChainTip) (n : Node) : Node :=
  Build_Node (storage n) (utxo_set n) (mempool n) t (fork_blocks n) (future_blocks n) (difficulty_cache n) (reorg_triggers n)
    (assume_valid n) (assume_valid_verified n) (assume_valid_cumulative_work_trusted n) (event_bus n).
Definition with_fork_blocks (l : fork_list) (n : Node) : Node :=
  Build_Node (storage n) (utxo_set n) (mempool n) (tip n) l (future_blocks n) (difficulty_cache n) (reorg_triggers n)
    (assume_valid n) (assume_valid_verified n) (assume_valid_cumulative_work_trusted n) (event_bus n).
Definition with_future_blocks (l : list (Block * Z)) (n : Node) : Node :=
  Build_Node (storage n) (utxo_set n) (mempool n) (tip n) (fork_blocks n) l (difficulty_cache n) (reorg_triggers n)
    (assume_valid n) (assume_valid_verified n) (assume_valid_cumulative_work_trusted n) (event_bus n).
Definition with_cache (c : gmap (Hash256 * Z) Hash256) (n : Node) : Node :=
  Build_Node (storage n) (utxo_set n) (mempool n) (tip n) (fork_blocks n) (future_blocks n) c (reorg_triggers n)
    (assume_valid n) (assume_valid_verified n) (assume_valid_cumulative_work_trusted n) (event_bus n).
Definition with_checkpoint (verified trusted : bool) (n : Node) : Node :=
  Build_Node (storage n) (utxo_set n) (mempool n) (tip n) (fork_blocks n) (future_blocks n) (difficulty_cache n) (reorg_triggers n)
    (assume_valid n) verified trusted (event_bus n).
Definition with_event (es : list NodeEvent) (n : Node) : Node :=
  Build_Node (storage n) (utxo_set n) (mempool n) (tip n) (fork_blocks n) (future_blocks n) (difficulty_cache n) (reorg_triggers n)
    (assume_valid n) (assume_valid_verified n) (assume_valid_cumulative_work_trusted n) (event_bus n ++ es).

(** Operations of the node. *)
Definition proc (A : Type) : Type := Node -> option (result ProcessBlockError A * Node).
#[export] Instance proc_ret : MRet proc := fun A a n => Some (Ok a, n).
#[export] Instance proc_bind : MBind proc := fun A B f c n =>
  match c n with
  | Some (Ok a, n) => f a n
  | Some (Err e, n) => Some (Err e, n)
  | None => None
  end.
Definition fail {A} (e : ProcessBlockError) : proc A := fun n => Some (Err e, n).
Definition gets {A} (f : Node -> A) : proc A := fun n => Some (Ok (f n), n).
Definition modify (f : Node -> Node) : proc unit := fun n => Some (Ok tt, f n).
(** [storage.f().map_err(|e| e.to_string())?] *)
Definition db_error (e : StorageError) : ProcessBlockError := Recoverable (StorageFailed e).
Definition read {A} (env : Env) (c : storage_call) (f : ChainStorage -> A) : proc A := fun n =>
  if io env c then Some (Err (db_error DbError), n) else Some (Ok (f (storage n)), n).
Definition lift_opt {A} (o : option A) (e : ProcessBlockError) : proc A :=
  match o with Some a => mret a | None => fail e end.
Definition lift_res {A E} (r : result E A) (f : E -> ProcessBlockError) : proc A :=
  match r with Ok a => mret a | Err e => fail (f e) end.
(** A storage transaction, its error as a value. *)
Definition write (fault : bool) (body : txn) : proc (result StorageError unit) := fun n =>
  let '(r, db) := write_txn fault body (storage n) in Some (Ok r, with_storage db n).
Definition evict (f1 f2 : bool) (id : Hash256) : proc (result StorageError unit) := fun n =>
  let '(r, db) := evict_fork_block f1 f2 id (storage n) in Some (Ok r, with_storage db n).
(** Operations on the UTXO set, their errors as values. *)
Definition on_utxo {E A} (c : S -> option (result E A * S)) : proc (result E A) := fun n =>
  match c (utxo_set n) with Some (r, s) => Some (Ok r, with_utxo s n) | None => None end.

(** ** Difficulty *)

Definition stored_headers (env : Env) (site : Hash256 -> storage_call) (db : ChainStorage) : header_source := fun id =>
  if io env (site id) then Err (DOther "storage error") else Ok (get_header id db).

(** A full cache loses an entry of least height. *)
Definition least_key (c : gmap (Hash256 * Z) Hash256) : option (Hash256 * Z) :=
  fold_left (fun m kv => match m with
                         | Some k => if snd (fst kv) <? snd k then Some (fst kv) else Some k
                         | None => Some (fst kv)
                         end) (map_to_list c) None.
Definition cache_insert (key : Hash256 * Z) (target : Hash256) (c : gmap (Hash256 * Z) Hash256) : gmap (Hash256 * Z) Hash256 :=
  let c := if MAX_DIFFICULTY_CACHE_ENTRIES <=? Z.of_nat (size c)
           then match least_key c with Some k => delete k c | None => c end else c in
  <[key := target]> c.
(** The target, and whether it had to be computed. *)
Definition cached_expected_difficulty (env : Env) (prev_id : Hash256) (h : Z) (n : Node) : result DifficultyError (Hash256 * bool) * Node :=
  match difficulty_cache n !! (prev_id, h) with
  | Some target => (Ok (target, false), n)
  | None =>
      match expected_difficulty (stored_headers env AtDifficulty (storage n)) prev_id h with
      | Err e => (Err e, n)
      | Ok target => (Ok (target, true), with_cache (cache_insert (prev_id, h) target (difficulty_cache n)) n)
      end
  end.
Definition expected_target (env : Env) (prev_id : Hash256) (h : Z) : proc Hash256 := fun n =>
  match cached_expected_difficulty env prev_id h n with
  | (Ok (target, _), n) => Some (Ok target, n)
  | (Err (AncestorNotFound id), n) => Some (Err (MissingReorgAncestor id), n)
  | (Err e, n) => Some (Err (Recoverable (DifficultyFailed e)), n)
  end.

(** ** Future blocks *)

Definition SECOND : Z := 1000000000.
Definition fresh_enough (now : Z) (e : Block * Z) : bool := (now - snd e) / SECOND <? FUTURE_BLOCK_MAX_AGE_SECS.
Definition buffer_future_block (env : Env) (b : Block) (n : Node) : Node :=
  let buf := List.filter (fresh_enough (now env)) (future_blocks n) in
  if existsb (fun e => bool_decide (block_id (header (fst e)) = block_id (header b))) buf then with_future_blocks buf n
  else
    let buf := if MAX_FUTURE_BLOCKS <=? len buf then tail buf else buf in
    with_future_blocks (buf ++ [(b, now env)]) n.

(** ** Keeping a fork block *)

(** Whom to evict for a new entry: [None] when the block is not kept, [Some None]
    when there is room. *)
Definition fork_victim (needed : gset Hash256) (id : Hash256) (work : bytes) (pool : fork_list) : option (option Hash256) :=
  if MAX_FORK_BLOCKS <=? len pool then
    match min_work pool with
    | Some (_, (weakest, least)) =>
        match lex_cmp work least with
        | Gt => Some (Some weakest)
        | _ =>
            if bool_decide (id ∈ needed) then
              match min_work_where (fun x => negb (bool_decide (x ∈ needed))) 0 pool with
              | Some (_, (victim, _)) => Some (Some victim)
              | None => None
              end
            else None
        end
    | None => Some None
    end
  else Some None.
(** The weakest entry no reorganisation waits for, or else the weakest. *)
Definition trim_victim (needed : gset Hash256) (pool : fork_list) : option (nat * (Hash256 * bytes)) :=
  match min_work_where (fun x => negb (bool_decide (x ∈ needed))) 0 pool with
  | Some v => Some v
  | None => min_work pool
  end.
Fixpoint evict_each (env : Env) (ids : list Hash256) : proc unit :=
  match ids with
  | [] => mret tt
  | id :: ids =>
      r ← evict (io env (AtForkEvict id)) (io env (AtForkCap id)) id;
      _ ← lift_res r db_error;
      evict_each env ids
  end.

Definition try_store_fork_block (env : Env) (b : Block) (work : bytes) : proc bool :=
  let id := block_id (header b) in
  known ← read env AtForkHasBlock (has_block id);
  if known : bool then mret false
  else
    let block_size := match Block_serialize b with Ok bs => len bs | Err _ => U64_MAX end in
    if MAX_FORK_BLOCK_SIZE <? block_size then mret false
    else
      needed ← gets (fun n => dom (triggers (reorg_triggers n)) : gset Hash256);
      pool ← gets fork_blocks;
      if in_pool id pool then mret false
      else
        match fork_victim needed id work pool with
        | None => mret false
        | Some evict_id =>
            _ ← evict_each env (match evict_id with Some eid => [eid] | None => [] end);
            r ← write (io env AtForkStore) (store_fork_block_atomic b work);
            _ ← lift_res r db_error;
            tracked ← read env AtForkRecheck (is_fork_block id);
            if negb tracked then mret false
            else
              pool ← gets fork_blocks;
              let pool := match evict_id with Some eid => filter (fun e => fst e <> eid) pool | None => pool end in
              let pool := if in_pool id pool then pool else pool ++ [(id, work)] in
              let '(pool, trimmed) := trim (trim_victim needed) (length pool) pool [] in
              _ ← modify (with_fork_blocks pool);
              _ ← evict_each env trimmed;
              mret true
        end.

Definition cleanup_promoted_fork_blocks (promoted : list Hash256) (n : Node) : Node :=
  with_fork_blocks (filter (fun e => fst e ∉ promoted) (fork_blocks n)) n.

(** A block that does not win: cheap checks, then the pool. *)
Definition keep_as_fork (env : Env) (b : Block) (new_tip : ChainTip) : proc ProcessBlockOutcome :=
  root ← lift_res (compute_tx_root (transactions b)) (fun e => Recoverable (TxRootUncomputable e));
  if bool_decide (tx_root (header b) <> root) then fail (Recoverable TxRootMismatch)
  else
    _ ← lift_res (validate_block_structure b) (fun e => Recoverable (StructureInvalid e));
    _ ← try_store_fork_block env b (cumulative_work new_tip);
    mret Stored.

(** ** Before the lock *)

Inductive prepared := Finished (o : ProcessBlockOutcome) | Contender (new_tip : ChainTip).

(** The checkpoint: a match is recorded, and the constant for its work compared. *)
Definition check_checkpoint (env : Env) (b : Block) : proc unit := fun n =>
  if assume_valid n && (height (header b) =? ASSUME_VALID_HEIGHT) then
    if bool_decide (block_id (header b) = ASSUME_VALID_HASH) then
      let work := if io env AtCheckpointWork then None else get_cumulative_work (prev_block_id (header b)) (storage n) in
      let trusted :=
        match work with
        | Some w => if bool_decide (add_work w (work_from_target (difficulty_target (header b))) = ASSUME_VALID_CUMULATIVE_WORK)
                    then assume_valid_cumulative_work_trusted n else false
        | None => assume_valid_cumulative_work_trusted n
        end in
      Some (Ok tt, with_checkpoint true trusted n)
    else Some (Err (Recoverable (CheckpointMismatch (block_id (header b)))), n)
  else Some (Ok tt, n).

Definition check_header (env : Env) (skip_pow : bool) (b : Block) (parent : BlockHeader) (ts : list Z) (target : Hash256)
  : result ValidationError unit :=
  if skip_pow then validate_block_header_skip_pow b (Some parent) ts target (wall_clock env)
  else validate_block_header b (Some parent) ts target (wall_clock env).

Definition prepare (env : Env) (skip_pow : bool) (b : Block) : proc prepared :=
  let id := block_id (header b) in
  let prev := prev_block_id (header b) in
  known ← read env AtHasBlock (has_block id);
  if known : bool then mret (Finished Stored)
  else if height (header b) =? 0 then fail (Recoverable HeightZero)
  else
    parent ← read env AtParentHeader (get_header prev);
    parent ← lift_opt parent (Recoverable ParentNotFound);
    ts ← read env AtTimestamps (get_ancestor_timestamps prev MTP_WINDOW);
    target ← expected_target env prev (height (header b));
    match check_header env skip_pow b parent ts target with
    | Err (TimestampTooFarAhead _ _) => _ ← modify (buffer_future_block env b); mret (Finished BufferedFuture)
    | Err e => fail (Recoverable (HeaderInvalid e))
    | Ok _ =>
        _ ← check_checkpoint env b;
        work ← read env AtParentWork (get_cumulative_work prev);
        work ← lift_opt work (Recoverable ParentWorkNotFound);
        let new_tip := ChainTip_new id (height (header b)) (difficulty_target (header b)) work in
        current ← gets tip;
        if negb (is_better_chain new_tip current) then o ← keep_as_fork env b new_tip; mret (Finished o)
        else mret (Contender new_tip)
    end.

(** ** Rolling blocks back and forth *)

Fixpoint apply_txs (h : Z) (txs : list Transaction) : store_op S unit :=
  match txs with [] => mret tt | tx :: txs => _ ← apply_transaction tx h; apply_txs h txs end.
Fixpoint redo_in_order (blocks : list Block) : store_op S unit :=
  match blocks with [] => mret tt | b :: blocks => _ ← apply_txs (height (header b)) (transactions b); redo_in_order blocks end.
Definition redo_old_chain_blocks (newest_first : list Block) : store_op S unit := redo_in_order (rev newest_first).

Fixpoint find_spent (id : Hash256) (all_spent : list (Hash256 * spent_list)) : option spent_list :=
  match all_spent with
  | [] => None
  | (id', spent) :: rest => if bool_decide (id' = id) then Some spent else find_spent id rest
  end.
Fixpoint undo_new_in_order (blocks : list Block) (all_spent : list (Hash256 * spent_list)) (s : S) : option (result reason unit * S) :=
  match blocks with
  | [] => Some (Ok tt, s)
  | b :: blocks =>
      match find_spent (block_id (header b)) all_spent with
      | None => Some (Err (MissingSpent (block_id (header b)) (height (header b))), s)
      | Some spent =>
          match undo_in_order (rev (transactions b)) spent s with
          | Some (Ok _, s) => undo_new_in_order blocks all_spent s
          | Some (Err e, s) => Some (Err (UndoFailed e), s)
          | None => None
          end
      end
  end.
Definition undo_applied_new_chain (oldest_first : list Block) (all_spent : list (Hash256 * spent_list)) : S -> option (result reason unit * S) :=
  undo_new_in_order (rev oldest_first) all_spent.

(** ** Extending the tip *)

(** What a change of the chain means for the mempool and for subscribers. *)
Record Change := { confirmed : list Transaction; orphaned : list Transaction; spent_side : list bytes }.

Definition apply_error (e : ValidationError) : ProcessBlockError :=
  match e with StateCorrupted _ => Fatal (ApplyCorrupted e) | _ => Recoverable (BlockTxInvalid e) end.
Definition undo_block_or_die {A} (b : Block) (spent : spent_list) (cause : reason) : proc A :=
  r ← on_utxo (undo_block_transactions b spent);
  match r with
  | Err e => fail (Fatal (RollbackAlsoFailed cause e))
  | Ok _ => fail (Recoverable cause)
  end.
Definition spent_scripts (spent : spent_list) : list bytes := map (fun oe => script (output (snd oe))) spent.

Definition extend_tip (env : Env) (b : Block) (new_tip : ChainTip) : proc Change :=
  r ← on_utxo (validate_and_apply_block_transactions_atomic signature_domain coinbase_maturity b);
  r ← lift_res r apply_error;
  let mutations := snd r in
  let spent := collect_spent_utxos mutations in
  root ← gets (fun n => store_root (utxo_set n));
  if bool_decide (Block.state_root (header b) <> root) then undo_block_or_die b spent StateRootMismatch
  else
    r ← write (io env AtCommitBlock) (commit_block_atomic b (cumulative_work new_tip) spent mutations);
    match r with
    | Err e => undo_block_or_die b spent (StorageFailed e)
    | Ok _ => mret {| confirmed := transactions b; orphaned := []; spent_side := spent_scripts spent |}
    end.

(** ** Reorganising *)

Definition load_block (env : Env) (c : storage_call) (id : Hash256) : proc (option Block) := fun n =>
  if io env c then Some (Err (db_error DbError), n)
  else match get_block id (storage n) with
       | Ok b => Some (Ok b, n)
       | Err e => Some (Err (db_error e), n)
       end.
Definition old_block (env : Env) (id : Hash256) : proc Block :=
  b ← load_block env (AtOldBlock id) id; lift_opt b (Fatal (CanonicalBlockMissing id)).
Definition new_block (env : Env) (id : Hash256) : proc Block :=
  b ← load_block env (AtNewBlock id) id; lift_opt b (MissingReorgAncestor id).

(** [n] blocks backwards from [id], appended to the chain collected so far. *)
Fixpoint walk (load : Hash256 -> proc Block) (n : nat) (id : Hash256) (chain : list Block) : proc (Hash256 * list Block) :=
  match n with
  | O => mret (id, chain)
  | Datatypes.S n => b ← load id; walk load n (prev_block_id (header b)) (chain ++ [b])
  end.
(** Both chains backwards until they meet; [fuel] bounds the rounds. *)
Fixpoint walk_both (env : Env) (fuel : nat) (old_id new_id : Hash256) (old_chain new_chain : list Block)
  : proc (Hash256 * list Block * list Block) :=
  if decide (old_id = new_id) then mret (old_id, old_chain, new_chain)
  else
    match fuel with
    | O => fun _ => None
    | Datatypes.S fuel =>
        ob ← old_block env old_id;
        nb ← new_block env new_id;
        walk_both env fuel (prev_block_id (header ob)) (prev_block_id (header nb)) (old_chain ++ [ob]) (new_chain ++ [nb])
    end.
(** The fork point, the old chain and the new chain, both newest first. *)
Definition find_fork (env : Env) (b : Block) (current : ChainTip) : proc (Hash256 * list Block * list Block) :=
  let old_height := tip_height current in
  let new_height := height (header b) - 1 in
  '(old_id, old_chain) ← walk (old_block env) (Z.to_nat (old_height - new_height)) (tip_block_id current) [];
  '(new_id, new_chain) ← walk (new_block env) (Z.to_nat (new_height - old_height)) (prev_block_id (header b)) [b];
  walk_both env (Datatypes.S (Z.to_nat (Z.min old_height new_height))) old_id new_id old_chain new_chain.

(** Restore the blocks undone so far, then report [cause]. *)
Definition abandon_undo {A} (undone : list Block) (cause : reason) : proc A :=
  r ← on_utxo (redo_old_chain_blocks undone);
  match r with
  | Err e => fail (Fatal (RedoFailed cause e))
  | Ok _ => fail (Fatal cause)
  end.
Definition disconnected_scripts (b : Block) (spent : spent_list) : list bytes :=
  spent_scripts spent ++ concat (map (fun tx => map script (outputs tx)) (transactions b)).
Fixpoint undo_old_chain (env : Env) (chain undone : list Block) (scripts : list bytes) : proc (list bytes) :=
  match chain with
  | [] => mret scripts
  | b :: chain =>
      let id := block_id (header b) in
      if io env (AtSpent id) then abandon_undo undone (StorageFailed DbError)
      else
        spent ← gets (fun n => get_spent_utxos id (storage n));
        match spent with
        | None => abandon_undo undone (MissingSpent id (height (header b)))
        | Some spent =>
            r ← on_utxo (undo_in_order (rev (transactions b)) spent);
            match r with
            | Err e => _ ← on_utxo (redo_old_chain_blocks undone); fail (Fatal (UndoFailed e))
            | Ok _ => undo_old_chain env chain (undone ++ [b]) (scripts ++ disconnected_scripts b spent)
            end
        end
  end.

(** The header rules of a stored block again, without proof of work and clock. *)
Definition recheck_header (env : Env) (b : Block) (n : Node) : option ProcessBlockError :=
  let id := block_id (header b) in
  let prev := prev_block_id (header b) in
  if io env (AtReorgParent id) then Some (Fatal (StorageFailed DbError))
  else match get_header prev (storage n) with
  | None => Some (Fatal (ReorgParentMissing (height (header b))))
  | Some parent =>
      if io env (AtReorgTimestamps id) then Some (Fatal (StorageFailed DbError))
      else
        let ts := get_ancestor_timestamps prev MTP_WINDOW (storage n) in
        match expected_difficulty (stored_headers env AtReorgDifficulty (storage n)) prev (height (header b)) with
        | Err (AncestorNotFound missing) => Some (MissingReorgAncestor missing)
        | Err e => Some (Fatal (DifficultyFailed e))
        | Ok target =>
            match validate_block_header_skip_pow b (Some parent) ts target None with
            | Err e => Some (Recoverable (ReorgHeaderInvalid (height (header b)) e))
            | Ok _ => None
            end
        end
  end.

(** What the application of the new chain has gathered, in its order. *)
Record Progress := { all_spent : list (Hash256 * spent_list); all_mutations : list (Hash256 * list UtxoMutation) }.
(** The error that stopped the application, if any, and what was applied. *)
Fixpoint apply_new_chain (env : Env) (chain : list Block) (p : Progress) : proc (option ProcessBlockError * Progress) :=
  match chain with
  | [] => mret (None, p)
  | b :: chain =>
      bad ← gets (recheck_header env b);
      match bad with
      | Some e => mret (Some e, p)
      | None =>
          r ← on_utxo (validate_and_apply_block_transactions_atomic signature_domain coinbase_maturity b);
          match r with
          | Err e => mret (Some (apply_error e), p)
          | Ok (_, mutations) =>
              let spent := collect_spent_utxos mutations in
              root ← gets (fun n => store_root (utxo_set n));
              if bool_decide (Block.state_root (header b) <> root) then
                r ← on_utxo (undo_block_transactions b spent);
                match r with
                | Err e => mret (Some (Fatal (RollbackAlsoFailed StateRootMismatch e)), p)
                | Ok _ => mret (Some (Recoverable StateRootMismatch), p)
                end
              else
                apply_new_chain env chain {|
                  all_spent := all_spent p ++ [(block_id (header b), spent)];
                  all_mutations := all_mutations p ++ [(block_id (header b), mutations)] |}
          end
      end
  end.

Definition reason_of (e : ProcessBlockError) : reason :=
  match e with Recoverable r | Fatal r => r | MissingReorgAncestor id => AncestorMissing id end.
(** Undo the new blocks that were applied, redo the old chain, report [cause]. *)
Definition abandon_reorg {A} (applied old_chain : list Block) (spent : list (Hash256 * spent_list)) (cause : ProcessBlockError) : proc A :=
  r ← on_utxo (undo_applied_new_chain applied spent);
  match r with
  | Err _ => fail (Fatal (NewChainUndoFailed (reason_of cause)))
  | Ok _ =>
      r ← on_utxo (redo_old_chain_blocks old_chain);
      match r with
      | Err e => fail (Fatal (RedoFailed (reason_of cause) e))
      | Ok _ => fail cause
      end
  end.

(** The cumulative work along the new chain. *)
Fixpoint chain_work_list (prev_work : bytes) (chain : list Block) : list (Hash256 * bytes) :=
  match chain with
  | [] => []
  | b :: chain =>
      let w := add_work prev_work (work_from_target (difficulty_target (header b))) in
      (block_id (header b), w) :: chain_work_list w chain
  end.

(** The old chain goes to the pool of fork blocks; failures are skipped. *)
Fixpoint demote_blocks (env : Env) (chain : list Block) (stored : fork_list) : proc fork_list :=
  match chain with
  | [] => mret stored
  | b :: chain =>
      let id := block_id (header b) in
      work ← gets (fun n => if io env (AtDemoteWork id) then None else get_cumulative_work id (storage n));
      match work with
      | None => demote_blocks env chain stored
      | Some w =>
          r ← write (io env (AtDemoteStore id)) (store_fork_block_atomic b w);
          demote_blocks env chain (match r with Ok _ => stored ++ [(id, w)] | Err _ => stored end)
      end
  end.
Fixpoint evict_quietly (env : Env) (ids : list Hash256) : proc unit :=
  match ids with
  | [] => mret tt
  | id :: ids => _ ← evict (io env (AtDemoteEvict id)) (io env (AtDemoteCap id)) id; evict_quietly env ids
  end.
Definition demote (env : Env) (old_chain : list Block) : proc unit :=
  stored ← demote_blocks env old_chain [];
  pool ← gets fork_blocks;
  let pool := fold_left (fun pool e => if in_pool (fst e) pool then pool else pool ++ [e]) stored pool in
  let '(pool, trimmed) := trim min_work (length pool) pool [] in
  _ ← modify (with_fork_blocks pool);
  evict_quietly env trimmed.

(** Transactions of the old chain that are not in the new one, without coinbases. *)
Definition orphaned_txs (old_chain : list Block) (confirmed : list Transaction) : list Transaction :=
  let new_ids : gset Hash256 := list_to_set (omap (fun tx => match tx_id tx with Ok id => Some id | Err _ => None end) confirmed) in
  List.filter (fun tx => negb (is_coinbase tx) && match tx_id tx with Ok id => negb (bool_decide (id ∈ new_ids)) | Err _ => false end)
    (concat (map transactions old_chain)).

Definition reorganise (env : Env) (b : Block) (new_tip current : ChainTip) : proc Change :=
  '(fork_point, old_chain, newest_first) ← find_fork env b current;
  scripts ← undo_old_chain env old_chain [] [];
  let new_chain := rev newest_first in
  '(err, p) ← apply_new_chain env new_chain {| all_spent := []; all_mutations := [] |};
  let applied := take (length (all_spent p)) new_chain in
  match err with
  | Some e => abandon_reorg applied old_chain (all_spent p) e
  | None =>
      work ← read env AtForkPointWork (get_cumulative_work fork_point);
      work ← lift_opt work (Fatal (ForkPointWorkMissing fork_point));
      let new_heights := map (fun blk => (height (header blk), block_id (header blk))) new_chain in
      let stale := if height (header b) <? tip_height current then Some (height (header b) + 1, tip_height current) else None in
      r ← write (io env AtCommitReorg)
            (commit_reorg_atomic b (cumulative_work new_tip) old_chain (all_spent p) (all_mutations p) new_heights new_chain
              (chain_work_list work new_chain) stale (block_id (header b)));
      match r with
      | Err e => abandon_reorg applied old_chain (all_spent p) (db_error e)
      | Ok _ =>
          let confirmed := concat (map transactions new_chain) in
          _ ← demote env old_chain;
          _ ← modify (cleanup_promoted_fork_blocks (map (fun blk => block_id (header blk)) new_chain));
          mret {| confirmed := confirmed; orphaned := orphaned_txs old_chain confirmed;
                  spent_side := scripts ++ concat (map (fun s => spent_scripts (snd s)) (all_spent p)) |}
      end
  end.

(** ** After the commit *)

(** [snapshot_for_outpoints], as a lookup. *)
Definition snapshot (s : S) (ops : list OutPoint) (op : OutPoint) : option UtxoEntry :=
  if bool_decide (op ∈ ops) then store_get s op else None.
(** Disconnected transactions that are still valid go back to the pool. *)
Fixpoint reintroduce (s : S) (h : Z) (txs : list Transaction) (m : Mempool) : option Mempool :=
  match txs with
  | [] => Some m
  | tx :: txs =>
      let snap := snapshot s (map input_outpoint (inputs tx)) in
      match validate_transaction signature_domain coinbase_maturity snap tx h with
      | Err _ => reintroduce s h txs m
      | Ok (fee, script_cost, script_validation_cost) =>
          match add_validated m tx fee script_cost script_validation_cost snap with
          | Some (_, m) => reintroduce s h txs m
          | None => None
          end
      end
  end.
Definition update_mempool (c : Change) : proc unit := fun n =>
  let m := remove_confirmed (confirmed c) (mempool n) in
  let new_height := saturating_add U64_MAX (tip_height (tip n)) 1 in
  let m := revalidate signature_domain coinbase_maturity (snapshot (utxo_set n) (referenced_outpoints m)) new_height m in
  match reintroduce (utxo_set n) new_height (orphaned c) m with
  | Some m => Some (Ok tt, with_mempool m n)
  | None => None
  end.
Definition announce (b : Block) (c : Change) : proc unit :=
  modify (with_event [ScriptsChanged (spent_side c ++ concat (map (fun tx => map script (outputs tx)) (confirmed c)));
                      TipChanged (height (header b))]).

(** ** Under the lock *)

Definition commit (env : Env) (b : Block) (new_tip : ChainTip) : proc ProcessBlockOutcome :=
  current ← gets tip;
  if negb (is_better_chain new_tip current) then keep_as_fork env b new_tip
  else
    c ← (if decide (prev_block_id (header b) = tip_block_id current) then extend_tip env b new_tip
         else reorganise env b new_tip current);
    _ ← modify (with_tip new_tip);
    _ ← update_mempool c;
    _ ← announce b c;
    mret Accepted.

Definition process_block_inner (env : Env) (b : Block) (skip_pow : bool) : proc ProcessBlockOutcome :=
  p ← prepare env skip_pow b;
  match p with
  | Finished o => mret o
  | Contender new_tip => commit env b new_tip
  end.
Definition process_block (env : Env) (b : Block) : proc ProcessBlockOutcome := process_block_inner env b false.
Definition process_block_pre_validated (env : Env) (b : Block) : proc ProcessBlockOutcome := process_block_inner env b true.
End Manager.
