(* ===== verification/StoreView.v ===== *)
(** * UTXO stores seen as maps

    What the chain manager needs of a UTXO store, as a class: an operation of the
    store returns, and does to the entries ([view]) what the map of [Utxo.v] does,
    or else it does not return and [lost] holds.  The map itself is an instance
    with [lost := False]: all its operations return.  [UtxoSet] is an instance with
    [lost := True]: its tree can run out of capacity, but whatever returns is
    right.  [follows] carries this through everything that is built from the
    operations: applying and undoing transactions and blocks. *)

From S2P Require Import Prelude Bytes Codec Hash Transaction Block U256 Difficulty Reward.
From S2P Require Import ScriptValue ScriptCodec Jets ScriptCost Eval FeeCost Smt Utxo TxValidation BlockValidation BlockApply.
#[local] Open Scope Z_scope.

Class StoreView (lost : Prop) (S : Type) `{UtxoStore S} `{!UtxoGet S} := {
  view : S -> utxo_map;
  view_insert o e s : match store_insert o e s with Some (r, s') => spec_insert o e (view s) = Some (r, view s') | None => lost end;
  view_remove o s : match store_remove o s with Some (e, s') => e = view s !! o /\ view s' = delete o (view s) | None => lost end;
  view_contains o s : store_contains o s = bool_decide (is_Some (view s !! o));
  view_get s : store_get s = store_get (view s)
}.

#[export] Instance map_view : StoreView False utxo_map.
Proof.
  refine {| view := fun u => u |}; try done. intros o e u. cbn [store_insert spec_store]. unfold spec_insert. destruct (u !! o); [done|]. by destruct (TxOutput_serialize _).
Defined.

Section SetView.
Context `{Sha2} `{StateTree}.
#[export] Instance set_view : StoreView True UtxoSet.
Proof.
  refine {| view := utxos |}; try done.
  - intros o e s. destruct (store_insert o e s) as [[r s']|] eqn:Er; [|done]. by apply projects_insert.
  - intros o s. destruct (store_remove o s) as [[e s']|] eqn:Hr; [|done]. pose proof (projects_remove o s (Ok e) s') as Hp. unfold removing in Hp. rewrite Hr in Hp.
    specialize (Hp eq_refl). cbn [store_remove spec_store] in Hp. by injection Hp as <- <-.
Defined.
End SetView.

Section Follows.
Context {lost : Prop} {S : Type} `{StoreView lost S} `{Sha2}.

Definition follows {E A} (c1 : S -> option (result E A * S)) (c2 : utxo_map -> option (result E A * utxo_map)) : Prop :=
  forall s, match c1 s with Some (r, s') => c2 (view s) = Some (r, view s') | None => lost end.

Lemma follows_result {A} (r : result StateError A) : follows (of_result r : store_op S A) (of_result r).
Proof. done. Qed.
Lemma follows_ret {A} (a : A) : follows (mret a : store_op S A) (mret a : store_op utxo_map A).
Proof. apply (follows_result (Ok a)). Qed.
Lemma follows_throw {A} e : follows (throw e : store_op S A) (throw e).
Proof. apply (follows_result (Err e)). Qed.
Lemma follows_bind {A B} (c1 : store_op S A) (c2 : store_op utxo_map A) (f1 : A -> store_op S B) (f2 : A -> store_op utxo_map B) :
  follows c1 c2 -> (forall a, follows (f1 a) (f2 a)) -> follows (c1 ≫= f1) (c2 ≫= f2).
Proof.
  intros Hc Hf s. unfold mbind, store_bind. specialize (Hc s). destruct (c1 s) as [[[a|e] s1]|]; [rewrite Hc; apply Hf|by rewrite Hc|done].
Qed.
Lemma follows_insert o e : follows (store_insert o e) (store_insert o e).
Proof. intros s. apply view_insert. Qed.
Lemma follows_removing o : follows (removing o) (removing o).
Proof.
  intros s. unfold removing. pose proof (view_remove o s) as Hr. destruct (store_remove o s) as [[e s1]|]; [|done].
  destruct Hr as [-> ->]. done.
Qed.

Lemma follows_apply tx h : follows (apply_transaction tx h) (apply_transaction tx h).
Proof.
  assert (forall ins, follows (spend_inputs ins) (spend_inputs ins)) as Hspend.
  { induction ins as [|i ins IH]; cbn [spend_inputs]; [apply follows_ret|]. apply follows_bind; [apply follows_removing|].
    intros [e|]; [|apply follows_throw]. apply follows_bind; [done|]. intros ms. apply follows_ret. }
  assert (forall id cb outs idx, follows (create_outputs id h cb idx outs) (create_outputs id h cb idx outs)) as Hcreate.
  { intros id cb. induction outs as [|o outs IH]; intros idx; cbn [create_outputs]; [apply follows_ret|].
    apply follows_bind; [apply follows_insert|]. intros _. apply follows_bind; [done|]. intros ms. apply follows_ret. }
  unfold apply_transaction. apply follows_bind; [apply follows_result|]. intros id.
  apply follows_bind; [destruct (negb _); [apply Hspend|apply follows_ret]|]. intros rs. apply follows_bind; [apply Hcreate|].
  intros ms. apply follows_ret.
Qed.

Lemma follows_remove_outputs id idx n : follows (remove_outputs id idx n) (remove_outputs id idx n).
Proof.
  revert idx. induction n as [|n IH]; intros idx; cbn [remove_outputs]; [apply follows_ret|].
  apply follows_bind; [apply follows_removing|]. intros [e|]; [apply IH|apply follows_throw].
Qed.
(** A test of membership. *)
Lemma follows_contains {A} o (c1 d1 : store_op S A) c2 d2 : follows c1 c2 -> follows d1 d2 ->
  follows (fun s => if store_contains o s then c1 s else d1 s) (fun u => if store_contains o u then c2 u else d2 u).
Proof.
  intros Hc Hd s. rewrite view_contains. change (store_contains o (view s)) with (bool_decide (is_Some (view s !! o))). destruct (bool_decide _); [apply Hc|apply Hd].
Qed.
Lemma follows_restore prev : follows (restore_inputs prev) (restore_inputs prev).
Proof.
  induction prev as [|[o e] prev IH]; cbn [restore_inputs]; [apply follows_ret|]. apply (follows_contains o); [apply follows_throw|].
  apply follows_bind; [apply follows_insert|by intros _].
Qed.
Lemma follows_undo tx prev : follows (undo_transaction tx prev) (undo_transaction tx prev).
Proof.
  unfold undo_transaction. destruct (_ && _); [apply follows_throw|]. apply follows_bind; [apply follows_result|]. intros id.
  apply follows_bind; [apply follows_remove_outputs|]. intros _. apply follows_restore.
Qed.
Lemma follows_undo_partial tx prev : follows (undo_partial_transaction tx prev) (undo_partial_transaction tx prev).
Proof.
  assert (forall id n idx, follows (discard_outputs id idx n) (discard_outputs id idx n)) as Hd.
  { intros id. induction n as [|n IH]; intros idx; cbn [discard_outputs]; [apply follows_ret|].
    apply follows_bind; [apply follows_removing|]. intros _. apply IH. }
  assert (forall prev, follows (restore_missing prev) (restore_missing prev)) as Hm.
  { clear prev. induction prev as [|[o e] prev IH]; cbn [restore_missing]; [apply follows_ret|]. intros s.
    rewrite view_contains. change (store_contains o (view s)) with (bool_decide (is_Some (view s !! o))). destruct (bool_decide _); [apply IH|].
    apply follows_bind; [apply follows_insert|by intros _]. }
  unfold undo_partial_transaction. apply follows_bind; [apply follows_result|]. intros id. apply follows_bind; [apply Hd|]. intros _.
  destruct (negb _); [apply Hm|apply follows_ret].
Qed.
Lemma follows_undo_in_order txs spent : follows (undo_in_order txs spent) (undo_in_order txs spent).
Proof.
  induction txs as [|tx txs IH]; cbn [undo_in_order]; [apply follows_ret|]. apply follows_bind; [apply follows_undo|by intros _].
Qed.

Lemma follows_rolled_back {A} (c1 : store_op S unit) c2 e : follows c1 c2 -> follows (rolled_back (A := A) c1 e) (rolled_back c2 e).
Proof. intros Hc s. unfold rolled_back. specialize (Hc s). destruct (c1 s) as [[[[]|u] s1]|]; [by rewrite Hc..|done]. Qed.
Lemma follows_apply_failed {A} tx spent (c1 : store_op S unit) c2 e :
  follows c1 c2 -> follows (apply_failed (A := A) tx spent c1 e) (apply_failed tx spent c2 e).
Proof.
  intros Hc s. unfold apply_failed. pose proof (follows_undo_partial tx spent s) as Hu. destruct (undo_partial_transaction tx spent s) as [[[[]|u] s1]|]; [| |done];
    rewrite Hu; [by apply follows_rolled_back|done].
Qed.

Context `{Ed25519} `{Layout}.
Variable signature_domain : Hash256.
Variable coinbase_maturity : Z.

Lemma follows_validated b txs p :
  follows (apply_validated signature_domain coinbase_maturity b txs p) (apply_validated signature_domain coinbase_maturity b txs p).
Proof.
  revert p. induction txs as [|tx txs IH]; intros p s; cbn [apply_validated]; [done|]. rewrite view_get.
  destruct (validate_transaction _ _ _ _ _) as [[[fee sc] svc]|e]; [|apply follows_rolled_back, follows_undo_in_order].
  destruct (snapshot_inputs _ _ _ _) as [[spent bytes]|[size spent]]; [|apply follows_rolled_back, follows_undo_in_order].
  pose proof (follows_apply tx (height (header b)) s) as Ha. destruct (apply_transaction tx _ s) as [[[m|e] s1]|]; [| |done]; rewrite Ha.
  - apply IH.
  - apply follows_apply_failed, follows_undo_in_order.
Qed.
Lemma follows_coinbase b coinbase : follows (apply_coinbase b coinbase) (apply_coinbase b coinbase).
Proof.
  intros s. unfold apply_coinbase. pose proof (follows_apply coinbase (height (header b)) s) as Ha.
  destruct (apply_transaction coinbase _ s) as [[[m|e] s1]|]; [| |done]; rewrite Ha; [done|apply follows_rolled_back, follows_undo].
Qed.
Lemma follows_atomic b : transactions b <> [] ->
  follows (validate_and_apply_block_transactions_atomic signature_domain coinbase_maturity b)
    (validate_and_apply_block_transactions_atomic signature_domain coinbase_maturity b).
Proof.
  intros Hne s. unfold validate_and_apply_block_transactions_atomic. destruct (transactions b) as [|coinbase txs]; [done|].
  pose proof (follows_coinbase b coinbase s) as Hc. destruct (apply_coinbase b coinbase s) as [[[p|e] s1]|]; [| |done]; rewrite Hc; [|done].
  pose proof (follows_validated b txs p s1) as Hv. destruct (apply_validated _ _ b txs p s1) as [[[p2|e] s2]|]; [| |done]; rewrite Hv; [|done].
  cbv zeta. destruct (_ <? _); [apply follows_rolled_back, follows_undo_in_order|].
  destruct (checked_add _ _ _); [|apply follows_rolled_back, follows_undo_in_order].
  destruct (validate_coinbase _ _ _); [done|apply follows_rolled_back, follows_undo_in_order].
Qed.
End Follows.
