(* ===== verification/ChainModel.v ===== *)
(** * Chains of blocks and their histories

    The mathematics behind the chain manager.  [World] collects the blocks that
    may ever be offered, and says that hashing does not collide on them.
    [chain_to] gives height and cumulative work of every block that descends from
    genesis.  [chain_log] is a chain of applied blocks with their mutation logs
    and the set it leads to; its facts are what undoing and redoing blocks needs,
    and that no transaction of a chain is repeated by a valid block. *)

From S2P Require Import Prelude Bytes Codec Hash Transaction Block U256 Difficulty Reward.
From S2P Require Import ScriptValue ScriptCodec Jets ScriptCost Eval FeeCost Smt Utxo TxValidation BlockValidation BlockApply Mempool.
From S2P Require Import Storage ChainManager.
#[local] Open Scope Z_scope.

Definition root_ok `{Sha2} (b : Block) : Prop := compute_tx_root (transactions b) = Ok (tx_root (header b)).

(** The blocks in play, valid or not.  [w_ids] is [block_id] (with the Merkle
    root) being free of collisions on them, [w_txs] the same for [tx_id], and
    [w_zero] says that no transaction hashes to zero.  [w_coinbase] is a condition
    on what peers send: no two blocks at different heights have the same coinbase
    transaction.  The code compares a coinbase with the height of its block only
    after it has applied it ([validate_coinbase]), so a block that repeats a
    coinbase is not turned away cleanly: the application fails, its rollback
    removes the genuine output, and the node stops. *)
Record World `{Sha2} (U : Block -> Prop) (genesis : Block) : Prop := {
  w_wf b : U b -> Block_wf b;
  w_ids b1 b2 : U b1 -> U b2 -> root_ok b1 -> root_ok b2 -> block_id (header b1) = block_id (header b2) -> b1 = b2;
  w_txs b1 b2 tx1 tx2 id : U b1 -> U b2 -> tx1 ∈ transactions b1 -> tx2 ∈ transactions b2 ->
    tx_id tx1 = Ok id -> tx_id tx2 = Ok id -> inputs tx1 = inputs tx2;
  w_zero b tx : U b -> tx ∈ transactions b -> tx_id tx <> Ok Hash256_ZERO;
  w_coinbase b1 b2 tx1 tx2 id : U b1 -> U b2 -> head (transactions b1) = Some tx1 -> head (transactions b2) = Some tx2 ->
    tx_id tx1 = Ok id -> tx_id tx2 = Ok id -> height (header b1) = height (header b2);
  w_genesis : U genesis /\ root_ok genesis /\ height (header genesis) = 0 /\
    exists coinbase, transactions genesis = [coinbase] /\ is_coinbase coinbase = true
}.

Section Chains.
Context `{Sha2}.
Variables (U : Block -> Prop) (genesis : Block).
Hypothesis world : World U genesis.
Abbreviation id_of b := (block_id (header b)).

(** ** Height and work *)

Inductive chain_to : Hash256 -> Z -> bytes -> Prop :=
| to_genesis : chain_to (id_of genesis) 0 (work_from_target (difficulty_target (header genesis)))
| to_child b h w :
    U b -> root_ok b -> chain_to (prev_block_id (header b)) h w -> height (header b) = h + 1 ->
    chain_to (id_of b) (h + 1) (add_work w (work_from_target (difficulty_target (header b)))).

Lemma chain_to_nonneg id h w : chain_to id h w -> 0 <= h.
Proof. induction 1; lia. Qed.

Lemma genesis_not_child b h w : U b -> root_ok b -> chain_to (prev_block_id (header b)) h w -> height (header b) = h + 1 -> id_of b <> id_of genesis.
Proof.
  intros Ub Rb Hc Hh E. destruct (w_genesis _ _ world) as (Ug & Rg & Hg & _). apply chain_to_nonneg in Hc.
  apply (w_ids _ _ world) in E as ->; [lia|done..].
Qed.

Lemma chain_to_fun id h w h' w' : chain_to id h w -> chain_to id h' w' -> h = h' /\ w = w'.
Proof.
  intros Hc. revert h' w'. induction Hc as [|b h w Ub Rb Hc IH Hh]; intros h' w' Hc'.
  - remember (id_of genesis) as id eqn:Eid. destruct Hc' as [|b h w Ub Rb Hc' Hh]; [done|]. by apply (genesis_not_child b h w) in Eid.
  - remember (id_of b) as id eqn:Eid. destruct Hc' as [|b' h' w' Ub' Rb' Hc' Hh'].
    + symmetry in Eid. by apply (genesis_not_child b h w) in Eid.
    + apply (w_ids _ _ world) in Eid as ->; [|done..]. by destruct (IH _ _ Hc') as [-> ->].
Qed.

Lemma chain_to_height b h w : U b -> root_ok b -> chain_to (id_of b) h w -> height (header b) = h.
Proof.
  intros Ub Rb Hc. remember (id_of b) as id eqn:Eid. destruct Hc as [|b' h w Ub' Rb' Hc Hh].
  - destruct (w_genesis _ _ world) as (Ug & Rg & Hg & _). by apply (w_ids _ _ world) in Eid as <-.
  - by apply (w_ids _ _ world) in Eid as <-.
Qed.

(** The parent of a block that is not at height zero. *)
Lemma chain_to_parent b h w : U b -> root_ok b -> chain_to (id_of b) h w -> h <> 0 ->
  exists w', chain_to (prev_block_id (header b)) (h - 1) w' /\ w = add_work w' (work_from_target (difficulty_target (header b))).
Proof.
  intros Ub Rb Hc Hnz. remember (id_of b) as id eqn:Eid. destruct Hc as [|b' h w Ub' Rb' Hc Hh]; [done|].
  apply (w_ids _ _ world) in Eid as <-; [|done..]. exists w. rewrite Z.add_simpl_r. done.
Qed.

(** At height zero there is only genesis. *)
Lemma chain_to_zero id w : chain_to id 0 w -> id = id_of genesis.
Proof. intros Hc. remember 0 as z eqn:Ez. destruct Hc as [|b h w Ub Rb Hc Hh]; [done|]. apply chain_to_nonneg in Hc. lia. Qed.

(** ** Logs *)

Abbreviation log := (list (Block * list UtxoMutation)).

(** The identifiers of the transactions of a chain. *)
Definition seen (l : log) (id : Hash256) : Prop := exists b ms tx, (b, ms) ∈ l /\ tx ∈ transactions b /\ tx_id tx = Ok id.

Record block_step (l : log) (u : utxo_map) (b : Block) (ms : list UtxoMutation) (v : utxo_map) : Prop := {
  bs_in : U b;
  bs_shape : exists coinbase others, well_shaped b coinbase others;
  bs_size : exists bytes, Block_serialize b = Ok bytes /\ len bytes <= MAX_BLOCK_SIZE;
  bs_applied : applied (height (header b)) (transactions b) u ms v;
  bs_keys : NoDup (concat (map spend_keys (transactions b)));
  bs_new tx id : tx ∈ transactions b -> tx_id tx = Ok id -> ~ seen l id;
  bs_inputs : Forall (fun tx => inputs tx <> []) (transactions b)
}.

Inductive chain_log : log -> utxo_map -> Prop :=
| log_genesis ms u : applied 0 (transactions genesis) ∅ ms u -> chain_log [(genesis, ms)] u
| log_step l u p pms b ms v :
    chain_log l u -> last l = Some (p, pms) -> prev_block_id (header b) = id_of p -> height (header b) = height (header p) + 1 ->
    block_step l u b ms v -> chain_log (l ++ [(b, ms)]) v.

Lemma seen_app l1 l2 id : seen (l1 ++ l2) id <-> seen l1 id \/ seen l2 id.
Proof. unfold seen. setoid_rewrite elem_of_app. naive_solver. Qed.
Lemma seen_one b ms id : seen [(b, ms)] id <-> exists tx, tx ∈ transactions b /\ tx_id tx = Ok id.
Proof. unfold seen. setoid_rewrite list_elem_of_singleton. naive_solver. Qed.

Lemma log_nonempty l u : chain_log l u -> l <> [].
Proof. destruct 1; [done|]. by destruct l. Qed.

Lemma log_blocks l u b ms : chain_log l u -> (b, ms) ∈ l -> U b /\ root_ok b /\ Forall (fun tx => inputs tx <> []) (transactions b).
Proof.
  intros Hl. induction Hl as [ms' u Ha|l u p pms b' ms' v Hl IH _ _ _ Hs]; intros Hin.
  - apply list_elem_of_singleton in Hin. injection Hin as -> ->. destruct (w_genesis _ _ world) as (? & ? & _ & cb & -> & Hcb).
    split_and!; [done|done|]. constructor; [|done]. intros E. unfold is_coinbase in Hcb. by rewrite E in Hcb.
  - apply elem_of_app in Hin as [Hin|Hin]; [by apply IH|]. apply list_elem_of_singleton in Hin. injection Hin as -> ->.
    destruct (bs_shape _ _ _ _ _ Hs) as (cb & os & Hws). split_and!; [apply Hs|apply Hws|apply Hs].
Qed.

(** Positions are heights. *)
Lemma log_heights l u i b ms : chain_log l u -> l !! i = Some (b, ms) -> height (header b) = Z.of_nat i.
Proof.
  intros Hl. revert i b ms. induction Hl as [ms' u Ha|l u p pms b' ms' v Hl IH Hlast Hp Hh Hs]; intros i b ms Hi.
  - destruct i; [|done]. injection Hi as <- <-. by destruct (w_genesis _ _ world) as (_ & _ & -> & _).
  - apply lookup_app_Some in Hi as [Hi|[Hi Hx]]; [by eapply IH|]. apply list_lookup_singleton_Some in Hx as [Hx E]. injection E as <- <-.
    rewrite Hh. rewrite last_lookup in Hlast. rewrite (IH _ _ _ Hlast). pose proof (log_nonempty _ _ Hl). destruct l; [done|]. cbn [length] in *. lia.
Qed.

(** Every block but the first names its predecessor. *)
Lemma log_prev l u j b ms : chain_log l u -> l !! S j = Some (b, ms) -> exists p pms, l !! j = Some (p, pms) /\ prev_block_id (header b) = id_of p.
Proof.
  intros Hl. revert j b ms. induction Hl as [ms' u Ha|l u p pms b' ms' v Hl IH Hlast Hp Hh Hs]; intros j b ms Hi; [done|].
  apply lookup_app_Some in Hi as [Hi|[Hi Hx]].
  - destruct (IH _ _ _ Hi) as (q & qms & Hq & Hpq). exists q, qms. split; [by apply lookup_app_l_Some|done].
  - apply list_lookup_singleton_Some in Hx as [Hx [= <- <-]]. exists p, pms. split; [|done]. apply lookup_app_l_Some. rewrite last_lookup in Hlast.
    replace j with (pred (length l)) by lia. done.
Qed.

Lemma log_last l u p pms : chain_log l u -> last l = Some (p, pms) -> height (header p) = Z.of_nat (length l) - 1.
Proof.
  intros Hl Hlast. rewrite last_lookup in Hlast. rewrite (log_heights _ _ _ _ _ Hl Hlast). pose proof (log_nonempty _ _ Hl). destruct l; [done|]. cbn [length]. lia.
Qed.

Lemma log_chain_to l u i b ms : chain_log l u -> l !! i = Some (b, ms) -> exists w, chain_to (id_of b) (Z.of_nat i) w.
Proof.
  intros Hl Hi. rewrite <- (log_heights _ _ _ _ _ Hl Hi). revert i b ms Hi.
  induction Hl as [ms' u Ha|l u p pms b' ms' v Hl IH Hlast Hp Hh Hs]; intros i b ms Hi.
  - destruct i; [|done]. injection Hi as <- <-. destruct (w_genesis _ _ world) as (_ & _ & -> & _). eexists. apply to_genesis.
  - apply lookup_app_Some in Hi as [Hi|[Hi Hx]]; [by eapply IH|]. apply list_lookup_singleton_Some in Hx as [Hx E]. injection E as <- <-.
    rewrite last_lookup in Hlast. destruct (IH _ _ _ Hlast) as [w Hw]. destruct (bs_shape _ _ _ _ _ Hs) as (cb & os & Hws).
    rewrite <- Hp in Hw. rewrite Hh. eexists. apply (to_child b'); [apply Hs|apply Hws|exact Hw|done].
Qed.

Lemma log_distinct l u i j b1 ms1 b2 ms2 :
  chain_log l u -> l !! i = Some (b1, ms1) -> l !! j = Some (b2, ms2) -> id_of b1 = id_of b2 -> i = j.
Proof.
  intros Hl Hi Hj E. destruct (log_blocks _ _ b1 ms1 Hl) as (U1 & R1 & _); [by eapply list_elem_of_lookup_2|].
  destruct (log_blocks _ _ b2 ms2 Hl) as (U2 & R2 & _); [by eapply list_elem_of_lookup_2|].
  apply (w_ids _ _ world) in E as ->; [|done..]. pose proof (log_heights _ _ _ _ _ Hl Hi). pose proof (log_heights _ _ _ _ _ Hl Hj). lia.
Qed.

Lemma log_serializable l u : chain_log l u -> serializable u.
Proof.
  induction 1 as [ms u Ha|l u p pms b ms v Hl IH _ _ _ Hs].
  - eapply applied_serializable; [exact Ha|]. by intros o e ?%lookup_empty_Some.
  - eapply applied_serializable; [apply Hs|done].
Qed.

(** ** What a chain has spent is gone *)

(** Spending removes an entry that was there, and creating outputs of another
    transaction does not bring it back. *)
Lemma apply_spends_removed tx h v m w o :
  apply_transaction tx h v = Some (Ok m, w) -> is_coinbase tx = false -> o ∈ spend_keys tx ->
  is_Some (v !! o) /\ (tx_id tx <> Ok (op_tx_id o) -> w !! o = None).
Proof.
  unfold apply_transaction, mbind, store_bind, of_result. destruct (tx_id tx) as [id|]; [|done]. cbn [map_err]. intros Ha Hcb Ho. rewrite Hcb in Ha. cbn [negb] in Ha.
  destruct (spend_inputs (inputs tx) v) as [[[ms0|] v0]|] eqn:Es; [|done|done].
  destruct (create_outputs id h false 0 (outputs tx) v0) as [[[ms1|] v1]|] eqn:Ec; [|done|done]. injection Ha as <- <-.
  destruct (spend_effect _ _ _ _ Es) as (Hk & _). destruct (spend_spec _ _ _ _ Es) as (_ & Hnd & Hnone & ->).
  assert (o ∈ (collect_spent_utxos ms0).*1) as Ho' by (by rewrite Hk). split.
  - apply list_elem_of_fmap in Ho' as ([o' e] & -> & Hin). exists e. apply lookup_union_Some_l. by apply elem_of_list_to_map.
  - intros Hid. destruct (v1 !! o) as [e|] eqn:E1; [|done]. exfalso. destruct (create_effect _ _ _ _ _ _ _ _ Ec) as (_ & _ & _ & Hc).
    destruct (Hc o e E1) as [E0|[(i & _ & ->) _]]; [|done]. rewrite list_elem_of_In in Ho'. by rewrite (Hnone o Ho') in E0.
Qed.

(** After a sequence of transactions with distinct identifiers, none of them that
    of an entry, everything they spend is gone; and it came from the start or
    from the sequence. *)
Lemma applied_spent_gone h txs u ms v ids :
  applied h txs u ms v -> Forall2 (fun tx id => tx_id tx = Ok id) txs ids -> NoDup ids ->
  (forall tx id o e, tx ∈ txs -> tx_id tx = Ok id -> u !! o = Some e -> op_tx_id o <> id) ->
  forall tx o, tx ∈ txs -> is_coinbase tx = false -> o ∈ spend_keys tx ->
    v !! o = None /\ ((exists e, u !! o = Some e) \/ exists tx', tx' ∈ txs /\ tx_id tx' = Ok (op_tx_id o)).
Proof.
  intros Ha. revert ids. induction Ha as [u|txs u ms v tx0 m w Ha IH Hap]; intros ids Hids Hnd Hfr tx o Htx Hcb Ho; [by apply not_elem_of_nil in Htx|].
  apply Forall2_app_inv_l in Hids as (ids1 & ids2 & H1 & H2 & ->). inversion H2 as [|? id0 ? ids3 Hid0 H3]; subst. inversion H3; subst.
  apply NoDup_app in Hnd as (Hnd1 & Hdis & _).
  assert (forall tx' id', tx' ∈ txs -> tx_id tx' = Ok id' -> id' <> id0) as Hne.
  { intros tx' id' Htx' Hid' ->. apply list_elem_of_lookup in Htx' as [k Hk]. destruct (Forall2_lookup_l _ _ _ _ _ H1 Hk) as (x & Hx & Ex).
    apply (Hdis x); [by eapply list_elem_of_lookup_2|]. rewrite Hid' in Ex. injection Ex as ->. left. }
  assert (forall tx id o e, tx ∈ txs -> tx_id tx = Ok id -> u !! o = Some e -> op_tx_id o <> id) as Hfr' by (intros ????; intros; eapply Hfr; [by apply elem_of_app; left|done|done]).
  assert (forall o' e, v !! o' = Some e -> (exists e, u !! o' = Some e) \/ exists tx', tx' ∈ txs /\ tx_id tx' = Ok (op_tx_id o')) as Hsrc.
  { intros o' e Ho'. destruct (applied_entries _ _ _ _ _ Ha o' e Ho') as [|(tx' & ? & ? & _)]; eauto. }
  assert (forall o' e, v !! o' = Some e -> op_tx_id o' <> id0) as Hv0.
  { intros o' e Ho'. destruct (Hsrc o' e Ho') as [[e' He']|(tx' & Htx' & Hid')]; [eapply Hfr; [apply elem_of_app; right; left|exact Hid0|exact He']|by eapply Hne]. }
  apply elem_of_app in Htx as [Htx|Htx].
  - destruct (IH ids1 H1 Hnd1 Hfr' tx o Htx Hcb Ho) as [Hv Hs]. split; [|destruct Hs as [?|(tx' & ? & ?)]; [by left|right; exists tx'; set_solver]].
    destruct (w !! o) as [e|] eqn:Ew; [|done]. exfalso. destruct (apply_effect _ _ _ _ _ Hap) as (_ & _ & _ & id & Hid & Hk).
    destruct (Hk o e Ew) as [|[(i & _ & ->) _]]; [congruence|]. cbn [op_tx_id output_outpoint] in *. rewrite Hid0 in Hid. injection Hid as <-.
    destruct Hs as [[e' He']|(tx' & Htx' & Hid')]; [|by apply (Hne tx' id0)].
    eapply (Hfr tx0 id0); [apply elem_of_app; right; left|done|exact He'|done].
  - apply list_elem_of_singleton in Htx as ->. destruct (apply_spends_removed _ _ _ _ _ _ Hap Hcb Ho) as [[e He] Hgone]. split.
    + apply Hgone. rewrite Hid0. intros [= E]. by apply (Hv0 o e He).
    + destruct (Hsrc o e He) as [?|(tx' & ? & ?)]; [by left|right; exists tx'; set_solver].
Qed.

Lemma log_entries l u o e : chain_log l u -> u !! o = Some e -> seen l (op_tx_id o) /\ op_tx_id o <> Hash256_ZERO.
Proof.
  intros Hl. assert (u !! o = Some e -> seen l (op_tx_id o)) as Hseen.
  { revert o e. induction Hl as [ms u Ha|l u p pms b ms v Hl IH _ _ _ Hs]; intros o e Ho.
    - destruct (applied_entries _ _ _ _ _ Ha o e Ho) as [?%lookup_empty_Some|(tx & ? & ? & _)]; [done|]. apply seen_one. eauto.
    - apply seen_app. destruct (applied_entries _ _ _ _ _ (bs_applied _ _ _ _ _ Hs) o e Ho) as [?|(tx & ? & ? & _)]; [left; by eapply IH|right]. apply seen_one. eauto. }
  intros Ho. specialize (Hseen Ho). split; [done|]. destruct Hseen as (b & ms & tx & Hb & Htx & Hid). intros E. rewrite E in Hid.
  destruct (log_blocks _ _ _ _ Hl Hb) as (Ub & _). by apply (w_zero _ _ world b tx).
Qed.

Lemma log_spent_gone l u b ms tx o :
  chain_log l u -> (b, ms) ∈ l -> tx ∈ transactions b -> is_coinbase tx = false -> o ∈ spend_keys tx ->
  u !! o = None /\ seen l (op_tx_id o).
Proof.
  intros Hl. revert b ms tx o. induction Hl as [ms' u Ha|l u p pms b' ms' v Hl IH _ _ _ Hs]; intros b ms tx o Hin Htx Hcb Ho.
  - exfalso. apply list_elem_of_singleton in Hin. injection Hin as -> ->. destruct (w_genesis _ _ world) as (_ & _ & _ & cb & E & Hg).
    rewrite E in Htx. apply list_elem_of_singleton in Htx as ->. congruence.
  - rewrite seen_app, seen_one. apply elem_of_app in Hin as [Hin|Hin].
    + destruct (IH _ _ _ _ Hin Htx Hcb Ho) as [Hu Hsn]. split; [|by left]. destruct (v !! o) as [e|] eqn:Ev; [|done]. exfalso.
      destruct (applied_entries _ _ _ _ _ (bs_applied _ _ _ _ _ Hs) o e Ev) as [|(tx' & Htx' & Hid' & _)]; [congruence|].
      by apply (bs_new _ _ _ _ _ Hs tx' (op_tx_id o)).
    + apply list_elem_of_singleton in Hin. injection Hin as -> ->. destruct (bs_shape _ _ _ _ _ Hs) as (cb & os & Hws).
      destruct (ws_ids _ _ _ Hws) as (ids & Hids & Hnd).
      destruct (applied_spent_gone _ _ _ _ _ ids (bs_applied _ _ _ _ _ Hs) Hids Hnd) with (tx := tx) (o := o) as [Hv Hsrc]; [|done|done|done|].
      { intros tx' id o' e' Htx' Hid' Ho' E. apply (bs_new _ _ _ _ _ Hs tx' id Htx' Hid'). rewrite <- E. by eapply log_entries. }
      split; [done|]. destruct Hsrc as [[e He]|?]; [left; by eapply log_entries|by right].
Qed.

(** Only the first transaction of a block of a chain is a coinbase. *)
Lemma log_coinbase_first l u b ms tx : chain_log l u -> (b, ms) ∈ l -> tx ∈ transactions b -> is_coinbase tx = true -> head (transactions b) = Some tx.
Proof.
  intros Hl. induction Hl as [ms' u Ha|l u p pms b' ms' v Hl IH _ _ _ Hs]; intros Hin Htx Hcb.
  - apply list_elem_of_singleton in Hin. injection Hin as -> ->. destruct (w_genesis _ _ world) as (_ & _ & _ & cb & E & _).
    rewrite E in *. by apply list_elem_of_singleton in Htx as ->.
  - apply elem_of_app in Hin as [Hin|Hin]; [by apply IH|]. apply list_elem_of_singleton in Hin. injection Hin as -> ->.
    destruct (bs_shape _ _ _ _ _ Hs) as (cb & os & Hws). rewrite (ws_txs _ _ _ Hws) in Htx |- *. apply elem_of_cons in Htx as [->|Htx]; [done|].
    pose proof (ws_others _ _ _ Hws) as Ho. rewrite Forall_forall in Ho. specialize (Ho _ Htx). congruence.
Qed.

(** The coinbase of the next block is new: it names its height. *)
Lemma log_coinbase_new l u p pms b coinbase others id :
  chain_log l u -> last l = Some (p, pms) -> U b -> well_shaped b coinbase others -> height (header b) = height (header p) + 1 ->
  tx_id coinbase = Ok id -> ~ seen l id.
Proof.
  intros Hl Hlast Ub Hws Hh Hid (b' & ms' & tx' & Hb' & Htx' & Hid'). destruct (log_blocks _ _ _ _ Hl Hb') as (Ub' & _ & _).
  assert (inputs tx' = inputs coinbase) as Ein.
  { eapply (w_txs _ _ world b' b); [done|done|done|rewrite (ws_txs _ _ _ Hws); left|done|done]. }
  pose proof (ws_coinbase _ _ _ Hws) as Hcb. assert (is_coinbase tx' = true) as Hcb' by (unfold is_coinbase in *; by rewrite Ein).
  pose proof (log_coinbase_first _ _ _ _ _ Hl Hb' Htx' Hcb') as Hhead.
  assert (height (header b') = height (header b)) as Ei by (eapply (w_coinbase _ _ world b' b); [done|done|exact Hhead|by rewrite (ws_txs _ _ _ Hws)|done|done]).
  apply list_elem_of_lookup in Hb' as [k Hk]. pose proof (log_heights _ _ _ _ _ Hl Hk) as Hk'. pose proof (lookup_lt_Some _ _ _ Hk).
  pose proof (log_last _ _ _ _ Hl Hlast). lia.
Qed.

(** A block on top of a chain cannot repeat its transactions. *)
Lemma log_fresh l u p pms b coinbase others :
  chain_log l u -> last l = Some (p, pms) -> U b -> well_shaped b coinbase others -> height (header b) = height (header p) + 1 ->
  fresh_for (seen l) b u.
Proof.
  intros Hl Hlast Ub Hws Hh. split.
  - intros o e Ho. by eapply log_entries.
  - intros tx Htx. by eapply (w_zero _ _ world).
  - intros tx id Hhd Hid. rewrite (ws_txs _ _ _ Hws) in Hhd. injection Hhd as <-. by eapply log_coinbase_new.
  - intros tx id Htx Hid (b' & ms' & tx' & Hb' & Htx' & Hid'). destruct (log_blocks _ _ _ _ Hl Hb') as (Ub' & _ & Hne).
    assert (inputs tx' = inputs tx) as Ein.
    { eapply (w_txs _ _ world b' b); [done|done|done| |done|done]. rewrite (ws_txs _ _ _ Hws) in Htx |- *. by right. }
    assert (is_coinbase tx' = false) as Hcb'.
    { pose proof (ws_others _ _ _ Hws) as Ho. rewrite Forall_forall in Ho. rewrite (ws_txs _ _ _ Hws) in Htx. specialize (Ho _ Htx). unfold is_coinbase in *. by rewrite Ein. }
    rewrite Forall_forall in Hne. specialize (Hne _ Htx'). destruct (inputs tx') as [|i ins] eqn:Ei; [done|].
    exists (input_outpoint i). assert (input_outpoint i ∈ spend_keys tx') as Hk by (unfold spend_keys; rewrite Ei; left).
    split; [unfold spend_keys; rewrite <- Ein; left|]. by eapply log_spent_gone.
Qed.

(** ** Undoing and redoing *)

(** The last block of a chain that has more than genesis. *)
Lemma log_snoc_inv l b ms v :
  chain_log (l ++ [(b, ms)]) v -> l <> [] ->
  exists u p pms, chain_log l u /\ last l = Some (p, pms) /\ prev_block_id (header b) = id_of p /\
    height (header b) = height (header p) + 1 /\ block_step l u b ms v.
Proof.
  intros Hl Hne. remember (l ++ [(b, ms)]) as l' eqn:El. destruct Hl as [ms' u Ha|l' u p pms b' ms' v Hl Hlast Hp Hh Hs].
  - destruct l as [|x [|y l]]; done.
  - apply app_inj_tail in El as [-> [= -> ->]]. exists u, p, pms. done.
Qed.

Lemma step_undo l u b ms v : chain_log l u -> block_step l u b ms v ->
  undo_in_order (rev (transactions b)) (collect_spent_utxos ms) v = Some (Ok tt, u).
Proof.
  intros Hl Hs. rewrite <- (app_nil_r (collect_spent_utxos ms)).
  eapply applied_undo; [apply Hs|by eapply log_serializable|apply Hs|]. by intros oe tx ?%not_elem_of_nil.
Qed.

Lemma apply_txs_app h txs1 txs2 (u : utxo_map) :
  apply_txs h (txs1 ++ txs2) u = (_ ← apply_txs h txs1; apply_txs h txs2) u.
Proof.
  revert u. induction txs1 as [|tx txs1 IH]; intros u; [done|]. cbn [app apply_txs]. unfold mbind, store_bind in *.
  destruct (apply_transaction tx h u) as [[[m|e] u1]|]; [apply IH|done|done].
Qed.
Lemma applied_apply_txs h txs u ms v : applied h txs u ms v -> apply_txs h txs u = Some (Ok tt, v).
Proof.
  induction 1 as [u|txs u ms v tx m w _ IH Ha]; [done|]. rewrite apply_txs_app. unfold mbind, store_bind. rewrite IH.
  cbn [apply_txs]. unfold mbind, store_bind. by rewrite Ha.
Qed.

Lemma redo_app bs1 bs2 (u : utxo_map) : redo_in_order (bs1 ++ bs2) u = (_ ← redo_in_order bs1; redo_in_order bs2) u.
Proof.
  revert u. induction bs1 as [|b bs1 IH]; intros u; [done|]. cbn [app redo_in_order]. unfold mbind, store_bind in *.
  destruct (apply_txs _ _ u) as [[[m|e] u1]|]; [apply IH|done|done].
Qed.

(** A chain is the chain below it and its upper part applied again. *)
Lemma log_redo l1 l2 v :
  chain_log (l1 ++ l2) v -> l1 <> [] -> exists u, chain_log l1 u /\ redo_in_order (map fst l2) u = Some (Ok tt, v).
Proof.
  revert v. induction l2 as [|[b ms] l2 IH] using rev_ind; intros v Hl Hne.
  { rewrite app_nil_r in Hl. exists v. done. }
  rewrite app_assoc in Hl. destruct (log_snoc_inv _ _ _ _ Hl) as (u & p & pms & Hl' & _ & _ & _ & Hs); [by destruct l1|].
  destruct (IH u Hl' Hne) as (u0 & Hu0 & Hredo). exists u0. split; [done|]. rewrite map_app, redo_app. unfold mbind, store_bind. rewrite Hredo.
  cbn [map fst redo_in_order]. unfold mbind, store_bind. by rewrite (applied_apply_txs _ _ _ _ _ (bs_applied _ _ _ _ _ Hs)).
Qed.

(** Application is deterministic, so the blocks determine logs and set. *)
Lemma applied_fun h txs u ms v ms' v' : applied h txs u ms v -> applied h txs u ms' v' -> ms = ms' /\ v = v'.
Proof.
  intros Ha. revert ms' v'. induction Ha as [u|txs u ms v tx m w Ha IH Hap]; intros ms' v' Ha'.
  - remember [] as txs eqn:E. destruct Ha' as [|txs u ms v tx m w]; [done|by destruct txs].
  - remember (txs ++ [tx]) as txs' eqn:E. destruct Ha' as [u|txs' u ms' v' tx' m' w' Ha' Hap']; [by destruct txs|].
    apply app_inj_tail in E as [-> ->]. destruct (IH _ _ Ha') as [<- <-]. rewrite Hap in Hap'. by injection Hap' as <- <-.
Qed.
Lemma log_fun l u l' u' : chain_log l u -> chain_log l' u' -> map fst l = map fst l' -> l = l' /\ u = u'.
Proof.
  intros Hl. revert l' u'. induction Hl as [ms u Ha|l u p pms b ms v Hl IH Hlast Hp Hh Hs]; intros l' u' Hl' E.
  - destruct Hl' as [ms' u' Ha'|l' u' p' pms' b' ms' v' Hl' _ _ _ _].
    + by destruct (applied_fun _ _ _ _ _ _ _ Ha Ha') as [-> ->].
    + pose proof (log_nonempty _ _ Hl'). apply (f_equal length) in E. rewrite map_app, length_app in E. destruct l'; [done|cbn in E; lia].
  - destruct Hl' as [ms' u' Ha'|l' u' p' pms' b' ms' v' Hl' _ _ _ Hs'].
    + pose proof (log_nonempty _ _ Hl). apply (f_equal length) in E. rewrite map_app, length_app in E. destruct l; [done|cbn in E; lia].
    + rewrite !map_app in E. cbn [map fst] in E. apply app_inj_tail in E as [E ->]. destruct (IH _ _ Hl' E) as [<- <-].
      by destruct (applied_fun _ _ _ _ _ _ _ (bs_applied _ _ _ _ _ Hs) (bs_applied _ _ _ _ _ Hs')) as [-> ->].
Qed.
Lemma log_redo_from l1 l2 u v : chain_log (l1 ++ l2) v -> chain_log l1 u -> redo_in_order (map fst l2) u = Some (Ok tt, v).
Proof.
  intros Hl H1. destruct (log_redo _ _ _ Hl (log_nonempty _ _ H1)) as (u' & Hu' & Hr). by destruct (log_fun _ _ _ _ H1 Hu' eq_refl) as [_ ->].
Qed.

(** A prefix of a chain is a chain. *)
Lemma log_prefix l1 l2 v : chain_log (l1 ++ l2) v -> l1 <> [] -> exists u, chain_log l1 u.
Proof. intros Hl Hne. destruct (log_redo _ _ _ Hl Hne) as (u & Hu & _). eauto. Qed.

(** ** Extending *)

Context `{Ed25519} `{Layout}.
Variable signature_domain : Hash256.
Variable coinbase_maturity : Z.

Lemma atomic_inputs b (s s' : utxo_map) r coinbase others :
  validate_and_apply_block_transactions_atomic signature_domain coinbase_maturity b s = Some (Ok r, s') ->
  well_shaped b coinbase others -> Forall (fun tx => inputs tx <> []) (transactions b).
Proof.
  destruct r as [fees ms]. intros (cb & os & m & s1 & p & Htx & _ & Hrun & _)%atomic_Ok Hws. rewrite Htx. constructor.
  - rewrite (ws_txs _ _ _ Hws) in Htx. injection Htx as -> _. intros E. pose proof (ws_coinbase _ _ _ Hws) as Hcb. unfold is_coinbase in Hcb. by rewrite E in Hcb.
  - revert Hrun. generalize {| applied_count := 1; total_fees := 0; spent_utxos := []; spent_utxos_bytes := 0; mutations := m |} as p0. intros p0 Hrun.
    pattern os, p0, s1. revert os p0 s1 Hrun Htx. intros os0 p0 s1 Hrun _. revert os0 p0 s1 Hrun. apply apply_validated_ind; cbv beta; [constructor|].
    intros tx rest p1 s0 fee sc svc spent bytes m1 s2 Hv _ _ IH. constructor; [|done]. apply validate_transaction_inv in Hv as [[? _] _]. done.
Qed.

(** Full validation of a block on top of a chain: it extends the chain, or the
    set is as before and nothing is corrupted. *)
Lemma atomic_on_log l u p pms b :
  chain_log l u -> last l = Some (p, pms) -> U b -> (exists coinbase others, well_shaped b coinbase others) ->
  (exists bytes, Block_serialize b = Ok bytes /\ len bytes <= MAX_BLOCK_SIZE) ->
  prev_block_id (header b) = id_of p -> height (header b) = height (header p) + 1 ->
  exists r v, validate_and_apply_block_transactions_atomic signature_domain coinbase_maturity b u = Some (r, v) /\
    match r with
    | Ok (fees, ms) => block_step l u b ms v /\ chain_log (l ++ [(b, ms)]) v
    | Err e => v = u /\ is_corrupted e = false
    end.
Proof.
  intros Hl Hlast Ub (cb & os & Hws) Hsize Hp Hh.
  destruct (atomic_spec_for signature_domain coinbase_maturity b cb os u (seen l) Hws (log_serializable _ _ Hl) (log_fresh _ _ _ _ _ _ _ Hl Hlast Ub Hws Hh))
    as (r & v & Hr & Hspec). exists r, v. split; [done|]. destruct r as [[fees ms]|e]; [|done]. destruct Hspec as (Happ & Hnd & Hnew).
  assert (block_step l u b ms v) as Hs by (split; [done|eauto|done|done|done|done|by eapply atomic_inputs]). split; [done|]. by eapply log_step.
Qed.
End Chains.
