(* ===== verification/StorageFacts.v ===== *)
(** * What the storage transactions write

    Which tables a transaction touches, and what can be read afterwards.  The
    commits of [Storage.v] write a dozen tables; the lemmas here give the ones a
    chain is read back from. *)

From S2P Require Import Prelude Bytes Codec Hash Transaction Block Utxo Wire Storage.
#[local] Open Scope Z_scope.

(** ** Single writes *)

Lemma table_get_insert t k v t' k' db :
  table_get t' k' (table_insert t k v db) = if decide (t' = t /\ k' = k) then Some v else table_get t' k' db.
Proof.
  unfold table_get, table_insert, table_set. cbn. case_decide as Ht.
  - subst t'. case_decide as Hk; [destruct Hk as [_ ->]; by rewrite lookup_insert_eq|]. rewrite lookup_insert_ne; [done|]. naive_solver.
  - rewrite decide_False; [done|]. naive_solver.
Qed.
Lemma table_get_remove t k t' k' db :
  table_get t' k' (table_remove t k db) = if decide (t' = t /\ k' = k) then None else table_get t' k' db.
Proof.
  unfold table_get, table_remove, table_set. cbn. case_decide as Ht.
  - subst t'. case_decide as Hk; [destruct Hk as [_ ->]; by rewrite lookup_delete_eq|]. rewrite lookup_delete_ne; [done|]. naive_solver.
  - rewrite decide_False; [done|]. naive_solver.
Qed.

(** ** Touched tables *)

(** [db'] differs from [db] at most in the tables [ts] and the index of
    transactions. *)
Definition touches (ts : list Table) (db db' : ChainStorage) : Prop :=
  HEIGHT_INDEX db' = HEIGHT_INDEX db /\ forall t, t ∉ ts -> tables db' t = tables db t.

Lemma touches_refl ts db : touches ts db db.
Proof. done. Qed.
Lemma touches_trans ts db db' db'' : touches ts db db' -> touches ts db' db'' -> touches ts db db''.
Proof. intros [H1 T1] [H2 T2]. split; [congruence|]. intros t Ht. by rewrite T2, T1. Qed.
Lemma touches_weaken ts ts' db db' : ts ⊆ ts' -> touches ts db db' -> touches ts' db db'.
Proof. intros Hs [H T]. split; [done|]. intros t Ht. apply T. set_solver. Qed.
Lemma touches_get ts db db' t k : touches ts db db' -> t ∉ ts -> table_get t k db' = table_get t k db.
Proof. intros [_ T] Ht. unfold table_get. by rewrite T. Qed.
Lemma touches_set t m db : touches [t] db (table_set t m db).
Proof. split; [done|]. intros t' Ht. cbn. rewrite decide_False; [done|]. set_solver. Qed.
Lemma touches_insert t k v db : touches [t] db (table_insert t k v db).
Proof. apply touches_set. Qed.
Lemma touches_remove t k db : touches [t] db (table_remove t k db).
Proof. apply touches_set. Qed.
Lemma touches_fold {A} ts (f : ChainStorage -> A -> ChainStorage) xs db : (forall db x, touches ts db (f db x)) -> touches ts db (fold_left f xs db).
Proof.
  intros Hf. revert db. induction xs as [|x xs IH]; intros db; [apply touches_refl|]. cbn. eapply touches_trans; [apply Hf|apply IH].
Qed.
Lemma touches_for {A} ts (f : A -> txn) xs db db' :
  (forall x db db', f x db = Ok db' -> touches ts db db') -> for_txn f xs db = Ok db' -> touches ts db db'.
Proof.
  intros Hf. revert db. induction xs as [|x xs IH]; intros db; cbn [for_txn]; [by intros [= <-]|].
  destruct (f x db) as [db1|] eqn:E; [|done]. intros Hx. eapply touches_trans; [by eapply Hf|by apply IH].
Qed.

Section Txns.
Context `{Sha2}.

Lemma index_txs_touches b db : touches [] db (index_txs b db).
Proof. apply touches_fold. intros db' tx. destruct (tx_id tx); [split; done|apply touches_refl]. Qed.
Lemma unindex_txs_touches b db : touches [] db (unindex_txs b db).
Proof. apply touches_fold. intros db' tx. destruct (tx_id tx); [split; done|apply touches_refl]. Qed.
Lemma unindex_height_touches h db : touches [] db (unindex_height h db).
Proof.
  unfold unindex_height. destruct (HEIGHT_INDEX db !! h) as [id|]; [|apply touches_refl]. destruct (table_get _ id db) as [data|]; [|apply touches_refl].
  destruct (Block_deserialize data) as [[b ?]|]; [apply unindex_txs_touches|apply touches_refl].
Qed.
Lemma mutation_touches m db db' : apply_utxo_mutation m db = Ok db' -> touches [UTXOS_TABLE] db db'.
Proof.
  unfold apply_utxo_mutation. destruct m as [o e|o e]; [destruct (serialize_utxo_entry e); [|done]|]; intros [= <-]; [apply touches_insert|apply touches_remove].
Qed.
Lemma mutations_touches ms db db' : apply_utxo_mutations ms db = Ok db' -> touches [UTXOS_TABLE] db db'.
Proof. apply touches_for, mutation_touches. Qed.
Lemma spent_by_touches b db db' : apply_spent_by_for_block b db = Ok db' -> touches [SPENT_BY_TABLE] db db'.
Proof.
  apply touches_for. clear. intros tx db db'. unfold apply_spent_by_tx. destruct (is_coinbase tx); [by intros [= <-]|].
  destruct (tx_id tx); [|done]. intros [= <-]. apply touches_fold. intros. apply touches_insert.
Qed.
Lemma revert_touches b db : touches [SPENT_BY_TABLE] db (revert_spent_by_for_block b db).
Proof.
  apply touches_fold. intros db' tx. destruct (is_coinbase tx); [apply touches_refl|]. apply touches_fold. intros. apply touches_remove.
Qed.
Lemma undo_orphan_touches b db db' : undo_orphan b db = Ok db' -> touches [UTXOS_TABLE] db db'.
Proof.
  unfold undo_orphan. assert (touches [UTXOS_TABLE] db (remove_output_rows b db)) as Hr.
  { apply touches_fold. intros db0 tx. destruct (tx_id tx); [|apply touches_refl]. apply touches_fold. intros. apply touches_remove. }
  destruct (table_get _ _ _) as [data|]; [|by intros [= <-]]. destruct (deserialize_spent_utxos data) as [spent|]; [|done]. intros Hf.
  eapply touches_trans; [exact Hr|]. eapply touches_for; [|exact Hf]. intros x ? ?. apply mutation_touches.
Qed.
Lemma markers_touch id db : touches [META_TABLE] db (advance_walk_marker_in_txn id (advance_snapshot_marker_in_txn id db)).
Proof.
  eapply touches_trans; [|apply touches_insert]. unfold advance_snapshot_marker_in_txn. destruct (negb _); [apply touches_refl|apply touches_insert].
Qed.
Lemma markers_keep_tip id db : table_get META_TABLE TIP_KEY (advance_walk_marker_in_txn id (advance_snapshot_marker_in_txn id db)) = table_get META_TABLE TIP_KEY db.
Proof.
  unfold advance_walk_marker_in_txn, advance_snapshot_marker_in_txn. rewrite table_get_insert, decide_False by (by intros [_ ?]).
  destruct (negb _); [done|]. by rewrite table_get_insert, decide_False by (by intros [_ ?]).
Qed.

Lemma put_block_data_spec b db db' :
  put_block_data b db = Ok db' -> exists bytes, Block_serialize b = Ok bytes /\
    db' = table_insert HEADERS_TABLE (block_id (header b)) (BlockHeader_serialize (header b)) (table_insert BLOCKS_TABLE (block_id (header b)) bytes db).
Proof. unfold put_block_data. destruct (Block_serialize b) as [bs|]; [|done]. intros [= <-]. eauto. Qed.
Lemma put_block_data_touches b db db' : put_block_data b db = Ok db' -> touches [BLOCKS_TABLE; HEADERS_TABLE] db db'.
Proof.
  intros (bs & _ & ->)%put_block_data_spec.
  eapply touches_trans; [eapply (touches_weaken [BLOCKS_TABLE])|eapply (touches_weaken [HEADERS_TABLE])]; [set_solver|apply touches_insert|set_solver|apply touches_insert].
Qed.

(** ** Rows *)

(** The tables a chain is read back from. *)
Definition core : list Table := [BLOCKS_TABLE; HEADERS_TABLE; WORK_TABLE; SPENT_UTXOS_TABLE; RETAINED_FORK_HEADERS_TABLE].
Definition core_same (db db' : ChainStorage) : Prop := forall t, t ∈ core -> tables db' t = tables db t.

Lemma core_refl db : core_same db db.
Proof. done. Qed.
Lemma core_trans db db' db'' : core_same db db' -> core_same db' db'' -> core_same db db''.
Proof. intros H1 H2 t Ht. by rewrite H2, H1. Qed.
Lemma core_touches ts db db' : touches ts db db' -> Forall (fun t => t ∉ core) ts -> core_same db db'.
Proof. intros [_ T] Hts t Ht. apply T. intros Hin. rewrite Forall_forall in Hts. by apply (Hts t). Qed.
Lemma core_get db db' t k : core_same db db' -> t ∈ core -> table_get t k db' = table_get t k db.
Proof. intros Hc Ht. unfold table_get. by rewrite Hc. Qed.
Lemma core_height f db : core_same db (height_update f db).
Proof. done. Qed.

(** Insertions in a row. *)
Definition row : Type := Table * bytes * bytes.
Definition put_row (db : ChainStorage) (r : row) : ChainStorage := table_insert r.1.1 r.1.2 r.2 db.
Definition put_rows (rows : list row) (db : ChainStorage) : ChainStorage := fold_left put_row rows db.

Lemma put_rows_app r1 r2 db : put_rows (r1 ++ r2) db = put_rows r2 (put_rows r1 db).
Proof. apply fold_left_app. Qed.
Lemma put_rows_inv t k v rows db : table_get t k (put_rows rows db) = Some v -> (t, k, v) ∈ rows \/ table_get t k db = Some v.
Proof.
  revert db. induction rows as [|[[t' k'] v'] rows IH]; intros db; cbn; [by right|]. intros [Hin|Hg]%IH; [left; by right|].
  unfold put_row in Hg. rewrite table_get_insert in Hg. case_decide as Hd; [|by right]. cbn in Hd. destruct Hd as [-> ->]. injection Hg as <-. left. left.
Qed.
Lemma put_rows_get t k v rows db :
  (forall v', (t, k, v') ∈ rows -> v' = v) -> (t, k, v) ∈ rows \/ table_get t k db = Some v -> table_get t k (put_rows rows db) = Some v.
Proof.
  revert db. induction rows as [|[[t' k'] v'] rows IH]; intros db Hf Hor; cbn; [by destruct Hor as [?%not_elem_of_nil|?]|].
  apply IH; [intros v1 Hv1; apply Hf; by right|]. unfold put_row. rewrite table_get_insert. cbn. case_decide as Hd.
  - destruct Hd as [-> ->]. right. f_equal. apply Hf. left.
  - destruct Hor as [Hin|Hg]; [|by right]. apply elem_of_cons in Hin as [[= -> -> ->]|Hin]; [by destruct Hd|by left].
Qed.
Lemma put_rows_height rows db : HEIGHT_INDEX (put_rows rows db) = HEIGHT_INDEX db.
Proof. revert db. induction rows as [|r rows IH]; intros db; [done|]. cbn. by rewrite IH. Qed.
Lemma put_rows_core rows db db' : core_same db db' -> core_same (put_rows rows db) (put_rows rows db').
Proof.
  revert db db'. induction rows as [|[[t k] v] rows IH]; intros db db' Hc; [done|]. cbn. apply IH. intros t' Ht'. unfold put_row, table_insert, table_set. cbn.
  case_decide; subst; by rewrite Hc.
Qed.
Lemma put_rows_other t rows db : (forall k v, (t, k, v) ∉ rows) -> tables (put_rows rows db) t = tables db t.
Proof.
  revert db. induction rows as [|[[t' k'] v'] rows IH]; intros db Hn; [done|]. cbn. rewrite IH by (intros k v Hin; apply (Hn k v); by right).
  unfold put_row, table_insert, table_set. cbn. rewrite decide_False; [done|]. intros ->. apply (Hn k' v'). left.
Qed.

(** The rows of a block's data. *)
Definition block_row (b : Block) : row -> Prop := fun r =>
  exists bytes, Block_serialize b = Ok bytes /\
    (r = (BLOCKS_TABLE, block_id (header b), bytes) \/ r = (HEADERS_TABLE, block_id (header b), BlockHeader_serialize (header b))).

Lemma put_block_rows b db db' : put_block_data b db = Ok db' -> exists rows, db' = put_rows rows db /\ forall r, r ∈ rows <-> block_row b r.
Proof.
  intros (bs & Hbs & ->)%put_block_data_spec. exists [(BLOCKS_TABLE, block_id (header b), bs); (HEADERS_TABLE, block_id (header b), BlockHeader_serialize (header b))].
  split; [done|]. intros r. rewrite !elem_of_cons, elem_of_nil. split.
  - intros [->|[->|[]]]; exists bs; auto.
  - intros (bs' & Hbs' & Hr). rewrite Hbs in Hbs'. injection Hbs' as <-. tauto.
Qed.
Lemma for_rows {A} (f : A -> txn) (P : A -> row -> Prop) xs db db' :
  (forall x db db', f x db = Ok db' -> exists rows, db' = put_rows rows db /\ forall r, r ∈ rows <-> P x r) ->
  for_txn f xs db = Ok db' -> exists rows, db' = put_rows rows db /\ forall r, r ∈ rows <-> exists x, x ∈ xs /\ P x r.
Proof.
  intros Hf. revert db. induction xs as [|x xs IH]; intros db; cbn [for_txn].
  { intros [= <-]. exists []. split; [done|]. set_solver. }
  destruct (f x db) as [db1|] eqn:E; [|done]. destruct (Hf _ _ _ E) as (r1 & -> & H1). intros (r2 & -> & H2)%IH. exists (r1 ++ r2).
  rewrite put_rows_app. split; [done|]. intros r. rewrite elem_of_app, H1, H2. set_solver.
Qed.
Lemma fold_rows {A} (f : A -> row) xs db : fold_left (fun db x => put_row db (f x)) xs db = put_rows (map f xs) db.
Proof. revert db. induction xs as [|x xs IH]; intros db; [done|]. cbn. apply IH. Qed.

(** ** The commits *)

(** Nothing a chain is read back from changes. *)
Record keeps (db db' : ChainStorage) : Prop := {
  keeps_core : core_same db db';
  keeps_height : HEIGHT_INDEX db' = HEIGHT_INDEX db;
  keeps_tip : table_get META_TABLE TIP_KEY db' = table_get META_TABLE TIP_KEY db
}.
Lemma keeps_refl db : keeps db db.
Proof. done. Qed.
Lemma keeps_trans db db' db'' : keeps db db' -> keeps db' db'' -> keeps db db''.
Proof. intros [C1 H1 T1] [C2 H2 T2]. split; [by eapply core_trans|congruence|congruence]. Qed.
Lemma keeps_touches ts db db' : touches ts db db' -> Forall (fun t => t ∉ META_TABLE :: core) ts -> keeps db db'.
Proof.
  intros Ht Hts. split.
  - eapply core_touches; [exact Ht|]. eapply Forall_impl; [exact Hts|]. intros t Hn Hin. apply Hn. by right.
  - apply Ht.
  - eapply touches_get; [exact Ht|]. intros Hin. rewrite Forall_forall in Hts. apply (Hts _ Hin). left.
Qed.
Lemma keeps_markers id db : keeps db (advance_walk_marker_in_txn id (advance_snapshot_marker_in_txn id db)).
Proof.
  split; [|apply markers_touch|apply markers_keep_tip]. eapply core_touches; [apply markers_touch|]. apply Forall_singleton. set_solver.
Qed.
Lemma keeps_fold {A} (f : ChainStorage -> A -> ChainStorage) xs db : (forall db x, keeps db (f db x)) -> keeps db (fold_left f xs db).
Proof. intros Hf. revert db. induction xs as [|x xs IH]; intros db; [apply keeps_refl|]. eapply keeps_trans; [apply Hf|apply IH]. Qed.
Lemma keeps_for {A} (f : A -> txn) xs db db' : (forall x db db', f x db = Ok db' -> keeps db db') -> for_txn f xs db = Ok db' -> keeps db db'.
Proof.
  intros Hf. revert db. induction xs as [|x xs IH]; intros db; cbn [for_txn]; [by intros [= <-]|].
  destruct (f x db) as [db1|] eqn:E; [|done]. intros Hx. eapply keeps_trans; [by eapply Hf|by apply IH].
Qed.

Lemma keeps_index b db : keeps db (index_txs b db).
Proof. by eapply keeps_touches; [apply index_txs_touches|]. Qed.
Lemma keeps_unindex h db : keeps db (unindex_height h db).
Proof. by eapply keeps_touches; [apply unindex_height_touches|]. Qed.
Lemma keeps_fork_row id db : keeps db (table_remove FORK_BLOCKS_TABLE id db).
Proof. eapply keeps_touches; [apply touches_remove|]. apply Forall_singleton. set_solver. Qed.
Lemma keeps_mutations ms db db' : apply_utxo_mutations ms db = Ok db' -> keeps db db'.
Proof. intros Hm. eapply keeps_touches; [by eapply mutations_touches|]. apply Forall_singleton. set_solver. Qed.
Lemma keeps_spent_by b db db' : apply_spent_by_for_block b db = Ok db' -> keeps db db'.
Proof. intros Hm. eapply keeps_touches; [by eapply spent_by_touches|]. apply Forall_singleton. set_solver. Qed.
Lemma keeps_revert b db : keeps db (revert_spent_by_for_block b db).
Proof. eapply keeps_touches; [apply revert_touches|]. apply Forall_singleton. set_solver. Qed.
Lemma keeps_undo_orphan b db db' : undo_orphan b db = Ok db' -> keeps db db'.
Proof. intros Hm. eapply keeps_touches; [by eapply undo_orphan_touches|]. apply Forall_singleton. set_solver. Qed.

(** What a commit leaves behind: rows, index of heights, and tip. *)
Record committed (P : row -> Prop) (index : gmap Z bytes -> gmap Z bytes) (id : Hash256) (db db' : ChainStorage) : Prop := {
  com_rows : exists rows, core_same (put_rows rows db) db' /\ forall r, r ∈ rows <-> P r;
  com_height : HEIGHT_INDEX db' = index (HEIGHT_INDEX db);
  com_tip : table_get META_TABLE TIP_KEY db' = Some id
}.
Lemma committed_keeps P index id db db' db'' : committed P index id db db' -> keeps db' db'' -> committed P index id db db''.
Proof.
  intros [(rows & Hr & HP) Hh Ht] [Hc Hh' Ht']. split; [exists rows; split; [by eapply core_trans|done]|congruence|congruence].
Qed.

Lemma store_fork_effect b w db db' : store_fork_block_atomic b w db = Ok db' ->
  HEIGHT_INDEX db' = HEIGHT_INDEX db /\ table_get META_TABLE TIP_KEY db' = table_get META_TABLE TIP_KEY db /\
  exists rows, core_same (put_rows rows db) db' /\ forall r, r ∈ rows <-> block_row b r \/ r = (WORK_TABLE, block_id (header b), w).
Proof.
  unfold store_fork_block_atomic. destruct (put_block_data b db) as [db1|] eqn:E; [|done]. intros [= <-].
  destruct (put_block_rows _ _ _ E) as (rows & -> & Hr). split; [cbn; apply put_rows_height|]. split.
  - rewrite !table_get_insert, !decide_False by (by intros [? _]). unfold table_get. rewrite put_rows_other; [done|].
    intros k v Hin. apply Hr in Hin as (? & _ & [?|?]); done.
  - exists (rows ++ [(WORK_TABLE, block_id (header b), w)]). split.
    + rewrite put_rows_app. eapply core_touches; [apply touches_insert|]. apply Forall_singleton. set_solver.
    + intros r. rewrite elem_of_app, Hr, list_elem_of_singleton. done.
Qed.

Definition spent_row (id : Hash256) (spent : list (OutPoint * UtxoEntry)) : row -> Prop := fun r =>
  exists data, serialize_spent_utxos spent = Ok data /\ r = (SPENT_UTXOS_TABLE, id, data).

Lemma commit_block_effect b w spent ms db db' : commit_block_atomic b w spent ms db = Ok db' ->
  let id := block_id (header b) in
  committed (fun r => block_row b r \/ r = (WORK_TABLE, id, w) \/ spent_row id spent r) <[height (header b) := id]> id db db'.
Proof.
  unfold commit_block_atomic. destruct (put_block_data b db) as [db1|] eqn:E; [|done]. destruct (put_block_rows _ _ _ E) as (rows & -> & Hr).
  destruct (serialize_spent_utxos spent) as [data|] eqn:Es; [|done]. cbn [map_err]. set (id := block_id (header b)).
  set (db2 := table_insert META_TABLE TIP_KEY id _). match goal with |- context [apply_utxo_mutations ms ?x] => set (db3 := x) end.
  destruct (apply_utxo_mutations ms db3) as [db4|] eqn:Em; [|done]. intros Hsb. cbv zeta.
  apply (committed_keeps _ _ _ _ db2).
  - split.
    + exists (rows ++ [(WORK_TABLE, id, w); (SPENT_UTXOS_TABLE, id, data)]). split.
      * rewrite put_rows_app. intros t Ht. cbn. rewrite (decide_False (P := t = META_TABLE)); [done|]. intros ->. set_solver.
      * intros r. rewrite elem_of_app, Hr, !elem_of_cons, elem_of_nil. unfold spent_row. rewrite Es. naive_solver.
    + cbn. by rewrite put_rows_height.
    + subst db2. rewrite table_get_insert, decide_True; done.
  - eapply keeps_trans; [|by eapply keeps_spent_by]. eapply keeps_trans; [|by eapply keeps_mutations].
    eapply keeps_trans; [apply keeps_markers|]. eapply keeps_trans; [apply keeps_fork_row|]. apply keeps_index.
Qed.

Lemma height_fold {A} (f : A -> gmap Z bytes -> gmap Z bytes) xs db :
  fold_left (fun db x => height_update (f x) db) xs db = height_update (fun m => fold_left (fun m x => f x m) xs m) db.
Proof. revert db. induction xs as [|x xs IH]; intros db; [by destruct db|]. cbn [fold_left]. by rewrite IH. Qed.

(** The rows a reorganisation writes. *)
Definition reorg_row (trigger : Block) (w : bytes) (new_chain : list Block) (new_work : list (Hash256 * bytes))
    (new_spent : list (Hash256 * list (OutPoint * UtxoEntry))) (r : row) : Prop :=
  (exists b, (b = trigger \/ b ∈ new_chain) /\ block_row b r) \/
  (exists iw, (iw = (block_id (header trigger), w) \/ iw ∈ new_work) /\ r = (WORK_TABLE, iw.1, iw.2)) \/
  (exists ispent, ispent ∈ new_spent /\ spent_row ispent.1 ispent.2 r).
(** Its index of heights. *)
Definition reorg_index (new_heights : list (Z * Hash256)) (stale : option (Z * Z)) (m : gmap Z bytes) : gmap Z bytes :=
  fold_left (fun m h => delete h m) (stale_range stale) (fold_left (fun m hid => <[fst hid := snd hid]> m) new_heights m).

Lemma put_spent_rows ispent db db' :
  (let? data := map_err SerializationError (serialize_spent_utxos (snd ispent)) in Ok (table_insert SPENT_UTXOS_TABLE (fst ispent) data db)) = Ok db' ->
  exists rows, db' = put_rows rows db /\ forall r, r ∈ rows <-> spent_row ispent.1 ispent.2 r.
Proof.
  destruct ispent as [id spent]. cbn [fst snd]. unfold spent_row. destruct (serialize_spent_utxos spent) as [data|]; [|done]. intros [= <-].
  exists [(SPENT_UTXOS_TABLE, id, data)]. split; [done|]. intros r. rewrite list_elem_of_singleton. naive_solver.
Qed.

(** The first half of the transaction: the rows of the new chain. *)
Lemma reorg_rows_effect trigger w new_chain new_work new_spent db db1 db2 db5 :
  put_block_data trigger db = Ok db1 -> for_txn put_block_data new_chain db1 = Ok db2 ->
  for_txn (fun ispent db => let? data := map_err SerializationError (serialize_spent_utxos (snd ispent)) in
                            Ok (table_insert SPENT_UTXOS_TABLE (fst ispent) data db)) new_spent
    (fold_left (fun db iw => table_insert WORK_TABLE (fst iw) (snd iw) db) new_work (table_insert WORK_TABLE (block_id (header trigger)) w db2)) = Ok db5 ->
  exists rows, db5 = put_rows rows db /\ forall r, r ∈ rows <-> reorg_row trigger w new_chain new_work new_spent r.
Proof.
  intros (r1 & -> & H1)%put_block_rows (r2 & -> & H2)%(for_rows _ _ _ _ _ put_block_rows) H5.
  apply (for_rows _ _ _ _ _ put_spent_rows) in H5 as (r5 & -> & H5).
  rewrite (fold_rows (fun iw => (WORK_TABLE, fst iw, snd iw))). change (table_insert WORK_TABLE ?id w ?x) with (put_rows [(WORK_TABLE, id, w)] x).
  rewrite <- !put_rows_app. eexists. split; [done|]. intros r. rewrite !elem_of_app, H1, H2, H5, list_elem_of_singleton. unfold reorg_row.
  rewrite list_elem_of_fmap. split.
  - intros [?|[(b & ? & ?)|[->|[(iw & -> & ?)|?]]]]; [left; by exists trigger; auto|left; by exists b; auto|right; left|right; left; by exists iw; auto|by right; right].
    by exists (block_id (header trigger), w); auto.
  - intros [(b & [->|?] & ?)|[(iw & [->|?] & ->)|?]]; [by left|right; left; eauto|by do 2 right; left|do 3 right; left; eauto|by do 4 right].
Qed.

Lemma commit_reorg_effect trigger w old_chain new_spent new_mutations new_heights new_chain new_work stale new_tip db db' :
  commit_reorg_atomic trigger w old_chain new_spent new_mutations new_heights new_chain new_work stale new_tip db = Ok db' ->
  committed (reorg_row trigger w new_chain new_work new_spent) (reorg_index new_heights stale) new_tip db db'.
Proof.
  unfold commit_reorg_atomic. destruct (put_block_data trigger db) as [db1|] eqn:E1; [|done].
  destruct (for_txn put_block_data new_chain db1) as [db2|] eqn:E2; [|done]. cbv zeta.
  match goal with |- context [for_txn ?f new_spent ?x] => destruct (for_txn f new_spent x) as [db5|] eqn:E5; [|done] end.
  destruct (reorg_rows_effect _ _ _ _ _ _ _ _ _ E1 E2 E5) as (rows & -> & Hrows). clear E1 E2 E5.
  rewrite (height_fold (fun hid => <[fst hid := snd hid]>)), (height_fold delete).
  match goal with |- context [for_txn undo_orphan old_chain ?x] => set (db6 := x); destruct (for_txn undo_orphan old_chain db6) as [db7|] eqn:E7; [|done] end.
  match goal with |- context [for_txn ?f new_mutations ?x] => set (db8 := x); destruct (for_txn f new_mutations db8) as [db9|] eqn:E9; [|done] end.
  destruct (apply_spent_by_for_block trigger db9) as [db10|] eqn:E10; [|done]. intros E11.
  assert (keeps (put_rows rows db) (fold_left (fun db h => unindex_height h db) (stale_heights stale new_heights) (put_rows rows db))) as Hun.
  { apply keeps_fold. intros. apply keeps_unindex. }
  set (dbu := fold_left (fun db h => unindex_height h db) _ _) in *.
  apply (committed_keeps _ _ _ _ (table_insert META_TABLE TIP_KEY new_tip (height_update (reorg_index new_heights stale) dbu))).
  - split.
    + exists rows. split; [|done]. eapply core_trans; [apply Hun|]. intros t Ht. cbn. rewrite decide_False; [done|]. intros ->. set_solver.
    + cbn. by rewrite (keeps_height _ _ Hun), put_rows_height.
    + by rewrite table_get_insert, decide_True.
  - eapply keeps_trans; [|eapply (keeps_for _ _ _ _ keeps_spent_by); exact E11]. eapply keeps_trans; [|by eapply keeps_spent_by].
    eapply keeps_trans; [|eapply keeps_for; [|exact E9]; intros ???; apply keeps_mutations].
    eapply keeps_trans; [|apply keeps_fold; intros; apply keeps_revert].
    eapply keeps_trans; [|eapply (keeps_for _ _ _ _ keeps_undo_orphan); exact E7].
    eapply keeps_trans; [apply keeps_markers|]. eapply keeps_trans; [apply (keeps_fold (fun db (hid : Z * Hash256) => table_remove FORK_BLOCKS_TABLE (snd hid) db) new_heights); intros; apply keeps_fork_row|].
    eapply keeps_trans; [apply keeps_fork_row|]. eapply keeps_trans; [apply keeps_index|]. apply keeps_fold. intros. apply keeps_index.
Qed.

Lemma commit_genesis_effect b w ms db db' : commit_genesis_atomic b w ms db = Ok db' ->
  committed (fun r => block_row b r \/ r = (WORK_TABLE, block_id (header b), w)) <[height (header b) := block_id (header b)]> (block_id (header b)) db db'.
Proof.
  unfold commit_genesis_atomic. destruct (put_block_data b db) as [db1|] eqn:E; [|done]. destruct (put_block_rows _ _ _ E) as (rows & -> & Hr).
  set (id := block_id (header b)). set (db2 := table_insert META_TABLE TIP_KEY id _).
  match goal with |- context [apply_utxo_mutations ms ?x] => set (db3 := x) end.
  destruct (apply_utxo_mutations ms db3) as [db4|] eqn:Em; [|done]. intros Hsb. apply (committed_keeps _ _ _ _ db2).
  - split.
    + exists (rows ++ [(WORK_TABLE, id, w)]). split.
      * rewrite put_rows_app. intros t Ht. cbn. rewrite (decide_False (P := t = META_TABLE)); [done|]. intros ->. set_solver.
      * intros r. rewrite elem_of_app, Hr, list_elem_of_singleton. done.
    + cbn. by rewrite put_rows_height.
    + subst db2. rewrite table_get_insert, decide_True; done.
  - eapply keeps_trans; [|by eapply keeps_spent_by]. eapply keeps_trans; [|by eapply keeps_mutations]. eapply keeps_trans; [|apply keeps_index].
    split; [|done|].
    + assert (META_TABLE ∉ core) as Hm by set_solver. intros t Ht. cbn. rewrite !(decide_False (P := t = META_TABLE)) by (by intros ->). done.
    + unfold initialize_snapshot_marker_in_txn, advance_walk_marker_in_txn. rewrite !table_get_insert, !(decide_False (P := META_TABLE = META_TABLE /\ _)) by (by intros [_ ?]). done.
Qed.
End Txns.
