(* ===== verification/ChainStore.v ===== *)
(** * A chain in the database

    When the tables hold a chain: every row of the block, header, work and
    retained-header tables belongs to a block that descends from genesis
    ([row_valid]); the rows of the blocks of the chain are there ([pinned]); the
    index of heights is exactly the chain, and the stored tip is its last block.
    Commits extend or switch the chain, storing and evicting fork blocks keeps
    it, and the reads return its blocks, headers, works and undo data. *)

From S2P Require Import Prelude Bytes Codec Hash Transaction Block Wire U256 Difficulty Reward.
From S2P Require Import ScriptValue ScriptCodec Jets ScriptCost Eval FeeCost Smt Utxo TxValidation BlockValidation BlockApply Mempool.
From S2P Require Import Storage ChainManager ChainModel StorageFacts.
#[local] Open Scope Z_scope.

(** ** What a chain spends can be written down *)

Definition entries_wf (u : utxo_map) : Prop := forall o e, u !! o = Some e -> OutPoint_wf o /\ UtxoEntry_wf e.
Definition spent_wf (l : list (OutPoint * UtxoEntry)) : Prop := Forall (fun oe => OutPoint_wf oe.1 /\ UtxoEntry_wf oe.2) l.

Section Wellformed.
Context `{Sha2} `{!Sha2Width}.

Lemma tx_id_wf tx id : tx_id tx = Ok id -> hash_wf id.
Proof. unfold tx_id. destruct (signing_bytes tx); [|done]. intros [= <-]. apply domain_hash_wf. Qed.

Lemma create_heights id h cb idx outs u ms u' :
  create_outputs id h cb idx outs u = Some (Ok ms, u') -> forall o e, u' !! o = Some e -> u !! o = Some e \/ entry_height e = h.
Proof.
  revert idx u ms. induction outs as [|out outs IH]; intros idx u ms; cbn [create_outputs].
  { intros [= <- <-]. by left. }
  unfold mbind, store_bind. cbn [store_insert spec_store]. unfold spec_insert at 1.
  destruct (u !! _); [done|]. destruct (TxOutput_serialize _); [|done].
  destruct (create_outputs id h cb (idx + 1) outs _) as [[[ms1|] u1]|] eqn:Ec; [|done|done]. intros [= <- <-] o e Ho.
  destruct (IH _ _ _ Ec o e Ho) as [[[<- <-]|[_ ?]]%lookup_insert_Some|?]; auto.
Qed.
Lemma apply_heights tx h (u : utxo_map) ms u' :
  apply_transaction tx h u = Some (Ok ms, u') -> forall o e, u' !! o = Some e -> u !! o = Some e \/ entry_height e = h.
Proof.
  unfold apply_transaction, mbind, store_bind, of_result. destruct (tx_id tx) as [id|]; [|done]. cbn [map_err].
  destruct (is_coinbase tx); cbn [negb].
  - unfold mret, store_ret. destruct (create_outputs id h true 0 (outputs tx) u) as [[[ms1|] u1]|] eqn:Ec; [|done|done].
    intros [= <- <-]. by eapply create_heights.
  - destruct (spend_inputs (inputs tx) u) as [[[ms0|] u0]|] eqn:Es; [|done|done].
    destruct (create_outputs id h false 0 (outputs tx) u0) as [[[ms1|] u1]|] eqn:Ec; [|done|done].
    intros [= <- <-] o e Ho. destruct (spend_effect _ _ _ _ Es) as (_ & _ & Hsub).
    destruct (create_heights _ _ _ _ _ _ _ _ Ec o e Ho) as [Ho'|?]; [left; by eapply lookup_weaken|by right].
Qed.

Lemma applied_wf h txs u ms v :
  applied h txs u ms v -> in_u64 h -> Forall Transaction_wf txs -> entries_wf u -> entries_wf v /\ spent_wf (collect_spent_utxos ms).
Proof.
  intros Ha Hh. induction Ha as [u|txs u ms v tx m w _ IH Ha]; intros Htx Hu; [split; [done|constructor]|]. apply Forall_app in Htx as [Htxs Htx].
  rewrite Forall_singleton in Htx. destruct (IH Htxs Hu) as [Hv Hms]. split.
  - intros o e Ho. destruct (apply_effect _ _ _ _ _ Ha) as (_ & _ & _ & id & Hid & Hk).
    destruct (Hk o e Ho) as [Hvo|[(i & Hi & ->) Hout]]; [by apply Hv|].
    destruct (apply_heights _ _ _ _ _ Ha _ e Ho) as [Hvo|He]; [by apply Hv|]. destruct Htx as (_ & Hn & _ & _ & Hos & _). split.
    + split; [by eapply tx_id_wf|]. unfold in_u32, U32_MAX, output_outpoint, U16_MAX in *. cbn. unfold len in Hn. rewrite Z.mod_small; lia.
    + split; [|by rewrite He]. rewrite Forall_forall in Hos. by apply Hos.
  - rewrite collect_app. apply Forall_app. split; [done|]. apply Forall_forall. intros oe Hoe.
    apply (apply_spent_read _ _ _ _ _ Ha) in Hoe. by apply Hv.
Qed.

(** The inputs of a block are fewer than its bytes. *)
Lemma inputs_bounded b bytes : Block_serialize b = Ok bytes -> sum_of (fun tx => len (inputs tx)) (transactions b) <= len bytes.
Proof.
  unfold Block_serialize. destruct (serialize_all _ _) as [txs|] eqn:Es; [|done]. intros [= <-]. rewrite !len_app.
  pose proof (len_nonneg (BlockHeader_serialize (header b))). rewrite len_le_bytes.
  cut (sum_of (fun tx => len (inputs tx)) (transactions b) <= len txs); [lia|]. clear -Es. revert txs Es.
  induction (transactions b) as [|tx l IH]; intros txs; cbn [serialize_all]; [by intros [= <-]|].
  destruct (Transaction_serialize tx) as [t|] eqn:Et; [|done]. destruct (serialize_all _ l) as [r|] eqn:Er; [|done]. intros [= <-].
  rewrite sum_of_cons, len_app. specialize (IH _ eq_refl). cut (len (inputs tx) <= len t); [lia|]. revert Et. clear.
  unfold Transaction_serialize, serialize_header, serialize_body. intros Ht. inv_res. rewrite !len_app, !len_le_bytes.
  match goal with Hi : serialize_all _ (inputs tx) = Ok ?i |- _ => apply (serialize_all_lower _ 1) in Hi; [|intros ? ? _ [= <-]; unfold TxInput_serialize; rewrite len_app, len_le_bytes; pose proof (len_nonneg (prev_tx_id x)); lia] end.
  repeat match goal with |- context [len ?l] => lazymatch goal with _ : 0 <= len l |- _ => fail | _ => pose proof (len_nonneg l) end end. lia.
Qed.
End Wellformed.

Section Database.
Context `{Sha2} `{!Sha2Width}.
Variables (U : Block -> Prop) (genesis : Block).
Hypothesis world : World U genesis.
Abbreviation id_of b := (block_id (header b)).
Abbreviation log := (list (Block * list UtxoMutation)).
Abbreviation chain_to := (chain_to U genesis).
Abbreviation chain_log := (chain_log U genesis).

(** A block that descends from genesis. *)
Definition linked (b : Block) (h : Z) (w : bytes) : Prop := U b /\ root_ok b /\ chain_to (id_of b) h w.

Definition row_valid (r : row) : Prop :=
  let '(t, k, v) := r in
  match t with
  | BLOCKS_TABLE => exists b h w, linked b h w /\ k = id_of b /\ Block_serialize b = Ok v
  | HEADERS_TABLE => exists b h w, linked b h w /\ k = id_of b /\ v = BlockHeader_serialize (header b)
  | WORK_TABLE => exists h, chain_to k h v
  | RETAINED_FORK_HEADERS_TABLE => exists h w, chain_to k h w /\ v = le_bytes 8 h
  | _ => True
  end.

(** The rows that a chain needs. *)
Definition pinned (l : log) (r : row) : Prop :=
  let '(t, k, v) := r in
  exists i b ms, l !! i = Some (b, ms) /\ k = id_of b /\
  match t with
  | BLOCKS_TABLE => Block_serialize b = Ok v
  | HEADERS_TABLE => v = BlockHeader_serialize (header b)
  | WORK_TABLE => chain_to k (Z.of_nat i) v
  | SPENT_UTXOS_TABLE => i <> O /\ serialize_spent_utxos (collect_spent_utxos ms) = Ok v
  | _ => False
  end.

Record db_ok (l : log) (db : ChainStorage) : Prop := {
  db_rows t k v : table_get t k db = Some v -> row_valid (t, k, v);
  db_pinned t k v : pinned l (t, k, v) -> table_get t k db = Some v;
  db_index h id : HEIGHT_INDEX db !! h = Some id <-> exists i b ms, h = Z.of_nat i /\ l !! i = Some (b, ms) /\ id = id_of b;
  db_tip : exists b ms, last l = Some (b, ms) /\ table_get META_TABLE TIP_KEY db = Some (id_of b)
}.

Lemma chain_to_u64 id h w : chain_to id h w -> in_u64 h.
Proof.
  destruct 1 as [|b h w Ub Rb _ Hh]; [done|]. rewrite <- Hh. by apply (w_wf _ _ world b Ub).
Qed.
Lemma stored_header_height h : BlockHeader_wf h -> le_val (slice (BlockHeader_serialize h) 4 12) = height h.
Proof. intros Hwf. exact (f_equal height (header_decodes_encoding h Hwf)). Qed.

Section Log.
Variables (l : log) (u : utxo_map).
Hypothesis Hl : chain_log l u.

Lemma log_linked i b ms : l !! i = Some (b, ms) -> exists w, linked b (Z.of_nat i) w.
Proof.
  intros Hi. destruct (log_chain_to _ _ world _ _ _ _ _ Hl Hi) as [w Hw]. destruct (log_blocks _ _ world _ _ b ms Hl) as (? & ? & _); [by eapply list_elem_of_lookup_2|].
  by exists w.
Qed.
Lemma same_block b1 b2 h1 w1 h2 w2 : linked b1 h1 w1 -> linked b2 h2 w2 -> id_of b1 = id_of b2 -> b1 = b2.
Proof. intros (? & ? & _) (? & ? & _). by apply (w_ids _ _ world). Qed.

(** Valid rows of the data tables never contradict the chain. *)
Lemma valid_agrees t k v v' :
  pinned l (t, k, v) -> row_valid (t, k, v') -> t <> SPENT_UTXOS_TABLE -> v = v'.
Proof.
  intros (i & b & ms & Hi & -> & Hp) Hv Ht. destruct (log_linked _ _ _ Hi) as [w Hb]. destruct t; try done; cbn in Hv.
  - destruct Hv as (b' & h' & w' & Hb' & E & Hs). rewrite (same_block _ _ _ _ _ _ Hb Hb' E) in Hp. rewrite Hs in Hp. by injection Hp.
  - destruct Hv as (b' & h' & w' & Hb' & E & ->). rewrite (same_block _ _ _ _ _ _ Hb Hb' E) in Hp. done.
  - destruct Hv as (h & Hh). by destruct (chain_to_fun _ _ world _ _ _ _ _ Hp Hh) as [_ ->].
Qed.

(** Evictions spare the blocks of the chain. *)
Lemma indexed_at db id h w : db_ok l db -> chain_to id h w -> is_canonical_at h id db = false -> forall t v, ~ pinned l (t, id, v).
Proof.
  intros Hdb Hc Hn t v (i & b' & ms & Hi & -> & _). unfold is_canonical_at in Hn. apply bool_decide_eq_false in Hn. apply Hn.
  apply (db_index _ _ Hdb). exists i, b', ms. split_and!; [|done|done]. destruct (log_linked _ _ _ Hi) as (w' & _ & _ & Hc').
  by destruct (chain_to_fun _ _ world _ _ _ _ _ Hc Hc') as [-> _].
Qed.

Lemma row_remove_ok t k db : db_ok l db -> (t = META_TABLE -> k <> TIP_KEY) -> (forall v, ~ pinned l (t, k, v)) -> db_ok l (table_remove t k db).
Proof.
  intros [Hr Hp Hx Ht] Hm Hn. split.
  - intros t' k' v' Hg. rewrite table_get_remove in Hg. case_decide; [done|]. by apply Hr.
  - intros t' k' v' Hpin. rewrite table_get_remove. case_decide as Hd; [destruct Hd as [-> ->]; by destruct (Hn v')|]. by apply Hp.
  - done.
  - destruct Ht as (b & ms & Hlast & Ht). exists b, ms. split; [done|]. rewrite table_get_remove, decide_False; [done|]. intros [<- E]. by apply Hm.
Qed.
Lemma row_insert_ok t k v db :
  db_ok l db -> (t = META_TABLE -> k <> TIP_KEY) -> row_valid (t, k, v) -> t <> SPENT_UTXOS_TABLE -> db_ok l (table_insert t k v db).
Proof.
  intros [Hr Hp Hx Ht] Hm Hv Hs. split.
  - intros t' k' v' Hg. rewrite table_get_insert in Hg. case_decide as Hd; [destruct Hd as [-> ->]; by injection Hg as <-|]. by apply Hr.
  - intros t' k' v' Hpin. rewrite table_get_insert. case_decide as Hd; [destruct Hd as [-> ->]; f_equal; symmetry; by eapply valid_agrees|]. by apply Hp.
  - done.
  - destruct Ht as (b & ms & Hlast & Ht). exists b, ms. split; [done|]. rewrite table_get_insert, decide_False; [done|]. intros [<- E]. by apply Hm.
Qed.

Lemma store_fork_ok b h w db db' : db_ok l db -> linked b h w -> store_fork_block_atomic b w db = Ok db' -> db_ok l db'.
Proof.
  intros Hdb Hb. unfold store_fork_block_atomic. destruct (put_block_data b db) as [db1|] eqn:E; [|done].
  apply put_block_data_spec in E as (bytes & Hs & ->). intros [= <-].
  repeat (apply row_insert_ok; [|done| |done]); [done| | | |]; cbn; try done; [by exists b, h, w..|]. exists h. apply Hb.
Qed.

(** The height in a stored header is that of its block. *)
Lemma stored_height_spec id db : db_ok l db ->
  match stored_height id db with
  | Some h => exists w, chain_to id h w
  | None => forall t v, ~ pinned l (t, id, v)
  end.
Proof.
  intros Hdb. unfold stored_height. destruct (table_get HEADERS_TABLE id db) as [v|] eqn:E.
  - apply (db_rows _ _ Hdb) in E as (b & h & w & (Ub & Rb & Hc) & -> & ->). pose proof (w_wf _ _ world _ Ub) as (Hwf & _).
    rewrite (len_header _ Hwf). cbn. exists w. rewrite (stored_header_height _ Hwf), (chain_to_height _ _ world _ _ _ Ub Rb Hc). done.
  - intros t v (i & b & ms & Hi & -> & _). rewrite (db_pinned _ _ Hdb HEADERS_TABLE (id_of b) (BlockHeader_serialize (header b))) in E; [done|].
    by exists i, b, ms.
Qed.

Lemma evict_body_ok id db db' : db_ok l db -> evict_body id db = Ok db' -> db_ok l db'.
Proof.
  intros Hdb. unfold evict_body. pose proof (stored_height_spec id db Hdb) as Hsh. intros [= <-].
  apply row_remove_ok; [|done|by intros v (? & ? & ? & _ & _ & [])].
  destruct (stored_height id db) as [h|].
  - destruct Hsh as [w Hw]. destruct (is_canonical_at h id db) eqn:Ec; [done|]. pose proof (indexed_at _ _ _ _ Hdb Hw Ec).
    apply row_insert_ok; [|done|by exists h, w|done]. apply row_remove_ok; [|done|done]. by apply row_remove_ok.
  - apply row_remove_ok; [|done|done]. by apply row_remove_ok.
Qed.

Lemma drop_retained_ok e db db' : db_ok l db -> (exists w, chain_to e.1 e.2 w) -> drop_retained e db = Ok db' -> db_ok l db'.
Proof.
  intros Hdb [w Hw]. unfold drop_retained. intros [= <-].
  assert (db_ok l (table_remove RETAINED_FORK_HEADERS_TABLE e.1 db)) by (apply row_remove_ok; [done|done|by intros v (? & ? & ? & _ & _ & [])]).
  destruct (is_canonical_at e.2 e.1 db) eqn:Ec; [done|]. pose proof (indexed_at _ _ _ _ Hdb Hw Ec).
  apply row_remove_ok; [|done|done]. apply row_remove_ok; [|done|done]. by apply row_remove_ok.
Qed.

Lemma retained_valid db e : db_ok l db -> e ∈ retained_entries db -> exists w, chain_to e.1 e.2 w.
Proof.
  intros Hdb. unfold retained_entries. rewrite list_elem_of_omap. intros ([k v] & Hin & Hf). cbn [fst snd] in Hf.
  destruct ((len k =? 32) && (len v =? 8)); [|done]. injection Hf as <-. unfold table_rows in Hin. rewrite merge_sort_Permutation in Hin.
  apply elem_of_map_to_list in Hin. apply (db_rows _ _ Hdb RETAINED_FORK_HEADERS_TABLE) in Hin as (h & w & Hc & ->). exists w. cbn [fst snd].
  pose proof (chain_to_u64 _ _ _ Hc) as Hu. unfold in_u64, U64_MAX in Hu. rewrite le_val_bytes by (simpl; lia). done.
Qed.

Lemma write_ok f (body : txn) db r db' :
  (forall db1, body db = Ok db1 -> db_ok l db1) -> db_ok l db -> write_txn f body db = (r, db') -> db_ok l db'.
Proof. intros Hb Hdb. unfold write_txn. destruct f; [by intros [= <- <-]|]. destruct (body db) as [db1|]; intros [= <- <-]; auto. Qed.

Lemma evict_fork_ok f1 f2 id db r db' : db_ok l db -> evict_fork_block f1 f2 id db = (r, db') -> db_ok l db'.
Proof.
  intros Hdb. unfold evict_fork_block. destruct (write_txn f1 (evict_body id) db) as [[[]|e] db1] eqn:Ew.
  2: { intros [= <- <-]. eapply write_ok; [|exact Hdb|exact Ew]. intros ?. by apply evict_body_ok. }
  assert (db_ok l db1) as H1 by (eapply write_ok; [|exact Hdb|exact Ew]; intros ?; by apply evict_body_ok).
  unfold enforce_retained_fork_header_cap. destruct (_ <=? _); [by intros [= <- <-]|]. apply write_ok; [|done].
  assert (Forall (fun e => exists w, chain_to e.1 e.2 w) (take (Z.to_nat (len (retained_entries db1) - MAX_RETAINED_FORK_HEADERS)) (merge_sort height_order (retained_entries db1)))) as Hall.
  { apply Forall_take. rewrite merge_sort_Permutation. apply Forall_forall. intros e. by apply retained_valid. }
  revert Hall H1. clear Ew. generalize (take (Z.to_nat (len (retained_entries db1) - MAX_RETAINED_FORK_HEADERS)) (merge_sort height_order (retained_entries db1))) as es.
  clear Hdb db db'. intros es. revert db1. induction es as [|e es IH]; intros db Hes Hdb db'; cbn [for_txn]; [by intros [= <-]|].
  apply Forall_cons in Hes as [He Hes]. destruct (drop_retained e db) as [db2|] eqn:Ed; [|done]. apply IH; [done|]. by eapply drop_retained_ok.
Qed.
End Log.

(** ** Reading the chain back *)

Lemma chain_to_work id h w : chain_to id h w -> len w = 32.
Proof.
  induction 1 as [|b h w Ub Rb _ IH _].
  - destruct (w_genesis _ _ world) as (Ug & _). apply work_from_target_spec. by apply (w_wf _ _ world genesis Ug).
  - apply add_work_spec; [done|]. apply work_from_target_spec. by apply (w_wf _ _ world b Ub).
Qed.

Lemma step_spent l u b ms v : block_step U l u b ms v -> entries_wf u ->
  entries_wf v /\ exists data, serialize_spent_utxos (collect_spent_utxos ms) = Ok data /\ deserialize_spent_utxos data = Some (collect_spent_utxos ms).
Proof.
  intros Hs Hu. pose proof (bs_applied _ _ _ _ _ _ Hs) as Ha. destruct (w_wf _ _ world b) as (Hh & _ & Htx); [apply Hs|].
  destruct (applied_wf _ _ _ _ _ Ha) as [Hv Hms]; [apply Hh|done|done|]. split; [done|]. apply spent_utxos_codec; [done|].
  destruct (bs_size _ _ _ _ _ _ Hs) as (bytes & Hb & Hlen). apply inputs_bounded in Hb.
  destruct (applied_domain (fun _ => True) _ _ _ _ _ Ha) as (_ & _ & Hn); [by apply Forall_true|done|]. unfold MAX_BLOCK_SIZE, U32_MAX in *. lia.
Qed.

Lemma log_wf l u : chain_log l u ->
  entries_wf u /\ forall i b ms, l !! i = Some (b, ms) -> i <> O ->
    exists data, serialize_spent_utxos (collect_spent_utxos ms) = Ok data /\ deserialize_spent_utxos data = Some (collect_spent_utxos ms).
Proof.
  induction 1 as [ms u Ha|l u p pms b ms v Hl [IHu IH] _ _ _ Hs].
  - destruct (w_genesis _ _ world) as (Ug & _). destruct (w_wf _ _ world _ Ug) as (_ & _ & Htx). split.
    + eapply applied_wf; [exact Ha|done|done|]. by intros o e ?%lookup_empty_Some.
    + intros i b ms' Hi. by destruct i.
  - destruct (step_spent _ _ _ _ _ Hs IHu) as [Hv Hd]. split; [done|]. intros i b' ms' Hi Hnz.
    apply lookup_app_Some in Hi as [Hi|[_ Hi]]; [by eapply IH|]. apply list_lookup_singleton_Some in Hi as [_ [= <- <-]]. done.
Qed.

Lemma get_header_ok l db id hd : db_ok l db -> get_header id db = Some hd -> exists b h w, linked b h w /\ id = id_of b /\ hd = header b.
Proof.
  intros Hdb. unfold get_header. destruct (table_get HEADERS_TABLE id db) as [v|] eqn:E; [|done].
  apply (db_rows _ _ Hdb) in E as (b & h & w & Hb & -> & ->). pose proof (w_wf _ _ world b (proj1 Hb)) as (Hwf & _).
  rewrite (len_header _ Hwf). cbn. rewrite (header_decodes_encoding _ Hwf). intros [= <-]. by exists b, h, w.
Qed.
Lemma get_work_ok l db id w : db_ok l db -> get_cumulative_work id db = Some w -> exists h, chain_to id h w.
Proof.
  intros Hdb. unfold get_cumulative_work, if_32. destruct (table_get WORK_TABLE id db) as [v|] eqn:E; [|done].
  destruct (len v =? 32); [|done]. intros [= <-]. by apply (db_rows _ _ Hdb) in E.
Qed.
Lemma read_block b bytes : U b -> Block_serialize b = Ok bytes -> Block_deserialize bytes = Ok (b, len bytes).
Proof.
  intros Ub Hs. destruct (codec_encodes _ (w_wf _ _ world b Ub)) as (e & He & Hd). rewrite Hs in He. injection He as <-.
  specialize (Hd []). by rewrite app_nil_r in Hd.
Qed.
Lemma get_block_ok l db id : db_ok l db ->
  match get_block id db with Ok (Some b) => (exists h w, linked b h w) /\ id = id_of b | Ok None => True | Err _ => False end.
Proof.
  intros Hdb. unfold get_block. destruct (table_get BLOCKS_TABLE id db) as [v|] eqn:E; [|done].
  apply (db_rows _ _ Hdb) in E as (b & h & w & Hb & -> & Hs). rewrite (read_block _ _ (proj1 Hb) Hs), Z.eqb_refl, decide_True by done. eauto.
Qed.

Section Canonical.
Variables (l : log) (u : utxo_map) (db : ChainStorage).
Hypothesis Hl : chain_log l u.
Hypothesis Hdb : db_ok l db.
Lemma get_block_canon i b ms : l !! i = Some (b, ms) -> get_block (id_of b) db = Ok (Some b).
Proof.
  intros Hi. destruct (log_linked _ _ Hl _ _ _ Hi) as (w & Ub & _). destruct (codec_encodes _ (w_wf _ _ world b Ub)) as (bytes & Hs & _).
  unfold get_block. rewrite (db_pinned _ _ Hdb BLOCKS_TABLE (id_of b) bytes) by by exists i, b, ms.
  by rewrite (read_block _ _ Ub Hs), Z.eqb_refl, decide_True.
Qed.
Lemma get_work_canon i b ms : l !! i = Some (b, ms) -> exists w, get_cumulative_work (id_of b) db = Some w /\ chain_to (id_of b) (Z.of_nat i) w.
Proof.
  intros Hi. destruct (log_linked _ _ Hl _ _ _ Hi) as (w & _ & _ & Hc). exists w. split; [|done]. unfold get_cumulative_work.
  rewrite (db_pinned _ _ Hdb WORK_TABLE (id_of b) w) by by exists i, b, ms. unfold if_32. by rewrite (chain_to_work _ _ _ Hc).
Qed.
Lemma get_spent_canon i b ms : l !! i = Some (b, ms) -> i <> O -> get_spent_utxos (id_of b) db = Some (collect_spent_utxos ms).
Proof.
  intros Hi Hnz. destruct (proj2 (log_wf _ _ Hl) _ _ _ Hi Hnz) as (data & Hs & Hd). unfold get_spent_utxos.
  rewrite (db_pinned _ _ Hdb SPENT_UTXOS_TABLE (id_of b) data) by by exists i, b, ms. done.
Qed.
End Canonical.

(** ** Commits *)

Lemma pinned_core l t k v : pinned l (t, k, v) -> t ∈ core.
Proof. intros (i & b & ms & _ & _ & Hp). destruct t; try done; set_solver. Qed.

(** A commit moves the database from one chain to another when its rows are valid
    and agree with the new chain, and the new chain needs no others. *)
Lemma committed_ok (P : row -> Prop) index l' u' b ms db db' :
  (forall t k v, table_get t k db = Some v -> row_valid (t, k, v)) -> chain_log l' u' -> last l' = Some (b, ms) -> committed P index (id_of b) db db' ->
  (forall r, P r -> row_valid r) ->
  (forall k v v', P (SPENT_UTXOS_TABLE, k, v) -> pinned l' (SPENT_UTXOS_TABLE, k, v') -> v = v') ->
  (forall t k v, pinned l' (t, k, v) -> P (t, k, v) \/ table_get t k db = Some v) ->
  (forall h id, index (HEIGHT_INDEX db) !! h = Some id <-> exists i b ms, h = Z.of_nat i /\ l' !! i = Some (b, ms) /\ id = id_of b) ->
  db_ok l' db'.
Proof.
  intros Hdb Hl' Hlast [(rows & Hcore & HP) Hh Ht] Hvalid Hspent Hneed Hidx. split.
  - intros t k v Hg. destruct (decide (t ∈ core)) as [Hc|Hc].
    + rewrite (core_get _ _ _ _ Hcore Hc) in Hg. apply put_rows_inv in Hg as [Hin|Hg]; [by apply Hvalid, HP|by apply Hdb].
    + destruct t; try done; set_solver.
  - intros t k v Hp. rewrite (core_get _ _ _ _ Hcore (pinned_core _ _ _ _ Hp)). apply put_rows_get.
    + intros v' Hin%HP. destruct (decide (t = SPENT_UTXOS_TABLE)) as [->|Hne]; [by eapply Hspent|]. symmetry. eapply valid_agrees; [done|done|by apply Hvalid|done].
    + destruct (Hneed _ _ _ Hp) as [Hr|Hr]; [left; by apply HP|by right].
  - intros h id. rewrite Hh. apply Hidx.
  - by exists b, ms.
Qed.

Lemma block_row_valid b h w r : linked b h w -> block_row b r -> row_valid r.
Proof. intros Hb (bytes & Hs & [->| ->]); by exists b, h, w. Qed.
(** What the chain needs of one of its blocks. *)
Lemma pinned_block l i b ms t k v : pinned l (t, k, v) -> l !! i = Some (b, ms) -> k = id_of b -> (exists u, chain_log l u) ->
  block_row b (t, k, v) \/ (t = WORK_TABLE /\ chain_to (id_of b) (Z.of_nat i) v) \/ spent_row (id_of b) (collect_spent_utxos ms) (t, k, v).
Proof.
  intros (j & b' & ms' & Hj & -> & Hp) Hi E [u Hl]. pose proof (log_distinct _ _ world _ _ _ _ _ _ _ _ Hl Hj Hi E) as ->.
  rewrite Hj in Hi. injection Hi as -> ->. destruct (log_linked _ _ Hl _ _ _ Hj) as (w & Ub & _).
  destruct (codec_encodes _ (w_wf _ _ world b Ub)) as (bytes & Hs & _). unfold block_row, spent_row.
  destruct t; try done; [left; eauto|left; subst; eauto|by right; left|right; right]. destruct Hp as [_ Hp]. eauto.
Qed.
Lemma pinned_app_l l1 l2 r : pinned l1 r -> pinned (l1 ++ l2) r.
Proof. destruct r as [[t k] v]. intros (i & b & ms & Hi & Hk & Hp). exists i, b, ms. split; [by apply lookup_app_l_Some|done]. Qed.
Lemma pinned_app_inv l1 l2 t k v : pinned (l1 ++ l2) (t, k, v) ->
  pinned l1 (t, k, v) \/ exists j b ms, l2 !! j = Some (b, ms) /\ k = id_of b.
Proof.
  intros (i & b & ms & Hi & Hk & Hp). apply lookup_app_Some in Hi as [Hi|[_ Hi]]; [left|right; eauto]. by exists i, b, ms.
Qed.
Lemma spent_row_pinned l u i b ms k v v' : chain_log l u -> l !! i = Some (b, ms) ->
  spent_row (id_of b) (collect_spent_utxos ms) (SPENT_UTXOS_TABLE, k, v) -> pinned l (SPENT_UTXOS_TABLE, k, v') -> v = v'.
Proof.
  intros Hl Hi (data & Hd & [= -> ->]) (j & b' & ms' & Hj & E & _ & Hs).
  pose proof (log_distinct _ _ world _ _ _ _ _ _ _ _ Hl Hi Hj E) as <-. rewrite Hi in Hj. injection Hj as <- <-. rewrite Hd in Hs. by injection Hs.
Qed.

Lemma commit_block_ok l u b ms v w muts db db' :
  chain_log l u -> db_ok l db -> chain_log (l ++ [(b, ms)]) v -> chain_to (id_of b) (height (header b)) w ->
  commit_block_atomic b w (collect_spent_utxos ms) muts db = Ok db' -> db_ok (l ++ [(b, ms)]) db'.
Proof.
  intros Hl Hdb Hl' Hw Hc%commit_block_effect. cbv zeta in Hc.
  assert ((l ++ [(b, ms)]) !! length l = Some (b, ms)) as Hi by by rewrite lookup_app_r, Nat.sub_diag.
  destruct (log_linked _ _ Hl' _ _ _ Hi) as (w' & Hb). pose proof (log_heights _ _ world _ _ _ _ _ Hl' Hi) as Hh.
  eapply committed_ok; [apply (db_rows _ _ Hdb)|exact Hl'|by rewrite last_snoc|exact Hc|..].
  - intros r [Hr|[->|(data & _ & ->)]]; [by eapply block_row_valid| |done]. eexists. exact Hw.
  - intros k v0 v' [(? & _ & [?|?])|[?|Hs]]; [done..|]. by eapply spent_row_pinned.
  - intros t k v0 Hp. destruct (pinned_app_inv _ _ _ _ _ Hp) as [?|(j & b' & ms' & Hj & ->)]; [right; by apply (db_pinned _ _ Hdb)|left].
    apply list_lookup_singleton_Some in Hj as [-> [= <- <-]]. destruct (pinned_block _ _ _ _ _ _ _ Hp Hi eq_refl) as [?|[[-> Hc']|?]]; [eauto|by left| |by right; right].
    right. left. rewrite Hh in Hw. by destruct (chain_to_fun _ _ world _ _ _ _ _ Hc' Hw) as [_ ->].
  - intros h id. rewrite lookup_insert_Some, (db_index _ _ Hdb). split.
    + intros [[<- <-]|[_ (i & b' & ms' & -> & Hi' & ->)]]; [by exists (length l), b, ms|]. exists i, b', ms'. split_and!; [done|by apply lookup_app_l_Some|done].
    + intros (i & b' & ms' & -> & [Hi'|[Hge Hi']]%lookup_app_Some & ->).
      * right. split; [|by exists i, b', ms']. pose proof (lookup_lt_Some _ _ _ Hi'). lia.
      * apply list_lookup_singleton_Some in Hi' as [Hz [= <- <-]]. left. split; [lia|done].
Qed.

(** The index after a reorganisation. *)
Lemma fold_delete_lookup hs (m : gmap Z bytes) h id : (fold_left (fun m h => delete h m) hs m) !! h = Some id <-> (h ∉ hs) /\ m !! h = Some id.
Proof.
  revert m. induction hs as [|x hs IH]; intros m; cbn [fold_left]; [set_solver|]. rewrite IH, lookup_delete_Some. set_solver.
Qed.
Lemma fold_insert_lookup xs (m : gmap Z bytes) h id :
  (forall h id id', (h, id) ∈ xs -> (h, id') ∈ xs -> id = id') ->
  (fold_left (fun m hid => <[fst hid := snd hid]> m) xs m) !! h = Some id <-> (h, id) ∈ xs \/ ((h ∉ map fst xs) /\ m !! h = Some id).
Proof.
  intros Hf. revert m. induction xs as [|[x y] xs IH]; intros m; cbn [fold_left map fst snd]; [set_solver|].
  rewrite IH by (intros h' i1 i2 ? ?; eapply (Hf h'); by right). rewrite lookup_insert_Some, not_elem_of_cons, elem_of_cons. split.
  - intros [?|[Hn [[-> ->]|[Hne Hm]]]]; [by left; right|by left; left|right]. done.
  - intros [[[= -> ->]|?]|[[Hne Hn] Hm]]; [|by left|by right; split; [|right]]. destruct (decide (x ∈ map fst xs)) as [Hin|Hn]; [|right; by auto].
    apply list_elem_of_fmap in Hin as ([x' y'] & E & Hin). cbn in E. subst x'. left.
    rewrite (Hf x y y'); [done|left|by right].
Qed.
Lemma stale_range_elem h c t : h ∈ stale_range (if c <? t then Some (c + 1, t) else None) <-> c < h <= t.
Proof.
  destruct (Z.ltb_spec c t); cbn; [rewrite elem_of_seqZ; lia|]. split; [by intros ?%not_elem_of_nil|lia].
Qed.

Lemma reorg_index_ok l1 lold lnew u v b ms db :
  chain_log (l1 ++ lold) u -> db_ok (l1 ++ lold) db -> chain_log (l1 ++ lnew) v -> last lnew = Some (b, ms) -> forall h id,
  reorg_index (map (fun blk => (height (header blk), id_of blk)) (map fst lnew))
    (if height (header b) <? Z.of_nat (length (l1 ++ lold)) - 1 then Some (height (header b) + 1, Z.of_nat (length (l1 ++ lold)) - 1) else None)
    (HEIGHT_INDEX db) !! h = Some id <-> exists i b ms, h = Z.of_nat i /\ (l1 ++ lnew) !! i = Some (b, ms) /\ id = id_of b.
Proof.
  intros Hl Hdb Hl' Hlast h id. unfold reorg_index. rewrite fold_delete_lookup, stale_range_elem.
  assert (forall h id, (h, id) ∈ map (fun blk => (height (header blk), id_of blk)) (map fst lnew) <->
    exists j b ms, lnew !! j = Some (b, ms) /\ h = Z.of_nat (length l1 + j) /\ id = id_of b) as Hin.
  { clear h id. intros h id. rewrite map_map, list_elem_of_fmap. split.
    - intros ([b' ms'] & [= -> ->] & Hin). apply list_elem_of_lookup in Hin as [j Hj]. exists j, b', ms'. split_and!; [done| |done].
      apply (log_heights _ _ world _ _ _ b' ms' Hl'). by rewrite lookup_app_r, Nat.add_sub' by lia.
    - intros (j & b' & ms' & Hj & -> & ->). exists (b', ms'). split; [|by eapply list_elem_of_lookup_2]. cbn. f_equal.
      symmetry. apply (log_heights _ _ world _ _ _ b' ms' Hl'). by rewrite lookup_app_r, Nat.add_sub' by lia. }
  rewrite fold_insert_lookup, Hin, (db_index _ _ Hdb).
  2: { intros h' i1 i2 (j1 & b1 & m1 & H1 & E1 & ->)%Hin (j2 & b2 & m2 & H2 & E2 & ->)%Hin. assert (j1 = j2) as -> by lia. congruence. }
  assert (height (header b) = Z.of_nat (length (l1 ++ lnew)) - 1) as Hb.
  { eapply (log_last _ _ world); [exact Hl'|]. rewrite last_app, Hlast. done. }
  assert (lnew <> []) as Hne by by destruct lnew. rewrite Hb, !length_app. split.
  - intros [Hst [(j & b' & ms' & Hj & -> & ->)|[Hn (i & b' & ms' & -> & Hi & ->)]]].
    + exists (length l1 + j)%nat, b', ms'. split_and!; [done|by rewrite lookup_app_r, Nat.add_sub' by lia|done].
    + exists i, b', ms'. split_and!; [done| |done]. destruct (decide (i < length l1)%nat) as [Hlt|Hge]; [by rewrite lookup_app_l in Hi |- * by done|].
      exfalso. destruct (decide (i < length l1 + length lnew)%nat) as [Hlt|Hge'].
      * destruct (lookup_lt_is_Some_2 lnew (i - length l1)) as [[b2 m2] H2]; [lia|]. apply Hn. apply list_elem_of_fmap. exists (Z.of_nat i, id_of b2).
        split; [done|]. apply Hin. exists (i - length l1)%nat, b2, m2. split_and!; [done|lia|done].
      * apply lookup_lt_Some in Hi. rewrite length_app in Hi. lia.
  - intros (i & b' & ms' & -> & Hi & ->). pose proof (lookup_lt_Some _ _ _ Hi) as Hlt. rewrite length_app in Hlt. split; [lia|].
    apply lookup_app_Some in Hi as [Hi|[Hge Hi]].
    + right. split; [|exists i, b', ms'; by split_and!; [|apply lookup_app_l_Some|]]. intros Hm. apply list_elem_of_fmap in Hm as ([h' i'] & E & Hm). cbn in E. subst h'.
      apply Hin in Hm as (j & ? & ? & _ & E & _). apply lookup_lt_Some in Hi. lia.
    + left. exists (i - length l1)%nat, b', ms'. split_and!; [done|lia|done].
Qed.

Lemma commit_reorg_ok l1 lold lnew u v b ms w old_chain new_mutations new_work db db' :
  chain_log (l1 ++ lold) u -> db_ok (l1 ++ lold) db -> chain_log (l1 ++ lnew) v -> last lnew = Some (b, ms) ->
  chain_to (id_of b) (height (header b)) w ->
  (forall k w, (k, w) ∈ new_work -> exists h, chain_to k h w) ->
  (forall b, b ∈ map fst lnew -> exists w, (id_of b, w) ∈ new_work) ->
  commit_reorg_atomic b w old_chain (map (fun bm => (id_of bm.1, collect_spent_utxos bm.2)) lnew) new_mutations
    (map (fun blk => (height (header blk), id_of blk)) (map fst lnew)) (map fst lnew) new_work
    (if height (header b) <? Z.of_nat (length (l1 ++ lold)) - 1 then Some (height (header b) + 1, Z.of_nat (length (l1 ++ lold)) - 1) else None)
    (id_of b) db = Ok db' ->
  db_ok (l1 ++ lnew) db'.
Proof.
  intros Hl Hdb Hl' Hlast Hw Hnw Hcov Hc%commit_reorg_effect.
  assert (last (l1 ++ lnew) = Some (b, ms)) as Hlast' by by rewrite last_app, Hlast.
  assert (forall j b' ms', lnew !! j = Some (b', ms') -> (l1 ++ lnew) !! (length l1 + j)%nat = Some (b', ms')) as Hpos by (intros; by rewrite lookup_app_r, Nat.add_sub' by lia).
  assert (forall b', b' = b \/ b' ∈ map fst lnew -> exists h w, linked b' h w) as Hlink.
  { intros b' Hb'. assert (b' ∈ map fst lnew) as Hin.
    { destruct Hb' as [->|?]; [|done]. apply list_elem_of_fmap. exists (b, ms). split; [done|]. rewrite last_lookup in Hlast. by eapply list_elem_of_lookup_2. }
    apply list_elem_of_fmap in Hin as ([b1 m1] & -> & Hin). apply list_elem_of_lookup in Hin as [j Hj].
    destruct (log_linked _ _ Hl' _ _ _ (Hpos _ _ _ Hj)) as [w' Hb]. eauto. }
  eapply committed_ok; [apply (db_rows _ _ Hdb)|exact Hl'|exact Hlast'|exact Hc|..].
  - intros r [(b' & Hb' & Hr)|[([k w'] & Hkw & ->)|(sp & _ & data & _ & ->)]]; [|cbn|done].
    + destruct (Hlink _ Hb') as (h & w' & Hlk). by eapply block_row_valid.
    + destruct Hkw as [[= -> ->]|Hkw]; [eexists; exact Hw|by apply Hnw in Hkw].
  - intros k v0 v' [(b' & _ & ? & _ & [?|?])|[(iw & _ & ?)|(sp & Hin & Hs)]]; [done..|]. apply list_elem_of_fmap in Hin as ([b' ms'] & -> & Hin).
    apply list_elem_of_lookup in Hin as [j Hj]. cbn [fst snd] in Hs. exact (spent_row_pinned _ _ _ _ _ _ _ _ Hl' (Hpos _ _ _ Hj) Hs).
  - intros t k v0 Hp. destruct (pinned_app_inv _ _ _ _ _ Hp) as [?|(j & b' & ms' & Hj & ->)]; [right; by apply (db_pinned _ _ Hdb), pinned_app_l|left].
    assert ((b', ms') ∈ lnew) as Hin by by eapply list_elem_of_lookup_2. assert (b' ∈ map fst lnew) as Hin' by (apply list_elem_of_fmap; by exists (b', ms')).
    destruct (pinned_block _ _ _ _ _ _ _ Hp (Hpos _ _ _ Hj) eq_refl) as [?|[[-> Hc']|?]]; [eauto|left; eauto| |].
    + right. left. destruct (Hcov _ Hin') as [w' Hw']. exists (id_of b', w'). split; [by right|]. cbn. f_equal.
      destruct (Hnw _ _ Hw') as [h Hh]. by destruct (chain_to_fun _ _ world _ _ _ _ _ Hc' Hh) as [_ ->].
    + right. right. exists (id_of b', collect_spent_utxos ms'). split; [apply list_elem_of_fmap; by exists (b', ms')|done].
  - by eapply reorg_index_ok.
Qed.

(** The first commit. *)
Lemma commit_genesis_ok ms u muts db :
  applied 0 (transactions genesis) ∅ ms u ->
  commit_genesis_atomic genesis (work_from_target (difficulty_target (header genesis))) muts empty_db = Ok db -> db_ok [(genesis, ms)] db.
Proof.
  intros Ha Hc%commit_genesis_effect. destruct (w_genesis _ _ world) as (Ug & Rg & Hg & _). assert (chain_log [(genesis, ms)] u) as Hl by by apply log_genesis.
  assert (linked genesis 0 (work_from_target (difficulty_target (header genesis)))) as Hlk by (split_and!; [done|done|apply to_genesis]).
  eapply (committed_ok _ _ _ _ _ _ empty_db); [intros t k v Hx; unfold table_get in Hx; cbn in Hx; by apply lookup_empty_Some in Hx|exact Hl|done|exact Hc|..].
  - intros r [Hr| ->]; [by eapply block_row_valid|]. eexists. apply Hlk.
  - intros k v v' [(? & _ & [?|?])|?]; done.
  - intros t k v Hp. left. destruct Hp as (i & b & ms' & Hi & -> & Hp). destruct i; [|done]. injection Hi as <- <-.
    destruct (codec_encodes _ (w_wf _ _ world _ Ug)) as (bytes & Hs & _). unfold block_row.
    destruct t; try done; [eauto|subst; eauto|right|by destruct Hp]. destruct Hlk as (_ & _ & Hc'). by destruct (chain_to_fun _ _ world _ _ _ _ _ Hp Hc') as [_ ->].
  - intros h id. rewrite Hg, lookup_insert_Some. change (HEIGHT_INDEX empty_db) with (∅ : gmap Z bytes). split.
    + intros [[<- <-]|[_ []%lookup_empty_Some]]. by exists O, genesis, ms.
    + intros (i & b & ms' & -> & Hi & ->). destruct i; [|done]. injection Hi as <- <-. by left.
Qed.
End Database.
