(* ===== verification/ChainState.v ===== *)
(** * The chain manager keeps its state consistent

    [node_ok] says that memory and database agree on one chain: the UTXO set is
    what the blocks of the chain lead to, the tip is its last block with its
    height and work, the database holds the chain, and the mempool is
    consistent.  Each operation of [ChainManager.v] is proved against it with a
    weakest precondition [wp] for node operations: [lost] is what is known of an
    operation that does not return. *)

From S2P Require Import Prelude Bytes Codec Hash Transaction Block Wire U256 Difficulty Reward.
From S2P Require Import ScriptValue ScriptCodec Jets ScriptCost Eval FeeCost Smt Utxo TxValidation BlockValidation BlockApply Mempool.
From S2P Require Import Storage ChainManager StoreView ChainModel StorageFacts ChainStore.
#[local] Open Scope Z_scope.

Section State.
Context {lost : Prop} {S : Type} `{StoreView lost S} `{!UtxoRoot S}.
Context `{Sha2} `{!Sha2Width} `{Ed25519} `{Layout} `{Argon2}.
Variable signature_domain : Hash256.
Variable coinbase_maturity : Z.
Variables (U : Block -> Prop) (genesis : Block).
Hypothesis world : World U genesis.
Abbreviation id_of b := (block_id (header b)).
Abbreviation log := (list (Block * list UtxoMutation)).
Abbreviation chain_to := (chain_to U genesis).
Abbreviation chain_log := (chain_log U genesis).
Abbreviation linked := (linked U genesis).
Abbreviation db_ok := (db_ok U genesis).
Abbreviation Node := (@Node S).

(** ** Weakest preconditions *)

Definition wp {A} (c : @proc S A) (n : Node) (Q : result ProcessBlockError A -> Node -> Prop) : Prop :=
  match c n with Some (r, n') => Q r n' | None => lost end.

Lemma wp_mono {A} (c : @proc S A) n (Q Q' : result ProcessBlockError A -> Node -> Prop) : wp c n Q -> (forall r n', Q r n' -> Q' r n') -> wp c n Q'.
Proof. unfold wp. destruct (c n) as [[r n']|]; auto. Qed.
Lemma wp_bind {A B} (c : @proc S A) (f : A -> @proc S B) n Q :
  wp c n (fun r n' => match r with Ok a => wp (f a) n' Q | Err e => Q (Err e) n' end) -> wp (c ≫= f) n Q.
Proof. unfold wp, mbind, proc_bind. by destruct (c n) as [[[a|e] n']|]. Qed.
Lemma wp_ret {A} (a : A) n (Q : result ProcessBlockError A -> Node -> Prop) : Q (Ok a) n -> wp (mret a : @proc S A) n Q.
Proof. done. Qed.
Lemma wp_fail {A} e n (Q : result ProcessBlockError A -> Node -> Prop) : Q (Err e) n -> wp (fail e) n Q.
Proof. done. Qed.
Lemma wp_gets {A} (f : Node -> A) n Q : Q (Ok (f n)) n -> wp (gets f) n Q.
Proof. done. Qed.
Lemma wp_modify (f : Node -> Node) n Q : Q (Ok tt) (f n) -> wp (modify f) n Q.
Proof. done. Qed.
Lemma wp_read {A} env c (f : ChainStorage -> A) n Q :
  Q (Err (db_error DbError)) n -> (io env c = false -> Q (Ok (f (storage n))) n) -> wp (read env c f) n Q.
Proof. unfold wp, read. destruct (io env c); auto. Qed.
Lemma wp_read_cases {A} env c (f : ChainStorage -> A) n Q :
  (io env c = true -> Q (Err (db_error DbError)) n) -> (io env c = false -> Q (Ok (f (storage n))) n) -> wp (read env c f) n Q.
Proof. unfold wp, read. destruct (io env c); auto. Qed.
Lemma wp_read_ok {A} env c (f : ChainStorage -> A) n Q : io env c = false -> Q (Ok (f (storage n))) n -> wp (read env c f) n Q.
Proof. unfold wp, read. by intros ->. Qed.
Lemma wp_lift_opt {A} (o : option A) e n Q :
  match o with Some a => Q (Ok a) n | None => Q (Err e) n end -> wp (lift_opt o e) n Q.
Proof. by destruct o. Qed.
Lemma wp_lift_res {A E} (r : result E A) f n Q :
  match r with Ok a => Q (Ok a) n | Err e => Q (Err (f e)) n end -> wp (lift_res r f) n Q.
Proof. by destruct r. Qed.
Lemma wp_write f body n Q :
  (forall r db, write_txn f body (storage n) = (r, db) -> Q (Ok r) (with_storage db n)) -> wp (write f body) n Q.
Proof. unfold wp, write. destruct (write_txn _ _ _) as [r db]. auto. Qed.
Lemma wp_evict f1 f2 id n Q :
  (forall r db, evict_fork_block f1 f2 id (storage n) = (r, db) -> Q (Ok r) (with_storage db n)) -> wp (evict f1 f2 id) n Q.
Proof. unfold wp, evict. destruct (evict_fork_block _ _ _ _) as [r db]. auto. Qed.
(** An operation on the set, by what it does on the map. *)
Lemma wp_utxo {E A} (c1 : S -> option (result E A * S)) c2 n r u Q :
  follows c1 c2 -> c2 (view (utxo_set n)) = Some (r, u) -> (forall s, view s = u -> Q (Ok r) (with_utxo s n)) -> wp (on_utxo c1) n Q.
Proof.
  intros Hf Hc HQ. unfold wp, on_utxo. specialize (Hf (utxo_set n)). destruct (c1 (utxo_set n)) as [[r' s]|]; [|done].
  rewrite Hc in Hf. injection Hf as <- Hv. by apply HQ.
Qed.

Ltac wp_step :=
  cbv beta iota; lazymatch goal with
  | |- wp (_ ≫= _) _ _ => apply wp_bind
  | |- wp (mret _) _ _ => apply wp_ret
  | |- wp (fail _) _ _ => apply wp_fail
  | |- wp (gets _) _ _ => apply wp_gets
  | |- wp (modify _) _ _ => apply wp_modify
  | |- wp (lift_opt ?o _) _ _ => apply wp_lift_opt; let E := fresh "E" in destruct o eqn:E
  | |- wp (lift_res ?r _) _ _ => apply wp_lift_res; let E := fresh "E" in destruct r eqn:E
  end; cbv beta iota.

(** ** Keeping the chain *)

Record tip_ok (l : log) (t : ChainTip) : Prop := {
  tip_last : exists b ms, last l = Some (b, ms) /\ tip_block_id t = id_of b;
  tip_at : tip_height t = Z.of_nat (length l) - 1;
  tip_work : chain_to (tip_block_id t) (tip_height t) (cumulative_work t)
}.
Record node_ok (l : log) (n : Node) : Prop := {
  node_log : chain_log l (view (utxo_set n));
  node_db : db_ok l (storage n);
  node_tip : tip_ok l (tip n);
  node_pool : pool_ok (mempool n)
}.

(** [n'] is still on the chain [l]; what is in memory is as in [n]. *)
Record kept (l : log) (n n' : Node) : Prop := {
  kept_db : db_ok l (storage n');
  kept_view : view (utxo_set n') = view (utxo_set n);
  kept_tip : tip n' = tip n;
  kept_pool : mempool n' = mempool n
}.
Lemma kept_refl l n : db_ok l (storage n) -> kept l n n.
Proof. done. Qed.
Lemma kept_trans l n1 n2 n3 : kept l n1 n2 -> kept l n2 n3 -> kept l n1 n3.
Proof. intros [] []. split; [done|congruence..]. Qed.
Lemma kept_ok l n n' : node_ok l n -> kept l n n' -> node_ok l n'.
Proof. intros [Hl Hdb Ht Hp] [Kd Kv Kt Kp]. split; [by rewrite Kv|done|by rewrite Kt|by rewrite Kp]. Qed.

Section Keeping.
Variables (l : log) (u : utxo_map).
Hypothesis Hl : chain_log l u.

Lemma evict_each_kept env ids n : db_ok l (storage n) -> wp (evict_each env ids) n (fun _ n' => kept l n n').
Proof.
  revert n. induction ids as [|id ids IH]; intros n Hdb; cbn [evict_each]; [by wp_step|]. wp_step. apply wp_evict. intros r db Hev.
  apply (evict_fork_ok _ _ world _ _ Hl) in Hev; [|done]. wp_step. wp_step; [|done].
  eapply wp_mono; [by apply IH|]. intros ? n' Hk. by eapply kept_trans; [|exact Hk].
Qed.
Lemma evict_quietly_kept env ids n : db_ok l (storage n) -> wp (evict_quietly env ids) n (fun r n' => kept l n n' /\ r = Ok tt).
Proof.
  revert n. induction ids as [|id ids IH]; intros n Hdb; cbn [evict_quietly]; [by wp_step|]. wp_step. apply wp_evict. intros r db Hev.
  apply (evict_fork_ok _ _ world _ _ Hl) in Hev; [|done].
  eapply wp_mono; [by apply IH|]. intros r' n' [Hk ->]. split; [|done]. by eapply kept_trans; [|exact Hk].
Qed.
Lemma store_fork_kept f b h w n r db :
  db_ok l (storage n) -> linked b h w -> write_txn f (store_fork_block_atomic b w) (storage n) = (r, db) -> kept l n (with_storage db n).
Proof.
  intros Hdb Hb Hw. split; try done. eapply (write_ok U genesis l); [|exact Hdb|exact Hw]. intros db1. by apply (store_fork_ok _ _ world _ _ Hl _ h).
Qed.

Lemma try_store_kept env b h w n : db_ok l (storage n) -> linked b h w -> wp (try_store_fork_block env b w) n (fun _ n' => kept l n n').
Proof.
  intros Hdb Hb. unfold try_store_fork_block. wp_step. apply wp_read; [done|]. intros _. destruct (has_block _ _); [done|]. destruct (_ <? _); [done|].
  wp_step. wp_step. wp_step. wp_step. destruct (in_pool _ _); [done|]. destruct (fork_victim _ _ _ _) as [evict_id|]; [|done].
  wp_step. eapply wp_mono; [by apply evict_each_kept|]. intros [[]|e] n1 K1; [|done]. wp_step. apply wp_write. intros r db Hw.
  apply (store_fork_kept _ _ h) in Hw; [|apply K1|done]. assert (kept l n (with_storage db n1)) as K2 by by eapply kept_trans. clear K1 Hw.
  wp_step. wp_step; [|done]. wp_step. apply wp_read; [done|]. intros _. destruct (negb _); [done|]. wp_step. wp_step.
  destruct (trim _ _ _ _) as [pool trimmed]. wp_step. wp_step. wp_step. eapply wp_mono; [apply evict_each_kept; apply K2|].
  intros r2 n2 K3. assert (kept l n n2) by (eapply kept_trans; [exact K2|]; eapply kept_trans; [|exact K3]; split; [apply K2|done..]). by destruct r2 as [[]|e].
Qed.

Lemma keep_as_fork_kept env b h t n :
  db_ok l (storage n) -> linked b h (cumulative_work t) ->
  wp (keep_as_fork env b t) n (fun r n' => kept l n n' /\ forall o, r = Ok o -> o = Stored).
Proof.
  intros Hdb Hb. unfold keep_as_fork. wp_step. wp_step; [|done]. destruct (bool_decide _); [done|]. wp_step. wp_step; [|done].
  wp_step. eapply wp_mono; [by eapply try_store_kept|]. intros [[]|e] n' K; (split; [done|]); congruence.
Qed.
End Keeping.

(** ** Before the lock *)

Record checked (b : Block) (p : BlockHeader) : Prop := {
  ck_prev : prev_block_id (header b) = block_id p;
  ck_height : height (header b) = height p + 1;
  ck_shape : exists coinbase others, well_shaped b coinbase others;
  ck_size : exists bytes, Block_serialize b = Ok bytes /\ len bytes <= MAX_BLOCK_SIZE
}.
Lemma header_checked b p ts target clock skip : validate_block_header_inner b (Some p) ts target clock skip = Ok tt -> checked b p.
Proof.
  intros (_ & Hh & Hp & _ & _ & _ & Hs & Htx)%header_inner_Ok. unfold check_height, check_prev_block in *. split; [| |by apply check_transactions_Ok|done].
  - by case_bool_decide.
  - destruct (checked_add _ _ _) as [x|] eqn:Ea; [|done]. cbn [ok_or] in Hh. apply checked_Some in Ea as [_ ->].
    destruct (Z.eqb_spec (height (header b)) (height p + 1)); done.
Qed.

(** A block that may be committed, with the tip it would make. *)
Record pending (b : Block) (t : ChainTip) : Prop := {
  pd_in : U b;
  pd_shape : exists coinbase others, well_shaped b coinbase others;
  pd_size : exists bytes, Block_serialize b = Ok bytes /\ len bytes <= MAX_BLOCK_SIZE;
  pd_id : tip_block_id t = id_of b;
  pd_height : tip_height t = height (header b);
  pd_work : chain_to (id_of b) (height (header b)) (cumulative_work t);
  pd_parent : exists w, chain_to (prev_block_id (header b)) (height (header b) - 1) w
}.
Lemma pending_root b t : pending b t -> root_ok b.
Proof. intros Hp. destruct (pd_shape _ _ Hp) as (cb & os & Hws). apply Hws. Qed.
Lemma pending_linked b t : pending b t -> linked b (height (header b)) (cumulative_work t).
Proof. intros Hp. split_and!; [apply Hp|by eapply pending_root|apply Hp]. Qed.

(** A header that passes on top of a stored parent of known work. *)
Lemma checked_pending l db b p w :
  db_ok l db -> U b -> checked b p -> get_header (prev_block_id (header b)) db = Some p -> get_cumulative_work (prev_block_id (header b)) db = Some w ->
  pending b (ChainTip_new (id_of b) (height (header b)) (difficulty_target (header b)) w).
Proof.
  intros Hdb Ub [_ Hh Hshape Hsize] Hp Hw. apply (get_header_ok _ _ world _ _ _ _ Hdb) in Hp as (pb & h & w' & (Up & Rp & Hc) & E & ->).
  apply (get_work_ok _ _ _ _ _ _ Hdb) in Hw as (h' & Hc'). rewrite E in Hc'. pose proof (chain_to_height _ _ world _ _ _ Up Rp Hc') as Hpb.
  assert (root_ok b) as Rb by by destruct Hshape as (cb & os & Hws); apply Hws.
  split; [done|done|done|done|done| |].
  - rewrite Hh, Hpb. apply (to_child U genesis b); [done|done|by rewrite E|by rewrite Hh, Hpb].
  - exists w. rewrite Hh, Z.add_simpl_r, Hpb, E. done.
Qed.

Lemma wp_target env prev h n : wp (expected_target env prev h) n (fun _ n' => exists c, n' = with_cache c n).
Proof.
  unfold wp, expected_target, cached_expected_difficulty. assert (n = with_cache (difficulty_cache n) n) as E by by destruct n.
  destruct (difficulty_cache n !! _); [by exists (difficulty_cache n)|].
  destruct (expected_difficulty _ _ _) as [target|[]]; eauto.
Qed.
Lemma wp_checkpoint env b n : wp (check_checkpoint env b) n (fun _ n' => exists v t, n' = with_checkpoint v t n).
Proof.
  unfold wp, check_checkpoint. assert (n = with_checkpoint (assume_valid_verified n) (assume_valid_cumulative_work_trusted n) n) as E by by destruct n.
  destruct (_ && _); [|eauto]. destruct (bool_decide _); eauto.
Qed.
Lemma buffer_kept l env b n : db_ok l (storage n) -> kept l n (buffer_future_block env b n).
Proof. intros Hdb. unfold buffer_future_block. by destruct (existsb _ _). Qed.

Lemma prepare_kept l env skip b n :
  chain_log l (view (utxo_set n)) -> db_ok l (storage n) -> U b ->
  wp (prepare env skip b) n (fun r n' => kept l n n' /\
    match r with
    | Ok (Contender t) => pending b t /\ is_better_chain t (tip n) = true
    | Ok (Finished o) => o <> Accepted
    | Err _ => True
    end).
Proof.
  intros Hl Hdb Ub. unfold prepare. wp_step. apply wp_read; [done|]. intros _. destruct (has_block _ _); [by wp_step|]. destruct (_ =? _); [done|].
  wp_step. apply wp_read; [done|]. intros _. wp_step. apply wp_lift_opt. destruct (get_header _ _) as [p|] eqn:Hp; [|done]. wp_step. apply wp_read; [done|]. intros _.
  wp_step. eapply wp_mono; [apply wp_target|]. intros r n1 [c ->]. destruct r as [target|e]; [|done].
  assert (kept l n (with_cache c n)) as K by done. destruct (check_header _ _ _ _ _ _) as [[]|e] eqn:Eh.
  2: { destruct e; try done. wp_step. wp_step. wp_step. split; [|done]. eapply kept_trans; [exact K|]. by apply buffer_kept. }
  wp_step. eapply wp_mono; [apply wp_checkpoint|]. intros r n1 (v & tr & ->). destruct r as [[]|e]; [|done].
  set (n1 := with_checkpoint v tr (with_cache c n)). assert (kept l n n1) as K1 by done.
  wp_step. apply wp_read; [done|]. intros _. wp_step. apply wp_lift_opt. destruct (get_cumulative_work _ _) as [w|] eqn:Hw; [|done]. wp_step. wp_step.
  assert (pending b (ChainTip_new (id_of b) (height (header b)) (difficulty_target (header b)) w)) as Hpd.
  { eapply checked_pending; [exact Hdb|done| |exact Hp|exact Hw]. unfold check_header in Eh. destruct skip; by eapply header_checked. }
  destruct (is_better_chain _ (tip n1)) eqn:Eb; cbn [negb]; [by wp_step|]. wp_step.
  eapply wp_mono; [eapply keep_as_fork_kept; [exact Hl|done|by apply pending_linked]|].
  intros r n2 [K2 Ho]. destruct r as [o|e].
  - wp_step. split; [by eapply kept_trans|]. by rewrite (Ho o eq_refl).
  - split; [by eapply kept_trans|done].
Qed.

(** ** Extending the tip *)

(** The chain is now [l'], with [b] on top; tip and mempool are not updated yet. *)
Record moved (l' : log) (b : Block) (n n' : Node) : Prop := {
  mv_log : chain_log l' (view (utxo_set n'));
  mv_db : db_ok l' (storage n');
  mv_last : exists ms, last l' = Some (b, ms);
  mv_tip : tip n' = tip n;
  mv_pool : mempool n' = mempool n
}.

Lemma write_cases f body db r db' : write_txn f body db = (r, db') -> match r with Ok _ => body db = Ok db' | Err _ => db' = db end.
Proof. unfold write_txn. destruct f; [by intros [= <- <-]|]. destruct (body db); by intros [= <- <-]. Qed.
Lemma shape_nonempty b : (exists coinbase others, well_shaped b coinbase others) -> transactions b <> [].
Proof. intros (cb & os & Hws). by rewrite (ws_txs _ _ _ Hws). Qed.
Lemma clean_apply e : is_corrupted e = false -> is_fatal (apply_error e) = false.
Proof. by destruct e. Qed.

(** The block on top of the chain: its place and the outcome of its application. *)
Lemma pending_on_top l u b t p pms : chain_log l u -> last l = Some (p, pms) -> pending b t -> prev_block_id (header b) = id_of p ->
  height (header b) = height (header p) + 1.
Proof.
  intros Hl Hlast Hpd Hp. destruct (pd_parent _ _ Hpd) as [w Hw]. rewrite Hp in Hw. pose proof Hlast as Hi. rewrite last_lookup in Hi.
  destruct (log_linked _ _ world _ _ Hl _ _ _ Hi) as (w' & Up & Rp & _). pose proof (chain_to_height _ _ world _ _ _ Up Rp Hw). lia.
Qed.

Lemma undo_block_in_order {S'} `{UtxoStore S'} b spent (s : S') : undo_block_transactions b spent s = undo_in_order (rev (transactions b)) spent s.
Proof. unfold undo_block_transactions, undo_applied_transactions. by rewrite take_ge. Qed.
Lemma undo_or_die_kept {A} l u b ms v cause n0 n :
  chain_log l u -> block_step U l u b ms v -> view (utxo_set n0) = u -> view (utxo_set n) = v -> db_ok l (storage n) -> tip n = tip n0 -> mempool n = mempool n0 ->
  wp (undo_block_or_die b (collect_spent_utxos ms) cause : @proc S A) n
    (fun r n' => match r with Ok _ => False | Err e => kept l n0 n' /\ e = Recoverable cause end).
Proof.
  intros Hl Hs E0 E1 Hdb Ht Hm. unfold undo_block_or_die. wp_step. eapply (wp_utxo _ (undo_block_transactions b (collect_spent_utxos ms))).
  - apply follows_undo_in_order.
  - rewrite E1, undo_block_in_order. by eapply step_undo.
  - intros s Es. wp_step. split; [|done]. split; [done|cbn; congruence|done|done].
Qed.

Lemma extend_ok l env b t n p pms :
  chain_log l (view (utxo_set n)) -> db_ok l (storage n) -> last l = Some (p, pms) -> pending b t -> prev_block_id (header b) = id_of p ->
  wp (extend_tip signature_domain coinbase_maturity env b t) n
    (fun r n' => match r with Ok _ => exists l', moved l' b n n' | Err e => kept l n n' /\ is_fatal e = false end).
Proof.
  intros Hl Hdb Hlast Hpd Hp. pose proof (pending_on_top _ _ _ _ _ _ Hl Hlast Hpd Hp) as Hh. unfold extend_tip. wp_step.
  destruct (atomic_on_log U genesis world signature_domain coinbase_maturity l _ p pms b Hl Hlast (pd_in _ _ Hpd) (pd_shape _ _ Hpd) (pd_size _ _ Hpd) Hp Hh) as (r & v & Hr & Hspec).
  eapply wp_utxo; [apply follows_atomic, shape_nonempty, (pd_shape _ _ Hpd)|exact Hr|]. intros s Es. wp_step. apply wp_lift_res. destruct r as [[fees ms]|e].
  2: { destruct Hspec as [-> Hc]. split; [|by apply clean_apply]. by split. }
  destruct Hspec as [Hs Hl']. wp_step. wp_step. destruct (bool_decide _).
  { eapply wp_mono; [by eapply (undo_or_die_kept l _ b ms v _ n)|]. intros [?|e] n' Hk; [done|]. by destruct Hk as [? ->]. }
  wp_step. apply wp_write. intros r db Hw%write_cases. destruct r as [[]|e].
  - wp_step. exists (l ++ [(b, ms)]). split; [cbn; by rewrite Es| |by rewrite last_snoc; eauto|done|done].
    eapply (commit_block_ok _ _ world _ _ _ _ _ _ _ _ _ Hl Hdb Hl'); [|exact Hw]. apply Hpd.
  - subst db. eapply wp_mono; [by eapply (undo_or_die_kept l _ b ms v _ n)|]. intros [?|e'] n' Hk; [done|]. by destruct Hk as [? ->].
Qed.

(** ** Finding the fork *)

(** Blocks on top of the block [id] at height [h]. *)
Fixpoint path (id : Hash256) (h : Z) (bs : list Block) : Prop :=
  match bs with
  | [] => True
  | b :: bs => U b /\ root_ok b /\ prev_block_id (header b) = id /\ height (header b) = h + 1 /\ path (id_of b) (h + 1) bs
  end.

Section Walks.
Variables (l : log) (n : Node) (env : Env) (top : Block).
Hypothesis Hl : chain_log l (view (utxo_set n)).
Hypothesis Hdb : db_ok l (storage n).

(** The walk down the old chain is at position [k]. *)
Definition at_old (k : nat) (id : Hash256) (chain : list Block) : Prop :=
  (exists b ms, l !! k = Some (b, ms) /\ id = id_of b) /\ chain = rev (map fst (drop (Datatypes.S k) l)).
(** The walk down the new chain, from [top], is at height [h]. *)
Definition at_new (h : Z) (id : Hash256) (chain : list Block) : Prop :=
  (exists w, chain_to id h w) /\ path id h (rev chain) /\ head chain = Some top.

Lemma old_block_ok k b ms : l !! k = Some (b, ms) -> wp (old_block env (id_of b)) n (fun r n' => n' = n /\ forall b', r = Ok b' -> b' = b).
Proof.
  intros Hk. unfold old_block. wp_step. unfold wp, load_block. destruct (io env _); [done|]. rewrite (get_block_canon _ _ world _ _ _ Hl Hdb _ _ _ Hk). cbn.
  split; [done|]. by intros b' [= <-].
Qed.
Lemma new_block_ok id h w : chain_to id h w -> wp (new_block env id) n (fun r n' => n' = n /\ forall b, r = Ok b -> linked b h w /\ id = id_of b).
Proof.
  intros Hc. unfold new_block. wp_step. unfold wp at 1, load_block. destruct (io env _); [done|]. pose proof (get_block_ok _ _ world _ _ id Hdb) as Hg.
  destruct (get_block id (storage n)) as [[b|]|]; [|done|done]. cbn. split; [done|]. intros b' [= <-]. destruct Hg as [(h' & w' & Ub & Rb & Hc') ->].
  by destruct (chain_to_fun _ _ world _ _ _ _ _ Hc Hc') as [-> ->].
Qed.

Lemma old_step k id chain b : at_old (Datatypes.S k) id chain -> (exists ms, l !! Datatypes.S k = Some (b, ms)) -> at_old k (prev_block_id (header b)) (chain ++ [b]).
Proof.
  intros [_ ->] [ms Hb]. destruct (log_prev _ _ _ _ _ _ _ Hl Hb) as (p & pms & Hp & Hprev). split; [by exists p, pms|].
  by rewrite (drop_S _ _ _ Hb).
Qed.
Lemma new_step h w id chain b : at_new h id chain -> linked b h w -> id = id_of b -> h <> 0 -> at_new (h - 1) (prev_block_id (header b)) (chain ++ [b]).
Proof.
  intros (_ & Hpath & Hhd) (Ub & Rb & Hc) -> Hnz. destruct (chain_to_parent _ _ world _ _ _ Ub Rb Hc Hnz) as (w' & Hw' & _). split; [by exists w'|]. split.
  - rewrite rev_app_distr. cbn. rewrite Z.sub_add. split_and!; [done|done|done|by eapply chain_to_height|done].
  - by destruct chain.
Qed.

Lemma walk_old m k id chain : at_old (m + k) id chain ->
  wp (walk (old_block env) m id chain) n (fun r n' => n' = n /\ forall id' chain', r = Ok (id', chain') -> at_old k id' chain').
Proof.
  revert id chain. induction m as [|m IH]; intros id chain Hat; cbn [walk]; [wp_step; split; [done|]; by intros ? ? [= <- <-]|].
  destruct Hat as [(b & ms & Hb & ->) Hch]. wp_step. eapply wp_mono; [by eapply old_block_ok|]. intros r n' [-> Hr]. destruct r as [b'|e]; [|done].
  rewrite (Hr b' eq_refl). apply IH. eapply (old_step (m + k)); [by split; [exists b, ms|]|by exists ms].
Qed.
Lemma walk_new m h id chain : at_new h id chain -> Z.of_nat m <= h ->
  wp (walk (new_block env) m id chain) n (fun r n' => n' = n /\ forall id' chain', r = Ok (id', chain') -> at_new (h - Z.of_nat m) id' chain').
Proof.
  revert h id chain. induction m as [|m IH]; intros h id chain Hat Hm; cbn [walk].
  { wp_step. split; [done|]. intros ? ? [= <- <-]. by rewrite Z.sub_0_r. }
  destruct Hat as [[w Hw] Hrest]. wp_step. eapply wp_mono; [by eapply new_block_ok|]. intros r n' [-> Hr]. destruct r as [b|e]; [|done].
  destruct (Hr b eq_refl) as [Hb ->]. replace (h - Z.of_nat (Datatypes.S m)) with (h - 1 - Z.of_nat m) by lia. apply IH; [|lia].
  eapply new_step; [split; [by exists w|exact Hrest]|exact Hb|done|lia].
Qed.

Lemma walk_both_ok fuel k oid nid oc nc : at_old k oid oc -> at_new (Z.of_nat k) nid nc -> (k < fuel)%nat ->
  wp (walk_both env fuel oid nid oc nc) n (fun r n' => n' = n /\
    forall fp oc' nc', r = Ok (fp, oc', nc') -> exists k', at_old k' fp oc' /\ at_new (Z.of_nat k') fp nc').
Proof.
  revert k oid nid oc nc. induction fuel as [|fuel IH]; intros k oid nid oc nc Ho Hn Hk; [lia|]. cbn [walk_both]. destruct (decide (oid = nid)) as [->|Hne].
  { wp_step. split; [done|]. intros ? ? ? [= <- <- <-]. eauto. }
  destruct Hn as [[w Hw] Hn']. destruct Ho as [(b & ms & Hb & ->) Hoc]. destruct (log_linked _ _ world _ _ Hl _ _ _ Hb) as (w' & Ub & Rb & Hc).
  destruct k as [|k]; [by rewrite (chain_to_zero _ _ _ _ Hw), (chain_to_zero _ _ _ _ Hc) in Hne|].
  wp_step. eapply wp_mono; [by eapply old_block_ok|]. intros r n' [-> Hr]. destruct r as [b'|e]; [|done]. rewrite (Hr b' eq_refl).
  wp_step. eapply wp_mono; [by eapply new_block_ok|]. intros r' n' [-> Hr']. destruct r' as [nb|e]; [|done]. destruct (Hr' nb eq_refl) as [Hnb ->].
  apply (IH k); [eapply (old_step k); [by split; [exists b, ms|]|by exists ms]| |lia].
  replace (Z.of_nat k) with (Z.of_nat (Datatypes.S k) - 1) by lia. eapply new_step; [split; [by exists w|exact Hn']|exact Hnb|done|lia].
Qed.

Lemma find_fork_ok t : tip_ok l (tip n) -> pending top t ->
  wp (find_fork env top (tip n)) n (fun r n' => n' = n /\
    forall fp oc nc, r = Ok (fp, oc, nc) -> exists k, at_old k fp oc /\ at_new (Z.of_nat k) fp nc).
Proof.
  intros [(b & ms & Hlast & Hid) Hat _] Hpd. unfold find_fork. rewrite Hat. destruct (pd_parent _ _ Hpd) as [w Hw]. pose proof (chain_to_nonneg _ _ _ _ _ Hw).
  rewrite last_lookup in Hlast. pose proof (lookup_lt_Some _ _ _ Hlast). set (k := pred (length l)) in *. set (nh := height (header top) - 1) in *.
  replace (Z.of_nat (length l) - 1) with (Z.of_nat k) by lia. wp_step. set (m := Z.to_nat (Z.of_nat k - nh)).
  eapply wp_mono; [apply (walk_old m (k - m))|].
  { replace (m + (k - m))%nat with k by lia. split; [by exists b, ms|]. by rewrite drop_ge by lia. }
  intros r n' [-> Hr]. destruct r as [[oid oc]|e]; [|done]. specialize (Hr _ _ eq_refl).
  wp_step. set (m' := Z.to_nat (nh - Z.of_nat k)). eapply wp_mono; [apply (walk_new m' nh); [|lia]|].
  { split; [by exists w|]. split; [|done]. cbn. split_and!; [apply Hpd|by eapply pending_root|done|lia|done]. }
  intros r n' [-> Hr']. destruct r as [[nid nc]|e]; [|done]. specialize (Hr' _ _ eq_refl).
  apply (walk_both_ok _ (k - m)); [done| |lia]. replace (Z.of_nat (k - m)) with (nh - Z.of_nat m') by lia. done.
Qed.
End Walks.

(** ** Rolling the set back and forth *)

Lemma follows_apply_txs h txs : follows (apply_txs h txs) (apply_txs h txs).
Proof. induction txs as [|tx txs IH]; cbn [apply_txs]; [apply follows_ret|]. apply follows_bind; [apply follows_apply|by intros _]. Qed.
Lemma follows_redo bs : follows (redo_in_order bs) (redo_in_order bs).
Proof. induction bs as [|b bs IH]; cbn [redo_in_order]; [apply follows_ret|]. apply follows_bind; [apply follows_apply_txs|by intros _]. Qed.
Lemma follows_undo_new bs spent : follows (undo_new_in_order bs spent) (undo_new_in_order bs spent).
Proof.
  induction bs as [|b bs IH]; intros s; cbn [undo_new_in_order]; [done|]. destruct (find_spent _ _) as [sp|]; [|done].
  pose proof (follows_undo_in_order (rev (transactions b)) sp s) as Hu. destruct (undo_in_order _ sp s) as [[[[]|e] s1]|]; [| |done]; rewrite Hu; [apply IH|done].
Qed.

(** Only the set differs. *)
Record frame (n n' : Node) : Prop := {
  fr_storage : storage n' = storage n;
  fr_tip : tip n' = tip n;
  fr_pool : mempool n' = mempool n
}.
Lemma frame_trans n1 n2 n3 : frame n1 n2 -> frame n2 n3 -> frame n1 n3.
Proof. intros [] []. split; congruence. Qed.
Lemma frame_utxo s n : frame n (with_utxo s n).
Proof. done. Qed.
Lemma frame_kept l n n' : db_ok l (storage n) -> frame n n' -> view (utxo_set n') = view (utxo_set n) -> kept l n n'.
Proof. intros Hdb [Fs Ft Fp] Hv. split; [by rewrite Fs|done|done|done]. Qed.

(** Redoing the upper part of the chain. *)
Lemma redo_ok l1 l2 u0 n (Q : result ProcessBlockError (result StateError unit) -> Node -> Prop) :
  chain_log (l1 ++ l2) u0 -> chain_log l1 (view (utxo_set n)) ->
  (forall s, view s = u0 -> Q (Ok (Ok tt)) (with_utxo s n)) -> wp (on_utxo (redo_old_chain_blocks (rev (map fst l2)))) n Q.
Proof.
  intros Hl Hlow HQ. unfold redo_old_chain_blocks. rewrite rev_involutive. eapply wp_utxo; [apply follows_redo|by eapply (log_redo_from _ _ _ _ _ _ Hl Hlow)|done].
Qed.

Lemma abandon_undo_ok {A} l1 l2 u0 cause n :
  chain_log (l1 ++ l2) u0 -> chain_log l1 (view (utxo_set n)) ->
  wp (abandon_undo (rev (map fst l2)) cause : @proc S A) n (fun r n' => frame n n' /\ view (utxo_set n') = u0 /\ exists e, r = Err e).
Proof.
  intros Hl Hlow. unfold abandon_undo. wp_step. eapply redo_ok; [exact Hl|exact Hlow|]. intros s Hs. wp_step. split; [apply frame_utxo|eauto].
Qed.

Lemma undo_old_ok l1 lrest lundone u0 env scripts n :
  chain_log (l1 ++ lrest ++ lundone) u0 -> l1 <> [] -> db_ok (l1 ++ lrest ++ lundone) (storage n) -> chain_log (l1 ++ lrest) (view (utxo_set n)) ->
  wp (undo_old_chain env (rev (map fst lrest)) (rev (map fst lundone)) scripts) n (fun r n' => frame n n' /\
    match r with Ok _ => chain_log l1 (view (utxo_set n')) | Err _ => view (utxo_set n') = u0 end).
Proof.
  intros Hl Hne. revert lundone scripts n Hl. induction lrest as [|[b ms] lrest IH] using rev_ind; intros lundone scripts n Hl Hdb Hn.
  { rewrite app_nil_r in Hn. done. }
  rewrite map_app, rev_app_distr. cbn [rev map app fst undo_old_chain].
  assert (forall cause, wp (abandon_undo (rev (map fst lundone)) cause : @proc S (list bytes)) n (fun r n' => frame n n' /\
    match r with Ok _ => chain_log l1 (view (utxo_set n')) | Err _ => view (utxo_set n') = u0 end)) as Hab.
  { intros cause. eapply wp_mono; [eapply abandon_undo_ok; [|exact Hn]; rewrite <- app_assoc; exact Hl|]. by intros r n' (Hf & Hv & e & ->). }
  destruct (io env _); [apply Hab|]. wp_step. wp_step.
  assert ((l1 ++ (lrest ++ [(b, ms)]) ++ lundone) !! length (l1 ++ lrest) = Some (b, ms)) as Hi.
  { rewrite <- (app_assoc lrest), app_assoc. by rewrite lookup_app_r, Nat.sub_diag. }
  rewrite (get_spent_canon _ _ world _ _ _ Hl Hdb _ _ _ Hi) by (by destruct l1).
  rewrite app_assoc in Hn. destruct (log_snoc_inv _ _ _ _ _ _ Hn) as (u & p & pms & Hl' & _ & _ & _ & Hs); [by destruct l1|].
  wp_step. eapply wp_utxo; [apply follows_undo_in_order|by eapply step_undo|]. intros s Es. cbv beta iota.
  replace (rev (map fst lundone) ++ [b]) with (rev (map fst ((b, ms) :: lundone))) by done.
  eapply wp_mono; [apply (IH ((b, ms) :: lundone))|].
  - by rewrite <- app_assoc in Hl.
  - by rewrite <- app_assoc in Hdb.
  - cbn. by rewrite Es.
  - intros r n' [Hf Hr]. split; [by eapply frame_trans; [apply frame_utxo|]|done].
Qed.

(** ** Applying the new chain *)

Lemma recheck_checked l env b (n : Node) : db_ok l (storage n) -> recheck_header env b n = None -> exists p, checked b p.
Proof.
  intros Hdb. unfold recheck_header. destruct (io env _); [done|]. destruct (get_header _ _) as [p|]; [|done]. destruct (io env _); [done|].
  destruct (expected_difficulty _ _ _) as [target|[]]; try done. destruct (validate_block_header_skip_pow _ _ _ _ _) as [[]|] eqn:Ev; [|done].
  intros _. exists p. by eapply header_checked.
Qed.

Abbreviation spent_of := (map (fun bm : Block * list UtxoMutation => (id_of bm.1, collect_spent_utxos bm.2))).

(** A lower part [lapp] of the new chain [bs] is applied on [lc], and recorded. *)
Definition applied_part (lc : log) (bs : list Block) (pr : Progress) (n : Node)
    (r : result ProcessBlockError (option ProcessBlockError * Progress)) (n' : Node) : Prop :=
  exists lapp err pr', r = Ok (err, pr') /\ frame n n' /\ chain_log (lc ++ lapp) (view (utxo_set n')) /\
    map fst lapp = take (length lapp) bs /\ all_spent pr' = all_spent pr ++ spent_of lapp /\ (err = None -> map fst lapp = bs).

Lemma apply_new_ok lc p pms bs env l0 pr n :
  chain_log lc (view (utxo_set n)) -> last lc = Some (p, pms) -> path (id_of p) (height (header p)) bs -> db_ok l0 (storage n) ->
  wp (apply_new_chain signature_domain coinbase_maturity env bs pr) n (applied_part lc bs pr n).
Proof.
  revert lc p pms pr n. induction bs as [|b bs IH]; intros lc p pms pr n Hl Hlast Hpath Hdb; cbn [apply_new_chain].
  { wp_step. exists [], None, pr. by rewrite !app_nil_r. }
  destruct Hpath as (Ub & Rb & Hprev & Hh & Hpath). wp_step. wp_step.
  assert (forall e n', frame n n' -> view (utxo_set n') = view (utxo_set n) -> applied_part lc (b :: bs) pr n (Ok (Some e, pr)) n') as Hstop.
  { intros e n' Hf Hv. exists [], (Some e), pr. rewrite !app_nil_r, Hv. done. }
  destruct (recheck_header env b n) as [e|] eqn:Erc; [wp_step; by apply Hstop|].
  destruct (recheck_checked _ _ _ _ Hdb Erc) as (q & Hck). wp_step.
  destruct (atomic_on_log U genesis world signature_domain coinbase_maturity lc _ p pms b Hl Hlast Ub (ck_shape _ _ Hck) (ck_size _ _ Hck) Hprev Hh) as (r & v & Hr & Hspec).
  eapply wp_utxo; [apply follows_atomic, shape_nonempty, (ck_shape _ _ Hck)|exact Hr|]. intros s Es. destruct r as [[fees ms]|e].
  2: { destruct Hspec as [-> _]. wp_step. apply Hstop; [done|exact Es]. }
  destruct Hspec as [Hs Hl']. wp_step. wp_step. destruct (bool_decide _).
  { wp_step. eapply (wp_utxo _ (undo_block_transactions b (collect_spent_utxos ms))); [apply follows_undo_in_order| |].
    - change (view (utxo_set (with_utxo s n))) with (view s). rewrite Es, undo_block_in_order. eapply step_undo; [exact Hl|exact Hs].
    - intros s2 Es2. wp_step. apply Hstop; [done|exact Es2]. }
  eapply wp_mono; [eapply (IH (lc ++ [(b, ms)]) b ms)|].
  - cbn. by rewrite Es.
  - apply last_snoc.
  - by rewrite Hh.
  - done.
  - intros r n' (lapp & err & pr' & -> & Hf & Hlog & Htake & Hsp & Hnone). exists ((b, ms) :: lapp), err, pr'. split; [done|].
    split; [by eapply frame_trans; [apply frame_utxo|]|]. rewrite <- app_assoc in Hlog. split; [done|]. cbn [map fst length take]. split; [by rewrite Htake|].
    split; [rewrite Hsp; cbn; by rewrite <- app_assoc|]. intros E. by rewrite (Hnone E).
Qed.

(** ** Giving up *)

Lemma find_spent_in (lapp : log) b ms :
  (b, ms) ∈ lapp -> (forall x, x ∈ lapp -> id_of x.1 = id_of b -> x = (b, ms)) -> find_spent (id_of b) (spent_of lapp) = Some (collect_spent_utxos ms).
Proof.
  induction lapp as [|[b' ms'] lapp IH]; intros Hin Hf; [by apply not_elem_of_nil in Hin|]. cbn [map find_spent fst snd]. case_bool_decide as Hd.
  - assert ((b', ms') = (b, ms)) as [= -> ->]; [|done]. apply Hf; [left|done].
  - apply IH; [|intros x Hx; apply Hf; by right]. apply elem_of_cons in Hin as [[= -> ->]|Hin]; done.
Qed.

Lemma undo_new_ok l1 la lb v0 u :
  chain_log (l1 ++ la ++ lb) v0 -> l1 <> [] -> chain_log (l1 ++ la) u ->
  exists u1, undo_new_in_order (rev (map fst la)) (spent_of (la ++ lb)) u = Some (Ok tt, u1) /\ chain_log l1 u1.
Proof.
  intros Hl Hne. revert lb u Hl. induction la as [|[b ms] la IH] using rev_ind; intros lb u Hl Hu.
  { rewrite app_nil_r in Hu. by exists u. }
  rewrite map_app, rev_app_distr. cbn [map fst rev app undo_new_in_order]. rewrite (find_spent_in _ b ms).
  - rewrite app_assoc in Hu. destruct (log_snoc_inv _ _ _ _ _ _ Hu) as (u' & p & pms & Hl' & _ & _ & _ & Hs); [by destruct l1|].
    rewrite (step_undo _ _ _ _ _ _ _ Hl' Hs). rewrite <- app_assoc in Hl |- *. by eapply (IH ([(b, ms)] ++ lb)).
  - set_solver.
  - intros [b' ms'] Hin E. apply list_elem_of_lookup in Hin as [j Hj].
    assert ((l1 ++ (la ++ [(b, ms)]) ++ lb) !! (length l1 + j)%nat = Some (b', ms')) as Hj' by (by rewrite lookup_app_r, Nat.add_sub' by lia).
    assert ((l1 ++ (la ++ [(b, ms)]) ++ lb) !! (length (l1 ++ la)) = Some (b, ms)) as Hi by (rewrite <- (app_assoc la), app_assoc; by rewrite lookup_app_r, Nat.sub_diag).
    rewrite (log_distinct _ _ world _ _ _ _ _ _ _ _ Hl Hj' Hi E) in Hj'. rewrite Hi in Hj'. by injection Hj' as -> ->.
Qed.

Lemma abandon_reorg_ok {A} l1 lold lapp u0 cause n :
  chain_log (l1 ++ lold) u0 -> l1 <> [] -> chain_log (l1 ++ lapp) (view (utxo_set n)) ->
  wp (abandon_reorg (map fst lapp) (rev (map fst lold)) (spent_of lapp) cause : @proc S A) n
    (fun r n' => frame n n' /\ view (utxo_set n') = u0 /\ r = Err cause).
Proof.
  intros Hl Hne Happ. unfold abandon_reorg. wp_step.
  destruct (undo_new_ok l1 lapp [] (view (utxo_set n)) (view (utxo_set n))) as (u1 & Hu & Hu1); [by rewrite app_nil_r|done|done|]. rewrite app_nil_r in Hu.
  eapply (wp_utxo _ (undo_applied_new_chain (map fst lapp) (spent_of lapp))); [apply follows_undo_new|exact Hu|]. intros s Es. cbv beta iota.
  wp_step. eapply (redo_ok l1 lold u0); [done|cbn; by rewrite Es|]. intros s' Es'. wp_step. done.
Qed.

(** ** After the reorganisation *)

Lemma work_list_valid id h w bs : path id h bs -> chain_to id h w ->
  (forall k w', (k, w') ∈ chain_work_list w bs -> exists h', chain_to k h' w') /\ (forall b, b ∈ bs -> exists w', (id_of b, w') ∈ chain_work_list w bs).
Proof.
  revert id h w. induction bs as [|b bs IH]; intros id h w Hp Hc; cbn [chain_work_list]; [set_solver|]. destruct Hp as (Ub & Rb & Hprev & Hh & Hp).
  assert (chain_to (id_of b) (h + 1) (add_work w (work_from_target (difficulty_target (header b))))) as Hc' by (apply to_child; [done|done|by rewrite Hprev|done]).
  destruct (IH _ _ _ Hp Hc') as [I1 I2]. split.
  - intros k w' [[= -> ->]|Hin]%elem_of_cons; [eauto|by apply I1].
  - intros b' [->|Hin]%elem_of_cons; [eexists; left|]. destruct (I2 _ Hin) as [w' Hw']. exists w'. by right.
Qed.

Lemma demote_blocks_kept l u env chain stored n :
  chain_log l u -> db_ok l (storage n) -> Forall (fun b => U b /\ root_ok b) chain -> wp (demote_blocks env chain stored) n (fun r n' => kept l n n' /\ exists x, r = Ok x).
Proof.
  intros Hl. revert stored n. induction chain as [|b chain IH]; intros stored n Hdb Hch; cbn [demote_blocks]; [wp_step; split; [done|eauto]|].
  apply Forall_cons in Hch as [[Ub Rb] Hch]. wp_step. wp_step. destruct (if io env _ then _ else _) as [w|] eqn:Ew; [|by apply IH].
  destruct (io env _); [done|]. apply (get_work_ok _ _ _ _ _ _ Hdb) in Ew as [h Hw]. wp_step. apply wp_write. intros r db Hwr.
  apply (store_fork_kept _ _ Hl _ _ h) in Hwr; [|done|done]. cbv beta iota. eapply wp_mono; [apply IH; [apply Hwr|done]|].
  intros r' n' [K Hx]. split; [by eapply kept_trans|done].
Qed.
Lemma demote_kept l u env chain n :
  chain_log l u -> db_ok l (storage n) -> Forall (fun b => U b /\ root_ok b) chain -> wp (demote env chain) n (fun r n' => kept l n n' /\ r = Ok tt).
Proof.
  intros Hl Hdb Hch. unfold demote. wp_step. eapply wp_mono; [by eapply demote_blocks_kept|]. intros r n1 [K1 [stored ->]]. wp_step. wp_step.
  destruct (trim _ _ _ _) as [pool trimmed]. wp_step. wp_step. eapply wp_mono; [by eapply evict_quietly_kept; [|apply K1]|].
  intros r n2 [K2 ->]. split; [|done]. eapply kept_trans; [exact K1|]. eapply kept_trans; [|exact K2]. split; [apply K1|done..].
Qed.

(** ** Reorganising *)

(** The part of the chain below the fork. *)
Lemma fork_split (l : log) k b ms : l !! k = Some (b, ms) -> last (take (Datatypes.S k) l) = Some (b, ms) /\ take (Datatypes.S k) l <> [].
Proof.
  intros Hk. rewrite (take_S_r _ _ _ Hk). split; [apply last_snoc|by destruct (take k l)].
Qed.
Lemma old_blocks_known (l : log) u l1 lold : chain_log l u -> l = l1 ++ lold -> Forall (fun b => U b /\ root_ok b) (rev (map fst lold)).
Proof.
  intros Hl ->. apply Forall_rev, Forall_fmap, Forall_forall. intros [b ms] Hin. destruct (log_blocks _ _ world _ _ b ms Hl) as (? & ? & _); [set_solver|done].
Qed.

(** The one fault a reorganisation does not undo: the read of the fork point's
    work fails after the UTXO set has moved to the new chain.  Database, tip and
    mempool stay on the old one. *)
Record split_by_fault (l : log) (b : Block) (env : Env) (n n' : Node) (e : ProcessBlockError) : Prop := {
  sf_read : io env AtForkPointWork = true;
  sf_error : e = db_error DbError;
  sf_db : db_ok l (storage n');
  sf_tip : tip n' = tip n;
  sf_pool : mempool n' = mempool n;
  sf_view : exists l' ms, chain_log l' (view (utxo_set n')) /\ last l' = Some (b, ms)
}.

Lemma reorganise_cases l env b t n :
  node_ok l n -> pending b t ->
  wp (reorganise signature_domain coinbase_maturity env b t (tip n)) n
    (fun r n' => match r with Ok _ => exists l', moved l' b n n' | Err e => kept l n n' \/ split_by_fault l b env n n' e end).
Proof.
  intros [Hl Hdb Htip Hpool] Hpd. unfold reorganise. wp_step. eapply wp_mono; [eapply (find_fork_ok l n env b Hl Hdb t Htip Hpd)|].
  intros r n' [-> Hr]. destruct r as [[[fp oc] nc]|e]; [|by left]. destruct (Hr _ _ _ eq_refl) as (k & [(p & pms & Hk & ->) ->] & [[w0 Hw0] [Hpath Hhd]]). clear Hr.
  destruct (fork_split _ _ _ _ Hk) as [Hlast Hne]. set (l1 := take (Datatypes.S k) l) in *. set (lold := drop (Datatypes.S k) l) in *.
  assert (l = l1 ++ lold) as El by (symmetry; apply take_drop). wp_step.
  eapply wp_mono; [apply (undo_old_ok l1 lold [] (view (utxo_set n)) env []); rewrite ?app_nil_r, <- ?El; done|].
  intros r n1 [F1 Hr]. destruct r as [scripts|e]; cbv beta iota zeta; [|left; by apply frame_kept].
  assert (height (header p) = Z.of_nat k) as Hp by exact (log_heights _ _ world _ _ _ _ _ Hl Hk). wp_step.
  eapply wp_mono; [eapply (apply_new_ok l1 p pms (rev nc) env l); [done|done|by rewrite Hp|by rewrite (fr_storage _ _ F1)]|].
  intros r2 n2 (lapp & err & pr & -> & F2 & Hnew & Htake & Hsp & Hfull). cbn [all_spent app] in Hsp. rewrite Hsp, length_map, <- Htake.
  assert (frame n n2) as F by by eapply frame_trans. destruct err as [e|].
  { eapply wp_mono; [eapply (abandon_reorg_ok l1 lold lapp); [by rewrite <- El|done|done]|]. intros r n3 (F3 & Hv & ->). cbv beta iota. left. apply frame_kept; [done|by eapply frame_trans|done]. }
  specialize (Hfull eq_refl). rewrite <- Hfull in Hpath |- *.
  assert (exists ms, last lapp = Some (b, ms)) as [ms Hlapp].
  { assert (last (map fst lapp) = Some b) as Hlb by (rewrite Hfull, rev_alt; change (last (reverse nc) = Some b); by rewrite last_reverse).
    change (last (fst <$> lapp) = Some b) in Hlb. rewrite fmap_last in Hlb. destruct (last lapp) as [[b' ms]|]; [|done]. injection Hlb as ->. by exists ms. }
  wp_step. apply wp_read_cases.
  { intros Hio. right. split; [done|done|by rewrite (fr_storage _ _ F)|apply F..|by exists (l1 ++ lapp), ms; rewrite last_app, Hlapp]. }
  intros _. rewrite (fr_storage _ _ F).
  destruct (get_work_canon _ _ world _ _ _ Hl Hdb _ _ _ Hk) as (w & -> & Hw). wp_step. apply wp_lift_opt. wp_step. apply wp_write. intros r db Hwr%write_cases.
  destruct r as [[]|e].
  2: { subst db. eapply wp_mono; [eapply (abandon_reorg_ok l1 lold lapp); [by rewrite <- El|done|done]|]. intros r n3 (F3 & Hv & ->).
       left. apply frame_kept; [done|eapply frame_trans; [exact F|split; apply F3]|done]. }
  destruct (work_list_valid _ _ _ _ Hpath Hw) as [Hval Hcov].
  assert (db_ok (l1 ++ lapp) db) as Hdb'.
  { eapply (commit_reorg_ok _ _ world l1 lold lapp); [rewrite <- El; exact Hl|rewrite <- El; exact Hdb|exact Hnew|exact Hlapp|apply Hpd|exact Hval|exact Hcov|].
    rewrite (fr_storage _ _ F), (tip_at _ _ Htip), El in Hwr. exact Hwr. }
  wp_step. eapply wp_mono; [eapply (demote_kept (l1 ++ lapp)); [exact Hnew|exact Hdb'|by eapply (old_blocks_known l _ l1 lold)]|].
  intros r n3 [K ->]. wp_step. wp_step. wp_step. exists (l1 ++ lapp). split.
  - change (chain_log (l1 ++ lapp) (view (utxo_set n3))). by rewrite (kept_view _ _ _ K).
  - apply K.
  - exists ms. by rewrite last_app, Hlapp.
  - change (tip n3 = tip n). rewrite (kept_tip _ _ _ K). apply F.
  - change (mempool n3 = mempool n). rewrite (kept_pool _ _ _ K). apply F.
Qed.

(** ** Under the lock *)

Lemma reintroduce_ok (s : S) h txs m : pool_ok m -> exists m', reintroduce signature_domain coinbase_maturity s h txs m = Some m' /\ pool_ok m'.
Proof.
  revert m. induction txs as [|tx txs IH]; intros m Hok; cbn [reintroduce]; [eauto|]. set (snap := snapshot s _).
  destruct (validate_transaction _ _ _ _ _) as [[[fee sc] svc]|] eqn:Ev; [|by apply IH]. apply validated_entry in Ev as [Hst Hfee].
  unfold add_validated. destruct (screen m tx) as [id|] eqn:Es; [|by apply IH].
  destruct (admit_ok m tx id fee sc svc snap Hok Es Hst Hfee) as (r & m' & -> & Hok' & _). by apply IH.
Qed.
Lemma update_mempool_ok c n : pool_ok (mempool n) ->
  wp (update_mempool signature_domain coinbase_maturity c) n (fun r n' => r = Ok tt /\ exists m, n' = with_mempool m n /\ pool_ok m).
Proof.
  intros Hok. unfold wp, update_mempool. set (m1 := remove_confirmed _ _). assert (pool_ok m1) as H1' by by apply remove_confirmed_ok.
  set (m2 := revalidate _ _ _ _ _). assert (pool_ok m2) as H2' by by apply revalidate_ok.
  destruct (reintroduce_ok (utxo_set n) (saturating_add U64_MAX (tip_height (tip n)) 1) (orphaned c) m2 H2') as (m & -> & Hm). eauto.
Qed.

(** What a call may do to a node on the chain [l]: an accepted block [b] becomes
    the tip, and is better than the old one; in all other cases the chain is as
    before. *)
Definition outcome_ok (l : log) (b : Block) (n : Node) (r : result ProcessBlockError ProcessBlockOutcome) (n' : Node) : Prop :=
  exists l', node_ok l' n' /\
  match r with
  | Ok Accepted => tip_block_id (tip n') = id_of b /\ is_better_chain (tip n') (tip n) = true /\ exists ms, last l' = Some (b, ms)
  | _ => l' = l /\ view (utxo_set n') = view (utxo_set n) /\ tip n' = tip n /\ mempool n' = mempool n
  end.

Lemma kept_outcome l b n n' r : node_ok l n -> kept l n n' -> r <> Ok Accepted -> outcome_ok l b n r n'.
Proof.
  intros Hn K Hr. exists l. split; [by eapply kept_ok|]. destruct K. destruct r as [[]|]; done.
Qed.

(** As [outcome_ok], or the fault. *)
Definition outcome_or_fault (l : log) (b : Block) (env : Env) (n : Node) (r : result ProcessBlockError ProcessBlockOutcome) (n' : Node) : Prop :=
  outcome_ok l b n r n' \/ exists e, r = Err e /\ split_by_fault l b env n n' e.
Lemma no_fault l b env n r n' : io env AtForkPointWork = false -> outcome_or_fault l b env n r n' -> outcome_ok l b n r n'.
Proof. intros Hio [?|(e & _ & Hs)]; [done|]. by rewrite (sf_read _ _ _ _ _ _ Hs) in Hio. Qed.

Lemma commit_cases l env b t n : node_ok l n -> pending b t ->
  wp (commit signature_domain coinbase_maturity env b t) n (outcome_or_fault l b env n).
Proof.
  intros Hn Hpd. destruct (Hn) as [Hl Hdb Htip Hpool]. unfold commit. wp_step. wp_step. destruct (is_better_chain t (tip n)) eqn:Eb; cbn [negb].
  2: { eapply wp_mono; [eapply keep_as_fork_kept; [exact Hl|exact Hdb|by apply pending_linked]|]. intros r n' [K Ho]. left. apply kept_outcome; [done|done|].
       intros ->. by specialize (Ho _ eq_refl). }
  wp_step. apply (wp_mono _ _ (fun r n' => match r with Ok _ => exists l', moved l' b n n' | Err e => kept l n n' \/ split_by_fault l b env n n' e end)).
  { destruct (decide _) as [Hp|_]; [|by apply reorganise_cases]. destruct (tip_last _ _ Htip) as (p & pms & Hlast & Hid). rewrite Hid in Hp.
    eapply wp_mono; [by eapply extend_ok|]. intros [c|e] n'; [done|]. intros [K _]. by left. }
  intros [c|e] n1; [|intros [K|Hs]; [left; by apply kept_outcome|right; by exists e]]. intros (l' & [Ml Md [ms Mlast] Mt Mp]). wp_step. wp_step. wp_step.
  eapply wp_mono; [apply update_mempool_ok; change (pool_ok (mempool n1)); by rewrite Mp|]. intros r n2 [-> (m & -> & Hm)]. wp_step. unfold announce. wp_step. wp_step.
  left. exists l'. split; [|split; [apply Hpd|split; [exact Eb|eauto]]].
  split; [exact Ml|exact Md| |exact Hm]. split.
  - exists b, ms. split; [done|apply Hpd].
  - change (tip_height t = Z.of_nat (length l') - 1). rewrite (pd_height _ _ Hpd). by eapply log_last.
  - change (chain_to (tip_block_id t) (tip_height t) (cumulative_work t)). rewrite (pd_id _ _ Hpd), (pd_height _ _ Hpd). apply Hpd.
Qed.

Lemma commit_ok l env b t n : node_ok l n -> pending b t -> io env AtForkPointWork = false ->
  wp (commit signature_domain coinbase_maturity env b t) n (outcome_ok l b n).
Proof. intros Hn Hpd Hio. eapply wp_mono; [by apply commit_cases|]. intros r n'. by apply no_fault. Qed.

Lemma process_block_cases l env b skip n : node_ok l n -> U b ->
  wp (process_block_inner signature_domain coinbase_maturity env b skip) n (outcome_or_fault l b env n).
Proof.
  intros Hn Ub. destruct (Hn) as [Hl Hdb Htip Hpool]. unfold process_block_inner. wp_step. eapply wp_mono; [by eapply prepare_kept|].
  intros r n1 [K Hr]. destruct r as [[o|t]|e].
  - wp_step. left. apply kept_outcome; [done|done|]. by intros [= ->].
  - destruct Hr as [Hpd _]. eapply wp_mono; [eapply (commit_cases l); [by eapply kept_ok|done]|]. intros r n2 [(l' & Hn' & Hr)|(e & -> & [F1 F2 F3 F4 F5 F6])].
    + left. exists l'. split; [done|]. rewrite <- (kept_view _ _ _ K), <- (kept_tip _ _ _ K), <- (kept_pool _ _ _ K). done.
    + right. exists e. split; [done|]. rewrite (kept_tip _ _ _ K) in F4. rewrite (kept_pool _ _ _ K) in F5. done.
  - left. by apply kept_outcome.
Qed.
Lemma process_block_ok l env b skip n : node_ok l n -> U b -> io env AtForkPointWork = false ->
  wp (process_block_inner signature_domain coinbase_maturity env b skip) n (outcome_ok l b n).
Proof. intros Hn Ub Hio. eapply wp_mono; [by apply process_block_cases|]. intros r n'. by apply no_fault. Qed.

(** ** Interleavings *)

(** Tasks prepare blocks and commit prepared ones, in any order; the second
    component holds the blocks that have been prepared.  The only fault that is
    left out is a failing read of the fork point's work during a reorganisation,
    which splits the state ([split_by_fault]). *)
Inductive sync_step : Node * list (Block * ChainTip) -> Node * list (Block * ChainTip) -> Prop :=
| step_prepare env skip b n r n' ps :
    U b -> prepare env skip b n = Some (r, n') ->
    sync_step (n, ps) (n', match r with Ok (Contender t) => (b, t) :: ps | _ => ps end)
| step_commit env b t n r n' ps :
    (b, t) ∈ ps -> io env AtForkPointWork = false -> commit signature_domain coinbase_maturity env b t n = Some (r, n') ->
    sync_step (n, ps) (n', ps).

Definition sync_ok (c : Node * list (Block * ChainTip)) : Prop := (exists l, node_ok l c.1) /\ Forall (fun bt => pending bt.1 bt.2) c.2.

Lemma wp_elim {A} (c : @proc S A) n Q r n' : wp c n Q -> c n = Some (r, n') -> Q r n'.
Proof. unfold wp. intros HQ Hc. by rewrite Hc in HQ. Qed.

Lemma step_ok c c' : sync_ok c -> sync_step c c' ->
  sync_ok c' /\ (tip c'.1 = tip c.1 \/ is_better_chain (tip c'.1) (tip c.1) = true).
Proof.
  intros [[l Hn] Hps] Hst. destruct Hst as [env skip b n r n' ps Ub Hp|env b t n r n' ps Hin Hio Hc]; cbn [fst snd] in *.
  - destruct (Hn) as [Hl Hdb _ _]. apply (wp_elim _ _ _ _ _ (prepare_kept l env skip b n Hl Hdb Ub)) in Hp as [K Hr]. split; [|left; apply K].
    split; [exists l; by eapply kept_ok|]. destruct r as [[o|t]|e]; cbn; [done|constructor; [apply Hr|done]|done].
  - rewrite Forall_forall in Hps. pose proof (Hps _ Hin) as Hpd. cbn in Hpd. apply (wp_elim _ _ _ _ _ (commit_ok l env b t n Hn Hpd Hio)) in Hc as (l' & Hn' & Hr).
    split; [split; [by exists l'|by apply Forall_forall]|]. destruct r as [[]|]; [by right; destruct Hr as (_ & ? & _)|left; apply Hr..].
Qed.

(** What a consistent node is, without the logs: the blocks [bs] from genesis on
    are what the database has by height, lead to the UTXO set, and end in the
    tip. *)
Record on_chain (bs : list Block) (n : Node) : Prop := {
  oc_first : head bs = Some genesis;
  oc_state : redo_in_order bs (∅ : utxo_map) = Some (Ok tt, view (utxo_set n));
  oc_height i : get_block_id_by_height (Z.of_nat i) (storage n) = (fun b => id_of b) <$> bs !! i;
  oc_block b : b ∈ bs -> get_block (id_of b) (storage n) = Ok (Some b) /\ U b /\ root_ok b;
  oc_linked i p b : bs !! i = Some p -> bs !! Datatypes.S i = Some b -> prev_block_id (header b) = id_of p;
  oc_tip : exists b, last bs = Some b /\ get_tip (storage n) = Some (id_of b) /\ tip_block_id (tip n) = id_of b;
  oc_work : tip_height (tip n) = len bs - 1 /\ chain_to (tip_block_id (tip n)) (tip_height (tip n)) (cumulative_work (tip n));
  oc_pool : pool_ok (mempool n)
}.

Lemma log_from_empty l u : chain_log l u -> redo_in_order (map fst l) (∅ : utxo_map) = Some (Ok tt, u) /\ head (map fst l) = Some genesis.
Proof.
  induction 1 as [ms u Ha|l u p pms b ms v Hl [IH Hhd] _ _ _ Hs].
  - destruct (w_genesis _ _ world) as (_ & _ & Hg & _). split; [|done]. cbn [map fst redo_in_order]. unfold mbind, store_bind.
    by rewrite Hg, (applied_apply_txs _ _ _ _ _ Ha).
  - rewrite map_app. split; [|by destruct l]. rewrite redo_app. unfold mbind at 1, store_bind at 1. rewrite IH. cbn [map fst redo_in_order]. unfold mbind, store_bind.
    by rewrite (applied_apply_txs _ _ _ _ _ (bs_applied _ _ _ _ _ _ Hs)).
Qed.
Lemma id_wf (b : Block) : len (id_of b) = 32.
Proof. apply sha2_width. Qed.

Lemma node_on_chain l n : node_ok l n -> on_chain (map fst l) n.
Proof.
  intros [Hl Hdb [(b & ms & Hlast & Hid) Hat Hw] Hpool]. destruct (log_from_empty _ _ Hl) as [Hst Hhd].
  assert (forall i, map fst l !! i = fst <$> l !! i) as Hlk by (intros i; apply list_lookup_fmap). split.
  - done.
  - done.
  - intros i. rewrite Hlk. unfold get_block_id_by_height. destruct (l !! i) as [[bi msi]|] eqn:Ei; cbn.
    + assert (HEIGHT_INDEX (storage n) !! Z.of_nat i = Some (id_of bi)) as -> by (apply (db_index _ _ _ _ Hdb); by exists i, bi, msi).
      unfold if_32. by rewrite id_wf.
    + destruct (HEIGHT_INDEX (storage n) !! Z.of_nat i) as [id|] eqn:Eh; [|done]. apply (db_index _ _ _ _ Hdb) in Eh as (j & bj & mj & Hj & Hlj & _).
      apply Nat2Z.inj in Hj as <-. congruence.
  - intros b' Hin. apply list_elem_of_fmap in Hin as ([b1 m1] & -> & Hin). destruct (log_blocks _ _ world _ _ b1 m1 Hl Hin) as (? & ? & _).
    apply list_elem_of_lookup in Hin as [i Hi]. split; [by eapply get_block_canon|done].
  - intros i p b' Hp Hb. rewrite Hlk in Hp, Hb. destruct (l !! i) as [[p1 pm]|] eqn:Ei; [|done]. injection Hp as <-.
    destruct (l !! Datatypes.S i) as [[b1 m1]|] eqn:Ej; [|done]. injection Hb as <-. destruct (log_prev _ _ _ _ _ _ _ Hl Ej) as (q & qm & Hq & ->). cbn. congruence.
  - exists b. change (map fst l) with (fst <$> l). rewrite fmap_last, Hlast. split; [done|]. split; [|done]. destruct (db_tip _ _ _ _ Hdb) as (b' & ms' & Hl' & Ht).
    rewrite Hlast in Hl'. injection Hl' as <- <-. unfold get_tip. rewrite Ht. unfold if_32. by rewrite id_wf.
  - split; [|done]. rewrite Hat. unfold len. by rewrite length_map.
  - done.
Qed.

(** A node that has just created its chain. *)
Record started (n : Node) : Prop := {
  st_state : exists ms, applied 0 (transactions genesis) ∅ ms (view (utxo_set n)) /\
    commit_genesis_atomic genesis (work_from_target (difficulty_target (header genesis))) ms empty_db = Ok (storage n);
  st_tip : tip n = ChainTip_genesis (id_of genesis) (difficulty_target (header genesis));
  st_pool : mempool n = Mempool_new
}.
Lemma started_ok n : started n -> exists ms, node_ok [(genesis, ms)] n.
Proof.
  intros [(ms & Ha & Hc) Ht Hm]. exists ms. split.
  - by apply log_genesis.
  - by eapply (commit_genesis_ok _ _ world).
  - rewrite Ht. split; [by exists genesis, ms|done|apply to_genesis].
  - rewrite Hm. apply pool_new_ok.
Qed.

Lemma better_trans (a b c : ChainTip) : len (cumulative_work a) = 32 -> len (cumulative_work b) = 32 -> len (cumulative_work c) = 32 ->
  is_better_chain a b = true -> is_better_chain b c = true -> is_better_chain a c = true.
Proof. intros La Lb Lc. rewrite !is_better_chain_spec by done. lia. Qed.
Lemma tip_len l n : node_ok l n -> len (cumulative_work (tip n)) = 32.
Proof. intros Hn. eapply (chain_to_work _ _ world). apply (node_tip _ _ Hn). Qed.

Lemma steps_ok c c' : rtc sync_step c c' -> sync_ok c ->
  sync_ok c' /\ (tip c'.1 = tip c.1 \/ is_better_chain (tip c'.1) (tip c.1) = true).
Proof.
  induction 1 as [c|c1 c2 c3 Hst _ IH]; intros Hc; [by split; [|left]|]. destruct (step_ok _ _ Hc Hst) as [Hc2 H12]. destruct (IH Hc2) as [Hc3 H23]. split; [done|].
  destruct H23 as [->|H23]; [done|]. destruct H12 as [<-|H12]; [by right|]. right. destruct Hc as [[l1 N1] _], Hc2 as [[l2 N2] _], Hc3 as [[l3 N3] _].
  eapply (better_trans _ (tip c2.1)); [by eapply tip_len..|done|done].
Qed.

(** C1: The node's chain state is always consistent, and its tip only ever changes
    to a better one.  Tasks interleave the preparation and the commit of blocks in
    any order, with invalid blocks and with storage faults at any point, from a
    node that has just created its chain.  Then at every moment [n1] there is one
    chain of blocks from genesis such that the database has exactly these blocks
    by height, each on top of the one before; the UTXO set is the result of
    applying them in order; memory and database agree that the last one is the
    tip; the tip carries its height and the work of the chain; and the mempool is
    consistent.  At every later moment [n2] the same holds, and the tip is the one
    of [n1] or better than it.  Two cases are outside: the read of the fork point's
    work fails during a reorganisation ([sync_step]), and a peer sends blocks that
    repeat a coinbase transaction at different heights ([World]). *)
Theorem chain_state_consistent (n0 n1 n2 : Node) ps1 ps2 :
  started n0 -> rtc sync_step (n0, []) (n1, ps1) -> rtc sync_step (n1, ps1) (n2, ps2) ->
  (exists bs, on_chain bs n1) /\ (exists bs, on_chain bs n2) /\
  (tip n2 = tip n1 \/ is_better_chain (tip n2) (tip n1) = true).
Proof.
  intros (ms & Hn)%started_ok H01 H12. destruct (steps_ok _ _ H01) as [Hok1 _]; [split; [by exists [(genesis, ms)]|constructor]|].
  destruct (steps_ok _ _ H12 Hok1) as [[[l2 Hl2] _] Ht]. destruct Hok1 as [[l1 Hl1] _].
  split_and!; [exists (map fst l1); by apply node_on_chain|exists (map fst l2); by apply node_on_chain|done].
Qed.

(** C2: Processing a block is atomic.  On a node that is consistent, [process_block]
    makes the block the tip of a consistent node if it accepts it, and then it
    is better than the tip before.  In every other outcome (the block is kept as
    a fork, buffered, rejected, or anything fails, including what the node
    treats as fatal) the chain in the database, the tip and the mempool are as
    before, and so is the UTXO set, except in one case: the call fails because the
    read of the fork point's work failed during a reorganisation, and then the
    UTXO set is that of a chain that ends in the block.  [World] excludes blocks
    that repeat a coinbase transaction at different heights. *)
Theorem process_block_atomic l env b skip n r n' :
  node_ok l n -> U b ->
  process_block_inner signature_domain coinbase_maturity env b skip n = Some (r, n') ->
  on_chain (map fst l) n /\
  match r with
  | Ok Accepted => exists l', node_ok l' n' /\ on_chain (map fst l') n' /\ last (map fst l') = Some b /\ is_better_chain (tip n') (tip n) = true
  | _ => db_ok l (storage n') /\ tip n' = tip n /\ mempool n' = mempool n /\
      (view (utxo_set n') = view (utxo_set n) /\ node_ok l n' /\ on_chain (map fst l) n' \/
       io env AtForkPointWork = true /\ r = Err (db_error DbError) /\
         exists l' ms, chain_log l' (view (utxo_set n')) /\ last l' = Some (b, ms))
  end.
Proof.
  intros Hn Ub Hp. split; [by apply node_on_chain|].
  apply (wp_elim _ _ _ _ _ (process_block_cases l env b skip n Hn Ub)) in Hp as [(l' & Hn' & Hr)|(e & -> & [Hio -> Hdb Ht Hm Hv])].
  - assert (l' = l /\ view (utxo_set n') = view (utxo_set n) /\ tip n' = tip n /\ mempool n' = mempool n ->
      db_ok l (storage n') /\ tip n' = tip n /\ mempool n' = mempool n /\
      (view (utxo_set n') = view (utxo_set n) /\ node_ok l n' /\ on_chain (map fst l) n' \/
       io env AtForkPointWork = true /\ r = Err (db_error DbError) /\
         exists l' ms, chain_log l' (view (utxo_set n')) /\ last l' = Some (b, ms))) as Hkept.
    { intros (-> & Hv & Ht & Hm). split_and!; [apply Hn'|done|done|]. left. split_and!; [done|done|by apply node_on_chain]. }
    destruct r as [[]|]; [|by apply Hkept..]. destruct Hr as (_ & Hb & ms & Hlast).
    exists l'. split_and!; [done|by apply node_on_chain| |done]. change (map fst l') with (fst <$> l'). by rewrite fmap_last, Hlast.
  - split_and!; [done|done|done|]. right. done.
Qed.
End State.

Section Total.
Context `{!UtxoRoot utxo_map} `{Sha2} `{!Sha2Width} `{Ed25519} `{Layout} `{Argon2}.
Variables (signature_domain : Hash256) (coinbase_maturity : Z) (U : Block -> Prop) (genesis : Block).

(** C30: Processing a block always returns: on a consistent node whose UTXO store is a
    map, no branch panics, and the loops that look for the fork, trim the pool
    and make room in the mempool end, whatever reads and writes fail.  The blocks
    the node meets are those of a [World]. *)
Theorem process_block_returns l env b skip (n : @Node utxo_map) :
  World U genesis -> node_ok U genesis l n -> U b ->
  exists r n', process_block_inner signature_domain coinbase_maturity env b skip n = Some (r, n').
Proof.
  intros world Hn Ub. pose proof (process_block_cases signature_domain coinbase_maturity U genesis world l env b skip n Hn Ub) as Hwp.
  unfold wp in Hwp. destruct (process_block_inner _ _ _ _ _ _) as [[r n']|]; [eauto|done].
Qed.
End Total.
