(* ===== verification/ChainWitness.v ===== *)
(** * A small network

    Genesis, a block on it, and two blocks of a competing chain, over concrete
    hash functions: the hypotheses of the theorems on the chain manager hold, and
    a node accepts the first block, keeps the second as a fork and reorganises to
    the third. *)

From S2P Require Import Prelude Bytes Codec Hash Transaction Block Wire U256 Difficulty Reward.
From S2P Require Import ScriptValue ScriptCodec Jets ScriptCost Eval FeeCost Smt Utxo TxValidation BlockValidation BlockApply Mempool.
From S2P Require Import Storage ChainManager StoreView ChainModel StorageFacts ChainStore ChainState.
#[local] Open Scope Z_scope.

Definition mod_digest (data : bytes) : bytes := le_bytes 32 (le_val data mod (2 ^ 255 - 19)).
Lemma mod_digest_width : forall data, len (mod_digest data) = 32.
Proof. intros. apply len_le_bytes. Qed.

Section Network.
#[local] Instance sha : Sha2 := mod_digest.
#[local] Instance sha_width : Sha2Width := mod_digest_width.
#[local] Instance argon2 : Argon2 := toy_argon2.
#[local] Existing Instance toy_ed25519.
#[local] Existing Instance toy_layout.
#[local] Instance flat_root : UtxoRoot utxo_map := fun _ => zero32.

Definition net_coinbase (h reward : Z) : Transaction := {|
  inputs := [{| prev_tx_id := Hash256_ZERO; output_index := h |}];
  outputs := [{| value := reward; script := sample_key; datum := None; datum_hash := None |}];
  witnesses := [{| witness := []; redeemer := None |}] |}.
Definition net_block (h : Z) (prev : Hash256) (time : Z) : Block :=
  let coinbase := net_coinbase h (block_reward h) in
  {| header := {|
       version := 1; height := h; prev_block_id := prev; timestamp := time; difficulty_target := genesis_target;
       nonce := 0; tx_root := match compute_tx_root [coinbase] with Ok r => r | Err _ => zero32 end;
       Block.state_root := zero32 |};
     transactions := [coinbase] |}.
Definition g0 : Block := Eval vm_compute in net_block 0 Hash256_ZERO 1700000000.
Definition b1 : Block := Eval vm_compute in net_block 1 (block_id (header g0)) 1700000010.
Definition c1 : Block := Eval vm_compute in net_block 1 (block_id (header g0)) 1700000011.
Definition c2 : Block := Eval vm_compute in net_block 2 (block_id (header c1)) 1700000020.
Definition coinbase_of (b : Block) : Transaction := default (net_coinbase 0 0) (head (transactions b)).
Definition net (b : Block) : Prop := b = g0 \/ b = b1 \/ b = c1 \/ b = c2.

Definition calm : Env := {| wall_clock := Some 1700000100; now := 0; io := fun _ => false |}.
Definition genesis_log : list UtxoMutation * utxo_map :=
  match apply_transaction (coinbase_of g0) 0 (∅ : utxo_map) with Some (Ok ms, u) => (ms, u) | _ => ([], ∅) end.
Definition node0 : @Node utxo_map := {|
  storage := match commit_genesis_atomic g0 (work_from_target genesis_target) (fst genesis_log) empty_db with Ok db => db | Err _ => empty_db end;
  utxo_set := snd genesis_log; mempool := Mempool_new; tip := ChainTip_genesis (block_id (header g0)) genesis_target;
  fork_blocks := []; future_blocks := []; difficulty_cache := ∅; reorg_triggers := ReorgTriggerState_new;
  assume_valid := false; assume_valid_verified := false; assume_valid_cumulative_work_trusted := true; event_bus := [] |}.

Lemma net_wf b : net b -> Block_wf b.
Proof.
  intros [->|[->|[->| ->]]]; repeat split; repeat constructor; vm_compute; first [reflexivity|discriminate].
Qed.
Lemma net_root b : net b -> root_ok b.
Proof. intros [->|[->|[->| ->]]]; vm_compute; reflexivity. Qed.

(** The identifiers, evaluated. *)
Definition id_g0 : Hash256 := Eval vm_compute in block_id (header g0).
Definition id_b1 : Hash256 := Eval vm_compute in block_id (header b1).
Definition id_c1 : Hash256 := Eval vm_compute in block_id (header c1).
Definition id_c2 : Hash256 := Eval vm_compute in block_id (header c2).
Lemma ids_evaluated : block_id (header g0) = id_g0 /\ block_id (header b1) = id_b1 /\ block_id (header c1) = id_c1 /\ block_id (header c2) = id_c2.
Proof. split_and!; vm_compute; reflexivity. Qed.
Definition tx_0 : result SerError Hash256 := Eval vm_compute in tx_id (coinbase_of g0).
Definition tx_1 : result SerError Hash256 := Eval vm_compute in tx_id (coinbase_of b1).
Definition tx_2 : result SerError Hash256 := Eval vm_compute in tx_id (coinbase_of c2).
Lemma txs_evaluated : tx_id (coinbase_of g0) = tx_0 /\ tx_id (coinbase_of b1) = tx_1 /\ tx_id (coinbase_of c1) = tx_1 /\ tx_id (coinbase_of c2) = tx_2.
Proof. split_and!; vm_compute; reflexivity. Qed.
(** Equal identifiers only for equal blocks. *)
Lemma net_ids b b' : net b -> net b' -> block_id (header b) = block_id (header b') -> b = b'.
Proof.
  destruct ids_evaluated as (I1 & I2 & I3 & I4).
  intros [->|[->|[->| ->]]] [->|[->|[->| ->]]] E; try reflexivity; exfalso; rewrite ?I1, ?I2, ?I3, ?I4 in E; discriminate E.
Qed.
Lemma net_txs b tx : net b -> tx ∈ transactions b -> tx = coinbase_of b.
Proof. intros [->|[->|[->| ->]]] Htx; apply list_elem_of_singleton in Htx as ->; reflexivity. Qed.
Lemma net_tx_ids b b' id : net b -> net b' -> tx_id (coinbase_of b) = Ok id -> tx_id (coinbase_of b') = Ok id ->
  inputs (coinbase_of b) = inputs (coinbase_of b') /\ height (header b) = height (header b') /\ id <> Hash256_ZERO.
Proof.
  destruct txs_evaluated as (I1 & I2 & I3 & I4).
  intros [->|[->|[->| ->]]] [->|[->|[->| ->]]] E E'; rewrite ?I1, ?I2, ?I3, ?I4 in E; rewrite ?I1, ?I2, ?I3, ?I4 in E'; injection E as <-;
    first [discriminate E'|split; [reflexivity|split; [reflexivity|discriminate]]].
Qed.

Lemma net_world : World net g0.
Proof.
  split.
  - apply net_wf.
  - intros b b' Hb Hb' _ _. by apply net_ids.
  - intros b b' tx tx' id Hb Hb' Htx Htx'. rewrite (net_txs _ _ Hb Htx), (net_txs _ _ Hb' Htx'). apply net_tx_ids; done.
  - intros b tx Hb Htx. rewrite (net_txs _ _ Hb Htx). intros E. by destruct (net_tx_ids _ _ _ Hb Hb E E) as (_ & _ & ?).
  - intros b b' tx tx' id Hb Hb' Htx Htx'.
    assert (tx ∈ transactions b) as H1 by (destruct (transactions b); [discriminate|]; injection Htx as ->; left).
    assert (tx' ∈ transactions b') as H2 by (destruct (transactions b'); [discriminate|]; injection Htx' as ->; left).
    rewrite (net_txs _ _ Hb H1), (net_txs _ _ Hb' H2). intros E E'. by destruct (net_tx_ids _ _ _ Hb Hb' E E') as (_ & -> & _).
  - split; [by left|]. split; [apply net_root; by left|]. split; [reflexivity|]. exists (coinbase_of g0). split; reflexivity.
Qed.

Lemma genesis_applies : apply_transaction (coinbase_of g0) 0 (∅ : utxo_map) = Some (Ok (fst genesis_log), snd genesis_log).
Proof.
  assert (match apply_transaction (coinbase_of g0) 0 (∅ : utxo_map) with Some (Ok _, _) => true | _ => false end = true) as Hok by (vm_compute; reflexivity).
  unfold genesis_log. destruct (apply_transaction (coinbase_of g0) 0 (∅ : utxo_map)) as [[[ms|] u]|]; [reflexivity|discriminate..].
Qed.
Lemma node0_started : started g0 node0.
Proof.
  split; [|reflexivity|reflexivity]. exists (fst genesis_log). split.
  - change (transactions g0) with ([] ++ [coinbase_of g0]). change (fst genesis_log) with ([] ++ fst genesis_log).
    eapply applied_snoc; [constructor|exact genesis_applies].
  - assert (match commit_genesis_atomic g0 (work_from_target genesis_target) (fst genesis_log) empty_db with Ok _ => true | Err _ => false end = true) as Hok by (vm_compute; reflexivity).
    change (storage node0) with (match commit_genesis_atomic g0 (work_from_target genesis_target) (fst genesis_log) empty_db with Ok db => db | Err _ => empty_db end).
    change (difficulty_target (header g0)) with genesis_target.
    destruct (commit_genesis_atomic g0 (work_from_target genesis_target) (fst genesis_log) empty_db); [reflexivity|discriminate].
Qed.

(** Running tasks: prepare a block, or commit the [i]-th prepared one. *)
Inductive action := Prepare (b : Block) | Commit (i : nat).
Definition act (a : action) (c : @Node utxo_map * list (Block * ChainTip)) : option (@Node utxo_map * list (Block * ChainTip)) :=
  match a with
  | Prepare b =>
      match prepare calm true b (fst c) with
      | Some (r, n') => Some (n', match r with Ok (Contender t) => (b, t) :: snd c | _ => snd c end)
      | None => None
      end
  | Commit i =>
      match snd c !! i with
      | Some (b, t) => match commit sample_domain 360 calm b t (fst c) with Some (_, n') => Some (n', snd c) | None => None end
      | None => None
      end
  end.
Fixpoint acts (l : list action) (c : @Node utxo_map * list (Block * ChainTip)) : option (@Node utxo_map * list (Block * ChainTip)) :=
  match l with [] => Some c | a :: l => match act a c with Some c' => acts l c' | None => None end end.
Definition known (a : action) : Prop := match a with Prepare b => net b | Commit _ => True end.

Lemma acts_steps l c c' : Forall known l -> acts l c = Some c' -> rtc (sync_step sample_domain 360 net) c c'.
Proof.
  intros Hl. revert c. induction Hl as [|a l Ha _ IH]; intros c; cbn [acts]; [by intros [= <-]|]. destruct (act a c) as [c1|] eqn:E; [|done]. intros Hc.
  eapply rtc_l; [|by apply IH]. destruct a as [b|i], c as [n ps]; cbn [act fst snd] in E.
  - destruct (prepare calm true b n) as [[r n']|] eqn:Ep; [|done]. injection E as <-. by eapply step_prepare.
  - destruct (ps !! i) as [[b t]|] eqn:Ei; [|done]. destruct (commit sample_domain 360 calm b t n) as [[r n']|] eqn:Ec; [|done]. injection E as <-.
    eapply (step_commit _ _ _ calm); [by eapply list_elem_of_lookup_2|reflexivity|exact Ec].
Qed.

(** Both blocks at height 1 are prepared before either is committed; the first
    wins, the second is kept, and its child takes over. *)
Definition race : list action := [Prepare b1; Prepare c1; Commit 1; Commit 0; Prepare c2; Commit 0].
Lemma race_ends :
  match acts (take 3 race) (node0, []) with
  | Some (n1, ps1) =>
      bool_decide (tip_block_id (tip n1) = block_id (header b1)) &&
      match acts (drop 3 race) (n1, ps1) with
      | Some (n2, _) => bool_decide (tip_block_id (tip n2) = block_id (header c2))
      | None => false
      end
  | None => false
  end = true.
Proof. vm_compute. reflexivity. Qed.
Lemma race_known : Forall known (take 3 race) /\ Forall known (drop 3 race).
Proof. split; repeat (apply Forall_cons; split); unfold known, net; auto; constructor. Qed.
Lemma b1_not_c2 : block_id (header b1) <> block_id (header c2).
Proof. apply (bool_decide_eq_true_1 (block_id (header b1) <> block_id (header c2))). vm_compute. reflexivity. Qed.

(** Between the commit of the first block and the takeover the tip gets better. *)
Lemma chain_state_consistent_witness : exists n1 ps1 n2 ps2 bs,
  acts (take 3 race) (node0, []) = Some (n1, ps1) /\ acts (drop 3 race) (n1, ps1) = Some (n2, ps2) /\
  tip_block_id (tip n2) = block_id (header c2) /\ on_chain net g0 bs n2 /\ is_better_chain (tip n2) (tip n1) = true.
Proof.
  pose proof race_ends as Hend. destruct (acts (take 3 race) (node0, [])) as [[n1 ps1]|] eqn:E1; [|discriminate].
  apply andb_prop in Hend as [Ht1%bool_decide_eq_true Hend].
  destruct (acts (drop 3 race) (n1, ps1)) as [[n2 ps2]|] eqn:E2; [|discriminate]. apply bool_decide_eq_true in Hend.
  destruct (chain_state_consistent sample_domain 360 net g0 net_world node0 n1 n2 ps1 ps2 node0_started
    (acts_steps _ _ _ (proj1 race_known) E1) (acts_steps _ _ _ (proj2 race_known) E2)) as (_ & [bs Hbs] & Hbetter).
  exists n1, ps1, n2, ps2, bs. split; [reflexivity|]. split; [exact E2|]. split; [exact Hend|]. split; [exact Hbs|].
  destruct Hbetter as [Heq|Hb]; [|exact Hb]. rewrite Heq, Ht1 in Hend. by destruct (b1_not_c2 Hend).
Defined.

Lemma b1_accepted : match process_block_inner sample_domain 360 calm b1 true node0 with Some (Ok Accepted, _) => true | _ => false end = true.
Proof. vm_compute. reflexivity. Qed.
Lemma process_block_atomic_witness : exists n' (l' : list (Block * list UtxoMutation)),
  process_block_inner sample_domain 360 calm b1 true node0 = Some (Ok Accepted, n') /\ on_chain net g0 (map fst l') n' /\ last (map fst l') = Some b1.
Proof.
  pose proof b1_accepted as Hacc. destruct (started_ok net g0 net_world node0 node0_started) as [ms Hn].
  destruct (process_block_inner sample_domain 360 calm b1 true node0) as [[[[]|] n']|] eqn:E; try discriminate Hacc.
  destruct (process_block_atomic sample_domain 360 net g0 net_world [(g0, ms)] calm b1 true node0 (Ok Accepted) n' Hn
    (or_intror (or_introl eq_refl)) E) as (_ & l' & _ & Hoc & Hlast & _).
  exists n', l'. split; [reflexivity|]. split; [exact Hoc|exact Hlast].
Defined.
Lemma process_block_returns_witness : exists r n', process_block_inner sample_domain 360 calm c2 true node0 = Some (r, n').
Proof.
  destruct (started_ok net g0 net_world node0 node0_started) as [ms Hn].
  apply (process_block_returns sample_domain 360 net g0 [(g0, ms)] calm c2 true node0 net_world Hn). right; right; right; reflexivity.
Defined.

(** ** Two faults *)

(** When the read of the fork point's work fails, a reorganisation returns with
    the tip unchanged and the new chain still applied to the UTXO set. *)
Definition stormy : Env := {| wall_clock := Some 1700000100; now := 0; io := fun c => match c with AtForkPointWork => true | _ => false end |}.
Definition fault_effect (c : @Node utxo_map * list (Block * ChainTip)) : option (bool * bool) :=
  match snd c with
  | (b, t) :: _ =>
      match commit sample_domain 360 stormy b t (fst c) with
      | Some (Err (Recoverable _), n') =>
          Some (bool_decide (tip_block_id (tip n') = tip_block_id (tip (fst c))), bool_decide (utxo_set n' = utxo_set (fst c)))
      | _ => None
      end
  | [] => None
  end.
Definition before_takeover : option (@Node utxo_map * list (Block * ChainTip)) := acts (take 5 race) (node0, []).
Definition faulty_commit : option (bool * bool) := before_takeover ≫= fault_effect.
Example fork_point_fault_splits_state : faulty_commit = Some (true, false).
Proof. vm_compute. reflexivity. Qed.

(** A block in which the second transaction spends the first one's output.  Taking
    it out of the table of outputs again leaves that output behind. *)
Definition pay (prev : Hash256) (amount : Z) : Transaction := {|
  inputs := [{| prev_tx_id := prev; output_index := 0 |}];
  outputs := [{| value := amount; script := sample_key; datum := None; datum_hash := None |}];
  witnesses := [{| witness := []; redeemer := None |}] |}.
Definition id_or_zero (tx : Transaction) : Hash256 := match tx_id tx with Ok id => id | Err _ => zero32 end.
Definition spend1 : Transaction := pay (id_or_zero (coinbase_of g0)) 5000.
Definition spend2 : Transaction := pay (id_or_zero spend1) 4000.
Definition chained : Block := {| header := header b1; transactions := [coinbase_of b1; spend1; spend2] |}.
Definition chained_log (u : utxo_map) : option (list UtxoMutation) :=
  match apply_transaction (coinbase_of b1) 1 u with
  | Some (Ok m0, u) =>
      match apply_transaction spend1 1 u with
      | Some (Ok m1, u) => match apply_transaction spend2 1 u with Some (Ok m2, _) => Some (m0 ++ m1 ++ m2) | _ => None end
      | _ => None
      end
  | _ => None
  end.
(** The rows before the block, and after storing and undoing it. *)
Definition undo_rows (db : ChainStorage) (ms : list UtxoMutation) : option (list bytes * list bytes) :=
  match commit_block_atomic chained zero32 (collect_spent_utxos ms) ms db with
  | Ok db1 => match undo_orphan chained db1 with
              | Ok db2 => Some (map fst (table_rows UTXOS_TABLE db), map fst (table_rows UTXOS_TABLE db2))
              | Err _ => None
              end
  | Err _ => None
  end.
Definition rows_after_undo : option (list bytes * list bytes) := chained_log (utxo_set node0) ≫= undo_rows (storage node0).
Example orphan_undo_leaves_row :
  match rows_after_undo with
  | Some (before, after) =>
      bool_decide (serialize_outpoint_key (output_outpoint (id_or_zero spend1) 0) ∈ before) = false /\
      bool_decide (serialize_outpoint_key (output_outpoint (id_or_zero spend1) 0) ∈ after) = true
  | None => False
  end.
Proof. vm_compute. split; reflexivity. Qed.
End Network.
