(* ===== verification/SnapshotFacts.v ===== *)
(** * The persisted UTXO snapshot follows the set

    [mirror full u rows] relates the rows of [UTXOS_TABLE] to a set: every row is
    the encoding of an entry, and when [full], every entry has its row.  The
    mutation logs of applied transactions carry it from one set to the next, so
    the commits keep it, and reading the rows back returns the entries. *)

From S2P Require Import Prelude Bytes Codec Hash Transaction Block Wire U256 Difficulty Reward.
From S2P Require Import ScriptValue ScriptCodec Jets ScriptCost Eval FeeCost Smt Utxo TxValidation BlockValidation BlockApply Mempool.
From S2P Require Import Storage ChainManager StoreView ChainModel StorageFacts ChainStore.
#[local] Open Scope Z_scope.

Record mirror (full : bool) (u : utxo_map) (rows : gmap bytes bytes) : Prop := {
  mi_rows k v : rows !! k = Some v -> exists o e, u !! o = Some e /\ k = serialize_outpoint_key o /\ serialize_utxo_entry e = Ok v;
  mi_full o e : full = true -> u !! o = Some e -> is_Some (rows !! serialize_outpoint_key o)
}.
Lemma mirror_empty full : mirror full ∅ ∅.
Proof. split; [intros k v ?%lookup_empty_Some|intros o e _ ?%lookup_empty_Some]; done. Qed.
Lemma mirror_weaken u rows full : mirror true u rows -> mirror full u rows.
Proof. intros [Hr Hf]. split; [done|]. intros o e _. by apply Hf. Qed.
Lemma mirror_cleared u : mirror false u ∅.
Proof. split; [intros k v ?%lookup_empty_Some; done|done]. Qed.

(** ** Mutations *)

Definition mutated (u : utxo_map) (m : UtxoMutation) : utxo_map := match m with MInsert o e => <[o := e]> u | MRemove o _ => delete o u end.
Definition mutation_wf (m : UtxoMutation) : Prop := match m with MInsert o _ | MRemove o _ => OutPoint_wf o end.

Lemma mirror_mutation full u m db db' :
  mirror full u (tables db UTXOS_TABLE) -> (forall o e, u !! o = Some e -> OutPoint_wf o) -> mutation_wf m ->
  apply_utxo_mutation m db = Ok db' -> mirror full (mutated u m) (tables db' UTXOS_TABLE).
Proof.
  intros [Hr Hf] Hu Hm. unfold apply_utxo_mutation. destruct m as [o e|o e]; cbn [mutated].
  - destruct (serialize_utxo_entry e) as [v|] eqn:Ev; [|done]. intros [= <-]. change (tables (table_insert UTXOS_TABLE (serialize_outpoint_key o) v db) UTXOS_TABLE)
      with (<[serialize_outpoint_key o := v]> (tables db UTXOS_TABLE)). split.
    + intros k v' [[<- <-]|[Hne (o' & e' & Ho & -> & Hs)%Hr]]%lookup_insert_Some.
      * exists o, e. split; [by rewrite lookup_insert_eq|done].
      * exists o', e'. split; [|done]. rewrite lookup_insert_ne; [done|]. by intros <-.
    + intros o' e' Hfull [[<- <-]|[Hne Ho]]%lookup_insert_Some; [by rewrite lookup_insert_eq|].
      destruct (decide (serialize_outpoint_key o = serialize_outpoint_key o')) as [E|E]; [by rewrite E, lookup_insert_eq|].
      rewrite lookup_insert_ne by done. by eapply Hf.
  - intros [= <-]. change (tables (table_remove UTXOS_TABLE (serialize_outpoint_key o) db) UTXOS_TABLE)
      with (delete (serialize_outpoint_key o) (tables db UTXOS_TABLE)). split.
    + intros k v' [Hne (o' & e' & Ho & -> & Hs)%Hr]%lookup_delete_Some. exists o', e'. split; [|done]. rewrite lookup_delete_ne; [done|]. by intros <-.
    + intros o' e' Hfull [Hne Ho]%lookup_delete_Some. rewrite lookup_delete_ne; [by eapply Hf|].
      intros E. apply outpoint_key_inj in E; [done|done|by eapply Hu].
Qed.
Lemma mirror_mutations full ms : forall u db db',
  mirror full u (tables db UTXOS_TABLE) -> (forall o e, u !! o = Some e -> OutPoint_wf o) -> Forall mutation_wf ms ->
  apply_utxo_mutations ms db = Ok db' -> mirror full (fold_left mutated ms u) (tables db' UTXOS_TABLE).
Proof.
  unfold apply_utxo_mutations. induction ms as [|m ms IH]; intros u db db' Hm Hu Hwf; cbn [for_txn fold_left]; [by intros [= <-]|].
  apply Forall_cons in Hwf as [Hwf1 Hwf]. destruct (apply_utxo_mutation m db) as [db1|] eqn:E; [|done]. apply IH; [by eapply mirror_mutation| |done].
  intros o e. destruct m as [o' e'|o' e']; cbn [mutated].
  - intros [[<- _]|[_ ?]]%lookup_insert_Some; [done|by eapply Hu].
  - intros [_ ?]%lookup_delete_Some. by eapply Hu.
Qed.

(** The log of an applied transaction says what it did. *)
Lemma spend_mutated ins (u : utxo_map) ms u' : spend_inputs ins u = Some (Ok ms, u') -> fold_left mutated ms u = u'.
Proof.
  revert u ms. induction ins as [|i ins IH]; intros u ms; cbn [spend_inputs]; [by intros [= <- <-]|].
  unfold mbind, store_bind, removing. cbn [store_remove spec_store]. destruct (u !! input_outpoint i) as [e|] eqn:E; [|done].
  destruct (spend_inputs ins (delete _ u)) as [[[ms1|] u1]|] eqn:Es; [|done|done]. intros [= <- <-]. cbn [fold_left mutated]. by apply IH.
Qed.
Lemma create_mutated id h cb idx outs (u : utxo_map) ms u' : create_outputs id h cb idx outs u = Some (Ok ms, u') -> fold_left mutated ms u = u'.
Proof.
  revert idx u ms. induction outs as [|o outs IH]; intros idx u ms; cbn [create_outputs]; [by intros [= <- <-]|].
  unfold mbind, store_bind. cbn [store_insert spec_store]. unfold spec_insert at 1. destruct (u !! _); [done|]. destruct (TxOutput_serialize _); [|done].
  destruct (create_outputs id h cb (idx + 1) outs _) as [[[ms1|] u1]|] eqn:Ec; [|done|done]. intros [= <- <-]. cbn [fold_left mutated]. by eapply IH.
Qed.
Lemma apply_mutated `{Sha2} tx h (u : utxo_map) ms u' : apply_transaction tx h u = Some (Ok ms, u') -> fold_left mutated ms u = u'.
Proof.
  unfold apply_transaction, mbind, store_bind, of_result. destruct (tx_id tx) as [id|]; [|done]. cbn [map_err].
  destruct (is_coinbase tx); cbn [negb].
  - unfold mret, store_ret. destruct (create_outputs id h true 0 (outputs tx) u) as [[[ms1|] u1]|] eqn:Ec; [|done|done]. intros [= <- <-]. by eapply create_mutated.
  - destruct (spend_inputs (inputs tx) u) as [[[ms0|] u0]|] eqn:Es; [|done|done].
    destruct (create_outputs id h false 0 (outputs tx) u0) as [[[ms1|] u1]|] eqn:Ec; [|done|done]. intros [= <- <-].
    rewrite fold_left_app, (spend_mutated _ _ _ _ Es). by eapply create_mutated.
Qed.
Lemma applied_mutated `{Sha2} h txs u ms v : applied h txs u ms v -> fold_left mutated ms u = v.
Proof. induction 1 as [u|txs u ms v tx m w _ IH Ha]; [done|]. rewrite fold_left_app, IH. by eapply apply_mutated. Qed.

(** ** Reading the rows *)

Lemma decode_rows rows : (forall k v, (k, v) ∈ rows -> exists o e, OutPoint_wf o /\ UtxoEntry_wf e /\ k = serialize_outpoint_key o /\ serialize_utxo_entry e = Ok v) ->
  exists es, decode_utxos rows = Ok es /\ Forall2 (fun kv oe => kv.1 = serialize_outpoint_key oe.1 /\ serialize_utxo_entry oe.2 = Ok kv.2 /\ OutPoint_wf oe.1 /\ UtxoEntry_wf oe.2) rows es.
Proof.
  induction rows as [|[k v] rows IH]; intros Hr; [by exists []|]. destruct IH as (es & He & Hf); [intros; apply Hr; by right|].
  destruct (Hr k v) as (o & e & Ho & Hwf & -> & Hs); [left|]. exists ((o, e) :: es). split; [|by constructor].
  cbn [decode_utxos]. rewrite (outpoint_key_codec _ Ho). cbn [ok_or]. destruct (utxo_entry_codec e Hwf) as (v' & Hv & Hd). rewrite Hs in Hv. injection Hv as <-.
  rewrite Hd. cbn [ok_or]. by rewrite He.
Qed.

Lemma entry_codec_inj e e' v : UtxoEntry_wf e -> UtxoEntry_wf e' -> serialize_utxo_entry e = Ok v -> serialize_utxo_entry e' = Ok v -> e = e'.
Proof.
  intros H1 H2 E1 E2. destruct (utxo_entry_codec e H1) as (v1 & Hv1 & Hd1). destruct (utxo_entry_codec e' H2) as (v2 & Hv2 & Hd2). congruence.
Qed.
Lemma iter_mirror u db : entries_wf u -> mirror true u (tables db UTXOS_TABLE) ->
  exists es, iter_utxos db = Ok es /\ NoDup es.*1 /\ forall o e, (o, e) ∈ es <-> u !! o = Some e.
Proof.
  intros Hu [Hr Hf]. unfold iter_utxos, table_rows. set (rows := merge_sort row_le (map_to_list (tables db UTXOS_TABLE))).
  assert (rows ≡ₚ map_to_list (tables db UTXOS_TABLE)) as Hp by apply merge_sort_Permutation.
  assert (forall k v, (k, v) ∈ rows <-> tables db UTXOS_TABLE !! k = Some v) as Hin by (intros; rewrite Hp; apply elem_of_map_to_list).
  destruct (decode_rows rows) as (es & He & H2).
  { intros k v Hkv%Hin. destruct (Hr k v Hkv) as (o & e & Ho & -> & Hs). destruct (Hu o e Ho). eauto 10. }
  exists es. split; [done|]. split.
  - assert (NoDup rows.*1) as Hnd by (rewrite Hp; apply NoDup_fst_map_to_list). clear -Hnd H2. revert Hnd. induction H2 as [|[k v] [o e] rows es (Hk & _ & Ho & _) H2 IH]; [constructor|].
    cbn [fmap list_fmap fst snd] in *. intros [Hn Hnd]%NoDup_cons. constructor; [|by apply IH]. intros Hin. apply Hn. rewrite Hk. clear -H2 Hin Ho.
    apply list_elem_of_fmap in Hin as ([o' e'] & -> & Hin). apply list_elem_of_lookup in Hin as [i Hi]. destruct (Forall2_lookup_r _ _ _ _ _ H2 Hi) as ([k v] & Hk & E & _).
    apply list_elem_of_fmap. exists (k, v). split; [by rewrite E|by eapply list_elem_of_lookup_2].
  - intros o e. split.
    + intros Hoe. apply list_elem_of_lookup in Hoe as [i Hi]. destruct (Forall2_lookup_r _ _ _ _ _ H2 Hi) as ([k v] & Hk & E & Hs & Ho & Hwf). cbn [fst snd] in *.
      assert (tables db UTXOS_TABLE !! k = Some v) as (o' & e' & Ho' & -> & Hs')%Hr by (apply Hin; by eapply list_elem_of_lookup_2).
      destruct (Hu o' e' Ho') as [Hwf' Hwfe']. apply outpoint_key_inj in E as <-; [|done..]. by rewrite (entry_codec_inj _ _ _ Hwf Hwfe' Hs Hs').
    + intros Ho. destruct (Hf o e eq_refl Ho) as [v Hv]. destruct (Hu o e Ho) as [Hwf Hwfe]. destruct (Hr _ _ Hv) as (o' & e' & Ho' & E & Hs).
      destruct (Hu o' e' Ho') as [Hwf' Hwfe']. apply outpoint_key_inj in E as <-; [|done..]. rewrite Ho in Ho'. injection Ho' as <-.
      apply Hin, list_elem_of_lookup in Hv as [i Hi]. destruct (Forall2_lookup_l _ _ _ _ _ H2 Hi) as ([o2 e2] & He2 & E & Hs2 & Ho2 & Hwf2). cbn [fst snd] in *.
      apply outpoint_key_inj in E as ->; [|done..]. rewrite (entry_codec_inj _ _ _ Hwfe Hwf2 Hs Hs2). by eapply list_elem_of_lookup_2.
Qed.

(** ** A database from which a node can start *)

Section Bootable.
Context `{Sha2} `{!Sha2Width}.
Variables (U : Block -> Prop) (genesis : Block).
Hypothesis world : World U genesis.
Abbreviation id_of b := (block_id (header b)).
Abbreviation log := (list (Block * list UtxoMutation)).
Abbreviation chain_to := (chain_to U genesis).
Abbreviation chain_log := (chain_log U genesis).
Abbreviation linked := (linked U genesis).
Abbreviation db_ok := (db_ok U genesis).

Record boot_ok (l : log) (u : utxo_map) (db : ChainStorage) : Prop := {
  bk_db : db_ok l db;
  bk_rows : mirror (snapshot_complete db) u (tables db UTXOS_TABLE);
  bk_marker id : get_walk_verified_tip db = Some id -> exists i b ms, l !! i = Some (b, ms) /\ id = id_of b
}.

Lemma boot_keeps l u db db' :
  boot_ok l u db -> db_ok l db' -> tables db' UTXOS_TABLE = tables db UTXOS_TABLE -> tables db' META_TABLE = tables db META_TABLE -> boot_ok l u db'.
Proof.
  intros [Hdb Hm Hw] Hdb' Ht Hmeta. split; [done|by unfold snapshot_complete, table_get in *; rewrite Ht, Hmeta|].
  intros id. unfold get_walk_verified_tip, table_get. rewrite Hmeta. apply Hw.
Qed.

(** What the markers say after a commit. *)
Lemma walk_marker_here id db : table_get META_TABLE WALK_VERIFIED_TIP_KEY (advance_walk_marker_in_txn id db) = Some id.
Proof. unfold advance_walk_marker_in_txn. by rewrite table_get_insert, decide_True. Qed.
Lemma walk_marker_complete id db : snapshot_complete (advance_walk_marker_in_txn id db) = snapshot_complete db.
Proof. unfold snapshot_complete, advance_walk_marker_in_txn. by rewrite table_get_insert, decide_False by by intros [_ ?]. Qed.
Lemma snapshot_marker_complete id db : snapshot_complete (advance_snapshot_marker_in_txn id db) = snapshot_complete db.
Proof.
  unfold advance_snapshot_marker_in_txn. destruct (negb _) eqn:E; [done|]. unfold snapshot_complete. by rewrite table_get_insert, decide_False by by intros [_ ?].
Qed.
Lemma if_32_Some v id : if_32 (Some v) = Some id -> id = v.
Proof. unfold if_32. destruct (_ =? _); [by intros [= <-]|done]. Qed.

(** The last steps of a commit: mutations and the index of spenders. *)
Lemma commit_tail full u ms v b db db1 db2 :
  mirror full u (tables db UTXOS_TABLE) -> entries_wf u -> Forall mutation_wf ms -> fold_left mutated ms u = v ->
  apply_utxo_mutations ms db = Ok db1 -> apply_spent_by_for_block b db1 = Ok db2 ->
  mirror full v (tables db2 UTXOS_TABLE) /\ tables db2 META_TABLE = tables db META_TABLE.
Proof.
  intros Hm Hu Hwf <- H1 H2. destruct (spent_by_touches _ _ _ H2) as [_ T2]. rewrite !T2 by set_solver. split.
  - eapply mirror_mutations; [done| |done|done]. intros o e Ho. by apply (Hu o e).
  - destruct (mutations_touches _ _ _ H1) as [_ T1]. apply T1. set_solver.
Qed.
Lemma applied_mutations_wf h txs u ms v : applied h txs u ms v -> Forall Transaction_wf txs -> entries_wf u -> entries_wf v -> in_u64 h -> Forall mutation_wf ms.
Proof.
  intros Ha. induction Ha as [u|txs u ms v tx m w Ha IH Hap]; intros Htx Hu Hw Hh; [constructor|]. apply Forall_app in Htx as [Htxs Htx].
  destruct (applied_wf _ _ _ _ _ Ha Hh Htxs Hu) as [Hv _]. apply Forall_app. split; [by apply IH|]. clear Htx.
  revert Hap. unfold apply_transaction, mbind, store_bind, of_result. destruct (tx_id tx) as [id|] eqn:Hid; [|done]. cbn [map_err].
  assert (forall cb outs idx (s s' : utxo_map) ms, create_outputs id h cb idx outs s = Some (Ok ms, s') -> Forall mutation_wf ms) as Hcreate.
  { intros cb outs. induction outs as [|o outs IHo]; intros idx s s' ms0; cbn [create_outputs]; [by intros [= <- <-]|].
    unfold mbind, store_bind. destruct (store_insert _ _ s) as [[[[]|] s1]|]; [|done|done]. destruct (create_outputs id h cb (idx + 1) outs s1) as [[[ms1|] s2]|] eqn:Ec; [|done|done].
    intros [= <- <-]. constructor; [|by eapply IHo]. split; [by eapply tx_id_wf|]. unfold in_u32, U32_MAX, output_outpoint. cbn [op_index]. pose proof (Z.mod_pos_bound (Z.of_nat idx) (2 ^ 32) ltac:(done)). lia. }
  assert (forall ins (s s' : utxo_map) ms, (forall o e, s !! o = Some e -> OutPoint_wf o) -> spend_inputs ins s = Some (Ok ms, s') -> Forall mutation_wf ms) as Hspend.
  { intros ins. induction ins as [|i ins IHi]; intros s s' ms0 Hs; cbn [spend_inputs]; [by intros [= <- <-]|].
    unfold mbind, store_bind, removing. cbn [store_remove spec_store]. destruct (s !! input_outpoint i) as [e|] eqn:Ei; [|done].
    destruct (spend_inputs ins (delete _ s)) as [[[ms1|] s2]|] eqn:Es; [|done|done]. intros [= <- <-]. constructor; [by eapply Hs|].
    eapply IHi; [|exact Es]. intros o e' [_ ?]%lookup_delete_Some. by eapply Hs. }
  destruct (is_coinbase tx); cbn [negb].
  - unfold mret, store_ret. destruct (create_outputs id h true 0 (outputs tx) v) as [[[ms1|] u1]|] eqn:Ec; [|done|done]. intros [= <- <-]. by eapply Hcreate.
  - destruct (spend_inputs (inputs tx) v) as [[[ms0|] u0]|] eqn:Es; [|done|done].
    destruct (create_outputs id h false 0 (outputs tx) u0) as [[[ms1|] u1]|] eqn:Ec; [|done|done]. intros [= <- <-]. apply Forall_app. split; [|by eapply Hcreate].
    eapply Hspend; [|exact Es]. intros o e Ho. by apply (Hv o e).
Qed.

Lemma commit_genesis_bootable ms u db :
  applied 0 (transactions genesis) ∅ ms u ->
  commit_genesis_atomic genesis (work_from_target (difficulty_target (header genesis))) ms empty_db = Ok db -> boot_ok [(genesis, ms)] u db.
Proof.
  intros Ha Hc. pose proof (commit_genesis_ok _ _ world _ _ _ _ Ha Hc) as Hdb. revert Hc. unfold commit_genesis_atomic.
  destruct (put_block_data genesis empty_db) as [db1|] eqn:E1; [|done]. match goal with |- context [apply_utxo_mutations ms ?x] => set (db3 := x) end.
  destruct (apply_utxo_mutations ms db3) as [db4|] eqn:E4; [|done]. intros E5.
  destruct (w_genesis _ _ world) as (Ug & _ & Hg & _). destruct (w_wf _ _ world _ Ug) as (_ & _ & Htx).
  assert (entries_wf ∅) as Hnil by by intros o e ?%lookup_empty_Some.
  destruct (applied_wf _ _ _ _ _ Ha ltac:(done) Htx Hnil) as [Hu _].
  assert (tables db3 UTXOS_TABLE = ∅) as Ht3.
  { destruct (index_txs_touches genesis (advance_walk_marker_in_txn (id_of genesis) (initialize_snapshot_marker_in_txn (id_of genesis)
      (table_insert META_TABLE TIP_KEY (id_of genesis) (table_insert WORK_TABLE (id_of genesis) (work_from_target (difficulty_target (header genesis)))
        (height_update <[height (header genesis) := id_of genesis]> db1)))))) as [_ T]. unfold db3. rewrite T by set_solver.
    destruct (put_block_data_touches _ _ _ E1) as [_ T1]. transitivity (tables db1 UTXOS_TABLE); [reflexivity|]. rewrite T1 by set_solver. reflexivity. }
  assert (mirror (snapshot_complete db) ∅ (tables db3 UTXOS_TABLE)) as Hm0 by (rewrite Ht3; apply mirror_empty).
  destruct (commit_tail _ _ _ _ _ _ _ _ Hm0 Hnil (applied_mutations_wf _ _ _ _ _ Ha Htx Hnil Hu ltac:(done)) (applied_mutated _ _ _ _ _ Ha) E4 E5) as [Hm Hmeta].
  split; [done|done|]. intros id. unfold get_walk_verified_tip, table_get. rewrite Hmeta.
  assert (tables db3 META_TABLE !! WALK_VERIFIED_TIP_KEY = Some (id_of genesis)) as ->.
  { unfold db3. match goal with |- context [index_txs genesis ?x] => destruct (index_txs_touches genesis x) as [_ T] end. rewrite T by set_solver. apply walk_marker_here. }
  intros ->%if_32_Some. by exists O, genesis, ms.
Qed.

Lemma commit_block_bootable l u b ms v w db db' :
  chain_log l u -> boot_ok l u db -> block_step U l u b ms v -> chain_log (l ++ [(b, ms)]) v -> chain_to (id_of b) (height (header b)) w ->
  commit_block_atomic b w (collect_spent_utxos ms) ms db = Ok db' -> boot_ok (l ++ [(b, ms)]) v db'.
Proof.
  intros Hl [Hdb Hm Hw0] Hs Hl' Hw Hc. pose proof (commit_block_ok _ _ world _ _ _ _ _ _ _ _ _ Hl Hdb Hl' Hw Hc) as Hdb'. revert Hc. unfold commit_block_atomic.
  destruct (put_block_data b db) as [db1|] eqn:E1; [|done]. destruct (serialize_spent_utxos (collect_spent_utxos ms)) as [data|]; [|done]. cbn [map_err].
  match goal with |- context [apply_utxo_mutations ms ?x] => set (db3 := x) end.
  destruct (apply_utxo_mutations ms db3) as [db4|] eqn:E4; [|done]. intros E5.
  destruct (w_wf _ _ world b) as (Hh & _ & Htx); [apply Hs|]. destruct (log_wf _ _ world _ _ Hl) as [Hu _]. destruct (log_wf _ _ world _ _ Hl') as [Hv _].
  pose proof (bs_applied _ _ _ _ _ _ Hs) as Ha. destruct (put_block_data_touches _ _ _ E1) as [_ T1].
  match goal with db3 := index_txs b (table_remove FORK_BLOCKS_TABLE _ (advance_walk_marker_in_txn _ (advance_snapshot_marker_in_txn _ ?x))) |- _ => set (db2 := x) in db3 end.
  destruct (index_txs_touches b (table_remove FORK_BLOCKS_TABLE (id_of b) (advance_walk_marker_in_txn (id_of b) (advance_snapshot_marker_in_txn (id_of b) db2)))) as [_ T3].
  change (index_txs b _) with db3 in T3.
  assert (tables db3 UTXOS_TABLE = tables db UTXOS_TABLE) as Ht3.
  { rewrite T3 by set_solver. change (tables (advance_walk_marker_in_txn (id_of b) (advance_snapshot_marker_in_txn (id_of b) db2)) UTXOS_TABLE = tables db UTXOS_TABLE).
    destruct (markers_touch (id_of b) db2) as [_ T2]. rewrite T2 by set_solver. transitivity (tables db1 UTXOS_TABLE); [reflexivity|]. apply T1. set_solver. }
  assert (tables db3 META_TABLE = tables (advance_walk_marker_in_txn (id_of b) (advance_snapshot_marker_in_txn (id_of b) db2)) META_TABLE) as Hmeta3 by (rewrite T3 by set_solver; done).
  assert (snapshot_complete db3 = snapshot_complete db) as Hc3.
  { unfold snapshot_complete, table_get. rewrite Hmeta3. change (snapshot_complete (advance_walk_marker_in_txn (id_of b) (advance_snapshot_marker_in_txn (id_of b) db2)) = snapshot_complete db).
    rewrite walk_marker_complete, snapshot_marker_complete. unfold snapshot_complete, db2. rewrite table_get_insert, decide_False by by intros [_ ?]. unfold table_get.
    match goal with |- bool_decide (tables ?x META_TABLE !! _ = _) = _ => change (tables x META_TABLE) with (tables db1 META_TABLE) end. by rewrite T1 by set_solver. }
  rewrite <- Ht3, <- Hc3 in Hm.
  destruct (commit_tail _ _ _ _ _ _ _ _ Hm Hu (applied_mutations_wf _ _ _ _ _ Ha Htx Hu Hv (proj1 (proj2 Hh))) (applied_mutated _ _ _ _ _ Ha) E4 E5) as [Hm' Hmeta].
  split; [done|unfold snapshot_complete, table_get in *; by rewrite Hmeta|]. intros id. unfold get_walk_verified_tip, table_get. rewrite Hmeta, Hmeta3.
  change (tables (advance_walk_marker_in_txn (id_of b) (advance_snapshot_marker_in_txn (id_of b) db2)) META_TABLE !! WALK_VERIFIED_TIP_KEY) with
    (table_get META_TABLE WALK_VERIFIED_TIP_KEY (advance_walk_marker_in_txn (id_of b) (advance_snapshot_marker_in_txn (id_of b) db2))).
  rewrite walk_marker_here. intros ->%if_32_Some. exists (length l), b, ms. by rewrite lookup_app_r, Nat.sub_diag.
Qed.
End Bootable.
