(* ===== verification/SnapshotReorg.v ===== *)
(** * The persisted UTXO snapshot follows a reorganisation

    [commit_reorg_atomic] takes the orphaned blocks out of [UTXOS_TABLE], the
    newest first, and then applies the mutation logs of the new blocks.  Taking a
    block out removes the rows of its outputs and puts back every entry of its
    undo metadata; this restores the set before the block when no output is
    created and spent in that same block ([apart]). *)

From S2P Require Import Prelude Bytes Codec Hash Transaction Block Wire U256 Difficulty Reward.
From S2P Require Import ScriptValue ScriptCodec Jets ScriptCost Eval FeeCost Smt Utxo TxValidation BlockValidation BlockApply Mempool.
From S2P Require Import Storage ChainManager StoreView ChainModel StorageFacts ChainStore SnapshotFacts.
#[local] Open Scope Z_scope.

(** ** What a mutation log says of the set before it *)

(** [ms] leads from [u] to [v], each mutation fitting the set it meets. *)
Inductive traced : utxo_map -> list UtxoMutation -> utxo_map -> Prop :=
| traced_nil u : traced u [] u
| traced_insert u o e ms v : u !! o = None -> traced (<[o := e]> u) ms v -> traced u (MInsert o e :: ms) v
| traced_remove u o e ms v : u !! o = Some e -> traced (delete o u) ms v -> traced u (MRemove o e :: ms) v.

(** No output is both created and spent. *)
Definition apart (ms : list UtxoMutation) : Prop := forall o e e', MInsert o e ∈ ms -> MRemove o e' ∉ ms.

Lemma traced_app u ms v ms' w : traced u ms v -> traced v ms' w -> traced u (ms ++ ms') w.
Proof. induction 1; intros Hw; [done|..]; constructor; auto. Qed.
Lemma spend_traced ins (u : utxo_map) ms u' : spend_inputs ins u = Some (Ok ms, u') -> traced u ms u'.
Proof.
  revert u ms. induction ins as [|i ins IH]; intros u ms; cbn [spend_inputs]; [intros [= <- <-]; constructor|].
  unfold mbind, store_bind, removing. cbn [store_remove spec_store]. destruct (u !! input_outpoint i) as [e|] eqn:E; [|done].
  destruct (spend_inputs ins (delete _ u)) as [[[ms1|] u1]|] eqn:Es; [|done|done]. intros [= <- <-]. constructor; [done|by apply IH].
Qed.
Lemma create_traced id h cb idx outs (u : utxo_map) ms u' :
  create_outputs id h cb idx outs u = Some (Ok ms, u') ->
  traced u ms u' /\ (forall o e, MInsert o e ∈ ms -> exists i, (idx <= i < idx + length outs)%nat /\ o = output_outpoint id i) /\
  (forall i, (idx <= i < idx + length outs)%nat -> exists e, MInsert (output_outpoint id i) e ∈ ms).
Proof.
  revert idx u ms. induction outs as [|out outs IH]; intros idx u ms; cbn [create_outputs length].
  { intros [= <- <-]. split; [constructor|]. split; [by intros o e ?%not_elem_of_nil|lia]. }
  unfold mbind, store_bind. cbn [store_insert spec_store]. unfold spec_insert at 1. destruct (u !! _) eqn:E; [done|]. destruct (TxOutput_serialize _); [|done].
  destruct (create_outputs id h cb (idx + 1) outs _) as [[[ms1|] u1]|] eqn:Ec; [|done|done]. intros [= <- <-].
  destruct (IH _ _ _ Ec) as (Ht & Hin & Hall). split_and!.
  - by constructor.
  - intros o e' [[= -> ->]|Ho]%elem_of_cons; [exists idx; split; [lia|done]|]. destruct (Hin _ _ Ho) as (i & ? & ->). exists i. split; [lia|done].
  - intros i Hi. destruct (decide (i = idx)) as [->|]; [eexists; left|]. destruct (Hall i) as [e' He']; [lia|]. exists e'. by right.
Qed.

Section Undo.
Context `{Sha2}.

Definition created (txs : list Transaction) (o : OutPoint) : Prop :=
  exists tx id i, tx ∈ txs /\ tx_id tx = Ok id /\ (i < length (outputs tx))%nat /\ o = output_outpoint id i.

Lemma apply_traced tx h (u : utxo_map) ms u' : apply_transaction tx h u = Some (Ok ms, u') ->
  traced u ms u' /\ forall o, (exists e, MInsert o e ∈ ms) <-> created [tx] o.
Proof.
  unfold apply_transaction, mbind, store_bind, of_result. destruct (tx_id tx) as [id|] eqn:Eid; [|done]. cbn [map_err].
  assert (forall (ms0 ms1 : list UtxoMutation) cb u0 u1, create_outputs id h cb 0 (outputs tx) u0 = Some (Ok ms1, u1) ->
    (forall o e, MInsert o e ∉ ms0) -> forall o, (exists e, MInsert o e ∈ ms0 ++ ms1) <-> created [tx] o) as Hout.
  { intros ms0 ms1 cb u0 u1 (_ & Hin & Hall)%create_traced Hno o. split.
    - intros (e & [?|Hm]%elem_of_app); [by destruct (Hno o e)|]. destruct (Hin _ _ Hm) as (i & Hi & ->). exists tx, id, i. split_and!; [set_solver|done|lia|done].
    - intros (tx' & id' & i & ->%list_elem_of_singleton & Hid & Hi & ->). destruct (Hall i) as [e He]; [lia|]. exists e. rewrite Eid in Hid. injection Hid as <-. set_solver. }
  destruct (is_coinbase tx); cbn [negb].
  - unfold mret, store_ret. destruct (create_outputs id h true 0 (outputs tx) u) as [[[ms1|] u1]|] eqn:Ec; [|done|done]. intros [= <- <-]. split; [by eapply create_traced|].
    apply (Hout [] _ _ _ _ Ec). by intros o e ?%not_elem_of_nil.
  - destruct (spend_inputs (inputs tx) u) as [[[ms0|] u0]|] eqn:Es; [|done|done].
    destruct (create_outputs id h false 0 (outputs tx) u0) as [[[ms1|] u1]|] eqn:Ec; [|done|done]. intros [= <- <-].
    split; [eapply traced_app; [by eapply spend_traced|by eapply create_traced]|]. apply (Hout _ _ _ _ _ Ec). clear -Es.
    revert u ms0 Es. induction (inputs tx) as [|i ins IH]; intros u ms0; cbn [spend_inputs]; [by intros [= <- <-] o e ?%not_elem_of_nil|].
    unfold mbind, store_bind, removing. cbn [store_remove spec_store]. destruct (u !! input_outpoint i) as [x|]; [|done].
    destruct (spend_inputs ins (delete _ u)) as [[[ms1|] v1]|] eqn:E; [|done|done]. intros [= <- <-] o e [?|?]%elem_of_cons; [done|]. by eapply (IH _ _ E).
Qed.
Lemma applied_traced h txs u ms v : applied h txs u ms v ->
  traced u ms v /\ forall o, (exists e, MInsert o e ∈ ms) <-> created txs o.
Proof.
  induction 1 as [u|txs u ms v tx m w _ [IH Hc] Ha].
  { split; [constructor|]. intros o. split; [by intros (e & ?%not_elem_of_nil)|by intros (? & ? & ? & ?%not_elem_of_nil & _)]. }
  apply apply_traced in Ha as [Ht Ho]. split; [by eapply traced_app|]. intros o. specialize (Hc o). specialize (Ho o). unfold created in *.
  setoid_rewrite elem_of_app. naive_solver.
Qed.

Lemma traced_before u ms v : traced u ms v -> apart ms ->
  (forall o e, MRemove o e ∈ ms -> u !! o = Some e) /\ (forall o e, MInsert o e ∈ ms -> u !! o = None) /\
  (forall o, (forall e, MInsert o e ∉ ms) -> (forall e, MRemove o e ∉ ms) -> u !! o = v !! o).
Proof.
  induction 1 as [u|u o e ms v Ho _ IH|u o e ms v Ho _ IH]; intros Ha.
  { split_and!; [by intros o e ?%not_elem_of_nil..|done]. }
  - destruct IH as (Hr & Hi & Hk); [intros o' ? ? ? ?; eapply (Ha o'); by right|]. split_and!.
    + intros o' e' [?|Hin]%elem_of_cons; [done|]. specialize (Hr _ _ Hin). rewrite lookup_insert_ne in Hr; [done|]. intros <-. eapply (Ha o); [left|by right].
    + intros o' e' [[= -> ->]|Hin]%elem_of_cons; [done|]. specialize (Hi _ _ Hin). destruct (decide (o = o')) as [<-|]; [done|]. by rewrite lookup_insert_ne in Hi.
    + intros o' H1 H2. rewrite <- Hk; [|set_solver..]. rewrite lookup_insert_ne; [done|]. intros <-. apply (H1 e). left.
  - destruct IH as (Hr & Hi & Hk); [intros o' ? ? ? ?; eapply (Ha o'); by right|]. split_and!.
    + intros o' e' [[= -> ->]|Hin]%elem_of_cons; [done|]. specialize (Hr _ _ Hin). by apply lookup_delete_Some in Hr as [_ ?].
    + intros o' e' [?|Hin]%elem_of_cons; [done|]. specialize (Hi _ _ Hin). rewrite lookup_delete_ne in Hi; [done|]. intros <-. eapply (Ha o); [by right|left].
    + intros o' H1 H2. rewrite <- Hk; [|set_solver..]. rewrite lookup_delete_ne; [done|]. intros <-. apply (H2 e). left.
Qed.

(** ** The undo as a mutation log *)

Definition blank : UtxoEntry :=
  {| output := {| value := 0; script := []; datum := None; datum_hash := None |}; entry_height := 0; entry_coinbase := false |}.
Definition output_points (tx : Transaction) : list OutPoint :=
  match tx_id tx with Ok id => map (output_outpoint id) (seq 0 (length (outputs tx))) | Err _ => [] end.
Definition undo_log (b : Block) (spent : list (OutPoint * UtxoEntry)) : list UtxoMutation :=
  map (fun o => MRemove o blank) (concat (map output_points (transactions b))) ++ map (fun oe => MInsert oe.1 oe.2) spent.

Lemma output_points_created txs o : o ∈ concat (map output_points txs) <-> created txs o.
Proof.
  rewrite list_elem_of_In, in_concat. unfold created, output_points. setoid_rewrite <- list_elem_of_In. setoid_rewrite list_elem_of_fmap. split.
  - intros (os & (tx & -> & Htx) & Ho). destruct (tx_id tx) as [id|] eqn:E; [|by apply not_elem_of_nil in Ho].
    apply list_elem_of_fmap in Ho as (i & -> & Hi%elem_of_seq). exists tx, id, i. split_and!; [done|done|lia|done].
  - intros (tx & id & i & Htx & Hid & Hi & ->). exists (output_points tx). unfold output_points. rewrite Hid. split; [exists tx; by rewrite Hid|].
    apply list_elem_of_fmap. exists i. split; [done|]. apply elem_of_seq. lia.
Qed.

Lemma for_txn_app {A} (f : A -> txn) xs ys db : for_txn f (xs ++ ys) db = (let? db := for_txn f xs db in for_txn f ys db).
Proof. revert db. induction xs as [|x xs IH]; intros db; [done|]. cbn [app for_txn]. destruct (f x db); [apply IH|done]. Qed.
Lemma for_txn_map {A B} (g : A -> B) (f : B -> txn) xs db : for_txn f (map g xs) db = for_txn (fun x => f (g x)) xs db.
Proof. revert db. induction xs as [|x xs IH]; intros db; [done|]. cbn [map for_txn]. destruct (f (g x) db); [apply IH|done]. Qed.
Lemma removals_txn os db :
  for_txn apply_utxo_mutation (map (fun o => MRemove o blank) os) db =
  Ok (fold_left (fun db o => table_remove UTXOS_TABLE (serialize_outpoint_key o) db) os db).
Proof. revert db. induction os as [|o os IH]; intros db; [done|]. cbn [map for_txn apply_utxo_mutation fold_left]. apply IH. Qed.
Lemma remove_output_rows_txn b db :
  for_txn apply_utxo_mutation (map (fun o => MRemove o blank) (concat (map output_points (transactions b)))) db = Ok (remove_output_rows b db).
Proof.
  rewrite removals_txn. f_equal. unfold remove_output_rows. revert db. induction (transactions b) as [|tx txs IH]; intros db; [done|].
  cbn [map concat fold_left]. rewrite fold_left_app, IH. f_equal. unfold output_points. destruct (tx_id tx) as [id|]; [|done].
  generalize (seq 0 (length (outputs tx))) as ids. intros ids. revert db. induction ids as [|i ids IHi]; intros db; [done|]. cbn [map fold_left]. apply IHi.
Qed.

Lemma undo_orphan_log b db data spent :
  table_get SPENT_UTXOS_TABLE (block_id (header b)) db = Some data -> deserialize_spent_utxos data = Some spent ->
  undo_orphan b db = apply_utxo_mutations (undo_log b spent) db.
Proof.
  intros Hg Hd. unfold undo_orphan, apply_utxo_mutations, undo_log. rewrite for_txn_app, remove_output_rows_txn, for_txn_map.
  assert (touches [UTXOS_TABLE] db (remove_output_rows b db)) as Ht.
  { apply touches_fold. intros db0 tx. destruct (tx_id tx); [|apply touches_refl]. apply touches_fold. intros. apply touches_remove. }
  rewrite (touches_get _ _ _ _ _ Ht) by set_solver. by rewrite Hg, Hd.
Qed.

(** On the set it restores what was there before the block. *)
Lemma removals_map os (v : utxo_map) o :
  fold_left mutated (map (fun o => MRemove o blank) os) v !! o = if decide (o ∈ os) then None else v !! o.
Proof.
  revert v. induction os as [|o' os IH]; intros v; cbn [map fold_left mutated]; [done|]. rewrite IH.
  destruct (decide (o ∈ os)), (decide (o ∈ o' :: os)) as [Hin|Hin]; try done; [set_solver| |by rewrite lookup_delete_ne by set_solver].
  apply elem_of_cons in Hin as [->|]; [|done]. apply lookup_delete_eq.
Qed.
Lemma insertions_map (u w : utxo_map) spent :
  (forall o e, (o, e) ∈ spent -> u !! o = Some e) -> (forall o, o ∉ spent.*1 -> w !! o = u !! o) ->
  fold_left mutated (map (fun oe => MInsert oe.1 oe.2) spent) w = u.
Proof.
  revert w. induction spent as [|[o e] spent IH]; intros w Hs Hw; cbn [map fold_left mutated fst snd].
  { apply map_eq. intros o. apply Hw. apply not_elem_of_nil. }
  apply IH; [intros; apply Hs; by right|]. intros o' Ho'. destruct (decide (o' = o)) as [->|Hne].
  - rewrite lookup_insert_eq. symmetry. apply Hs. left.
  - rewrite lookup_insert_ne by done. apply Hw. set_solver.
Qed.
Lemma elem_of_spent ms o e : (o, e) ∈ collect_spent_utxos ms <-> MRemove o e ∈ ms.
Proof.
  induction ms as [|m ms IH]; [set_solver|]. destruct m as [o' e'|o' e']; cbn [collect_spent_utxos omap list_omap];
    fold (collect_spent_utxos ms); rewrite ?elem_of_cons, IH; naive_solver.
Qed.
Lemma undo_restores b h u ms v : applied h (transactions b) u ms v -> apart ms -> fold_left mutated (undo_log b (collect_spent_utxos ms)) v = u.
Proof.
  intros Happ Ha. destruct (applied_traced _ _ _ _ _ Happ) as [Ht Hc]. destruct (traced_before _ _ _ Ht Ha) as (Hr & Hi & Hk).
  unfold undo_log. rewrite fold_left_app. apply insertions_map; [intros o e Hin; by apply Hr, elem_of_spent|].
  intros o Ho. rewrite removals_map. destruct (decide _) as [Hin|Hin].
  - apply output_points_created, Hc in Hin as [e He]. by rewrite (Hi _ _ He).
  - symmetry. apply Hk; [intros e He; apply Hin, output_points_created, Hc; eauto|].
    intros e He. apply Ho, list_elem_of_fmap. exists (o, e). split; [done|]. by apply elem_of_spent.
Qed.
End Undo.

(** ** The commit of a reorganisation *)

Section Reorg.
Context `{Sha2} `{!Sha2Width}.
Variables (U : Block -> Prop) (genesis : Block).
Hypothesis world : World U genesis.
Abbreviation id_of b := (block_id (header b)).
Abbreviation log := (list (Block * list UtxoMutation)).
Abbreviation chain_to := (chain_to U genesis).
Abbreviation chain_log := (chain_log U genesis).
Abbreviation db_ok := (db_ok U genesis).
Abbreviation boot_ok := (boot_ok U genesis).

Lemma undo_orphan_mirror full l u b ms v db db' data :
  chain_log l u -> block_step U l u b ms v -> entries_wf v -> apart ms ->
  table_get SPENT_UTXOS_TABLE (id_of b) db = Some data -> deserialize_spent_utxos data = Some (collect_spent_utxos ms) ->
  mirror full v (tables db UTXOS_TABLE) -> undo_orphan b db = Ok db' -> mirror full u (tables db' UTXOS_TABLE).
Proof.
  intros Hl Hs Hv Ha Hg Hd Hm. rewrite (undo_orphan_log _ _ _ _ Hg Hd). pose proof (bs_applied _ _ _ _ _ _ Hs) as Happ. intros Hx.
  rewrite <- (undo_restores b _ _ _ _ Happ Ha). eapply mirror_mutations; [exact Hm|intros o e Ho; by apply (Hv o e)| |exact Hx].
  destruct (log_wf _ _ world _ _ Hl) as [Hu _]. destruct (applied_traced _ _ _ _ _ Happ) as [Ht _]. destruct (traced_before _ _ _ Ht Ha) as (Hr & _ & _).
  apply Forall_app. split; apply Forall_fmap, Forall_forall.
  - intros o (tx & id & i & _ & Hid & _ & ->)%output_points_created. split; [by eapply tx_id_wf|].
    unfold in_u32, U32_MAX, output_outpoint. cbn [op_index]. pose proof (Z.mod_pos_bound (Z.of_nat i) (2 ^ 32) ltac:(done)). lia.
  - intros [o e] Hin%elem_of_spent. cbn. apply Hr in Hin. by apply (Hu o e).
Qed.

(** The undo metadata of the blocks above the fork are in the table. *)
Definition has_undo_data (lold : log) (db : ChainStorage) : Prop :=
  forall b ms, (b, ms) ∈ lold -> exists data, table_get SPENT_UTXOS_TABLE (id_of b) db = Some data /\ deserialize_spent_utxos data = Some (collect_spent_utxos ms).
Lemma undo_orphans_mirror full l1 lold : forall u db db',
  chain_log (l1 ++ lold) u -> l1 <> [] -> Forall (fun bm => apart bm.2) lold -> has_undo_data lold db ->
  mirror full u (tables db UTXOS_TABLE) -> for_txn undo_orphan (rev (map fst lold)) db = Ok db' ->
  exists u1, chain_log l1 u1 /\ mirror full u1 (tables db' UTXOS_TABLE).
Proof.
  induction lold as [|[b ms] lold IH] using rev_ind; intros u db db' Hl Hne Ha Hd Hm.
  { cbn. intros [= <-]. rewrite app_nil_r in Hl. by exists u. }
  rewrite map_app, rev_app_distr. cbn [map fst rev app for_txn]. destruct (undo_orphan b db) as [db1|] eqn:Eu; [|done]. intros Hx.
  apply Forall_app in Ha as [Ha Hb]. apply Forall_inv in Hb. cbn [snd] in Hb. rewrite app_assoc in Hl. destruct (log_wf _ _ world _ _ Hl) as [Hv _].
  destruct (log_snoc_inv _ _ _ _ _ _ Hl) as (u' & p & pms & Hl' & _ & _ & _ & Hs); [by destruct l1|].
  destruct (Hd b ms) as (data & Hg & Hds); [set_solver|]. eapply (IH u'); [done|done|done| |by eapply (undo_orphan_mirror full _ u' b ms u db db1 data)|exact Hx].
  intros b' ms' Hin. destruct (Hd b' ms') as (data' & Hg' & Hds'); [set_solver|]. exists data'. split; [|done].
  rewrite <- Hg'. eapply touches_get; [by eapply undo_orphan_touches|]. set_solver.
Qed.

Lemma new_mutations_mirror full lnew : forall l1 u1 v db db',
  chain_log (l1 ++ lnew) v -> chain_log l1 u1 -> mirror full u1 (tables db UTXOS_TABLE) ->
  for_txn (fun im => apply_utxo_mutations (snd im)) (map (fun bm : Block * list UtxoMutation => (id_of bm.1, bm.2)) lnew) db = Ok db' ->
  mirror full v (tables db' UTXOS_TABLE).
Proof.
  induction lnew as [|[b ms] lnew IH]; intros l1 u1 v db db' Hl H1 Hm; cbn [map for_txn snd fst].
  { intros [= <-]. rewrite app_nil_r in Hl. by destruct (log_fun _ _ _ _ _ _ H1 Hl eq_refl) as [_ <-]. }
  destruct (apply_utxo_mutations ms db) as [db1|] eqn:E; [|done]. rewrite cons_middle, app_assoc in Hl.
  destruct (log_prefix _ _ _ _ _ Hl) as [u2 H2]; [by destruct l1|]. destruct (log_snoc_inv _ _ _ _ _ _ H2) as (u1' & p & pms & H1' & _ & _ & _ & Hs); [by eapply log_nonempty|].
  destruct (log_fun _ _ _ _ _ _ H1 H1' eq_refl) as [_ <-]. eapply IH; [exact Hl|exact H2|]. pose proof (bs_applied _ _ _ _ _ _ Hs) as Happ.
  rewrite <- (applied_mutated _ _ _ _ _ Happ). destruct (log_wf _ _ world _ _ H1) as [Hu _]. destruct (log_wf _ _ world _ _ H2) as [Hv _].
  destruct (w_wf _ _ world b) as (Hh & _ & Htx); [apply Hs|].
  eapply mirror_mutations; [exact Hm|intros o e Ho; by apply (Hu o e)|by eapply applied_mutations_wf; [exact Happ| | | |apply Hh]|exact E].
Qed.

(** ** The parts of the transaction *)

Definition mid (ts : list Table) (db db' : ChainStorage) : Prop := forall t, t ∉ ts -> tables db' t = tables db t.
Lemma mid_refl ts db : mid ts db db.
Proof. done. Qed.
Lemma mid_trans ts db db1 db2 : mid ts db db1 -> mid ts db1 db2 -> mid ts db db2.
Proof. intros H1 H2 t Ht. by rewrite H2, H1. Qed.
Lemma mid_touches ts ts' db db' : touches ts db db' -> ts ⊆ ts' -> mid ts' db db'.
Proof. intros [_ Ht] Hs t Hn. apply Ht. set_solver. Qed.

Abbreviation put_spent :=
  (fun (ispent : Hash256 * list (OutPoint * UtxoEntry)) (db : ChainStorage) =>
     let? data := map_err SerializationError (serialize_spent_utxos (snd ispent)) in Ok (table_insert SPENT_UTXOS_TABLE (fst ispent) data db)).
Lemma put_spent_other new_spent k : forall db db', k ∉ map fst new_spent -> for_txn put_spent new_spent db = Ok db' ->
  table_get SPENT_UTXOS_TABLE k db' = table_get SPENT_UTXOS_TABLE k db.
Proof.
  induction new_spent as [|[id sp] new_spent IH]; intros db db' Hk; cbn [for_txn fst snd]; [by intros [= <-]|].
  destruct (serialize_spent_utxos sp) as [data|]; [|done]. cbn [map_err]. intros Hx. cbn [map fst] in Hk. rewrite (IH _ _ ltac:(set_solver) Hx), table_get_insert, decide_False; [done|].
  intros [_ E]. set_solver.
Qed.
Lemma put_spent_touches ispent db db' : put_spent ispent db = Ok db' -> touches [SPENT_UTXOS_TABLE] db db'.
Proof. cbv beta. destruct (serialize_spent_utxos _); [|done]. intros [= <-]. apply touches_insert. Qed.

(** The rows of the new chain. *)
Lemma reorg_head trigger w new_chain new_work new_spent db db1 db2 db5 :
  put_block_data trigger db = Ok db1 -> for_txn put_block_data new_chain db1 = Ok db2 ->
  for_txn put_spent new_spent
    (fold_left (fun db iw => table_insert WORK_TABLE (fst iw) (snd iw) db) new_work (table_insert WORK_TABLE (id_of trigger) w db2)) = Ok db5 ->
  mid [BLOCKS_TABLE; HEADERS_TABLE; WORK_TABLE; SPENT_UTXOS_TABLE] db db5 /\
  forall k, k ∉ map fst new_spent -> table_get SPENT_UTXOS_TABLE k db5 = table_get SPENT_UTXOS_TABLE k db.
Proof.
  intros E1%put_block_data_touches E2%(touches_for _ _ _ _ _ put_block_data_touches) E5.
  match type of E5 with for_txn _ _ ?x = _ => assert (mid [BLOCKS_TABLE; HEADERS_TABLE; WORK_TABLE] db x) as H4 end.
  { eapply mid_trans; [|eapply mid_touches; [apply (touches_fold [WORK_TABLE]); intros; apply touches_insert|set_solver]].
    eapply mid_trans; [|eapply mid_touches; [apply touches_insert|set_solver]]. eapply mid_trans; eapply mid_touches; [exact E1|set_solver|exact E2|set_solver]. }
  split.
  - eapply mid_trans; [intros t Ht; apply H4; set_solver|]. eapply mid_touches; [eapply touches_for; [apply put_spent_touches|exact E5]|set_solver].
  - intros k Hk. rewrite (put_spent_other _ _ _ _ Hk E5). unfold table_get. by rewrite H4 by set_solver.
Qed.

(** The indices and markers. *)
Definition relabel (trigger : Block) (new_heights : list (Z * Hash256)) (new_chain : list Block) (stale : option (Z * Z)) (tip : Hash256) (db : ChainStorage) : ChainStorage :=
  let db := fold_left (fun db h => unindex_height h db) (stale_heights stale new_heights) db in
  let db := fold_left (fun db hid => height_update <[fst hid := snd hid]> db) new_heights db in
  let db := fold_left (fun db h => height_update (delete h) db) (stale_range stale) db in
  let db := table_insert META_TABLE TIP_KEY tip db in
  let db := advance_snapshot_marker_in_txn tip db in
  let db := advance_walk_marker_in_txn tip db in
  let db := fold_left (fun db hid => table_remove FORK_BLOCKS_TABLE (snd hid) db) new_heights db in
  let db := table_remove FORK_BLOCKS_TABLE (id_of trigger) db in
  fold_left (fun db b => index_txs b db) new_chain (index_txs trigger db).
Lemma relabel_facts trigger hs chain stale tip db :
  mid [META_TABLE; FORK_BLOCKS_TABLE] db (relabel trigger hs chain stale tip db) /\
  snapshot_complete (relabel trigger hs chain stale tip db) = snapshot_complete db /\
  table_get META_TABLE WALK_VERIFIED_TIP_KEY (relabel trigger hs chain stale tip db) = Some tip.
Proof.
  unfold relabel. cbv zeta. rewrite (height_fold (fun hid => <[fst hid := snd hid]>)), (height_fold delete).
  set (dbu := fold_left (fun db h => unindex_height h db) _ db). assert (mid [] db dbu) as Hu by (eapply mid_touches; [apply (touches_fold []); intros; apply unindex_height_touches|done]).
  match goal with |- context [table_insert META_TABLE TIP_KEY tip ?x] => set (dbh := x) end. assert (mid [] dbu dbh) as Hh by done.
  set (dbt := table_insert META_TABLE TIP_KEY tip dbh). set (dbm := advance_walk_marker_in_txn tip _).
  match goal with |- mid _ _ ?x /\ _ => assert (mid [FORK_BLOCKS_TABLE] dbm x) as Hf end.
  { eapply mid_trans; [|eapply mid_touches; [apply (touches_fold []); intros; apply index_txs_touches|set_solver]].
    eapply mid_trans; [|eapply mid_touches; [apply index_txs_touches|set_solver]]. eapply mid_trans; [|eapply mid_touches; [apply touches_remove|set_solver]].
    eapply mid_touches; [apply (touches_fold [FORK_BLOCKS_TABLE]); intros; apply touches_remove|set_solver]. }
  match goal with |- mid _ _ ?x /\ _ => set (dbf := x) in * end.
  assert (tables dbf META_TABLE = tables dbm META_TABLE) as Hmeta by (apply Hf; set_solver). split_and!.
  - intros t Ht. rewrite Hf by set_solver. transitivity (tables dbt t); [apply markers_touch; set_solver|].
    transitivity (tables dbh t); [apply touches_insert; set_solver|]. by rewrite Hh, Hu by set_solver.
  - unfold snapshot_complete at 1, table_get. rewrite Hmeta. change (snapshot_complete dbm = snapshot_complete db). unfold dbm.
    rewrite walk_marker_complete, snapshot_marker_complete. unfold snapshot_complete, dbt. rewrite table_get_insert, decide_False by by intros [_ ?].
    unfold table_get. by rewrite Hh, Hu by set_solver.
  - unfold table_get. rewrite Hmeta. apply walk_marker_here.
Qed.

Lemma undo_data_stored l1 lold u db : chain_log (l1 ++ lold) u -> db_ok (l1 ++ lold) db -> l1 <> [] -> has_undo_data lold db.
Proof.
  intros Hl Hdb Hne b ms Hin. apply list_elem_of_lookup in Hin as [j Hj].
  assert ((l1 ++ lold) !! (length l1 + j)%nat = Some (b, ms)) as Hi by (by rewrite lookup_app_r, Nat.add_sub' by lia).
  destruct (proj2 (log_wf _ _ world _ _ Hl) _ _ _ Hi) as (data & Hs & Hd); [destruct l1; [done|cbn; lia]|]. exists data. split; [|done].
  apply (db_pinned _ _ _ _ Hdb). exists (length l1 + j)%nat, b, ms. split; [done|]. split; [done|]. split; [destruct l1; [done|cbn; lia]|done].
Qed.

(** The tables after the whole transaction. *)
Lemma commit_reorg_bootable l1 lold lnew u v b ms w new_work db db' :
  chain_log (l1 ++ lold) u -> boot_ok (l1 ++ lold) u db -> l1 <> [] -> chain_log (l1 ++ lnew) v -> last lnew = Some (b, ms) ->
  chain_to (id_of b) (height (header b)) w ->
  (forall k w, (k, w) ∈ new_work -> exists h, chain_to k h w) ->
  (forall b, b ∈ map fst lnew -> exists w, (id_of b, w) ∈ new_work) ->
  (forall x, x ∈ map fst lold -> x ∉ map fst lnew) -> Forall (fun bm => apart bm.2) lold ->
  commit_reorg_atomic b w (rev (map fst lold)) (map (fun bm => (id_of bm.1, collect_spent_utxos bm.2)) lnew) (map (fun bm => (id_of bm.1, bm.2)) lnew)
    (map (fun blk => (height (header blk), id_of blk)) (map fst lnew)) (map fst lnew) new_work
    (if height (header b) <? Z.of_nat (length (l1 ++ lold)) - 1 then Some (height (header b) + 1, Z.of_nat (length (l1 ++ lold)) - 1) else None)
    (id_of b) db = Ok db' ->
  boot_ok (l1 ++ lnew) v db'.
Proof.
  intros Hl [Hdb Hm _] Hne Hl' Hlast Hw Hnw Hcov Hdis Hap Hc.
  pose proof (commit_reorg_ok _ _ world _ _ _ _ _ _ _ _ _ _ _ _ _ Hl Hdb Hl' Hlast Hw Hnw Hcov Hc) as Hdb'. revert Hc. unfold commit_reorg_atomic.
  destruct (put_block_data b db) as [db1|] eqn:E1; [|done]. destruct (for_txn put_block_data (map fst lnew) db1) as [db2|] eqn:E2; [|done]. cbv zeta.
  match goal with |- context [for_txn put_spent ?sp ?x] => destruct (for_txn put_spent sp x) as [db5|] eqn:E5; [|done] end.
  destruct (reorg_head _ _ _ _ _ _ _ _ _ E1 E2 E5) as [Hhead Hspent].
  match goal with |- context [for_txn undo_orphan _ ?x] => match x with context [stale_heights ?stale ?hs] =>
    change x with (relabel b hs (map fst lnew) stale (id_of b) db5); destruct (relabel_facts b hs (map fst lnew) stale (id_of b) db5) as (Hmid & Hcomp & Hwalk); set (db6 := relabel b hs _ stale _ db5) in * end end.
  destruct (for_txn undo_orphan _ db6) as [db7|] eqn:E7; [|done].
  match goal with |- context [for_txn (fun im => apply_utxo_mutations (snd im)) _ ?x] => set (db8 := x); destruct (for_txn (fun im => apply_utxo_mutations (snd im)) _ db8) as [db9|] eqn:E9; [|done] end.
  destruct (apply_spent_by_for_block b db9) as [db10|] eqn:E10; [|done]. intros E11.
  assert (snapshot_complete db6 = snapshot_complete db) as Hc6.
  { rewrite Hcomp. unfold snapshot_complete, table_get. by rewrite Hhead by set_solver. }
  assert (tables db6 UTXOS_TABLE = tables db UTXOS_TABLE) as Hu6 by by rewrite Hmid, Hhead by set_solver.
  assert (has_undo_data lold db6) as Hund.
  { intros b' ms' Hin. destruct (undo_data_stored _ _ _ _ Hl Hdb Hne b' ms' Hin) as (data & Hg & Hd). exists data. split; [|done]. rewrite <- Hg.
    unfold table_get. rewrite Hmid by set_solver. apply Hspent. rewrite map_map. cbn [fst]. intros (x & Hid & Hx)%list_elem_of_fmap.
    apply (Hdis b'); [apply list_elem_of_fmap; by exists (b', ms')|]. apply list_elem_of_fmap. exists x. split; [|done].
    destruct (log_blocks _ _ world _ _ b' ms' Hl) as (? & ? & _); [set_solver|]. destruct x as [x xms]. destruct (log_blocks _ _ world _ _ x xms Hl') as (? & ? & _); [set_solver|].
    by apply (w_ids _ _ world). }
  destruct (undo_orphans_mirror (snapshot_complete db) l1 lold u db6 db7 Hl Hne Hap Hund ltac:(by rewrite Hu6) E7) as (u1 & Hl1 & Hm7).
  assert (mid [SPENT_BY_TABLE] db7 db8) as H78 by (eapply mid_touches; [apply (touches_fold [SPENT_BY_TABLE]); intros; apply revert_touches|set_solver]).
  assert (mid [SPENT_BY_TABLE] db9 db') as H9.
  { eapply mid_trans; [eapply mid_touches; [by eapply spent_by_touches|set_solver]|]. eapply mid_touches; [eapply touches_for; [apply spent_by_touches|exact E11]|set_solver]. }
  rewrite <- (H78 UTXOS_TABLE) in Hm7 by set_solver. pose proof (new_mutations_mirror _ _ _ _ _ _ _ Hl' Hl1 Hm7 E9) as Hm9. rewrite <- (H9 UTXOS_TABLE) in Hm9 by set_solver.
  assert (tables db' META_TABLE = tables db6 META_TABLE) as Hmeta.
  { rewrite H9 by set_solver. transitivity (tables db8 META_TABLE); [|rewrite H78 by set_solver].
    - eapply (touches_for [UTXOS_TABLE]); [|exact E9|set_solver]. intros x d d'. apply mutations_touches.
    - eapply (touches_for [UTXOS_TABLE]); [apply undo_orphan_touches|exact E7|set_solver]. }
  split; [done|unfold snapshot_complete, table_get in *; by rewrite Hmeta, Hc6|]. intros id. unfold get_walk_verified_tip, table_get in *. rewrite Hmeta, Hwalk.
  intros ->%if_32_Some. exists (pred (length (l1 ++ lnew))), b, ms. rewrite <- last_lookup, last_app, Hlast. done.
Qed.
End Reorg.
