(* ===== verification/ChainOpen.v ===== *)
(** * Opening the chain at start-up ([src/chain/open.rs])

    [replay_chain] validates and applies every block of the stored chain from
    genesis; [open_chain] loads the persisted UTXO snapshot instead when its
    marker is current, after walking the part of the chain that no marker vouches
    for, and compares the root of what it loaded with the tip's header.

    An operation of type [boot] works on the database and the UTXO set and
    returns a result and both; [None] is a panic of the set.  [io] says for every
    call of the storage whether the database engine reports an error there; the
    calls of the replay that [open_chain] falls back to are its own. *)

From Stdlib Require Import Strings.String.
From S2P Require Import Prelude Bytes Codec Hash Transaction Block Wire U256 Difficulty Reward.
From S2P Require Import ScriptValue ScriptCodec Jets ScriptCost Eval FeeCost Smt Utxo TxValidation BlockValidation Mempool Storage ChainManager.
#[local] Open Scope Z_scope.
#[local] Open Scope list_scope.

(** The places where the storage is called. *)
Inductive boot_call :=
| BootTip | BootIndexEmpty | BootBlocksEmpty | BootCommitGenesis | BootTipHeader | BootCheckpoint
| BootHeight (h : Z) | BootBlock (h : Z) | BootParent (h : Z) | BootTimestamps (h : Z) | BootDifficulty (id : Hash256)
| BootGenesisId | BootSnapshotTip | BootMarker | BootTipWork | BootMarkerHeader | BootMarkerWork
| BootUtxos | BootStamp | BootFinalize.
Record BootEnv := { open_io : boot_call -> bool; replay_io : boot_call -> bool }.

(** What the text of an error says. *)
Inductive BootError :=
| BootStorage (c : boot_call) (e : StorageError)
| IndexWithoutTip | BlocksWithoutTip
| OtherGenesisExpected (canonical : Hash256)
| GenesisTxFailed (e : StateError)
| TipHeaderMissing (id : Hash256)
| GenesisMismatch (stored : Hash256)
| HeightMissing (h : Z)
| ForeignGenesis (id : Hash256)
| BlockMissing (id : Hash256) (h : Z)
| LinkageBroken (h : Z)
| ParentHeaderMissing (h : Z)
| BootDifficultyFailed (h : Z) (e : DifficultyError)
| HeaderRejected (h : Z) (e : ValidationError)
| CheckpointFailed (got : Hash256)
| BlockRejected (h : Z) (e : ValidationError)
| RootMismatch (h : Z)
| LastBlockNotTip (id : Hash256)
| SeedFailed (e : StateError)
| SnapshotRootMismatch.

(** The entries of a store, in the order in which it is walked. *)
Class UtxoEntries (S : Type) := store_entries : S -> list (OutPoint * UtxoEntry).
#[export] Instance UtxoSet_entries `{StateTree} : UtxoEntries UtxoSet := fun s => map_to_list (utxos s).

Section Open.
Context {S : Type} `{UtxoStore S} `{!UtxoGet S} `{!UtxoRoot S} `{!UtxoEntries S}.
Context `{Sha2} `{Ed25519} `{Layout} `{Argon2}.
Variable signature_domain : Hash256.
Variable coinbase_maturity : Z.
(** [genesis_block()] *)
Variable canonical_genesis : Block.

Definition boot (A : Type) : Type := ChainStorage * S -> option (result BootError A * (ChainStorage * S)).
#[export] Instance boot_ret : MRet boot := fun A a st => Some (Ok a, st).
#[export] Instance boot_bind : MBind boot := fun A B f c st =>
  match c st with
  | Some (Ok a, st) => f a st
  | Some (Err e, st) => Some (Err e, st)
  | None => None
  end.
Definition stop {A} (e : BootError) : boot A := fun st => Some (Err e, st).
Definition query {A} (io : boot_call -> bool) (c : boot_call) (f : ChainStorage -> A) : boot A := fun st =>
  if io c then Some (Err (BootStorage c DbError), st) else Some (Ok (f (fst st)), st).
(** A read that can also find the data corrupted. *)
Definition query_res {A} (io : boot_call -> bool) (c : boot_call) (f : ChainStorage -> result StorageError A) : boot A := fun st =>
  if io c then Some (Err (BootStorage c DbError), st)
  else Some (map_err (BootStorage c) (f (fst st)), st).
(** A value computed from the database. *)
Definition look {A} (f : ChainStorage -> result BootError A) : boot A := fun st => Some (f (fst st), st).
Definition put (io : boot_call -> bool) (c : boot_call) (body : txn) : boot unit := fun st =>
  match write_txn (io c) body (fst st) with
  | (Ok _, db) => Some (Ok tt, (db, snd st))
  | (Err e, db) => Some (Err (BootStorage c e), (db, snd st))
  end.
Definition require {A} (o : option A) (e : BootError) : boot A := match o with Some a => mret a | None => stop e end.
Definition ensure (c : bool) (e : BootError) : boot unit := if c then mret tt else stop e.
Definition on_set {E A} (c : S -> option (result E A * S)) (f : E -> BootError) : boot A := fun st =>
  match c (snd st) with
  | Some (r, s) => Some (map_err f r, (fst st, s))
  | None => None
  end.
Definition set_root : boot Hash256 := fun st => Some (Ok (store_root (snd st)), st).
(** [for x in xs { acc = f(x, acc)? }] *)
Fixpoint for_each {A B} (f : A -> B -> boot B) (xs : list A) (acc : B) : boot B :=
  match xs with [] => mret acc | x :: xs => acc ← f x acc; for_each f xs acc end.

(** ** Checks shared by the two walks *)

Definition boot_headers (io : boot_call -> bool) (db : ChainStorage) : header_source := fun id =>
  if io (BootDifficulty id) then Err (DOther "storage error") else Ok (get_header id db).
(** The header rules with their inputs read from the database; [reported] is the
    height in the message of a rejection. *)
Definition header_rules (io : boot_call -> bool) (skip_pow : bool) (at_height reported : Z) (b : Block) : boot unit :=
  let prev := prev_block_id (header b) in
  parent ← query io (BootParent at_height) (get_header prev);
  parent ← require parent (ParentHeaderMissing at_height);
  ts ← query io (BootTimestamps at_height) (get_ancestor_timestamps prev MTP_WINDOW);
  target ← look (fun db => map_err (BootDifficultyFailed at_height) (expected_difficulty (boot_headers io db) prev (height (header b))));
  look (fun _ => map_err (HeaderRejected reported)
    (if skip_pow then validate_block_header_skip_pow b (Some parent) ts target None
     else validate_block_header b (Some parent) ts target None)).
(** The block that the index names at a height, linked to the one before. *)
Definition indexed_block (io : boot_call -> bool) (expected_genesis_id prev_id : Hash256) (h : Z) : boot (Hash256 * Block) :=
  id ← query io (BootHeight h) (get_block_id_by_height h);
  id ← require id (HeightMissing h);
  _ ← ensure (negb ((h =? 0) && negb (bool_decide (id = expected_genesis_id)))) (ForeignGenesis id);
  b ← query_res io (BootBlock h) (get_block id);
  b ← require b (BlockMissing id h);
  _ ← ensure (bool_decide (prev_block_id (header b) = prev_id)) (LinkageBroken h);
  mret (id, b).
Definition more_work (w : bytes) (b : Block) : bytes := add_work w (work_from_target (difficulty_target (header b))).

(** ** Replay *)

(** One round: the identifier of the last block and the work so far. *)
Definition replay_block (io : boot_call -> bool) (expected_genesis_id : Hash256) (proven : bool) (h : Z) (acc : Hash256 * bytes)
  : boot (Hash256 * bytes) :=
  '(id, b) ← indexed_block io expected_genesis_id (fst acc) h;
  let skip := proven && (h <=? ASSUME_VALID_HEIGHT) in
  _ ← (if 0 <? height (header b) then
         _ ← header_rules io skip h (height (header b)) b;
         ensure (negb (proven && (h =? ASSUME_VALID_HEIGHT) && negb (bool_decide (block_id (header b) = ASSUME_VALID_HASH))))
           (CheckpointFailed (block_id (header b)))
       else mret tt);
  _ ← on_set (if skip then apply_block_transactions_assume_valid b
              else validate_and_apply_block_transactions_atomic signature_domain coinbase_maturity b)
        (BlockRejected (height (header b)));
  root ← set_root;
  _ ← ensure (bool_decide (root = Block.state_root (header b))) (RootMismatch (height (header b)));
  mret (id, more_work (snd acc) b).

(** The transactions of genesis, and their mutations. *)
Fixpoint apply_genesis (txs : list Transaction) (ms : list UtxoMutation) : boot (list UtxoMutation) :=
  match txs with
  | [] => mret ms
  | tx :: txs => m ← on_set (apply_transaction tx 0) GenesisTxFailed; apply_genesis txs (ms ++ m)
  end.
(** An empty database gets the canonical genesis. *)
Definition bootstrap (io : boot_call -> bool) (expected_genesis_id : Hash256) : boot ChainTip :=
  empty ← query io BootIndexEmpty height_index_is_empty;
  _ ← ensure empty IndexWithoutTip;
  empty ← query io BootBlocksEmpty blocks_table_is_empty;
  _ ← ensure empty BlocksWithoutTip;
  let gid := block_id (header canonical_genesis) in
  _ ← ensure (bool_decide (gid = expected_genesis_id)) (OtherGenesisExpected gid);
  ms ← apply_genesis (transactions canonical_genesis) [];
  let target := difficulty_target (header canonical_genesis) in
  _ ← put io BootCommitGenesis (commit_genesis_atomic canonical_genesis (work_from_target target) ms);
  mret (ChainTip_genesis gid target).

Definition replay_chain (io : boot_call -> bool) (expected_genesis_id : Hash256) (assume_valid : bool) : boot ChainTip :=
  tip ← query io BootTip get_tip;
  match tip with
  | None => bootstrap io expected_genesis_id
  | Some tip_id =>
      hd ← query io BootTipHeader (get_header tip_id);
      hd ← require hd (TipHeaderMissing tip_id);
      let tip_height := height hd in
      proven ← (if assume_valid && (ASSUME_VALID_HEIGHT <=? tip_height)
                then query io BootCheckpoint (fun db => bool_decide (get_block_id_by_height ASSUME_VALID_HEIGHT db = Some ASSUME_VALID_HASH))
                else mret false);
      '(prev_id, work) ← for_each (replay_block io expected_genesis_id proven) (seqZ 0 (tip_height + 1)) (Hash256_ZERO, replicate 32 x00);
      _ ← ensure (bool_decide (prev_id = tip_id)) (LastBlockNotTip prev_id);
      mret {| tip_block_id := tip_id; tip_height := tip_height; cumulative_work := work |}
  end.

(** The rows of the set and the markers. *)
Definition backfill_snapshot (io : boot_call -> bool) (tip_id : Hash256) : boot unit := fun st =>
  put io BootFinalize (finalize_utxo_snapshot (store_entries (snd st)) tip_id) st.
Definition run_replay_and_maybe_migrate (io : boot_call -> bool) (expected_genesis_id : Hash256) (assume_valid auto_migrate : bool) : boot ChainTip :=
  tip ← replay_chain io expected_genesis_id assume_valid;
  _ ← (if auto_migrate : bool then backfill_snapshot io (tip_block_id tip) else mret tt);
  mret tip.

(** ** Opening from the snapshot *)

(** One round of the structural walk. *)
Definition walk_block (io : boot_call -> bool) (expected_genesis_id : Hash256) (proven : bool) (h : Z) (acc : Hash256 * bytes)
  : boot (Hash256 * bytes) :=
  '(id, b) ← indexed_block io expected_genesis_id (fst acc) h;
  _ ← (if 0 <? h then header_rules io (proven && (h <=? ASSUME_VALID_HEIGHT)) h h b else mret tt);
  mret (id, more_work (snd acc) b).

(** Where the walk starts: the height, the block before it and its work. *)
Definition walk_start (io : boot_call -> bool) (trust_walk_marker : bool) (tip_id : Hash256) (tip_height : Z) : boot (Z * Hash256 * bytes) :=
  let full := (0, Hash256_ZERO, replicate 32 x00) in
  marker ← (if trust_walk_marker : bool then query io BootMarker get_walk_verified_tip else mret None);
  match marker with
  | None => mret full
  | Some id =>
      if decide (id = tip_id) then
        work ← query io BootTipWork (get_cumulative_work tip_id);
        mret (match work with Some w => (tip_height + 1, tip_id, w) | None => full end)
      else
        hd ← query io BootMarkerHeader (get_header id);
        work ← query io BootMarkerWork (get_cumulative_work id);
        mret (match hd, work with
              | Some hd, Some w => if height hd <=? tip_height then (height hd + 1, id, w) else full
              | _, _ => full
              end)
  end.

(** The rows of the snapshot go into the set. *)
Fixpoint seed (rows : list (OutPoint * UtxoEntry)) : boot unit :=
  match rows with
  | [] => mret tt
  | (op, e) :: rows => _ ← on_set (store_insert op e) SeedFailed; seed rows
  end.

(** The snapshot is current. *)
Definition open_snapshot (io : boot_call -> bool) (expected_genesis_id : Hash256) (assume_valid trust_walk_marker : bool) (tip_id : Hash256)
  : boot ChainTip :=
  hd ← query io BootTipHeader (get_header tip_id);
  hd ← require hd (TipHeaderMissing tip_id);
  let tip_height := height hd in
  proven ← look (fun db => Ok (assume_valid && (ASSUME_VALID_HEIGHT <=? tip_height) && negb (io BootCheckpoint) &&
                                bool_decide (get_block_id_by_height ASSUME_VALID_HEIGHT db = Some ASSUME_VALID_HASH)));
  '(from, prev_id, work) ← walk_start io trust_walk_marker tip_id tip_height;
  '(prev_id, work) ← for_each (walk_block io expected_genesis_id proven) (seqZ from (tip_height + 1 - from)) (prev_id, work);
  _ ← ensure (bool_decide (prev_id = tip_id)) (LastBlockNotTip prev_id);
  rows ← query_res io BootUtxos iter_utxos;
  _ ← seed rows;
  root ← set_root;
  _ ← ensure (bool_decide (root = Block.state_root hd)) SnapshotRootMismatch;
  _ ← (if from <=? tip_height then put io BootStamp (set_walk_verified_tip tip_id) else mret tt);
  mret {| tip_block_id := tip_id; tip_height := tip_height; cumulative_work := work |}.

Definition open_chain (env : BootEnv) (expected_genesis_id : Hash256) (assume_valid auto_migrate trust_walk_marker : bool) : boot ChainTip :=
  let io := open_io env in
  let rebuild := run_replay_and_maybe_migrate (replay_io env) expected_genesis_id assume_valid auto_migrate in
  tip ← query io BootTip get_tip;
  match tip with
  | None => replay_chain (replay_io env) expected_genesis_id assume_valid
  | Some tip_id =>
      stored ← query io BootGenesisId (get_block_id_by_height 0);
      match stored with
      | None => rebuild
      | Some stored =>
          if decide (stored <> expected_genesis_id) then stop (GenesisMismatch stored)
          else
            snapshot_tip ← query io BootSnapshotTip get_utxo_snapshot_tip;
            if decide (snapshot_tip = Some tip_id) then open_snapshot io expected_genesis_id assume_valid trust_walk_marker tip_id
            else rebuild
      end
  end.
End Open.
