(* ===== verification/ChainBoot.v ===== *)
(** * Start-up restores the chain

    On a database that holds a chain ([boot_ok]) opening it returns the tip of
    that chain, with its work, and leaves the chain's UTXO set in memory, from the
    snapshot or by replay; an error has one of a few causes ([cause]): an error of
    the database engine, or a block of the chain that breaks a rule.  On an
    arbitrary database nothing is returned that contradicts the expected genesis,
    the stored tip or the state root in the tip's header. *)

From S2P Require Import Prelude Bytes Codec Hash Transaction Block Wire U256 Difficulty Reward.
From S2P Require Import ScriptValue ScriptCodec Jets ScriptCost Eval FeeCost Smt Utxo TxValidation BlockValidation BlockApply Mempool.
From S2P Require Import Storage ChainManager StoreView ChainModel StorageFacts ChainStore ChainState SnapshotFacts SnapshotReorg ChainOpen.
#[local] Open Scope Z_scope.

(** ** Applying without validation *)

Section Trusted.
Context {lost : Prop} {S : Type} `{StoreView lost S} `{Sha2} `{Ed25519} `{Layout}.
Variable signature_domain : Hash256.
Variable coinbase_maturity : Z.

Lemma follows_trusted b txs p : follows (apply_trusted (S := S) b txs p) (apply_trusted b txs p).
Proof.
  revert p. induction txs as [|tx txs IH]; intros p s; cbn [apply_trusted]; [done|]. rewrite view_get.
  destruct (snapshot_all _ _ _ _ _) as [[[spent bytes] sum]|[f spent]]; [|apply follows_rolled_back, follows_undo_in_order].
  cbv zeta. destruct (checked_sub _ _ _) as [fee|]; [|apply follows_rolled_back, follows_undo_in_order].
  pose proof (follows_apply tx (height (header b)) s) as Ha. destruct (apply_transaction tx _ s) as [[[m|e] s1]|]; [| |done]; rewrite Ha.
  - apply IH.
  - apply follows_apply_failed, follows_undo_in_order.
Qed.
Lemma follows_assume_valid b : transactions b <> [] ->
  follows (apply_block_transactions_assume_valid (S := S) b) (apply_block_transactions_assume_valid b).
Proof.
  intros Hne s. unfold apply_block_transactions_assume_valid. destruct (transactions b) as [|coinbase txs]; [done|].
  pose proof (follows_coinbase b coinbase s) as Hc. destruct (apply_coinbase b coinbase s) as [[[p|e] s1]|]; [| |done]; rewrite Hc; [|done].
  pose proof (follows_trusted b txs p s1) as Hv. destruct (apply_trusted b txs p s1) as [[[p2|e] s2]|]; [| |done]; rewrite Hv; [|done].
  destruct (_ <? _); [apply follows_rolled_back, follows_undo_in_order|done].
Qed.
End Trusted.

Section Applications.
Context `{Sha2} `{Ed25519} `{Layout}.
Variable signature_domain : Hash256.
Variable coinbase_maturity : Z.

Lemma applied_cons h tx txs (u : utxo_map) m v ms w :
  apply_transaction tx h u = Some (Ok m, v) -> applied h txs v ms w -> applied h (tx :: txs) u (m ++ ms) w.
Proof.
  intros Ha Hs. induction Hs as [v|txs v ms w tx' m' w' Hs IH Ha'].
  - rewrite app_nil_r. apply (applied_snoc h [] u [] u tx m v); [constructor|done].
  - rewrite app_assoc. eapply (applied_snoc h (tx :: txs)); [by apply IH|done].
Qed.
Lemma trusted_applied b p' (v' : utxo_map) txs : forall p v, apply_trusted b txs p v = Some (Ok p', v') ->
  exists ms, applied (height (header b)) txs v ms v'.
Proof.
  induction txs as [|tx txs IH]; intros p v; cbn [apply_trusted]; [intros [= _ <-]; eexists; constructor|].
  destruct (snapshot_all _ _ _ _ _) as [[[spent bytes] sum]|[f spent]]; [|by intros ?%rolled_back_Ok]. cbv zeta.
  destruct (checked_sub _ _ _) as [fee|]; [|by intros ?%rolled_back_Ok].
  destruct (apply_transaction tx _ v) as [[[m|e] v1]|] eqn:Ha; [| |done].
  - intros [ms Hms]%IH. eexists. by eapply applied_cons.
  - unfold apply_failed. destruct (undo_partial_transaction _ _ _) as [[[[]|] ?]|]; [by intros ?%rolled_back_Ok|done|done].
Qed.
Lemma coinbase_applied b coinbase p (v v' : utxo_map) : apply_coinbase b coinbase v = Some (Ok p, v') ->
  exists m, apply_transaction coinbase (height (header b)) v = Some (Ok m, v').
Proof.
  unfold apply_coinbase. destruct (apply_transaction coinbase _ v) as [[[m|e] v1]|]; [intros [= _ <-]; eauto| |done]. by intros ?%rolled_back_Ok.
Qed.
(** Whichever way a block is applied, its transactions are applied in order. *)
Lemma application_applied b (v v' : utxo_map) r (skip : bool) :
  (if skip then apply_block_transactions_assume_valid b else validate_and_apply_block_transactions_atomic signature_domain coinbase_maturity b) v = Some (Ok r, v') ->
  exists ms, applied (height (header b)) (transactions b) v ms v'.
Proof.
  destruct skip.
  - unfold apply_block_transactions_assume_valid. destruct (transactions b) as [|coinbase txs]; [done|].
    destruct (apply_coinbase b coinbase v) as [[[p|e] v1]|] eqn:Ec; [|done|done]. destruct (apply_trusted b txs p v1) as [[[p2|e] v2]|] eqn:Et; [|done|done].
    destruct (_ <? _); [by intros ?%rolled_back_Ok|]. intros [= _ <-]. apply coinbase_applied in Ec as [m Hm]. apply trusted_applied in Et as [ms Hms].
    eexists. by eapply applied_cons.
  - destruct r as [fees ms]. intros (coinbase & others & m & v1 & p & -> & Hm & Hrun & _)%atomic_Ok.
    assert (exists ms, applied (height (header b)) others v1 ms v') as [ms' Hms'].
    { pattern others, {| applied_count := 1; total_fees := 0; spent_utxos := []; spent_utxos_bytes := 0; mutations := m |}, v1.
      revert Hrun. generalize {| applied_count := 1; total_fees := 0; spent_utxos := []; spent_utxos_bytes := 0; mutations := m |} as p0. clear Hm. revert others v1.
      intros others v1 p0. revert others p0 v1. apply apply_validated_ind; cbv beta; [eexists; constructor|].
      intros tx rest p1 s0 fee sc svc spent bytes m1 s2 _ _ Ha [ms1 IH]. eexists. by eapply applied_cons. }
    eexists. by eapply applied_cons.
Qed.
End Applications.

(** ** Reading the chain *)

Section Boot.
Context {lost : Prop} {S : Type} `{StoreView lost S} `{!UtxoRoot S} `{!UtxoEntries S}.
Context `{Sha2} `{!Sha2Width} `{Ed25519} `{Layout} `{Argon2}.
Variable signature_domain : Hash256.
Variable coinbase_maturity : Z.
Variables (U : Block -> Prop) (genesis : Block).
Hypothesis world : World U genesis.
Hypothesis genesis_first : prev_block_id (header genesis) = Hash256_ZERO.
Hypothesis entries_of_view : forall s : S, store_entries s ≡ₚ map_to_list (view s).
Abbreviation id_of b := (block_id (header b)).
Abbreviation log := (list (Block * list UtxoMutation)).
Abbreviation chain_to := (chain_to U genesis).
Abbreviation chain_log := (chain_log U genesis).
Abbreviation db_ok := (db_ok U genesis).
Abbreviation boot_ok := (boot_ok U genesis).
Abbreviation state := (prod ChainStorage S).

Definition bwp {A} (c : @boot S A) (st : state) (Q : result BootError A -> state -> Prop) : Prop :=
  match c st with Some (r, st') => Q r st' | None => lost end.
Lemma bwp_mono {A} (c : @boot S A) st (Q Q' : result BootError A -> state -> Prop) : bwp c st Q -> (forall r st', Q r st' -> Q' r st') -> bwp c st Q'.
Proof. unfold bwp. destruct (c st) as [[r st']|]; auto. Qed.
Lemma bwp_bind {A B} (c : @boot S A) (f : A -> @boot S B) st Q :
  bwp c st (fun r st' => match r with Ok a => bwp (f a) st' Q | Err e => Q (Err e) st' end) -> bwp (c ≫= f) st Q.
Proof. unfold bwp, mbind, boot_bind. by destruct (c st) as [[[a|e] st']|]. Qed.
Lemma bwp_query {A} io c (f : ChainStorage -> A) st Q :
  (io c = true -> Q (Err (BootStorage c DbError)) st) -> (io c = false -> Q (Ok (f (fst st))) st) -> bwp (query io c f) st Q.
Proof. unfold bwp, query. destruct (io c); auto. Qed.
Lemma bwp_query_res {A} io c (f : ChainStorage -> result StorageError A) st Q :
  (io c = true -> Q (Err (BootStorage c DbError)) st) -> Q (map_err (BootStorage c) (f (fst st))) st -> bwp (query_res io c f) st Q.
Proof. unfold bwp, query_res. destruct (io c); auto. Qed.
Lemma bwp_put io c body st Q :
  (io c = true -> Q (Err (BootStorage c DbError)) st) ->
  match body (fst st) with Ok db => Q (Ok tt) (db, snd st) | Err e => Q (Err (BootStorage c e)) st end -> bwp (put io c body) st Q.
Proof. unfold bwp, put, write_txn. destruct st as [db s]. destruct (io c); [auto|]. cbn [fst snd]. by destruct (body db). Qed.
Lemma bwp_require {A} (o : option A) e st Q : match o with Some a => Q (Ok a) st | None => Q (Err e) st end -> bwp (require o e) st Q.
Proof. by destruct o. Qed.
Lemma bwp_ensure (b : bool) e st Q : (b = true -> Q (Ok tt) st) -> (b = false -> Q (Err e) st) -> bwp (ensure b e) st Q.
Proof. destruct b; intros Hyes Hno; [by apply Hyes|by apply Hno]. Qed.
Lemma bwp_set {E A} (c1 : S -> option (result E A * S)) c2 f st Q :
  follows c1 c2 -> (forall r s, c1 (snd st) = Some (r, s) -> c2 (view (snd st)) = Some (r, view s) -> Q (map_err f r) (fst st, s)) -> bwp (on_set c1 f) st Q.
Proof.
  intros Hf HQ. unfold bwp, on_set. specialize (Hf (snd st)). destruct (c1 (snd st)) as [[r s]|] eqn:Hc1; [by apply HQ|done].
Qed.
Lemma bwp_root st (Q : result BootError Hash256 -> state -> Prop) : Q (Ok (store_root (snd st))) st -> bwp set_root st Q.
Proof. done. Qed.
Lemma bwp_ret {A} (a : A) st (Q : result BootError A -> state -> Prop) : Q (Ok a) st -> bwp (mret a : @boot S A) st Q.
Proof. done. Qed.

Section OnChain.
Variables (io : boot_call -> bool) (l : log) (u : utxo_map) (db : ChainStorage).
Hypothesis Hl : chain_log l u.
Hypothesis Hdb : db_ok l db.

(** The set before the block at a position. *)
Definition set_before (i : nat) (v : utxo_map) : Prop := match i with O => v = ∅ | _ => chain_log (take i l) v end.

(** Why start-up can fail on a database that holds the chain. *)
Inductive cause : BootError -> Prop :=
| cause_fault c : io c = true -> cause (BootStorage c DbError)
| cause_difficulty i b ms e :
    l !! i = Some (b, ms) -> i <> O -> expected_difficulty (boot_headers io db) (prev_block_id (header b)) (height (header b)) = Err e ->
    cause (BootDifficultyFailed (Z.of_nat i) e)
| cause_header i b ms p pms target skip e :
    l !! Datatypes.S i = Some (b, ms) -> l !! i = Some (p, pms) ->
    expected_difficulty (boot_headers io db) (prev_block_id (header b)) (height (header b)) = Ok target ->
    validate_block_header_inner b (Some (header p)) (get_ancestor_timestamps (id_of p) MTP_WINDOW db) target None skip = Err e ->
    cause (HeaderRejected (Z.of_nat (Datatypes.S i)) e)
| cause_block i b ms (skip : bool) v v' e :
    l !! i = Some (b, ms) -> set_before i v ->
    (if skip then apply_block_transactions_assume_valid b else validate_and_apply_block_transactions_atomic signature_domain coinbase_maturity b) v = Some (Err e, v') ->
    cause (BlockRejected (Z.of_nat i) e)
| cause_root i b ms (s : S) :
    l !! i = Some (b, ms) -> chain_log (take (Datatypes.S i) l) (view s) -> store_root s <> Block.state_root (header b) -> cause (RootMismatch (Z.of_nat i))
| cause_snapshot b ms (s : S) :
    last l = Some (b, ms) -> view s = u -> store_root s <> Block.state_root (header b) -> cause SnapshotRootMismatch.

(** [Q] on success; otherwise the state is as before and the error has a cause. *)
Definition or_cause {A} (st : state) (Q : A -> state -> Prop) (r : result BootError A) (st' : state) : Prop :=
  match r with Ok a => Q a st' | Err e => fst st' = fst st /\ cause e end.

Lemma index_read i b ms : l !! i = Some (b, ms) -> get_block_id_by_height (Z.of_nat i) db = Some (id_of b).
Proof.
  intros Hi. unfold get_block_id_by_height. assert (HEIGHT_INDEX db !! Z.of_nat i = Some (id_of b)) as -> by (apply (db_index _ _ _ _ Hdb); by exists i, b, ms).
  assert (hash_wf (id_of b)) as Hw by apply sha2_width. unfold hash_wf in Hw. unfold if_32. by rewrite Hw.
Qed.
Lemma first_genesis b ms : l !! O = Some (b, ms) -> b = genesis.
Proof.
  intros Hi. destruct (log_chain_to _ _ world _ _ _ _ _ Hl Hi) as [w Hw]. apply (chain_to_zero _ _) in Hw.
  destruct (log_blocks _ _ world _ _ b ms Hl) as (Ub & Rb & _); [by eapply list_elem_of_lookup_2|].
  destruct (w_genesis _ _ world) as (Ug & Rg & _). by apply (w_ids _ _ world).
Qed.
(** The identifier before a position. *)
Definition id_before (i : nat) : Hash256 :=
  match i with O => Hash256_ZERO | Datatypes.S j => match l !! j with Some (b, _) => id_of b | None => Hash256_ZERO end end.
Lemma prev_read i b ms : l !! i = Some (b, ms) -> prev_block_id (header b) = id_before i.
Proof.
  intros Hi. destruct i as [|j]; [by rewrite (first_genesis _ _ Hi)|]. destruct (log_prev _ _ _ _ _ _ _ Hl Hi) as (p & pms & Hp & E). cbn [id_before]. by rewrite Hp.
Qed.

Lemma indexed_ok i b ms s : l !! i = Some (b, ms) ->
  bwp (indexed_block io (id_of genesis) (id_before i) (Z.of_nat i)) (db, s) (or_cause (db, s) (fun r st' => r = (id_of b, b) /\ st' = (db, s))).
Proof.
  intros Hi. unfold indexed_block. apply bwp_bind, bwp_query; [intros Hf; by split; [|apply cause_fault]|intros _]. cbn [fst]. rewrite (index_read _ _ _ Hi).
  apply bwp_bind, bwp_require. apply bwp_bind, bwp_ensure.
  2: { intros Hf. destruct i as [|i]; [rewrite (first_genesis _ _ Hi), bool_decide_true in Hf by done; done|]. by destruct (Z.eqb_spec (Z.of_nat (Datatypes.S i)) 0); [lia|]. }
  intros _. apply bwp_bind, bwp_query_res; [intros Hf; by split; [|apply cause_fault]|]. cbn [fst]. rewrite (get_block_canon _ _ world _ _ _ Hl Hdb _ _ _ Hi). cbn [map_err].
  apply bwp_bind, bwp_require. apply bwp_bind, bwp_ensure; [intros _; by apply bwp_ret|]. intros Hf. apply bool_decide_eq_false in Hf. by destruct Hf; apply (prev_read _ _ ms).
Qed.

Lemma header_read i b ms : l !! i = Some (b, ms) -> get_header (id_of b) db = Some (header b).
Proof.
  intros Hi. unfold get_header. rewrite (db_pinned _ _ _ _ Hdb HEADERS_TABLE (id_of b) (BlockHeader_serialize (header b))) by by exists i, b, ms.
  destruct (log_linked _ _ world _ _ Hl _ _ _ Hi) as (w & Ub & _). destruct (w_wf _ _ world b Ub) as (Hwf & _).
  rewrite (len_header _ Hwf). cbn. by rewrite (header_decodes_encoding _ Hwf).
Qed.

Lemma header_rules_ok i b ms skip s : l !! Datatypes.S i = Some (b, ms) ->
  bwp (header_rules io skip (Z.of_nat (Datatypes.S i)) (Z.of_nat (Datatypes.S i)) b) (db, s) (or_cause (db, s) (fun _ st' => st' = (db, s))).
Proof.
  intros Hi. destruct (log_prev _ _ _ _ _ _ _ Hl Hi) as (p & pms & Hp & E). unfold header_rules.
  apply bwp_bind, bwp_query; [intros Hf; by split; [|apply cause_fault]|intros _]. cbn [fst]. rewrite E, (header_read _ _ _ Hp).
  apply bwp_bind, bwp_require. apply bwp_bind, bwp_query; [intros Hf; by split; [|apply cause_fault]|intros _]. cbn [fst].
  apply bwp_bind. unfold look, bwp at 1. cbn [fst]. destruct (expected_difficulty _ _ _) as [target|e] eqn:Et; cbn [map_err].
  2: { split; [done|]. eapply (cause_difficulty (Datatypes.S i)); [exact Hi|done|by rewrite E]. }
  rewrite <- E in Et. unfold bwp, look.
  assert (forall e, validate_block_header_inner b (Some (header p)) (get_ancestor_timestamps (id_of p) MTP_WINDOW db) target None skip = Err e ->
    cause (HeaderRejected (Z.of_nat (Datatypes.S i)) e)) as Hc by (intros e He; by eapply cause_header).
  unfold validate_block_header_skip_pow, validate_block_header. destruct skip; destruct (validate_block_header_inner _ _ _ _ _ _) as [[]|e]; try done; (split; [done|by apply Hc]).
Qed.

(** ** The walks *)

(** What a walk has gathered before position [i]: the last block and its work. *)
Definition gathered (i : nat) (acc : Hash256 * bytes) : Prop :=
  fst acc = id_before i /\
  match i with O => snd acc = replicate 32 x00 | Datatypes.S j => chain_to (fst acc) (Z.of_nat j) (snd acc) end.

Lemma add_nothing w : len w = 32 -> add_work (replicate 32 x00) w = w.
Proof.
  intros Hw. destruct (add_work_spec (replicate 32 x00) w eq_refl Hw) as [Hlen Hv]. apply be_val_inj; [by rewrite Hw|]. rewrite Hv.
  pose proof (val_bound w Hw). change (be_val (replicate 32 x00)) with 0. lia.
Qed.
Lemma gathered_next i b ms acc : gathered i acc -> l !! i = Some (b, ms) -> gathered (Datatypes.S i) (id_of b, more_work (snd acc) b).
Proof.
  intros [Hid Hw] Hi. split; [cbn; by rewrite Hi|]. cbn [fst snd]. unfold more_work.
  destruct (log_blocks _ _ world _ _ b ms Hl) as (Ub & Rb & _); [by eapply list_elem_of_lookup_2|]. destruct i as [|j].
  - rewrite (first_genesis _ _ Hi), Hw, add_nothing; [apply to_genesis|]. apply work_from_target_spec. destruct (w_genesis _ _ world) as (Ug & _). by apply (w_wf _ _ world genesis Ug).
  - destruct (log_prev _ _ _ _ _ _ _ Hl Hi) as (p & pms & Hp & E). rewrite Hid in Hw. cbn [id_before] in Hw. rewrite Hp, <- E in Hw.
    replace (Z.of_nat (Datatypes.S j)) with (Z.of_nat j + 1) by lia. apply to_child; [done|done|done|]. rewrite (log_heights _ _ world _ _ _ _ _ Hl Hi). lia.
Qed.

Lemma walk_ok proven n : forall i acc s, (i + n)%nat = length l -> gathered i acc ->
  bwp (for_each (walk_block io (id_of genesis) proven) (seqZ (Z.of_nat i) (Z.of_nat n)) acc) (db, s)
    (or_cause (db, s) (fun acc' st' => gathered (length l) acc' /\ st' = (db, s))).
Proof.
  induction n as [|n IH]; intros i acc s Hn Hg.
  { rewrite seqZ_nil by done. apply bwp_ret. split; [|done]. by replace (length l) with i by lia. }
  destruct (lookup_lt_is_Some_2 l i) as [[b ms] Hi]; [lia|]. rewrite seqZ_cons by lia. cbn [for_each]. apply bwp_bind. unfold walk_block at 1.
  rewrite (proj1 Hg). apply bwp_bind. eapply bwp_mono; [exact (indexed_ok i b ms s Hi)|]. intros [r|e] st' Hr; [destruct Hr as [-> ->]|done]. cbv beta iota. apply bwp_bind.
  assert (bwp (if 0 <? Z.of_nat i then header_rules io (proven && (Z.of_nat i <=? ASSUME_VALID_HEIGHT)) (Z.of_nat i) (Z.of_nat i) b else mret tt) (db, s)
    (or_cause (db, s) (fun _ st' => st' = (db, s)))) as Hh.
  { destruct i as [|i]; [done|]. destruct (Z.ltb_spec 0 (Z.of_nat (Datatypes.S i))); [|lia]. by eapply header_rules_ok. }
  eapply bwp_mono; [exact Hh|]. intros [r|e] st' Hr; [|done]. cbn [or_cause] in Hr. subst st'. apply bwp_ret. cbv beta iota.
  replace (Z.succ (Z.of_nat i)) with (Z.of_nat (Datatypes.S i)) by lia. replace (Z.pred (Z.of_nat (Datatypes.S n))) with (Z.of_nat n) by lia.
  apply IH; [lia|]. by eapply gathered_next.
Qed.

Lemma take_nonempty i x : l !! i = Some x -> take (Datatypes.S i) l <> [].
Proof. intros Hi E. apply (f_equal length) in E. rewrite length_take in E. apply lookup_lt_Some in Hi. cbn [length] in E. lia. Qed.
Lemma prefix_log i x : l !! i = Some x -> exists v, chain_log (take (Datatypes.S i) l) v.
Proof. intros Hi. apply (log_prefix _ _ _ (drop (Datatypes.S i) l) u); [by rewrite take_drop|by eapply take_nonempty]. Qed.
Lemma before_nonempty j x : l !! Datatypes.S j = Some x -> take (Datatypes.S j) l <> [].
Proof. intros Hi. destruct (lookup_lt_is_Some_2 l j) as [y Hy]; [apply lookup_lt_Some in Hi; lia|]. by eapply take_nonempty. Qed.
Lemma log_block_nonempty i b ms : l !! i = Some (b, ms) -> transactions b <> [].
Proof.
  intros Hi. destruct i as [|j].
  - rewrite (first_genesis _ _ Hi). destruct (w_genesis _ _ world) as (_ & _ & _ & cb & -> & _). done.
  - destruct (prefix_log _ _ Hi) as [v Hv].
    rewrite (take_S_r _ _ _ Hi) in Hv. destruct (log_snoc_inv _ _ _ _ _ _ Hv) as (v0 & p & pms & _ & _ & _ & _ & Hs); [by eapply before_nonempty|].
    by eapply shape_nonempty, bs_shape.
Qed.
(** Applying a block of the chain on the set before it leads to the next set. *)
Lemma set_next i b ms v ms' v' : l !! i = Some (b, ms) -> set_before i v -> applied (height (header b)) (transactions b) v ms' v' -> set_before (Datatypes.S i) v'.
Proof.
  intros Hi Hv Ha. cbn [set_before]. destruct (prefix_log _ _ Hi) as [v0 Hv0].
  assert (v0 = v') as <-; [|done]. rewrite (take_S_r _ _ _ Hi) in Hv0. destruct i as [|j].
  - cbn [set_before] in Hv. subst v. change (take 0 l ++ [(b, ms)]) with [(b, ms)] in Hv0. rewrite (first_genesis _ _ Hi) in Hv0, Ha. destruct (w_genesis _ _ world) as (_ & _ & Hg & _). rewrite Hg in Ha.
    remember [(genesis, ms)] as l0 eqn:El. destruct Hv0 as [ms0 u0 Ha0|l1 u1 p pms b0 ms0 v0 Hl1 _ _ _ _].
    + by destruct (applied_fun _ _ _ _ _ _ _ Ha0 Ha) as [_ ->].
    + apply log_nonempty in Hl1. apply (f_equal length) in El. rewrite length_app in El. destruct l1; [done|cbn in El; lia].
  - destruct (log_snoc_inv _ _ _ _ _ _ Hv0) as (v1 & p & pms & Hl1 & _ & _ & _ & Hs); [by eapply before_nonempty|]. cbn [set_before] in Hv.
    destruct (log_fun _ _ _ _ _ _ Hv Hl1 eq_refl) as [_ ->]. by destruct (applied_fun _ _ _ _ _ _ _ (bs_applied _ _ _ _ _ _ Hs) Ha) as [_ ->].
Qed.

Lemma apply_ok i b ms (skip : bool) s : l !! i = Some (b, ms) -> set_before i (view s) ->
  bwp (on_set (if skip then apply_block_transactions_assume_valid b else validate_and_apply_block_transactions_atomic signature_domain coinbase_maturity b)
         (BlockRejected (height (header b)))) (db, s)
    (or_cause (db, s) (fun _ st' => fst st' = db /\ set_before (Datatypes.S i) (view (snd st')))).
Proof.
  intros Hi Hs. pose proof (log_block_nonempty _ _ _ Hi) as Hne. eapply (bwp_set _
    (if skip then apply_block_transactions_assume_valid b else validate_and_apply_block_transactions_atomic signature_domain coinbase_maturity b)).
  { destruct skip; [by apply follows_assume_valid|by apply follows_atomic]. }
  intros r s' _ Hr. cbn [fst snd] in *. destruct r as [r|e]; cbn [map_err or_cause].
  - split; [done|]. apply application_applied in Hr as [ms' Ha]. by eapply set_next.
  - split; [done|]. rewrite (log_heights _ _ world _ _ _ _ _ Hl Hi). eapply cause_block; [exact Hi|exact Hs|exact Hr].
Qed.

Lemma replay_ok proven n : (proven = true -> get_block_id_by_height ASSUME_VALID_HEIGHT db = Some ASSUME_VALID_HASH) ->
  forall i acc s, (i + n)%nat = length l -> gathered i acc -> set_before i (view s) ->
  bwp (for_each (replay_block signature_domain coinbase_maturity io (id_of genesis) proven) (seqZ (Z.of_nat i) (Z.of_nat n)) acc) (db, s)
    (or_cause (db, s) (fun acc' st' => gathered (length l) acc' /\ fst st' = db /\ set_before (length l) (view (snd st')))).
Proof.
  intros Hproven. induction n as [|n IH]; intros i acc s Hn Hg Hs.
  { rewrite seqZ_nil by done. apply bwp_ret. replace (length l) with i by lia. done. }
  destruct (lookup_lt_is_Some_2 l i) as [[b ms] Hi]; [lia|]. rewrite seqZ_cons by lia. cbn [for_each]. apply bwp_bind. unfold replay_block at 1.
  rewrite (proj1 Hg). apply bwp_bind. eapply bwp_mono; [exact (indexed_ok i b ms s Hi)|]. intros [r|e] st' Hr; [destruct Hr as [-> ->]|done]. cbv beta iota zeta. apply bwp_bind.
  set (skip := proven && (Z.of_nat i <=? ASSUME_VALID_HEIGHT)). set (checks := if 0 <? height (header b) then _ else _).
  assert (bwp checks (db, s) (or_cause (db, s) (fun _ st' => st' = (db, s)))) as Hh.
  { unfold checks. rewrite (log_heights _ _ world _ _ _ _ _ Hl Hi). destruct i as [|i]; [done|]. destruct (Z.ltb_spec 0 (Z.of_nat (Datatypes.S i))); [|lia].
    apply bwp_bind. eapply bwp_mono; [by eapply header_rules_ok|]. intros [r|e] st' Hr; [|done]. cbn [or_cause] in Hr. subst st'. apply bwp_ensure; [done|].
    intros Hf. destruct (proven) eqn:Ep; [|done]. destruct (Z.eqb_spec (Z.of_nat (Datatypes.S i)) ASSUME_VALID_HEIGHT) as [Eh|]; [|done].
    pose proof (index_read _ _ _ Hi) as Hx. rewrite Eh, (Hproven eq_refl) in Hx. injection Hx as Hx. rewrite bool_decide_true in Hf by done. done. }
  eapply bwp_mono; [exact Hh|]. intros [r|e] st' Hr; [|done]. cbn [or_cause] in Hr. subst st'. cbv beta iota. apply bwp_bind.
  eapply bwp_mono; [by eapply apply_ok|]. intros [r1|e] [db' s'] Hr1; [|done]. cbn [or_cause fst snd] in Hr1. destruct Hr1 as [-> Hs']. cbv beta iota. apply bwp_bind, bwp_root.
  apply bwp_bind, bwp_ensure.
  2: { intros Hf%bool_decide_eq_false. split; [done|]. rewrite (log_heights _ _ world _ _ _ _ _ Hl Hi). by eapply cause_root. }
  intros _. apply bwp_ret. cbv beta iota.
  replace (Z.succ (Z.of_nat i)) with (Z.of_nat (Datatypes.S i)) by lia. replace (Z.pred (Z.of_nat (Datatypes.S n))) with (Z.of_nat n) by lia.
  eapply bwp_mono; [apply IH; [lia|by eapply gathered_next|done]|]. by intros [r2|e] [db2 s2].
Qed.

(** ** The tip *)

Lemma tip_read : exists b ms, last l = Some (b, ms) /\ get_tip db = Some (id_of b) /\ get_header (id_of b) db = Some (header b) /\
  height (header b) = Z.of_nat (length l) - 1 /\ id_before (length l) = id_of b.
Proof.
  destruct (db_tip _ _ _ _ Hdb) as (b & ms & Hlast & Ht). exists b, ms. split; [done|]. pose proof Hlast as Hi. rewrite last_lookup in Hi.
  assert (hash_wf (id_of b)) as Hw by apply sha2_width. unfold hash_wf in Hw. unfold get_tip. rewrite Ht. unfold if_32. rewrite Hw.
  split; [done|]. split; [by eapply header_read|]. split; [by eapply log_last|]. destruct (length l) as [|n] eqn:En; [by destruct l|]. cbn [id_before pred] in *. by rewrite Hi.
Qed.
Lemma gathered_tip acc b ms : gathered (length l) acc -> last l = Some (b, ms) ->
  tip_ok U genesis l {| tip_block_id := id_of b; tip_height := height (header b); cumulative_work := snd acc |} /\ fst acc = id_of b.
Proof.
  intros [Hid Hw] Hlast. destruct tip_read as (b' & ms' & Hlast' & _ & _ & Hh & Hb). rewrite Hlast in Hlast'. injection Hlast' as <- <-. rewrite Hb in Hid.
  split; [|done]. split; cbn [tip_block_id tip_height cumulative_work]; [eauto|done|]. rewrite Hid in Hw. destruct (length l) as [|n] eqn:En; [by destruct l|].
  rewrite Hh. by replace (Z.of_nat (Datatypes.S n) - 1) with (Z.of_nat n) by lia.
Qed.
Lemma start_gathered : gathered 0 (Hash256_ZERO, replicate 32 x00).
Proof. done. Qed.

Lemma replay_chain_ok assume s : view s = ∅ ->
  bwp (replay_chain signature_domain coinbase_maturity genesis io (id_of genesis) assume) (db, s)
    (or_cause (db, s) (fun t st' => tip_ok U genesis l t /\ fst st' = db /\ view (snd st') = u)).
Proof.
  intros Hs. destruct tip_read as (b & ms & Hlast & Ht & Hhd & Hh & Hb). unfold replay_chain.
  apply bwp_bind, bwp_query; [intros Hf; by split; [|apply cause_fault]|intros _]. cbn [fst]. rewrite Ht. cbv iota.
  apply bwp_bind, bwp_query; [intros Hf; by split; [|apply cause_fault]|intros _]. cbn [fst]. rewrite Hhd. apply bwp_bind, bwp_require. cbv zeta. apply bwp_bind.
  assert (forall P : result BootError bool -> state -> Prop, (forall e, cause e -> P (Err e) (db, s)) ->
    (forall proven, (proven = true -> get_block_id_by_height ASSUME_VALID_HEIGHT db = Some ASSUME_VALID_HASH) -> P (Ok proven) (db, s)) ->
    bwp (if assume && (ASSUME_VALID_HEIGHT <=? height (header b)) then query io BootCheckpoint (fun db => bool_decide (get_block_id_by_height ASSUME_VALID_HEIGHT db = Some ASSUME_VALID_HASH))
         else mret false) (db, s) P) as Hp.
  { intros P He Hok. destruct (assume && _); [|apply bwp_ret, Hok; done]. apply bwp_query; [intros Hf; by apply He, cause_fault|intros _]. apply Hok. cbn [fst]. by intros ?%bool_decide_eq_true. }
  apply Hp; [done|]. intros proven Hproven. apply bwp_bind. rewrite Hh, Z.sub_add.
  eapply bwp_mono; [apply (replay_ok proven (length l) Hproven 0); [done|apply start_gathered|done]|]. intros [acc|e] [db' s'] Hr; [|done].
  cbn [or_cause fst snd] in Hr. destruct Hr as (Hg & -> & Hs'). destruct acc as [pid w]. destruct (gathered_tip _ _ _ Hg Hlast) as [Htip Hid]. cbn [fst snd] in *. subst pid. cbv beta iota.
  apply bwp_bind, bwp_ensure; [intros _|by intros ?%bool_decide_eq_false]. apply bwp_ret. split; [by rewrite <- Hh|]. split; [done|]. cbn [snd].
  pose proof (log_nonempty _ _ _ _ Hl) as Hne. destruct (length l) as [|n] eqn:En; [by destruct l|]. cbn [set_before] in Hs'. rewrite <- En, firstn_all in Hs'.
  by destruct (log_fun _ _ _ _ _ _ Hs' Hl eq_refl).
Qed.

(** ** The snapshot *)

Lemma keeps_db db' : keeps db db' -> db_ok l db'.
Proof.
  intros [Hc Hh Ht]. split.
  - intros t k v Hg. destruct (decide (t ∈ core)) as [Hin|Hn]; [|destruct t; try done; set_solver]. rewrite (core_get _ _ _ _ Hc Hin) in Hg. by apply (db_rows _ _ _ _ Hdb).
  - intros t k v Hp. assert (t ∈ core) as Hin by (by eapply pinned_core). rewrite (core_get _ _ _ _ Hc Hin). by apply (db_pinned _ _ _ _ Hdb).
  - rewrite Hh. apply (db_index _ _ _ _ Hdb).
  - rewrite Ht. apply (db_tip _ _ _ _ Hdb).
Qed.

Lemma seed_ok es : forall s v, NoDup es.*1 -> (forall o e, (o, e) ∈ es -> UtxoEntry_wf e) -> (forall o, o ∈ es.*1 -> view s !! o = None) ->
  (forall o e, v !! o = Some e <-> (o, e) ∈ es \/ view s !! o = Some e) ->
  bwp (seed es) (db, s) (fun r st' => r = Ok tt /\ fst st' = db /\ view (snd st') = v).
Proof.
  induction es as [|[o e] es IH]; intros s v Hnd Hwf Hfresh Hv; cbn [seed].
  { apply bwp_ret. split_and!; [done|done|]. cbn [snd]. apply map_eq. intros o. apply option_eq. intros e. rewrite Hv. split; [by right|]. by intros [?%not_elem_of_nil|?]. }
  cbn [fmap list_fmap fst] in Hnd. apply NoDup_cons in Hnd as [Hn Hnd]. apply bwp_bind. eapply (bwp_set _ (store_insert o e)); [apply follows_insert|].
  intros r s' _ Hr. cbn [fst snd store_insert spec_store] in *. unfold spec_insert in Hr. rewrite (Hfresh o) in Hr by left.
  destruct (utxo_entry_codec e) as (data & Hd & _); [by apply (Hwf o); left|]. unfold serialize_utxo_entry in Hd.
  destruct (TxOutput_serialize (output e)) as [ob|] eqn:Eo; [|done]. injection Hr as <- Hview. cbn [map_err]. cbv beta iota.
  apply IH; [done|intros o' e' ?; apply (Hwf o'); by right| |].
  - intros o' Ho'. rewrite <- Hview, lookup_insert_ne; [apply Hfresh; by right|]. by intros <-.
  - intros o' e'. rewrite Hv, <- Hview, lookup_insert_Some, elem_of_cons. split.
    + intros [[[= -> ->]|?]|Ho']; [by right; left|by left|]. right. right. split; [|done]. intros <-. by rewrite (Hfresh o) in Ho' by left.
    + intros [?|[[<- <-]|[_ ?]]]; [by left; right|by left; left|by right].
Qed.

Lemma walk_start_ok trust b ms s : last l = Some (b, ms) ->
  (forall id, get_walk_verified_tip db = Some id -> exists i b ms, l !! i = Some (b, ms) /\ id = id_of b) ->
  bwp (walk_start io trust (id_of b) (height (header b))) (db, s)
    (or_cause (db, s) (fun r st' => st' = (db, s) /\ exists i, (i <= length l)%nat /\ r.1.1 = Z.of_nat i /\ gathered i (r.1.2, r.2))).
Proof.
  intros Hlast Hmark. destruct tip_read as (b' & ms' & Hlast' & _ & _ & Hh & Hb). rewrite Hlast in Hlast'. injection Hlast' as <- <-. unfold walk_start. cbv zeta. apply bwp_bind.
  assert (exists i, (i <= length l)%nat /\ 0 = Z.of_nat i /\ gathered i (Hash256_ZERO, replicate 32 x00)) as Hfull by (exists O; split_and!; [lia|done|apply start_gathered]).
  assert (forall i b ms w, l !! i = Some (b, ms) -> get_cumulative_work (id_of b) db = Some w -> gathered (Datatypes.S i) (id_of b, w)) as Hat.
  { intros i b1 ms1 w Hi Hw. split; [cbn; by rewrite Hi|]. cbn [fst snd]. destruct (get_work_canon _ _ world _ _ _ Hl Hdb _ _ _ Hi) as (w' & Hw' & Hc). congruence. }
  assert (bwp (if trust : bool then query io BootMarker get_walk_verified_tip else mret None) (db, s)
    (or_cause (db, s) (fun m st' => st' = (db, s) /\ forall id, m = Some id -> exists i b ms, l !! i = Some (b, ms) /\ id = id_of b))) as Hm.
  { destruct trust; [|done]. apply bwp_query; [intros Hf; by split; [|apply cause_fault]|intros _]. by split; [|apply Hmark]. }
  eapply bwp_mono; [exact Hm|]. intros [m|e] st' Hr; [|done]. cbn [or_cause] in Hr. destruct Hr as [-> Hid]. cbv beta iota. destruct m as [id|]; [|by apply bwp_ret].
  destruct (Hid id eq_refl) as (i & b1 & ms1 & Hi & ->). destruct (decide _) as [Eid|Hne].
  - apply bwp_bind, bwp_query; [intros Hf; by split; [|apply cause_fault]|intros _]. cbn [fst]. apply bwp_ret. split; [done|].
    pose proof Hlast as Hx. rewrite last_lookup in Hx. destruct (get_cumulative_work (id_of b) db) as [w|] eqn:Ew; cbn [fst snd]; [|done].
    exists (length l). pose proof (log_nonempty _ _ _ _ Hl). destruct (length l) as [|n] eqn:En; [by destruct l|]. cbn [pred] in Hx. split_and!; [lia|lia|by eapply Hat].
  - apply bwp_bind, bwp_query; [intros Hf; by split; [|apply cause_fault]|intros _]. cbn [fst]. apply bwp_bind, bwp_query; [intros Hf; by split; [|apply cause_fault]|intros _].
    cbn [fst]. rewrite (header_read _ _ _ Hi). apply bwp_ret. split; [done|]. destruct (get_cumulative_work (id_of b1) db) as [w|] eqn:Ew; [|done].
    destruct (_ <=? _); [|done]. cbn [fst snd]. exists (Datatypes.S i). rewrite (log_heights _ _ world _ _ _ _ _ Hl Hi). apply lookup_lt_Some in Hi as Hlt.
    split_and!; [lia|lia|by eapply Hat].
Qed.

Lemma stamp_ok i b ms : boot_ok l u db -> l !! i = Some (b, ms) -> boot_ok l u (advance_walk_marker_in_txn (id_of b) db).
Proof.
  intros [_ Hm _] Hi. assert (keeps db (advance_walk_marker_in_txn (id_of b) db)) as Hk.
  { split; [|done|]; [intros t Ht; unfold advance_walk_marker_in_txn; destruct (touches_insert META_TABLE WALK_VERIFIED_TIP_KEY (id_of b) db) as [_ T]; apply T; set_solver|].
    unfold advance_walk_marker_in_txn. by rewrite table_get_insert, decide_False by by intros [_ ?]. }
  split; [by apply keeps_db| |].
  - rewrite walk_marker_complete. unfold advance_walk_marker_in_txn. destruct (touches_insert META_TABLE WALK_VERIFIED_TIP_KEY (id_of b) db) as [_ T]. by rewrite T by set_solver.
  - intros id. unfold get_walk_verified_tip. rewrite walk_marker_here. intros ->%if_32_Some. eauto.
Qed.

Lemma open_snapshot_ok assume trust b ms s : last l = Some (b, ms) -> boot_ok l u db -> snapshot_complete db = true -> view s = ∅ ->
  bwp (open_snapshot io (id_of genesis) assume trust (id_of b)) (db, s)
    (or_cause (db, s) (fun t st' => tip_ok U genesis l t /\ boot_ok l u (fst st') /\ view (snd st') = u)).
Proof.
  intros Hlast Hbk Hcomplete Hs. destruct tip_read as (b' & ms' & Hlast' & _ & Hhd & Hh & Hb). rewrite Hlast in Hlast'. injection Hlast' as <- <-.
  unfold open_snapshot. apply bwp_bind, bwp_query; [intros Hf; by split; [|apply cause_fault]|intros _]. cbn [fst]. rewrite Hhd. apply bwp_bind, bwp_require. cbv zeta.
  apply bwp_bind. unfold look, bwp at 1. cbn [fst]. set (proven := assume && _ && _ && _). cbv iota. apply bwp_bind.
  eapply bwp_mono; [apply (walk_start_ok _ _ _ _ Hlast), (bk_marker _ _ _ _ _ Hbk)|]. intros [[[from pid] w]|e] st' Hr; [|done]. cbn [or_cause fst snd] in Hr.
  destruct Hr as (-> & i & Hle & -> & Hg). cbv beta iota. apply bwp_bind. rewrite Hh. replace (Z.of_nat (length l) - 1 + 1 - Z.of_nat i) with (Z.of_nat (length l - i)) by lia.
  eapply bwp_mono; [apply (walk_ok proven (length l - i) i); [lia|done]|]. intros [[pid' w']|e] st' Hr; [|done]. cbn [or_cause] in Hr. destruct Hr as [Hg' ->]. cbv beta iota.
  destruct (gathered_tip _ _ _ Hg' Hlast) as [Htip Hid]. cbn [fst snd] in *. subst pid'. apply bwp_bind, bwp_ensure; [intros _|by intros ?%bool_decide_eq_false].
  apply bwp_bind, bwp_query_res; [intros Hf; by split; [|apply cause_fault]|]. cbn [fst]. destruct (log_wf _ _ world _ _ Hl) as [Hwf _].
  pose proof (bk_rows _ _ _ _ _ Hbk) as Hm. rewrite Hcomplete in Hm. destruct (iter_mirror _ _ Hwf Hm) as (es & -> & Hnd & Hes). cbn [map_err]. cbv iota. apply bwp_bind.
  eapply bwp_mono; [apply (seed_ok es s u); [done|intros o e ?%Hes; by apply (Hwf o)|intros o _; by rewrite Hs|intros o e; rewrite Hs, Hes; naive_solver]|].
  intros r [db' s'] (-> & Hdb' & Hv). cbn [fst snd] in Hdb', Hv. subst db'. cbv beta iota. apply bwp_bind, bwp_root. apply bwp_bind, bwp_ensure.
  2: { intros Hf%bool_decide_eq_false. split; [done|]. by eapply cause_snapshot. }
  intros _. apply bwp_bind. rewrite <- Hh. destruct (Z.of_nat i <=? height (header b)).
  - apply bwp_put; [intros Hf; by split; [|apply cause_fault]|]. cbn [fst snd set_walk_verified_tip]. apply bwp_ret. split_and!; [done| |done].
    rewrite last_lookup in Hlast. by eapply stamp_ok.
  - apply bwp_ret. cbv beta iota. apply bwp_ret. by split_and!.
Qed.

Lemma finalize_ok es i b ms : boot_ok l u db -> l !! i = Some (b, ms) -> es ≡ₚ map_to_list u ->
  exists db', finalize_utxo_snapshot es (id_of b) db = Ok db' /\ boot_ok l u db'.
Proof.
  intros Hbk Hi Hes. destruct (log_wf _ _ world _ _ Hl) as [Hwf _].
  assert (forall o e, (o, e) ∈ es <-> u !! o = Some e) as Hin by (intros; rewrite Hes; apply elem_of_map_to_list).
  assert (forall es' db0, (forall o e, (o, e) ∈ es' -> u !! o = Some e) -> mirror false u (tables db0 UTXOS_TABLE) ->
    exists db1, for_txn (fun oe => apply_utxo_mutation (MInsert oe.1 oe.2)) es' db0 = Ok db1 /\ mirror false u (tables db1 UTXOS_TABLE) /\
      (forall k, is_Some (tables db0 UTXOS_TABLE !! k) -> is_Some (tables db1 UTXOS_TABLE !! k)) /\
      forall o e, (o, e) ∈ es' -> is_Some (tables db1 UTXOS_TABLE !! serialize_outpoint_key o)) as Hloop.
  { clear es Hes Hin. induction es' as [|[o e] es' IH]; intros db0 He Hm; cbn [for_txn]; [exists db0; split_and!; [done|done|done|by intros ?? ?%not_elem_of_nil]|].
    assert (u !! o = Some e) as Ho by (apply He; left). destruct (Hwf o e Ho) as [Hwo Hwe]. destruct (utxo_entry_codec e Hwe) as (v & Hv & _).
    set (db1 := table_insert UTXOS_TABLE (serialize_outpoint_key o) v db0).
    assert (apply_utxo_mutation (MInsert o e) db0 = Ok db1) as Hap by (unfold apply_utxo_mutation; by rewrite Hv). cbn [fst snd]. rewrite Hap.
    assert (mirror false u (tables db1 UTXOS_TABLE)) as Hm1.
    { rewrite <- (insert_id u o e Ho). change (<[o := e]> u) with (mutated u (MInsert o e)). eapply mirror_mutation; [exact Hm| |done|exact Hap]. intros o' e' Ho'. by apply (Hwf o' e'). }
    destruct (IH db1) as (db2 & Hrun & Hm2 & Hmono & Hall); [intros; apply He; by right|done|]. exists db2. split; [done|]. split; [done|].
    assert (tables db1 UTXOS_TABLE = <[serialize_outpoint_key o := v]> (tables db0 UTXOS_TABLE)) as Ht by reflexivity. split.
    - intros k [x Hx]. apply Hmono. rewrite Ht. destruct (decide (serialize_outpoint_key o = k)) as [<-|Hne]; [by rewrite lookup_insert_eq|]. rewrite lookup_insert_ne by done. eauto.
    - intros o' e' [[= -> ->]|Hin]%elem_of_cons; [|by eapply Hall]. apply Hmono. rewrite Ht, lookup_insert_eq. eauto. }
  destruct (Hloop es db) as (db1 & H1x & Hm1 & _ & Hall); [intros o e; apply Hin|split; [apply (bk_rows _ _ _ _ _ Hbk)|done]|].
  unfold finalize_utxo_snapshot. rewrite H1x. eexists. split; [done|].
  set (db2 := table_insert META_TABLE UTXO_SNAPSHOT_TIP_KEY (id_of b) (table_insert META_TABLE UTXO_SNAPSHOT_COMPLETE_KEY [x01] db1)).
  assert (touches [UTXOS_TABLE] db db1) as T1 by (eapply touches_for; [|exact H1x]; intros x ? ?; apply mutation_touches).
  assert (keeps db db1) as K1 by (eapply keeps_touches; [exact T1|]; apply Forall_singleton; set_solver).
  assert (forall t, t <> META_TABLE -> tables (advance_walk_marker_in_txn (id_of b) db2) t = tables db1 t) as Hother.
  { intros t Ht. unfold advance_walk_marker_in_txn, db2, table_insert, table_set. cbn [tables]. by rewrite !decide_False by done. }
  split.
  - apply keeps_db. eapply keeps_trans; [exact K1|]. split; [|done|].
    + intros t Ht. apply Hother. intros ->. set_solver.
    + unfold advance_walk_marker_in_txn, db2. by rewrite !table_get_insert, !decide_False by by intros [_ ?].
  - assert (snapshot_complete (advance_walk_marker_in_txn (id_of b) db2) = true) as ->.
    { rewrite walk_marker_complete. unfold snapshot_complete, db2. rewrite table_get_insert, decide_False, table_get_insert, decide_True by (done || by intros [_ ?]). by rewrite bool_decide_true. }
    rewrite Hother by done. split; [apply Hm1|]. intros o e _ Ho. apply (Hall o e), Hin, Ho.
  - intros id. unfold get_walk_verified_tip. rewrite walk_marker_here. intros ->%if_32_Some. eauto.
Qed.
End OnChain.

(** ** Opening *)

Lemma rebuild_ok io l u db assume migrate s : chain_log l u -> boot_ok l u db -> view s = ∅ ->
  bwp (run_replay_and_maybe_migrate signature_domain coinbase_maturity genesis io (id_of genesis) assume migrate) (db, s)
    (or_cause io l u db (db, s) (fun t st' => tip_ok U genesis l t /\ boot_ok l u (fst st') /\ view (snd st') = u)).
Proof.
  intros Hl Hbk Hs. pose proof (bk_db _ _ _ _ _ Hbk) as Hdb. unfold run_replay_and_maybe_migrate. apply bwp_bind.
  eapply bwp_mono; [by apply (replay_chain_ok io l u db Hl Hdb)|]. intros [t|e] [db' s'] Hr; [|done]. cbn [or_cause fst snd] in Hr. destruct Hr as (Htip & -> & Hv). cbv beta iota.
  destruct migrate; [|by apply bwp_ret]. apply bwp_bind. unfold backfill_snapshot. apply bwp_put; [intros Hf; by split; [|apply cause_fault]|]. cbn [fst snd].
  destruct (tip_last _ _ _ _ Htip) as (b & ms & Hlast & Eid). rewrite last_lookup in Hlast. rewrite Eid.
  destruct (finalize_ok l u db Hl Hdb (store_entries s') _ b ms Hbk Hlast) as (db2 & -> & Hbk2); [by rewrite entries_of_view, Hv|]. apply bwp_ret. by split_and!.
Qed.

Lemma open_ok env l u db assume migrate trust s : chain_log l u -> boot_ok l u db -> view s = ∅ ->
  bwp (open_chain signature_domain coinbase_maturity genesis env (id_of genesis) assume migrate trust) (db, s) (fun r st' =>
    match r with
    | Ok t => tip_ok U genesis l t /\ boot_ok l u (fst st') /\ view (snd st') = u
    | Err e => fst st' = db /\ (cause (open_io env) l u db e \/ cause (replay_io env) l u db e)
    end).
Proof.
  intros Hl Hbk Hs. pose proof (bk_db _ _ _ _ _ Hbk) as Hdb. destruct (tip_read l u db Hl Hdb) as (b & ms & Hlast & Ht & _).
  assert (bwp (run_replay_and_maybe_migrate signature_domain coinbase_maturity genesis (replay_io env) (id_of genesis) assume migrate) (db, s) (fun r st' =>
    match r with
    | Ok t => tip_ok U genesis l t /\ boot_ok l u (fst st') /\ view (snd st') = u
    | Err e => fst st' = db /\ (cause (open_io env) l u db e \/ cause (replay_io env) l u db e)
    end)) as Hrebuild.
  { eapply bwp_mono; [by apply rebuild_ok|]. intros [t|e] st' Hr; [done|]. destruct Hr. by split; [|right]. }
  unfold open_chain. cbv zeta. apply bwp_bind, bwp_query; [intros Hf; split; [done|left; by apply cause_fault]|intros _]. cbn [fst]. rewrite Ht. cbv beta iota.
  apply bwp_bind, bwp_query; [intros Hf; split; [done|left; by apply cause_fault]|intros _]. cbn [fst].
  assert (exists g gms, l !! O = Some (g, gms)) as (g & gms & Hg) by (pose proof (log_nonempty _ _ _ _ Hl); destruct l as [|[g gms] l']; [done|by exists g, gms]).
  pose proof (index_read l db Hdb 0 g gms Hg) as Hx. change (Z.of_nat 0) with 0 in Hx. rewrite Hx, (first_genesis l u Hl _ _ Hg). cbv beta iota.
  destruct (decide _) as [Hne|_]; [done|]. apply bwp_bind, bwp_query; [intros Hf; split; [done|left; by apply cause_fault]|intros _]. cbn [fst].
  destruct (decide _) as [Hsnap|_]; [|exact Hrebuild].
  assert (snapshot_complete db = true) as Hc by (unfold get_utxo_snapshot_tip in Hsnap; by destruct (snapshot_complete db)).
  eapply bwp_mono; [by apply (open_snapshot_ok (open_io env) l u db Hl Hdb assume trust b ms)|]. intros [t|e] st' Hr; [done|]. destruct Hr. by split; [|left].
Qed.

Lemma apply_genesis_ok db txs : forall ms (u0 : utxo_map) done s, applied 0 done ∅ ms (view s) ->
  bwp (apply_genesis txs ms) (db, s) (fun r st' => fst st' = db /\ match r with Ok ms' => applied 0 (done ++ txs) ∅ ms' (view (snd st')) | Err _ => True end).
Proof.
  induction txs as [|tx txs IH]; intros ms u0 done s Ha; cbn [apply_genesis]; [apply bwp_ret; by rewrite app_nil_r|]. apply bwp_bind.
  eapply (bwp_set _ (apply_transaction tx 0)); [apply follows_apply|]. intros [m|e] s' _ Hr; cbn [map_err fst snd] in *; [|done]. cbv beta iota.
  rewrite cons_middle, app_assoc. apply (IH _ u0). by eapply applied_snoc.
Qed.
(** The first start: genesis is committed, or the database stays empty. *)
Lemma first_start_ok env assume migrate trust s : view s = ∅ ->
  bwp (open_chain signature_domain coinbase_maturity genesis env (id_of genesis) assume migrate trust) (empty_db, s) (fun r st' =>
    match r with
    | Ok t => exists ms, chain_log [(genesis, ms)] (view (snd st')) /\ tip_ok U genesis [(genesis, ms)] t /\ boot_ok [(genesis, ms)] (view (snd st')) (fst st')
    | Err _ => fst st' = empty_db
    end).
Proof.
  intros Hs. unfold open_chain. cbv zeta. apply bwp_bind, bwp_query; [done|intros _]. cbn [fst]. change (get_tip empty_db) with (@None Hash256). cbv beta iota. unfold replay_chain.
  apply bwp_bind, bwp_query; [done|intros _]. cbn [fst]. change (get_tip empty_db) with (@None Hash256). cbv beta iota. unfold bootstrap.
  apply bwp_bind, bwp_query; [done|intros _]. apply bwp_bind, bwp_ensure; [intros _|done]. apply bwp_bind, bwp_query; [done|intros _]. apply bwp_bind, bwp_ensure; [intros _|done].
  cbv zeta. apply bwp_bind, bwp_ensure; [intros _|done]. apply bwp_bind. eapply bwp_mono; [apply (apply_genesis_ok _ _ [] ∅ []); rewrite Hs; constructor|].
  intros [ms|e] [db' s'] [Hdb' Ha]; cbn [fst snd] in *; [|done]. subst db'. cbv beta iota. apply bwp_bind, bwp_put; [done|]. cbn [fst snd].
  destruct (commit_genesis_atomic _ _ _ _) as [db1|e] eqn:Ec; [|done]. apply bwp_ret. exists ms. cbn [fst snd app] in *.
  pose proof (log_genesis U genesis ms _ Ha) as Hl. pose proof (commit_genesis_bootable _ _ world _ _ _ Ha Ec) as Hbk. split_and!; [done| |done].
  destruct (w_genesis _ _ world) as (_ & _ & Hg & _). split; [by exists genesis, ms|done|apply to_genesis].
Qed.

(** ** Databases that a node leaves behind *)

(** Blocks on top of a chain form a path. *)
Lemma log_path lnew : forall l1 p pms v, chain_log (l1 ++ lnew) v -> last l1 = Some (p, pms) -> path U (id_of p) (height (header p)) (map fst lnew).
Proof.
  induction lnew as [|[b ms] lnew IH]; intros l1 p pms v Hl Hlast; [done|]. cbn [map fst path]. rewrite cons_middle, app_assoc in Hl.
  destruct (log_prefix _ _ _ _ _ Hl) as [v1 Hl1]; [by destruct l1|]. destruct (log_blocks _ _ world _ _ b ms Hl) as (Ub & Rb & _); [set_solver|].
  destruct (log_snoc_inv _ _ _ _ _ _ Hl1) as (u1 & p' & pms' & _ & Hlast' & Hp & Hh & _); [by destruct l1|]. rewrite Hlast in Hlast'. injection Hlast' as <- <-.
  split_and!; [done|done|done|done|]. rewrite <- Hh. eapply (IH (l1 ++ [(b, ms)])); [exact Hl|apply last_snoc].
Qed.

(** What the commits of a node leave behind: genesis, then blocks on top;
    reorganisations, each to a new branch [lnew] above a common part [l1], with the
    arguments [reorganise] passes, where no orphaned block spends an output it
    created itself; fork blocks stored and evicted in between; the snapshot
    cleared; the chain opened again, with any outcome. *)
Inductive grown : log -> utxo_map -> ChainStorage -> Prop :=
| grown_genesis ms u db :
    applied 0 (transactions genesis) ∅ ms u ->
    commit_genesis_atomic genesis (work_from_target (difficulty_target (header genesis))) ms empty_db = Ok db -> grown [(genesis, ms)] u db
| grown_block l u db b ms v w db' :
    grown l u db -> chain_log (l ++ [(b, ms)]) v -> chain_to (id_of b) (height (header b)) w ->
    commit_block_atomic b w (collect_spent_utxos ms) ms db = Ok db' -> grown (l ++ [(b, ms)]) v db'
| grown_reorg l1 lold lnew u v db p pms b ms w work db' :
    grown (l1 ++ lold) u db -> last l1 = Some (p, pms) -> chain_log (l1 ++ lnew) v -> last lnew = Some (b, ms) ->
    (forall x, x ∈ map fst lold -> x ∉ map fst lnew) -> Forall (fun bm => apart bm.2) lold ->
    chain_to (id_of b) (height (header b)) w -> get_cumulative_work (id_of p) db = Some work ->
    commit_reorg_atomic b w (rev (map fst lold)) (map (fun bm => (id_of bm.1, collect_spent_utxos bm.2)) lnew) (map (fun bm => (id_of bm.1, bm.2)) lnew)
      (map (fun blk => (height (header blk), id_of blk)) (map fst lnew)) (map fst lnew) (chain_work_list work (map fst lnew))
      (if height (header b) <? Z.of_nat (length (l1 ++ lold)) - 1 then Some (height (header b) + 1, Z.of_nat (length (l1 ++ lold)) - 1) else None)
      (id_of b) db = Ok db' ->
    grown (l1 ++ lnew) v db'
| grown_fork l u db b h w db' :
    grown l u db -> linked U genesis b h w -> store_fork_block_atomic b w db = Ok db' -> grown l u db'
| grown_evict l u db f1 f2 id r db' : grown l u db -> evict_fork_block f1 f2 id db = (r, db') -> grown l u db'
| grown_cleared l u db db' : grown l u db -> clear_utxo_snapshot db = Ok db' -> grown l u db'
| grown_opened l u db env assume migrate trust (s : S) r db' s' :
    grown l u db -> view s = ∅ ->
    open_chain signature_domain coinbase_maturity genesis env (id_of genesis) assume migrate trust (db, s) = Some (r, (db', s')) -> grown l u db'.

Lemma fork_store_touches b w db db' : store_fork_block_atomic b w db = Ok db' ->
  tables db' UTXOS_TABLE = tables db UTXOS_TABLE /\ tables db' META_TABLE = tables db META_TABLE.
Proof.
  unfold store_fork_block_atomic. destruct (put_block_data b db) as [db1|] eqn:E; [|done]. intros [= <-]. destruct (put_block_data_touches _ _ _ E) as [_ T].
  unfold table_insert, table_set. cbn [tables]. rewrite !decide_False by done. split; apply T; set_solver.
Qed.
Lemma evict_touches f1 f2 id db r db' : evict_fork_block f1 f2 id db = (r, db') ->
  tables db' UTXOS_TABLE = tables db UTXOS_TABLE /\ tables db' META_TABLE = tables db META_TABLE.
Proof.
  set (ts := [BLOCKS_TABLE; HEADERS_TABLE; WORK_TABLE; SPENT_UTXOS_TABLE; FORK_BLOCKS_TABLE; RETAINED_FORK_HEADERS_TABLE]).
  assert (forall t k db, t ∈ ts -> touches ts db (table_remove t k db)) as Hrm by (intros; eapply touches_weaken; [|apply touches_remove]; set_solver).
  assert (forall t k v db, t ∈ ts -> touches ts db (table_insert t k v db)) as Hin by (intros; eapply touches_weaken; [|apply touches_insert]; set_solver).
  assert (forall db db', evict_body id db = Ok db' -> touches ts db db') as He.
  { clear -Hrm Hin. intros db db'. unfold evict_body. intros [= <-]. eapply touches_trans; [|apply Hrm; set_solver]. destruct (stored_height id db) as [h|].
    - destruct (is_canonical_at _ _ _); [apply touches_refl|]. eapply touches_trans; [|apply Hin; set_solver]. eapply touches_trans; [|apply Hrm; set_solver]. apply Hrm; set_solver.
    - eapply touches_trans; [|apply Hrm; set_solver]. apply Hrm; set_solver. }
  assert (forall e db db', drop_retained e db = Ok db' -> touches ts db db') as Hd.
  { clear -Hrm. intros e db db'. unfold drop_retained. intros [= <-]. destruct (is_canonical_at _ _ _); [apply Hrm; set_solver|].
    do 3 (eapply touches_trans; [|apply Hrm; set_solver]). apply Hrm; set_solver. }
  assert (forall f (body : txn) db r db', (forall db db', body db = Ok db' -> touches ts db db') -> write_txn f body db = (r, db') -> touches ts db db') as Hw.
  { clear. intros f body db r db' Hb. unfold write_txn. destruct f; [intros [= <- <-]; apply touches_refl|]. destruct (body db) eqn:E; intros [= <- <-]; [by apply Hb|apply touches_refl]. }
  intros Hev. assert (touches ts db db') as [_ T]; [|split; apply T; set_solver]. revert Hev. unfold evict_fork_block.
  destruct (write_txn f1 (evict_body id) db) as [[[]|e] db1] eqn:E1; apply (Hw _ _ _ _ _ He) in E1; [|by intros [= <- <-]].
  unfold enforce_retained_fork_header_cap. destruct (_ <=? _); [by intros [= <- <-]|]. intros E2. eapply touches_trans; [exact E1|]. eapply Hw; [|exact E2].
  intros d d'. apply touches_for, Hd.
Qed.

Lemma clear_ok l u db db' : chain_log l u -> boot_ok l u db -> clear_utxo_snapshot db = Ok db' -> boot_ok l u db'.
Proof.
  intros Hl [Hdb Hm Hw]. unfold clear_utxo_snapshot. intros [= <-]. match goal with |- boot_ok _ _ ?x => set (db' := x) end.
  assert (forall t, t <> UTXOS_TABLE -> t <> META_TABLE -> tables db' t = tables db t) as Hother.
  { intros t Hut Hmt. unfold db', table_remove, table_set. cbn [tables]. by rewrite !decide_False by done. }
  assert (table_get META_TABLE WALK_VERIFIED_TIP_KEY db' = None) as Hwalk by (unfold db'; by rewrite table_get_remove, decide_True).
  assert (table_get META_TABLE UTXO_SNAPSHOT_COMPLETE_KEY db' = None) as Hcomplete.
  { unfold db'. rewrite table_get_remove, decide_False by by intros [_ ?]. rewrite table_get_remove, decide_False by by intros [_ ?]. by rewrite table_get_remove, decide_True. }
  assert (table_get META_TABLE TIP_KEY db' = table_get META_TABLE TIP_KEY db) as Htip.
  { unfold db'. rewrite !table_get_remove, !decide_False by by intros [_ ?]. reflexivity. }
  split.
  - eapply keeps_db; [exact Hl|exact Hdb|]. split; [|reflexivity|exact Htip]. intros t Ht. apply Hother; intros ->; unfold core in Ht; set_solver.
  - assert (snapshot_complete db' = false) as -> by (unfold snapshot_complete; by rewrite Hcomplete, bool_decide_false). apply mirror_cleared.
  - intros id. unfold get_walk_verified_tip. by rewrite Hwalk.
Qed.

Lemma grown_ok l u db : grown l u db -> chain_log l u /\ boot_ok l u db.
Proof.
  induction 1 as [ms u db Ha Hc|l u db b ms v w db' _ [Hl Hbk] Hl' Hw Hc|l1 lold lnew u v db p pms b ms w work db' _ [Hl Hbk] Hp Hl' Hlast Hdis Hap Hw Hwork Hc|l u db b h w db' _ [Hl Hbk] Hb Hc|l u db f1 f2 id r db' _ [Hl Hbk] Hev
    |l u db db' _ [Hl Hbk] Hc|l u db env assume migrate trust s r db' s' _ [Hl Hbk] Hs Ho].
  - split; [by apply log_genesis|by eapply commit_genesis_bootable].
  - split; [done|]. destruct (log_snoc_inv _ _ _ _ _ _ Hl') as (u' & p & pms & Hl2 & _ & _ & _ & Hs); [by eapply log_nonempty|].
    destruct (log_fun _ _ _ _ _ _ Hl Hl2 eq_refl) as [_ <-]. by eapply commit_block_bootable.
  - split; [done|].
    destruct (get_work_ok _ _ _ _ _ _ (bk_db _ _ _ _ _ Hbk) Hwork) as [h Hh]. destruct (log_blocks _ _ world _ _ p pms Hl') as (Up & Rp & _); [apply last_Some_elem_of in Hp; set_solver|].
    pose proof (chain_to_height _ _ world _ _ _ Up Rp Hh) as <-. destruct (work_list_valid U genesis world _ _ _ _ (log_path _ _ _ _ _ Hl' Hp) Hh) as [Hval Hcov].
    eapply (commit_reorg_bootable _ _ world l1 lold lnew); [exact Hl|exact Hbk|by destruct l1|exact Hl'|exact Hlast|exact Hw|exact Hval|exact Hcov|exact Hdis|exact Hap|exact Hc].
  - split; [done|]. pose proof (store_fork_ok _ _ world _ _ Hl _ _ _ _ _ (bk_db _ _ _ _ _ Hbk) Hb Hc). apply fork_store_touches in Hc as [? ?]. by eapply boot_keeps.
  - split; [done|]. pose proof (evict_fork_ok _ _ world _ _ Hl _ _ _ _ _ _ (bk_db _ _ _ _ _ Hbk) Hev). apply evict_touches in Hev as [? ?]. by eapply boot_keeps.
  - split; [done|]. exact (clear_ok _ _ _ _ Hl Hbk Hc).
  - split; [done|]. pose proof (open_ok env l u db assume migrate trust s Hl Hbk Hs) as Hx. unfold bwp in Hx. rewrite Ho in Hx.
    destruct r as [t|e]; [by destruct Hx as (_ & ? & _)|]. destruct Hx as [Hx _]. cbn [fst] in Hx. by rewrite Hx.
Qed.

(** C3: Restarting.  On every database that a node leaves behind by committing
    genesis, blocks and reorganisations, storing and evicting fork blocks, clearing
    the snapshot and opening the chain, with the chain [l] and its set [u]: opening
    it, from the snapshot, by a partial walk or by a full replay, returns the tip of
    [l] with its height and work, the set in memory is [u], and the database still is
    such a database; or it fails and leaves the database as it was, and then the
    database engine reported an error or a block of the chain breaks a rule or a
    state root.  No other failure is possible, except that a store which is not a map
    may run out of room ([lost]: the 2^32 nodes of the state tree).  Outside are databases after a
    reorganisation that orphaned a block which spends an output it created itself
    ([grown_reorg]: the snapshot then keeps rows it should not), and blocks that
    repeat a coinbase transaction at different heights ([World]). *)
Theorem restart_restores env l u db assume migrate trust s :
  grown l u db -> view s = ∅ ->
  match open_chain signature_domain coinbase_maturity genesis env (id_of genesis) assume migrate trust (db, s) with
  | Some (Ok t, (db', s')) => tip_ok U genesis l t /\ view s' = u /\ grown l u db'
  | Some (Err e, (db', _)) => db' = db /\ (cause (open_io env) l u db e \/ cause (replay_io env) l u db e)
  | None => lost
  end.
Proof.
  intros Hg Hs. destruct (grown_ok _ _ _ Hg) as [Hl Hbk]. pose proof (open_ok env l u db assume migrate trust s Hl Hbk Hs) as Hx. unfold bwp in Hx.
  destruct (open_chain _ _ _ env _ assume migrate trust (db, s)) as [[[t|e] [db' s']]|] eqn:Ho; [|done|done]. cbn [fst snd] in Hx. destruct Hx as (Ht & _ & Hv).
  split_and!; [done|done|]. by eapply (grown_opened l u db env assume migrate trust s).
Qed.
End Boot.

(** ** Arbitrary databases *)

Section Distrust.
Context {S : Type} `{UtxoStore S} `{!UtxoGet S} `{!UtxoRoot S} `{!UtxoEntries S}.
Context `{Sha2} `{Ed25519} `{Layout} `{Argon2}.
Variable signature_domain : Hash256.
Variable coinbase_maturity : Z.
Variable genesis : Block.
Abbreviation id_of b := (block_id (header b)).
Abbreviation state := (prod ChainStorage S).

Lemma boot_bind_Ok {A B} (c : @boot S A) (f : A -> @boot S B) st b st' :
  (c ≫= f) st = Some (Ok b, st') -> exists a st1, c st = Some (Ok a, st1) /\ f a st1 = Some (Ok b, st').
Proof. unfold mbind, boot_bind. destruct (c st) as [[[a|e] st1]|]; [eauto|done|done]. Qed.
Lemma query_Ok {A} io c (f : ChainStorage -> A) (st : state) a st' : query io c f st = Some (Ok a, st') -> a = f (fst st) /\ st' = st.
Proof. unfold query. destruct (io c); [done|]. by intros [= <- <-]. Qed.
Lemma query_res_Ok {A} io c (f : ChainStorage -> result StorageError A) (st : state) a st' : query_res io c f st = Some (Ok a, st') -> f (fst st) = Ok a /\ st' = st.
Proof. unfold query_res. destruct (io c); [done|]. destruct (f (fst st)); [by intros [= <- <-]|done]. Qed.
Lemma require_Ok {A} (o : option A) e (st : state) a st' : require o e st = Some (Ok a, st') -> o = Some a /\ st' = st.
Proof. destruct o; [by intros [= <- <-]|done]. Qed.
Lemma ensure_Ok b e (st : state) x st' : ensure b e st = Some (Ok x, st') -> b = true /\ st' = st.
Proof. destruct b; [by intros [= <- <-]|done]. Qed.
Lemma on_set_Ok {E A} (c : S -> option (result E A * S)) f (st : state) a st' : on_set c f st = Some (Ok a, st') -> fst st' = fst st.
Proof. unfold on_set. destruct (c (snd st)) as [[[x|e] s]|]; [by intros [= <- <-]|done|done]. Qed.
Ltac boot_inv :=
  repeat match goal with
  | Hx : (_ ≫= _) _ = Some (Ok _, _) |- _ => apply boot_bind_Ok in Hx as (? & ? & ? & Hx); cbv beta zeta in *
  | Hx : query _ _ _ _ = Some (Ok _, _) |- _ => apply query_Ok in Hx as [-> ->]
  | Hx : query_res _ _ _ _ = Some (Ok _, _) |- _ => apply query_res_Ok in Hx as [Hx ->]
  | Hx : require _ _ _ = Some (Ok _, _) |- _ => apply require_Ok in Hx as [Hx ->]
  | Hx : ensure _ _ _ = Some (Ok _, _) |- _ => apply ensure_Ok in Hx as [Hx ->]
  | Hx : mret _ _ = Some (Ok _, _) |- _ => injection Hx as <- <-
  | Hx : set_root _ = Some (Ok _, _) |- _ => injection Hx as <- <-
  end.

Lemma indexed_Ok io expected prev h (st : state) r st' : indexed_block io expected prev h st = Some (Ok r, st') ->
  st' = st /\ get_block_id_by_height h (fst st) = Some r.1 /\ (h = 0 -> r.1 = expected) /\ get_block r.1 (fst st) = Ok (Some r.2).
Proof.
  unfold indexed_block. intros Hx. boot_inv. subst. cbn [fst snd]. split_and!; [done|done| |done]. intros ->. cbn in *.
  match goal with Hb : negb (negb _) = true |- _ => rewrite negb_involutive in Hb; by apply bool_decide_eq_true in Hb end.
Qed.
Lemma header_rules_Ok io skip h n b (st : state) r st' : header_rules io skip h n b st = Some (Ok r, st') -> st' = st.
Proof. unfold header_rules. intros Hx. boot_inv. unfold look in *. naive_solver. Qed.

Lemma replay_block_Ok io expected proven h acc (st : state) r st' :
  replay_block signature_domain coinbase_maturity io expected proven h acc st = Some (Ok r, st') ->
  fst st' = fst st /\ get_block_id_by_height h (fst st) = Some r.1 /\ (h = 0 -> r.1 = expected) /\
  exists b, get_block r.1 (fst st) = Ok (Some b) /\ store_root (snd st') = Block.state_root (header b).
Proof.
  unfold replay_block. intros (x & st1 & Hi & Hx)%boot_bind_Ok. apply indexed_Ok in Hi as (-> & Hidx & Hg & Hb). destruct x as [id b]. cbn [fst snd] in *. cbv beta iota zeta in Hx.
  apply boot_bind_Ok in Hx as ([] & st1 & Hh & Hx). assert (st1 = st) as ->.
  { destruct (0 <? height (header b)); [|by injection Hh as <-]. apply boot_bind_Ok in Hh as ([] & st2 & Hh & He). apply header_rules_Ok in Hh as ->. by apply ensure_Ok in He as [_ ->]. }
  apply boot_bind_Ok in Hx as (res & st2 & Ha & Hx). apply on_set_Ok in Ha. boot_inv. cbn [fst]. split_and!; [done|done|done|]. exists b. split; [done|].
  match goal with Hb : bool_decide _ = true |- _ => by apply bool_decide_eq_true in Hb end.
Qed.
Lemma walk_block_Ok io expected proven h acc (st : state) r st' : walk_block io expected proven h acc st = Some (Ok r, st') -> st' = st.
Proof.
  unfold walk_block. intros (x & st1 & Hi & Hx)%boot_bind_Ok. apply indexed_Ok in Hi as (-> & _). destruct x as [id b]. cbv beta iota in Hx.
  apply boot_bind_Ok in Hx as ([] & st1 & Hh & Hx). boot_inv. destruct (0 <? h); [by apply header_rules_Ok in Hh|by injection Hh].
Qed.

Lemma for_each_app {A B} (f : A -> B -> @boot S B) xs ys acc (st : state) :
  for_each f (xs ++ ys) acc st = (for_each f xs acc ≫= for_each f ys) st.
Proof.
  revert acc st. induction xs as [|x xs IH]; intros acc st; [done|]. cbn [app for_each]. unfold mbind, boot_bind in *.
  destruct (f x acc st) as [[[a|e] st1]|]; [apply IH|done|done].
Qed.
Lemma for_each_state {A B T} (g : state -> T) (f : A -> B -> @boot S B) :
  (forall x acc st r st', f x acc st = Some (Ok r, st') -> g st' = g st) -> forall xs acc st r st', for_each f xs acc st = Some (Ok r, st') -> g st' = g st.
Proof.
  intros Hf. induction xs as [|x xs IH]; intros acc st r st'; cbn [for_each]; [by intros [= <- <-]|]. intros (a & st1 & Ha & Hx)%boot_bind_Ok.
  rewrite (IH _ _ _ _ Hx). by eapply Hf.
Qed.

Lemma header_height_nonneg id db hd : get_header id db = Some hd -> 0 <= height hd.
Proof. unfold get_header. destruct (table_get _ _ _); [|done]. destruct (_ =? _); [|done]. intros [= <-]. cbn. apply le_val_range. Qed.

(** What stands behind a returned tip. *)
Definition backed (expected : Hash256) (t : ChainTip) (db : ChainStorage) (s' : S) : Prop :=
  get_tip db = Some (tip_block_id t) /\ get_block_id_by_height 0 db = Some expected /\
  exists hd, (get_header (tip_block_id t) db = Some hd \/ exists b, get_block (tip_block_id t) db = Ok (Some b) /\ hd = header b) /\
    store_root s' = Block.state_root hd.
(** The database was empty and the canonical genesis, which is the expected one,
    was committed to it: the tip returned is genesis, the set in memory is what its
    transactions lead to, and the database has genesis as its tip, at height 0, as a
    block and with its work. *)
Record founded (expected : Hash256) (t : ChainTip) (db : ChainStorage) (s : S) (db' : ChainStorage) (s' : S) : Prop := {
  fd_empty : get_tip db = None /\ HEIGHT_INDEX db = ∅ /\ tables db BLOCKS_TABLE = ∅;
  fd_expected : expected = id_of genesis;
  fd_returned : t = ChainTip_genesis (id_of genesis) (difficulty_target (header genesis));
  fd_set : apply_txs 0 (transactions genesis) s = Some (Ok tt, s');
  fd_commit : exists ms, apply_genesis (transactions genesis) [] (db, s) = Some (Ok ms, (db, s')) /\
    commit_genesis_atomic genesis (work_from_target (difficulty_target (header genesis))) ms db = Ok db';
  fd_tip : table_get META_TABLE TIP_KEY db' = Some (id_of genesis);
  fd_index : HEIGHT_INDEX db' !! height (header genesis) = Some (id_of genesis);
  fd_block : exists bytes, Block_serialize genesis = Ok bytes /\ table_get BLOCKS_TABLE (id_of genesis) db' = Some bytes;
  fd_work : table_get WORK_TABLE (id_of genesis) db' = Some (work_from_target (difficulty_target (header genesis)))
}.

Lemma apply_genesis_Ok txs : forall ms db (s : S) ms' st',
  apply_genesis txs ms (db, s) = Some (Ok ms', st') -> fst st' = db /\ apply_txs 0 txs s = Some (Ok tt, snd st').
Proof.
  induction txs as [|tx txs IH]; intros ms db s ms' st'; cbn [apply_genesis apply_txs]; [by intros [= <- <-]|].
  intros (m & st1 & Ha & Hx)%boot_bind_Ok. unfold on_set in Ha. cbn [fst snd] in Ha. unfold mbind, store_bind.
  destruct (apply_transaction tx 0 s) as [[[x|e] s1]|]; [|done|done]. injection Ha as -> <-. by apply IH in Hx.
Qed.
Lemma genesis_rows w ms db db' : commit_genesis_atomic genesis w ms db = Ok db' ->
  (exists bytes, Block_serialize genesis = Ok bytes /\ table_get BLOCKS_TABLE (id_of genesis) db' = Some bytes) /\
  table_get WORK_TABLE (id_of genesis) db' = Some w.
Proof.
  unfold commit_genesis_atomic, put_block_data. destruct (Block_serialize genesis) as [bytes|] eqn:Es; [|done]. cbn [map_err]. cbv zeta.
  match goal with |- context [index_txs genesis ?x] => set (db2 := x) end. destruct (apply_utxo_mutations ms _) as [db3|] eqn:E3; [|done]. intros E4.
  assert (forall t k, t = BLOCKS_TABLE \/ t = WORK_TABLE -> table_get t k db' = table_get t k db2) as Hget.
  { intros t k Ht. rewrite (touches_get _ _ _ _ _ (spent_by_touches _ _ _ E4)), (touches_get _ _ _ _ _ (mutations_touches _ _ _ E3)), (touches_get _ _ _ _ _ (index_txs_touches _ _));
      [done|set_solver|destruct Ht; subst; set_solver|destruct Ht; subst; set_solver]. }
  rewrite !Hget by auto. unfold table_get. split; [exists bytes; split; [done|]|]; cbn; apply lookup_insert_eq.
Qed.

Lemma bootstrap_founded io expected (st : state) t st' :
  get_tip (fst st) = None -> bootstrap genesis io expected st = Some (Ok t, st') -> founded expected t (fst st) (snd st) (fst st') (snd st').
Proof.
  intros Ht Hx. unfold bootstrap in Hx. apply boot_bind_Ok in Hx as (e1 & st1 & Hq & Hx). apply query_Ok in Hq as [-> ->]. apply boot_bind_Ok in Hx as ([] & st1 & He1 & Hx). apply ensure_Ok in He1 as [He1 ->].
  apply boot_bind_Ok in Hx as (e2 & st1 & Hq & Hx). apply query_Ok in Hq as [-> ->]. apply boot_bind_Ok in Hx as ([] & st1 & He2 & Hx). apply ensure_Ok in He2 as [He2 ->].
  cbv zeta in Hx. apply boot_bind_Ok in Hx as ([] & st1 & He3 & Hx). apply ensure_Ok in He3 as [He3 ->].
  apply boot_bind_Ok in Hx as (ms & st1 & Ha & Hx). apply boot_bind_Ok in Hx as ([] & st2 & Hc & Hx). injection Hx as <- <-.
  destruct st as [db s], st1 as [db1 s1]. cbn [fst snd] in *. pose proof (apply_genesis_Ok _ _ _ _ _ _ Ha) as [E Hs]. cbn [fst snd] in E, Hs. subst db1.
  unfold put in Hc. cbn [fst snd] in Hc. destruct (write_txn _ _ db) as [[[]|e] db'] eqn:Ew; [|done]. injection Hc as <-. cbn [fst snd].
  unfold write_txn in Ew. destruct (io BootCommitGenesis); [done|]. destruct (commit_genesis_atomic _ _ _ _) as [db2|] eqn:Eg; [|done]. injection Ew as ->.
  apply bool_decide_eq_true in He1, He2, He3. destruct (genesis_rows _ _ _ _ Eg) as [Hb Hw]. pose proof (commit_genesis_effect _ _ _ _ _ Eg) as [_ Hh Htip].
  split; [done|done|done|done|by exists ms|done| |done|done]. rewrite Hh. apply lookup_insert_eq.
Qed.

Lemma replay_backed io expected assume (st : state) t st' :
  replay_chain signature_domain coinbase_maturity genesis io expected assume st = Some (Ok t, st') ->
  backed expected t (fst st) (snd st') \/ founded expected t (fst st) (snd st) (fst st') (snd st').
Proof.
  unfold replay_chain. intros (tip & st1 & Hq & Hx)%boot_bind_Ok. apply query_Ok in Hq as [-> ->]. destruct (get_tip (fst st)) as [tip_id|] eqn:Ht.
  - left. apply boot_bind_Ok in Hx as (hd & st1 & Hq & Hx). apply query_Ok in Hq as [-> ->]. apply boot_bind_Ok in Hx as (hd & st1 & Hq & Hx). apply require_Ok in Hq as [Hhd ->].
    cbv zeta in Hx. apply boot_bind_Ok in Hx as (proven & st1 & Hp & Hx). assert (st1 = st) as -> by (destruct (assume && _); [by apply query_Ok in Hp as [_ ->]|by injection Hp]).
    apply boot_bind_Ok in Hx as ([pid w] & st1 & Hloop & Hx). cbv beta iota in Hx. apply boot_bind_Ok in Hx as ([] & st2 & He & Hx). apply ensure_Ok in He as [E ->].
    apply bool_decide_eq_true in E as ->. injection Hx as <- <-. pose proof (header_height_nonneg _ _ _ Hhd) as Hn.
    assert (forall x acc st r st', replay_block signature_domain coinbase_maturity io expected proven x acc st = Some (Ok r, st') -> fst st' = fst st) as Hkeep by (intros ????? Hr; by apply replay_block_Ok in Hr as [? _]).
    assert (get_block_id_by_height 0 (fst st) = Some expected) as Hgen.
    { rewrite seqZ_cons in Hloop by lia. cbn [for_each] in Hloop. apply boot_bind_Ok in Hloop as (r & st2 & Hr & _). apply replay_block_Ok in Hr as (_ & Hi & Hz & _). by rewrite <- (Hz eq_refl). }
    replace (seqZ 0 (height hd + 1)) with (seqZ 0 (height hd) ++ [height hd]) in Hloop by (rewrite seqZ_app by lia; f_equal; rewrite seqZ_cons by lia; by rewrite seqZ_nil by lia).
    rewrite for_each_app in Hloop. apply boot_bind_Ok in Hloop as (acc & st2 & Hfirst & Hlast). cbn [for_each] in Hlast. apply boot_bind_Ok in Hlast as (r & st3 & Hlast & Hret). injection Hret as -> ->.
    apply (for_each_state fst _ Hkeep) in Hfirst. apply replay_block_Ok in Hlast as (_ & _ & _ & b & Hb & Hroot). rewrite Hfirst in Hb.
    split_and!; [done|done|]. exists (header b). split; [right; eauto|done].
  - right. by eapply bootstrap_founded.
Qed.

Lemma rebuild_backed io expected assume migrate (st : state) t st' :
  is_Some (get_tip (fst st)) -> run_replay_and_maybe_migrate signature_domain coinbase_maturity genesis io expected assume migrate st = Some (Ok t, st') ->
  backed expected t (fst st) (snd st').
Proof.
  intros Htip. unfold run_replay_and_maybe_migrate. intros (t' & st1 & Hr & Hx)%boot_bind_Ok. apply boot_bind_Ok in Hx as ([] & st2 & Hm & Hx). injection Hx as <- <-.
  apply replay_backed in Hr as [Hr|Hf]; [|destruct (fd_empty _ _ _ _ _ _ Hf) as [Hn _]; rewrite Hn in Htip; by destruct Htip]. assert (snd st2 = snd st1) as ->; [|done]. destruct migrate; [|by injection Hm as <-]. unfold backfill_snapshot, put in Hm.
  destruct (write_txn _ _ _) as [[[]|e] db]; [by injection Hm as <-|done].
Qed.

(** C10: Start-up trusts no database.  Whatever the tables hold and whichever call
    of the database fails: if opening returns a tip, the stored tip is that tip,
    the block stored at height 0 is the genesis the node expects, and the root of
    the UTXO set in memory is the state root in the header of the tip; or the
    database was empty and the canonical genesis, which is the expected one, was
    committed: the database returned has it as its tip, at its height, as a block
    and with its work, and the UTXO set is what its transactions lead to. *)
Theorem open_refuses_foreign env expected assume migrate trust db (s : S) t db' s' :
  open_chain signature_domain coinbase_maturity genesis env expected assume migrate trust (db, s) = Some (Ok t, (db', s')) ->
  backed expected t db s' \/ founded expected t db s db' s'.
Proof.
  unfold open_chain. intros (tip & st1 & Hq & Hx)%boot_bind_Ok. apply query_Ok in Hq as [-> ->]. cbn [fst] in Hx. destruct (get_tip db) as [tip_id|] eqn:Ht; [|by apply replay_backed in Hx].
  apply boot_bind_Ok in Hx as (stored & st1 & Hq & Hx). apply query_Ok in Hq as [-> ->]. cbn [fst] in Hx. destruct (get_block_id_by_height 0 db) as [stored|] eqn:Hg; [|left; by apply rebuild_backed in Hx].
  destruct (decide _) as [Hne|Heq%dec_stable]; [done|]. subst stored. apply boot_bind_Ok in Hx as (snap & st1 & Hq & Hx). apply query_Ok in Hq as [-> ->].
  destruct (decide _) as [_|_]; [|left; by apply rebuild_backed in Hx]. left. unfold open_snapshot in Hx.
  apply boot_bind_Ok in Hx as (hd & st1 & Hq & Hx). apply query_Ok in Hq as [-> ->]. apply boot_bind_Ok in Hx as (hd & st1 & Hq & Hx). apply require_Ok in Hq as [Hhd ->]. cbv zeta in Hx.
  apply boot_bind_Ok in Hx as (proven & st1 & _ & Hx). apply boot_bind_Ok in Hx as ([[from pid] w] & st2 & _ & Hx). cbv beta iota in Hx.
  apply boot_bind_Ok in Hx as ([pid' w'] & st3 & _ & Hx). cbv beta iota in Hx. apply boot_bind_Ok in Hx as ([] & st4 & _ & Hx). apply boot_bind_Ok in Hx as (rows & st5 & _ & Hx).
  apply boot_bind_Ok in Hx as ([] & st6 & _ & Hx). apply boot_bind_Ok in Hx as (root & st7 & Hroot & Hx). injection Hroot as <- <-. apply boot_bind_Ok in Hx as ([] & st8 & He & Hx).
  apply ensure_Ok in He as [E ->]. apply bool_decide_eq_true in E. apply boot_bind_Ok in Hx as ([] & st9 & Hstamp & Hx). injection Hx as <- ->.
  assert (s' = snd st6) as ->.
  { destruct (from <=? height hd); [|by injection Hstamp as ->]. unfold put in Hstamp. destruct (write_txn _ _ _) as [[[]|e] db2]; [by injection Hstamp as _ ->|done]. }
  split_and!; [done|done|]. exists hd. by split; [left|].
Qed.
End Distrust.
