(* ===== verification/BootWitness.v ===== *)
(** * A node is restarted

    The small network of [ChainWitness.v]: a node that holds genesis, or a block
    on it, is opened again from its database. *)

From S2P Require Import Prelude Bytes Codec Hash Transaction Block Wire U256 Difficulty Reward.
From S2P Require Import ScriptValue ScriptCodec Jets ScriptCost Eval FeeCost Smt Utxo TxValidation BlockValidation BlockApply Mempool.
From S2P Require Import Storage ChainManager StoreView ChainModel StorageFacts ChainStore ChainState ChainWitness SnapshotFacts ChainOpen ChainBoot.
#[local] Open Scope Z_scope.

Section Restart.
#[local] Existing Instance sha.
#[local] Existing Instance sha_width.
(** A proof-of-work function that every nonce satisfies. *)
#[local] Instance easy_argon2 : Argon2 := fun _ _ _ _ _ _ => Ok zero32.
#[local] Existing Instance toy_ed25519.
#[local] Existing Instance toy_layout.
#[local] Existing Instance flat_root.
#[local] Instance map_entries : UtxoEntries utxo_map := fun u => map_to_list u.

Definition quiet_boot : BootEnv := {| open_io := fun _ => false; replay_io := fun _ => false |}.
Definition reopen (db : ChainStorage) : option (result BootError ChainTip * (ChainStorage * utxo_map)) :=
  open_chain sample_domain 360 g0 quiet_boot (block_id (header g0)) false true true (db, ∅).

Lemma genesis_database : grown sample_domain 360 net g0 [(g0, fst genesis_log)] (snd genesis_log) (storage node0).
Proof.
  destruct node0_started as [(ms & Ha & Hc) _ _]. apply grown_genesis.
  - change (transactions g0) with ([] ++ [coinbase_of g0]). change (fst genesis_log) with ([] ++ fst genesis_log).
    eapply applied_snoc; [constructor|exact genesis_applies].
  - assert (match commit_genesis_atomic g0 (work_from_target genesis_target) (fst genesis_log) empty_db with Ok _ => true | Err _ => false end = true) as Hok by (vm_compute; reflexivity).
    change (storage node0) with (match commit_genesis_atomic g0 (work_from_target genesis_target) (fst genesis_log) empty_db with Ok db => db | Err _ => empty_db end).
    change (difficulty_target (header g0)) with genesis_target.
    destruct (commit_genesis_atomic g0 (work_from_target genesis_target) (fst genesis_log) empty_db); [reflexivity|discriminate].
Qed.
Lemma genesis_reopens : match reopen (storage node0) with Some (Ok _, _) => true | _ => false end = true.
Proof. vm_compute. reflexivity. Qed.
Lemma restart_restores_witness : exists t db' s',
  reopen (storage node0) = Some (Ok t, (db', s')) /\ tip_ok net g0 [(g0, fst genesis_log)] t /\ s' = snd genesis_log.
Proof.
  pose proof genesis_reopens as Hok.
  pose proof (restart_restores sample_domain 360 net g0 net_world eq_refl (fun _ => reflexivity _) quiet_boot _ _ (storage node0) false true true ∅ genesis_database eq_refl) as Hr.
  change (open_chain sample_domain 360 g0 quiet_boot (block_id (header g0)) false true true (storage node0, ∅)) with (reopen (storage node0)) in Hr.
  destruct (reopen (storage node0)) as [[[t|e] [db' s']]|]; [|discriminate Hok..]. exists t, db', s'. split; [reflexivity|]. destruct Hr as (Ht & Hv & _). split; [exact Ht|exact Hv].
Defined.
Lemma empty_opens : match reopen empty_db with Some (Ok _, _) => true | _ => false end = true.
Proof. vm_compute. reflexivity. Qed.
(** On the database of a node that has genesis, and on an empty one. *)
Lemma open_refuses_foreign_witness :
  (exists t db' s', reopen (storage node0) = Some (Ok t, (db', s')) /\
     (backed (block_id (header g0)) t (storage node0) s' \/ founded g0 (block_id (header g0)) t (storage node0) ∅ db' s')) /\
  (exists t db' s', reopen empty_db = Some (Ok t, (db', s')) /\ founded g0 (block_id (header g0)) t empty_db ∅ db' s').
Proof.
  split.
  - pose proof genesis_reopens as Hok. destruct (reopen (storage node0)) as [[[t|e] [db' s']]|] eqn:E; [|discriminate Hok..]. exists t, db', s'. split; [reflexivity|].
    exact (open_refuses_foreign sample_domain 360 g0 quiet_boot (block_id (header g0)) false true true (storage node0) ∅ t db' s' E).
  - pose proof empty_opens as Hok. destruct (reopen empty_db) as [[[t|e] [db' s']]|] eqn:E; [|discriminate Hok..]. exists t, db', s'. split; [reflexivity|].
    unfold reopen in E. destruct (open_refuses_foreign sample_domain 360 g0 quiet_boot (block_id (header g0)) false true true empty_db ∅ t db' s' E) as [(Hb & _)|Hf]; [discriminate Hb|exact Hf].
Defined.

(** After a block was accepted: from the snapshot, and by replay once the snapshot
    is cleared, the same tip and the same set; another genesis is refused. *)
Definition after_b1 : option (@Node utxo_map) :=
  match process_block_inner sample_domain 360 calm b1 true node0 with Some (Ok Accepted, n) => Some n | _ => None end.
Definition cleared (db : ChainStorage) : ChainStorage := match clear_utxo_snapshot db with Ok db => db | Err _ => db end.
Definition restored (n : Node) (db : ChainStorage) : bool :=
  match reopen db with
  | Some (Ok t, (_, s)) => bool_decide (tip_block_id t = tip_block_id (tip n) /\ cumulative_work t = cumulative_work (tip n) /\ s = utxo_set n)
  | _ => false
  end.
Example both_paths_restore : (fun n => (restored n (storage n), restored n (cleared (storage n)))) <$> after_b1 = Some (true, true).
Proof. vm_compute. reflexivity. Qed.
(** After the node has reorganised from [b1] to [c1] and [c2]. *)
Example restored_after_reorganisation :
  (fun c => (restored (fst c) (storage (fst c)), restored (fst c) (cleared (storage (fst c))))) <$> acts race (node0, []) = Some (true, true).
Proof. vm_compute. reflexivity. Qed.
Example foreign_genesis_refused :
  match open_chain sample_domain 360 g0 quiet_boot (block_id (header b1)) false true true (storage node0, ∅) with
  | Some (Err (GenesisMismatch _), _) => True
  | _ => False
  end.
Proof. vm_compute. exact I. Qed.
End Restart.
