(* ===== verification/TipValidation.v ===== *)
(** * Forward validation of a peer's tip ([src/network/tip_validation.rs] and
      [run_tip_forward_validation] of [src/network/sync.rs])

    A peer claims a tip.  Before the claim counts, a task finds a block that both
    chains share (or fetches the checkpoint header), asks the peer for the headers
    from there to its tip, checks each of them with the exact consensus difficulty
    and its proof of work, and adds up the work.

    The task runs beside the rest of the node, so nothing it observes is stable:
    an operation is a function on a counter of observations ([tv]), and the
    environment [View] says for each of them what the clock, the database and the
    peer's answers are at that moment.  A step that reads several headers from the
    database sees one state of it.  [None] is a loop that does not end within its
    fuel; the theorems show that there is none.  The token bucket in front of the
    proof-of-work check only delays, and is left out. *)

From Stdlib Require Import Strings.String.
From S2P Require Import Prelude Bytes Codec Hash Transaction Block Wire U256 Difficulty.
From S2P Require Import Storage ChainManager.
#[local] Open Scope Z_scope.
#[local] Open Scope list_scope.

Definition MAX_CONCURRENT_TIP_VALIDATIONS : Z := 4.
Definition MAX_CONCURRENT_TIP_VALIDATIONS_BOOTSTRAP : Z := 4.
Definition BOOTSTRAP_COORDINATOR_DEADLINE_SECS : Z := 300.
Definition BOOTSTRAP_COORDINATOR_STALL_SECS : Z := 90.
Definition MAX_VALIDATION_ARGON2_PER_SEC : Z := 20.
Definition VALIDATION_ARGON2_PER_CORE_BOOTSTRAP : Z := 10.
Definition TIP_VALIDATION_DEADLINE_FLOOR_SECS : Z := 7200.
Definition TIP_VALIDATION_DEADLINE_SCALE_PCT : Z := 150.

(** ** Errors: messages as the values they print *)

Inductive invalid_header :=
| WrongParent (got expected : Hash256)
| WrongHeight (got expected : Z)
| WrongTarget (h : Z) (got expected : Hash256)
| PowFailed (h : Z)
| CheckpointCount (n : Z)
| CheckpointHeight (h : Z)
| CheckpointHash (id : Hash256)
| ProbeHeight (got expected n : Z)
| MalformedBatch (start first n limit : Z)
| PrechainIncomplete (got expected : Z)
| PrechainBreak (i : Z) (got expected : Hash256)
| WrongEnd (got claimed : Hash256).

Inductive internal_error :=
| InDifficulty (e : DifficultyError) | InPow (e : PowError) | InSpawn | InStorage
| NoAnchorBlock (h : Z) | NoAnchorHeader (id : Hash256) | NoAnchorWork (id : Hash256)
| UntrustedCheckpoint | NoTrustedCheckpoint.

Inductive TipValidationError :=
| DeliveredInvalidHeader (m : invalid_header)
| FetchTimeout | DeadlineExceeded | AnchorOrphaned | NoSlotAvailable | PeerDisconnected | BootstrapStalled
| PeerNoForwardData (h : Z)
| Internal (m : internal_error).

(** ** Regimes *)

Inductive ValidationRegime := Bootstrap | SteadyState.
#[export] Instance ValidationRegime_eq_dec : EqDecision ValidationRegime.
Proof. solve_decision. Defined.

Definition select (our_tip_height : Z) (assume_valid : bool) : ValidationRegime :=
  if our_tip_height =? 0 then Bootstrap else SteadyState.
Definition max_concurrent (r : ValidationRegime) : Z :=
  match r with
  | Bootstrap => MAX_CONCURRENT_TIP_VALIDATIONS_BOOTSTRAP
  | SteadyState => MAX_CONCURRENT_TIP_VALIDATIONS
  end.
(** [cores] is what [available_parallelism] reports, if anything; the product is
    of type [u32]. *)
Definition argon2_rate_per_sec (cores : option Z) (r : ValidationRegime) : Z :=
  match r with
  | Bootstrap => (Z.max (default 1 ((fun n => n mod 2 ^ 32) <$> cores)) 1 * VALIDATION_ARGON2_PER_CORE_BOOTSTRAP) mod 2 ^ 32
  | SteadyState => MAX_VALIDATION_ARGON2_PER_SEC
  end.
(** In seconds. *)
Definition compute_deadline (cores : option Z) (expected_headers : Z) (r : ValidationRegime) : Z :=
  let rate := Z.max (argon2_rate_per_sec cores r) 1 in
  let expected_argon2_secs := expected_headers / rate in
  let scaled := wrap64 (wrap64 (expected_argon2_secs * TIP_VALIDATION_DEADLINE_SCALE_PCT) + 99) / 100 in
  let floor := match r with
               | Bootstrap => BOOTSTRAP_COORDINATOR_DEADLINE_SECS
               | SteadyState => TIP_VALIDATION_DEADLINE_FLOOR_SECS
               end in
  Z.max scaled floor.

Record VerifiedTip := {
  vt_height : Z; vt_block_id : Hash256; verified_cumulative_work : bytes;
  vt_anchor_height : Z; vt_anchor_block_id : Hash256; headers_validated : Z
}.
Definition should_strike (outcome : result TipValidationError VerifiedTip) : bool :=
  match outcome with Err (DeliveredInvalidHeader _) => true | _ => false end.

Definition build_get_headers (start max : Z) : Message := MGetHeaders {| start_height := start; max_count := max |}.

(** ** Observations *)

(** What waiting on the subscriber's channel gives. *)
Inductive delivery := Delivered (hs : list BlockHeader) | Closed | TimedOut.

Record View := {
  our_tip : Z;
  av_enabled : bool;
  cores : option Z;
  av_trusted : nat -> bool;
  send_ok : nat -> bool;
  answer : nat -> Message -> delivery;
  db_at : nat -> ChainStorage;
  read_fails : nat -> bool;
  header_fails : nat -> Hash256 -> bool;
  clock : nat -> Z;
  spawn_ok : nat -> bool
}.

Definition tv (A : Type) : Type := nat -> option (result TipValidationError A * nat).
#[export] Instance tv_ret : MRet tv := fun A a k => Some (Ok a, k).
#[export] Instance tv_bind : MBind tv := fun A B f c k =>
  match c k with
  | Some (Ok a, k) => f a k
  | Some (Err e, k) => Some (Err e, k)
  | None => None
  end.
Definition throw {A} (e : TipValidationError) : tv A := fun k => Some (Err e, k).
Definition observe {A} (f : nat -> A) : tv A := fun k => Some (Ok (f k), S k).
Definition lift {A} (r : result TipValidationError A) : tv A := fun k => Some (r, k).
Definition diverge {A} : tv A := fun _ => None.
Definition guard_err (ok : bool) (e : TipValidationError) : tv unit := if ok then mret tt else throw e.

(** [subscriber.recv()] within the batch timeout. *)
Definition await_header_batch (d : delivery) : result TipValidationError (list BlockHeader) :=
  match d with
  | Delivered hs => Ok hs
  | Closed => Err PeerDisconnected
  | TimedOut => Err FetchTimeout
  end.
(** A request and the wait for its answer. *)
Definition ask (v : View) (start count : Z) : tv (list BlockHeader) :=
  sent ← observe (send_ok v);
  _ ← guard_err sent PeerDisconnected;
  d ← observe (fun k => answer v k (build_get_headers start count));
  lift (await_header_batch d).
(** A storage call whose error is propagated. *)
Definition read_db {A} (v : View) (f : ChainStorage -> A) : tv A :=
  r ← observe (fun k => if read_fails v k then Err (Internal InStorage) else Ok (f (db_at v k)));
  lift r.
(** [storage.f().ok().flatten()] *)
Definition read_soft {A} (v : View) (f : ChainStorage -> option A) : tv (option A) :=
  observe (fun k => if read_fails v k then None else f (db_at v k)).
Definition check_deadline (v : View) (deadline : Z) : tv unit :=
  t ← observe (clock v);
  guard_err (t <? deadline) DeadlineExceeded.

Definition anchor_work (v : View) (anchor_id : Hash256) (is_checkpoint_anchor trusted : bool) : tv bytes :=
  if is_checkpoint_anchor then
    if trusted then mret ASSUME_VALID_CUMULATIVE_WORK else throw (Internal UntrustedCheckpoint)
  else
    w ← read_db v (get_cumulative_work anchor_id);
    lift (ok_or w (Internal (NoAnchorWork anchor_id))).

Definition anchor_still_canonical (v : View) (h : Z) (id : Hash256) : tv bool :=
  canonical ← read_db v (get_block_id_by_height h);
  mret (bool_decide (canonical = Some id)).

Section Validation.
Context `{Sha2} `{Argon2}.

(** ** Headers *)

(** [batch] is ordered from the newest header to the oldest; [i] is the position
    in the whole batch. *)
Fixpoint authenticate_from (i : Z) (expected : Hash256) (batch : list BlockHeader) : result TipValidationError unit :=
  match batch with
  | [] => Ok tt
  | h :: batch =>
      let computed := block_id h in
      if negb (bool_decide (computed = expected)) then Err (DeliveredInvalidHeader (PrechainBreak i computed expected))
      else authenticate_from (i + 1) (prev_block_id h) batch
  end.
Definition authenticate_prechckpt_headers (anchor : BlockHeader) (batch : list BlockHeader) : result TipValidationError unit :=
  authenticate_from 0 (prev_block_id anchor) batch.

Abbreviation known := (gmap Hash256 BlockHeader).
(** The overlay on the storage as it is at observation [k]. *)
Definition overlay_at (v : View) (m : known) (k : nat) : ForwardHeaderOverlay := {|
  fo_storage := fun id => if header_fails v k id then Err (DOther "storage error") else Ok (get_header id (db_at v k));
  overlay := m
|}.
Definition remember (m : known) (h : BlockHeader) : known := <[block_id h := h]> m.

Definition validate_one_forward_header (v : View) (m : known) (parent_id : Hash256) (expected_height : Z) (h : BlockHeader)
  : tv known :=
  if negb (bool_decide (prev_block_id h = parent_id)) then throw (DeliveredInvalidHeader (WrongParent (prev_block_id h) parent_id))
  else if negb (height h =? expected_height) then throw (DeliveredInvalidHeader (WrongHeight (height h) expected_height))
  else
    r ← observe (fun k => expected_difficulty_overlay (overlay_at v m k) (prev_block_id h) (height h));
    target ← lift (map_err (fun e => Internal (InDifficulty e)) r);
    if negb (bool_decide (difficulty_target h = target))
    then throw (DeliveredInvalidHeader (WrongTarget (height h) (difficulty_target h) target))
    else
      spawned ← observe (spawn_ok v);
      _ ← guard_err spawned (Internal InSpawn);
      ok ← lift (map_err (fun e => Internal (InPow e)) (verify_pow h));
      if negb ok then throw (DeliveredInvalidHeader (PowFailed (height h)))
      else mret (remember m h).

Definition sum_forward_work (anchor_work : bytes) (hs : list BlockHeader) : bytes :=
  fold_left (fun total h => add_work total (work_from_target (difficulty_target h))) hs anchor_work.

Definition interpret_ancestor_probe_response (hs : list BlockHeader) (expected_height : Z) (ours : option Hash256)
  : result invalid_header (option bool) :=
  match hs with
  | [] => Ok None
  | h :: _ =>
      if negb (height h =? expected_height) then Err (ProbeHeight (height h) expected_height (len hs))
      else Ok ((fun our => bool_decide (our = block_id h)) <$> ours)
  end.

(** ** The anchor *)

(** Ask the peer for its header at height [h], and compare it with our chain. *)
Definition probe (v : View) (h : Z) : tv bool :=
  hs ← ask v h 1;
  ours ← read_soft v (get_block_id_by_height h);
  match interpret_ancestor_probe_response hs h ours with
  | Ok (Some b) => mret b
  | Ok None => throw (PeerNoForwardData h)
  | Err m => throw (DeliveredInvalidHeader m)
  end.

(** Binary search for the last shared height; the interval shrinks in every
    round. *)
Fixpoint search (fuel : nat) (v : View) (deadline lo hi : Z) : tv Z :=
  match fuel with
  | O => diverge
  | S fuel =>
      if lo <? hi then
        _ ← check_deadline v deadline;
        let mid := lo + div_ceil (hi - lo) 2 in
        shared ← probe v mid;
        if shared : bool then search fuel v deadline mid hi else search fuel v deadline lo (saturating_sub mid 1)
      else mret lo
  end.

Record Anchor := { a_height : Z; a_id : Hash256; a_header : BlockHeader; is_checkpoint : bool }.

(** Path 2b: the checkpoint header, from the peer. *)
Definition checkpoint_anchor (v : View) : tv Anchor :=
  hs ← ask v ASSUME_VALID_HEIGHT 1;
  match hs with
  | [] => throw (PeerNoForwardData ASSUME_VALID_HEIGHT)
  | [h] =>
      if negb (height h =? ASSUME_VALID_HEIGHT) then throw (DeliveredInvalidHeader (CheckpointHeight (height h)))
      else if negb (bool_decide (block_id h = ASSUME_VALID_HASH)) then throw (DeliveredInvalidHeader (CheckpointHash (block_id h)))
      else mret {| a_height := ASSUME_VALID_HEIGHT; a_id := block_id h; a_header := h; is_checkpoint := true |}
  | _ => throw (DeliveredInvalidHeader (CheckpointCount (len hs)))
  end.
(** Path 2a: the last block that the peer's chain shares with ours. *)
Definition ancestor_anchor (v : View) (deadline claim_height : Z) : tv Anchor :=
  let our_height := Z.min (our_tip v) claim_height in
  shared ← probe v our_height;
  h ← (if shared : bool then mret our_height else search (S (Z.to_nat our_height)) v deadline 0 our_height);
  id ← read_db v (get_block_id_by_height h);
  id ← lift (ok_or id (Internal (NoAnchorBlock h)));
  hdr ← read_db v (get_header id);
  hdr ← lift (ok_or hdr (Internal (NoAnchorHeader id)));
  mret {| a_height := h; a_id := id; a_header := hdr; is_checkpoint := false |}.

(** ** Retarget lookback below the checkpoint *)

Definition first_post_checkpoint_retarget : Z := (ASSUME_VALID_HEIGHT / RETARGET_WINDOW + 1) * RETARGET_WINDOW.
Definition lookback_span : Z := RETARGET_WINDOW - 1.
Definition lookback_start : Z := saturating_sub ASSUME_VALID_HEIGHT lookback_span.

(** A batch that was asked for from [start] with at most [count] headers. *)
Definition ask_batch (v : View) (start count : Z) : tv (list BlockHeader) :=
  batch ← ask v start count;
  match batch with
  | [] => throw (PeerNoForwardData start)
  | h :: _ =>
      if negb (height h =? start) || (count <? len batch)
      then throw (DeliveredInvalidHeader (MalformedBatch start (height h) (len batch) count))
      else mret batch
  end.
Fixpoint fetch_lookback (fuel : nat) (v : View) (deadline next_h : Z) (collected_asc : list BlockHeader) : tv (list BlockHeader) :=
  match fuel with
  | O => diverge
  | S fuel =>
      if next_h <? ASSUME_VALID_HEIGHT then
        _ ← check_deadline v deadline;
        batch ← ask_batch v next_h (Z.min (ASSUME_VALID_HEIGHT - next_h) MAX_GETBLOCKS_ITEMS);
        fetch_lookback fuel v deadline (next_h + len batch) (collected_asc ++ batch)
      else mret collected_asc
  end.
Definition lookback (v : View) (deadline : Z) (anchor : BlockHeader) (m : known) : tv known :=
  collected_asc ← fetch_lookback (S (Z.to_nat lookback_span)) v deadline lookback_start [];
  _ ← guard_err (len collected_asc =? lookback_span)
        (DeliveredInvalidHeader (PrechainIncomplete (len collected_asc) lookback_span));
  _ ← lift (authenticate_prechckpt_headers anchor (rev collected_asc));
  mret (fold_left remember collected_asc m).

(** ** The forward walk *)

Record Walk := { w_known : known; w_validated : list BlockHeader; w_last : Hash256; w_next : Z; w_progress : Z }.

Fixpoint walk_batch (v : View) (batch : list BlockHeader) (w : Walk) : tv Walk :=
  match batch with
  | [] => mret w
  | h :: batch =>
      m ← validate_one_forward_header v (w_known w) (w_last w) (w_next w) h;
      t ← observe (clock v);
      walk_batch v batch {|
        w_known := m; w_validated := w_validated w ++ [h]; w_last := block_id h; w_next := w_next w + 1; w_progress := t |}
  end.
(** Every round that does not end the walk advances [w_next]. *)
Fixpoint walk_forward (fuel : nat) (v : View) (deadline : Z) (r : ValidationRegime) (claim_height : Z) (w : Walk) : tv Walk :=
  match fuel with
  | O => diverge
  | S fuel =>
      if w_next w <=? claim_height then
        _ ← check_deadline v deadline;
        t ← observe (clock v);
        _ ← guard_err (negb (bool_decide (r = Bootstrap) && (BOOTSTRAP_COORDINATOR_STALL_SECS * SECOND <=? t - w_progress w))) BootstrapStalled;
        batch ← ask_batch v (w_next w) (Z.min ((claim_height - w_next w + 1) mod 2 ^ 32) MAX_GETBLOCKS_ITEMS);
        w ← walk_batch v batch w;
        walk_forward fuel v deadline r claim_height w
      else mret w
  end.

(** ** The attempt *)

(** The result, and the headers that were validated on the way to it. *)
Definition validate_from (v : View) (deadline : Z) (r : ValidationRegime) (claim_height : Z) (claim_id : Hash256) (a : Anchor)
  : tv (VerifiedTip * list BlockHeader) :=
  if claim_height <=? a_height a then
    trusted ← observe (av_trusted v);
    work ← anchor_work v (a_id a) (is_checkpoint a) trusted;
    mret ({| vt_height := claim_height; vt_block_id := claim_id; verified_cumulative_work := work;
             vt_anchor_height := a_height a; vt_anchor_block_id := a_id a; headers_validated := 0 |}, [])
  else
    let m := remember ∅ (a_header a) in
    m ← (if is_checkpoint a && (first_post_checkpoint_retarget <=? claim_height)
         then lookback v deadline (a_header a) m else mret m);
    t ← observe (clock v);
    w ← walk_forward (S (Z.to_nat (claim_height - a_height a))) v deadline r claim_height
          {| w_known := m; w_validated := []; w_last := a_id a; w_next := a_height a + 1; w_progress := t |};
    if negb (bool_decide (w_last w = claim_id)) then throw (DeliveredInvalidHeader (WrongEnd (w_last w) claim_id))
    else
      trusted ← observe (av_trusted v);
      work ← anchor_work v (a_id a) (is_checkpoint a) trusted;
      canonical ← (if is_checkpoint a then mret true else anchor_still_canonical v (a_height a) (a_id a));
      _ ← guard_err canonical AnchorOrphaned;
      mret ({| vt_height := claim_height; vt_block_id := claim_id;
               verified_cumulative_work := sum_forward_work work (w_validated w);
               vt_anchor_height := a_height a; vt_anchor_block_id := a_id a; headers_validated := len (w_validated w) |},
            w_validated w).

(** The body of the attempt, once it holds a slot. *)
Definition validate_tip (v : View) (claim_height : Z) (claim_id : Hash256) : tv (VerifiedTip * list BlockHeader) :=
  let r := select (our_tip v) (av_enabled v) in
  t ← observe (clock v);
  let deadline := t + compute_deadline (cores v) (saturating_sub claim_height (our_tip v)) r * SECOND in
  trusted ← observe (av_trusted v);
  a ← match r with
      | Bootstrap => if av_enabled v && trusted then checkpoint_anchor v else throw (Internal NoTrustedCheckpoint)
      | SteadyState => ancestor_anchor v deadline claim_height
      end;
  validate_from v deadline r claim_height claim_id a.
End Validation.

(** ** The coordinator *)

Abbreviation PeerId := bytes.
Abbreviation session := (PeerId * Z)%type.
(** Headers validated for a peer, under their identifiers. *)
Abbreviation PreValidatedHeaderCache := (gmap PeerId (gmap Hash256 BlockHeader)).

Section Coordinator.
Context `{Sha2} `{Argon2}.

Definition cache_insert (peer : PeerId) (h : BlockHeader) (c : PreValidatedHeaderCache) : PreValidatedHeaderCache :=
  <[peer := <[block_id h := h]> (default ∅ (c !! peer))]> c.
Definition cache_lookup (peer : PeerId) (id : Hash256) (c : PreValidatedHeaderCache) : option BlockHeader := c !! peer ≫= (.!! id).
Definition lookup_any (id : Hash256) (c : PreValidatedHeaderCache) : option BlockHeader :=
  head (omap (fun pm => snd pm !! id) (map_to_list c)).
Definition clear_peer (peer : PeerId) (c : PreValidatedHeaderCache) : PreValidatedHeaderCache := delete peer c.
Definition len_for (peer : PeerId) (c : PreValidatedHeaderCache) : Z := from_option (fun m => Z.of_nat (size m)) 0 (c !! peer).
Definition total_len (c : PreValidatedHeaderCache) : Z :=
  foldr (fun pm n => Z.of_nat (size (snd pm : gmap Hash256 BlockHeader)) + n) 0 (map_to_list c).

(** Free permits of the two semaphores, the queues of the subscribers (the newest
    batch last), the cache, and the reservations. *)
Record TipValidationCoordinator := {
  bootstrap_sem : Z; steady_state_sem : Z; rate_capacity : Z;
  subscribers : gmap session (list (list BlockHeader));
  cache : PreValidatedHeaderCache;
  active : gset session
}.
Definition coordinator_new : TipValidationCoordinator := {|
  bootstrap_sem := MAX_CONCURRENT_TIP_VALIDATIONS_BOOTSTRAP; steady_state_sem := MAX_CONCURRENT_TIP_VALIDATIONS;
  rate_capacity := MAX_VALIDATION_ARGON2_PER_SEC; subscribers := ∅; cache := ∅; active := ∅ |}.
Definition semaphore_for (r : ValidationRegime) (c : TipValidationCoordinator) : Z :=
  match r with Bootstrap => bootstrap_sem c | SteadyState => steady_state_sem c end.
Definition with_permits (r : ValidationRegime) (n : Z) (c : TipValidationCoordinator) : TipValidationCoordinator :=
  match r with
  | Bootstrap => Build_TipValidationCoordinator n (steady_state_sem c) (rate_capacity c) (subscribers c) (cache c) (active c)
  | SteadyState => Build_TipValidationCoordinator (bootstrap_sem c) n (rate_capacity c) (subscribers c) (cache c) (active c)
  end.
Definition set_rate (n : Z) (c : TipValidationCoordinator) : TipValidationCoordinator :=
  Build_TipValidationCoordinator (bootstrap_sem c) (steady_state_sem c) n (subscribers c) (cache c) (active c).
Definition with_subscribers (m : gmap session (list (list BlockHeader))) (c : TipValidationCoordinator) : TipValidationCoordinator :=
  Build_TipValidationCoordinator (bootstrap_sem c) (steady_state_sem c) (rate_capacity c) m (cache c) (active c).
Definition with_prevalidated (m : PreValidatedHeaderCache) (c : TipValidationCoordinator) : TipValidationCoordinator :=
  Build_TipValidationCoordinator (bootstrap_sem c) (steady_state_sem c) (rate_capacity c) (subscribers c) m (active c).
Definition with_active (s : gset session) (c : TipValidationCoordinator) : TipValidationCoordinator :=
  Build_TipValidationCoordinator (bootstrap_sem c) (steady_state_sem c) (rate_capacity c) (subscribers c) (cache c) s.

(** [HashSet::insert] tells whether the element is new. *)
Definition try_reserve (s : session) (c : TipValidationCoordinator) : bool * TipValidationCoordinator :=
  (negb (bool_decide (s ∈ active c)), with_active ({[s]} ∪ active c) c).
Definition release_reservation (s : session) (c : TipValidationCoordinator) : TipValidationCoordinator :=
  with_active (active c ∖ {[s]}) c.
Definition is_active (s : session) (c : TipValidationCoordinator) : bool := bool_decide (s ∈ active c).

(** A new channel replaces an older one. *)
Definition install_headers_subscriber (s : session) (c : TipValidationCoordinator) : TipValidationCoordinator :=
  with_subscribers (<[s := []]> (subscribers c)) c.
Definition remove_headers_subscriber (s : session) (c : TipValidationCoordinator) : TipValidationCoordinator :=
  with_subscribers (delete s (subscribers c)) c.
Definition SUBSCRIBER_CAPACITY : Z := 32.
(** A batch that does not fit is dropped; either way the message is handled. *)
Definition route_headers_if_subscribed (s : session) (hs : list BlockHeader) (c : TipValidationCoordinator)
  : bool * TipValidationCoordinator :=
  match subscribers c !! s with
  | Some q => (true, if len q <? SUBSCRIBER_CAPACITY then with_subscribers (<[s := q ++ [hs]]> (subscribers c)) c else c)
  | None => (false, c)
  end.

(** [try_acquire_owned], and dropping the permit. *)
Definition try_acquire (r : ValidationRegime) (c : TipValidationCoordinator) : option TipValidationCoordinator :=
  if 0 <? semaphore_for r c then Some (with_permits r (semaphore_for r c - 1) c) else None.
Definition drop_permit (r : ValidationRegime) (c : TipValidationCoordinator) : TipValidationCoordinator :=
  with_permits r (semaphore_for r c + 1) c.

(** The start of an attempt: a slot, the rate, the channel. *)
Definition begin_attempt (cores : option Z) (r : ValidationRegime) (s : session) (c : TipValidationCoordinator)
  : result TipValidationError TipValidationCoordinator :=
  match try_acquire r c with
  | Some c => Ok (install_headers_subscriber s (set_rate (argon2_rate_per_sec cores r) c))
  | None => Err NoSlotAvailable
  end.
(** Its end: the cache on success, the slot, the channel. *)
Definition end_attempt (r : ValidationRegime) (s : session) (outcome : result TipValidationError (VerifiedTip * list BlockHeader))
    (c : TipValidationCoordinator) : TipValidationCoordinator :=
  let c := match outcome with
           | Ok (_, hs) => with_prevalidated (fold_left (fun m h => cache_insert (fst s) h m) hs (cache c)) c
           | Err _ => c
           end in
  remove_headers_subscriber s (drop_permit r c).

(** The whole attempt, when no other task runs in between. *)
Definition run_tip_forward_validation (v : View) (k : nat) (s : session) (claim_height : Z) (claim_id : Hash256)
    (c : TipValidationCoordinator) : option (result TipValidationError VerifiedTip * bool * TipValidationCoordinator) :=
  let r := select (our_tip v) (av_enabled v) in
  match begin_attempt (cores v) r s c with
  | Err e => Some (Err e, should_strike (Err e), remove_headers_subscriber s c)
  | Ok c =>
      match validate_tip v claim_height claim_id k with
      | Some (o, _) =>
          let outcome := match o with Ok (t, _) => Ok t | Err e => Err e end in
          Some (outcome, should_strike outcome, end_attempt r s o c)
      | None => None
      end
  end.

(** Interleavings.  A task is spawned with a reservation, holds a slot once it has
    begun, and gives both back at its end.  A session that disconnects gives its
    reservation back at once; [gone] remembers it. *)
Record Task := { t_session : session; t_slot : option ValidationRegime }.
Record TipState := { coord : TipValidationCoordinator; tasks : list Task; gone : gset session }.

Inductive tip_step : TipState -> TipState -> Prop :=
| step_spawn s c ts g :
    fst (try_reserve s c) = true ->
    tip_step {| coord := c; tasks := ts; gone := g |}
             {| coord := snd (try_reserve s c); tasks := {| t_session := s; t_slot := None |} :: ts; gone := g |}
| step_refused s c ts g :
    fst (try_reserve s c) = false ->
    tip_step {| coord := c; tasks := ts; gone := g |} {| coord := snd (try_reserve s c); tasks := ts; gone := g |}
| step_begin cores r s c c' ts1 ts2 g :
    begin_attempt cores r s c = Ok c' ->
    tip_step {| coord := c; tasks := ts1 ++ {| t_session := s; t_slot := None |} :: ts2; gone := g |}
             {| coord := c'; tasks := ts1 ++ {| t_session := s; t_slot := Some r |} :: ts2; gone := g |}
| step_no_slot cores r s c e ts1 ts2 g :
    begin_attempt cores r s c = Err e ->
    tip_step {| coord := c; tasks := ts1 ++ {| t_session := s; t_slot := None |} :: ts2; gone := g |}
             {| coord := release_reservation s (remove_headers_subscriber s c); tasks := ts1 ++ ts2; gone := g |}
| step_end v k k' claim_height claim_id o r s c ts1 ts2 g :
    validate_tip v claim_height claim_id k = Some (o, k') ->
    tip_step {| coord := c; tasks := ts1 ++ {| t_session := s; t_slot := Some r |} :: ts2; gone := g |}
             {| coord := release_reservation s (end_attempt r s o c); tasks := ts1 ++ ts2; gone := g |}
| step_unspawned s c ts g :
    fst (try_reserve s c) = true ->
    tip_step {| coord := c; tasks := ts; gone := g |}
             {| coord := release_reservation s (snd (try_reserve s c)); tasks := ts; gone := g |}
| step_clear peer c ts g :
    tip_step {| coord := c; tasks := ts; gone := g |}
             {| coord := with_prevalidated (clear_peer peer (cache c)) c; tasks := ts; gone := g |}
| step_route s hs c ts g :
    tip_step {| coord := c; tasks := ts; gone := g |} {| coord := snd (route_headers_if_subscribed s hs c); tasks := ts; gone := g |}
| step_receive s b q c ts g :
    subscribers c !! s = Some (b :: q) ->
    tip_step {| coord := c; tasks := ts; gone := g |}
             {| coord := with_subscribers (<[s := q]> (subscribers c)) c; tasks := ts; gone := g |}
| step_disconnect s c ts g :
    tip_step {| coord := c; tasks := ts; gone := g |}
             {| coord := release_reservation s (with_prevalidated (clear_peer (fst s) (cache c)) c); tasks := ts; gone := {[s]} ∪ g |}.

Definition tip_start : TipState := {| coord := coordinator_new; tasks := []; gone := ∅ |}.
End Coordinator.
