(* ===== verification/TipSoundness.v ===== *)
(** * What a verified tip means

    Total-correctness triples for the operations of [TipValidation], and the two
    sides of the attempt: whatever the peer sends, a verified tip is the end of a
    chain of valid headers on the anchor; and a peer that serves a valid chain is
    confirmed when nothing fails, and is not struck when something does. *)

From Stdlib Require Import Strings.String.
From S2P Require Import Prelude Bytes Codec Hash Transaction Block Wire U256 Difficulty.
From S2P Require Import Storage ChainManager TipValidation.
#[local] Open Scope Z_scope.
#[local] Open Scope list_scope.

(** ** Triples *)

(** From every observation on, [c] ends, with a value in [ok] or an error in
    [bad]. *)
Definition spec {A} (c : tv A) (ok : A -> Prop) (bad : TipValidationError -> Prop) : Prop := forall k,
  match c k with
  | Some (Ok a, _) => ok a
  | Some (Err e, _) => bad e
  | None => False
  end.

Section Triples.
Variable bad : TipValidationError -> Prop.

Lemma spec_bind {A B} (c : tv A) (f : A -> tv B) P Q :
  spec c P bad -> (forall a, P a -> spec (f a) Q bad) -> spec (c ≫= f) Q bad.
Proof.
  intros Hc Hf k. unfold mbind, tv_bind. specialize (Hc k). destruct (c k) as [[[a|e] k']|]; [|done..]. by apply Hf.
Qed.
Lemma spec_ret {A} (a : A) (Q : A -> Prop) : Q a -> spec (mret a) Q bad.
Proof. by intros ? k. Qed.
Lemma spec_throw {A} e (Q : A -> Prop) : bad e -> spec (throw e) Q bad.
Proof. by intros ? k. Qed.
Lemma spec_lift {A} (r : result TipValidationError A) (Q : A -> Prop) :
  match r with Ok a => Q a | Err e => bad e end -> spec (lift r) Q bad.
Proof. intros ? k. simpl. by destruct r. Qed.
Lemma spec_guard (b : bool) e (Q : unit -> Prop) : (b = true -> Q tt) -> (b = false -> bad e) -> spec (guard_err b e) Q bad.
Proof. destruct b; intros HQ Hb k; simpl; auto. Qed.
Lemma spec_mono {A} (c : tv A) (P Q : A -> Prop) : spec c P bad -> (forall a, P a -> Q a) -> spec c Q bad.
Proof. intros Hc HPQ k. specialize (Hc k). destruct (c k) as [[[a|e] k']|]; auto. Qed.

(** Each observation as a bind. *)
Lemma spec_observe {A B} (f : nat -> A) (g : A -> tv B) Q :
  (forall k, spec (g (f k)) Q bad) -> spec (observe f ≫= g) Q bad.
Proof. intros Hg k. exact (Hg k (S k)). Qed.
Lemma spec_read {A} v (f : ChainStorage -> A) (Q : A -> Prop) :
  (forall k, read_fails v k = true -> bad (Internal InStorage)) -> (forall k, read_fails v k = false -> Q (f (db_at v k))) ->
  spec (read_db v f) Q bad.
Proof.
  intros Hbad Hok. apply spec_observe. intros k. apply spec_lift. destruct (read_fails v k) eqn:E; [by eapply Hbad|by apply Hok].
Qed.
Lemma spec_ask v start count (Q : list BlockHeader -> Prop) :
  (forall k, send_ok v k = false -> bad PeerDisconnected) ->
  (forall k, match answer v k (build_get_headers start count) with
             | Delivered hs => Q hs
             | Closed => bad PeerDisconnected
             | TimedOut => bad FetchTimeout
             end) ->
  spec (ask v start count) Q bad.
Proof.
  intros Hs Ha. apply spec_observe. intros k. eapply spec_bind with (P := fun _ => True).
  - apply spec_guard; [done|]. by apply Hs.
  - intros _ _. apply spec_observe. intros k'. apply spec_lift. specialize (Ha k'). by destruct (answer v k' _).
Qed.
Lemma spec_deadline v d (Q : unit -> Prop) :
  Q tt -> (forall k, d <= clock v k -> bad DeadlineExceeded) -> spec (check_deadline v d) Q bad.
Proof. intros HQ Hb. apply spec_observe. intros k. apply spec_guard; [done|]. intros E. apply (Hb k). lia. Qed.
End Triples.

(** ** Chains of headers *)

Section Headers.
Context `{Sha2} `{Argon2}.

(** [hs] continues the block [from], from height [h] on. *)
Fixpoint linked (from : Hash256) (h : Z) (hs : list BlockHeader) : Prop :=
  match hs with
  | [] => True
  | x :: hs => prev_block_id x = from /\ height x = h /\ linked (block_id x) (h + 1) hs
  end.
Definition tip_of (from : Hash256) (hs : list BlockHeader) : Hash256 := from_option block_id from (last hs).

Lemma linked_snoc from h hs x :
  linked from h (hs ++ [x]) <-> linked from h hs /\ prev_block_id x = tip_of from hs /\ height x = h + len hs.
Proof.
  revert from h. induction hs as [|y hs IH]; intros from h; cbn [linked app].
  - unfold tip_of. simpl. rewrite Z.add_0_r. tauto.
  - rewrite IH. unfold tip_of. rewrite last_cons. destruct (last hs); cbn [from_option default]; rewrite len_cons;
      replace (h + 1 + len hs) with (h + (1 + len hs)) by lia; tauto.
Qed.
Lemma tip_of_snoc from hs x : tip_of from (hs ++ [x]) = block_id x.
Proof. unfold tip_of. by rewrite last_snoc. Qed.
Lemma linked_lookup from h hs i x : linked from h hs -> hs !! i = Some x -> height x = h + Z.of_nat i.
Proof.
  revert from h i. induction hs as [|y hs IH]; intros from h i; [done|]. intros (_ & Hy & Hl). destruct i as [|i].
  - intros [= ->]. lia.
  - simpl. intros Hx. rewrite (IH _ _ _ Hl Hx). lia.
Qed.

(** Authentication accepts exactly the hash chain below the anchor. *)
Fixpoint descends (from : Hash256) (batch : list BlockHeader) : Prop :=
  match batch with
  | [] => True
  | x :: batch => block_id x = from /\ descends (prev_block_id x) batch
  end.
Lemma authenticate_from_spec i from batch :
  match authenticate_from i from batch with
  | Ok _ => descends from batch
  | Err e => (exists j got expected, e = DeliveredInvalidHeader (PrechainBreak j got expected)) /\ ~ descends from batch
  end.
Proof.
  revert i from. induction batch as [|x batch IH]; intros i from; cbn [authenticate_from descends]; [done|].
  destruct (bool_decide_reflect (block_id x = from)) as [E|E]; cbn [negb].
  - specialize (IH (i + 1) (prev_block_id x)). destruct (authenticate_from _ _ batch); tauto.
  - split; [by eexists _, _, _|tauto].
Qed.
End Headers.

(** ** Whatever the peer sends *)

Section Soundness.
Context `{Sha2} `{Argon2}.
Variable v : View.
(** The headers in play; hashing does not collide on them. *)
Variable U : BlockHeader -> Prop.
Hypothesis U_ids : forall h h', U h -> U h' -> block_id h = block_id h' -> h = h'.
Hypothesis U_db : forall k id h, get_header id (db_at v k) = Some h -> U h /\ block_id h = id.
Hypothesis U_peer : forall k m hs, answer v k m = Delivered hs -> Forall U hs.

Hypothesis U_wf : forall h, U h -> BlockHeader_wf h.

Definition known_ok (m : gmap Hash256 BlockHeader) : Prop := forall id h, m !! id = Some h -> U h /\ block_id h = id.
(** A header that passed the checks of the walk. *)
Definition checked (h : BlockHeader) : Prop :=
  U h /\ verify_pow h = Ok true /\
  exists m k, known_ok m /\ expected_difficulty_overlay (overlay_at v m k) (prev_block_id h) (height h) = Ok (difficulty_target h).

Lemma known_ok_remember m h : known_ok m -> U h -> known_ok (remember m h).
Proof. intros Hm Uh id h'. unfold remember. rewrite lookup_insert_Some. intros [[<- <-]|[_ ?]]; [done|by apply Hm]. Qed.
Lemma known_ok_fold hs m : known_ok m -> Forall U hs -> known_ok (fold_left remember hs m).
Proof. intros Hm Hhs. revert m Hm. induction Hhs; intros m Hm; simpl; [done|]. by apply IHHhs, known_ok_remember. Qed.

(** On a chain that contains the ancestors of [h], the checked target is the one
    that the chain prescribes. *)
Section Target.
Variables (chain : Z -> BlockHeader) (n : Z).
Hypothesis chain_U : forall i, 0 <= i < n -> U (chain i).
Hypothesis chain_linked : forall i, 0 < i < n -> prev_block_id (chain i) = block_id (chain (i - 1)).

Lemma overlay_on_chain m k i h :
  known_ok m -> 0 <= i < n -> require_header (overlay_get_header (overlay_at v m k)) (block_id (chain i)) = Ok h -> h = chain i.
Proof.
  intros Hm Hi. unfold require_header, overlay_get_header, overlay_at. cbn [overlay fo_storage].
  destruct (m !! block_id (chain i)) as [h'|] eqn:E.
  - intros [= <-]. apply Hm in E as [? ?]. apply U_ids; auto.
  - destruct (header_fails v k _); [done|]. destruct (get_header _ _) as [h'|] eqn:E'; [|done]. intros [= <-].
    apply U_db in E' as [? ?]. apply U_ids; auto.
Qed.
Lemma walk_on_chain m k j i id :
  known_ok m -> Z.of_nat j <= i < n -> walk_back (overlay_get_header (overlay_at v m k)) j (block_id (chain i)) = Ok id ->
  id = block_id (chain (i - Z.of_nat j)).
Proof.
  intros Hm. revert i. induction j as [|j IH]; intros i Hi; cbn [walk_back]; [intros [= <-]; by rewrite Z.sub_0_r|].
  destruct (require_header _ (block_id (chain i))) as [h|] eqn:E; [|done]. cbn iota.
  apply overlay_on_chain in E as ->; [|done|lia]. rewrite chain_linked by lia. intros Hw. apply IH in Hw as ->; [|lia].
  do 2 f_equal. lia.
Qed.
Lemma target_on_chain m k h d :
  known_ok m -> 0 < h <= n ->
  expected_difficulty_overlay (overlay_at v m k) (block_id (chain (h - 1))) h = Ok d -> d = chain_target chain h.
Proof.
  intros Hm Hh. unfold expected_difficulty_overlay, chain_target. destruct (Z.eqb_spec h 0); [lia|].
  destruct (require_header _ _) as [p|] eqn:Ep; [|done]. cbn iota. apply overlay_on_chain in Ep as ->; [|done|lia].
  destruct (Z.eqb_spec (h mod RETARGET_WINDOW) 0) as [Hmod|]; cbn [negb]; [|by intros [= <-]].
  assert (RETARGET_WINDOW <= h) as Hw.
  { apply Z.mod_divide in Hmod as [q Hq]; [|done]. unfold RETARGET_WINDOW in *. lia. }
  destruct (walk_back _ _ _) as [w|] eqn:Ew; [|done]. cbn iota.
  apply walk_on_chain in Ew as ->; [|done|unfold RETARGET_WINDOW in *; lia].
  replace (h - 1 - Z.of_nat (Z.to_nat (RETARGET_WINDOW - 1))) with (h - RETARGET_WINDOW)
    by (unfold RETARGET_WINDOW in *; lia).
  destruct (require_header _ _) as [s|] eqn:Es; [|done]. cbn iota.
  apply overlay_on_chain in Es as ->; [|done|unfold RETARGET_WINDOW in *; lia]. by intros [= <-].
Qed.
End Target.

Abbreviation any := (fun _ : TipValidationError => True).
Abbreviation sound c Q := (spec c Q any).

Lemma ask_sound s c : sound (ask v s c) (Forall U).
Proof. apply spec_ask; [done|]. intros k. destruct (answer v k _) as [hs| |] eqn:E; [|done..]. by eapply U_peer. Qed.
Lemma ask_batch_sound s c : sound (ask_batch v s c) (fun b => Forall U b /\ 0 < len b <= c).
Proof.
  eapply spec_bind; [apply ask_sound|]. intros [|h b] Hb; [by apply spec_throw|].
  destruct (negb _ || _) eqn:E; [by apply spec_throw|]. apply spec_ret. apply orb_false_iff in E as [_ E].
  rewrite len_cons in *. pose proof (Nat2Z.is_nonneg (length b)) as Hp. fold (len b) in Hp. split; [done|lia].
Qed.
Lemma probe_sound h : sound (probe v h) (fun _ => True).
Proof.
  eapply spec_bind; [apply ask_sound|]. intros hs _. apply spec_observe. intros k.
  destruct (interpret_ancestor_probe_response hs h _) as [[b|]|m]; [by apply spec_ret|by apply spec_throw..].
Qed.

(** The midpoint lies strictly above [lo]. *)
Lemma midpoint lo hi : lo < hi -> lo < lo + div_ceil (hi - lo) 2 <= hi.
Proof.
  intros Hlt. unfold div_ceil. assert (2 * ((hi - lo + 2 - 1) / 2) <= hi - lo + 1 < 2 * ((hi - lo + 2 - 1) / 2) + 2) as Hd.
  { pose proof (Z.div_mod (hi - lo + 2 - 1) 2 ltac:(done)). pose proof (Z.mod_pos_bound (hi - lo + 2 - 1) 2 ltac:(done)). lia. }
  lia.
Qed.
Lemma search_sound fuel d lo hi :
  0 <= lo -> (Z.to_nat (hi - lo) < fuel)%nat -> sound (search fuel v d lo hi) (fun h => h = lo \/ lo <= h <= hi).
Proof.
  revert lo hi. induction fuel as [|fuel IH]; intros lo hi Hlo Hf; [lia|]. cbn [search].
  destruct (Z.ltb_spec lo hi) as [Hlt|]; [|apply spec_ret; by left]. pose proof (midpoint lo hi Hlt) as Hm.
  eapply spec_bind; [by apply spec_deadline with (Q := fun _ => True)|]. intros _ _. cbv zeta.
  set (mid := lo + div_ceil (hi - lo) 2) in *. clearbody mid. eapply spec_bind; [apply probe_sound|]. intros [] _.
  - eapply spec_mono; [apply IH; lia|]. intros h [->|Hh]; lia.
  - unfold saturating_sub. eapply spec_mono; [apply IH; lia|]. intros h [->|Hh]; lia.
Qed.

(** Where the anchor comes from, with the work behind it. *)
Definition anchored (a : Anchor) : Prop :=
  block_id (a_header a) = a_id a /\ U (a_header a) /\
  if is_checkpoint a then a_id a = ASSUME_VALID_HASH /\ a_height a = ASSUME_VALID_HEIGHT /\ our_tip v = 0 /\ av_enabled v = true
  else (exists k, get_block_id_by_height (a_height a) (db_at v k) = Some (a_id a)) /\ our_tip v <> 0.
Definition base_work (a : Anchor) (w : bytes) : Prop :=
  if is_checkpoint a then w = ASSUME_VALID_CUMULATIVE_WORK else exists k, get_cumulative_work (a_id a) (db_at v k) = Some w.

Lemma checkpoint_anchor_sound : our_tip v = 0 -> av_enabled v = true -> sound (checkpoint_anchor v) anchored.
Proof.
  intros H1 H2. eapply spec_bind; [apply ask_sound|]. intros [|h [|h' hs]] Hhs; [by apply spec_throw| |by apply spec_throw].
  destruct (negb (height h =? _)); [by apply spec_throw|].
  destruct (bool_decide_reflect (block_id h = ASSUME_VALID_HASH)); [|by apply spec_throw].
  apply spec_ret. rewrite Forall_singleton in Hhs. by unfold anchored.
Qed.
Lemma read_some {A} (f : ChainStorage -> option A) e (Q : A -> Prop) :
  (forall k a, f (db_at v k) = Some a -> Q a) -> sound (o ← read_db v f; lift (ok_or o e)) Q.
Proof.
  intros HQ. eapply spec_bind with (P := fun o => exists k, o = f (db_at v k)); [apply spec_read; eauto|].
  intros o [k ->]. apply spec_lift. destruct (f (db_at v k)) as [a|] eqn:E; [|done]. simpl. by eapply HQ.
Qed.
Lemma bind_assoc {A B C} (c : tv A) (f : A -> tv B) (g : B -> tv C) P :
  sound ((c ≫= f) ≫= g) P -> sound (c ≫= fun a => f a ≫= g) P.
Proof. intros Hs k. specialize (Hs k). unfold mbind, tv_bind in *. by destruct (c k) as [[[a|e] k']|]. Qed.
Lemma ancestor_anchor_sound d claim : our_tip v <> 0 -> sound (ancestor_anchor v d claim) anchored.
Proof.
  intros Hnz. eapply spec_bind; [apply probe_sound|]. intros shared _.
  eapply spec_bind with (P := fun _ => True).
  { destruct shared; [by apply spec_ret|]. eapply spec_mono; [apply search_sound; lia|done]. }
  intros h _. apply bind_assoc. eapply spec_bind; [apply read_some with (Q := fun id => exists k, get_block_id_by_height h (db_at v k) = Some id); eauto|].
  intros id [k Hk]. apply bind_assoc. eapply spec_bind; [apply read_some with (Q := fun hdr => exists k, get_header id (db_at v k) = Some hdr); eauto|].
  intros hdr [k' Hk']. apply spec_ret. apply U_db in Hk' as [? ?]. split_and!; [done|done|]. simpl. eauto.
Qed.

Lemma fetch_lookback_sound fuel d next acc :
  (Z.to_nat (ASSUME_VALID_HEIGHT - next) < fuel)%nat -> Forall U acc -> sound (fetch_lookback fuel v d next acc) (Forall U).
Proof.
  revert next acc. induction fuel as [|fuel IH]; intros next acc Hf Ha; [lia|]. cbn [fetch_lookback].
  destruct (Z.ltb_spec next ASSUME_VALID_HEIGHT) as [Hlt|]; [|by apply spec_ret].
  eapply spec_bind; [by apply spec_deadline with (Q := fun _ => True)|]. intros _ _.
  eapply spec_bind; [apply ask_batch_sound|]. intros b [Ub Hb]. apply IH; [lia|]. by apply Forall_app.
Qed.
Lemma lookback_sound d h m : known_ok m -> sound (lookback v d h m) known_ok.
Proof.
  intros Hm. eapply spec_bind; [apply fetch_lookback_sound; [unfold lookback_start, saturating_sub, lookback_span; lia|done]|].
  intros hs Hhs. eapply spec_bind; [by apply spec_guard with (Q := fun _ => True)|]. intros _ _.
  eapply spec_bind with (P := fun _ => True); [by apply spec_lift; destruct (authenticate_prechckpt_headers _ _)|].
  intros _ _. apply spec_ret. by apply known_ok_fold.
Qed.

Lemma validate_one_sound m parent h x :
  known_ok m -> U x ->
  sound (validate_one_forward_header v m parent h x)
    (fun m => known_ok m /\ prev_block_id x = parent /\ height x = h /\ checked x).
Proof.
  intros Hm Ux. unfold validate_one_forward_header.
  destruct (bool_decide_reflect (prev_block_id x = parent)) as [Hp|]; [|by apply spec_throw]. cbn [negb].
  destruct (Z.eqb_spec (height x) h) as [Hh|]; [|by apply spec_throw]. cbn [negb].
  apply spec_observe. intros k. eapply spec_bind; [apply spec_lift with (Q := fun d => expected_difficulty_overlay (overlay_at v m k) (prev_block_id x) (height x) = Ok d); by destruct (expected_difficulty_overlay _ _ _)|].
  intros d Hd. destruct (bool_decide_reflect (difficulty_target x = d)) as [<-|]; [|by apply spec_throw]. cbn [negb].
  apply spec_observe. intros k'. eapply spec_bind; [by apply spec_guard with (Q := fun _ => True)|]. intros _ _.
  eapply spec_bind; [apply spec_lift with (Q := fun b => verify_pow x = Ok b); by destruct (verify_pow x)|].
  intros [] Hb; [|by apply spec_throw]. apply spec_ret. split_and!; [by apply known_ok_remember|done|done|].
  split_and!; eauto.
Qed.

(** The state of the walk from anchor [(aid, ah)]. *)
Record walked (aid : Hash256) (ah : Z) (w : Walk) : Prop := {
  wk_known : known_ok (w_known w);
  wk_linked : linked aid (ah + 1) (w_validated w);
  wk_last : w_last w = tip_of aid (w_validated w);
  wk_next : w_next w = ah + 1 + len (w_validated w);
  wk_checked : Forall checked (w_validated w)
}.
Lemma walk_batch_sound aid ah batch w :
  walked aid ah w -> Forall U batch ->
  sound (walk_batch v batch w) (fun w' => walked aid ah w' /\ w_next w' = w_next w + len batch).
Proof.
  intros Hw Hb. revert w Hw. induction Hb as [|x batch Ux Hb IH]; intros w Hw; cbn [walk_batch].
  { apply spec_ret. split; [done|]. unfold len. simpl. lia. }
  destruct Hw as [Hk Hl Hla Hn Hc]. eapply spec_bind; [by apply validate_one_sound|]. intros m (Hm & Hp & Hh & Hx).
  apply spec_observe. intros k. eapply spec_mono; [apply IH|].
  - constructor; cbn [w_known w_validated w_last w_next].
    + done.
    + apply linked_snoc. rewrite <- Hla. split_and!; [done|done|]. lia.
    + by rewrite tip_of_snoc.
    + rewrite len_app, Hn. unfold len at 3. simpl. lia.
    + by apply Forall_app; split; [|apply Forall_singleton].
  - intros w' [? Hw']. split; [done|]. rewrite Hw', len_cons. simpl. lia.
Qed.
Lemma walk_forward_sound aid ah fuel d r claim w :
  walked aid ah w -> w_next w <= claim + 1 -> (Z.to_nat (claim + 1 - w_next w) < fuel)%nat ->
  sound (walk_forward fuel v d r claim w) (fun w' => walked aid ah w' /\ w_next w' = claim + 1).
Proof.
  revert w. induction fuel as [|fuel IH]; intros w Hw Hn Hf; [lia|]. cbn [walk_forward].
  destruct (Z.leb_spec (w_next w) claim) as [Hle|]; [|apply spec_ret; split; [done|lia]].
  eapply spec_bind; [by apply spec_deadline with (Q := fun _ => True)|]. intros _ _. apply spec_observe. intros k.
  eapply spec_bind; [by apply spec_guard with (Q := fun _ => True)|]. intros _ _.
  eapply spec_bind; [apply ask_batch_sound|]. intros b [Ub Hb].
  assert (len b <= claim - w_next w + 1) as Hb'.
  { pose proof (Z.mod_le (claim - w_next w + 1) (2 ^ 32) ltac:(lia) ltac:(done)). lia. }
  eapply spec_bind; [by apply walk_batch_sound|]. intros w' [Hw' Hn']. apply IH; [done|lia|lia].
Qed.

Lemma anchor_work_sound a trusted : sound (anchor_work v (a_id a) (is_checkpoint a) trusted) (base_work a).
Proof.
  unfold anchor_work, base_work. destruct (is_checkpoint a).
  - destruct trusted; [by apply spec_ret|by apply spec_throw].
  - apply read_some. eauto.
Qed.
Lemma canonical_sound a :
  sound (if is_checkpoint a then mret true else anchor_still_canonical v (a_height a) (a_id a))
    (fun b => b = true -> is_checkpoint a = false -> exists k, get_block_id_by_height (a_height a) (db_at v k) = Some (a_id a)).
Proof.
  destruct (is_checkpoint a); [by apply spec_ret|].
  eapply spec_bind with (P := fun o => exists k, o = get_block_id_by_height (a_height a) (db_at v k)); [apply spec_read; eauto|].
  intros o [k ->]. apply spec_ret. intros E _. exists k. by apply bool_decide_eq_true in E.
Qed.

(** The work of a target as a number. *)
Definition target_work (t : Hash256) : Z := if be_val t =? 0 then 2 ^ 256 - 1 else Z.min (2 ^ 256 - 1) (2 ^ 256 / be_val t).
Definition sum_work (hs : list BlockHeader) : Z := foldr (fun h n => target_work (difficulty_target h) + n) 0 hs.
Lemma sum_work_nonneg hs : Forall U hs -> 0 <= sum_work hs.
Proof.
  induction 1 as [|h hs Uh _ IH]; simpl; [lia|]. unfold target_work. destruct (Z.eqb_spec (be_val (difficulty_target h)) 0); [lia|].
  assert (0 <= be_val (difficulty_target h)). { destruct (U_wf h Uh) as (_ & _ & _ & _ & Hd & _). pose proof (val_bound _ Hd). lia. }
  pose proof (Z.div_pos (2 ^ 256) (be_val (difficulty_target h)) ltac:(lia) ltac:(lia)). lia.
Qed.
Lemma sum_forward_work_val w hs :
  len w = 32 -> Forall U hs ->
  len (sum_forward_work w hs) = 32 /\ be_val (sum_forward_work w hs) = Z.min (2 ^ 256 - 1) (be_val w + sum_work hs).
Proof.
  intros Hw Hhs. revert w Hw. induction Hhs as [|h hs Uh Hhs IH]; intros w Hw; cbn [sum_forward_work fold_left sum_work foldr].
  { split; [done|]. pose proof (val_bound w Hw). lia. }
  destruct (U_wf h Uh) as (_ & _ & _ & _ & Hd & _). destruct (work_from_target_spec _ Hd) as [Lt Vt].
  destruct (add_work_spec w _ Hw Lt) as [La Va]. destruct (IH _ La) as [Ls Vs]. split; [done|].
  unfold sum_forward_work in Vs. rewrite Vs, Va, Vt. fold (sum_work hs). fold (target_work (difficulty_target h)).
  pose proof (sum_work_nonneg hs Hhs). lia.
Qed.

(** The targets of [hs], above the block [aid] at height [ah], are those that
    their chain prescribes, whatever chain [aid] is on. *)
Definition targets_exact (aid : Hash256) (ah : Z) (hs : list BlockHeader) : Prop :=
  forall chain : Z -> BlockHeader, 0 <= ah ->
    (forall i, 0 <= i <= ah + len hs -> U (chain i)) ->
    (forall i, 0 < i <= ah + len hs -> prev_block_id (chain i) = block_id (chain (i - 1))) ->
    (forall i x, hs !! i = Some x -> chain (ah + 1 + Z.of_nat i) = x) ->
    forall i, ah < i <= ah + len hs -> difficulty_target (chain i) = chain_target chain i.

Lemma checked_targets aid ah hs : linked aid (ah + 1) hs -> Forall checked hs -> targets_exact aid ah hs.
Proof.
  intros Hl Hc chain Hah HU Hlink Hchain i Hi. destruct (lookup_lt_is_Some_2 hs (Z.to_nat (i - ah - 1))) as [x Hx].
  { unfold len in Hi. lia. }
  pose proof (linked_lookup _ _ _ _ _ Hl Hx) as Hh. rewrite Forall_forall in Hc.
  destruct (Hc x (list_elem_of_lookup_2 _ _ _ Hx)) as (_ & _ & m & k & Hm & Hd). apply Hchain in Hx.
  replace (ah + 1 + Z.of_nat (Z.to_nat (i - ah - 1))) with i in Hx, Hh by lia. subst x.
  rewrite Hlink, Hh in Hd by lia. apply (target_on_chain chain i) in Hd; [done|intros; apply HU; lia|intros; apply Hlink; lia|done|lia].
Qed.

(** What a verified tip and the validated headers [hs] show. *)
Record verified (claim_height : Z) (claim_id : Hash256) (t : VerifiedTip) (hs : list BlockHeader) : Prop := {
  vf_claim : vt_height t = claim_height /\ vt_block_id t = claim_id;
  vf_count : headers_validated t = len hs /\ len hs = Z.max 0 (claim_height - vt_anchor_height t);
  vf_linked : linked (vt_anchor_block_id t) (vt_anchor_height t + 1) hs;
  vf_end : vt_anchor_height t < claim_height -> tip_of (vt_anchor_block_id t) hs = claim_id;
  vf_pow : Forall (fun h => verify_pow h = Ok true) hs;
  vf_targets : targets_exact (vt_anchor_block_id t) (vt_anchor_height t) hs;
  vf_work : exists w, be_val (verified_cumulative_work t) = Z.min (2 ^ 256 - 1) (be_val w + sum_work hs) /\
    if our_tip v =? 0
    then vt_anchor_block_id t = ASSUME_VALID_HASH /\ vt_anchor_height t = ASSUME_VALID_HEIGHT /\
         w = ASSUME_VALID_CUMULATIVE_WORK /\ av_enabled v = true
    else (exists k, get_block_id_by_height (vt_anchor_height t) (db_at v k) = Some (vt_anchor_block_id t)) /\
         (exists k, get_cumulative_work (vt_anchor_block_id t) (db_at v k) = Some w)
}.

Lemma base_work_len a w : base_work a w -> len w = 32.
Proof.
  unfold base_work. destruct (is_checkpoint a); [by intros ->|]. intros [k Hk]. unfold get_cumulative_work, if_32 in Hk.
  destruct (table_get WORK_TABLE (a_id a) (db_at v k)) as [x|]; [|done]. destruct (Z.eqb_spec (len x) 32); by simplify_eq.
Qed.
Lemma verified_intro claim_height claim_id a w hs :
  anchored a -> base_work a w ->
  linked (a_id a) (a_height a + 1) hs -> Forall checked hs -> len hs = Z.max 0 (claim_height - a_height a) ->
  (a_height a < claim_height -> tip_of (a_id a) hs = claim_id) ->
  verified claim_height claim_id
    {| vt_height := claim_height; vt_block_id := claim_id; verified_cumulative_work := sum_forward_work w hs;
       vt_anchor_height := a_height a; vt_anchor_block_id := a_id a; headers_validated := len hs |} hs.
Proof.
  intros (Ha1 & Ha2 & Ha3) Hw Hl Hc Hn He. assert (Forall U hs) as HU by (eapply Forall_impl; [exact Hc|]; by intros h [? _]).
  pose proof (base_work_len a w Hw) as Lw.
  constructor; cbn [vt_height vt_block_id headers_validated vt_anchor_height vt_anchor_block_id verified_cumulative_work]; try done.
  - eapply Forall_impl; [exact Hc|]. by intros h (_ & ? & _).
  - by apply checked_targets.
  - exists w. split; [by apply sum_forward_work_val|]. unfold base_work in Hw. destruct (is_checkpoint a).
    + destruct Ha3 as (? & ? & E & ?). rewrite (proj2 (Z.eqb_eq _ _) E). done.
    + destruct Ha3 as [? E]. rewrite (proj2 (Z.eqb_neq _ _) E). done.
Qed.

Lemma validate_from_sound d r claim_height claim_id a :
  anchored a -> sound (validate_from v d r claim_height claim_id a) (fun '(t, hs) => verified claim_height claim_id t hs).
Proof.
  intros Ha. unfold validate_from. destruct (Z.leb_spec claim_height (a_height a)) as [Hle|Hlt].
  { apply spec_observe. intros k. eapply spec_bind; [apply anchor_work_sound|]. intros w Hw. apply spec_ret.
    apply (verified_intro claim_height claim_id a w []); [done|done|done|done|unfold len; simpl; lia|lia]. }
  cbv zeta. pose proof Ha as (_ & Ha2 & _).
  eapply spec_bind with (P := known_ok).
  { assert (known_ok (remember ∅ (a_header a))) by (apply known_ok_remember; [intros id h Hl; by rewrite lookup_empty in Hl|done]).
    destruct (is_checkpoint a && _); [by apply lookback_sound|by apply spec_ret]. }
  intros m Hm. apply spec_observe. intros k. eapply spec_bind; [apply (walk_forward_sound (a_id a) (a_height a)); [|cbn [w_next]; lia|cbn [w_next]; lia]|].
  { constructor; cbn [w_known w_validated w_last w_next]; [done|done|done|unfold len; simpl; lia|done]. }
  intros w [[_ Hl Hla Hn Hc] Hend]. destruct (bool_decide_reflect (w_last w = claim_id)) as [He|]; [|by apply spec_throw]. cbn [negb].
  apply spec_observe. intros k'. eapply spec_bind; [apply anchor_work_sound|]. intros work Hw.
  eapply spec_bind; [apply canonical_sound|]. intros canonical _. eapply spec_bind; [by apply spec_guard with (Q := fun _ => True)|]. intros _ _.
  apply spec_ret. apply verified_intro; [done|done|done|done|lia|congruence].
Qed.
Lemma validate_tip_sound claim_height claim_id :
  sound (validate_tip v claim_height claim_id) (fun '(t, hs) => verified claim_height claim_id t hs).
Proof.
  unfold validate_tip. apply spec_observe. intros k. cbv zeta. apply spec_observe. intros k'. eapply spec_bind; [|intros a Ha; by apply validate_from_sound].
  unfold select. destruct (Z.eqb_spec (our_tip v) 0).
  - destruct (av_enabled v) eqn:E; cbn [andb]; [|by apply spec_throw]. destruct (av_trusted v k'); [|by apply spec_throw].
    by apply checkpoint_anchor_sound.
  - by apply ancestor_anchor_sound.
Qed.
End Soundness.

(** ** A peer that serves a valid chain *)

Section Honest.
Context `{Sha2} `{Argon2}.
Variable v : View.
Variable U : BlockHeader -> Prop.
Hypothesis U_ids : forall h h', U h -> U h' -> block_id h = block_id h' -> h = h'.
Hypothesis U_db : forall k id h, get_header id (db_at v k) = Some h -> U h /\ block_id h = id.

(** The peer's chain up to its claim. *)
Variable P : Z -> BlockHeader.
Variable claim : Z.
Hypothesis claim_u32 : 0 <= claim < 2 ^ 32.
Hypothesis P_U : forall i, 0 <= i <= claim -> U (P i).
Hypothesis P_height : forall i, 0 <= i <= claim -> height (P i) = i.
Hypothesis P_linked : forall i, 0 < i <= claim -> prev_block_id (P i) = block_id (P (i - 1)).
Hypothesis P_target : forall i, 0 < i <= claim -> difficulty_target (P i) = chain_target P i.
Hypothesis P_pow : forall i, 0 < i <= claim -> verify_pow (P i) = Ok true.

(** [n] headers from height [s] on. *)
Definition segment (s : Z) (n : nat) : list BlockHeader := map (fun i => P (s + Z.of_nat i)) (seq 0 n).
(** What the peer answers is a piece of its chain, perhaps an empty one. *)
Hypothesis P_served : forall k s c hs, 0 <= s <= claim -> 0 <= c -> answer v k (build_get_headers s c) = Delivered hs ->
  exists n, hs = segment s n /\ Z.of_nat n <= c /\ s + Z.of_nat n <= claim + 1.

(** Our chain: it does not change during the attempt, and shares with the peer's
    chain exactly the blocks up to height [a]. *)
Variable ours : Z -> Hash256.
Variable a : Z.
Hypothesis our_tip_nonneg : 0 <= our_tip v.
Hypothesis ours_stored : forall k h, 0 <= h <= our_tip v -> get_block_id_by_height h (db_at v k) = Some (ours h).
Hypothesis fork_point : our_tip v <> 0 -> 0 <= a <= Z.min (our_tip v) claim /\
  forall h, 0 <= h <= Z.min (our_tip v) claim -> ours h = block_id (P h) <-> h <= a.
(** A node without a chain takes the checkpoint, which is on the peer's chain. *)
Hypothesis checkpoint_shared : our_tip v = 0 -> ASSUME_VALID_HEIGHT <= claim /\ block_id (P ASSUME_VALID_HEIGHT) = ASSUME_VALID_HASH.

Definition patience : Z := if our_tip v =? 0 then BOOTSTRAP_COORDINATOR_STALL_SECS else TIP_VALIDATION_DEADLINE_FLOOR_SECS.
(** Nothing goes wrong: the peer answers in time and with something, the storage
    reads, and holds headers and work of our chain. *)
Record smooth : Prop := {
  sm_send k : send_ok v k = true;
  sm_answer k s c : 0 <= s <= claim -> 1 <= c -> exists hs, answer v k (build_get_headers s c) = Delivered hs /\ hs <> [];
  sm_spawn k : spawn_ok v k = true;
  sm_trusted k : our_tip v = 0 -> av_trusted v k = true;
  sm_enabled : our_tip v = 0 -> av_enabled v = true;
  sm_read k : read_fails v k = false;
  sm_header k id : header_fails v k id = false;
  sm_clock k k' : clock v k' - clock v k < patience * SECOND;
  sm_headers k h : our_tip v <> 0 -> 0 <= h <= a -> get_header (ours h) (db_at v k) = Some (P h);
  sm_work k : our_tip v <> 0 -> is_Some (get_cumulative_work (ours a) (db_at v k))
}.

(** Errors that may happen. *)
Definition excused (e : TipValidationError) : Prop := ~ smooth /\ forall m, e <> DeliveredInvalidHeader m.
Abbreviation honest c Q := (spec c Q excused).

Lemma segment_length s n : length (segment s n) = n.
Proof. unfold segment. by rewrite length_map, length_seq. Qed.
Lemma segment_snoc s n : segment s (S n) = segment s n ++ [P (s + Z.of_nat n)].
Proof. unfold segment. by rewrite seq_S, map_app. Qed.
Lemma segment_cons s n : segment s (S n) = P s :: segment (s + 1) n.
Proof.
  unfold segment. cbn [seq map]. rewrite Z.add_0_r. f_equal. rewrite <- seq_shift, map_map. apply map_ext. intros i. f_equal. clear. lia.
Qed.
Lemma segment_app s n m : segment s (n + m) = segment s n ++ segment (s + Z.of_nat n) m.
Proof.
  revert s. induction n as [|n IH]; intros s; [by rewrite Z.add_0_r|]. cbn [Nat.add]. rewrite !segment_cons, IH.
  cbn [app]. do 3 f_equal. clear. lia.
Qed.
Lemma excuse (p : Prop) e : (smooth -> p) -> ~ p -> (forall m, e <> DeliveredInvalidHeader m) -> excused e.
Proof. intros Hp Hn He. split; [|done]. intros Hs. by apply Hn, Hp. Qed.

Lemma honest_ask s c :
  0 <= s <= claim -> 1 <= c ->
  honest (ask v s c) (fun hs => exists n, hs = segment s n /\ Z.of_nat n <= c /\ s + Z.of_nat n <= claim + 1 /\ (smooth -> n <> O)).
Proof.
  intros Hs Hc. apply spec_ask.
  - intros k Hk. apply (excuse (send_ok v k = true)); [by intros []|congruence|done].
  - intros k. destruct (answer v k (build_get_headers s c)) as [hs| |] eqn:E.
    + destruct (P_served k s c hs) as (n & -> & Hn & Hn'); [done|lia|done|]. exists n. split_and!; [done|done|done|].
      intros Hsmooth ->. destruct (sm_answer Hsmooth k s c Hs Hc) as (hs & E' & Hne). rewrite E in E'. by injection E' as <-.
    + apply (excuse (exists hs, answer v k (build_get_headers s c) = Delivered hs)); [|rewrite E; by intros [? ?]|done].
      intros Hsmooth. destruct (sm_answer Hsmooth k s c Hs Hc) as (hs & ? & _). by exists hs.
    + apply (excuse (exists hs, answer v k (build_get_headers s c) = Delivered hs)); [|rewrite E; by intros [? ?]|done].
      intros Hsmooth. destruct (sm_answer Hsmooth k s c Hs Hc) as (hs & ? & _). by exists hs.
Qed.
Lemma honest_batch s c :
  0 <= s <= claim -> 1 <= c ->
  honest (ask_batch v s c) (fun hs => exists n, hs = segment s (S n) /\ Z.of_nat (S n) <= c /\ s + Z.of_nat (S n) <= claim + 1).
Proof.
  intros Hs Hc. eapply spec_bind; [by apply honest_ask|]. intros hs (n & -> & Hn & Hn' & Hne). destruct n as [|n].
  - simpl. apply spec_throw. apply (excuse False); [intros Hsm; by apply Hne|tauto|done].
  - rewrite segment_cons. rewrite P_height by lia. rewrite Z.eqb_refl. cbn [negb orb].
    rewrite <- segment_cons. unfold len at 1. rewrite segment_length. destruct (Z.ltb_spec c (Z.of_nat (S n))); [lia|].
    apply spec_ret. by exists n.
Qed.

(** *** The anchor *)

Lemma honest_read {A} (f : ChainStorage -> option A) e (Q : A -> Prop) :
  (forall m, e <> DeliveredInvalidHeader m) -> (forall k, smooth -> is_Some (f (db_at v k))) ->
  (forall k x, f (db_at v k) = Some x -> Q x) -> honest (o ← read_db v f; lift (ok_or o e)) Q.
Proof.
  intros He Hsm HQ. eapply spec_bind with (P := fun o => exists k, o = f (db_at v k)).
  - apply spec_read; [|eauto]. intros k Hk. apply (excuse (read_fails v k = false)); [by intros []|congruence|done].
  - intros o [k ->]. apply spec_lift. destruct (f (db_at v k)) as [x|] eqn:E; simpl; [by eapply HQ|].
    apply (excuse (is_Some (f (db_at v k)))); [auto|rewrite E; by intros [? ?]|done].
Qed.
Lemma honest_assoc {A B C} (c : tv A) (f : A -> tv B) (g : B -> tv C) Q :
  honest ((c ≫= f) ≫= g) Q -> honest (c ≫= fun x => f x ≫= g) Q.
Proof. intros Hs k. specialize (Hs k). unfold mbind, tv_bind in *. by destruct (c k) as [[[x|e] k']|]. Qed.

Lemma honest_probe h :
  our_tip v <> 0 -> 0 <= h <= Z.min (our_tip v) claim -> honest (probe v h) (fun b => b = true <-> h <= a).
Proof.
  intros Hnz Hh. destruct (fork_point Hnz) as [Ha Hfork]. eapply spec_bind; [apply honest_ask; lia|].
  intros hs (n & -> & _ & Hn & Hne). apply spec_observe. intros k. destruct n as [|n].
  - simpl. apply spec_throw. apply (excuse False); [intros Hsm; by apply Hne|tauto|done].
  - rewrite segment_cons. cbn [interpret_ancestor_probe_response]. rewrite P_height, Z.eqb_refl by lia. cbn [negb].
    destruct (read_fails v k) eqn:E.
    + simpl. apply spec_throw. apply (excuse (read_fails v k = false)); [by intros []|congruence|done].
    + rewrite ours_stored by lia. simpl. apply spec_ret. rewrite bool_decide_eq_true. apply Hfork. lia.
Qed.

(** The deadline lies at least [patience] after the start. *)
Definition late (d : Z) : Prop := exists k, clock v k + patience * SECOND <= d.
Lemma honest_deadline d : late d -> honest (check_deadline v d) (fun _ => True).
Proof.
  intros [k0 Hd]. apply spec_deadline; [done|]. intros k Hk.
  apply (excuse (clock v k - clock v k0 < patience * SECOND)); [by intros []|lia|done].
Qed.

Lemma honest_search fuel d lo hi :
  our_tip v <> 0 -> late d -> 0 <= lo <= a -> a <= hi <= Z.min (our_tip v) claim -> (Z.to_nat (hi - lo) < fuel)%nat ->
  honest (search fuel v d lo hi) (fun h => h = a).
Proof.
  intros Hnz Hd. revert lo hi. induction fuel as [|fuel IH]; intros lo hi Hlo Hhi Hf; [lia|]. cbn [search].
  destruct (Z.ltb_spec lo hi) as [Hlt|]; [|apply spec_ret; lia]. pose proof (midpoint lo hi Hlt) as Hm.
  eapply spec_bind; [by apply honest_deadline|]. intros _ _. cbv zeta.
  set (mid := lo + div_ceil (hi - lo) 2) in *. clearbody mid. eapply spec_bind; [apply honest_probe; [done|lia]|].
  intros [] Hb.
  - assert (mid <= a) by tauto. apply IH; lia.
  - assert (~ mid <= a) by (intros Hx; by apply Hb in Hx). unfold saturating_sub. apply IH; lia.
Qed.

(** The height of the anchor. *)
Definition A : Z := if our_tip v =? 0 then ASSUME_VALID_HEIGHT else a.
Definition the_anchor (x : Anchor) : Prop :=
  x = {| a_height := A; a_id := block_id (P A); a_header := P A; is_checkpoint := our_tip v =? 0 |}.
Lemma A_range : 0 <= A <= claim.
Proof.
  unfold A. destruct (Z.eqb_spec (our_tip v) 0) as [E|E].
  - destruct (checkpoint_shared E). unfold ASSUME_VALID_HEIGHT in *. lia.
  - destruct (fork_point E). lia.
Qed.

Lemma honest_ancestor d : our_tip v <> 0 -> late d -> honest (ancestor_anchor v d claim) the_anchor.
Proof.
  intros Hnz Hd. destruct (fork_point Hnz) as [Ha Hfork]. eapply spec_bind; [apply honest_probe; [done|lia]|]. intros shared Hb.
  eapply spec_bind with (P := fun h => h = a).
  { destruct shared; [apply spec_ret|apply honest_search; [done|done|lia|lia|lia]].
    assert (Z.min (our_tip v) claim <= a) by tauto. lia. }
  intros h ->. assert (ours a = block_id (P a)) as Eid by (apply Hfork; lia).
  apply honest_assoc. eapply spec_bind; [apply honest_read with (Q := fun id => id = ours a); [done| |]|].
  { intros k _. rewrite ours_stored by lia. done. }
  { intros k id. rewrite ours_stored by lia. congruence. }
  intros id ->. apply honest_assoc. eapply spec_bind; [apply honest_read with (Q := fun hdr => hdr = P a); [done| |]|].
  { intros k Hsm. rewrite (sm_headers Hsm) by (done || lia). done. }
  { intros k hdr Hk. apply U_db in Hk as [Uh Hk]. apply U_ids; [done|apply P_U; lia|congruence]. }
  intros hdr ->. apply spec_ret. unfold the_anchor, A. rewrite (proj2 (Z.eqb_neq _ _) Hnz). by rewrite Eid.
Qed.
Lemma honest_checkpoint : our_tip v = 0 -> honest (checkpoint_anchor v) the_anchor.
Proof.
  intros Hz. destruct (checkpoint_shared Hz) as [Hle Hid]. unfold checkpoint_anchor.
  assert (0 <= ASSUME_VALID_HEIGHT) as Hav by done.
  eapply spec_bind; [apply honest_ask; [lia|done]|]. intros hs (n & -> & Hn & Hn' & Hne). destruct n as [|n].
  - simpl. apply spec_throw. apply (excuse False); [intros Hsm; by apply Hne|tauto|done].
  - assert (n = O) as -> by lia. rewrite segment_cons. change (segment (ASSUME_VALID_HEIGHT + 1) 0) with (@nil BlockHeader).
    rewrite P_height, Z.eqb_refl by lia. cbn [negb]. rewrite bool_decide_true by done. cbn [negb]. apply spec_ret.
    unfold the_anchor, A. by rewrite (proj2 (Z.eqb_eq _ _) Hz).
Qed.

(** *** The walk *)

Lemma honest_fetch fuel d n :
  ASSUME_VALID_HEIGHT <= claim -> late d -> Z.of_nat n <= lookback_span -> (Z.to_nat (lookback_span - Z.of_nat n) < fuel)%nat ->
  honest (fetch_lookback fuel v d (lookback_start + Z.of_nat n) (segment lookback_start n))
    (fun hs => hs = segment lookback_start (Z.to_nat lookback_span)).
Proof.
  intros Hle Hd. assert (lookback_start + lookback_span = ASSUME_VALID_HEIGHT) as Hsum by done.
  assert (0 <= lookback_start) as Hst by done.
  revert n. induction fuel as [|fuel IH]; intros n Hn Hf; [lia|]. cbn [fetch_lookback].
  destruct (Z.ltb_spec (lookback_start + Z.of_nat n) ASSUME_VALID_HEIGHT) as [Hlt|Hge].
  - eapply spec_bind; [by apply honest_deadline|]. intros _ _.
    eapply spec_bind; [apply honest_batch; [lia|unfold MAX_GETBLOCKS_ITEMS; lia]|]. intros b (j & -> & Hj & _).
    rewrite <- segment_app. unfold len. rewrite segment_length.
    replace (lookback_start + Z.of_nat n + Z.of_nat (S j)) with (lookback_start + Z.of_nat (n + S j)) by lia. apply IH; lia.
  - apply spec_ret. f_equal. lia.
Qed.
Lemma segment_descends s n : 0 <= s -> s + Z.of_nat n <= claim ->
  descends (prev_block_id (P (s + Z.of_nat n))) (rev (segment s n)).
Proof.
  intros Hs. induction n as [|n IH]; intros Hn; [done|]. rewrite segment_snoc, rev_app_distr. cbn [rev app descends].
  rewrite P_linked by lia. replace (s + Z.of_nat (S n) - 1) with (s + Z.of_nat n) by lia. split; [done|]. apply IH. lia.
Qed.

(** What the overlay must know below height [h]: everything from [floor] on. *)
Definition floor : Z :=
  if our_tip v =? 0 then if first_post_checkpoint_retarget <=? claim then lookback_start else ASSUME_VALID_HEIGHT else 0.
Definition covered (m : gmap Hash256 BlockHeader) (h : Z) : Prop := smooth -> forall i k, floor <= i < h ->
  overlay_get_header (overlay_at v m k) (block_id (P i)) = Ok (Some (P i)).
Definition knows (m : gmap Hash256 BlockHeader) (h : Z) : Prop := known_ok U m /\ covered m h.

Lemma known_get m k i h : known_ok U m -> 0 <= i <= claim -> m !! block_id (P i) = Some h -> h = P i /\
  overlay_get_header (overlay_at v m k) (block_id (P i)) = Ok (Some (P i)).
Proof.
  intros Hm Hi E. unfold overlay_get_header, overlay_at. cbn [overlay]. rewrite E. destruct (Hm _ _ E) as [Uh Hid].
  assert (h = P i) as -> by (apply U_ids; [done|by apply P_U|done]). done.
Qed.
Lemma remember_mono m h i k : known_ok U m -> 0 <= h <= claim -> 0 <= i <= claim ->
  overlay_get_header (overlay_at v m k) (block_id (P i)) = Ok (Some (P i)) ->
  overlay_get_header (overlay_at v (remember m (P h)) k) (block_id (P i)) = Ok (Some (P i)).
Proof.
  intros Hm Hh Hi. unfold overlay_get_header, overlay_at, remember. cbn [overlay fo_storage]. rewrite lookup_insert.
  case_decide as E; [|done]. intros _. apply U_ids in E as ->; [done|by apply P_U..].
Qed.
Lemma knows_remember m h : knows m h -> 0 <= h <= claim -> 0 <= floor -> knows (remember m (P h)) (h + 1).
Proof.
  intros [Hm Hc] Hh Hfl. assert (known_ok U (remember m (P h))) as Hm' by (apply known_ok_remember; [done|by apply P_U]).
  split; [done|]. intros Hsm i k Hi. destruct (decide (i = h)) as [->|].
  - eapply known_get; [done|done|]. unfold remember. by rewrite lookup_insert_eq.
  - apply remember_mono; [done|done|lia|]. apply Hc; [done|lia].
Qed.
Lemma floor_nonneg : 0 <= floor.
Proof. unfold floor. destruct (our_tip v =? 0); [|done]. by destruct (_ <=? claim). Qed.

Lemma covered_walk m k h j i : covered m h -> smooth -> floor <= i - Z.of_nat j -> i < h <= claim + 1 -> 0 <= i - Z.of_nat j ->
  walk_back (overlay_get_header (overlay_at v m k)) j (block_id (P i)) = Ok (block_id (P (i - Z.of_nat j))).
Proof.
  intros Hc Hsm. revert i. induction j as [|j IH]; intros i Hf Hi Hz; cbn [walk_back]; [by rewrite Z.sub_0_r|].
  unfold require_header. rewrite Hc by (done || lia). cbn [ok_or]. rewrite P_linked by lia.
  rewrite IH by lia. do 2 f_equal. f_equal. lia.
Qed.
(** Every retarget window above the anchor starts above [floor]. *)
Lemma window_covered h : A < h <= claim -> h mod RETARGET_WINDOW = 0 -> floor <= h - RETARGET_WINDOW.
Proof.
  unfold A, floor. intros Hh Hm. apply Z.mod_divide in Hm as [q Hq]; [|done].
  change first_post_checkpoint_retarget with 501120. change lookback_start with 495681.
  unfold ASSUME_VALID_HEIGHT, RETARGET_WINDOW in *. pose proof A_range as HA. unfold A, ASSUME_VALID_HEIGHT in HA.
  destruct (our_tip v =? 0); [|lia]. destruct (Z.leb_spec 501120 claim); lia.
Qed.
Lemma floor_below h : A < h -> floor <= h - 1.
Proof.
  intros Hh. unfold A, floor in *. destruct (our_tip v =? 0) eqn:E.
  - change lookback_start with 495681. unfold ASSUME_VALID_HEIGHT in *. destruct (_ <=? claim); lia.
  - pose proof A_range as HA. unfold A in HA. rewrite E in HA. lia.
Qed.
Lemma honest_target m k h : knows m h -> A < h <= claim ->
  match expected_difficulty_overlay (overlay_at v m k) (block_id (P (h - 1))) h with
  | Ok d => d = difficulty_target (P h)
  | Err _ => ~ smooth
  end.
Proof.
  intros [Hm Hc] Hh. pose proof A_range as HA. pose proof (floor_below h ltac:(lia)) as Hfl. rewrite P_target by lia.
  destruct (expected_difficulty_overlay _ _ _) as [d|e] eqn:E.
  { apply (target_on_chain v U U_ids U_db P h) in E; [done|intros; apply P_U; lia|intros; apply P_linked; lia|done|lia]. }
  intros Hsm. revert E. unfold expected_difficulty_overlay, require_header. destruct (Z.eqb_spec h 0); [lia|].
  rewrite Hc by (done || lia). cbn [ok_or]. destruct (Z.eqb_spec (h mod RETARGET_WINDOW) 0) as [Hmod|]; cbn [negb]; [|done].
  pose proof (window_covered h Hh Hmod) as Hw. pose proof floor_nonneg. 
  rewrite (covered_walk m k h) by (done || unfold RETARGET_WINDOW in *; lia).
  replace (h - 1 - Z.of_nat (Z.to_nat (RETARGET_WINDOW - 1))) with (h - RETARGET_WINDOW) by (unfold RETARGET_WINDOW in *; lia).
  rewrite Hc by (done || unfold RETARGET_WINDOW in *; lia). done.
Qed.

Lemma remembered hs m h : h ∈ hs \/ is_Some (m !! block_id h) -> is_Some (fold_left remember hs m !! block_id h).
Proof.
  revert m. induction hs as [|x hs IH]; intros m; cbn [fold_left]; [intros [Hx|?]; [by apply not_elem_of_nil in Hx|done]|].
  intros Hh. apply IH. rewrite elem_of_cons in Hh. unfold remember. destruct Hh as [[->|?]|?]; [|by left|].
  - right. by rewrite lookup_insert_eq.
  - right. rewrite lookup_insert. by case_decide.
Qed.
Lemma elem_of_segment s n i : s <= i < s + Z.of_nat n -> P i ∈ segment s n.
Proof.
  intros Hi. unfold segment. apply list_elem_of_In, in_map_iff. exists (Z.to_nat (i - s)). split; [f_equal; lia|].
  apply in_seq. lia.
Qed.
Lemma segment_U s n : 0 <= s -> s + Z.of_nat n <= claim + 1 -> Forall U (segment s n).
Proof.
  intros Hs Hn. unfold segment. apply Forall_map, Forall_forall. intros i Hi. apply list_elem_of_In, in_seq in Hi. apply P_U. lia.
Qed.
Lemma anchor_known : known_ok U (remember ∅ (P A)).
Proof.
  apply known_ok_remember; [|apply P_U, A_range]. intros id h Hl. by rewrite lookup_empty in Hl.
Qed.
Lemma honest_lookback d :
  our_tip v = 0 -> first_post_checkpoint_retarget <= claim -> late d ->
  honest (lookback v d (P A) (remember ∅ (P A))) (fun m => knows m (A + 1)).
Proof.
  intros Hz Hcl Hd. destruct (checkpoint_shared Hz) as [Hle _].
  assert (A = ASSUME_VALID_HEIGHT) as EA by (unfold A; by rewrite Hz).
  assert (lookback_start + Z.of_nat (Z.to_nat lookback_span) = ASSUME_VALID_HEIGHT) as Hsum by done. assert (0 <= lookback_start) by done.
  unfold lookback. eapply spec_bind; [apply (honest_fetch _ d 0); [done|done|done|rewrite Z.sub_0_r; lia]|]. intros hs ->.
  unfold len. rewrite segment_length.
  eapply spec_bind; [by apply spec_guard with (Q := fun _ => True)|]. intros _ _.
  eapply spec_bind with (P := fun _ => True).
  { apply spec_lift. unfold authenticate_prechckpt_headers.
    pose proof (authenticate_from_spec 0 (prev_block_id (P A)) (rev (segment lookback_start (Z.to_nat lookback_span)))) as Hs.
    destruct (authenticate_from _ _ _); [done|]. destruct Hs as [_ []]. rewrite EA, <- Hsum. apply segment_descends; [done|lia]. }
  intros _ _. apply spec_ret. assert (known_ok U (fold_left remember (segment lookback_start (Z.to_nat lookback_span)) (remember ∅ (P A)))) as Hk.
  { apply known_ok_fold; [apply anchor_known|apply segment_U; [done|lia]]. }
  split; [done|]. intros Hsm i k Hi. unfold floor in Hi. rewrite Hz, (proj2 (Z.leb_le _ _) Hcl) in Hi. cbn [Z.eqb] in Hi.
  destruct (remembered (segment lookback_start (Z.to_nat lookback_span)) (remember ∅ (P A)) (P i)) as [x Hx].
  { destruct (decide (i = A)) as [->|]; [right; unfold remember; by rewrite lookup_insert_eq|left; apply elem_of_segment; lia]. }
  eapply known_get; [done|lia|done].
Qed.
Lemma honest_known d : late d ->
  honest (if (our_tip v =? 0) && (first_post_checkpoint_retarget <=? claim) then lookback v d (P A) (remember ∅ (P A)) else mret (remember ∅ (P A)))
    (fun m => knows m (A + 1)).
Proof.
  intros Hd. pose proof A_range as HA. destruct (Z.eqb_spec (our_tip v) 0) as [Hz|Hnz]; cbn [andb].
  - destruct (Z.leb_spec first_post_checkpoint_retarget claim) as [Hcl|Hcl]; [by apply honest_lookback|]. apply spec_ret.
    split; [apply anchor_known|]. intros Hsm i k Hi. unfold floor, A in *. rewrite Hz in Hi, HA. cbn [Z.eqb] in Hi, HA.
    rewrite (proj2 (Z.leb_gt _ _) Hcl) in Hi. assert (i = ASSUME_VALID_HEIGHT) as -> by lia. rewrite Hz. cbn [Z.eqb].
    pose proof anchor_known as Hk. unfold A in Hk. rewrite Hz in Hk. cbn [Z.eqb] in Hk.
    eapply known_get; [done|done|]. unfold remember. by rewrite lookup_insert_eq.
  - apply spec_ret. apply knows_remember; [|done|apply floor_nonneg].
    split; [intros id h Hl; by rewrite lookup_empty in Hl|]. intros Hsm i k Hi. unfold floor, A in *.
    rewrite (proj2 (Z.eqb_neq _ _) Hnz) in *. destruct (fork_point Hnz) as [Ha Hfork].
    unfold overlay_get_header, overlay_at. cbn [overlay fo_storage]. rewrite lookup_empty, (sm_header Hsm).
    rewrite <- (proj2 (Hfork i ltac:(lia)) ltac:(lia)). rewrite (sm_headers Hsm) by (done || lia). done.
Qed.

Lemma honest_one m h : knows m h -> A < h <= claim ->
  honest (validate_one_forward_header v m (block_id (P (h - 1))) h (P h)) (fun m => knows m (h + 1)).
Proof.
  intros Hm Hh. pose proof A_range as HA. unfold validate_one_forward_header. rewrite P_linked, P_height by lia.
  rewrite bool_decide_true by done. rewrite Z.eqb_refl. cbn [negb]. apply spec_observe. intros k.
  pose proof (honest_target m k h Hm Hh) as Ht. destruct (expected_difficulty_overlay _ _ _) as [d|e].
  - subst d. eapply spec_bind; [by apply (spec_lift _ _ (fun d => d = difficulty_target (P h)))|]. intros d ->.
    rewrite bool_decide_true by done. cbn [negb]. apply spec_observe. intros k'.
    eapply spec_bind; [apply spec_guard with (Q := fun _ => True); [done|]|].
    { intros Hk. apply (excuse (spawn_ok v k' = true)); [by intros []|congruence|done]. }
    intros _ _. rewrite P_pow by lia. eapply spec_bind; [by apply (spec_lift _ _ (fun b => b = true))|]. intros b ->. cbn [negb].
    apply spec_ret. apply knows_remember; [done|lia|apply floor_nonneg].
  - eapply spec_bind; [apply (spec_lift _ _ (fun _ => False)); by split|]. done.
Qed.

(** The state of the walk after [n] headers; progress was seen at some moment. *)
Record walking (n : nat) (w : Walk) : Prop := {
  wg_known : knows (w_known w) (A + 1 + Z.of_nat n);
  wg_validated : w_validated w = segment (A + 1) n;
  wg_last : w_last w = block_id (P (A + Z.of_nat n));
  wg_next : w_next w = A + 1 + Z.of_nat n;
  wg_progress : exists k, w_progress w = clock v k
}.
Lemma honest_walk_batch j n w :
  walking n w -> A + Z.of_nat (n + j) <= claim -> honest (walk_batch v (segment (A + 1 + Z.of_nat n) j) w) (walking (n + j)).
Proof.
  revert n w. induction j as [|j IH]; intros n w Hw Hle; [rewrite Nat.add_0_r; by apply spec_ret|].
  destruct Hw as [Hk Hv Hl Hn Hp]. rewrite segment_cons. cbn [walk_batch]. rewrite Hl, Hn.
  replace (A + Z.of_nat n) with (A + 1 + Z.of_nat n - 1) by lia.
  eapply spec_bind; [apply honest_one; [done|lia]|]. intros m Hm. apply spec_observe. intros k.
  replace (A + 1 + Z.of_nat n + 1) with (A + 1 + Z.of_nat (S n)) in * by lia. replace (n + S j)%nat with (S n + j)%nat in * by lia.
  apply IH; [|done]. constructor; cbn [w_known w_validated w_last w_next w_progress].
  - done.
  - by rewrite Hv, segment_snoc.
  - do 2 f_equal. lia.
  - done.
  - by exists k.
Qed.
Lemma honest_walk fuel d r n w :
  walking n w -> A + Z.of_nat n <= claim -> late d -> (r = Bootstrap -> our_tip v = 0) -> (Z.to_nat (claim - A) - n < fuel)%nat ->
  honest (walk_forward fuel v d r claim w) (walking (Z.to_nat (claim - A))).
Proof.
  intros Hw Hn Hd Hr. revert n w Hw Hn. induction fuel as [|fuel IH]; intros n w Hw Hn Hf; [lia|]. cbn [walk_forward].
  rewrite (wg_next n w Hw). pose proof A_range as HA. destruct (Z.leb_spec (A + 1 + Z.of_nat n) claim) as [Hle|Hgt].
  - eapply spec_bind; [by apply honest_deadline|]. intros _ _. apply spec_observe. intros k.
    eapply spec_bind; [apply spec_guard with (Q := fun _ => True); [done|]|].
    { intros E. apply negb_false_iff, andb_true_iff in E as [E1 E2]. apply bool_decide_eq_true in E1.
      destruct (wg_progress n w Hw) as [k' Ek]. rewrite Ek in E2.
      apply (excuse (clock v k - clock v k' < patience * SECOND)); [by intros []| |done].
      unfold patience. rewrite (Hr E1). cbn [Z.eqb]. lia. }
    intros _ _. rewrite Z.mod_small by lia.
    eapply spec_bind; [apply honest_batch; [lia|unfold MAX_GETBLOCKS_ITEMS; lia]|]. intros b (j & -> & Hj & _).
    eapply spec_bind; [apply honest_walk_batch; [done|lia]|]. intros w' Hw'. eapply IH; [done|lia|lia].
  - apply spec_ret. by replace (Z.to_nat (claim - A)) with n by lia.
Qed.

(** The tip that the peer is credited with. *)
Definition confirmed (t : VerifiedTip) (hs : list BlockHeader) : Prop :=
  vt_height t = claim /\ vt_block_id t = block_id (P claim) /\
  vt_anchor_height t = A /\ vt_anchor_block_id t = block_id (P A) /\ hs = segment (A + 1) (Z.to_nat (claim - A)).

Lemma honest_anchor_work trusted : (smooth -> our_tip v = 0 -> trusted = true) ->
  honest (anchor_work v (block_id (P A)) (our_tip v =? 0) trusted) (fun _ => True).
Proof.
  intros Ht. unfold anchor_work, A. destruct (Z.eqb_spec (our_tip v) 0) as [E|E].
  - destruct trusted; [by apply spec_ret|]. apply spec_throw. apply (excuse (false = true)); [auto|done|done].
  - apply honest_read; [done| |done]. intros k Hsm. destruct (fork_point E) as [Ha Hfork].
    rewrite <- (proj2 (Hfork a ltac:(lia)) ltac:(lia)). by apply (sm_work Hsm).
Qed.
Lemma honest_canonical : honest (if our_tip v =? 0 then mret true else anchor_still_canonical v A (block_id (P A))) (fun b => b = true).
Proof.
  unfold anchor_still_canonical, A. destruct (Z.eqb_spec (our_tip v) 0) as [E|E]; [by apply spec_ret|].
  destruct (fork_point E) as [Ha Hfork]. eapply spec_bind with (P := fun o => o = Some (ours a)).
  - apply spec_read.
    + intros k Hk. apply (excuse (read_fails v k = false)); [by intros []|congruence|done].
    + intros k _. apply ours_stored. lia.
  - intros o ->. apply spec_ret, bool_decide_eq_true. f_equal. apply Hfork; lia.
Qed.
Lemma honest_validate_from d r : late d -> (r = Bootstrap -> our_tip v = 0) ->
  honest (validate_from v d r claim (block_id (P claim))
            {| a_height := A; a_id := block_id (P A); a_header := P A; is_checkpoint := our_tip v =? 0 |}) (fun '(t, hs) => confirmed t hs).
Proof.
  intros Hd Hr. pose proof A_range as HA. unfold validate_from. cbn [a_height a_id a_header is_checkpoint].
  assert (forall k, smooth -> our_tip v = 0 -> av_trusted v k = true) as Ht by (intros k Hsm; apply (sm_trusted Hsm)).
  destruct (Z.leb_spec claim A) as [Hle|Hlt].
  { apply spec_observe. intros k. eapply spec_bind; [by apply honest_anchor_work, Ht|]. intros w _. apply spec_ret.
    unfold confirmed. cbn. by replace (claim - A) with 0 by lia. }
  cbv zeta. eapply spec_bind; [by apply honest_known|]. intros m Hm. apply spec_observe. intros k.
  eapply spec_bind; [apply (honest_walk _ d r 0); [|cbn; lia|done|done|lia]|].
  { constructor; cbn; [by rewrite Z.add_0_r|done|by rewrite Z.add_0_r|lia|by exists k]. }
  intros w [_ Hv Hla _ _]. rewrite Hla. replace (A + Z.of_nat (Z.to_nat (claim - A))) with claim by lia.
  rewrite bool_decide_true by done. cbn [negb]. apply spec_observe. intros k'.
  eapply spec_bind; [by apply honest_anchor_work, Ht|]. intros work _. eapply spec_bind; [apply honest_canonical|]. intros b ->.
  eapply spec_bind; [by apply spec_guard with (Q := fun _ => True)|]. intros _ _. apply spec_ret. by unfold confirmed.
Qed.
Lemma honest_validate_tip : honest (validate_tip v claim (block_id (P claim))) (fun '(t, hs) => confirmed t hs).
Proof.
  unfold validate_tip. apply spec_observe. intros k. cbv zeta.
  assert (late (clock v k + compute_deadline (cores v) (saturating_sub claim (our_tip v)) (select (our_tip v) (av_enabled v)) * SECOND)) as Hd.
  { exists k. unfold patience, compute_deadline, select. unfold BOOTSTRAP_COORDINATOR_STALL_SECS, TIP_VALIDATION_DEADLINE_FLOOR_SECS,
      BOOTSTRAP_COORDINATOR_DEADLINE_SECS, SECOND. destruct (our_tip v =? 0); lia. }
  set (d := clock v k + _) in *. clearbody d. apply spec_observe. intros k'. unfold select. eapply spec_bind with (P := the_anchor).
  - destruct (Z.eqb_spec (our_tip v) 0) as [E|E]; [|by apply honest_ancestor].
    destruct (av_enabled v && av_trusted v k') eqn:Eb; [by apply honest_checkpoint|]. apply spec_throw.
    apply (excuse (av_enabled v && av_trusted v k' = true)); [|congruence|done].
    intros Hsm. by rewrite (sm_enabled Hsm E), (sm_trusted Hsm _ E).
  - intros x ->. apply honest_validate_from; [done|]. by destruct (Z.eqb_spec (our_tip v) 0).
Qed.
End Honest.
