(* ===== verification/TipCoordinator.v ===== *)
(** * Attempts side by side: slots, sessions and the cache of validated headers

    The invariant of the coordinator over every interleaving of attempts, and what
    the cache is used for: a block whose header is in it skips the proof-of-work
    check, and is processed exactly as if it had been checked. *)

From Stdlib Require Import Strings.String.
From S2P Require Import Prelude Bytes Codec Hash Transaction Block Wire U256 Difficulty Reward.
From S2P Require Import ScriptValue ScriptCodec Jets ScriptCost Eval FeeCost Smt Utxo TxValidation BlockValidation Mempool Storage.
From S2P Require Import ChainManager TipValidation TipSoundness.
#[local] Open Scope Z_scope.
#[local] Open Scope list_scope.

Section Coordination.
Context `{Sha2} `{Argon2}.

(** ** Validated headers have proof of work *)

(** Partial correctness: the values of [c] are in [Q]. *)
Definition yields {A} (c : tv A) (Q : A -> Prop) : Prop := forall k a k', c k = Some (Ok a, k') -> Q a.
Lemma yields_bind {A B} (c : tv A) (f : A -> tv B) P Q : yields c P -> (forall a, P a -> yields (f a) Q) -> yields (c ≫= f) Q.
Proof.
  intros Hc Hf k b k'. unfold mbind, tv_bind. destruct (c k) as [[[a|e] k1]|] eqn:E; [|done..]. apply Hf. by eapply Hc.
Qed.
Lemma yields_ignore {A B} (c : tv A) (f : A -> tv B) Q : (forall a, yields (f a) Q) -> yields (c ≫= f) Q.
Proof. intros Hf. apply yields_bind with (fun _ => True); [done|auto]. Qed.
Lemma yields_ret {A} (a : A) (Q : A -> Prop) : Q a -> yields (mret a) Q.
Proof. by intros ? k b k' [= <- _]. Qed.

Definition pow_ok (h : BlockHeader) : Prop := verify_pow h = Ok true.
Lemma validate_one_pow v m parent h x : yields (validate_one_forward_header v m parent h x) (fun _ => pow_ok x).
Proof.
  unfold validate_one_forward_header. destruct (negb _); [done|]. destruct (negb _); [done|].
  apply yields_ignore. intros r. apply yields_ignore. intros d. destruct (negb _); [done|].
  apply yields_ignore. intros s. apply yields_ignore. intros []. unfold pow_ok.
  apply yields_bind with (fun b => verify_pow x = Ok b).
  - intros k b k'. unfold lift. destruct (verify_pow x); [by intros [= <- _]|done].
  - intros [] Hb; [by apply yields_ret|done].
Qed.
Lemma walk_batch_pow v batch w : Forall pow_ok (w_validated w) -> yields (walk_batch v batch w) (fun w => Forall pow_ok (w_validated w)).
Proof.
  revert w. induction batch as [|x batch IH]; intros w Hw; cbn [walk_batch]; [by apply yields_ret|].
  eapply yields_bind; [apply validate_one_pow|]. intros m Hx. apply yields_ignore. intros t. apply IH. cbn.
  by apply Forall_app; split; [|apply Forall_singleton].
Qed.
Lemma walk_forward_pow fuel v d r claim w :
  Forall pow_ok (w_validated w) -> yields (walk_forward fuel v d r claim w) (fun w => Forall pow_ok (w_validated w)).
Proof.
  revert w. induction fuel as [|fuel IH]; intros w Hw; cbn [walk_forward]; [done|]. destruct (_ <=? claim); [|by apply yields_ret].
  apply yields_ignore. intros _. apply yields_ignore. intros t. apply yields_ignore. intros _. apply yields_ignore. intros b.
  eapply yields_bind; [by apply walk_batch_pow|]. intros w' Hw'. by apply IH.
Qed.
Lemma validate_tip_pow v claim_height claim_id : yields (validate_tip v claim_height claim_id) (fun '(_, hs) => Forall pow_ok hs).
Proof.
  unfold validate_tip. apply yields_ignore. intros t. cbv zeta. apply yields_ignore. intros trusted. apply yields_ignore. intros a.
  unfold validate_from. destruct (_ <=? _).
  - apply yields_ignore. intros tr. apply yields_ignore. intros w. by apply yields_ret.
  - cbv zeta. apply yields_ignore. intros m. apply yields_ignore. intros t'.
    eapply yields_bind; [by apply walk_forward_pow|]. intros w Hw. destruct (negb _); [done|].
    do 4 (apply yields_ignore; intros ?). by apply yields_ret.
Qed.

(** ** The invariant *)

Definition holding (r : ValidationRegime) (ts : list Task) : list Task := filter (fun t => t_slot t = Some r) ts.
Definition cache_ok (c : PreValidatedHeaderCache) : Prop :=
  forall peer id h, cache_lookup peer id c = Some h -> block_id h = id /\ pow_ok h.

Record tip_ok (st : TipState) : Prop := {
  to_slots r : semaphore_for r (coord st) + len (holding r (tasks st)) = max_concurrent r /\ 0 <= semaphore_for r (coord st);
  to_channels s : is_Some (subscribers (coord st) !! s) -> exists t, t ∈ tasks st /\ t_session t = s /\ is_Some (t_slot t);
  to_queues s q : subscribers (coord st) !! s = Some q -> len q <= SUBSCRIBER_CAPACITY;
  to_reserved t : t ∈ tasks st -> t_session t ∈ active (coord st) \/ t_session t ∈ gone st;
  to_single : NoDup (filter (fun s => s ∉ gone st) (t_session <$> tasks st));
  to_cache : cache_ok (cache (coord st))
}.

(** Sessions with a task, the disconnected ones left out. *)
Abbreviation live g ts := (filter (fun s => s ∉ (g : gset session)) (t_session <$> (ts : list Task))).

Lemma semaphore_permits r r' n c : semaphore_for r' (with_permits r n c) = if decide (r' = r) then n else semaphore_for r' c.
Proof. by destruct r, r'. Qed.
Lemma with_permits_rest r n c : subscribers (with_permits r n c) = subscribers c /\ cache (with_permits r n c) = cache c /\ active (with_permits r n c) = active c.
Proof. by destruct r. Qed.
Lemma live_other g ts1 ts2 s r t : NoDup (live g (ts1 ++ {| t_session := s; t_slot := r |} :: ts2)) ->
  t ∈ ts1 ++ ts2 -> t_session t = s -> s ∈ g.
Proof.
  intros Hnd Ht Es. destruct (decide (s ∈ g)) as [?|Hg]; [done|]. rewrite fmap_app, fmap_cons, filter_app in Hnd.
  cbn [t_session] in Hnd. rewrite filter_cons_True in Hnd by done. apply NoDup_app in Hnd as (_ & Hd & Hnd).
  apply NoDup_cons in Hnd as [Hn _]. apply elem_of_app in Ht as [Ht|Ht].
  - destruct (Hd s); [|by left]. apply list_elem_of_filter. split; [done|]. rewrite <- Es. by apply list_elem_of_fmap_2.
  - destruct Hn. apply list_elem_of_filter. split; [done|]. rewrite <- Es. by apply list_elem_of_fmap_2.
Qed.
Lemma live_drop g ts1 ts2 t : NoDup (live g (ts1 ++ t :: ts2)) -> NoDup (live g (ts1 ++ ts2)).
Proof.
  rewrite !fmap_app, !fmap_cons, !filter_app. intros Hnd. apply NoDup_app in Hnd as (H1 & Hd & H2). apply NoDup_app. split_and!; [done| |].
  - intros x Hx Hx'. apply (Hd x Hx). apply list_elem_of_filter in Hx' as [? ?]. apply list_elem_of_filter. split; [done|by right].
  - rewrite filter_cons in H2. case_decide; [by apply NoDup_cons in H2 as [_ ?]|done].
Qed.
Lemma holding_split r ts1 t ts2 :
  len (holding r (ts1 ++ t :: ts2)) = len (holding r (ts1 ++ ts2)) + (if decide (t_slot t = Some r) then 1 else 0).
Proof.
  unfold holding. rewrite !filter_app, filter_cons, !len_app. case_decide; [rewrite len_cons|]; lia.
Qed.

Lemma cache_ok_insert peer h c : cache_ok c -> pow_ok h -> cache_ok (cache_insert peer h c).
Proof.
  intros Hc Hh p id x. unfold cache_lookup, cache_insert. destruct (decide (p = peer)) as [->|Hp].
  - rewrite lookup_insert_eq. cbn [mbind option_bind]. rewrite lookup_insert_Some. intros [[<- <-]|[_ Hx]]; [done|].
    apply (Hc peer). unfold cache_lookup. destruct (c !! peer); [done|]. cbn in Hx. by rewrite lookup_empty in Hx.
  - rewrite lookup_insert_ne by done. apply Hc.
Qed.
Lemma cache_ok_clear peer c : cache_ok c -> cache_ok (clear_peer peer c).
Proof.
  intros Hc p id x. unfold cache_lookup, clear_peer. destruct (decide (p = peer)) as [->|Hp]; [by rewrite lookup_delete_eq|].
  rewrite lookup_delete_ne by done. apply Hc.
Qed.
Lemma cache_ok_fold peer hs c : cache_ok c -> Forall pow_ok hs -> cache_ok (fold_left (fun m h => cache_insert peer h m) hs c).
Proof. intros Hc Hhs. revert c Hc. induction Hhs; intros c Hc; simpl; [done|]. by apply IHHhs, cache_ok_insert. Qed.

Lemma begin_ok cores r s c c' ts1 ts2 g :
  tip_ok {| coord := c; tasks := ts1 ++ {| t_session := s; t_slot := None |} :: ts2; gone := g |} -> begin_attempt cores r s c = Ok c' ->
  tip_ok {| coord := c'; tasks := ts1 ++ {| t_session := s; t_slot := Some r |} :: ts2; gone := g |}.
Proof.
  intros [Hs Hch Hq Hr Hsi Hca]. cbn [coord tasks gone] in *. unfold begin_attempt, try_acquire. destruct (Z.ltb_spec 0 (semaphore_for r c)) as [Hpos|]; [|done].
  intros [= <-]. destruct (with_permits_rest r (semaphore_for r c - 1) c) as (Es & Ec & Ea).
  assert (forall r', semaphore_for r' (install_headers_subscriber s (set_rate (argon2_rate_per_sec cores r) (with_permits r (semaphore_for r c - 1) c)))
     = semaphore_for r' (with_permits r (semaphore_for r c - 1) c)) as Esem by (by intros []).
  constructor; cbn [coord tasks gone].
  - intros r'. rewrite Esem, semaphore_permits, holding_split. destruct (Hs r') as [Hr' ?]. rewrite holding_split in Hr'. cbn [t_slot] in *.
    destruct (decide (r' = r)) as [->|Hne]; [rewrite decide_True by done|rewrite decide_False by congruence]; (rewrite decide_False in Hr' by done); lia.
  - intros s' Hs'. cbn in Hs'. rewrite Es in Hs'. destruct (decide (s' = s)) as [->|Hne].
    + exists {| t_session := s; t_slot := Some r |}. split; [|done]. apply elem_of_app. right. left.
    + rewrite lookup_insert_ne in Hs' by done. destruct (Hch s' Hs') as (t & Ht & <- & Hslot). exists t. split; [|done].
      apply elem_of_app in Ht as [Ht|Ht]; [by apply elem_of_app; left|]. apply elem_of_cons in Ht as [->|Ht]; [done|].
      apply elem_of_app. right. by right.
  - intros s' q. cbn. rewrite Es, lookup_insert_Some. intros [[_ <-]|[_ Hq']]; [done|by eapply Hq].
  - intros t Ht. cbn. rewrite Ea. apply elem_of_app in Ht as [Ht|Ht]; [apply Hr, elem_of_app; by left|].
    apply elem_of_cons in Ht as [->|Ht]; [apply (Hr {| t_session := s; t_slot := None |}), elem_of_app; right; left|apply Hr, elem_of_app; right; by right].
  - by rewrite fmap_app, fmap_cons in *.
  - cbn. by rewrite Ec.
Qed.

(** The end of a task: its slot, channel and reservation are free again. *)
Lemma leave_ok c c' slot s ts1 ts2 g :
  tip_ok {| coord := c; tasks := ts1 ++ {| t_session := s; t_slot := slot |} :: ts2; gone := g |} ->
  (forall r, semaphore_for r c' = semaphore_for r c + if decide (slot = Some r) then 1 else 0) ->
  subscribers c' = delete s (subscribers c) -> active c' = active c ∖ {[s]} -> cache_ok (cache c') ->
  tip_ok {| coord := c'; tasks := ts1 ++ ts2; gone := g |}.
Proof.
  intros [Hs Hch Hq Hr Hsi Hca] Esem Es Ea Hc. constructor; cbn [coord tasks gone] in *.
  - intros r. destruct (Hs r) as [Hsum ?]. rewrite holding_split in Hsum. cbn [t_slot] in Hsum. rewrite Esem. case_decide; lia.
  - intros s'. rewrite Es. intros Hs'. destruct (decide (s' = s)) as [->|Hne]; [by rewrite lookup_delete_eq in Hs'; destruct Hs'|].
    rewrite lookup_delete_ne in Hs' by done. destruct (Hch s' Hs') as (t & Ht & <- & Hslot). exists t. split; [|done].
    apply elem_of_app in Ht as [Ht|Ht]; [by apply elem_of_app; left|]. apply elem_of_cons in Ht as [->|Ht]; [done|]. by apply elem_of_app; right.
  - intros s' q. rewrite Es, lookup_delete_Some. intros [_ Hq']. by eapply Hq.
  - intros t Ht. rewrite Ea. destruct (decide (t_session t = s)) as [E|E]; [right; rewrite E; by eapply live_other|].
    destruct (Hr t) as [?|?]; [|set_solver|by right]. apply elem_of_app in Ht as [?|?]; apply elem_of_app; [by left|right; by right].
  - by eapply live_drop.
  - done.
Qed.
Lemma end_ok v k k' ch cid o r s c ts1 ts2 g :
  tip_ok {| coord := c; tasks := ts1 ++ {| t_session := s; t_slot := Some r |} :: ts2; gone := g |} ->
  validate_tip v ch cid k = Some (o, k') ->
  tip_ok {| coord := release_reservation s (end_attempt r s o c); tasks := ts1 ++ ts2; gone := g |}.
Proof.
  intros Hok Ho. pose proof (to_cache _ Hok) as Hca. cbn [coord] in Hca. apply (leave_ok c _ (Some r) s); [done|..]; unfold end_attempt.
  - intros r'. destruct o as [[t hs]|e], r, r'; cbn; repeat case_decide; first [lia|congruence].
  - destruct o as [[t hs]|e], r; done.
  - destruct o as [[t hs]|e], r; done.
  - assert (cache_ok (match o with Ok (_, hs) => fold_left (fun m h => cache_insert (fst s) h m) hs (cache c) | Err _ => cache c end)) as Hx.
    { destruct o as [[t hs]|e]; [|done]. apply cache_ok_fold; [done|]. exact (validate_tip_pow v ch cid k _ k' Ho). }
    destruct o as [[t hs]|e], r; exact Hx.
Qed.

(** Changes that keep tasks and semaphores. *)
Lemma adjust_ok c c' ts g g' :
  tip_ok {| coord := c; tasks := ts; gone := g |} ->
  (forall r, semaphore_for r c' = semaphore_for r c) ->
  (forall s q, subscribers c' !! s = Some q -> exists q', subscribers c !! s = Some q' /\ (len q <= Z.max (len q') SUBSCRIBER_CAPACITY)) ->
  (forall t, t ∈ ts -> t_session t ∈ active c \/ t_session t ∈ g -> t_session t ∈ active c' \/ t_session t ∈ g') ->
  g ⊆ g' -> cache_ok (cache c') -> tip_ok {| coord := c'; tasks := ts; gone := g' |}.
Proof.
  intros [Hs Hch Hq Hr Hsi Hca] Esem Hsub Hact Hg Hc. constructor; cbn [coord tasks gone] in *.
  - intros r. rewrite Esem. apply Hs.
  - intros s [q Hs']. apply Hch. destruct (Hsub s q Hs') as (q' & -> & _). done.
  - intros s q Hs'. destruct (Hsub s q Hs') as (q' & Hq' & Hlen). apply Hq in Hq'. lia.
  - intros t Ht. apply Hact; [done|by apply Hr].
  - assert (live g' ts = filter (fun s => s ∉ g') (live g ts)) as ->.
    { rewrite list_filter_filter_l; [done|]. intros x. set_solver. }
    by apply NoDup_filter.
  - done.
Qed.
Lemma adjust_keep c c' ts g :
  tip_ok {| coord := c; tasks := ts; gone := g |} -> (forall r, semaphore_for r c' = semaphore_for r c) ->
  subscribers c' = subscribers c -> active c ⊆ active c' -> cache_ok (cache c') -> tip_ok {| coord := c'; tasks := ts; gone := g |}.
Proof.
  intros Hok Esem Es Ha Hc. eapply adjust_ok; [done|done| | |done|done].
  - intros s q. rewrite Es. intros Hq. exists q. split; [done|lia].
  - set_solver.
Qed.

Lemma route_ok s hs c ts g : tip_ok {| coord := c; tasks := ts; gone := g |} ->
  tip_ok {| coord := snd (route_headers_if_subscribed s hs c); tasks := ts; gone := g |}.
Proof.
  intros Hok. unfold route_headers_if_subscribed. destruct (subscribers c !! s) as [q|] eqn:E; [|done]. cbn [snd].
  destruct (Z.ltb_spec (len q) SUBSCRIBER_CAPACITY) as [Hlt|]; [|done].
  eapply adjust_ok; [done|by intros []| |by auto|done|apply (to_cache _ Hok)].
  intros s' q'. cbn. rewrite lookup_insert_Some. intros [[<- <-]|[_ Hq']].
  - exists q. split; [done|]. rewrite len_app. unfold len at 2. simpl. lia.
  - exists q'. split; [done|lia].
Qed.
Lemma spawn_ok' s c ts g : fst (try_reserve s c) = true -> tip_ok {| coord := c; tasks := ts; gone := g |} ->
  tip_ok {| coord := snd (try_reserve s c); tasks := {| t_session := s; t_slot := None |} :: ts; gone := g |}.
Proof.
  cbn [fst try_reserve]. intros Hres [Hs Hch Hq Hr Hsi Hca]. apply negb_true_iff, bool_decide_eq_false in Hres.
  constructor; cbn [coord tasks gone snd try_reserve] in *.
  - intros r. destruct (Hs r) as [Hsum ?]. pose proof (holding_split r [] {| t_session := s; t_slot := None |} ts) as Hh. cbn [app t_slot] in Hh.
    rewrite Hh, decide_False by done. destruct r; cbn in *; lia.
  - intros s' Hs'. destruct (Hch s' Hs') as (t & Ht & ? & ?). exists t. split; [by right|done].
  - done.
  - intros t Ht. cbn. apply elem_of_cons in Ht as [->|Ht]; [set_solver|]. destruct (Hr t Ht); [set_solver|by right].
  - rewrite fmap_cons, filter_cons. cbn [t_session]. case_decide as Hg; [|done]. apply NoDup_cons. split; [|done].
    intros Hin. apply list_elem_of_filter in Hin as [_ Hin]. apply list_elem_of_fmap in Hin as (t & -> & Ht). by destruct (Hr t Ht).
  - done.
Qed.

Lemma tip_step_ok st st' : tip_step st st' -> tip_ok st -> tip_ok st'.
Proof.
  intros Hstep Hok. destruct Hstep as [s c ts g Hr|s c ts g Hr|cores r s c c' ts1 ts2 g Hb|cores r s c e ts1 ts2 g Hb|
    v k k' ch cid o r s c ts1 ts2 g Ho|s c ts g Hr|peer c ts g|s hs c ts g|s b q c ts g Hq|s c ts g].
  - by apply spawn_ok'.
  - eapply adjust_keep; [done|by intros []|done|cbn; set_solver|apply (to_cache _ Hok)].
  - by eapply begin_ok.
  - eapply (leave_ok c _ None); [done| |done|done|apply (to_cache _ Hok)]. intros []; cbn; case_decide; (lia || congruence).
  - by eapply end_ok.
  - cbn [fst try_reserve] in Hr. apply negb_true_iff, bool_decide_eq_false in Hr.
    eapply adjust_keep; [done|by intros []|done|cbn; set_solver|apply (to_cache _ Hok)].
  - eapply adjust_keep; [done|by intros []|done|done|apply cache_ok_clear, (to_cache _ Hok)].
  - by apply route_ok.
  - eapply adjust_ok; [done|by intros []| |by auto|done|apply (to_cache _ Hok)]. intros s' q'. cbn. rewrite lookup_insert_Some.
    intros [[<- <-]|[_ Hq']]; [|exists q'; split; [done|lia]]. exists (b :: q). rewrite len_cons. split; [done|lia].
  - eapply adjust_ok; [done|by intros []| | |set_solver|apply cache_ok_clear, (to_cache _ Hok)].
    + intros s' q. cbn. intros Hq. exists q. split; [done|lia].
    + intros t _. cbn. destruct (decide (t_session t = s)); set_solver.
Qed.
Lemma tip_start_ok : tip_ok tip_start.
Proof.
  constructor; cbn [coord tasks gone tip_start].
  - by intros [].
  - cbn. intros s Hs. rewrite lookup_empty in Hs. by destruct Hs.
  - cbn. intros s q Hs. by rewrite lookup_empty in Hs.
  - intros t Ht. by apply not_elem_of_nil in Ht.
  - constructor.
  - intros peer id h Hl. unfold cache_lookup in Hl. cbn in Hl. by rewrite lookup_empty in Hl.
Qed.
Lemma tip_reachable_ok st : rtc tip_step tip_start st -> tip_ok st.
Proof.
  intros Hr. assert (forall x, rtc tip_step x st -> tip_ok x -> tip_ok st) as Hx; [|by apply (Hx tip_start), tip_start_ok].
  intros x Hx. induction Hx as [|x y z Hs _ IH]; [done|]. intros Hok. apply IH; [done|]. by eapply tip_step_ok.
Qed.
End Coordination.

(** ** Claims *)


(** C14: A peer that serves pieces of a valid chain is never struck: the attempt
    returns, and either credits the peer with exactly its claim, anchored at the
    last block that both chains share (at the checkpoint for a node without a
    chain) and with every header above it validated, or ends with an error that
    records no strike; and when nothing fails, storage, answers and time included,
    the claim is credited. *)
Theorem honest_peer_confirmed `{Sha2} `{Argon2} (v : View) (U : BlockHeader -> Prop) (P : Z -> BlockHeader) (claim : Z)
    (ours : Z -> Hash256) (a : Z) (k : nat) :
  (forall h h', U h -> U h' -> block_id h = block_id h' -> h = h') ->
  (forall k id h, get_header id (db_at v k) = Some h -> U h /\ block_id h = id) ->
  0 <= claim < 2 ^ 32 ->
  (forall i, 0 <= i <= claim -> U (P i)) -> (forall i, 0 <= i <= claim -> height (P i) = i) ->
  (forall i, 0 < i <= claim -> prev_block_id (P i) = block_id (P (i - 1))) ->
  (forall i, 0 < i <= claim -> difficulty_target (P i) = chain_target P i) ->
  (forall i, 0 < i <= claim -> verify_pow (P i) = Ok true) ->
  (forall k s c hs, 0 <= s <= claim -> 0 <= c -> answer v k (build_get_headers s c) = Delivered hs ->
     exists n, hs = segment P s n /\ Z.of_nat n <= c /\ s + Z.of_nat n <= claim + 1) ->
  (forall k h, 0 <= h <= our_tip v -> get_block_id_by_height h (db_at v k) = Some (ours h)) ->
  (our_tip v <> 0 -> 0 <= a <= Z.min (our_tip v) claim /\
     forall h, 0 <= h <= Z.min (our_tip v) claim -> ours h = block_id (P h) <-> h <= a) ->
  (our_tip v = 0 -> ASSUME_VALID_HEIGHT <= claim /\ block_id (P ASSUME_VALID_HEIGHT) = ASSUME_VALID_HASH) ->
  exists o k', validate_tip v claim (block_id (P claim)) k = Some (o, k') /\
    match o with
    | Ok (t, hs) => confirmed v P claim a t hs
    | Err e => should_strike (Err e) = false /\ ~ smooth v P claim ours a
    end.
Proof.
  intros Hids Hdb Hcl HU Hh Hl Ht Hp Hs Ho Hf Hc.
  assert (0 <= our_tip v) as Hnn by (destruct (decide (our_tip v = 0)) as [->|Hne]; [done|]; destruct (Hf Hne); lia).
  pose proof (honest_validate_tip v U Hids Hdb P claim Hcl HU Hh Hl Ht Hp Hs ours a Hnn Ho Hf Hc k) as Hr.
  destruct (validate_tip v claim (block_id (P claim)) k) as [[[[t hs]|e] k']|]; [eexists _, _; split; [done|exact Hr]| |done].
  eexists _, _. split; [done|]. destruct Hr as [Hn He]. split; [|done]. destruct e; try done. by destruct (He m).
Qed.

(** However attempts, disconnections and deliveries interleave: at most four
    attempts hold a slot in each regime, and slots are neither lost nor created;
    no connected session has two attempts at a time; only a running attempt has a
    channel, and its queue never exceeds 32 batches. *)
Theorem attempts_bounded `{Sha2} `{Argon2} (st : TipState) :
  rtc tip_step tip_start st ->
  (forall r, semaphore_for r (coord st) + len (holding r (tasks st)) = max_concurrent r /\ len (holding r (tasks st)) <= 4) /\
  NoDup (filter (fun s => s ∉ gone st) (t_session <$> tasks st)) /\
  (forall s q, subscribers (coord st) !! s = Some q ->
     len q <= 32 /\ exists t, t ∈ tasks st /\ t_session t = s /\ is_Some (t_slot t)).
Proof.
  intros Hr. destruct (tip_reachable_ok st Hr) as [Hs Hch Hq _ Hsi _]. split_and!; [|done|].
  - intros r. destruct (Hs r) as [Hsum ?]. split; [done|]. destruct r; cbn [max_concurrent] in Hsum;
      unfold MAX_CONCURRENT_TIP_VALIDATIONS, MAX_CONCURRENT_TIP_VALIDATIONS_BOOTSTRAP in Hsum; lia.
  - intros s q Hs'. split; [by eapply Hq|]. apply Hch. by rewrite Hs'.
Qed.

Lemma header_with_pow `{Sha2} `{Argon2} b parent ts target clock :
  verify_pow (header b) = Ok true ->
  validate_block_header_skip_pow b parent ts target clock = validate_block_header b parent ts target clock.
Proof. intros Hp. unfold validate_block_header_skip_pow, validate_block_header, validate_block_header_inner. by rewrite Hp. Qed.

Lemma prepare_with_pow {S : Type} `{Sha2} `{Ed25519} `{Layout} `{Argon2} env b (n : @Node S) :
  verify_pow (header b) = Ok true -> prepare env true b n = prepare env false b n.
Proof.
  intros Hp. unfold prepare, mbind, proc_bind. destruct (read env AtHasBlock _ n) as [[[[]|] n1]|]; try reflexivity.
  destruct (height (header b) =? 0); [reflexivity|]. destruct (read env AtParentHeader _ n1) as [[[o|] n2]|]; try reflexivity.
  destruct (lift_opt o _ n2) as [[[p|] n3]|]; try reflexivity. destruct (read env AtTimestamps _ n3) as [[[ts|] n4]|]; try reflexivity.
  destruct (expected_target env _ _ n4) as [[[d|] n5]|]; try reflexivity. unfold check_header. by rewrite header_with_pow.
Qed.

(** C15: A block whose header is in the cache of validated headers is processed
    exactly as if its proof of work had been computed again: same result, same
    state of the node, in every interleaving of attempts and for every failure of
    the storage. *)
Theorem pre_validated_equivalent {S : Type} `{UtxoStore S} `{!UtxoGet S} `{!UtxoRoot S} `{Sha2} `{Ed25519} `{Layout} `{Argon2}
    (signature_domain : Hash256) (coinbase_maturity : Z) (st : TipState) (peer : PeerId) (env : Env) (b : Block) (n : Node) :
  rtc tip_step tip_start st ->
  is_Some (cache_lookup peer (block_id (header b)) (cache (coord st))) ->
  (forall h, cache_lookup peer (block_id (header b)) (cache (coord st)) = Some h -> block_id h = block_id (header b) -> h = header b) ->
  process_block_pre_validated signature_domain coinbase_maturity env b n = process_block signature_domain coinbase_maturity env b n.
Proof.
  intros Hr [h Hh] Hcol. destruct (to_cache _ (tip_reachable_ok st Hr) peer _ h Hh) as [Hid Hpow].
  assert (verify_pow (header b) = Ok true) as Hp by (rewrite <- (Hcol h Hh Hid); exact Hpow).
  unfold process_block_pre_validated, process_block, process_block_inner, mbind, proc_bind. by rewrite prepare_with_pow.
Qed.
