(* ===== verification/TipWitness.v ===== *)
(** * Forward validation on a small network

    A node on one side of a fork validates the tip of the other side: the
    hypotheses of the theorems on forward validation hold for it.  Two further
    runs show a claim that is confirmed without its identifier being compared, and
    an honest peer that is struck because our own chain changed. *)

From S2P Require Import Prelude Bytes Codec Hash Transaction Block Wire U256 Difficulty Reward.
From S2P Require Import ScriptValue ScriptCodec Jets ScriptCost Eval FeeCost Smt Utxo TxValidation BlockValidation BlockApply Mempool.
From S2P Require Import Storage ChainManager ChainModel ChainWitness TipValidation TipSoundness TipCoordinator.
#[local] Open Scope Z_scope.

Section TipNetwork.
#[local] Instance tip_sha : Sha2 := mod_digest.
#[local] Instance zero_argon2 : Argon2 := fun _ _ _ _ _ _ => Ok zero32.

(** We are on [g0, b1], the peer on [g0, c1, c2]. *)
Definition net_work : bytes := work_from_target genesis_target.
Definition stored (l : list (Z * Block)) : ChainStorage :=
  foldr (fun hb db => height_update <[fst hb := block_id (header (snd hb))]>
           (table_insert WORK_TABLE (block_id (header (snd hb))) net_work
              (table_insert HEADERS_TABLE (block_id (header (snd hb))) (BlockHeader_serialize (header (snd hb))) db))) empty_db l.
Definition our_db : ChainStorage := stored [(0, g0); (1, b1)].
Definition peer_chain (i : Z) : BlockHeader := header (if i =? 0 then g0 else if i =? 1 then c1 else c2).
Definition serve (P : Z -> BlockHeader) (tip : Z) (m : Message) : delivery :=
  match m with
  | MGetHeaders g => Delivered (segment P (start_height g) (Z.to_nat (Z.min (max_count g) (tip + 1 - start_height g))))
  | _ => Closed
  end.
Definition net_view (db : nat -> ChainStorage) : View := {|
  our_tip := 1; av_enabled := true; cores := Some 4; av_trusted := fun _ => true; send_ok := fun _ => true;
  answer := fun _ => serve peer_chain 2; db_at := db; read_fails := fun _ => false; header_fails := fun _ _ => false;
  clock := fun _ => 0; spawn_ok := fun _ => true |}.
Definition in_net (h : BlockHeader) : Prop := h ∈ [header g0; header b1; header c1; header c2].

Lemma in_net_cases (Q : BlockHeader -> Prop) : Q (header g0) -> Q (header b1) -> Q (header c1) -> Q (header c2) -> forall h, in_net h -> Q h.
Proof.
  intros ? ? ? ? h. unfold in_net. rewrite !elem_of_cons. by intros [->|[->|[->|[->|Hx]]]]; [| | | |apply not_elem_of_nil in Hx].
Qed.
Lemma in_net_ids h h' : in_net h -> in_net h' -> block_id h = block_id h' -> h = h'.
Proof.
  destruct ids_evaluated as (I1 & I2 & I3 & I4). change sha with tip_sha in *.
  intros Hh. revert h'. pattern h. revert h Hh. apply in_net_cases; intros h' Hh'; pattern h'; revert h' Hh'; apply in_net_cases; intros E;
    try reflexivity; exfalso; rewrite ?I1, ?I2, ?I3, ?I4 in E; discriminate E.
Qed.
Lemma peer_chain_in i : in_net (peer_chain i).
Proof. unfold peer_chain, in_net. rewrite !elem_of_cons. destruct (i =? 0), (i =? 1); auto. Qed.

Lemma our_header id h : get_header id our_db = Some h -> in_net h /\ block_id h = id.
Proof.
  unfold our_db, stored, get_header. cbn [foldr fst snd]. 
  change (table_get HEADERS_TABLE id _) with ((<[block_id (header g0) := BlockHeader_serialize (header g0)]>
    (<[block_id (header b1) := BlockHeader_serialize (header b1)]> (∅ : gmap bytes bytes))) !! id).
  destruct (_ !! id) as [x|] eqn:E; [|done]. destruct (len x =? HEADER_SIZE); [|done]. intros [= <-].
  apply lookup_insert_Some in E as [[<- <-]|[_ E]]; [|apply lookup_insert_Some in E as [[<- <-]|[_ E]]; [|by rewrite lookup_empty in E]].
  - rewrite header_decodes_encoding; [split; [|done]; left|apply net_wf; unfold net; auto].
  - rewrite header_decodes_encoding; [split; [|done]; right; left|apply net_wf; unfold net; auto].
Qed.
Lemma our_heights h : 0 <= h <= 1 -> get_block_id_by_height h our_db = Some (block_id (header (if h =? 0 then g0 else b1))).
Proof. intros Hh. assert (h = 0 \/ h = 1) as [->| ->] by lia; vm_compute; reflexivity. Qed.

Lemma served s c hs : 0 <= s <= 2 -> 0 <= c -> serve peer_chain 2 (build_get_headers s c) = Delivered hs ->
  exists n, hs = segment peer_chain s n /\ Z.of_nat n <= c /\ s + Z.of_nat n <= 2 + 1.
Proof. intros Hs Hc [= <-]. eexists. split; [reflexivity|]. cbn. lia. Qed.
Lemma net_smooth : smooth (net_view (fun _ => our_db)) peer_chain 2 (fun h => block_id (header (if h =? 0 then g0 else b1))) 0.
Proof.
  split; [intros; reflexivity| |intros; reflexivity..| |].
  - intros k s c Hs Hc. eexists. split; [reflexivity|]. change (segment peer_chain s (Z.to_nat (Z.min c (2 + 1 - s))) <> []).
    destruct (Z.to_nat (Z.min c (2 + 1 - s))) eqn:E; [lia|]. rewrite segment_cons. discriminate.
  - intros k h _ Hh. assert (h = 0) as -> by lia. vm_compute. reflexivity.
  - intros k _. vm_compute. eexists. reflexivity.
Qed.
Lemma peer_chain_small (Q : Z -> Prop) : Q 0 -> Q 1 -> Q 2 -> forall i, 0 <= i <= 2 -> Q i.
Proof. intros ? ? ? i Hi. assert (i = 0 \/ i = 1 \/ i = 2) as [->|[->| ->]] by lia; done. Qed.

Lemma honest_peer_confirmed_witness : exists t hs k',
  validate_tip (net_view (fun _ => our_db)) 2 (block_id (header c2)) 0%nat = Some (Ok (t, hs), k') /\
  vt_anchor_block_id t = block_id (header g0) /\ hs = [header c1; header c2].
Proof.
  destruct (honest_peer_confirmed (net_view (fun _ => our_db)) in_net peer_chain 2
              (fun h => block_id (header (if h =? 0 then g0 else b1))) 0 0%nat) as (o & k' & E & Ho).
  - apply in_net_ids.
  - intros n. exact our_header.
  - done.
  - intros i Hi. apply peer_chain_in.
  - apply peer_chain_small; reflexivity.
  - intros i Hi. assert (i = 1 \/ i = 2) as [->| ->] by lia; vm_compute; reflexivity.
  - intros i Hi. assert (i = 1 \/ i = 2) as [->| ->] by lia; vm_compute; reflexivity.
  - intros i Hi. assert (i = 1 \/ i = 2) as [->| ->] by lia; vm_compute; reflexivity.
  - intros n. exact served.
  - intros n. exact our_heights.
  - intros _. split; [done|]. intros h Hh. cbn in Hh. assert (h = 0 \/ h = 1) as [->| ->] by lia.
    + split; [done|reflexivity].
    + split; [|done]. intros Hx. exfalso. vm_compute in Hx. discriminate Hx.
  - done.
  - destruct o as [[t hs]|e]; [|by destruct Ho as [_ []]; apply net_smooth]. exists t, hs, k'. split; [exact E|].
    destruct Ho as (_ & _ & _ & Ha & Hhs). split; [exact Ha|exact Hhs].
Defined.


(** An attempt from its reservation to its end. *)
Definition the_peer : session := (replicate 32 x07, 9).
Definition net_outcome : result TipValidationError (VerifiedTip * list BlockHeader) :=
  match validate_tip (net_view (fun _ => our_db)) 2 (block_id (header c2)) 0%nat with Some (o, _) => o | None => Err FetchTimeout end.
Lemma net_outcome_ok : exists k', validate_tip (net_view (fun _ => our_db)) 2 (block_id (header c2)) 0%nat = Some (net_outcome, k').
Proof.
  unfold net_outcome. assert (match validate_tip (net_view (fun _ => our_db)) 2 (block_id (header c2)) 0%nat with Some _ => true | None => false end = true)
    as Hok by (vm_compute; reflexivity).
  destruct (validate_tip _ _ _ _) as [[o k']|]; [by exists k'|discriminate Hok].
Qed.
Definition reserved : TipValidationCoordinator := snd (try_reserve the_peer coordinator_new).
Definition begun : TipValidationCoordinator :=
  match begin_attempt (Some 4) SteadyState the_peer reserved with Ok c => c | Err _ => reserved end.
Definition running : TipState := {| coord := begun; tasks := [{| t_session := the_peer; t_slot := Some SteadyState |}]; gone := ∅ |}.
Definition finished : TipState :=
  {| coord := release_reservation the_peer (end_attempt SteadyState the_peer net_outcome begun); tasks := []; gone := ∅ |}.

Lemma running_reachable : rtc tip_step tip_start running.
Proof.
  eapply rtc_l; [apply (step_spawn the_peer); vm_compute; reflexivity|]. eapply rtc_l; [|apply rtc_refl].
  apply (step_begin (Some 4) SteadyState the_peer reserved begun [] []). reflexivity.
Qed.
Lemma finished_reachable : rtc tip_step tip_start finished.
Proof.
  eapply rtc_r; [apply running_reachable|]. destruct net_outcome_ok as [k' Hk].
  exact (step_end _ _ _ _ _ _ SteadyState the_peer begun [] [] ∅ Hk).
Qed.

Lemma attempts_bounded_witness :
  semaphore_for SteadyState (coord running) = 3 /\ len (holding SteadyState (tasks running)) <= 4.
Proof.
  split; [reflexivity|]. destruct (attempts_bounded running running_reachable) as [Hs _]. apply (Hs SteadyState).
Defined.

#[local] Existing Instance toy_ed25519.
#[local] Existing Instance toy_layout.
#[local] Instance tip_root : UtxoRoot utxo_map := fun _ => zero32.
Definition c1_cached : option BlockHeader := cache_lookup (fst the_peer) (block_id (header c1)) (cache (coord finished)).
Lemma c1_is_cached : c1_cached = Some (header c1).
Proof. vm_compute. reflexivity. Qed.
Lemma pre_validated_equivalent_witness :
  process_block_pre_validated sample_domain 360 calm c1 node0 = process_block sample_domain 360 calm c1 node0.
Proof.
  pose proof c1_is_cached as Hc. unfold c1_cached in Hc.
  apply (pre_validated_equivalent sample_domain 360 finished (fst the_peer) calm c1 node0 finished_reachable); rewrite Hc.
  - eexists. reflexivity.
  - intros h [= <-] _. reflexivity.
Defined.

(** ** Two runs that show gaps *)

(** The peer claims height 1 with an invented identifier, and serves our own
    block there: the invented identifier is confirmed. *)
Definition invented : Hash256 := replicate 32 xee.
Definition echo_view : View := {|
  our_tip := 1; av_enabled := true; cores := Some 4; av_trusted := fun _ => true; send_ok := fun _ => true;
  answer := fun _ => serve (fun i => header (if i =? 0 then g0 else b1)) 1; db_at := fun _ => our_db; read_fails := fun _ => false;
  header_fails := fun _ _ => false; clock := fun _ => 0; spawn_ok := fun _ => true |}.
Definition echo_outcome : option (Z * Hash256) :=
  match validate_tip echo_view 1 invented 0%nat with Some (Ok (t, _), _) => Some (vt_height t, vt_block_id t) | _ => None end.
Example invented_claim_confirmed : echo_outcome = Some (1, invented).
Proof. vm_compute. reflexivity. Qed.

(** Our chain is the peer's when the attempt compares it, and another one when the
    anchor is read: the peer, which serves its chain throughout, is struck. *)
Definition peer_db : ChainStorage := stored [(0, g0); (1, c1)].
Definition moving_db (k : nat) : ChainStorage := if (k <=? 4)%nat then peer_db else our_db.
Definition moving_outcome : option bool :=
  match validate_tip (net_view moving_db) 2 (block_id (header c2)) 0%nat with
  | Some (o, _) => Some (should_strike (match o with Ok (t, _) => Ok t | Err e => Err e end))
  | None => None
  end.
Example own_reorg_strikes_peer : moving_outcome = Some true.
Proof. vm_compute. reflexivity. Qed.
End TipNetwork.
