(* ===== verification/PeerRegistry.v ===== *)
(** * Peers and their sessions ([PeerRegistry] of [src/network/sync.rs])

    The registry of peers by identity, the index of connected sockets, and the
    reservations of sockets whose handshake is running; the rules for a second
    session of one identity; the choice of a session to evict when all inbound
    slots are taken; and what the listener and the two handshake paths do with
    them, each under the registry's lock.

    Instants are nanoseconds.  [order] is the order in which the [HashMap] of peers
    is walked, which the program does not choose.  A session's shutdown flag is
    named by its session number. *)

From S2P Require Import Prelude Bytes Codec Hash Transaction Block Wire Utxo Storage.
#[local] Open Scope Z_scope.
#[local] Open Scope list_scope.

Definition MAX_INBOUND_PEERS : Z := 256.
Definition MAX_INBOUND_PER_IP : Z := 1.
Definition EVICTION_PENDING_HEADROOM : Z := 32.
Definition POST_HANDSHAKE_GRACE_SECS : Z := 15.
Definition PROTECT_USEFUL_N : nat := 8.
Definition PROTECT_OLDEST_N : nat := 8.
Definition PROTECT_GROUPS_N : nat := 16.
Definition USEFUL_PROTECTION_SECS : Z := 600.
Definition NANOS : Z := 1000000000.

#[export] Instance SocketAddr_eq_dec : EqDecision SocketAddr.
Proof. solve_decision. Defined.
#[export] Instance SocketAddr_countable : Countable SocketAddr.
Proof.
  refine (inj_countable' (fun a => match a with SockV4 o p => inl (o, p) | SockV6 o p f s => inr (o, p, (f, s)) end)
            (fun x => match x with inl (o, p) => SockV4 o p | inr (o, p, (f, s)) => SockV6 o p f s end) _).
  by intros [].
Defined.

Abbreviation PeerId := bytes.

(** ** Data *)

Record PeerSession := { session_id : Z; socket_addr : SocketAddr; is_outbound : bool; established_at : Z }.
Record RetryState := { backoff_secs : Z; next_attempt_at : Z }.
Record PeerTip := { pt_height : Z; pt_work : bytes; pt_block_id : Hash256; pt_confirmed : bool }.
Record LogicalPeer := {
  session : option PeerSession; known_addrs : gset SocketAddr; preferred_dial_addr : option SocketAddr;
  desired_outbound : bool; retry : RetryState; lp_tip : option PeerTip; ibd_cooldown_until : option Z;
  last_useful_message_at : option Z; ever_confirmed_for_ibd : bool
}.
Record PeerRegistry := {
  by_identity : gmap PeerId LogicalPeer;
  connected_socket_to_identity : gmap SocketAddr PeerId;
  known_dial_addr_to_identity : gmap SocketAddr PeerId;
  pending_inbound_sockets : gset SocketAddr;
  pending_outbound_addrs : gset SocketAddr
}.
Definition PeerRegistry_new : PeerRegistry := {|
  by_identity := ∅; connected_socket_to_identity := ∅; known_dial_addr_to_identity := ∅;
  pending_inbound_sockets := ∅; pending_outbound_addrs := ∅ |}.

Definition with_peers (m : gmap PeerId LogicalPeer) (r : PeerRegistry) : PeerRegistry :=
  Build_PeerRegistry m (connected_socket_to_identity r) (known_dial_addr_to_identity r) (pending_inbound_sockets r) (pending_outbound_addrs r).
Definition with_connected (m : gmap SocketAddr PeerId) (r : PeerRegistry) : PeerRegistry :=
  Build_PeerRegistry (by_identity r) m (known_dial_addr_to_identity r) (pending_inbound_sockets r) (pending_outbound_addrs r).
Definition with_dial (m : gmap SocketAddr PeerId) (r : PeerRegistry) : PeerRegistry :=
  Build_PeerRegistry (by_identity r) (connected_socket_to_identity r) m (pending_inbound_sockets r) (pending_outbound_addrs r).
Definition with_pending (i o : gset SocketAddr) (r : PeerRegistry) : PeerRegistry :=
  Build_PeerRegistry (by_identity r) (connected_socket_to_identity r) (known_dial_addr_to_identity r) i o.

(** ** Queries and reservations *)

Definition has_identity (id : PeerId) (r : PeerRegistry) : bool := bool_decide (is_Some (by_identity r !! id)).
Definition is_connected_socket (a : SocketAddr) (r : PeerRegistry) : bool := bool_decide (is_Some (connected_socket_to_identity r !! a)).
Definition socket_taken (a : SocketAddr) (r : PeerRegistry) : bool :=
  is_connected_socket a r || bool_decide (a ∈ pending_inbound_sockets r) || bool_decide (a ∈ pending_outbound_addrs r).
Definition reserve_inbound_socket (a : SocketAddr) (r : PeerRegistry) : bool * PeerRegistry :=
  if socket_taken a r then (false, r)
  else (true, with_pending ({[a]} ∪ pending_inbound_sockets r) (pending_outbound_addrs r) r).
Definition release_inbound_socket (a : SocketAddr) (r : PeerRegistry) : PeerRegistry :=
  with_pending (pending_inbound_sockets r ∖ {[a]}) (pending_outbound_addrs r) r.
Definition reserve_outbound_addr (a : SocketAddr) (r : PeerRegistry) : bool * PeerRegistry :=
  if socket_taken a r then (false, r)
  else (true, with_pending (pending_inbound_sockets r) ({[a]} ∪ pending_outbound_addrs r) r).
Definition release_outbound_addr (a : SocketAddr) (r : PeerRegistry) : PeerRegistry :=
  with_pending (pending_inbound_sockets r) (pending_outbound_addrs r ∖ {[a]}) r.

(** Peers with a session that satisfies [p]. *)
Definition count_sessions (p : PeerSession -> bool) (r : PeerRegistry) : Z :=
  Z.of_nat (length (filter (fun kv => from_option p false (session (snd kv)) = true) (map_to_list (by_identity r)))).
Definition inbound_count (r : PeerRegistry) : Z := count_sessions (fun s => negb (is_outbound s)) r.
Definition outbound_count (r : PeerRegistry) : Z := count_sessions is_outbound r.
Definition inbound_count_for_ip (ip : IpAddr) (r : PeerRegistry) : Z :=
  count_sessions (fun s => negb (is_outbound s) && bool_decide (sock_ip (socket_addr s) = ip)) r.

(** ** Sessions *)

Definition set_session (s : option PeerSession) (lp : LogicalPeer) : LogicalPeer :=
  Build_LogicalPeer s (known_addrs lp) (preferred_dial_addr lp) (desired_outbound lp) (retry lp) (lp_tip lp) (ibd_cooldown_until lp)
    (last_useful_message_at lp) (ever_confirmed_for_ibd lp).
Definition set_useful (t : option Z) (lp : LogicalPeer) : LogicalPeer :=
  Build_LogicalPeer (session lp) (known_addrs lp) (preferred_dial_addr lp) (desired_outbound lp) (retry lp) (lp_tip lp)
    (ibd_cooldown_until lp) t (ever_confirmed_for_ibd lp).
Definition set_dial (a : SocketAddr) (lp : LogicalPeer) : LogicalPeer :=
  Build_LogicalPeer (session lp) ({[a]} ∪ known_addrs lp) (Some a) (desired_outbound lp) (retry lp) (lp_tip lp) (ibd_cooldown_until lp)
    (last_useful_message_at lp) (ever_confirmed_for_ibd lp).
Definition set_tip (t : option PeerTip) (lp : LogicalPeer) : LogicalPeer :=
  Build_LogicalPeer (session lp) (known_addrs lp) (preferred_dial_addr lp) (desired_outbound lp) (retry lp) t (ibd_cooldown_until lp)
    (last_useful_message_at lp) (ever_confirmed_for_ibd lp).
Definition set_desired (lp : LogicalPeer) : LogicalPeer :=
  Build_LogicalPeer (session lp) (known_addrs lp) (preferred_dial_addr lp) true (retry lp) (lp_tip lp) (ibd_cooldown_until lp)
    (last_useful_message_at lp) (ever_confirmed_for_ibd lp).
Definition set_retry (rs : RetryState) (lp : LogicalPeer) : LogicalPeer :=
  Build_LogicalPeer (session lp) (known_addrs lp) (preferred_dial_addr lp) (desired_outbound lp) rs (lp_tip lp) (ibd_cooldown_until lp)
    (last_useful_message_at lp) (ever_confirmed_for_ibd lp).
Definition LogicalPeer_new (now : Z) : LogicalPeer := {|
  session := None; known_addrs := ∅; preferred_dial_addr := None; desired_outbound := false;
  retry := {| backoff_secs := 5; next_attempt_at := now |}; lp_tip := None; ibd_cooldown_until := None;
  last_useful_message_at := None; ever_confirmed_for_ibd := false |}.

Definition current (sid : Z) (lp : LogicalPeer) : bool := from_option (fun s => session_id s =? sid) false (session lp).
Definition mark_useful_message (now : Z) (id : PeerId) (sid : Z) (r : PeerRegistry) : PeerRegistry :=
  match by_identity r !! id with
  | Some lp => if current sid lp then with_peers (<[id := set_useful (Some now) lp]> (by_identity r)) r else r
  | None => r
  end.
Definition bind_dial_addr (id : PeerId) (a : SocketAddr) (r : PeerRegistry) : PeerRegistry :=
  let r := with_peers (alter (set_dial a) id (by_identity r)) r in
  with_dial (<[a := id]> (known_dial_addr_to_identity r)) r.

Inductive SessionAttachResult := NewLogicalConnect | ReplacedExistingSession (old : Z) | RejectedDuplicate.

(** The surroundings of an attachment: the clock, our key, the session that the
    initial download uses, and whether the node is catching up. *)
Record AttachEnv := { ae_now : Z; our_pubkey : PeerId; active_ibd : option (PeerId * Z); catching_up : bool }.

(** The rules for an identity that has a session already. *)
Definition keeps_existing (e : AttachEnv) (id : PeerId) (existing : PeerSession) (outbound : bool) : bool :=
  bool_decide (active_ibd e = Some (id, session_id existing)) || catching_up e ||
  (ae_now e - established_at existing <? 120 * NANOS) ||
  negb (Bool.eqb outbound (bool_decide (lex_cmp (our_pubkey e) id = Gt))).

Definition attach_session (e : AttachEnv) (id : PeerId) (s : PeerSession) (handshake_tip : PeerTip)
    (dial_addr_hint : option SocketAddr) (desired : bool) (r : PeerRegistry) : SessionAttachResult * PeerRegistry :=
  let a := socket_addr s in
  let r := with_pending (pending_inbound_sockets r ∖ {[a]}) (pending_outbound_addrs r ∖ {[a]}) r in
  let lp := default (LogicalPeer_new (ae_now e)) (by_identity r !! id) in
  let '(lp, r) := match dial_addr_hint with
                  | Some d => (set_dial d lp, with_dial (<[d := id]> (known_dial_addr_to_identity r)) r)
                  | None => (lp, r)
                  end in
  let lp := if desired then set_desired lp else lp in
  let lp := set_tip (Some {| pt_height := pt_height handshake_tip; pt_work := pt_work handshake_tip;
                             pt_block_id := pt_block_id handshake_tip; pt_confirmed := false |}) lp in
  match session lp with
  | None =>
      (NewLogicalConnect,
       with_peers (<[id := set_session (Some s) (set_useful None lp)]> (by_identity r))
         (with_connected (<[a := id]> (connected_socket_to_identity r)) r))
  | Some old =>
      if keeps_existing e id old (is_outbound s) then (RejectedDuplicate, with_peers (<[id := lp]> (by_identity r)) r)
      else
        (ReplacedExistingSession (session_id old),
         with_peers (<[id := set_useful None (set_session (Some s) lp)]> (by_identity r))
           (with_connected (<[a := id]> (delete (socket_addr old) (connected_socket_to_identity r))) r))
  end.

Definition detach_session_if_current (id : PeerId) (sid : Z) (r : PeerRegistry) : bool * PeerRegistry :=
  match by_identity r !! id with
  | Some lp =>
      match session lp with
      | Some s =>
          if session_id s =? sid then
            (true, with_peers (<[id := set_session None lp]> (by_identity r))
                     (with_connected (delete (socket_addr s) (connected_socket_to_identity r)) r))
          else (false, r)
      | None => (false, r)
      end
  | None => (false, r)
  end.

(** ** Eviction *)

Inductive NetworkGroup := Ipv4Slash16 (b : bytes) | Ipv6Slash32 (b : bytes) | Loopback.
#[export] Instance NetworkGroup_eq_dec : EqDecision NetworkGroup.
Proof. solve_decision. Defined.
Definition ipv6_loopback : bytes := replicate 15 x00 ++ [x01].
Definition from_ip (ip : IpAddr) : NetworkGroup :=
  match ip with
  | V4 o => if bool_decide (head o = Some x7f) then Loopback else Ipv4Slash16 (take 2 o)
  | V6 o => if bool_decide (o = ipv6_loopback) then Loopback else Ipv6Slash32 (take 4 o)
  end.

(** Sort keys: two numbers and a byte string, in this order. *)
Definition key : Type := Z * Z * bytes.
Definition key_cmp (a b : key) : comparison :=
  match fst (fst a) ?= fst (fst b) with
  | Eq => match snd (fst a) ?= snd (fst b) with Eq => lex_cmp (snd a) (snd b) | c => c end
  | c => c
  end.
Definition key_le {A} (f : A -> key) (a b : A) : Prop := key_cmp (f a) (f b) <> Gt.
#[export] Instance key_le_dec {A} (f : A -> key) : RelDecision (key_le f).
Proof. unfold key_le. intros a b. apply _. Defined.
Definition sort_by_key {A} (f : A -> key) (l : list A) : list A := merge_sort (key_le f) l.
(** The derived order of [NetworkGroup]. *)
Definition group_key (g : NetworkGroup) (n : Z) : key :=
  match g with Ipv4Slash16 b => (n, 0, b) | Ipv6Slash32 b => (n, 1, b) | Loopback => (n, 2, []) end.

Record EvictionCandidate := {
  ec_identity : PeerId; ec_session : Z; ec_addr : SocketAddr; ec_established : Z; ec_group : NetworkGroup; ec_useful : option Z
}.
Definition ec_key (c : EvictionCandidate) : PeerId * Z := (ec_identity c, ec_session c).

Inductive EvictionDecision :=
| NotNeeded | DuplicateIdentity | IpCapReached | NoEligibleCandidates | Evict (c : EvictionCandidate).

Record EvictionConfig := {
  post_handshake_grace_secs : Z; protect_useful_n : nat; protect_oldest_n : nat; protect_groups_n : nat; useful_protection_secs : Z
}.
Definition EvictionConfig_default : EvictionConfig := {|
  post_handshake_grace_secs := POST_HANDSHAKE_GRACE_SECS; protect_useful_n := PROTECT_USEFUL_N; protect_oldest_n := PROTECT_OLDEST_N;
  protect_groups_n := PROTECT_GROUPS_N; useful_protection_secs := USEFUL_PROTECTION_SECS |}.

(** [Instant::duration_since] saturates. *)
Definition since (now t : Z) : Z := Z.max 0 (now - t).

Definition candidate (r : PeerRegistry) (id : PeerId) : option EvictionCandidate :=
  match by_identity r !! id with
  | Some lp =>
      match session lp with
      | Some s =>
          if is_outbound s then None
          else Some {| ec_identity := id; ec_session := session_id s; ec_addr := socket_addr s; ec_established := established_at s;
                       ec_group := from_ip (sock_ip (socket_addr s)); ec_useful := last_useful_message_at lp |}
      | None => None
      end
  | None => None
  end.

Section Decision.
Variables (cfg : EvictionConfig) (now : Z).

Definition in_grace (c : EvictionCandidate) : bool := since now (ec_established c) <? post_handshake_grace_secs cfg * NANOS.
Definition recently_useful (c : EvictionCandidate) : bool :=
  from_option (fun t => since now t <? useful_protection_secs cfg * NANOS) false (ec_useful c).
Definition useful_key (c : EvictionCandidate) : key := (- default 0 (ec_useful c), ec_session c, ec_identity c).
Definition age_key (c : EvictionCandidate) : key := (ec_established c, ec_session c, ec_identity c).
Definition newest_key (c : EvictionCandidate) : key := (- ec_established c, ec_session c, ec_identity c).

(** The oldest member of a group, the first one in a tie. *)
Definition older (prev c : EvictionCandidate) : EvictionCandidate := if ec_established c <? ec_established prev then c else prev.
Definition oldest_of (l : list EvictionCandidate) : option EvictionCandidate :=
  match l with [] => None | c :: l => Some (fold_left older l c) end.
Definition members (g : NetworkGroup) (l : list EvictionCandidate) : list EvictionCandidate := filter (fun c => ec_group c = g) l.
Definition group_reps (l : list EvictionCandidate) : list (NetworkGroup * EvictionCandidate) :=
  omap (fun g => (fun c => (g, c)) <$> oldest_of (members g l)) (remove_dups (map ec_group l)).
Definition rep_key (p : NetworkGroup * EvictionCandidate) : key := group_key (fst p) (ec_established (snd p)).

(** The sessions that are not considered. *)
Definition protected (ibd : option (PeerId * Z)) (all : list EvictionCandidate) : list (PeerId * Z) :=
  option_list ibd ++
  map ec_key (filter (fun c => in_grace c = true) all) ++
  map ec_key (take (protect_useful_n cfg) (sort_by_key useful_key (filter (fun c => recently_useful c = true) all))) ++
  map ec_key (take (protect_oldest_n cfg) (sort_by_key age_key all)) ++
  map (fun p => ec_key (snd p)) (take (protect_groups_n cfg) (sort_by_key rep_key (group_reps all))).

Definition total_age (l : list EvictionCandidate) : Z := foldr (fun c n => since now (ec_established c) + n) 0 l.
Definition largest_size (l : list EvictionCandidate) : nat :=
  foldr (fun g n => Nat.max (length (members g l)) n) 0%nat (remove_dups (map ec_group l)).
Definition target_key (l : list EvictionCandidate) (g : NetworkGroup) : key := group_key g (- total_age (members g l)).
(** The group to choose from: the largest, then the one with the highest total
    age; without a group of two, everyone. *)
Definition target_candidates (l : list EvictionCandidate) : list EvictionCandidate :=
  if (largest_size l <=? 1)%nat then l
  else match sort_by_key (target_key l) (filter (fun g => length (members g l) = largest_size l) (remove_dups (map ec_group l))) with
       | g :: _ => members g l
       | [] => []
       end.
(** [max_by]: the last of the maxima; the newest session, then the smallest
    number and identity. *)
Definition newer (best c : EvictionCandidate) : EvictionCandidate :=
  match key_cmp (newest_key c) (newest_key best) with Gt => best | _ => c end.
Definition victim (l : list EvictionCandidate) : option EvictionCandidate :=
  match l with [] => None | c :: l => Some (fold_left newer l c) end.

Definition decide_inbound_eviction_utility (order : list PeerId) (new_id : PeerId) (new_ip : IpAddr) (ibd : option (PeerId * Z))
    (max_inbound : Z) (r : PeerRegistry) : EvictionDecision :=
  if inbound_count r <? max_inbound then NotNeeded
  else if from_option (fun lp => bool_decide (is_Some (session lp))) false (by_identity r !! new_id) then DuplicateIdentity
  else if MAX_INBOUND_PER_IP <=? inbound_count_for_ip new_ip r then IpCapReached
  else
    let all := omap (candidate r) order in
    let unprotected := filter (fun c => ec_key c ∉ protected ibd all) all in
    match victim (target_candidates unprotected) with
    | Some c => Evict c
    | None => NoEligibleCandidates
    end.
End Decision.

(** ** Connections *)

Definition reset_retry (now : Z) (lp : LogicalPeer) : LogicalPeer := set_retry {| backoff_secs := 5; next_attempt_at := now |} lp.
Definition bump_retry (now : Z) (lp : LogicalPeer) : LogicalPeer :=
  let b := Z.min (wrap64 (backoff_secs (retry lp) * 2)) 300 in
  set_retry {| backoff_secs := b; next_attempt_at := now + b * NANOS |} lp.

(** The listener, for a connection from an address that is not banned. *)
Definition accept (a : SocketAddr) (r : PeerRegistry) : bool * PeerRegistry :=
  if MAX_INBOUND_PEERS + EVICTION_PENDING_HEADROOM <=? inbound_count r + Z.of_nat (size (pending_inbound_sockets r)) then (false, r)
  else if MAX_INBOUND_PER_IP <=? inbound_count_for_ip (sock_ip a) r then (false, r)
  else reserve_inbound_socket a r.

Inductive Admission := JoinedNew | JoinedReplacing (old : Z) | RefusedIp | RefusedFull | RefusedDuplicate.

(** After an inbound handshake: evict if needed, then attach.  The sessions whose
    shutdown flag is set come back with the result. *)
Definition admit_inbound (e : AttachEnv) (order : list PeerId) (id : PeerId) (s : PeerSession) (handshake_tip : PeerTip) (r : PeerRegistry)
  : Admission * list Z * PeerRegistry :=
  let a := socket_addr s in
  let attach stopped r :=
    match attach_session e id s handshake_tip None false r with
    | (NewLogicalConnect, r) => (JoinedNew, stopped, with_peers (alter (reset_retry (ae_now e)) id (by_identity r)) r)
    | (ReplacedExistingSession old, r) =>
        (JoinedReplacing old, stopped ++ [old], with_peers (alter (reset_retry (ae_now e)) id (by_identity r)) r)
    | (RejectedDuplicate, r) => (RefusedDuplicate, stopped, release_inbound_socket a r)
    end in
  match decide_inbound_eviction_utility EvictionConfig_default (ae_now e) order id (sock_ip a) (active_ibd e) MAX_INBOUND_PEERS r with
  | NotNeeded | DuplicateIdentity => attach [] r
  | IpCapReached => (RefusedIp, [], release_inbound_socket a r)
  | NoEligibleCandidates => (RefusedFull, [], release_inbound_socket a r)
  | Evict c => attach [ec_session c] (snd (detach_session_if_current (ec_identity c) (ec_session c) r))
  end.

(** After an outbound handshake. *)
Definition admit_outbound (e : AttachEnv) (id : PeerId) (s : PeerSession) (handshake_tip : PeerTip) (r : PeerRegistry)
  : Admission * list Z * PeerRegistry :=
  let a := socket_addr s in
  match attach_session e id s handshake_tip (Some a) false r with
  | (NewLogicalConnect, r) => (JoinedNew, [], with_peers (alter (reset_retry (ae_now e)) id (by_identity r)) r)
  | (ReplacedExistingSession old, r) => (JoinedReplacing old, [old], with_peers (alter (reset_retry (ae_now e)) id (by_identity r)) r)
  | (RejectedDuplicate, r) => (RefusedDuplicate, [], release_outbound_addr a r)
  end.
