(* ===== verification/PeerFacts.v ===== *)
(** * What the registry of peers guarantees

    The index of sockets is exact and reservations are disjoint from it, whatever
    connects, disconnects and is evicted; an evicted session is inbound, out of its
    grace period and outranked by the sessions that are protected; a full registry
    refuses a newcomer only when few sessions are left to choose from; and an
    admission does not exceed the limit of inbound sessions. *)

From S2P Require Import Prelude Bytes Codec Hash Transaction Block Wire Utxo Storage PeerRegistry.
#[local] Open Scope Z_scope.
#[local] Open Scope list_scope.

(** ** Sessions *)

Definition session_of (id : PeerId) (r : PeerRegistry) : option PeerSession := by_identity r !! id ≫= session.

Record registry_ok (r : PeerRegistry) : Prop := {
  rg_sockets a id : connected_socket_to_identity r !! a = Some id <-> exists s, session_of id r = Some s /\ socket_addr s = a;
  rg_inbound a : a ∈ pending_inbound_sockets r -> connected_socket_to_identity r !! a = None;
  rg_outbound a : a ∈ pending_outbound_addrs r -> connected_socket_to_identity r !! a = None /\ a ∉ pending_inbound_sockets r
}.

(** [r'] has the sessions and sockets of [r], and at most its reservations. *)
Lemma registry_same r r' :
  registry_ok r -> (forall id, session_of id r' = session_of id r) ->
  connected_socket_to_identity r' = connected_socket_to_identity r ->
  pending_inbound_sockets r' ⊆ pending_inbound_sockets r -> pending_outbound_addrs r' ⊆ pending_outbound_addrs r -> registry_ok r'.
Proof.
  intros [Hs Hi Ho] Es Ec Hpi Hpo. constructor.
  - intros a id. rewrite Ec, Hs. by setoid_rewrite Es.
  - intros a Ha. rewrite Ec. apply Hi. set_solver.
  - intros a Ha. rewrite Ec. destruct (Ho a); [set_solver|]. split; [done|]. set_solver.
Qed.

Lemma session_insert id lp m r : session_of id (with_peers (<[id := lp]> m) r) = session lp.
Proof. unfold session_of. cbn. by rewrite lookup_insert_eq. Qed.
Lemma session_insert_ne id id' lp r : id' <> id -> session_of id' (with_peers (<[id := lp]> (by_identity r)) r) = session_of id' r.
Proof. intros Hne. unfold session_of. cbn. by rewrite lookup_insert_ne. Qed.

(** Two peers never share a socket. *)
Lemma one_socket r id1 id2 s1 s2 :
  registry_ok r -> session_of id1 r = Some s1 -> session_of id2 r = Some s2 -> socket_addr s1 = socket_addr s2 -> id1 = id2.
Proof.
  intros Hr H1 H2 E. assert (connected_socket_to_identity r !! socket_addr s1 = Some id1) as E1 by (apply (rg_sockets r Hr); by exists s1).
  assert (connected_socket_to_identity r !! socket_addr s1 = Some id2) as E2 by (apply (rg_sockets r Hr); by exists s2). congruence.
Qed.

(** A session leaves. *)
Lemma detach_ok id sid r : registry_ok r -> registry_ok (snd (detach_session_if_current id sid r)).
Proof.
  intros Hr. unfold detach_session_if_current. destruct (by_identity r !! id) as [lp|] eqn:El; [|done].
  destruct (session lp) as [s|] eqn:Es; [|done]. destruct (session_id s =? sid); [|done]. cbn [snd].
  assert (session_of id r = Some s) as Hs by (unfold session_of; rewrite El; exact Es). pose proof Hr as [Hso Hi Ho]. constructor.
  - intros a id'. cbn [connected_socket_to_identity with_peers with_connected]. rewrite lookup_delete_Some, Hso.
    unfold session_of. cbn [by_identity with_peers]. destruct (decide (id' = id)) as [->|Hne].
    + rewrite lookup_insert_eq. cbn. unfold session_of in Hs. rewrite El in *. cbn in Hs |- *. rewrite Hs. naive_solver.
    + rewrite lookup_insert_ne by done. split; [naive_solver|]. intros (s' & Hs' & Ha). split; [|by exists s'].
      intros E. apply Hne. eapply one_socket; [done|exact Hs'|exact Hs|congruence].
  - intros a Ha. cbn. rewrite lookup_delete_None. right. by apply Hi.
  - intros a Ha. cbn. rewrite lookup_delete_None. destruct (Ho a Ha). auto.
Qed.

(** A session joins, on a socket that no session uses. *)
Lemma join_ok r r' id s :
  registry_ok r -> connected_socket_to_identity r !! socket_addr s = None ->
  session_of id r' = Some s -> (forall id', id' <> id -> session_of id' r' = session_of id' r) ->
  connected_socket_to_identity r' = <[socket_addr s := id]>
    (match session_of id r with Some old => delete (socket_addr old) (connected_socket_to_identity r) | None => connected_socket_to_identity r end) ->
  pending_inbound_sockets r' = pending_inbound_sockets r ∖ {[socket_addr s]} ->
  pending_outbound_addrs r' = pending_outbound_addrs r ∖ {[socket_addr s]} -> registry_ok r'.
Proof.
  intros Hr Hfree Hid Hother Ec Ei Eo. pose proof Hr as [Hso Hi Ho].
  set (base := match session_of id r with Some old => _ | None => _ end) in Ec.
  assert (forall a, connected_socket_to_identity r !! a = None -> base !! a = None) as Hbase.
  { intros a Ha. unfold base. destruct (session_of id r); [|done]. apply lookup_delete_None. by right. }
  assert (forall a id', id' <> id -> base !! a = Some id' <-> connected_socket_to_identity r !! a = Some id') as Hrest.
  { intros a id' Hne. unfold base. destruct (session_of id r) as [old|] eqn:Eold; [|done]. rewrite lookup_delete_Some. split; [tauto|].
    intros Ha. split; [|done]. intros <-. apply Hso in Ha as (s' & Hs' & Ea). apply Hne. eapply one_socket; [done|exact Hs'|exact Eold|done]. }
  assert (forall a, base !! a <> Some id) as Hnone.
  { intros a Ha. unfold base in Ha. destruct (session_of id r) as [old|] eqn:Eold.
    - apply lookup_delete_Some in Ha as [Hne Ha]. apply Hso in Ha as (s' & Hs' & Ea). congruence.
    - apply Hso in Ha as (s' & Hs' & _). congruence. }
  constructor.
  - intros a id'. rewrite Ec, lookup_insert_Some. destruct (decide (id' = id)) as [->|Hne].
    + rewrite Hid. split; [intros [[<- _]|[_ Ha]]; [by exists s|by apply Hnone in Ha]|]. intros (s' & [= <-] & <-). by left.
    + rewrite Hother, Hrest, Hso by done. split; [naive_solver|]. intros (s' & Hs' & <-). right. split; [|by exists s'].
      intros E. assert (connected_socket_to_identity r !! socket_addr s' = Some id') by (apply Hso; by exists s'). congruence.
  - intros a. rewrite Ei, Ec. intros Ha. rewrite lookup_insert_ne by set_solver. apply Hbase, Hi. set_solver.
  - intros a. rewrite Eo, Ei, Ec. intros Ha. rewrite lookup_insert_ne by set_solver. destruct (Ho a); [set_solver|].
    split; [by apply Hbase|set_solver].
Qed.

(** The peer that [attach_session] works on, up to its session. *)
Definition prepared_peer (e : AttachEnv) (id : PeerId) (t : PeerTip) (hint : option SocketAddr) (desired : bool) (r : PeerRegistry) : LogicalPeer :=
  let lp := default (LogicalPeer_new (ae_now e)) (by_identity r !! id) in
  let lp := match hint with Some d => set_dial d lp | None => lp end in
  let lp := if desired then set_desired lp else lp in
  set_tip (Some {| pt_height := pt_height t; pt_work := pt_work t; pt_block_id := pt_block_id t; pt_confirmed := false |}) lp.
Lemma prepared_session e id t hint desired r : session (prepared_peer e id t hint desired r) = session_of id r.
Proof. unfold prepared_peer, session_of. by destruct (by_identity r !! id), hint, desired. Qed.

(** [attach_session], case by case. *)
Lemma attach_cases e id s t hint desired r :
  let lp := prepared_peer e id t hint desired r in
  let res := attach_session e id s t hint desired r in
  let r' := snd res in
  pending_inbound_sockets r' = pending_inbound_sockets r ∖ {[socket_addr s]} /\
  pending_outbound_addrs r' = pending_outbound_addrs r ∖ {[socket_addr s]} /\
  match session_of id r with
  | None =>
      fst res = NewLogicalConnect /\ by_identity r' = <[id := set_session (Some s) (set_useful None lp)]> (by_identity r) /\
      connected_socket_to_identity r' = <[socket_addr s := id]> (connected_socket_to_identity r)
  | Some old =>
      if keeps_existing e id old (is_outbound s) then
        fst res = RejectedDuplicate /\ by_identity r' = <[id := lp]> (by_identity r) /\
        connected_socket_to_identity r' = connected_socket_to_identity r
      else
        fst res = ReplacedExistingSession (session_id old) /\
        by_identity r' = <[id := set_useful None (set_session (Some s) lp)]> (by_identity r) /\
        connected_socket_to_identity r' = <[socket_addr s := id]> (delete (socket_addr old) (connected_socket_to_identity r))
  end.
Proof.
  cbv zeta. rewrite <- (prepared_session e id t hint desired r). unfold attach_session, prepared_peer.
  destruct hint as [d|], desired; cbn -[keeps_existing]; destruct (session (default _ _)) as [old|]; try done;
    destruct (keeps_existing e id old (is_outbound s)); done.
Qed.

Lemma attach_ok e id s t hint desired r :
  registry_ok r -> connected_socket_to_identity r !! socket_addr s = None ->
  registry_ok (snd (attach_session e id s t hint desired r)).
Proof.
  intros Hr Hfree. pose proof (attach_cases e id s t hint desired r) as (Ei & Eo & Hc). cbv zeta in Hc.
  pose proof (prepared_session e id t hint desired r) as Ep. set (r' := snd _) in *.
  assert (forall lp id', by_identity r' = <[id := lp]> (by_identity r) -> id' <> id -> session_of id' r' = session_of id' r) as Hother.
  { intros lp id' E Hne. unfold session_of. by rewrite E, lookup_insert_ne. }
  assert (forall lp, by_identity r' = <[id := lp]> (by_identity r) -> session_of id r' = session lp) as Hthis.
  { intros lp E. unfold session_of. by rewrite E, lookup_insert_eq. }
  destruct (session_of id r) as [old|] eqn:Eold; [destruct (keeps_existing e id old (is_outbound s))|]; destruct Hc as (_ & Eb & Ec).
  - apply (registry_same r); [done| |done|rewrite Ei; set_solver|rewrite Eo; set_solver]. intros id'.
    destruct (decide (id' = id)) as [->|]; [|by eapply Hother]. rewrite (Hthis _ Eb), Eold. exact Ep.
  - apply (join_ok r r' id s); [done|done|by rewrite (Hthis _ Eb)|intros; by eapply Hother|by rewrite Eold|done|done].
  - apply (join_ok r r' id s); [done|done|by rewrite (Hthis _ Eb)|intros; by eapply Hother|by rewrite Eold|done|done].
Qed.

(** ** Counting *)

Definition weight (p : PeerSession -> bool) (o : option PeerSession) : Z := if from_option p false o then 1 else 0.
Definition count_in (p : PeerSession -> bool) (m : gmap PeerId LogicalPeer) : Z :=
  Z.of_nat (length (filter (fun kv => from_option p false (session (snd kv)) = true) (map_to_list m))).
Lemma count_fresh p m id lp : m !! id = None -> count_in p (<[id := lp]> m) = weight p (session lp) + count_in p m.
Proof.
  intros Hm. unfold count_in, weight. rewrite (Permutation_length (filter_Permutation _ _ _ (map_to_list_insert m id lp Hm))).
  rewrite filter_cons. cbn [snd]. destruct (from_option p false (session lp)); [rewrite decide_True by done|rewrite decide_False by done]; cbn [length]; lia.
Qed.
Lemma count_insert p m id lp :
  count_in p (<[id := lp]> m) = weight p (session lp) - weight p (m !! id ≫= session) + count_in p m.
Proof.
  rewrite <- insert_delete_eq. rewrite count_fresh by apply lookup_delete_eq. destruct (m !! id) as [lp'|] eqn:E; cbn.
  - assert (count_in p m = weight p (session lp') + count_in p (delete id m)) as ->; [|lia].
    rewrite <- (count_fresh p (delete id m) id lp') by apply lookup_delete_eq. by rewrite insert_delete_id.
  - rewrite delete_id by done. unfold weight. simpl. lia.
Qed.
Lemma weight_range p o : 0 <= weight p o <= 1.
Proof. unfold weight. destruct (from_option p false o); lia. Qed.

Lemma detach_current p id sid r s :
  session_of id r = Some s -> session_id s = sid ->
  session_of id (snd (detach_session_if_current id sid r)) = None /\
  (forall id', id' <> id -> session_of id' (snd (detach_session_if_current id sid r)) = session_of id' r) /\
  connected_socket_to_identity (snd (detach_session_if_current id sid r)) = delete (socket_addr s) (connected_socket_to_identity r) /\
  count_sessions p (snd (detach_session_if_current id sid r)) = count_sessions p r - weight p (Some s).
Proof.
  unfold session_of, detach_session_if_current. destruct (by_identity r !! id) as [lp|] eqn:E; [|done]. cbn. intros Hs <-. rewrite Hs, Z.eqb_refl.
  cbn. split_and!; [by rewrite lookup_insert_eq|intros id' Hne; by rewrite lookup_insert_ne|done|].
  change (count_in p (<[id := set_session None lp]> (by_identity r)) = count_in p (by_identity r) - weight p (Some s)).
  rewrite count_insert, E. cbn. rewrite Hs. change (weight p None) with 0. lia.
Qed.
Lemma attach_count p e id s t hint desired r :
  count_sessions p (snd (attach_session e id s t hint desired r)) =
    count_sessions p r +
      match fst (attach_session e id s t hint desired r) with
      | RejectedDuplicate => 0
      | _ => weight p (Some s) - weight p (session_of id r)
      end.
Proof.
  pose proof (attach_cases e id s t hint desired r) as (_ & _ & Hc). cbv zeta in Hc. pose proof (prepared_session e id t hint desired r) as Ep.
  change (count_in p (by_identity (snd (attach_session e id s t hint desired r))) = count_in p (by_identity r) +
    match fst (attach_session e id s t hint desired r) with RejectedDuplicate => 0 | _ => weight p (Some s) - weight p (session_of id r) end).
  destruct (session_of id r) as [old|] eqn:Eold; [destruct (keeps_existing e id old (is_outbound s))|]; destruct Hc as (-> & -> & _);
    rewrite count_insert; fold (session_of id r); rewrite Eold; cbn [session set_session set_useful]; rewrite ?Ep; lia.
Qed.

(** [accept], and what the handshake paths do, keep the registry in order. *)
Lemma alter_retry_ok f id r : (forall lp, session (f lp) = session lp) -> registry_ok r -> registry_ok (with_peers (alter f id (by_identity r)) r).
Proof.
  intros Hf Hr. apply (registry_same r); [done| |done|done|done]. intros id'. unfold session_of. cbn.
  destruct (decide (id' = id)) as [->|]; [rewrite lookup_alter_eq; by destruct (by_identity r !! id); cbn; rewrite ?Hf|by rewrite lookup_alter_ne].
Qed.
Lemma reserve_ok a r : registry_ok r -> registry_ok (snd (reserve_inbound_socket a r)) /\ registry_ok (snd (reserve_outbound_addr a r)).
Proof.
  intros [Hso Hi Ho]. unfold reserve_inbound_socket, reserve_outbound_addr. destruct (socket_taken a r) eqn:E; [done|].
  unfold socket_taken, is_connected_socket in E. apply orb_false_iff in E as [E E3]. apply orb_false_iff in E as [E1 E2].
  apply bool_decide_eq_false in E1, E2, E3. rewrite <- eq_None_not_Some in E1. split; cbn [snd]; constructor; cbn; try done.
  - intros b Hb. destruct (decide (b = a)) as [->|]; [done|]. apply Hi. set_solver.
  - intros b Hb. destruct (Ho b Hb). split; [done|]. set_solver.
  - intros b Hb. destruct (decide (b = a)) as [->|]; [done|]. apply Ho. set_solver.
Qed.
Lemma release_ok a r : registry_ok r -> registry_ok (release_inbound_socket a r) /\ registry_ok (release_outbound_addr a r).
Proof. intros Hr. split; (apply (registry_same r); [done|done|done|cbn; set_solver|cbn; set_solver]). Qed.

Lemma admit_inbound_ok e order id s t r :
  registry_ok r -> connected_socket_to_identity r !! socket_addr s = None -> registry_ok (snd (admit_inbound e order id s t r)).
Proof.
  intros Hr Hfree. unfold admit_inbound.
  assert (forall stopped r1, registry_ok r1 -> connected_socket_to_identity r1 !! socket_addr s = None ->
    registry_ok (snd (match attach_session e id s t None false r1 with
      | (NewLogicalConnect, r) => (JoinedNew, stopped, with_peers (alter (reset_retry (ae_now e)) id (by_identity r)) r)
      | (ReplacedExistingSession old, r) => (JoinedReplacing old, stopped ++ [old], with_peers (alter (reset_retry (ae_now e)) id (by_identity r)) r)
      | (RejectedDuplicate, r) => (RefusedDuplicate, stopped, release_inbound_socket (socket_addr s) r) end))) as Hatt.
  { intros stopped r1 Hr1 Hf1. pose proof (attach_ok e id s t None false r1 Hr1 Hf1) as Ha.
    destruct (attach_session e id s t None false r1) as [[|old|] r2]; cbn [snd] in *; [by apply alter_retry_ok..|by apply release_ok]. }
  destruct (decide_inbound_eviction_utility _ _ _ _ _ _ _ r) as [| | | |c]; [by apply Hatt..|by apply release_ok|by apply release_ok|].
  apply Hatt; [by apply detach_ok|]. unfold detach_session_if_current. destruct (by_identity r !! ec_identity c) as [lp|]; [|done].
  destruct (session lp); [|done]. destruct (_ =? _); [|done]. cbn. rewrite lookup_delete_None. by right.
Qed.
Lemma admit_outbound_ok e id s t r :
  registry_ok r -> connected_socket_to_identity r !! socket_addr s = None -> registry_ok (snd (admit_outbound e id s t r)).
Proof.
  intros Hr Hfree. unfold admit_outbound. pose proof (attach_ok e id s t (Some (socket_addr s)) false r Hr Hfree) as Ha.
  destruct (attach_session e id s t (Some (socket_addr s)) false r) as [[|old|] r2]; cbn [snd] in *; [by apply alter_retry_ok..|by apply release_ok].
Qed.

(** The operations on the registry, in any order.  A handshake ends with the
    socket that was reserved for it. *)
Inductive reg_step : PeerRegistry -> PeerRegistry -> Prop :=
| reg_accept a r : reg_step r (snd (accept a r))
| reg_dial a r : reg_step r (snd (reserve_outbound_addr a r))
| reg_abort_in a r : reg_step r (release_inbound_socket a r)
| reg_abort_out a r : reg_step r (release_outbound_addr a r)
| reg_admit_in e order id s t r : socket_addr s ∈ pending_inbound_sockets r -> is_outbound s = false -> reg_step r (snd (admit_inbound e order id s t r))
| reg_admit_out e id s t r : socket_addr s ∈ pending_outbound_addrs r -> is_outbound s = true -> reg_step r (snd (admit_outbound e id s t r))
| reg_detach id sid r : reg_step r (snd (detach_session_if_current id sid r))
| reg_useful now id sid r : reg_step r (mark_useful_message now id sid r)
| reg_bind id a r : reg_step r (bind_dial_addr id a r)
| reg_update f id r : (forall lp, session (f lp) = session lp) -> reg_step r (with_peers (alter f id (by_identity r)) r).

Lemma reg_step_ok r r' : reg_step r r' -> registry_ok r -> registry_ok r'.
Proof.
  intros Hs Hr. destruct Hs as [a r|a r|a r|a r|e order id s t r Ha|e id s t r Ha|id sid r|now id sid r|id a r|f id r Hf].
  - unfold accept. destruct (_ <=? _); [done|]. destruct (_ <=? _); [done|]. by apply reserve_ok.
  - by apply reserve_ok.
  - by apply release_ok.
  - by apply release_ok.
  - apply admit_inbound_ok; [done|]. by apply (rg_inbound r Hr).
  - apply admit_outbound_ok; [done|]. by apply (rg_outbound r Hr).
  - by apply detach_ok.
  - unfold mark_useful_message. destruct (by_identity r !! id) as [lp|] eqn:E; [|done]. destruct (current sid lp); [|done].
    apply (registry_same r); [done| |done|done|done]. intros id'. unfold session_of. cbn. destruct (decide (id' = id)) as [->|]; [|by rewrite lookup_insert_ne].
    by rewrite lookup_insert_eq, E.
  - apply (registry_same (with_peers (alter (set_dial a) id (by_identity r)) r)); [by apply alter_retry_ok|done|done|done|done].
  - by apply alter_retry_ok.
Qed.
Lemma registry_new_ok : registry_ok PeerRegistry_new.
Proof.
  constructor; cbn.
  - intros a id. rewrite lookup_empty. unfold session_of. cbn. rewrite lookup_empty. naive_solver.
  - intros a Ha. set_solver.
  - intros a Ha. set_solver.
Qed.
Lemma registry_reachable r r' : rtc reg_step r r' -> registry_ok r -> registry_ok r'.
Proof. intros Hr. induction Hr as [|x y z Hs _ IH]; [done|]. intros Hx. apply IH. by eapply reg_step_ok. Qed.

(** ** Ranking *)

Lemma key_le_total {A} (f : A -> key) : Total (key_le f).
Proof.
  intros a b. unfold key_le, key_cmp. rewrite (Z.compare_antisym (fst (fst (f a)))), (Z.compare_antisym (snd (fst (f a)))), (lex_cmp_antisym (snd (f a))).
  destruct (fst (fst (f a)) ?= fst (fst (f b))); simpl; [|by left|by right]. destruct (snd (fst (f a)) ?= snd (fst (f b))); simpl; [|by left|by right].
  destruct (lex_cmp (snd (f a)) (snd (f b))); simpl; naive_solver.
Qed.
Lemma key_cmp_cases a b : key_cmp a b <> Gt <->
  fst (fst a) < fst (fst b) \/ fst (fst a) = fst (fst b) /\ (snd (fst a) < snd (fst b) \/ snd (fst a) = snd (fst b) /\ lex_cmp (snd a) (snd b) <> Gt).
Proof.
  unfold key_cmp. destruct (Z.compare_spec (fst (fst a)) (fst (fst b))) as [E1|E1|E1], (Z.compare_spec (snd (fst a)) (snd (fst b))) as [E2|E2|E2];
    naive_solver lia.
Qed.
Lemma key_le_trans {A} (f : A -> key) : Transitive (key_le f).
Proof.
  intros a b c. unfold key_le. rewrite !key_cmp_cases. intros H1 H2.
  assert (lex_cmp (snd (f a)) (snd (f b)) <> Gt -> lex_cmp (snd (f b)) (snd (f c)) <> Gt -> lex_cmp (snd (f a)) (snd (f c)) <> Gt) as Hl.
  { destruct (lex_cmp (snd (f a)) (snd (f b))) eqn:E1; [apply lex_cmp_eq in E1 as ->; done| |done].
    destruct (lex_cmp (snd (f b)) (snd (f c))) eqn:E2; [apply lex_cmp_eq in E2 as <-; by rewrite E1| |done]. by rewrite (lex_cmp_trans _ _ _ E1 E2). }
  destruct H1 as [H1|(H1 & [H1'|[H1' H1'']])], H2 as [H2|(H2 & [H2'|[H2' H2'']])]; try (left; lia); right; (split; [lia|]); try (left; lia).
  right. split; [lia|auto].
Qed.

(** [n] other elements of [l] come before [c]. *)
Definition outranked {A} (n : nat) (f : A -> key) (l : list A) (c : A) : Prop :=
  exists ds, NoDup ds /\ length ds = n /\ forall d, d ∈ ds -> d ∈ l /\ d <> c /\ key_le f d c.
Lemma not_in_top {A} (f : A -> key) n l c : NoDup l -> c ∈ l -> c ∉ take n (sort_by_key f l) -> outranked n f l c.
Proof.
  intros Hnd Hc Hn. pose proof (merge_sort_Permutation (key_le f) l) as Hp. fold (sort_by_key f l) in Hp. set (sl := sort_by_key f l) in *.
  assert (c ∈ drop n sl) as Hd.
  { rewrite <- Hp, <- (take_drop n sl), elem_of_app in Hc. by destruct Hc. }
  assert (n < length sl)%nat as Hlen.
  { apply list_elem_of_lookup in Hd as [i Hi]. rewrite lookup_drop in Hi. apply lookup_lt_Some in Hi. lia. }
  assert (StronglySorted (key_le f) sl) as Hss.
  { apply Sorted_StronglySorted; [apply key_le_trans|]. apply Sorted_merge_sort. exact (key_le_total f). }
  rewrite <- (take_drop n sl) in Hss. apply StronglySorted_app in Hss as (Hx & _ & _).
  assert (NoDup (take n sl)) as Hnt by (apply (NoDup_app (take n sl) (drop n sl)); rewrite take_drop; by rewrite Hp).
  exists (take n sl). split_and!; [done|rewrite length_take; lia|]. intros d Hdt. split_and!.
  - rewrite <- Hp, <- (take_drop n sl), elem_of_app. by left.
  - intros ->. done.
  - by apply Hx.
Qed.

(** ** The eviction decision *)

Lemma older_in l c : fold_left older l c = c \/ fold_left older l c ∈ l.
Proof.
  revert c. induction l as [|d l IH]; intros c; cbn [fold_left]; [by left|]. destruct (IH (older c d)) as [->|Hin]; [|right; by right].
  unfold older. destruct (_ <? _); [right; left|by left].
Qed.
Lemma newer_max l c : (fold_left newer l c = c \/ fold_left newer l c ∈ l) /\
  key_le newest_key (fold_left newer l c) c /\ forall d, d ∈ l -> key_le newest_key (fold_left newer l c) d.
Proof.
  revert c. induction l as [|x l IH]; intros c; cbn [fold_left].
  { split; [by left|]. split; [|intros d Hd; by apply not_elem_of_nil in Hd]. destruct (key_le_total newest_key c c); done. }
  destruct (IH (newer c x)) as (Hin & Hc & Hall).
  assert (key_le newest_key (newer c x) c /\ key_le newest_key (newer c x) x /\ (newer c x = c \/ newer c x = x)) as (Hn1 & Hn2 & Hn3).
  { unfold newer. destruct (key_cmp (newest_key x) (newest_key c)) eqn:E.
    1,2: (split_and!; [unfold key_le; by rewrite E|by destruct (key_le_total newest_key x x)|by right]).
    split_and!; [by destruct (key_le_total newest_key c c)| |by left]. destruct (key_le_total newest_key c x) as [?|Hx]; [done|]. unfold key_le in Hx. by rewrite E in Hx. }
  split_and!.
  - destruct Hin as [->|Hin]; [destruct Hn3 as [->| ->]; [by left|right; left]|right; by right].
  - by eapply key_le_trans.
  - intros d Hd. apply elem_of_cons in Hd as [->|Hd]; [by eapply key_le_trans|by apply Hall].
Qed.
Lemma victim_spec l c : victim l = Some c -> c ∈ l /\ forall d, d ∈ l -> ec_established d <= ec_established c.
Proof.
  destruct l as [|x l]; [done|]. cbn. intros [= <-]. destruct (newer_max l x) as (Hin & Hx & Hall). split.
  - destruct Hin as [->|?]; [left|by right].
  - intros d Hd. assert (key_le newest_key (fold_left newer l x) d) as Hk by (apply elem_of_cons in Hd as [->|Hd]; auto).
    unfold key_le in Hk. rewrite key_cmp_cases in Hk. cbn in Hk. lia.
Qed.
Lemma victim_none l : victim l = None -> l = [].
Proof. by destruct l. Qed.

Lemma largest_ge l g : (length (members g l) <= largest_size l)%nat.
Proof.
  unfold largest_size. destruct (decide (g ∈ remove_dups (map ec_group l))) as [Hg|Hg].
  - induction (remove_dups (map ec_group l)) as [|x gs IH]; [by apply not_elem_of_nil in Hg|]. cbn.
    apply elem_of_cons in Hg as [->|Hg]; [lia|]. specialize (IH Hg). lia.
  - assert (members g l = []) as ->; [|simpl; lia]. rewrite elem_of_remove_dups in Hg. apply elem_of_nil_inv. intros c Hc.
    unfold members in Hc. apply list_elem_of_filter in Hc as [E Hc]. apply Hg. rewrite <- E. apply list_elem_of_In, in_map. by apply list_elem_of_In.
Qed.
Lemma largest_attained l : l <> [] -> exists g, g ∈ remove_dups (map ec_group l) /\ length (members g l) = largest_size l.
Proof.
  intros Hl. unfold largest_size. assert (remove_dups (map ec_group l) <> []) as Hgs.
  { destruct l as [|c l]; [done|]. intros E. assert (ec_group c ∈ remove_dups (map ec_group (c :: l))) as Hc by (rewrite elem_of_remove_dups; left).
    rewrite E in Hc. by apply not_elem_of_nil in Hc. }
  induction (remove_dups (map ec_group l)) as [|x gs IH]; [done|]. cbn. destruct (decide (gs = [])) as [->|Hne].
  - exists x. split; [left|]. cbn. lia.
  - destruct (IH Hne) as (g & Hg & E). destruct (Nat.max_spec (length (members x l)) (foldr (fun g n => Nat.max (length (members g l)) n) 0%nat gs)) as [[_ Hm]|[_ Hm]]; rewrite Hm.
    + exists g. split; [by right|done].
    + exists x. split; [left|done].
Qed.
Lemma target_spec now l : l <> [] ->
  target_candidates now l <> [] /\
  (target_candidates now l = l /\ (largest_size l <= 1)%nat \/ exists g, target_candidates now l = members g l /\ length (members g l) = largest_size l).
Proof.
  intros Hl. unfold target_candidates. destruct (Nat.leb_spec (largest_size l) 1) as [Hle|Hgt]; [split; [done|by left]|].
  destruct (largest_attained l Hl) as (g0 & Hg0 & E0). set (gs := filter _ _). set (sorted := sort_by_key _ gs).
  assert (g0 ∈ sorted) as Hin.
  { unfold sorted, sort_by_key. rewrite merge_sort_Permutation. unfold gs. apply list_elem_of_filter. done. }
  destruct sorted as [|g rest] eqn:Es; [by apply not_elem_of_nil in Hin|].
  assert (g ∈ gs) as Hg. { rewrite <- (merge_sort_Permutation (key_le (target_key now l)) gs). fold (sort_by_key (target_key now l) gs). fold sorted. rewrite Es. left. }
  unfold gs in Hg. apply list_elem_of_filter in Hg as [Hlen _]. split; [|right; by exists g]. intros E. rewrite E in Hlen. simpl in Hlen. lia.
Qed.

Section Eviction.
Variables (cfg : EvictionConfig) (now : Z) (r : PeerRegistry) (order : list PeerId) (ibd : option (PeerId * Z)).
(** Some order of the peers. *)
Hypothesis order_keys : order ≡ₚ (map_to_list (by_identity r)).*1.
Abbreviation all := (omap (candidate r) order).
Abbreviation free := (filter (fun c => ec_key c ∉ protected cfg now ibd all) all).

Lemma candidate_identity id c : candidate r id = Some c -> ec_identity c = id.
Proof. unfold candidate. destruct (by_identity r !! id) as [lp|]; [|done]. destruct (session lp) as [s|]; [|done]. destruct (is_outbound s); [done|]. by intros [= <-]. Qed.
Lemma elem_of_all c : c ∈ all -> candidate r (ec_identity c) = Some c.
Proof. intros Hc. apply list_elem_of_omap in Hc as (id & _ & E). by rewrite (candidate_identity id c E). Qed.
Lemma all_keys_nodup : NoDup (map ec_key all).
Proof.
  assert (NoDup order) as Hnd by (rewrite order_keys; apply NoDup_fst_map_to_list). clear order_keys.
  induction Hnd as [|id l Hid _ IH]; [constructor|]. cbn. destruct (candidate r id) as [c|] eqn:E; [|done]. cbn. constructor; [|done].
  intros Hin. apply list_elem_of_In, in_map_iff in Hin as (d & Ed & Hd). apply list_elem_of_In, list_elem_of_omap in Hd as (id' & Hid' & E').
  apply Hid. apply candidate_identity in E, E'. unfold ec_key in Ed. injection Ed as Ed _. by rewrite <- E, <- Ed, E'.
Qed.
Lemma all_nodup : NoDup all.
Proof. apply NoDup_ListNoDup. eapply NoDup_map_inv, NoDup_ListNoDup, all_keys_nodup. Qed.
Lemma all_length : Z.of_nat (length all) = inbound_count r.
Proof.
  unfold inbound_count, count_sessions. f_equal. rewrite order_keys. clear order_keys.
  assert (forall l, (forall id lp, (id, lp) ∈ l -> by_identity r !! id = Some lp) ->
    length (omap (candidate r) l.*1) = length (filter (fun kv => from_option (fun s => negb (is_outbound s)) false (session (snd kv)) = true) l)) as Hl.
  { induction l as [|[id lp] l IH]; [done|]. intros Hin. rewrite fmap_cons, filter_cons. cbn [fst snd omap list_omap]. unfold candidate at 1. rewrite (Hin id lp) by left.
    assert (length (omap (candidate r) l.*1) = length (filter (fun kv => from_option (fun s => negb (is_outbound s)) false (session (snd kv)) = true) l)) as IH'
      by (apply IH; intros; apply Hin; by right).
    destruct (session lp) as [s|]; cbn [from_option]; [destruct (is_outbound s); cbn|]; by rewrite ?IH'. }
  apply Hl. intros id lp. apply elem_of_map_to_list.
Qed.

Lemma free_spec c : c ∈ free ->
  c ∈ all /\ ibd <> Some (ec_key c) /\ in_grace cfg now c = false /\
  outranked (protect_oldest_n cfg) age_key all c /\
  (recently_useful cfg now c = true -> outranked (protect_useful_n cfg) useful_key (filter (fun c => recently_useful cfg now c = true) all) c) /\
  (forall g, (g, c) ∈ group_reps all -> outranked (protect_groups_n cfg) rep_key (group_reps all) (g, c)).
Proof.
  intros Hc. apply list_elem_of_filter in Hc as [Hp Hc]. unfold protected in Hp. rewrite !elem_of_app in Hp.
  assert (forall l : list EvictionCandidate, ec_key c ∉ map ec_key l -> c ∉ l) as Hmap.
  { intros l Hl Hin. apply Hl, list_elem_of_In, in_map. by apply list_elem_of_In. }
  split_and!.
  - done.
  - intros ->. apply Hp. left. simpl. left.
  - apply not_true_iff_false. intros Hg. apply Hp. right. left. apply list_elem_of_In, in_map, list_elem_of_In, list_elem_of_filter. done.
  - apply not_in_top; [apply all_nodup|done|]. apply Hmap. intros Hx. apply Hp. auto.
  - intros Hu. apply not_in_top; [apply NoDup_filter, all_nodup|by apply list_elem_of_filter|]. apply Hmap. intros Hx. apply Hp. auto.
  - intros g Hg. apply not_in_top; [|done|].
    + unfold group_reps. assert (NoDup (remove_dups (map ec_group all))) as Hnd by apply NoDup_remove_dups. clear -Hnd.
      induction Hnd as [|g gs Hg _ IH]; [constructor|]. cbn. destruct (oldest_of (members g all)); cbn; [|done]. constructor; [|done].
      intros Hin. apply list_elem_of_omap in Hin as (g' & Hg' & E). destruct (oldest_of (members g' all)); [|done]. cbn in E. by injection E as -> _.
    + intros Hx. apply Hp. do 4 right. apply list_elem_of_In, in_map_iff. exists (g, c). split; [done|]. by apply list_elem_of_In.
Qed.

Lemma none_free : free = [] -> Z.of_nat (length all) <=
  1 + Z.of_nat (length (filter (fun c => in_grace cfg now c = true) all)) + Z.of_nat (protect_useful_n cfg) + Z.of_nat (protect_oldest_n cfg) + Z.of_nat (protect_groups_n cfg).
Proof.
  intros Hf. assert (length (map ec_key all) <= length (protected cfg now ibd all))%nat as Hle.
  { apply submseteq_length, NoDup_submseteq; [apply all_keys_nodup|]. intros x Hx. apply list_elem_of_In, in_map_iff in Hx as (c & <- & Hc).
    destruct (decide (ec_key c ∈ protected cfg now ibd all)) as [?|Hn]; [done|]. apply list_elem_of_In in Hc.
    assert (c ∈ free) as Hx by (by apply list_elem_of_filter). rewrite Hf in Hx. by apply not_elem_of_nil in Hx. }
  rewrite length_map in Hle. unfold protected in Hle. rewrite !length_app, !length_map in Hle.
  pose proof (firstn_le_length (protect_useful_n cfg) (sort_by_key useful_key (filter (fun c => recently_useful cfg now c = true) all))).
  pose proof (firstn_le_length (protect_oldest_n cfg) (sort_by_key age_key all)).
  pose proof (firstn_le_length (protect_groups_n cfg) (sort_by_key rep_key (group_reps all))).
  assert (length (option_list ibd) <= 1)%nat by (destruct ibd; simpl; lia). lia.
Qed.

(** The victim comes from a largest group of those that may be evicted, and is the
    youngest of its group there. *)
Lemma victim_of_free c : victim (target_candidates now free) = Some c ->
  c ∈ free /\ (forall g, (length (members g free) <= length (members (ec_group c) free))%nat) /\
  forall d, d ∈ free -> ec_group d = ec_group c -> ec_established d <= ec_established c.
Proof.
  intros Hv. assert (free <> []) as Hne by (intros E; rewrite E in Hv; done). destruct (target_spec now free Hne) as [_ Ht].
  apply victim_spec in Hv as [Hc Hmax]. destruct Ht as [[Et Hl]|(g & Et & Hl)]; rewrite Et in Hc, Hmax.
  - split_and!; [done| |intros; by apply Hmax]. intros g. pose proof (largest_ge free g).
    assert (c ∈ members (ec_group c) free) as Hin by (by apply list_elem_of_filter).
    destruct (members (ec_group c) free); [by apply not_elem_of_nil in Hin|]. simpl. lia.
  - apply list_elem_of_filter in Hc as [<- Hc]. split_and!; [done| |].
    + intros g. pose proof (largest_ge free g). lia.
    + intros d Hd Eg. apply Hmax. by apply list_elem_of_filter.
Qed.
End Eviction.

(** ** Admission *)

Lemma alter_known (f : LogicalPeer -> LogicalPeer) id m : alter f id m = match m !! id with Some lp => <[id := f lp]> m | None => (m : gmap PeerId LogicalPeer) end.
Proof.
  apply map_eq. intros j. destruct (decide (j = id)) as [->|Hne].
  - rewrite lookup_alter_eq. destruct (m !! id) as [lp|] eqn:E; [by rewrite lookup_insert_eq|by rewrite E].
  - rewrite lookup_alter_ne by done. destruct (m !! id); [by rewrite lookup_insert_ne|done].
Qed.
Lemma count_alter p f id r : (forall lp, session (f lp) = session lp) ->
  count_sessions p (with_peers (alter f id (by_identity r)) r) = count_sessions p r.
Proof.
  intros Hf. change (count_in p (alter f id (by_identity r)) = count_in p (by_identity r)). rewrite alter_known. destruct (by_identity r !! id) as [lp|] eqn:E; [|done].
  rewrite count_insert, E, Hf. cbn. lia.
Qed.
Lemma candidate_session r id c : candidate r id = Some c -> exists s, session_of id r = Some s /\ session_id s = ec_session c /\ is_outbound s = false.
Proof.
  unfold candidate, session_of. destruct (by_identity r !! id) as [lp|]; [|done]. cbn. destruct (session lp) as [s|]; [|done].
  destruct (is_outbound s) eqn:E; [done|]. intros [= <-]. by exists s.
Qed.

Abbreviation inbound := (fun s => negb (is_outbound s)).

(** The second half of an inbound admission. *)
Definition finish_admission (e : AttachEnv) (id : PeerId) (s : PeerSession) (t : PeerTip) (stopped : list Z) (r : PeerRegistry)
  : Admission * list Z * PeerRegistry :=
  match attach_session e id s t None false r with
  | (NewLogicalConnect, r) => (JoinedNew, stopped, with_peers (alter (reset_retry (ae_now e)) id (by_identity r)) r)
  | (ReplacedExistingSession old, r) => (JoinedReplacing old, stopped ++ [old], with_peers (alter (reset_retry (ae_now e)) id (by_identity r)) r)
  | (RejectedDuplicate, r) => (RefusedDuplicate, stopped, release_inbound_socket (socket_addr s) r)
  end.
Lemma admission_split e order id s t r : admit_inbound e order id s t r =
  match decide_inbound_eviction_utility EvictionConfig_default (ae_now e) order id (sock_ip (socket_addr s)) (active_ibd e) MAX_INBOUND_PEERS r with
  | NotNeeded | DuplicateIdentity => finish_admission e id s t [] r
  | IpCapReached => (RefusedIp, [], release_inbound_socket (socket_addr s) r)
  | NoEligibleCandidates => (RefusedFull, [], release_inbound_socket (socket_addr s) r)
  | Evict c => finish_admission e id s t [ec_session c] (snd (detach_session_if_current (ec_identity c) (ec_session c) r))
  end.
Proof. reflexivity. Qed.
Lemma finish_count e id s t stopped r :
  is_outbound s = false -> inbound_count (snd (finish_admission e id s t stopped r)) <= inbound_count r + 1 - weight inbound (session_of id r).
Proof.
  intros Hin. pose proof (attach_count inbound e id s t None false r) as Hc. unfold finish_admission.
  pose proof (weight_range inbound (session_of id r)). pose proof (weight_range inbound (Some s)).
  destruct (attach_session e id s t None false r) as [[|old|] r1]; cbn [fst snd] in *; unfold inbound_count; [rewrite count_alter by done; lia..|].
  change (count_sessions inbound r1 <= count_sessions inbound r + 1 - weight inbound (session_of id r)). lia.
Qed.
(** Whoever loses its session is told to stop. *)
Lemma finish_stops e id s t stopped r id' s' :
  session_of id' r = Some s' ->
  let res := finish_admission e id s t stopped r in session_of id' (snd res) = Some s' \/ session_id s' ∈ snd (fst res).
Proof.
  intros Hs'. cbv zeta. unfold finish_admission. pose proof (attach_cases e id s t None false r) as (_ & _ & Hc). cbv zeta in Hc.
  pose proof (prepared_session e id t None false r) as Ep.
  assert (forall f r1, (forall lp, session (f lp) = session lp) -> session_of id' (with_peers (alter f id (by_identity r1)) r1) = session_of id' r1) as Halt.
  { intros f r1 Hf. unfold session_of. cbn. destruct (decide (id' = id)) as [->|]; [rewrite lookup_alter_eq; by destruct (by_identity r1 !! id); cbn; rewrite ?Hf|by rewrite lookup_alter_ne]. }
  destruct (attach_session e id s t None false r) as [res r1]. cbn [fst snd] in Hc. destruct (decide (id' = id)) as [->|Hne].
  - rewrite Hs' in Hc. destruct (keeps_existing e id s' (is_outbound s)); destruct Hc as (-> & Hb & _); cbn [fst snd].
    + left. unfold session_of. cbn. by rewrite Hb, lookup_insert_eq, <- Hs', <- Ep.
    + right. apply elem_of_app. right. left.
  - assert (session_of id' r1 = Some s') as H1.
    { rewrite <- Hs'. unfold session_of. destruct (session_of id r) as [old|]; [destruct (keeps_existing e id old (is_outbound s))|]; destruct Hc as (_ & -> & _);
        by rewrite lookup_insert_ne. }
    left. destruct res; cbn [fst snd]; [by rewrite Halt..|exact H1].
Qed.

Lemma admission_facts e order id s t r id' s' :
  order ≡ₚ (map_to_list (by_identity r)).*1 -> is_outbound s = false -> from_option is_outbound false (session_of id r) = false ->
  let res := admit_inbound e order id s t r in
  inbound_count (snd res) <= Z.max MAX_INBOUND_PEERS (inbound_count r) /\
  (session_of id' r = Some s' -> session_of id' (snd res) = Some s' \/ session_id s' ∈ snd (fst res)).
Proof.
  intros Hord Hin Hself. cbv zeta. rewrite admission_split.
  pose proof (weight_range inbound (session_of id r)) as Hw.
  destruct (decide_inbound_eviction_utility _ _ _ _ _ _ _ r) as [| | | |c] eqn:Ed; unfold decide_inbound_eviction_utility in Ed;
    destruct (Z.ltb_spec (inbound_count r) MAX_INBOUND_PEERS) as [Hlt|Hge]; try done.
  - pose proof (finish_count e id s t [] r Hin). split; [lia|by apply finish_stops].
  - exfalso. destruct (from_option _ false (by_identity r !! id)); [done|]. destruct (_ <=? _); [done|]. by destruct (victim _).
  - pose proof (finish_count e id s t [] r Hin). split; [|by apply finish_stops].
    assert (weight inbound (session_of id r) = 1) as E1; [|lia].
    destruct (from_option _ false (by_identity r !! id)) eqn:Ef; [|by destruct (_ <=? _); [|destruct (victim _)]].
    unfold session_of in *. destruct (by_identity r !! id) as [lp|]; [|done]. cbn in *. apply bool_decide_eq_true in Ef as [x Ex].
    rewrite Ex in *. cbn in Hself. unfold weight. cbn. by rewrite Hself.
  - split; [change (inbound_count r <= Z.max MAX_INBOUND_PEERS (inbound_count r)); lia|by left].
  - split; [change (inbound_count r <= Z.max MAX_INBOUND_PEERS (inbound_count r)); lia|by left].
  - destruct (from_option _ false (by_identity r !! id)); [done|]. destruct (_ <=? _); [done|]. destruct (victim _) as [c'|] eqn:Ev; [|done]. injection Ed as ->.
    apply victim_of_free in Ev as [Hc _]. apply list_elem_of_filter in Hc as [_ Hc]. apply elem_of_all in Hc.
    destruct (candidate_session _ _ _ Hc) as (sv & Hsv & Hid & Hout).
    destruct (detach_current inbound (ec_identity c) (ec_session c) r sv Hsv Hid) as (Hnone & Hother & _ & Hcnt).
    set (r1 := snd (detach_session_if_current (ec_identity c) (ec_session c) r)) in *.
    pose proof (finish_count e id s t [ec_session c] r1 Hin) as Hfc. pose proof (weight_range inbound (session_of id r1)).
    assert (weight inbound (Some sv) = 1) as E1 by (unfold weight; cbn; by rewrite Hout). unfold inbound_count in *. split; [lia|].
    intros Hs'. destruct (decide (id' = ec_identity c)) as [->|Hne]; [|apply finish_stops; by rewrite Hother].
    right. rewrite Hsv in Hs'. injection Hs' as <-. unfold finish_admission. destruct (attach_session e id s t None false r1) as [[|old|] r2]; cbn;
      rewrite Hid; [left|left|left].
Qed.

(** ** Claims *)

(** C27: However connections are accepted, dialled, admitted, evicted and closed,
    the index of sockets lists exactly the sockets of the current sessions, no
    reserved socket is in use or reserved twice; and admitting an inbound peer
    that has no outbound session does not raise the number of inbound sessions
    above the limit, and every session that loses its place is told to stop. *)
Theorem registry_consistent (r : PeerRegistry) :
  rtc reg_step PeerRegistry_new r ->
  (forall a id, connected_socket_to_identity r !! a = Some id <-> exists s, session_of id r = Some s /\ socket_addr s = a) /\
  (forall a, a ∈ pending_inbound_sockets r -> connected_socket_to_identity r !! a = None /\ a ∉ pending_outbound_addrs r) /\
  (forall e order id s t, order ≡ₚ (map_to_list (by_identity r)).*1 -> is_outbound s = false ->
     from_option is_outbound false (session_of id r) = false ->
     let res := admit_inbound e order id s t r in
     inbound_count (snd res) <= Z.max MAX_INBOUND_PEERS (inbound_count r) /\
     forall id' s', session_of id' r = Some s' -> session_of id' (snd res) = Some s' \/ session_id s' ∈ snd (fst res)).
Proof.
  intros Hr. apply registry_reachable in Hr; [|apply registry_new_ok]. split_and!.
  - apply (rg_sockets r Hr).
  - intros a Ha. split; [by apply (rg_inbound r Hr)|]. intros Ho. by destruct (rg_outbound r Hr a Ho).
  - intros e order id s t Ho Hin Hself. cbv zeta. split.
    + by destruct (admission_facts e order id s t r id s Ho Hin Hself).
    + intros id' s'. by destruct (admission_facts e order id s t r id' s' Ho Hin Hself).
Qed.

(** The eviction decision.  A session that is evicted is a current inbound
    session, is not the one the initial download uses, is out of its grace period,
    is outranked in age by as many inbound sessions as are protected for their
    age, in recent usefulness by as many as are protected for it if it was
    recently useful, and among the oldest members of the groups if it is one; no
    group has more members that may be evicted than its group, and none of these
    is younger than it.  With all slots taken, a newcomer that is neither attached
    nor over its address limit is refused for lack of candidates only when all
    inbound sessions but a bounded number are in their grace period. *)
Theorem eviction_fair (cfg : EvictionConfig) (now : Z) (order : list PeerId) (new_id : PeerId) (new_ip : IpAddr)
    (ibd : option (PeerId * Z)) (max_inbound : Z) (r : PeerRegistry) :
  order ≡ₚ (map_to_list (by_identity r)).*1 ->
  let all := omap (candidate r) order in
  let free := filter (fun c => ec_key c ∉ protected cfg now ibd all) all in
  match decide_inbound_eviction_utility cfg now order new_id new_ip ibd max_inbound r with
  | Evict c =>
      max_inbound <= inbound_count r /\ candidate r (ec_identity c) = Some c /\ ibd <> Some (ec_key c) /\ in_grace cfg now c = false /\
      outranked (protect_oldest_n cfg) age_key all c /\
      (recently_useful cfg now c = true -> outranked (protect_useful_n cfg) useful_key (filter (fun c => recently_useful cfg now c = true) all) c) /\
      (forall g, (g, c) ∈ group_reps all -> outranked (protect_groups_n cfg) rep_key (group_reps all) (g, c)) /\
      (forall g, (length (members g free) <= length (members (ec_group c) free))%nat) /\
      (forall d, d ∈ free -> ec_group d = ec_group c -> ec_established d <= ec_established c)
  | NoEligibleCandidates =>
      inbound_count r <= 1 + Z.of_nat (length (filter (fun c => in_grace cfg now c = true) all)) +
        Z.of_nat (protect_useful_n cfg) + Z.of_nat (protect_oldest_n cfg) + Z.of_nat (protect_groups_n cfg)
  | NotNeeded => inbound_count r < max_inbound
  | DuplicateIdentity => is_Some (session_of new_id r)
  | IpCapReached => MAX_INBOUND_PER_IP <= inbound_count_for_ip new_ip r
  end.
Proof.
  intros Hord. cbv zeta. unfold decide_inbound_eviction_utility. destruct (Z.ltb_spec (inbound_count r) max_inbound) as [|Hge]; [done|].
  destruct (from_option _ false (by_identity r !! new_id)) eqn:Ef.
  { unfold session_of. destruct (by_identity r !! new_id) as [lp|]; [|done]. cbn in *. by apply bool_decide_eq_true in Ef. }
  destruct (Z.leb_spec MAX_INBOUND_PER_IP (inbound_count_for_ip new_ip r)) as [|Hip]; [done|].
  destruct (victim _) as [c|] eqn:Ev.
  - apply victim_of_free in Ev as (Hc & Hg & Hy). destruct (free_spec cfg now r order ibd Hord c Hc) as (Ha & ? & ? & ? & ? & ?).
    split_and!; try done. by apply (elem_of_all r order).
  - apply victim_none in Ev. rewrite <- (all_length r order Hord). eapply none_free; [done|].
    destruct (filter (fun c => ec_key c ∉ protected cfg now ibd (omap (candidate r) order)) (omap (candidate r) order)) as [|x l] eqn:E; [exact E|].
    exfalso. by destruct (target_spec now (x :: l)) as [Hne _].
Qed.

(** ** Examples *)

(** A registry with an inbound session from each of the given addresses. *)
Definition v4 (a b c d port : Z) : SocketAddr := SockV4 (concat (map (le_bytes 1) [a; b; c; d])) port.
Definition inbound_from (n : Z) (a : SocketAddr) (at_ : Z) : PeerSession :=
  {| session_id := n; socket_addr := a; is_outbound := false; established_at := at_ |}.
Definition no_tip : PeerTip := {| pt_height := 0; pt_work := replicate 32 x00; pt_block_id := replicate 32 x00; pt_confirmed := false |}.
Definition quiet (now : Z) : AttachEnv := {| ae_now := now; our_pubkey := replicate 32 x55; active_ibd := None; catching_up := false |}.
Definition peer_named (n : Z) : PeerId := le_bytes 32 n.
Definition join (n : Z) (a : SocketAddr) (now : Z) (r : PeerRegistry) : PeerRegistry :=
  let r := snd (accept a r) in
  snd (admit_inbound (quiet now) (map_to_list (by_identity r)).*1 (peer_named n) (inbound_from n a now) no_tip r).

Lemma registry_consistent_witness :
  connected_socket_to_identity (join 1 (v4 9 9 9 9 4000) 0 PeerRegistry_new) !! v4 9 9 9 9 4000 = Some (peer_named 1) /\
  exists s, session_of (peer_named 1) (join 1 (v4 9 9 9 9 4000) 0 PeerRegistry_new) = Some s /\ socket_addr s = v4 9 9 9 9 4000.
Proof.
  assert (connected_socket_to_identity (join 1 (v4 9 9 9 9 4000) 0 PeerRegistry_new) !! v4 9 9 9 9 4000 = Some (peer_named 1)) as Hc by (vm_compute; reflexivity).
  split; [exact Hc|].
  destruct (registry_consistent (join 1 (v4 9 9 9 9 4000) 0 PeerRegistry_new)) as [Hs _]; [|by apply Hs].
  eapply rtc_l; [apply (reg_accept (v4 9 9 9 9 4000))|]. eapply rtc_l; [|apply rtc_refl]. apply reg_admit_in; [|reflexivity].
  apply (bool_decide_eq_true_1 _). vm_compute. reflexivity.
Defined.

(** Three sessions, two of them from one network; no protection but the grace
    period. *)
Definition crowd : PeerRegistry :=
  join 3 (v4 7 7 1 1 4000) (30 * NANOS) (join 2 (v4 8 8 1 1 4000) (20 * NANOS) (join 1 (v4 7 7 2 2 4000) (10 * NANOS) PeerRegistry_new)).
Definition plain : EvictionConfig := {|
  post_handshake_grace_secs := 15; protect_useful_n := 0; protect_oldest_n := 1; protect_groups_n := 0; useful_protection_secs := 600 |}.
Definition crowd_decision : EvictionDecision :=
  decide_inbound_eviction_utility plain (100 * NANOS) (map_to_list (by_identity crowd)).*1 (peer_named 4) (sock_ip (v4 6 6 6 6 1)) None 3 crowd.
Lemma eviction_fair_witness :
  match crowd_decision with Evict c => ec_session c = 3 /\ in_grace plain (100 * NANOS) c = false | _ => False end.
Proof.
  pose proof (eviction_fair plain (100 * NANOS) (map_to_list (by_identity crowd)).*1 (peer_named 4) (sock_ip (v4 6 6 6 6 1)) None 3 crowd
                (Permutation_refl _)) as He. cbv zeta in He. fold crowd_decision in He.
  assert (match crowd_decision with Evict c => ec_session c =? 3 | _ => false end = true) as Hd by (vm_compute; reflexivity).
  destruct crowd_decision as [| | | |c]; [discriminate Hd..|]. split; [by apply Z.eqb_eq in Hd|apply He].
Defined.

(** Two connections from one address whose handshakes overlap both get a slot. *)
Definition overlapping : PeerRegistry :=
  let r := snd (accept (v4 7 7 1 1 4001) (snd (accept (v4 7 7 1 1 4000) PeerRegistry_new))) in
  let admit_one n a r := snd (admit_inbound (quiet 0) (map_to_list (by_identity r)).*1 (peer_named n) (inbound_from n a 0) no_tip r) in
  admit_one 2 (v4 7 7 1 1 4001) (admit_one 1 (v4 7 7 1 1 4000) r).
Example address_limit_exceeded : inbound_count_for_ip (sock_ip (v4 7 7 1 1 1)) overlapping = 2.
Proof. vm_compute. reflexivity. Qed.
