(* ===== verification/PeerPolicy.v ===== *)
(** * Rate limits, bans and the address book ([Node] in [src/network/sync.rs])

    The shared limits per minute, strikes and bans of addresses and identities
    with their rows in the database, their restoration when the node starts
    ([src/main.rs]), and the book of addresses that peers
    announce.  Instants are nanoseconds, [unix] is the wall clock in seconds.
    [walk] is the order in which a [HashMap] is walked, which decides between
    entries of equal rank and which the program does not choose. *)

From S2P Require Import Prelude Bytes Codec Hash Transaction Block Wire Utxo Storage PeerRegistry.
#[local] Open Scope Z_scope.
#[local] Open Scope list_scope.

Definition MAX_GLOBAL_BLOCKS_PER_MIN : Z := 120.
Definition MAX_GLOBAL_TIP_EXTENDER_RESERVE_PER_MIN : Z := 60.
Definition MAX_GLOBAL_TXS_PER_MIN : Z := 200.
Definition MAX_GLOBAL_RESPONSE_BYTES_PER_MIN : Z := 134217728.
Definition BAN_DECAY_SECS : Z := 300.
Definition IP_BAN_STRIKE_THRESHOLD : Z := 10.
Definition IP_BAN_DURATION_SECS : Z := 600.
Definition MAX_IP_ABUSE_ENTRIES : Z := 4096.
Definition MAX_IDENTITY_BAN_ENTRIES : Z := 4096.
Definition MIN_ADDR_SOURCES_FOR_CONNECT : Z := 2.
Definition MAX_ADDR_PER_MSG_ACCEPT : Z := 16.
Definition MAX_ADDR_BOOK_PER_SUBNET16 : Z := 32.
Definition MAX_ADDR_BOOK_PEER_FRACTION_NUM : Z := 1.
Definition MAX_ADDR_BOOK_PEER_FRACTION_DEN : Z := 4.

#[export] Instance IpAddr_countable : Countable IpAddr.
Proof.
  refine (inj_countable' (fun a => match a with V4 o => inl o | V6 o => inr o end) (fun x => match x with inl o => V4 o | inr o => V6 o end) _).
  by intros [].
Defined.

(** ** Limits per minute *)

(** The start of the window, and what was consumed in it. *)
Definition limiter : Type := Z * Z.
Definition MINUTE : Z := 60 * NANOS.
Definition refresh (now : Z) (l : limiter) : limiter := if MINUTE <=? since now (fst l) then (now, 0) else l.
Definition consume_slot (now cap : Z) (l : limiter) : bool * limiter :=
  let l := refresh now l in
  if snd l <? cap then (true, (fst l, snd l + 1)) else (false, l).
Definition try_consume_global_block_slot_inner (now : Z) (tip_extender : bool) (l : limiter) : bool * limiter :=
  consume_slot now (if tip_extender then MAX_GLOBAL_BLOCKS_PER_MIN + MAX_GLOBAL_TIP_EXTENDER_RESERVE_PER_MIN else MAX_GLOBAL_BLOCKS_PER_MIN) l.
Definition try_consume_global_block_slot (now : Z) (l : limiter) : bool * limiter := try_consume_global_block_slot_inner now false l.
Definition try_consume_global_tx_slot (now : Z) (l : limiter) : bool * limiter := consume_slot now MAX_GLOBAL_TXS_PER_MIN l.
Definition refund_global_tx_slot (l : limiter) : limiter := (fst l, saturating_sub (snd l) 1).
Definition try_consume_global_response_bytes (now n : Z) (l : limiter) : bool * limiter :=
  let l := refresh now l in
  if saturating_add U64_MAX (snd l) n <=? MAX_GLOBAL_RESPONSE_BYTES_PER_MIN then (true, (fst l, saturating_add U64_MAX (snd l) n)) else (false, l).

(** ** Strikes and bans *)

Record IpAbuseEntry := { strikes : Z; banned_until : option Z; last_strike : Z }.
Record Abuse := { ip_abuse : gmap IpAddr IpAbuseEntry; identity_bans : gmap PeerId Z; ban_db : ChainStorage }.

(** [iter().min_by_key(f)]: the first of the minima. *)
Fixpoint min_by_key {A} (f : A -> Z) (l : list A) : option A :=
  match l with
  | [] => None
  | x :: l => match min_by_key f l with Some y => if f y <? f x then Some y else Some x | None => Some x end
  end.
Definition ban_active (now : Z) (e : IpAbuseEntry) : bool := from_option (fun until => now <? until) false (banned_until e).
Definition decayed (now : Z) (e : IpAbuseEntry) : bool := BAN_DECAY_SECS * NANOS <=? since now (last_strike e).

Section Policy.
Variable walk : forall {K V} `{Countable K}, gmap K V -> list (K * V).

Definition least {K V} `{Countable K} (f : V -> Z) (keep : V -> bool) (m : gmap K V) : option K :=
  fst <$> min_by_key (fun kv => f (snd kv)) (filter (fun kv => keep (snd kv) = true) (walk m)).

(** Room in a full table: decayed entries without an active ban go, then the ones
    struck longest ago that are not banned; each round removes one. *)
Fixpoint evict_unbanned (fuel : nat) (now : Z) (m : gmap IpAddr IpAbuseEntry) : gmap IpAddr IpAbuseEntry :=
  match fuel with
  | O => m
  | S fuel =>
      if MAX_IP_ABUSE_ENTRIES <=? Z.of_nat (size m) then
        match least last_strike (fun e => negb (ban_active now e)) m with
        | Some ip => evict_unbanned fuel now (delete ip m)
        | None => m
        end
      else m
  end.
Definition sweep_abuse (now : Z) (m : gmap IpAddr IpAbuseEntry) : gmap IpAddr IpAbuseEntry :=
  if MAX_IP_ABUSE_ENTRIES <=? Z.of_nat (size m) then
    let m := filter (fun kv => negb (decayed now (snd kv)) || ban_active now (snd kv) = true) m in
    evict_unbanned (size m) now m
  else m.
Definition make_room (ip : IpAddr) (m : gmap IpAddr IpAbuseEntry) : gmap IpAddr IpAbuseEntry :=
  if (MAX_IP_ABUSE_ENTRIES <=? Z.of_nat (size m)) && bool_decide (m !! ip = None) then
    match least last_strike (fun _ => true) m with Some old => delete old m | None => m end
  else m.

(** [SystemTime::now()] in seconds plus the ban, 0 when the clock is before the
    epoch. *)
Definition ban_end_unix (unix : option Z) : Z := from_option (fun t => wrap64 (t + IP_BAN_DURATION_SECS)) 0 unix.
(** A write whose failure is only logged. *)
Definition persist (fault : bool) (body : txn) (db : ChainStorage) : ChainStorage := snd (write_txn fault body db).

Fixpoint evict_identities (fuel : nat) (fault : PeerId -> bool) (bans : gmap PeerId Z) (db : ChainStorage) : gmap PeerId Z * ChainStorage :=
  match fuel with
  | O => (bans, db)
  | S fuel =>
      if MAX_IDENTITY_BAN_ENTRIES <=? Z.of_nat (size bans) then
        match least (fun t => t) (fun _ => true) bans with
        | Some pk => evict_identities fuel fault (delete pk bans) (persist (fault pk) (remove_identity_ban pk) db)
        | None => (bans, db)
        end
      else (bans, db)
  end.
Definition ban_identity (now : Z) (unix : option Z) (fault : PeerId -> bool) (pubkey : PeerId) (a : Abuse) : Abuse :=
  if bool_decide (pubkey = replicate 32 x00) then a
  else
    let until := now + IP_BAN_DURATION_SECS * NANOS in
    let '(bans, db) :=
      if MAX_IDENTITY_BAN_ENTRIES <=? Z.of_nat (size (identity_bans a)) then
        let expired := map fst (filter (fun kv => (snd kv <=? now) = true) (walk (identity_bans a))) in
        let bans := filter (fun kv => negb (snd kv <=? now) = true) (identity_bans a) in
        let db := fold_left (fun db pk => persist (fault pk) (remove_identity_ban pk) db) expired (ban_db a) in
        evict_identities (size bans) fault bans db
      else (identity_bans a, ban_db a) in
    {| ip_abuse := ip_abuse a; identity_bans := <[pubkey := until]> bans;
       ban_db := persist (fault pubkey) (put_identity_ban pubkey (ban_end_unix unix)) db |}.

Definition record_ip_strike (now : Z) (unix : option Z) (fault : bool) (id_fault : PeerId -> bool) (ip : IpAddr) (identity : option PeerId)
    (a : Abuse) : bool * Abuse :=
  let m := make_room ip (sweep_abuse now (ip_abuse a)) in
  let entry := default {| strikes := 0; banned_until := None; last_strike := now |} (m !! ip) in
  let entry := if decayed now entry then {| strikes := 0; banned_until := None; last_strike := last_strike entry |} else entry in
  let n := (strikes entry + 1) mod 2 ^ 32 in
  if IP_BAN_STRIKE_THRESHOLD <=? n then
    let entry := {| strikes := n; banned_until := Some (now + IP_BAN_DURATION_SECS * NANOS); last_strike := now |} in
    let a := {| ip_abuse := <[ip := entry]> m; identity_bans := identity_bans a;
                ban_db := persist fault (put_ip_ban ip (ban_end_unix unix)) (ban_db a) |} in
    (true, match identity with Some pk => ban_identity now unix id_fault pk a | None => a end)
  else
    (false, {| ip_abuse := <[ip := {| strikes := n; banned_until := banned_until entry; last_strike := now |}]> m;
               identity_bans := identity_bans a; ban_db := ban_db a |}).

Definition is_ip_banned (now : Z) (fault : bool) (ip : IpAddr) (a : Abuse) : bool * Abuse :=
  match ip_abuse a !! ip with
  | Some e =>
      match banned_until e with
      | Some until =>
          if until <=? now
          then (false, {| ip_abuse := delete ip (ip_abuse a); identity_bans := identity_bans a; ban_db := persist fault (remove_ip_ban ip) (ban_db a) |})
          else (true, a)
      | None =>
          (false, if decayed now e then {| ip_abuse := delete ip (ip_abuse a); identity_bans := identity_bans a; ban_db := ban_db a |} else a)
      end
  | None => (false, a)
  end.
Definition is_identity_banned (now : Z) (fault : bool) (pk : PeerId) (a : Abuse) : bool * Abuse :=
  match identity_bans a !! pk with
  | Some until =>
      if until <=? now
      then (false, {| ip_abuse := ip_abuse a; identity_bans := delete pk (identity_bans a); ban_db := persist fault (remove_identity_ban pk) (ban_db a) |})
      else (true, a)
  | None => (false, a)
  end.

(** ** Bans at start-up ([src/main.rs]) *)

(** Loading one of the tables: whether it can be read, whether the removal of
    expired rows fails, the wall clock in [load_ip_bans] or [load_identity_bans]
    and after it, and the monotonic clock. *)
Record BanLoad := { bl_unreadable : bool; bl_cleanup_fault : bool; bl_unix_db : Z; bl_unix : Z; bl_now : Z }.
(** [Instant + Duration::from_secs]: [None] is the panic beyond the range of an
    [Instant], whose seconds are a signed 64-bit number. *)
Definition instant_add (now secs : Z) : option Z := if now + secs * NANOS <? 2 ^ 63 * NANOS then Some (now + secs * NANOS) else None.
(** The loop over the rows: bans that are over by now are left out, and the number
    of entries is not limited. *)
Fixpoint restored_rows {K V} `{Countable K} (now_unix now : Z) (entry : Z -> V) (bans : list (K * Z)) (m : gmap K V) : option (gmap K V) :=
  match bans with
  | [] => Some m
  | ban :: bans =>
      let remaining := saturating_sub (snd ban) now_unix in
      if 0 <? remaining then
        let! until := instant_add now remaining in
        restored_rows now_unix now entry bans (<[fst ban := entry until]> m)
      else restored_rows now_unix now entry bans m
  end.
Definition restore_ip_bans (l : BanLoad) (db : ChainStorage) : option (gmap IpAddr IpAbuseEntry * ChainStorage) :=
  if bl_unreadable l then Some (∅, db)
  else
    let '(bans, db) := load_ip_bans (bl_cleanup_fault l) (bl_unix_db l) db in
    let! m := restored_rows (bl_unix l) (bl_now l) (fun until => {| strikes := 10; banned_until := Some until; last_strike := bl_now l |}) bans ∅ in
    Some (m, db).
Definition restore_identity_bans (l : BanLoad) (db : ChainStorage) : option (gmap PeerId Z * ChainStorage) :=
  if bl_unreadable l then Some (∅, db)
  else
    let '(bans, db) := load_identity_bans (bl_cleanup_fault l) (bl_unix_db l) db in
    let! m := restored_rows (bl_unix l) (bl_now l) (fun until => until) bans ∅ in
    Some (m, db).
(** [--purge-bans] clears both tables first; the node does not start if it cannot.
    The flags say which of the two fails. *)
Definition purge (purge_bans ip_fault id_fault : bool) (db : ChainStorage) : result StorageError ChainStorage :=
  if purge_bans then
    let '(r, db) := clear_ip_bans ip_fault db in
    let? _ := r in
    let '(r, db) := clear_identity_bans id_fault db in
    let? _ := r in Ok db
  else Ok db.
Definition restore_bans (purge_bans ip_fault id_fault : bool) (ips ids : BanLoad) (db : ChainStorage) : option (result StorageError Abuse) :=
  match purge purge_bans ip_fault id_fault db with
  | Err e => Some (Err e)
  | Ok db =>
      let! (ip_abuse, db) := restore_ip_bans ips db in
      let! (identity_bans, db) := restore_identity_bans ids db in
      Some (Ok {| ip_abuse := ip_abuse; identity_bans := identity_bans; ban_db := db |})
  end.

(** ** The address book *)

Record AddrInfo := {
  entry : AddrEntry; last_attempt : option Z; last_success : option Z; fail_count : Z; sources : gset PeerId; contributed_by : option IpAddr
}.
Abbreviation AddrBook := (gmap SocketAddr AddrInfo).

Definition subnet16 (ip : IpAddr) : bytes := match ip with V4 o => take 2 o | V6 o => take 2 o end.
Definition seen_at (i : AddrInfo) : Z := last_seen (entry i).
Definition contributions (ip : IpAddr) (book : AddrBook) : Z :=
  Z.of_nat (length (filter (fun kv => contributed_by (snd kv) = Some ip) (map_to_list book))).
Definition subnet_count (net : bytes) (book : AddrBook) : Z :=
  Z.of_nat (length (filter (fun kv => subnet16 (sock_ip (fst kv)) = net) (map_to_list book))).
(** A full book loses the entry that was seen longest ago. *)
Definition evict_oldest (book : AddrBook) : AddrBook :=
  if MAX_ADDR_BOOK_SIZE <=? Z.of_nat (size book)
  then match least seen_at (fun _ => true) book with Some old => delete old book | None => book end
  else book.
Definition peer_contribution_cap : Z := MAX_ADDR_BOOK_SIZE * MAX_ADDR_BOOK_PEER_FRACTION_NUM / MAX_ADDR_BOOK_PEER_FRACTION_DEN.

Record Merge := { mg_book : AddrBook; mg_accepted : Z; mg_new : Z }.
Definition plausible (now_unix : Z) (e : AddrEntry) : bool :=
  is_routable (addr e) && negb (now_unix + 600 <? last_seen e) && negb ((last_seen e <? now_unix) && (86400 <? now_unix - last_seen e)).
Definition announce (peer : PeerId) (e : AddrEntry) (i : AddrInfo) : AddrInfo := {|
  entry := {| addr := addr (entry i); last_seen := if seen_at i <? last_seen e then last_seen e else seen_at i |};
  last_attempt := last_attempt i; last_success := last_success i; fail_count := fail_count i;
  sources := {[peer]} ∪ sources i; contributed_by := contributed_by i |}.
Fixpoint merge_entries (now_unix : Z) (peer_ip : IpAddr) (peer : PeerId) (before : Z) (entries : list AddrEntry) (m : Merge) : Merge :=
  match entries with
  | [] => m
  | e :: entries =>
      let continue := merge_entries now_unix peer_ip peer before entries in
      if MAX_ADDR_PER_MSG_ACCEPT <=? mg_accepted m then m
      else if negb (plausible now_unix e) then continue m
      else match mg_book m !! addr e with
           | Some i => continue {| mg_book := <[addr e := announce peer e i]> (mg_book m); mg_accepted := mg_accepted m + 1; mg_new := mg_new m |}
           | None =>
               if peer_contribution_cap <=? before + mg_new m then m
               else if MAX_ADDR_BOOK_PER_SUBNET16 <=? subnet_count (subnet16 (sock_ip (addr e))) (mg_book m) then continue m
               else continue {|
                 mg_book := <[addr e := {| entry := e; last_attempt := None; last_success := None; fail_count := 0;
                                           sources := {[peer]}; contributed_by := Some peer_ip |}]> (evict_oldest (mg_book m));
                 mg_accepted := mg_accepted m + 1; mg_new := mg_new m + 1 |}
           end
  end.
(** The new book, and how many addresses were new. *)
Definition merge_addr_entries (unix : option Z) (entries : list AddrEntry) (peer_ip : IpAddr) (peer : PeerId) (book : AddrBook) : Z * AddrBook :=
  let m := merge_entries (default 0 unix) peer_ip peer (contributions peer_ip book) entries {| mg_book := book; mg_accepted := 0; mg_new := 0 |} in
  (mg_new m, mg_book m).

Definition addr_book_record_success (now : Z) (unix : option Z) (a : SocketAddr) (book : AddrBook) : AddrBook :=
  if negb (is_routable a) then book
  else match book !! a with
       | Some i => <[a := {| entry := {| addr := addr (entry i); last_seen := default 0 unix |}; last_attempt := last_attempt i;
                             last_success := Some now; fail_count := 0; sources := sources i; contributed_by := contributed_by i |}]> book
       | None => <[a := {| entry := {| addr := a; last_seen := default 0 unix |}; last_attempt := None; last_success := Some now;
                           fail_count := 0; sources := ∅; contributed_by := None |}]> (evict_oldest book)
       end.
Definition addr_book_record_failure (now : Z) (a : SocketAddr) (book : AddrBook) : AddrBook :=
  alter (fun i => {| entry := entry i; last_attempt := Some now; last_success := last_success i;
                     fail_count := saturating_add U32_MAX (fail_count i) 1; sources := sources i; contributed_by := contributed_by i |}) a book.
Definition flush_addr_book (fault : bool) (book : AddrBook) (db : ChainStorage) : ChainStorage :=
  persist fault (put_known_addrs (map (fun kv => (addr (entry (snd kv)), seen_at (snd kv))) (walk book))) db.

(** Choosing an address to dial. *)
Definition in_backoff (now : Z) (i : AddrInfo) : bool :=
  from_option (fun t => now <? t + Z.min (saturating_mul U64_MAX 5 (2 ^ Z.min (fail_count i) 20)) 3600 * NANOS) false (last_attempt i).
Definition succeeded (i : AddrInfo) : bool := bool_decide (is_Some (last_success i)).
Definition source_count (i : AddrInfo) : Z := Z.of_nat (size (sources i)) mod 2 ^ 32.
(** The comparison of tuples: more sources, then fewer failures. *)
Definition is_better (i cur : AddrInfo) : bool :=
  if negb (Bool.eqb (succeeded i) (succeeded cur)) then succeeded i
  else (source_count cur <? source_count i) ||
       ((source_count cur =? source_count i) && (U32_MAX - fail_count cur <? U32_MAX - fail_count i)).
Definition proven (i : AddrInfo) : bool := (MIN_ADDR_SOURCES_FOR_CONNECT <=? source_count i) || succeeded i.
Definition improve (best : option (SocketAddr * AddrInfo)) (kv : SocketAddr * AddrInfo) : option (SocketAddr * AddrInfo) :=
  match best with
  | None => Some kv
  | Some cur => if is_better (snd kv) (snd cur) then Some kv else best
  end.
Definition consider (now : Z) (acc : option (SocketAddr * AddrInfo) * option (SocketAddr * AddrInfo)) (kv : SocketAddr * AddrInfo)
  : option (SocketAddr * AddrInfo) * option (SocketAddr * AddrInfo) :=
  if in_backoff now (snd kv) then acc
  else if proven (snd kv) then (improve (fst acc) kv, snd acc) else (fst acc, improve (snd acc) kv).
Definition addr_book_select_for_connect (now : Z) (book : AddrBook) : option SocketAddr :=
  let '(best, fallback) := fold_left (consider now) (walk book) (None, None) in
  fst <$> (match best with Some b => Some b | None => fallback end).

(** The sample for a peer: shuffled from the end, with [pick i] in [0..=i]. *)
Definition swap {A} (i j : nat) (l : list A) : list A :=
  match l !! i, l !! j with Some x, Some y => <[j := x]> (<[i := y]> l) | _, _ => l end.
Fixpoint shuffle {A} (pick : nat -> nat) (i : nat) (l : list A) : list A :=
  match i with O => l | S k => shuffle pick k (swap i (pick i) l) end.
Definition addr_book_sample (pick : nat -> nat) (n : nat) (book : AddrBook) : list AddrEntry :=
  let entries := map (fun kv => entry (snd kv)) (filter (fun kv => is_routable (addr (entry (snd kv))) = true) (walk book)) in
  take n (shuffle pick (pred (length entries)) entries).
End Policy.
