(* ===== verification/PolicyFacts.v ===== *)
(** * What the peer policies guarantee

    The address book stays within its limits whatever peers announce, an address is
    dialled only out of its backoff and from the proven ones first, the tables of
    strikes and bans do not grow beyond their limit or the number of bans restored
    at start-up, stored bans are restored, a ban holds until it expires, and a limit
    per minute is at most doubled over any minute. *)

From S2P Require Import Prelude Bytes Codec Hash Transaction Block Wire Utxo Storage PeerRegistry PeerPolicy.
#[local] Open Scope Z_scope.
#[local] Open Scope list_scope.

(** ** Counting the entries of a map *)

Section Counting.
Context {K V : Type} `{Countable K}.
Variable P : K * V -> Prop.
Context `{!forall kv, Decision (P kv)}.

Definition entries_where (m : gmap K V) : Z := Z.of_nat (length (filter P (map_to_list m))).
Lemma where_fresh m k v : m !! k = None -> entries_where (<[k := v]> m) = (if decide (P (k, v)) then 1 else 0) + entries_where m.
Proof.
  intros Hm. unfold entries_where. rewrite (Permutation_length (filter_Permutation _ _ _ (map_to_list_insert m k v Hm))), filter_cons.
  case_decide; cbn [length]; lia.
Qed.
Lemma where_delete m k v : m !! k = Some v -> entries_where m = (if decide (P (k, v)) then 1 else 0) + entries_where (delete k m).
Proof. intros Hm. rewrite <- (where_fresh (delete k m)) by apply lookup_delete_eq. by rewrite insert_delete_id. Qed.
Lemma where_delete_le m k : entries_where (delete k m) <= entries_where m.
Proof.
  destruct (m !! k) as [v|] eqn:E; [|by rewrite delete_id]. rewrite (where_delete m k v E). case_decide; lia.
Qed.
Lemma where_update m k v v' : m !! k = Some v -> (P (k, v') -> P (k, v)) -> entries_where (<[k := v']> m) <= entries_where m.
Proof.
  intros Hm Hp. rewrite <- insert_delete_eq, where_fresh by apply lookup_delete_eq. rewrite (where_delete m k v Hm).
  repeat case_decide; first [lia|tauto].
Qed.
Lemma where_nonneg m : 0 <= entries_where m.
Proof. unfold entries_where. lia. Qed.
End Counting.
Lemma where_impl {K V} `{Countable K} (P Q : K * V -> Prop) `{!forall kv, Decision (P kv)} `{!forall kv, Decision (Q kv)} (m : gmap K V) :
  (forall kv, P kv -> Q kv) -> entries_where P m <= entries_where Q m.
Proof.
  intros HPQ. unfold entries_where. induction (map_to_list m) as [|x l IH]; [done|]. rewrite !filter_cons.
  repeat case_decide; cbn [length]; try lia. naive_solver.
Qed.

(** ** Minima *)

Lemma min_by_key_spec {A} (f : A -> Z) l :
  match min_by_key f l with
  | Some x => x ∈ l /\ forall y, y ∈ l -> f x <= f y
  | None => l = []
  end.
Proof.
  induction l as [|x l IH]; [done|]. cbn. destruct (min_by_key f l) as [y|].
  - destruct IH as [Hy Hmin]. destruct (Z.ltb_spec (f y) (f x)).
    + split; [by right|]. intros z Hz. apply elem_of_cons in Hz as [->|Hz]; [lia|by apply Hmin].
    + split; [left|]. intros z Hz. apply elem_of_cons in Hz as [->|Hz]; [lia|]. apply Hmin in Hz. lia.
  - subst l. split; [left|]. intros z Hz. apply elem_of_cons in Hz as [->|Hz]; [lia|by apply not_elem_of_nil in Hz].
Qed.

Section Policies.
Variable walk : forall {K V} `{Countable K}, gmap K V -> list (K * V).
Hypothesis walk_ok : forall K V (HE : EqDecision K) (HC : Countable K) (m : gmap K V), walk m ≡ₚ map_to_list m.

Lemma least_spec {K V} `{Countable K} (f : V -> Z) (keep : V -> bool) (m : gmap K V) :
  match least (@walk) f keep m with
  | Some k => exists v, m !! k = Some v /\ keep v = true
  | None => forall k v, m !! k = Some v -> keep v = false
  end.
Proof.
  unfold least. pose proof (min_by_key_spec (fun kv : K * V => f (snd kv)) (filter (fun kv => keep (snd kv) = true) (walk m))) as Hm.
  destruct (min_by_key _ _) as [[k v]|]; cbn.
  - destruct Hm as [Hin _]. apply list_elem_of_filter in Hin as [Hk Hin]. rewrite walk_ok in Hin. apply elem_of_map_to_list in Hin. eauto.
  - intros k v Hkv. apply not_true_iff_false. intros Hk. assert ((k, v) ∈ filter (fun kv => keep (snd kv) = true) (walk m)) as Hin.
    { apply list_elem_of_filter. split; [done|]. rewrite walk_ok. by apply elem_of_map_to_list. }
    rewrite Hm in Hin. by apply not_elem_of_nil in Hin.
Qed.
Lemma size_delete {K V} `{Countable K} (m : gmap K V) k : is_Some (m !! k) -> Z.of_nat (size (delete k m)) = Z.of_nat (size m) - 1.
Proof. intros Hk. rewrite map_size_delete_Some by done. destruct (m !! k) eqn:E; [|by destruct Hk]. assert (size m <> 0)%nat; [|lia]. intros Hz. apply map_size_empty_inv in Hz. by rewrite Hz, lookup_empty in E. Qed.

(** ** The address book *)

Definition gossip_from (net : bytes) (kv : SocketAddr * AddrInfo) : Prop := subnet16 (sock_ip (fst kv)) = net /\ is_Some (contributed_by (snd kv)).
#[local] Instance gossip_from_dec net kv : Decision (gossip_from net kv).
Proof. unfold gossip_from. apply _. Defined.
Abbreviation from_peer ip := (fun kv : SocketAddr * AddrInfo => contributed_by (snd kv) = Some ip).

Record book_ok (b : gmap SocketAddr AddrInfo) : Prop := {
  bk_size : Z.of_nat (size b) <= MAX_ADDR_BOOK_SIZE;
  bk_peer ip : contributions ip b <= peer_contribution_cap;
  bk_net net : entries_where (gossip_from net) b <= MAX_ADDR_BOOK_PER_SUBNET16;
  bk_addr a i : b !! a = Some i -> is_routable a = true /\ addr (entry i) = a
}.

Lemma evict_oldest_spec b :
  book_ok b ->
  Z.of_nat (size (evict_oldest (@walk) b)) < MAX_ADDR_BOOK_SIZE /\ evict_oldest (@walk) b ⊆ b /\
  (forall ip, contributions ip (evict_oldest (@walk) b) <= contributions ip b) /\
  (forall net, entries_where (gossip_from net) (evict_oldest (@walk) b) <= entries_where (gossip_from net) b).
Proof.
  intros [Hs _ _ _]. unfold evict_oldest. destruct (Z.leb_spec MAX_ADDR_BOOK_SIZE (Z.of_nat (size b))) as [Hle|Hlt]; [|split_and!; [done|done|done|done]].
  pose proof (least_spec seen_at (fun _ => true) b) as Hl. destruct (least _ _ _ b) as [k|].
  - destruct Hl as (v & Hv & _). split_and!.
    + rewrite size_delete by (rewrite Hv; done). lia.
    + apply delete_subseteq.
    + intros ip. apply (where_delete_le (from_peer ip)).
    + intros net. apply where_delete_le.
  - exfalso. assert (b = ∅) as ->; [|rewrite map_size_empty in Hle; unfold MAX_ADDR_BOOK_SIZE in Hle; lia].
    apply map_empty. intros k. destruct (b !! k) as [v|] eqn:E; [|done]. by specialize (Hl k v E).
Qed.
Lemma size_insert_le {K V} `{Countable K} (m : gmap K V) k v : Z.of_nat (size (<[k := v]> m)) <= Z.of_nat (size m) + 1.
Proof. rewrite map_size_insert. destruct (m !! k); simpl; lia. Qed.

(** A new entry, after making room. *)
Lemma book_insert b a i :
  book_ok b -> b !! a = None -> is_routable a = true -> addr (entry i) = a ->
  (forall ip, contributed_by i = Some ip -> contributions ip b < peer_contribution_cap) ->
  (is_Some (contributed_by i) -> subnet_count (subnet16 (sock_ip a)) b < MAX_ADDR_BOOK_PER_SUBNET16) ->
  book_ok (<[a := i]> (evict_oldest (@walk) b)) /\
  forall ip, contributions ip (<[a := i]> (evict_oldest (@walk) b)) <= contributions ip b + if decide (contributed_by i = Some ip) then 1 else 0.
Proof.
  intros Hb Hn Hr Ha Hp Hnet. destruct (evict_oldest_spec b Hb) as (Hs & Hsub & Hc & Hg). set (b' := evict_oldest _ b) in *.
  assert (b' !! a = None) as Hn'. { destruct (b' !! a) as [x|] eqn:E; [|done]. apply (lookup_weaken _ _ _ _ E) in Hsub. congruence. }
  assert (forall ip, contributions ip (<[a := i]> b') <= contributions ip b + if decide (contributed_by i = Some ip) then 1 else 0) as Hall.
  { intros ip. specialize (Hc ip). change (entries_where (from_peer ip) (<[a := i]> b') <= contributions ip b + if decide (contributed_by i = Some ip) then 1 else 0).
    rewrite where_fresh by done. change (entries_where (from_peer ip) b') with (contributions ip b'). cbn [snd]. repeat case_decide; first [lia|congruence]. }
  split; [|done]. pose proof Hb as [_ Hp0 Hn0 Ha0]. constructor.
  - pose proof (size_insert_le b' a i). lia.
  - intros ip. specialize (Hall ip). specialize (Hp0 ip). specialize (Hp ip). case_decide; [|lia]. specialize (Hp ltac:(done)). lia.
  - intros net. specialize (Hg net). specialize (Hn0 net). rewrite where_fresh by done. case_decide as Hd; [|lia].
    destruct Hd as [<- Hsome]. cbn in Hsome. specialize (Hnet Hsome).
    pose proof (where_impl (gossip_from (subnet16 (sock_ip a))) (fun kv => subnet16 (sock_ip (fst kv)) = subnet16 (sock_ip a)) b ltac:(by intros kv [? _])) as Hi.
    change (entries_where (fun kv => subnet16 (sock_ip (fst kv)) = subnet16 (sock_ip a)) b) with (subnet_count (subnet16 (sock_ip a)) b) in Hi. cbn [fst] in *. lia.
  - intros a' i'. rewrite lookup_insert_Some. intros [[<- <-]|[_ Hl]]; [done|]. apply Ha0. by eapply lookup_weaken.
Qed.
(** A known entry changes, not its origin. *)
Lemma book_update b a i i' :
  book_ok b -> b !! a = Some i -> contributed_by i' = contributed_by i -> addr (entry i') = addr (entry i) ->
  book_ok (<[a := i']> b) /\ forall ip, contributions ip (<[a := i']> b) <= contributions ip b.
Proof.
  intros Hb Hi Hc Ha. assert (forall ip, contributions ip (<[a := i']> b) <= contributions ip b) as Hall.
  { intros ip. apply (where_update (from_peer ip) b a i i'); [done|]. cbn. by rewrite Hc. }
  split; [|done]. destruct Hb as [Hs Hp Hn Hb]. constructor.
  - by rewrite (map_size_insert_Some _ _ _ (mk_is_Some _ _ Hi)).
  - intros ip. specialize (Hall ip). specialize (Hp ip). lia.
  - intros net. pose proof (where_update (gossip_from net) b a i i' Hi) as Hu. specialize (Hn net).
    assert (entries_where (gossip_from net) (<[a := i']> b) <= entries_where (gossip_from net) b); [|lia]. apply Hu. unfold gossip_from. cbn. by rewrite Hc.
  - intros a' x. rewrite lookup_insert_Some. intros [[<- <-]|[_ Hl]]; [|by apply Hb]. destruct (Hb a i Hi). split; [done|congruence].
Qed.

Lemma merge_entries_ok unix ip peer before es m :
  book_ok (mg_book m) -> contributions ip (mg_book m) <= before + mg_new m -> mg_new m <= mg_accepted m <= MAX_ADDR_PER_MSG_ACCEPT ->
  let m' := merge_entries (@walk) unix ip peer before es m in book_ok (mg_book m') /\ mg_new m' <= mg_accepted m' <= MAX_ADDR_PER_MSG_ACCEPT.
Proof.
  revert m. induction es as [|e es IH]; intros m Hb Hc Ha; cbv zeta; cbn [merge_entries]; [done|].
  destruct (Z.leb_spec MAX_ADDR_PER_MSG_ACCEPT (mg_accepted m)) as [|Hlt]; [done|].
  destruct (plausible unix e) eqn:Ep; cbn [negb]; [|by apply IH]. unfold plausible in Ep. apply andb_true_iff in Ep as [Ep _]. apply andb_true_iff in Ep as [Er _].
  destruct (mg_book m !! addr e) as [i|] eqn:E.
  - destruct (bk_addr _ Hb _ _ E) as [_ Hai].
    destruct (book_update (mg_book m) (addr e) i (announce peer e i) Hb E eq_refl eq_refl) as [Hb' Hc'].
    apply IH; cbn [mg_book mg_accepted mg_new]; [done| |lia]. specialize (Hc' ip). lia.
  - destruct (Z.leb_spec peer_contribution_cap (before + mg_new m)) as [|Hcap]; [done|].
    destruct (Z.leb_spec MAX_ADDR_BOOK_PER_SUBNET16 (subnet_count (subnet16 (sock_ip (addr e))) (mg_book m))) as [|Hnet]; [by apply IH|].
    destruct (book_insert (mg_book m) (addr e) {| entry := e; last_attempt := None; last_success := None; fail_count := 0; sources := {[peer]}; contributed_by := Some ip |})
      as [Hb' Hc']; [done|done|done|done|cbn; intros ip' [= <-]; lia|done|].
    apply IH; cbn [mg_book mg_accepted mg_new]; [done| |lia]. specialize (Hc' ip). cbn in Hc'. rewrite decide_True in Hc' by done. lia.
Qed.

Inductive book_step : gmap SocketAddr AddrInfo -> gmap SocketAddr AddrInfo -> Prop :=
| book_merge unix es ip peer b : book_step b (snd (merge_addr_entries (@walk) unix es ip peer b))
| book_success now unix a b : book_step b (addr_book_record_success (@walk) now unix a b)
| book_failure now a b : book_step b (addr_book_record_failure now a b).

Lemma book_step_ok b b' : book_step b b' -> book_ok b -> book_ok b'.
Proof.
  intros Hs Hb. destruct Hs as [unix es ip peer b|now unix a b|now a b].
  - unfold merge_addr_entries. cbn [snd]. apply merge_entries_ok; cbn [mg_book mg_accepted mg_new]; [done|lia|unfold MAX_ADDR_PER_MSG_ACCEPT; lia].
  - unfold addr_book_record_success. destruct (is_routable a) eqn:Er; [|done]. cbn [negb]. destruct (b !! a) as [i|] eqn:E.
    + eapply book_update; [done|exact E|done|done].
    + apply book_insert; try done. cbn. by intros [? ?].
  - unfold addr_book_record_failure. destruct (b !! a) as [i|] eqn:E.
    + assert (forall f, alter f a b = <[a := f i]> b) as ->.
      { intros f. apply map_eq. intros j. destruct (decide (j = a)) as [->|]; [by rewrite lookup_alter_eq, lookup_insert_eq, E|by rewrite lookup_alter_ne, lookup_insert_ne]. }
      eapply book_update; [done|exact E|done|done].
    + assert (forall f, alter f a b = b) as ->; [|done].
      intros f. apply map_eq. intros j. destruct (decide (j = a)) as [->|]; [by rewrite lookup_alter_eq, E|by rewrite lookup_alter_ne].
Qed.
Lemma book_reachable b b' : rtc book_step b b' -> book_ok b -> book_ok b'.
Proof. intros Hr. induction Hr as [|x y z Hs _ IH]; [done|]. intros Hx. apply IH. by eapply book_step_ok. Qed.
Lemma book_empty_ok : book_ok ∅.
Proof.
  constructor.
  - rewrite map_size_empty. done.
  - intros ip. unfold contributions. rewrite map_to_list_empty. done.
  - intros net. unfold entries_where. rewrite map_to_list_empty. done.
  - intros a i Hl. by rewrite lookup_empty in Hl.
Qed.

(** ** Choosing an address *)

Definition eligible (now : Z) (i : AddrInfo) : Prop := in_backoff now i = false.
(** What the loop knows after the entries [l]: the best of each class is an
    eligible entry of [l], and is there if the class has any. *)
Definition class_ok (now : Z) (cls : bool) (l : list (SocketAddr * AddrInfo)) (o : option (SocketAddr * AddrInfo)) : Prop :=
  match o with
  | Some kv => kv ∈ l /\ eligible now (snd kv) /\ proven (snd kv) = cls
  | None => forall kv, kv ∈ l -> eligible now (snd kv) -> proven (snd kv) <> cls
  end.
Lemma improve_ok now cls l o kv : eligible now (snd kv) -> proven (snd kv) = cls -> class_ok now cls l o -> class_ok now cls (l ++ [kv]) (improve o kv).
Proof.
  intros He Hp Ho. assert (kv ∈ l ++ [kv]) by (apply elem_of_app; right; left). destruct o as [cur|]; cbn [improve]; [destruct (is_better _ _)|]; cbn; [done| |done].
  destruct Ho as (Hin & ? & ?). split_and!; [apply elem_of_app; by left|done|done].
Qed.
Lemma class_skip now cls l o kv : (eligible now (snd kv) -> proven (snd kv) <> cls) -> class_ok now cls l o -> class_ok now cls (l ++ [kv]) o.
Proof.
  intros Hn Ho. destruct o as [cur|]; cbn in *.
  - destruct Ho as (Hin & ? & ?). split_and!; [apply elem_of_app; by left|done|done].
  - intros x Hx. apply elem_of_app in Hx as [Hx|Hx]; [by apply Ho|]. apply list_elem_of_singleton in Hx as ->. done.
Qed.
Lemma consider_ok now l : class_ok now true l (fst (fold_left (consider now) l (None, None))) /\ class_ok now false l (snd (fold_left (consider now) l (None, None))).
Proof.
  induction l as [|kv l [IH1 IH2]] using rev_ind; [split; intros kv Hkv; by apply not_elem_of_nil in Hkv|].
  rewrite fold_left_app. cbn [fold_left]. unfold consider at 1 3. destruct (in_backoff now (snd kv)) eqn:Eb.
  - split; (apply class_skip; [unfold eligible; congruence|done]).
  - destruct (proven (snd kv)) eqn:Ep; cbn [fst snd]; split;
      first [apply improve_ok; [exact Eb|exact Ep|done]|apply class_skip; [intros _; congruence|done]].
Qed.
(** An address in backoff is not dialled, an unproven one only without a proven
    one, and there is an address unless all are in backoff. *)
Theorem select_prefers_proven now book :
  match addr_book_select_for_connect (@walk) now book with
  | Some a => exists i, book !! a = Some i /\ eligible now i /\
      (proven i = true \/ forall a' i', book !! a' = Some i' -> eligible now i' -> proven i' = false)
  | None => forall a i, book !! a = Some i -> in_backoff now i = true
  end.
Proof.
  unfold addr_book_select_for_connect. pose proof (consider_ok now (walk book)) as [H1 H2].
  destruct (fold_left (consider now) (walk book) (None, None)) as [best fallback]. cbn [fst snd] in *.
  assert (forall a i, book !! a = Some i -> (a, i) ∈ walk book) as Hin by (intros; rewrite walk_ok; by apply elem_of_map_to_list).
  assert (forall kv, kv ∈ walk book -> book !! fst kv = Some (snd kv)) as Hout by (intros [a i] Hx; rewrite walk_ok in Hx; by apply elem_of_map_to_list in Hx).
  destruct best as [[a i]|]; cbn [fmap option_fmap option_map fst].
  - destruct H1 as (Hx & He & Hp). apply Hout in Hx. exists i. split_and!; [done|done|by left].
  - destruct fallback as [[a i]|]; cbn.
    + destruct H2 as (Hx & He & Hp). apply Hout in Hx. exists i. split_and!; [done|done|]. right. intros a' i' Hi' He'.
      specialize (H1 _ (Hin _ _ Hi') He'). cbn in H1. by destruct (proven i').
    + intros a i Hi. destruct (in_backoff now i) eqn:E; [done|]. specialize (H1 _ (Hin _ _ Hi) E). specialize (H2 _ (Hin _ _ Hi) E). cbn in *. by destruct (proven i).
Qed.

(** ** Bans *)

Abbreviation abuse_map := (gmap IpAddr IpAbuseEntry).
Lemma evict_unbanned_spec fuel now (m : abuse_map) :
  evict_unbanned (@walk) fuel now m ⊆ m /\ (forall ip e, m !! ip = Some e -> ban_active now e = true -> evict_unbanned (@walk) fuel now m !! ip = Some e).
Proof.
  revert m. induction fuel as [|fuel IH]; intros m; cbn [evict_unbanned]; [done|]. destruct (_ <=? _); [|done].
  pose proof (least_spec last_strike (fun e => negb (ban_active now e)) m) as Hl. destruct (least _ _ _ m) as [k|]; [|done].
  destruct Hl as (v & Hv & Hk). destruct (IH (delete k m)) as [Hsub Hkeep]. split.
  - etrans; [exact Hsub|]. apply delete_subseteq.
  - intros ip e He Hb. apply Hkeep; [|done]. rewrite lookup_delete_ne; [done|]. intros ->. rewrite Hv in He. injection He as ->. by rewrite Hb in Hk.
Qed.
Lemma sweep_spec now (m : abuse_map) :
  sweep_abuse (@walk) now m ⊆ m /\ (forall ip e, m !! ip = Some e -> ban_active now e = true -> sweep_abuse (@walk) now m !! ip = Some e).
Proof.
  unfold sweep_abuse. destruct (_ <=? _); [|done]. set (m' := filter _ m). destruct (evict_unbanned_spec (size m') now m') as [Hsub Hkeep]. split.
  - etrans; [exact Hsub|]. apply map_filter_subseteq.
  - intros ip e He Hb. apply Hkeep; [|done]. unfold m'. apply map_lookup_filter_Some. split; [done|]. cbn. rewrite Hb. by rewrite orb_true_r.
Qed.
Lemma make_room_spec ip (m : abuse_map) n :
  MAX_IP_ABUSE_ENTRIES <= n -> Z.of_nat (size m) <= n ->
  Z.of_nat (size (make_room (@walk) ip m)) <= n /\
  (is_Some (make_room (@walk) ip m !! ip) \/ Z.of_nat (size (make_room (@walk) ip m)) < n).
Proof.
  intros Hn Hs. unfold make_room. destruct (Z.leb_spec MAX_IP_ABUSE_ENTRIES (Z.of_nat (size m))) as [Hle|Hlt]; cbn [andb]; [|split; [done|right; lia]].
  destruct (m !! ip) as [e|] eqn:E.
  { rewrite bool_decide_false by done. split; [done|]. left. by rewrite E. }
  rewrite bool_decide_true by done. pose proof (least_spec last_strike (fun _ => true) m) as Hl. destruct (least _ _ _ m) as [k|].
  - destruct Hl as (v & Hv & _). rewrite size_delete by (by rewrite Hv). split; [lia|right; lia].
  - exfalso. assert (m = ∅) as ->; [|rewrite map_size_empty in Hle; unfold MAX_IP_ABUSE_ENTRIES in Hle; lia].
    apply map_empty. intros k. destruct (m !! k) as [v|] eqn:E'; [|done]. by specialize (Hl k v E').
Qed.

(** Neither table is larger than the limit on strikes and bans or than the size it
    had at some earlier time, whichever is more. *)
Record tables_ok (ips ids : Z) (a : Abuse) : Prop := {
  tb_ips : Z.of_nat (size (ip_abuse a)) <= Z.max MAX_IP_ABUSE_ENTRIES ips;
  tb_ids : Z.of_nat (size (identity_bans a)) <= Z.max MAX_IDENTITY_BAN_ENTRIES ids
}.
Lemma evict_identities_spec fuel fault bans db :
  (size bans <= fuel)%nat ->
  Z.of_nat (size (fst (evict_identities (@walk) fuel fault bans db))) < MAX_IDENTITY_BAN_ENTRIES.
Proof.
  revert bans db. induction fuel as [|fuel IH]; intros bans db Hf; cbn [evict_identities].
  { cbn [fst]. unfold MAX_IDENTITY_BAN_ENTRIES. lia. }
  destruct (Z.leb_spec MAX_IDENTITY_BAN_ENTRIES (Z.of_nat (size bans))) as [Hle|Hlt]; [|done].
  pose proof (least_spec (fun t => t) (fun _ => true) bans) as Hl. destruct (least _ _ _ bans) as [pk|].
  - destruct Hl as (v & Hv & _). apply IH. pose proof (size_delete bans pk ltac:(by rewrite Hv)). lia.
  - exfalso. assert (bans = ∅) as ->; [|rewrite map_size_empty in Hle; unfold MAX_IDENTITY_BAN_ENTRIES in Hle; lia].
    apply map_empty. intros k. destruct (bans !! k) as [v|] eqn:E'; [|done]. by specialize (Hl k v E').
Qed.
Lemma ban_identity_spec now unix fault pk a :
  ip_abuse (ban_identity (@walk) now unix fault pk a) = ip_abuse a /\ (forall ips ids, tables_ok ips ids a -> tables_ok ips ids (ban_identity (@walk) now unix fault pk a)).
Proof.
  unfold ban_identity. destruct (bool_decide _); [done|]. set (pair := if MAX_IDENTITY_BAN_ENTRIES <=? _ then _ else _).
  assert (Z.of_nat (size (fst pair)) < MAX_IDENTITY_BAN_ENTRIES) as Hs.
  { unfold pair. destruct (Z.leb_spec MAX_IDENTITY_BAN_ENTRIES (Z.of_nat (size (identity_bans a)))) as [Hle|Hlt]; [|done]. by apply evict_identities_spec. }
  destruct pair as [bans db]. cbn [fst] in Hs. split; [done|]. intros ips ids [Hi _]. constructor; cbn [ip_abuse identity_bans]; [done|].
  pose proof (size_insert_le bans pk (now + IP_BAN_DURATION_SECS * NANOS)). lia.
Qed.

(** The table of addresses before the strike is entered. *)
Abbreviation prepared now ip a := (make_room (@walk) ip (sweep_abuse (@walk) now (ip_abuse a))).
Lemma strike_map now unix fault idf ip identity a : exists e,
  ip_abuse (snd (record_ip_strike (@walk) now unix fault idf ip identity a)) = <[ip := e]> (prepared now ip a) /\
  (forall ips ids, tables_ok ips ids a -> tables_ok ips ids (snd (record_ip_strike (@walk) now unix fault idf ip identity a))).
Proof.
  assert (forall e ips ids, tables_ok ips ids a -> Z.of_nat (size (<[ip := e]> (prepared now ip a))) <= Z.max MAX_IP_ABUSE_ENTRIES ips) as Hsize.
  { intros e ips ids [Hi _]. destruct (sweep_spec now (ip_abuse a)) as [Hsub _]. apply map_subseteq_size in Hsub.
    destruct (make_room_spec ip (sweep_abuse (@walk) now (ip_abuse a)) (Z.max MAX_IP_ABUSE_ENTRIES ips)) as [Hle [[x Hx]|Hlt]]; [lia|lia| |].
    - rewrite map_size_insert_Some by (by rewrite Hx). done.
    - pose proof (size_insert_le (prepared now ip a) ip e). lia. }
  unfold record_ip_strike. destruct (IP_BAN_STRIKE_THRESHOLD <=? _); cbn [snd].
  - destruct identity as [pk|].
    + set (a1 := {| ip_abuse := _; identity_bans := _; ban_db := _ |}). destruct (ban_identity_spec now unix idf pk a1) as [E Hok]. eexists. split; [rewrite E; reflexivity|].
      intros ips ids Ha. apply Hok. constructor; [by eapply Hsize|apply (tb_ids _ _ a Ha)].
    + eexists. split; [reflexivity|]. intros ips ids Ha. constructor; [by eapply Hsize|apply (tb_ids _ _ a Ha)].
  - eexists. split; [reflexivity|]. intros ips ids Ha. constructor; [by eapply Hsize|apply (tb_ids _ _ a Ha)].
Qed.

Inductive abuse_step : Abuse -> Abuse -> Prop :=
| abuse_strike now unix fault idf ip identity a : abuse_step a (snd (record_ip_strike (@walk) now unix fault idf ip identity a))
| abuse_check now fault ip a : abuse_step a (snd (is_ip_banned now fault ip a))
| abuse_check_id now fault pk a : abuse_step a (snd (is_identity_banned now fault pk a)).
Lemma size_delete_le {K V} `{Countable K} (m : gmap K V) k : (size (delete k m) <= size m)%nat.
Proof. apply map_subseteq_size, delete_subseteq. Qed.
Lemma abuse_step_ok ips ids a a' : abuse_step a a' -> tables_ok ips ids a -> tables_ok ips ids a'.
Proof.
  intros Hs Ha. destruct Hs as [now unix fault idf ip identity a|now fault ip a|now fault pk a].
  - destruct (strike_map now unix fault idf ip identity a) as (e & _ & Hok). by apply Hok.
  - unfold is_ip_banned. destruct Ha as [Hi Hd]. pose proof (size_delete_le (ip_abuse a) ip).
    destruct (ip_abuse a !! ip) as [e|]; [|done]. destruct (banned_until e) as [u|]; [destruct (u <=? now)|destruct (decayed now e)]; constructor; cbn; try done; lia.
  - unfold is_identity_banned. destruct Ha as [Hi Hd]. pose proof (size_delete_le (identity_bans a) pk).
    destruct (identity_bans a !! pk) as [u|]; [|done]. destruct (u <=? now); constructor; cbn; try done; lia.
Qed.

(** Steps before time [until] that do not strike [ip], on a table that is not full
    of active bans. *)
Inductive elsewhere (ip : IpAddr) (until : Z) : Abuse -> Abuse -> Prop :=
| else_strike now unix fault idf ip' identity a :
    ip' <> ip -> now < until ->
    Z.of_nat (size (sweep_abuse (@walk) now (ip_abuse a))) < MAX_IP_ABUSE_ENTRIES \/ is_Some (sweep_abuse (@walk) now (ip_abuse a) !! ip') ->
    elsewhere ip until a (snd (record_ip_strike (@walk) now unix fault idf ip' identity a))
| else_check now fault ip' a : now < until -> elsewhere ip until a (snd (is_ip_banned now fault ip' a))
| else_check_id now fault pk a : elsewhere ip until a (snd (is_identity_banned now fault pk a)).

Definition banned_for (ip : IpAddr) (until : Z) (a : Abuse) : Prop := exists e, ip_abuse a !! ip = Some e /\ banned_until e = Some until.
Lemma elsewhere_keeps ip until a a' : elsewhere ip until a a' -> banned_for ip until a -> banned_for ip until a'.
Proof.
  intros Hs (e & He & Hu). destruct Hs as [now unix fault idf ip' identity a Hne Hlt Hroom|now fault ip' a Hlt|now fault pk a].
  - destruct (strike_map now unix fault idf ip' identity a) as (x & Ex & _). exists e. rewrite Ex. rewrite lookup_insert_ne by done. split; [|done].
    assert (sweep_abuse (@walk) now (ip_abuse a) !! ip = Some e) as Hsw.
    { apply sweep_spec; [done|]. unfold ban_active. rewrite Hu. cbn. lia. }
    unfold make_room. destruct (Z.leb_spec MAX_IP_ABUSE_ENTRIES (Z.of_nat (size (sweep_abuse (@walk) now (ip_abuse a))))) as [Hle|]; [|done]. cbn [andb].
    rewrite bool_decide_false; [done|]. intros Hn. destruct Hroom as [?|[y Hy]]; [lia|]. by rewrite Hn in Hy.
  - unfold is_ip_banned. destruct (ip_abuse a !! ip') as [e'|] eqn:E'; [|by exists e]. destruct (decide (ip' = ip)) as [->|Hne].
    + rewrite He in E'. injection E' as <-. rewrite Hu. destruct (Z.leb_spec until now); [lia|]. by exists e.
    + destruct (banned_until e') as [u|]; [destruct (u <=? now)|destruct (decayed now e')]; cbn [snd]; exists e; cbn [ip_abuse]; by rewrite ?lookup_delete_ne.
  - unfold is_identity_banned. destruct (identity_bans a !! pk) as [u|]; [destruct (u <=? now)|]; by exists e.
Qed.

(** ** Bans that were stored *)

Section Restored.
Context {K V : Type} `{Countable K}.
Variables now_unix now : Z.
Variable entry : Z -> V.
#[local] Abbreviation enter := (restored_rows (K:=K) (V:=V) now_unix now entry).
Lemma enter_size bans m m' : enter bans m = Some m' -> (size m' <= length bans + size m)%nat.
Proof.
  revert m. induction bans as [|b bans IH]; intros m; cbn [restored_rows length]; [intros [= <-]; lia|]. destruct (0 <? _); [|intros E%IH; lia].
  destruct (instant_add _ _) as [until|]; [|done]. intros E%IH. pose proof (size_insert_le m (fst b) (entry until)). lia.
Qed.
Lemma enter_other bans m m' k : enter bans m = Some m' -> k ∉ bans.*1 -> m' !! k = m !! k.
Proof.
  revert m. induction bans as [|b bans IH]; intros m; cbn [restored_rows fmap list_fmap]; [by intros [= <-]|]. rewrite not_elem_of_cons. destruct (0 <? _); [|by intros E [_ ?]; apply IH].
  destruct (instant_add _ _) as [until|]; [|done]. intros E [Hne Hk]. rewrite (IH _ E Hk). by rewrite lookup_insert_ne.
Qed.
Lemma enter_row bans m m' k until : enter bans m = Some m' -> NoDup bans.*1 -> (k, until) ∈ bans -> now_unix < until -> m' !! k = Some (entry (now + (until - now_unix) * NANOS)).
Proof.
  revert m. induction bans as [|b bans IH]; intros m E Hnd Hin Hlt; [by apply not_elem_of_nil in Hin|]. apply NoDup_cons in Hnd as [Hb Hnd]. cbn [restored_rows] in E. apply elem_of_cons in Hin as [<-|Hin].
  - cbn [fst snd] in E. unfold saturating_sub in E. rewrite Z.max_r in E by lia. replace (0 <? until - now_unix) with true in E by lia. unfold instant_add in E.
    destruct (_ <? _); [|done]. rewrite (enter_other _ _ _ k E Hb). by rewrite lookup_insert_eq.
  - destruct (0 <? _); [|by eapply IH]. destruct (instant_add _ _); [|done]. by eapply IH.
Qed.
End Restored.
Lemma rows_keys t db : NoDup (table_rows t db).*1.
Proof. unfold table_rows. rewrite merge_sort_Permutation. apply NoDup_fst_map_to_list. Qed.
Lemma timed_keys t n db : (timed_rows t n db).*1 `sublist_of` (table_rows t db).*1.
Proof.
  unfold timed_rows. induction (table_rows t db) as [|r rows IH]; [done|]. cbn [omap list_omap fmap list_fmap]. destruct (_ && _); cbn [fmap list_fmap fst]; by constructor.
Qed.
Lemma load_bans_other fault t n unix db t' : t' <> t -> tables (snd (load_bans fault t n unix db)) t' = tables db t'.
Proof.
  intros Hne. unfold load_bans, write_txn. cbn [snd]. destruct fault; [done|]. cbn [snd]. generalize (map fst (filter (fun row => snd row <= unix) (timed_rows t n db))) as ks. intros ks.
  revert db. induction ks as [|k ks IH]; intros db; cbn [fold_left]; [done|]. rewrite IH. cbn. by rewrite decide_False.
Qed.
(** What is loaded from a table: rows under distinct keys, no more than there are. *)
Lemma loaded_rows fault t n unix db : let bans := fst (load_bans fault t n unix db) in
  NoDup bans.*1 /\ (length bans <= size (tables db t))%nat /\ Forall (fun row => len (fst row) = n) bans /\
  forall k until, table_get t k db = Some (le_bytes 8 until) -> len k = n -> unix < until < 2 ^ 64 -> 0 <= until -> (k, until) ∈ bans.
Proof.
  unfold load_bans. cbn [fst]. pose proof (timed_keys t n db) as Hsub. set (P := fun row : bytes * Z => unix < snd row).
  assert ((filter P (timed_rows t n db)).*1 `sublist_of` (table_rows t db).*1) as Hf by (etrans; [apply fmap_sublist, sublist_filter|exact Hsub]). split_and!.
  - eapply sublist_NoDup; [apply rows_keys|exact Hf].
  - apply sublist_length in Hf. rewrite !length_fmap in Hf. unfold table_rows in Hf. rewrite (Permutation_length (merge_sort_Permutation _ _)), length_map_to_list in Hf. exact Hf.
  - apply Forall_forall. intros [k u] [_ Hin]%list_elem_of_filter. unfold timed_rows in Hin. apply list_elem_of_omap in Hin as ([k' v] & _ & Hr). cbn [fst snd] in Hr.
    destruct (Z.eqb_spec (len k') n); [|done]. cbn [andb] in Hr. destruct (_ =? 8); [|done]. by injection Hr as <- _.
  - intros k until Hg Hk Hu Hge. apply list_elem_of_filter. split; [unfold P; cbn; lia|]. apply list_elem_of_omap. exists (k, le_bytes 8 until). cbn [fst snd]. split.
    + unfold table_rows. rewrite merge_sort_Permutation. by apply elem_of_map_to_list.
    + rewrite Hk, Z.eqb_refl, len_le_bytes. cbn [andb Z.of_nat]. rewrite le_val_bytes by (cbn; lia). done.
Qed.

(** Addresses that are stored under a key of 16 bytes and read back: all but the
    IPv6 forms of IPv4 addresses. *)
Definition stored_as_is (ip : IpAddr) : Prop := len (ip_to_canonical_bytes ip) = 16 /\ ip_from_canonical_bytes (ip_to_canonical_bytes ip) = ip.
Lemma canonical_injective k1 k2 : len k1 = 16 -> len k2 = 16 -> ip_from_canonical_bytes k1 = ip_from_canonical_bytes k2 -> k1 = k2.
Proof.
  intros H1 H2. assert (forall k : bytes, len k = 16 -> k = slice k 0 12 ++ slice k 12 16) as Hsplit.
  { intros k Hk. unfold slice. cbn. rewrite (firstn_all2 (n:=4)) by (rewrite length_skipn; unfold len in Hk; lia). by rewrite firstn_skipn. }
  unfold ip_from_canonical_bytes, to_ipv4_mapped. destruct (bool_decide_reflect (slice k1 0 12 = mapped_prefix)) as [E1|E1], (bool_decide_reflect (slice k2 0 12 = mapped_prefix)) as [E2|E2]; try done.
  - intros [= E]. rewrite (Hsplit k1 H1), (Hsplit k2 H2), E1, E2, E. done.
  - by intros [= E].
Qed.
Lemma restored_addresses l db m db' : restore_ip_bans l db = Some (m, db') -> Z.of_nat (size m) <= Z.of_nat (size (tables db IP_BAN_TABLE)) /\
  tables db' IDENTITY_BAN_TABLE = tables db IDENTITY_BAN_TABLE /\
  (bl_unreadable l = false -> forall ip until, table_get IP_BAN_TABLE (ip_to_canonical_bytes ip) db = Some (le_bytes 8 until) -> stored_as_is ip ->
     0 <= until < 2 ^ 64 -> bl_unix_db l < until -> bl_unix l < until ->
     exists e, m !! ip = Some e /\ banned_until e = Some (bl_now l + (until - bl_unix l) * NANOS)).
Proof.
  unfold restore_ip_bans. destruct (bl_unreadable l); [intros [= <- <-]; rewrite map_size_empty; split_and!; [lia|done|done]|].
  unfold load_ip_bans. destruct (loaded_rows (bl_cleanup_fault l) IP_BAN_TABLE 16 (bl_unix_db l) db) as (Hnd & Hlen & Hk & Hin).
  assert (tables (snd (load_bans (bl_cleanup_fault l) IP_BAN_TABLE 16 (bl_unix_db l) db)) IDENTITY_BAN_TABLE = tables db IDENTITY_BAN_TABLE) as Hdb by (by apply load_bans_other).
  destruct (load_bans _ _ _ _ _) as [rows db1]. cbn [fst snd] in *. destruct (restored_rows _ _ _ _ _) as [m1|] eqn:Em; [|done]. intros [= <- <-]. split_and!; [|done|].
  - apply enter_size in Em. rewrite length_map, map_size_empty in Em. lia.
  - intros _ ip until Hg [H16 Hback] Hu Hu1 Hu2. eexists. split; [apply (enter_row _ _ _ _ _ _ _ until Em)|]; [| |done|done].
    + rewrite map_map. cbn [fst]. rewrite <- map_map. apply (NoDup_fmap_2_strong _ _); [|exact Hnd].
      rewrite Forall_forall in Hk. intros k1 k2 [r1 [-> Hr1]]%list_elem_of_fmap [r2 [-> Hr2]]%list_elem_of_fmap. apply canonical_injective; by apply Hk.
    + apply list_elem_of_fmap. exists (ip_to_canonical_bytes ip, until). cbn [fst snd]. rewrite Hback. split; [done|]. apply Hin; [done|done|lia|lia].
Qed.
Lemma restored_identities l db m db' : restore_identity_bans l db = Some (m, db') -> Z.of_nat (size m) <= Z.of_nat (size (tables db IDENTITY_BAN_TABLE)) /\
  (bl_unreadable l = false -> forall pk until, table_get IDENTITY_BAN_TABLE pk db = Some (le_bytes 8 until) -> len pk = 32 ->
     0 <= until < 2 ^ 64 -> bl_unix_db l < until -> bl_unix l < until -> m !! pk = Some (bl_now l + (until - bl_unix l) * NANOS)).
Proof.
  unfold restore_identity_bans. destruct (bl_unreadable l); [intros [= <- <-]; rewrite map_size_empty; split; [lia|done]|]. unfold load_identity_bans.
  destruct (loaded_rows (bl_cleanup_fault l) IDENTITY_BAN_TABLE 32 (bl_unix_db l) db) as (Hnd & Hlen & _ & Hin). destruct (load_bans _ _ _ _ _) as [rows db1]. cbn [fst] in *.
  destruct (restored_rows _ _ _ _ _) as [m1|] eqn:Em; [|done]. intros [= <- <-]. split.
  - apply enter_size in Em. rewrite map_size_empty in Em. lia.
  - intros _ pk until Hg H32 Hu Hu1 Hu2. apply (enter_row _ _ _ _ _ _ _ until Em); [done| |done]. apply Hin; [done|done|lia|lia].
Qed.
(** Clearing the tables only removes rows. *)
Lemma purge_rows f fi fd db db' : purge f fi fd db = Ok db' -> (size (tables db' IP_BAN_TABLE) <= size (tables db IP_BAN_TABLE) /\ size (tables db' IDENTITY_BAN_TABLE) <= size (tables db IDENTITY_BAN_TABLE))%nat.
Proof.
  assert (forall fault t d r d', clear_bans fault t d = (r, d') -> forall u, (size (tables d' u) <= size (tables d u))%nat) as Hc.
  { intros fault t d r d'. unfold clear_bans, write_txn. destruct (_ =? 0); [by intros [= <- <-]|]. destruct fault; [by intros [= <- <-]|]. intros [= <- <-] u. cbn [tables table_set].
    destruct (decide (u = t)); [rewrite map_size_empty; lia|done]. }
  unfold purge. destruct f; [|by intros [= <-]]. unfold clear_ip_bans, clear_identity_bans. destruct (clear_bans fi _ db) as [[n|] db1] eqn:E1; [|done]. destruct (clear_bans fd _ db1) as [[n2|] db2] eqn:E2; [|done].
  intros [= <-]. pose proof (Hc _ _ _ _ _ E1) as H1. pose proof (Hc _ _ _ _ _ E2) as H2. split; etrans; [apply H2|apply H1|apply H2|apply H1].
Qed.

(** ** Limits per minute *)

(** The number of grants over a sequence of requests at times [ts]. *)
Fixpoint grants (cap : Z) (ts : list Z) (l : limiter) : Z :=
  match ts with
  | [] => 0
  | t :: ts => (if fst (consume_slot t cap l) then 1 else 0) + grants cap ts (snd (consume_slot t cap l))
  end.
Lemma grants_window cap ts l w :
  0 <= snd l -> 0 <= cap -> (forall t, t ∈ ts -> t < w) -> w <= fst l + MINUTE -> grants cap ts l <= Z.max 0 (cap - snd l).
Proof.
  intros Hl Hcap. revert l Hl. induction ts as [|t ts IH]; intros l Hl Hts Hw; cbn [grants]; [lia|].
  assert (t < w) as Ht by (apply Hts; left). assert (forall t, t ∈ ts -> t < w) as Hts' by (intros; apply Hts; by right).
  unfold consume_slot, refresh, since in *. assert (0 < MINUTE) by done.
  destruct (Z.leb_spec MINUTE (Z.max 0 (t - fst l))); [lia|]. destruct (Z.ltb_spec (snd l) cap); cbn [fst snd] in *.
  - specialize (IH (fst l, snd l + 1) ltac:(cbn; lia) Hts' ltac:(cbn; lia)). cbn [snd] in IH. lia.
  - specialize (IH l Hl Hts' Hw). lia.
Qed.
Lemma grants_two_windows cap ts l start :
  0 <= cap -> 0 <= snd l -> (forall t, t ∈ ts -> start <= t < start + MINUTE) -> grants cap ts l <= Z.max 0 (cap - snd l) + cap.
Proof.
  intros Hcap. revert l. induction ts as [|t ts IH]; intros l Hl Hts; cbn [grants]; [lia|].
  assert (start <= t < start + MINUTE) as Ht by (apply Hts; left).
  assert (forall t, t ∈ ts -> start <= t < start + MINUTE) as Hts' by (intros; apply Hts; by right).
  assert (forall t, t ∈ ts -> t < start + MINUTE) as Hend by (intros x Hx; apply Hts' in Hx; lia).
  unfold consume_slot, refresh, since. assert (0 < MINUTE) by done. destruct (Z.leb_spec MINUTE (Z.max 0 (t - fst l))) as [Hnew|Hold]; cbn [fst snd].
  - destruct (Z.ltb_spec 0 cap); cbn [fst snd].
    + pose proof (grants_window cap ts (t, 0 + 1) (start + MINUTE) ltac:(cbn; lia) Hcap Hend ltac:(cbn; lia)) as Hg. cbn [snd] in Hg. lia.
    + pose proof (grants_window cap ts (t, 0) (start + MINUTE) ltac:(cbn; lia) Hcap Hend ltac:(cbn; lia)) as Hg. cbn [snd] in Hg. lia.
  - destruct (Z.ltb_spec (snd l) cap); cbn [fst snd].
    + specialize (IH (fst l, snd l + 1) ltac:(cbn; lia) Hts'). cbn [snd] in IH. lia.
    + specialize (IH l Hl Hts'). lia.
Qed.
(** Within any minute at most twice the limit is granted, whatever was consumed
    before it. *)
Theorem limiter_bounded cap ts l start :
  0 <= cap -> 0 <= snd l -> (forall t, t ∈ ts -> start <= t < start + MINUTE) -> grants cap ts l <= 2 * cap.
Proof. intros Hcap Hl Hts. pose proof (grants_two_windows cap ts l start Hcap Hl Hts). lia. Qed.
End Policies.

(** ** Claims *)

(** A walk of a map: its entries in some order. *)
Definition walks (walk : forall K V (HE : EqDecision K) (HC : Countable K), gmap K V -> list (K * V)) : Prop :=
  forall K V (HE : EqDecision K) (HC : Countable K) (m : gmap K V), walk K V HE HC m ≡ₚ map_to_list m.

(** Whatever addresses peers announce and whichever connections succeed or fail,
    in any order and for any iteration order of the map: the address book has at
    most 1024 entries, at most 256 of them first announced from one address, and
    at most 32 announced ones in one /16 network, and all of them are routable;
    one message adds at most 16; and an address is chosen for dialling only out of
    its backoff, an unproven one only when no proven one is eligible. *)
Theorem addr_book_bounded walk (book : gmap SocketAddr AddrInfo) :
  walks walk -> rtc (book_step walk) ∅ book ->
  Z.of_nat (size book) <= 1024 /\ (forall ip, contributions ip book <= 256) /\
  (forall net, entries_where (gossip_from net) book <= 32) /\
  (forall a i, book !! a = Some i -> is_routable a = true) /\
  (forall unix es ip peer, fst (merge_addr_entries walk unix es ip peer book) <= 16) /\
  (forall now a, addr_book_select_for_connect walk now book = Some a ->
     exists i, book !! a = Some i /\ eligible now i /\
       (proven i = true \/ forall a' i', book !! a' = Some i' -> eligible now i' -> proven i' = false)).
Proof.
  intros Hw Hr. pose proof (book_reachable walk Hw ∅ book Hr book_empty_ok) as Hok. pose proof Hok as [Hs Hp Hn Ha]. split_and!; [done|done|done| | |].
  - intros a i Hi. by destruct (Ha a i Hi).
  - intros unix es ip peer. unfold merge_addr_entries. cbn [fst].
    destruct (merge_entries_ok walk Hw (default 0 unix) ip peer (contributions ip book) es {| mg_book := book; mg_accepted := 0; mg_new := 0 |} Hok) as [_ Hm];
      [cbn; lia|cbn; unfold MAX_ADDR_PER_MSG_ACCEPT; lia|]. unfold MAX_ADDR_PER_MSG_ACCEPT in Hm. lia.
  - intros now a Hsel. pose proof (select_prefers_proven walk Hw now book) as Hx. by rewrite Hsel in Hx.
Qed.

(** C28: Strikes and bans, over any sequence of strikes and checks and for any
    iteration order of the maps.
    The tables of addresses and of identities never grow beyond 4096 entries or,
    where they were larger, beyond the size they had: the restoration of stored
    bans at start-up has no limit, so that a node starts with at most as many
    entries as the database has rows (start-up panics on a row whose end is beyond
    the range of an [Instant]), and after that neither table exceeds the
    larger of 4096 and that number.
    A ban that was stored and has not expired is in force again after the start,
    until the same second of the wall clock, unless the operator purges the bans or
    the table cannot be read (for addresses other than IPv6 forms of IPv4 ones,
    which are read back as IPv4).
    A banned address stays banned until its ban expires, through strikes against
    other addresses and any checks, as long as none of the strikes finds the table
    of addresses full of active bans; strikes against the address itself are not
    covered. *)
Theorem bans_hold walk :
  walks walk ->
  (forall a a', rtc (abuse_step walk) a a' -> tables_ok (Z.of_nat (size (ip_abuse a))) (Z.of_nat (size (identity_bans a))) a') /\
  (forall purge_bans ip_fault id_fault ips ids db a, restore_bans purge_bans ip_fault id_fault ips ids db = Some (Ok a) ->
     (forall a', rtc (abuse_step walk) a a' -> tables_ok (Z.of_nat (size (tables db IP_BAN_TABLE))) (Z.of_nat (size (tables db IDENTITY_BAN_TABLE))) a') /\
     (purge_bans = false -> bl_unreadable ips = false -> forall ip until, table_get IP_BAN_TABLE (ip_to_canonical_bytes ip) db = Some (le_bytes 8 until) -> stored_as_is ip ->
        0 <= until < 2 ^ 64 -> bl_unix_db ips < until -> bl_unix ips < until -> banned_for ip (bl_now ips + (until - bl_unix ips) * NANOS) a) /\
     (purge_bans = false -> bl_unreadable ids = false -> forall pk until, table_get IDENTITY_BAN_TABLE pk db = Some (le_bytes 8 until) -> len pk = 32 ->
        0 <= until < 2 ^ 64 -> bl_unix_db ids < until -> bl_unix ids < until -> identity_bans a !! pk = Some (bl_now ids + (until - bl_unix ids) * NANOS))) /\
  (forall a ip until a' now fault, banned_for ip until a -> rtc (elsewhere walk ip until) a a' -> now < until ->
     fst (is_ip_banned now fault ip a') = true).
Proof.
  intros Hw. assert (forall ips ids a a', tables_ok ips ids a -> rtc (abuse_step walk) a a' -> tables_ok ips ids a') as Hok.
  { intros ips ids a a' Ha Hr. induction Hr as [|x y z Hs _ IH]; [done|]. apply IH. by eapply abuse_step_ok. }
  split_and!.
  - intros a a' Hr. apply (Hok _ _ a); [split; lia|done].
  - intros f fi fd ips ids db a Hres. unfold restore_bans in Hres. destruct (purge f fi fd db) as [db0|] eqn:Ep; [|done]. destruct (purge_rows _ _ _ _ _ Ep) as [P1 P2].
    destruct (restore_ip_bans ips db0) as [[m db1]|] eqn:Ea; [|done]. destruct (restored_addresses _ _ _ _ Ea) as (A1 & A2 & A3).
    destruct (restore_identity_bans ids db1) as [[n db2]|] eqn:Ei; [|done]. destruct (restored_identities _ _ _ _ Ei) as (I1 & I2). injection Hres as <-. rewrite A2 in I1. split_and!.
    + intros a' Hr. eapply Hok; [|exact Hr]. split; cbn; lia.
    + intros ->. injection Ep as <-. exact A3.
    + intros ->. injection Ep as <-. intros Hrd pk until Hg. apply I2; [done|]. unfold table_get in *. by rewrite A2.
  - intros a ip until a' now fault Hb Hr Hnow. assert (banned_for ip until a') as (e & He & Hu).
    { clear Hnow. induction Hr as [|x y z Hs _ IH]; [done|]. apply IH. by eapply elsewhere_keeps. }
    unfold is_ip_banned. rewrite He, Hu. destruct (Z.leb_spec until now); [lia|]. done.
Qed.

(** ** Examples *)

Definition plain_walk K V (HE : EqDecision K) (HC : Countable K) (m : gmap K V) : list (K * V) := map_to_list m.
Lemma plain_walks : walks plain_walk.
Proof. intros K V HE HC m. reflexivity. Qed.

Definition somewhere : SocketAddr := SockV4 [x5d; xb8; xd8; x22] 9333.
Definition one_book : gmap SocketAddr AddrInfo :=
  snd (merge_addr_entries plain_walk (Some 1700000000) [{| addr := somewhere; last_seen := 1700000000 |}] (V4 [x08; x08; x08; x08]) (replicate 32 x01) ∅).
Lemma one_book_reachable : rtc (book_step plain_walk) ∅ one_book.
Proof.
  apply rtc_once.
  exact (book_merge plain_walk (Some 1700000000) [{| addr := somewhere; last_seen := 1700000000 |}] (V4 [x08; x08; x08; x08]) (replicate 32 x01) ∅).
Qed.
Lemma addr_book_bounded_witness : is_Some (one_book !! somewhere) /\ Z.of_nat (size one_book) <= 1024.
Proof.
  split; [vm_compute; eexists; reflexivity|].
  exact (proj1 (addr_book_bounded plain_walk one_book plain_walks one_book_reachable)).
Defined.

Definition culprit : IpAddr := V4 [x08; x08; x08; x08].
Definition no_abuse : Abuse := {| ip_abuse := ∅; identity_bans := ∅; ban_db := empty_db |}.
Definition strike_at (now : Z) (ip : IpAddr) (a : Abuse) : Abuse :=
  snd (record_ip_strike plain_walk now None false (fun _ => false) ip None a).
Definition ten_strikes : Abuse := fold_left (fun a n => strike_at (n * NANOS) culprit a) [0; 1; 2; 3; 4; 5; 6; 7; 8; 9] no_abuse.
Lemma ten_strikes_ban : banned_for culprit (609 * NANOS) ten_strikes.
Proof. eexists. split; vm_compute; reflexivity. Qed.
Lemma struck_elsewhere :
  rtc (elsewhere plain_walk culprit (609 * NANOS)) ten_strikes (strike_at (400 * NANOS) (V4 [x09; x09; x09; x09]) ten_strikes).
Proof.
  apply rtc_once. unfold strike_at. apply else_strike; [discriminate|reflexivity|].
  left. vm_compute. reflexivity.
Qed.
(** Stored at second 1000 of the wall clock for ten minutes, read at second 1100. *)
Definition stored_ban : ChainStorage := snd (write_txn false (put_ip_ban culprit 1600) empty_db).
Definition readable : BanLoad := {| bl_unreadable := false; bl_cleanup_fault := false; bl_unix_db := 1100; bl_unix := 1100; bl_now := 7 * NANOS |}.
Example stored_ban_restored : match restore_bans false false false readable readable stored_ban with Some (Ok a) => fst (is_ip_banned (506 * NANOS) false culprit a) | _ => false end = true.
Proof. vm_compute. reflexivity. Qed.
Lemma bans_hold_witness :
  (exists a, restore_bans false false false readable readable stored_ban = Some (Ok a) /\ banned_for culprit (507 * NANOS) a) /\
  banned_for culprit (609 * NANOS) ten_strikes /\
  fst (is_ip_banned (600 * NANOS) false culprit (strike_at (400 * NANOS) (V4 [x09; x09; x09; x09]) ten_strikes)) = true.
Proof.
  split.
  { pose proof stored_ban_restored as Hr. destruct (restore_bans false false false readable readable stored_ban) as [[a|]|] eqn:E; [|discriminate Hr|discriminate Hr]. exists a. split; [reflexivity|].
    destruct (proj1 (proj2 (bans_hold plain_walk plain_walks)) _ _ _ _ _ _ _ E) as (_ & Hb & _).
    apply (Hb eq_refl eq_refl culprit 1600); [reflexivity|split; reflexivity|lia|reflexivity|reflexivity]. }
  split; [exact ten_strikes_ban|].
  exact (proj2 (proj2 (bans_hold plain_walk plain_walks)) ten_strikes culprit (609 * NANOS) _ (600 * NANOS) false ten_strikes_ban struck_elsewhere eq_refl).
Defined.

(** A further strike five minutes after the last one lifts the ban. *)
Definition lifted : Abuse := strike_at (310 * NANOS) culprit ten_strikes.
Example late_strike_lifts_ban :
  fst (is_ip_banned (311 * NANOS) false culprit ten_strikes) = true /\ fst (is_ip_banned (311 * NANOS) false culprit lifted) = false.
Proof. split; vm_compute; reflexivity. Qed.
