(* ===== verification/BlockRelay.v ===== *)
(** * Receiving and relaying blocks ([src/network/sync.rs])

    What happens to a block that a peer sends: a block without a known parent
    waits in the cache of orphans, a block that fails a cheap check is dropped,
    everything else goes through the limit per minute, the proof of work and
    [process_block].  A block that gets in releases the orphans that wait for it,
    recursively, and the reorganisations that were blocked by it; a block from the
    future is tried again later.

    The state is [Relay]: the node of [ChainManager.v], the orphans, the registry
    of peers, the strikes and bans, the limiter and the shutdown flag; [outbox]
    is the log of what was put into the channels of peers.  Everything that is
    read from outside (clocks, storage errors, whether a channel takes a message
    in time) comes from [moments], one after the other. *)

From Stdlib Require Import Strings.String.
From S2P Require Import Prelude Bytes Codec Hash Transaction Block Wire U256 Difficulty Reward.
From S2P Require Import ScriptValue ScriptCodec Jets ScriptCost Eval FeeCost Smt Utxo TxValidation BlockValidation Mempool Storage.
From S2P Require Import ChainManager PeerRegistry PeerPolicy.
#[local] Open Scope Z_scope.
#[local] Open Scope list_scope.

Definition MAX_ORPHAN_BLOCKS : Z := 16.
Definition MAX_ORPHAN_BLOCK_SIZE : Z := MAX_BLOCK_SIZE.
Definition MAX_ORPHAN_CACHE_BYTES : Z := 67108864.

(** ** The cache of orphans *)

(** The parent that is missing, the block and its size. *)
Record Orphan := { waits_for : Hash256; orphan : Block; orphan_size : Z }.
Definition cache_bytes (l : list Orphan) : Z := foldr (fun o n => orphan_size o + n) 0 l.
Definition cache_full (size : Z) (l : list Orphan) : bool :=
  (MAX_ORPHAN_BLOCKS <=? len l) || (MAX_ORPHAN_CACHE_BYTES <? saturating_add U64_MAX (cache_bytes l) size).
(** [while !orphans.is_empty() && full { orphans.remove(0) }] *)
Fixpoint drop_oldest (size : Z) (l : list Orphan) : list Orphan :=
  match l with
  | o :: rest => if cache_full size l then drop_oldest size rest else l
  | [] => []
  end.
(** The length of the encoding, [usize::MAX] if there is none. *)
Definition encoded_size (b : Block) : Z := match Block_serialize b with Ok bs => len bs | Err _ => U64_MAX end.

(** [while i < orphans.len()]: a match is taken out by [swap_remove], which puts
    the last entry in its place; [length l - i] rounds are left. *)
Fixpoint drain (fuel : nat) (parent : Hash256) (i : nat) (l : list Orphan) (matched : list Block) : list Block * list Orphan :=
  match fuel with
  | O => (matched, l)
  | Datatypes.S fuel =>
      match l !! i with
      | Some o => if decide (waits_for o = parent) then drain fuel parent i (swap_remove i l) (matched ++ [orphan o])
                  else drain fuel parent (Datatypes.S i) l matched
      | None => (matched, l)
      end
  end.

(** ** Events *)

Inductive PeerEvent :=
| Connected (identity : PeerId) (sid : Z)
| Disconnected (identity : PeerId) (sid : Z)
| NewBlock (from : SocketAddr) (identity : PeerId) (sid : Z) (block : Block) (pre_validated : bool)
| BlockResponse (from : SocketAddr) (identity : PeerId) (sid : Z) (block : Block) (pre_validated : bool)
| HeadersResponse (identity : PeerId) (sid : Z) (headers : list BlockHeader)
| TipResponse (identity : PeerId) (sid : Z) (height : Z) (block_id : Hash256) (work : bytes).

(** What is read from outside at one point: the environment of [process_block],
    whether the channel of a peer takes a message within 50 ms, and the faults of
    the other storage calls. *)
Record Moment := {
  m_env : Env; m_sent : PeerId -> bool; m_parent_fault : bool; m_ban_fault : bool; m_identity_fault : PeerId -> bool
}.

Section Relay.
Context {S : Type} `{UtxoStore S} `{!UtxoGet S} `{!UtxoRoot S}.
Context `{Sha2} `{Ed25519} `{Layout} `{Argon2}.
Variable signature_domain : Hash256.
Variable coinbase_maturity : Z.
(** The order in which a hash map is iterated. *)
Variable walk : forall {K V} `{Countable K}, gmap K V -> list (K * V).
Variable moments : nat -> Moment.

Record Relay := {
  node : @Node S; orphan_blocks : list Orphan; peers : PeerRegistry;
  ip_strikes : gmap IpAddr IpAbuseEntry; banned_ids : gmap PeerId Z; global_block_limiter : limiter;
  shutdown : bool; outbox : list (PeerId * Message); moment : nat
}.
Definition with_node (n : @Node S) (st : Relay) : Relay :=
  Build_Relay n (orphan_blocks st) (peers st) (ip_strikes st) (banned_ids st) (global_block_limiter st) (shutdown st) (outbox st) (moment st).
Definition with_orphans (l : list Orphan) (st : Relay) : Relay :=
  Build_Relay (node st) l (peers st) (ip_strikes st) (banned_ids st) (global_block_limiter st) (shutdown st) (outbox st) (moment st).
Definition with_registry (r : PeerRegistry) (st : Relay) : Relay :=
  Build_Relay (node st) (orphan_blocks st) r (ip_strikes st) (banned_ids st) (global_block_limiter st) (shutdown st) (outbox st) (moment st).
Definition with_abuse (a : Abuse) (st : Relay) : Relay :=
  Build_Relay (with_storage (ban_db a) (node st)) (orphan_blocks st) (peers st) (ip_abuse a) (identity_bans a) (global_block_limiter st)
    (shutdown st) (outbox st) (moment st).
Definition with_limiter (l : limiter) (st : Relay) : Relay :=
  Build_Relay (node st) (orphan_blocks st) (peers st) (ip_strikes st) (banned_ids st) l (shutdown st) (outbox st) (moment st).
Definition with_shutdown (st : Relay) : Relay :=
  Build_Relay (node st) (orphan_blocks st) (peers st) (ip_strikes st) (banned_ids st) (global_block_limiter st) true (outbox st) (moment st).
Definition with_sent (msgs : list (PeerId * Message)) (st : Relay) : Relay :=
  Build_Relay (node st) (orphan_blocks st) (peers st) (ip_strikes st) (banned_ids st) (global_block_limiter st) (shutdown st)
    (outbox st ++ msgs) (moment st).
Definition with_triggers (t : ReorgTriggerState) (n : @Node S) : @Node S :=
  Build_Node (storage n) (utxo_set n) (mempool n) (tip n) (fork_blocks n) (future_blocks n) (difficulty_cache n) t
    (assume_valid n) (assume_valid_verified n) (assume_valid_cumulative_work_trusted n) (event_bus n).

(** An operation returns a value and the new state; [None] when it does not
    return. *)
Definition rel (A : Type) : Type := Relay -> option (A * Relay).
#[export] Instance rel_ret : MRet rel := fun A a st => Some (a, st).
#[export] Instance rel_bind : MBind rel := fun A B f c st => match c st with Some (a, st) => f a st | None => None end.
Definition see {A} (f : Relay -> A) : rel A := fun st => Some (f st, st).
Definition update (f : Relay -> Relay) : rel unit := fun st => Some (tt, f st).
Definition at_node {A} (c : @Node S -> A * @Node S) : rel A := fun st => let '(a, n) := c (node st) in Some (a, with_node n st).
Definition observe : rel Moment := fun st =>
  Some (moments (moment st), Build_Relay (node st) (orphan_blocks st) (peers st) (ip_strikes st) (banned_ids st) (global_block_limiter st)
                               (shutdown st) (outbox st) (Datatypes.S (moment st))).
Fixpoint for_all {A B} (f : A -> rel B) (l : list A) : rel (list B) :=
  match l with
  | [] => mret []
  | a :: l => b ← f a; bs ← for_all f l; mret (b :: bs)
  end.

(** ** Channels *)

Definition connected (id : PeerId) (r : PeerRegistry) : bool := bool_decide (is_Some (by_identity r !! id ≫= session)).
Definition send_to_peer (id : PeerId) (msg : Message) : rel bool :=
  r ← see peers;
  if connected id r then
    m ← observe;
    if m_sent m id then _ ← update (with_sent [(id, msg)]); mret true else mret false
  else mret false.
Definition send_to_session (id : PeerId) (sid : Z) (msg : Message) : rel bool :=
  r ← see peers;
  if from_option (current sid) false (by_identity r !! id) then
    m ← observe;
    if m_sent m id then _ ← update (with_sent [(id, msg)]); mret true else mret false
  else mret false.
(** The peers with a session, in the order of the map. *)
Definition sessions (r : PeerRegistry) : list PeerId := map fst (filter (fun kv => is_Some (session (snd kv))) (walk (by_identity r))).
Definition broadcast (msg : Message) (exclude : option PeerId) : rel unit :=
  r ← see peers;
  m ← observe;
  update (with_sent (map (fun id => (id, msg)) (filter (fun id => exclude <> Some id /\ m_sent m id = true) (sessions r)))).
(** Ask one peer after the other until a channel takes the request. *)
Fixpoint ask_any (ids : list PeerId) (msg : Message) : rel unit :=
  match ids with
  | [] => mret tt
  | id :: ids => ok ← send_to_peer id msg; if ok : bool then mret tt else ask_any ids msg
  end.

Definition strike (from : SocketAddr) (id : PeerId) : rel unit :=
  m ← observe;
  update (fun st =>
    let a := {| ip_abuse := ip_strikes st; identity_bans := banned_ids st; ban_db := storage (node st) |} in
    with_abuse (snd (record_ip_strike (@walk) (now (m_env m)) (wall_clock (m_env m)) (m_ban_fault m) (m_identity_fault m) (sock_ip from) (Some id) a)) st).

(** ** Orphans and pending reorganisations *)

(** [process_block] and [process_block_pre_validated] at the clock [clock]. *)
Definition at_clock (clock : option Z) (env : Env) : Env := {| wall_clock := clock; now := now env; io := io env |}.
Definition process (env : Env) (skip_pow : bool) (b : Block) : rel (result ProcessBlockError ProcessBlockOutcome) := fun st =>
  match process_block_inner signature_domain coinbase_maturity env b skip_pow (node st) with
  | Some (r, n) => Some (r, with_node n st)
  | None => None
  end.

Definition take_orphans (parent : Hash256) : rel (list Block) := fun st =>
  let '(matched, rest) := drain (length (orphan_blocks st)) parent 0 (orphan_blocks st) [] in
  Some (matched, with_orphans rest st).
(** The loop over the children: the identifiers of those that got in, and
    whether an error was fatal. *)
Fixpoint process_children (children : list Block) (processed : list Hash256) : rel (list Hash256 * bool) :=
  match children with
  | [] => mret (processed, false)
  | child :: children =>
      m ← observe;
      r ← process (m_env m) false child;
      match r with
      | Ok Accepted | Ok Stored => process_children children (processed ++ [block_id (header child)])
      | Ok BufferedFuture => process_children children processed
      | Err e => if is_fatal e then _ ← update with_shutdown; mret (processed, true) else process_children children processed
      end
  end.
(** Every level of the recursion takes an orphan out of the cache, so one more
    level than there are orphans is enough. *)
Fixpoint try_process_orphans (fuel : nat) (parent : Hash256) : rel (list Hash256) :=
  match fuel with
  | O => fun _ => None
  | Datatypes.S fuel =>
      children ← take_orphans parent;
      p ← process_children children [];
      let '(processed, fatal) := p in
      if fatal : bool then mret processed
      else
        grandchildren ← for_all (try_process_orphans fuel) processed;
        mret (processed ++ concat grandchildren)
  end.
Definition resolve_orphans (parent : Hash256) : rel (list Hash256) := fun st =>
  try_process_orphans (Datatypes.S (length (orphan_blocks st))) parent st.

(** The request for a missing ancestor. *)
Definition request_ancestor (id : Hash256) (request_peer : option PeerId) : rel unit :=
  match request_peer with
  | Some p => _ ← send_to_peer p (MGetBlocks [id]); mret tt
  | None => r ← see peers; ask_any (sessions r) (MGetBlocks [id])
  end.
Definition queue_trigger (ancestor : Hash256) (b : Block) : rel bool :=
  at_node (fun n => let '(ok, t) := trigger_insert ancestor b (reorg_triggers n) in (ok, with_triggers t n)).
Fixpoint retry_triggers (blocks : list Block) (clock : option Z) (request_peer : option PeerId) : rel unit :=
  match blocks with
  | [] => mret tt
  | b :: blocks =>
      m ← observe;
      r ← process (at_clock clock (m_env m)) false b;
      match r with
      | Ok Accepted | Ok Stored => _ ← resolve_orphans (block_id (header b)); retry_triggers blocks clock request_peer
      | Ok BufferedFuture => retry_triggers blocks clock request_peer
      | Err (MissingReorgAncestor deeper) =>
          _ ← queue_trigger deeper b;
          _ ← request_ancestor deeper request_peer;
          retry_triggers blocks clock request_peer
      | Err e => if is_fatal e then update with_shutdown else retry_triggers blocks clock request_peer
      end
  end.
Definition retry_reorg_triggers (ancestor : Hash256) (clock : option Z) (request_peer : option PeerId) : rel unit :=
  blocks ← at_node (fun n => let '(bs, t) := trigger_take ancestor (reorg_triggers n) in (bs, with_triggers t n));
  retry_triggers (default [] blocks) clock request_peer.

(** ** Blocks from the future *)

(** [iter_mut().find(..)]: the first entry of this block gets the time [t]. *)
Fixpoint set_age (id : Hash256) (t : Z) (buf : list (Block * Z)) : list (Block * Z) :=
  match buf with
  | [] => []
  | e :: buf => if decide (block_id (header (fst e)) = id) then (fst e, t) :: buf else e :: set_age id t buf
  end.
Definition edit_future (f : list (Block * Z) -> list (Block * Z)) (st : Relay) : Relay :=
  with_node (with_future_blocks (f (future_blocks (node st))) (node st)) st.
Fixpoint retry_each (candidates : list (Block * Z)) : rel unit :=
  match candidates with
  | [] => mret tt
  | (b, t) :: candidates =>
      let id := block_id (header b) in
      m ← observe;
      r ← process (m_env m) true b;
      match r with
      | Ok Accepted => _ ← broadcast (MNewBlock b) None; _ ← resolve_orphans id; retry_each candidates
      | Ok Stored => _ ← resolve_orphans id; retry_each candidates
      | Ok BufferedFuture => _ ← update (edit_future (set_age id t)); retry_each candidates
      | Err (MissingReorgAncestor missing) =>
          _ ← queue_trigger missing b;
          _ ← request_ancestor missing None;
          retry_each candidates
      | Err e =>
          if is_fatal e then update with_shutdown
          else _ ← update (edit_future (fun buf => if len buf <? MAX_FUTURE_BLOCKS then buf ++ [(b, t)] else buf)); retry_each candidates
      end
  end.
Definition retry_future_blocks : rel unit :=
  m ← observe;
  buf ← see (fun st => List.filter (fresh_enough (now (m_env m))) (future_blocks (node st)));
  _ ← update (edit_future (fun _ => []));
  retry_each buf.

(** ** A block from a peer *)

(** No known parent: the block waits, and the parent is asked for unless another
    orphan waits for it. *)
Definition keep_orphan (id : PeerId) (b : Block) : rel unit :=
  let parent := prev_block_id (header b) in
  let size := encoded_size b in
  orphans ← see orphan_blocks;
  if (size <=? MAX_ORPHAN_BLOCK_SIZE) && negb (existsb (fun o => bool_decide (block_id (header (orphan o)) = block_id (header b))) orphans) then
    let already_waiting := existsb (fun o => bool_decide (waits_for o = parent)) orphans in
    _ ← update (with_orphans (drop_oldest size orphans ++ [{| waits_for := parent; orphan := b; orphan_size := size |}]));
    if already_waiting then mret tt else _ ← send_to_peer id (MGetBlocks [parent]); mret tt
  else mret tt.

(** What [process_block] says about the block. *)
Definition settle (from : SocketAddr) (id : PeerId) (sid : Z) (b : Block) (r : result ProcessBlockError ProcessBlockOutcome) : rel bool :=
  let useful := m ← observe; update (fun st => with_registry (mark_useful_message (now (m_env m)) id sid (peers st)) st) in
  match r with
  | Ok Accepted =>
      _ ← useful;
      _ ← broadcast (MNewBlock b) (Some id);
      _ ← resolve_orphans (block_id (header b));
      mret true
  | Ok Stored => _ ← useful; _ ← resolve_orphans (block_id (header b)); mret true
  | Ok BufferedFuture => mret true
  | Err (MissingReorgAncestor missing) =>
      _ ← queue_trigger missing b;
      _ ← send_to_peer id (MGetBlocks [missing]);
      mret true
  | Err e => if is_fatal e then _ ← update with_shutdown; mret false else _ ← strike from id; mret true
  end.

(** Proof of work and [process_block]; the work is not checked here when it was
    checked on receipt, or when the ancestry for the target is missing. *)
Definition verify_and_process (from : SocketAddr) (id : PeerId) (sid : Z) (b : Block) (skip ancestry_missing : bool) : rel unit :=
  match (if skip then Ok true else verify_pow (header b)) with
  | Err _ => mret tt
  | Ok false => strike from id
  | Ok true =>
      m ← observe;
      r ← process (m_env m) (negb ancestry_missing) b;
      go_on ← settle from id sid b r;
      if go_on : bool then retry_reorg_triggers (block_id (header b)) (wall_clock (m_env m)) (Some id) else mret tt
  end.

(** The limit per minute, with a reserve for a block on top of the tip. *)
Definition within_budget (from : SocketAddr) (id : PeerId) (sid : Z) (b : Block) (pre_validated ancestry_missing : bool) : rel unit :=
  t ← see (fun st => tip (node st));
  m ← observe;
  ok ← (fun st => let '(ok, l) := try_consume_global_block_slot_inner (now (m_env m)) (bool_decide (tip_block_id t = prev_block_id (header b)))
                                    (global_block_limiter st) in
                  Some (ok, with_limiter l st));
  if ok : bool then verify_and_process from id sid b (ancestry_missing || pre_validated) ancestry_missing else mret tt.

Definition process_block_event (from : SocketAddr) (id : PeerId) (sid : Z) (b : Block) (pre_validated : bool) : rel unit :=
  m ← observe;
  if m_parent_fault m then mret tt
  else
    parent ← see (fun st => get_header (prev_block_id (header b)) (storage (node st)));
    match parent with
    | None => keep_orphan id b
    | Some p =>
        if negb (height (header b) =? wrap64 (height p + 1)) then strike from id
        else
          target ← at_node (cached_expected_difficulty (m_env m) (prev_block_id (header b)) (height (header b)));
          match target with
          | Ok (expected, _) => if bool_decide (difficulty_target (header b) = expected) then within_budget from id sid b pre_validated false else strike from id
          | Err (AncestorNotFound _) => within_budget from id sid b pre_validated true
          | Err _ => mret tt
          end
    end.

(** A tip that a peer reports does not replace a confirmed one. *)
Definition report_tip (id : PeerId) (sid : Z) (t : PeerTip) (r : PeerRegistry) : PeerRegistry :=
  match by_identity r !! id with
  | Some lp =>
      if current sid lp && negb (from_option pt_confirmed false (lp_tip lp))
      then with_peers (<[id := set_tip (Some t) lp]> (by_identity r)) r else r
  | None => r
  end.
Definition handle_background_event (e : PeerEvent) : rel unit :=
  match e with
  | Connected id _ => _ ← send_to_peer id MGetTip; mret tt
  | Disconnected id sid => update (fun st => with_registry (snd (detach_session_if_current id sid (peers st))) st)
  | NewBlock from id sid b pre | BlockResponse from id sid b pre => process_block_event from id sid b pre
  | HeadersResponse _ _ _ => mret tt
  | TipResponse id sid h bid w =>
      update (fun st => with_registry (report_tip id sid {| pt_height := h; pt_work := w; pt_block_id := bid; pt_confirmed := false |} (peers st)) st)
  end.
End Relay.
