(* ===== verification/RelayFacts.v ===== *)
(** * The buffers of the relay

    The cache of orphans keeps its limits and releases exactly the blocks that
    wait for a parent; the state of pending reorganisations and the buffer of
    future blocks keep theirs; and [process_block] leaves the former alone and
    changes the latter only for a block that it reports as buffered. *)

From S2P Require Import Prelude Bytes Codec Hash Transaction Block Wire U256 Difficulty Reward.
From S2P Require Import ScriptValue ScriptCodec Jets ScriptCost Eval FeeCost Smt Utxo TxValidation BlockValidation Mempool Storage.
From S2P Require Import PeerRegistry PeerPolicy BlockRelay ChainManager.
#[local] Open Scope Z_scope.
#[local] Open Scope list_scope.

(** ** Orphans *)

Lemma swap_remove_spec {A} (l : list A) i x : l !! i = Some x ->
  Permutation l (x :: swap_remove i l) /\ length l = Datatypes.S (length (swap_remove i l)) /\
  forall j, (j < i)%nat -> swap_remove i l !! j = l !! j.
Proof.
  destruct l as [|y l] using rev_ind; [done|]. clear IHl. intros Hi. unfold swap_remove. rewrite last_snoc, length_app. cbn [length].
  replace (length l + 1 - 1)%nat with (length l) by lia. destruct (decide (i = length l)) as [->|Hne].
  - rewrite lookup_app_r, Nat.sub_diag in Hi by lia. injection Hi as <-. rewrite insert_app_r_alt, Nat.sub_diag by lia. cbn. rewrite take_app_length.
    split; [by rewrite <- Permutation_cons_append|]. split; [lia|]. intros j Hj. by rewrite lookup_app_l by lia.
  - assert (i < length l)%nat as Hlt by (apply lookup_lt_Some in Hi; rewrite length_app in Hi; cbn in Hi; lia).
    rewrite insert_app_l, take_app_length' by (try rewrite length_insert; lia). rewrite lookup_app_l in Hi by lia. split; [|split].
    + rewrite <- Permutation_cons_append. rewrite (insert_take_drop l i y), <- (take_drop_middle l i x) at 1 by done. by rewrite <- Permutation_middle, Permutation_swap, <- Permutation_middle.
    + rewrite length_insert. lia.
    + intros j Hj. rewrite list_lookup_insert_ne by lia. by rewrite lookup_app_l by lia.
Qed.

(** [drain] takes out all that wait for [parent], and nothing else. *)
Lemma drain_spec fuel parent i l acc :
  (length l <= fuel + i)%nat -> (forall j o, (j < i)%nat -> l !! j = Some o -> waits_for o <> parent) ->
  exists got rest, drain fuel parent i l acc = (acc ++ map orphan got, rest) /\ Permutation l (got ++ rest) /\
  Forall (fun o => waits_for o = parent) got /\ Forall (fun o => waits_for o <> parent) rest.
Proof.
  revert i l acc. induction fuel as [|fuel IH]; intros i l acc Hf Hseen; cbn [drain].
  - exists [], l. rewrite app_nil_r. split; [done|]. split; [done|]. split; [done|]. apply Forall_lookup. intros j o Hj.
    apply (Hseen j); [|done]. apply lookup_lt_Some in Hj. lia.
  - destruct (l !! i) as [o|] eqn:Hi.
    + destruct (decide _) as [Ho|Ho].
      * destruct (swap_remove_spec _ _ _ Hi) as (Hp & Hl & Hj). destruct (IH i (swap_remove i l) (acc ++ [orphan o])) as (got & rest & -> & Hp' & Hg & Hr); [lia| |].
        { intros j o' Hlt Hlk. rewrite Hj in Hlk by done. by eapply Hseen. }
        exists (o :: got), rest. rewrite <- app_assoc. split; [done|]. split; [|split; [by constructor|done]]. rewrite Hp. cbn. by rewrite <- Hp'.
      * apply IH; [lia|]. intros j o' Hlt Hlk. destruct (decide (j = i)) as [->|]; [congruence|]. eapply Hseen; [|done]. lia.
    + exists [], l. rewrite app_nil_r. split; [done|]. split; [done|]. split; [done|]. apply Forall_lookup. intros j o Hj.
      apply (Hseen j); [|done]. apply lookup_lt_Some in Hj. apply lookup_ge_None in Hi. lia.
Qed.

Lemma cache_bytes_app l1 l2 : cache_bytes (l1 ++ l2) = cache_bytes l1 + cache_bytes l2.
Proof. unfold cache_bytes. induction l1 as [|o l1 IH]; cbn [app foldr]; [lia|]. rewrite IH. lia. Qed.
Lemma cache_bytes_perm l1 l2 : Permutation l1 l2 -> cache_bytes l1 = cache_bytes l2.
Proof. unfold cache_bytes. induction 1; cbn [foldr] in *; lia. Qed.
Lemma cache_bytes_nonneg l : Forall (fun o => 0 <= orphan_size o) l -> 0 <= cache_bytes l.
Proof. unfold cache_bytes. induction 1; cbn [foldr] in *; lia. Qed.

(** The orphans that may be in the cache: of blocks that satisfy [P]. *)
Record orphans_ok (P : Block -> Prop) (l : list Orphan) : Prop := {
  orphans_count : len l <= MAX_ORPHAN_BLOCKS;
  orphans_bytes : cache_bytes l <= MAX_ORPHAN_CACHE_BYTES;
  orphans_each : Forall (fun o => P (orphan o) /\ waits_for o = prev_block_id (header (orphan o)) /\ 0 <= orphan_size o) l
}.
Lemma orphans_nil P : orphans_ok P [].
Proof. by split. Qed.
Lemma orphans_part P l got rest : orphans_ok P l -> Permutation l (got ++ rest) -> orphans_ok P rest /\ Forall P (map orphan got).
Proof.
  intros [Hc Hb He] Hp. rewrite Hp in He. apply Forall_app in He as [Hg Hr]. pose proof (cache_bytes_perm _ _ Hp) as Hs. rewrite cache_bytes_app in Hs.
  apply Permutation_length in Hp. rewrite length_app in Hp. assert (0 <= cache_bytes got) as Hn by (apply cache_bytes_nonneg; eapply Forall_impl; [exact Hg|]; by intros ? (_ & _ & ?)).
  split; [split; [unfold len in *; lia|lia|done]|]. apply Forall_map. eapply Forall_impl; [exact Hg|]. by intros ? (? & _).
Qed.
Lemma drop_oldest_suffix size l : exists dropped, l = dropped ++ drop_oldest size l.
Proof.
  induction l as [|o l [d IH]]; [by exists []|]. cbn [drop_oldest]. destruct (cache_full _ _); [|by exists []]. exists (o :: d). cbn. congruence.
Qed.
Lemma drop_oldest_room size l : drop_oldest size l = [] \/ cache_full size (drop_oldest size l) = false.
Proof. induction l as [|o l IH]; [by left|]. cbn [drop_oldest]. destruct (cache_full size (o :: l)) eqn:E; [done|by right]. Qed.
Lemma orphans_push P l b : orphans_ok P l -> P b -> encoded_size b <= MAX_ORPHAN_BLOCK_SIZE ->
  orphans_ok P (drop_oldest (encoded_size b) l ++ [{| waits_for := prev_block_id (header b); orphan := b; orphan_size := encoded_size b |}]).
Proof.
  intros Ho Hb Hsz. destruct (drop_oldest_suffix (encoded_size b) l) as [d Hd]. destruct (orphans_part P l d (drop_oldest (encoded_size b) l) Ho) as [[Hc Hby He] _]; [by rewrite <- Hd|].
  assert (0 <= encoded_size b) as Hpos by (unfold encoded_size; destruct (Block_serialize b); [unfold len; lia|done]).
  assert (len (drop_oldest (encoded_size b) l) < MAX_ORPHAN_BLOCKS /\ cache_bytes (drop_oldest (encoded_size b) l) + encoded_size b <= MAX_ORPHAN_CACHE_BYTES) as [? ?].
  { destruct (drop_oldest_room (encoded_size b) l) as [->|Hr]; [change (cache_bytes []) with 0; change (encoded_size b <= 4194304) in Hsz; split; [done|unfold MAX_ORPHAN_CACHE_BYTES; lia]|].
    unfold cache_full in Hr. apply orb_false_iff in Hr as [?%Z.leb_gt ?%Z.ltb_ge]. split; [done|]. unfold saturating_add in *.
    unfold MAX_ORPHAN_CACHE_BYTES, U64_MAX in *. lia. }
  split.
  - unfold len in *. rewrite length_app. cbn. lia.
  - rewrite cache_bytes_app. cbn. lia.
  - apply Forall_app. split; [done|]. by repeat constructor.
Qed.

(** ** Pending reorganisations *)

Definition waiting (a : Hash256) (rt : ReorgTriggerState) : list Block := default [] (triggers rt !! a).
(** The queue has an entry for each block that waits, and no ancestor is kept
    without a block. *)
Record queued (P : Block -> Prop) (rt : ReorgTriggerState) : Prop := {
  queued_count a : length (filter (fun x => x = a) (order rt)) = length (waiting a rt);
  queued_each a bs : triggers rt !! a = Some bs -> bs <> [] /\ len bs <= MAX_TRIGGERS_PER_ANCESTOR /\ Forall P bs
}.
Record triggers_ok (P : Block -> Prop) (rt : ReorgTriggerState) : Prop := {
  triggers_queued : queued P rt;
  triggers_count : len (order rt) <= MAX_GLOBAL_TRIGGERS
}.
Lemma triggers_new_ok P : triggers_ok P ReorgTriggerState_new.
Proof. by repeat split; intros. Qed.

Lemma evict_trigger_ok P rt a rest : queued P rt -> order rt = a :: rest -> queued P (evict_trigger rt a rest).
Proof.
  intros [Hc He] Ho. pose proof (Hc a) as Ha. rewrite Ho, filter_cons_True in Ha by done. unfold evict_trigger, waiting in *. destruct (triggers rt !! a) as [[|b bs]|] eqn:Ea; [done| |done].
  cbn in Ha. injection Ha as Ha. destruct (He _ _ Ea) as (_ & Hlen & [Pb Pbs]%Forall_cons). split; cbn [triggers order tail].
  - intros x. unfold waiting. cbn [triggers]. destruct (decide (x = a)) as [->|Hx].
    + rewrite Ha. destruct (decide (bs = [])) as [->|]; [by rewrite lookup_delete_eq|by rewrite lookup_insert_eq].
    + specialize (Hc x). rewrite Ho, filter_cons_False in Hc by done. rewrite Hc. destruct (decide (bs = [])); [by rewrite lookup_delete_ne|by rewrite lookup_insert_ne].
  - intros x xs Hx. destruct (decide (bs = [])) as [->|Hne].
    + apply lookup_delete_Some in Hx as [_ Hx]. by apply He in Hx.
    + apply lookup_insert_Some in Hx as [[<- <-]|[_ Hx]]; [|by apply He in Hx]. split_and!; [done|unfold len in *; cbn in *; lia|done].
Qed.
Lemma evict_triggers_ok P l rt : queued P rt -> order rt = l ->
  queued P (evict_triggers l rt) /\ len (order (evict_triggers l rt)) < MAX_GLOBAL_TRIGGERS.
Proof.
  revert rt. induction l as [|a l IH]; intros rt Hq Ho; cbn [evict_triggers]; [by rewrite Ho|]. destruct (Z.leb_spec MAX_GLOBAL_TRIGGERS (len (a :: l))); [|by rewrite Ho].
  apply IH; [by apply evict_trigger_ok|]. unfold evict_trigger. by destruct (triggers rt !! a).
Qed.
Lemma trigger_insert_ok P a b rt ok rt' : triggers_ok P rt -> P b -> trigger_insert a b rt = (ok, rt') -> triggers_ok P rt'.
Proof.
  intros Ht Pb. destruct (Ht) as [Hq Hn]. unfold trigger_insert. destruct (match triggers rt !! a with Some v => _ | None => _ end); [by intros [= <- <-]|].
  destruct (evict_triggers_ok P (order rt) rt Hq eq_refl) as [[Hc He] Hlt]. revert Hc He Hlt. generalize (evict_triggers (order rt) rt) as r. clear -Pb. intros r Hc He Hlt.
  fold (waiting a r). assert (Forall P (waiting a r)) as Hw by (unfold waiting; destruct (triggers r !! a) eqn:Ea; [apply (He _ _ Ea)|constructor]).
  destruct (Z.ltb_spec (len (waiting a r)) MAX_TRIGGERS_PER_ANCESTOR) as [Hl|Hl]; intros [= <- <-].
  - split; [split|]; cbn [triggers order].
    + intros x. unfold waiting. cbn [triggers]. rewrite filter_app, length_app, Hc. destruct (decide (x = a)) as [->|Hx].
      * rewrite lookup_insert_eq, filter_cons_True by done. cbn. by rewrite length_app.
      * rewrite lookup_insert_ne, filter_cons_False by done. cbn. unfold waiting. lia.
    + intros x xs Hx. apply lookup_insert_Some in Hx as [[<- <-]|[_ Hx]]; [|by apply He in Hx].
      split_and!; [by destruct (waiting a r)|unfold len in *; rewrite length_app; cbn; lia|apply Forall_app; by repeat constructor].
    + unfold len in *. rewrite length_app. cbn. lia.
  - assert (triggers r !! a = Some (waiting a r)) as Ea by (unfold waiting in *; destruct (triggers r !! a); done).
    rewrite insert_id by done. split; [by split|by apply Z.lt_le_incl].
Qed.
Lemma trigger_take_ok P a rt bs rt' : triggers_ok P rt -> trigger_take a rt = (bs, rt') -> triggers_ok P rt' /\ Forall P (default [] bs).
Proof.
  intros [[Hc He] Hn] [= <- <-]. split; [split; [split|]|]; cbn [triggers order].
  - intros x. unfold waiting. cbn [triggers]. destruct (decide (x = a)) as [->|Hx].
    + rewrite lookup_delete_eq. destruct (filter (fun y => y = a) (filter (fun y => y <> a) (order rt))) as [|y l] eqn:E; [done|].
      assert (y ∈ filter (fun y => y = a) (filter (fun y => y <> a) (order rt))) as Hy by (rewrite E; constructor). by apply list_elem_of_filter in Hy as [-> [? _]%list_elem_of_filter].
    + rewrite lookup_delete_ne by done. fold (waiting x rt). rewrite <- Hc, list_filter_filter. f_equal. apply list_filter_iff. intros y. naive_solver.
  - intros x xs Hx. apply lookup_delete_Some in Hx as [_ Hx]. by apply He in Hx.
  - unfold len in *. pose proof (length_filter (fun x => x <> a) (order rt)). lia.
  - destruct (triggers rt !! a) eqn:Ea; [apply (He _ _ Ea)|constructor].
Qed.

(** ** Future blocks *)

Record future_ok (P : Block -> Prop) (buf : list (Block * Z)) : Prop := {
  future_count : len buf <= MAX_FUTURE_BLOCKS;
  future_each : Forall (fun e => P (fst e)) buf
}.
Lemma future_nil P : future_ok P [].
Proof. by split. Qed.

Section Buffers.
Context {S : Type} `{UtxoStore S} `{!UtxoGet S} `{!UtxoRoot S}.
Context `{Sha2} `{Ed25519} `{Layout} `{Argon2}.
Variable signature_domain : Hash256.
Variable coinbase_maturity : Z.
Abbreviation Node := (@Node S).

Lemma buffer_entries env b (n : Node) e : e ∈ future_blocks (buffer_future_block env b n) -> e ∈ future_blocks n \/ e = (b, now env).
Proof.
  unfold buffer_future_block. set (buf := List.filter _ _). assert (forall e, e ∈ buf -> e ∈ future_blocks n) as Hb.
  { intros x Hx. apply list_elem_of_In in Hx. apply List.filter_In in Hx as [Hx _]. by apply list_elem_of_In. }
  destruct (existsb _ _); cbn [future_blocks with_future_blocks]; [by intros ?%Hb; left|]. intros [Hin|Hin]%elem_of_app; [|right; by apply list_elem_of_singleton in Hin].
  left. apply Hb. destruct (_ <=? _); [|done]. destruct buf; [by apply not_elem_of_nil in Hin|by right].
Qed.
Lemma buffer_count env b (n : Node) : len (future_blocks n) <= MAX_FUTURE_BLOCKS -> len (future_blocks (buffer_future_block env b n)) <= MAX_FUTURE_BLOCKS.
Proof.
  intros Hn. unfold buffer_future_block. set (buf := List.filter _ _). assert (len buf <= MAX_FUTURE_BLOCKS) as Hb.
  { unfold len in *. pose proof (List.filter_length_le (fresh_enough (now env)) (future_blocks n)).  subst buf. lia. }
  destruct (existsb _ _); cbn [future_blocks with_future_blocks]; [done|]. unfold len in *. rewrite length_app. cbn [length].
  destruct (Z.leb_spec MAX_FUTURE_BLOCKS (Z.of_nat (length buf))); [|lia]. destruct buf; cbn in *; unfold MAX_FUTURE_BLOCKS in *; lia.
Qed.
Lemma buffer_ok P env b (n : Node) : future_ok P (future_blocks n) -> P b -> future_ok P (future_blocks (buffer_future_block env b n)).
Proof.
  intros [Hc He] Pb. split; [by apply buffer_count|]. apply Forall_forall. intros e [He'| ->]%buffer_entries; [|done]. rewrite Forall_forall in He. by apply He.
Qed.
(** Either no entry of the block is new, or the first one is. *)
Lemma buffer_first env b (n : Node) :
  (exists e, e ∈ future_blocks (buffer_future_block env b n) /\ block_id (header (fst e)) = block_id (header b)) /\
  ((forall e, e ∈ future_blocks (buffer_future_block env b n) -> e ∈ future_blocks n) \/
   exists buf, future_blocks (buffer_future_block env b n) = buf ++ [(b, now env)] /\
     Forall (fun e => e ∈ future_blocks n /\ block_id (header (fst e)) <> block_id (header b)) buf).
Proof.
  unfold buffer_future_block. set (buf := List.filter _ _). assert (forall e, e ∈ buf -> e ∈ future_blocks n) as Hb.
  { intros x Hx. apply list_elem_of_In in Hx. apply List.filter_In in Hx as [Hx _]. by apply list_elem_of_In. }
  destruct (existsb _ _) eqn:Ex; cbn [future_blocks with_future_blocks].
  - apply existsb_exists in Ex as (e & Hin & Hid). apply bool_decide_eq_true in Hid. split; [|by left]. exists e. by rewrite list_elem_of_In.
  - split; [exists (b, now env); split; [apply elem_of_app; right; constructor|done]|]. right. eexists. split; [done|]. apply Forall_forall. intros e He.
    assert (e ∈ buf) as Hin by (destruct (_ <=? _); [destruct buf; [by apply not_elem_of_nil in He|by right]|done]). split; [by apply Hb|]. intros Hid.
    assert (existsb (fun x => bool_decide (block_id (header (fst x)) = block_id (header b))) buf = true); [|congruence].
    apply existsb_exists. exists e. rewrite <- list_elem_of_In. split; [done|]. by apply bool_decide_eq_true.
Qed.
Lemma set_age_entries id t buf e : e ∈ set_age id t buf -> e ∈ buf \/ exists e0, e0 ∈ buf /\ block_id (header (fst e0)) = id /\ e = (fst e0, t).
Proof.
  induction buf as [|x buf IH]; cbn [set_age]; [by left|]. destruct (decide _) as [Hx|Hx].
  - intros [->|Hin]%elem_of_cons; [right; exists x; split; [constructor|done]|left; by right].
  - intros [->|Hin]%elem_of_cons; [left; constructor|]. destruct (IH Hin) as [?|(e0 & ? & ?)]; [left; by right|right; exists e0; split; [by right|done]].
Qed.
Lemma set_age_length id t buf : length (set_age id t buf) = length buf.
Proof. induction buf as [|x buf IH]; cbn [set_age]; [done|]. destruct (decide _); cbn; congruence. Qed.
Lemma set_age_last id t buf b t0 : block_id (header b) = id -> Forall (fun e => block_id (header (fst e)) <> id) buf ->
  set_age id t (buf ++ [(b, t0)]) = buf ++ [(b, t)].
Proof.
  intros Hid. induction 1 as [|x buf Hx _ IH]; cbn [app set_age]; [by rewrite decide_True|]. rewrite decide_False by done. by rewrite IH.
Qed.

(** ** What [process_block] leaves alone *)

(** [c] keeps the pending reorganisations and the future blocks, and its results
    satisfy [Q]. *)
Definition quiet {A} (Q : A -> Prop) (c : @proc S A) : Prop := forall n r n', c n = Some (r, n') ->
  reorg_triggers n' = reorg_triggers n /\ future_blocks n' = future_blocks n /\ forall a, r = Ok a -> Q a.
Abbreviation still := (quiet (fun _ => True)).

Lemma quiet_bind {A B} Q (c : @proc S A) (f : A -> @proc S B) : still c -> (forall a, quiet Q (f a)) -> quiet Q (c ≫= f).
Proof.
  intros Hc Hf n r n'. unfold mbind, proc_bind. destruct (c n) as [[[a|e] n1]|] eqn:E; [|intros [= <- <-]|done]; apply Hc in E as (T & F & _).
  - intros (T1 & F1 & HQ)%Hf. split; [congruence|]. by split; [congruence|].
  - done.
Qed.
Lemma quiet_ret {A} (Q : A -> Prop) (a : A) : Q a -> quiet Q (mret a : @proc S A).
Proof. intros Qa n r n' [= <- <-]. split; [done|]. split; [done|]. by intros ? [= <-]. Qed.
Lemma quiet_fail {A} (Q : A -> Prop) e : quiet Q (fail e : @proc S A).
Proof. by intros n r n' [= <- <-]. Qed.
Lemma quiet_gets {A} (f : Node -> A) : still (gets f).
Proof. by intros n r n' [= <- <-]. Qed.
Lemma quiet_modify (f : Node -> Node) : (forall n, reorg_triggers (f n) = reorg_triggers n /\ future_blocks (f n) = future_blocks n) -> still (modify f).
Proof. intros Hf n r n' [= <- <-]. by destruct (Hf n). Qed.
Lemma quiet_read {A} env c (f : ChainStorage -> A) : still (read env c f : @proc S A).
Proof. intros n r n'. unfold read. destruct (io env c); by intros [= <- <-]. Qed.
Lemma quiet_write f body : still (write f body : @proc S _).
Proof. intros n r n'. unfold write. destruct (write_txn _ _ _). by intros [= <- <-]. Qed.
Lemma quiet_evict f1 f2 id : still (evict f1 f2 id : @proc S _).
Proof. intros n r n'. unfold evict. destruct (evict_fork_block _ _ _ _). by intros [= <- <-]. Qed.
Lemma quiet_utxo {E A} (c : S -> option (result E A * S)) : still (on_utxo c).
Proof. intros n r n'. unfold on_utxo. destruct (c _) as [[]|]; [|done]. by intros [= <- <-]. Qed.
Lemma quiet_load env c id : still (load_block env c id : @proc S _).
Proof. intros n r n'. unfold load_block. destruct (io env c); [by intros [= <- <-]|]. destruct (get_block _ _); by intros [= <- <-]. Qed.
Lemma quiet_none {A} (Q : A -> Prop) : quiet Q ((fun _ => None) : @proc S A).
Proof. done. Qed.

Ltac still_step :=
  cbv beta zeta; lazymatch goal with
  | |- quiet _ (_ ≫= _) => apply quiet_bind
  | |- quiet _ (mret _) => apply quiet_ret; try done
  | |- quiet _ (fail _) => apply quiet_fail
  | |- quiet _ (gets _) => apply quiet_gets
  | |- quiet _ (modify _) => apply quiet_modify; done
  | |- quiet _ (read _ _ _) => apply quiet_read
  | |- quiet _ (write _ _) => apply quiet_write
  | |- quiet _ (evict _ _ _) => apply quiet_evict
  | |- quiet _ (on_utxo _) => apply quiet_utxo
  | |- quiet _ (load_block _ _ _) => apply quiet_load
  | |- quiet _ (lift_opt ?o _) => unfold lift_opt
  | |- quiet _ (lift_res ?o _) => unfold lift_res
  | |- quiet _ (fun _ => None) => apply quiet_none
  | |- quiet _ (match ?x with _ => _ end) => destruct x
  | |- forall _, _ => intros ?
  end.
Ltac still := repeat (still_step || assumption).

Lemma evict_each_still env ids : still (evict_each env ids : @proc S _).
Proof. induction ids; cbn [evict_each]; still. Qed.
Lemma evict_quietly_still env ids : still (evict_quietly env ids : @proc S _).
Proof. induction ids; cbn [evict_quietly]; still. Qed.
Lemma keep_as_fork_quiet env b t : quiet (fun o => o <> BufferedFuture) (keep_as_fork env b t : @proc S _).
Proof.
  unfold keep_as_fork, try_store_fork_block. still; apply evict_each_still.
Qed.
Lemma walk_still (load : Hash256 -> @proc S Block) k id chain : (forall id, still (load id)) -> still (ChainManager.walk load k id chain).
Proof. intros Hl. revert id chain. induction k as [|k IH]; intros id chain; cbn [ChainManager.walk]; still; [apply Hl|apply IH]. Qed.
Lemma find_fork_still env b t : still (find_fork env b t : @proc S _).
Proof.
  assert (forall id, still (old_block env id : @proc S _)) as Ho by (intros; unfold old_block; still).
  assert (forall id, still (new_block env id : @proc S _)) as Hn by (intros; unfold new_block; still).
  assert (forall fuel o i oc nc, still (walk_both env fuel o i oc nc : @proc S _)) as Hb.
  { induction fuel as [|fuel IH]; intros; cbn [walk_both]; still; auto. }
  unfold find_fork. still; auto using walk_still.
Qed.
Lemma undo_old_still env chain undone scripts : still (undo_old_chain env chain undone scripts : @proc S _).
Proof. revert undone scripts. induction chain as [|b chain IH]; intros; cbn [undo_old_chain]; unfold abandon_undo; still; auto. Qed.
Lemma apply_new_still env chain p : still (apply_new_chain signature_domain coinbase_maturity env chain p : @proc S _).
Proof. revert p. induction chain as [|b chain IH]; intros; cbn [apply_new_chain]; still; auto. Qed.
Lemma demote_still env chain : still (demote env chain : @proc S _).
Proof.
  assert (forall stored, still (demote_blocks env chain stored : @proc S _)) as Hd by (induction chain as [|b chain IH]; intros; cbn [demote_blocks]; still; auto).
  unfold demote. still; auto using evict_quietly_still.
Qed.
Lemma reorganise_still env b t c : still (reorganise signature_domain coinbase_maturity env b t c : @proc S _).
Proof. unfold reorganise, abandon_reorg. still; auto using find_fork_still, undo_old_still, apply_new_still, demote_still. Qed.
Lemma commit_quiet env b t : quiet (fun o => o <> BufferedFuture) (commit signature_domain coinbase_maturity env b t : @proc S _).
Proof.
  unfold commit, ChainManager.announce. still; auto using keep_as_fork_quiet, reorganise_still.
  - unfold extend_tip, undo_block_or_die. still.
  - intros n r n'. unfold update_mempool. destruct (reintroduce _ _ _ _ _ _); [|done]. by intros [= <- <-].
Qed.

(** The future blocks after a call about [b] with the result [r]. *)
Definition buffered (env : Env) (b : Block) (n : Node) (r : result ProcessBlockError ProcessBlockOutcome) : list (Block * Z) :=
  match r with Ok BufferedFuture => future_blocks (buffer_future_block env b n) | _ => future_blocks n end.
Lemma buffer_only env b (n n' : Node) : future_blocks n' = future_blocks n -> future_blocks (buffer_future_block env b n') = future_blocks (buffer_future_block env b n).
Proof. intros E. unfold buffer_future_block. rewrite E. by destruct (existsb _ _). Qed.

Definition settles (env : Env) (b : Block) (c : @proc S ProcessBlockOutcome) : Prop := forall n r n', c n = Some (r, n') ->
  reorg_triggers n' = reorg_triggers n /\ future_blocks n' = buffered env b n r.
Lemma settles_quiet env b c : quiet (fun o => o <> BufferedFuture) c -> settles env b c.
Proof. intros Hc n r n' (T & F & HQ)%Hc. split; [done|]. rewrite F. destruct r as [[]|]; try done. by destruct (HQ BufferedFuture). Qed.
Lemma settles_bind {A} env b (c : @proc S A) f : still c -> (forall a, settles env b (f a)) -> settles env b (c ≫= f).
Proof.
  intros Hc Hf n r n'. unfold mbind, proc_bind. destruct (c n) as [[[a|e] n1]|] eqn:E; [|intros [= <- <-]|done]; apply Hc in E as (T & F & _); [|done].
  intros [T1 F1]%Hf. split; [congruence|]. rewrite F1. destruct r as [[]|]; [done|done| |done]. by apply buffer_only.
Qed.
Lemma settles_assoc {A B} env b (c : @proc S A) (f : A -> @proc S B) g : settles env b (c ≫= fun a => f a ≫= g) -> settles env b ((c ≫= f) ≫= g).
Proof. intros Hs n r n' Hc. apply Hs. revert Hc. unfold mbind, proc_bind. by destruct (c n) as [[[a|e] n1]|]. Qed.
Lemma settles_ret {A} env b (a : A) (g : A -> @proc S ProcessBlockOutcome) : settles env b (g a) -> settles env b ((mret a : @proc S A) ≫= g).
Proof. done. Qed.
Lemma settles_fail {A} env b e (g : A -> @proc S ProcessBlockOutcome) : settles env b ((fail e : @proc S A) ≫= g).
Proof. by intros n r n' [= <- <-]. Qed.
Lemma target_still env prev h : still (expected_target env prev h : @proc S _).
Proof.
  intros n r n'. unfold expected_target, cached_expected_difficulty. destruct (_ !! _); [by intros [= <- <-]|]. destruct (expected_difficulty _ _ _) as [|[]]; by intros [= <- <-].
Qed.
Lemma checkpoint_still env b : still (check_checkpoint env b : @proc S _).
Proof. intros n r n'. unfold check_checkpoint. destruct (_ && _); [|by intros [= <- <-]]. destruct (bool_decide _); by intros [= <- <-]. Qed.

Lemma process_buffers env b skip : settles env b (process_block_inner signature_domain coinbase_maturity env b skip : @proc S _).
Proof.
  assert (forall p : prepared, match p with Finished o => o <> BufferedFuture | Contender _ => True end ->
            settles env b (match p with Finished o => mret o | Contender t => commit signature_domain coinbase_maturity env b t end)) as Hk.
  { intros [o|t]; [|intros _; apply settles_quiet, commit_quiet]. intros Ho. apply settles_quiet. by apply quiet_ret. }
  unfold process_block_inner, prepare. cbv zeta. apply settles_assoc, settles_bind; [apply quiet_read|]. intros [].
  { apply settles_ret, (Hk (Finished Stored)). discriminate. }
  destruct (_ =? 0); [apply settles_fail|]. do 2 (apply settles_assoc, settles_bind; [still|]; intros ?). apply settles_assoc, settles_bind; [still|]. intros ts.
  apply settles_assoc, settles_bind; [apply target_still|]. intros target. destruct (check_header _ _ _ _ _ _) as [[]|e].
  - apply settles_assoc, settles_bind; [apply checkpoint_still|]. intros _. do 3 (apply settles_assoc, settles_bind; [still|]; intros ?).
    destruct (negb _); [|by apply settles_ret, (Hk (Contender _))]. apply settles_assoc. intros n r n'. unfold mbind at 1, proc_bind at 1.
    destruct (keep_as_fork env b _ n) as [[[o|e] n1]|] eqn:E; [| |done]; apply keep_as_fork_quiet in E as (T & F & HQ).
    + intros [= <- <-]. specialize (HQ _ eq_refl). split; [done|]. rewrite F. by destruct o.
    + by intros [= <- <-].
  - destruct e; try apply settles_fail. intros n r n' [= <- <-]. split; [|done]. unfold buffer_future_block. by destruct (existsb _ _).
Qed.
End Buffers.
