(* ===== verification/RelaySafety.v ===== *)
(** * Blocks from peers keep the node consistent

    The relay of [BlockRelay.v] over the consistent node of [ChainState.v]: every
    event keeps the chain consistent and the buffers within their limits, the
    cascade over the orphans ends and leaves nobody waiting for a block that got
    in, and trying future blocks again does not make them younger. *)

From S2P Require Import Prelude Bytes Codec Hash Transaction Block Wire U256 Difficulty Reward.
From S2P Require Import ScriptValue ScriptCodec Jets ScriptCost Eval FeeCost Smt Utxo TxValidation BlockValidation BlockApply Mempool.
From S2P Require Import Storage PeerRegistry PeerPolicy BlockRelay ChainManager StoreView ChainModel StorageFacts ChainStore ChainState RelayFacts.
#[local] Open Scope Z_scope.
#[local] Open Scope list_scope.

(** ** Bans are written beside the chain *)

Abbreviation ban_tables := [IP_BAN_TABLE; IDENTITY_BAN_TABLE].
Lemma persist_bans fault body db : (forall d d', body d = Ok d' -> touches ban_tables d d') -> touches ban_tables db (persist fault body db).
Proof.
  intros Hb. unfold persist, write_txn. destruct fault; [apply touches_refl|]. destruct (body db) eqn:E; [by apply Hb|apply touches_refl].
Qed.
Lemma identity_bans_touch pk db d : remove_identity_ban pk db = Ok d -> touches ban_tables db d.
Proof. intros [= <-]. eapply touches_weaken; [|apply touches_remove]. set_solver. Qed.
Lemma evict_identities_touch walk fuel fault bans db : touches ban_tables db (snd (evict_identities walk fuel fault bans db)).
Proof.
  revert bans db. induction fuel as [|fuel IH]; intros bans db; cbn [evict_identities]; [apply touches_refl|]. destruct (_ <=? _); [|apply touches_refl].
  destruct (least _ _ _ _) as [pk|]; [|apply touches_refl]. eapply touches_trans; [|apply IH]. apply persist_bans, identity_bans_touch.
Qed.
Lemma ban_identity_touch walk now unix fault pk a : touches ban_tables (ban_db a) (ban_db (ban_identity walk now unix fault pk a)).
Proof.
  unfold ban_identity. destruct (bool_decide _); [apply touches_refl|]. set (p := if _ <=? _ then _ else _). assert (touches ban_tables (ban_db a) (snd p)) as Hp.
  { unfold p. destruct (_ <=? _); [|apply touches_refl]. eapply touches_trans; [|apply evict_identities_touch]. apply touches_fold. intros. apply persist_bans, identity_bans_touch. }
  destruct p as [bans db]. cbn [snd ban_db] in *. eapply touches_trans; [exact Hp|]. apply persist_bans. intros d d' [= <-]. eapply touches_weaken; [|apply touches_insert]. set_solver.
Qed.
Lemma strike_touches walk now unix f g ip id a : touches ban_tables (ban_db a) (ban_db (snd (record_ip_strike walk now unix f g ip id a))).
Proof.
  unfold record_ip_strike. destruct (_ <=? _); [|apply touches_refl]. cbn [snd]. assert (touches ban_tables (ban_db a) (persist f (put_ip_ban ip (ban_end_unix unix)) (ban_db a))) as Hp.
  { apply persist_bans. intros d d' [= <-]. eapply touches_weaken; [|apply touches_insert]. set_solver. }
  destruct id; [|exact Hp]. eapply touches_trans; [exact Hp|]. apply (ban_identity_touch walk now unix g _ (Build_Abuse _ _ _)).
Qed.

Section Safety.
Context {lost : Prop} {S : Type} `{StoreView lost S} `{!UtxoRoot S}.
Context `{Sha2} `{!Sha2Width} `{Ed25519} `{Layout} `{Argon2}.
Variable signature_domain : Hash256.
Variable coinbase_maturity : Z.
Variables (U : Block -> Prop) (genesis : Block).
Hypothesis world : World U genesis.
Variable walk : forall {K V} `{Countable K}, gmap K V -> list (K * V).
Variable moments : nat -> Moment.
(** The read of the fork point's work does not fail: the fault whose roll-back
    is incomplete. *)
Hypothesis fork_point_read : forall k, io (m_env (moments k)) AtForkPointWork = false.
Abbreviation node_ok := (node_ok U genesis).
Abbreviation on_chain := (on_chain U genesis).
Abbreviation db_ok := (db_ok U genesis).
Abbreviation Relay := (@Relay S).
Abbreviation rel := (@rel S).
Abbreviation id_of b := (block_id (header b)).

Lemma bans_db_ok l db db' : db_ok l db -> touches ban_tables db db' -> db_ok l db'.
Proof.
  intros [Hr Hp Hi Ht] T. destruct (T) as [Th _]. split.
  - intros t k v Hg. destruct (decide (t ∈ ban_tables)) as [Hin|Hout]; [|apply Hr; by rewrite <- (touches_get _ _ _ _ _ T Hout)].
    apply elem_of_cons in Hin as [->|Hin%list_elem_of_singleton]; [done|by subst t].
  - intros t k v Hk. rewrite (touches_get _ _ _ _ _ T); [by apply Hp|]. intros Hin. destruct Hk as (i & b & ms & _ & _ & Hk).
    apply elem_of_cons in Hin as [->|Hin%list_elem_of_singleton]; [done|by subst t].
  - by rewrite Th.
  - rewrite (touches_get _ _ _ _ _ T); [done|]. clear. set_solver.
Qed.

(** ** The invariant *)

Record relay_ok (st : Relay) : Prop := {
  ro_node : exists l, node_ok l (node st);
  ro_orphans : orphans_ok U (orphan_blocks st);
  ro_future : future_ok U (future_blocks (node st));
  ro_triggers : triggers_ok U (reorg_triggers (node st))
}.
Definition no_worse (t t' : ChainTip) : Prop := t' = t \/ is_better_chain t' t = true.
(** [st'] comes later: still consistent, on no worse a tip, and a shutdown is not
    taken back. *)
Record onward (st st' : Relay) : Prop := {
  ow_ok : relay_ok st';
  ow_tip : no_worse (tip (node st)) (tip (node st'));
  ow_down : shutdown st = true -> shutdown st' = true
}.
Lemma onward_refl st : relay_ok st -> onward st st.
Proof. by split; [|left|]. Qed.
Lemma relay_tip_len st : relay_ok st -> len (cumulative_work (tip (node st))) = 32.
Proof. intros [[l Hn] _ _ _]. by eapply tip_len. Qed.
Lemma onward_trans st1 st2 st3 : relay_ok st1 -> onward st1 st2 -> onward st2 st3 -> onward st1 st3.
Proof.
  intros O1 [O2 T12 D12] [O3 T23 D23]. split; [done| |auto]. destruct T23 as [->|T23]; [done|]. destruct T12 as [E|T12]; [by right; rewrite <- E|].
  right. eapply better_trans; [| | |exact T23|exact T12]; by apply relay_tip_len.
Qed.

Definition rwp {A} (c : rel A) (st : Relay) (Q : A -> Relay -> Prop) : Prop :=
  match c st with Some (a, st') => Q a st' | None => lost end.
Lemma rwp_mono {A} (c : rel A) st (Q Q' : A -> Relay -> Prop) : rwp c st Q -> (forall a st', Q a st' -> Q' a st') -> rwp c st Q'.
Proof. unfold rwp. destruct (c st) as [[]|]; auto. Qed.
Lemma rwp_bind {A B} (c : rel A) (f : A -> rel B) st Q : rwp c st (fun a st' => rwp (f a) st' Q) -> rwp (c ≫= f) st Q.
Proof. unfold rwp, mbind, rel_bind. by destruct (c st) as [[]|]. Qed.
Lemma rwp_ret {A} (a : A) st (Q : A -> Relay -> Prop) : Q a st -> rwp (mret a : rel A) st Q.
Proof. done. Qed.
Lemma rwp_see {A} (f : Relay -> A) st Q : Q (f st) st -> rwp (see f) st Q.
Proof. done. Qed.
Lemma rwp_update f st (Q : unit -> Relay -> Prop) : Q tt (f st) -> rwp (update f) st Q.
Proof. done. Qed.

(** States that differ in what the invariant does not speak of. *)
Record similar (st st' : Relay) : Prop := {
  sm_node : node st' = node st;
  sm_orphans : orphan_blocks st' = orphan_blocks st;
  sm_down : shutdown st' = shutdown st
}.
Lemma similar_refl st : similar st st.
Proof. done. Qed.
Lemma similar_trans st1 st2 st3 : similar st1 st2 -> similar st2 st3 -> similar st1 st3.
Proof. intros [] []. split; congruence. Qed.
Lemma similar_ok st st' : similar st st' -> relay_ok st -> relay_ok st'.
Proof. intros [En Eo _] [Hn Ho Hf Ht]. split; by rewrite ?En, ?Eo. Qed.
Lemma similar_onward st st' : similar st st' -> relay_ok st -> onward st st'.
Proof. intros Hs Hok. split; [by eapply similar_ok|left; by rewrite (sm_node _ _ Hs)|by rewrite (sm_down _ _ Hs)]. Qed.

Lemma rwp_observe st (Q : Moment -> Relay -> Prop) :
  (forall m st', io (m_env m) AtForkPointWork = false -> similar st st' -> Q m st') -> rwp (observe moments) st Q.
Proof. intros HQ. unfold rwp, observe. apply HQ; [apply fork_point_read|done]. Qed.

(** ** Channels *)

Abbreviation harmless c := (forall st, rwp c st (fun _ st' => similar st st')).
Lemma send_similar id msg : harmless (send_to_peer moments id msg).
Proof.
  intros st. unfold send_to_peer. apply rwp_bind, rwp_see. destruct (connected _ _); [|by apply rwp_ret]. apply rwp_bind, rwp_observe. intros m st1 _ S1.
  destruct (m_sent m id); [|by apply rwp_ret]. apply rwp_bind, rwp_update, rwp_ret. eapply similar_trans; [exact S1|done].
Qed.
Lemma broadcast_similar msg ex : harmless (broadcast (@walk) moments msg ex).
Proof.
  intros st. unfold broadcast. apply rwp_bind, rwp_see, rwp_bind, rwp_observe. intros m st1 _ S1. apply rwp_update. eapply similar_trans; [exact S1|done].
Qed.
Lemma ask_any_similar ids msg : harmless (ask_any moments ids msg).
Proof.
  induction ids as [|id ids IH]; intros st; cbn [ask_any]; [by apply rwp_ret|]. apply rwp_bind. eapply rwp_mono; [apply send_similar|]. intros [] st1 S1; [by apply rwp_ret|].
  eapply rwp_mono; [apply IH|]. intros ? st2 S2. by eapply similar_trans.
Qed.
Lemma request_similar id p : harmless (request_ancestor (@walk) moments id p).
Proof.
  intros st. unfold request_ancestor. destruct p as [p|].
  - apply rwp_bind. eapply rwp_mono; [apply send_similar|]. intros ? st1 S1. by apply rwp_ret.
  - apply rwp_bind, rwp_see. apply ask_any_similar.
Qed.

(** ** Processing one block *)

(** [st'] is [st] with another node: a block of [bs] may have become the tip or a
    future block. *)
Record worked (bs : list Block) (st st' : Relay) : Prop := {
  wk_onward : onward st st';
  wk_orphans : orphan_blocks st' = orphan_blocks st;
  wk_triggers : reorg_triggers (node st') = reorg_triggers (node st);
  wk_future e : e ∈ future_blocks (node st') -> e ∈ future_blocks (node st) \/ fst e ∈ bs
}.
Lemma worked_refl bs st : relay_ok st -> worked bs st st.
Proof. split; auto using onward_refl. Qed.
Lemma worked_weaken bs bs' st st' : bs ⊆ bs' -> worked bs st st' -> worked bs' st st'.
Proof. intros Hs [? ? ? Hf]. split; [done..|]. intros e He. destruct (Hf e He); [by left|right; by apply Hs]. Qed.
Lemma worked_trans bs st1 st2 st3 : relay_ok st1 -> worked bs st1 st2 -> worked bs st2 st3 -> worked bs st1 st3.
Proof.
  intros O1 [W1 Eo1 Et1 F1] [W2 Eo2 Et2 F2]. split; [by eapply onward_trans|congruence|congruence|]. intros e He. destruct (F2 e He) as [He'|]; [by apply F1|by right].
Qed.
Lemma similar_worked bs st st' : similar st st' -> relay_ok st -> worked bs st st'.
Proof. intros Hs Hok. split; [by apply similar_onward|apply Hs|by rewrite (sm_node _ _ Hs)|]. rewrite (sm_node _ _ Hs). by left. Qed.

Abbreviation process := (process signature_domain coinbase_maturity).
Lemma process_ok env skip b st : relay_ok st -> U b -> io env AtForkPointWork = false ->
  rwp (process env skip b) st (fun r st' => worked [b] st st' /\ shutdown st' = shutdown st /\ future_blocks (node st') = buffered env b (node st) r).
Proof.
  intros [[l Hn] Ho Hf Ht] Ub Hio. unfold rwp, BlockRelay.process. pose proof (process_block_ok signature_domain coinbase_maturity U genesis world l env b skip (node st) Hn Ub Hio) as Hp.
  unfold wp in Hp. destruct (process_block_inner _ _ _ _ _ _) as [[r n']|] eqn:E; [|done]. apply process_buffers in E as [Et Ef]. destruct Hp as (l' & Hn' & Hr).
  split; [|done]. split; [|done|done|].
  - split; [|destruct r as [[]|]; [right; apply Hr|left; apply Hr..]|done]. split; [by exists l'|done| |cbn; by rewrite Et].
    cbn. rewrite Ef. unfold buffered. destruct r as [[]|]; [done..|by apply buffer_ok|done].
  - cbn. rewrite Ef. intros e He. destruct r as [[]|]; [by left..| |by left]. cbn in He. apply buffer_entries in He as [Hin|Heq]; [by left|right; rewrite Heq; constructor].
Qed.

Lemma with_shutdown_worked bs st : relay_ok st -> worked bs st (with_shutdown st).
Proof. intros Hok. split; [split; [by destruct Hok|by left|done]|done|done|by left]. Qed.

(** ** Orphans *)

Lemma children_ok cs acc st : relay_ok st -> Forall U cs ->
  rwp (process_children signature_domain coinbase_maturity moments cs acc) st (fun p st' =>
    worked cs st st' /\ (snd p = true -> shutdown st' = true) /\ (cs = [] -> fst p = acc)).
Proof.
  revert acc st. induction cs as [|b cs IH]; intros acc st Hok Hu; cbn [process_children]; [apply rwp_ret; split; [by apply worked_refl|done]|].
  apply Forall_cons in Hu as [Ub Hu]. apply rwp_bind, rwp_observe. intros m st1 Hio S1. assert (relay_ok st1) as Hok1 by by eapply similar_ok.
  apply rwp_bind. eapply rwp_mono; [by apply process_ok|]. cbv beta. intros r st2 (W2 & _ & _). assert (relay_ok st2) as Hok2 by apply W2.
  assert (worked (b :: cs) st st2) as W. { eapply worked_trans; [done|by apply similar_worked|]. eapply worked_weaken; [|exact W2]. set_solver. }
  assert (forall acc, rwp (process_children signature_domain coinbase_maturity moments cs acc) st2 (fun p st' =>
            worked (b :: cs) st st' /\ (snd p = true -> shutdown st' = true) /\ (b :: cs = [] -> fst p = acc))) as Hrest.
  { intros acc'. eapply rwp_mono; [by apply IH|]. cbv beta. intros p st3 (W3 & Hd & _). split; [|done]. eapply worked_trans; [done|exact W|]. eapply worked_weaken; [|exact W3]. set_solver. }
  destruct r as [[]|e].
  - eapply rwp_mono; [apply Hrest|]. by intros p st3 (? & ? & _).
  - eapply rwp_mono; [apply Hrest|]. by intros p st3 (? & ? & _).
  - apply Hrest.
  - destruct (is_fatal e); [|apply Hrest]. apply rwp_bind, rwp_update, rwp_ret. split; [|done]. eapply worked_trans; [done|exact W|]. by apply with_shutdown_worked.
Qed.

(** What resolving orphans does: it only takes entries out of the cache. *)
Record drained (st st' : Relay) : Prop := {
  dr_onward : onward st st';
  dr_orphans : exists got, Permutation (orphan_blocks st) (got ++ orphan_blocks st');
  dr_triggers : reorg_triggers (node st') = reorg_triggers (node st);
  dr_future e : e ∈ future_blocks (node st') -> e ∈ future_blocks (node st) \/ exists o, o ∈ orphan_blocks st /\ fst e = orphan o
}.
Lemma drained_refl st : relay_ok st -> drained st st.
Proof. intros Hok. split; [by apply onward_refl|by exists []|done|by left]. Qed.
Lemma drained_trans st1 st2 st3 : relay_ok st1 -> drained st1 st2 -> drained st2 st3 -> drained st1 st3.
Proof.
  intros O1 [W1 [g1 P1] T1 F1] [W2 [g2 P2] T2 F2]. split; [by eapply onward_trans| |congruence|].
  - exists (g1 ++ g2). by rewrite P1, P2, app_assoc.
  - intros e He. destruct (F2 e He) as [He'|(o & Ho & E)]; [by apply F1|]. right. exists o. split; [|done]. rewrite P1. apply elem_of_app. by right.
Qed.
Lemma drained_shorter st st' : drained st st' -> (length (orphan_blocks st') <= length (orphan_blocks st))%nat.
Proof. intros [_ [g Hp] _ _]. apply Permutation_length in Hp. rewrite length_app in Hp. lia. Qed.

Definition released (id : Hash256) (st : Relay) : Prop := Forall (fun o => waits_for o <> id) (orphan_blocks st).
Lemma drained_released id st st' : drained st st' -> released id st -> released id st'.
Proof. intros [_ [g Hp] _ _] Hr. unfold released in *. rewrite Hp in Hr. by apply Forall_app in Hr as [_ ?]. Qed.

(** After a resolution that returned [ids], nobody waits for one of them. *)
Definition resolved (ids : list Hash256) (st st' : Relay) : Prop :=
  drained st st' /\ (shutdown st' = false -> forall id, id ∈ ids -> released id st').
Lemma resolved_seq ids1 ids2 st1 st2 st3 : relay_ok st1 -> resolved ids1 st1 st2 -> resolved ids2 st2 st3 -> resolved (ids1 ++ ids2) st1 st3.
Proof.
  intros O1 [D1 R1] [D2 R2]. split; [by eapply drained_trans|]. intros Hd id [Hin|Hin]%elem_of_app; [|by apply R2]. eapply drained_released; [exact D2|]. apply R1; [|done].
  destruct (shutdown st2) eqn:E; [|done]. apply D2 in E. congruence.
Qed.
Lemma resolved_app ids1 ids2 st st' : resolved ids1 st st' -> resolved ids2 st st' -> resolved (ids1 ++ ids2) st st'.
Proof. intros [D R1] [_ R2]. split; [done|]. intros Hd id [Hin|Hin]%elem_of_app; auto. Qed.

Lemma for_all_resolved f ids n st :
  (forall id st, relay_ok st -> (length (orphan_blocks st) < n)%nat -> rwp (f id) st (fun gs st' => resolved (id :: gs) st st')) ->
  relay_ok st -> (length (orphan_blocks st) < n)%nat -> rwp (for_all f ids) st (fun gss st' => resolved (ids ++ concat gss) st st').
Proof.
  intros Hf. revert st. induction ids as [|id ids IH]; intros st Hok Hn; cbn [for_all]; [apply rwp_ret; split; [by apply drained_refl|set_solver]|].
  apply rwp_bind. eapply rwp_mono; [by apply Hf|]. cbv beta. intros gs st1 R1. assert (relay_ok st1) as Hok1 by apply R1. apply rwp_bind.
  eapply rwp_mono; [apply IH; [done|]|]. { pose proof (drained_shorter _ _ (proj1 R1)). lia. }
  cbv beta. intros gss st2 R2. apply rwp_ret. destruct (resolved_seq _ _ _ _ _ Hok R1 R2) as [D R]. split; [done|]. intros Hd i Hi. apply R; [done|].
  cbn [concat] in Hi. set_solver.
Qed.

Lemma take_orphans_ok parent st : relay_ok st ->
  rwp (take_orphans parent) st (fun cs st' => drained st st' /\ released parent st' /\ shutdown st' = shutdown st /\ node st' = node st /\
    exists got, cs = map orphan got /\ Forall U cs /\ Permutation (orphan_blocks st) (got ++ orphan_blocks st')).
Proof.
  intros Hok. unfold rwp, take_orphans. destruct (drain_spec (length (orphan_blocks st)) parent 0 (orphan_blocks st) []) as (got & rest & -> & Hp & Hg & Hr); [lia|lia|].
  destruct (Hok) as [Hn Ho Hf Ht]. destruct (orphans_part _ _ _ _ Ho Hp) as [Hrest Hu]. cbn [app]. split; [|split; [exact Hr|]; split; [done|]; split; [done|]; by exists got].
  split; [|by exists got|done|by left]. by split; [split|left|].
Qed.

Abbreviation try_process_orphans := (try_process_orphans signature_domain coinbase_maturity moments).
Lemma orphans_ok_fuel fuel parent st : relay_ok st -> (length (orphan_blocks st) < fuel)%nat ->
  rwp (try_process_orphans fuel parent) st (fun ids st' => resolved (parent :: ids) st st').
Proof.
  revert parent st. induction fuel as [|fuel IH]; intros parent st Hok Hlen; [lia|]. cbn [BlockRelay.try_process_orphans]. apply rwp_bind.
  eapply rwp_mono; [by apply take_orphans_ok|]. cbv beta. intros cs st1 (D1 & R1 & Hd1 & Hn1 & got & -> & Hu & Hp). assert (relay_ok st1) as Hok1 by apply D1.
  apply rwp_bind. eapply rwp_mono; [by apply children_ok|]. cbv beta. intros [ids fatal] st2 (W2 & Hfat & Hnil). cbn [fst snd] in *. assert (relay_ok st2) as Hok2 by apply W2.
  assert (drained st st2) as D2.
  { split; [eapply onward_trans; [exact Hok|apply D1|apply W2]|exists got; by rewrite (wk_orphans _ _ _ W2)|by rewrite (wk_triggers _ _ _ W2), Hn1|]. intros e He.
    destruct (wk_future _ _ _ W2 e He) as [He'|Hin]; [left; by rewrite <- Hn1|]. right. apply list_elem_of_fmap in Hin as (o & -> & Ho). exists o. split; [|done]. rewrite Hp.
    apply elem_of_app. by left. }
  assert (resolved [parent] st st2) as R2. { split; [done|]. intros _ id ->%list_elem_of_singleton. unfold released. by rewrite (wk_orphans _ _ _ W2). }
  destruct fatal.
  - apply rwp_ret. split; [done|]. rewrite Hfat; done.
  - apply rwp_bind. destruct got as [|o got].
    + rewrite (Hnil eq_refl). cbn [for_all]. apply rwp_ret, rwp_ret. done.
    + apply Permutation_length in Hp. cbn [app length] in Hp. rewrite length_app in Hp. eapply rwp_mono; [apply (for_all_resolved _ _ fuel); [exact IH|done|]|].
      { rewrite (wk_orphans _ _ _ W2). lia. }
      cbv beta. intros gss st3 R3. apply rwp_ret. apply (resolved_seq [parent] _ _ _ _ Hok R2 R3).
Qed.
Lemma resolve_ok parent st : relay_ok st ->
  rwp (resolve_orphans signature_domain coinbase_maturity moments parent) st (fun ids st' => resolved (parent :: ids) st st').
Proof. intros Hok. apply orphans_ok_fuel; [done|lia]. Qed.

(** ** Pending reorganisations *)

Lemma with_node_ok l (n n' : @Node S) : node_ok l n -> storage n' = storage n -> utxo_set n' = utxo_set n -> tip n' = tip n -> mempool n' = mempool n -> node_ok l n'.
Proof. intros [Hl Hd Ht Hp] Es Eu Et Em. split; by rewrite ?Es, ?Eu, ?Et, ?Em. Qed.
Lemma triggers_changed st t : relay_ok st -> triggers_ok U t -> relay_ok (with_node (with_triggers t (node st)) st).
Proof. intros [[l Hn] Ho Hf _] Ht. split; [exists l; by eapply with_node_ok|done|done|done]. Qed.
Lemma future_changed f st : relay_ok st -> future_ok U (f (future_blocks (node st))) -> relay_ok (edit_future f st).
Proof. intros [[l Hn] Ho _ Ht] Hf. split; [exists l; by eapply with_node_ok|done|done|done]. Qed.

(** The node's chain, the orphans, the future blocks and the flag are as before. *)
Record aside (st st' : Relay) : Prop := {
  as_ok : relay_ok st';
  as_tip : tip (node st') = tip (node st);
  as_future : future_blocks (node st') = future_blocks (node st);
  as_orphans : orphan_blocks st' = orphan_blocks st;
  as_down : shutdown st' = shutdown st
}.
Lemma aside_onward st st' : aside st st' -> onward st st'.
Proof. intros [? Et _ _ Ed]. split; [done|by left|by rewrite Ed]. Qed.
Lemma aside_trans st1 st2 st3 : aside st1 st2 -> aside st2 st3 -> aside st1 st3.
Proof. intros [] []. split; [done|congruence..]. Qed.
Lemma similar_aside st st' : similar st st' -> relay_ok st -> aside st st'.
Proof. intros Hs Hok. destruct (Hs) as [En Eo Ed]. split; [by eapply similar_ok|by rewrite En..|done|done]. Qed.
Lemma queue_ok a b st : relay_ok st -> U b -> rwp (queue_trigger a b) st (fun _ st' => aside st st').
Proof.
  intros Hok Ub. unfold rwp, queue_trigger, at_node. destruct (trigger_insert a b _) as [ok t] eqn:E. split; try done. apply triggers_changed; [done|].
  eapply trigger_insert_ok; [apply Hok|exact Ub|exact E].
Qed.
Lemma queue_request_ok a b (ask : rel unit) st : relay_ok st -> U b -> harmless ask -> rwp (_ ← queue_trigger a b; ask) st (fun _ st' => aside st st').
Proof.
  intros Hok Ub Ha. apply rwp_bind. eapply rwp_mono; [by apply queue_ok|]. cbv beta. intros ok st1 A1. eapply rwp_mono; [apply Ha|]. cbv beta. intros x st2 S2.
  eapply aside_trans; [exact A1|]. apply similar_aside; [done|apply A1].
Qed.

Lemma retry_triggers_ok bs clock p st : relay_ok st -> Forall U bs ->
  rwp (retry_triggers signature_domain coinbase_maturity (@walk) moments bs clock p) st (fun _ st' => onward st st').
Proof.
  revert st. induction bs as [|b bs IH]; intros st Hok Hu; cbn [retry_triggers]; [by apply rwp_ret, onward_refl|]. apply Forall_cons in Hu as [Ub Hu].
  assert (forall st1, onward st st1 -> rwp (retry_triggers signature_domain coinbase_maturity (@walk) moments bs clock p) st1 (fun _ st' => onward st st')) as Hgo.
  { intros st1 O1. eapply rwp_mono; [apply IH; [apply O1|done]|]. cbv beta. intros x st2 O2. by eapply onward_trans. }
  apply rwp_bind, rwp_observe. intros m st1 Hio S1. assert (relay_ok st1) as Hok1 by by eapply similar_ok. apply rwp_bind. eapply rwp_mono; [by apply process_ok|].
  cbv beta. intros r st2 (W2 & _ & _). assert (onward st st2) as O2 by (eapply onward_trans; [done|by apply similar_onward|apply W2]). assert (relay_ok st2) as Hok2 by apply O2.
  assert (rwp (_ ← resolve_orphans signature_domain coinbase_maturity moments (id_of b); retry_triggers signature_domain coinbase_maturity (@walk) moments bs clock p) st2
            (fun _ st' => onward st st')) as Hres.
  { apply rwp_bind. eapply rwp_mono; [by apply resolve_ok|]. cbv beta. intros ids st3 [D _]. apply Hgo. eapply onward_trans; [done|exact O2|apply D]. }
  destruct r as [[]|e]; [exact Hres|exact Hres|by apply Hgo|].
  assert (rwp (if is_fatal e then update with_shutdown else retry_triggers signature_domain coinbase_maturity (@walk) moments bs clock p) st2 (fun _ st' => onward st st')) as Herr.
  { destruct (is_fatal e); [|by apply Hgo]. apply rwp_update. eapply onward_trans; [done|exact O2|by apply (with_shutdown_worked [])]. }
  destruct e as [e|e|deeper]; [exact Herr|exact Herr|]. apply rwp_bind. eapply rwp_mono; [by apply queue_ok|]. cbv beta. intros ok st3 A3. apply rwp_bind.
  eapply rwp_mono; [apply request_similar|]. cbv beta. intros x st4 S4. apply Hgo. eapply onward_trans; [done|exact O2|]. apply aside_onward.
  eapply aside_trans; [exact A3|]. apply similar_aside; [done|apply A3].
Qed.
Lemma retry_reorg_ok a clock p st : relay_ok st ->
  rwp (retry_reorg_triggers signature_domain coinbase_maturity (@walk) moments a clock p) st (fun _ st' => onward st st').
Proof.
  intros Hok. unfold retry_reorg_triggers. apply rwp_bind. unfold rwp at 1, at_node. destruct (trigger_take a _) as [bs t] eqn:E.
  apply (trigger_take_ok U) in E as [Ht Hu]; [|apply Hok]. assert (relay_ok (with_node (with_triggers t (node st)) st)) as Hok1 by by apply triggers_changed.
  eapply rwp_mono; [by apply retry_triggers_ok|]. cbv beta. intros x st' O. eapply onward_trans; [exact Hok| |exact O]. by split; [|left|].
Qed.

(** ** Future blocks *)

(** An entry that was there before [B], by its block and time, or comes from an
    orphan. *)
Definition aged (B : list (Block * Z)) (O : list Orphan) (e : Block * Z) : Prop :=
  (exists b, (b, snd e) ∈ B /\ id_of b = id_of (fst e)) \/ exists o, o ∈ O /\ fst e = orphan o.
Record aging (B : list (Block * Z)) (O : list Orphan) (st : Relay) : Prop := {
  ag_ok : relay_ok st;
  ag_future : Forall (aged B O) (future_blocks (node st));
  ag_orphans o : o ∈ orphan_blocks st -> o ∈ O
}.
Lemma similar_aging B O st st' : similar st st' -> aging B O st -> aging B O st'.
Proof. intros Hs [Hok Hf Ho]. destruct (Hs) as [En Eo _]. split; [by eapply similar_ok|by rewrite En|by rewrite Eo]. Qed.
Lemma aside_aging B O st st' : aside st st' -> aging B O st -> aging B O st'.
Proof. intros [Hok _ Ef Eo _] [_ Hf Ho]. split; [done|by rewrite Ef|by rewrite Eo]. Qed.
Lemma drained_aging B O st st' : drained st st' -> aging B O st -> aging B O st'.
Proof.
  intros [Hon [got Hp] _ Hf] [Hok Ha Ho]. split; [apply Hon| |].
  - apply Forall_forall. intros e He. rewrite Forall_forall in Ha. destruct (Hf e He) as [He'|(o & Hin & E)]; [by apply Ha|]. right. exists o. auto.
  - intros o Hin. apply Ho. rewrite Hp. apply elem_of_app. by right.
Qed.
(** Buffering a block of [B] again and giving it back its time. *)
Lemma rebuffer_aged B O env b t (n : @Node S) : (b, t) ∈ B -> Forall (aged B O) (future_blocks n) ->
  Forall (aged B O) (set_age (id_of b) t (future_blocks (buffer_future_block env b n))).
Proof.
  intros Hb Ha. rewrite Forall_forall in Ha. apply Forall_forall. intros e He. destruct (buffer_first env b n) as [_ [Hold|(buf & Eb & Hbuf)]].
  - apply set_age_entries in He as [He|(e0 & _ & Hid & ->)]; [by apply Ha, Hold|]. left. by exists b.
  - rewrite Eb, set_age_last in He; [|done|]; [|eapply Forall_impl; [exact Hbuf|]; naive_solver]. rewrite Forall_forall in Hbuf.
    apply elem_of_app in He as [He|He%list_elem_of_singleton]; [by apply Ha, Hbuf|subst e]. left. by exists b.
Qed.

Lemma rebuffered_ok b t st : relay_ok st -> relay_ok (edit_future (set_age (id_of b) t) st).
Proof.
  intros Hok. apply future_changed; [done|]. destruct (ro_future _ Hok) as [Hc He]. split; [unfold len in *; by rewrite set_age_length|].
  rewrite Forall_forall in He. apply Forall_forall. intros e [Hin|(e0 & Hin & _ & ->)]%set_age_entries; [by apply He|]. by apply (He e0).
Qed.
Lemma pushed_aging B O b t st : (b, t) ∈ B -> U b -> aging B O st ->
  aging B O (edit_future (fun buf => if len buf <? MAX_FUTURE_BLOCKS then buf ++ [(b, t)] else buf) st).
Proof.
  intros Hb Ub [Hok Ha Ho]. destruct (ro_future _ Hok) as [Hc He]. split; [| |done].
  - apply future_changed; [done|]. cbv beta. destruct (Z.ltb_spec (len (future_blocks (node st))) MAX_FUTURE_BLOCKS); [|done]. split.
    + unfold len in *. rewrite length_app. cbn. lia.
    + apply Forall_app. split; [done|]. by repeat constructor.
  - cbn. destruct (_ <? _); [|done]. apply Forall_app. split; [done|]. constructor; [|constructor]. left. by exists b.
Qed.
Lemma edit_future_onward f st : relay_ok (edit_future f st) -> onward st (edit_future f st).
Proof. intros Hok. by split; [|left|]. Qed.

Section Aging.
Variables (B : list (Block * Z)) (O : list Orphan).
Hypothesis known : Forall (fun e => U (fst e)) B.
Abbreviation retry_each := (retry_each signature_domain coinbase_maturity (@walk) moments).
Abbreviation later st st' := (onward st st' /\ aging B O st').

Lemma retry_each_ok cands st : aging B O st -> cands ⊆ B -> rwp (retry_each cands) st (fun _ st' => later st st').
Proof.
  revert st. induction cands as [|[b t] cands IH]; intros st Hag Hin; cbn [BlockRelay.retry_each]; [apply rwp_ret; split; [apply onward_refl; apply Hag|done]|].
  assert (relay_ok st) as Hok by apply Hag. assert ((b, t) ∈ B) as Hb by (apply Hin; constructor). assert (U b) as Ub by (rewrite Forall_forall in known; by apply (known _ Hb)).
  assert (forall st1, later st st1 -> rwp (retry_each cands) st1 (fun _ st' => later st st')) as Hgo.
  { intros st1 [O1 A1]. eapply rwp_mono; [apply IH; [exact A1|set_solver]|]. cbv beta. intros x st2 [O2 A2]. split; [by eapply onward_trans|done]. }
  apply rwp_bind, rwp_observe. intros m st1 Hio S1. assert (aging B O st1) as A1 by by eapply similar_aging. apply rwp_bind.
  eapply rwp_mono; [apply process_ok; [apply A1|done|done]|]. cbv beta. intros r st2 (W2 & _ & Ef). assert (onward st st2) as O2 by (eapply onward_trans; [done|by apply similar_onward|apply W2]).
  assert (r <> Ok BufferedFuture -> aging B O st2) as A2.
  { intros Hr. split; [apply O2| |rewrite (wk_orphans _ _ _ W2); apply A1]. rewrite Ef. destruct r as [[]|]; [apply A1..|done|apply A1]. }
  assert (forall st3, similar st2 st3 -> r <> Ok BufferedFuture -> rwp (_ ← resolve_orphans signature_domain coinbase_maturity moments (id_of b); retry_each cands) st3
            (fun _ st' => later st st')) as Hres.
  { intros st3 S3 Hr. assert (aging B O st3) as A3 by (eapply similar_aging; [exact S3|by apply A2]). apply rwp_bind. eapply rwp_mono; [apply resolve_ok; apply A3|]. cbv beta. intros ids st4 [D _]. apply Hgo.
    split; [|by eapply drained_aging]. eapply onward_trans; [done|exact O2|]. eapply onward_trans; [apply O2|apply similar_onward; [exact S3|apply O2]|apply D]. }
  destruct r as [[]|e].
  - apply rwp_bind. eapply rwp_mono; [apply broadcast_similar|]. cbv beta. intros x st3 S3. by apply Hres.
  - by apply Hres.
  - apply rwp_bind, rwp_update, Hgo. assert (relay_ok (edit_future (set_age (id_of b) t) st2)) as Hok3 by (apply rebuffered_ok, O2).
    split; [eapply onward_trans; [done|exact O2|by apply edit_future_onward]|]. split; [done| |cbn; rewrite (wk_orphans _ _ _ W2); apply A1]. cbn. rewrite Ef. apply rebuffer_aged; [done|apply A1].
  - specialize (A2 ltac:(done)). assert (rwp (if is_fatal e then update with_shutdown else _ ← update (edit_future (fun buf => if len buf <? MAX_FUTURE_BLOCKS then buf ++ [(b, t)] else buf));
      retry_each cands) st2 (fun _ st' => later st st')) as Herr.
    { destruct (is_fatal e).
      - apply rwp_update. destruct (with_shutdown_worked [] st2 (ag_ok _ _ _ A2)) as [Ow _ _ _]. split; [by eapply onward_trans|]. destruct A2 as [Hok2 ? ?]. split; [apply Ow|done|done].
      - apply rwp_bind, rwp_update, Hgo. assert (aging B O (edit_future (fun buf => if len buf <? MAX_FUTURE_BLOCKS then buf ++ [(b, t)] else buf) st2)) as A3 by by apply pushed_aging.
        split; [|done]. eapply onward_trans; [done|exact O2|]. apply edit_future_onward, A3. }
    destruct e as [e|e|missing]; [exact Herr|exact Herr|]. apply rwp_bind. eapply rwp_mono; [apply queue_ok; [apply A2|done]|]. cbv beta. intros ok st3 A3. apply rwp_bind.
    eapply rwp_mono; [apply request_similar|]. cbv beta. intros x st4 S4. assert (aside st2 st4) as A4 by (eapply aside_trans; [exact A3|]; apply similar_aside; [done|apply A3]).
    apply Hgo. split; [eapply onward_trans; [done|exact O2|by apply aside_onward]|by eapply aside_aging].
Qed.
End Aging.

Abbreviation retry_future_blocks := (retry_future_blocks signature_domain coinbase_maturity (@walk) moments).
Lemma retry_future_ok st : relay_ok st ->
  rwp retry_future_blocks st (fun _ st' => onward st st' /\ aging (future_blocks (node st)) (orphan_blocks st) st').
Proof.
  intros Hok. unfold BlockRelay.retry_future_blocks. apply rwp_bind, rwp_observe. intros m st1 _ S1. assert (relay_ok st1) as Hok1 by by eapply similar_ok.
  apply rwp_bind, rwp_see, rwp_bind, rwp_update. set (st2 := edit_future _ st1). assert (relay_ok st2) as Hok2 by (apply future_changed; [done|apply future_nil]).
  eapply rwp_mono; [apply (retry_each_ok (future_blocks (node st)) (orphan_blocks st)); [apply Hok| |]|].
  - split; [done|constructor|]. cbn. by rewrite (sm_orphans _ _ S1).
  - rewrite (sm_node _ _ S1). intros e He. apply list_elem_of_In in He. apply List.filter_In in He as [He _]. by apply list_elem_of_In.
  - cbv beta. intros x st3 [O3 A3]. split; [|done]. eapply onward_trans; [done|by apply similar_onward|]. eapply onward_trans; [done|by apply edit_future_onward|done].
Qed.

(** ** Events *)

Lemma strike_ok from id st : relay_ok st -> rwp (strike (@walk) moments from id) st (fun _ st' => aside st st').
Proof.
  intros Hok. unfold strike. apply rwp_bind, rwp_observe. intros m st1 _ S1. apply rwp_update. assert (relay_ok st1) as [[l [Hl Hd Ht Hp]] Ho Hf Htr] by by eapply similar_ok.
  eapply aside_trans; [by apply similar_aside|]. split; [|done..]. split; [|done..]. exists l. split; [done| |done|done]. eapply bans_db_ok; [exact Hd|].
  apply (strike_touches (@walk) _ _ _ _ _ _ (Build_Abuse _ _ _)).
Qed.
Lemma keep_orphan_ok id b st : relay_ok st -> U b -> rwp (keep_orphan moments id b) st (fun _ st' => onward st st').
Proof.
  intros Hok Ub. unfold keep_orphan. apply rwp_bind, rwp_see. destruct (_ && _) eqn:E; [|by apply rwp_ret, onward_refl]. apply andb_true_iff in E as [Hsz%Z.leb_le _].
  apply rwp_bind, rwp_update. set (st1 := with_orphans _ st). assert (onward st st1) as O1.
  { split; [|by left|done]. destruct Hok as [Hn Ho Hf Ht]. split; [done| |done|done]. by apply orphans_push. }
  destruct (existsb _ _); [by apply rwp_ret|]. apply rwp_bind. eapply rwp_mono; [apply send_similar|]. cbv beta. intros x st2 S2. apply rwp_ret.
  eapply onward_trans; [done|exact O1|]. apply similar_onward; [done|apply O1].
Qed.

Lemma settle_ok from id sid b r st : relay_ok st -> U b -> rwp (settle signature_domain coinbase_maturity (@walk) moments from id sid b r) st (fun _ st' => onward st st').
Proof.
  intros Hok Ub. unfold settle. cbv zeta.
  assert (forall st1 (k : rel bool), (forall st2, similar st1 st2 -> rwp k st2 (fun _ st' => onward st st')) ->
            rwp (_ ← (m ← observe moments; update (fun st => with_registry (mark_useful_message (now (m_env m)) id sid (peers st)) st)); k) st1 (fun _ st' => onward st st')) as Huse.
  { intros st1 k Hk. apply rwp_bind, rwp_bind, rwp_observe. intros m st2 _ S2. apply rwp_update, Hk. eapply similar_trans; [exact S2|done]. }
  assert (forall st1, similar st st1 -> rwp (_ ← resolve_orphans signature_domain coinbase_maturity moments (id_of b); mret true) st1 (fun _ st' => onward st st')) as Hres.
  { intros st1 S1. apply rwp_bind. eapply rwp_mono; [apply resolve_ok; by eapply similar_ok|]. cbv beta. intros ids st2 [D _]. apply rwp_ret. eapply onward_trans; [done|by apply similar_onward|apply D]. }
  destruct r as [[]|e].
  - apply Huse. intros st1 S1. apply rwp_bind. eapply rwp_mono; [apply broadcast_similar|]. cbv beta. intros x st2 S2. apply Hres. by eapply similar_trans.
  - by apply Huse.
  - by apply rwp_ret, onward_refl.
  - assert (rwp (if is_fatal e then _ ← update with_shutdown; mret false else _ ← strike (@walk) moments from id; mret true) st (fun _ st' => onward st st')) as Herr.
    { destruct (is_fatal e); apply rwp_bind; [by apply rwp_update, rwp_ret, (with_shutdown_worked [])|]. eapply rwp_mono; [by apply strike_ok|]. cbv beta. intros x st1 A1. by apply rwp_ret, aside_onward. }
    destruct e as [e|e|missing]; [exact Herr|exact Herr|]. apply rwp_bind. eapply rwp_mono; [by apply queue_ok|]. cbv beta. intros ok st1 A1. apply rwp_bind.
    eapply rwp_mono; [apply send_similar|]. cbv beta. intros x st2 S2. apply rwp_ret, aside_onward. eapply aside_trans; [exact A1|]. apply similar_aside; [done|apply A1].
Qed.
Lemma verify_and_process_ok from id sid b skip am st : relay_ok st -> U b ->
  rwp (verify_and_process signature_domain coinbase_maturity (@walk) moments from id sid b skip am) st (fun _ st' => onward st st').
Proof.
  intros Hok Ub. unfold verify_and_process. destruct (if skip then Ok true else verify_pow (header b)) as [[]|e].
  - apply rwp_bind, rwp_observe. intros m st1 Hio S1. assert (relay_ok st1) as Hok1 by by eapply similar_ok. apply rwp_bind. eapply rwp_mono; [by apply process_ok|].
    cbv beta. intros r st2 (W2 & _ & _). assert (onward st st2) as O2 by (eapply onward_trans; [done|by apply similar_onward|apply W2]). apply rwp_bind.
    eapply rwp_mono; [apply settle_ok; [apply O2|done]|]. cbv beta. intros go st3 O3. assert (onward st st3) as O13 by by eapply onward_trans.
    destruct go; [|by apply rwp_ret]. eapply rwp_mono; [apply retry_reorg_ok; apply O13|]. cbv beta. intros x st4 O4. by eapply onward_trans.
  - eapply rwp_mono; [by apply strike_ok|]. cbv beta. intros x st1 A1. by apply aside_onward.
  - by apply rwp_ret, onward_refl.
Qed.

Lemma relay_budget_ok from id sid b pre am st : relay_ok st -> U b ->
  rwp (within_budget signature_domain coinbase_maturity (@walk) moments from id sid b pre am) st (fun _ st' => onward st st').
Proof.
  intros Hok Ub. unfold within_budget. apply rwp_bind, rwp_see, rwp_bind, rwp_observe. intros m st1 _ S1. apply rwp_bind. unfold rwp at 1.
  destruct (try_consume_global_block_slot_inner _ _ _) as [ok l]. assert (similar st (with_limiter l st1)) as S2 by (eapply similar_trans; [exact S1|done]).
  destruct ok; [|by apply rwp_ret, similar_onward]. eapply rwp_mono; [apply verify_and_process_ok; [by eapply similar_ok|done]|]. cbv beta. intros x st3 O3.
  eapply onward_trans; [done|by apply similar_onward|done].
Qed.

Abbreviation process_block_event := (process_block_event signature_domain coinbase_maturity (@walk) moments).
Lemma block_event_ok from id sid b pre st : relay_ok st -> U b -> rwp (process_block_event from id sid b pre) st (fun _ st' => onward st st').
Proof.
  intros Hok Ub. unfold BlockRelay.process_block_event. apply rwp_bind, rwp_observe. intros m st1 _ S1. assert (relay_ok st1) as Hok1 by by eapply similar_ok.
  assert (forall c : rel unit, (forall st2, aside st1 st2 -> rwp c st2 (fun _ st' => onward st2 st')) -> forall st2, aside st1 st2 -> rwp c st2 (fun _ st' => onward st st')) as Hgo.
  { intros c Hc st2 A2. eapply rwp_mono; [by apply Hc|]. cbv beta. intros x st3 O3. eapply onward_trans; [done|by apply similar_onward|]. eapply onward_trans; [done|by apply aside_onward|done]. }
  assert (aside st1 st1) as A1 by by apply similar_aside.
  assert (forall st2, aside st1 st2 -> rwp (strike (@walk) moments from id) st2 (fun _ st' => onward st st')) as Hstrike.
  { apply Hgo. intros st2 A2. eapply rwp_mono; [apply strike_ok; apply A2|]. cbv beta. intros x st3 A3. by apply aside_onward. }
  assert (forall st2, aside st1 st2 -> rwp (mret tt) st2 (fun _ st' => onward st st')) as Hret by (apply Hgo; intros st2 A2; apply rwp_ret, onward_refl, A2).
  destruct (m_parent_fault m); [by apply Hret|]. apply rwp_bind, rwp_see. destruct (get_header _ _) as [p|].
  2: { apply Hgo; [|exact A1]. intros st2 A2. apply keep_orphan_ok; [apply A2|done]. }
  destruct (negb _); [by apply Hstrike|]. apply rwp_bind. unfold rwp at 1, at_node.
  destruct (cached_expected_difficulty _ _ _ _) as [target n2] eqn:Ec. set (st2 := with_node n2 st1). assert (aside st1 st2) as A2.
  { assert (n2 = node st1 \/ exists c, n2 = with_cache c (node st1)) as Hn by (revert Ec; unfold cached_expected_difficulty; repeat case_match; intros [= <- <-]; eauto).
    destruct Hok1 as [[l Hn1] ? ? ?]. split; [split; [exists l|done|..]|..]; destruct Hn as [->|[c ->]]; try done; by eapply with_node_ok. }
  assert (forall am, rwp (within_budget signature_domain coinbase_maturity (@walk) moments from id sid b pre am) st2 (fun _ st' => onward st st')) as Hslot.
  { intros am. apply Hgo; [|done]. intros st3 A3. apply relay_budget_ok; [apply A3|done]. }
  destruct target as [[expected fresh]|[]]; try (by apply Hret); [|apply Hslot]. destruct (bool_decide _); [apply Hslot|by apply Hstrike].
Qed.

Definition event_known (e : PeerEvent) : Prop := match e with NewBlock _ _ _ b _ | BlockResponse _ _ _ b _ => U b | _ => True end.
Lemma background_ok e st : relay_ok st -> event_known e ->
  rwp (handle_background_event signature_domain coinbase_maturity (@walk) moments e) st (fun _ st' => onward st st').
Proof.
  intros Hok He. destruct e as [id sid|id sid|from id sid b pre|from id sid b pre|id sid hs|id sid h bid w]; cbn [handle_background_event].
  - apply rwp_bind. eapply rwp_mono; [apply send_similar|]. cbv beta. intros x st1 S1. by apply rwp_ret, similar_onward.
  - apply rwp_update. by apply similar_onward.
  - by apply block_event_ok.
  - by apply block_event_ok.
  - by apply rwp_ret, onward_refl.
  - apply rwp_update. by apply similar_onward.
Qed.

(** ** The task that owns the events *)

(** It takes events as they come and tries future blocks again from time to
    time. *)
Inductive relay_op := Deliver (e : PeerEvent) | RetryFuture.
Definition op_known (o : relay_op) : Prop := match o with Deliver e => event_known e | RetryFuture => True end.
Definition run_op (o : relay_op) : rel unit :=
  match o with
  | Deliver e => handle_background_event signature_domain coinbase_maturity (@walk) moments e
  | RetryFuture => retry_future_blocks
  end.
Fixpoint run (ops : list relay_op) : rel unit :=
  match ops with
  | [] => mret tt
  | o :: ops => _ ← run_op o; run ops
  end.
Lemma run_ok ops st : relay_ok st -> Forall op_known ops -> rwp (run ops) st (fun _ st' => onward st st').
Proof.
  revert st. induction ops as [|o ops IH]; intros st Hok Hu; cbn [run]; [by apply rwp_ret, onward_refl|]. apply Forall_cons in Hu as [Uo Hu].
  assert (rwp (run_op o) st (fun _ st' => onward st st')) as Ho.
  { destruct o as [e|]; [by apply background_ok|]. eapply rwp_mono; [by apply retry_future_ok|]. cbv beta. by intros x st1 [O1 _]. }
  apply rwp_bind. eapply rwp_mono; [exact Ho|]. cbv beta. intros x st1 O1. eapply rwp_mono; [apply IH; [apply O1|done]|]. cbv beta. intros y st2 O2. by eapply onward_trans.
Qed.

(** A node that has just started. *)
Record fresh (st : Relay) : Prop := {
  fr_node : started genesis (node st);
  fr_orphans : orphan_blocks st = [];
  fr_future : future_blocks (node st) = [];
  fr_triggers : reorg_triggers (node st) = ReorgTriggerState_new
}.
Lemma fresh_ok st : fresh st -> relay_ok st.
Proof.
  intros [Hs Ho Hf Ht]. destruct (started_ok U genesis world (node st) Hs) as [ms Hn]. split; [eauto|rewrite Ho; apply orphans_nil|rewrite Hf; apply future_nil|rewrite Ht; apply triggers_new_ok].
Qed.

(** The limits of the buffers. *)
Record within_limits (st : Relay) : Prop := {
  wl_orphans : len (orphan_blocks st) <= MAX_ORPHAN_BLOCKS /\ cache_bytes (orphan_blocks st) <= MAX_ORPHAN_CACHE_BYTES;
  wl_future : len (future_blocks (node st)) <= MAX_FUTURE_BLOCKS;
  wl_triggers : len (order (reorg_triggers (node st))) <= MAX_GLOBAL_TRIGGERS;
  wl_ancestor a bs : triggers (reorg_triggers (node st)) !! a = Some bs -> len bs <= MAX_TRIGGERS_PER_ANCESTOR
}.
Lemma relay_limits st : relay_ok st -> within_limits st.
Proof.
  intros [_ [Hc Hb _] [Hf _] [[_ He] Ht]]. split; [done|done|done|]. intros a bs Ha. apply (He _ _ Ha).
Qed.

(** C4: Relaying blocks is safe.  Events come in any order, with any blocks of a
    [World], with any faults of clocks and channels and of storage but one.
    Handling them and trying future blocks again returns ([ops1] and then [ops2],
    from a node that has just started), unless a store which is not a map runs out
    of room ([lost]: the 2^32 nodes of the state tree); after [ops1] the node is on one consistent
    chain from genesis and the orphans (16 blocks, 64 MiB), the future blocks (16)
    and the pending reorganisations (64, and 16 for one ancestor) are within their
    limits; after [ops2] the same holds, and the tip is the one after [ops1] or
    better than it.  Outside are the failure of the read of the fork point's work
    during a reorganisation ([fork_point_read]), which splits the state, and blocks
    that repeat a coinbase transaction at different heights ([World]). *)
Theorem relay_consistent (st0 : Relay) (ops1 ops2 : list relay_op) :
  fresh st0 -> Forall op_known ops1 -> Forall op_known ops2 ->
  match run ops1 st0 with
  | Some (_, st1) =>
      (exists bs, on_chain bs (node st1)) /\ within_limits st1 /\
      match run ops2 st1 with
      | Some (_, st2) => (exists bs, on_chain bs (node st2)) /\ no_worse (tip (node st1)) (tip (node st2)) /\ within_limits st2
      | None => lost
      end
  | None => lost
  end.
Proof.
  intros Hf Hu1 Hu2. pose proof (run_ok ops1 st0 (fresh_ok _ Hf) Hu1) as Hr. unfold rwp in Hr. destruct (run ops1 st0) as [[x st1]|]; [|done].
  destruct Hr as [Hok1 _ _]. destruct (ro_node _ Hok1) as [l1 Hl1]. split; [exists (map fst l1); by apply node_on_chain|]. split; [by apply relay_limits|].
  pose proof (run_ok ops2 st1 Hok1 Hu2) as Hr. unfold rwp in Hr. destruct (run ops2 st1) as [[y st2]|]; [|done].
  destruct Hr as [Hok2 Ht _]. destruct (ro_node _ Hok2) as [l2 Hl2]. split; [exists (map fst l2); by apply node_on_chain|]. split; [done|by apply relay_limits].
Qed.

(** C26: Resolving orphans returns, however the orphans depend on each other, and is
    complete: unless the node shuts down, no block is left in the cache that
    waits for [parent] or for one of the blocks that got in on the way.  It only
    takes blocks out of the cache, and leaves the pending reorganisations alone. *)
Theorem orphans_resolved (st : Relay) (parent : Hash256) :
  relay_ok st ->
  match resolve_orphans signature_domain coinbase_maturity moments parent st with
  | Some (ids, st') =>
      relay_ok st' /\ no_worse (tip (node st)) (tip (node st')) /\
      (exists taken, Permutation (orphan_blocks st) (taken ++ orphan_blocks st')) /\
      reorg_triggers (node st') = reorg_triggers (node st) /\
      (shutdown st' = false -> forall id o, id ∈ parent :: ids -> o ∈ orphan_blocks st' -> waits_for o <> id)
  | None => lost
  end.
Proof.
  intros Hok. pose proof (resolve_ok parent st Hok) as Hr. unfold rwp in Hr. destruct (resolve_orphans _ _ _ _ _) as [[ids st']|]; [|done].
  destruct Hr as [[[Hok' Ht _] Ho Hg _] Hrel]. split_and!; [done..|]. intros Hd id o Hid. specialize (Hrel Hd id Hid). unfold released in Hrel. rewrite Forall_forall in Hrel. auto.
Qed.

(** Trying future blocks again returns and does not make them younger: what is
    in the buffer afterwards has the time at which the same block was in it
    before, or is an orphan whose parent just got in.  So a block is dropped 300
    seconds after it first came, however often it is tried. *)
Theorem future_age_kept (st : Relay) :
  relay_ok st ->
  match retry_future_blocks st with
  | Some (_, st') =>
      relay_ok st' /\ no_worse (tip (node st)) (tip (node st')) /\
      forall b t, (b, t) ∈ future_blocks (node st') ->
        (exists b0, (b0, t) ∈ future_blocks (node st) /\ id_of b0 = id_of b) \/
        (exists o, o ∈ orphan_blocks st /\ b = orphan o)
  | None => lost
  end.
Proof.
  intros Hok. pose proof (retry_future_ok st Hok) as Hr. unfold rwp in Hr. destruct (retry_future_blocks st) as [[x st']|]; [|done].
  destruct Hr as [[Hok' Ht _] [_ Ha _]]. split_and!; [done..|]. intros b t Hin. rewrite Forall_forall in Ha. exact (Ha _ Hin).
Qed.
End Safety.
