(* ===== verification/RelayWitness.v ===== *)
(** * Blocks out of order, from the future and on a faulty disk

    The network of [ChainWitness.v], its blocks sent by a peer: the theorems of
    [RelaySafety.v] apply, and a run ends as intended. *)

From S2P Require Import Prelude Bytes Codec Hash Transaction Block Wire U256 Difficulty Reward.
From S2P Require Import ScriptValue ScriptCodec Jets ScriptCost Eval FeeCost Smt Utxo TxValidation BlockValidation BlockApply Mempool.
From S2P Require Import Storage PeerRegistry PeerPolicy BlockRelay ChainManager StoreView ChainModel StorageFacts ChainStore ChainState ChainWitness.
From S2P Require Import RelayFacts RelaySafety.
#[local] Open Scope Z_scope.
#[local] Open Scope list_scope.

Section Deliveries.
#[local] Existing Instance sha.
#[local] Existing Instance sha_width.
(** Every nonce wins. *)
#[local] Instance easy_argon2 : Argon2 := fun _ _ _ _ _ _ => Ok zero32.
#[local] Existing Instance toy_ed25519.
#[local] Existing Instance toy_layout.
#[local] Existing Instance flat_root.

Definition in_order : forall K V `{Countable K}, gmap K V -> list (K * V) := fun K V _ _ m => map_to_list m.
Definition alice : PeerId := replicate 32 x01.
Definition home : SocketAddr := SockV4 [x0a; x00; x00; x01] 9333.
Definition online : PeerRegistry :=
  with_peers {[ alice := set_session (Some {| session_id := 7; socket_addr := home; is_outbound := false; established_at := 0 |}) (LogicalPeer_new 0) ]} PeerRegistry_new.
Definition relay0 : @Relay utxo_map := {|
  node := node0; orphan_blocks := []; peers := online; ip_strikes := ∅; banned_ids := ∅; global_block_limiter := (0, 0);
  shutdown := false; outbox := []; moment := 0 |}.
Definition steady (env : Env) : nat -> Moment := fun _ => {|
  m_env := env; m_sent := fun _ => true; m_parent_fault := false; m_ban_fault := false; m_identity_fault := fun _ => false |}.

Lemma relay0_fresh : fresh g0 relay0.
Proof. split; [exact node0_started|reflexivity..]. Qed.
Lemma relay0_ok : relay_ok net g0 relay0.
Proof. apply fresh_ok; [exact net_world|exact relay0_fresh]. Qed.

Definition from_alice (b : Block) : relay_op := Deliver (NewBlock home alice 7 b true).
(** The second block of the longer chain comes first, and waits for the first. *)
Definition shuffled : list relay_op := [from_alice c2; from_alice b1; from_alice c1].
Definition deliver (env : Env) (ops : list relay_op) : option (unit * @Relay utxo_map) := run sample_domain 360 in_order (steady env) ops relay0.
Definition tip_and_orphans (st : option (unit * @Relay utxo_map)) : option (Hash256 * nat) :=
  match st with Some (_, st) => Some (tip_block_id (tip (node st)), length (orphan_blocks st)) | None => None end.
Example waiting_block_wins : tip_and_orphans (deliver calm shuffled) = Some (block_id (header c2), 0%nat).
Proof. vm_compute. reflexivity. Qed.

Lemma shuffled_known : Forall (op_known net) (take 2 shuffled) /\ Forall (op_known net) (drop 2 shuffled).
Proof.
  split; repeat (apply Forall_cons; split); [right; right; right; reflexivity|right; left; reflexivity|constructor|right; right; left; reflexivity|constructor].
Qed.
Lemma waiting_block_waits :
  match deliver calm (take 2 shuffled) with
  | Some (_, st1) =>
      bool_decide (tip_block_id (tip (node st1)) = block_id (header b1)) &&
      match run sample_domain 360 in_order (steady calm) (drop 2 shuffled) st1 with
      | Some (_, st2) => bool_decide (tip_block_id (tip (node st2)) = block_id (header c2))
      | None => false
      end
  | None => false
  end = true.
Proof. vm_compute. reflexivity. Qed.
(** First [b1] becomes the tip, then [c1] with its waiting child [c2]. *)
Lemma relay_consistent_witness : exists st1 st2,
  deliver calm (take 2 shuffled) = Some (tt, st1) /\ tip_block_id (tip (node st1)) = block_id (header b1) /\
  run sample_domain 360 in_order (steady calm) (drop 2 shuffled) st1 = Some (tt, st2) /\ tip_block_id (tip (node st2)) = block_id (header c2) /\
  (exists bs, on_chain net g0 bs (node st2)) /\ within_limits st2 /\ no_worse (tip (node st1)) (tip (node st2)).
Proof.
  pose proof (relay_consistent sample_domain 360 net g0 net_world in_order (steady calm) (fun _ => eq_refl) relay0 (take 2 shuffled) (drop 2 shuffled) relay0_fresh
    (proj1 shuffled_known) (proj2 shuffled_known)) as Hr.
  pose proof waiting_block_waits as Hw. unfold deliver in *. destruct (run _ _ _ _ (take 2 shuffled) relay0) as [[[] st1]|] eqn:E1; [|discriminate Hw].
  apply andb_prop in Hw as [Ht1%bool_decide_eq_true Hw]. destruct (run _ _ _ _ (drop 2 shuffled) st1) as [[[] st2]|] eqn:E2; [|discriminate Hw]. apply bool_decide_eq_true in Hw.
  destruct Hr as (_ & _ & Hc & Hn & Hl). exists st1, st2. split; [reflexivity|]. split; [exact Ht1|]. split; [exact E2|]. split; [exact Hw|]. split; [exact Hc|]. split; [exact Hl|exact Hn].
Defined.

(** ** Orphans *)

(** [c2] waits for [c1], which another task has stored meanwhile. *)
Definition relay_waiting : @Relay utxo_map := with_orphans [{| waits_for := block_id (header c1); orphan := c2; orphan_size := 300 |}] relay0.
Lemma relay_waiting_ok : relay_ok net g0 relay_waiting.
Proof.
  destruct relay0_ok as [Hn _ Hf Ht]. split; [exact Hn| |exact Hf|exact Ht]. split; [discriminate|discriminate|]. constructor; [|constructor]. split; [right; right; right; reflexivity|].
  split; [vm_compute; reflexivity|discriminate].
Qed.
Lemma orphans_resolved_witness : exists ids st, resolve_orphans sample_domain 360 (steady calm) (block_id (header c1)) relay_waiting = Some (ids, st) /\
  relay_ok net g0 st /\ orphan_blocks st = [].
Proof.
  pose proof (orphans_resolved sample_domain 360 net g0 net_world (steady calm) (fun _ => eq_refl) relay_waiting (block_id (header c1)) relay_waiting_ok) as Hr.
  assert (match resolve_orphans sample_domain 360 (steady calm) (block_id (header c1)) relay_waiting with Some (_, st) => orphan_blocks st | None => [] end = []) as Hn by (vm_compute; reflexivity).
  destruct (resolve_orphans _ _ _ _ _) as [[ids st]|]; [|destruct Hr]. exists ids, st. split; [reflexivity|]. split; [exact (proj1 Hr)|exact Hn].
Defined.

(** ** Future blocks *)

(** At this clock the first block is too far ahead. *)
Definition early : Env := {| wall_clock := Some 1600000000; now := 5 * SECOND; io := fun _ => false |}.
Definition relay_future : @Relay utxo_map := edit_future (fun _ => [(b1, 0)]) relay0.
Lemma relay_future_ok : relay_ok net g0 relay_future.
Proof. apply future_changed; [exact relay0_ok|]. split; [discriminate|]. constructor; [|constructor]. right. left. reflexivity. Qed.
Definition ages (st : option (unit * @Relay utxo_map)) : option (list Z) := match st with Some (_, st) => Some (map snd (future_blocks (node st))) | None => None end.
Example still_early : ages (retry_future_blocks sample_domain 360 in_order (steady early) relay_future) = Some [0].
Proof. vm_compute. reflexivity. Qed.
Lemma future_age_kept_witness : exists st, retry_future_blocks sample_domain 360 in_order (steady early) relay_future = Some (tt, st) /\
  map snd (future_blocks (node st)) = [0] /\ relay_ok net g0 st.
Proof.
  pose proof (future_age_kept sample_domain 360 net g0 net_world in_order (steady early) (fun _ => eq_refl) relay_future relay_future_ok) as Hr.
  pose proof still_early as Hw. unfold ages in Hw. destruct (retry_future_blocks _ _ _ _ _) as [[[] st]|]; [|discriminate Hw]. injection Hw as Ha.
  exists st. split; [reflexivity|]. split; [exact Ha|exact (proj1 Hr)].
Defined.

(** ** A faulty disk *)

(** A valid block whose processing meets an error of our own storage: the peer
    that sent it gets a strike. *)
Definition broken : Env := {| wall_clock := Some 1700000100; now := 0; io := fun c => match c with AtHasBlock => true | _ => false end |}.
Example local_fault_strikes_peer :
  match deliver broken [from_alice b1] with Some (_, st) => option_map strikes (ip_strikes st !! sock_ip home) | None => None end = Some 1.
Proof. vm_compute. reflexivity. Qed.
End Deliveries.
