(* ===== verification/Download.v ===== *)
(** * Downloading a chain ([src/network/sync.rs])

    A node that is behind authenticates the headers up to the checkpoint with one
    peer ([stage_a_inner]), looks for the last block it shares with a peer by
    binary search, and then fetches and processes the blocks above it
    ([run_ibd]); up to the checkpoint the identifiers come from the authenticated
    headers ([run_stage_b_below_or_at_anchor]).

    The state [Sync] is the relay of [BlockRelay.v] with the authenticated headers
    and the flag [ever_confirmed_peer].  What peers send is chosen by [arrivals],
    a function of everything that has happened, the requests in [outbox]
    included; the number of events that come before a deadline is
    [a_patience].  While it waits, the download handles the other events.  The
    pacing of requests only waits, and is not modelled here. *)

From S2P Require Import Prelude Bytes Codec Hash Transaction Block Wire U256 Difficulty Reward.
From S2P Require Import ScriptValue ScriptCodec Jets ScriptCost Eval FeeCost Smt Utxo TxValidation BlockValidation Mempool Storage.
From S2P Require Import TipValidation PeerRegistry PeerPolicy BlockRelay ChainManager.
#[local] Open Scope Z_scope.
#[local] Open Scope list_scope.

Definition IBD_DRIFT_WINDOW : Z := 20.
Definition MAX_GETBLOCKS_RESPONSE : nat := 8.
Definition MAX_IN_FLIGHT : nat := 8.
Definition MAX_CHUNKS_IN_FLIGHT : nat := 8.
Definition MAX_ANCESTOR_RECOVERY_DEPTH : nat := 4320.
Definition MAX_ANCESTOR_BYTES : Z := 512 * 1024 * 1024.
Definition IBD_BATCH : Z := 64.

(** ** Pure parts *)

Inductive StageAOutcome :=
| Success | Timeout | PeerDisconnected | EmptyOrUncorrelatedResponse | DeliveredInvalidHeader | DeliveredForgedChain | SendFailed.

Section Pure.
Context `{Sha2}.

(** [windows(2)] *)
Fixpoint all_pairs {A} (p : A -> A -> bool) (l : list A) : bool :=
  match l with
  | a :: ((b :: _) as rest) => p a b && all_pairs p rest
  | _ => true
  end.
Definition next_height (a b : BlockHeader) : bool := height b =? wrap64 (height a + 1).
Definition next_link (a b : BlockHeader) : bool := bool_decide (prev_block_id b = block_id a).

Definition verify_stage_a_batch_linkage (batch : list BlockHeader) (prev_last : option BlockHeader) : result StageAOutcome unit :=
  if negb (all_pairs (fun a b => next_height a b && next_link a b) batch) then Err DeliveredInvalidHeader
  else match prev_last, head batch with
       | Some prev, Some first => if bool_decide (prev_block_id first = block_id prev) then Ok tt else Err DeliveredInvalidHeader
       | _, _ => Ok tt
       end.
Definition verify_stage_a_anchor (headers : list BlockHeader) : result StageAOutcome unit :=
  match headers !! Z.to_nat ASSUME_VALID_HEIGHT with
  | None => Err EmptyOrUncorrelatedResponse
  | Some anchor => if bool_decide (block_id anchor = ASSUME_VALID_HASH) then Ok tt else Err DeliveredForgedChain
  end.
End Pure.

(** ** Choosing a peer and a state *)

Definition is_eligible_ibd_candidate (tip_confirmed ever_confirmed_for_ibd cooldown_ok cw_better wedge_fallback_eligible : bool) : bool :=
  let confirmation_ok := tip_confirmed || ever_confirmed_for_ibd || (wedge_fallback_eligible && cw_better) in
  confirmation_ok && cooldown_ok && cw_better.
Definition select_ibd_candidate {T} (strict_best relaxed_best : option T) (wedge_fallback_eligible any_confirmed_this_scan : bool) : option T * bool :=
  match strict_best with
  | Some c => (Some c, false)
  | None => if wedge_fallback_eligible && negb any_confirmed_this_scan then (relaxed_best, bool_decide (is_Some relaxed_best)) else (None, false)
  end.
Definition next_strict_absent_since (prev : option Z) (now : Z) (strict_present any_confirmed_this_scan : bool) : option Z :=
  if strict_present || any_confirmed_this_scan then None else Some (default now prev).
Definition confirmed_peer_blocks_fallback (tip_confirmed cw_better : bool) : bool := tip_confirmed && cw_better.
Definition has_liveness_proof (best_confirmed_work : bytes) (proven_by_delivery : option bytes) (our_work : bytes) : bool :=
  bool_decide (best_confirmed_work <> replicate 32 x00) ||
  from_option (fun w => match lex_cmp our_work w with Lt => false | _ => true end) false proven_by_delivery.
Definition next_is_live (currently_live has_proof has_confirmed_peer peer_confirmed_ahead peer_claims_ahead recent_progress bootstrap_eligible : bool) : bool :=
  if currently_live then
    let behind := peer_confirmed_ahead || (peer_claims_ahead && negb has_confirmed_peer) in
    negb (behind && negb recent_progress)
  else
    let confirmation_or_fresh := has_confirmed_peer || recent_progress in
    (has_proof && (negb peer_confirmed_ahead || recent_progress) && confirmation_or_fresh) || bootstrap_eligible.

(** ** The download *)

Inductive received (A : Type) := Got (a : A) | Closed | TimedOut.
Arguments Got {A} a.
Arguments Closed {A}.
Arguments TimedOut {A}.
(** What the task sees next: the next event, how many come before the deadline,
    the next batch of headers for the subscriber, whether its timer has run out,
    and the faults of its storage calls. *)
Record Arrival := {
  a_event : received PeerEvent; a_patience : nat; a_batch : received (list BlockHeader); a_stalled : bool;
  a_fault : bool; a_env : Env
}.
Inductive IbdError :=
| Shutdown | NotInRegistry | NotConnected | CannotSend | DeadlineExceeded | PeerGone | ChannelClosed | WaitTimedOut
| StorageUnreadable | ProbeWrongHeight (h : Z) | ProbeNoData (h : Z) | EmptyHeaders (h : Z) | TooManyHeaders (h : Z) | WrongHeight (h : Z)
| NotContiguous (h : Z) | NotOnOurChain (h : Z) | NotLinked (h : Z) | VectorMissing (h : Z) | AncestorBytesExceeded
| BlockFailed (e : ProcessBlockError) | AncestorFailed (e : ProcessBlockError) | RetryFailed (e : ProcessBlockError) | NoAdvance (h : Z).

Section Download.
Context {S : Type} `{UtxoStore S} `{!UtxoGet S} `{!UtxoRoot S}.
Context `{Sha2} `{Ed25519} `{Layout} `{Argon2}.
Variable signature_domain : Hash256.
Variable coinbase_maturity : Z.
Variable walk : forall {K V} `{Countable K}, gmap K V -> list (K * V).
Variable moments : nat -> Moment.
Variable arrivals : @Relay S -> Arrival.

Record Sync := { relay : @Relay S; stage_a_authenticated_headers : option (list BlockHeader); ever_confirmed_peer : bool }.
Definition with_relay (r : @Relay S) (st : Sync) : Sync := Build_Sync r (stage_a_authenticated_headers st) (ever_confirmed_peer st).

Definition ibd (A : Type) : Type := Sync -> option (result IbdError A * Sync).
#[export] Instance ibd_ret : MRet ibd := fun A a st => Some (Ok a, st).
#[export] Instance ibd_bind : MBind ibd := fun A B f c st =>
  match c st with
  | Some (Ok a, st) => f a st
  | Some (Err e, st) => Some (Err e, st)
  | None => None
  end.
Definition give_back {A} (e : IbdError) : ibd A := fun st => Some (Err e, st).
(** A panic, or a loop that goes on. *)
Definition stuck {A} : ibd A := fun _ => None.
Definition ask {A} (f : Sync -> A) : ibd A := fun st => Some (Ok (f st), st).
Definition change (f : Sync -> Sync) : ibd unit := fun st => Some (Ok tt, f st).
Definition within {A} (c : @rel S A) : ibd A := fun st =>
  match c (relay st) with Some (a, r) => Some (Ok a, with_relay r st) | None => None end.
(** The next thing the task sees; time goes on. *)
Definition arrival : ibd Arrival := a ← ask (fun st => arrivals (relay st)); _ ← within (observe moments); mret a.
Definition sends (id : PeerId) (sid : Z) (msg : Message) : ibd unit :=
  ok ← within (send_to_session moments id sid msg); if ok : bool then mret tt else give_back CannotSend.
Definition attached (id : PeerId) (sid : Z) (st : Sync) : bool := from_option (current sid) false (by_identity (peers (relay st)) !! id).
(** [node.shutdown] and the connection of the peer, at the head of the loops. *)
Definition go_on (id : PeerId) (sid : Z) : ibd unit :=
  down ← ask (fun st => shutdown (relay st));
  if down : bool then give_back Shutdown
  else ok ← ask (attached id sid); if ok : bool then mret tt else give_back NotConnected.

(** ** Waiting for a peer *)

Definition background (e : PeerEvent) : ibd unit := within (handle_background_event signature_domain coinbase_maturity (@walk) moments e).
Definition is_from (id : PeerId) (sid : Z) (id' : PeerId) (sid' : Z) : bool := bool_decide (id' = id) && (sid' =? sid).
Fixpoint recv_headers (patience : nat) (id : PeerId) (sid : Z) : ibd (list BlockHeader) :=
  match patience with
  | O => give_back DeadlineExceeded
  | Datatypes.S patience =>
      a ← arrival;
      match a_event a with
      | Got (HeadersResponse id' sid' headers) => if is_from id sid id' sid' then mret headers else recv_headers patience id sid
      | Got (Disconnected id' sid') =>
          _ ← background (Disconnected id' sid');
          if bool_decide (id' = id) then give_back PeerGone else recv_headers patience id sid
      | Got e => _ ← background e; recv_headers patience id sid
      | Closed => give_back ChannelClosed
      | TimedOut => give_back WaitTimedOut
      end
  end.
Definition recv_ibd_headers (id : PeerId) (sid : Z) : ibd (list BlockHeader) := fun st =>
  recv_headers (a_patience (arrivals (relay st))) id sid st.

(** The arms for blocks of the peer and of others do the same with a block that
    was not asked for.  Other events go to [handle_background_event_with_dispatch],
    whose arms do to the node what those of [handle_background_event] do; for a
    reported tip it also starts the validation task, which is modelled by itself
    ([tip_step] in [TipCoordinator.v]). *)
Fixpoint recv_block (patience : nat) (id : PeerId) (sid : Z) (expected : Hash256) : ibd Block :=
  match patience with
  | O => give_back DeadlineExceeded
  | Datatypes.S patience =>
      a ← arrival;
      match a_event a with
      | Got (BlockResponse from id' sid' b pre) =>
          if is_from id sid id' sid' && bool_decide (block_id (header b) = expected) then mret b
          else _ ← background (BlockResponse from id' sid' b pre); recv_block patience id sid expected
      | Got (Disconnected id' sid') =>
          _ ← background (Disconnected id' sid');
          if bool_decide (id' = id) then give_back PeerGone else recv_block patience id sid expected
      | Got e => _ ← background e; recv_block patience id sid expected
      | Closed => give_back ChannelClosed
      | TimedOut => give_back WaitTimedOut
      end
  end.
(** A block that is stored already is not waited for. *)
Definition recv_ibd_block (id : PeerId) (sid : Z) (expected : Hash256) : ibd Block := fun st =>
  let a := arrivals (relay st) in
  let stored := if negb (a_fault a) && has_block expected (storage (node (relay st)))
                then match get_block expected (storage (node (relay st))) with Ok b => b | Err _ => None end else None in
  match stored with
  | Some b => Some (Ok b, st)
  | None => recv_block (a_patience a) id sid expected st
  end.

(** ** The last shared block *)

Definition check_shared_block_via_events (id : PeerId) (sid h : Z) : ibd (option bool) :=
  _ ← sends id sid (MGetHeaders {| start_height := h; max_count := 1 |});
  headers ← recv_ibd_headers id sid;
  a ← ask (fun st => arrivals (relay st));
  if a_fault a then give_back StorageUnreadable
  else
    ours ← ask (fun st => get_block_id_by_height h (storage (node (relay st))));
    match interpret_ancestor_probe_response headers h ours with
    | Ok shared => mret shared
    | Err _ => give_back (ProbeWrongHeight h)
    end.
(** The distance halves, and a round always shortens it: [hi - lo] rounds are
    enough. *)
Fixpoint bisect (fuel : nat) (id : PeerId) (sid lo hi : Z) : ibd Z :=
  if lo <? hi then
    match fuel with
    | O => stuck
    | Datatypes.S fuel =>
        let mid := lo + (hi - lo + 1) / 2 in
        shared ← check_shared_block_via_events id sid mid;
        match shared with
        | Some true => bisect fuel id sid mid hi
        | Some false => bisect fuel id sid lo (saturating_sub mid 1)
        | None => give_back (ProbeNoData mid)
        end
    end
  else mret lo.
Definition find_common_ancestor_via_events (id : PeerId) (sid claim_height : Z) : ibd Z :=
  our_height ← ask (fun st => Z.min (tip_height (tip (node (relay st)))) claim_height);
  shared ← check_shared_block_via_events id sid our_height;
  match shared with
  | Some true => mret our_height
  | Some false => bisect (Z.to_nat our_height) id sid 0 our_height
  | None => give_back (ProbeNoData our_height)
  end.

(** ** Authenticating the headers up to the checkpoint *)

(** Requests needed, 64 headers each. *)
Definition STAGE_A_REQUESTS : Z := (ASSUME_VALID_HEIGHT + 1 + MAX_GETBLOCKS_ITEMS - 1) / MAX_GETBLOCKS_ITEMS.
Record StageA := { sa_headers : list BlockHeader; sa_sent : Z; sa_received : Z; sa_in_flight : nat }.
(** [while in_flight < MAX_IN_FLIGHT && send_next_idx < n]; [None] when a request
    cannot be sent. *)
Fixpoint fill_window (free : nat) (id : PeerId) (sid : Z) (s : StageA) : ibd (option StageA) :=
  match free with
  | O => mret (Some s)
  | Datatypes.S free =>
      if sa_sent s <? STAGE_A_REQUESTS then
        ok ← within (send_to_session moments id sid (MGetHeaders {| start_height := sa_sent s * MAX_GETBLOCKS_ITEMS; max_count := MAX_GETBLOCKS_ITEMS |}));
        if ok : bool then
          fill_window free id sid {| sa_headers := sa_headers s; sa_sent := sa_sent s + 1; sa_received := sa_received s; sa_in_flight := Datatypes.S (sa_in_flight s) |}
        else mret None
      else mret (Some s)
  end.
(** A batch is the answer to the oldest request, and hangs on the one before. *)
Definition accept_batch (batch : list BlockHeader) (s : StageA) : result StageAOutcome StageA :=
  match batch with
  | [] => Err EmptyOrUncorrelatedResponse
  | first :: _ =>
      if negb (height first =? sa_received s * MAX_GETBLOCKS_ITEMS) then Err EmptyOrUncorrelatedResponse
      else
        let linked := if 0 <? sa_received s
                      then match last (sa_headers s) with
                           | Some prev => verify_stage_a_batch_linkage batch (Some prev)
                           | None => Err DeliveredInvalidHeader
                           end
                      else verify_stage_a_batch_linkage batch None in
        match linked with
        | Err e => Err e
        | Ok _ => Ok {| sa_headers := sa_headers s ++ batch; sa_sent := sa_sent s; sa_received := sa_received s + 1; sa_in_flight := pred (sa_in_flight s) |}
        end
  end.
(** Every round but the last receives a batch. *)
Fixpoint stage_a_loop (fuel : nat) (id : PeerId) (sid : Z) (s : StageA) : ibd (StageAOutcome + list BlockHeader) :=
  match fuel with
  | O => stuck
  | Datatypes.S fuel =>
      down ← ask (fun st => shutdown (relay st));
      a ← arrival;
      ok ← ask (attached id sid);
      if down || a_stalled a then mret (inl Timeout)
      else if negb ok then mret (inl PeerDisconnected)
      else
        w ← fill_window (MAX_IN_FLIGHT - sa_in_flight s) id sid s;
        match w with
        | None => mret (inl SendFailed)
        | Some s =>
            if STAGE_A_REQUESTS <=? sa_received s then mret (inr (sa_headers s))
            else
              a ← arrival;
              match a_batch a with
              | Closed => mret (inl PeerDisconnected)
              | TimedOut => mret (inl Timeout)
              | Got batch =>
                  match accept_batch batch s with
                  | Err e => mret (inl e)
                  | Ok s => stage_a_loop fuel id sid s
                  end
              end
        end
  end.
Definition install_headers (headers : list BlockHeader) (st : Sync) : Sync :=
  let n := node (relay st) in
  Build_Sync (with_node (with_checkpoint true (assume_valid_cumulative_work_trusted n) n) (relay st)) (Some headers) (ever_confirmed_peer st).
Definition stage_a_inner (id : PeerId) (sid : Z) : ibd StageAOutcome :=
  r ← stage_a_loop (Datatypes.S (Z.to_nat STAGE_A_REQUESTS)) id sid {| sa_headers := []; sa_sent := 0; sa_received := 0; sa_in_flight := 0 |};
  match r with
  | inl e => mret e
  | inr headers =>
      match verify_stage_a_anchor headers with
      | Err e => mret e
      | Ok _ => _ ← change (install_headers headers); mret Success
      end
  end.

(** ** Blocks of the download *)

(** A block that is stored: when it is on our chain above the tip, the tip moves
    to it. *)
Definition note_stored (b : Block) : ibd unit :=
  let id := block_id (header b) in
  a ← arrival;
  canonical ← ask (fun st => negb (a_fault a) && bool_decide (get_block_id_by_height (height (header b)) (storage (node (relay st))) = Some id));
  if canonical : bool then
    a ← arrival;
    change (fun st =>
      let n := node (relay st) in
      if tip_height (tip n) <? height (header b) then
        let work := default (cumulative_work (tip n)) (if a_fault a then None else get_cumulative_work id (storage n)) in
        with_relay (with_node (with_tip {| tip_block_id := id; tip_height := height (header b); cumulative_work := work |} n) (relay st)) st
      else st)
  else mret tt.
Definition is_stored (b : Block) : ibd bool :=
  a ← arrival;
  ask (fun st => negb (a_fault a) && has_block (block_id (header b)) (storage (node (relay st)))).
(** The clock is compared only for blocks near or above the tip. *)
Definition ibd_wall_clock (b : Block) : ibd (option Z) :=
  a ← arrival;
  ask (fun st => if saturating_sub (tip_height (tip (node (relay st)))) IBD_DRIFT_WINDOW <=? height (header b)
                 then Some (default 0 (wall_clock (a_env a))) else None).
(** The proof of work is skipped up to the checkpoint once it has been met. *)
Definition ibd_skip_pow (b : Block) (n : @Node S) : bool :=
  assume_valid n && assume_valid_verified n && (height (header b) <=? ASSUME_VALID_HEIGHT).
Definition process_at (clock : option Z) (skip : bool) (b : Block) : ibd (result ProcessBlockError ProcessBlockOutcome) :=
  m ← within (observe moments);
  within (process signature_domain coinbase_maturity (at_clock clock (m_env m)) skip b).
Definition process_ibd (clock : option Z) (b : Block) : ibd (result ProcessBlockError ProcessBlockOutcome) :=
  skip ← ask (fun st => ibd_skip_pow b (node (relay st)));
  process_at clock skip b.
Definition go_down : ibd unit := within (update with_shutdown).
(** The outcome of a block; a fatal error shuts the node down. *)
Definition or_down {A} (e : ProcessBlockError) (err : IbdError) : ibd A :=
  if is_fatal e then _ ← go_down; give_back err else give_back err.

(** [flip_stage_b_anchor_apply] *)
Definition set_ever_confirmed (lp : LogicalPeer) : LogicalPeer := {|
  session := session lp; known_addrs := known_addrs lp; preferred_dial_addr := preferred_dial_addr lp; desired_outbound := desired_outbound lp;
  retry := retry lp;
  lp_tip := (fun t => {| pt_height := pt_height t; pt_work := pt_work t; pt_block_id := pt_block_id t; pt_confirmed := true |}) <$> lp_tip lp;
  ibd_cooldown_until := ibd_cooldown_until lp; last_useful_message_at := last_useful_message_at lp; ever_confirmed_for_ibd := true |}.
Definition flip_stage_b_anchor_apply (id : PeerId) (st : Sync) : Sync :=
  let r := relay st in
  Build_Sync (with_registry (with_peers (alter set_ever_confirmed id (by_identity (peers r))) (peers r)) r) (stage_a_authenticated_headers st) true.

(** ** Up to the checkpoint *)

Fixpoint vector_ids (vector : list BlockHeader) (heights : list Z) : result IbdError (list Hash256) :=
  match heights with
  | [] => Ok []
  | h :: heights =>
      match vector !! Z.to_nat h with
      | None => Err (VectorMissing h)
      | Some hd => match vector_ids vector heights with Ok ids => Ok (block_id hd :: ids) | Err e => Err e end
      end
  end.
Record StageB := { sb_in_flight : list (list Hash256); sb_next : Z }.
Fixpoint fill_chunks (free : nat) (id : PeerId) (sid : Z) (vector : list BlockHeader) (end_height : Z) (s : StageB) : ibd StageB :=
  match free with
  | O => mret s
  | Datatypes.S free =>
      if sb_next s <=? end_height then
        let chunk_end := Z.min (sb_next s + Z.of_nat MAX_GETBLOCKS_RESPONSE - 1) end_height in
        match vector_ids vector (seqZ (sb_next s) (chunk_end - sb_next s + 1)) with
        | Err e => give_back e
        | Ok ids =>
            _ ← sends id sid (MGetBlocks ids);
            fill_chunks free id sid vector end_height {| sb_in_flight := sb_in_flight s ++ [ids]; sb_next := chunk_end + 1 |}
        end
      else mret s
  end.
(** The first chunk without its first entry; an empty chunk goes. *)
Definition advance_front (chunks : list (list Hash256)) : list (list Hash256) :=
  match chunks with
  | (_ :: []) :: rest => rest
  | (_ :: ids) :: rest => ids :: rest
  | _ => chunks
  end.
Definition stage_b_block (id : PeerId) (b : Block) : ibd unit :=
  let at_anchor := if height (header b) =? ASSUME_VALID_HEIGHT then change (flip_stage_b_anchor_apply id) else mret tt in
  stored ← is_stored b;
  if stored : bool then _ ← note_stored b; at_anchor
  else
    clock ← ibd_wall_clock b;
    r ← process_at clock true b;
    match r with
    | Ok _ => at_anchor
    | Err e => give_back (BlockFailed e)
    end.
(** Every round but the last receives a block. *)
Fixpoint stage_b_loop (fuel : nat) (id : PeerId) (sid : Z) (vector : list BlockHeader) (end_height : Z) (s : StageB) : ibd unit :=
  match fuel with
  | O => stuck
  | Datatypes.S fuel =>
      _ ← go_on id sid;
      s ← (fill_chunks (MAX_CHUNKS_IN_FLIGHT - length (sb_in_flight s)) id sid vector end_height s : ibd StageB);
      match sb_in_flight s with
      | [] => mret tt
      | [] :: _ => stuck
      | (expected :: _) :: _ =>
          b ← recv_ibd_block id sid expected;
          _ ← stage_b_block id b;
          stage_b_loop fuel id sid vector end_height {| sb_in_flight := advance_front (sb_in_flight s); sb_next := sb_next s |}
      end
  end.
Definition run_stage_b_below_or_at_anchor (id : PeerId) (sid : Z) (vector : list BlockHeader) (start end_height : Z) : ibd unit :=
  stage_b_loop (Datatypes.S (Z.to_nat (end_height - start + 1))) id sid vector end_height {| sb_in_flight := []; sb_next := start |}.

(** ** Above the checkpoint *)

(** The checks on a batch of headers, in the order of the code. *)
Definition check_batch (headers : list BlockHeader) (current batch_size : Z) (prev_batch_tip : option Hash256) : ibd unit :=
  match headers with
  | [] => give_back (EmptyHeaders current)
  | first :: _ =>
      if batch_size <? len headers then give_back (TooManyHeaders current)
      else if negb (height first =? current) then give_back (WrongHeight current)
      else if negb (all_pairs next_height headers) then give_back (NotContiguous current)
      else
        a ← ask (fun st => arrivals (relay st));
        parent ← (match prev_batch_tip with
                  | Some id => mret (Some id)
                  | None => if a_fault a then give_back StorageUnreadable
                            else ask (fun st => get_block_id_by_height (current - 1) (storage (node (relay st))))
                  end);
        if negb (from_option (fun id => bool_decide (prev_block_id first = id)) true parent) then give_back (NotOnOurChain current)
        else if negb (all_pairs next_link headers) then give_back (NotLinked current)
        else mret tt
  end.
(** Ancestors from the missing one down to a parent we know, in the order they
    were fetched. *)
Fixpoint fetch_ancestors (depth : nat) (id : PeerId) (sid : Z) (needed : Hash256) (total : Z) (fetched : list Block) : ibd (list Block) :=
  match depth with
  | O => mret fetched
  | Datatypes.S depth =>
      _ ← sends id sid (MGetBlocks [needed]);
      b ← recv_ibd_block id sid needed;
      let total := saturating_add U64_MAX total (match Block_serialize b with Ok bs => len bs | Err _ => MAX_BLOCK_SIZE end) in
      if MAX_ANCESTOR_BYTES <? total then give_back AncestorBytesExceeded
      else
        let parent := prev_block_id (header b) in
        a ← ask (fun st => arrivals (relay st));
        if a_fault a then give_back StorageUnreadable
        else
          known ← ask (fun st => has_header parent (storage (node (relay st))));
          if known || bool_decide (parent = Hash256_ZERO) then mret (fetched ++ [b])
          else fetch_ancestors depth id sid parent total (fetched ++ [b])
  end.
Fixpoint process_ancestors (clock : option Z) (blocks : list Block) : ibd unit :=
  match blocks with
  | [] => mret tt
  | b :: blocks =>
      r ← process_ibd clock b;
      match r with
      | Ok _ => process_ancestors clock blocks
      | Err e => or_down e (AncestorFailed e)
      end
  end.
Definition download_block (id : PeerId) (sid : Z) (expected : Hash256) : ibd unit :=
  b ← recv_ibd_block id sid expected;
  stored ← is_stored b;
  if stored : bool then note_stored b
  else
    clock ← ibd_wall_clock b;
    r ← process_ibd clock b;
    _ ← match r with
        | Ok _ => mret tt
        | Err (MissingReorgAncestor missing) =>
            fetched ← fetch_ancestors MAX_ANCESTOR_RECOVERY_DEPTH id sid missing 0 [];
            _ ← process_ancestors clock (rev fetched);
            r ← process_ibd clock b;
            match r with Ok _ => mret tt | Err e => give_back (RetryFailed e) end
        | Err e => or_down e (BlockFailed e)
        end;
    m ← within (observe moments);
    within (update (fun r => with_registry (mark_useful_message (now (m_env m)) id sid (peers r)) r)).
Fixpoint download_each (id : PeerId) (sid : Z) (ids : list Hash256) : ibd unit :=
  match ids with
  | [] => mret tt
  | expected :: ids => _ ← download_block id sid expected; download_each id sid ids
  end.
(** [ids.chunks(8)]; every round takes at least one. *)
Fixpoint download_chunks (fuel : nat) (id : PeerId) (sid : Z) (ids : list Hash256) : ibd unit :=
  match ids with
  | [] => mret tt
  | _ :: _ =>
      match fuel with
      | O => stuck
      | Datatypes.S fuel =>
          let chunk := take MAX_GETBLOCKS_RESPONSE ids in
          _ ← sends id sid (MGetBlocks chunk);
          _ ← download_each id sid chunk;
          download_chunks fuel id sid (drop MAX_GETBLOCKS_RESPONSE ids)
      end
  end.
(** [while current_height <= their_height]; a batch is not empty, so there are at
    most as many rounds as heights. *)
Fixpoint download_batches (fuel : nat) (id : PeerId) (sid their_height current : Z) (prev_batch_tip : option Hash256) : ibd unit :=
  if current <=? their_height then
    match fuel with
    | O => stuck
    | Datatypes.S fuel =>
        _ ← go_on id sid;
        let batch_size := Z.min IBD_BATCH (their_height - current + 1) in
        _ ← sends id sid (MGetHeaders {| start_height := current; max_count := batch_size |});
        headers ← recv_ibd_headers id sid;
        _ ← check_batch headers current batch_size prev_batch_tip;
        _ ← download_chunks (length headers) id sid (map block_id headers);
        download_batches fuel id sid their_height (current + len headers) (block_id <$> last headers)
    end
  else mret tt.

Definition run_ibd (id : PeerId) (sid : Z) : ibd unit :=
  claimed ← ask (fun st => by_identity (peers (relay st)) !! id ≫= fun lp => pt_height <$> lp_tip lp);
  match claimed with
  | None => give_back NotInRegistry
  | Some their_height =>
      fork_point ← find_common_ancestor_via_events id sid their_height;
      vector ← ask stage_a_authenticated_headers;
      let stage_b_end := Z.min their_height ASSUME_VALID_HEIGHT in
      current ← (match vector with
                 | Some vector =>
                     if fork_point + 1 <=? stage_b_end
                     then _ ← run_stage_b_below_or_at_anchor id sid vector (fork_point + 1) stage_b_end; mret (stage_b_end + 1)
                     else mret (fork_point + 1)
                 | None => mret (fork_point + 1)
                 end);
      _ ← download_batches (Z.to_nat (their_height - current + 1)) id sid their_height current None;
      final ← ask (fun st => tip_height (tip (node (relay st))));
      if final <=? fork_point then give_back (NoAdvance fork_point) else mret tt
  end.
End Download.
