(* ===== verification/DownloadSafety.v ===== *)
(** * The download is safe

    Whatever a peer answers, the download of [Download.v] returns and keeps the
    node consistent; the binary search finds the last block that is shared with a
    peer that answers from its chain; and the headers that get installed are the
    ancestors of the checkpoint. *)

From S2P Require Import Prelude Bytes Codec Hash Transaction Block Wire U256 Difficulty Reward.
From S2P Require Import ScriptValue ScriptCodec Jets ScriptCost Eval FeeCost Smt Utxo TxValidation BlockValidation BlockApply Mempool.
From S2P Require Import Storage TipValidation PeerRegistry PeerPolicy BlockRelay ChainManager StoreView ChainModel StorageFacts ChainStore ChainState RelayFacts RelaySafety Download.
#[local] Open Scope Z_scope.
#[local] Open Scope list_scope.

(** ** Linked headers *)

Section Links.
Context `{Sha2}.
Definition chained (l : list BlockHeader) : Prop := forall i a b, l !! i = Some a -> l !! Datatypes.S i = Some b -> prev_block_id b = block_id a.
Lemma all_pairs_spec {A} (p : A -> A -> bool) l : all_pairs p l = true <-> forall i a b, l !! i = Some a -> l !! Datatypes.S i = Some b -> p a b = true.
Proof.
  induction l as [|x [|y l] IH]; [done|split; [|done]; by intros _ [|i] a b|]. cbn [all_pairs]. rewrite andb_true_iff, IH. split.
  - intros [Hp Hr] [|i] a b; cbn; [by intros [= <-] [= <-]|apply Hr].
  - intros Hr. split; [by apply (Hr 0%nat)|]. intros i a b. apply (Hr (Datatypes.S i)).
Qed.
Lemma chained_app l1 l2 : chained l1 -> chained l2 -> (forall a b, last l1 = Some a -> head l2 = Some b -> prev_block_id b = block_id a) -> chained (l1 ++ l2).
Proof.
  intros H1 H2 Hs i a b Ha Hb. destruct (decide (Datatypes.S i < length l1)%nat) as [Hi|Hi].
  - rewrite lookup_app_l in Ha, Hb by lia. by eapply H1.
  - destruct (decide (Datatypes.S i = length l1)) as [Hi'|Hi'].
    + rewrite lookup_app_l in Ha by lia. rewrite lookup_app_r, <- Hi', Nat.sub_diag in Hb by lia. apply Hs; [|by rewrite head_lookup].
      rewrite last_lookup, <- Hi'. done.
    + rewrite lookup_app_r in Ha, Hb by lia. eapply H2; [exact Ha|]. by replace (Datatypes.S (i - length l1)) with (Datatypes.S i - length l1)%nat by lia.
Qed.
Lemma linkage_chained batch prev : verify_stage_a_batch_linkage batch prev = Ok tt ->
  chained batch /\ forall a b, prev = Some a -> head batch = Some b -> prev_block_id b = block_id a.
Proof.
  unfold verify_stage_a_batch_linkage. destruct (all_pairs _ batch) eqn:E; [cbn [negb]|done]. rewrite all_pairs_spec in E. intros Hv. split.
  - intros i a b Ha Hb. specialize (E i a b Ha Hb). by apply andb_true_iff in E as [_ ?%bool_decide_eq_true].
  - intros a b -> Hh. rewrite Hh in Hv. by destruct (bool_decide_reflect (prev_block_id b = block_id a)).
Qed.
(** Going back from a shared header, two linked lists are the same. *)
Lemma chained_unique v t k : chained v -> chained t -> (forall i a b, v !! i = Some a -> t !! i = Some b -> block_id a = block_id b -> a = b) ->
  (k < length v)%nat -> (k < length t)%nat -> (block_id <$> v !! k) = (block_id <$> t !! k) -> forall i, (i <= k)%nat -> v !! i = t !! i.
Proof.
  intros Hv Ht Hid. induction k as [|k IH]; intros Lv Lt Hk i Hi.
  - replace i with 0%nat by lia. destruct (lookup_lt_is_Some_2 v 0 Lv) as [a Ea], (lookup_lt_is_Some_2 t 0 Lt) as [b Eb]. rewrite Ea, Eb in *. injection Hk as Hk. f_equal. by eapply Hid.
  - destruct (lookup_lt_is_Some_2 v _ Lv) as [a Ea], (lookup_lt_is_Some_2 t _ Lt) as [b Eb]. assert (a = b) as <- by (rewrite Ea, Eb in Hk; injection Hk as Hk; by eapply Hid).
    destruct (decide (i = Datatypes.S k)) as [->|Hne]; [congruence|]. apply IH; [lia|lia| |lia].
    destruct (lookup_lt_is_Some_2 v k) as [p Ep]; [lia|]. destruct (lookup_lt_is_Some_2 t k) as [q Eq]; [lia|]. rewrite Ep, Eq. cbn. f_equal.
    rewrite <- (Hv _ _ _ Ep Ea), <- (Ht _ _ _ Eq Eb). done.
Qed.
End Links.

Section Safety.
Context {lost : Prop} {S : Type} `{StoreView lost S} `{!UtxoRoot S}.
Context `{Sha2} `{!Sha2Width} `{Ed25519} `{Layout} `{Argon2}.
Variable signature_domain : Hash256.
Variable coinbase_maturity : Z.
Variables (U : Block -> Prop) (genesis : Block).
Hypothesis world : World U genesis.
Variable walk : forall {K V} `{Countable K}, gmap K V -> list (K * V).
Variable moments : nat -> Moment.
(** The read of the fork point's work does not fail: the fault whose roll-back
    is incomplete. *)
Hypothesis fork_point_read : forall k, io (m_env (moments k)) AtForkPointWork = false.
Variable arrivals : @Relay S -> Arrival.
Hypothesis arrivals_known : forall r e, a_event (arrivals r) = Got e -> event_known U e.
Abbreviation relay_ok := (relay_ok U genesis).
Abbreviation onward := (onward U genesis).
Abbreviation rwp := (rwp (lost := lost)).
Abbreviation Sync := (@Sync S).
Abbreviation ibd := (@ibd S).

(** ** Operations that keep the node consistent *)

(** The authenticated headers and the checkpoint's flag. *)
Definition authority (st : Sync) : option (list BlockHeader) * bool := (stage_a_authenticated_headers st, assume_valid_verified (node (relay st))).

(** [c] returns, goes onward from a consistent node, and its results satisfy
    [Q]. *)
Definition safe {A} (Q : A -> Prop) (c : ibd A) : Prop := forall st, relay_ok (relay st) ->
  match c st with
  | Some (r, st') => onward (relay st) (relay st') /\ match r with Ok a => Q a | Err _ => True end
  | None => lost
  end.
Abbreviation fine := (safe (fun _ => True)).

Lemma safe_bind {A B} (P : A -> Prop) (Q : B -> Prop) (c : ibd A) (f : A -> ibd B) : safe P c -> (forall a, P a -> safe Q (f a)) -> safe Q (c ≫= f).
Proof.
  intros Hc Hf st Hok. unfold mbind, ibd_bind. specialize (Hc st Hok). destruct (c st) as [[[a|e] st1]|]; [|done|done]. destruct Hc as [O1 Pa].
  specialize (Hf a Pa st1 (ow_ok _ _ _ _ O1)). destruct (f a st1) as [[r st2]|]; [|done]. destruct Hf as [O2 HQ]. split; [by eapply onward_trans|done].
Qed.
Lemma fine_bind {A B} (Q : B -> Prop) (c : ibd A) (f : A -> ibd B) : fine c -> (forall a, safe Q (f a)) -> safe Q (c ≫= f).
Proof. intros Hc Hf. eapply safe_bind; [exact Hc|]. intros a _. apply Hf. Qed.
Lemma safe_ret {A} (Q : A -> Prop) (a : A) : Q a -> safe Q (mret a : ibd A).
Proof. intros Qa st Hok. split; [by apply onward_refl|done]. Qed.
Lemma safe_give_back {A} (Q : A -> Prop) e : safe Q (give_back e : ibd A).
Proof. intros st Hok. split; [by apply onward_refl|done]. Qed.
Lemma safe_ask {A} (f : Sync -> A) : fine (ask f).
Proof. intros st Hok. split; [by apply onward_refl|done]. Qed.
Lemma safe_change (f : Sync -> Sync) : (forall st, relay_ok (relay st) -> onward (relay st) (relay (f st))) -> fine (change f).
Proof. intros Hf st Hok. split; [by apply Hf|done]. Qed.
Lemma safe_within {A} (c : @rel S A) : (forall r, relay_ok r -> rwp c r (fun _ r' => onward r r')) -> fine (within c).
Proof. intros Hc st Hok. unfold within. specialize (Hc _ Hok). unfold rwp in Hc. by destruct (c (relay st)) as [[a r]|]. Qed.
Lemma safe_similar {A} (c : @rel S A) : (forall r, rwp c r (fun _ r' => similar r r')) -> fine (within c).
Proof. intros Hc. apply safe_within. intros r Hok. eapply rwp_mono; [apply Hc|]. cbv beta. intros a r' Hs. by apply similar_onward. Qed.
Lemma safe_weaken {A} (P Q : A -> Prop) (c : ibd A) : (forall a, P a -> Q a) -> safe P c -> safe Q c.
Proof. intros HP Hc st Hok. specialize (Hc st Hok). destruct (c st) as [[[a|e] st']|]; [|done|done]. destruct Hc. auto. Qed.

Lemma observe_fine : fine (within (observe moments)).
Proof. apply safe_similar. intros r. by apply rwp_observe. Qed.
Lemma observe_moment : safe (fun m => io (m_env m) AtForkPointWork = false) (within (observe moments)).
Proof. intros st Hok. split; [by apply similar_onward|]. apply fork_point_read. Qed.
Lemma arrival_fine : fine (arrival moments arrivals).
Proof. unfold arrival. apply fine_bind; [apply safe_ask|]. intros a. apply fine_bind; [apply observe_fine|]. intros _. by apply safe_ret. Qed.
Lemma session_similar id sid msg (r : @Relay S) : rwp (send_to_session moments id sid msg) r (fun _ r' => similar r r').
Proof.
  unfold send_to_session. apply rwp_bind, rwp_see. destruct (from_option _ _ _); [|by apply rwp_ret]. apply rwp_bind, rwp_observe; [done|]. intros m r1 _ S1.
  destruct (m_sent m id); [|by apply rwp_ret]. apply rwp_bind, rwp_update, rwp_ret. eapply similar_trans; [exact S1|done].
Qed.
Lemma sends_fine id sid msg : fine (sends moments id sid msg).
Proof. unfold sends. apply fine_bind; [apply safe_similar, session_similar|]. intros []; [by apply safe_ret|apply safe_give_back]. Qed.
Lemma go_on_fine id sid : fine (go_on (S := S) id sid).
Proof.
  unfold go_on. apply fine_bind; [apply safe_ask|]. intros []; [apply safe_give_back|]. apply fine_bind; [apply safe_ask|]. intros []; [by apply safe_ret|apply safe_give_back].
Qed.
Abbreviation background := (background signature_domain coinbase_maturity (@walk) moments).
Lemma background_fine e : event_known U e -> fine (background e).
Proof. intros He. apply safe_within. intros r Hok. by apply background_ok. Qed.

(** An arrival whose event is known. *)
Lemma arrival_known : safe (fun a => forall e, a_event a = Got e -> event_known U e) (arrival moments arrivals).
Proof.
  intros st Hok. pose proof (arrival_fine st Hok) as Ha. destruct (arrival moments arrivals st) as [[[a|e] st']|] eqn:E; [|done|done]. split; [apply Ha|].
  unfold arrival, mbind, ibd_bind, ask, within, observe in E. injection E as <- _. intros e. apply arrivals_known.
Qed.

Lemma recv_headers_fine p id sid : fine (recv_headers signature_domain coinbase_maturity (@walk) moments arrivals p id sid).
Proof.
  induction p as [|p IH]; cbn [recv_headers]; [apply safe_give_back|]. eapply safe_bind; [apply arrival_known|]. cbv beta. intros a Ha.
  destruct (a_event a) as [e| |]; [|apply safe_give_back..]. specialize (Ha _ eq_refl).
  assert (fine (_ ← background e; recv_headers signature_domain coinbase_maturity (@walk) moments arrivals p id sid)) as Hb by (apply fine_bind; [by apply background_fine|by intros _]).
  destruct e; try exact Hb.
  - apply fine_bind; [by apply background_fine|]. intros _. destruct (bool_decide _); [apply safe_give_back|exact IH].
  - destruct (is_from _ _ _ _); [by apply safe_ret|exact IH].
Qed.
Lemma recv_ibd_headers_fine id sid : fine (recv_ibd_headers signature_domain coinbase_maturity (@walk) moments arrivals id sid).
Proof. intros st. apply recv_headers_fine. Qed.
Lemma recv_block_fine p id sid x : safe U (recv_block signature_domain coinbase_maturity (@walk) moments arrivals p id sid x).
Proof.
  induction p as [|p IH]; cbn [recv_block]; [apply safe_give_back|]. eapply safe_bind; [apply arrival_known|]. cbv beta. intros a Ha.
  destruct (a_event a) as [e| |]; [|apply safe_give_back..]. specialize (Ha _ eq_refl).
  assert (safe U (_ ← background e; recv_block signature_domain coinbase_maturity (@walk) moments arrivals p id sid x)) as Hb by (apply fine_bind; [by apply background_fine|by intros _]).
  destruct e; try exact Hb.
  - apply fine_bind; [by apply background_fine|]. intros _. destruct (bool_decide _); [apply safe_give_back|exact IH].
  - destruct (_ && _); [by apply safe_ret|exact Hb].
Qed.
Lemma stored_known r id b : relay_ok r -> get_block id (storage (node r)) = Ok (Some b) -> U b.
Proof. intros [[l [_ Hdb _ _]] _ _ _] Hg. pose proof (get_block_ok U genesis world l (storage (node r)) id Hdb) as Hok. rewrite Hg in Hok. destruct Hok as [(h & w & Hb) _]. apply Hb. Qed.
Lemma recv_ibd_block_safe id sid x : safe U (recv_ibd_block signature_domain coinbase_maturity (@walk) moments arrivals id sid x).
Proof.
  intros st Hok. unfold recv_ibd_block. destruct (_ && _); [|by apply recv_block_fine]. destruct (get_block _ _) as [[b|]|e] eqn:E; [|by apply recv_block_fine..].
  split; [by apply onward_refl|by eapply stored_known].
Qed.

(** ** The search *)

Abbreviation check_shared := (check_shared_block_via_events signature_domain coinbase_maturity (@walk) moments arrivals).
Lemma check_shared_fine id sid h : fine (check_shared id sid h).
Proof.
  unfold check_shared_block_via_events. apply fine_bind; [apply sends_fine|]. intros _. apply fine_bind; [apply recv_ibd_headers_fine|]. intros hs.
  apply fine_bind; [apply safe_ask|]. intros a. destruct (a_fault a); [apply safe_give_back|]. apply fine_bind; [apply safe_ask|]. intros ours.
  destruct (interpret_ancestor_probe_response _ _ _); [by apply safe_ret|apply safe_give_back].
Qed.
(** The mid_between is above [lo]. *)
Lemma mid_between lo hi : lo < hi -> lo < lo + (hi - lo + 1) / 2 <= hi.
Proof. intros Hlt. pose proof (Z.div_mod (hi - lo + 1) 2 ltac:(lia)). pose proof (Z.mod_pos_bound (hi - lo + 1) 2 ltac:(lia)). lia. Qed.
Lemma bisect_fine fuel id sid lo hi : 0 <= lo -> hi - lo <= Z.of_nat fuel ->
  fine (bisect signature_domain coinbase_maturity (@walk) moments arrivals fuel id sid lo hi).
Proof.
  revert lo hi. induction fuel as [|fuel IH]; intros lo hi Hlo Hf; cbn [bisect]; destruct (Z.ltb_spec lo hi) as [Hlt|]; try (by apply safe_ret); [lia|].
  pose proof (mid_between lo hi Hlt) as Hm. cbv zeta. apply fine_bind; [apply check_shared_fine|]. intros [[]|]; [apply IH; lia| |apply safe_give_back].
  apply IH; [done|]. unfold saturating_sub. lia.
Qed.
Lemma find_ancestor_fine id sid claim : fine (find_common_ancestor_via_events signature_domain coinbase_maturity (@walk) moments arrivals id sid claim).
Proof.
  unfold find_common_ancestor_via_events. apply fine_bind; [apply safe_ask|]. intros h. apply fine_bind; [apply check_shared_fine|].
  intros [[]|]; [by apply safe_ret|apply bisect_fine; lia|apply safe_give_back].
Qed.

(** ** Blocks *)

(** On a consistent node no block of the chain is above the tip, so a stored block
    does not move it. *)
Lemma canonical_below r b : relay_ok r -> get_block_id_by_height (height (header b)) (storage (node r)) = Some (block_id (header b)) ->
  height (header b) <= tip_height (tip (node r)).
Proof.
  intros [[l [_ Hdb Ht _]] _ _ _] Hg. unfold get_block_id_by_height, if_32 in Hg. destruct (HEIGHT_INDEX _ !! _) as [id|] eqn:E; [|done].
  apply (db_index _ _ _ _ Hdb) in E as (i & b' & ms & -> & Hi & _). apply lookup_lt_Some in Hi. rewrite (tip_at _ _ _ _ Ht). lia.
Qed.
Lemma note_stored_fine b : fine (note_stored (S := S) moments arrivals b).
Proof.
  unfold note_stored. cbv zeta. apply fine_bind; [apply arrival_fine|]. intros a st Hok. unfold mbind at 1, ibd_bind at 1, ask.
  destruct (negb (a_fault a) && bool_decide _) eqn:E; [|split; [by apply onward_refl|done]]. apply andb_true_iff in E as [_ E%bool_decide_eq_true].
  unfold arrival, mbind, ibd_bind, ask, within, observe. cbn. pose proof (canonical_below _ _ Hok E) as Hle. unfold change. split; [|done]. cbn.
  destruct (Z.ltb_spec (tip_height (tip (node (relay st)))) (height (header b))); [lia|]. by apply similar_onward.
Qed.
Lemma is_stored_fine b : fine (is_stored (S := S) moments arrivals b).
Proof. unfold is_stored. apply fine_bind; [apply arrival_fine|]. intros a. apply safe_ask. Qed.
Lemma wall_clock_fine b : fine (ibd_wall_clock (S := S) moments arrivals b).
Proof. unfold ibd_wall_clock. apply fine_bind; [apply arrival_fine|]. intros a. apply safe_ask. Qed.
Lemma process_at_fine clock skip b : U b -> fine (process_at signature_domain coinbase_maturity moments clock skip b).
Proof.
  intros Ub. unfold process_at. eapply safe_bind; [apply observe_moment|]. cbv beta. intros m Hio. apply safe_within. intros r Hok.
  eapply rwp_mono; [by apply (process_ok signature_domain coinbase_maturity U genesis world)|]. cbv beta. intros x r' (W & _). apply W.
Qed.
Lemma process_ibd_fine clock b : U b -> fine (process_ibd signature_domain coinbase_maturity moments clock b).
Proof. intros Ub. unfold process_ibd. apply fine_bind; [apply safe_ask|]. intros skip. by apply process_at_fine. Qed.
Lemma or_down_fine {A} (Q : A -> Prop) e err : safe Q (or_down (S := S) e err).
Proof.
  unfold or_down. destruct (is_fatal e); [|apply safe_give_back]. apply fine_bind; [|intros _; apply safe_give_back]. apply safe_within. intros r Hok. apply rwp_update.
  by apply (with_shutdown_worked _ _ []).
Qed.
Lemma flip_fine id : fine (change (S := S) (flip_stage_b_anchor_apply id)).
Proof. apply safe_change. intros st Hok. by apply similar_onward. Qed.

(** ** Up to the checkpoint *)

Lemma vector_ids_length v hs ids : vector_ids v hs = Ok ids -> length ids = length hs.
Proof.
  revert ids. induction hs as [|h hs IH]; intros ids; cbn [vector_ids]; [by intros [= <-]|]. destruct (v !! _); [|done]. destruct (vector_ids v hs); [|done]. intros [= <-]. cbn. by rewrite (IH _ eq_refl).
Qed.
Definition outstanding (end_height : Z) (s : StageB) : Z := Z.of_nat (length (concat (sb_in_flight s))) + Z.max 0 (end_height - sb_next s + 1).
Definition chunks_ok (s : StageB) : Prop := Forall (fun c => c <> []) (sb_in_flight s).
Lemma fill_chunks_safe free id sid v e s : chunks_ok s ->
  safe (fun s' => chunks_ok s' /\ outstanding e s' = outstanding e s) (fill_chunks (S := S) moments free id sid v e s).
Proof.
  revert s. induction free as [|free IH]; intros s Hs; cbn [fill_chunks]; [by apply safe_ret|]. destruct (Z.leb_spec (sb_next s) e) as [Hle|]; [|by apply safe_ret].
  cbv zeta. set (ce := Z.min _ e). assert (sb_next s <= ce <= e) as Hce by (unfold ce, MAX_GETBLOCKS_RESPONSE; lia). destruct (vector_ids _ _) as [ids|err] eqn:E; [|apply safe_give_back].
  apply vector_ids_length in E. rewrite length_seqZ in E. apply fine_bind; [apply sends_fine|]. intros _. eapply safe_weaken; [|apply IH].
  - cbv beta. intros s' [Hs' ->]. split; [done|]. unfold outstanding. cbn [sb_in_flight sb_next]. rewrite concat_app, length_app. cbn [concat]. rewrite app_nil_r, E. lia.
  - apply Forall_app. split; [exact Hs|]. repeat constructor. intros ->. cbn in E. lia.
Qed.
Lemma advance_front_ok e s x c rest : sb_in_flight s = (x :: c) :: rest -> chunks_ok s ->
  let s' := {| sb_in_flight := advance_front (sb_in_flight s); sb_next := sb_next s |} in chunks_ok s' /\ outstanding e s' = outstanding e s - 1.
Proof.
  intros Es Hs. unfold chunks_ok, outstanding in *. rewrite Es in *. cbn [sb_in_flight sb_next]. apply Forall_cons in Hs as [_ Hs]. destruct c as [|y c]; cbn; rewrite ?length_app.
  - split; [done|lia].
  - split; [by constructor|lia].
Qed.
Lemma stage_b_block_fine id b : U b -> fine (stage_b_block signature_domain coinbase_maturity moments arrivals id b).
Proof.
  intros Ub. unfold stage_b_block. cbv zeta. assert (forall h, fine (if h =? ASSUME_VALID_HEIGHT then change (S := S) (flip_stage_b_anchor_apply id) else mret tt)) as Hflip.
  { intros h. destruct (_ =? _); [apply flip_fine|by apply safe_ret]. }
  apply fine_bind; [apply is_stored_fine|]. intros []; [apply fine_bind; [apply note_stored_fine|]; intros _; apply Hflip|]. apply fine_bind; [apply wall_clock_fine|]. intros clock.
  apply fine_bind; [by apply process_at_fine|]. intros [o|e]; [apply Hflip|apply safe_give_back].
Qed.
Lemma stage_b_fine fuel id sid v e s : chunks_ok s -> outstanding e s < Z.of_nat fuel ->
  fine (stage_b_loop signature_domain coinbase_maturity (@walk) moments arrivals fuel id sid v e s).
Proof.
  revert s. induction fuel as [|fuel IH]; intros s Hs Hf; [unfold outstanding in Hf; lia|]. cbn [stage_b_loop]. apply fine_bind; [apply go_on_fine|]. intros _.
  eapply safe_bind; [by apply fill_chunks_safe|]. cbv beta. intros s1 [Hs1 Ho]. destruct (sb_in_flight s1) as [|[|x c] rest] eqn:Es; [by apply safe_ret| |].
  - unfold chunks_ok in Hs1. rewrite Es in Hs1. by apply Forall_cons in Hs1 as [? _].
  - eapply safe_bind; [apply recv_ibd_block_safe|]. intros b Ub. apply fine_bind; [by apply stage_b_block_fine|]. intros _. rewrite <- Es.
    destruct (advance_front_ok e s1 x c rest Es Hs1) as [Hs2 Ho2]. apply IH; [exact Hs2|]. rewrite Ho2. lia.
Qed.
Lemma run_stage_b_fine id sid v start e : fine (run_stage_b_below_or_at_anchor signature_domain coinbase_maturity (@walk) moments arrivals id sid v start e).
Proof. apply stage_b_fine; [by apply Forall_nil_2|]. unfold outstanding. cbn. lia. Qed.

(** ** Above the checkpoint *)

Lemma check_batch_safe hs cur size prev : safe (fun _ => hs <> []) (check_batch (S := S) arrivals hs cur size prev).
Proof.
  unfold check_batch. destruct hs as [|h hs]; [apply safe_give_back|]. destruct (_ <? _); [apply safe_give_back|]. destruct (negb _); [apply safe_give_back|].
  destruct (negb _); [apply safe_give_back|]. apply fine_bind; [apply safe_ask|]. intros a. apply fine_bind.
  { destruct prev; [by apply safe_ret|]. destruct (a_fault a); [apply safe_give_back|apply safe_ask]. }
  intros parent. destruct (negb _); [apply safe_give_back|]. destruct (negb _); [apply safe_give_back|]. by apply safe_ret.
Qed.
Lemma fetch_ancestors_safe depth id sid x total acc : Forall U acc ->
  safe (Forall U) (fetch_ancestors signature_domain coinbase_maturity (@walk) moments arrivals depth id sid x total acc).
Proof.
  revert x total acc. induction depth as [|depth IH]; intros x total acc Hacc; cbn [fetch_ancestors]; [by apply safe_ret|]. apply fine_bind; [apply sends_fine|]. intros _.
  eapply safe_bind; [apply recv_ibd_block_safe|]. intros b Ub. cbv zeta. destruct (_ <? _); [apply safe_give_back|]. apply fine_bind; [apply safe_ask|]. intros a.
  destruct (a_fault a); [apply safe_give_back|]. apply fine_bind; [apply safe_ask|]. intros known. assert (Forall U (acc ++ [b])) as Hacc' by (apply Forall_app; by repeat constructor).
  destruct (_ || _); [by apply safe_ret|by apply IH].
Qed.
Lemma process_ancestors_fine clock bs : Forall U bs -> fine (process_ancestors signature_domain coinbase_maturity moments clock bs).
Proof.
  induction 1 as [|b bs Ub _ IH]; cbn [process_ancestors]; [by apply safe_ret|]. apply fine_bind; [by apply process_ibd_fine|]. intros [o|e]; [exact IH|apply or_down_fine].
Qed.
Lemma download_block_fine id sid x : fine (download_block signature_domain coinbase_maturity (@walk) moments arrivals id sid x).
Proof.
  unfold download_block. eapply safe_bind; [apply recv_ibd_block_safe|]. intros b Ub. apply fine_bind; [apply is_stored_fine|]. intros []; [apply note_stored_fine|].
  apply fine_bind; [apply wall_clock_fine|]. intros clock. apply fine_bind; [by apply process_ibd_fine|]. intros r. apply fine_bind.
  - destruct r as [o|[e|e|missing]]; [by apply safe_ret|apply or_down_fine|apply or_down_fine|]. eapply safe_bind; [by apply fetch_ancestors_safe|]. intros bs Hbs.
    apply fine_bind; [apply process_ancestors_fine; by apply List.Forall_rev|]. intros _. apply fine_bind; [by apply process_ibd_fine|]. intros [o|e]; [by apply safe_ret|apply safe_give_back].
  - intros _. apply fine_bind; [apply observe_fine|]. intros m. apply safe_similar. intros r'. by apply rwp_update.
Qed.
Lemma download_each_fine id sid ids : fine (download_each signature_domain coinbase_maturity (@walk) moments arrivals id sid ids).
Proof. induction ids as [|x ids IH]; cbn [download_each]; [by apply safe_ret|]. apply fine_bind; [apply download_block_fine|]. by intros _. Qed.
Lemma download_chunks_fine fuel id sid ids : (length ids <= fuel)%nat -> fine (download_chunks signature_domain coinbase_maturity (@walk) moments arrivals fuel id sid ids).
Proof.
  revert ids. induction fuel as [|fuel IH]; intros [|x ids] Hf; cbn [download_chunks]; try (by apply safe_ret); [cbn in Hf; lia|]. cbv zeta.
  apply fine_bind; [apply sends_fine|]. intros _. apply fine_bind; [apply download_each_fine|]. intros _. apply IH. rewrite length_drop. unfold MAX_GETBLOCKS_RESPONSE. cbn in *. lia.
Qed.
Lemma download_batches_fine fuel id sid theirs cur prev : theirs - cur + 1 <= Z.of_nat fuel ->
  fine (download_batches signature_domain coinbase_maturity (@walk) moments arrivals fuel id sid theirs cur prev).
Proof.
  revert cur prev. induction fuel as [|fuel IH]; intros cur prev Hf; cbn [download_batches]; destruct (Z.leb_spec cur theirs); try (by apply safe_ret); [lia|].
  apply fine_bind; [apply go_on_fine|]. intros _. cbv zeta. apply fine_bind; [apply sends_fine|]. intros _. apply fine_bind; [apply recv_ibd_headers_fine|]. intros hs.
  eapply safe_bind; [apply check_batch_safe|]. cbv beta. intros _ Hne. apply fine_bind; [apply download_chunks_fine; by rewrite length_map|]. intros _. apply IH.
  assert (1 <= len hs) by (destruct hs; [done|unfold len; cbn; lia]). lia.
Qed.
Lemma run_ibd_fine id sid : fine (run_ibd signature_domain coinbase_maturity (@walk) moments arrivals id sid).
Proof.
  unfold run_ibd. apply fine_bind; [apply safe_ask|]. intros [theirs|]; [|apply safe_give_back]. apply fine_bind; [apply find_ancestor_fine|]. intros fork.
  apply fine_bind; [apply safe_ask|]. intros v. cbv zeta. apply fine_bind.
  { destruct v as [v|]; [|by apply safe_ret]. destruct (_ <=? _); [|by apply safe_ret]. apply fine_bind; [apply run_stage_b_fine|]. intros _. by apply safe_ret. }
  intros cur. apply fine_bind; [apply download_batches_fine; lia|]. intros _. apply fine_bind; [apply safe_ask|]. intros final. destruct (_ <=? _); [apply safe_give_back|by apply safe_ret].
Qed.

(** ** Authentication *)

(** [c] returns, changes nothing but the channels, and its results satisfy [Q]. *)
Definition idle {A} (Q : A -> Prop) (c : ibd A) : Prop := forall st, exists a st', c st = Some (Ok a, st') /\
  similar (relay st) (relay st') /\ stage_a_authenticated_headers st' = stage_a_authenticated_headers st /\ Q a.
Lemma idle_bind {A B} (P : A -> Prop) (Q : B -> Prop) (c : ibd A) (f : A -> ibd B) : idle P c -> (forall a, P a -> idle Q (f a)) -> idle Q (c ≫= f).
Proof.
  intros Hc Hf st. destruct (Hc st) as (a & st1 & E1 & S1 & A1 & Pa). destruct (Hf a Pa st1) as (b & st2 & E2 & S2 & A2 & Qb). exists b, st2.
  unfold mbind, ibd_bind. rewrite E1. split; [done|]. split; [by eapply similar_trans|]. split; [congruence|done].
Qed.
Lemma idle_ret {A} (Q : A -> Prop) (a : A) : Q a -> idle Q (mret a : ibd A).
Proof. intros Qa st. by exists a, st. Qed.
Abbreviation any := (fun _ => True).
Lemma idle_ask {A} (f : Sync -> A) : idle any (ask f).
Proof. intros st. by exists (f st), st. Qed.
Lemma idle_arrival : idle any (arrival (S := S) moments arrivals).
Proof. intros st. by eexists _, _. Qed.
Lemma idle_send id sid msg : idle any (within (S := S) (send_to_session moments id sid msg)).
Proof.
  intros st. unfold within, send_to_session, mbind, rel_bind, see, observe. destruct (from_option _ _ _); [|by eexists _, _]. cbn. destruct (m_sent _ _); by eexists _, _.
Qed.
(** What has been received so far hangs together. *)
Record received_ok (s : StageA) : Prop := {
  rc_chained : chained (sa_headers s);
  rc_first : sa_received s = 0 -> sa_headers s = [];
  rc_count : 0 <= sa_received s
}.
Lemma fill_window_idle free id sid s : idle (fun w => forall s', w = Some s' -> sa_headers s' = sa_headers s /\ sa_received s' = sa_received s)
  (fill_window (S := S) moments free id sid s).
Proof.
  revert s. induction free as [|free IH]; intros s; cbn [fill_window]; [apply idle_ret; by intros s' [= <-]|]. destruct (_ <? _); [|apply idle_ret; by intros s' [= <-]].
  eapply idle_bind; [apply idle_send|]. intros [] _; [|by apply idle_ret]. exact (IH _).
Qed.
Lemma accept_batch_ok batch s s' : received_ok s -> accept_batch batch s = Ok s' -> received_ok s' /\ sa_received s' = sa_received s + 1.
Proof.
  intros [Hc Hf Hn]. unfold accept_batch. destruct batch as [|h batch]; [done|]. destruct (negb _); [done|].
  assert (forall prev, (0 < sa_received s -> prev = last (sa_headers s)) -> verify_stage_a_batch_linkage (h :: batch) prev = Ok tt -> chained (sa_headers s ++ h :: batch)) as Hlink.
  { intros prev Hp [Hb Hs]%linkage_chained. apply chained_app; [done|done|]. intros a b Ha. apply Hs. rewrite Hp; [done|].
    destruct (decide (sa_received s = 0)) as [E|]; [|lia]. rewrite (Hf E) in Ha. done. }
  destruct (Z.ltb_spec 0 (sa_received s)) as [Hlt|Hge].
  - destruct (last (sa_headers s)) as [prev|] eqn:El; [|done]. destruct (verify_stage_a_batch_linkage _ _) as [[]|] eqn:Ev; [|done]. intros [= <-].
    split; [|done]. split; cbn; [by eapply Hlink|lia|lia].
  - destruct (verify_stage_a_batch_linkage _ _) as [[]|] eqn:Ev; [|done]. intros [= <-]. split; [|done]. split; cbn; [eapply Hlink; [lia|exact Ev]|lia|lia].
Qed.
Lemma accept_batch_error batch s e : accept_batch batch s = Err e -> e <> Success.
Proof.
  unfold accept_batch, verify_stage_a_batch_linkage. repeat case_match; intros [= <-]; congruence.
Qed.
Lemma stage_a_loop_idle fuel id sid s : received_ok s -> sa_received s <= STAGE_A_REQUESTS < Z.of_nat fuel + sa_received s ->
  idle (fun r => match r with inl e => e <> Success | inr hs => chained hs end) (stage_a_loop moments arrivals fuel id sid s).
Proof.
  revert s. induction fuel as [|fuel IH]; intros s Hs Hf; [lia|]. cbn [stage_a_loop]. eapply idle_bind; [apply idle_ask|]. intros down _. eapply idle_bind; [apply idle_arrival|]. intros a _.
  eapply idle_bind; [apply idle_ask|]. intros ok _. destruct (_ || _); [by apply idle_ret|]. destruct (negb ok); [by apply idle_ret|].
  eapply idle_bind; [apply fill_window_idle|]. cbv beta. intros [s1|] Hw; [|by apply idle_ret]. destruct (Hw _ eq_refl) as [Eh Er].
  assert (received_ok s1) as Hs1 by (destruct Hs; split; rewrite ?Eh, ?Er; done). destruct (Z.leb_spec STAGE_A_REQUESTS (sa_received s1)); [apply idle_ret, Hs1|].
  eapply idle_bind; [apply idle_arrival|]. intros a2 _. destruct (a_batch a2) as [batch| |]; [|by apply idle_ret..].
  destruct (accept_batch batch s1) as [s2|e] eqn:Ea; [|apply idle_ret; by eapply accept_batch_error]. destruct (accept_batch_ok _ _ _ Hs1 Ea) as [Hs2 Er2]. apply IH; [done|lia].
Qed.

(** ** The theorems *)

(** C5: Downloading a chain is safe.  Whatever the peer and others send or fail to
    send while it runs (headers and blocks of a [World] out of place,
    disconnections, silence), and whatever storage calls fail but one: on a
    consistent node [run_ibd] returns (unless a store which is not a map runs out of
    room, [lost]), the node is still on one consistent chain
    from genesis, its tip is the one before or better than it, and the buffers are
    within their limits.  Outside are the failure of the read of the fork point's
    work during a reorganisation ([fork_point_read]), which splits the state, and
    blocks that repeat a coinbase transaction at different heights ([World]).
    In particular the shortcut that moves the tip to a block that is already stored
    never moves it to a block that was not applied. *)
Theorem download_consistent (st : Sync) (id : PeerId) (sid : Z) :
  relay_ok (relay st) ->
  match run_ibd signature_domain coinbase_maturity (@walk) moments arrivals id sid st with
  | Some (_, st') =>
      (exists bs, on_chain U genesis bs (node (relay st'))) /\ no_worse (tip (node (relay st))) (tip (node (relay st'))) /\ within_limits (relay st')
  | None => lost
  end.
Proof.
  intros Hok. pose proof (run_ibd_fine id sid st Hok) as Hr. destruct (run_ibd _ _ _ _ _ _ _ _) as [[r st']|]; [|done]. destruct Hr as [[Hok' Ht _] _].
  destruct (ro_node _ _ _ Hok') as [l Hl]. split; [exists (map fst l); by apply node_on_chain|]. split; [done|by eapply relay_limits].
Qed.

(** C16: Stage A installs nothing but the ancestors of the checkpoint.  It always
    returns.  On success the installed headers agree, at every height up to the
    checkpoint, with every list of linked headers that ends in the checkpoint's
    identifier, as long as no two headers collide; and the flag that lets blocks
    up to the checkpoint skip the proof of work is set.  On every other outcome,
    the headers installed before and the flag are as they were. *)
Theorem stage_a_authenticates (st : Sync) (id : PeerId) (sid : Z) :
  exists outcome st', stage_a_inner moments arrivals id sid st = Some (Ok outcome, st') /\
  match outcome with
  | Success =>
      exists v, authority st' = (Some v, true) /\
      forall t, chained t -> block_id <$> t !! Z.to_nat ASSUME_VALID_HEIGHT = Some ASSUME_VALID_HASH ->
        (forall i a b, v !! i = Some a -> t !! i = Some b -> block_id a = block_id b -> a = b) ->
        forall i, (i <= Z.to_nat ASSUME_VALID_HEIGHT)%nat -> v !! i = t !! i
  | _ => authority st' = authority st
  end.
Proof.
  unfold stage_a_inner. set (s0 := Build_StageA _ _ _ _). assert (received_ok s0) as Hs0 by (split; [by intros [|i]|done|done]).
  destruct (stage_a_loop_idle (Datatypes.S (Z.to_nat STAGE_A_REQUESTS)) id sid s0 Hs0) with (st := st) as (r & st1 & E1 & S1 & A1 & Hr).
  { change (sa_received s0) with 0. split; [by unfold STAGE_A_REQUESTS|]. rewrite Nat2Z.inj_succ, Z2Nat.id by done. lia. }
  unfold mbind, ibd_bind. rewrite E1. assert (authority st1 = authority st) as Ha by (unfold authority; by rewrite A1, (sm_node _ _ S1)).
  destruct r as [e|hs]; [exists e, st1; split; [done|]; by destruct e|]. unfold verify_stage_a_anchor. destruct (hs !! Z.to_nat ASSUME_VALID_HEIGHT) as [anchor|] eqn:Ea; [|by eexists _, st1].
  destruct (bool_decide_reflect (block_id anchor = ASSUME_VALID_HASH)) as [Eh|]; [|by eexists _, st1]. eexists _, _. split; [done|]. cbv beta iota. exists hs. split; [done|].
  intros t Ht Hlast Hid. destruct (t !! Z.to_nat ASSUME_VALID_HEIGHT) as [b|] eqn:Eb; [|done]. apply chained_unique; [done|done|done|by eapply lookup_lt_Some|by eapply lookup_lt_Some|].
  rewrite Ea, Eb. cbn. rewrite Eh. done.
Qed.

(** ** A peer that answers *)

Section Honest.
Variables (id : PeerId) (sid : Z) (theirs : Z -> BlockHeader) (db : ChainStorage) (top k : Z).
Hypothesis sending : forall j, m_sent (moments j) id = true.
Hypothesis waiting : forall r, (0 < a_patience (arrivals r))%nat /\ a_fault (arrivals r) = false.
(** The header that is asked for comes first in the answer. *)
Hypothesis answering : forall r h n, 0 <= h <= top -> last (outbox r) = Some (id, MGetHeaders {| start_height := h; max_count := n |}) ->
  exists extra, a_event (arrivals r) = Got (HeadersResponse id sid (theirs h :: extra)).
Hypothesis heights : forall h, 0 <= h <= top -> height (theirs h) = h.
(** The chains agree exactly up to height [k]. *)
Hypothesis agreeing : forall h, 0 <= h <= top -> exists ours, get_block_id_by_height h db = Some ours /\ (ours = block_id (theirs h) <-> h <= k).
Hypothesis shared_genesis : 0 <= k.

Definition asking (st : Sync) : Prop := attached id sid st = true /\ storage (node (relay st)) = db.
Lemma sends_honest msg st : asking st -> exists st', sends moments id sid msg st = Some (Ok tt, st') /\ asking st' /\ last (outbox (relay st')) = Some (id, msg).
Proof.
  intros [Hatt Hdb]. unfold attached in Hatt. unfold sends, within, send_to_session, mbind, ibd_bind, rel_bind, see, observe. rewrite Hatt, sending. eexists.
  split; [reflexivity|]. split; [by split|]. cbn. apply last_snoc.
Qed.
Lemma recv_honest h n st : asking st -> 0 <= h <= top -> last (outbox (relay st)) = Some (id, MGetHeaders {| start_height := h; max_count := n |}) ->
  exists st' extra, recv_ibd_headers signature_domain coinbase_maturity (@walk) moments arrivals id sid st = Some (Ok (theirs h :: extra), st') /\ asking st'.
Proof.
  intros [Hatt Hdb] Hh Hl. unfold recv_ibd_headers. destruct (waiting (relay st)) as [Hp _]. destruct (a_patience (arrivals (relay st))) as [|p]; [lia|]. cbn [recv_headers].
  unfold arrival, mbind, ibd_bind, ask, within, observe. destruct (answering (relay st) h n Hh Hl) as [extra Ev]. cbn. rewrite Ev.
  assert (is_from id sid id sid = true) as -> by (unfold is_from; by rewrite bool_decide_true, Z.eqb_refl). eexists _, extra. split; [reflexivity|]. by split.
Qed.
Lemma check_shared_honest h st : asking st -> 0 <= h <= top ->
  exists st', check_shared id sid h st = Some (Ok (Some (h <=? k)), st') /\ asking st'.
Proof.
  intros Hst Hh. unfold check_shared_block_via_events. destruct (sends_honest (MGetHeaders {| start_height := h; max_count := 1 |}) st Hst) as (st1 & E1 & Hst1 & Hl).
  destruct (recv_honest h 1 st1 Hst1 Hh Hl) as (st2 & extra & E2 & Hst2). exists st2. split; [|done]. unfold mbind, ibd_bind, ask. rewrite E1, E2, (proj2 (waiting _)), (proj2 Hst2).
  destruct (agreeing h Hh) as (ours & -> & Hag). unfold interpret_ancestor_probe_response. rewrite (heights h Hh), Z.eqb_refl. unfold mret, ibd_ret. cbn [negb fmap option_fmap option_map].
  do 4 f_equal. destruct (Z.leb_spec h k) as [Hle|Hgt]; [apply bool_decide_eq_true, Hag, Hle|apply bool_decide_eq_false; intros ?%Hag; lia].
Qed.
Lemma bisect_honest fuel lo hi st : asking st -> 0 <= lo <= k -> lo <= hi <= top -> Z.min k top <= hi -> hi - lo <= Z.of_nat fuel ->
  exists st', bisect signature_domain coinbase_maturity (@walk) moments arrivals fuel id sid lo hi st = Some (Ok (Z.min k top), st') /\ asking st'.
Proof.
  revert lo hi st. induction fuel as [|fuel IH]; intros lo hi st Hst Hlo Hhi Hk Hf; cbn [bisect]; destruct (Z.ltb_spec lo hi) as [Hlt|Hge].
  - lia.
  - exists st. split; [|done]. unfold mret, ibd_ret. do 3 f_equal. lia.
  - pose proof (mid_between lo hi Hlt) as Hm. cbv zeta. set (mid := lo + _) in *. destruct (check_shared_honest mid st Hst ltac:(lia)) as (st1 & E1 & Hst1).
    unfold mbind, ibd_bind. rewrite E1. destruct (Z.leb_spec mid k); apply IH; try done; unfold saturating_sub; lia.
  - exists st. split; [|done]. unfold mret, ibd_ret. do 3 f_equal. lia.
Qed.

(** The binary search is right: asking a peer that answers from its chain, it
    returns the height of the last block that both chains share, as far as our
    tip and the height the peer claims go. *)
Theorem ancestor_found (st : Sync) (claim : Z) :
  attached id sid st = true -> storage (node (relay st)) = db -> top = Z.min (tip_height (tip (node (relay st)))) claim -> 0 <= top ->
  exists st', find_common_ancestor_via_events signature_domain coinbase_maturity (@walk) moments arrivals id sid claim st = Some (Ok (Z.min k top), st').
Proof.
  intros Hatt Hdb Htop Hpos. unfold find_common_ancestor_via_events. unfold mbind, ibd_bind, ask. rewrite <- Htop.
  destruct (check_shared_honest top st) as (st1 & E1 & Hst1); [done|lia|]. rewrite E1. destruct (Z.leb_spec top k) as [Hle|Hgt].
  - exists st1. unfold mret, ibd_ret. do 3 f_equal. lia.
  - destruct (bisect_honest (Z.to_nat top) 0 top st1) as (st2 & E2 & _); [done|lia|lia|lia|lia|]. by exists st2.
Qed.
End Honest.
End Safety.
