(* ===== verification/DownloadWitness.v ===== *)
(** * A download from a peer on the better chain

    The network of [ChainWitness.v]: the node is on the block [b1], the peer has
    the chain of [c1] and [c2].  The search finds genesis as the last shared
    block, the download switches to the peer's chain, and the theorems of
    [DownloadSafety.v] apply. *)

From S2P Require Import Prelude Bytes Codec Hash Transaction Block Wire U256 Difficulty Reward.
From S2P Require Import ScriptValue ScriptCodec Jets ScriptCost Eval FeeCost Smt Utxo TxValidation BlockValidation BlockApply Mempool.
From S2P Require Import Storage TipValidation PeerRegistry PeerPolicy BlockRelay ChainManager StoreView ChainModel StorageFacts ChainStore ChainState ChainWitness.
From S2P Require Import RelayFacts RelaySafety RelayWitness Download DownloadSafety.
#[local] Open Scope Z_scope.
#[local] Open Scope list_scope.

Section Downloads.
#[local] Existing Instance sha.
#[local] Existing Instance sha_width.
#[local] Existing Instance easy_argon2.
#[local] Existing Instance toy_ed25519.
#[local] Existing Instance toy_layout.
#[local] Existing Instance flat_root.

(** ** The peer *)

Definition better_chain : list Block := [g0; c1; c2].
Definition block_at (h : Z) : Block := default g0 (better_chain !! Z.to_nat h).
Definition their_header (h : Z) : BlockHeader := header (block_at h).
(** The first requested block that the node does not have. *)
Definition serve (ids : list Hash256) (db : ChainStorage) : PeerEvent :=
  let wanted := List.filter (fun b => existsb (fun id => bool_decide (id = block_id (header b))) ids && negb (has_block (block_id (header b)) db)) better_chain in
  BlockResponse home alice 7 (default g0 (head wanted)) false.
Definition answer (r : @Relay utxo_map) : PeerEvent :=
  match last (outbox r) with
  | Some (_, MGetHeaders g) => HeadersResponse alice 7 (their_header (start_height g) :: map their_header (seqZ (start_height g + 1) (Z.min (max_count g) (3 - start_height g) - 1)))
  | Some (_, MGetBlocks ids) => serve ids (storage (node r))
  | _ => HeadersResponse alice 7 []
  end.
Definition peer (r : @Relay utxo_map) : Arrival := {|
  a_event := Got (answer r); a_patience := 3; a_batch := TimedOut; a_stalled := false; a_fault := false; a_env := calm |}.

Lemma block_at_net h : net (block_at h).
Proof.
  unfold block_at, better_chain. destruct (Z.to_nat h) as [|[|[|n]]]; [left|right; right; left|right; right; right|left]; reflexivity.
Qed.
Lemma peer_known r e : a_event (peer r) = Got e -> event_known net e.
Proof.
  intros [= <-]. unfold answer. destruct (last (outbox r)) as [[x []]|]; try exact I. unfold serve. cbn [event_known].
  set (wanted := List.filter _ _). assert (forall b, In b wanted -> net b) as Hw.
  { intros b [Hb _]%List.filter_In. destruct Hb as [<-|[<-|[<-|[]]]]; [left|right; right; left|right; right; right]; reflexivity. }
  destruct wanted as [|b l]; [left; reflexivity|]. apply Hw. left. reflexivity.
Qed.

(** ** The node *)

Definition served : PeerRegistry :=
  with_peers (<[alice := set_tip (Some {| pt_height := 2; pt_work := zero32; pt_block_id := block_id (header c2); pt_confirmed := false |})
                           (set_session (Some {| session_id := 7; socket_addr := home; is_outbound := false; established_at := 0 |}) (LogicalPeer_new 0))]> ∅) PeerRegistry_new.
Definition node_b1 : @Node utxo_map := match process_block_inner sample_domain 360 calm b1 true node0 with Some (_, n) => n | None => node0 end.
Definition relay_b1 : @Relay utxo_map := with_registry served (with_node node_b1 relay0).
Definition sync0 : @Sync utxo_map := {| relay := relay_b1; stage_a_authenticated_headers := None; ever_confirmed_peer := false |}.

Lemma b1_taken : match process_block_inner sample_domain 360 calm b1 true node0 with Some _ => true | None => false end = true.
Proof. vm_compute. reflexivity. Qed.
Lemma relay_b1_ok : relay_ok net g0 relay_b1.
Proof.
  assert (exists r n, process_block_inner sample_domain 360 calm b1 true node0 = Some (r, n)) as (r & n & E).
  { pose proof b1_taken as Hb. destruct (process_block_inner sample_domain 360 calm b1 true node0) as [[r n]|]; [by exists r, n|discriminate Hb]. }
  pose proof (process_ok sample_domain 360 net g0 net_world calm true b1 relay0 relay0_ok (or_intror (or_introl eq_refl)) eq_refl) as Hp.
  unfold rwp, process in Hp. change (node relay0) with node0 in Hp. rewrite E in Hp. destruct Hp as [[[Hok _ _] _ _ _] _].
  unfold relay_b1, node_b1. rewrite E. destruct Hok as [Hn Ho Hf Ht]. split; [exact Hn|exact Ho|exact Hf|exact Ht].
Qed.

Definition download : option (result IbdError unit * @Sync utxo_map) := run_ibd sample_domain 360 in_order (steady calm) peer alice 7 sync0.
Definition download_tip (d : option (result IbdError unit * @Sync utxo_map)) : option Hash256 :=
  match d with Some (Ok _, st) => Some (tip_block_id (tip (node (relay st)))) | _ => None end.
Example download_switches : download_tip download = Some (block_id (header c2)).
Proof. vm_compute. reflexivity. Qed.

Lemma download_consistent_witness : exists st, download = Some (Ok tt, st) /\ tip_block_id (tip (node (relay st))) = block_id (header c2) /\
  (exists bs, on_chain net g0 bs (node (relay st))) /\ within_limits (relay st).
Proof.
  pose proof (download_consistent sample_domain 360 net g0 net_world in_order (steady calm) (fun _ => eq_refl) peer peer_known sync0 alice 7 relay_b1_ok) as Hr.
  pose proof download_switches as Hw. unfold download_tip, download in *. destruct (run_ibd _ _ _ _ _ _ _ _) as [[[[]|] st]|]; [|discriminate Hw..]. injection Hw as Ht.
  exists st. split; [reflexivity|]. split; [exact Ht|]. destruct Hr as (Hc & _ & Hl). split; [exact Hc|exact Hl].
Defined.

(** ** The search *)

Lemma their_heights h : 0 <= h <= 1 -> height (their_header h) = h.
Proof. intros Hh. assert (h = 0 \/ h = 1) as [->| ->] by lia; reflexivity. Qed.
Lemma b1_index : get_block_id_by_height 0 (storage node_b1) = Some (block_id (header g0)) /\ get_block_id_by_height 1 (storage node_b1) = Some (block_id (header b1)).
Proof. split; vm_compute; reflexivity. Qed.
Lemma chains_fork h : 0 <= h <= 1 -> exists ours, get_block_id_by_height h (storage node_b1) = Some ours /\ (ours = block_id (their_header h) <-> h <= 0).
Proof.
  destruct b1_index as [I0 I1]. intros Hh. assert (h = 0 \/ h = 1) as [->| ->] by lia.
  - eexists. split; [exact I0|]. change (their_header 0) with (header g0). split; [intros _; apply Z.le_refl|intros _; reflexivity].
  - eexists. split; [exact I1|]. destruct ids_evaluated as (_ & E1 & E2 & _). change (block_id (their_header 1)) with (block_id (header c1)). rewrite E1, E2. split; [intros E; discriminate E|lia].
Qed.
Lemma peer_answers (r : @Relay utxo_map) h n : 0 <= h <= 1 -> last (outbox r) = Some (alice, MGetHeaders {| start_height := h; max_count := n |}) ->
  exists extra, a_event (peer r) = Got (HeadersResponse alice 7 (their_header h :: extra)).
Proof. intros _ Hl. unfold peer, answer. cbn [a_event]. rewrite Hl. by eexists. Qed.
Lemma b1_tip : 1 = Z.min (tip_height (tip node_b1)) 2.
Proof. vm_compute. reflexivity. Qed.
Lemma ancestor_found_witness : exists st, find_common_ancestor_via_events sample_domain 360 in_order (steady calm) peer alice 7 2 sync0 = Some (Ok 0, st).
Proof.
  apply (ancestor_found sample_domain 360 in_order (steady calm) peer alice 7 their_header (storage node_b1) 1 0
    (fun _ => eq_refl) (fun _ => conj (Nat.lt_0_succ 2) eq_refl) peer_answers their_heights chains_fork (Z.le_refl 0) sync0 2 eq_refl eq_refl b1_tip Z.le_0_1).
Defined.

(** ** Stage A *)

(** A batch that starts at the right height and is linked is taken; one that is
    not is a strike, one for another height is not. *)
Definition started_a : StageA := {| sa_headers := []; sa_sent := 8; sa_received := 0; sa_in_flight := 8 |}.
Definition verdict (batch : list BlockHeader) : result StageAOutcome Z := match accept_batch batch started_a with Ok s => Ok (sa_received s) | Err e => Err e end.
Example batches_judged :
  verdict (map header better_chain) = Ok 1 /\ verdict [header g0; header c2] = Err DeliveredInvalidHeader /\ verdict [header c1; header c2] = Err EmptyOrUncorrelatedResponse.
Proof. vm_compute. split_and!; reflexivity. Qed.
End Downloads.
