(* ===== verification/Reader.v ===== *)
(** * The session with a peer ([src/network/sync.rs], [reader_task])

    One task per peer reads its messages: it counts them, answers requests,
    checks and relays transactions, and forwards blocks, headers and tips to the
    task of [BlockRelay.v].  [Host] is what a session works on: the relay, the
    address book, the limits shared by all sessions, the flags of the scheduler,
    and the session's own counters; [events] is the channel to the other task,
    [writer] the queue of answers.  [looks] is what a session sees from outside,
    one after the other. *)

From S2P Require Import Prelude Bytes Codec Hash Transaction Block Wire U256 Difficulty Reward.
From S2P Require Import ScriptValue ScriptCodec Jets ScriptCost Eval FeeCost Smt Utxo TxValidation BlockValidation Mempool Storage.
From S2P Require Import PeerRegistry PeerPolicy BlockRelay ChainManager.
#[local] Open Scope Z_scope.
#[local] Open Scope list_scope.

Definition MAX_BLOCKS_PER_MIN : Z := 60.
Definition MAX_DUPLICATE_BLOCKS_PER_MIN : Z := 60.
Definition MAX_TXS_PER_MIN : Z := 60.
Definition MAX_PINGS_PER_MIN : Z := 10.
Definition MAX_REQUESTS_PER_MIN : Z := 30.
Definition MAX_UNSOLICITED_PER_MIN : Z := 10.
Definition MAX_RESPONSE_BYTES_PER_MIN : Z := 16777216.
Definition MAX_GETADDR_PER_CONN : Z := 2.
Definition MAX_UNSOLICITED_ADDR_PER_MIN : Z := 3.
Definition ADDR_RESPONSE_WINDOW_SECS : Z := 30.
Definition MAX_INVALID_BLOCKS_PER_PEER : Z := 3.
Definition MAX_INVALID_TXS_PER_PEER : Z := 16.
Definition SERVED_BLOCKS : nat := 8.
Definition ADDR_SAMPLE : nat := 64.

(** Without the texts they carry. *)
Inductive PeerError :=
| Io | HandshakeTimeout | GenesisMismatch | VersionMismatch | UnexpectedMessage | PongTimeout | RateLimitExceeded | SerializationError
| NonceMismatch | AuthFailed | SelfConnection | SlowPeer | HmacFailure | DuplicateIdentity (identity : PeerId) | PeerAlreadyBanned | TrafficQuotaExceeded
| AbuseThresholdExceeded | ProtocolGarbage | SlowPeerTimeout | TransportIo | FrameBudgetExceeded | MalformedFrame | DisconnectAfterInlineStrike.
(** The errors for which the end of a session counts as a strike. *)
Definition strikes_at_end (e : PeerError) : bool :=
  match e with
  | HmacFailure | ProtocolGarbage | AbuseThresholdExceeded | SlowPeer | MalformedFrame | RateLimitExceeded => true
  | _ => false
  end.

(** The counters of a session. *)
Inductive counter := CBlocks | CDuplicates | CTxs | CPings | CRequests | CUnsolicited | CInvalidBlocks | CInvalidTxs | CGetAddr | CUnsolicitedAddr.
#[export] Instance counter_eq_dec : EqDecision counter.
Proof. solve_decision. Defined.

(** [try_send] on the channel of events. *)
Inductive delivery := Sent | Full | Gone.
(** What the session sees: clocks, faults of storage calls, the channels, whether
    the tip has changed during a validation, whether the header of a block was
    validated before, whether a subscriber takes headers, and random picks. *)
Record Look := {
  l_now : Z; l_unix : option Z; l_fault : bool; l_header_fault : Z -> bool; l_ban_fault : bool; l_identity_fault : PeerId -> bool;
  l_event : delivery; l_room : bool; l_tip_moved : bool; l_cached : bool; l_routed : bool; l_pick : nat -> nat; l_closing : bool
}.
(** [continue], or the end of the session. *)
Inductive exit := Next | Stop (e : PeerError) | Quit.

(** What one call of [reader_recv] gives: a message, nothing within a second, or
    the end of the connection. *)
Abbreviation incoming := (result PeerError (option Message)).

Section Reader.
Context {S : Type} `{UtxoStore S} `{!UtxoGet S} `{!UtxoRoot S}.
Context `{Sha2} `{Ed25519} `{Layout} `{Argon2}.
Variable signature_domain : Hash256.
Variable coinbase_maturity : Z.
Variable walk : forall {K V} `{Countable K}, gmap K V -> list (K * V).
Variable moments : nat -> Moment.
Variable looks : nat -> Look.
(** The address, identity and number of the session. *)
Variables (peer_addr : SocketAddr) (peer : PeerId) (sid : Z).

Record Host := {
  relay : @Relay S; counts : counter -> Z; response_bytes : Z; window_start : Z; getaddr_sent_at : option Z;
  addr_book : gmap SocketAddr AddrInfo; global_tx_limiter : limiter; global_response_limiter : limiter;
  active_ibd_peer : option (PeerId * Z); ever_confirmed_peer : bool; catching_up : bool;
  awaiting_pong : bool; pong_received : bool; events : list PeerEvent; writer : list Message; pongs : nat; seen : nat
}.
Definition with_relay (r : @Relay S) (h : Host) : Host :=
  Build_Host r (counts h) (response_bytes h) (window_start h) (getaddr_sent_at h) (addr_book h) (global_tx_limiter h) (global_response_limiter h)
    (active_ibd_peer h) (ever_confirmed_peer h) (catching_up h) (awaiting_pong h) (pong_received h) (events h) (writer h) (pongs h) (seen h).
Definition with_counts (c : counter -> Z) (bytes start : Z) (h : Host) : Host :=
  Build_Host (relay h) c bytes start (getaddr_sent_at h) (addr_book h) (global_tx_limiter h) (global_response_limiter h)
    (active_ibd_peer h) (ever_confirmed_peer h) (catching_up h) (awaiting_pong h) (pong_received h) (events h) (writer h) (pongs h) (seen h).
Definition with_book (t : option Z) (b : gmap SocketAddr AddrInfo) (h : Host) : Host :=
  Build_Host (relay h) (counts h) (response_bytes h) (window_start h) t b (global_tx_limiter h) (global_response_limiter h)
    (active_ibd_peer h) (ever_confirmed_peer h) (catching_up h) (awaiting_pong h) (pong_received h) (events h) (writer h) (pongs h) (seen h).
Definition with_limits (t r : limiter) (h : Host) : Host :=
  Build_Host (relay h) (counts h) (response_bytes h) (window_start h) (getaddr_sent_at h) (addr_book h) t r
    (active_ibd_peer h) (ever_confirmed_peer h) (catching_up h) (awaiting_pong h) (pong_received h) (events h) (writer h) (pongs h) (seen h).
Definition with_output (p : bool) (es : list PeerEvent) (ms : list Message) (n : nat) (h : Host) : Host :=
  Build_Host (relay h) (counts h) (response_bytes h) (window_start h) (getaddr_sent_at h) (addr_book h) (global_tx_limiter h) (global_response_limiter h)
    (active_ibd_peer h) (ever_confirmed_peer h) (catching_up h) (awaiting_pong h) p es ms n (seen h).
Definition with_seen (h : Host) : Host :=
  Build_Host (relay h) (counts h) (response_bytes h) (window_start h) (getaddr_sent_at h) (addr_book h) (global_tx_limiter h) (global_response_limiter h)
    (active_ibd_peer h) (ever_confirmed_peer h) (catching_up h) (awaiting_pong h) (pong_received h) (events h) (writer h) (pongs h) (Datatypes.S (seen h)).

(** A handler returns, continues with the next message or ends the session. *)
Definition rd (A : Type) : Type := Host -> option (result exit A * Host).
#[export] Instance rd_ret : MRet rd := fun A a h => Some (Ok a, h).
#[export] Instance rd_bind : MBind rd := fun A B f c h =>
  match c h with
  | Some (Ok a, h) => f a h
  | Some (Err e, h) => Some (Err e, h)
  | None => None
  end.
Definition leave {A} (e : exit) : rd A := fun h => Some (Err e, h).
Definition view {A} (f : Host -> A) : rd A := fun h => Some (Ok (f h), h).
Definition edit (f : Host -> Host) : rd unit := fun h => Some (Ok tt, f h).
Definition in_relay {A} (c : @rel S A) : rd A := fun h => match c (relay h) with Some (a, r) => Some (Ok a, with_relay r h) | None => None end.
Definition apply {A} (f : Host -> A * Host) : rd A := fun h => let '(a, h) := f h in Some (Ok a, h).
Definition look : rd Look := fun h => Some (Ok (looks (seen h)), with_seen h).
Definition when (b : bool) (c : rd unit) : rd unit := if b then c else mret tt.
(** [counter += 1], its new value. *)
Definition count (c : counter) : rd Z := fun h =>
  let n := (counts h c + 1) mod 2 ^ 32 in
  Some (Ok n, with_counts (fun x => if decide (x = c) then n else counts h x) (response_bytes h) (window_start h) h).
Definition answer (m : Message) : rd unit := edit (fun h => with_output (pong_received h) (events h) (writer h ++ [m]) (pongs h) h).
(** [let _ = normal_tx.try_send(..)] *)
Definition try_answer (m : Message) : rd unit := l ← look; when (l_room l) (answer m).
Definition forward (e : PeerEvent) : rd unit := edit (fun h => with_output (pong_received h) (events h ++ [e]) (writer h) (pongs h) h).

(** ** Strikes and bans *)

Definition abuse_of (r : @Relay S) : Abuse := {| ip_abuse := ip_strikes r; identity_bans := banned_ids r; ban_db := storage (node r) |}.
Definition on_abuse (f : Look -> Abuse -> bool * Abuse) : rd bool :=
  l ← look;
  in_relay (fun r => let '(b, a) := f l (abuse_of r) in Some (b, with_abuse a r)).
Definition ip_banned : rd bool := on_abuse (fun l => is_ip_banned (l_now l) (l_ban_fault l) (sock_ip peer_addr)).
Definition identity_banned : rd bool := on_abuse (fun l => is_identity_banned (l_now l) (l_identity_fault l peer) peer).
Definition strike_peer : rd bool :=
  on_abuse (fun l => record_ip_strike (@walk) (l_now l) (l_unix l) (l_ban_fault l) (l_identity_fault l) (sock_ip peer_addr) (Some peer)).

(** ** The head of the loop *)

(** The window of a minute; the requests for addresses are counted for the whole
    session. *)
Definition fresh_window (now : Z) (h : Host) : Host :=
  if MINUTE <=? since now (window_start h)
  then with_counts (fun c => match c with CGetAddr => counts h CGetAddr | _ => 0 end) 0 now h
  else h.
Definition before_message : rd Z :=
  l ← look;
  if l_closing l then leave Quit
  else
    down ← view (fun h => shutdown (relay h));
    if down : bool then leave (Stop Io)
    else
      _ ← edit (fresh_window (l_now l));
      b ← ip_banned;
      if b : bool then leave (Stop PeerAlreadyBanned)
      else
        b ← identity_banned;
        if b : bool then leave (Stop PeerAlreadyBanned) else mret (l_now l).

(** ** Keepalives *)

Definition handle_ping : rd unit :=
  c ← view ever_confirmed_peer;
  _ ← when c (_ ← count CPings; mret tt);
  l ← look;
  when (l_room l) (edit (fun h => with_output (pong_received h) (events h) (writer h) (Datatypes.S (pongs h)) h)).
Definition handle_pong : rd unit :=
  w ← view awaiting_pong;
  if w : bool then edit (fun h => with_output true (events h) (writer h) (pongs h) h)
  else c ← view ever_confirmed_peer; when c (_ ← count CUnsolicited; mret tt).

(** ** Blocks *)

(** No download is going on and no peer claims more work. *)
Definition caught_up (h : Host) : bool :=
  match active_ibd_peer h with
  | Some _ => false
  | None =>
      let ours := cumulative_work (tip (node (relay h))) in
      negb (existsb (fun kv => from_option (fun t => match lex_cmp (pt_work t) ours with Gt => true | _ => false end) false (lp_tip (snd kv)))
              (walk (by_identity (peers (relay h)))))
  end.
Definition known_block (id : Hash256) : rd bool :=
  l ← look;
  if l_fault l then leave (Stop Io) else view (fun h => has_block id (storage (node (relay h)))).
Definition malformed (b : Block) : bool := (height (header b) =? 0) || negb (version (header b) =? VERSION).

Definition handle_new_block (b : Block) : rd unit :=
  metered ← view (fun h => caught_up h && ever_confirmed_peer h);
  banned ← ip_banned;
  if banned : bool then leave Next
  else
    known ← known_block (block_id (header b));
    if known : bool then
      _ ← when metered (n ← count CDuplicates; if MAX_DUPLICATE_BLOCKS_PER_MIN <? n then leave (Stop TrafficQuotaExceeded) else mret tt);
      leave Next
    else
      _ ← when metered (n ← count CBlocks; if MAX_BLOCKS_PER_MIN <? n then leave Next else mret tt);
      if malformed b then
        n ← count CInvalidBlocks;
        banned ← strike_peer;
        if banned || (MAX_INVALID_BLOCKS_PER_PEER <? n) then leave (Stop DisconnectAfterInlineStrike) else leave Next
      else
        l ← look;
        match l_event l with
        | Sent => forward (NewBlock peer_addr peer sid b false)
        | Full => try_answer (MGetBlocks [block_id (header b)])
        | Gone => mret tt
        end.
Definition handle_block_response (b : Block) : rd unit :=
  metered ← view (fun h => negb (from_option (fun p => bool_decide (fst p = peer)) false (active_ibd_peer h)) && ever_confirmed_peer h);
  _ ← when metered (n ← count CBlocks; if MAX_BLOCKS_PER_MIN <? n then leave Next else mret tt);
  banned ← ip_banned;
  if banned : bool then leave Next
  else
    known ← known_block (block_id (header b));
    if known : bool then leave Next
    else if malformed b then
      _ ← count CInvalidBlocks;
      banned ← strike_peer;
      if banned : bool then leave (Stop DisconnectAfterInlineStrike) else leave Next
    else
      l ← look;
      when (l_room l) (forward (BlockResponse peer_addr peer sid b (l_cached l))).

(** ** Transactions *)

Definition refund_slot : rd unit := edit (fun h => with_limits (refund_global_tx_slot (global_tx_limiter h)) (global_response_limiter h) h).
Definition count_invalid_tx : rd unit := n ← count CInvalidTxs; if MAX_INVALID_TXS_PER_PEER <? n then leave (Stop AbuseThresholdExceeded) else mret tt.
Definition is_double_spend (e : MempoolError) : bool := match e with PoolDoubleSpend _ => true | _ => false end.
(** [add_validated] on the node's pool. *)
Definition pool_add (tx : Transaction) (fee sc svc : Z) (snap : OutPoint -> option UtxoEntry) : rd (result MempoolError Hash256) := fun h =>
  match add_validated (mempool (node (relay h))) tx fee sc svc snap with
  | Some (r, m) => Some (Ok r, with_relay (with_node (with_mempool m (node (relay h))) (relay h)) h)
  | None => None
  end.
Definition judge_tx (tx : Transaction) : rd unit :=
  u ← view (fun h => utxo_set (node (relay h)));
  t ← view (fun h => tip (node (relay h)));
  let snap := snapshot u (map input_outpoint (inputs tx)) in
  match validate_transaction signature_domain coinbase_maturity snap tx (saturating_add U64_MAX (tip_height t) 1) with
  | Err _ => _ ← refund_slot; count_invalid_tx
  | Ok (fee, sc, svc) =>
      l ← look;
      if l_tip_moved l then _ ← refund_slot; leave Next
      else
        r ← pool_add tx fee sc svc snap;
        match r with
        | Ok _ => in_relay (broadcast (@walk) moments (MNewTx tx) (Some peer))
        | Err e => _ ← refund_slot; when (is_double_spend e) count_invalid_tx
        end
  end.
Definition handle_new_tx (tx : Transaction) : rd unit :=
  fresh ← view caught_up;
  if negb fresh then leave Next
  else
    n ← count CTxs;
    if MAX_TXS_PER_MIN <? n then leave Next
    else
      banned ← ip_banned;
      if banned : bool then leave Next
      else
        l ← look;
        slot ← apply (fun h => let '(ok, t) := try_consume_global_tx_slot (l_now l) (global_tx_limiter h) in
                               (ok, with_limits t (global_response_limiter h) h));
        if negb slot then leave Next
        else
          m ← view (fun h => mempool (node (relay h)));
          match pre_check m tx with
          | Err e => _ ← when (is_double_spend e) count_invalid_tx; _ ← refund_slot; leave Next
          | Ok _ => judge_tx tx
          end.

(** ** Requests *)

Definition handle_get_tip : rd unit :=
  c ← view ever_confirmed_peer;
  over ← (if c : bool then n ← count CRequests; mret (MAX_REQUESTS_PER_MIN <? n) else mret false);
  if over : bool then mret tt
  else
    t ← view (fun h => tip (node (relay h)));
    try_answer (MTipResponse (Build_TipResponseMsg (tip_height t) (tip_block_id t) (cumulative_work t))).

Definition message_size (m : Message) : Z := match Message_serialize m with Ok bs => len bs | Err _ => 0 end.
Definition add_response (n : Z) : rd unit := edit (fun h => with_counts (counts h) (saturating_add U64_MAX (response_bytes h) n) (window_start h) h).
(** The budgets for answers of this session and of all; a session's first answer
    in a window is not held against its own. *)
Definition within_response_budget (n : Z) : rd bool :=
  l ← look;
  apply (fun h =>
    if (0 <? response_bytes h) && (MAX_RESPONSE_BYTES_PER_MIN <? saturating_add U64_MAX (response_bytes h) n) then (false, h)
    else let '(ok, g) := try_consume_global_response_bytes (l_now l) n (global_response_limiter h) in
         (ok, with_limits (global_tx_limiter h) g h)).
(** [timeout(5s, normal_tx.send(..))], whether the queue took it. *)
Definition send_answer (m : Message) : rd bool := l ← look; if l_room l then _ ← answer m; mret true else mret false.
Fixpoint serve_blocks (hashes : list Hash256) : rd unit :=
  match hashes with
  | [] => mret tt
  | id :: hashes =>
      l ← look;
      found ← view (fun h => if l_fault l then None else match get_block id (storage (node (relay h))) with Ok b => b | Err _ => None end);
      match found with
      | None => serve_blocks hashes
      | Some b =>
          let msg := MBlockResponse b in
          free ← view catching_up;
          ok ← (if free : bool then mret true else within_response_budget (message_size msg));
          if negb ok then mret tt
          else
            _ ← add_response (message_size msg);
            sent ← send_answer msg;
            if sent : bool then serve_blocks hashes else mret tt
      end
  end.
Definition handle_get_blocks (hashes : list Hash256) : rd unit := serve_blocks (take SERVED_BLOCKS hashes).

(** Headers of our chain from the first height on; they end at the first one that
    cannot be read. *)
Fixpoint chain_headers (fault : Z -> bool) (heights : list Z) (db : ChainStorage) : list BlockHeader :=
  match heights with
  | [] => []
  | x :: heights =>
      if fault x then []
      else match get_block_id_by_height x db ≫= fun id => get_header id db with
           | Some hd => hd :: chain_headers fault heights db
           | None => []
           end
  end.
Definition requested (g : GetHeadersMsg) (our_height : Z) : list Z :=
  let count := Z.min (max_count g) MAX_GETBLOCKS_ITEMS in
  let end_height := Z.min (saturating_add U64_MAX (start_height g) count) (saturating_add U64_MAX our_height 1) in
  seqZ (start_height g) (end_height - start_height g).
Definition handle_get_headers (g : GetHeadersMsg) : rd unit :=
  l ← look;
  headers ← view (fun h => chain_headers (l_header_fault l) (requested g (tip_height (tip (node (relay h))))) (storage (node (relay h))));
  let msg := MHeaders headers in
  free ← view catching_up;
  ok ← (if free : bool then mret true else within_response_budget (message_size msg));
  _ ← (if ok : bool then _ ← add_response (message_size msg); send_answer msg else send_answer (MHeaders []));
  mret tt.

Definition handle_get_addr : rd unit :=
  n ← count CGetAddr;
  if MAX_GETADDR_PER_CONN <? n then
    c ← view ever_confirmed_peer;
    _ ← when c (_ ← count CUnsolicited; mret tt);
    leave Next
  else
    l ← look;
    sample ← view (fun h => addr_book_sample (@walk) (l_pick l) ADDR_SAMPLE (addr_book h));
    match sample with [] => mret tt | _ => try_answer (MAddr sample) end.

(** ** Answers *)

Definition handle_headers (headers : list BlockHeader) : rd unit :=
  l ← look;
  when (negb (l_routed l) && l_room l) (forward (HeadersResponse peer sid headers)).
Definition handle_addr (now : Z) (entries : list AddrEntry) : rd unit :=
  expected ← view (fun h => from_option (fun t => since now t <? ADDR_RESPONSE_WINDOW_SECS * NANOS) false (getaddr_sent_at h));
  if negb expected then
    n ← count CUnsolicitedAddr;
    c ← view ever_confirmed_peer;
    _ ← when ((MAX_UNSOLICITED_ADDR_PER_MIN <? n) && c) (_ ← count CUnsolicited; mret tt);
    leave Next
  else
    l ← look;
    added ← apply (fun h => let '(n, book) := merge_addr_entries (@walk) (l_unix l) entries (sock_ip peer_addr) peer (addr_book h) in (n, with_book None book h));
    when (0 <? added) (in_relay (update (fun r => with_registry (mark_useful_message (l_now l) peer sid (peers r)) r))).
Definition handle_tip_response (t : TipResponseMsg) : rd unit :=
  l ← look;
  match l_event l with
  | Sent => forward (TipResponse peer sid (Wire.tip_height t) (Wire.tip_block_id t) (Wire.tip_work t))
  | Full => try_answer MGetTip
  | Gone => mret tt
  end.
(** Anything else after the handshake is garbage. *)
Definition handle_garbage : rd unit :=
  n ← count CUnsolicited; if MAX_UNSOLICITED_PER_MIN <? n then leave (Stop ProtocolGarbage) else mret tt.

Definition handle_message (now : Z) (m : Message) : rd unit :=
  match m with
  | MPing => handle_ping
  | MPong => handle_pong
  | MNewBlock b => handle_new_block b
  | MNewTx tx => handle_new_tx tx
  | MGetTip => handle_get_tip
  | MGetBlocks hashes => handle_get_blocks hashes
  | MGetHeaders g => handle_get_headers g
  | MBlockResponse b => handle_block_response b
  | MHeaders headers => handle_headers headers
  | MInv _ => mret tt
  | MGetAddr => handle_get_addr
  | MAddr entries => handle_addr now entries
  | MTipResponse t => handle_tip_response t
  | MHello _ | MAuthAck _ => handle_garbage
  end.

(** One round of the loop, and the session over what is received: how it ended,
    if it did. *)
Definition round (m : incoming) : rd unit :=
  now ← before_message;
  match m with
  | Ok (Some m) => handle_message now m
  | Ok None => leave Next
  | Err e => leave (Stop e)
  end.
Fixpoint reader_task (ms : list incoming) (h : Host) : option (option (result PeerError unit) * Host) :=
  match ms with
  | [] => Some (None, h)
  | m :: ms =>
      match round m h with
      | Some (Ok _, h) | Some (Err Next, h) => reader_task ms h
      | Some (Err (Stop e), h) => Some (Some (Err e), h)
      | Some (Err Quit, h) => Some (Some (Ok tt), h)
      | None => None
      end
  end.
(** The session with the strike at its end. *)
Definition run_session (ms : list incoming) (h : Host) : option (option (result PeerError unit) * Host) :=
  match reader_task ms h with
  | Some (Some (Err e), h) =>
      if strikes_at_end e then match strike_peer h with Some (_, h) => Some (Some (Err e), h) | None => None end
      else Some (Some (Err e), h)
  | other => other
  end.
End Reader.
