(* ===== verification/ReaderSafety.v ===== *)
(** * A session cannot harm the node

    Whatever a peer sends, its session ends or goes on, never moves the chain,
    and hands on only blocks it was given; a peer that sends nothing malformed is
    not held to be malicious; and a request for headers is answered with the
    headers of our chain. *)

From S2P Require Import Prelude Bytes Codec Hash Transaction Block Wire U256 Difficulty Reward.
From S2P Require Import ScriptValue ScriptCodec Jets ScriptCost Eval FeeCost Smt Utxo TxValidation BlockValidation BlockApply Mempool.
From S2P Require Import Storage PeerRegistry PeerPolicy BlockRelay ChainManager StoreView ChainModel StorageFacts ChainStore ChainState RelayFacts RelaySafety.
From S2P Require Import Reader.
#[local] Open Scope Z_scope.
#[local] Open Scope list_scope.

Create HintDb session discriminated.
Create HintDb tame discriminated.

Lemma ip_ban_touch now f ip a : touches ban_tables (ban_db a) (ban_db (snd (is_ip_banned now f ip a))).
Proof.
  unfold is_ip_banned. destruct (_ !! ip) as [e|]; [|apply touches_refl]. destruct (banned_until e) as [t|].
  - destruct (t <=? now); [|apply touches_refl]. apply persist_bans. intros d d' [= <-]. eapply touches_weaken; [|apply touches_remove]. set_solver.
  - destruct (decayed now e); apply touches_refl.
Qed.
Lemma identity_ban_touch now f pk a : touches ban_tables (ban_db a) (ban_db (snd (is_identity_banned now f pk a))).
Proof.
  unfold is_identity_banned. destruct (_ !! pk) as [t|]; [|apply touches_refl]. destruct (t <=? now); [|apply touches_refl]. apply persist_bans, identity_bans_touch.
Qed.
(** Looking for a ban only forgets expired ones. *)
Lemma ip_ban_forgets now f ip a : let a' := snd (is_ip_banned now f ip a) in ip_abuse a' ⊆ ip_abuse a /\ identity_bans a' = identity_bans a.
Proof.
  unfold is_ip_banned. destruct (_ !! ip) as [e|]; [|by split]. destruct (banned_until e) as [t|]; [destruct (t <=? now)|destruct (decayed now e)]; cbn; split; first [apply delete_subseteq|reflexivity].
Qed.
Lemma identity_ban_forgets now f pk a : let a' := snd (is_identity_banned now f pk a) in ip_abuse a' = ip_abuse a /\ identity_bans a' ⊆ identity_bans a.
Proof. unfold is_identity_banned. destruct (_ !! pk) as [t|]; [|by split]. destruct (t <=? now); cbn; split; first [apply delete_subseteq|reflexivity]. Qed.

Section Session.
Context {lost : Prop} {S : Type} `{StoreView lost S} `{!UtxoRoot S}.
Context `{Sha2} `{!Sha2Width} `{Ed25519} `{Layout} `{Argon2}.
Variable signature_domain : Hash256.
Variable coinbase_maturity : Z.
Variables (U : Block -> Prop) (genesis : Block).
Hypothesis world : World U genesis.
Variable walk : forall {K V} `{Countable K}, gmap K V -> list (K * V).
Variable moments : nat -> Moment.
Variable looks : nat -> Look.
Variables (peer_addr : SocketAddr) (peer : PeerId) (sid : Z).
Abbreviation Host := (@Host S).
Abbreviation rd := (@rd S).
Abbreviation relay_ok := (relay_ok U genesis).
Abbreviation node_ok := (node_ok U genesis).
Abbreviation on_chain := (on_chain U genesis).

(** ** Nothing moves the chain *)

(** What this session may hand on: events in its own name, and blocks it was
    given that are not malformed. *)
Definition handed_on (e : PeerEvent) : Prop :=
  match e with
  | NewBlock a p i b pre => a = peer_addr /\ p = peer /\ i = sid /\ U b /\ malformed b = false /\ pre = false
  | BlockResponse a p i b _ => a = peer_addr /\ p = peer /\ i = sid /\ U b /\ malformed b = false
  | HeadersResponse p i _ | TipResponse p i _ _ _ => p = peer /\ i = sid
  | Connected _ _ | Disconnected _ _ => False
  end.
(** [h'] differs from [h] in the pool, the bans and what belongs to the session. *)
Record beside (h h' : Host) : Prop := {
  bs_chain l : node_ok l (node (relay h)) -> node_ok l (node (relay h'));
  bs_tip : tip (node (relay h')) = tip (node (relay h));
  bs_utxo : utxo_set (node (relay h')) = utxo_set (node (relay h));
  bs_db : touches ban_tables (storage (node (relay h))) (storage (node (relay h')));
  bs_buffers : orphan_blocks (relay h') = orphan_blocks (relay h) /\ future_blocks (node (relay h')) = future_blocks (node (relay h)) /\
    reorg_triggers (node (relay h')) = reorg_triggers (node (relay h));
  bs_down : shutdown (relay h') = shutdown (relay h);
  bs_events : exists es, events h' = events h ++ es /\ Forall handed_on es
}.
Lemma beside_same h h' : similar (relay h) (relay h') -> events h' = events h -> beside h h'.
Proof. intros [En Eo Ed] Ee. split; rewrite ?En; auto using touches_refl. exists []. by rewrite app_nil_r. Qed.
Lemma beside_refl h : beside h h.
Proof. by apply beside_same. Qed.
Lemma beside_trans h1 h2 h3 : beside h1 h2 -> beside h2 h3 -> beside h1 h3.
Proof.
  intros [C1 T1 U1 D1 (O1 & F1 & R1) S1 (es1 & E1 & K1)] [C2 T2 U2 D2 (O2 & F2 & R2) S2 (es2 & E2 & K2)]. split; [auto|congruence|congruence| | |congruence|].
  - by eapply touches_trans.
  - split_and!; congruence.
  - exists (es1 ++ es2). split; [by rewrite E2, E1, app_assoc|by apply Forall_app].
Qed.

(** The invariant: a consistent node, whose bans may have changed. *)
Definition sound {A} (c : rd A) : Prop := forall h, relay_ok (relay h) ->
  match c h with Some (_, h') => relay_ok (relay h') /\ beside h h' | None => False end.
Lemma sound_bind {A B} (c : rd A) (f : A -> rd B) : sound c -> (forall a, sound (f a)) -> sound (c ≫= f).
Proof.
  intros Hc Hf h Hok. unfold mbind, rd_bind. specialize (Hc h Hok). destruct (c h) as [[[a|e] h1]|]; [|done|done]. destruct Hc as [Hok1 B1].
  specialize (Hf a h1 Hok1). destruct (f a h1) as [[r h2]|]; [|done]. destruct Hf as [Hok2 B2]. split; [done|by eapply beside_trans].
Qed.
Lemma sound_ret {A} (a : A) : sound (mret a : rd A).
Proof. intros h Hok. split; [done|apply beside_refl]. Qed.
Lemma sound_leave {A} e : sound (leave e : rd A).
Proof. intros h Hok. split; [done|apply beside_refl]. Qed.
Lemma sound_view {A} (f : Host -> A) : sound (view f).
Proof. intros h Hok. split; [done|apply beside_refl]. Qed.
Lemma sound_when b (c : rd unit) : sound c -> sound (when b c).
Proof. destruct b; [done|]. intros _. apply sound_ret. Qed.
(** What changes the session only. *)
Lemma sound_apply {A} (f : Host -> A * Host) : (forall h, relay (snd (f h)) = relay h /\ events (snd (f h)) = events h) -> sound (apply f).
Proof.
  intros Hf h Hok. unfold apply. destruct (f h) as [a h'] eqn:E. specialize (Hf h). rewrite E in Hf. destruct Hf as [Er Ee]. cbn in Er, Ee. split; [by rewrite Er|].
  apply beside_same; [by rewrite Er|done].
Qed.
Lemma sound_edit (f : Host -> Host) : (forall h, relay (f h) = relay h /\ events (f h) = events h) -> sound (edit f).
Proof. intros Hf. exact (sound_apply (fun h => (tt, f h)) Hf). Qed.
Lemma sound_count c : sound (count c : rd Z).
Proof. intros h Hok. split; [done|by apply beside_same]. Qed.
Lemma sound_look : sound (look looks : rd Look).
Proof. intros h Hok. split; [done|by apply beside_same]. Qed.
Lemma sound_forward e : handed_on e -> sound (forward e : rd unit).
Proof. intros He h Hok. split; [done|]. split; auto using touches_refl. exists [e]. split; [done|by constructor]. Qed.
Lemma sound_in_relay {A} (c : @rel S A) : (forall r, relay_ok r -> exists a r', c r = Some (a, r') /\ similar r r') -> sound (in_relay c).
Proof.
  intros Hc h Hok. unfold in_relay. destruct (Hc _ Hok) as (a & r' & -> & Hs). split; [by eapply similar_ok|by apply beside_same].
Qed.
Lemma sound_abuse (f : Look -> Abuse -> bool * Abuse) : (forall l a, touches ban_tables (ban_db a) (ban_db (snd (f l a)))) -> sound (on_abuse looks f).
Proof.
  intros Hf. apply sound_bind; [apply sound_look|]. intros l h Hok. unfold in_relay. specialize (Hf l (abuse_of (relay h))). destruct (f l _) as [b a]. cbn in Hf.
  destruct Hok as [[lg [Hl Hd Ht Hp]] Ho Hfu Htr]. split; [split; [|done..]|].
  - exists lg. split; [exact Hl| |exact Ht|exact Hp]. eapply (bans_db_ok U genesis); [exact Hd|exact Hf].
  - split; auto; [|exists []; by rewrite app_nil_r]. intros l1 []. split; [done| |done..]. by eapply (bans_db_ok U genesis).
Qed.
Lemma sound_ip : sound (ip_banned looks peer_addr).
Proof. apply sound_abuse. intros. apply ip_ban_touch. Qed.
Lemma sound_identity : sound (identity_banned looks peer).
Proof. apply sound_abuse. intros. apply identity_ban_touch. Qed.
Lemma sound_strike : sound (strike_peer (@walk) looks peer_addr peer).
Proof. apply sound_abuse. intros. apply strike_touches. Qed.

(** ** The handlers *)

(** Follow a handler: its binds and branches; its steps are in the database. *)
#[local] Hint Resolve sound_ret sound_leave sound_view sound_count sound_look sound_ip sound_identity sound_strike sound_when : session.
#[local] Ltac follow :=
  repeat first
    [ solve [auto 3 with session nocore]
    | match goal with |- sound (_ ≫= _) => apply sound_bind; [|intros] | |- sound (when _ _) => apply sound_when | |- sound (edit _) => apply sound_edit; intros; by split
      | |- sound (match ?x with _ => _ end) => destruct x eqn:? | |- sound (forward _) => apply sound_forward; cbn; by auto 10 end ].
Lemma sound_answer m : sound (answer m : rd unit).
Proof. unfold answer. follow. Qed.
#[local] Hint Resolve sound_answer : session.
Lemma sound_try_answer m : sound (try_answer looks m : rd unit).
Proof. unfold try_answer, answer. follow. Qed.
#[local] Hint Resolve sound_try_answer : session.
Lemma sound_before : sound (before_message looks peer_addr peer : rd Z).
Proof. unfold before_message. follow. apply sound_edit. intros h. unfold fresh_window. destruct (_ <=? _); by split. Qed.
#[local] Hint Resolve sound_before : session.
Lemma sound_known id : sound (known_block looks id : rd bool).
Proof. unfold known_block. follow. Qed.
#[local] Hint Resolve sound_known : session.
Lemma sound_new_block b : (malformed b = false -> U b) -> sound (handle_new_block (@walk) looks peer_addr peer sid b).
Proof. intros Ub. unfold handle_new_block. follow. Qed.
#[local] Hint Resolve sound_new_block : session.
Lemma sound_block_response b : (malformed b = false -> U b) -> sound (handle_block_response (@walk) looks peer_addr peer sid b).
Proof. intros Ub. unfold handle_block_response. follow. Qed.
#[local] Hint Resolve sound_block_response : session.
Lemma sound_refund : sound (refund_slot : rd unit).
Proof. unfold refund_slot. follow. Qed.
#[local] Hint Resolve sound_refund : session.
Lemma sound_invalid_tx : sound (count_invalid_tx : rd unit).
Proof. unfold count_invalid_tx. follow. Qed.
#[local] Hint Resolve sound_invalid_tx : session.
(** A transaction that was validated leaves a consistent pool. *)
Lemma pool_beside m h : relay_ok (relay h) -> pool_ok m -> let h' := with_relay (with_node (with_mempool m (node (relay h))) (relay h)) h in relay_ok (relay h') /\ beside h h'.
Proof.
  intros [[l [Hl Hd Ht _]] Ho Hf Htr] Hm. split; [split; [|done..]; exists l; by split|]. split; auto using touches_refl; [|exists []; by rewrite app_nil_r]. intros l1 []. by split.
Qed.
Lemma sound_pool_add tx fee sc svc snap : standalone_rules tx -> 0 <= fee <= U64_MAX -> sound (pool_add tx fee sc svc snap : rd _).
Proof.
  intros Hst Hfee h Hok. unfold pool_add, add_validated. destruct (Hok) as [[l [_ _ _ Hp]] _ _ _]. destruct (screen _ tx) as [id|e] eqn:Es; [|by apply pool_beside].
  destruct (admit_ok _ tx id fee sc svc snap Hp Es Hst Hfee) as (r & m & -> & Hm & _). by apply pool_beside.
Qed.
#[local] Hint Resolve sound_pool_add : session.
Lemma sound_broadcast msg ex : sound (in_relay (broadcast (@walk) moments msg ex)).
Proof. apply sound_in_relay. intros r _. by eexists _, _. Qed.
#[local] Hint Resolve sound_broadcast : session.
Lemma sound_judge tx : sound (judge_tx signature_domain coinbase_maturity (@walk) moments looks peer tx).
Proof.
  unfold judge_tx. apply sound_bind; [apply sound_view|]. intros u. apply sound_bind; [apply sound_view|]. intros t.
  destruct (validate_transaction _ _ _ _ _) as [[[fee sc] svc]|e] eqn:Ev; [|follow].
  apply validated_entry in Ev as [Hst Hfee]. apply sound_bind; [apply sound_look|]. intros l. destruct (l_tip_moved l); [follow|].
  apply sound_bind; [by apply sound_pool_add|]. intros r. follow.
Qed.
#[local] Hint Resolve sound_judge : session.
Lemma sound_new_tx tx : sound (handle_new_tx signature_domain coinbase_maturity (@walk) moments looks peer_addr peer tx).
Proof.
  unfold handle_new_tx. follow.
  apply sound_apply. intros h. destruct (try_consume_global_tx_slot _ _). by split.
Qed.
#[local] Hint Resolve sound_new_tx : session.
Lemma sound_get_tip : sound (handle_get_tip looks : rd unit).
Proof. unfold handle_get_tip. follow. Qed.
#[local] Hint Resolve sound_get_tip : session.
Lemma sound_budget n : sound (within_response_budget looks n : rd bool).
Proof.
  unfold within_response_budget. follow. apply sound_apply. intros h. destruct (_ && _); [by split|]. destruct (try_consume_global_response_bytes _ _ _). by split.
Qed.
#[local] Hint Resolve sound_budget : session.
Lemma sound_send m : sound (send_answer looks m : rd bool).
Proof. unfold send_answer. follow. Qed.
#[local] Hint Resolve sound_send : session.
Lemma sound_serve ids : sound (serve_blocks looks ids : rd unit).
Proof.
  induction ids as [|id ids IH]; cbn [serve_blocks]; unfold add_response; follow.
Qed.
#[local] Hint Resolve sound_serve : session.
Lemma sound_get_headers g : sound (handle_get_headers looks g : rd unit).
Proof. unfold handle_get_headers, add_response. follow. Qed.
#[local] Hint Resolve sound_get_headers : session.
Lemma sound_get_addr : sound (handle_get_addr (@walk) looks : rd unit).
Proof. unfold handle_get_addr. follow. Qed.
#[local] Hint Resolve sound_get_addr : session.
Lemma sound_headers hs : sound (handle_headers looks peer sid hs : rd unit).
Proof. unfold handle_headers. follow. Qed.
#[local] Hint Resolve sound_headers : session.
Lemma sound_addr now es : sound (handle_addr (@walk) looks peer_addr peer sid now es : rd unit).
Proof.
  unfold handle_addr. follow.
  - apply sound_apply. intros h. destruct (merge_addr_entries _ _ _ _ _ _). by split.
  - apply sound_in_relay. intros r _. by eexists _, _.
Qed.
#[local] Hint Resolve sound_addr : session.
Lemma sound_tip t : sound (handle_tip_response looks peer sid t : rd unit).
Proof. unfold handle_tip_response. follow. Qed.
#[local] Hint Resolve sound_tip : session.

(** Malformed or not, what a peer sends; a block that is not malformed is one of
    the world. *)
Definition message_known (m : incoming) : Prop := match m with Ok (Some (MNewBlock b)) | Ok (Some (MBlockResponse b)) => malformed b = false -> U b | _ => True end.
Abbreviation round := (round signature_domain coinbase_maturity (@walk) moments looks peer_addr peer sid).
Abbreviation run_session := (run_session signature_domain coinbase_maturity (@walk) moments looks peer_addr peer sid).
Lemma sound_round m : message_known m -> sound (round m).
Proof.
  intros Hm. apply sound_bind; [apply sound_before|]. intros now. destruct m as [[[]|]|]; cbn [handle_message]; try by (unfold handle_garbage, handle_ping, handle_pong; follow).
  all: first [by apply sound_new_block|by apply sound_block_response|apply sound_new_tx|apply sound_get_tip|apply sound_serve|apply sound_get_headers|apply sound_headers
             |apply sound_get_addr|apply sound_addr|apply sound_tip].
Qed.
Lemma session_sound ms h : relay_ok (relay h) -> Forall message_known ms -> exists r h', run_session ms h = Some (r, h') /\ relay_ok (relay h') /\ beside h h'.
Proof.
  intros Hok Hm. assert (exists r h', reader_task signature_domain coinbase_maturity (@walk) moments looks peer_addr peer sid ms h = Some (r, h') /\ relay_ok (relay h') /\ beside h h')
    as (r & h' & E & Hok' & B).
  { revert h Hok. induction Hm as [|m ms Hm _ IH]; intros h Hok; cbn [reader_task]; [eexists _, _; split; [done|]; split; [done|apply beside_refl]|].
    pose proof (sound_round m Hm h Hok) as Hr. destruct (round m h) as [[r h1]|]; [|done]. destruct Hr as [Hok1 B1].
    assert (forall h2, relay_ok (relay h2) -> beside h h2 -> exists r h', reader_task signature_domain coinbase_maturity (@walk) moments looks peer_addr peer sid ms h2 = Some (r, h') /\ relay_ok (relay h') /\ beside h h')
      as Hgo. { intros h2 Ho B2. destruct (IH h2 Ho) as (r2 & h3 & E & Ho3 & B3). exists r2, h3. split; [done|]. split; [done|by eapply beside_trans]. }
    destruct r as [[]|[]]; [by apply Hgo|by apply Hgo|eauto 10..]. }
  unfold Reader.run_session. rewrite E. destruct r as [[|e]|]; [eauto 10| |eauto 10]. destruct (strikes_at_end e); [|eauto 10].
  pose proof (sound_strike h' Hok') as Hs. destruct (strike_peer _ _ _ _ h') as [[b h2]|]; [|done]. destruct Hs as [Hok2 B2]. eexists _, _. split; [done|]. split; [done|by eapply beside_trans].
Qed.

(** ** A peer that sends nothing malformed is not struck *)

Definition invalid_txs (h : Host) : Z := counts h CInvalidTxs.
(** No strike is recorded and none will be at the end; bans only run out; at most
    [k] more transactions are counted as invalid. *)
Record spared (k : Z) (h h' : Host) : Prop := {
  cm_ips : ip_strikes (relay h') ⊆ ip_strikes (relay h);
  cm_ids : banned_ids (relay h') ⊆ banned_ids (relay h);
  cm_invalid : 0 <= invalid_txs h' <= invalid_txs h + k
}.
Lemma spared_trans j k h1 h2 h3 : spared j h1 h2 -> spared k h2 h3 -> spared (j + k) h1 h3.
Proof. intros [I1 P1 N1] [I2 P2 N2]. split; [by etrans|by etrans|lia]. Qed.
Lemma spared_same h h' : 0 <= invalid_txs h -> ip_strikes (relay h') = ip_strikes (relay h) -> banned_ids (relay h') = banned_ids (relay h) -> invalid_txs h' = invalid_txs h -> spared 0 h h'.
Proof. intros Hn Ei Ed En. split; [by rewrite Ei|by rewrite Ed|lia]. Qed.
Definition forgiven (e : exit) : bool := match e with Stop e => negb (strikes_at_end e) | _ => true end.
Definition mild {A} (k : Z) (c : rd A) : Prop := forall h, 0 <= invalid_txs h -> invalid_txs h + k <= MAX_INVALID_TXS_PER_PEER ->
  match c h with Some (r, h') => spared k h h' /\ match r with Err e => forgiven e = true | Ok _ => True end | None => True end.
Lemma spared_le j k h h' : j <= k -> spared j h h' -> spared k h h'.
Proof. intros Hjk []. split; [done..|lia]. Qed.
Lemma mild_seq {A B} j k (c : rd A) (f : A -> rd B) : 0 <= k -> mild j c -> (forall a, mild k (f a)) -> mild (j + k) (c ≫= f).
Proof.
  intros Hk Hc Hf h Hge Hn. unfold mbind, rd_bind. specialize (Hc h Hge). destruct (c h) as [[[a|e] h1]|]; [|split; [apply (spared_le j); [lia|apply Hc; lia]|apply Hc; lia]|done].
  destruct Hc as [C1 _]; [lia|]. specialize (Hf a h1). destruct C1 as [I1 P1 N1]. destruct (f a h1) as [[r h2]|]; [|done]. destruct Hf as [C2 Hr]; [lia..|].
  split; [|done]. by apply (spared_trans _ _ _ h1).
Qed.
Lemma mild_bind {A B} k (c : rd A) (f : A -> rd B) : 0 <= k -> mild 0 c -> (forall a, mild k (f a)) -> mild k (c ≫= f).
Proof. intros Hk Hc Hf. apply (mild_seq 0 k); [done..]. Qed.
Lemma mild_then {A B} k (c : rd A) (f : A -> rd B) : mild k c -> (forall a, mild 0 (f a)) -> mild k (c ≫= f).
Proof. intros Hc Hf. rewrite <- (Z.add_0_r k). by apply mild_seq. Qed.
Lemma mild_zero {A} k (c : rd A) : 0 <= k -> mild 0 c -> mild k c.
Proof.
  intros Hk Hc h Hge Hn. specialize (Hc h Hge). destruct (c h) as [[r h']|]; [|done]. destruct Hc as [Hc Hr]; [lia|]. split; [by apply (spared_le 0)|done].
Qed.
Lemma mild_ret {A} (a : A) : mild 0 (mret a : rd A).
Proof. intros h Hge Hn. split; [by apply spared_same|done]. Qed.
Lemma mild_leave {A} e : forgiven e = true -> mild 0 (leave e : rd A).
Proof. intros He h Hge Hn. split; [by apply spared_same|done]. Qed.
Lemma mild_view {A} (f : Host -> A) : mild 0 (view f).
Proof. intros h Hge Hn. split; [by apply spared_same|done]. Qed.
Lemma mild_when k b (c : rd unit) : 0 <= k -> mild k c -> mild k (when b c).
Proof. intros Hk Hc. destruct b; [done|]. apply mild_zero; [done|apply mild_ret]. Qed.
Lemma mild_apply {A} (f : Host -> A * Host) :
  (forall h, relay (snd (f h)) = relay h /\ (0 <= invalid_txs h -> 0 <= invalid_txs (snd (f h)) <= invalid_txs h)) -> mild 0 (apply f).
Proof.
  intros Hf h Hge Hn. unfold apply. destruct (f h) as [a h'] eqn:E. specialize (Hf h). rewrite E in Hf. destruct Hf as [Er Ee]. cbn in Er, Ee. specialize (Ee Hge).
  split; [|done]. split; [by rewrite Er|by rewrite Er|lia].
Qed.
Lemma mild_edit (f : Host -> Host) : (forall h, relay (f h) = relay h /\ (0 <= invalid_txs h -> 0 <= invalid_txs (f h) <= invalid_txs h)) -> mild 0 (edit f).
Proof. intros Hf. exact (mild_apply (fun h => (tt, f h)) Hf). Qed.
Lemma mild_count c : c <> CInvalidTxs -> mild 0 (count c : rd Z).
Proof. intros Hc h Hge Hn. split; [apply spared_same; [done..|]|done]. unfold invalid_txs. cbn. by case_decide. Qed.
Lemma mild_look : mild 0 (look looks : rd Look).
Proof. intros h Hge Hn. split; [by apply spared_same|done]. Qed.
Lemma mild_forward e : mild 0 (forward e : rd unit).
Proof. intros h Hge Hn. split; [by apply spared_same|done]. Qed.
Lemma mild_in_relay {A} (c : @rel S A) : (forall r a r', c r = Some (a, r') -> ip_strikes r' = ip_strikes r /\ banned_ids r' = banned_ids r) -> mild 0 (in_relay c).
Proof. intros Hc h Hge Hn. unfold in_relay. destruct (c (relay h)) as [[a r']|] eqn:E; [|done]. apply Hc in E as [Ei Ed]. split; [by apply spared_same|done]. Qed.
Lemma mild_abuse (f : Look -> Abuse -> bool * Abuse) :
  (forall l a, let a' := snd (f l a) in ip_abuse a' ⊆ ip_abuse a /\ identity_bans a' ⊆ identity_bans a) -> mild 0 (on_abuse looks f).
Proof.
  intros Hf. apply mild_bind; [done|apply mild_look|]. intros l h Hge Hn. unfold in_relay. specialize (Hf l (abuse_of (relay h))). destruct (f l _) as [b a]. destruct Hf as [Hi Hd].
  split; [|done]. split; [done..|unfold invalid_txs in *; cbn; lia].
Qed.
Lemma mild_ip : mild 0 (ip_banned looks peer_addr).
Proof. apply mild_abuse. intros l a. destruct (ip_ban_forgets (l_now l) (l_ban_fault l) (sock_ip peer_addr) a) as [Hi Hd]. cbv zeta. by rewrite Hd. Qed.
Lemma mild_identity : mild 0 (identity_banned looks peer).
Proof. apply mild_abuse. intros l a. destruct (identity_ban_forgets (l_now l) (l_identity_fault l peer) peer a) as [Hi Hd]. cbv zeta. by rewrite Hi. Qed.
#[local] Hint Resolve mild_ret mild_view mild_look mild_forward mild_ip mild_identity : tame.
#[local] Ltac tame :=
  repeat first
    [ solve [auto 3 with tame nocore]
    | match goal with
      | |- mild _ (leave _) => apply mild_zero; [done|by apply mild_leave]
      | |- mild 0 (_ ≫= _) => apply mild_bind; [done| |intros]
      | |- mild _ (when _ _) => apply mild_when; [done|]
      | |- mild 0 (count _) => by apply mild_count
      | |- mild 0 (edit _) => apply mild_edit; intros; split; [done|unfold invalid_txs; cbn; lia]
      | |- mild _ (match ?x with _ => _ end) => destruct x eqn:?
      end ].
Lemma mild_before : mild 0 (before_message looks peer_addr peer : rd Z).
Proof.
  unfold before_message. tame. apply mild_edit. intros h. unfold fresh_window. destruct (_ <=? _); split; [done| |done|lia]. unfold invalid_txs. cbn. lia.
Qed.
Lemma mild_answer m : mild 0 (answer m : rd unit).
Proof. unfold answer. tame. Qed.
#[local] Hint Resolve mild_before mild_answer : tame.
Lemma mild_try_answer m : mild 0 (try_answer looks m : rd unit).
Proof. unfold try_answer. tame. Qed.
Lemma mild_send m : mild 0 (send_answer looks m : rd bool).
Proof. unfold send_answer. tame. Qed.
Lemma mild_known id : mild 0 (known_block looks id : rd bool).
Proof. unfold known_block. tame. Qed.
Lemma mild_refund : mild 0 (refund_slot : rd unit).
Proof. unfold refund_slot. tame. Qed.
Lemma mild_budget n : mild 0 (within_response_budget looks n : rd bool).
Proof.
  unfold within_response_budget. tame. apply mild_apply. intros h. destruct (_ && _); [split; [done|cbn; lia]|]. destruct (try_consume_global_response_bytes _ _ _).
  split; [done|unfold invalid_txs; cbn; lia].
Qed.
Lemma mild_add_response n : mild 0 (add_response n : rd unit).
Proof. unfold add_response. tame. Qed.
#[local] Hint Resolve mild_try_answer mild_send mild_known mild_refund mild_budget mild_add_response : tame.
Lemma mild_new_block b : malformed b = false -> mild 0 (handle_new_block (@walk) looks peer_addr peer sid b).
Proof. intros Hb. unfold handle_new_block. rewrite Hb. tame. Qed.
Lemma mild_block_response b : malformed b = false -> mild 0 (handle_block_response (@walk) looks peer_addr peer sid b).
Proof. intros Hb. unfold handle_block_response. rewrite Hb. tame. Qed.
(** Within the allowance an invalid transaction is only counted. *)
Lemma mild_invalid_tx : mild 1 (count_invalid_tx : rd unit).
Proof.
  intros h Hge Hn. unfold count_invalid_tx, mbind, rd_bind, count. set (n := (_ + 1) mod _). assert (n = invalid_txs h + 1) as Hnew.
  { unfold n. apply Z.mod_small. unfold invalid_txs, MAX_INVALID_TXS_PER_PEER in *. lia. }
  assert ((MAX_INVALID_TXS_PER_PEER <? n) = false) as -> by lia. split; [|done]. split; [done..|]. change (0 <= n <= invalid_txs h + 1). lia.
Qed.
#[local] Hint Resolve mild_invalid_tx : tame.
Lemma mild_pool_add tx fee sc svc snap : mild 0 (pool_add tx fee sc svc snap : rd _).
Proof. intros h Hge Hn. unfold pool_add. destruct (add_validated _ _ _ _ _ _) as [[r m]|]; [|done]. split; [by apply spared_same|done]. Qed.
Lemma mild_broadcast msg ex : mild 0 (in_relay (broadcast (@walk) moments msg ex)).
Proof. apply mild_in_relay. by intros r a r' [= _ <-]. Qed.
#[local] Hint Resolve mild_pool_add mild_broadcast : tame.
Lemma mild_judge tx : mild 1 (judge_tx signature_domain coinbase_maturity (@walk) moments looks peer tx).
Proof.
  unfold judge_tx. apply mild_bind; [done|tame|]. intros u. apply mild_bind; [done|tame|]. intros t. destruct (validate_transaction _ _ _ _ _) as [[[fee sc] svc]|e].
  - apply mild_bind; [done|tame|]. intros l. destruct (l_tip_moved l); [apply mild_zero; [done|tame]|]. apply mild_bind; [done|tame|]. intros [id|e]; [apply mild_zero; [done|tame]|].
    apply mild_bind; [done|tame|]. intros _. tame.
  - apply mild_bind; [done|tame|]. intros _. tame.
Qed.
Lemma mild_new_tx tx : mild 1 (handle_new_tx signature_domain coinbase_maturity (@walk) moments looks peer_addr peer tx).
Proof.
  unfold handle_new_tx. apply mild_bind; [done|tame|]. intros fresh. destruct (negb fresh); [tame|]. apply mild_bind; [done|tame|]. intros n. destruct (_ <? n); [tame|].
  apply mild_bind; [done|tame|]. intros banned. destruct banned; [tame|]. apply mild_bind; [done|tame|]. intros l. apply mild_bind; [done| |].
  { apply mild_apply. intros h. destruct (try_consume_global_tx_slot _ _). split; [done|unfold invalid_txs; cbn; lia]. }
  intros slot. destruct (negb slot); [tame|]. apply mild_bind; [done|tame|]. intros m. destruct (pre_check m tx) as [id|e]; [apply mild_judge|].
  apply mild_then; [tame|]. intros _. tame.
Qed.
Lemma mild_serve ids : mild 0 (serve_blocks looks ids : rd unit).
Proof. induction ids as [|id ids IH]; cbn [serve_blocks]; tame. Qed.
Lemma mild_addr now es : mild 0 (handle_addr (@walk) looks peer_addr peer sid now es : rd unit).
Proof.
  unfold handle_addr. tame.
  - apply mild_apply. intros h. destruct (merge_addr_entries _ _ _ _ _ _). split; [done|unfold invalid_txs; cbn; lia].
  - apply mild_in_relay. by intros r a' r' [= _ <-].
Qed.
#[local] Hint Resolve mild_serve mild_addr : tame.

(** The messages that draw no strike from the task that reads them: no malformed
    block, no second [Hello] or [AuthAck] (the catch-all arm counts these and
    leaves with [ProtocolGarbage] beyond its limit), and no receive error of the
    kinds [strikes_at_end] names.  What becomes of a well-formed block is decided
    later, by [process_block_event]. *)
Definition well_behaved (m : incoming) : bool :=
  match m with
  | Ok (Some (MNewBlock b)) | Ok (Some (MBlockResponse b)) => negb (malformed b)
  | Ok (Some (MHello _)) | Ok (Some (MAuthAck _)) => false
  | Err e => negb (strikes_at_end e)
  | _ => true
  end.
Definition is_tx (m : incoming) : bool := match m with Ok (Some (MNewTx _)) => true | _ => false end.
Definition tx_count (ms : list incoming) : Z := len (List.filter is_tx ms).
Lemma mild_round m : well_behaved m = true -> mild (if is_tx m then 1 else 0) (round m).
Proof.
  intros Hm. apply mild_bind; [by destruct (is_tx m)|tame|]. intros now. destruct m as [[[]|]|]; try done; cbn [handle_message is_tx well_behaved] in *.
  all: try (apply negb_true_iff in Hm).
  all: first [by apply mild_new_block|by apply mild_block_response|apply mild_new_tx|apply mild_leave; cbn; by rewrite ?Hm
             |unfold handle_ping, handle_pong, handle_get_tip, handle_get_blocks, handle_get_headers, handle_headers, handle_get_addr, handle_tip_response; by tame].
Qed.
Abbreviation reader_task := (reader_task signature_domain coinbase_maturity (@walk) moments looks peer_addr peer sid).
(** The end of a session that is not held against the peer. *)
Definition spared_end (k : Z) (h : Host) (end_ : option (option (result PeerError unit) * Host)) : Prop :=
  match end_ with Some (r, h') => spared k h h' /\ match r with Some (Err e) => strikes_at_end e = false | _ => True end | None => True end.
Lemma reader_spared ms h : forallb well_behaved ms = true -> 0 <= invalid_txs h -> invalid_txs h + tx_count ms <= MAX_INVALID_TXS_PER_PEER ->
  spared_end (tx_count ms) h (reader_task ms h).
Proof.
  revert h. induction ms as [|m ms IH]; intros h Hms Hge Hn; cbn [Reader.reader_task]; [split; [by apply spared_same|done]|]. apply andb_true_iff in Hms as [Hm Hms].
  assert (tx_count (m :: ms) = (if is_tx m then 1 else 0) + tx_count ms) as E by (unfold tx_count, len; cbn; destruct (is_tx m); cbn; lia). assert (0 <= tx_count ms) by apply Nat2Z.is_nonneg.
  rewrite E in *. pose proof (mild_round m Hm h Hge) as Hr. destruct (round m h) as [[r h1]|]; [|done]. destruct Hr as [C1 Hr]; [lia|].
  assert (spared_end ((if is_tx m then 1 else 0) + tx_count ms) h (reader_task ms h1)) as Hgo.
  { destruct (C1) as [_ _ N1]. specialize (IH h1 Hms). unfold spared_end in *. destruct (reader_task ms h1) as [[r2 h2]|]; [|done]. destruct IH as [C2 H2']; [lia..|].
    split; [by apply (spared_trans _ _ _ h1)|done]. }
  destruct r as [[]|[]]; [exact Hgo|exact Hgo|split; [eapply spared_le; [|exact C1]; lia|by apply negb_true_iff]|split; [eapply spared_le; [|exact C1]; lia|done]].
Qed.
Lemma session_spared ms h : forallb well_behaved ms = true -> 0 <= invalid_txs h -> invalid_txs h + tx_count ms <= MAX_INVALID_TXS_PER_PEER ->
  spared_end (tx_count ms) h (run_session ms h).
Proof.
  intros Hms Hge Hn. pose proof (reader_spared ms h Hms Hge Hn) as Hr. unfold Reader.run_session. destruct (reader_task ms h) as [[[[|e]|] h']|]; try done.
  destruct Hr as [Hc He]. by rewrite He.
Qed.

(** ** Requests for headers *)

Lemma header_canon l (n : @Node S) i b ms : node_ok l n -> l !! i = Some (b, ms) ->
  get_block_id_by_height (Z.of_nat i) (storage n) ≫= (fun id => get_header id (storage n)) = Some (header b).
Proof.
  intros Hn Hi. destruct (Hn) as [Hl Hdb _ _]. rewrite (oc_height _ _ _ _ (node_on_chain _ _ world _ _ Hn)). change (map fst l) with (fst <$> l). rewrite list_lookup_fmap, Hi. cbn.
  assert (U b) as Ub by (eapply (log_blocks _ _ world); [exact Hl|by eapply list_elem_of_lookup_2]). destruct (w_wf _ _ world b Ub) as (Hwf & _).
  unfold get_header. rewrite (db_pinned _ _ _ _ Hdb HEADERS_TABLE _ (BlockHeader_serialize (header b))) by by exists i, b, ms. rewrite (len_header _ Hwf). cbn. by rewrite (header_decodes_encoding _ Hwf).
Qed.
(** From a height on, the stored headers are those of the chain; a read that
    fails cuts them short. *)
Lemma headers_slice l (n : @Node S) fault s k : node_ok l n ->
  let slice := header <$> take k (drop s (map fst l)) in
  let hs := chain_headers fault (seqZ (Z.of_nat s) (Z.of_nat k)) (storage n) in
  hs `prefix_of` slice /\ ((forall x, fault x = false) -> hs = slice).
Proof.
  intros Hn. cbv zeta. revert s. induction k as [|k IH]; intros s; [done|]. rewrite seqZ_cons by lia. replace (Z.pred (Z.of_nat (Datatypes.S k))) with (Z.of_nat k) by lia.
  replace (Z.succ (Z.of_nat s)) with (Z.of_nat (Datatypes.S s)) by lia. cbn [chain_headers]. destruct (l !! s) as [[b ms]|] eqn:Es.
  - rewrite (header_canon _ _ _ _ _ Hn Es). assert (map fst l !! s = Some b) as Eb by (change (map fst l) with (fst <$> l); by rewrite list_lookup_fmap, Es).
    rewrite (drop_S _ _ _ Eb). cbn [take fmap list_fmap]. destruct (IH (Datatypes.S s)) as [Hp He]. destruct (fault (Z.of_nat s)) eqn:Ef; [split; [apply prefix_nil|]|].
    + intros Hf. by rewrite Hf in Ef.
    + split; [by apply prefix_cons|]. intros Hf. by rewrite He.
  - rewrite (oc_height _ _ _ _ (node_on_chain _ _ world _ _ Hn)). change (map fst l) with (fst <$> l). rewrite list_lookup_fmap, Es. cbn [fmap option_fmap option_map mbind option_bind].
    rewrite drop_ge by (rewrite length_fmap; by apply lookup_ge_None). by destruct (fault _).
Qed.
Lemma requested_heights g t : 0 <= start_height g -> 0 <= max_count g -> 0 <= t < U64_MAX ->
  requested g t = seqZ (start_height g) (Z.min (Z.min (max_count g) MAX_GETBLOCKS_ITEMS) (t + 1 - start_height g)).
Proof. intros Hs Hm Ht. unfold requested, saturating_add. unfold MAX_GETBLOCKS_ITEMS, U64_MAX in *. f_equal. lia. Qed.
Lemma slice_served l (n : @Node S) fault g : node_ok l n -> 0 <= start_height g -> 0 <= max_count g -> tip_height (tip n) < U64_MAX ->
  let slice := header <$> take (Z.to_nat (Z.min (max_count g) MAX_GETBLOCKS_ITEMS)) (drop (Z.to_nat (start_height g)) (map fst l)) in
  let hs := chain_headers fault (requested g (tip_height (tip n))) (storage n) in
  hs `prefix_of` slice /\ ((forall x, fault x = false) -> hs = slice).
Proof.
  intros Hn Hs Hm Ht. destruct (Hn) as [_ _ [(b & ms & Hlast & _) Hat _] _]. assert (length l <> O) as Hlen by (destruct l; [done|cbn; lia]).
  rewrite requested_heights by lia. set (cnt := Z.min (max_count g) MAX_GETBLOCKS_ITEMS). assert (0 <= cnt) by (unfold cnt, MAX_GETBLOCKS_ITEMS; lia).
  set (k := Z.min cnt _). pose proof (headers_slice l n fault (Z.to_nat (start_height g)) (Z.to_nat k) Hn) as Hh. cbv zeta in *.
  assert (seqZ (start_height g) k = seqZ (Z.of_nat (Z.to_nat (start_height g))) (Z.of_nat (Z.to_nat k))) as ->.
  { rewrite (Z2Nat.id (start_height g)) by done. destruct (Z.lt_ge_cases k 0); [rewrite !seqZ_nil by lia; done|]. by rewrite Z2Nat.id. }
  assert (take (Z.to_nat cnt) (drop (Z.to_nat (start_height g)) (map fst l)) = take (Z.to_nat k) (drop (Z.to_nat (start_height g)) (map fst l))) as ->; [|done].
  destruct (Z.le_gt_cases cnt (tip_height (tip n) + 1 - start_height g)) as [Hle|Hgt]; [f_equal; unfold k; lia|]. unfold k. by rewrite !take_ge by (rewrite length_drop, length_map; lia).
Qed.

(** The answer that leaves, given that the budgets allow it ([granted]) and the
    queue takes it ([room]). *)
Definition answered (granted room : bool) (hs : list BlockHeader) (h h' : Host) : Prop :=
  relay h' = relay h /\ writer h' = writer h ++ (if room then [MHeaders (if granted then hs else [])] else []).
Definition affordable (h : Host) (hs : list BlockHeader) : Prop :=
  let size := message_size (MHeaders hs) in
  (response_bytes h = 0 \/ response_bytes h + size <= MAX_RESPONSE_BYTES_PER_MIN) /\
  forall now, fst (try_consume_global_response_bytes now size (global_response_limiter h)) = true.
Lemma budget_spec n (h : Host) : 0 <= response_bytes h -> exists ok h', within_response_budget looks n h = Some (Ok ok, h') /\ relay h' = relay h /\ writer h' = writer h /\
  ((response_bytes h = 0 \/ response_bytes h + n <= MAX_RESPONSE_BYTES_PER_MIN) -> (forall now, fst (try_consume_global_response_bytes now n (global_response_limiter h)) = true) -> ok = true).
Proof.
  intros Hge. unfold within_response_budget, mbind, rd_bind, look, apply. cbn [with_seen response_bytes global_response_limiter].
  destruct (_ && _) eqn:E; [eexists _, _; split_and!; [done..|]|].
  - intros Hb. apply andb_true_iff in E as [E1%Z.ltb_lt E2%Z.ltb_lt]. unfold saturating_add in E2. lia.
  - destruct (try_consume_global_response_bytes _ _ _) as [ok g] eqn:Eg. eexists _, _. split_and!; [done..|]. intros _ Hg. specialize (Hg (l_now (looks (seen h)))). by rewrite Eg in Hg.
Qed.
Lemma get_headers_answer g (h : Host) : 0 <= response_bytes h -> let hs := chain_headers (l_header_fault (looks (seen h))) (requested g (tip_height (tip (node (relay h))))) (storage (node (relay h))) in
  exists granted room h', handle_get_headers looks g h = Some (Ok tt, h') /\ answered granted room hs h h' /\
    (catching_up h = true \/ affordable h hs -> granted = true) /\ ((forall k, l_room (looks k) = true) -> room = true).
Proof.
  intros Hge hs. unfold handle_get_headers, mbind, rd_bind, look, view. cbn [with_seen relay catching_up]. fold hs. set (h0 := with_seen h).
  assert (forall (granted : bool) (h1 : Host), relay h1 = relay h -> writer h1 = writer h -> exists room h', (x ← (if granted then _ ← add_response (message_size (MHeaders hs)); send_answer looks (MHeaders hs)
            else send_answer looks (MHeaders [])); mret tt) h1 = Some (Ok tt, h') /\ answered granted room hs h h' /\ ((forall k, l_room (looks k) = true) -> room = true)) as Hsend.
  { intros granted h1 Er Ew. exists (l_room (looks (seen h1))). destruct granted; unfold send_answer, add_response, mbind, rd_bind, look, edit, answer, edit, mret, rd_ret; cbn [with_counts seen with_seen];
      destruct (l_room _) eqn:El; eexists; (split; [done|]); (split; [split; [done|cbn; by rewrite ?Ew, ?app_nil_r]|intros Hr; by rewrite ?Hr in El]). }
  destruct (catching_up h).
  - destruct (Hsend true h0 eq_refl eq_refl) as (room & h' & E & Ha & Hr). exists true, room, h'. by split.
  - destruct (budget_spec (message_size (MHeaders hs)) h0 Hge) as (ok & h1 & -> & Er & Ew & Hok). destruct (Hsend ok h1 Er Ew) as (room & h' & E & Ha & Hr). exists ok, room, h'.
    split; [done|]. split; [done|]. split; [|done]. intros [?|[Hb Hg]]; [done|]. by apply Hok.
Qed.

(** C6: Whatever a peer sends, and whatever happens around it, its session comes
    to an end or goes on; the node stays consistent, on the same chain and tip,
    its database changed in the tables of bans only, with its pool in order and
    its buffers as they were; and all the session hands on is in the peer's own
    name, with blocks that were sent and are not malformed. *)
Theorem session_harmless (h : Host) (ms : list incoming) : relay_ok (relay h) -> Forall message_known ms ->
  exists r h' bs, run_session ms h = Some (r, h') /\ relay_ok (relay h') /\ on_chain bs (node (relay h)) /\ on_chain bs (node (relay h')) /\ beside h h'.
Proof.
  intros Hok Hm. destruct (session_sound ms h Hok Hm) as (r & h' & E & Hok' & B). destruct (Hok) as [[l Hn] _ _ _]. exists r, h', (map fst l).
  split_and!; [done|done|by apply node_on_chain|apply node_on_chain; [done|by apply B]|done].
Qed.

(** C25: The strikes and bans that the session task itself records, while it reads
    and when it ends.  If the messages hold no malformed block, no second [Hello]
    or [AuthAck], no receive error that counts as a strike ([well_behaved]) and no
    more transactions than the sixteen invalid ones a session is allowed, then the
    session task adds no strike and no ban, whatever else it receives and whatever
    the clocks, queues and storage do; it does not end with an error that counts as
    a strike, and strikes and bans recorded before can only expire.  The strikes
    that [process_block_event] records for a well-formed block that is rejected
    are another task's and are not covered. *)
Theorem well_behaved_unpunished (h : Host) (ms : list incoming) : relay_ok (relay h) -> Forall message_known ms ->
  forallb well_behaved ms = true -> 0 <= invalid_txs h -> invalid_txs h + tx_count ms <= MAX_INVALID_TXS_PER_PEER ->
  exists r h', run_session ms h = Some (r, h') /\ ip_strikes (relay h') ⊆ ip_strikes (relay h) /\ banned_ids (relay h') ⊆ banned_ids (relay h) /\
    forall e, r = Some (Err e) -> strikes_at_end e = false.
Proof.
  intros Hok Hm Hw Hge Hn. destruct (session_sound ms h Hok Hm) as (r & h' & E & _). pose proof (session_spared ms h Hw Hge Hn) as Hc. rewrite E in Hc. destruct Hc as [[] Hr].
  exists r, h'. split_and!; [done..|]. by intros e ->.
Qed.

(** A request for headers is answered with our chain: at most 64 consecutive
    headers from the wanted height on, all of them up to the tip unless a read
    fails or the limits on answers forbid it, when the answer is empty; while
    the node catches up there is no limit. *)
Theorem headers_served (h : Host) (g : GetHeadersMsg) : relay_ok (relay h) -> 0 <= response_bytes h -> 0 <= start_height g -> 0 <= max_count g ->
  tip_height (tip (node (relay h))) < U64_MAX ->
  exists bs hs granted room h', let slice := header <$> take (Z.to_nat (Z.min (max_count g) MAX_GETBLOCKS_ITEMS)) (drop (Z.to_nat (start_height g)) bs) in
    on_chain bs (node (relay h)) /\ hs `prefix_of` slice /\ ((forall x, l_header_fault (looks (seen h)) x = false) -> hs = slice) /\
    handle_get_headers looks g h = Some (Ok tt, h') /\ answered granted room hs h h' /\
    (catching_up h = true \/ affordable h hs -> granted = true) /\ ((forall k, l_room (looks k) = true) -> room = true).
Proof.
  intros [[l Hn] _ _ _] Hge Hs Hm Ht. destruct (get_headers_answer g h Hge) as (granted & room & h' & Ha). destruct (slice_served l _ (l_header_fault (looks (seen h))) g Hn Hs Hm Ht) as [Hp He].
  eexists (map fst l), _, granted, room, h'. cbv zeta. split; [by apply node_on_chain|]. split; [exact Hp|]. split; [exact He|exact Ha].
Qed.
End Session.
