(* ===== verification/ReaderWitness.v ===== *)
(** * A session with a peer

    The peer of [RelayWitness.v] sends blocks, requests and garbage to a node on
    its first block: the theorems of [ReaderSafety.v] apply, and the answers and
    strikes are as intended. *)

From S2P Require Import Prelude Bytes Codec Hash Transaction Block Wire U256 Difficulty Reward.
From S2P Require Import ScriptValue ScriptCodec Jets ScriptCost Eval FeeCost Smt Utxo TxValidation BlockValidation BlockApply Mempool.
From S2P Require Import Storage PeerRegistry PeerPolicy BlockRelay ChainManager StoreView ChainModel StorageFacts ChainStore ChainState ChainWitness.
From S2P Require Import RelayFacts RelaySafety RelayWitness Reader ReaderSafety.
#[local] Open Scope Z_scope.
#[local] Open Scope list_scope.

Section Conversation.
#[local] Existing Instance sha.
#[local] Existing Instance sha_width.
#[local] Existing Instance easy_argon2.
#[local] Existing Instance toy_ed25519.
#[local] Existing Instance toy_layout.
#[local] Existing Instance flat_root.

(** Nothing fails and every queue has room. *)
Definition clear_view : nat -> Look := fun k => {|
  l_now := Z.of_nat k * SECOND; l_unix := Some 1700000100; l_fault := false; l_header_fault := fun _ => false; l_ban_fault := false; l_identity_fault := fun _ => false;
  l_event := Sent; l_room := true; l_tip_moved := false; l_cached := false; l_routed := false; l_pick := fun _ => 0%nat; l_closing := false |}.
Definition host (behind : bool) : @Host utxo_map := {|
  relay := relay0; counts := fun _ => 0; response_bytes := 0; window_start := 0; getaddr_sent_at := None; addr_book := ∅; global_tx_limiter := (0, 0);
  global_response_limiter := (0, 0); active_ibd_peer := None; ever_confirmed_peer := true; catching_up := behind; awaiting_pong := false; pong_received := false;
  events := []; writer := []; pongs := 0; seen := 0 |}.
Definition host0 : @Host utxo_map := host false.
Definition converse (ms : list incoming) : option (option (result PeerError unit) * @Host utxo_map) :=
  run_session sample_domain 360 in_order (steady calm) clear_view home alice 7 ms host0.

Definition with_version (v : Z) (b : Block) : Block :=
  let hd := header b in
  {| header := Build_BlockHeader v (height hd) (prev_block_id hd) (timestamp hd) (difficulty_target hd) (nonce hd) (tx_root hd) (Block.state_root hd); transactions := transactions b |}.
Definition misfit : Block := with_version 9 b1.
Definition polite : list incoming := [Ok (Some MPing); Ok (Some (MNewBlock b1)); Ok None; Ok (Some (MGetHeaders {| start_height := 0; max_count := 64 |})); Ok (Some MPong)].
Definition rude : list incoming := Ok (Some (MNewBlock misfit)) :: polite ++ [Err HmacFailure].
Definition outcome_of (s : option (option (result PeerError unit) * @Host utxo_map)) : option (option (result PeerError unit) * option Z * nat * list Message) :=
  match s with
  | Some (r, h) => Some (r, option_map strikes (ip_strikes (Reader.relay h) !! sock_ip home), length (events h), writer h)
  | None => None
  end.
Example polite_session : outcome_of (converse polite) = Some (None, None, 1%nat, [MHeaders [header g0]]).
Proof. vm_compute. reflexivity. Qed.
(** One strike for the block and one at the end. *)
Example rude_session : outcome_of (converse rude) = Some (Some (Err HmacFailure), Some 2, 1%nat, [MHeaders [header g0]]).
Proof. vm_compute. reflexivity. Qed.
Lemma polite_known : Forall (message_known net) polite.
Proof. repeat (apply Forall_cons; split); [exact I|intros _; right; left; reflexivity|exact I..|constructor]. Qed.
Lemma rude_known : Forall (message_known net) rude.
Proof. apply Forall_cons. split; [intros E; discriminate E|]. apply Forall_app. split; [exact polite_known|]. constructor; [exact I|constructor]. Qed.

Lemma session_harmless_witness : exists r h' bs, converse rude = Some (r, h') /\ on_chain net g0 bs (node (Reader.relay h')) /\ tip (node (Reader.relay h')) = tip node0.
Proof.
  destruct (session_harmless sample_domain 360 net g0 net_world in_order (steady calm) clear_view home alice 7 host0 rude relay0_ok rude_known) as (r & h' & bs & E & _ & _ & Hc & B).
  exists r, h', bs. split; [exact E|]. split; [exact Hc|exact (bs_tip _ _ _ _ _ _ _ B)].
Defined.
Lemma well_behaved_unpunished_witness : exists r h', converse polite = Some (r, h') /\ ip_strikes (Reader.relay h') ⊆ ∅.
Proof.
  destruct (well_behaved_unpunished sample_domain 360 net g0 in_order (steady calm) clear_view home alice 7 host0 polite relay0_ok polite_known) as (r & h' & E & Hi & _);
    [reflexivity|reflexivity|discriminate|].
  exists r, h'. split; [exact E|exact Hi].
Defined.
Lemma headers_served_witness : exists bs h', on_chain net g0 bs node0 /\
  handle_get_headers clear_view {| start_height := 0; max_count := 64 |} (host true) = Some (Ok tt, h') /\ writer h' = [MHeaders (header <$> take 64 bs)].
Proof.
  destruct (headers_served net g0 net_world clear_view (host true) {| start_height := 0; max_count := 64 |} relay0_ok) as (bs & hs & granted & room & h' & Hc & _ & He & E & Ha & Hg & Hr);
    [discriminate|discriminate|discriminate|vm_compute; reflexivity|].
  exists bs, h'. split; [exact Hc|]. split; [exact E|]. destruct Ha as [_ Hw]. rewrite (Hr (fun _ => eq_refl)), (Hg (or_introl eq_refl)), (He (fun _ => eq_refl)) in Hw. exact Hw.
Defined.
End Conversation.
