(* ===== verification/Genesis.v ===== *)
(** * The genesis block ([src/genesis.rs])

    The two compiled genesis blocks, built from their coinbase with the code that
    applies any transaction, and the search for the nonce.  [None] stands for a
    failing [expect]; the theorem shows that it does not happen. *)

From Stdlib Require Import Strings.String.
From S2P Require Import Prelude Bytes Codec Hash Transaction Block U256 Difficulty Reward Smt Utxo.
From S2P Require Import ScriptValue ScriptAst ScriptCodec Jets Typecheck ScriptCost Eval FeeCost TxValidation BlockValidation ChainModel.
#[local] Open Scope Z_scope.
#[local] Open Scope list_scope.

Definition GENESIS_TIMESTAMP : Z := 1773536400.
Definition GENESIS_NONCE : Z := 259.
Definition DEVNET_GENESIS_TIMESTAMP : Z := GENESIS_TIMESTAMP + 1.
Definition genesis_message : bytes := list_byte_of_string
  "NIST Beacon 2026-03-14T22:23:00Z 561AA26B4214EE8F3AAD4F5B8BD3B449DF3503C09611110E50AC28F39379B6D8904F833047EFF6109C94BB59AD4BB33359307C77F71C2FC3BA6D1073AE881F81 — Designed, audited, and built by autonomous machines. A human provided minimal necessary support.".
Definition genesis_coinbase : Transaction := {|
  inputs := [{| prev_tx_id := Hash256_ZERO; output_index := 0 |}];
  outputs := [{| value := 10000000000; script := replicate 32 x00; datum := None; datum_hash := None |}];
  witnesses := [{| witness := genesis_message; redeemer := None |}] |}.

Section Genesis.
Context `{Sha2} `{StateTree}.

Definition genesis_template : option (Block * UtxoSet) :=
  let! tx_root := ok (compute_tx_root [genesis_coinbase]) in
  match apply_transaction genesis_coinbase 0 UtxoSet_new with
  | Some (Ok _, utxo_set) =>
      Some ({| header := {| version := VERSION; height := 0; prev_block_id := Hash256_ZERO; timestamp := GENESIS_TIMESTAMP; difficulty_target := genesis_target;
                            nonce := 0; tx_root := tx_root; Block.state_root := state_root utxo_set |};
               transactions := [genesis_coinbase] |}, utxo_set)
  | _ => None
  end.
Definition at_nonce (n : Z) (h : BlockHeader) : BlockHeader :=
  {| version := version h; height := height h; prev_block_id := prev_block_id h; timestamp := timestamp h; difficulty_target := difficulty_target h;
     nonce := n; tx_root := tx_root h; Block.state_root := Block.state_root h |}.
Definition at_timestamp (t : Z) (h : BlockHeader) : BlockHeader :=
  {| version := version h; height := height h; prev_block_id := prev_block_id h; timestamp := t; difficulty_target := difficulty_target h;
     nonce := nonce h; tx_root := tx_root h; Block.state_root := Block.state_root h |}.
Definition genesis_block : option Block :=
  let! (b, _) := genesis_template in Some {| header := at_nonce GENESIS_NONCE (header b); transactions := transactions b |}.
Definition devnet_genesis_block : option Block :=
  let! (b, _) := genesis_template in
  Some {| header := at_nonce 0 (at_timestamp DEVNET_GENESIS_TIMESTAMP (header b)); transactions := transactions b |}.
Definition genesis_block_id : option Hash256 := let! b := genesis_block in Some (block_id (header b)).

(** The first nonce that wins among the next [fuel] ones; the loop of the source
    is over all 2^64 of them. *)
Fixpoint mine_from `{Argon2} (fuel : nat) (n : Z) (h : BlockHeader) : option (Z * Hash256) :=
  match fuel with
  | O => None
  | S fuel => match verify_pow (at_nonce n h) with
              | Ok true => Some (n, block_id (at_nonce n h))
              | _ => mine_from fuel (n + 1) h
              end
  end.
Definition mine_genesis_nonce `{Argon2} (fuel : nat) : option (Z * Hash256) := let! (b, _) := genesis_template in mine_from fuel 0 (header b).
End Genesis.

(** ** The genesis block is a valid start *)

Section Start.
Context `{Sha2} `{!Sha2Width}.

Lemma coinbase_wf : Transaction_wf genesis_coinbase.
Proof. crush_closed. Qed.
Lemma coinbase_root : exists r, compute_tx_root [genesis_coinbase] = Ok r /\ len r = 32.
Proof.
  destruct (codec_encodes _ coinbase_wf) as (b & Hb & _). exists (merkle_root DS_TXROOT [domain_hash DS_WTXID b]). split; [|apply sha2_width].
  unfold compute_tx_root. cbn. unfold wtx_id. by rewrite Hb.
Qed.
Lemma ref_root_len n m : len (ref_hash (S n) m) = 32.
Proof. cbn [ref_hash]. apply sha2_width. Qed.
Lemma genesis_applied : exists ms s, apply_transaction genesis_coinbase 0 UtxoSet_new = Some (Ok ms, s) /\ len (state_root s) = 32.
Proof.
  destruct (codec_encodes _ coinbase_wf) as (b & Hb & _). apply serialize_signing in Hb as (sg & Hs). set (id := domain_hash DS_TX sg).
  set (entry := {| output := Build_TxOutput 10000000000 (replicate 32 x00) None None; entry_height := 0; entry_coinbase := true |}).
  assert (exists out, TxOutput_serialize (output entry) = Ok out) as [out Hout] by (eexists; vm_compute; reflexivity).
  destruct (st_insert_ok st_new ∅ (2 ^ 30 - 1) (outpoint_key (output_outpoint id 0)) (leaf_value out 0 true) st_new_ok) as (t & Ht & Hok); [done|apply sha2_width|].
  assert (exists s, UtxoSet_insert (output_outpoint id 0) entry UtxoSet_new = Some (Ok tt, s) /\ smt s = t) as (s & Hins & Hsmt).
  { unfold UtxoSet_insert. assert (contains (output_outpoint id 0) UtxoSet_new = false) as -> by (unfold contains; rewrite bool_decide_false; [done|]; cbn; rewrite lookup_empty; by intros []).
    rewrite Hout. cbn [smt UtxoSet_new entry_height entry_coinbase entry]. rewrite Ht. by eexists. }
  eexists _, _. split.
  - unfold apply_transaction. rewrite (signing_tx_id _ _ Hs). fold id. change (is_coinbase genesis_coinbase) with true. change (outputs genesis_coinbase) with [output entry].
    cbn [negb map_err create_outputs]. change (Build_UtxoEntry (output entry) 0 true) with entry.
    unfold mbind, store_bind. cbn [of_result mret store_ret]. cbn [store_insert UtxoSet_store]. rewrite Hins. reflexivity.
  - unfold state_root. rewrite Hsmt, (st_root_ok _ _ _ Hok). apply (ref_root_len 255).
Qed.
Lemma coinbase_reward : validate_coinbase genesis_coinbase 0 (block_reward 0) = Ok tt.
Proof. vm_compute. reflexivity. Qed.

(** Both compiled genesis blocks exist and are a valid start of a chain: well
    formed, at height 0, with the Merkle root of their only transaction, a
    coinbase that pays exactly the reward of height 0 and obeys the coinbase
    rules, and the state root of the UTXO set that this coinbase leaves; they
    carry the same transactions, and their headers, hence their identifiers
    unless these two collide, differ. *)
Theorem genesis_valid : exists b d ms s,
  genesis_block = Some b /\ devnet_genesis_block = Some d /\ apply_transaction genesis_coinbase 0 UtxoSet_new = Some (Ok ms, s) /\
  Forall (fun g => Block_wf g /\ height (header g) = 0 /\ transactions g = [genesis_coinbase] /\ root_ok g /\ Block.state_root (header g) = state_root s) [b; d] /\
  is_coinbase genesis_coinbase = true /\ validate_coinbase genesis_coinbase 0 (block_reward 0) = Ok tt /\
  BlockHeader_serialize (header b) <> BlockHeader_serialize (header d).
Proof.
  destruct coinbase_root as (r & Hr & Hlr). destruct genesis_applied as (ms & s & Ha & Hls). unfold genesis_block, devnet_genesis_block, genesis_template. rewrite Hr, Ha. cbn [ok].
  eexists _, _, ms, s. split; [reflexivity|]. split; [reflexivity|]. split; [done|]. set (hb := at_nonce GENESIS_NONCE _). set (hd := at_nonce 0 _).
  assert (BlockHeader_wf hb /\ BlockHeader_wf hd) as [Hwb Hwd] by (split; (split_and!; first [exact Hlr|exact Hls|done])).
  assert (forall h, BlockHeader_wf h -> Block_wf {| header := h; transactions := [genesis_coinbase] |}) as Hwf.
  { intros h Hh. split; [done|]. split; [done|]. constructor; [exact coinbase_wf|constructor]. }
  split_and!; [|reflexivity|exact coinbase_reward|].
  - repeat (apply Forall_cons; split); [split; [by apply Hwf|done]..|constructor].
  - cbn [header]. intros E. apply (f_equal BlockHeader_deserialize) in E. rewrite !header_decodes_encoding in E by done. by apply (f_equal nonce) in E.
Qed.
End Start.

Lemma genesis_valid_witness : exists b, @genesis_block toy_digest (@smt_tree toy_digest) = Some b /\ height (header b) = 0 /\ transactions b = [genesis_coinbase].
Proof.
  destruct (@genesis_valid toy_digest toy_digest_width) as (b & d & ms & s & Hb & _ & _ & Hall & _). exists b. split; [exact Hb|]. apply Forall_cons in Hall as [(_ & Hh & Ht & _) _]. split; [exact Hh|exact Ht].
Defined.
