(* ===== verification/Wallet.v ===== *)
(** * The wallet ([src/wallet/wallet.rs], [src/wallet/auth.rs])

    One Ed25519 key: what it owns, how it spends, how its file is written and
    read, and the checks of what a node reports before anything is signed.  The
    signature scheme, the key derivation and AES-256-GCM are parameters; the
    order in which the UTXO set is iterated, random bytes and the outcome of
    every call to the file system are arguments. *)

From Stdlib Require Import Strings.String.
From S2P Require Import Prelude Bytes Codec Hash Transaction Block U256 Difficulty.
From S2P Require Import ScriptValue ScriptAst ScriptCodec Jets Typecheck ScriptCost Eval FeeCost Utxo TxValidation.
#[local] Open Scope Z_scope.
#[local] Open Scope list_scope.

Inductive WalletError :=
| WIo | InvalidKeyFile | UnsupportedVersion (v : byte) | InsecurePermissions (mode : Z) | InsufficientFunds | DustOutput (amount : Z)
| FeeTooLow (provided required : Z) | TxTooLarge | Serialization (e : SerError) | Crypto | DecryptionFailed | PassphraseRequired | PassphraseMismatch | EmptyPassphrase.

(** [ed25519_dalek::SigningKey] *)
Class Signer := {
  SigningKey : Type;
  key_bytes : SigningKey -> bytes;
  key_from_bytes : bytes -> SigningKey;
  verifying_key : SigningKey -> bytes;
  sign : SigningKey -> bytes -> bytes
}.
(** [aes_gcm::Aes256Gcm]: key, nonce and text. *)
Class Aes256Gcm := {
  aes_encrypt : bytes -> bytes -> bytes -> option bytes;
  aes_decrypt : bytes -> bytes -> bytes -> option bytes
}.

(** ** Spending *)

Section Spend.
Context `{Sha2} `{Signer}.
Variable signature_domain : Hash256.
Variable coinbase_maturity : Z.

Record Wallet := { signing_key : SigningKey }.
Definition pubkey (w : Wallet) : bytes := verifying_key (signing_key w).
Definition address (w : Wallet) : Hash256 := pubkey_hash_from_key (pubkey w).

(** The test of both loops over the UTXO set. *)
Definition spendable (w : Wallet) (current_height : Z) (e : UtxoEntry) : bool :=
  bool_decide (script (output e) = address w) &&
  negb (entry_coinbase e && (saturating_sub current_height (entry_height e) <? coinbase_maturity)).
Definition balance (w : Wallet) (utxos : list (OutPoint * UtxoEntry)) (current_height : Z) : Z :=
  fold_left (fun total oe => if spendable w current_height (snd oe) then saturating_add U64_MAX total (value (output (snd oe))) else total) utxos 0.
Definition list_utxos (w : Wallet) (utxos : list (OutPoint * UtxoEntry)) (current_height : Z) : list (OutPoint * Z) :=
  map (fun oe => (fst oe, value (output (snd oe)))) (List.filter (fun oe => spendable w current_height (snd oe)) utxos).

(** Collect until there is enough. *)
Fixpoint select_coins (needed : Z) (coins : list (OutPoint * Z)) (selected : list (OutPoint * Z)) (total : Z) : list (OutPoint * Z) * Z :=
  match coins with
  | [] => (selected, total)
  | (op, v) :: coins =>
      let total := saturating_add U64_MAX total v in
      if needed <=? total then (selected ++ [(op, v)], total) else select_coins needed coins (selected ++ [(op, v)]) total
  end.
(** [sum::<u64>()] *)
Definition sum_u64 (outs : list TxOutput) : Z := fold_left (fun t o => wrap64 (t + value o)) outs 0.
Definition signed (w : Wallet) (message : bytes) : TxWitness := {| witness := pubkey w ++ sign (signing_key w) message; redeemer := None |}.

Definition build_transaction (w : Wallet) (recipient : Hash256) (amount fee : Z) (utxos : list (OutPoint * UtxoEntry)) (current_height : Z)
  : result WalletError Transaction :=
  if amount <? DUST_THRESHOLD then Err (DustOutput amount)
  else
    let? needed := ok_or (checked_add U64_MAX amount fee) InsufficientFunds in
    let (selected, total_selected) := select_coins needed (list_utxos w utxos current_height) [] 0 in
    if total_selected <? needed then Err InsufficientFunds
    else
      let ins := map (fun c => {| prev_tx_id := op_tx_id (fst c); output_index := op_index (fst c) |}) selected in
      let change := total_selected - needed in
      let outs := {| value := amount; script := recipient; datum := None; datum_hash := None |}
                    :: (if DUST_THRESHOLD <=? change then [new_p2pkh change (pubkey w)] else []) in
      let draft := {| inputs := ins; outputs := outs; witnesses := map (fun _ => {| witness := replicate 96 x00; redeemer := None |}) ins |} in
      let? message := map_err Serialization (sig_message signature_domain draft) in
      let tx := {| inputs := ins; outputs := outs; witnesses := map (fun _ => signed w message) (witnesses draft) |} in
      let effective_fee := wrap64 (total_selected - sum_u64 (outputs tx)) in
      let? required_min := ok_or (min_fee signature_domain tx) TxTooLarge in
      if effective_fee <? required_min then Err (FeeTooLow effective_fee required_min)
      else
        let? tx_size := map_err Serialization (serialized_size tx) in
        if MAX_TX_SIZE <? tx_size then Err TxTooLarge else Ok tx.
End Spend.

(** ** Key files *)

Definition WALLET_MAGIC : bytes := [x45; x58; x46; x4b].
Definition WALLET_VERSION : byte := x01.
Definition SALT_LEN : Z := 16.
Definition NONCE_LEN : Z := 12.
Definition KEY_LEN : Z := 32.
Definition CIPHERTEXT_LEN : Z := KEY_LEN + 16.
Definition ENCRYPTED_FILE_LEN : Z := 4 + 1 + SALT_LEN + NONCE_LEN + CIPHERTEXT_LEN.

(** A file with its mode; a directory by names. *)
Record File := { mode : Z; content : bytes }.
Abbreviation Directory := (gmap string File).
(** The calls of [atomic_write] that can fail; how much of the data is written
    when [write_all] fails. *)
Inductive disk_call := AtOpenTemp | AtWriteTemp | AtSyncTemp | AtRename | AtOpenDir | AtSyncDir.
Record Disk := { fails : disk_call -> bool; written : nat; cannot_remove : bool }.

(** The states of the directory after each call, the last one last: where a crash
    can leave it. *)
Definition write_steps (d : Disk) (path tmp : string) (data : bytes) (m : Z) (dir : Directory) : result WalletError unit * list Directory :=
  if bool_decide (is_Some (dir !! tmp)) || fails d AtOpenTemp then (Err WIo, [])
  else
    let opened := <[tmp := {| mode := m; content := [] |}]> dir in
    let partial := <[tmp := {| mode := m; content := take (written d) data |}]> dir in
    if fails d AtWriteTemp then (Err WIo, [opened; partial])
    else
      let full := <[tmp := {| mode := m; content := data |}]> dir in
      if fails d AtSyncTemp || fails d AtRename then (Err WIo, [opened; partial; full])
      else
        let moved := <[path := {| mode := m; content := data |}]> (delete tmp dir) in
        (if fails d AtOpenDir || fails d AtSyncDir then Err WIo else Ok tt, [opened; partial; full; moved]).
(** The temporary file is removed on failure; [None]: the path has no parent. *)
Definition atomic_write (d : Disk) (path : string) (tmp : option string) (data : bytes) (m : Z) (dir : Directory) : result WalletError unit * list Directory :=
  match tmp with
  | None => (Err WIo, [])
  | Some tmp =>
      let (r, states) := write_steps d path tmp data m dir in
      match r with
      | Ok _ => (r, states)
      | Err _ => (r, states ++ [let dir := default dir (last states) in if cannot_remove d then dir else delete tmp dir])
      end
  end.
Definition check_file_permissions (path : string) (dir : Directory) : result WalletError unit :=
  let? f := ok_or (dir !! path) WIo in
  if Z.land (mode f) 63 =? 0 then Ok tt else Err (InsecurePermissions (Z.land (mode f) 511)).
(** [fails]: whether the read fails. *)
Definition read_file (fails : bool) (path : string) (dir : Directory) : result WalletError bytes :=
  if fails then Err WIo else let? f := ok_or (dir !! path) WIo in Ok (content f).

Section KeyFile.
Context `{Signer} `{Aes256Gcm} `{Argon2}.

Definition derive_key (passphrase salt : bytes) : result WalletError bytes := map_err (fun _ => Crypto) (argon2id 262144 3 1 32 passphrase salt).
(** [salt] and [nonce] come from the generator of the system. *)
Definition encrypted_file (w : Wallet) (passphrase salt nonce : bytes) : result WalletError bytes :=
  let? aes_key := derive_key passphrase salt in
  let? ciphertext := ok_or (aes_encrypt aes_key nonce (key_bytes (signing_key w))) Crypto in
  Ok (WALLET_MAGIC ++ [WALLET_VERSION] ++ salt ++ nonce ++ ciphertext).
Definition save_encrypted (d : Disk) (path : string) (tmp : option string) (passphrase salt nonce : bytes) (w : Wallet) (dir : Directory)
  : result WalletError unit * list Directory :=
  match encrypted_file w passphrase salt nonce with
  | Ok buf => atomic_write d path tmp buf 384 dir
  | Err e => (Err e, [])
  end.
Definition save_unencrypted (d : Disk) (path : string) (tmp : option string) (w : Wallet) (dir : Directory) : result WalletError unit * list Directory :=
  atomic_write d path tmp (key_bytes (signing_key w)) 384 dir.
Definition load_encrypted (read_fails : bool) (path : string) (passphrase : bytes) (dir : Directory) : result WalletError Wallet :=
  let? _ := check_file_permissions path dir in
  let? bs := read_file read_fails path dir in
  if negb (len bs =? ENCRYPTED_FILE_LEN) then Err InvalidKeyFile
  else if negb (bool_decide (slice bs 0 4 = WALLET_MAGIC)) then Err InvalidKeyFile
  else
    let version := default x00 (bs !! 4%nat) in
    if negb (bool_decide (version = WALLET_VERSION)) then Err (UnsupportedVersion version)
    else
      let salt := slice bs 5 (5 + SALT_LEN) in
      let nonce := slice bs (5 + SALT_LEN) (5 + SALT_LEN + NONCE_LEN) in
      let ciphertext := slice bs (5 + SALT_LEN + NONCE_LEN) (len bs) in
      let? aes_key := derive_key passphrase salt in
      let? plaintext := ok_or (aes_decrypt aes_key nonce ciphertext) DecryptionFailed in
      if negb (len plaintext =? KEY_LEN) then Err InvalidKeyFile else Ok {| signing_key := key_from_bytes plaintext |}.
Definition has_magic (bs : bytes) : bool := (4 <=? len bs) && bool_decide (slice bs 0 4 = WALLET_MAGIC).
Definition load (read_fails reread_fails : bool) (path : string) (passphrase : option bytes) (dir : Directory) : result WalletError Wallet :=
  let? _ := check_file_permissions path dir in
  let? bs := read_file read_fails path dir in
  if has_magic bs then let? p := ok_or passphrase PassphraseRequired in load_encrypted reread_fails path p dir
  else if negb (len bs =? 32) then Err InvalidKeyFile
  else Ok {| signing_key := key_from_bytes bs |}.
Definition is_encrypted_wallet (read_fails : bool) (path : string) (dir : Directory) : bool :=
  match check_file_permissions path dir with
  | Err _ => false
  | Ok _ => match read_file read_fails path dir with Ok bs => has_magic bs | Err _ => false end
  end.
(** The two entries at the prompt. *)
Definition passphrase_confirmed (pass1 pass2 : bytes) : result WalletError bytes :=
  if negb (bool_decide (pass1 = pass2)) then Err PassphraseMismatch else if bool_decide (pass1 = []) then Err EmptyPassphrase else Ok pass1.
End KeyFile.

(** ** What a node reports about outputs *)

Inductive AuthError :=
| Rpc | MissingTxHex | InvalidHex | Deserialize | TrailingBytes (consumed total : Z) | TxIdMismatch (requested computed : Hash256)
| OutputIndexOutOfBounds (index n_outputs : Z) | ScriptMismatch (expected actual : bytes)
| GenesisDomainMismatch (expected reported : Hash256) | GenesisUnreported (expected : Hash256) | GenesisMalformed (hex : string)
| GenesisRebind (bound checked : Hash256).

Section Auth.
Context `{Sha2}.
Definition authenticate_tx_hex (raw : bytes) (requested_txid : Hash256) (output_index : Z) (expected_script : option bytes) : result AuthError (Z * bytes) :=
  let? (tx, consumed) := map_err (fun _ => Deserialize) (Transaction_deserialize raw) in
  if negb (consumed =? len raw) then Err (TrailingBytes consumed (len raw))
  else
    let? computed := map_err (fun _ => Deserialize) (tx_id tx) in
    if negb (bool_decide (computed = requested_txid)) then Err (TxIdMismatch requested_txid computed)
    else
      let? output := ok_or (outputs tx !! Z.to_nat output_index) (OutputIndexOutOfBounds output_index (len (outputs tx))) in
      match expected_script with
      | Some expected => if negb (bool_decide (script output = expected)) then Err (ScriptMismatch expected (script output)) else Ok (value output, script output)
      | None => Ok (value output, script output)
      end.
End Auth.

(** ** The signature domain of the process *)

Section Domain.
(** The identifiers of the two compiled genesis blocks, and [hex::decode]. *)
Variables (GENESIS_BLOCK_ID devnet_id : Hash256) (hex_decode : string -> option bytes).

(** The set-once cells, the flag and the maturity of [types/mod.rs]. *)
Record Process := { expected_genesis : option Hash256; domain_established : bool; bound_domain : option Hash256; maturity : Z }.
Definition DEVNET_COINBASE_MATURITY : Z := 1.
Definition Process_new : Process := {| expected_genesis := None; domain_established := false; bound_domain := None; maturity := COINBASE_MATURITY |}.

Definition set_expected_genesis (id : Hash256) (p : Process) : result Hash256 unit * Process :=
  match expected_genesis p with
  | Some _ => (Err id, p)
  | None => (Ok tt, {| expected_genesis := Some id; domain_established := domain_established p; bound_domain := bound_domain p; maturity := maturity p |})
  end.
Definition bind_signature_domain (id : Hash256) (p : Process) : result Hash256 unit * Process :=
  match bound_domain p with
  | None => (Ok tt, {| expected_genesis := expected_genesis p; domain_established := domain_established p; bound_domain := Some id; maturity := maturity p |})
  | Some bound => (if bool_decide (bound = id) then Ok tt else Err bound, p)
  end.
Definition signature_domain (p : Process) : Hash256 := default GENESIS_BLOCK_ID (bound_domain p).
Definition set_devnet_coinbase_maturity (p : Process) : Process :=
  {| expected_genesis := expected_genesis p; domain_established := domain_established p; bound_domain := bound_domain p; maturity := DEVNET_COINBASE_MATURITY |}.
Definition enter_devnet (p : Process) : result Hash256 unit * Process :=
  match bind_signature_domain devnet_id p with
  | (Ok _, p) => (Ok tt, set_devnet_coinbase_maturity p)
  | (Err bound, p) => (Err bound, p)
  end.
Definition establish (p : Process) : Process :=
  {| expected_genesis := expected_genesis p; domain_established := true; bound_domain := bound_domain p; maturity := maturity p |}.
(** [response]: the field [genesis_block_id] of the answer, if the call succeeds. *)
Definition ensure_signature_domain (response : option (option string)) (p : Process) : result AuthError unit * Process :=
  if domain_established p then (Ok tt, p)
  else
    let expected := default GENESIS_BLOCK_ID (expected_genesis p) in
    match response with
    | None => (Err Rpc, p)
    | Some None => if bool_decide (expected = GENESIS_BLOCK_ID) then (Ok tt, establish p) else (Err (GenesisUnreported expected), p)
    | Some (Some hex_str) =>
        match hex_decode hex_str with
        | None => (Err (GenesisMalformed hex_str), p)
        | Some reported =>
            if negb (len reported =? 32) then (Err (GenesisMalformed hex_str), p)
            else if negb (bool_decide (reported = expected)) then (Err (GenesisDomainMismatch expected reported), p)
            else
              match (if bool_decide (reported = devnet_id) then enter_devnet p else bind_signature_domain reported p) with
              | (Ok _, p) => (Ok tt, establish p)
              | (Err bound, p) => (Err (GenesisRebind bound reported), p)
              end
        end
    end.
Definition authenticated_output_lookup `{Sha2} (genesis_response : option (option string)) (tx_response : option (option string))
    (requested_txid : Hash256) (output_index : Z) (expected_script : option bytes) (p : Process) : result AuthError (Z * bytes) * Process :=
  match ensure_signature_domain genesis_response p with
  | (Err e, p) => (Err e, p)
  | (Ok _, p) =>
      (let? field := ok_or tx_response Rpc in
       let? hex_str := ok_or field MissingTxHex in
       let? raw := ok_or (hex_decode hex_str) InvalidHex in
       authenticate_tx_hex raw requested_txid output_index expected_script, p)
  end.
End Domain.
