(* ===== verification/WalletFacts.v ===== *)
(** * The wallet spends what it owns

    A transaction the wallet builds is accepted by the rules of [TxValidation.v]
    except where it pays to 32 bytes that also parse as a program or has too many
    inputs for the script budget; its funds are found
    exactly when they are there; key files survive crashes and are read back;
    outputs a node reports are those of the requested transaction; and no node
    can choose the domain in which the wallet signs. *)

From Stdlib Require Import Strings.String.
From S2P Require Import Prelude Bytes Codec Hash Transaction Block U256 Difficulty.
From S2P Require Import ScriptValue ScriptAst ScriptCodec Jets Typecheck ScriptCost Eval FeeCost Utxo TxValidation Wallet.
#[local] Open Scope Z_scope.
#[local] Open Scope list_scope.

(** ** Selecting coins *)

Abbreviation coin_sum := (sum_of (snd : OutPoint * Z -> Z)).
Lemma saturating_sum (f : OutPoint * Z -> Z) coins t : 0 <= t -> Forall (fun c => 0 <= f c) coins ->
  fold_left (fun t c => saturating_add U64_MAX t (f c)) coins (Z.min U64_MAX t) = Z.min U64_MAX (t + sum_of f coins).
Proof.
  intros Ht Hc. revert t Ht. induction Hc as [|c coins Hc _ IH]; intros t Ht; cbn [fold_left]; [change (sum_of f []) with 0; f_equal; lia|].
  rewrite sum_of_cons. unfold saturating_add at 2. replace (Z.min U64_MAX (Z.min U64_MAX t + f c)) with (Z.min U64_MAX (t + f c)) by lia. rewrite IH by lia. f_equal. lia.
Qed.
(** The coins that are taken: a first part of the list, all of it if there is
    never enough, and just enough otherwise. *)
Lemma select_spec needed coins : forall acc t sel tot, Forall (fun c => 0 <= snd c) coins -> 0 <= t -> select_coins needed coins acc (Z.min U64_MAX t) = (sel, tot) ->
  exists k, sel = acc ++ take k coins /\ tot = Z.min U64_MAX (t + coin_sum (take k coins)) /\ (tot < needed -> take k coins = coins).
Proof.
  induction coins as [|[op v] coins IH]; intros acc t sel tot Hc Ht; cbn [select_coins].
  - intros [= <- <-]. exists 0%nat. cbn [take]. change (coin_sum []) with 0. by rewrite app_nil_r, Z.add_0_r.
  - apply Forall_cons in Hc as [Hv Hc]. cbn in Hv. unfold saturating_add. replace (Z.min U64_MAX (Z.min U64_MAX t + v)) with (Z.min U64_MAX (t + v)) by lia.
    destruct (Z.leb_spec needed (Z.min U64_MAX (t + v))) as [Hle|Hgt].
    + intros [= <- <-]. exists 1%nat. change (take 1 ((op, v) :: coins)) with [(op, v)]. assert (coin_sum [(op, v)] = v) as -> by (rewrite sum_of_cons; cbn; unfold sum_of; cbn; lia). split; [done|]. split; [done|]. intros Hlt. lia.
    + intros Hs. apply IH in Hs as (k & -> & -> & Hall); [|done|lia]. exists (S k). cbn [take]. rewrite sum_of_cons. cbn [snd]. split; [by rewrite <- app_assoc|].
      replace (t + (v + coin_sum (take k coins))) with (t + v + coin_sum (take k coins)) by lia. split; [done|]. intros Hlt. by rewrite Hall.
Qed.

Abbreviation amount_of := (fun oe : OutPoint * UtxoEntry => value (output (snd oe))).

(** ** Accepting a signed payment *)

Section Accept.
Context `{Sha2} `{!Sha2Width} `{Ed25519} `{Layout} `{Signer}.
Variable signature_domain : Hash256.
Variable coinbase_maturity : Z.

(** What is documented of [ed25519_dalek]: a signature is accepted by the
    verifying key, which is a strong key. *)
Record signer_ok (w : Wallet) : Prop := {
  so_key : len (pubkey w) = 32;
  so_sig m : len (sign (signing_key w) m) = 64;
  so_strong : is_weak_ed25519_key (pubkey w) = false;
  so_verifies : exists vk, ed_key_from_bytes (pubkey w) = Some vk /\ forall m, ed_verify vk m (sign (signing_key w) m) = true
}.
(** The iteration over a UTXO set: every entry once, amounts within the supply. *)
Record lists (utxos : list (OutPoint * UtxoEntry)) (utxo_get : OutPoint -> option UtxoEntry) : Prop := {
  ls_once : NoDup (map fst utxos);
  ls_get o e : (o, e) ∈ utxos -> utxo_get o = Some e;
  ls_values : Forall (fun oe => in_u64 (value (output (snd oe)))) utxos;
  ls_supply : sum_of (fun oe => value (output (snd oe))) utxos <= U64_MAX
}.

Lemma gather_complete utxo_get h ins es t acc : Forall2 (spends coinbase_maturity utxo_get h) ins es ->
  gather_inputs coinbase_maturity utxo_get h ins t acc = Ok (fold_left (fun t e => add128 t (value (output e))) es t, acc ++ es).
Proof.
  intros Hs. revert t acc. induction Hs as [|i e ins es [Hg Hm] _ IH]; intros t acc; cbn [gather_inputs fold_left]; [by rewrite app_nil_r|].
  rewrite Hg. cbn [ok_or]. unfold mature in Hm. destruct (entry_coinbase e); cbn [andb].
  - rewrite Z.leb_antisym in Hm. apply negb_true_iff in Hm. rewrite Hm, IH, <- app_assoc. done.
  - by rewrite IH, <- app_assoc.
Qed.
Lemma signed_input w e idx message : signer_ok w -> script (output e) = address w -> validate_phase1_input idx (signed w message) (output e) message = Ok tt.
Proof.
  intros [Hk Hsig Hs (vk & Hvk & Hv)] He. unfold validate_phase1_input, signed. cbn [witness redeemer]. rewrite len_app, Hk, Hsig. cbn [negb Z.eqb].
  change (32 + 64 =? 96) with true. cbn [negb]. rewrite bool_decide_false by (by intros []). rewrite slice_app by done. rewrite slice_tail by (rewrite ?Hk, ?Hsig; lia).
  change (pubkey_hash_from_key (pubkey w)) with (address w). rewrite bool_decide_true by done. cbn [negb]. by rewrite Hs, Hvk, Hv.
Qed.
Lemma wallet_address_len w : len (address w) = 32.
Proof. apply sha2_width. Qed.
(** The cost of the scripts of [n] signatures. *)
Definition signature_cost (message : bytes) : Z := PHASE1_SCRIPT_EVAL_COST + div_ceil (len message) 64 * 8.
Lemma signed_spends w message ctx es l idx c : signer_ok w -> Forall (fun e => script (output e) = address w) es -> length l = length es ->
  0 <= div_ceil (len message) 64 * 8 < 2 ^ 64 -> 0 <= c -> c + len es * signature_cost message < 2 ^ 128 ->
  check_spends message ctx idx (zip es (map (fun _ : TxWitness => signed w message) l)) c 0 = Ok (c + len es * signature_cost message, 0).
Proof.
  intros Hw Hes. revert l idx c. induction Hes as [|e es He _ IH]; intros l idx c Hl Hm Hc Hb; [cbn; by rewrite Z.add_0_r|].
  destruct l as [|x l]; [done|]. cbn [map zip zip_with check_spends]. assert (is_phase1_script (script (output e)) = true) as -> by (unfold is_phase1_script; rewrite He, wallet_address_len; done).
  rewrite signed_input by done. rewrite len_cons in *. pose proof (len_nonneg es). unfold signature_cost, PHASE1_SCRIPT_EVAL_COST in *.
  assert (wrap64 (div_ceil (len message) 64 * 8) = div_ceil (len message) 64 * 8) as -> by (apply Z.mod_small; lia).
  assert (0 <= len es * (5000 + div_ceil (len message) 64 * 8)) by (apply Z.mul_nonneg_nonneg; lia).
  rewrite (add128_small 5000) by lia. rewrite add128_small by lia. rewrite IH; [f_equal; f_equal; lia|cbn in Hl; lia|done|lia|lia].
Qed.

(** The rules on a transaction alone, less the one on the scripts of its outputs. *)
Definition field_rules (tx : Transaction) : Prop :=
  inputs tx <> [] /\ outputs tx <> [] /\ len (witnesses tx) = len (inputs tx) /\
  for_enum check_witness_size 0 (witnesses tx) = Ok tt /\ for_enum check_datum_size 0 (outputs tx) = Ok tt /\
  check_tx_size tx = Ok tt /\ check_distinct_inputs tx = Ok tt /\ for_enum check_dust_and_hash 0 (outputs tx) = Ok tt.
(** Everything but the scripts of the outputs and the cost of those of the inputs
    is settled. *)
Lemma validate_complete utxo_get tx h es message ctx sc : field_rules tx -> Forall2 (spends coinbase_maturity utxo_get h) (inputs tx) es ->
  let total := fold_left (fun t e => add128 t (value (output e))) es 0 in
  total <= U64_MAX -> sum_outputs (outputs tx) <= total -> sig_message signature_domain tx = Ok message -> build_script_context signature_domain utxo_get tx h = Ok ctx ->
  check_spends message ctx 0 (zip es (witnesses tx)) 0 0 = Ok (sc, 0) ->
  (forall m, min_fee_with_script_cost tx sc 0 = Some m -> m <= total - sum_outputs (outputs tx)) -> is_Some (min_fee_with_script_cost tx sc 0) ->
  validate_transaction signature_domain coinbase_maturity utxo_get tx h =
    let? _ := for_enum check_output_script 0 (outputs tx) in
    if MAX_TX_SCRIPT_BUDGET <? sc then Err (ScriptEvalFailed (saturating_sub (len (inputs tx)) 1) (SfTxBudget sc)) else Ok (total - sum_outputs (outputs tx), sc, 0).
Proof.
  intros (Hi & Ho & Hw & Hws & Hds & Hsz & Hdi & Hdu) Hsp total Ht Hle Hm Hctx Hc Hfee [m Hmin]. unfold validate_transaction.
  assert ((len (inputs tx) =? 0) = false) as -> by (destruct (inputs tx); [done|rewrite len_cons; pose proof (len_nonneg l); lia]).
  assert ((len (outputs tx) =? 0) = false) as -> by (destruct (outputs tx); [done|rewrite len_cons; pose proof (len_nonneg l); lia]).
  rewrite Hw, Z.eqb_refl. cbn [negb]. rewrite Hws, Hds, Hsz, Hdi. change (fun idx o => let? _ := check_dust idx o in check_datum_hash idx o) with check_dust_and_hash. rewrite Hdu.
  rewrite (gather_complete _ _ _ _ _ _ Hsp). fold total. cbn [app].
  assert ((U64_MAX <? total) || (U64_MAX <? sum_outputs (outputs tx)) = false) as -> by (apply orb_false_iff; lia).
  assert ((total <? sum_outputs (outputs tx)) = false) as -> by lia. destruct (for_enum check_output_script 0 (outputs tx)) as [[]|]; [|done]. rewrite Hm, Hctx. cbn [map_err]. rewrite Hc. destruct (_ <? sc); [done|]. rewrite Hmin. cbn [ok_or].
  assert ((total - sum_outputs (outputs tx) <? m) = false) as -> by (specialize (Hfee m Hmin); lia). done.
Qed.
Lemma context_complete utxo_get h ins es : Forall2 (spends coinbase_maturity utxo_get h) ins es -> forall i, exists l, context_inputs utxo_get i ins = Ok l.
Proof.
  induction 1 as [|x e ins es [Hg _] _ IH]; intros i; cbn [context_inputs]; [by eexists|]. rewrite Hg. cbn [ok_or]. destruct (IH (i + 1)) as [l ->]. by eexists.
Qed.

(** ** What the wallet builds *)

Definition owned (w : Wallet) (utxos : list (OutPoint * UtxoEntry)) (h : Z) : list (OutPoint * UtxoEntry) :=
  List.filter (fun oe => spendable coinbase_maturity w h (snd oe)) utxos.
Lemma owned_spec w utxos h oe : oe ∈ owned w utxos h <-> oe ∈ utxos /\ spendable coinbase_maturity w h (snd oe) = true.
Proof. unfold owned. rewrite !list_elem_of_In. apply List.filter_In. Qed.
Lemma owned_sublist w utxos h : owned w utxos h `sublist_of` utxos.
Proof. unfold owned. induction utxos as [|x l IH]; cbn; [done|]. destruct (spendable _ _ _ _); by constructor. Qed.
Lemma sublist_sum_le {A} (f : A -> Z) l1 l2 : l1 `sublist_of` l2 -> Forall (fun x => 0 <= f x) l2 -> sum_of f l1 <= sum_of f l2.
Proof. induction 1; intros Hf; [done|..]; apply Forall_cons in Hf as [Hx Hf]; rewrite ?sum_of_cons; specialize (IHsublist Hf); lia. Qed.
Definition payments (w : Wallet) (recipient : Hash256) (amount change : Z) : list TxOutput :=
  {| value := amount; script := recipient; datum := None; datum_hash := None |} :: (if DUST_THRESHOLD <=? change then [new_p2pkh change (pubkey w)] else []).

Record built (w : Wallet) (recipient : Hash256) (amount fee : Z) (utxos : list (OutPoint * UtxoEntry)) (h : Z) (tx : Transaction)
    (picked : list (OutPoint * UtxoEntry)) (message : bytes) : Prop := {
  bt_picked : picked `sublist_of` owned w utxos h;
  bt_inputs : inputs tx = map (fun oe => {| prev_tx_id := op_tx_id (fst oe); output_index := op_index (fst oe) |}) picked;
  bt_amount : DUST_THRESHOLD <= amount /\ amount + fee <= sum_of amount_of picked <= U64_MAX;
  bt_outputs : outputs tx = payments w recipient amount (sum_of amount_of picked - (amount + fee));
  bt_witnesses : exists l, witnesses tx = map (fun _ : TxWitness => signed w message) l /\ length l = length picked;
  bt_message : sig_message signature_domain tx = Ok message;
  bt_fee : exists m, min_fee signature_domain tx = Some m /\ m <= sum_of amount_of picked - sum_of value (outputs tx);
  bt_size : exists b, Transaction_serialize tx = Ok b /\ len b <= MAX_TX_SIZE
}.
Lemma payments_sum w recipient amount change : sum_of value (payments w recipient amount change) = amount + (if DUST_THRESHOLD <=? change then change else 0).
Proof. unfold payments. rewrite sum_of_cons. destruct (_ <=? _); [rewrite sum_of_cons|]; unfold sum_of; cbn; lia. Qed.
Lemma payments_u64 w recipient amount change : 0 <= amount -> 0 <= change -> amount + change <= U64_MAX -> sum_u64 (payments w recipient amount change) = sum_of value (payments w recipient amount change).
Proof.
  intros Ha Hc Hb. rewrite payments_sum. unfold sum_u64, payments. cbn [fold_left]. unfold wrap64, U64_MAX in *. cbn [value Z.add]. rewrite (Z.mod_small amount) by lia.
  destruct (_ <=? _); cbn [fold_left]; [|lia]. cbn [new_p2pkh value]. rewrite Z.mod_small by lia. done.
Qed.
(** Selecting from the list of the wallet's coins. *)
Lemma picked_spec w utxos utxo_get h needed sel tot : lists utxos utxo_get -> select_coins needed (list_utxos coinbase_maturity w utxos h) [] 0 = (sel, tot) ->
  exists k, let picked := take k (owned w utxos h) in sel = map (fun oe => (fst oe, amount_of oe)) picked /\ tot = sum_of amount_of picked /\ tot <= U64_MAX /\
    (tot < needed -> picked = owned w utxos h).
Proof.
  intros [_ _ Hv Hs] Hsel. unfold list_utxos in Hsel. fold (owned w utxos h) in Hsel. set (f := fun oe : OutPoint * UtxoEntry => (fst oe, amount_of oe)) in *.
  assert (Forall (fun oe => 0 <= amount_of oe) utxos) as Hpos by (eapply Forall_impl; [exact Hv|by intros ? [? _]]).
  assert (forall k, sum_of amount_of (take k (owned w utxos h)) <= U64_MAX /\ Forall (fun oe => 0 <= amount_of oe) (owned w utxos h)) as Hk.
  { intros k. split; [|apply Forall_forall; intros oe Hin; rewrite Forall_forall in Hpos; apply owned_spec in Hin as [Hin _]; by apply Hpos]. etrans; [apply sublist_sum_le|exact Hs]; [|exact Hpos]. etrans; [apply sublist_take|apply owned_sublist]. }
  change 0 with (Z.min U64_MAX 0) in Hsel. apply select_spec in Hsel as (k & -> & -> & Hall); [|apply Forall_map; eapply Forall_impl; [apply (Hk 0%nat)|done]|done].
  exists k. cbv zeta. change (map f (owned w utxos h)) with (f <$> owned w utxos h) in *. rewrite <- fmap_take in *. change (f <$> take k (owned w utxos h)) with (map f (take k (owned w utxos h))) in *.
  assert (coin_sum (map f (take k (owned w utxos h))) = sum_of amount_of (take k (owned w utxos h))) as Es by (clear; induction (take k _) as [|x l IH]; [done|]; cbn [map]; rewrite !sum_of_cons, IH; done).
  rewrite Es, Z.add_0_l in *. destruct (Hk k) as [Hle _]. rewrite Z.min_r in * by done. split_and!; [done|done|done|]. intros Hlt. specialize (Hall Hlt).
  apply (f_equal length) in Hall. change (f <$> owned w utxos h) with (map f (owned w utxos h)) in Hall. rewrite !length_map, length_take in Hall. apply take_ge. lia.
Qed.
Lemma build_inv w recipient amount fee utxos utxo_get h tx : lists utxos utxo_get -> 0 <= amount -> 0 <= fee ->
  build_transaction signature_domain coinbase_maturity w recipient amount fee utxos h = Ok tx -> exists picked message, built w recipient amount fee utxos h tx picked message.
Proof.
  intros Hl Ha Hf. unfold build_transaction. destruct (Z.ltb_spec amount DUST_THRESHOLD) as [|Hd]; [done|]. unfold checked_add, checked. destruct (_ && _) eqn:Eadd; [|done]. cbn [ok_or].
  destruct (select_coins _ _ _ _) as [sel tot] eqn:Esel. destruct (picked_spec _ _ _ _ _ _ _ Hl Esel) as (k & Es & Et & Hmax & _). set (picked := take k (owned w utxos h)) in *.
  destruct (Z.ltb_spec tot (amount + fee)) as [|Hle]; [done|]. fold (payments w recipient amount (tot - (amount + fee))). set (outs := payments _ _ _ _). set (ins := map _ sel).
  cbv zeta. destruct (sig_message _ _) as [message|] eqn:Em; [|done]. cbn [map_err witnesses outputs]. set (tx' := Build_Transaction _ _ _).
  destruct (min_fee signature_domain tx') as [m|] eqn:Emin; [|done]. cbn [ok_or]. destruct (Z.ltb_spec (wrap64 (tot - sum_u64 outs)) m) as [|Hfee]; [done|].
  unfold serialized_size. destruct (Transaction_serialize tx') as [b|] eqn:Eb; [|done]. cbn [map_err]. destruct (Z.ltb_spec MAX_TX_SIZE (len b)) as [|Hsz]; [done|]. intros [= <-].
  assert (DUST_THRESHOLD = 200) by done. assert (0 <= sum_of value outs <= tot) as Hout.
  { unfold outs. rewrite payments_sum. destruct (DUST_THRESHOLD <=? _); lia. }
  exists picked, message. split.
  - apply sublist_take.
  - unfold tx', ins. cbn [inputs]. rewrite Es, map_map. done.
  - lia.
  - unfold tx', outs. cbn [outputs]. by rewrite Et.
  - exists (map (fun _ => {| witness := replicate 96 x00; redeemer := None |}) ins). split; [done|]. unfold ins. by rewrite Es, !length_map.
  - exact Em.
  - exists m. split; [done|]. cbn [outputs tx']. unfold outs in Hfee at 1. rewrite payments_u64 in Hfee by lia. fold outs in Hfee. rewrite <- Et.
    unfold wrap64 in Hfee. rewrite Z.mod_small in Hfee by (unfold U64_MAX in *; lia). exact Hfee.
  - by exists b.
Qed.

(** ** The rules that do not read the UTXO set *)

Lemma payments_ok w recipient amount change : DUST_THRESHOLD <= amount -> Forall (fun o => DUST_THRESHOLD <= value o /\ datum o = None) (payments w recipient amount change).
Proof. intros Ha. unfold payments. constructor; [done|]. destruct (Z.leb_spec DUST_THRESHOLD change); constructor; [done|constructor]. Qed.
(** Which of the two outputs is refused as both an address and a program. *)
Lemma payments_scripts w recipient amount change : len recipient = 32 ->
  for_enum check_output_script 0 (payments w recipient amount change) =
    if is_ok (deserialize_program recipient) then Err (AmbiguousScript 0)
    else if (DUST_THRESHOLD <=? change) && is_ok (deserialize_program (address w)) then Err (AmbiguousScript 1) else Ok tt.
Proof.
  intros Hl. unfold payments. cbn [for_enum]. unfold check_output_script at 1. unfold is_phase1_script. cbn [script]. rewrite Hl. change (32 =? 32) with true. cbv iota.
  destruct (is_ok (deserialize_program recipient)); [done|]. destruct (_ <=? change); [|done]. cbn [for_enum andb]. unfold check_output_script, is_phase1_script.
  change (script (new_p2pkh change (pubkey w))) with (address w). rewrite wallet_address_len. change (32 =? 32) with true. cbv iota. by destruct (is_ok _).
Qed.
Lemma built_rules w recipient amount fee utxos utxo_get h tx picked message : signer_ok w -> lists utxos utxo_get -> 0 <= fee ->
  built w recipient amount fee utxos h tx picked message -> field_rules tx.
Proof.
  intros Hw Hl Hf [Hsub Hin [Ha Hsum] Hout (l & Hwit & Hlen) Hm (m & Hmin & Hle) (b & Hb & Hsz)]. assert (DUST_THRESHOLD = 200) by done.
  pose proof (payments_ok w recipient amount (sum_of amount_of picked - (amount + fee)) Ha) as Hpay. rewrite <- Hout, Forall_lookup in Hpay.
  assert (picked <> []) as Hne by (intros ->; unfold sum_of in Hsum; cbn in Hsum; lia). unfold field_rules. split_and!.
  - rewrite Hin. by destruct picked.
  - rewrite Hout. done.
  - rewrite Hwit, Hin. unfold len. rewrite !length_map. by rewrite Hlen.
  - apply for_enum_Ok. intros k x Hk. rewrite Hwit in Hk. apply list_lookup_fmap_Some in Hk as (y & -> & _). unfold check_witness_size, signed. cbn [witness redeemer].
    rewrite len_app, (so_key _ Hw), (so_sig _ Hw). done.
  - apply for_enum_Ok. intros k x Hk. destruct (Hpay k x Hk) as (_ & Hd). unfold check_datum_size. by rewrite Hd.
  - unfold check_tx_size. rewrite Hb. cbn [map_err]. by replace (MAX_TX_SIZE <? len b) with false by lia.
  - apply check_distinct_inputs_Ok. rewrite Hin, map_map. assert (map (fun oe => input_outpoint {| prev_tx_id := op_tx_id (fst oe); output_index := op_index (fst oe) |}) picked = map fst picked) as ->.
    { apply map_ext. by intros [[] ?]. }
    eapply sublist_NoDup; [exact (ls_once _ _ Hl)|]. change (map fst) with (fmap (M:=list) (@fst OutPoint UtxoEntry)). apply fmap_sublist. etrans; [exact Hsub|apply owned_sublist].
  - apply for_enum_Ok. intros k x Hk. destruct (Hpay k x Hk) as (Hv & Hd). unfold check_dust_and_hash, check_dust, check_datum_hash. rewrite Hd. by replace (value x <? DUST_THRESHOLD) with false by lia.
Qed.

(** ** The payment at the node *)

Lemma spendable_spends w utxos utxo_get h h' picked : lists utxos utxo_get -> picked `sublist_of` owned w utxos h -> h <= h' ->
  Forall2 (spends coinbase_maturity utxo_get h') (map (fun oe => {| prev_tx_id := op_tx_id (fst oe); output_index := op_index (fst oe) |}) picked) (map snd picked) /\
  Forall (fun e => script (output e) = address w) (map snd picked) /\ Forall (fun e => in_u64 (value (output e))) (map snd picked).
Proof.
  intros Hl Hsub Hh. assert (forall oe, oe ∈ picked -> oe ∈ utxos /\ spendable coinbase_maturity w h (snd oe) = true) as Hp.
  { intros oe Hin. apply owned_spec. by eapply elem_of_sublist. }
  clear Hsub. induction picked as [|[o e] picked IH]; [by repeat constructor|]. destruct IH as (H1' & H2' & H3'); [intros oe Hin; apply Hp; by right|]. destruct (Hp (o, e)) as [Hin Hs]; [left|].
  cbn [snd] in Hs. apply andb_true_iff in Hs as [Ha%bool_decide_eq_true Hm]. cbn [map fst snd]. split; [constructor; [|done]|split; constructor; [done|done| |done]].
  - split; [destruct o; by apply (ls_get _ _ Hl)|]. unfold mature. destruct (entry_coinbase e); [|done]. cbn [andb] in Hm. apply negb_true_iff, Z.ltb_ge in Hm. unfold saturating_sub in *. lia.
  - pose proof (ls_values _ _ Hl) as Hv. rewrite Forall_forall in Hv. exact (Hv _ Hin).
Qed.
Lemma message_short tx b message : hash_wf signature_domain -> Transaction_serialize tx = Ok b -> len b <= MAX_TX_SIZE -> sig_message signature_domain tx = Ok message ->
  0 <= div_ceil (len message) 64 * 8 < 2 ^ 64 /\ 0 <= signature_cost message <= 2 ^ 32.
Proof.
  intros Hd Hb Hsz Hm. apply signing_prefix in Hb as (sg & Hs & Hle). unfold sig_message in Hm. rewrite Hs in Hm. assert (message = DS_SIG ++ signature_domain ++ sg) as -> by congruence. unfold hash_wf in Hd. unfold signature_cost. rewrite !len_app, Hd.
  change (len DS_SIG) with 9. pose proof (len_nonneg sg). unfold PHASE1_SCRIPT_EVAL_COST, MAX_TX_SIZE in *. assert (0 <= div_ceil (9 + (32 + len sg)) 64 <= 2 ^ 20).
  { unfold div_ceil. split; [apply Z.div_pos; lia|]. apply Z.div_le_upper_bound; lia. }
  lia.
Qed.
(** The wallet's estimate of the fee is the one of the rules. *)
Lemma phase1_min_fee tx message : sig_message signature_domain tx = Ok message -> 0 <= div_ceil (len message) 64 * 8 < 2 ^ 64 -> 0 <= len (inputs tx) * signature_cost message < 2 ^ 128 ->
  min_fee signature_domain tx = min_fee_with_script_cost tx (len (inputs tx) * signature_cost message) 0.
Proof.
  intros Hm Hs Hc. unfold min_fee, min_fee_with_script_cost, tx_cost, tx_cost_with_script_cost. rewrite Hm. cbn [ok]. unfold signature_cost, PHASE1_SCRIPT_EVAL_COST in *.
  rewrite (wrap128_small (div_ceil _ _ * 8)) by lia. rewrite (add128_small 5000) by lia. rewrite wrap128_small by lia. done.
Qed.

(** C21: What consensus answers to a transaction the wallet has built from coins of
    the UTXO set, at the height it was built for or later.  The recipient gets the
    amount; the rest goes back to the wallet or, below the dust limit, to the fee,
    which is the one asked for in the first case.  The transaction is accepted
    with that fee and with the cost of its signatures, except in the three cases
    the wallet does not check: the recipient's 32 bytes also parse as a program, or
    the wallet's own address does and there is change (the output is then refused
    as ambiguous), or the signatures exceed the script budget of a transaction. *)
Theorem wallet_spend_exact (w : Wallet) (recipient : Hash256) (amount fee : Z) utxos utxo_get (h h' : Z) (tx : Transaction) :
  signer_ok w -> lists utxos utxo_get -> hash_wf signature_domain -> hash_wf recipient -> 0 <= amount -> 0 <= fee -> h <= h' ->
  build_transaction signature_domain coinbase_maturity w recipient amount fee utxos h = Ok tx ->
  exists message change, sig_message signature_domain tx = Ok message /\ 0 <= change /\ outputs tx = payments w recipient amount change /\
    let cost := len (inputs tx) * signature_cost message in
    validate_transaction signature_domain coinbase_maturity utxo_get tx h' =
      if is_ok (deserialize_program recipient) then Err (AmbiguousScript 0)
      else if (DUST_THRESHOLD <=? change) && is_ok (deserialize_program (address w)) then Err (AmbiguousScript 1)
      else if MAX_TX_SCRIPT_BUDGET <? cost then Err (ScriptEvalFailed (saturating_sub (len (inputs tx)) 1) (SfTxBudget cost))
      else Ok (fee + (if DUST_THRESHOLD <=? change then 0 else change), cost, 0).
Proof.
  intros Hw Hl Hd Hr Ha Hf Hh Hbuild. destruct (build_inv _ _ _ _ _ _ _ _ Hl Ha Hf Hbuild) as (picked & message & Hb).
  pose proof (built_rules _ _ _ _ _ _ _ _ _ _ Hw Hl Hf Hb) as Hst. destruct Hb as [Hsub Hin [Hdust Hsum] Hout (l & Hwit & Hlen) Hm (m & Hmin & Hle) (b & Hser & Hsz)].
  destruct (spendable_spends _ _ _ _ _ _ Hl Hsub Hh) as (Hsp & Hsc & Hval). destruct (message_short _ _ _ Hd Hser Hsz Hm) as [Hms Hcost].
  destruct (check_tx_size_Ok tx) as (_ & _ & _ & Hi & Ho); [apply Hst|]. assert (DUST_THRESHOLD = 200) by done.
  assert (len (map snd picked) = len (inputs tx)) as Hlp by (rewrite Hin; unfold len; by rewrite !length_map).
  assert (sum_outputs (outputs tx) = sum_of value (outputs tx)) as Eo.
  { apply sum_outputs_exact; [|done]. rewrite Hout. unfold payments. constructor; [unfold in_u64; cbn [value]; lia|]. destruct (Z.leb_spec DUST_THRESHOLD (sum_of amount_of picked - (amount + fee))); constructor; [unfold in_u64; cbn [value new_p2pkh]; lia|constructor]. }
  assert (fold_left (fun t e => add128 t (value (output e))) (map snd picked) 0 = sum_of amount_of picked) as Et.
  { rewrite (sum128_exact (fun e => value (output e))); [|done|done|unfold U16_MAX in *; lia]. clear. induction picked as [|x p IH]; [done|]. cbn [map]. rewrite !sum_of_cons. lia. }
  assert (0 <= len (inputs tx) * signature_cost message < 2 ^ 128) as Hc. { pose proof (len_nonneg (inputs tx)). unfold U16_MAX in *. nia. }
  destruct (context_complete utxo_get h' _ _ Hsp 0) as [infos Hctx]. rewrite (phase1_min_fee _ _ Hm Hms Hc) in Hmin.
  set (change := sum_of amount_of picked - (amount + fee)) in *. assert (0 <= change) by (unfold change; lia). exists message, change. split_and!; [done|done|done|]. cbv zeta.
  assert (fee + (if DUST_THRESHOLD <=? change then 0 else change) = sum_of amount_of picked - sum_outputs (outputs tx)) as ->.
  { rewrite Eo, Hout, payments_sum. unfold change. destruct (DUST_THRESHOLD <=? _); lia. }
  rewrite <- Et. erewrite (validate_complete utxo_get tx h'); [|done|by rewrite Hin|rewrite Et; lia|rewrite Et, Eo|exact Hm| | | |by exists m].
  - rewrite Hout, payments_scripts by done. destruct (is_ok (deserialize_program recipient)); [done|]. by destruct (_ && _).
  - rewrite Hout, payments_sum. destruct (DUST_THRESHOLD <=? _); lia.
  - unfold build_script_context. rewrite Hin, Hctx, Hm. cbn [map_err]. reflexivity.
  - rewrite Hwit, signed_spends; [by rewrite Hlp|done|done|by rewrite length_map|done|done|rewrite Hlp; lia].
  - intros m' Hm'. rewrite Hmin in Hm'. injection Hm' as <-. by rewrite Et, Eo.
Qed.
End Accept.

(** ** Funds *)

Section Funds.
Context `{Sha2} `{Signer}.
Variable signature_domain : Hash256.
Variable coinbase_maturity : Z.
Lemma balance_sum w utxos utxo_get h : lists utxos utxo_get -> balance coinbase_maturity w utxos h = sum_of amount_of (owned coinbase_maturity w utxos h).
Proof.
  intros [_ _ Hv Hs]. unfold balance. assert (forall t, 0 <= t -> t + sum_of amount_of utxos <= U64_MAX ->
    fold_left (fun total oe => if spendable coinbase_maturity w h (snd oe) then saturating_add U64_MAX total (value (output (snd oe))) else total) utxos t =
    t + sum_of amount_of (owned coinbase_maturity w utxos h)) as Hgo; [|by rewrite Hgo].
  clear Hs. induction Hv as [|oe utxos [Hv _] Hvs IH]; intros t Ht Hb; cbn [fold_left owned List.filter]; [unfold sum_of; cbn; lia|]. rewrite sum_of_cons in Hb.
  assert (0 <= sum_of amount_of utxos) by (apply sum_of_nonneg; eapply Forall_impl; [exact Hvs|by intros ? [? _]]). fold (owned coinbase_maturity w utxos h).
  destruct (spendable _ _ _ _); [|rewrite IH; [done|done|lia]]. rewrite sum_of_cons. unfold saturating_add. rewrite Z.min_r by lia. rewrite IH by lia. lia.
Qed.

(** A payment above the dust limit fails for lack of funds exactly when the
    balance the wallet shows is below the amount with its fee: the balance can be
    spent, and nothing beyond it. *)
Theorem funds_found (w : Wallet) (recipient : Hash256) (amount fee : Z) utxos utxo_get (h : Z) :
  lists utxos utxo_get -> DUST_THRESHOLD <= amount -> 0 <= fee ->
  build_transaction signature_domain coinbase_maturity w recipient amount fee utxos h = Err InsufficientFunds <-> balance coinbase_maturity w utxos h < amount + fee.
Proof.
  intros Hl Ha Hf. rewrite (balance_sum _ _ _ _ Hl). assert (DUST_THRESHOLD = 200) by done. unfold build_transaction. replace (amount <? DUST_THRESHOLD) with false by lia.
  assert (sum_of amount_of (owned coinbase_maturity w utxos h) <= U64_MAX) as Hmax.
  { etrans; [|exact (ls_supply _ _ Hl)]. apply sublist_sum_le; [apply owned_sublist|]. eapply Forall_impl; [exact (ls_values _ _ Hl)|by intros ? [? _]]. }
  unfold checked_add, checked. destruct (_ && _) eqn:Eadd; cbn [ok_or]; [|split; [intros _; lia|done]].
  destruct (select_coins _ _ _ _) as [sel tot] eqn:Esel. destruct (picked_spec _ _ _ _ _ _ _ _ Hl Esel) as (k & _ & Et & _ & Hall).
  destruct (Z.ltb_spec tot (amount + fee)) as [Hlt|Hge].
  - split; [|done]. intros _. by rewrite <- (Hall Hlt), <- Et.
  - assert (tot <= sum_of amount_of (owned coinbase_maturity w utxos h)) as Hle.
    { rewrite Et. apply sublist_sum_le; [apply sublist_take|]. apply Forall_forall. intros oe [Hin _]%owned_spec. pose proof (ls_values _ _ Hl) as Hv. rewrite Forall_forall in Hv. apply (Hv _ Hin). }
    split; [|lia]. cbv zeta. destruct (map_err _ _) as [m|e] eqn:Em; [|intros [= ->]; by destruct (sig_message _ _)]. destruct (ok_or _ _) as [q|e] eqn:Eq; [|intros [= ->]; by destruct (min_fee _ _)].
    destruct (_ <? q); [done|]. destruct (map_err Serialization (serialized_size _)) as [z|e] eqn:Ez; [|intros [= ->]; by destruct (serialized_size _)]. by destruct (MAX_TX_SIZE <? z).
Qed.
End Funds.

(** ** Key files *)

(** A key file is never half written.  At every point where a crash can
    interrupt the writing, and whatever call fails, the file under its name is
    the old one or the complete new one, with its mode; no other file but the
    temporary one is touched; and success means that the new file is there and
    the temporary one is not. *)
Theorem key_file_atomic (d : Disk) (path tmp : string) (data : bytes) (m : Z) (dir : gmap string File) : tmp <> path ->
  let '(r, states) := atomic_write d path (Some tmp) data m dir in
  Forall (fun s => (s !! path = dir !! path \/ s !! path = Some {| mode := m; content := data |}) /\ forall n, n <> path -> n <> tmp -> s !! n = dir !! n) states /\
  (r = Ok tt -> exists s, last states = Some s /\ s !! path = Some {| mode := m; content := data |} /\ s !! tmp = None).
Proof.
  intros Hne. unfold atomic_write, write_steps. set (good := fun s : gmap string File => (s !! path = dir !! path \/ _) /\ _).
  assert (good dir) as G0 by (split; [by left|done]).
  assert (forall f, good (<[tmp := f]> dir)) as G1 by (intros f; split; [left; by rewrite lookup_insert_ne|intros n _ Hn; by rewrite lookup_insert_ne]).
  assert (forall s, good s -> good (delete tmp s)) as G2 by (intros s [Hp Ho]; split; [by rewrite lookup_delete_ne|intros n Hn Ht; rewrite lookup_delete_ne by done; by apply Ho]).
  assert (good (<[path := {| mode := m; content := data |}]> (delete tmp dir))) as G3.
  { split; [right; by rewrite lookup_insert_eq|]. intros n Hn Ht. by rewrite lookup_insert_ne, lookup_delete_ne. }
  assert (forall s, good s -> good (if cannot_remove d then s else delete tmp s)) as G4 by (intros s Hs; destruct (cannot_remove d); auto).
  assert (forall ss, Forall good ss -> Forall good (ss ++ [let dir := default dir (last ss) in if cannot_remove d then dir else delete tmp dir])) as G5.
  { intros ss Hss. apply Forall_app. split; [done|]. apply Forall_singleton, G4. destruct (last ss) as [s|] eqn:El; [|done]. rewrite Forall_forall in Hss. by apply Hss, last_Some_elem_of. }
  destruct (_ || _); [split; [by apply G5, Forall_nil|done]|]. destruct (fails d AtWriteTemp); [split; [apply G5; by rewrite !Forall_cons|done]|].
  destruct (_ || _); [split; [apply G5; by rewrite !Forall_cons|done]|]. destruct (_ || _); [split; [apply G5; by rewrite !Forall_cons|done]|].
  split; [by rewrite !Forall_cons|]. intros _. eexists. split; [done|]. by rewrite lookup_insert_eq, lookup_insert_ne, lookup_delete_eq.
Qed.

Section KeyFiles.
Context `{Signer} `{Aes256Gcm} `{Argon2}.
(** What is documented of the two libraries: a key is 32 bytes, a ciphertext
    carries a tag of 16 bytes and is decrypted to the text. *)
Hypothesis key_length : forall k, len (key_bytes k) = 32.
Hypothesis key_restored : forall k, key_from_bytes (key_bytes k) = k.
Hypothesis tagged : forall k n p c, aes_encrypt k n p = Some c -> len c = len p + 16 /\ aes_decrypt k n c = Some p.

Lemma written_readable (dir : gmap string File) path data : dir !! path = Some {| mode := 384; content := data |} ->
  check_file_permissions path dir = Ok tt /\ read_file false path dir = Ok data.
Proof. intros Hf. unfold check_file_permissions, read_file. by rewrite Hf. Qed.
Lemma written_last d path tmp data m (dir dir' : gmap string File) states : atomic_write d path tmp data m dir = (Ok tt, states) -> last states = Some dir' ->
  dir' !! path = Some {| mode := m; content := data |}.
Proof.
  unfold atomic_write. destruct tmp as [tmp|]; [|done]. unfold write_steps. destruct (_ || _); [done|]. destruct (fails d AtWriteTemp); [done|]. destruct (_ || _); [done|].
  destruct (_ || _); [done|]. intros [= <-] [= <-]. apply lookup_insert_eq.
Qed.
Lemma wallet_eta (w : Wallet) : {| signing_key := signing_key w |} = w.
Proof. by destruct w. Qed.

(** C24: A key that was saved encrypted is read back with its passphrase, and not
    without one; and a key that was saved plain is read back too, unless it
    happens to start with the four bytes that mark an encrypted file: then it
    cannot be loaded again. *)
Theorem key_file_roundtrip (w : Wallet) (d : Disk) (path : string) (tmp : option string) (passphrase salt nonce : bytes) (dir dir' : gmap string File) states :
  len salt = SALT_LEN -> len nonce = NONCE_LEN -> last states = Some dir' ->
  (save_encrypted d path tmp passphrase salt nonce w dir = (Ok tt, states) ->
     load false false path (Some passphrase) dir' = Ok w /\ load false false path None dir' = Err PassphraseRequired /\ is_encrypted_wallet false path dir' = true) /\
  (save_unencrypted d path tmp w dir = (Ok tt, states) ->
     load false false path (Some passphrase) dir' = if has_magic (key_bytes (signing_key w)) then Err InvalidKeyFile else Ok w).
Proof.
  intros Hs Hn Hlast. split.
  - unfold save_encrypted. destruct (encrypted_file _ _ _ _) as [buf|] eqn:Hb; [|done]. intros Hsv. pose proof (written_last _ _ _ _ _ _ _ _ Hsv Hlast) as Hf. clear Hsv. destruct (written_readable _ _ _ Hf) as [Hp Hr]. unfold encrypted_file in Hb. destruct (derive_key passphrase salt) as [key|] eqn:Ek; [|done].
    destruct (aes_encrypt _ _ _) as [ct|] eqn:Ec; [|done]. cbn [ok_or] in Hb. apply tagged in Ec as [Hct Hdec]. rewrite key_length in Hct.
    assert (buf = WALLET_MAGIC ++ [WALLET_VERSION] ++ salt ++ nonce ++ ct) as Ebuf by congruence. clear Hb.
    assert (len buf = ENCRYPTED_FILE_LEN) as Hlen by (rewrite Ebuf, !len_app, Hs, Hn, Hct; done).
    assert (slice buf 0 4 = WALLET_MAGIC) as Hmag by (rewrite Ebuf; by apply slice_app).
    assert (has_magic buf = true) as Hm by (unfold has_magic; rewrite Hlen, Hmag, bool_decide_true by done; done).
    unfold is_encrypted_wallet, load. rewrite Hp, Hr, Hm. cbn [ok_or]. split; [|done]. unfold load_encrypted. rewrite Hp, Hr, Hlen, Hmag. cbn [negb Z.eqb].
    change (ENCRYPTED_FILE_LEN =? ENCRYPTED_FILE_LEN) with true. rewrite bool_decide_true by done. cbn [negb].
    assert (buf !! 4%nat = Some WALLET_VERSION) as -> by (by rewrite Ebuf). cbn [default from_option id]. rewrite bool_decide_true by done. cbn [negb].
    assert (slice buf 5 (5 + SALT_LEN) = salt /\ slice buf (5 + SALT_LEN) (5 + SALT_LEN + NONCE_LEN) = nonce /\ slice buf (5 + SALT_LEN + NONCE_LEN) ENCRYPTED_FILE_LEN = ct) as (-> & -> & ->).
    { rewrite Ebuf. unfold SALT_LEN, NONCE_LEN in *. split_and!.
      - change (WALLET_MAGIC ++ [WALLET_VERSION] ++ salt ++ nonce ++ ct) with ((WALLET_MAGIC ++ [WALLET_VERSION]) ++ salt ++ nonce ++ ct). apply slice_mid; [done|by rewrite Hs].
      - rewrite app_assoc, app_assoc. apply slice_mid; rewrite !len_app, Hs, ?Hn; done.
      - rewrite app_assoc, app_assoc, app_assoc. apply slice_tail; rewrite !len_app, Hs, Hn, ?Hct; done. }
    rewrite Ek, Hdec. cbn [ok_or]. rewrite key_length. cbn. by rewrite key_restored, wallet_eta.
  - intros Hsv. pose proof (written_last _ _ _ _ _ _ _ _ Hsv Hlast) as Hf. destruct (written_readable _ _ _ Hf) as [Hp Hr]. unfold load. rewrite Hp, Hr. destruct (has_magic _) eqn:Em; cbn [ok_or].
    + unfold load_encrypted. by rewrite Hp, Hr, key_length.
    + rewrite key_length. cbn. by rewrite key_restored, wallet_eta.
Qed.
End KeyFiles.

(** ** Reported outputs *)

(** C23: What the wallet believes about an output is true of the transaction with
    the requested identifier, whatever the node answered: unless two preimages of
    the transaction hash collide, value and script are those of that output of
    every transaction with this identifier, and the script is the expected one. *)
Theorem output_authentic `{Sha2} (raw : bytes) (txid : Hash256) (index : Z) (expected : option bytes) (v : Z) (s : bytes) (tx : Transaction) :
  authenticate_tx_hex raw txid index expected = Ok (v, s) -> Transaction_wf tx -> tx_id tx = Ok txid ->
  (forall tx' b b', Transaction_deserialize raw = Ok (tx', len raw) -> signing_bytes tx = Ok b -> signing_bytes tx' = Ok b' ->
     collision_free [domain_preimage DS_TX b'] [domain_preimage DS_TX b]) ->
  (exists o, outputs tx !! Z.to_nat index = Some o /\ v = value o /\ s = script o) /\ (forall e, expected = Some e -> s = e).
Proof.
  unfold authenticate_tx_hex. intros Ha Hwf Hid Hcf. destruct (Transaction_deserialize raw) as [[tx' n]|] eqn:Ed; [|done]. cbn [map_err] in Ha.
  destruct (negb (n =? len raw)) eqn:En; [done|]. apply negb_false_iff, Z.eqb_eq in En as ->. destruct (tx_id tx') as [computed|] eqn:Ei; [|done]. cbn [map_err] in Ha. destruct (negb (bool_decide _)) eqn:Eb; [done|].
  apply negb_false_iff, bool_decide_eq_true in Eb as ->. pose proof Ed as Ed'. apply codec_decodes in Ed' as (Hwf' & _).
  assert (outputs tx' = outputs tx) as Eo.
  { unfold tx_id in Hid, Ei. destruct (signing_bytes tx) as [b|] eqn:E1; [|done]. destruct (signing_bytes tx') as [b'|] eqn:E2; [|done].
    eapply (tx_id_commits_to_body tx' tx); [by apply Transaction_body_wf..|exact E2|exact E1|by apply (Hcf tx')| |]; unfold tx_id; rewrite ?E1, ?E2; done. }
  rewrite <- Eo. destruct (outputs tx' !! Z.to_nat index) as [o|]; [|done]. cbn [ok_or] in Ha. destruct expected as [e|].
  - destruct (negb _) eqn:Es; [done|]. apply negb_false_iff, bool_decide_eq_true in Es. injection Ha as <- <-. split; [by exists o|]. by intros ? [= <-].
  - injection Ha as <- <-. split; [by exists o|done].
Qed.
(** An honest answer is believed. *)
Lemma honest_output_believed `{Sha2} tx raw txid index o : Transaction_wf tx -> Transaction_serialize tx = Ok raw -> tx_id tx = Ok txid -> outputs tx !! Z.to_nat index = Some o ->
  authenticate_tx_hex raw txid index (Some (script o)) = Ok (value o, script o).
Proof.
  intros Hwf Hs Hid Ho. unfold authenticate_tx_hex. destruct (codec_encodes _ Hwf) as (b & Hb & Hd). rewrite Hs in Hb. injection Hb as <-. specialize (Hd []). rewrite app_nil_r in Hd.
  rewrite Hd. cbn [map_err]. rewrite Z.eqb_refl, Hid. cbn [negb map_err]. rewrite bool_decide_true by done. cbn [negb]. rewrite Ho. cbn [ok_or]. by rewrite bool_decide_true.
Qed.

(** ** The signature domain *)

Section Domains.
Variables (GENESIS_BLOCK_ID devnet_id : Hash256) (hex_decode : string -> option bytes).
Hypothesis distinct_chains : GENESIS_BLOCK_ID <> devnet_id.
Abbreviation ensure := (ensure_signature_domain GENESIS_BLOCK_ID devnet_id hex_decode).
Abbreviation domain_of := (signature_domain GENESIS_BLOCK_ID).
(** A process whose operator may have named a chain. *)
Definition configured (named : option Hash256) : Process := match named with Some id => snd (set_expected_genesis id Process_new) | None => Process_new end.
Definition after (named : option Hash256) (responses : list (option (option string))) : Process := fold_left (fun p r => snd (ensure r p)) responses (configured named).
Definition wanted (named : option Hash256) : Hash256 := default GENESIS_BLOCK_ID named.
Definition maturity_of (id : Hash256) : Z := if bool_decide (id = devnet_id) then DEVNET_COINBASE_MATURITY else COINBASE_MATURITY.

(** Before the domain is established nothing is bound; afterwards it is the
    wanted one. *)
Definition domain_ok (named : option Hash256) (p : Process) : Prop :=
  expected_genesis p = named /\
  if domain_established p then domain_of p = wanted named /\ maturity p = maturity_of (wanted named)
  else bound_domain p = None /\ maturity p = COINBASE_MATURITY.
Lemma ensure_step named r p : domain_ok named p -> domain_ok named (snd (ensure r p)) /\ (fst (ensure r p) = Ok tt <-> domain_established (snd (ensure r p)) = true).
Proof.
  intros [He Hd]. unfold ensure_signature_domain. rewrite He. change (default GENESIS_BLOCK_ID named) with (wanted named). unfold domain_ok. destruct (domain_established p) eqn:Es; [cbn [fst snd]; by rewrite Es|].
  destruct Hd as [Hb Hm]. destruct r as [[hex|]|]; [|case_bool_decide as Ew|]; cbn [fst snd]; rewrite ?Es; [|cbn; unfold signature_domain; cbn|done..].
  2: { split; [|done]. split; [done|]. split; [by rewrite Hb|]. rewrite Hm. unfold maturity_of. rewrite bool_decide_false; [done|congruence]. }
  destruct (hex_decode hex) as [reported|]; [|cbn [fst snd]; by rewrite Es]. destruct (negb (len _ =? 32)); [cbn [fst snd]; by rewrite Es|].
  destruct (negb (bool_decide (reported = _))) eqn:Er; [cbn [fst snd]; by rewrite Es|].
  apply negb_false_iff, bool_decide_eq_true in Er as ->. unfold enter_devnet, bind_signature_domain, maturity_of. rewrite Hb. case_bool_decide as Edev; cbn; unfold signature_domain; cbn; [|done].
  by rewrite Edev.
Qed.

(** C22: No node chooses the domain in which the wallet signs.  Whatever nodes
    report, in whatever order and however often the check is repeated, it
    succeeds only when the domain is the chain the operator named, or the
    compiled one, with the coinbase maturity of that chain; before that nothing
    is bound, and afterwards nothing changes any more. *)
Theorem domain_trusted (named : option Hash256) (responses more : list (option (option string))) (r : option (option string)) :
  let p := after named responses in
  (fst (ensure r p) = Ok tt -> domain_of (snd (ensure r p)) = wanted named /\ maturity (snd (ensure r p)) = maturity_of (wanted named)) /\
  (domain_established p = false -> bound_domain p = None /\ domain_of p = GENESIS_BLOCK_ID) /\
  (domain_established p = true -> after named (responses ++ more) = p).
Proof.
  cbv zeta. assert (domain_ok named (after named responses)) as Hp.
  { unfold after. assert (domain_ok named (configured named)) as H0 by (by destruct named). revert H0. generalize (configured named). induction responses as [|x l IH]; intros p Hp; [done|].
    cbn [fold_left]. apply IH. by apply ensure_step. }
  split; [|split].
  - intros Hok. destruct (ensure_step named r _ Hp) as [[_ Hd] Hiff]. apply Hiff in Hok. by rewrite Hok in Hd.
  - intros Hn. destruct Hp as [_ Hd]. rewrite Hn in Hd. destruct Hd as [Hb _]. unfold signature_domain. by rewrite Hb.
  - intros Hy. unfold after. rewrite fold_left_app. fold (after named responses). set (p := after named responses) in *. clearbody p. induction more as [|x l IH]; [done|]. cbn [fold_left].
    unfold ensure_signature_domain at 2. by rewrite Hy.
Qed.
End Domains.
