(* ===== verification/WalletWitness.v ===== *)
(** * A wallet at work

    Toy cryptography instantiates the parameters: the theorems of
    [WalletFacts.v] apply to a payment, to key files and to what a node reports. *)

From Stdlib Require Import Strings.String.
From S2P Require Import Prelude Bytes Codec Hash Transaction Block U256 Difficulty.
From S2P Require Import ScriptValue ScriptAst ScriptCodec Jets Typecheck ScriptCost Eval FeeCost Utxo TxValidation Wallet WalletFacts.
#[local] Open Scope Z_scope.
#[local] Open Scope list_scope.

Section Toys.
#[local] Instance sha : Sha2 := toy_digest.
#[local] Instance sha_width : Sha2Width := toy_digest_width.
#[local] Existing Instance toy_ed25519.
#[local] Existing Instance toy_layout.
(** Keys are their 32 bytes, cut or filled up. *)
Definition fit (n : nat) (b : bytes) : bytes := take n (b ++ replicate n x00).
Lemma fit_len n b : length (fit n b) = n.
Proof. unfold fit. rewrite length_take, length_app, length_replicate. lia. Qed.
Lemma fit_same n b : length b = n -> fit n b = b.
Proof. intros <-. unfold fit. by rewrite take_app_length. Qed.
Record Key := { secret : bytes; secret_len : length secret = 32%nat }.
#[local] Instance toy_signer : Signer := {|
  SigningKey := Key; key_bytes := secret; key_from_bytes := fun b => {| secret := fit 32 b; secret_len := fit_len 32 b |};
  verifying_key := secret; sign := fun _ _ => replicate 64 x00 |}.
(** The text, with the key as its tag. *)
#[local] Instance toy_aes : Aes256Gcm := {|
  aes_encrypt := fun k _ p => Some (p ++ fit 16 k);
  aes_decrypt := fun k _ c => if bool_decide (drop (length c - 16) c = fit 16 k) then Some (take (length c - 16) c) else None |}.
#[local] Instance toy_kdf : Argon2 := fun _ _ _ _ p s => Ok (fit 32 (p ++ s)).

Definition purse : Wallet := {| signing_key := {| secret := replicate 32 x07; secret_len := eq_refl |} |}.
Lemma purse_ok : signer_ok purse.
Proof. split; [reflexivity|reflexivity|reflexivity|]. exists tt. split; [reflexivity|]. intros m. reflexivity. Qed.

(** ** A payment from two coins, one of them immature *)

Definition coin (v h : Z) (base : bool) : UtxoEntry :=
  {| output := {| value := v; script := address purse; datum := None; datum_hash := None |}; entry_height := h; entry_coinbase := base |}.
Definition at_index (n : Z) : OutPoint := {| op_tx_id := replicate 32 x02; op_index := n |}.
Definition coins : list (OutPoint * UtxoEntry) := [(at_index 0, coin 50000 390 true); (at_index 1, coin 100000 5 true); (at_index 2, coin 20000 399 false)].
Definition lookup_coin (o : OutPoint) : option UtxoEntry := list_to_map (M:=gmap OutPoint UtxoEntry) coins !! o.
Lemma coins_listed : lists coins lookup_coin.
Proof.
  assert (NoDup (map fst coins)) as Hnd by (apply (bool_decide_unpack _); vm_compute; exact I). split; [exact Hnd| |repeat constructor; vm_compute; discriminate|vm_compute; discriminate].
  intros o e Hin. apply elem_of_list_to_map_1; [exact Hnd|exact Hin].
Qed.
Definition shop : Hash256 := replicate 32 x09.
Definition payment_of (amount fee : Z) : result WalletError Transaction := build_transaction sample_domain 360 purse shop amount fee coins 400.
Example payment_built : match payment_of 105000 200 with Ok tx => Some (length (inputs tx), map value (outputs tx)) | Err _ => None end = Some (2%nat, [105000; 14800]).
Proof. vm_compute. reflexivity. Qed.
Lemma wallet_spend_exact_witness : exists tx paid cost, payment_of 105000 200 = Ok tx /\ 200 <= paid /\
  validate_transaction sample_domain 360 lookup_coin tx 401 = Ok (paid, cost, 0).
Proof.
  pose proof payment_built as Hb. destruct (payment_of 105000 200) as [tx|] eqn:E; [|discriminate Hb].
  destruct (wallet_spend_exact sample_domain 360 purse shop 105000 200 coins lookup_coin 400 401 tx purse_ok coins_listed) as (message & change & Hm & Hp & _ & Hv);
    [reflexivity|reflexivity|discriminate|discriminate|discriminate|exact E|].
  exists tx, (200 + if DUST_THRESHOLD <=? change then 0 else change), (len (inputs tx) * signature_cost message). split; [reflexivity|]. split; [destruct (_ <=? _); lia|]. cbv zeta in Hv. rewrite Hv.
  replace (is_ok (deserialize_program shop)) with false by (vm_compute; reflexivity). replace (is_ok (deserialize_program (address purse))) with false by (vm_compute; reflexivity). rewrite andb_false_r.
  replace (MAX_TX_SCRIPT_BUDGET <? _) with false; [reflexivity|]. vm_compute in E. injection E as <-. vm_compute in Hm. injection Hm as <-. vm_compute. reflexivity.
Defined.
(** An address whose 32 bytes are also a program: the wallet pays to it, and
    consensus refuses the payment. *)
Definition two_faced : Hash256 := serialize_program {| nodes := [CConst (VBytes (replicate 14 x01))]; root := 0 |}.
Example ambiguous_recipient : len two_faced = 32 /\
  match build_transaction sample_domain 360 purse two_faced 105000 200 coins 400 with
  | Ok tx => validate_transaction sample_domain 360 lookup_coin tx 401 = Err (AmbiguousScript 0)
  | Err _ => False
  end.
Proof. vm_compute. split; reflexivity. Qed.
Lemma funds_found_witness : payment_of 120000 1 = Err InsufficientFunds.
Proof.
  apply (funds_found sample_domain 360 purse shop 120000 1 coins lookup_coin 400 coins_listed); [discriminate|discriminate|vm_compute; reflexivity].
Defined.

(** ** Files *)

Definition sound_disk : Disk := {| fails := fun _ => false; written := 10; cannot_remove := false |}.
Definition full_disk : Disk := {| fails := fun c => match c with AtWriteTemp => true | _ => false end; written := 10; cannot_remove := true |}.
Definition old_dir : gmap string File := {[ "wallet.key" := {| mode := 384; content := [x01] |} ]}.
Lemma key_file_atomic_witness : Forall (fun s => s !! "wallet.key" = Some {| mode := 384; content := [x01] |} \/ s !! "wallet.key" = Some {| mode := 384; content := replicate 32 x07 |})
  (snd (atomic_write full_disk "wallet.key" (Some "tmp") (replicate 32 x07) 384 old_dir)).
Proof.
  pose proof (key_file_atomic full_disk "wallet.key" "tmp" (replicate 32 x07) 384 old_dir ltac:(discriminate)) as Ha. destruct (atomic_write _ _ _ _ _ _) as [r states]. destruct Ha as [Ha _].
  eapply Forall_impl; [exact Ha|]. intros s [Hs _]. exact Hs.
Defined.
Lemma toy_key_length k : len (key_bytes k) = 32.
Proof. unfold len. cbn. by rewrite (secret_len k). Qed.
Lemma toy_key_restored k : key_from_bytes (key_bytes k) = k.
Proof. destruct k as [b Hb]. cbn. assert (forall p, Build_Key (fit 32 b) p = Build_Key b Hb) as ->; [|done]. rewrite (fit_same 32 b Hb). intros p. f_equal. apply (proof_irrel p Hb). Qed.
Lemma toy_tagged k n p c : aes_encrypt k n p = Some c -> len c = len p + 16 /\ aes_decrypt k n c = Some p.
Proof.
  intros [= <-]. cbn. unfold len. rewrite length_app, fit_len. split; [lia|]. replace (length p + 16 - 16)%nat with (length p) by lia. by rewrite drop_app_length, take_app_length, bool_decide_true.
Qed.
Definition saved : result WalletError unit * list (gmap string File) :=
  save_encrypted sound_disk "wallet.key" (Some "tmp") [x70] (replicate 16 x01) (replicate 12 x02) purse old_dir.
Lemma key_file_roundtrip_witness : exists states dir, saved = (Ok tt, states) /\ last states = Some dir /\ load false false "wallet.key" (Some [x70]) dir = Ok purse.
Proof.
  assert (fst saved = Ok tt /\ is_Some (last (snd saved))) as [Hr [dir Hl]] by (vm_compute; eauto). destruct saved as [r states] eqn:Es. cbn [fst snd] in *. subst r. exists states, dir.
  split; [reflexivity|]. split; [exact Hl|].
  destruct (key_file_roundtrip toy_key_length toy_key_restored toy_tagged purse sound_disk "wallet.key" (Some "tmp") [x70] (replicate 16 x01) (replicate 12 x02) old_dir dir states
    eq_refl eq_refl Hl) as [He _]. exact (proj1 (He Es)).
Defined.
(** A plain key that looks like an encrypted file is lost. *)
Definition unlucky : Wallet := {| signing_key := {| secret := WALLET_MAGIC ++ replicate 28 x07; secret_len := eq_refl |} |}.
Example unlucky_key_lost : match last (snd (save_unencrypted sound_disk "wallet.key" (Some "tmp") unlucky old_dir)) with
  | Some dir => load false false "wallet.key" (Some [x70]) dir = Err InvalidKeyFile | None => False end.
Proof. vm_compute. reflexivity. Qed.

(** ** Reports *)

Definition reported_raw : bytes := match Transaction_serialize sample_tx with Ok b => b | Err _ => [] end.
Definition reported_id : Hash256 := match tx_id sample_tx with Ok id => id | Err _ => [] end.
Lemma output_authentic_witness : exists o, outputs sample_tx !! 1%nat = Some o /\ 700 = value o /\ [x01; x02; x03] = script o.
Proof.
  apply (output_authentic reported_raw reported_id 1 (Some [x01; x02; x03]) 700 [x01; x02; x03] sample_tx).
  - vm_compute. reflexivity.
  - crush_closed.
  - vm_compute. reflexivity.
  - intros tx' b b' Hd Hb Hb'. assert (tx' = sample_tx) as -> by (vm_compute in Hd; injection Hd as <-; vm_compute; reflexivity).
    rewrite Hb in Hb'. injection Hb' as <-. intros x y Hx%list_elem_of_singleton Hy%list_elem_of_singleton _. by rewrite Hx, Hy.
Defined.
Definition no_hex (s : string) : option bytes := Some (list_byte_of_string s).
Definition devnet : Hash256 := list_byte_of_string "devnet--devnet--devnet--devnet--".
Lemma domain_trusted_witness : signature_domain zero32 (after zero32 devnet no_hex (Some devnet) [Some None; Some (Some "other"); Some (Some "devnet--devnet--devnet--devnet--")]) = devnet.
Proof.
  destruct (domain_trusted zero32 devnet no_hex ltac:(discriminate) (Some devnet) [Some None; Some (Some "other")] [] (Some (Some "devnet--devnet--devnet--devnet--"))) as [Hd _].
  apply Hd. vm_compute. reflexivity.
Defined.
End Toys.
