(* ===== verification/Framing.v ===== *)
(** * Frames on a connection ([src/network/peer.rs])

    After the handshake every message travels in a frame: a counter of eight
    bytes, the serialised message, and sixteen bytes of an HMAC over both, under
    a key for each direction.  A [Feed] is what the transport delivers: bytes with
    the time at which they become readable, the end of the stream, or a fault;
    [clock] is the time a reading task has reached.  A read waits for the next
    piece and gives up at a deadline.  HMAC-SHA256 is the parameter [Hmac].
    Error texts are left out, except for the two that [reader_recv] looks for. *)

From Stdlib Require Import Strings.String.
From S2P Require Import Prelude Bytes Codec Hash Transaction Block Wire FeeCost PeerRegistry Reader.
#[local] Open Scope Z_scope.
#[local] Open Scope list_scope.

Definition DS_MAC_IR : bytes := list_byte_of_string "EXFER-MAC-IR".
Definition DS_MAC_RI : bytes := list_byte_of_string "EXFER-MAC-RI".
Definition HMAC_TAG_SIZE : nat := 16.
Definition COUNTER_DEADLINE : Z := 5 * NANOS.
Definition POLL_TIMEOUT : Z := 1 * NANOS.
Definition FRAME_READ_TIMEOUT : Z := 10 * NANOS.
Definition EAGER_ALLOC_LIMIT : Z := 32768.
Definition READ_CHUNK_SIZE : Z := 32768.
Definition CHUNK_READ_TIMEOUT : Z := 5 * NANOS.
Definition FRAME_HEADER_SIZE : Z := 5.

(** ** The transport *)

(** [std::io::ErrorKind], the kinds the code tells apart. *)
Inductive ErrorKind :=
| TimedOut | KUnexpectedEof | ConnectionReset | ConnectionAborted | BrokenPipe | Interrupted | WriteZero | NotConnected | KInvalidData | KOther.
(** [std::io::Error]: by one of the two texts, or by its kind. *)
Inductive IoError := HmacText | BudgetText | Kind (k : ErrorKind).

Inductive piece := PByte (b : byte) | PClosed | PFault (k : ErrorKind).
(** [progress] is [PeerSharedState::bytes_read]. *)
Record Feed := { clock : Z; pieces : list (Z * piece); progress : Z }.

(** The outcome of a read: [Late] when its deadline has passed. *)
Inductive got (A : Type) := Got (a : A) | Late | Broken (e : IoError).
Arguments Got {A} a.
Arguments Late {A}.
Arguments Broken {A} e.
Definition io (A : Type) : Type := Feed -> got A * Feed.
#[export] Instance io_ret : MRet io := fun A a f => (Got a, f).
#[export] Instance io_bind : MBind io := fun A B k c f =>
  match c f with (Got a, f) => k a f | (Late, f) => (Late, f) | (Broken e, f) => (Broken e, f) end.
Definition broken {A} (e : IoError) : io A := fun f => (Broken e, f).

Definition at_time (f : Feed) (now : Z) (ps : list (Z * piece)) : Feed := {| clock := now; pieces := ps; progress := progress f |}.
(** [bytes_read.fetch_add(n, Ordering::Relaxed)] *)
Definition advance (n : Z) : io unit := fun f => (Got tt, {| clock := clock f; pieces := pieces f; progress := wrap64 (progress f + n) |}).

(** The next piece, if it comes by [deadline]. *)
Definition wait (deadline : Z) (f : Feed) : option (Z * piece) :=
  match pieces f with
  | (t, p) :: _ => if deadline <? Z.max (clock f) t then None else Some (Z.max (clock f) t, p)
  | [] => None
  end.
(** [read_u8] *)
Definition read_u8 (deadline : Z) : io byte := fun f =>
  match wait deadline f with
  | Some (now, PByte b) => (Got b, at_time f now (tail (pieces f)))
  | Some (now, PClosed) => (Broken (Kind KUnexpectedEof), at_time f now (pieces f))
  | Some (now, PFault k) => (Broken (Kind k), at_time f now (pieces f))
  | None => (Late, at_time f deadline (pieces f))
  end.
Fixpoint read_exact (n : nat) (deadline : Z) : io bytes :=
  match n with
  | O => mret []
  | S n => b ← read_u8 deadline; bs ← read_exact n deadline; mret (b :: bs)
  end.
Definition read_u32_le (deadline : Z) : io Z := bs ← read_exact 4 deadline; mret (le_val bs).
Definition read_u64_le (deadline : Z) : io Z := bs ← read_exact 8 deadline; mret (le_val bs).

(** At most [n] of the bytes that are readable at [now]. *)
Fixpoint readable (n : nat) (now : Z) (ps : list (Z * piece)) : bytes * list (Z * piece) :=
  match n, ps with
  | S n, (t, PByte b) :: rest => if now <? t then ([], ps) else let (bs, rest) := readable n now rest in (b :: bs, rest)
  | _, _ => ([], ps)
  end.
(** [poll_read]: it waits until something can be read; nothing read is the end
    of the stream. *)
Definition poll_read (n : nat) (deadline : Z) : io bytes := fun f =>
  match wait deadline f with
  | Some (now, PByte _) => let (bs, rest) := readable n now (pieces f) in (Got bs, at_time f now rest)
  | Some (now, PClosed) => (Got [], at_time f now (pieces f))
  | Some (now, PFault k) => (Broken (Kind k), at_time f now (pieces f))
  | None => (Late, at_time f deadline (pieces f))
  end.

(** [timeout(dur, ..)] within a read that has a deadline itself: [None] when this
    one passes first. *)
Definition timeout {A} (dur : Z) (c : Z -> io A) (deadline : Z) : io (option A) := fun f =>
  let inner := clock f + dur in
  match c (Z.min inner deadline) f with
  | (Got a, f) => (Got (Some a), f)
  | (Late, f) => if inner <=? deadline then (Got None, f) else (Late, f)
  | (Broken e, f) => (Broken e, f)
  end.

(** ** Authentication *)

(** [Hmac<Sha256>]: key and message. *)
Class Hmac := hmac_sha256 : bytes -> bytes -> bytes.
Class HmacWidth `{Hmac} := hmac_width : forall key data, len (hmac_sha256 key data) = 32.

Definition derive_directional_keys `{Sha2} (session_key : bytes) : bytes * bytes :=
  (sha2_digest (DS_MAC_IR ++ session_key), sha2_digest (DS_MAC_RI ++ session_key)).

Definition compute_frame_hmac `{Hmac} (session_key : bytes) (counter : Z) (frame : bytes) : bytes :=
  take HMAC_TAG_SIZE (hmac_sha256 session_key (le_bytes 8 counter ++ frame)).

Definition verify_frame_hmac `{Hmac} (session_key : bytes) (counter : Z) (frame received_tag : bytes) : bool :=
  let expected := compute_frame_hmac session_key counter frame in
  fold_left (fun diff '(a, b) => Z.lor diff (Z.lxor (byte_Z a) (byte_Z b))) (zip expected received_tag) 0 =? 0.

(** ** Reading a frame *)

Definition peak_prever_bytes (payload_len : Z) : Z := saturating_add U64_MAX (saturating_mul U64_MAX payload_len 2) FRAME_HEADER_SIZE.

Definition max_payload (msg_type : byte) (allow_heavy : bool) : Z :=
  match msg_type with
  | x01 => HELLO_V4_PAYLOAD_SIZE
  | x02 | x03 | x13 => 0
  | x10 => MAX_BLOCK_SIZE
  | x12 => MAX_BLOCK_SIZE
  | x16 => 0
  | x17 => 4 + MAX_ADDR_ITEMS * 26
  | x18 => 64
  | x20 => MAX_TX_SIZE
  | x11 | x15 => 4 + MAX_GETBLOCKS_ITEMS * 32
  | x14 => 72
  | x21 => 12
  | x22 => if allow_heavy then 4 + MAX_GETBLOCKS_ITEMS * HEADER_SIZE else 0
  | _ => 0
  end.

(** [while remaining > 0]; [fuel] is a bound on the number of chunks. *)
Fixpoint chunks (fuel : nat) (remaining : Z) (report : bool) (deadline : Z) (payload : bytes) : io bytes :=
  match fuel with
  | O => mret payload
  | S fuel =>
      if 0 <? remaining then
        let chunk_size := Z.min remaining READ_CHUNK_SIZE in
        c ← timeout CHUNK_READ_TIMEOUT (read_exact (Z.to_nat chunk_size)) deadline;
        match c with
        | None => broken (Kind TimedOut)
        | Some bs =>
            _ ← (if report then advance chunk_size else mret tt);
            chunks fuel (remaining - chunk_size) report deadline (payload ++ bs)
        end
      else mret payload
  end.
Definition read_payload_chunked (total : Z) (report : bool) (deadline : Z) : io bytes :=
  chunks (Z.to_nat (total / READ_CHUNK_SIZE + 1)) total report deadline [].

Section Frames.
Context `{Hmac}.

(** [frame_budget]: what [try_reserve] answers to a request, if there is a budget. *)
Definition read_message_after_type (msg_type : byte) (allow_heavy : bool) (session_key : bytes) (counter : Z) (report : bool)
    (frame_budget : option (Z -> bool)) (deadline : Z) : io Message :=
  payload_len ← read_u32_le deadline;
  if MAX_MESSAGE_SIZE <? payload_len then broken (Kind KInvalidData)
  else if max_payload msg_type allow_heavy <? payload_len then broken (Kind KInvalidData)
  else if from_option (fun grants => negb (grants (peak_prever_bytes payload_len))) false frame_budget then broken BudgetText
  else
    payload ← (if payload_len <=? EAGER_ALLOC_LIMIT then read_exact (Z.to_nat payload_len) deadline
               else read_payload_chunked payload_len report deadline);
    received_tag ← read_exact HMAC_TAG_SIZE deadline;
    let full := msg_type :: le_bytes 4 payload_len ++ payload in
    if negb (verify_frame_hmac session_key counter full received_tag) then broken HmacText
    else match Message_deserialize full with
         | Ok (msg, _) => mret msg
         | Err _ => broken (Kind KInvalidData)
         end.
Definition read_message (allow_heavy : bool) (session_key : bytes) (counter : Z) (report : bool) (frame_budget : option (Z -> bool)) (deadline : Z) : io Message :=
  msg_type ← read_u8 deadline;
  read_message_after_type msg_type allow_heavy session_key counter report frame_budget deadline.
Definition read_message_with_counter (allow_heavy : bool) (session_key : bytes) (report : bool) (frame_budget : option (Z -> bool)) (deadline : Z) : io (Message * Z) :=
  c ← timeout (5 * NANOS) read_u64_le deadline;
  match c with
  | None => broken (Kind TimedOut)
  | Some counter => msg ← read_message allow_heavy session_key counter report frame_budget deadline; mret (msg, counter)
  end.

(** The four ways in which a failed read is judged. *)
Definition judge_error (e : IoError) : PeerError :=
  match e with
  | HmacText => HmacFailure
  | BudgetText => FrameBudgetExceeded
  | Kind TimedOut => SlowPeerTimeout
  | Kind (KUnexpectedEof | ConnectionReset | ConnectionAborted | BrokenPipe | Interrupted | WriteZero | NotConnected) => TransportIo
  | Kind KInvalidData => MalformedFrame
  | Kind KOther => TransportIo
  end.

(** The read half of a connection; [counter_buf] is the part of the buffer that
    is filled. *)
Record ReaderState := { recv_key : bytes; recv_counter : Z; counter_buf : bytes; counter_started : option Z; feed : Feed }.
Definition with_feed (st : ReaderState) (f : Feed) : ReaderState :=
  {| recv_key := recv_key st; recv_counter := recv_counter st; counter_buf := counter_buf st; counter_started := counter_started st; feed := f |}.
Definition with_buf (st : ReaderState) (buf : bytes) (started : option Z) (f : Feed) : ReaderState :=
  {| recv_key := recv_key st; recv_counter := recv_counter st; counter_buf := buf; counter_started := started; feed := f |}.

(** The loop that fills the counter: [Ok false] is a second without data.  Every
    round adds a byte, so eight rounds are enough. *)
Fixpoint fill_counter (fuel : nat) (had_partial : bool) (st : ReaderState) : result PeerError bool * ReaderState :=
  match fuel with
  | O => (Ok true, st)
  | S fuel =>
      if len (counter_buf st) <? 8 then
        match poll_read (8 - length (counter_buf st)) (clock (feed st) + POLL_TIMEOUT) (feed st) with
        | (Got [], f) => (Err Io, with_feed st f)
        | (Got bs, f) =>
            let f := snd (advance (len bs) f) in
            fill_counter fuel had_partial
              (with_buf st (counter_buf st ++ bs) (Some (default (clock f) (counter_started st))) f)
        | (Broken _, f) => (Err Io, with_feed st f)
        | (Late, f) =>
            if negb had_partial && (len (counter_buf st) =? 0) then (Ok false, with_feed st f)
            else (Err SlowPeerTimeout, with_feed st f)
        end
      else (Ok true, st)
  end.

(** The counter of a frame must not be one that was accepted before. *)
Definition accept_counter (st : ReaderState) (counter : Z) (msg : Message) : result PeerError Message * ReaderState :=
  if counter <? recv_counter st then (Err SlowPeer, st)
  else match checked_add U64_MAX counter 1 with
       | None => (Err Io, st)
       | Some next =>
           (Ok msg, {| recv_key := recv_key st; recv_counter := next; counter_buf := counter_buf st; counter_started := counter_started st; feed := feed st |})
       end.

Definition reader_recv (frame_budget : option (Z -> bool)) (st : ReaderState) : incoming * ReaderState :=
  let had_partial := 0 <? len (counter_buf st) in
  if had_partial && from_option (fun started => COUNTER_DEADLINE <=? clock (feed st) - started) false (counter_started st)
  then (Err SlowPeerTimeout, with_buf st [] None (feed st))
  else
    match fill_counter 8 had_partial st with
    | (Err e, st) => (Err e, st)
    | (Ok false, st) => (Ok None, st)
    | (Ok true, st) =>
        let counter := le_val (counter_buf st) in
        let st := with_buf st [] None (feed st) in
        match read_message true (recv_key st) counter true frame_budget (clock (feed st) + FRAME_READ_TIMEOUT) (feed st) with
        | (Broken e, f) => (Err (judge_error e), with_feed st f)
        | (Late, f) => (Err SlowPeerTimeout, with_feed st f)
        | (Got msg, f) =>
            match accept_counter (with_feed st f) counter msg with
            | (Ok msg, st) => (Ok (Some msg), st)
            | (Err e, st) => (Err e, st)
            end
        end
    end.

(** [Peer::recv_with_timeout], on the connection before it is split. *)
Definition recv_with_timeout (dur : Z) (st : ReaderState) : result PeerError Message * ReaderState :=
  match read_message_with_counter true (recv_key st) false None (clock (feed st) + dur) (feed st) with
  | (Late, f) => (Err Io, with_feed st f)
  | (Broken e, f) => (Err (judge_error e), with_feed st f)
  | (Got (msg, counter), f) => accept_counter (with_feed st f) counter msg
  end.

(** ** Writing frames *)

(** The write half; [wire] is what has gone out. *)
Record WriterState := { send_key : bytes; send_counter : Z; wire : bytes }.

(** [outcome]: all of the frame is written, or the write fails or times out after
    some bytes. *)
Definition write_framed_message (outcome : option nat) (msg : Message) (w : WriterState) : result PeerError unit * WriterState :=
  match Message_serialize msg with
  | Err _ => (Err SerializationError, w)
  | Ok frame =>
      let counter := send_counter w in
      match checked_add U64_MAX counter 1 with
      | None => (Err Io, w)
      | Some next =>
          let tag := compute_frame_hmac (send_key w) counter frame in
          let buf := le_bytes 8 counter ++ frame ++ tag in
          match outcome with
          | None => (Ok tt, {| send_key := send_key w; send_counter := next; wire := wire w ++ buf |})
          | Some n => (Err Io, {| send_key := send_key w; send_counter := next; wire := wire w ++ take n buf |})
          end
      end
  end.

Inductive WriterControl := SendPong | SendPing.
Definition control_message (c : WriterControl) : Message := match c with SendPong => MPong | SendPing => MPing end.

(** One round of the writer: the flag it reads, the control messages waiting and
    whether that channel is still open, and what [select!] gives. *)
Inductive pick := PickControl (c : option WriterControl) | PickNormal (m : option Message).
Record Round := { shutdown : bool; waiting : list WriterControl; control_open : bool; picked : pick }.

Fixpoint write_all (writes : Z -> option nat) (ms : list Message) (w : WriterState) : result PeerError unit * WriterState :=
  match ms with
  | [] => (Ok tt, w)
  | m :: ms =>
      match write_framed_message (writes (send_counter w)) m w with
      | (Ok _, w) => write_all writes ms w
      | (Err e, w) => (Err e, w)
      end
  end.
(** The rounds of the loop; [None] when it is still running after all of them. *)
Fixpoint writer_task (writes : Z -> option nat) (rounds : list Round) (w : WriterState) : option (result PeerError unit) * WriterState :=
  match rounds with
  | [] => (None, w)
  | r :: rounds =>
      if shutdown r then (Some (Ok tt), w)
      else
        match write_all writes (map control_message (waiting r)) w with
        | (Err e, w) => (Some (Err e), w)
        | (Ok _, w) =>
            if negb (control_open r) then (Some (Ok tt), w)
            else
              let next := match picked r with PickControl c => option_map control_message c | PickNormal m => m end in
              match next with
              | None => (Some (Ok tt), w)
              | Some m =>
                  match write_framed_message (writes (send_counter w)) m w with
                  | (Ok _, w) => writer_task writes rounds w
                  | (Err e, w) => (Some (Err e), w)
                  end
              end
        end
  end.
End Frames.
