(* ===== verification/FramingFacts.v ===== *)
(** * What frames carry

    Reading is shown to be exact on both sides: bytes that arrive in time are the
    ones that are read, and whatever is read was in the feed.  A session of
    [reader_recv] then delivers what a writer of the same key has sent, and only
    that, in order and at most once. *)

From Stdlib Require Import Strings.String.
From S2P Require Import Prelude Bytes Codec Hash Transaction Block Wire FeeCost PeerRegistry Reader Framing.
#[local] Open Scope Z_scope.
#[local] Open Scope list_scope.

(** ** Tags *)

Lemma lxor_bytes a b : Z.lxor (byte_Z a) (byte_Z b) = 0 <-> a = b.
Proof. rewrite Z.lxor_eq_0_iff. split; [apply byte_Z_inj|by intros ->]. Qed.
Lemma tag_fold xs d : 0 <= d -> fold_left (fun diff '(a, b) => Z.lor diff (Z.lxor (byte_Z a) (byte_Z b))) xs d = 0 <-> d = 0 /\ Forall (fun ab => fst ab = snd ab) xs.
Proof.
  revert d. induction xs as [|[a b] xs IH]; intros d Hd; cbn [fold_left]; [split; [by intros ->|by intros [-> _]]|].
  assert (0 <= Z.lxor (byte_Z a) (byte_Z b)) by (apply Z.lxor_nonneg; pose proof (byte_Z_range a); pose proof (byte_Z_range b); lia).
  rewrite IH by (apply Z.lor_nonneg; lia). rewrite Z.lor_eq_0_iff, lxor_bytes, Forall_cons. cbn [fst snd]. tauto.
Qed.
Lemma zip_equal (a b : bytes) : length a = length b -> Forall (fun ab => fst ab = snd ab) (zip a b) <-> a = b.
Proof.
  revert b. induction a as [|x a IH]; intros [|y b] Hl; try discriminate Hl; cbn; [done|]. injection Hl as Hl.
  rewrite Forall_cons, IH by done. cbn. split; [intros [-> ->]|intros [= -> ->]]; done.
Qed.

Section Tags.
Context `{Hmac} `{!HmacWidth}.
Lemma frame_hmac_length k c f : length (compute_frame_hmac k c f) = HMAC_TAG_SIZE.
Proof. unfold compute_frame_hmac. rewrite length_take. pose proof (hmac_width k (le_bytes 8 c ++ f)) as Hw. unfold len in Hw. unfold HMAC_TAG_SIZE. lia. Qed.
(** The comparison of all bytes at once is equality. *)
Lemma verify_frame_hmac_spec k c f tag : length tag = HMAC_TAG_SIZE -> verify_frame_hmac k c f tag = true <-> tag = compute_frame_hmac k c f.
Proof.
  intros Ht. unfold verify_frame_hmac. rewrite Z.eqb_eq, tag_fold by done. rewrite zip_equal by (by rewrite frame_hmac_length).
  split; [by intros [_ ->]|by intros ->].
Qed.
End Tags.

(** ** Bytes that come in time *)

(** The pieces are these bytes, all readable by [e]. *)
Definition delivers (e : Z) : list (Z * piece) -> bytes -> Prop := Forall2 (fun p b => snd p = PByte b /\ fst p <= e).

(** [f] once [rest] is what is left at the time [now], by [e] at the latest. *)
Definition reads_to {A} (c : io A) (e : Z) (f : Feed) (a : A) (rest : list (Z * piece)) : Prop :=
  exists f', c f = (Got a, f') /\ clock f <= clock f' <= e /\ pieces f' = rest.

Lemma reads_to_bind {A B} (c : io A) (k : A -> io B) e f a b mid rest :
  reads_to c e f a mid -> (forall f', clock f <= clock f' <= e -> pieces f' = mid -> reads_to (k a) e f' b rest) -> reads_to (c ≫= k) e f b rest.
Proof.
  intros (f1 & E1 & Hc1 & Hp1) Hk. destruct (Hk f1 Hc1 Hp1) as (f2 & E2 & Hc2 & Hp2).
  exists f2. unfold mbind, io_bind. rewrite E1. split_and!; [done|lia|lia|done].
Qed.
Lemma reads_to_ret {A} (a : A) e f rest : clock f <= e -> pieces f = rest -> reads_to (mret a) e f a rest.
Proof. intros Hc Hp. exists f. split_and!; [done|lia|done|done]. Qed.

Lemma read_u8_to d e f t b rest : clock f <= e -> e <= d -> pieces f = (t, PByte b) :: rest -> t <= e -> reads_to (read_u8 d) e f b rest.
Proof.
  intros Hc Hd Hp Ht. eexists. unfold read_u8, wait. rewrite Hp. rewrite (proj2 (Z.ltb_ge _ _)) by lia. split; [done|]. cbn. split; [lia|done].
Qed.
Lemma read_exact_to d e f n ps bs rest : delivers e ps bs -> clock f <= e -> e <= d -> pieces f = ps ++ rest -> length bs = n ->
  reads_to (read_exact n d) e f bs rest.
Proof.
  intros Hd Hc He Hp <-. revert f Hc Hp. induction Hd as [|[t p] b ps bs [Hb Ht] _ IH]; intros f Hc Hp; cbn [length read_exact].
  - by apply reads_to_ret.
  - cbn in Hb, Ht. subst p. eapply reads_to_bind; [by eapply read_u8_to|]. intros f1 Hc1 Hp1.
    eapply reads_to_bind; [apply IH; [lia|exact Hp1]|]. intros f2 Hc2 Hp2. apply reads_to_ret; [lia|done].
Qed.
Lemma read_u32_to d e f ps n rest : delivers e ps (le_bytes 4 n) -> clock f <= e -> e <= d -> pieces f = ps ++ rest -> in_u32 n ->
  reads_to (read_u32_le d) e f n rest.
Proof.
  intros Hd Hc He Hp Hn. unfold read_u32_le. assert (length (le_bytes 4 n) = 4%nat) as Hl by (pose proof (len_le_bytes 4 n); unfold len in *; lia).
  eapply reads_to_bind; [by eapply read_exact_to|]. intros f1 Hc1 Hp1. rewrite le_val_bytes by (unfold in_u32, U32_MAX in Hn; simpl; lia).
  apply reads_to_ret; [lia|done].
Qed.
Lemma advance_to n e f : clock f <= e -> reads_to (advance n) e f tt (pieces f).
Proof. intros Hc. eexists. split; [done|]. cbn. split; [lia|done]. Qed.

Lemma delivers_app e ps bs1 bs2 : delivers e ps (bs1 ++ bs2) -> exists ps1 ps2, ps = ps1 ++ ps2 /\ delivers e ps1 bs1 /\ delivers e ps2 bs2.
Proof. intros (ps1 & ps2 & H1 & H2 & ->)%Forall2_app_inv_r. by exists ps1, ps2. Qed.
Lemma delivers_le e e' ps bs : delivers e ps bs -> e <= e' -> delivers e' ps bs.
Proof. intros Hd He. eapply Forall2_impl; [exact Hd|]. intros p b [? ?]. split; [done|lia]. Qed.

(** A timeout that leaves enough time does not change what is read. *)
Lemma timeout_to {A} dur (c : Z -> io A) d e f a rest :
  (forall d', e <= d' -> reads_to (c d') e f a rest) -> e <= clock f + dur -> e <= d -> reads_to (timeout dur c d) e f (Some a) rest.
Proof.
  intros Hc Hdur Hd. destruct (Hc (Z.min (clock f + dur) d)) as (f' & E & Hf'); [lia|]. exists f'. unfold timeout. by rewrite E.
Qed.

Lemma chunks_to fuel report d e acc remaining f ps bs rest :
  delivers e ps bs -> len bs = remaining -> remaining <= Z.of_nat fuel * READ_CHUNK_SIZE -> clock f <= e -> e <= d -> e <= clock f + CHUNK_READ_TIMEOUT ->
  pieces f = ps ++ rest -> reads_to (chunks fuel remaining report d acc) e f (acc ++ bs) rest.
Proof.
  revert acc remaining f ps bs. induction fuel as [|fuel IH]; intros acc remaining f ps bs Hd Hlen Hfuel Hc He Hch Hp; cbn [chunks].
  - assert (bs = []) as -> by (apply len_0; pose proof (len_nonneg bs); lia). inversion Hd; subst. rewrite app_nil_r. by apply reads_to_ret.
  - destruct (Z.ltb_spec 0 remaining) as [Hr|Hr].
    + destruct (split_len bs (Z.min remaining READ_CHUNK_SIZE)) as (b1 & b2 & -> & Hb1); [unfold READ_CHUNK_SIZE; lia|].
      apply delivers_app in Hd as (p1 & p2 & -> & Hd1 & Hd2). rewrite <- app_assoc in Hp. rewrite len_app in Hlen.
      eapply reads_to_bind.
      { apply timeout_to; [intros d' Hd'; eapply read_exact_to; [exact Hd1|done|done|exact Hp|unfold len in Hb1; lia]|done|done]. }
      intros f1 Hc1 Hp1. cbn. apply (reads_to_bind _ _ e f1 tt _ (p2 ++ rest)).
      { destruct report; [rewrite <- Hp1; apply advance_to; lia|apply reads_to_ret; [lia|done]]. }
      intros f2 Hc2 Hp2. rewrite (app_assoc acc). apply (IH _ _ _ p2); [done|lia|unfold READ_CHUNK_SIZE in *; lia|lia|done|lia|done].
    + assert (bs = []) as -> by (apply len_0; pose proof (len_nonneg bs); lia). inversion Hd; subst. rewrite app_nil_r. by apply reads_to_ret.
Qed.
Lemma read_payload_to report d e f ps bs rest :
  delivers e ps bs -> clock f <= e -> e <= d -> e <= clock f + CHUNK_READ_TIMEOUT -> pieces f = ps ++ rest ->
  reads_to (if len bs <=? EAGER_ALLOC_LIMIT then read_exact (Z.to_nat (len bs)) d else read_payload_chunked (len bs) report d) e f bs rest.
Proof.
  intros Hd Hc He Hch Hp. destruct (_ <=? _).
  - eapply read_exact_to; [done..|]. by rewrite to_nat_len.
  - unfold read_payload_chunked. rewrite <- (app_nil_l bs) at 3. eapply chunks_to; [done|done| |done..].
    pose proof (len_nonneg bs). unfold READ_CHUNK_SIZE. pose proof (Z.div_mod (len bs) 32768 ltac:(lia)). pose proof (Z.mod_pos_bound (len bs) 32768 ltac:(lia)).
    assert (0 <= len bs / 32768) by (apply Z.div_pos; lia). rewrite Z2Nat.id by lia. lia.
Qed.

(** ** One frame *)

Section Frame.
Context `{Hmac} `{!HmacWidth}.

(** What the size table asks of blocks and transactions. *)
Definition fits (m : Message) : Prop := forall t p, message_payload m = Ok (t, p) -> len p <= max_payload t true.
Definition sendable (m : Message) : Prop := Message_wf m /\ fits m.
(** A frame on the wire. *)
Definition framed (key : bytes) (counter : Z) (frame : bytes) : bytes := le_bytes 8 counter ++ frame ++ compute_frame_hmac key counter frame.

Lemma sendable_frame m : sendable m -> exists t p, Message_serialize m = Ok (t :: le_bytes 4 (len p) ++ p) /\ len p <= MAX_MESSAGE_SIZE /\
  len p <= max_payload t true /\ Message_deserialize (t :: le_bytes 4 (len p) ++ p) = Ok (m, 5 + len p).
Proof.
  intros [Hwf Hfit]. destruct (proj1 message_codec_correct m Hwf) as (b & Eb & Hd). destruct Hwf as [Hparts Hmax].
  destruct (payload_encodes m Hparts) as (t & p & Ep & _). pose proof Eb as Eb'. unfold Message_serialize in Eb. rewrite Ep in Eb. injection Eb as <-.
  exists t, p. specialize (Hd []). rewrite app_nil_r in Hd. rewrite Hd. split_and!; [done|by eapply Hmax|by eapply Hfit|]. f_equal. f_equal. len_lia.
Qed.

Lemma read_message_to key c m t p d e f ps rest grants :
  Message_deserialize (t :: le_bytes 4 (len p) ++ p) = Ok (m, 5 + len p) -> len p <= MAX_MESSAGE_SIZE -> len p <= max_payload t true ->
  (forall n, from_option (fun g => negb (g n)) false grants = false) ->
  delivers e ps ((t :: le_bytes 4 (len p) ++ p) ++ compute_frame_hmac key c (t :: le_bytes 4 (len p) ++ p)) ->
  clock f <= e -> e <= d -> e <= clock f + CHUNK_READ_TIMEOUT -> pieces f = ps ++ rest ->
  reads_to (read_message true key c true grants d) e f m rest.
Proof.
  intros Hm Hmax Hfit Hg Hd Hc He Hch Hp. set (tag := compute_frame_hmac key c _) in *. rewrite <- app_comm_cons, <- app_assoc in Hd.
  change (t :: le_bytes 4 (len p) ++ p ++ tag) with ([t] ++ le_bytes 4 (len p) ++ p ++ tag) in Hd.
  apply delivers_app in Hd as (p1 & q1 & -> & Hd1 & Hd). apply delivers_app in Hd as (p2 & q2 & -> & Hd2 & Hd).
  apply delivers_app in Hd as (p3 & p4 & -> & Hd3 & Hd4). rewrite <- !app_assoc in Hp.
  inversion Hd1 as [|[t0 q] ? ? ? [Hq Ht0] Hnil]; subst. inversion Hnil; subst. cbn in Hq, Ht0. subst q.
  eapply reads_to_bind; [by eapply read_u8_to|]. intros f1 Hc1 Hp1.
  eapply reads_to_bind; [eapply read_u32_to; [exact Hd2|lia|lia|exact Hp1|]|].
  { pose proof (len_nonneg p). unfold in_u32, U32_MAX, MAX_MESSAGE_SIZE in *. lia. }
  intros f2 Hc2 Hp2. cbn beta. rewrite !(proj2 (Z.ltb_ge _ _)) by lia. rewrite Hg.
  eapply reads_to_bind; [eapply read_payload_to; [exact Hd3|lia|lia|lia|exact Hp2]|]. intros f3 Hc3 Hp3.
  eapply reads_to_bind; [eapply read_exact_to; [exact Hd4|lia|lia|exact Hp3|apply frame_hmac_length]|]. intros f4 Hc4 Hp4.
  cbv beta zeta. rewrite (proj2 (verify_frame_hmac_spec key c _ tag (frame_hmac_length _ _ _))) by done. cbn [negb]. rewrite Hm.
  apply reads_to_ret; [lia|done].
Qed.
End Frame.

(** ** The size table *)

Lemma len_concat {A} (enc : A -> bytes) (xs : list A) size : (forall x, x ∈ xs -> len (enc x) = size) -> len (concat (map enc xs)) = len xs * size.
Proof.
  induction xs as [|x xs IH]; intros Hs; [done|]. cbn [map concat]. rewrite len_app, len_cons, (Hs x), IH by set_solver. lia.
Qed.
(** The size table admits every well-formed message, and blocks and transactions
    within the limits of consensus. *)
Lemma wf_sendable m : Message_wf m ->
  match m with
  | MNewBlock b | MBlockResponse b => forall p, Block_serialize b = Ok p -> len p <= MAX_BLOCK_SIZE
  | MNewTx tx => forall p, Transaction_serialize tx = Ok p -> len p <= MAX_TX_SIZE
  | _ => True
  end -> sendable m.
Proof.
  intros Hwf Hsize. split; [done|]. intros t p Ep. destruct Hwf as [Hparts _].
  assert (forall hs : list Hash256, Forall hash_wf hs -> len hs <= MAX_GETBLOCKS_ITEMS -> len (serialize_hash_list hs) <= 4 + MAX_GETBLOCKS_ITEMS * 32) as Hlist.
  { intros hs Hh Hn. unfold serialize_hash_list. pose proof (len_concat (fun h => h) hs 32 (proj1 (Forall_forall _ _) Hh)) as Hc.
    rewrite map_id in Hc. rewrite len_app, Hc, len_le_bytes. lia. }
  destruct m as [h|a| | |b|hs|b| |tr|hs|tx|g|hs| |es]; cbn [message_payload parts_wf] in *.
  1:{ injection Ep as <- <-. destruct Hparts as (_ & ? & _ & ? & ? & ? & ? & ? & ?). unfold serialize_hello, hash_wf in *. unfold max_payload, HELLO_V4_PAYLOAD_SIZE. cbn. len_lia. }
  all: try (injection Ep as <- <-); try (by vm_compute).
  - cbn. lia.
  - destruct (Block_serialize b) as [q|] eqn:Eb; [|done]. injection Ep as <- <-. by apply Hsize.
  - destruct Hparts. by apply Hlist.
  - destruct (Block_serialize b) as [q|] eqn:Eb; [|done]. injection Ep as <- <-. by apply Hsize.
  - destruct Hparts as (_ & ? & ?). unfold serialize_tip_response, hash_wf in *. cbn. len_lia.
  - destruct Hparts. by apply Hlist.
  - destruct (Transaction_serialize tx) as [q|] eqn:Et; [|done]. injection Ep as <- <-. by apply Hsize.
  - unfold serialize_headers. destruct Hparts as [Hh Hn]. cbn [max_payload MSG_HEADERS].
    rewrite len_app, (len_concat _ _ HEADER_SIZE), len_le_bytes by (intros x Hx; apply len_header; by eapply Forall_forall in Hx). unfold HEADER_SIZE. lia.
  - unfold serialize_addr_list. destruct Hparts as [Hh Hn]. cbn [max_payload MSG_ADDR]. rewrite Z.min_l, take_ge by (unfold len in *; lia).
    rewrite len_app, (len_concat _ _ 26), len_le_bytes; [unfold MAX_ADDR_ITEMS in *; lia|]. intros x Hx.
    destruct (socket_addr_codec (addr x)) as [Hl _]; [exact (proj1 (proj1 (Forall_forall _ _) Hh x Hx))|]. unfold serialize_addr_entry. len_lia.
Qed.

(** ** Filling the counter *)


Lemma readable_prefix n now e ps bs rest : delivers e ps bs -> length bs = n -> exists k, readable n now (ps ++ rest) = (take k bs, drop k ps ++ rest).
Proof.
  intros Hd <-. induction Hd as [|[t p] b ps bs [Hb _] _ [k IH]]; [by exists 0%nat; destruct rest as [|[? []] ?]|].
  cbn in Hb. subst p. cbn [length app readable]. destruct (now <? t); [by exists 0%nat|]. rewrite IH. by exists (S k).
Qed.
Lemma readable_some n now t b ps : t <= now -> (0 < n)%nat -> fst (readable n now ((t, PByte b) :: ps)) <> [].
Proof. intros Ht Hn. destruct n as [|n]; [lia|]. cbn [readable]. rewrite (proj2 (Z.ltb_ge _ _)) by lia. by destruct (readable n now ps). Qed.

(** One poll when something comes within a second. *)
Lemma poll_to n d e f ps bs rest t : delivers e ps bs -> length bs = n -> (0 < n)%nat -> clock f <= e -> pieces f = ps ++ rest ->
  fst <$> head ps = Some t -> Z.max (clock f) t <= d ->
  exists k f', (0 < k <= n)%nat /\ poll_read n d f = (Got (take k bs), f') /\ pieces f' = drop k ps ++ rest /\ Z.max (clock f) t = clock f' /\ clock f' <= e.
Proof.
  intros Hd Hn Hpos Hc Hp Ht Hdl. inversion Hd as [|[t0 q] b ps' bs' [Hq Ht0] Hd']; subst ps bs; [cbn in Hn; lia|]. cbn in Hq, Ht0. subst q.
  cbn in Ht. injection Ht as ->. unfold poll_read, wait. rewrite Hp. cbn [app]. rewrite (proj2 (Z.ltb_ge _ _)) by lia.
  destruct (readable_prefix n (Z.max (clock f) t) e _ _ rest Hd Hn) as [k E].
  pose proof (readable_some n (Z.max (clock f) t) t b (ps' ++ rest) ltac:(lia) Hpos) as Hne. cbn [app] in E. rewrite E in Hne |- *. cbn [fst] in Hne.
  exists (Nat.min k n), (at_time f (Z.max (clock f) t) (drop k ((t, PByte b) :: ps') ++ rest)).
  split; [destruct k; [by destruct Hne|lia]|]. split; [|split; [destruct (decide (k <= n)%nat)|split; [done|cbn; lia]]].
  - f_equal. f_equal. rewrite <- take_take, (take_ge (b :: bs') n) by lia. done.
  - by rewrite Nat.min_l.
  - rewrite Nat.min_r by lia. cbn [pieces at_time]. pose proof (Forall2_length _ _ _ Hd) as Hl. rewrite !drop_ge by lia. done.
Qed.

(** A group of pieces comes in a burst: the first within a second from now, the
    others at most a second after it. *)
Definition burst (now e : Z) (ps : list (Z * piece)) : Prop :=
  forall t, fst <$> head ps = Some t -> Z.max now t <= now + POLL_TIMEOUT /\ e <= Z.max now t + POLL_TIMEOUT.
Lemma burst_rest now now' e ps bs k : delivers e ps bs -> e <= now' + POLL_TIMEOUT -> now <= now' -> burst now' e (drop k ps).
Proof.
  intros Hd He Hn t Ht. assert (exists p, p ∈ ps /\ fst p = t) as (p & Hp & <-).
  { destruct (drop k ps) as [|p qs] eqn:E; [done|]. injection Ht as <-. exists p. split; [|done].
    rewrite <- (take_drop k ps), E. set_solver. }
  apply list_elem_of_lookup in Hp as [i Hi]. destruct (Forall2_lookup_l _ _ _ _ _ Hd Hi) as (b & _ & _ & Hb). unfold POLL_TIMEOUT, NANOS in *. lia.
Qed.

(** What a session leaves alone. *)
Definition same_session (st st' : ReaderState) : Prop := recv_key st' = recv_key st /\ recv_counter st' = recv_counter st.

Lemma fill_to fuel hp st e ps bs rest :
  delivers e ps bs -> (length (counter_buf st) + length bs = 8)%nat -> (length bs <= fuel)%nat -> clock (feed st) <= e ->
  burst (clock (feed st)) e ps -> pieces (feed st) = ps ++ rest ->
  exists st', fill_counter fuel hp st = (Ok true, st') /\ counter_buf st' = counter_buf st ++ bs /\ pieces (feed st') = rest /\
    clock (feed st) <= clock (feed st') <= e /\ (bs <> [] -> e <= clock (feed st') + POLL_TIMEOUT) /\ same_session st st'.
Proof.
  revert st ps bs. induction fuel as [|fuel IH]; intros st ps bs Hd Hlen Hfuel Hc Hb Hp.
  { assert (bs = []) as -> by (destruct bs; [done|cbn in Hfuel; lia]). inversion Hd; subst. exists st. rewrite app_nil_r. cbn [fill_counter]. done. }
  cbn [fill_counter]. destruct (decide (bs = [])) as [->|Hne].
  { inversion Hd; subst. cbn in Hlen. rewrite (proj2 (Z.ltb_ge _ _)) by (unfold len; lia). exists st. rewrite app_nil_r. done. }
  assert (0 < length bs)%nat as Hpos by (destruct bs; [done|cbn; lia]).
  rewrite (proj2 (Z.ltb_lt _ _)) by (unfold len; lia). destruct (head ps) as [[t q]|] eqn:Eh; [|destruct ps; [inversion Hd; by subst|done]].
  assert (fst <$> head ps = Some t) as Ht by by rewrite Eh. destruct (Hb t Ht) as [Hb1 Hb2].
  destruct (poll_to (8 - length (counter_buf st)) (clock (feed st) + POLL_TIMEOUT) e (feed st) ps bs rest t) as (k & f' & Hk & -> & Hp' & Hc' & Hce); [done|lia|lia|done..|].
  destruct (take k bs) as [|x xs] eqn:Et; [destruct k; [lia|]; by destruct bs|]. rewrite <- Et. clear Et x xs.
  destruct (IH (with_buf st (counter_buf st ++ take k bs) (Some (default (clock f') (counter_started st))) (snd (advance (len (take k bs)) f'))) (drop k ps) (drop k bs))
    as (st' & E & Hbuf & Hps & Hcl & _ & Hs); cbn [with_buf counter_buf feed clock advance snd pieces].
  - by apply Forall2_drop.
  - rewrite length_app, length_take, length_drop. lia.
  - rewrite length_drop. lia.
  - done.
  - eapply burst_rest; [exact Hd|lia|]. apply Z.le_refl.
  - done.
  - exists st'. cbn [with_buf counter_buf feed clock advance snd pieces] in *. rewrite <- app_assoc, take_drop in Hbuf. split_and!; [exact E|exact Hbuf|exact Hps|lia|lia|lia|exact Hs].
Qed.

(** ** A session of frames *)

Section Session.
Context `{Hmac} `{!HmacWidth}.

(** The calls of [reader_recv] until one fails: the messages, the error if there
    is one, and the state. *)
Fixpoint receive (n : nat) (grants : option (Z -> bool)) (st : ReaderState) : list Message * option PeerError * ReaderState :=
  match n with
  | O => ([], None, st)
  | S n =>
      match reader_recv grants st with
      | (Err e, st) => ([], Some e, st)
      | (Ok o, st) => let '(ms, e, st) := receive n grants st in (option_list o ++ ms, e, st)
      end
  end.
(** The budget has room for every frame. *)
Definition room (grants : option (Z -> bool)) : Prop := forall n, from_option (fun g => negb (g n)) false grants = false.

Definition encoded (m : Message) : bytes := match Message_serialize m with Ok b => b | Err _ => [] end.
Fixpoint frames (key : bytes) (counter : Z) (ms : list Message) : list bytes :=
  match ms with [] => [] | m :: ms => framed key counter (encoded m) :: frames key (counter + 1) ms end.

(** Every frame comes in a burst of a second, at any time. *)
Inductive arrives : list (Z * piece) -> list bytes -> Prop :=
| arrives_nil ps : arrives ps []
| arrives_cons t ps fr rest frs : fst <$> head ps = Some t -> delivers (t + POLL_TIMEOUT) ps fr -> arrives rest frs -> arrives (ps ++ rest) (fr :: frs).

Lemma next_counter c : 0 <= c < U64_MAX -> checked_add U64_MAX c 1 = Some (c + 1).
Proof. intros Hc. unfold checked_add, checked. by rewrite !(proj2 (Z.leb_le _ _)) by lia. Qed.
Lemma framed_counter key c frame : framed key c frame = le_bytes 8 c ++ frame ++ compute_frame_hmac key c frame /\ length (le_bytes 8 c) = 8%nat.
Proof. split; [done|]. pose proof (len_le_bytes 8 c). unfold len in *. lia. Qed.

Lemma recv_idle grants st t ps : counter_buf st = [] -> fst <$> head ps = Some t -> pieces (feed st) = ps -> clock (feed st) + POLL_TIMEOUT < t ->
  exists st', reader_recv grants st = (Ok None, st') /\ counter_buf st' = [] /\ same_session st st' /\ pieces (feed st') = ps /\
    clock (feed st') = clock (feed st) + POLL_TIMEOUT.
Proof.
  intros Hbuf Ht Hp Hlate. unfold reader_recv. rewrite Hbuf. cbn [len length Z.of_nat Z.ltb Z.compare andb]. change (0 <? len (@nil byte)) with false. cbn [andb].
  cbn [fill_counter]. rewrite Hbuf. change (len (@nil byte) <? 8) with true. cbn [length Nat.sub].
  destruct ps as [|[t0 p] ps]; [done|]. injection Ht as ->. unfold poll_read, wait. rewrite Hp, (proj2 (Z.ltb_lt _ _)) by lia.
  cbn [negb andb]. change (len (@nil byte) =? 0) with true. eexists. split; [done|]. done.
Qed.

Lemma recv_frame grants st m c t ps rest : room grants -> sendable m -> 0 <= c < U64_MAX -> recv_counter st <= c -> counter_buf st = [] ->
  fst <$> head ps = Some t -> delivers (t + POLL_TIMEOUT) ps (framed (recv_key st) c (encoded m)) -> pieces (feed st) = ps ++ rest -> t <= clock (feed st) + POLL_TIMEOUT ->
  exists st', reader_recv grants st = (Ok (Some m), st') /\ counter_buf st' = [] /\ recv_key st' = recv_key st /\ recv_counter st' = c + 1 /\ pieces (feed st') = rest.
Proof.
  intros Hroom Hm Hc Hrc Hbuf Ht Hd Hp Htime. destruct (sendable_frame m Hm) as (ty & p & Es & Hmax & Hfit & Hdes).
  unfold encoded in Hd. rewrite Es in Hd. destruct (framed_counter (recv_key st) c (ty :: le_bytes 4 (len p) ++ p)) as [Ef Hl8]. rewrite Ef in Hd. clear Ef.
  apply (delivers_le _ (Z.max (clock (feed st)) t + POLL_TIMEOUT)) in Hd; [|lia]. apply delivers_app in Hd as (p1 & p2 & -> & Hd1 & Hd2). rewrite <- app_assoc in Hp.
  assert (fst <$> head p1 = Some t) as Ht1 by (destruct p1; [inversion Hd1 as [E1|]; rewrite <- E1 in Hl8; done|done]).
  unfold reader_recv. rewrite Hbuf. change (0 <? len (@nil byte)) with false. cbn [andb].
  destruct (fill_to 8 false st _ p1 (le_bytes 8 c) (p2 ++ rest) Hd1) as (st1 & -> & Hb1 & Hp1 & Hc1 & He1 & Hk & Hr).
  { by rewrite Hbuf, Hl8. } { by rewrite Hl8. } { unfold POLL_TIMEOUT, NANOS. lia. } { intros t' E'. rewrite Ht1 in E'. injection E' as <-. unfold POLL_TIMEOUT, NANOS in *. lia. } { done. }
  rewrite Hbuf in Hb1. cbn [app] in Hb1. rewrite Hb1, le_val_bytes by (unfold U64_MAX in Hc; simpl; lia). cbn [with_buf recv_key feed]. rewrite Hk.
  assert (Z.max (clock (feed st)) t + POLL_TIMEOUT <= clock (feed st1) + POLL_TIMEOUT) as He by (apply He1; intros E0; by rewrite E0 in Hl8).
  destruct (read_message_to (recv_key st) c m ty p (clock (feed st1) + FRAME_READ_TIMEOUT) (Z.max (clock (feed st)) t + POLL_TIMEOUT) (feed st1) p2 rest grants) as (f2 & -> & Hc2 & Hp2);
    [done..|lia|unfold FRAME_READ_TIMEOUT, POLL_TIMEOUT, NANOS in *; lia|unfold CHUNK_READ_TIMEOUT, POLL_TIMEOUT, NANOS in *; lia|done|].
  unfold accept_counter. cbn [with_feed with_buf recv_counter recv_key counter_buf counter_started feed]. rewrite Hr, (proj2 (Z.ltb_ge _ _)) by lia.
  rewrite next_counter by done. eexists. split; [done|]. done.
Qed.

Lemma receive_S n grants st o st1 ms st2 : reader_recv grants st = (Ok o, st1) -> receive n grants st1 = (ms, None, st2) ->
  receive (S n) grants st = (option_list o ++ ms, None, st2).
Proof. intros E1 E2. cbn [receive]. by rewrite E1, E2. Qed.

(** Polls without data until the next frame is near. *)
Lemma receive_waits (k : nat) grants st t ps : counter_buf st = [] -> fst <$> head ps = Some t -> pieces (feed st) = ps ->
  t <= clock (feed st) + Z.of_nat (S k) * POLL_TIMEOUT ->
  exists st1, counter_buf st1 = [] /\ same_session st st1 /\ pieces (feed st1) = ps /\ t <= clock (feed st1) + POLL_TIMEOUT /\
    forall n ms st2, receive n grants st1 = (ms, None, st2) -> exists n', receive n' grants st = (ms, None, st2).
Proof.
  revert st. induction k as [|k IH]; intros st Hbuf Ht Hp Htime.
  - exists st. split_and!; [done..|lia|]. intros n ms st2 E. by exists n.
  - destruct (decide (t <= clock (feed st) + POLL_TIMEOUT)) as [Hnear|Hfar].
    + exists st. split_and!; [done..|]. intros n ms st2 E. by exists n.
    + destruct (recv_idle grants st t ps) as (st0 & E0 & Hb0 & [Hk0 Hr0] & Hp0 & Hc0); [done..|lia|].
      destruct (IH st0 Hb0 Ht Hp0) as (st1 & Hb1 & [Hk1 Hr1] & Hp1 & Ht1 & Hrec); [lia|].
      exists st1. unfold same_session. split_and!; [done|congruence|congruence|done..|]. intros n ms st2 E. destruct (Hrec _ _ _ E) as [n' E']. exists (S n').
      by rewrite (receive_S _ _ _ _ _ _ _ E0 E').
Qed.

Lemma receive_frames grants ms c st : room grants -> Forall sendable ms -> 0 <= c -> c + len ms <= U64_MAX -> recv_counter st = c -> counter_buf st = [] ->
  arrives (pieces (feed st)) (frames (recv_key st) c ms) -> exists n st', receive n grants st = (ms, None, st') /\ recv_counter st' = c + len ms.
Proof.
  intros Hroom Hms. revert c st. induction Hms as [|m ms Hm _ IH]; intros c st Hc Hmax Hrc Hbuf Ha; cbn [frames] in Ha.
  - exists 0%nat, st. rewrite len_nil. cbn. split; [done|lia].
  - inversion Ha as [|t ps fr rest frs Ht Hd Hrest Eps Efr]; subst fr frs. rewrite len_cons in Hmax. pose proof (len_nonneg ms).
    assert (fst <$> head (ps ++ rest) = Some t) as Ht' by (by destruct ps).
    destruct (receive_waits (Z.to_nat (t - clock (feed st))) grants st t (ps ++ rest)) as (st1 & Hb1 & [Hk1 Hr1] & Hp1 & Ht1 & Hrec); [done..| |].
    { unfold POLL_TIMEOUT, NANOS. lia. }
    destruct (recv_frame grants st1 m c t ps rest) as (st2 & E2 & Hb2 & Hk2 & Hr2 & Hp2); [done|done|lia|lia|done|done|by rewrite Hk1|done|done|].
    destruct (IH (c + 1) st2) as (n & st3 & E3 & Hr3); [lia|lia|done|done|by rewrite Hp2, Hk2, Hk1|].
    destruct (Hrec (S n) (m :: ms) st3) as [n' E']; [by rewrite (receive_S _ _ _ _ _ _ _ E2 E3)|]. exists n', st3. split; [done|]. rewrite len_cons. lia.
Qed.
End Session.
