(* ===== verification/FramingSafety.v ===== *)
(** * A session delivers what was sent

    Whatever a reader takes comes from its feed; together with the tags and the
    counters this makes a session of frames an ordered channel: all messages when
    the transport delivers, and never others than those sent, in order and each
    at most once, whoever writes to the connection. *)

From Stdlib Require Import Strings.String.
From S2P Require Import Prelude Bytes Codec Hash Transaction Block Wire FeeCost PeerRegistry Reader Framing FramingFacts.
#[local] Open Scope Z_scope.
#[local] Open Scope list_scope.

(** ** What is read was in the feed *)

Fixpoint bytes_of (ps : list (Z * piece)) : bytes := match ps with (_, PByte b) :: ps => b :: bytes_of ps | _ => [] end.
Definition data (f : Feed) : bytes := bytes_of (pieces f).

(** [c] takes a prefix of the feed, which [P] relates to its result. *)
Definition takes {A} (c : io A) (P : A -> bytes -> Prop) : Prop :=
  forall f r f', c f = (r, f') -> exists bs, data f = bs ++ data f' /\ forall a, r = Got a -> P a bs.

Lemma io_takes_ret {A} (a : A) : takes (mret a) (fun a' bs => a' = a /\ bs = []).
Proof. intros f r f' [= <- <-]. exists []. split; [done|]. by intros a' [= ->]. Qed.
Lemma takes_broken {A} e P : takes (A := A) (broken e) P.
Proof. intros f r f' [= <- <-]. exists []. split; [done|]. by intros a' [=]. Qed.
Lemma io_takes_bind {A B} (c : io A) (k : A -> io B) P Q R :
  takes c P -> (forall a b1, P a b1 -> takes (k a) (Q a)) -> (forall a b b1 b2, P a b1 -> Q a b b2 -> R b (b1 ++ b2)) -> takes (c ≫= k) R.
Proof.
  intros Hc Hk HR f r f' E. unfold mbind, io_bind in E. destruct (c f) as [r1 f1] eqn:E1. destruct (Hc _ _ _ E1) as (b1 & Hd1 & HP).
  destruct r1 as [a| |e]; [|injection E as <- <-; exists b1; split; [done|by intros ? [=]]..].
  destruct (Hk a b1 (HP a eq_refl) _ _ _ E) as (b2 & Hd2 & HQ). exists (b1 ++ b2). rewrite Hd1, Hd2, app_assoc. split; [done|]. intros b ->. eapply HR; [by apply HP|by apply HQ].
Qed.
Lemma takes_mono {A} (c : io A) (P Q : A -> bytes -> Prop) : takes c P -> (forall a bs, P a bs -> Q a bs) -> takes c Q.
Proof. intros Hc HPQ f r f' E. destruct (Hc _ _ _ E) as (bs & Hd & HP). exists bs. split; [done|]. intros a Ha. by apply HPQ, HP. Qed.

Lemma takes_u8 d : takes (read_u8 d) (fun b bs => bs = [b]).
Proof.
  intros f r f' E. unfold read_u8, wait in E. unfold data. destruct (pieces f) as [|[t p] ps] eqn:Ep; [injection E as <- <-; cbn; exists []; rewrite ?Ep; split; [done|by intros ? [=]]|].
  destruct (d <? _); [injection E as <- <-; cbn; exists []; rewrite ?Ep; split; [done|by intros ? [=]]|].
  destruct p as [b| |k]; injection E as <- <-; cbn; [exists [b]|exists []..]; rewrite ?Ep; (split; [done|]); [by intros ? [= ->]|by intros ? [=]..].
Qed.
Lemma takes_exact n d : takes (read_exact n d) (fun a bs => bs = a /\ length a = n).
Proof.
  induction n as [|n IH]; cbn [read_exact]; [eapply takes_mono; [apply io_takes_ret|]; by intros a bs [-> ->]|].
  eapply io_takes_bind; [apply takes_u8|intros b ? ?; eapply (io_takes_bind _ _ _ _ (fun r bs => r = b :: bs /\ length bs = n)); [apply IH|intros bs ? ?; apply io_takes_ret|]|].
  - intros a r c1 c2 [-> Hl] [-> ->]. by rewrite app_nil_r.
  - intros a r b1 b2 -> [-> Hl]. cbn. split; [done|lia].
Qed.
Lemma takes_u32 d : takes (read_u32_le d) (fun z bs => bs = le_bytes 4 z /\ 0 <= z).
Proof.
  eapply io_takes_bind; [apply takes_exact|intros bs ? ?; apply io_takes_ret|]. intros a r b1 b2 [-> Hl] [-> ->]. rewrite app_nil_r, le_bytes_val by (unfold len; lia).
  split; [done|]. apply le_val_range.
Qed.
Lemma takes_timeout {A} dur (c : Z -> io A) d P : (forall d', takes (c d') P) -> takes (timeout dur c d) (fun o bs => forall a, o = Some a -> P a bs).
Proof.
  intros Hc f r f' E. unfold timeout in E. destruct (c (Z.min (clock f + dur) d) f) as [r1 f1] eqn:E1. destruct (Hc _ _ _ _ E1) as (bs & Hd & HP).
  exists bs. destruct r1 as [a| |e]; [|destruct (_ <=? _)|]; injection E as <- <-; split; try done; intros o [= <-]; intros a' [= <-]. by apply HP.
Qed.
Lemma takes_advance n : takes (advance n) (fun _ bs => bs = []).
Proof. intros f r f' [= <- <-]. exists []. done. Qed.

Lemma takes_chunks fuel remaining report d acc : remaining <= Z.of_nat fuel * READ_CHUNK_SIZE ->
  takes (chunks fuel remaining report d acc) (fun a bs => a = acc ++ bs /\ len bs = Z.max 0 remaining).
Proof.
  revert remaining acc. induction fuel as [|fuel IH]; intros remaining acc Hf; cbn [chunks].
  - eapply takes_mono; [apply io_takes_ret|]. intros a bs [-> ->]. rewrite app_nil_r, len_nil. split; [done|lia].
  - destruct (Z.ltb_spec 0 remaining) as [Hr|Hr]; [|eapply takes_mono; [apply io_takes_ret|]; intros a bs [-> ->]; rewrite app_nil_r, len_nil; split; [done|lia]].
    set (cs := Z.min remaining READ_CHUNK_SIZE).
    eapply (io_takes_bind _ _ _ (fun c a bs => match c with Some c => a = (acc ++ c) ++ bs /\ len bs = Z.max 0 (remaining - cs) | None => False end));
      [apply takes_timeout; intros d'; apply takes_exact|intros [c|] ? _; [eapply io_takes_bind|apply takes_broken]|].
    + destruct report; [apply takes_advance|]. eapply takes_mono; [apply io_takes_ret|]. by intros a bs [_ ->].
    + intros u ? Hu. apply IH. unfold cs, READ_CHUNK_SIZE in *. lia.
    + intros a r c1 c2 -> Hq. exact Hq.
    + intros [c|] r b1 b2 Hc; [|done]. destruct (Hc c eq_refl) as [-> Hlc]. intros [-> Hl]. rewrite app_assoc. split; [done|].
      rewrite len_app, Hl. unfold len. unfold cs, READ_CHUNK_SIZE in *. lia.
Qed.
Lemma takes_payload n report d : 0 <= n ->
  takes (if n <=? EAGER_ALLOC_LIMIT then read_exact (Z.to_nat n) d else read_payload_chunked n report d) (fun a bs => a = bs).
Proof.
  intros Hn. destruct (_ <=? _).
  - eapply takes_mono; [apply takes_exact|]. by intros a bs [-> _].
  - eapply takes_mono; [apply takes_chunks|by intros a bs [-> _]]. unfold READ_CHUNK_SIZE. pose proof (Z.div_mod n 32768 ltac:(lia)). pose proof (Z.mod_pos_bound n 32768 ltac:(lia)).
    assert (0 <= n / 32768) by (apply Z.div_pos; lia). rewrite Z2Nat.id by lia. lia.
Qed.

(** A message that is read was in a frame with a valid tag. *)
Definition authentic `{Hmac} (key : bytes) (counter : Z) (m : Message) (bs : bytes) : Prop :=
  exists frame tag n, bs = frame ++ tag /\ length tag = HMAC_TAG_SIZE /\ verify_frame_hmac key counter frame tag = true /\ Message_deserialize frame = Ok (m, n).

Lemma takes_message `{Hmac} heavy key c report grants d : takes (read_message heavy key c report grants d) (authentic key c).
Proof.
  eapply io_takes_bind; [apply takes_u8|intros t ? _|intros t r b1 b2 -> Hq; exact Hq].
  eapply (io_takes_bind _ _ _ (fun n m bs => authentic key c m ([t] ++ le_bytes 4 n ++ bs))); [apply takes_u32|intros n ? [_ Hn]|by intros n r c1 c2 [-> _]].
  destruct (MAX_MESSAGE_SIZE <? n); [apply takes_broken|]. destruct (max_payload t heavy <? n); [apply takes_broken|].
  destruct (from_option _ _ _); [apply takes_broken|].
  eapply (io_takes_bind _ _ _ (fun p m bs => authentic key c m ([t] ++ le_bytes 4 n ++ p ++ bs))); [by apply takes_payload|intros p ? _|by intros p r c1 c2 ->].
  eapply (io_takes_bind _ _ _ (fun tag m bs => bs = [] /\ exists k, verify_frame_hmac key c (t :: le_bytes 4 n ++ p) tag = true /\ Message_deserialize (t :: le_bytes 4 n ++ p) = Ok (m, k)));
    [apply takes_exact|intros tag ? _|].
  - cbv zeta. destruct (verify_frame_hmac _ _ _ _); [|apply takes_broken]. cbn [negb].
    destruct (Message_deserialize _) as [[m k]|e]; [|apply takes_broken]. eapply takes_mono; [apply io_takes_ret|]. intros a bs [-> ->]. split; [done|by exists k].
  - intros tag m c1 c2 [-> Hl] (-> & k & Hv & Hm). exists (t :: le_bytes 4 n ++ p), tag, k. split_and!; [|done..].
    rewrite app_nil_r. cbn [app]. by rewrite <- !app_assoc.
Qed.

(** ** Counters *)

Lemma readable_takes n now ps bs rest : readable n now ps = (bs, rest) -> bytes_of ps = bs ++ bytes_of rest /\ (length bs <= n)%nat.
Proof.
  revert ps bs rest. induction n as [|n IH]; intros ps bs rest; cbn [readable]; [intros [= <- <-]; split; [done|cbn; lia]|].
  destruct ps as [|[t [b| |k]] ps]; [intros [= <- <-]; split; [done|cbn; lia]..| | |]; try (intros [= <- <-]; split; [done|cbn; lia]).
  destruct (now <? t); [intros [= <- <-]; split; [done|cbn; lia]|]. destruct (readable n now ps) as [bs' rest'] eqn:E. intros [= <- <-].
  destruct (IH _ _ _ E) as [Hb Hl]. cbn. rewrite Hb. split; [done|lia].
Qed.
Lemma takes_poll n d : takes (poll_read n d) (fun a bs => bs = a /\ (length a <= n)%nat).
Proof.
  intros f r f' E. unfold poll_read in E. destruct (wait d f) as [[now [b| |k]]|]; [destruct (readable n now (pieces f)) as [bs rest] eqn:Er| | |]; injection E as <- <-.
  - destruct (readable_takes _ _ _ _ _ Er) as [Hb Hl]. exists bs. split; [done|]. by intros a [= ->].
  - exists []. split; [done|]. intros a [= <-]. split; [done|cbn; lia].
  - exists []. split; [done|]. by intros a [=].
  - exists []. split; [done|]. by intros a [=].
Qed.

Lemma fill_takes fuel hp st r st' : (length (counter_buf st) <= 8 <= length (counter_buf st) + fuel)%nat -> fill_counter fuel hp st = (Ok r, st') ->
  same_session st st' /\
  if r then exists bs, data (feed st) = bs ++ data (feed st') /\ counter_buf st' = counter_buf st ++ bs /\ length (counter_buf st') = 8%nat
  else counter_buf st = [] /\ counter_buf st' = [] /\ data (feed st') = data (feed st).
Proof.
  revert st. induction fuel as [|fuel IH]; intros st Hlen E; cbn [fill_counter] in E.
  { injection E as <- <-. split; [done|]. exists []. rewrite app_nil_r. split_and!; [done|done|lia]. }
  destruct (Z.ltb_spec (len (counter_buf st)) 8) as [Hlt|Hge].
  2:{ injection E as <- <-. split; [done|]. exists []. rewrite app_nil_r. split_and!; [done|done|unfold len in Hge; lia]. }
  destruct (poll_read _ _ (feed st)) as [p f] eqn:Ep. destruct (takes_poll _ _ _ _ _ Ep) as (bs & Hd & HP). destruct p as [[|x xs]| |e]; [done| | |done].
  - destruct (HP _ eq_refl) as [-> Hl]. unfold len in Hlt. cbn [length] in Hl. apply IH in E as [[Hk Hr] E].
    2:{ cbn [with_buf counter_buf]. rewrite length_app. cbn [length]. lia. }
    split; [done|]. destruct r.
    + destruct E as (bs & Hd' & Hb & H8). cbn [with_buf counter_buf feed advance snd] in *. exists ((x :: xs) ++ bs). rewrite Hd. split_and!; [|by rewrite Hb, app_assoc|done].
      rewrite <- app_assoc. f_equal. exact Hd'.
    + destruct E as [Hb _]. cbn [with_buf counter_buf] in Hb. by apply app_eq_nil in Hb as [_ Hb].
  - destruct (negb hp && _) eqn:Ez; [|done]. injection E as <- <-. apply andb_true_iff in Ez as [_ Ez%Z.eqb_eq%len_0]. split; [done|]. cbn [with_feed counter_buf feed].
    split_and!; [done..|]. unfold poll_read in Ep. destruct (wait _ _) as [[? []]|]; [by destruct (readable _ _ _)|done|done|]. by injection Ep as <-.
Qed.

Section Channel.
Context `{Hmac} `{!HmacWidth}.

(** One call on a fresh buffer: nothing happens, or a frame with a valid tag and a
    counter that was not seen before is taken from the feed. *)
Lemma recv_takes grants st o st' : counter_buf st = [] -> reader_recv grants st = (Ok o, st') ->
  counter_buf st' = [] /\ recv_key st' = recv_key st /\
  match o with
  | None => recv_counter st' = recv_counter st /\ data (feed st') = data (feed st)
  | Some m => exists cb bs, data (feed st) = cb ++ bs ++ data (feed st') /\ length cb = 8%nat /\ authentic (recv_key st) (le_val cb) m bs /\
      recv_counter st <= le_val cb /\ recv_counter st' = le_val cb + 1
  end.
Proof.
  intros Hbuf. unfold reader_recv. rewrite Hbuf. change (0 <? len (@nil byte)) with false. cbn [andb].
  destruct (fill_counter 8 false st) as [[r|e] st1] eqn:Ef; [|done]. apply fill_takes in Ef as [[Hk1 Hr1] Ef]; [|rewrite Hbuf; cbn; lia].
  destruct r; [|intros [= <- <-]; destruct Ef as (_ & Hb & Hd); done]. destruct Ef as (cb & Hd1 & Hb1 & H8). rewrite Hbuf in Hb1. cbn [app] in Hb1.
  rewrite Hb1 in *. cbn [with_buf feed recv_key]. destruct (read_message _ _ _ _ _ _ (feed st1)) as [r f2] eqn:Em.
  destruct (takes_message _ _ _ _ _ _ _ _ _ Em) as (bs & Hd2 & Ha). destruct r as [m| |e]; [|done..]. unfold accept_counter.
  cbn [with_feed with_buf recv_counter recv_key counter_buf counter_started feed]. destruct (Z.ltb_spec (le_val cb) (recv_counter st1)) as [|Hc]; [done|].
  destruct (checked_add U64_MAX (le_val cb) 1) as [n|] eqn:En; [|done]. intros [= <- <-]. cbn [counter_buf recv_key recv_counter feed].
  split_and!; [done|done|]. exists cb, bs. rewrite Hd1, Hd2, Hk1 in *. split_and!; [done|done|by apply Ha|lia|].
  unfold checked_add, checked in En. destruct (_ && _) in En; [by injection En as <-|done].
Qed.

(** ** The sending side *)

(** What the rounds of a writer hand to [write_framed_message]. *)
Fixpoint outgoing (rounds : list Round) : list Message :=
  match rounds with
  | [] => []
  | r :: rounds =>
      if shutdown r then []
      else map control_message (waiting r) ++
        (if negb (control_open r) then []
         else match (match picked r with PickControl c => option_map control_message c | PickNormal m => m end) with
              | None => []
              | Some m => m :: outgoing rounds
              end)
  end.
(** The writer that has written these messages too. *)
Definition extended (w : WriterState) (ms : list Message) : WriterState :=
  {| send_key := send_key w; send_counter := send_counter w + len ms; wire := wire w ++ concat (frames (send_key w) (send_counter w) ms) |}.

Lemma extended_nil w : extended w [] = w.
Proof. unfold extended. cbn [frames concat]. rewrite app_nil_r, len_nil, Z.add_0_r. by destruct w. Qed.
Lemma extended_cons w m ms : extended (extended w [m]) ms = extended w (m :: ms).
Proof. unfold extended. cbn [send_key send_counter wire frames concat]. change (len [m]) with 1. rewrite app_nil_r, len_cons, <- app_assoc. f_equal. lia. Qed.
Lemma extended_app w ms1 ms2 : extended (extended w ms1) ms2 = extended w (ms1 ++ ms2).
Proof.
  revert w. induction ms1 as [|m ms1 IH]; intros w; [|by rewrite <- extended_cons, IH, extended_cons].
  by rewrite extended_nil.
Qed.
Lemma write_one m w : sendable m -> 0 <= send_counter w < U64_MAX -> write_framed_message None m w = (Ok tt, extended w [m]).
Proof.
  intros Hm Hc. destruct (sendable_frame m Hm) as (t & p & Es & _). unfold write_framed_message. rewrite Es, next_counter by done.
  unfold extended, encoded, framed. cbn [frames concat]. unfold encoded, framed. rewrite Es, app_nil_r. done.
Qed.
Lemma write_list ms w : Forall sendable ms -> 0 <= send_counter w -> send_counter w + len ms <= U64_MAX -> write_all (fun _ => None) ms w = (Ok tt, extended w ms).
Proof.
  intros Hms. revert w. induction Hms as [|m ms Hm _ IH]; intros w Hc Hmax; cbn [write_all].
  - by rewrite extended_nil.
  - rewrite len_cons in Hmax. pose proof (len_nonneg ms). rewrite write_one by (done || lia). rewrite IH, extended_cons; [done|cbn [send_counter extended]; change (len [m]) with 1; lia..].
Qed.
Lemma writer_writes rounds w : Forall sendable (outgoing rounds) -> 0 <= send_counter w -> send_counter w + len (outgoing rounds) <= U64_MAX ->
  exists r, writer_task (fun _ => None) rounds w = (r, extended w (outgoing rounds)) /\ (r = None \/ r = Some (Ok tt)).
Proof.
  revert w. induction rounds as [|r rounds IH]; intros w Hms Hc Hmax; cbn [writer_task outgoing] in *.
  { exists None. rewrite extended_nil. split; [done|by left]. }
  destruct (shutdown r). { exists (Some (Ok tt)). rewrite extended_nil. split; [done|by right]. }
  apply Forall_app in Hms as [Hw Hms]. rewrite len_app in Hmax. match type of Hms with Forall _ ?l => pose proof (len_nonneg l) end.
  rewrite write_list by (done || lia). destruct (negb (control_open r)); [exists (Some (Ok tt)); rewrite app_nil_r; split; [done|by right]|].
  set (next := match picked r with PickControl c => _ | PickNormal m => m end) in *.
  destruct next as [m|]; [|exists (Some (Ok tt)); rewrite app_nil_r; split; [done|by right]].
  apply Forall_cons in Hms as [Hm Hms]. rewrite len_cons in Hmax. pose proof (len_nonneg (map control_message (waiting r))). pose proof (len_nonneg (outgoing rounds)).
  rewrite write_one; [|done|cbn [send_counter extended]; lia].
  destruct (IH (extended (extended w (map control_message (waiting r))) [m])) as (res & E & Hr);
    [done|cbn [send_counter extended]; change (len [m]) with 1; lia..|].
  exists res. rewrite E, extended_cons, extended_app. done.
Qed.

(** ** Properties *)

(** C20: frames arrive.  The frames that a writer puts on the wire, whatever it
    takes from its channels, are read on the other side as the same messages, in
    order and without an error, when both use the same key and counter, every
    frame comes within a second from its first byte (at any time), and there is
    room for it; both counters end at the same value. *)
Theorem frames_arrive (rounds : list Round) (w : WriterState) (st : ReaderState) (grants : option (Z -> bool)) :
  Forall sendable (outgoing rounds) -> 0 <= send_counter w -> send_counter w + len (outgoing rounds) <= U64_MAX ->
  recv_key st = send_key w -> recv_counter st = send_counter w -> counter_buf st = [] -> room grants ->
  arrives (pieces (feed st)) (frames (send_key w) (send_counter w) (outgoing rounds)) ->
  exists r w', writer_task (fun _ => None) rounds w = (r, w') /\ (r = None \/ r = Some (Ok tt)) /\
    wire w' = wire w ++ concat (frames (send_key w) (send_counter w) (outgoing rounds)) /\
    exists n st', receive n grants st = (outgoing rounds, None, st') /\ recv_counter st' = send_counter w'.
Proof.
  intros Hms Hc Hmax Hkey Hrc Hbuf Hroom Ha. destruct (writer_writes rounds w Hms Hc Hmax) as (r & E & Hr).
  exists r, (extended w (outgoing rounds)). split_and!; [done|done|done|].
  destruct (receive_frames grants (outgoing rounds) (send_counter w) st) as (n & st' & En & Hn); [done..|by rewrite Hkey|].
  by exists n, st'.
Qed.

(** The messages of a sender with the counters of their frames. *)
Definition sent_as (c : Z) (sent : list Message) (counter : Z) (frame : bytes) : Prop :=
  exists m, c <= counter /\ sent !! Z.to_nat (counter - c) = Some m /\ Message_serialize m = Ok frame.
(** Nothing on the connection has a valid tag but what was sent. *)
Definition unforged (key : bytes) (c : Z) (sent : list Message) (wire : bytes) : Prop :=
  forall before cb frame tag after, wire = before ++ cb ++ (frame ++ tag) ++ after -> length cb = 8%nat -> length tag = HMAC_TAG_SIZE ->
    verify_frame_hmac key (le_val cb) frame tag = true -> sent_as c sent (le_val cb) frame.

Lemma unforged_suffix key c sent pre wire : unforged key c sent (pre ++ wire) -> unforged key c sent wire.
Proof. intros Hu before cb frame tag after ->. apply (Hu (pre ++ before) cb frame tag after). by rewrite <- !app_assoc. Qed.

Lemma receive_sublist n grants key c sent st ms e st' : Forall Message_wf sent -> recv_key st = key -> counter_buf st = [] -> c <= recv_counter st ->
  unforged key c sent (data (feed st)) -> receive n grants st = (ms, e, st') -> ms `sublist_of` drop (Z.to_nat (recv_counter st - c)) sent.
Proof.
  intros Hwf. revert st ms. induction n as [|n IH]; intros st ms Hk Hbuf Hc Hu E; cbn [receive] in E; [injection E as <- _ _; apply sublist_nil_l|].
  destruct (reader_recv grants st) as [[o|e1] st1] eqn:E1; [|injection E as <- _ _; apply sublist_nil_l].
  destruct (receive n grants st1) as [[ms1 e1] st2] eqn:E2. injection E as <- <- <-.
  destruct (recv_takes _ _ _ _ Hbuf E1) as (Hb1 & Hk1 & Ho). destruct o as [m|]; cbn [option_list app].
  - destruct Ho as (cb & bs & Hd & H8 & (frame & tag & k & -> & Ht & Hv & Hm) & Hle & Hr1). rewrite Hk in Hv.
    destruct (Hu [] cb frame tag (data (feed st1))) as (m' & Hcm & Hl & Hs); [done..|].
    assert (m' = m) as ->.
    { destruct (proj1 message_codec_correct m' (Forall_lookup_1 _ _ _ _ Hwf Hl)) as (b & Eb & Hd'). specialize (Hd' []). rewrite app_nil_r in Hd'. congruence. }
    rewrite Hd in Hu. rewrite (app_assoc cb) in Hu. apply unforged_suffix in Hu.
    apply (IH st1 ms1) in E2; [|congruence|done|lia|done]. rewrite Hr1 in E2.
    replace (Z.to_nat (le_val cb + 1 - c)) with (S (Z.to_nat (le_val cb - c))) in E2 by lia.
    transitivity (drop (Z.to_nat (le_val cb - c)) sent); [rewrite (drop_S _ _ _ Hl); by apply sublist_skip|].
    replace (Z.to_nat (le_val cb - c)) with (Z.to_nat (recv_counter st - c) + (Z.to_nat (le_val cb - c) - Z.to_nat (recv_counter st - c)))%nat by lia.
    rewrite <- drop_drop. apply sublist_drop.
  - destruct Ho as [Hr1 Hd]. rewrite <- Hr1. apply (IH st1); [congruence|done|lia|by rewrite Hd|done].
Qed.

(** C17: nothing is received but what was sent.  Whatever arrives on a connection,
    in whatever pieces and times, and however it ends: if no tag on it is valid
    under the key but those of the peer's own frames, then the messages a session
    has accepted are messages the peer has sent with this key, in the order in
    which it sent them, and none of them twice. *)
Theorem received_were_sent (n : nat) (grants : option (Z -> bool)) (st st' : ReaderState) (c : Z) (sent ms : list Message) (e : option PeerError) :
  Forall Message_wf sent -> counter_buf st = [] -> c <= recv_counter st -> unforged (recv_key st) c sent (data (feed st)) ->
  receive n grants st = (ms, e, st') -> ms `sublist_of` sent.
Proof.
  intros Hwf Hbuf Hc Hu E. etransitivity; [by eapply receive_sublist|apply sublist_drop].
Qed.
End Channel.
