(* ===== verification/Handshake.v ===== *)
(** * The handshake ([src/network/peer.rs])

    Both ends of a connection exchange a Hello and sign what they have seen: the
    chain, both nonces, both tips and their role.  A [Conn] is the connection of
    one end: what it reads ([inflow]), what it has written, how its writes end,
    and the identity it has authenticated so far.  Ed25519 comes from [Jets.v] and
    [Wallet.v]; the Diffie-Hellman secret is the parameter [Montgomery].  A
    failed [expect] is [None]. *)

From Stdlib Require Import Strings.String.
From S2P Require Import Prelude Bytes Codec Hash Transaction Block Wire Jets PeerRegistry Wallet Reader Framing.
#[local] Open Scope Z_scope.
#[local] Open Scope list_scope.

Definition PROTOCOL_VERSION : Z := 5.
Definition HANDSHAKE_TIMEOUT : Z := 5 * NANOS.

(** [their_vk.to_montgomery().mul_clamped(signing_key.to_scalar_bytes()).to_bytes()] *)
Class Montgomery `{Ed25519} `{Signer} := shared_secret : ed_key -> SigningKey -> bytes.

(** ** Reading the two messages *)

Definition read_hello (deadline : Z) : io Message :=
  msg_type ← read_u8 deadline;
  if negb (bool_decide (msg_type = x01)) then broken (Kind KInvalidData)
  else
    payload_len ← read_u32_le deadline;
    if HELLO_V4_PAYLOAD_SIZE <? payload_len then broken (Kind KInvalidData)
    else
      payload ← read_exact (Z.to_nat payload_len) deadline;
      match Message_deserialize (msg_type :: le_bytes 4 payload_len ++ payload) with
      | Ok (msg, _) => mret msg
      | Err _ => broken (Kind KInvalidData)
      end.
Definition read_auth_ack (deadline : Z) : io bytes :=
  msg_type ← read_u8 deadline;
  if negb (bool_decide (msg_type = MSG_AUTH_ACK)) then broken (Kind KInvalidData)
  else
    payload_len ← read_u32_le deadline;
    if negb (payload_len =? 64) then broken (Kind KInvalidData)
    else read_exact 64 deadline.

(** ** The connection *)

(** [fates]: how the next writes end, all of the bytes when there is no entry. *)
Record Conn := { inflow : Feed; outflow : bytes; fates : list (option nat); peer_identity_out : option bytes }.
Definition hs (A : Type) : Type := Conn -> option (result PeerError A * Conn).
#[export] Instance hs_ret : MRet hs := fun A a c => Some (Ok a, c).
#[export] Instance hs_bind : MBind hs := fun A B k m c =>
  match m c with Some (Ok a, c) => k a c | Some (Err e, c) => Some (Err e, c) | None => None end.
Definition fail {A} (e : PeerError) : hs A := fun c => Some (Err e, c).
Definition ensure_that (b : bool) (e : PeerError) : hs unit := if b then mret tt else fail e.
Definition lift {A} (r : result PeerError A) : hs A := fun c => Some (r, c).
Definition panic {A} : hs A := fun _ => None.

(** [timeout(Duration::from_secs(HANDSHAKE_TIMEOUT_SECS), ..)] *)
Definition within_timeout {A} (r : Z -> io A) : hs A := fun c =>
  match r (clock (inflow c) + HANDSHAKE_TIMEOUT) (inflow c) with
  | (Got a, f) => Some (Ok a, {| inflow := f; outflow := outflow c; fates := fates c; peer_identity_out := peer_identity_out c |})
  | (Late, f) => Some (Err HandshakeTimeout, {| inflow := f; outflow := outflow c; fates := fates c; peer_identity_out := peer_identity_out c |})
  | (Broken _, f) => Some (Err Io, {| inflow := f; outflow := outflow c; fates := fates c; peer_identity_out := peer_identity_out c |})
  end.
(** [stream.write_all(..)] *)
Definition put (bs : bytes) : hs unit := fun c =>
  match head (fates c) with
  | Some (Some n) => Some (Err Io, {| inflow := inflow c; outflow := outflow c ++ take n bs; fates := tail (fates c); peer_identity_out := peer_identity_out c |})
  | _ => Some (Ok tt, {| inflow := inflow c; outflow := outflow c ++ bs; fates := tail (fates c); peer_identity_out := peer_identity_out c |})
  end.
Definition put_message (m : Message) : hs unit :=
  bs ← lift (map_err (fun _ => SerializationError) (Message_serialize m)); put bs.
Definition set_identity (k : bytes) : hs unit := fun c =>
  Some (Ok tt, {| inflow := inflow c; outflow := outflow c; fates := fates c; peer_identity_out := Some k |}).

Record Peer := {
  p_addr : SocketAddr; p_version : Z; p_genesis : Hash256; p_height : Z; p_block_id : Hash256; p_work : bytes; p_inbound : bool; p_identity : bytes;
  p_send_key : bytes; p_recv_key : bytes; p_send_counter : Z; p_recv_counter : Z; p_counter_buf : bytes; p_counter_started : option Z
}.
Record PeerMetadata := { meta_addr : SocketAddr; meta_identity : bytes }.
(** [stream.into_split()] gives the halves of the connection. *)
Definition into_split (p : Peer) (stream : Feed) (written : bytes) : ReaderState * WriterState * PeerMetadata :=
  ({| recv_key := p_recv_key p; recv_counter := p_recv_counter p; counter_buf := p_counter_buf p; counter_started := p_counter_started p; feed := stream |},
   {| send_key := p_send_key p; send_counter := p_send_counter p; wire := written |},
   {| meta_addr := p_addr p; meta_identity := p_identity p |}).
(** [Peer::send], on the connection before it is split: the counter moves on, and
    [written] grows. *)
Definition send `{Hmac} (outcome : option nat) (msg : Message) (p : Peer) (written : bytes) : result PeerError unit * Peer * bytes :=
  let (r, w) := write_framed_message outcome msg {| send_key := p_send_key p; send_counter := p_send_counter p; wire := written |} in
  (r, {| p_addr := p_addr p; p_version := p_version p; p_genesis := p_genesis p; p_height := p_height p; p_block_id := p_block_id p; p_work := p_work p;
         p_inbound := p_inbound p; p_identity := p_identity p; p_send_key := p_send_key p; p_recv_key := p_recv_key p; p_send_counter := send_counter w;
         p_recv_counter := p_recv_counter p; p_counter_buf := p_counter_buf p; p_counter_started := p_counter_started p |}, wire w).

Section Handshake.
Context `{Sha2} `{Ed25519} `{Signer} `{!Montgomery}.

Definition verify_peer_sig (pubkey transcript sig_bytes : bytes) : result PeerError unit :=
  if is_weak_ed25519_key pubkey then Err AuthFailed
  else match ed_key_from_bytes pubkey with
       | None => Err AuthFailed
       | Some vk => if ed_verify vk transcript sig_bytes then Ok tt else Err AuthFailed
       end.

Definition with_auth (h : HelloMsg) (nonce ech pubkey sig : bytes) : HelloMsg :=
  {| hello_version := hello_version h; genesis_block_id := genesis_block_id h; best_height := best_height h; best_block_id := best_block_id h; hello_work := hello_work h;
     hello_nonce := nonce; echo := ech; hello_pubkey := pubkey; hello_sig := sig |}.
Definition tip_of (h : HelloMsg) : bytes := tip_commitment (best_height h) (best_block_id h) (hello_work h).
Definition expect_hello (m : Message) : hs HelloMsg := match m with MHello h => mret h | _ => fail UnexpectedMessage end.

(** The keys of both directions: initiator to responder, and back. *)
Definition session_keys (their_hello : HelloMsg) (nonce_a nonce_b : bytes) (signing_key : SigningKey) : hs (bytes * bytes) :=
  match ed_key_from_bytes (hello_pubkey their_hello) with
  | None => panic
  | Some their_vk =>
      let dh_shared_secret := shared_secret their_vk signing_key in
      mret (derive_directional_keys (compute_session_key (genesis_block_id their_hello) PROTOCOL_VERSION nonce_a nonce_b dh_shared_secret))
  end.
Definition connected (addr : SocketAddr) (h : HelloMsg) (inbound : bool) (send_key recv_key : bytes) : Peer :=
  {| p_addr := addr; p_version := hello_version h; p_genesis := genesis_block_id h; p_height := best_height h; p_block_id := best_block_id h; p_work := hello_work h;
     p_inbound := inbound; p_identity := hello_pubkey h; p_send_key := send_key; p_recv_key := recv_key; p_send_counter := 0; p_recv_counter := 0;
     p_counter_buf := []; p_counter_started := None |}.

(** [Peer::handshake] with [is_inbound]. *)
Definition responder (addr : SocketAddr) (our_hello : HelloMsg) (our_nonce : bytes) (signing_key : SigningKey) : hs Peer :=
  let our_pubkey := verifying_key signing_key in
  their_msg ← within_timeout read_hello;
  their_hello ← expect_hello their_msg;
  _ ← ensure_that (hello_version their_hello =? PROTOCOL_VERSION) VersionMismatch;
  _ ← ensure_that (bool_decide (genesis_block_id their_hello = genesis_block_id our_hello)) GenesisMismatch;
  _ ← ensure_that (negb (bool_decide (hello_pubkey their_hello = our_pubkey))) SelfConnection;
  let nonce_a := hello_nonce their_hello in
  let nonce_b := our_nonce in
  let tip_a := tip_of their_hello in
  let tip_b := tip_of our_hello in
  let transcript_resp := compute_auth_transcript (genesis_block_id our_hello) PROTOCOL_VERSION nonce_a nonce_b x00 tip_a tip_b in
  let sig_b := sign signing_key transcript_resp in
  _ ← put_message (MHello (with_auth our_hello nonce_b nonce_a our_pubkey sig_b));
  sig_a ← within_timeout read_auth_ack;
  let transcript_init := compute_auth_transcript (genesis_block_id their_hello) PROTOCOL_VERSION nonce_a nonce_b x01 tip_a tip_b in
  _ ← lift (verify_peer_sig (hello_pubkey their_hello) transcript_init sig_a);
  _ ← set_identity (hello_pubkey their_hello);
  keys ← session_keys their_hello nonce_a nonce_b signing_key;
  mret (connected addr their_hello true (snd keys) (fst keys)).

(** [Peer::handshake] without [is_inbound]. *)
Definition initiator (addr : SocketAddr) (our_hello : HelloMsg) (our_nonce : bytes) (signing_key : SigningKey) : hs Peer :=
  let our_pubkey := verifying_key signing_key in
  _ ← put_message (MHello (with_auth our_hello our_nonce (replicate 32 x00) our_pubkey (replicate 64 x00)));
  their_msg ← within_timeout read_hello;
  their_hello ← expect_hello their_msg;
  _ ← ensure_that (hello_version their_hello =? PROTOCOL_VERSION) VersionMismatch;
  _ ← ensure_that (bool_decide (genesis_block_id their_hello = genesis_block_id our_hello)) GenesisMismatch;
  _ ← ensure_that (bool_decide (echo their_hello = our_nonce)) NonceMismatch;
  _ ← ensure_that (negb (bool_decide (hello_pubkey their_hello = our_pubkey))) SelfConnection;
  let nonce_a := our_nonce in
  let nonce_b := hello_nonce their_hello in
  let tip_a := tip_of our_hello in
  let tip_b := tip_of their_hello in
  let transcript_resp := compute_auth_transcript (genesis_block_id our_hello) PROTOCOL_VERSION nonce_a nonce_b x00 tip_a tip_b in
  _ ← lift (verify_peer_sig (hello_pubkey their_hello) transcript_resp (hello_sig their_hello));
  _ ← set_identity (hello_pubkey their_hello);
  let transcript_init := compute_auth_transcript (genesis_block_id our_hello) PROTOCOL_VERSION nonce_a nonce_b x01 tip_a tip_b in
  let sig_a := sign signing_key transcript_init in
  _ ← put_message (MAuthAck {| ack_sig := sig_a |});
  keys ← session_keys their_hello nonce_a nonce_b signing_key;
  mret (connected addr their_hello false (fst keys) (snd keys)).

Definition handshake (addr : SocketAddr) (our_hello : HelloMsg) (our_nonce : bytes) (is_inbound : bool) (signing_key : SigningKey) : hs Peer :=
  if is_inbound then responder addr our_hello our_nonce signing_key else initiator addr our_hello our_nonce signing_key.
End Handshake.
