(* ===== verification/HandshakeFacts.v ===== *)
(** * What a handshake establishes

    Two honest ends that read each other's bytes agree on mirrored keys; and an
    end that accepts a peer holds a statement about this very session that the
    owner of the peer's key has signed. *)

From Stdlib Require Import Strings.String.
From S2P Require Import Prelude Bytes Codec Hash Transaction Block Wire Jets PeerRegistry Wallet Reader Framing FramingFacts FramingSafety Handshake.
#[local] Open Scope Z_scope.
#[local] Open Scope list_scope.

Create HintDb safety.

(** ** Inversion of runs *)

Lemma io_bind_Got {A B} (m : io A) (k : A -> io B) f b f' : (m ≫= k) f = (Got b, f') -> exists a f1, m f = (Got a, f1) /\ k a f1 = (Got b, f').
Proof. unfold mbind, io_bind. destruct (m f) as [[a| |e] f1]; [|done..]. by exists a, f1. Qed.
Lemma hs_bind_Ok {A B} (m : hs A) (k : A -> hs B) c b c' : (m ≫= k) c = Some (Ok b, c') -> exists a c1, m c = Some (Ok a, c1) /\ k a c1 = Some (Ok b, c').
Proof. unfold mbind, hs_bind. destruct (m c) as [[[a|e] c1]|]; [|done..]. by exists a, c1. Qed.
Lemma hs_bind_None {A B} (m : hs A) (k : A -> hs B) c : (m ≫= k) c = None -> m c = None \/ exists a c1, m c = Some (Ok a, c1) /\ k a c1 = None.
Proof. unfold mbind, hs_bind. destruct (m c) as [[[a|e] c1]|]; [|done|by left]. right. by exists a, c1. Qed.
Lemma ensure_that_Ok b e c u c' : ensure_that b e c = Some (Ok u, c') -> b = true /\ c' = c.
Proof. unfold ensure_that. destruct b; [|done]. by intros [= _ <-]. Qed.
Lemma lift_Ok {A} (r : result PeerError A) c a c' : lift r c = Some (Ok a, c') -> r = Ok a /\ c' = c.
Proof. by intros [= -> ->]. Qed.
Lemma within_timeout_Ok {A} (r : Z -> io A) c a c' : within_timeout r c = Some (Ok a, c') -> exists d f f', r d f = (Got a, f').
Proof. unfold within_timeout. destruct (r _ _) as [[x| |e] f'] eqn:E; [|done..]. intros [= -> _]. by eexists _, _, _. Qed.
Lemma expect_hello_Ok m c h c' : expect_hello m c = Some (Ok h, c') -> m = MHello h /\ c' = c.
Proof. destruct m; try done. by intros [= -> ->]. Qed.

Lemma read_hello_wf d f m f' : read_hello d f = (Got m, f') -> Message_wf m.
Proof.
  unfold read_hello. intros (t & f1 & _ & E)%io_bind_Got. destruct (negb _); [done|]. apply io_bind_Got in E as (n & f2 & _ & E).
  destruct (_ <? _); [done|]. apply io_bind_Got in E as (p & f3 & _ & E). destruct (Message_deserialize _) as [[m' k]|] eqn:Em; [|done].
  injection E as <- _. by apply (proj2 message_codec_correct) in Em as [Hwf _].
Qed.

(** ** What an end has heard *)

(** [x] is on the wire; or it is the zeros that stand for the fields that a Hello of
    an old version lacks. *)
Definition heard (x wire : bytes) : Prop := (exists before after, wire = before ++ x ++ after) \/ x = replicate (length x) x00.

Lemma length_le_bytes n z : length (le_bytes n z) = n.
Proof. pose proof (len_le_bytes n z) as E. unfold len in E. lia. Qed.
Lemma heard_within x bs before after : heard x bs -> heard x (before ++ bs ++ after).
Proof. intros [(b & a & ->)|Hz]; [left|by right]. exists (before ++ b), (a ++ after). by rewrite <- !app_assoc. Qed.
Lemma heard_padded (a x b p : bytes) n : a ++ x ++ b = p ++ replicate n x00 -> (length a + length x <= length p \/ length p <= length a)%nat -> heard x p.
Proof.
  intros E [Hl|Hl].
  - left. exists a, (drop (length a + length x) p). rewrite app_assoc in E. apply (f_equal (take (length (a ++ x)))) in E.
    rewrite take_app_length, take_app_le in E by (rewrite length_app; lia). rewrite length_app in E. rewrite app_assoc, E. by rewrite take_drop.
  - right. apply (f_equal (fun l => take (length x) (drop (length a) l))) in E. rewrite drop_app_length, take_app_length in E. rewrite E at 1.
    rewrite drop_app_ge, drop_replicate, take_replicate by lia. f_equal. apply (f_equal length) in E. rewrite length_take, length_drop, length_app, length_replicate in E. lia.
Qed.

Definition hello_heard (m : Message) (bs : bytes) : Prop := forall h, m = MHello h -> heard (hello_nonce h) bs /\ heard (hello_sig h) bs.
Lemma decoded_hello_heard data m n : Message_deserialize data = Ok (m, n) -> hello_heard m data.
Proof.
  intros (Hwf & t & p & q & rest & -> & _ & _ & Es & Hq)%(proj2 message_codec_correct) h ->. destruct Hwf as [(_ & Hg & _ & Hb & Hw & Hn & He & Hk & Hs) _].
  unfold Message_serialize in Es. cbn [message_payload] in Es.
  assert (forall (a b : byte) (x y : bytes), Ok (E := SerError) (a :: le_bytes 4 (len x) ++ x) = Ok (b :: le_bytes 4 (len y) ++ y) -> x = y) as Hinj.
  { clear. intros a b x y E. assert (forall (c : byte) (z : bytes), drop 5 (c :: le_bytes 4 (len z) ++ z) = z) as Hd5.
    { intros c z. cbn [drop]. rewrite drop_app_ge, length_le_bytes by (rewrite length_le_bytes; lia). done. }
    rewrite <- (Hd5 a x), <- (Hd5 b y). f_equal. congruence. }
  apply Hinj in Es. subst q. clear Hinj.
  unfold hash_wf, len in *. assert (exists k, serialize_hello h = p ++ replicate k x00 /\ (length p = 108 \/ length p = 172 \/ length p = 268)%nat) as (k & Ep & Hl).
  { destruct Hq as [E|(_ & Hl & E)].
    - exists 0%nat. rewrite E, app_nil_r. split; [done|]. rewrite <- E. right. right. unfold serialize_hello. rewrite !length_app, !length_le_bytes. lia.
    - eexists. split; [exact E|]. unfold len in Hl. lia. }
  change (t :: le_bytes 4 (Z.of_nat (length p)) ++ p ++ rest) with ([t] ++ (le_bytes 4 (Z.of_nat (length p)) ++ p ++ rest)). rewrite (app_assoc [t]). unfold serialize_hello in Ep.
  split; apply heard_within.
  - apply (heard_padded (le_bytes 4 (hello_version h) ++ genesis_block_id h ++ le_bytes 8 (best_height h) ++ best_block_id h ++ hello_work h) _ (echo h ++ hello_pubkey h ++ hello_sig h) _ k).
    { by rewrite <- !app_assoc. }
    rewrite !length_app, !length_le_bytes. lia.
  - apply (heard_padded (le_bytes 4 (hello_version h) ++ genesis_block_id h ++ le_bytes 8 (best_height h) ++ best_block_id h ++ hello_work h ++ hello_nonce h ++ echo h ++ hello_pubkey h) _ [] _ k).
    { by rewrite <- !app_assoc, app_nil_r. }
    rewrite !length_app, !length_le_bytes. lia.
Qed.

Lemma takes_hello d : takes (read_hello d) hello_heard.
Proof.
  eapply (io_takes_bind _ _ _ (fun t m bs => hello_heard m (t :: bs))); [apply takes_u8| |by intros t m b1 b2 -> Hm]. intros t _ _. destruct (negb _); [apply takes_broken|].
  eapply (io_takes_bind _ _ _ (fun n m bs => hello_heard m (t :: le_bytes 4 n ++ bs))); [apply takes_u32| |by intros n m b1 b2 [-> _] Hm]. intros n _ _. destruct (_ <? _); [apply takes_broken|].
  eapply (io_takes_bind _ _ _ (fun p m bs => hello_heard m (t :: le_bytes 4 n ++ p) /\ bs = [])); [apply takes_exact| |intros p m b1 b2 [-> _] [Hm ->]; by rewrite app_nil_r].
  intros p _ _. destruct (Message_deserialize _) as [[m k]|] eqn:E; [|apply takes_broken]. eapply takes_mono; [apply io_takes_ret|]. intros m' bs [-> ->]. split; [|done]. by eapply decoded_hello_heard.
Qed.
Lemma takes_ack d : takes (read_auth_ack d) (fun sig bs => len sig = 64 /\ exists before, bs = before ++ sig).
Proof.
  eapply (io_takes_bind _ _ _ (fun _ sig bs => len sig = 64 /\ exists before, bs = before ++ sig)); [apply takes_u8| |intros t sig b1 b2 _ [Hl [x ->]]; split; [done|]; exists (b1 ++ x); by rewrite app_assoc].
  intros t _ _. destruct (negb _); [apply takes_broken|].
  eapply (io_takes_bind _ _ _ (fun _ sig bs => len sig = 64 /\ bs = sig)); [apply takes_u32| |intros n sig b1 b2 _ [Hl ->]; split; [done|]; by exists b1].
  intros n _ _. destruct (negb _); [apply takes_broken|]. eapply takes_mono; [apply takes_exact|]. intros a bs [-> Hl]. unfold len. by rewrite Hl.
Qed.

Lemma within_timeout_takes {A} (r : Z -> io A) P c a c' : (forall d, takes (r d) P) -> within_timeout r c = Some (Ok a, c') ->
  exists bs, data (inflow c) = bs ++ data (inflow c') /\ P a bs.
Proof.
  intros Hr. unfold within_timeout. destruct (r _ _) as [[x| |e] f'] eqn:E; [|done..]. destruct (Hr _ _ _ _ E) as (bs & Hd & HP). intros [= -> <-]. exists bs. split; [done|]. by apply HP.
Qed.
Lemma put_inflow m c u c' : put_message m c = Some (Ok u, c') -> inflow c' = inflow c.
Proof.
  intros (bs & c1 & [_ ->]%lift_Ok & E)%hs_bind_Ok. unfold put in E. destruct (head (fates c)) as [[n|]|]; [done|..]; by injection E as _ <-.
Qed.

Section Runs.
Context `{Sha2} `{Ed25519} `{Signer} `{!Montgomery}.

Lemma verify_peer_sig_Ok k t s : verify_peer_sig k t s = Ok tt <-> is_weak_ed25519_key k = false /\ exists vk, ed_key_from_bytes k = Some vk /\ ed_verify vk t s = true.
Proof.
  unfold verify_peer_sig. destruct (is_weak_ed25519_key k); [split; [done|by intros []]|]. destruct (ed_key_from_bytes k) as [vk|]; [|split; [done|by intros (_ & vk & ? & _)]].
  destruct (ed_verify vk t s) eqn:E; split; try done; [intros _; split; [done|by exists vk]|intros (_ & vk' & [= <-] & Hv); congruence].
Qed.

(** What an accepting end has read from its peer. *)
Record accepted (our_hello their_hello : HelloMsg) (our_key : SigningKey) : Prop := {
  ac_wf : HelloMsg_wf their_hello;
  ac_version : hello_version their_hello = PROTOCOL_VERSION;
  ac_genesis : genesis_block_id their_hello = genesis_block_id our_hello;
  ac_other : hello_pubkey their_hello <> verifying_key our_key;
  ac_strong : is_weak_ed25519_key (hello_pubkey their_hello) = false
}.
Lemma session_keys_Ok h na nb sk c ks c' : session_keys h na nb sk c = Some (Ok ks, c') ->
  exists vk, ed_key_from_bytes (hello_pubkey h) = Some vk /\
    ks = derive_directional_keys (compute_session_key (genesis_block_id h) PROTOCOL_VERSION na nb (shared_secret vk sk)).
Proof. unfold session_keys. destruct (ed_key_from_bytes _) as [vk|]; [|done]. intros [= <- _]. by exists vk. Qed.

Lemma responder_accepts addr our_hello our_nonce sk c p c' : responder addr our_hello our_nonce sk c = Some (Ok p, c') ->
  exists their ks sig vk, accepted our_hello their sk /\ p = connected addr their true (snd ks) (fst ks) /\
    ed_key_from_bytes (hello_pubkey their) = Some vk /\
    ks = derive_directional_keys (compute_session_key (genesis_block_id their) PROTOCOL_VERSION (hello_nonce their) our_nonce (shared_secret vk sk)) /\
    ed_verify vk (compute_auth_transcript (genesis_block_id their) PROTOCOL_VERSION (hello_nonce their) our_nonce x01 (tip_of their) (tip_of our_hello)) sig = true /\
    heard (hello_nonce their) (data (inflow c)) /\ heard sig (data (inflow c)) /\ len sig = 64.
Proof.
  unfold responder. intros (m & c1 & Hread & Hr)%hs_bind_Ok. pose proof (within_timeout_takes _ _ _ _ _ takes_hello Hread) as (b1 & Hb1 & Hm).
  apply within_timeout_Ok in Hread as (d & f & f' & E%read_hello_wf).
  apply hs_bind_Ok in Hr as (their & c2 & [-> ->]%expect_hello_Ok & Hr). apply hs_bind_Ok in Hr as (u1 & c3 & [Hv%Z.eqb_eq ->]%ensure_that_Ok & Hr).
  apply hs_bind_Ok in Hr as (u2 & c4 & [Hg%bool_decide_eq_true ->]%ensure_that_Ok & Hr). apply hs_bind_Ok in Hr as (u3 & c5 & [Hk%negb_true_iff%bool_decide_eq_false ->]%ensure_that_Ok & Hr).
  apply hs_bind_Ok in Hr as (u4 & c6 & Hput%put_inflow & Hr). apply hs_bind_Ok in Hr as (sig & c7 & Hack & Hr).
  apply (within_timeout_takes _ _ _ _ _ takes_ack) in Hack as (b2 & Hb2 & Hl & before & ->). rewrite Hput in Hb2. destruct (Hm _ eq_refl) as [Hn _].
  assert (heard (hello_nonce their) (data (inflow c))) as Hnonce by (rewrite Hb1; by apply (heard_within _ _ [])).
  assert (heard sig (data (inflow c))) as Hsig by (left; rewrite Hb1, Hb2; exists (b1 ++ before), (data (inflow c7)); by rewrite <- !app_assoc). clear Hb1 Hb2 Hm Hn.
  apply hs_bind_Ok in Hr as ([] & c8 & [(Hw & vk & Hvk & Hver)%verify_peer_sig_Ok _]%lift_Ok & Hr). apply hs_bind_Ok in Hr as (u5 & c9 & _ & Hr).
  apply hs_bind_Ok in Hr as (ks & c10 & (vk' & Hvk' & Hks)%session_keys_Ok & Hr). injection Hr as <- _. rewrite Hvk in Hvk'. injection Hvk' as <-.
  exists their, ks, sig, vk. split_and!; [split; [apply E|done..]|done..].
Qed.
Lemma initiator_accepts addr our_hello our_nonce sk c p c' : initiator addr our_hello our_nonce sk c = Some (Ok p, c') ->
  exists their ks vk, accepted our_hello their sk /\ p = connected addr their false (fst ks) (snd ks) /\ echo their = our_nonce /\
    ed_key_from_bytes (hello_pubkey their) = Some vk /\
    ks = derive_directional_keys (compute_session_key (genesis_block_id their) PROTOCOL_VERSION our_nonce (hello_nonce their) (shared_secret vk sk)) /\
    ed_verify vk (compute_auth_transcript (genesis_block_id our_hello) PROTOCOL_VERSION our_nonce (hello_nonce their) x00 (tip_of our_hello) (tip_of their)) (hello_sig their) = true /\
    heard (hello_nonce their) (data (inflow c)) /\ heard (hello_sig their) (data (inflow c)).
Proof.
  unfold initiator. intros (u0 & c0 & Hput%put_inflow & Hr)%hs_bind_Ok. apply hs_bind_Ok in Hr as (m & c1 & Hread & Hr).
  pose proof (within_timeout_takes _ _ _ _ _ takes_hello Hread) as (b1 & Hb1 & Hm). rewrite Hput in Hb1.
  assert (hello_heard m (data (inflow c))) as Hheard by (intros h Eh; rewrite Hb1; destruct (Hm h Eh); split; by apply (heard_within _ _ [])). clear Hb1 Hm.
  apply within_timeout_Ok in Hread as (d & f & f' & E%read_hello_wf).
  apply hs_bind_Ok in Hr as (their & c2 & [-> _]%expect_hello_Ok & Hr). apply hs_bind_Ok in Hr as (u1 & c3 & [Hv%Z.eqb_eq _]%ensure_that_Ok & Hr).
  apply hs_bind_Ok in Hr as (u2 & c4 & [Hg%bool_decide_eq_true _]%ensure_that_Ok & Hr). apply hs_bind_Ok in Hr as (u3 & c5 & [He%bool_decide_eq_true _]%ensure_that_Ok & Hr).
  apply hs_bind_Ok in Hr as (u4 & c6 & [Hk%negb_true_iff%bool_decide_eq_false _]%ensure_that_Ok & Hr).
  apply hs_bind_Ok in Hr as ([] & c7 & [(Hw & vk & Hvk & Hver)%verify_peer_sig_Ok _]%lift_Ok & Hr). apply hs_bind_Ok in Hr as (u5 & c8 & _ & Hr).
  apply hs_bind_Ok in Hr as (u6 & c9 & _ & Hr). apply hs_bind_Ok in Hr as (ks & c10 & (vk' & Hvk' & Hks)%session_keys_Ok & Hr).
  injection Hr as <- _. rewrite Hvk in Hvk'. injection Hvk' as <-. destruct (Hheard _ eq_refl) as [Hhn Hhs].
  exists their, ks, vk. split_and!; [split; [apply E|done..]|done..].
Qed.

(** ** No panic *)

Definition safe {A} (m : hs A) : Prop := forall c, m c <> None.
Lemma hs_safe_bind {A B} (m : hs A) (k : A -> hs B) : safe m -> (forall a c c', m c = Some (Ok a, c') -> safe (k a)) -> safe (m ≫= k).
Proof. intros Hm Hk c. unfold mbind, hs_bind. destruct (m c) as [[[a|e] c1]|] eqn:E; [by apply (Hk a c c1)|done|by destruct (Hm c)]. Qed.
Lemma hs_safe_ret {A} (a : A) : safe (mret a).
Proof. done. Qed.
Lemma hs_safe_lift {A} (r : result PeerError A) : safe (lift r).
Proof. done. Qed.
Lemma hs_safe_ensure b e : safe (ensure_that b e).
Proof. by destruct b. Qed.
Lemma hs_safe_within {A} (r : Z -> io A) : safe (within_timeout r).
Proof. intros c. unfold within_timeout. by destruct (r _ _) as [[] ?]. Qed.
Lemma hs_safe_put m : safe (put_message m).
Proof. apply hs_safe_bind; [apply hs_safe_lift|]. intros bs c c' _ c1. unfold put. by destruct (head (fates c1)) as [[n|]|]. Qed.
Lemma hs_safe_expect m : safe (expect_hello m).
Proof. by destruct m. Qed.
Lemma hs_safe_identity k : safe (set_identity k).
Proof. done. Qed.
Lemma hs_safe_keys h na nb sk : ed_key_from_bytes (hello_pubkey h) <> None -> safe (session_keys h na nb sk).
Proof. intros Hk c. unfold session_keys. by destruct (ed_key_from_bytes _). Qed.
Lemma verified_key k t s c u c' : lift (verify_peer_sig k t s) c = Some (Ok u, c') -> ed_key_from_bytes k <> None.
Proof. destruct u. intros [(_ & vk & -> & _)%verify_peer_sig_Ok _]%lift_Ok. done. Qed.
#[local] Hint Resolve hs_safe_ret hs_safe_lift hs_safe_ensure hs_safe_within hs_safe_put hs_safe_expect hs_safe_identity : safety.

Lemma handshake_safe addr h nonce sk : safe (responder addr h nonce sk) /\ safe (initiator addr h nonce sk).
Proof.
  split.
  - unfold responder. do 7 (apply hs_safe_bind; [auto with safety|intros ? ? ? ?]). apply hs_safe_bind; [auto with safety|intros ? ? ? Hv%verified_key].
    apply hs_safe_bind; [auto with safety|intros ? ? ? ?]. apply hs_safe_bind; [by apply hs_safe_keys|intros ? ? ? ?; apply hs_safe_ret].
  - unfold initiator. do 7 (apply hs_safe_bind; [auto with safety|intros ? ? ? ?]). apply hs_safe_bind; [auto with safety|intros ? ? ? Hv%verified_key].
    do 2 (apply hs_safe_bind; [auto with safety|intros ? ? ? ?]). apply hs_safe_bind; [by apply hs_safe_keys|intros ? ? ? ?; apply hs_safe_ret].
Qed.
End Runs.

(** ** Authenticity *)

Section Authentic.
Context `{Sha2} `{Ed25519} `{Signer} `{!Montgomery}.

(** What a handshake signature is about. *)
Record Statement := {
  s_genesis : Hash256; s_version : Z; s_nonce_a : bytes; s_nonce_b : bytes; s_role : byte;
  s_height_a : Z; s_block_a : Hash256; s_work_a : bytes; s_height_b : Z; s_block_b : Hash256; s_work_b : bytes
}.
Definition Statement_wf (s : Statement) : Prop :=
  Forall hash_wf [s_genesis s; s_nonce_a s; s_nonce_b s; s_block_a s; s_work_a s; s_block_b s; s_work_b s] /\
  in_u32 (s_version s) /\ in_u64 (s_height_a s) /\ in_u64 (s_height_b s).
Definition statement_preimage (s : Statement) : bytes :=
  auth_preimage (s_genesis s) (s_version s) (s_nonce_a s) (s_nonce_b s) (s_role s)
    (tip_commitment (s_height_a s) (s_block_a s) (s_work_a s)) (tip_commitment (s_height_b s) (s_block_b s) (s_work_b s)).
Definition transcript (s : Statement) : bytes := sha2_digest (statement_preimage s).

Lemma transcript_binds s s' : Statement_wf s -> Statement_wf s' -> collision_free [statement_preimage s] [statement_preimage s'] -> transcript s = transcript s' -> s = s'.
Proof.
  intros (Hw & Hv & Ha & Hb) (Hw' & Hv' & Ha' & Hb') Hcf E. rewrite !Forall_cons in Hw, Hw'. destruct_and!.
  destruct (auth_transcript_binding (s_genesis s) (s_genesis s') (s_version s) (s_version s') (s_nonce_a s) (s_nonce_a s') (s_nonce_b s) (s_nonce_b s') (s_role s) (s_role s')
    (s_height_a s) (s_height_a s') (s_height_b s) (s_height_b s') (s_block_a s) (s_block_a s') (s_block_b s) (s_block_b s') (s_work_a s) (s_work_a s') (s_work_b s) (s_work_b s'))
    as (E1 & E2 & E3); [by rewrite !Forall_cons|done|done|by rewrite !Forall_cons|done|exact E|].
  destruct s, s'. cbn in *. congruence.
Qed.

(** The statement that the peer's signature is about, as this end sees it: an
    initiator signs as such ([x01]), a responder as the other. *)
Definition session_statement (is_inbound : bool) (ours : HelloMsg) (our_nonce their_nonce : bytes) (p : Peer) : Statement :=
  if is_inbound then
    {| s_genesis := genesis_block_id ours; s_version := PROTOCOL_VERSION; s_nonce_a := their_nonce; s_nonce_b := our_nonce; s_role := x01;
       s_height_a := p_height p; s_block_a := p_block_id p; s_work_a := p_work p;
       s_height_b := best_height ours; s_block_b := best_block_id ours; s_work_b := hello_work ours |}
  else
    {| s_genesis := genesis_block_id ours; s_version := PROTOCOL_VERSION; s_nonce_a := our_nonce; s_nonce_b := their_nonce; s_role := x00;
       s_height_a := best_height ours; s_block_a := best_block_id ours; s_work_a := hello_work ours;
       s_height_b := p_height p; s_block_b := p_block_id p; s_work_b := p_work p |}.

Lemma handshake_signed is_inbound addr ours our_nonce sk c p c' : handshake addr ours our_nonce is_inbound sk c = Some (Ok p, c') ->
  exists their vk sig s_k r_k, accepted ours their sk /\ p = connected addr their is_inbound s_k r_k /\ ed_key_from_bytes (p_identity p) = Some vk /\
    ed_verify vk (transcript (session_statement is_inbound ours our_nonce (hello_nonce their) p)) sig = true /\
    heard (hello_nonce their) (data (inflow c)) /\ heard sig (data (inflow c)) /\ len sig = 64.
Proof.
  destruct is_inbound; cbn [handshake]; intros Hr.
  - apply responder_accepts in Hr as (their & ks & sig & vk & Hac & -> & Hvk & _ & Hv & Hn & Hs & Hl). exists their, vk, sig, (snd ks), (fst ks). split_and!; [done..| |done|done|done].
    rewrite (ac_genesis _ _ _ Hac) in Hv. exact Hv.
  - apply initiator_accepts in Hr as (their & ks & vk & Hac & -> & _ & Hvk & _ & Hv & Hn & Hs). exists their, vk, (hello_sig their), (fst ks), (snd ks). split_and!; [done..|].
    destruct (ac_wf _ _ _ Hac) as (_ & _ & _ & _ & _ & _ & _ & _ & Hl). exact Hl.
Qed.
Lemma session_statement_wf is_inbound addr ours our_nonce their s_k r_k sk : HelloMsg_wf ours -> len our_nonce = 32 -> accepted ours their sk ->
  Statement_wf (session_statement is_inbound ours our_nonce (hello_nonce their) (connected addr their is_inbound s_k r_k)).
Proof.
  intros (? & ? & ? & ? & ? & _) ? [(? & ? & ? & ? & ? & ? & _) _ _ _ _]. unfold Statement_wf. destruct is_inbound; cbn -[in_u32]; rewrite !Forall_cons;
    (split; [split_and!; try done; apply Forall_nil_2|split; [vm_compute; split; discriminate|done]]).
Qed.

(** What came over this connection holds no forged signature for this session: a
    signature on the wire that verifies, under the peer's key, the statement of this
    session with a nonce from the wire is one the owner of the key has made. *)
Definition not_forged (is_inbound : bool) (ours : HelloMsg) (our_nonce wire : bytes) (p : Peer) (history : list Statement) : Prop :=
  forall vk their_nonce sig, ed_key_from_bytes (p_identity p) = Some vk -> heard their_nonce wire -> heard sig wire -> len their_nonce = 32 -> len sig = 64 ->
    ed_verify vk (transcript (session_statement is_inbound ours our_nonce their_nonce p)) sig = true ->
    transcript (session_statement is_inbound ours our_nonce their_nonce p) ∈ map transcript history.

(** C18: handshakes authenticate.  A handshake never panics, whatever comes over the
    connection.  An end that accepts a peer has a peer of its own chain and version,
    with a strong key that is not its own.  And when no signature that came over
    this connection is forged for this session ([not_forged]: what verifies under the
    peer's key is among the statements its owner has signed), one of these statements
    is about this very session: the other role, this end's fresh nonce, this end's
    tip as it was sent, and exactly the height, block and work that the peer is
    recorded with, unless its hash collides with that of another statement. *)
Theorem handshake_authentic (is_inbound : bool) (addr : SocketAddr) (ours : HelloMsg) (our_nonce : bytes) (sk : SigningKey) :
  (forall c, handshake addr ours our_nonce is_inbound sk c <> None) /\
  forall c c' p, handshake addr ours our_nonce is_inbound sk c = Some (Ok p, c') ->
    (p_version p = PROTOCOL_VERSION /\ p_genesis p = genesis_block_id ours /\ p_identity p <> verifying_key sk /\ is_weak_ed25519_key (p_identity p) = false) /\
    forall history, HelloMsg_wf ours -> len our_nonce = 32 -> Forall Statement_wf history -> not_forged is_inbound ours our_nonce (data (inflow c)) p history ->
      exists their_nonce, let s := session_statement is_inbound ours our_nonce their_nonce p in
        collision_free [statement_preimage s] (map statement_preimage history) -> s ∈ history.
Proof.
  split; [destruct is_inbound; apply handshake_safe|]. intros c c' p Hr. apply handshake_signed in Hr as (their & vk & sig & s_k & r_k & Hac & -> & Hvk & Hv & Hhn & Hhs & Hl).
  pose proof Hac as [Hwf Hver Hgen Hother Hstrong]. split; [by split_and!|]. intros history Hours Hn Hh Hunf. exists (hello_nonce their). cbv zeta. intros Hcf.
  assert (len (hello_nonce their) = 32) as Hln by apply Hwf. specialize (Hunf _ _ _ Hvk Hhn Hhs Hln Hl Hv). clear Hv.
  apply list_elem_of_fmap in Hunf as (s' & Et & Hs'). rewrite (transcript_binds _ s'); [done|by eapply session_statement_wf|by eapply Forall_forall| |exact Et].
  intros x y Hx Hy. apply Hcf; [done|]. apply list_elem_of_singleton in Hy as ->. by apply list_elem_of_fmap_2.
Qed.
End Authentic.

(** ** Two honest ends *)

Lemma within_timeout_to {A} (r : Z -> io A) c a e rest : reads_to (r (clock (inflow c) + HANDSHAKE_TIMEOUT)) e (inflow c) a rest ->
  exists f', within_timeout r c = Some (Ok a, {| inflow := f'; outflow := outflow c; fates := fates c; peer_identity_out := peer_identity_out c |}) /\
    clock (inflow c) <= clock f' <= e /\ pieces f' = rest.
Proof. intros (f' & E & Hf'). exists f'. unfold within_timeout. by rewrite E. Qed.

Lemma len_hello h : HelloMsg_wf h -> len (serialize_hello h) = 268.
Proof. intros (_ & Hg & _ & Hb & Hw & Hn & He & Hk & Hs). unfold serialize_hello, hash_wf in *. len_lia. Qed.
Lemma hello_frame h : HelloMsg_wf h -> Message_serialize (MHello h) = Ok (x01 :: le_bytes 4 268 ++ serialize_hello h) /\
  exists n, Message_deserialize (x01 :: le_bytes 4 268 ++ serialize_hello h) = Ok (MHello h, n).
Proof.
  intros Hh. assert (Message_serialize (MHello h) = Ok (x01 :: le_bytes 4 268 ++ serialize_hello h)) as E.
  { unfold Message_serialize. cbn [message_payload]. by rewrite len_hello. }
  split; [done|]. destruct (proj1 message_codec_correct (MHello h)) as (b & Eb & Hd).
  { split; [done|]. intros t p [= _ <-]. rewrite len_hello by done. done. }
  rewrite E in Eb. injection Eb as <-. specialize (Hd []). rewrite app_nil_r in Hd. by eexists.
Qed.

Lemma read_hello_to d e f ps rest h : HelloMsg_wf h -> delivers e ps (x01 :: le_bytes 4 268 ++ serialize_hello h) -> clock f <= e -> e <= d -> pieces f = ps ++ rest ->
  reads_to (read_hello d) e f (MHello h) rest.
Proof.
  intros Hh Hd Hc He Hp. change (x01 :: le_bytes 4 268 ++ serialize_hello h) with ([x01] ++ le_bytes 4 268 ++ serialize_hello h) in Hd.
  apply delivers_app in Hd as (p1 & q & -> & Hd1 & Hd). apply delivers_app in Hd as (p2 & p3 & -> & Hd2 & Hd3). rewrite <- !app_assoc in Hp.
  inversion Hd1 as [|[t0 q] ? ? ? [Hq Ht0] Hnil]; subst. inversion Hnil; subst. cbn in Hq, Ht0. subst q.
  eapply reads_to_bind; [by eapply read_u8_to|]. intros f1 Hc1 Hp1. rewrite bool_decide_true by done. cbn [negb].
  eapply reads_to_bind; [eapply read_u32_to; [exact Hd2|lia|lia|exact Hp1|by vm_compute]|]. intros f2 Hc2 Hp2. change (HELLO_V4_PAYLOAD_SIZE <? 268) with false. cbn beta iota.
  eapply reads_to_bind; [eapply read_exact_to; [exact Hd3|lia|lia|exact Hp2|by rewrite <- to_nat_len, len_hello]|]. intros f3 Hc3 Hp3.
  destruct (proj2 (hello_frame h Hh)) as [n ->]. apply reads_to_ret; [lia|done].
Qed.
Lemma read_ack_to d e f ps rest sig : len sig = 64 -> delivers e ps (MSG_AUTH_ACK :: le_bytes 4 64 ++ sig) -> clock f <= e -> e <= d -> pieces f = ps ++ rest ->
  reads_to (read_auth_ack d) e f sig rest.
Proof.
  intros Hs Hd Hc He Hp. change (MSG_AUTH_ACK :: le_bytes 4 64 ++ sig) with ([MSG_AUTH_ACK] ++ le_bytes 4 64 ++ sig) in Hd.
  apply delivers_app in Hd as (p1 & q & -> & Hd1 & Hd). apply delivers_app in Hd as (p2 & p3 & -> & Hd2 & Hd3). rewrite <- !app_assoc in Hp.
  inversion Hd1 as [|[t0 q] ? ? ? [Hq Ht0] Hnil]; subst. inversion Hnil; subst. cbn in Hq, Ht0. subst q.
  eapply reads_to_bind; [by eapply read_u8_to|]. intros f1 Hc1 Hp1. rewrite bool_decide_true by done. cbn [negb].
  eapply reads_to_bind; [eapply read_u32_to; [exact Hd2|lia|lia|exact Hp1|by vm_compute]|]. intros f2 Hc2 Hp2. change (negb (64 =? 64)) with false. cbn beta iota.
  eapply read_exact_to; [exact Hd3|lia|lia|exact Hp2|unfold len in Hs; lia].
Qed.
