(* ===== verification/HandshakeSafety.v ===== *)
(** * Two honest ends agree *)

From Stdlib Require Import Strings.String.
From S2P Require Import Prelude Bytes Codec Hash Transaction Block Wire Jets PeerRegistry Wallet Reader Framing FramingFacts Handshake HandshakeFacts.
#[local] Open Scope Z_scope.
#[local] Open Scope list_scope.

Lemma hs_step {A B} (m : hs A) (k : A -> hs B) c a c1 : m c = Some (Ok a, c1) -> (m ≫= k) c = k a c1.
Proof. intros E. unfold mbind, hs_bind. by rewrite E. Qed.
Lemma hs_ensure {B} b e (k : unit -> hs B) c : b = true -> (ensure_that b e ≫= k) c = k tt c.
Proof. by intros ->. Qed.

(** A connection on which nothing has happened, and on which no write fails. *)
Definition fresh (f : Feed) : Conn := {| inflow := f; outflow := []; fates := []; peer_identity_out := None |}.
Definition wrote (c : Conn) (bs : bytes) : Conn := {| inflow := inflow c; outflow := outflow c ++ bs; fates := fates c; peer_identity_out := peer_identity_out c |}.
Lemma put_writes m bs c : Message_serialize m = Ok bs -> fates c = [] -> put_message m c = Some (Ok tt, wrote c bs).
Proof. intros Es Ef. unfold put_message. rewrite (hs_step _ _ _ bs c) by (unfold lift; by rewrite Es). unfold put. rewrite Ef. cbn. unfold wrote. by rewrite Ef. Qed.

Section Honest.
Context `{Sha2} `{Ed25519} `{Signer} `{!Montgomery}.

(** What is documented of [ed25519_dalek]: signatures are accepted by the
    verifying key, which is a strong key. *)
Record key_ok (sk : SigningKey) : Prop := {
  ko_key : len (verifying_key sk) = 32;
  ko_sig m : len (sign sk m) = 64;
  ko_strong : is_weak_ed25519_key (verifying_key sk) = false;
  ko_verifies : exists vk, ed_key_from_bytes (verifying_key sk) = Some vk /\ forall m, ed_verify vk m (sign sk m) = true
}.
(** Both ends of a Diffie-Hellman exchange get the same secret. *)
Definition exchange_ok (ka kb : SigningKey) : Prop :=
  forall va vb, ed_key_from_bytes (verifying_key ka) = Some va -> ed_key_from_bytes (verifying_key kb) = Some vb -> shared_secret vb ka = shared_secret va kb.

Lemma key_verifies sk t : key_ok sk -> verify_peer_sig (verifying_key sk) t (sign sk t) = Ok tt.
Proof. intros [_ _ Hs (vk & Hvk & Hv)]. apply verify_peer_sig_Ok. split; [done|by exists vk]. Qed.
Lemma with_auth_wf h n e k s : HelloMsg_wf h -> len n = 32 -> len e = 32 -> len k = 32 -> len s = 64 -> HelloMsg_wf (with_auth h n e k s).
Proof. intros (? & ? & ? & ? & ? & _) ? ? ? ?. by split_and!. Qed.

Variables (ka kb : SigningKey) (ha hb : HelloMsg) (na nb : bytes).
Hypotheses (Hka : key_ok ka) (Hkb : key_ok kb) (Hdiff : verifying_key ka <> verifying_key kb) (Hdh : exchange_ok ka kb).
Hypotheses (Hha : HelloMsg_wf ha) (Hhb : HelloMsg_wf hb) (Hna : len na = 32) (Hnb : len nb = 32).
Hypotheses (Hva : hello_version ha = PROTOCOL_VERSION) (Hvb : hello_version hb = PROTOCOL_VERSION) (Hgen : genesis_block_id ha = genesis_block_id hb).

(** The signatures and the three messages. *)
Definition sig_of (sk : SigningKey) (role : byte) : bytes := sign sk (compute_auth_transcript (genesis_block_id ha) PROTOCOL_VERSION na nb role (tip_of ha) (tip_of hb)).
Definition hello_a : HelloMsg := with_auth ha na (replicate 32 x00) (verifying_key ka) (replicate 64 x00).
Definition hello_b : HelloMsg := with_auth hb nb na (verifying_key kb) (sig_of kb x00).
Definition first_a : bytes := x01 :: le_bytes 4 268 ++ serialize_hello hello_a.
Definition ack_a : bytes := MSG_AUTH_ACK :: le_bytes 4 64 ++ sig_of ka x01.
Definition answer_b : bytes := x01 :: le_bytes 4 268 ++ serialize_hello hello_b.

Lemma hello_a_wf : HelloMsg_wf hello_a.
Proof. apply with_auth_wf; [done|done|done|apply Hka|done]. Qed.
Lemma hello_b_wf : HelloMsg_wf hello_b.
Proof. apply with_auth_wf; [done|done|done|apply Hkb|apply Hkb]. Qed.
Definition keys_of (vk : ed_key) (sk : SigningKey) : bytes * bytes := derive_directional_keys (compute_session_key (genesis_block_id ha) PROTOCOL_VERSION na nb (shared_secret vk sk)).

Lemma initiator_runs addr fa vb : ed_key_from_bytes (verifying_key kb) = Some vb -> delivers (clock fa + HANDSHAKE_TIMEOUT) (pieces fa) answer_b ->
  exists c, initiator addr ha na ka (fresh fa) = Some (Ok (connected addr hello_b false (fst (keys_of vb ka)) (snd (keys_of vb ka))), c) /\
    outflow c = first_a ++ ack_a /\ peer_identity_out c = Some (verifying_key kb) /\ pieces (inflow c) = [].
Proof.
  intros Hvk Hd. unfold initiator. rewrite (hs_step _ _ _ tt (wrote (fresh fa) first_a)) by (apply put_writes; [apply (hello_frame hello_a), hello_a_wf|done]).
  destruct (within_timeout_to read_hello (wrote (fresh fa) first_a) (MHello hello_b) (clock fa + HANDSHAKE_TIMEOUT) []) as (f1 & E1 & Hc1 & Hp1).
  { eapply read_hello_to; [apply hello_b_wf|exact Hd|cbn; unfold HANDSHAKE_TIMEOUT, NANOS; lia|cbn; lia|by rewrite app_nil_r]. }
  rewrite (hs_step _ _ _ _ _ E1). rewrite (hs_step _ _ _ hello_b _ eq_refl). rewrite hs_ensure by by apply Z.eqb_eq.
  rewrite hs_ensure by (apply bool_decide_eq_true; by rewrite Hgen). rewrite hs_ensure by by apply bool_decide_eq_true.
  rewrite hs_ensure by (apply negb_true_iff, bool_decide_eq_false; cbn; congruence).
  erewrite (hs_step _ _ _ tt) by (unfold lift; cbn [hello_b with_auth hello_pubkey hello_sig hello_nonce]; change (tip_of hello_b) with (tip_of hb); unfold sig_of; by rewrite (key_verifies kb _ Hkb)).
  erewrite (hs_step _ _ _ tt) by reflexivity.
  erewrite (hs_step _ _ _ tt) by (apply (put_writes _ ack_a); [unfold Message_serialize; cbn [message_payload ack_sig]; by rewrite (ko_sig _ Hka)|done]).
  erewrite (hs_step _ _ _ (keys_of vb ka)) by (unfold session_keys; cbn [hello_b with_auth hello_pubkey]; rewrite Hvk; unfold keys_of; rewrite Hgen; reflexivity).
  eexists. split; [reflexivity|]. done.
Qed.
Lemma responder_runs addr fb va : ed_key_from_bytes (verifying_key ka) = Some va -> delivers (clock fb + HANDSHAKE_TIMEOUT) (pieces fb) (first_a ++ ack_a) ->
  exists c, responder addr hb nb kb (fresh fb) = Some (Ok (connected addr hello_a true (snd (keys_of va kb)) (fst (keys_of va kb))), c) /\
    outflow c = answer_b /\ peer_identity_out c = Some (verifying_key ka) /\ pieces (inflow c) = [].
Proof.
  intros Hvk (p1 & p2 & Ep & Hd1 & Hd2)%delivers_app. unfold responder.
  destruct (within_timeout_to read_hello (fresh fb) (MHello hello_a) (clock fb + HANDSHAKE_TIMEOUT) p2) as (f1 & E1 & Hc1 & Hp1).
  { eapply read_hello_to; [apply hello_a_wf|exact Hd1|cbn; unfold HANDSHAKE_TIMEOUT, NANOS; lia|cbn; lia|exact Ep]. }
  rewrite (hs_step _ _ _ _ _ E1). rewrite (hs_step _ _ _ hello_a _ eq_refl). rewrite hs_ensure by by apply Z.eqb_eq.
  rewrite hs_ensure by (apply bool_decide_eq_true; by rewrite <- Hgen). rewrite hs_ensure by (apply negb_true_iff, bool_decide_eq_false; cbn; congruence).
  rewrite <- Hgen. change (tip_of hello_a) with (tip_of ha). change (hello_nonce hello_a) with na. change (genesis_block_id hello_a) with (genesis_block_id ha).
  erewrite (hs_step _ _ _ tt) by (apply (put_writes _ answer_b); [apply (hello_frame hello_b), hello_b_wf|done]).
  match goal with |- context [(within_timeout read_auth_ack ≫= _) ?c] => destruct (within_timeout_to read_auth_ack c (sig_of ka x01) (clock fb + HANDSHAKE_TIMEOUT) []) as (f2 & E2 & Hc2 & Hp2) end.
  { eapply read_ack_to; [apply Hka|exact Hd2|cbn; cbn in Hc1; lia|cbn; cbn in Hc1; lia|by rewrite app_nil_r]. }
  rewrite (hs_step _ _ _ _ _ E2). erewrite (hs_step _ _ _ tt) by (unfold lift, sig_of; cbn [hello_a with_auth hello_pubkey]; by rewrite (key_verifies ka _ Hka)). erewrite (hs_step _ _ _ tt) by reflexivity.
  erewrite (hs_step _ _ _ (keys_of va kb)) by (unfold session_keys; cbn [hello_a with_auth hello_pubkey]; rewrite Hvk; reflexivity).
  eexists. split; [reflexivity|]. done.
Qed.

(** C19: honest ends agree.  When two ends with different keys, of one chain and the
    current version, each read within the timeout what the other writes, both
    accept: each knows the other's key and tip, the key one sends with is the one
    the other receives with, in both directions, and all counters are zero, so
    the halves of the two connections fit together. *)
Theorem honest_handshake (addr_a addr_b : SocketAddr) :
  exists out_a out_b, forall fa fb : Feed,
    delivers (clock fa + HANDSHAKE_TIMEOUT) (pieces fa) out_b -> delivers (clock fb + HANDSHAKE_TIMEOUT) (pieces fb) out_a ->
    exists pa pb ca cb, handshake addr_b ha na false ka (fresh fa) = Some (Ok pa, ca) /\ handshake addr_a hb nb true kb (fresh fb) = Some (Ok pb, cb) /\
      outflow ca = out_a /\ outflow cb = out_b /\
      peer_identity_out ca = Some (verifying_key kb) /\ peer_identity_out cb = Some (verifying_key ka) /\
      (p_height pa, p_block_id pa, p_work pa) = (best_height hb, best_block_id hb, hello_work hb) /\
      (p_height pb, p_block_id pb, p_work pb) = (best_height ha, best_block_id ha, hello_work ha) /\
      let '(ra, wa, _) := into_split pa (inflow ca) [] in let '(rb, wb, _) := into_split pb (inflow cb) [] in
      recv_key ra = send_key wb /\ recv_key rb = send_key wa /\ recv_counter ra = send_counter wb /\ recv_counter rb = send_counter wa /\
      counter_buf ra = [] /\ counter_buf rb = [].
Proof.
  destruct (ko_verifies _ Hka) as (va & Hva' & _), (ko_verifies _ Hkb) as (vb & Hvb' & _). exists (first_a ++ ack_a), answer_b. intros fa fb Hda Hdb.
  destruct (initiator_runs addr_b fa vb Hvb' Hda) as (ca & Ea & Hoa & Hia & _), (responder_runs addr_a fb va Hva' Hdb) as (cb & Eb & Hob & Hib & _).
  do 2 eexists. exists ca, cb. cbn [handshake]. rewrite Ea, Eb. unfold into_split. cbn [connected recv_key send_key recv_counter send_counter counter_buf
    p_send_key p_recv_key p_send_counter p_recv_counter p_counter_buf p_height p_block_id p_work].
  unfold keys_of. rewrite (Hdh va vb Hva' Hvb'). by split_and!.
Qed.
End Honest.
