(* ===== verification/ConnectionWitness.v ===== *)
(** * Connections at work

    A writer and a reader with a pause between frames, a connection on which a
    frame is lost and another repeated, and handshakes, with small functions in
    the place of the cryptography. *)

From Stdlib Require Import Strings.String.
From S2P Require Import Prelude Bytes Codec Hash Transaction Block Wire Jets PeerRegistry Wallet Reader.
From S2P Require Import Framing FramingFacts FramingSafety Handshake HandshakeFacts HandshakeSafety.
#[local] Open Scope Z_scope.
#[local] Open Scope list_scope.

(** A polynomial of the bytes. *)
Definition checksum (data : bytes) : bytes := le_bytes 32 (fold_left (fun h b => (h * 65599 + byte_Z b + 1) mod 2 ^ 250) data 7).
#[local] Instance sum_sha : Sha2 := checksum.
(** An authenticator that knows what was sent. *)
Definition sent : list Message := [MPing; MGetTip; MPong].
Definition known : list bytes := zip_with (fun c m => le_bytes 8 c ++ encoded m) [0; 1; 2] sent.
#[local] Instance ideal_hmac : Hmac := fun _ d => replicate 32 (if bool_decide (d ∈ known) then x01 else xff).
#[local] Instance ideal_width : HmacWidth.
Proof. intros k d. unfold hmac_sha256, ideal_hmac. by destruct (bool_decide _). Qed.

(** Bytes that become readable together. *)
Definition at_once (t : Z) (bs : bytes) : list (Z * piece) := map (fun b => (t, PByte b)) bs.
Lemma at_once_delivers e t bs : t <= e -> delivers e (at_once t bs) bs.
Proof. intros Ht. induction bs as [|b bs IH]; constructor; [done|exact IH]. Qed.
Definition key : bytes := replicate 32 x05.
Definition reader_of (ps : list (Z * piece)) : ReaderState :=
  {| recv_key := key; recv_counter := 0; counter_buf := []; counter_started := None; feed := {| clock := 0; pieces := ps; progress := 0 |} |}.
Definition writer_start : WriterState := {| send_key := key; send_counter := 0; wire := [] |}.

(** ** Two rounds of a writer *)

Definition rounds : list Round :=
  [{| shutdown := false; waiting := [SendPing]; control_open := true; picked := PickNormal (Some MGetTip) |};
   {| shutdown := false; waiting := []; control_open := true; picked := PickControl (Some SendPong) |};
   {| shutdown := true; waiting := []; control_open := true; picked := PickNormal None |}].
(** The first two frames at once, the third three and a half seconds later. *)
Definition timetable : list (Z * piece) :=
  at_once 0 (framed key 0 (encoded MPing)) ++ at_once 0 (framed key 1 (encoded MGetTip)) ++ at_once 3500000000 (framed key 2 (encoded MPong)).
Lemma timetable_arrives : arrives timetable (frames key 0 (outgoing rounds)).
Proof.
  change (outgoing rounds) with [MPing; MGetTip; MPong]. unfold timetable. rewrite <- (app_nil_r (at_once 3500000000 _)). cbn [frames].
  eapply (arrives_cons 0); [reflexivity|by apply at_once_delivers|]. eapply (arrives_cons 0); [reflexivity|by apply at_once_delivers|].
  eapply (arrives_cons 3500000000); [reflexivity|by apply at_once_delivers|]. constructor.
Qed.
Lemma small_sendable m : Message_wf m -> match m with MPing | MPong | MGetTip => True | _ => False end -> sendable m.
Proof. intros Hm Hs. apply wf_sendable; [done|]. by destruct m. Qed.
Lemma small_wf m : match m with MPing | MPong | MGetTip => True | _ => False end -> Message_wf m.
Proof. intros Hs. split; [by destruct m|]. intros t p. destruct m; try done; intros [= _ <-]; done. Qed.
Lemma frames_arrive_witness : exists r w', writer_task (fun _ => None) rounds writer_start = (r, w') /\ length (wire w') = 87%nat /\
  exists n st', receive n None (reader_of timetable) = ([MPing; MGetTip; MPong], None, st') /\ recv_counter st' = send_counter w'.
Proof.
  destruct (frames_arrive rounds writer_start (reader_of timetable) None) as (r & w' & E & _ & Hw & n & st' & Hn & Hc);
    [repeat constructor; (apply small_sendable; [by apply small_wf|done])|done|by vm_compute|done|done|done|done|exact timetable_arrives|].
  exists r, w'. split; [exact E|]. split; [rewrite Hw; vm_compute; reflexivity|]. exists n, st'. split; [exact Hn|exact Hc].
Defined.
(** The reader polls three times without data before the last frame. *)
Example timetable_received : fst (receive 6 None (reader_of timetable)) = ([MPing; MGetTip; MPong], None) /\ fst (fst (receive 5 None (reader_of timetable))) = [MPing; MGetTip].
Proof. vm_compute. split; reflexivity. Qed.
(** Eight bytes of a counter that take seven seconds: the limit of five seconds is
    only tested on a buffer that an earlier call has left, and none does. *)
Definition trickle : list (Z * piece) := zip (map (fun i => Z.of_nat i * 990000000) (seq 0 8)) (map PByte (le_bytes 8 0)) ++ at_once 6930000000 (drop 8 (framed key 0 (encoded MPing))).
Example trickle_accepted : fst (reader_recv None (reader_of trickle)) = Ok (Some MPing) /\ COUNTER_DEADLINE < clock (feed (snd (reader_recv None (reader_of trickle)))).
Proof. vm_compute. split; reflexivity. Qed.

(** ** A lost frame and a repeated one *)

Definition tampered : bytes := framed key 0 (encoded MPing) ++ framed key 2 (encoded MPong) ++ framed key 0 (encoded MPing).
Lemma tampered_unforged : unforged key 0 sent tampered.
Proof.
  intros before cb frame tag after E Hcb Htag Hv%verify_frame_hmac_spec; [|exact Htag]. unfold compute_frame_hmac, hmac_sha256, ideal_hmac in Hv.
  rewrite le_bytes_val in Hv by (unfold len; lia). destruct (bool_decide (cb ++ frame ∈ known)) eqn:Ek.
  - apply bool_decide_eq_true, elem_of_lookup_zip_with in Ek as (i & c & m & Em & Hc & Hm).
    assert (length cb = length (le_bytes 8 c)) as Hl by (pose proof (len_le_bytes 8 c); unfold len in *; lia). apply app_inj_1 in Em as [-> ->]; [|exact Hl].
    exists m. destruct i as [|[|[|i]]]; [injection Hc as <-; injection Hm as <-..|done]; split_and!; vm_compute; (reflexivity || discriminate).
  - exfalso. assert (xff ∈ tampered) as Hin; [|revert Hin; apply (bool_decide_unpack (~ (xff ∈ tampered))); vm_compute; exact I].
    rewrite E, Hv. clear. set_solver.
Qed.
Lemma received_were_sent_witness : exists st, receive 3 None (reader_of (at_once 0 tampered)) = ([MPing; MPong], Some SlowPeer, st) /\ [MPing; MPong] `sublist_of` sent.
Proof.
  destruct (receive 3 None (reader_of (at_once 0 tampered))) as [[ms e] st] eqn:E. pose proof E as E'. vm_compute in E'. injection E' as E1 E2 _.
  exists st. rewrite <- E1, <- E2. split; [reflexivity|]. rewrite E1.
  apply (received_were_sent 3 None (reader_of (at_once 0 tampered)) st 0 sent ms e); [repeat constructor; by apply small_wf|reflexivity|reflexivity|exact tampered_unforged|exact E].
Defined.

(** ** Handshakes *)

(** Keys are their own verifying keys, a signature is the key and the message. *)
Definition padded_to (n : nat) (b : bytes) : bytes := take n (b ++ replicate n x00).
Lemma padded_len n b : len (padded_to n b) = Z.of_nat n.
Proof. unfold len, padded_to. rewrite length_take, length_app, length_replicate. lia. Qed.
Record Key := { secret : bytes; secret_len : length secret = 32%nat }.
#[local] Instance plain_signer : Signer := {|
  SigningKey := Key; key_bytes := secret; key_from_bytes := fun b => {| secret := replicate 32 x00; secret_len := eq_refl |};
  verifying_key := secret; sign := fun k m => padded_to 64 (secret k ++ m) |}.
#[local] Instance plain_ed : Ed25519 := {|
  ed_point := unit; ed_decompress := fun _ => Some tt; ed_is_small_order := fun _ => false; ed_key := bytes; ed_key_from_bytes := Some;
  ed_verify := fun vk m s => bool_decide (s = padded_to 64 (vk ++ m)) |}.
#[local] Instance plain_dh : Montgomery := fun vk k => le_bytes 32 (le_val vk + le_val (secret k)).

Lemma key_fine (k : Key) : key_ok k.
Proof.
  destruct k as [s Hs]. split.
  - unfold len. cbn [verifying_key plain_signer secret]. lia.
  - intros m. apply padded_len.
  - reflexivity.
  - exists s. split; [reflexivity|]. intros m. by apply bool_decide_eq_true.
Qed.
Definition alice : Key := {| secret := replicate 32 x0a; secret_len := eq_refl |}.
Definition bob : Key := {| secret := replicate 32 x0b; secret_len := eq_refl |}.
Definition hello_at (height : Z) (id : byte) : HelloMsg :=
  {| hello_version := 5; genesis_block_id := replicate 32 x01; best_height := height; best_block_id := replicate 32 id; hello_work := replicate 32 x02;
     hello_nonce := replicate 32 x00; echo := replicate 32 x00; hello_pubkey := replicate 32 x00; hello_sig := replicate 64 x00 |}.
Lemma hello_at_wf height id : in_u64 height -> HelloMsg_wf (hello_at height id).
Proof. intros Hh. split_and!; first [exact Hh|vm_compute; reflexivity|vm_compute; discriminate|vm_compute; split; discriminate]. Qed.
Definition nonce_1 : bytes := replicate 32 x11.
Definition nonce_2 : bytes := replicate 32 x22.
Definition home : SocketAddr := SockV4 [x08; x08; x08; x08] 9333.

Lemma honest_handshake_witness : exists out_a out_b pa pb ca cb,
  handshake home (hello_at 7 x70) nonce_1 false alice (fresh {| clock := 0; pieces := at_once 2000000000 out_b; progress := 0 |}) = Some (Ok pa, ca) /\
  handshake home (hello_at 9 x90) nonce_2 true bob (fresh {| clock := 0; pieces := at_once 1000000000 out_a; progress := 0 |}) = Some (Ok pb, cb) /\
  p_height pa = 9 /\ p_height pb = 7 /\ p_send_key pa = p_recv_key pb /\ p_send_key pb = p_recv_key pa.
Proof.
  destruct (@honest_handshake sum_sha plain_ed plain_signer plain_dh alice bob (hello_at 7 x70) (hello_at 9 x90) nonce_1 nonce_2 (key_fine alice) (key_fine bob)) with (addr_a := home) (addr_b := home) as (out_a & out_b & Hrun);
    [vm_compute; discriminate|intros va vb [= <-] [= <-]; unfold shared_secret, plain_dh; by rewrite Z.add_comm|
     apply hello_at_wf; vm_compute; split; discriminate|apply hello_at_wf; vm_compute; split; discriminate|reflexivity..|].
  exists out_a, out_b. destruct (Hrun {| clock := 0; pieces := at_once 2000000000 out_b; progress := 0 |} {| clock := 0; pieces := at_once 1000000000 out_a; progress := 0 |})
    as (pa & pb & ca & cb & Ea & Eb & _ & _ & _ & _ & Ha & Hb & Hk1 & Hk2 & _); [apply at_once_delivers; vm_compute; discriminate..|].
  exists pa, pb, ca, cb. split; [exact Ea|]. split; [exact Eb|]. split; [by injection Ha as -> _|]. split; [by injection Hb as -> _|]. split; [symmetry; exact Hk2|symmetry; exact Hk1].
Defined.

(** Alice calls Carol, who has signed the answer to her.  Every message has a
    signature under Carol's key; on the connection is only the one she made. *)
Definition carol : Key := {| secret := x0c :: replicate 31 x0b; secret_len := eq_refl |}.
Definition carols_answer : Statement :=
  {| s_genesis := replicate 32 x01; s_version := 5; s_nonce_a := nonce_1; s_nonce_b := nonce_2; s_role := x00;
     s_height_a := 7; s_block_a := replicate 32 x70; s_work_a := replicate 32 x02; s_height_b := 9; s_block_b := replicate 32 x90; s_work_b := replicate 32 x02 |}.
Lemma carols_answer_wf : Statement_wf carols_answer.
Proof.
  split; [cbn; repeat (constructor; [reflexivity|]); constructor|]. unfold in_u32, in_u64, U32_MAX, U64_MAX. cbn. lia.
Qed.
Definition reply : bytes := Eval vm_compute in
  encoded (MHello (with_auth (hello_at 9 x90) nonce_2 nonce_1 (secret carol) (sign carol (transcript carols_answer)))).
Definition call_with (height : Z) := handshake home (hello_at height x70) nonce_1 false alice (fresh {| clock := 0; pieces := at_once 5 reply; progress := 0 |}).
Definition ending (r : option (result PeerError Peer * Conn)) : option (result PeerError bytes) :=
  match r with Some (Ok p, _) => Some (Ok (p_identity p)) | Some (Err e, _) => Some (Err e) | None => None end.
(** The answer is good for the tip that Alice sent, and for no other. *)
Example calls_end : ending (call_with 7) = Some (Ok (secret carol)) /\ ending (call_with 8) = Some (Err AuthFailed).
Proof. vm_compute. split; reflexivity. Qed.

(** Where Carol's key is on the wire, her transcript follows, or nothing that is a
    transcript. *)
Definition signed_at (i : nat) : bool :=
  negb (bool_decide (take 32 (drop i reply) = secret carol)) ||
  bool_decide (take 32 (drop (i + 32) reply) = transcript carols_answer) || (2 ^ 250 <=? le_val (take 32 (drop (i + 32) reply))).
Lemma reply_checked : forallb signed_at (seq 0 (length reply)) = true.
Proof. vm_compute. reflexivity. Qed.
Lemma transcript_range s : length (transcript s) = 32%nat /\ le_val (transcript s) < 2 ^ 250.
Proof.
  unfold transcript, sha2_digest, sum_sha, checksum. split; [apply length_le_bytes|].
  assert (forall l h, 0 <= h < 2 ^ 250 -> 0 <= fold_left (fun h b => (h * 65599 + byte_Z b + 1) mod 2 ^ 250) l h < 2 ^ 250) as Hf.
  { induction l as [|b l IH]; intros h Hh; cbn [fold_left]; [done|]. apply IH, Z.mod_pos_bound. done. }
  specialize (Hf (statement_preimage s) 7 ltac:(lia)). rewrite le_val_bytes; [lia|]. change (256 ^ Z.of_nat 32) with (2 ^ 256). lia.
Qed.
Lemma bytes_of_at_once t bs : bytes_of (at_once t bs) = bs.
Proof. induction bs as [|b bs IH]; [reflexivity|]. cbn. f_equal. exact IH. Qed.
Lemma reply_not_forged p : p_identity p = secret carol -> not_forged false (hello_at 7 x70) nonce_1 reply p [carols_answer].
Proof.
  intros Hp vk n sig Hvk _ Hs _ _ Hv. rewrite Hp in Hvk. injection Hvk as <-. set (m := transcript _) in *. destruct (transcript_range (session_statement false (hello_at 7 x70) nonce_1 n p)) as [Hm Hr].
  fold m in Hm, Hr. apply bool_decide_eq_true in Hv. assert (sig = secret carol ++ m) as ->.
  { rewrite Hv. unfold padded_to. apply take_app_length'. by rewrite length_app, Hm. }
  destruct Hs as [(before & after & E)|Hz]; [|discriminate Hz]. assert (signed_at (length before) = true) as Hc.
  { pose proof reply_checked as Hall. rewrite forallb_forall in Hall. apply Hall, in_seq. split; [lia|]. rewrite E, !length_app, Hm. cbn. lia. }
  unfold signed_at in Hc. rewrite <- app_assoc in E. rewrite <- drop_drop, E, drop_app_length in Hc.
  rewrite (take_app_length' (secret carol) _ 32), (drop_app_length' (secret carol) _ 32), (take_app_length' m _ 32), bool_decide_true in Hc by done.
  cbn [negb orb] in Hc. apply orb_true_iff in Hc as [Hc%bool_decide_eq_true|Hc%Z.leb_le]; [rewrite Hc; left|lia].
Qed.
Lemma handshake_authentic_witness : exists p c', call_with 7 = Some (Ok p, c') /\ p_identity p <> secret alice /\
  exists their_nonce, let s := session_statement false (hello_at 7 x70) nonce_1 their_nonce p in
    collision_free [statement_preimage s] (map statement_preimage [carols_answer]) -> s ∈ [carols_answer].
Proof.
  pose proof (proj1 calls_end) as He. destruct (call_with 7) as [[[p|e] c']|] eqn:E; [|discriminate He..]. injection He as Hp. exists p, c'. split; [reflexivity|].
  destruct (@handshake_authentic sum_sha plain_ed plain_signer plain_dh false home (hello_at 7 x70) nonce_1 alice) as [_ Hacc].
  destruct (Hacc (fresh {| clock := 0; pieces := at_once 5 reply; progress := 0 |}) c' p E) as [(_ & _ & Hid & _) Hs]. split; [exact Hid|]. apply Hs.
  - apply hello_at_wf; vm_compute; split; discriminate.
  - reflexivity.
  - constructor; [exact carols_answer_wf|constructor].
  - change (data (inflow (fresh {| clock := 0; pieces := at_once 5 reply; progress := 0 |}))) with (bytes_of (at_once 5 reply)). rewrite bytes_of_at_once. by apply reply_not_forged.
Defined.
